(* ===== verification/_CoqProject ===== *)
-Q . S2P
Prelude.v
CStd.v
Env.v
Heap.v
RetryQueue.v
Router.v
RoutesMask.v
Sched.v
Delivery.v
Invariant.v
Task.v
Output.v
Dispatch.v
Engine.v
Agent.v
ChunkFrame.v
ChunkSpace.v
ChunkAccount.v
ChunkRelease.v
InputChunk.v
ChunkMeta.v
DirectRoutes.v
LogAppend.v
Ingest.v
Filter.v
Backpressure.v
BucketQueue.v
MsgPack.v
Packer.v
Sds.v
CflAccessor.v
LogDecoder.v
Conditions.v
MpChunk.v
Csv.v
MsgUnpack.v
RecordEncoder.v
DynamicField.v
LogEncoder.v
RouteCondition.v
ChunkEncode.v
LogSplit.v
LogRoundtrip.v
LogIngest.v
HashTable.v
Utf8.v
Unescape.v
Base64.v
JsonString.v
