(* ===== verification/Prelude.v ===== *)
(** * Verification of the Telemetry Forge Agent: the delivery core

    The agent ([src/source], a fork of Fluent Bit, in C) collects records with input plugins, routes
    them by tag to output plugins and retries what an output could not deliver.  This library models
    the code that decides what is delivered where, when and how often, and proves that it does so.

    ** The program and its model

    An input appends records to a chunk, a buffer with a tag; the static routes of the tag are a bit
    mask in the chunk.  The engine turns a chunk into a task, with one route per selected output, and
    starts it: each route becomes a flush, a coroutine of the output plugin (in the engine or in a
    worker of the output), or waits in the queue of a synchronous output.  A flush returns a verdict
    through a pipe, as a 64-bit message; the engine counts the records as delivered or dropped, or
    asks the scheduler to try again later, after a randomised exponential backoff.  A task is freed
    when no flush, queue entry or retry needs it any more.

    Each part has a file; all C files are under [src/source/src], headers in
    [src/source/include/fluent-bit]:

    - [Env]: what comes from outside - the allocator, system calls, [rand()], the clock - as scripts
      of outcomes, and the log of effects on parts that are not modelled.
    - [CStd]: what the agent uses of the C library - text, conversions of numbers, doubles - on bytes
      and on IEEE 754 numbers.  [Heap]: blocks of memory, to show leaks and double frees, and
      computations that run to a postcondition.
    - [RetryQueue]: the class of components that keep scheduled retries, the interface between tasks
      and the scheduler.  The files from [Delivery] to [Engine] are proved against it.
    - [Router]: [flb_router.c], matching of tags against patterns, and the static routes.
    - [RoutesMask]: [flb_routes_mask.c], the bit field of outputs.
    - [Sched]: [flb_scheduler.c], timers, backoff, promotion of waiting requests, timer coroutines;
      it is an instance of [RetryQueue].
    - [Delivery]: the data of [flb_task.h] and of the parts of inputs, outputs and configuration that
      tasks live in; the task map of [flb_config.c]; what tasks ask of chunks ([flb_input_chunk.c]);
      the well-formedness invariant [wf].
    - [Invariant]: how the elementary changes of the state keep [wf].
    - [Task]: [flb_task.c], tasks, routes, users and retries.
    - [Output]: [flb_output.c], flushes and the queue of synchronous outputs.
    - [Dispatch]: [flb_engine_dispatch.c], chunks become tasks, tasks are started, retries are served.
    - [Engine]: [flb_engine.c] and the start and return of flushes in [flb_output.h]: active and dropped
      routes, verdicts, the events of the core.
    - [Agent]: the theorems about all runs, and concrete runs over the scheduler of [Sched].
    - [ChunkFrame]: what the delivery core leaves alone in chunks.
    - [ChunkSpace]: [flb_input_chunk.c], the space chunks take, which outputs with a limit are charged
      for, and making room; [ChunkAccount] is the invariant of these charges, [ChunkRelease] shows that
      the operations keep it.
    - [InputChunk]: [flb_input_chunk.c], the chunks inputs fill and those restored from the backlog.
    - [LogAppend]: [flb_input_log.c], what the append of logs does with chunks: those of conditional routes
      are given to the outputs of the route; the events of the core with the filling of chunks.
    - [Ingest]: the core together with the filling of chunks, theorems about all runs.
    - [Filter]: [flb_filter.c], the filters that logs pass before they are written to a chunk.
    - [Backpressure]: [flb_input.c] and [flb_input_chunk.c], the limits that pause inputs and the resuming.
    - [ChunkMeta]: [flb_input_chunk.c] and [flb_input_log.c], the metadata of chunks: tag, event type and
      direct routes; [DirectRoutes] shows that they are read back as they were written.
    - [BucketQueue]: [flb_bucket_queue.h] and [flb_event_loop.h], events by priority.
    - [MsgPack]: [flb_mp.c], conversions between MessagePack objects and the variants of the CFL library;
      [LogDecoder]: [flb_log_event_decoder.c], log events and their groups; [Conditions]:
      [flb_conditionals.c], conditions on records; [MpChunk]: [flb_mp.c], chunks as lists of records.
    - [CflAccessor]: [flb_cfl_record_accessor.c] and [flb_cfl_ra_key.c], the values that conditions look at, found by
      key and subkeys and printed.
    - [Packer]: the growing buffer and the packer of MessagePack, and headers whose size is filled in at the
      end ([flb_mp.c]); [RecordEncoder]: the class of encoders of log records, the interface to those who
      write records; [MsgUnpack]: the unpacker of the vendored MessagePack library
      ([src/source/lib/msgpack-c]), which is what the readers of logs are used with; [DynamicField]: [flb_log_event_encoder_dynamic_field.c], a buffer with scopes;
      [LogEncoder]: [flb_log_event_encoder.c] and [flb_log_event_encoder_primitives.c], an instance of it.
    - [RouteCondition]: [flb_router_condition.c], the conditions of routes, compiled from the configuration
      and applied to the chunks and records of any encoder.
    - [ChunkEncode]: [flb_mp.c], records and chunks written with an encoder.
    - [LogSplit]: [flb_input_log.c], the logs of an append split into payloads for conditional routes.
    - [LogRoundtrip]: decoder, chunks, encoder, split and unpacker together.
    - [LogIngest]: [input_log_append] as a whole, the split of [LogSplit] and the appends of [LogAppend].
    - [HashTable]: [flb_hash_table.c], used across the agent for lookups by name and caches.
    - [Utf8], [Unescape], [JsonString]: [flb_utf8.c], [flb_unescape.c] and the part of [flb_utils.c]
      that writes JSON strings and validates UTF-8, from the lowest layer up.  [Base64]: [flb_base64.c].
    - [Sds]: [flb_sds.c], strings that grow; [Csv]: [flb_csv.c], the CSV parser, which reads a text in pieces.

    ** How code becomes definitions

    A C function is a Definition of the same name in the monad [M S] of this file: it takes and gives
    the state, and [None] is undefined behaviour - an access to a freed object, a NULL dereference,
    an index out of bounds, a division by zero, a signed overflow.  The results the C code returns
    (0, -1, NULL) are ordinary values, on which the definitions branch as the code does.  Heap objects
    are finite maps from addresses, so freed memory is recognised.  Integers are [Z]; where the code
    converts or may overflow, the wrap-around is written ([u64], [i32]).  Outcomes from outside are
    read off the scripts of [Env], over which theorems quantify: "without failures" is [calm].

    The engine's loop is a relation: an event ([Engine.event]) is a chunk handed in by an input
    ([EvChunk]), a flush of an input's chunks ([EvDispatch]), the timer of a retry ([EvRequest]), the
    start of a flush, when its coroutine is resumed ([EvStart]), its return ([EvReturn]) and the reading of its verdict ([EvVerdict]).  [Agent.reaches] holds
    of the states that any sequence of these events leads to from the initial one, in any order; so
    theorems about reachable states cover every interleaving of plugins and timers.

    [Ingest.core_reachable] adds the appends of records and of logs and the restoring of chunks, which replace
    [EvChunk] there; the state is [ChunkSpace.core], that of the delivery core with the sizes, charges
    and tables it does not look at.  What the storage layer and the filters answer during an append is
    an argument of the event, so theorems cover every answer.

    The invariant [wf] accounts for every pair (task, output) that is in flight, queued or scheduled;
    it is parametrised by what an operation holds in its hands at the moment and by [L], the pairs
    that failures have lost - empty while nothing fails ([Agent.users_exact]).

    ** What the theorems show

    - The whole core ([Agent]): no undefined behaviour in whatever order events come, whatever fails but
      the pipe of a synchronous output; while nothing fails reference counts are exact, verdicts are settled as asked,
      retries are redelivered, and new tasks are started on every route; retry limits, ids and the order of
      synchronous outputs hold always.
    - Tasks and messages ([Task], [Output], [Engine]): tasks get exactly the selected outputs; ids
      are the lowest free ones; messages decode to what was encoded; the one failure that does lead to
      undefined behaviour, of the pipe of a synchronous output.
    - Routing ([Router], [RoutesMask]): the matcher decides the declarative meaning of patterns; masks
      implement sets of ids; routes are exactly what patterns and masks say.
    - Scheduling ([Sched]): requests are kept, found and promoted exactly; delays stay within the
      backoff bounds; one corner of the configuration divides by zero.
    - Chunks ([Ingest]): filling, evicting and delivering chunks together never use a chunk that is
      gone; the charges of outputs with a limit are exact, modulo 2^64, while writes work and no logs are split; the
      tables of open chunks are; eviction takes the oldest chunks and no more than needed, and none an output works
      on; but the limit can be exceeded, and a tag with a NUL
      leads to a freed chunk.
    - Before and around chunks ([Filter], [Backpressure]): filters apply in order, are accounted for and leak
      nothing; memory stays within its limit and one append, pauses and resumes alternate unless the emitter pauses
      and resumes the input directly, and an input that is drained while data is taken in is resumed - but not one
      that waits for the chunks of others.
    - Metadata ([ChunkMeta], [DirectRoutes]): reading any bytes is safe; what was written is read back; the
      routes stored with a chunk lead to the outputs they were stored for.
    - Event priorities ([BucketQueue]): the bucket queue is a priority queue, first in first out among
      equals; a round of the loop follows it, and at its limit loses one event.
    - Records ([MsgPack], [LogDecoder], [MpChunk]): decoding gives what the specification says of the objects
      of a buffer; conversions lose nothing; iterating a chunk gives one record per event with the group
      it is in, and destroys every object once; records after 2038 are lost.
    - Encoding ([LogEncoder]): the calls of a client on a record act as stacks of lists do, and what is
      committed is one record with what they hold; a roll-back is not one.
    - Conditional routes ([LogIngest]): the append of logs is the step of the core whose payloads the split
      specifies; the chunk of a route goes to exactly the outputs of the route; but charges go wrong then,
      filters on a payload lose all logs, and so does a route that is named as a tag.
    - Chunks again ([ChunkEncode], [LogSplit]): a chunk that was read and is written gives its events back;
      a split gives every route exactly its records with their groups, and the default route the others.
    - Bytes ([MsgUnpack], [LogRoundtrip]): the unpacker reads every MessagePack encoding that is nested at most
      32 deep, and nothing outside its data; chunks that were written and payloads that were split are read
      as the events that they were made of.
    - Conditions ([CflAccessor], [Conditions], [RouteCondition]): accessors give the texts of the fields they name;
      rules are typed, and evaluation is the conjunction or disjunction of the rules, as long as no rule leads to a
      map or a NaN: the text of a map is lost or read out of bounds, and its buffer leaks; a failed allocation reads as
      a missing field, for which a negated rule holds.  Routes are compiled exactly and once,
      and decide about a chunk what its bytes say; reading it for them is all or nothing.
    - Hash table ([HashTable]): operations implement a finite map with a bound on entries.
    - Text ([Utf8], [Unescape], [JsonString]): the validator accepts exactly UTF-8; the decoder inverts
      the encoder; strings written as JSON are well formed, fit and read back, unless the vector path meets more
      than ASCII, which it reads beyond the string; unescaping never grows a string.
    - Encodings and strings ([Base64], [Sds], [Csv]): the decoder accepts the Base64 of RFC 4648 with line breaks, and
      texts without padding, of which it loses the last bytes; what was encoded is decoded again; trimming takes the spaces around a text off, but a text of
      spaces only keeps its length; however a CSV text is cut, its parser gives the fields of its records.

    ** Fuel and termination

    Loops over lists are structural.  [Output.flush_next_fuel] recurses through the queue and gets one
    more than the number of pending entries, which is enough ([Output.flush_next_fuel_ok]); the pattern
    matcher gets one more than the length of the pattern ([Router.match_loop_spec]); the search for a
    coroutine id gets one more than the number of coroutines ([Sched.coro_id_loop]); sizes of masks and
    the growth of the task map are computed.  The search for the next bucket gets
    the number of buckets that are left ([BucketQueue.seek_ok]).  The loops over text get two more than the length of the
    text ([JsonString.rounds], [Unescape.unescape_loop]), the growth of a buffer likewise
    ([JsonString.write_str_buf_ends]).  The decoder of log events gets what is left of its own limit on
    recursion, plus one ([LogDecoder.next_ok]); the iteration of a chunk twice the bytes and records, as
    every step takes a byte or moves on in the list ([MpChunk.record_next_ok]); the unpacker one more than the
    bytes, as every step takes one ([MsgUnpack.steps_ok]); the passes of the Base64 decoder get the
    characters that are left ([Base64.check_loop_run]); the loop of the CSV parser twice the characters and two, as
    only the turn that ends a quoted field takes none ([Csv.calm_loop]).  [None] of exhausted fuel is the same as undefined
    behaviour, so each theorem that gives a result also shows that the fuel is enough.

    ** What is not modelled

    Plugins, network, storage and TLS (I/O over third-party libraries; what chunkio answers is an
    argument where the code depends on it); metrics and log output; threads and coroutines as such (a
    flush is a value between its start and its return); the content of chunks (a chunk has a count and a
    size); the stream processor and collectors; the storage backlog
    plugin (a build option); for tasks a condition is a parameter (what it is is in [RouteCondition]); the
    parser of the patterns of record accessors, regular expressions, the bits of numbers and the memory zone of the
    unpacker are parameters, and so is the unpacker for those who read with one (an interface that [MsgUnpack] implements);
    the blocks inside the objects of the CFL library, each of which counts as one block (a conversion that fails for
    want of memory can lose an entry); the contexts of filters are any state that their plugins keep;
    processors and inputs with a thread; start-up and shutdown of the engine.  Time, logfmt and the parsing of route
    configuration are left to extensions of the library. *)

From Stdlib Require Export ZArith Lia.
From stdpp Require Export base tactics gmap option list.

#[global] Open Scope Z_scope.
#[export] Set Default Goal Selector "!".
#[export] Set Warnings "-clear-no-such-hyp,-register-all".

(** ** Machine integers *)

(** C integers are [Z] with their wrap-around written where the source converts or may overflow. *)
Definition u8 (z : Z) : Z := z mod 2 ^ 8.
Definition u16 (z : Z) : Z := z mod 2 ^ 16.
Definition u32 (z : Z) : Z := z mod 2 ^ 32.
Definition u64 (z : Z) : Z := z mod 2 ^ 64.
Definition i8 (z : Z) : Z := (z + 2 ^ 7) mod 2 ^ 8 - 2 ^ 7.
Definition i32 (z : Z) : Z := (z + 2 ^ 31) mod 2 ^ 32 - 2 ^ 31.
Definition i64 (z : Z) : Z := (z + 2 ^ 63) mod 2 ^ 64 - 2 ^ 63.

Definition INT_MAX : Z := 2 ^ 31 - 1.
Definition SIZE_MAX : Z := 2 ^ 64 - 1.

(** A byte buffer is a list of [Z], each element an [unsigned char] value. *)
Definition is_byte (z : Z) : Prop := 0 <= z < 256.
Definition bytes_ok (l : list Z) : Prop := Forall is_byte l.

(** Array indices are [Z] in the code and [nat] in lists. *)
Definition zlookup {A} (l : list A) (i : Z) : option A :=
  if 0 <=? i then l !! Z.to_nat i else None.
Definition zinsert {A} (i : Z) (x : A) (l : list A) : option (list A) :=
  if (0 <=? i) && (i <? Z.of_nat (length l)) then Some (<[Z.to_nat i := x]> l) else None.
Definition zlen {A} (l : list A) : Z := Z.of_nat (length l).

Declare Scope agent_scope.
Delimit Scope agent_scope with agent.
Notation "l '!z' i" := (zlookup l i) (at level 20, i at next level) : agent_scope.
#[global] Open Scope agent_scope.

(** ** Undefined behaviour, errors and state *)

(** [M S A] is a computation over the state [S].  [None] is undefined behaviour of the C program:
    a NULL or dangling pointer, an access out of bounds, a division by zero.  The errors the code
    reports itself are ordinary results of type [A]. *)
Definition M (S A : Type) : Type := S → option (A * S).

#[global] Instance M_ret {S} : MRet (M S) := λ A a s, Some (a, s).
#[global] Instance M_bind {S} : MBind (M S) := λ A B f m s,
  match m s with Some (a, s') => f a s' | None => None end.
#[global] Instance M_fmap {S} : FMap (M S) := λ A B f m s,
  match m s with Some (a, s') => Some (f a, s') | None => None end.

Definition ub {S A} : M S A := λ _, None.
Definition get {S} : M S S := λ s, Some (s, s).
Definition gets {S A} (f : S → A) : M S A := λ s, Some (f s, s).
Definition put {S} (s : S) : M S unit := λ _, Some (tt, s).
Definition modify {S} (f : S → S) : M S unit := λ s, Some (tt, f s).
Definition deref {S A} (o : option A) : M S A := λ s,
  match o with Some a => Some (a, s) | None => None end.
Definition when {S} (b : bool) (m : M S unit) : M S unit :=
  if b then m else mret tt.

(** [mk_list_foreach_safe]: the body may unlink the current element, so the traversal is over the
    elements the list held when each was reached; the source's uses never unlink the successor. *)
Fixpoint foreach {S A} (l : list A) (body : A → M S unit) : M S unit :=
  match l with
  | [] => mret tt
  | x :: l' => body x ≫= λ _, foreach l' body
  end.

(** ** Generic lemmas *)

Lemma zlookup_Some {A} (l : list A) i x :
  l !z i = Some x → 0 <= i < zlen l ∧ l !! Z.to_nat i = Some x.
Proof.
  unfold zlookup, zlen. destruct (Z.leb_spec 0 i); [|done]. intros H'.
  apply lookup_lt_Some in H' as Hl. split; [lia|done].
Qed.

Lemma zlookup_is_Some {A} (l : list A) i : 0 <= i < zlen l → is_Some (l !z i).
Proof.
  unfold zlookup, zlen. intros ?. destruct (Z.leb_spec 0 i); [|lia].
  apply lookup_lt_is_Some. lia.
Qed.

Lemma zinsert_Some {A} (l : list A) i x :
  0 <= i < zlen l → zinsert i x l = Some (<[Z.to_nat i := x]> l).
Proof.
  unfold zinsert, zlen. intros ?.
  destruct (Z.leb_spec 0 i); [|lia]. destruct (Z.ltb_spec i (Z.of_nat (length l))); [done|lia].
Qed.

Lemma zlookup_insert_eq {A} (l : list A) i x :
  0 <= i < zlen l → <[Z.to_nat i := x]> l !z i = Some x.
Proof.
  unfold zlookup, zlen. intros ?. destruct (Z.leb_spec 0 i); [|lia].
  apply list_lookup_insert_eq. lia.
Qed.

Lemma zlookup_insert_ne {A} (l : list A) i j x :
  0 <= i → i ≠ j → <[Z.to_nat i := x]> l !z j = l !z j.
Proof.
  unfold zlookup. intros ??. destruct (Z.leb_spec 0 j); [|done].
  apply list_lookup_insert_ne. lia.
Qed.

Lemma zlen_insert {A} (l : list A) i x : zlen (<[i := x]> l) = zlen l.
Proof. unfold zlen. by rewrite length_insert. Qed.

Lemma zlen_nonneg {A} (l : list A) : 0 <= zlen l.
Proof. unfold zlen. lia. Qed.

Lemma zlen_nil_inv {A} (l : list A) : zlen l <= 0 → l = [].
Proof. destruct l; [done|]. unfold zlen. rewrite length_cons. lia. Qed.
Lemma zlen_cons {A} (x : A) l : zlen (x :: l) = zlen l + 1.
Proof. unfold zlen. rewrite length_cons. lia. Qed.
Lemma zlen_app {A} (l1 l2 : list A) : zlen (l1 ++ l2) = zlen l1 + zlen l2.
Proof. unfold zlen. rewrite length_app. lia. Qed.
Lemma zlen_nat {A} (l : list A) : Z.to_nat (zlen l) = length l.
Proof. unfold zlen. lia. Qed.

Lemma u64_id z : 0 <= z < 2 ^ 64 → u64 z = z.
Proof. apply Z.mod_small. Qed.
Lemma u32_id z : 0 <= z < 2 ^ 32 → u32 z = z.
Proof. apply Z.mod_small. Qed.

(** *** Positions in a list that is cut in two *)

Lemma zlookup_at {A} (w : list A) x l : (w ++ x :: l) !z zlen w = Some x.
Proof.
  unfold zlookup. destruct (Z.leb_spec 0 (zlen w)); [|pose proof (zlen_nonneg w); lia].
  rewrite zlen_nat. by rewrite list_lookup_middle.
Qed.
Lemma zlookup_next {A} (w : list A) x y l : (w ++ x :: y :: l) !z (zlen w + 1) = Some y.
Proof.
  replace (zlen w + 1) with (zlen (w ++ [x])) by (rewrite zlen_app; done).
  by rewrite (cons_middle x w (y :: l)), app_assoc, zlookup_at.
Qed.
Lemma zlookup_skip {A} (w1 w2 : list A) i : 0 <= i → (w1 ++ w2) !z (zlen w1 + i) = w2 !z i.
Proof.
  intros. unfold zlookup. pose proof (zlen_nonneg w1). destruct (Z.leb_spec 0 (zlen w1 + i)); [|lia].
  destruct (Z.leb_spec 0 i); [|lia]. replace (Z.to_nat (zlen w1 + i)) with (length w1 + Z.to_nat i)%nat by (unfold zlen; lia).
  rewrite lookup_app_r by lia. f_equal. lia.
Qed.
Lemma snoc_cons {A} (w : list A) x l : w ++ x :: l = (w ++ [x]) ++ l.
Proof. by rewrite <- app_assoc. Qed.
Lemma zlen_snoc {A} (w : list A) x : zlen (w ++ [x]) = zlen w + 1.
Proof. by rewrite zlen_app. Qed.
Lemma at_end {A} (w : list A) : (zlen w <? zlen (w ++ [])) = false.
Proof. apply Z.ltb_ge. rewrite app_nil_r. lia. Qed.
Lemma not_at_end {A} (w : list A) x l : (zlen w <? zlen (w ++ x :: l)) = true.
Proof. apply Z.ltb_lt. rewrite zlen_app, zlen_cons. pose proof (zlen_nonneg l). lia. Qed.

Lemma exists_elem_cons {A} (P : A → Prop) x l :
  (∃ y, y ∈ x :: l ∧ P y) ↔ P x ∨ ∃ y, y ∈ l ∧ P y.
Proof.
  split.
  - intros (y & [->|?]%elem_of_cons & ?); [by left|right; eauto].
  - intros [?|(y & ? & ?)]; [exists x|exists y]; split; try done; apply elem_of_cons; auto.
Qed.

Create HintDb agent.
Create Rewrite HintDb agent.
#[export] Hint Resolve zlen_nonneg : agent.
#[export] Hint Rewrite @zlen_insert : agent.

(** Case analysis on every [if] and [match] scrutinee of the goal or of a hypothesis. *)
Ltac case_all :=
  repeat match goal with
  | |- context [match ?x with _ => _ end] =>
      lazymatch x with context [match _ with _ => _ end] => fail | _ => destruct x eqn:? end
  end.
Ltac case_all_in H :=
  repeat match type of H with
  | context [match ?x with _ => _ end] =>
      lazymatch x with context [match _ with _ => _ end] => fail | _ => destruct x eqn:? end
  end.
(** Turn boolean comparisons in the hypotheses into propositions. *)
Ltac bool_prop :=
  repeat match goal with
  | H : (_ && _)%bool = true |- _ => apply andb_true_iff in H as [??]
  | H : (_ || _)%bool = false |- _ => apply orb_false_iff in H as [??]
  | H : (_ && _)%bool = false |- _ => apply andb_false_iff in H
  | H : (_ || _)%bool = true |- _ => apply orb_true_iff in H
  | H : negb _ = true |- _ => apply negb_true_iff in H
  | H : negb _ = false |- _ => apply negb_false_iff in H
  | H : (_ <? _) = true |- _ => apply Z.ltb_lt in H
  | H : (_ <? _) = false |- _ => apply Z.ltb_ge in H
  | H : (_ <=? _) = true |- _ => apply Z.leb_le in H
  | H : (_ <=? _) = false |- _ => apply Z.leb_gt in H
  | H : (_ =? _) = true |- _ => apply Z.eqb_eq in H
  | H : (_ =? _) = false |- _ => apply Z.eqb_neq in H
  end.
