(* ===== verification/CStd.v ===== *)
(** * The C library: text and floating-point numbers

    What the agent uses of [string.h], [strings.h], [ctype.h] and [stdlib.h].  Text is a list of
    [unsigned char] values that ends at its first NUL or at the end of the list; the locale is "C".
    [double] is IEEE 754 binary64 ([SpecFloat]), rounded to the nearest, ties to even. *)
From Stdlib Require Strings.String Strings.Ascii.
From Corelib Require Import SpecFloat.
From S2P Require Import Prelude.

(** ** Text *)

(** The bytes of a text *)
Definition text (s : String.string) : list Z := (λ a, Z.of_N (Ascii.N_of_ascii a)) <$> String.list_ascii_of_string s.

(** The text up to its NUL *)
Fixpoint until_nul (s : list Z) : list Z :=
  match s with [] => [] | b :: s' => if b =? 0 then [] else b :: until_nul s' end.

Definition tolower (c : Z) : Z := if (65 <=? c) && (c <=? 90) then c + 32 else c.
Definition isspace (c : Z) : bool := (c =? 32) || ((9 <=? c) && (c <=? 13)).
Definition isdigit (c : Z) : bool := (48 <=? c) && (c <=? 57).
Definition isalnum (c : Z) : bool := isdigit c || ((97 <=? tolower c) && (tolower c <=? 122)).

(** [strcmp(a, b) == 0], [strcasecmp(a, b) == 0] *)
Definition strcmp_eq (a b : list Z) : bool := bool_decide (until_nul a = until_nul b).
Definition strcasecmp_eq (a b : list Z) : bool := bool_decide (tolower <$> until_nul a = tolower <$> until_nul b).

Fixpoint skip_while (p : Z → bool) (s : list Z) : list Z :=
  match s with c :: s' => if p c then skip_while p s' else s | [] => [] end.

(** ** Doubles *)

Abbreviation double := spec_float.
Definition double_prec : Z := 53.
Definition double_emax : Z := 1024.

Definition double_gt (x y : double) : bool := match SFcompare x y with Some Gt => true | _ => false end.
Definition double_lt (x y : double) : bool := match SFcompare x y with Some Lt => true | _ => false end.
Definition double_ge (x y : double) : bool := match SFcompare x y with Some (Gt | Eq) => true | _ => false end.
Definition double_le (x y : double) : bool := match SFcompare x y with Some (Lt | Eq) => true | _ => false end.

(** The double nearest to the fraction [num / den] *)
Definition nearest (sign : bool) (num : Z) (den : positive) : double :=
  match num with
  | Zpos n => SFdiv double_prec double_emax (S754_finite sign n 0) (S754_finite false den 0)
  | _ => S754_zero sign
  end.

(** Conversions from and to integers; the latter truncates, and is undefined when the result does not fit. *)
Definition double_of_Z (z : Z) : double := nearest (z <? 0) (Z.abs z) 1.
Definition double_to_i64 (x : double) : option Z :=
  match x with
  | S754_zero _ => Some 0
  | S754_finite s m e =>
      let a := if 0 <=? e then Zpos m * 2 ^ e else Zpos m / 2 ^ (- e) in
      let z := if s then - a else a in
      if (- 2 ^ 63 <=? z) && (z <? 2 ^ 63) then Some z else None
  | _ => None
  end.
Definition double_sub (x y : double) : double := SFsub double_prec double_emax x y.
Definition double_mul (x y : double) : double := SFmul double_prec double_emax x y.

(** Whether the double [x] is the fraction *)
Definition is_exact (x : double) (num : Z) (den : positive) : bool :=
  match x with
  | S754_zero _ => num =? 0
  | S754_finite _ m e => if 0 <=? e then Zpos m * 2 ^ e * Zpos den =? num else Zpos m * Zpos den =? num * 2 ^ (- e)
  | _ => false
  end.

(** [errno == ERANGE]: the result overflows, or it is inexact and what rounding without a bound on the
    exponent gives is below the least normal number [2 ^ -1022]. *)
Definition out_of_range (x : double) (num : Z) (den : positive) : bool :=
  match x with
  | S754_infinity _ => true
  | _ => negb (is_exact x num den) && (num * 2 ^ 1076 <? (2 ^ 54 - 1) * Zpos den)
  end.

(** ** [strtod] *)

(** The value of a digit, in base 10 or 16 *)
Definition digit (base c : Z) : option Z :=
  if isdigit c then Some (c - 48)
  else if (base =? 16) && (97 <=? tolower c) && (tolower c <=? 102) then Some (tolower c - 87)
  else None.

(** Digits from the front of the text: their value after [acc], their number, the rest *)
Fixpoint digits (base acc : Z) (s : list Z) : Z * Z * list Z :=
  match s with
  | c :: s' => match digit base c with
               | Some d => let '(v, n, rest) := digits base (acc * base + d) s' in (v, n + 1, rest)
               | None => (acc, 0, s)
               end
  | [] => (acc, 0, s)
  end.

Definition read_sign (s : list Z) : bool * list Z :=
  match s with c :: s' => if c =? 45 then (true, s') else if c =? 43 then (false, s') else (false, s) | [] => (false, s) end.

(** The text after a word, in any case *)
Definition after_word (word s : list Z) : option (list Z) :=
  if bool_decide (tolower <$> take (length word) s = word) then Some (drop (length word) s) else None.

(** The exponent, when there is one *)
Definition read_exponent (letter : Z) (s : list Z) : Z * list Z :=
  match s with
  | c :: s' =>
      if tolower c =? letter then
        let '(sign, t) := read_sign s' in
        let '(v, n, rest) := digits 10 0 t in
        if n =? 0 then (0, s) else (if sign then - v else v, rest)
      else (0, s)
  | [] => (0, s)
  end.

(** Digits with an optional point: the value as [v * base ^ - fraction], the number of digits, the rest *)
Definition mantissa (base : Z) (s : list Z) : Z * Z * Z * list Z :=
  let '(v, n, rest) := digits base 0 s in
  match rest with
  | c :: rest' =>
      if c =? 46 then
        let '(v', n', rest'') := digits base v rest' in
        if n + n' =? 0 then (0, 0, 0, s) else (v', n', n + n', rest'')
      else (v, 0, n, rest)
  | [] => (v, 0, n, rest)
  end.

(** The fraction [v * base ^ e] *)
Definition scaled (v base e : Z) : Z * positive :=
  if 0 <=? e then (v * base ^ e, 1%positive) else (v, Z.to_pos (base ^ (- e))).

Definition finite_number (sign : bool) (v base e : Z) (rest : list Z) : double * list Z * bool :=
  let '(num, den) := scaled v base e in
  let x := nearest sign num den in
  (x, rest, negb (num =? 0) && out_of_range x num den).

(** A number without its sign; [None] when there is none.  Result: the number, the rest, [ERANGE]. *)
Definition number (sign : bool) (s : list Z) : option (double * list Z * bool) :=
  match after_word [105; 110; 102; 105; 110; 105; 116; 121] s, after_word [105; 110; 102] s with
  | Some rest, _ | None, Some rest => Some (S754_infinity sign, rest, false)
  | None, None =>
  match after_word [110; 97; 110] s with
  | Some rest =>
      Some (S754_nan,
        match rest with
        | c :: rest' =>
            if c =? 40 then
              let after := skip_while (λ c, isalnum c || (c =? 95)) rest' in
              match after with c' :: rest'' => if c' =? 41 then rest'' else rest | [] => rest end
            else rest
        | [] => rest
        end, false)
  | None =>
  let '(hv, hf, hn, hrest) := match after_word [48; 120] s with Some s' => mantissa 16 s' | None => (0, 0, 0, s) end in
  if 0 <? hn then let '(e, rest) := read_exponent 112 hrest in Some (finite_number sign hv 2 (e - 4 * hf) rest)
  else
    let '(v, f, n, rest) := mantissa 10 s in
    if 0 <? n then let '(e, rest) := read_exponent 101 rest in Some (finite_number sign v 10 (e - f) rest)
    else None
  end end.

(** The result with what [endptr] points to, and whether [errno] is [ERANGE]; without a number [endptr]
    is the whole text. *)
Definition strtod (s : list Z) : double * list Z * bool :=
  let '(sign, t) := read_sign (skip_while isspace s) in
  match number sign t with Some r => r | None => (S754_zero false, s, false) end.

Definition atof (s : list Z) : double := (strtod s).1.1.
