(* ===== verification/Env.v ===== *)
(** * Environment: allocator, system calls, clock and emitted effects

    What the agent gets from outside is scripted: the outcome of each allocation and of each system
    call in turn (success once a script is used up), the values of [rand()], the clock.  A theorem
    quantifies over the scripts, so over every pattern of failures of a finite run.  Calls into
    components modelled elsewhere, or not modelled, append an [effect] to a log. *)
From S2P Require Import Prelude.

(** Calls with an effect outside the delivery core, in the order they happen. *)
Inductive effect :=
| TimeoutCreate (fd sec nsec : Z)              (* mk_event_timeout_create *)
| TimeoutDestroy (fd : Z)                     (* mk_event_timeout_destroy *)
| ChunkSetUpDown (ic : nat)                   (* flb_input_chunk_set_up_down *)
| ChunkDown (ic : nat)                        (* flb_input_chunk_down *)
| ChunkDestroy (ic : nat) (del : bool)        (* flb_input_chunk_destroy *)
| ChunkReleaseLock (ic : nat)                 (* flb_input_chunk_release_lock *)
| InputSetLimits (input : nat)                (* flb_input_chunk_set_limits *)
| Quarantine (ic : nat) (out : nat)           (* flb_storage_quarantine_chunk *)
| FlushFinished (out : nat)                   (* flb_output_flush_finished *)
| Dispatched (task : nat) (out : nat)         (* a flush handed to a coroutine or worker *)
| TimerCallback (timer : nat)                 (* timer->cb *)
| Delivered (task : nat) (out : nat) (n : Z)  (* records and bytes counted as processed *)
| Retried (task : nat) (out : nat) (n : Z)    (* records counted as retried *)
| Dropped (task : nat) (out : nat) (n : Z)    (* records counted as dropped *)
| Unmatched (ic : nat) (n : Z).               (* records dropped without a route *)

#[global] Instance effect_eq_dec : EqDecision effect.
Proof. solve_decision. Defined.

(** The environment a computation runs in; [e_next] is the next unused address. *)
Record env := mk_env {
  e_alloc : list bool;
  e_sys : list bool;
  e_rand : list Z;
  e_now : Z;
  e_next : nat;
  e_log : list effect
}.
Definition set_e_alloc (x : list bool) (s : env) : env :=
  mk_env x (e_sys s) (e_rand s) (e_now s) (e_next s) (e_log s).
Definition set_e_sys (x : list bool) (s : env) : env :=
  mk_env (e_alloc s) x (e_rand s) (e_now s) (e_next s) (e_log s).
Definition set_e_rand (x : list Z) (s : env) : env :=
  mk_env (e_alloc s) (e_sys s) x (e_now s) (e_next s) (e_log s).
Definition set_e_now (x : Z) (s : env) : env :=
  mk_env (e_alloc s) (e_sys s) (e_rand s) x (e_next s) (e_log s).
Definition set_e_next (x : nat) (s : env) : env :=
  mk_env (e_alloc s) (e_sys s) (e_rand s) (e_now s) x (e_log s).
Definition set_e_log (x : list effect) (s : env) : env :=
  mk_env (e_alloc s) (e_sys s) (e_rand s) (e_now s) (e_next s) x.

(** States that carry an environment. *)
Class HasEnv (S : Type) := {
  env_of : S → env;
  set_env : env → S → S;
  env_of_set : ∀ e s, env_of (set_env e s) = e;
  set_env_of : ∀ s, set_env (env_of s) s = s;
  set_env_set : ∀ e e' s, set_env e (set_env e' s) = set_env e s
}.

#[global] Instance env_HasEnv : HasEnv env := 
  {| env_of e := e; set_env e _ := e; env_of_set _ _ := eq_refl; set_env_of _ := eq_refl;
     set_env_set _ _ _ := eq_refl |}.

Section operations.
Context {S : Type} `{HasEnv S}.

(** [malloc], [calloc]: the new address, or NULL. *)
Definition malloc : M S (option nat) := λ s,
  let e := env_of s in
  match e_alloc e with
  | false :: script => Some (None, set_env (set_e_alloc script e) s)
  | script => Some (Some (e_next e),
                set_env (set_e_next (Datatypes.S (e_next e)) (set_e_alloc (tail script) e)) s)
  end.

(** A system call that succeeds or fails. *)
Definition syscall : M S bool := λ s,
  let e := env_of s in
  match e_sys e with
  | [] => Some (true, s)
  | b :: script => Some (b, set_env (set_e_sys script e) s)
  end.

(** [time(NULL)] *)
Definition time_now : M S Z := gets (λ s, e_now (env_of s)).

Definition emit (x : effect) : M S unit :=
  modify (λ s, let e := env_of s in set_env (set_e_log (e_log e ++ [x]) e) s).

(** A new file descriptor: they are never reused while the model runs. *)
Definition new_fd : M S Z := λ s,
  let e := env_of s in
  Some (Z.of_nat (e_next e), set_env (set_e_next (Datatypes.S (e_next e)) e) s).

(** [mk_event_timeout_create]: -1 when the system refuses. *)
Definition timeout_create (sec nsec : Z) : M S Z :=
  ok ← syscall;
  if (ok : bool) then
    fd ← new_fd; emit (TimeoutCreate fd sec nsec) ≫= λ _, mret fd
  else mret (-1).
End operations.

#[global] Arguments malloc : simpl never.
#[global] Arguments syscall : simpl never.
#[global] Arguments emit : simpl never.

(** [mk_list_del]: take the element out of the list it is linked in. *)
Definition unlink (p : nat) (l : list nat) : list nat := filter (λ x, x ≠ p) l.
Arguments unlink : simpl never.

Lemma elem_of_unlink p x l : x ∈ unlink p l ↔ x ≠ p ∧ x ∈ l.
Proof. unfold unlink. by rewrite list_elem_of_filter. Qed.

Lemma NoDup_unlink p l : NoDup l → NoDup (unlink p l).
Proof. apply NoDup_filter. Qed.

Lemma unlink_notin p l : p ∉ l → unlink p l = l.
Proof.
  unfold unlink. induction l as [|x l IH]; [done|]. rewrite not_elem_of_cons. intros [? ?].
  rewrite filter_cons_True by congruence. by rewrite IH.
Qed.

Lemma unlink_app p l1 l2 : unlink p (l1 ++ l2) = unlink p l1 ++ unlink p l2.
Proof. apply filter_app. Qed.

(** [unlink] moves one element of a duplicate-free list out of it. *)
Lemma unlink_Permutation p l : NoDup l → p ∈ l → l ≡ₚ p :: unlink p l.
Proof.
  intros Hnd [l1 [l2 ->]]%list_elem_of_split. unfold unlink.
  apply NoDup_app in Hnd as (? & Hd & [? ?]%NoDup_cons).
  rewrite filter_app, filter_cons_False by (intros ?; congruence).
  fold (unlink p l1) (unlink p l2).
  rewrite (unlink_notin p l1), (unlink_notin p l2); [apply Permutation_sym, Permutation_middle|done|].
  intros Hin. eapply Hd; [exact Hin|]. apply elem_of_cons. by left.
Qed.

(** ** The environment only moves forward

    Addresses are never handed out again, scripts are consumed from the front, effects are only
    appended and the clock stands still while a handler runs. *)
Record env_le (e e' : env) : Prop := {
  el_next : (e_next e <= e_next e')%nat;
  el_alloc : e_alloc e' `suffix_of` e_alloc e;
  el_sys : e_sys e' `suffix_of` e_sys e;
  el_now : e_now e' = e_now e;
  el_log : e_log e `prefix_of` e_log e'
}.

#[global] Instance env_le_preorder : PreOrder env_le.
Proof.
  split.
  - intros e. by constructor.
  - intros e1 e2 e3 [] []. constructor; by etrans.
Qed.

(** No failure is left in the scripts. *)
Definition calm (e : env) : Prop := e_alloc e = [] ∧ e_sys e = [].

Lemma calm_le e e' : env_le e e' → calm e → calm e'.
Proof.
  intros [_ Ha Hs _ _] [Ha0 Hs0]. rewrite Ha0 in Ha. rewrite Hs0 in Hs.
  split; by apply suffix_nil_inv.
Qed.

Class Evolves {S A : Type} `{HasEnv S} (m : M S A) : Prop :=
  evolves : ∀ s a s', m s = Some (a, s') → env_le (env_of s) (env_of s').

Section evolves.
Context {S : Type} `{HasEnv S}.

#[global] Instance evolves_ret {A} (a : A) : Evolves (mret (M := M S) a).
Proof. intros s b s' [= <- <-]. done. Qed.

#[global] Instance evolves_bind {A B} (m : M S A) (f : A → M S B) :
  Evolves m → (∀ a, Evolves (f a)) → Evolves (m ≫= f).
Proof.
  intros Hm Hf s b s'. unfold mbind, M_bind. destruct (m s) as [[a s1]|] eqn:Hs; [|done].
  intros Hf'. etrans; [by eapply Hm|by eapply Hf].
Qed.

#[global] Instance evolves_malloc : Evolves (S := S) malloc.
Proof.
  intros s p s'. unfold malloc.
  destruct (e_alloc (env_of s)) as [|[] script] eqn:Ha; intros [= <- <-];
    rewrite env_of_set; constructor; cbn; rewrite ?Ha; try done; try lia; (by exists [true]) || by exists [false].
Qed.

#[global] Instance evolves_syscall : Evolves (S := S) syscall.
Proof.
  intros s p s'. unfold syscall. destruct (e_sys (env_of s)) as [|b script] eqn:Hs; intros [= <- <-]; [done|].
  rewrite env_of_set. constructor; cbn; try done. rewrite Hs. by exists [b].
Qed.

#[global] Instance evolves_emit x : Evolves (S := S) (emit x).
Proof.
  intros s p s' [= <- <-]. rewrite env_of_set. constructor; cbn; try done. by exists [x].
Qed.

#[global] Instance evolves_new_fd : Evolves (S := S) new_fd.
Proof. intros s p s' [= <- <-]. rewrite env_of_set. constructor; cbn; (done || lia). Qed.

#[global] Instance evolves_timeout_create sec nsec : Evolves (S := S) (timeout_create sec nsec).
Proof. unfold timeout_create. apply evolves_bind; [apply _|]. intros []; apply _. Qed.

#[global] Instance evolves_gets {A} (f : S → A) : Evolves (gets f).
Proof. intros s p s' [= <- <-]. done. Qed.

#[global] Instance evolves_get : Evolves (S := S) get.
Proof. intros s p s' [= <- <-]. done. Qed.

#[global] Instance evolves_time_now : Evolves (S := S) time_now.
Proof. unfold time_now. apply _. Qed.

#[global] Instance evolves_ub {A} : Evolves (ub (S := S) (A := A)).
Proof. intros s p s' [=]. Qed.

(** A state change that does not touch the environment. *)
Lemma evolves_modify (f : S → S) : (∀ s, env_of (f s) = env_of s) → Evolves (modify f).
Proof. intros Hf s p s' [= <- <-]. by rewrite Hf. Qed.

#[global] Instance evolves_foreach {A} (l : list A) (body : A → M S unit) :
  (∀ x, Evolves (body x)) → Evolves (foreach l body).
Proof. intros Hb. induction l as [|x l IH]; cbn; apply _. Qed.
End evolves.

(** Follow the structure of a computation. *)
Ltac evolve :=
  repeat match goal with
  | |- Evolves (_ ≫= _) => apply evolves_bind; [|intros ?]
  | |- Evolves (modify _) => apply evolves_modify; intros ?; reflexivity
  | |- Evolves (foreach _ _) => apply evolves_foreach; intros ?
  | |- Evolves (match ?x with _ => _ end) => destruct x
  | |- Evolves (if ?x then _ else _) => destruct x
  | |- Evolves (when ?b _) => unfold when; destruct b
  | |- Evolves (let _ := _ in _) => cbv zeta
  | |- Evolves _ => apply _
  | |- Evolves (λ s, match _ with Some x => Some (x, s) | None => None end) =>
      let H := fresh in intros ??? H; case_match; simplify_eq; done
  end.

(** ** Running a computation *)

Ltac mrun := unfold mbind, M_bind, mret, M_ret, fmap, M_fmap, modify, gets, get, put, when;
  cbn beta iota.

(** [malloc] either fails or gives the next address; it never fails in a calm environment. *)
Lemma malloc_cases {S} `{HasEnv S} (s : S) :
  ((∃ script, malloc s = Some (None, set_env (set_e_alloc script (env_of s)) s)) ∧ ¬ calm (env_of s)) ∨
  (∃ script, malloc s = Some (Some (e_next (env_of s)),
     set_env (set_e_next (Datatypes.S (e_next (env_of s))) (set_e_alloc script (env_of s))) s) ∧
     (calm (env_of s) → script = [])).
Proof.
  unfold malloc, calm. destruct (e_alloc (env_of s)) as [|[]]; [right|right|left]; eauto.
  - eexists. split; [done|]. by intros [? ?].
  - split; [eauto|]. by intros [? ?].
Qed.
