(* ===== verification/Heap.v ===== *)
(** * Blocks of memory, and running computations

    Functions that allocate and free run over a [heap], the environment with the multiset of live blocks:
    a leak, a second [free] or a [free] of something else shows.  A computation [runs] when its result is
    defined and satisfies a postcondition. *)
From S2P Require Import Prelude Env.

(** ** Blocks *)

Record heap := mk_heap { hp_env : env; hp_live : list nat }.
Definition set_hp_env (x : env) (s : heap) : heap := mk_heap x (hp_live s).
Definition set_hp_live (x : list nat) (s : heap) : heap := mk_heap (hp_env s) x.

#[global] Instance heap_HasEnv : HasEnv heap.
Proof. refine {| env_of := hp_env; set_env := set_hp_env |}; [done|by intros []|done]. Defined.

(** [flb_malloc], [flb_calloc] *)
Definition alloc : M heap (option nat) :=
  p ← malloc;
  match p with
  | None => mret None
  | Some a => modify (λ s, set_hp_live (a :: hp_live s) s) ≫= λ _, mret (Some a)
  end.

Fixpoint take_out (a : nat) (live : list nat) : option (list nat) :=
  match live with
  | [] => None
  | b :: live' => if Nat.eqb a b then Some live' else l ← take_out a live'; Some (b :: l)
  end.
Definition free_block (a : nat) : M heap unit := λ s,
  l ← take_out a (hp_live s); Some (tt, set_hp_live l s).

(** States that have a heap *)
Class HasHeap (S : Type) := {
  heap_of : S → heap;
  set_heap : heap → S → S;
  heap_of_set : ∀ h s, heap_of (set_heap h s) = h;
  set_heap_set : ∀ h h' s, set_heap h (set_heap h' s) = set_heap h s;
  set_heap_of : ∀ s, set_heap (heap_of s) s = s
}.

#[global] Instance heap_HasHeap : HasHeap heap :=
  {| heap_of h := h; set_heap h _ := h; heap_of_set _ _ := eq_refl; set_heap_set _ _ _ := eq_refl; set_heap_of _ := eq_refl |}.

Definition on_heap {S A} `{HasHeap S} (m : M heap A) : M S A := λ s,
  match m (heap_of s) with Some (a, h) => Some (a, set_heap h s) | None => None end.

(** ** Running computations *)

Definition runs {S A} (m : M S A) (s : S) (Q : A → S → Prop) : Prop := ∃ a s', m s = Some (a, s') ∧ Q a s'.

Lemma runs_ret {S A} (a : A) (s : S) Q : Q a s → runs (mret a) s Q.
Proof. intros HQ. by exists a, s. Qed.
Lemma runs_bind {S A B} (m : M S A) (f : A → M S B) s Q : runs m s (λ a s', runs (f a) s' Q) → runs (m ≫= f) s Q.
Proof. intros (a & s' & Hm & b & s'' & Hf & HQ). exists b, s''. split; [|done]. unfold mbind, M_bind. by rewrite Hm. Qed.
Lemma runs_weaken {S A} (m : M S A) s (Q Q' : A → S → Prop) : runs m s Q → (∀ a s', Q a s' → Q' a s') → runs m s Q'.
Proof. intros (a & s' & ? & ?) HQ. exists a, s'. auto. Qed.
Lemma runs_deref {S A} (o : option A) a (s : S) Q : o = Some a → Q a s → runs (deref o) s Q.
Proof. intros -> HQ. by exists a, s. Qed.
Lemma runs_when {S} (b : bool) (m : M S unit) s Q : (b = true → runs m s Q) → (b = false → Q tt s) → runs (when b m) s Q.
Proof. unfold when. destruct b; [auto|]. intros _ HQ. exists tt, s. auto. Qed.

(** Addresses are handed out once. *)
Definition next_le (h h' : heap) : Prop := (e_next (hp_env h) <= e_next (hp_env h'))%nat.

Lemma runs_alloc_le s Q :
  (∀ s', hp_live s' = hp_live s → next_le s s' → ¬ calm (hp_env s) → Q None s') →
  (∀ a s', hp_live s' = a :: hp_live s → next_le s s' → (calm (hp_env s) → calm (hp_env s')) → Q (Some a) s') →
  runs alloc s Q.
Proof.
  intros HN HS. unfold alloc. apply runs_bind.
  destruct (malloc_cases s) as [[(script & Hm) Hc]|(script & Hm & Hc)]; eexists _, _; (split; [exact Hm|]).
  - apply runs_ret, HN; [done|unfold next_le; cbn; lia|done].
  - apply runs_bind. eexists tt, _. split; [reflexivity|]. apply runs_ret, HS; [done|unfold next_le; cbn; lia|].
    intros Hcalm. cbn. split; [by apply Hc|apply Hcalm].
Qed.

Lemma runs_alloc s Q :
  (∀ s', hp_live s' = hp_live s → ¬ calm (hp_env s) → Q None s') →
  (∀ a s', hp_live s' = a :: hp_live s → (calm (hp_env s) → calm (hp_env s')) → Q (Some a) s') →
  runs alloc s Q.
Proof. intros HN HS. apply runs_alloc_le; eauto. Qed.

Lemma take_out_ok a live l : live ≡ₚ a :: l → ∃ live', take_out a live = Some live' ∧ live' ≡ₚ l.
Proof.
  revert l. induction live as [|b live IH]; intros l Hp; [by apply Permutation_nil_cons in Hp|].
  cbn. destruct (Nat.eqb_spec a b) as [->|Hab].
  - exists live. split; [done|]. by apply Permutation_cons_inv in Hp.
  - assert (Hb : b ∈ l). { assert (b ∈ a :: l) by (rewrite <- Hp; left). set_solver. }
    apply elem_of_Permutation in Hb as [l' Hl']. destruct (IH l') as (live' & -> & Hlive').
    { eapply Permutation_cons_inv with (a := b). rewrite Hp, Hl'. apply Permutation_swap. }
    exists (b :: live'). split; [done|]. by rewrite Hlive', Hl'.
Qed.

Lemma runs_free a l s Q :
  hp_live s ≡ₚ a :: l → (∀ s', hp_live s' ≡ₚ l → hp_env s' = hp_env s → Q tt s') → runs (free_block a) s Q.
Proof.
  intros Hp HQ. destruct (take_out_ok _ _ _ Hp) as (live' & Ht & Hl). eexists tt, _.
  split; [unfold free_block; rewrite Ht; reflexivity|]. by apply HQ.
Qed.

Lemma runs_on_heap {S A} `{HasHeap S} (m : M heap A) s (Q : A → S → Prop) :
  runs m (heap_of s) (λ a h, Q a (set_heap h s)) → runs (on_heap m) s Q.
Proof. intros (a & h & Hm & HQ). exists a, (set_heap h s). unfold on_heap. by rewrite Hm. Qed.

Lemma runs_read {S A} (f : S → A) s (Q : A → S → Prop) : Q (f s) s → runs (gets f) s Q.
Proof. intros HQ. by exists (f s), s. Qed.

Lemma runs_modify {S} (f : S → S) s (Q : unit → S → Prop) : Q tt (f s) → runs (modify f) s Q.
Proof. intros HQ. by exists tt, (f s). Qed.

Lemma runs_alloc_calm s (Q : option nat → heap → Prop) :
  calm (hp_env s) → (∀ a s', calm (hp_env s') → Q (Some a) s') → runs alloc s Q.
Proof. intros Hc HQ. apply runs_alloc; [tauto|]. intros a s' _ Hc'. auto. Qed.

(** ** Ownership while no allocation fails

    A computation that owns some blocks, next to any others, gives back the blocks its result owns. *)
Definition calm_run {A} (own : list nat) (m : M heap A) (own' : A → list nat) (post : A → Prop) : Prop :=
  ∀ s X, calm (hp_env s) → hp_live s ≡ₚ own ++ X →
  runs m s (λ a s', calm (hp_env s') ∧ hp_live s' ≡ₚ own' a ++ X ∧ post a).

Lemma calm_ret {A} own (a : A) own' post : own ≡ₚ own' a → post a → calm_run own (mret a) own' post.
Proof. intros Ho Hp s X Hc Hl. apply runs_ret. split_and!; [done| |done]. by rewrite Hl, Ho. Qed.

Lemma calm_bind {A B} own (m : M heap A) (f : A → M heap B) mid mid_post own' post :
  calm_run own m mid mid_post → (∀ a, mid_post a → calm_run (mid a) (f a) own' post) → calm_run own (m ≫= f) own' post.
Proof.
  intros Hm Hf s X Hc Hl. apply runs_bind. eapply runs_weaken; [by apply Hm|].
  intros a s' (Hc' & Hl' & Hp). by apply Hf.
Qed.

Lemma calm_weaken {A} own (m : M heap A) own' own'' (post post' : A → Prop) : calm_run own m own' post →
  (∀ a, post a → own' a ≡ₚ own'' a ∧ post' a) → calm_run own m own'' post'.
Proof.
  intros Hm Hp s X Hc Hl. eapply runs_weaken; [by apply Hm|]. intros a s' (? & Hl' & Ha).
  destruct (Hp _ Ha) as [Ho ?]. split_and!; [done| |done]. by rewrite Hl', Ho.
Qed.

(** The blocks [R] are not touched. *)
Lemma calm_frame {A} R own (m : M heap A) own' post :
  calm_run own m own' post → calm_run (own ++ R) m (λ a, own' a ++ R) post.
Proof.
  intros Hm s X Hc Hl. eapply runs_weaken; [apply (Hm s (R ++ X)); [done|by rewrite app_assoc]|].
  intros a s' (? & Hl' & ?). split_and!; [done| |done]. by rewrite Hl', app_assoc.
Qed.

Lemma calm_perm {A} own own0 (m : M heap A) own' post : own ≡ₚ own0 → calm_run own0 m own' post → calm_run own m own' post.
Proof. intros Ho Hm s X Hc Hl. apply Hm; [done|]. by rewrite Hl, Ho. Qed.

Lemma calm_deref {A} own (o : option A) a own' post :
  o = Some a → own ≡ₚ own' a → post a → calm_run own (deref o) own' post.
Proof. intros -> Ho Hp s X Hc Hl. eapply runs_deref; [done|]. split_and!; [done| |done]. by rewrite Hl, Ho. Qed.

Lemma calm_alloc own : calm_run own alloc (λ p, option_list p ++ own) is_Some.
Proof.
  intros s X Hc Hl. apply runs_alloc; [tauto|]. intros a s' Hl' Hc'. split_and!; [auto| |by eexists]. by rewrite Hl', Hl.
Qed.

Lemma calm_free a own : calm_run (a :: own) (free_block a) (λ _, own) (λ _, True).
Proof. intros s X Hc Hl. eapply runs_free; [exact Hl|]. intros s' Hl' He. by rewrite He. Qed.

Lemma calm_syscall own : calm_run own syscall (λ _, own) (λ ok, ok = true).
Proof.
  intros s X Hc Hl. exists true, s. split; [|done]. unfold syscall. cbn [env_of heap_HasEnv]. by rewrite (proj2 Hc).
Qed.

(** ** Addresses are new

    Every live block has an address that has been handed out, and computations keep it so. *)
Definition fresh (s : heap) : Prop := ∀ a, a ∈ hp_live s → (a < e_next (hp_env s))%nat.
Definition bounded {A} (m : M heap A) : Prop := ∀ s a s', m s = Some (a, s') → fresh s → next_le s s' ∧ fresh s'.

Lemma bounded_ret {A} (a : A) : bounded (mret a : M heap A).
Proof. intros s b s' [= _ <-] Hf. split; [unfold next_le; lia|done]. Qed.
Lemma bounded_ub {A} : bounded (ub : M heap A).
Proof. by intros s a s' Hr. Qed.
Lemma bounded_bind {A B} (m : M heap A) (f : A → M heap B) : bounded m → (∀ a, bounded (f a)) → bounded (m ≫= f).
Proof.
  intros Hm Hf s b s' Hr Hs. unfold mbind, M_bind in Hr. destruct (m s) as [[a s1]|] eqn:Hms; [|done].
  destruct (Hm _ _ _ Hms Hs) as [Hn1 Hs1]. destruct (Hf _ _ _ _ Hr Hs1) as [Hn2 Hs2]. split; [unfold next_le in *; lia|done].
Qed.
Lemma bounded_deref {A} (o : option A) : bounded (deref o : M heap A).
Proof. intros s a s' Hr Hs. unfold deref in Hr. destruct o; [|done]. injection Hr as _ <-. split; [unfold next_le; lia|done]. Qed.
Lemma bounded_alloc : bounded alloc.
Proof.
  intros s p s' Hr Hs. assert (H : runs alloc s (λ p s', next_le s s' ∧ fresh s')).
  - unfold alloc. apply runs_bind. destruct (malloc_cases s) as [[(script & Hm) _]|(script & Hm & _)]; eexists _, _; (split; [exact Hm|]).
    + apply runs_ret. split; [unfold next_le; cbn; lia|exact Hs].
    + apply runs_bind. eexists tt, _. split; [reflexivity|]. apply runs_ret. split; [unfold next_le; cbn; lia|].
      intros a. unfold fresh in Hs. cbn. intros [->|Ha]%elem_of_cons; [cbn; lia|]. specialize (Hs _ Ha). lia.
  - destruct H as (p' & s1 & Hr' & H). rewrite Hr in Hr'. by injection Hr' as _ <-.
Qed.
Lemma bounded_free a : bounded (free_block a).
Proof.
  intros s [] s' Hr Hs. unfold free_block in Hr. destruct (take_out a (hp_live s)) as [l|] eqn:Ht; [|done].
  injection Hr as <-. split; [unfold next_le; cbn; lia|]. intros b Hb. cbn in Hb |- *. apply Hs.
  clear Hs. revert l Ht Hb. generalize (hp_live s). induction l as [|c l IH]; intros l' Ht Hb; cbn in Ht; [done|].
  destruct (Nat.eqb a c); [injection Ht as <-; by right|]. destruct (take_out a l) as [l1|]; [|done]. cbn in Ht. injection Ht as <-.
  apply elem_of_cons in Hb as [->|Hb]; [left|right]. by apply (IH l1).
Qed.
Lemma bounded_syscall : bounded (syscall : M heap bool).
Proof.
  intros s b s' Hr Hs. unfold syscall in Hr. cbn [env_of heap_HasEnv] in Hr. destruct (e_sys (hp_env s)).
  - injection Hr as _ <-. split; [unfold next_le; lia|done].
  - injection Hr as _ <-. split; [unfold next_le; cbn; lia|exact Hs].
Qed.
Lemma bounded_foreach {A} (l : list A) (f : A → M heap unit) : (∀ x, bounded (f x)) → bounded (foreach l f).
Proof. intros Hf. induction l as [|x l IH]; cbn [foreach]; [apply bounded_ret|]. apply bounded_bind; [apply Hf|intros _; exact IH]. Qed.

Create HintDb bounded.
#[export] Hint Resolve bounded_ret bounded_ub bounded_syscall bounded_deref bounded_alloc bounded_free : bounded.
Ltac solve_bounded :=
  repeat first
    [ progress intros
    | solve [eauto with bounded]
    | apply bounded_bind
    | apply bounded_foreach
    | match goal with |- bounded (match ?x with _ => _ end) => destruct x end
    | match goal with |- bounded (let '_ := ?x in _) => destruct x end ].

Lemma runs_bounded {A} (m : M heap A) s (Q : A → heap → Prop) : bounded m → fresh s → runs m s Q →
  runs m s (λ a s', Q a s' ∧ next_le s s' ∧ fresh s').
Proof. intros Hm Hs (a & s' & Hr & HQ). exists a, s'. split; [done|]. split; [done|]. by apply (Hm s a s'). Qed.
