(* ===== verification/RetryQueue.v ===== *)
(** * The interface between tasks and the scheduler

    Tasks only need to know that some component keeps the retries that wait for their time.  The
    class states what that component promises: it is a multiset of retries ([rqueue_pending]), it
    never crashes, and it reports when it could not take a retry.  [Sched] implements it; the
    theorems about tasks are proved against it. *)
From S2P Require Import Prelude Env.

(** The scheduler's part of [struct flb_config]. *)
Record sched_config := mk_sched_config {
  sched_base : Z; sched_cap : Z; is_shutting_down : bool
}.

Definition RAND_MAX : Z := 2147483647.

(** A configuration the backoff is defined for: 1 <= base <= cap, both [int]. *)
Definition sched_config_ok (cfg : sched_config) : Prop :=
  0 < sched_base cfg <= sched_cap cfg ∧ sched_cap cfg < RAND_MAX.

(** The delay, in seconds, a retry may be given at its [tries]-th attempt. *)
Definition delay_bounds (cfg : sched_config) (tries seconds : Z) : Prop :=
  if is_shutting_down cfg then seconds = 1
  else sched_base cfg < seconds <= Z.min (sched_cap cfg) (sched_base cfg * 2 ^ tries) + 1.

Class RetryQueue (S : Type) `{HasEnv S} := {
  rqueue_create : sched_config → nat → Z → M S Z;
  rqueue_invalidate : nat → M S Z;
  rqueue_retry_now : nat → M S Z;
  (** a request, by its address: the retry it carries, and its removal once it was dispatched *)
  rqueue_request : S → nat → option nat;
  rqueue_request_destroy : nat → M S Z;
  rqueue_wf : S → Prop;
  rqueue_pending : S → list nat;

  rqueue_create_evolves cfg data tries :: Evolves (rqueue_create cfg data tries);
  rqueue_invalidate_evolves data :: Evolves (rqueue_invalidate data);
  rqueue_retry_now_evolves data :: Evolves (rqueue_retry_now data);
  rqueue_request_destroy_evolves q :: Evolves (rqueue_request_destroy q);

  (** Other components may move the environment forward. *)
  rqueue_set_env e s : rqueue_wf s → (e_next (env_of s) <= e_next e)%nat →
    rqueue_wf (set_env e s) ∧ rqueue_pending (set_env e s) = rqueue_pending s ∧
    (∀ q, rqueue_request (set_env e s) q = rqueue_request s q);

  rqueue_create_law cfg data tries s :
    rqueue_wf s → sched_config_ok cfg → 0 <= tries < 2 ^ 31 →
    ∃ r s', rqueue_create cfg data tries s = Some (r, s') ∧ rqueue_wf s' ∧
      (calm (env_of s) → r ≠ -1) ∧
      (∀ q d, rqueue_request s q = Some d → rqueue_request s' q = Some d) ∧
      ((r = -1 ∧ rqueue_pending s' ≡ₚ rqueue_pending s) ∨
       (delay_bounds cfg tries r ∧ rqueue_pending s' ≡ₚ data :: rqueue_pending s));

  rqueue_invalidate_law data s :
    rqueue_wf s →
    (data ∉ rqueue_pending s → rqueue_invalidate data s = Some (-1, s)) ∧
    (data ∈ rqueue_pending s → ∃ s', rqueue_invalidate data s = Some (0, s') ∧ rqueue_wf s' ∧
       (∀ q d, d ≠ data → rqueue_request s q = Some d → rqueue_request s' q = Some d) ∧
       rqueue_pending s ≡ₚ data :: rqueue_pending s');

  rqueue_request_law q data s :
    rqueue_wf s → rqueue_request s q = Some data →
    ∃ s', rqueue_request_destroy q s = Some (0, s') ∧ rqueue_wf s' ∧
      rqueue_pending s ≡ₚ data :: rqueue_pending s';

  rqueue_retry_now_law data s :
    rqueue_wf s →
    ∃ r s', rqueue_retry_now data s = Some (r, s') ∧ rqueue_wf s' ∧ (calm (env_of s) → r = 0) ∧
      ((r = -1 ∧ rqueue_pending s' ≡ₚ rqueue_pending s) ∨
       (r = 0 ∧ rqueue_pending s' ≡ₚ data :: rqueue_pending s))
}.
