(* ===== verification/Router.v ===== *)
(** * Router: tag matching and static routes ([src/flb_router.c])

    A tag is a byte buffer with an explicit length, a match pattern a NUL-terminated string: a list
    of characters that ends at the end of the list or at the first 0.  Regular expressions belong to
    the Onigmo library: [onig_match] is a parameter of everything that calls it. *)
From S2P Require Import Prelude.

Definition STAR : Z := 42.

(** [*match == '\0'] *)
Definition at_nul (m : list Z) : bool :=
  match m with [] => true | c :: _ => c =? 0 end.

(** [while ( *++match == '*') ]: drop successive stars. *)
Fixpoint skip_stars (m : list Z) : list Z :=
  match m with
  | c :: m' => if c =? STAR then skip_stars m' else m
  | [] => []
  end.

(** The search loop of the [*] case: try the rest of the pattern at each position of the tag whose
    byte is [c] ([memchr] finds the next one). *)
Fixpoint star_search (c : Z) (retry : list Z → bool) (tag : list Z) : bool :=
  match tag with
  | [] => false
  | x :: tag' =>
      if x =? c then
        if retry tag then true else star_search c retry tag'
      else star_search c retry tag'
  end.

(** The loop [while ( *match )] with the final test after it; [tag] is what is left at
    [tag_cursor], so [remaining == 0] is [tag = []].  [fuel] bounds the nested calls, one pattern
    character each. *)
Fixpoint match_loop (fuel : nat) (m tag : list Z) : bool :=
  match fuel with
  | O => false
  | S fuel' =>
      match m with
      | [] => match tag with [] => true | _ => false end
      | c :: m' =>
          if c =? 0 then match tag with [] => true | _ => false end
          else if c =? STAR then
            match skip_stars m' with
            | [] => true
            | d :: m2 =>
                if d =? 0 then true
                else star_search d (match_loop fuel' (d :: m2)) tag
            end
          else
            match tag with
            | [] => false
            | x :: tag' => if x =? c then match_loop fuel' m' tag' else false
            end
      end
  end.

(** [router_match] from the point where the regular expression was tried. *)
Definition match_pattern (m tag : list Z) : bool := match_loop (S (length m)) m tag.

(** A compiled Onigmo regular expression is a pointer the agent never looks into. *)
Definition regex : Type := nat.

Section router_match.
Context (onig_match : regex → list Z → Z).

(** A tag is [None] when the pointer is NULL; [tag_len] is the explicit length. *)
Definition router_match (tag : option (list Z)) (tag_len : Z)
    (match_ : option (list Z)) (match_r : option regex) : bool :=
  if tag_len <? 0 then false
  else
    let tag' := match tag with
                | Some t => Some (take (Z.to_nat tag_len) t)
                | None => if tag_len =? 0 then Some [] else None
                end in
    match tag' with
    | None => false
    | Some t =>
        let by_regex := match match_r with Some r => 0 <? onig_match r t | None => false end in
        if by_regex then true
        else match match_ with
             | None => false
             | Some m => match_pattern m t
             end
    end.

Definition flb_router_match := router_match.
End router_match.

(** ** Specification of the patterns *)

(** A pattern without NULs matches a tag when every [*] stands for some string of bytes and every
    other character for itself. *)
Inductive glob : list Z → list Z → Prop :=
| glob_nil : glob [] []
| glob_char c m t : c ≠ STAR → glob m t → glob (c :: m) (c :: t)
| glob_star m t1 t2 : glob m t2 → glob (STAR :: m) (t1 ++ t2).

(** The characters of a NUL-terminated string: up to the first 0. *)
Fixpoint cstr (m : list Z) : list Z :=
  match m with
  | [] => []
  | c :: m' => if c =? 0 then [] else c :: cstr m'
  end.

Lemma glob_star_inv m t : glob (STAR :: m) t → ∃ t1 t2, t = t1 ++ t2 ∧ glob m t2.
Proof. inversion 1; subst; [done|eauto]. Qed.

Lemma glob_char_inv c m t :
  c ≠ STAR → glob (c :: m) t → ∃ t', t = c :: t' ∧ glob m t'.
Proof. inversion 2; subst; [eauto|done]. Qed.

Lemma glob_star_star m t : glob (STAR :: STAR :: m) t ↔ glob (STAR :: m) t.
Proof.
  split.
  - intros (t1 & t2 & -> & (t3 & t4 & -> & ?)%glob_star_inv)%glob_star_inv.
    rewrite app_assoc. by constructor.
  - intros H. apply (glob_star (STAR :: m) [] t). done.
Qed.

Lemma glob_skip_stars m t :
  glob (STAR :: cstr m) t ↔ glob (STAR :: cstr (skip_stars m)) t.
Proof.
  induction m as [|c m IH]; simpl; [done|].
  destruct (Z.eqb_spec c STAR) as [->|Hc]; simpl; [|done].
  by rewrite glob_star_star, IH.
Qed.

Lemma skip_stars_head m d m2 : skip_stars m = d :: m2 → d ≠ STAR.
Proof.
  induction m as [|c m IH]; simpl; [done|].
  destruct (Z.eqb_spec c STAR); [done|]. by intros [= <- <-].
Qed.

Lemma skip_stars_length m : (length (skip_stars m) <= length m)%nat.
Proof. induction m as [|c m IH]; simpl; [lia|]. destruct (c =? STAR); simpl; lia. Qed.

Lemma star_search_spec c retry tag :
  star_search c retry tag = true ↔
  ∃ t1 t2, tag = t1 ++ c :: t2 ∧ retry (c :: t2) = true.
Proof.
  induction tag as [|x tag IH]; simpl.
  - split; [done|]. intros ([|] & ? & ? & ?); done.
  - assert (Hnext : star_search c retry tag = true ∨
                    (x = c ∧ retry (x :: tag) = true) ↔
            ∃ t1 t2, x :: tag = t1 ++ c :: t2 ∧ retry (c :: t2) = true).
    { rewrite IH. split.
      - intros [(t1 & t2 & -> & ?)|[-> ?]]; [by exists (x :: t1), t2|by exists [], tag].
      - intros ([|y t1] & t2 & [= -> ->] & ?); [by right|left; eauto]. }
    rewrite <- Hnext. clear IH Hnext. destruct (Z.eqb_spec x c) as [->|]; [|tauto].
    destruct (retry (c :: tag)) eqn:Hr; intuition congruence.
Qed.

Lemma glob_char_star_iff c m t :
  c ≠ STAR →
  glob (STAR :: c :: m) t ↔ ∃ t1 t2, t = t1 ++ c :: t2 ∧ glob (c :: m) (c :: t2).
Proof.
  intros Hc. split.
  - intros (t1 & t2 & -> & (t' & -> & ?)%glob_char_inv)%glob_star_inv; [|done].
    exists t1, t'. split; [done|]. by constructor.
  - intros (t1 & t2 & -> & ?). by constructor.
Qed.

Lemma glob_star_only t : glob [STAR] t.
Proof. rewrite <- (app_nil_r t). constructor. constructor. Qed.

Lemma glob_nil_iff t : (match t with [] => true | _ => false end) = true ↔ glob [] t.
Proof. split; [destruct t; [constructor|done]|by inversion 1]. Qed.

Lemma match_loop_spec fuel : ∀ m tag,
  (length m < fuel)%nat → match_loop fuel m tag = true ↔ glob (cstr m) tag.
Proof.
  induction fuel as [|fuel IH]; intros m tag Hlen; [lia|]. destruct m as [|c m].
  { apply glob_nil_iff. }
  cbn [match_loop cstr]. destruct (Z.eqb_spec c 0) as [->|Hc0].
  { apply glob_nil_iff. }
  destruct (Z.eqb_spec c STAR) as [->|Hc].
  - rewrite glob_skip_stars.
    pose proof (skip_stars_length m). destruct (skip_stars m) as [|d m2] eqn:Hs.
    { split; [intros _; apply glob_star_only|done]. }
    cbn [cstr]. apply skip_stars_head in Hs. destruct (Z.eqb_spec d 0).
    { split; [intros _; apply glob_star_only|done]. }
    rewrite star_search_spec, glob_char_star_iff by done.
    assert (Hcs : d :: cstr m2 = cstr (d :: m2)).
    { simpl. by destruct (Z.eqb_spec d 0). }
    rewrite Hcs. simpl in *. setoid_rewrite IH; [done|simpl; lia].
  - destruct tag as [|x tag].
    { split; [done|]. by intros (t' & ? & _)%glob_char_inv. }
    destruct (Z.eqb_spec x c) as [->|Hx].
    + rewrite IH by (simpl in Hlen; lia). split; [by constructor|].
      intros (t' & [= <-] & ?)%glob_char_inv; done.
    + split; [done|]. intros (t' & [= ??] & ?)%glob_char_inv; done.
Qed.

(** C9. The wildcard matcher, with its nested retry at every candidate position, decides exactly
    the declarative meaning of patterns: a [*] stands for any run of bytes, also an empty one, and
    every other character for itself; successive stars count as one and a pattern ends at its NUL. *)
Theorem match_pattern_correct (m tag : list Z) :
  match_pattern m tag = true ↔ glob (cstr m) tag.
Proof. unfold match_pattern. apply match_loop_spec. lia. Qed.

(** ** Instances, router paths and static routes *)

(** The fields of [struct flb_output_instance] that the configuration fixes; [o_p_name] is [p->name]
    and [o_test_mode] tells that [test_mode] is on and [test_formatter.callback] set. *)
Record flb_output_instance := mk_output {
  o_id : Z;
  o_name : list Z;
  o_match : option (list Z);
  o_match_regex : option regex;
  o_flags : Z;
  o_retry_limit : Z;
  o_is_threaded : bool;
  o_event_type : Z;
  o_alias : option (list Z);
  o_p_name : list Z;
  o_test_mode : bool
}.

(** [struct flb_router_path]: the pointer [ins] is the position in [config->outputs]; [route] is
    NULL for the paths made here. *)
Record flb_router_path := mk_path { rp_ins : nat; rp_route : option nat }.

(** The fields of [struct flb_input_instance] the router reads and writes; [i_p] tells whether the
    plugin pointer is set. *)
Record flb_input_instance := mk_input {
  i_id : Z;
  i_name : list Z;
  i_p : bool;
  i_tag : option (list Z);
  i_tag_len : Z;
  i_routes : list flb_router_path;
  i_routes_direct : list flb_router_path
}.

Definition set_routes (r : list flb_router_path) (i : flb_input_instance) : flb_input_instance :=
  mk_input (i_id i) (i_name i) (i_p i) (i_tag i) (i_tag_len i) r (i_routes_direct i).
Definition set_routes_direct (r : list flb_router_path) (i : flb_input_instance) : flb_input_instance :=
  mk_input (i_id i) (i_name i) (i_p i) (i_tag i) (i_tag_len i) (i_routes i) r.
Definition set_match (m : option (list Z)) (o : flb_output_instance) : flb_output_instance :=
  mk_output (o_id o) (o_name o) m (o_match_regex o) (o_flags o) (o_retry_limit o)
    (o_is_threaded o) (o_event_type o) (o_alias o) (o_p_name o) (o_test_mode o).

(** Allocations follow a script: the outcome of each in turn, success once it is used up. *)
Definition next_alloc (script : list bool) : bool * list bool :=
  match script with [] => (true, []) | b :: script' => (b, script') end.

Definition flb_router_connect (script : list bool) (in_ : flb_input_instance) (out : nat)
    : Z * flb_input_instance * list bool :=
  let '(ok, script') := next_alloc script in
  if ok then (0, set_routes (i_routes in_ ++ [mk_path out None]) in_, script')
  else (-1, in_, script').

Definition flb_router_connect_direct (script : list bool) (in_ : flb_input_instance) (out : nat)
    : Z * flb_input_instance * list bool :=
  let '(ok, script') := next_alloc script in
  if ok then (0, set_routes_direct (i_routes_direct in_ ++ [mk_path out None]) in_, script')
  else (-1, in_, script').

Section io_set.
Context (onig_match : regex → list Z → Z).

Definition no_match (o : flb_output_instance) : bool :=
  match o_match o, o_match_regex o with None, None => true | _, _ => false end.

Definition output_matches (i : flb_input_instance) (o : flb_output_instance) : bool :=
  flb_router_match onig_match (i_tag i) (i_tag_len i) (o_match o) (o_match_regex o).

(** The inner loop of the N:M case, over [config->outputs] from position [n] on. *)
Fixpoint connect_outputs (script : list bool) (i : flb_input_instance) (n : nat)
    (outs : list flb_output_instance) : flb_input_instance * list bool :=
  match outs with
  | [] => (i, script)
  | o :: outs' =>
      if no_match o then connect_outputs script i (S n) outs'
      else if output_matches i o then
        let '(_, i', script') := flb_router_connect script i n in
        connect_outputs script' i' (S n) outs'
      else connect_outputs script i (S n) outs'
  end.

(** The outer loop: an input without plugin or without tag is left alone. *)
Fixpoint connect_inputs (script : list bool) (ins : list flb_input_instance)
    (outs : list flb_output_instance) : list flb_input_instance * list bool :=
  match ins with
  | [] => ([], script)
  | i :: ins' =>
      let skip := negb (i_p i) || match i_tag i with None => true | _ => false end in
      let '(i', script') := if skip then (i, script) else connect_outputs script i 0 outs in
      let '(ins'', script'') := connect_inputs script' ins' outs in
      (i' :: ins'', script'')
  end.

(** [flb_router_io_set].  [has_input_routes] is [!cfl_list_is_empty(&config->input_routes)] and
    [apply_config] is [flb_router_apply_config] of [src/flb_router_config.c]. *)
Definition flb_router_io_set
    (apply_config : list flb_input_instance → Z * list flb_input_instance)
    (has_input_routes : bool) (script : list bool)
    (ins : list flb_input_instance) (outs : list flb_output_instance)
    : Z * list flb_input_instance * list flb_output_instance :=
  match ins, outs with
  | [i], [o] =>
      let '(o', script1) :=
        if no_match o then
          let '(ok, script1) := next_alloc script in
          (set_match (if ok then Some [STAR] else None) o, script1)
        else (o, script) in
      let '(_, i', _) := flb_router_connect script1 i 0 in
      (0, [i'], [o'])
  | _, _ =>
      let '(ins', _) := connect_inputs script ins outs in
      if has_input_routes then
        let '(ret, ins'') := apply_config ins' in
        if ret =? -1 then (-1, ins'', outs) else (0, ins'', outs)
      else (0, ins', outs)
  end.

(** [flb_router_exit] unlinks and frees the paths of every input. *)
Definition flb_router_exit (ins : list flb_input_instance) : list flb_input_instance :=
  map (λ i, set_routes_direct [] (set_routes [] i)) ins.

(** *** Reference: which outputs an input should reach *)

Definition wanted (i : flb_input_instance) (o : flb_output_instance) : bool :=
  negb (no_match o) && output_matches i o.

Fixpoint wanted_paths (i : flb_input_instance) (n : nat) (outs : list flb_output_instance)
    : list flb_router_path :=
  match outs with
  | [] => []
  | o :: outs' => (if wanted i o then [mk_path n None] else []) ++ wanted_paths i (S n) outs'
  end.

Lemma wanted_paths_set_routes r i outs : ∀ n,
  wanted_paths (set_routes r i) n outs = wanted_paths i n outs.
Proof. induction outs as [|o outs IH]; intros n; simpl; [done|]. by rewrite IH. Qed.

Lemma connect_outputs_spec outs : ∀ i n,
  connect_outputs [] i n outs = (set_routes (i_routes i ++ wanted_paths i n outs) i, []).
Proof.
  induction outs as [|o outs IH]; intros i n; simpl.
  { rewrite app_nil_r. by destruct i. }
  unfold wanted. destruct (no_match o); simpl; [by rewrite IH|].
  destruct (output_matches i o); simpl; [|by rewrite IH].
  rewrite IH, wanted_paths_set_routes. simpl. by rewrite <- app_assoc.
Qed.

Definition routed_input (outs : list flb_output_instance) (i : flb_input_instance)
    : flb_input_instance :=
  if i_p i && match i_tag i with None => false | _ => true end
  then set_routes (i_routes i ++ wanted_paths i 0 outs) i else i.

Lemma connect_inputs_spec ins outs :
  connect_inputs [] ins outs = (map (routed_input outs) ins, []).
Proof.
  induction ins as [|i ins IH]; simpl; [done|]. unfold routed_input.
  destruct (i_p i); simpl; [|by rewrite IH].
  destruct (i_tag i); simpl; [|by rewrite IH].
  rewrite connect_outputs_spec. by rewrite IH.
Qed.

Lemma router_match_spec tag m r :
  flb_router_match onig_match (Some tag) (zlen tag) m r = true ↔
  (∃ r', r = Some r' ∧ 0 < onig_match r' tag) ∨
  (∃ m', m = Some m' ∧ glob (cstr m') tag).
Proof.
  unfold flb_router_match, router_match, zlen. destruct (Z.ltb_spec (Z.of_nat (length tag)) 0); [lia|].
  rewrite Nat2Z.id, firstn_all.
  assert (Hm : (match m with None => false | Some m' => match_pattern m' tag end) = true ↔
               ∃ m', m = Some m' ∧ glob (cstr m') tag).
  { destruct m as [m|]; [|naive_solver]. unfold match_pattern.
    rewrite match_loop_spec by lia. naive_solver. }
  destruct r as [r|]; [|rewrite Hm; naive_solver].
  destruct (Z.ltb_spec 0 (onig_match r tag)); [naive_solver|].
  rewrite Hm. split; [by right|]. intros [(? & [= <-] & ?)|?]; [lia|done].
Qed.

Definition reaches (tag : list Z) (o : flb_output_instance) : Prop :=
  (∃ r, o_match_regex o = Some r ∧ 0 < onig_match r tag) ∨
  (∃ m, o_match o = Some m ∧ glob (cstr m) tag).

Lemma wanted_spec i o tag :
  i_tag i = Some tag → i_tag_len i = zlen tag → wanted i o = true ↔ reaches tag o.
Proof.
  intros Ht Hl. unfold wanted, output_matches, no_match. rewrite Ht, Hl.
  rewrite andb_true_iff, router_match_spec. unfold reaches.
  destruct (o_match o), (o_match_regex o); naive_solver.
Qed.

Lemma wanted_paths_elem i outs : ∀ n k,
  mk_path k None ∈ wanted_paths i n outs ↔
  ∃ o, (n <= k)%nat ∧ outs !! (k - n)%nat = Some o ∧ wanted i o = true.
Proof.
  induction outs as [|o outs IH]; intros n k; simpl.
  { split; [by intros ?%not_elem_of_nil|]. by intros (? & _ & ? & _). }
  rewrite elem_of_app, IH. split.
  - intros [Hk|(o' & ? & ? & ?)].
    + destruct (wanted i o) eqn:?; [|by apply not_elem_of_nil in Hk].
      apply list_elem_of_singleton in Hk as [= ->]. exists o. by rewrite Nat.sub_diag.
    + exists o'. split_and!; [lia| |done]. by replace (k - n)%nat with (S (k - S n)) by lia.
  - intros (o' & ? & Hl & Hw). destruct (decide (k = n)) as [->|].
    + rewrite Nat.sub_diag in Hl. injection Hl as ->. rewrite Hw. left. by apply list_elem_of_singleton.
    + right. exists o'. split_and!; [lia| |done].
      by replace (k - n)%nat with (S (k - S n)) in Hl by lia.
Qed.
End io_set.

(** Static routing is exact.  With more than the single input and output of the 1:1 shortcut and
    no allocation failure, every input that has a plugin and a tag ends with a path to the
    [n]-th output if and only if that output's regular expression or its match pattern accepts the
    tag; the outputs are untouched and the call succeeds. *)
Theorem flb_router_io_set_exact onig_match apply_config ins outs k i tag :
  (length ins = 1%nat → length outs = 1%nat → False) →
  ins !! k = Some i → i_p i = true → i_tag i = Some tag → i_tag_len i = zlen tag →
  i_routes i = [] →
  ∃ ins' i', flb_router_io_set onig_match apply_config false [] ins outs = (0, ins', outs) ∧
    ins' !! k = Some i' ∧
    ∀ n, mk_path n None ∈ i_routes i' ↔ ∃ o, outs !! n = Some o ∧ reaches onig_match tag o.
Proof.
  intros Hnm Hk Hp Ht Hl Hr. exists (map (routed_input onig_match outs) ins), (routed_input onig_match outs i).
  split_and!.
  - unfold flb_router_io_set. rewrite connect_inputs_spec.
    destruct ins as [|? [|]]; [done| |done]. destruct outs as [|? [|]]; [done| |done].
    by destruct Hnm.
  - change (map ?f ins) with (f <$> ins). by rewrite list_lookup_fmap, Hk.
  - intros n. unfold routed_input. rewrite Hp, Ht. simpl. rewrite Hr. simpl.
    rewrite wanted_paths_elem. setoid_rewrite (wanted_spec onig_match i _ tag Ht Hl).
    rewrite Nat.sub_0_r. split; [intros (o & _ & ? & ?)|intros (o & ? & ?)]; eauto with lia.
Qed.

(** Two outputs, "app.*" and "sys"; the tag "app.x" reaches the first only. *)
Definition ex_outs : list flb_output_instance :=
  [mk_output 0 [] (Some [97; 112; 112; 46; 42]) None 0 1 false 1 None [] false;
   mk_output 1 [] (Some [115; 121; 115]) None 0 1 false 1 None [] false].
Definition ex_in : flb_input_instance :=
  mk_input 0 [] true (Some [97; 112; 112; 46; 120]) 5 [] [].

Example flb_router_io_set_exact_witness :
  ∃ ins' i', flb_router_io_set (λ _ _, -1) (λ l, (0, l)) false [] [ex_in] ex_outs = (0, ins', ex_outs) ∧
    ins' !! 0%nat = Some i' ∧
    ∀ n, mk_path n None ∈ i_routes i' ↔
      ∃ o, ex_outs !! n = Some o ∧ reaches (λ _ _, -1) [97; 112; 112; 46; 120] o.
Proof.
  apply (flb_router_io_set_exact (λ _ _, -1) (λ l, (0, l)) [ex_in] ex_outs 0 ex_in);
    (reflexivity || discriminate).
Defined.
