(* ===== verification/RoutesMask.v ===== *)
(** * Routes mask: the bit field of outputs of a chunk ([src/flb_routes_mask.c])

    A mask is the array of 64-bit elements the chunk carries, [struct flb_router] gives its size.
    Reading or writing the array outside its bounds is undefined behaviour ([None]). *)
From S2P Require Import Prelude Router.

(** The fields of [struct flb_router] about masks; [route_empty_mask] is [None] when NULL. *)
Record flb_router := mk_router {
  route_mask_size : Z;
  route_mask_slots : Z;
  route_empty_mask : option (list Z)
}.

Definition FLB_ROUTES_MASK_ELEMENT_BITS : Z := 64.

Definition flb_routes_mask_get_size (router : option flb_router) : Z :=
  match router with None => 0 | Some r => route_mask_size r end.

Definition flb_routes_mask_get_slots (router : option flb_router) : Z :=
  match router with None => 0 | Some r => route_mask_slots r end.

Definition out_of_slots (r : flb_router) (value : Z) : bool :=
  (value <? 0) || (route_mask_slots r <=? value).

Definition bit_of (value : Z) : Z := u64 (Z.shiftl 1 (value mod FLB_ROUTES_MASK_ELEMENT_BITS)).

Definition flb_routes_mask_set_bit (mask : list Z) (value : Z) (router : option flb_router)
    : option (list Z) :=
  match router with
  | None => Some mask
  | Some r =>
      if out_of_slots r value then Some mask
      else
        let index := value / FLB_ROUTES_MASK_ELEMENT_BITS in
        let bit := bit_of value in
        e ← mask !z index; zinsert index (Z.lor e bit) mask
  end.

Definition flb_routes_mask_clear_bit (mask : list Z) (value : Z) (router : option flb_router)
    : option (list Z) :=
  match router with
  | None => Some mask
  | Some r =>
      if out_of_slots r value then Some mask
      else
        let index := value / FLB_ROUTES_MASK_ELEMENT_BITS in
        let bit := bit_of value in
        e ← mask !z index; zinsert index (Z.land e (u64 (Z.lnot bit))) mask
  end.

Definition flb_routes_mask_get_bit (mask : list Z) (value : Z) (router : option flb_router)
    : option Z :=
  match router with
  | None => Some 0
  | Some r =>
      if out_of_slots r value then Some 0
      else
        let index := value / FLB_ROUTES_MASK_ELEMENT_BITS in
        let bit := bit_of value in
        e ← mask !z index; Some (if Z.land e bit =? 0 then 0 else 1)
  end.

(** [memcmp] of the first [n] elements: undefined when either array is shorter. *)
Definition memcmp_eq (a b : list Z) (n : Z) : option bool :=
  if (n <=? zlen a) && (n <=? zlen b)
  then Some (bool_decide (take (Z.to_nat n) a = take (Z.to_nat n) b)) else None.

Definition flb_routes_mask_is_empty (mask : list Z) (router : option flb_router) : option Z :=
  match router with
  | None => Some 0
  | Some r =>
      match route_empty_mask r with
      | None => Some 0
      | Some em => b ← memcmp_eq mask em (route_mask_size r); Some (if (b : bool) then 1 else 0)
      end
  end.

Definition flb_routes_empty_mask_destroy (router : option flb_router) : option flb_router :=
  match router with
  | None => None
  | Some r => Some (mk_router (route_mask_size r) (route_mask_slots r) None)
  end.

(** [calloc_ok] is the outcome of the allocation. *)
Definition flb_routes_empty_mask_create (calloc_ok : bool) (router : option flb_router)
    : Z * option flb_router :=
  match router with
  | None => (-1, None)
  | Some _ =>
      match flb_routes_empty_mask_destroy router with
      | None => (-1, None)
      | Some r =>
          if calloc_ok then
            (0, Some (mk_router (route_mask_size r) (route_mask_slots r)
                        (Some (replicate (Z.to_nat (route_mask_size r)) 0))))
          else (-1, Some r)
      end
  end.

Definition flb_routes_mask_set_size (calloc_ok : bool) (mask_size : Z) (router : option flb_router)
    : Z * option flb_router :=
  match router with
  | None => (-1, None)
  | Some r =>
      let mask_size := if mask_size <? 1 then 1 else mask_size in
      let mask_size := u64 (mask_size + FLB_ROUTES_MASK_ELEMENT_BITS - 1) /
                       FLB_ROUTES_MASK_ELEMENT_BITS in
      flb_routes_empty_mask_create calloc_ok
        (Some (mk_router mask_size (u64 (mask_size * FLB_ROUTES_MASK_ELEMENT_BITS))
                 (route_empty_mask r)))
  end.

(** [memset(mask, 0, n elements)] *)
Definition memset_zero (mask : list Z) (n : Z) : option (list Z) :=
  if n <=? zlen mask then Some (replicate (Z.to_nat n) 0 ++ drop (Z.to_nat n) mask) else None.

Section set_by_tag.
Context (onig_match : regex → list Z → Z).

(** The loop over [config->outputs]; every output's own [config] is the one that lists it. *)
Fixpoint set_matching (mask : list Z) (has_routes : Z) (tag : option (list Z)) (tag_len : Z)
    (outs : list flb_output_instance) (router : option flb_router) : option (Z * list Z) :=
  match outs with
  | [] => Some (has_routes, mask)
  | o :: outs' =>
      if flb_router_match onig_match tag tag_len (o_match o) (o_match_regex o) then
        mask' ← flb_routes_mask_set_bit mask (o_id o) router;
        set_matching mask' 1 tag tag_len outs' router
      else set_matching mask has_routes tag tag_len outs' router
  end.

(** [flb_routes_mask_set_by_tag].  [config] is [None] when the input or its [config] is NULL;
    otherwise it gives [config->router] and [config->outputs]. *)
Definition flb_routes_mask_set_by_tag (mask : list Z) (tag : option (list Z)) (tag_len : Z)
    (config : option (option flb_router * list flb_output_instance)) : option (Z * list Z) :=
  match config with
  | Some (Some r, outs) =>
      mask' ← memset_zero mask (flb_routes_mask_get_size (Some r));
      set_matching mask' 0 tag tag_len outs (Some r)
  | _ => Some (0, mask)
  end.
End set_by_tag.

(** ** Specification: a mask is the set of selected output ids *)

(** The router after a successful [flb_routes_mask_set_size]. *)
Definition router_wf (r : flb_router) : Prop :=
  0 < route_mask_size r ∧ route_mask_slots r = route_mask_size r * 64 ∧ route_mask_slots r < 2 ^ 64 ∧
  route_empty_mask r = Some (replicate (Z.to_nat (route_mask_size r)) 0).

Definition mask_wf (r : flb_router) (mask : list Z) : Prop :=
  zlen mask = route_mask_size r ∧ Forall (λ e, 0 <= e < 2 ^ 64) mask.

Definition in_slots (r : flb_router) (v : Z) : Prop := 0 <= v < route_mask_slots r.

(** [selected mask v]: bit [v] of the bit field. *)
Definition selected (mask : list Z) (v : Z) : Prop :=
  ∃ e, mask !z (v / 64) = Some e ∧ Z.testbit e (v mod 64) = true.
#[global] Instance selected_dec mask v : Decision (selected mask v).
Proof.
  unfold selected. destruct (mask !z (v / 64)) as [e|]; [|right; by intros (? & ? & _)].
  destruct (Z.testbit e (v mod 64)) eqn:He; [left; by exists e|right; intros (? & [= <-] & ?); congruence].
Defined.

Lemma bit_of_eq v : bit_of v = Z.shiftl 1 (v mod 64).
Proof.
  unfold bit_of, FLB_ROUTES_MASK_ELEMENT_BITS. apply u64_id.
  pose proof (Z.mod_pos_bound v 64 ltac:(lia)).
  rewrite Z.shiftl_1_l. split; [lia|]. apply Z.pow_lt_mono_r; lia.
Qed.

Lemma testbit_bit_of v n : 0 <= n → Z.testbit (bit_of v) n = (n =? v mod 64).
Proof.
  intros Hn. rewrite bit_of_eq, Z.shiftl_1_l.
  pose proof (Z.mod_pos_bound v 64 ltac:(lia)).
  destruct (Z.eqb_spec n (v mod 64)) as [->|]; [by apply Z.pow2_bits_true|].
  apply Z.pow2_bits_false. lia.
Qed.

Lemma out_of_slots_false r v : out_of_slots r v = false ↔ in_slots r v.
Proof. unfold out_of_slots, in_slots. rewrite orb_false_iff, Z.ltb_ge, Z.leb_gt. done. Qed.

Lemma slot_index r mask v :
  router_wf r → mask_wf r mask → in_slots r v → 0 <= v / 64 < zlen mask.
Proof.
  intros (? & Hs & _) [Hl _] Hv. rewrite Hl. unfold in_slots in Hv. rewrite Hs in Hv.
  split; [apply Z.div_pos; lia|]. apply Z.div_lt_upper_bound; lia.
Qed.

Lemma land_bit_testbit e v : (Z.land e (bit_of v) =? 0) = negb (Z.testbit e (v mod 64)).
Proof.
  pose proof (Z.mod_pos_bound v 64 ltac:(lia)).
  destruct (Z.testbit e (v mod 64)) eqn:Ht; simpl.
  - apply Z.eqb_neq. intros H0.
    assert (Z.testbit (Z.land e (bit_of v)) (v mod 64) = true) as Hb.
    { rewrite Z.land_spec, Ht, testbit_bit_of by lia. by rewrite Z.eqb_refl. }
    by rewrite H0, Z.bits_0 in Hb.
  - apply Z.eqb_eq, Z.bits_inj'. intros n Hn.
    rewrite Z.land_spec, testbit_bit_of, Z.bits_0 by lia.
    destruct (Z.eqb_spec n (v mod 64)) as [->|]; [by rewrite Ht|apply andb_false_r].
Qed.

(** The bits of an element after [|= bit] and [&= ~bit]. *)
Lemma testbit_lor_bit e v n :
  0 <= n → Z.testbit (Z.lor e (bit_of v)) n = Z.testbit e n || (n =? v mod 64).
Proof. intros. by rewrite Z.lor_spec, testbit_bit_of. Qed.

Lemma testbit_land_not_bit e v n :
  0 <= n < 64 → Z.testbit (Z.land e (u64 (Z.lnot (bit_of v)))) n = Z.testbit e n && negb (n =? v mod 64).
Proof.
  intros. unfold u64. rewrite Z.land_spec, Z.mod_pow2_bits_low, Z.lnot_spec, testbit_bit_of by lia. done.
Qed.

Lemma range_64 e : 0 <= e < 2 ^ 64 ↔ 0 <= e ∧ ∀ n, 64 <= n → Z.testbit e n = false.
Proof.
  split.
  - intros He. split; [lia|]. intros n Hn. rewrite <- (Z.mod_small e (2 ^ 64)) by done.
    apply Z.mod_pow2_bits_high. lia.
  - intros [H0 Hb]. split; [done|].
    replace e with (e mod 2 ^ 64); [by apply Z.mod_pos_bound|].
    apply Z.bits_inj'. intros n Hn. destruct (Z.lt_ge_cases n 64).
    + apply Z.mod_pow2_bits_low. lia.
    + rewrite Z.mod_pow2_bits_high by lia. by rewrite Hb.
Qed.

Lemma lor_bit_range e v : 0 <= e < 2 ^ 64 → 0 <= Z.lor e (bit_of v) < 2 ^ 64.
Proof.
  rewrite !range_64. intros [H0 Hb]. pose proof (Z.mod_pos_bound v 64 ltac:(lia)). split.
  - apply Z.lor_nonneg. split; [done|]. rewrite bit_of_eq, Z.shiftl_1_l. lia.
  - intros n ?. rewrite testbit_lor_bit, Hb by lia. apply Z.eqb_neq. lia.
Qed.

Lemma land_range e f : 0 <= e < 2 ^ 64 → 0 <= Z.land e f < 2 ^ 64.
Proof.
  rewrite !range_64. intros [H0 Hb]. split; [apply Z.land_nonneg; auto|].
  intros n ?. by rewrite Z.land_spec, Hb.
Qed.

Lemma mask_wf_insert r mask i e :
  mask_wf r mask → 0 <= e < 2 ^ 64 → mask_wf r (<[i := e]> mask).
Proof. intros [??] ?. split; [by rewrite zlen_insert|]. by apply Forall_insert. Qed.

Lemma mask_elem r mask i e : mask_wf r mask → mask !z i = Some e → 0 <= e < 2 ^ 64.
Proof. intros [_ Hf] [_ He]%zlookup_Some. by eapply Forall_lookup_1 in Hf. Qed.

(** How an update of one element changes the selection, from what it does to the bits. *)
Lemma selected_update mask v e e' (f : Z → bool → bool) :
  0 <= v → mask !z (v / 64) = Some e →
  (∀ n, 0 <= n < 64 → Z.testbit e' n = f n (Z.testbit e n)) →
  (∀ n b, n ≠ v mod 64 → f n b = b) →
  ∀ w, selected (<[Z.to_nat (v / 64) := e']> mask) w ↔
       if decide (v = w) then f (v mod 64) (Z.testbit e (v mod 64)) = true else selected mask w.
Proof.
  intros Hv He Hbits Hother w. apply zlookup_Some in He as Hlt. destruct Hlt as [Hlt _].
  pose proof (Z.mod_pos_bound v 64 ltac:(lia)). pose proof (Z.mod_pos_bound w 64 ltac:(lia)).
  unfold selected. destruct (decide (v = w)) as [<-|Hne].
  - rewrite zlookup_insert_eq by done. rewrite <- Hbits by done. naive_solver.
  - destruct (decide (v / 64 = w / 64)) as [Heq|Hdiv].
    + rewrite <- Heq, zlookup_insert_eq, He by done.
      assert (Hm : w mod 64 ≠ v mod 64).
      { intros ?. apply Hne. rewrite (Z.div_mod v 64), (Z.div_mod w 64) by lia. lia. }
      split; intros (? & [= <-] & Ht); eexists; (split; [done|]).
      * by rewrite Hbits, Hother in Ht by done.
      * by rewrite Hbits, Hother by done.
    + rewrite zlookup_insert_ne by (lia || done). done.
Qed.

Lemma set_bit_spec r mask v :
  router_wf r → mask_wf r mask → in_slots r v →
  ∃ mask', flb_routes_mask_set_bit mask v (Some r) = Some mask' ∧ mask_wf r mask' ∧
    ∀ w, selected mask' w ↔ v = w ∨ selected mask w.
Proof.
  intros Hr Hm Hv. pose proof (slot_index r mask v Hr Hm Hv) as Hi.
  destruct (zlookup_is_Some mask (v / 64) Hi) as [e He].
  unfold flb_routes_mask_set_bit. rewrite (proj2 (out_of_slots_false r v) Hv).
  unfold FLB_ROUTES_MASK_ELEMENT_BITS. rewrite He. simpl. rewrite zinsert_Some by done.
  eexists. split; [done|]. split.
  { apply mask_wf_insert; [done|]. by eapply lor_bit_range, mask_elem. }
  intros w. rewrite (selected_update mask v e _ (λ n b, b || (n =? v mod 64))).
  - rewrite Z.eqb_refl, orb_true_r. case_decide; naive_solver.
  - apply Hv.
  - done.
  - intros n ?. apply testbit_lor_bit. lia.
  - intros n b Hn. apply Z.eqb_neq in Hn. rewrite Hn. apply orb_false_r.
Qed.

Lemma clear_bit_spec r mask v :
  router_wf r → mask_wf r mask → in_slots r v →
  ∃ mask', flb_routes_mask_clear_bit mask v (Some r) = Some mask' ∧ mask_wf r mask' ∧
    ∀ w, selected mask' w ↔ v ≠ w ∧ selected mask w.
Proof.
  intros Hr Hm Hv. pose proof (slot_index r mask v Hr Hm Hv) as Hi.
  destruct (zlookup_is_Some mask (v / 64) Hi) as [e He].
  unfold flb_routes_mask_clear_bit. rewrite (proj2 (out_of_slots_false r v) Hv).
  unfold FLB_ROUTES_MASK_ELEMENT_BITS. rewrite He. simpl. rewrite zinsert_Some by done.
  eexists. split; [done|]. split.
  { apply mask_wf_insert; [done|]. by eapply land_range, mask_elem. }
  intros w. rewrite (selected_update mask v e _ (λ n b, b && negb (n =? v mod 64))).
  - rewrite Z.eqb_refl, andb_false_r. case_decide; naive_solver.
  - apply Hv.
  - done.
  - intros n ?. by apply testbit_land_not_bit.
  - intros n b Hn. apply Z.eqb_neq in Hn. rewrite Hn. apply andb_true_r.
Qed.

Lemma get_bit_spec r mask v :
  router_wf r → mask_wf r mask →
  ∃ b, flb_routes_mask_get_bit mask v (Some r) = Some b ∧ (b = 1 ∨ b = 0) ∧
    (b = 1 ↔ in_slots r v ∧ selected mask v).
Proof.
  intros Hr Hm. unfold flb_routes_mask_get_bit. destruct (out_of_slots r v) eqn:Ho.
  { eexists. split; [done|]. split; [by right|]. split; [done|].
    intros [Hs _]. apply out_of_slots_false in Hs. congruence. }
  apply out_of_slots_false in Ho. pose proof (slot_index r mask v Hr Hm Ho) as Hi.
  destruct (zlookup_is_Some mask (v / 64) Hi) as [e He].
  unfold FLB_ROUTES_MASK_ELEMENT_BITS, selected. rewrite He. simpl. rewrite land_bit_testbit.
  eexists. split; [done|]. destruct (Z.testbit e (v mod 64)) eqn:Ht; simpl; (split; [auto|]).
  - split; [|done]. eauto.
  - split; [done|]. intros (_ & e' & [= <-] & Ht'). congruence.
Qed.

Lemma set_bit_out mask v r :
  ¬ in_slots r v → flb_routes_mask_set_bit mask v (Some r) = Some mask.
Proof.
  intros Hn. unfold flb_routes_mask_set_bit. destruct (out_of_slots r v) eqn:Ho; [done|].
  by apply out_of_slots_false in Ho.
Qed.

(** ** Emptiness, size and routing of a tag *)

Lemma mask_wf_zero r n :
  router_wf r → n = Z.to_nat (route_mask_size r) → mask_wf r (replicate n 0).
Proof.
  intros (? & _) ->. split; [unfold zlen; rewrite length_replicate; lia|].
  apply Forall_replicate. lia.
Qed.

Lemma selected_zero n v : ¬ selected (replicate n 0) v.
Proof.
  intros (e & [_ [-> _]%lookup_replicate]%zlookup_Some & Ht). by rewrite Z.bits_0 in Ht.
Qed.

Lemma element_nonzero e : 0 <= e < 2 ^ 64 → e ≠ 0 → ∃ n, 0 <= n < 64 ∧ Z.testbit e n = true.
Proof.
  intros He H0. exists (Z.log2 e). split.
  - split; [apply Z.log2_nonneg|]. apply Z.log2_lt_pow2; lia.
  - apply Z.bit_log2. lia.
Qed.

Lemma no_selected_zero r mask :
  mask_wf r mask → (∀ v, ¬ selected mask v) → mask = replicate (length mask) 0.
Proof.
  intros Hm Hno. symmetry. apply replicate_as_Forall. split; [done|]. apply Forall_lookup_2.
  intros i e He. destruct (decide (e = 0)) as [->|Hne]; [done|]. exfalso.
  assert (He' : mask !z (Z.of_nat i) = Some e).
  { unfold zlookup. destruct (Z.leb_spec 0 (Z.of_nat i)); [by rewrite Nat2Z.id|lia]. }
  destruct (element_nonzero e (mask_elem _ _ _ _ Hm He') Hne) as (n & Hn & Ht).
  apply (Hno (Z.of_nat i * 64 + n)). exists e.
  replace ((Z.of_nat i * 64 + n) / 64) with (Z.of_nat i) by (Z.div_mod_to_equations; lia).
  replace ((Z.of_nat i * 64 + n) mod 64) with n by (Z.div_mod_to_equations; lia). done.
Qed.

Lemma set_matching_spec onig_match r tag tag_len : router_wf r → ∀ outs mask h,
  mask_wf r mask →
  ∃ h' mask', set_matching onig_match mask h tag tag_len outs (Some r) = Some (h', mask') ∧
    mask_wf r mask' ∧
    h' = (if existsb (λ o, flb_router_match onig_match tag tag_len (o_match o) (o_match_regex o)) outs
          then 1 else h) ∧
    ∀ v, selected mask' v ↔ selected mask v ∨
      (in_slots r v ∧ ∃ o, o ∈ outs ∧ o_id o = v ∧
        flb_router_match onig_match tag tag_len (o_match o) (o_match_regex o) = true).
Proof.
  intros Hr. induction outs as [|o outs IH]; intros mask h Hm;
    cbn [set_matching existsb].
  { exists h, mask. split_and!; try done. intros v. split; [by left|].
    intros [?|(_ & ? & ?%not_elem_of_nil & _)]; done. }
  destruct (flb_router_match _ _ _ (o_match o) _) eqn:Ho; cbn [orb].
  - destruct (out_of_slots r (o_id o)) eqn:Hos.
    + rewrite set_bit_out by (rewrite <- out_of_slots_false; congruence). simpl.
      destruct (IH mask 1 Hm) as (h' & mask' & -> & ? & Hh & Hs).
      exists h', mask'. split_and!; try done. { rewrite Hh. by case_match. }
      intros v. rewrite Hs, exists_elem_cons. split; [tauto|].
      intros [?|(Hv & [[<- _]|?])]; [by left| |by right].
      apply out_of_slots_false in Hv. congruence.
    + apply out_of_slots_false in Hos.
      destruct (set_bit_spec r mask (o_id o) Hr Hm Hos) as (m1 & -> & Hm1 & Hs1). simpl.
      destruct (IH m1 1 Hm1) as (h' & mask' & -> & ? & Hh & Hs).
      exists h', mask'. split_and!; try done. { rewrite Hh. by case_match. }
      intros v. rewrite Hs, Hs1, exists_elem_cons. rewrite Ho.
      destruct (decide (o_id o = v)) as [<-|]; tauto.
  - destruct (IH mask h Hm) as (h' & mask' & -> & ? & Hh & Hs).
    exists h', mask'. split_and!; try done.
    intros v. rewrite Hs, exists_elem_cons, Ho. intuition congruence.
Qed.

(** ** Properties *)

(** The mask refines a set of output ids.  On a mask of the router's size no operation leaves
    the array, and reading bit [w] after setting or clearing an in-range [v] gives exactly the
    membership in the set with [v] added or removed; masks keep their size and 64-bit elements. *)
Theorem routes_mask_refines_set r mask v w :
  router_wf r → mask_wf r mask → in_slots r v → in_slots r w →
  ∃ ms mc b0 b1 b2,
    flb_routes_mask_set_bit mask v (Some r) = Some ms ∧ mask_wf r ms ∧
    flb_routes_mask_clear_bit mask v (Some r) = Some mc ∧ mask_wf r mc ∧
    flb_routes_mask_get_bit mask w (Some r) = Some b0 ∧
    flb_routes_mask_get_bit ms w (Some r) = Some b1 ∧
    flb_routes_mask_get_bit mc w (Some r) = Some b2 ∧
    b1 = (if decide (v = w) then 1 else b0) ∧ b2 = (if decide (v = w) then 0 else b0).
Proof.
  intros Hr Hm Hv Hw.
  destruct (set_bit_spec r mask v Hr Hm Hv) as (ms & Hse & Hms & Hs).
  destruct (clear_bit_spec r mask v Hr Hm Hv) as (mc & Hce & Hmc & Hc).
  destruct (get_bit_spec r mask w Hr Hm) as (b0 & ? & ? & Hb0).
  destruct (get_bit_spec r ms w Hr Hms) as (b1 & ? & ? & Hb1).
  destruct (get_bit_spec r mc w Hr Hmc) as (b2 & ? & ? & Hb2).
  exists ms, mc, b0, b1, b2. split_and!; try done.
  - rewrite Hs in Hb1. case_decide; [tauto|]. destruct (decide (b0 = 1)); intuition congruence.
  - rewrite Hc in Hb2. case_decide; [|destruct (decide (b0 = 1)); intuition congruence].
    destruct (decide (b2 = 1)); intuition congruence.
Qed.

Definition ex_router : flb_router := mk_router 2 128 (Some [0; 0]).

Lemma ex_router_wf : router_wf ex_router ∧ mask_wf ex_router [0; 5].
Proof. split; [by repeat split|]. split; [done|]. repeat constructor; lia. Qed.

Example routes_mask_refines_set_witness :
  in_slots ex_router 68 ∧ ∃ ms mc b0 b1 b2,
    flb_routes_mask_set_bit [0; 5] 68 (Some ex_router) = Some ms ∧ mask_wf ex_router ms ∧
    flb_routes_mask_clear_bit [0; 5] 68 (Some ex_router) = Some mc ∧ mask_wf ex_router mc ∧
    flb_routes_mask_get_bit [0; 5] 64 (Some ex_router) = Some b0 ∧
    flb_routes_mask_get_bit ms 64 (Some ex_router) = Some b1 ∧
    flb_routes_mask_get_bit mc 64 (Some ex_router) = Some b2 ∧
    b1 = (if decide (68 = 64) then 1 else b0) ∧ b2 = (if decide (68 = 64) then 0 else b0).
Proof.
  split; [split; vm_compute; (reflexivity || discriminate)|].
  apply (routes_mask_refines_set ex_router [0; 5] 68 64);
    [apply ex_router_wf|apply ex_router_wf|split; vm_compute; (reflexivity || discriminate)..].
Defined.

Lemma memset_zero_all r mask : mask_wf r mask →
  memset_zero mask (route_mask_size r) = Some (replicate (Z.to_nat (route_mask_size r)) 0).
Proof.
  intros [Hlen _]. unfold memset_zero. rewrite (proj2 (Z.leb_le _ _)) by lia. rewrite drop_ge, app_nil_r; [done|].
  unfold zlen in Hlen. lia.
Qed.

Lemma is_empty_spec r mask : router_wf r → mask_wf r mask →
  ∃ e, flb_routes_mask_is_empty mask (Some r) = Some e ∧ (e ≠ 0 ↔ ∀ v, ¬ selected mask v).
Proof.
  intros (_ & _ & _ & Hem) Hm. set (z := replicate (Z.to_nat (route_mask_size r)) 0).
  assert (He : memcmp_eq mask z (route_mask_size r) = Some (bool_decide (mask = z))).
  { destruct Hm as [Hl _]. unfold memcmp_eq, z, zlen in *. rewrite length_replicate.
    rewrite !(proj2 (Z.leb_le _ _)) by lia. simpl.
    rewrite !firstn_all2 by (rewrite ?length_replicate; lia). done. }
  exists (if bool_decide (mask = z) then 1 else 0). split.
  { unfold flb_routes_mask_is_empty. rewrite Hem. fold z. rewrite He. done. }
  pose proof Hm as [Hl _]. case_bool_decide as Hd.
  - split; [|done]. intros _ v. rewrite Hd. apply selected_zero.
  - split; [done|]. intros Hno. exfalso. apply Hd. unfold z.
    rewrite (no_selected_zero r mask Hm Hno). f_equal. unfold zlen in Hl. lia.
Qed.

(** [flb_routes_mask_set_by_tag] routes a chunk by its tag.  Whatever the mask held before, the
    selected ids afterwards are exactly the in-range ids of the outputs that match the tag, the
    result tells whether some output matched, and the emptiness test then answers whether nothing
    is selected. *)
Theorem flb_routes_mask_set_by_tag_spec onig_match r mask tag tag_len outs :
  router_wf r → mask_wf r mask →
  ∃ ret mask' e,
    flb_routes_mask_set_by_tag onig_match mask tag tag_len (Some (Some r, outs)) = Some (ret, mask') ∧
    mask_wf r mask' ∧
    (ret ≠ 0 ↔ ∃ o, o ∈ outs ∧
      flb_router_match onig_match tag tag_len (o_match o) (o_match_regex o) = true) ∧
    (∀ v, selected mask' v ↔ in_slots r v ∧ ∃ o, o ∈ outs ∧ o_id o = v ∧
      flb_router_match onig_match tag tag_len (o_match o) (o_match_regex o) = true) ∧
    flb_routes_mask_is_empty mask' (Some r) = Some e ∧ (e ≠ 0 ↔ ∀ v, ¬ selected mask' v).
Proof.
  intros Hr Hm. pose proof Hr as (Hpos & Hslots & Hmax & Hem).
  destruct (set_matching_spec onig_match r tag tag_len Hr outs (replicate (Z.to_nat (route_mask_size r)) 0) 0) as (h & m' & Hrun & Hm' & Hh & Hs).
  { by apply mask_wf_zero. }
  destruct (is_empty_spec r m' Hr Hm') as (e & He & Hiff). exists h, m', e. split_and!; [|done| | |done|done].
  - unfold flb_routes_mask_set_by_tag. simpl. rewrite (memset_zero_all r mask Hm). done.
  - rewrite Hh. destruct (existsb _ outs) eqn:Hex.
    + apply existsb_exists in Hex as (o & Hin & ?). split; [intros _|done].
      exists o. split; [by apply list_elem_of_In|done].
    + split; [done|]. intros (o & Hin%list_elem_of_In & Ho).
      assert (existsb (λ o, flb_router_match onig_match tag tag_len (o_match o) (o_match_regex o)) outs = true)
        by (apply existsb_exists; eauto). congruence.
  - intros v. rewrite Hs. split; [intros [Hz'|?]; [by apply selected_zero in Hz'|done]|by right].
Qed.

Example flb_routes_mask_set_by_tag_spec_witness :
  ∃ ret mask' e,
    flb_routes_mask_set_by_tag (λ _ _, -1) [0; 5] (i_tag ex_in) 5 (Some (Some ex_router, ex_outs))
      = Some (ret, mask') ∧
    mask_wf ex_router mask' ∧
    (ret ≠ 0 ↔ ∃ o, o ∈ ex_outs ∧
      flb_router_match (λ _ _, -1) (i_tag ex_in) 5 (o_match o) (o_match_regex o) = true) ∧
    (∀ v, selected mask' v ↔ in_slots ex_router v ∧ ∃ o, o ∈ ex_outs ∧ o_id o = v ∧
      flb_router_match (λ _ _, -1) (i_tag ex_in) 5 (o_match o) (o_match_regex o) = true) ∧
    flb_routes_mask_is_empty mask' (Some ex_router) = Some e ∧ (e ≠ 0 ↔ ∀ v, ¬ selected mask' v).
Proof.
  apply (flb_routes_mask_set_by_tag_spec (λ _ _, -1) ex_router [0; 5]); apply ex_router_wf.
Defined.

(** Sizing is tight and never leaves a router the mask operations cannot use: when the bit count
    does not wrap, the router is well formed (all-zero reference mask included), every requested slot
    exists, and less than one element is wasted. *)
Theorem flb_routes_mask_set_size_tight n r :
  0 <= n <= 2 ^ 64 - 128 →
  ∃ r', flb_routes_mask_set_size true n (Some r) = (0, Some r') ∧ router_wf r' ∧
    Z.max n 1 <= route_mask_slots r' < Z.max n 1 + 64.
Proof.
  intros Hn. unfold flb_routes_mask_set_size, FLB_ROUTES_MASK_ELEMENT_BITS.
  assert (Hm : (if n <? 1 then 1 else n) = Z.max n 1) by (destruct (Z.ltb_spec n 1); lia).
  rewrite Hm. rewrite (u64_id (Z.max n 1 + 64 - 1)) by lia.
  set (k := (Z.max n 1 + 64 - 1) / 64).
  assert (Hk : Z.max n 1 <= k * 64 < Z.max n 1 + 64).
  { unfold k. clear Hm k. Z.div_mod_to_equations. lia. }
  rewrite (u64_id (k * 64)) by lia.
  eexists. split; [reflexivity|]. unfold router_wf. simpl. split_and!; (lia || done).
Qed.

Example flb_routes_mask_set_size_tight_witness :
  ∃ r', flb_routes_mask_set_size true 130 (Some ex_router) = (0, Some r') ∧ router_wf r' ∧
    Z.max 130 1 <= route_mask_slots r' < Z.max 130 1 + 64.
Proof. apply (flb_routes_mask_set_size_tight 130 ex_router). lia. Defined.
