(* ===== verification/Sched.v ===== *)
(** * Scheduler ([src/flb_scheduler.c]): timers, retry requests, timer coroutines

    Timers and requests are heap objects, addressed by [nat]; the lists of [struct flb_sched] hold
    addresses.  Reaching a freed object is undefined behaviour.  The scheduler never looks into the
    [data] of a request: for its clients it is a multiset of scheduled retries ([pending]). *)
From S2P Require Import Prelude Env RetryQueue.

Definition FLB_SCHED_REQUEST_FRAME : Z := 10.
Definition FLB_SCHED_TIMER_REQUEST : Z := 1.
Definition FLB_SCHED_TIMER_FRAME : Z := 2.
Definition FLB_SCHED_TIMER_CB_ONESHOT : Z := 3.
Definition FLB_SCHED_TIMER_CB_PERM : Z := 4.

(** [struct flb_sched_timer]; [tm_event_fd] is [event.fd]. *)
Record flb_sched_timer := mk_timer {
  tm_active : bool;
  tm_type : Z;
  tm_coro : bool;
  tm_data : option nat;
  tm_timer_fd : Z;
  tm_event_fd : Z
}.
Definition set_tm_active (x : bool) (s : flb_sched_timer) : flb_sched_timer :=
  mk_timer x (tm_type s) (tm_coro s) (tm_data s) (tm_timer_fd s) (tm_event_fd s).
Definition set_tm_type (x : Z) (s : flb_sched_timer) : flb_sched_timer :=
  mk_timer (tm_active s) x (tm_coro s) (tm_data s) (tm_timer_fd s) (tm_event_fd s).
Definition set_tm_coro (x : bool) (s : flb_sched_timer) : flb_sched_timer :=
  mk_timer (tm_active s) (tm_type s) x (tm_data s) (tm_timer_fd s) (tm_event_fd s).
Definition set_tm_data (x : option nat) (s : flb_sched_timer) : flb_sched_timer :=
  mk_timer (tm_active s) (tm_type s) (tm_coro s) x (tm_timer_fd s) (tm_event_fd s).
Definition set_tm_timer_fd (x : Z) (s : flb_sched_timer) : flb_sched_timer :=
  mk_timer (tm_active s) (tm_type s) (tm_coro s) (tm_data s) x (tm_event_fd s).
Definition set_tm_event_fd (x : Z) (s : flb_sched_timer) : flb_sched_timer :=
  mk_timer (tm_active s) (tm_type s) (tm_coro s) (tm_data s) (tm_timer_fd s) x.

(** [struct flb_sched_request]; [rq_data] is the [struct flb_task_retry] to retry. *)
Record flb_sched_request := mk_request {
  rq_fd : Z;
  rq_created : Z;
  rq_timeout : Z;
  rq_data : nat;
  rq_timer : nat
}.
Definition set_rq_fd (x : Z) (s : flb_sched_request) : flb_sched_request :=
  mk_request x (rq_created s) (rq_timeout s) (rq_data s) (rq_timer s).
Definition set_rq_created (x : Z) (s : flb_sched_request) : flb_sched_request :=
  mk_request (rq_fd s) x (rq_timeout s) (rq_data s) (rq_timer s).
Definition set_rq_timeout (x : Z) (s : flb_sched_request) : flb_sched_request :=
  mk_request (rq_fd s) (rq_created s) x (rq_data s) (rq_timer s).
Definition set_rq_data (x : nat) (s : flb_sched_request) : flb_sched_request :=
  mk_request (rq_fd s) (rq_created s) (rq_timeout s) x (rq_timer s).
Definition set_rq_timer (x : nat) (s : flb_sched_request) : flb_sched_request :=
  mk_request (rq_fd s) (rq_created s) (rq_timeout s) (rq_data s) x.

(** [struct flb_sched_timer_coro] *)
Record flb_sched_timer_coro := mk_coro { stc_id : Z; stc_timer : nat; stc_data : option nat }.

(** [struct flb_sched], with the heaps of its timers and requests. *)
Record flb_sched := mk_sched {
  sc_requests : list nat;
  sc_requests_wait : list nat;
  sc_timers : list nat;
  sc_timers_drop : list nat;
  sc_coros : list flb_sched_timer_coro;
  sc_coros_drop : list flb_sched_timer_coro;
  sc_frame_fd : Z;
  sc_reqs : gmap nat flb_sched_request;
  sc_tmrs : gmap nat flb_sched_timer;
  sc_env : env
}.
Definition set_sc_requests (x : list nat) (s : flb_sched) : flb_sched :=
  mk_sched x (sc_requests_wait s) (sc_timers s) (sc_timers_drop s) (sc_coros s) (sc_coros_drop s) (sc_frame_fd s) (sc_reqs s) (sc_tmrs s) (sc_env s).
Definition set_sc_requests_wait (x : list nat) (s : flb_sched) : flb_sched :=
  mk_sched (sc_requests s) x (sc_timers s) (sc_timers_drop s) (sc_coros s) (sc_coros_drop s) (sc_frame_fd s) (sc_reqs s) (sc_tmrs s) (sc_env s).
Definition set_sc_timers (x : list nat) (s : flb_sched) : flb_sched :=
  mk_sched (sc_requests s) (sc_requests_wait s) x (sc_timers_drop s) (sc_coros s) (sc_coros_drop s) (sc_frame_fd s) (sc_reqs s) (sc_tmrs s) (sc_env s).
Definition set_sc_timers_drop (x : list nat) (s : flb_sched) : flb_sched :=
  mk_sched (sc_requests s) (sc_requests_wait s) (sc_timers s) x (sc_coros s) (sc_coros_drop s) (sc_frame_fd s) (sc_reqs s) (sc_tmrs s) (sc_env s).
Definition set_sc_coros (x : list flb_sched_timer_coro) (s : flb_sched) : flb_sched :=
  mk_sched (sc_requests s) (sc_requests_wait s) (sc_timers s) (sc_timers_drop s) x (sc_coros_drop s) (sc_frame_fd s) (sc_reqs s) (sc_tmrs s) (sc_env s).
Definition set_sc_coros_drop (x : list flb_sched_timer_coro) (s : flb_sched) : flb_sched :=
  mk_sched (sc_requests s) (sc_requests_wait s) (sc_timers s) (sc_timers_drop s) (sc_coros s) x (sc_frame_fd s) (sc_reqs s) (sc_tmrs s) (sc_env s).
Definition set_sc_frame_fd (x : Z) (s : flb_sched) : flb_sched :=
  mk_sched (sc_requests s) (sc_requests_wait s) (sc_timers s) (sc_timers_drop s) (sc_coros s) (sc_coros_drop s) x (sc_reqs s) (sc_tmrs s) (sc_env s).
Definition set_sc_reqs (x : gmap nat flb_sched_request) (s : flb_sched) : flb_sched :=
  mk_sched (sc_requests s) (sc_requests_wait s) (sc_timers s) (sc_timers_drop s) (sc_coros s) (sc_coros_drop s) (sc_frame_fd s) x (sc_tmrs s) (sc_env s).
Definition set_sc_tmrs (x : gmap nat flb_sched_timer) (s : flb_sched) : flb_sched :=
  mk_sched (sc_requests s) (sc_requests_wait s) (sc_timers s) (sc_timers_drop s) (sc_coros s) (sc_coros_drop s) (sc_frame_fd s) (sc_reqs s) x (sc_env s).
Definition set_sc_env (x : env) (s : flb_sched) : flb_sched :=
  mk_sched (sc_requests s) (sc_requests_wait s) (sc_timers s) (sc_timers_drop s) (sc_coros s) (sc_coros_drop s) (sc_frame_fd s) (sc_reqs s) (sc_tmrs s) x.

#[global] Instance sched_HasEnv : HasEnv flb_sched.
Proof. refine {| env_of := sc_env; set_env := set_sc_env |}; [done|by intros []|done]. Defined.

(** ** Heap access *)

Definition timer_at (t : nat) : M flb_sched flb_sched_timer := λ s,
  match sc_tmrs s !! t with Some x => Some (x, s) | None => None end.
Definition store_timer (t : nat) (x : flb_sched_timer) : M flb_sched unit :=
  modify (λ s, set_sc_tmrs (<[t := x]> (sc_tmrs s)) s).
Definition request_at (q : nat) : M flb_sched flb_sched_request := λ s,
  match sc_reqs s !! q with Some x => Some (x, s) | None => None end.
Definition store_request (q : nat) (x : flb_sched_request) : M flb_sched unit :=
  modify (λ s, set_sc_reqs (<[q := x]> (sc_reqs s)) s).

(** ** Timers *)

Definition flb_sched_timer_create : M flb_sched (option nat) :=
  p ← malloc;
  match p with
  | None => mret None
  | Some t =>
      store_timer t (mk_timer true 0 false None (-1) (-1)) ≫= λ _,
      modify (λ s, set_sc_timers (sc_timers s ++ [t]) s) ≫= λ _,
      mret (Some t)
  end.

Definition flb_sched_timer_cb_disable (t : nat) : M flb_sched Z :=
  x ← timer_at t;
  if tm_timer_fd x =? -1 then mret 0
  else
    emit (TimeoutDestroy (tm_event_fd x)) ≫= λ _,
    store_timer t (set_tm_timer_fd (-1) x) ≫= λ _,
    mret 0.

Definition unlink_timer (t : nat) : M flb_sched unit :=
  modify (λ s, set_sc_timers_drop (unlink t (sc_timers_drop s))
                 (set_sc_timers (unlink t (sc_timers s)) s)).

Definition flb_sched_timer_invalidate (t : nat) : M flb_sched unit :=
  flb_sched_timer_cb_disable t ≫= λ _,
  x ← timer_at t;
  store_timer t (set_tm_active false x) ≫= λ _,
  unlink_timer t ≫= λ _,
  modify (λ s, set_sc_timers_drop (sc_timers_drop s ++ [t]) s).

Definition flb_sched_timer_destroy (t : nat) : M flb_sched Z :=
  flb_sched_timer_cb_disable t ≫= λ _,
  unlink_timer t ≫= λ _,
  modify (λ s, set_sc_tmrs (delete t (sc_tmrs s)) s) ≫= λ _,
  mret 0.

Definition flb_sched_timer_cb_destroy (t : nat) : M flb_sched Z :=
  flb_sched_timer_destroy t ≫= λ _, mret 0.

(** ** Timer coroutines *)

(** [sched_timer_coro_get_id]: the loop that proposes 0, 1, ... until no active coroutine has the
    id; every refusal is due to another coroutine, so the number of coroutines bounds the rounds. *)
Fixpoint coro_id_loop (fuel : nat) (id : Z) (coros : list flb_sched_timer_coro) : Z :=
  match fuel with
  | O => id
  | S fuel' =>
      if id <? 2 ^ 32 - 1 then
        if existsb (λ c, stc_id c =? id) coros then coro_id_loop fuel' (id + 1) coros else id
      else id
  end.

Definition sched_timer_coro_get_id (s : flb_sched) : Z :=
  coro_id_loop (S (length (sc_coros s))) 0 (sc_coros s).

(** [sched_timer_coro_get_by_id] and [flb_sched_timer_coro_get] *)
Definition flb_sched_timer_coro_get (s : flb_sched) (id : Z) : option flb_sched_timer_coro :=
  List.find (λ c, stc_id c =? id) (sc_coros s).

(** [flb_sched_timer_coro_create]: two allocations, the context and its coroutine; the context of
    the running thread ([flb_sched_ctx_get]) is this scheduler. *)
Definition flb_sched_timer_coro_create (t : nat) (data : option nat)
    : M flb_sched (option flb_sched_timer_coro) :=
  p ← malloc;
  match p with
  | None => mret None
  | Some _ =>
      s ← get;
      let stc := mk_coro (sched_timer_coro_get_id s) t data in
      c ← malloc;
      match c with
      | None => mret None
      | Some _ =>
          modify (λ s, set_sc_coros (sc_coros s ++ [stc]) s) ≫= λ _, mret (Some stc)
      end
  end.

(** The branch of [flb_sched_event_handler] for FLB_ENGINE_EV_SCHED_CORO, on the value read from
    the channel: a finished coroutine moves to the drop list. *)
Definition FLB_SCHED_TIMER_CORO_RETURN : Z := 1.

Fixpoint remove_coro (id : Z) (l : list flb_sched_timer_coro) : list flb_sched_timer_coro :=
  match l with
  | [] => []
  | c :: l' => if stc_id c =? id then l' else c :: remove_coro id l'
  end.

Definition sched_coro_event (val : Z) : M flb_sched Z :=
  let op := Z.shiftr val 32 in
  let id := Z.land val (2 ^ 32 - 1) in
  s ← get;
  match flb_sched_timer_coro_get s id with
  | None => mret (-1)
  | Some stc =>
      when (op =? FLB_SCHED_TIMER_CORO_RETURN)
        (modify (λ s, set_sc_coros_drop (sc_coros_drop s ++ [stc])
           (set_sc_coros (remove_coro id (sc_coros s)) s))) ≫= λ _,
      mret 0
  end.

Definition flb_sched_timer_coro_cleanup : M flb_sched Z :=
  s ← get;
  put (set_sc_coros_drop [] s) ≫= λ _, mret (zlen (sc_coros_drop s)).

Definition flb_sched_timer_cleanup : M flb_sched Z :=
  l ← gets sc_timers_drop;
  foreach l (λ t, flb_sched_timer_destroy t ≫= λ _, mret tt) ≫= λ _,
  c ← flb_sched_timer_coro_cleanup;
  mret (zlen l + c).

(** ** Callback timers *)

Definition flb_sched_timer_cb_create (type ms : Z) (data : option nat) : M flb_sched (Z * option nat) :=
  if negb (type =? FLB_SCHED_TIMER_CB_ONESHOT) && negb (type =? FLB_SCHED_TIMER_CB_PERM)
  then mret (-1, None)
  else
    p ← flb_sched_timer_create;
    match p with
    | None => mret (-1, None)
    | Some t =>
        x ← timer_at t;
        store_timer t (set_tm_data data (set_tm_type type x)) ≫= λ _,
        fd ← timeout_create (Z.quot ms 1000) (Z.rem ms 1000 * 1000000);
        if fd =? -1 then
          flb_sched_timer_destroy t ≫= λ _, mret (-1, None)
        else
          x ← timer_at t;
          store_timer t (set_tm_timer_fd fd (set_tm_event_fd fd x)) ≫= λ _,
          mret (0, Some t)
    end.

Definition flb_sched_timer_coro_cb_create (type ms : Z) (data : option nat) : M flb_sched Z :=
  r ← flb_sched_timer_cb_create type (i32 ms) data;
  match r with
  | (ret, ot) =>
      if ret =? -1 then mret (-1)
      else match ot with
           | None => ub
           | Some t => x ← timer_at t; store_timer t (set_tm_coro true x) ≫= λ _, mret 0
           end
  end.

(** ** Retry requests *)

Definition schedule_request_now (seconds : Z) (t q : nat) : M flb_sched Z :=
  x ← timer_at t;
  fd ← timeout_create seconds 0;
  if fd =? -1 then mret (-1)
  else
    rq ← request_at q;
    store_request q (set_rq_fd fd rq) ≫= λ _,
    store_timer t (set_tm_timer_fd fd (set_tm_event_fd fd x)) ≫= λ _,
    modify (λ s, set_sc_requests (sc_requests s ++ [q]) s) ≫= λ _,
    mret 0.

Definition schedule_request_wait (q : nat) : M flb_sched Z :=
  modify (λ s, set_sc_requests_wait (sc_requests_wait s ++ [q]) s) ≫= λ _, mret 0.

Definition unlink_request (q : nat) : M flb_sched unit :=
  modify (λ s, set_sc_requests (unlink q (sc_requests s))
                 (set_sc_requests_wait (unlink q (sc_requests_wait s)) s)).

(** One round of the loop of [schedule_request_promote]; [failed] is [failed_requests]. *)
Definition promote_one (now : Z) (q : nat) (failed : list nat) : M flb_sched (list nat) :=
  rq ← request_at q;
  let passed := i32 (now - rq_created rq) in
  let fail_or (ret : Z) := if ret =? 0 then failed else failed ++ [q] in
  if rq_timeout rq <? passed then
    unlink_request q ≫= λ _,
    ret ← schedule_request_now 1 (rq_timer rq) q;
    mret (fail_or ret)
  else if rq_timeout rq <=? passed + FLB_SCHED_REQUEST_FRAME then
    unlink_request q ≫= λ _,
    ret ← schedule_request_now (i32 (Z.abs (passed - rq_timeout rq))) (rq_timer rq) q;
    mret (fail_or ret)
  else mret failed.

Fixpoint promote_loop (now : Z) (l : list nat) (failed : list nat) : M flb_sched (list nat) :=
  match l with
  | [] => mret failed
  | q :: l' => failed' ← promote_one now q failed; promote_loop now l' failed'
  end.

Definition schedule_request_promote : M flb_sched Z :=
  now ← time_now;
  l ← gets sc_requests_wait;
  failed ← promote_loop now l [];
  modify (λ s, set_sc_requests_wait (sc_requests_wait s ++ failed) s) ≫= λ _,
  mret 0.

(** *** Backoff *)

(** [while (ra < 0 || ra >= limit) ra = rand();] on the script of random values, then 0. *)
Fixpoint draw (limit : Z) (script : list Z) : Z * list Z :=
  match script with
  | [] => (0, [])
  | r :: script' => if (0 <=? r) && (r <? limit) then (r, script') else draw limit script'
  end.

(** [random_uniform]: division by an empty range is undefined. *)
Definition random_uniform (min max : Z) : M flb_sched Z := λ s,
  let range := i32 (max - min + 1) in
  if range =? 0 then None
  else
    let copies := Z.quot RAND_MAX range in
    let limit := range * copies in
    let e := sc_env s in
    let '(ra, script) := draw limit (e_rand e) in
    Some (Z.quot ra copies + min, set_sc_env (set_e_rand script e) s).

(** [ipow]: [fuel] bounds the number of bits of the exponent.  The source computes in double, where
    powers of two are exact below 2^1024 and beyond are capped the same way by [xmin]. *)
Fixpoint ipow_loop (fuel : nat) (result base exp : Z) : Z :=
  match fuel with
  | O => result
  | S fuel' =>
      let result := if Z.odd exp then result * base else result in
      let exp := Z.shiftr exp 1 in
      if exp =? 0 then result else ipow_loop fuel' result (base * base) exp
  end.

Definition ipow (base exp : Z) : Z := ipow_loop 32 1 base exp.
Definition xmin (a b : Z) : Z := if a <? b then a else b.

Definition backoff_full_jitter (base cap n : Z) : M flb_sched Z :=
  let temp := xmin cap (base * ipow 2 n) in
  random_uniform base temp.

Definition flb_sched_request_create (cfg : sched_config) (data : nat) (tries : Z) : M flb_sched Z :=
  p ← flb_sched_timer_create;
  match p with
  | None => mret (-1)
  | Some t =>
      p ← malloc;
      match p with
      | None => mret (-1)
      | Some q =>
          x ← timer_at t;
          store_timer t (set_tm_data (Some q) (set_tm_type FLB_SCHED_TIMER_REQUEST x)) ≫= λ _,
          seconds ← (if is_shutting_down cfg then mret 0
                     else backoff_full_jitter (i32 (sched_base cfg)) (i32 (sched_cap cfg)) tries);
          let seconds := seconds + 1 in
          now ← time_now;
          store_request q (mk_request (-1) now seconds data t) ≫= λ _,
          if FLB_SCHED_REQUEST_FRAME <? seconds then
            schedule_request_wait q ≫= λ _, mret seconds
          else
            ret ← schedule_request_now seconds t q;
            if ret =? -1 then
              flb_sched_timer_destroy t ≫= λ _,
              modify (λ s, set_sc_reqs (delete q (sc_reqs s)) s) ≫= λ _,
              mret (-1)
            else mret seconds
      end
  end.

Definition flb_sched_request_destroy (req : option nat) : M flb_sched Z :=
  match req with
  | None => mret 0
  | Some q =>
      rq ← request_at q;
      unlink_request q ≫= λ _,
      flb_sched_timer_invalidate (rq_timer rq) ≫= λ _,
      modify (λ s, set_sc_reqs (delete q (sc_reqs s)) s) ≫= λ _,
      mret 0
  end.

(** The search loops of [flb_sched_request_invalidate]. *)
Fixpoint find_request (data : nat) (l : list nat) : M flb_sched (option nat) :=
  match l with
  | [] => mret None
  | q :: l' =>
      rq ← request_at q;
      if decide (rq_data rq = data) then mret (Some q) else find_request data l'
  end.

Definition flb_sched_request_invalidate (data : nat) : M flb_sched Z :=
  l ← gets sc_requests;
  found ← find_request data l;
  match found with
  | Some q => flb_sched_request_destroy (Some q) ≫= λ _, mret 0
  | None =>
      l ← gets sc_requests_wait;
      found ← find_request data l;
      match found with
      | Some q => flb_sched_request_destroy (Some q) ≫= λ _, mret 0
      | None => mret (-1)
      end
  end.

Definition flb_sched_retry_now (retry : nat) : M flb_sched Z :=
  p ← flb_sched_timer_create;
  match p with
  | None => mret (-1)
  | Some t =>
      p ← malloc;
      match p with
      | None => flb_sched_timer_destroy t ≫= λ _, mret (-1)
      | Some q =>
          x ← timer_at t;
          store_timer t (set_tm_data (Some q) (set_tm_type FLB_SCHED_TIMER_REQUEST x)) ≫= λ _,
          now ← time_now;
          store_request q (mk_request (-1) now 0 retry t) ≫= λ _,
          ret ← schedule_request_now 0 t q;
          if ret =? -1 then
            flb_sched_timer_destroy t ≫= λ _,
            modify (λ s, set_sc_reqs (delete q (sc_reqs s)) s) ≫= λ _,
            mret (-1)
          else mret 0
      end
  end.

(** ** Life cycle *)

Definition flb_sched_destroy : M flb_sched Z :=
  l1 ← gets sc_requests;
  foreach l1 (λ q, flb_sched_request_destroy (Some q) ≫= λ _, mret tt) ≫= λ _,
  l2 ← gets sc_requests_wait;
  foreach l2 (λ q, flb_sched_request_destroy (Some q) ≫= λ _, mret tt) ≫= λ _,
  l3 ← gets sc_timers;
  foreach l3 (λ t, x ← timer_at t; emit (TimeoutDestroy (tm_event_fd x)) ≫= λ _,
                flb_sched_timer_destroy t ≫= λ _, mret tt) ≫= λ _,
  l4 ← gets sc_timers_drop;
  foreach l4 (λ t, flb_sched_timer_destroy t ≫= λ _, mret tt) ≫= λ _,
  mret (zlen l1 + zlen l2 + zlen l3 + zlen l4).

(** [flb_sched_create]: [None] is NULL.  The scheduler object itself is the state; its allocation is
    the first of the script; the last system call is [mk_event_channel_create]. *)
Definition sched_empty (e : env) : flb_sched := mk_sched [] [] [] [] [] [] 0 ∅ ∅ e.

Definition flb_sched_create : M flb_sched bool :=
  p ← malloc;
  match p with
  | None => mret false
  | Some _ =>
      modify (λ s, sched_empty (sc_env s)) ≫= λ _,
      p ← flb_sched_timer_create;
      match p with
      | None => mret false
      | Some t =>
          x ← timer_at t;
          store_timer t (set_tm_type FLB_SCHED_TIMER_FRAME x) ≫= λ _,
          fd ← timeout_create FLB_SCHED_REQUEST_FRAME 0;
          if fd =? -1 then flb_sched_timer_destroy t ≫= λ _, mret false
          else
            x ← timer_at t;
            store_timer t (set_tm_event_fd fd x) ≫= λ _,
            modify (set_sc_frame_fd fd) ≫= λ _,
            ok ← syscall;
            if (ok : bool) then mret true
            else flb_sched_destroy ≫= λ _, mret false
      end
  end.

(** ** Invariant

    [wf_sched F]: the request lists (with [F], requests unlinked for the moment) hold exactly the
    live requests, the timer lists exactly the live timers, once each; every request has a linked,
    active timer that leads back to it; addresses from [e_next] on are free. *)
Record wf_sched (F : list nat) (s : flb_sched) : Prop := {
  ws_req_nodup : NoDup (sc_requests s ++ sc_requests_wait s ++ F);
  ws_req_dom q : q ∈ sc_requests s ++ sc_requests_wait s ++ F ↔ is_Some (sc_reqs s !! q);
  ws_tmr_nodup : NoDup (sc_timers s ++ sc_timers_drop s);
  ws_tmr_dom t : t ∈ sc_timers s ++ sc_timers_drop s ↔ is_Some (sc_tmrs s !! t);
  ws_link q rq : sc_reqs s !! q = Some rq →
    rq_timer rq ∈ sc_timers s ∧ ∃ x, sc_tmrs s !! rq_timer rq = Some x ∧ tm_active x = true ∧
      tm_type x = FLB_SCHED_TIMER_REQUEST ∧ tm_data x = Some q;
  ws_fresh n : (e_next (sc_env s) <= n)%nat → sc_reqs s !! n = None ∧ sc_tmrs s !! n = None
}.

(** The retries waiting in the scheduler, with multiplicity. *)
Definition pending_in (F : list nat) (s : flb_sched) : list nat :=
  omap (λ q, rq_data <$> sc_reqs s !! q) (sc_requests s ++ sc_requests_wait s ++ F).
Definition pending (s : flb_sched) : list nat := pending_in [] s.

(** Steps that leave the requests alone. *)
Definition same_requests (s s' : flb_sched) : Prop :=
  sc_reqs s' = sc_reqs s ∧ sc_requests s' = sc_requests s ∧ sc_requests_wait s' = sc_requests_wait s.

Lemma same_requests_pending F s s' : same_requests s s' → pending_in F s' = pending_in F s.
Proof. intros (H1 & H2 & H3). unfold pending_in. by rewrite H1, H2, H3. Qed.

Lemma flb_sched_timer_create_spec F s : wf_sched F s →
  ∃ r s', flb_sched_timer_create s = Some (r, s') ∧ wf_sched F s' ∧ same_requests s s' ∧
    e_now (sc_env s') = e_now (sc_env s) ∧
    (calm (sc_env s) → r ≠ None ∧ calm (sc_env s')) ∧
    match r with
    | None => True
    | Some t => t ∈ sc_timers s' ∧ sc_tmrs s' !! t = Some (mk_timer true 0 false None (-1) (-1)) ∧
                ∀ q rq, sc_reqs s' !! q = Some rq → rq_timer rq ≠ t
    end.
Proof.
  intros W. unfold flb_sched_timer_create, store_timer. mrun.
  destruct (malloc_cases s) as [[[script ->] Hnc]|(script & -> & Hcalm)]; cbn.
  - eexists None, _. split; [done|]. split; [|split; [by repeat split|split; [done|by split]]].
    destruct W; by constructor.
  - set (n := e_next (sc_env s)). eexists (Some n), _. split; [done|].
    destruct (ws_fresh _ _ W n) as [Hq Ht]; [done|].
    assert (Hnin : n ∉ sc_timers s ++ sc_timers_drop s) by (rewrite (ws_tmr_dom _ _ W), Ht; by intros []).
    assert (Hne : ∀ q rq, sc_reqs s !! q = Some rq → rq_timer rq ≠ n).
    { intros q rq (_ & x & Hx & _)%(ws_link _ _ W) Heq. congruence. }
    split; [|split; [by repeat split|split; [done|split]]].
    + destruct W as [??? Hdom Hlink Hfresh]. constructor; cbn; try done.
      * apply not_elem_of_app in Hnin as [??].
        rewrite <- app_assoc. apply NoDup_app in ws_tmr_nodup0 as (? & Hd & ?).
        apply NoDup_app. split_and!; try done.
        -- intros x Hx [->|Hx']%elem_of_cons; [done|]. by eapply Hd.
        -- by apply NoDup_cons.
      * intros t. destruct (decide (n = t)) as [<-|].
        -- rewrite lookup_insert_eq. split; [by eexists|]. set_solver.
        -- rewrite lookup_insert_ne, <- Hdom by done. set_solver.
      * intros q rq Hl. destruct (Hlink q rq Hl) as (? & x & Hx & ?). split; [apply elem_of_app; by left|].
        exists x. rewrite lookup_insert_ne; [done|]. intros Heq. by apply (Hne q rq).
      * intros m Hm. destruct (Hfresh m) as [? ?]; [lia|]. split; [done|]. rewrite lookup_insert_ne; [done|lia].
    + intros Hc. split; [done|]. destruct Hc as [? ?] eqn:E. split; [by apply Hcalm|done].
    + cbn. split; [apply elem_of_app; right; by left|]. by rewrite lookup_insert_eq.
Qed.

(** Changing one live timer without unlinking it: the request that owns it, if any, must keep its
    link. *)
Lemma wf_store_timer F s t x x' :
  wf_sched F s → sc_tmrs s !! t = Some x →
  (∀ q rq, sc_reqs s !! q = Some rq → rq_timer rq = t →
     tm_active x' = true ∧ tm_type x' = FLB_SCHED_TIMER_REQUEST ∧ tm_data x' = Some q) →
  wf_sched F (set_sc_tmrs (<[t := x']> (sc_tmrs s)) s).
Proof.
  intros [??? Hdom Hlink Hfresh] Hx Hkeep. constructor; cbn; try done.
  - intros t'. rewrite Hdom. destruct (decide (t = t')) as [<-|].
    + rewrite lookup_insert_eq, Hx. by split; eexists.
    + by rewrite lookup_insert_ne.
  - intros q rq Hq. destruct (Hlink q rq Hq) as (? & y & ? & ?). split; [done|].
    destruct (decide (t = rq_timer rq)) as [Heq|].
    + exists x'. rewrite Heq, lookup_insert_eq. split; [done|]. by eapply Hkeep.
    + exists y. by rewrite lookup_insert_ne.
  - intros n Hn. destruct (Hfresh n Hn) as [? Hnone]. split; [done|].
    rewrite lookup_insert_ne; [done|]. congruence.
Qed.

(** The environment may move as long as addresses are not given out twice. *)
Lemma wf_set_env F s e :
  wf_sched F s → (e_next (sc_env s) <= e_next e)%nat → wf_sched F (set_sc_env e s).
Proof.
  intros [????? Hfresh] He. constructor; cbn; try done.
  intros n Hn. apply Hfresh. lia.
Qed.

(** ** Timers leave the requests alone *)

Lemma cb_disable_spec F s t x :
  wf_sched F s → sc_tmrs s !! t = Some x →
  ∃ s', flb_sched_timer_cb_disable t s = Some (0, s') ∧ wf_sched F s' ∧ same_requests s s' ∧
    sc_timers s' = sc_timers s ∧ sc_timers_drop s' = sc_timers_drop s ∧
    sc_tmrs s' = <[t := set_tm_timer_fd (-1) x]> (sc_tmrs s).
Proof.
  intros W Hx. unfold flb_sched_timer_cb_disable, timer_at. mrun. rewrite Hx. mrun.
  destruct (Z.eqb_spec (tm_timer_fd x) (-1)) as [Heq|].
  - exists s. split_and!; try done. rewrite insert_id; [done|]. rewrite Hx. f_equal.
    destruct x; simpl in *; by rewrite Heq.
  - unfold emit, store_timer. mrun. eexists. split; [done|]. cbn. split_and!; try done.
    apply (wf_store_timer F (set_sc_env _ s) t x (set_tm_timer_fd (-1) x)).
    + by apply wf_set_env.
    + done.
    + intros q rq Hq <-. destruct (ws_link _ _ W q rq Hq) as (_ & y & Hy & ?). cbn.
      rewrite Hx in Hy. by injection Hy as ->.
Qed.

Lemma tmr_unlink_nodup s t F :
  wf_sched F s → NoDup (unlink t (sc_timers s) ++ unlink t (sc_timers_drop s)).
Proof. intros W. rewrite <- unlink_app. apply NoDup_unlink, W. Qed.

(** Unlinking a timer no live request owns, and freeing it or moving it to the drop list. *)
Lemma timer_destroy_spec F s t :
  wf_sched F s → is_Some (sc_tmrs s !! t) →
  (∀ q rq, sc_reqs s !! q = Some rq → rq_timer rq ≠ t) →
  ∃ s', flb_sched_timer_destroy t s = Some (0, s') ∧ wf_sched F s' ∧ same_requests s s' ∧
    sc_tmrs s' = delete t (sc_tmrs s) ∧ sc_timers s' = unlink t (sc_timers s) ∧
    sc_timers_drop s' = unlink t (sc_timers_drop s).
Proof.
  intros W [x Hx] Hno. unfold flb_sched_timer_destroy, unlink_timer. mrun.
  destruct (cb_disable_spec F s t x W Hx) as (s1 & -> & W1 & (Hr1 & Hr2 & Hr3) & Ht & Htd & Hts). cbn.
  eexists. split; [done|]. split.
  - destruct W1 as [??? Hdom Hlink Hfresh]. constructor; cbn; try done.
    + rewrite Ht, Htd. by eapply tmr_unlink_nodup.
    + intros t'. rewrite <- unlink_app, elem_of_unlink, Hdom.
      destruct (decide (t = t')) as [<-|].
      * rewrite lookup_delete_eq. split; [by intros [[] _]|by intros []].
      * rewrite lookup_delete_ne by done. naive_solver.
    + intros q rq Hq. destruct (Hlink q rq Hq) as (Hin & y & Hy & ?).
      assert (rq_timer rq ≠ t) by (rewrite Hr1 in Hq; by eapply Hno).
      split; [by apply elem_of_unlink|]. exists y. by rewrite lookup_delete_ne.
    + intros n Hn. destruct (Hfresh n Hn) as [? Hnone]. split; [done|].
      destruct (decide (t = n)) as [<-|]; [by rewrite lookup_delete_eq|by rewrite lookup_delete_ne].
  - cbn. rewrite Ht, Htd, Hts, delete_insert_eq. by repeat split.
Qed.

Definition invalidated (x : flb_sched_timer) : flb_sched_timer :=
  set_tm_active false (set_tm_timer_fd (-1) x).

Lemma timer_invalidate_run s t x :
  sc_tmrs s !! t = Some x →
  ∃ e, e_next e = e_next (sc_env s) ∧ flb_sched_timer_invalidate t s = Some (tt,
    mk_sched (sc_requests s) (sc_requests_wait s) (unlink t (sc_timers s))
      (unlink t (sc_timers_drop s) ++ [t]) (sc_coros s) (sc_coros_drop s) (sc_frame_fd s) (sc_reqs s)
      (<[t := invalidated x]> (sc_tmrs s)) e).
Proof.
  intros Hx. unfold flb_sched_timer_invalidate, flb_sched_timer_cb_disable, timer_at, unlink_timer.
  mrun. rewrite Hx. mrun. destruct (Z.eqb_spec (tm_timer_fd x) (-1)) as [Heq|].
  - rewrite Hx. exists (sc_env s). split; [done|]. cbn. repeat f_equal. unfold invalidated.
    destruct x; simpl in *; by rewrite Heq.
  - unfold emit, store_timer. mrun. cbn. rewrite lookup_insert_eq. cbn. rewrite insert_insert_eq. cbn.
    by eexists (set_e_log _ (sc_env s)).
Qed.

(** [pending_in] after taking one request out. *)
Lemma omap_ext_in {A B} (f g : A → option B) (l : list A) : (∀ x, x ∈ l → f x = g x) → omap f l = omap g l.
Proof.
  induction l as [|x l IH]; intros H; [done|]. cbn.
  rewrite (H x) by (apply elem_of_cons; by left).
  rewrite IH; [done|]. intros y Hy. apply H. apply elem_of_cons. by right.
Qed.

Lemma omap_unlink {B} (f g : nat → option B) q (l : list nat) d :
  NoDup l → q ∈ l → f q = Some d → (∀ x, x ≠ q → f x = g x) →
  omap f l ≡ₚ d :: omap g (unlink q l).
Proof.
  intros Hnd Hin Hf Hext. etrans; [apply omap_Permutation, (unlink_Permutation q l Hnd Hin)|].
  cbn. rewrite Hf. f_equiv. rewrite (omap_ext_in f g); [done|].
  intros x [? _]%elem_of_unlink. by apply Hext.
Qed.

Lemma request_destroy_spec F s q rq :
  wf_sched F s → sc_reqs s !! q = Some rq → q ∉ F →
  ∃ s', flb_sched_request_destroy (Some q) s = Some (0, s') ∧ wf_sched F s' ∧
    sc_reqs s' = delete q (sc_reqs s) ∧ sc_requests s' = unlink q (sc_requests s) ∧
    sc_requests_wait s' = unlink q (sc_requests_wait s) ∧
    pending_in F s ≡ₚ rq_data rq :: pending_in F s'.
Proof.
  intros W Hq HF. unfold flb_sched_request_destroy, request_at, unlink_request. mrun. rewrite Hq. mrun.
  destruct (ws_link _ _ W q rq Hq) as (Htin & x & Hx & _).
  edestruct (timer_invalidate_run (set_sc_requests (unlink q (sc_requests s))
    (set_sc_requests_wait (unlink q (sc_requests_wait s)) s)) (rq_timer rq) x Hx) as (e & He & ->).
  cbn in He |- *. eexists. split; [done|].
  assert (Hnd := ws_req_nodup _ _ W).
  assert (Hin : q ∈ sc_requests s ++ sc_requests_wait s ++ F) by (rewrite (ws_req_dom _ _ W), Hq; eauto).
  assert (Hu : unlink q (sc_requests s) ++ unlink q (sc_requests_wait s) ++ F =
               unlink q (sc_requests s ++ sc_requests_wait s ++ F)).
  { by rewrite !unlink_app, (unlink_notin q F). }
  split; [|split_and!; try done].
  - pose proof W as [_ Hrd _ Htd Hlink Hfresh]. constructor; cbn.
    + rewrite Hu. by apply NoDup_unlink.
    + intros q'. rewrite Hu, elem_of_unlink, Hrd. destruct (decide (q = q')) as [<-|].
      * rewrite lookup_delete_eq. split; [by intros [[] _]|by intros []].
      * rewrite lookup_delete_ne by done. naive_solver.
    + assert (Hp : unlink (rq_timer rq) (sc_timers s) ++ unlink (rq_timer rq) (sc_timers_drop s) ++ [rq_timer rq]
              ≡ₚ sc_timers s ++ sc_timers_drop s).
      { rewrite app_assoc, <- unlink_app, Permutation_app_comm. symmetry. apply unlink_Permutation.
        - apply W.
        - apply elem_of_app. by left. }
      rewrite Hp. apply W.
    + intros t. rewrite app_assoc, <- unlink_app, elem_of_app, elem_of_unlink, list_elem_of_singleton, Htd.
      destruct (decide (rq_timer rq = t)) as [<-|].
      * rewrite lookup_insert_eq. split; [by eexists|by right].
      * rewrite lookup_insert_ne by done. naive_solver.
    + intros q' rq' Hq'. destruct (decide (q = q')) as [<-|]; [by rewrite lookup_delete_eq in Hq'|].
      rewrite lookup_delete_ne in Hq' by done.
      destruct (Hlink q' rq' Hq') as (? & y & Hy & ? & ? & Hd).
      assert (rq_timer rq' ≠ rq_timer rq).
      { intros Heq. destruct (Hlink q rq Hq) as (_ & z & Hz & _ & _ & Hdz). congruence. }
      split; [by apply elem_of_unlink|]. exists y. by rewrite lookup_insert_ne.
    + intros n Hn. destruct (Hfresh n) as [Hnone ?]; [lia|]. split.
      * destruct (decide (q = n)) as [<-|]; [by rewrite lookup_delete_eq|by rewrite lookup_delete_ne].
      * rewrite lookup_insert_ne; [done|]. intros Heq. congruence.
  - unfold pending_in. cbn. rewrite Hu.
    apply omap_unlink; try done.
    + by rewrite Hq.
    + intros x' ?. by rewrite lookup_delete_ne.
Qed.

(** ** Requests enter and leave *)

(** The retry a request carries. *)
Definition request_data (s : flb_sched) (q : nat) : option nat := rq_data <$> sc_reqs s !! q.

Lemma find_request_spec data s l :
  (∀ q, q ∈ l → is_Some (sc_reqs s !! q)) →
  ∃ r, find_request data l s = Some (r, s) ∧
    match r with
    | Some q => q ∈ l ∧ ∃ rq, sc_reqs s !! q = Some rq ∧ rq_data rq = data
    | None => ∀ q rq, q ∈ l → sc_reqs s !! q = Some rq → rq_data rq ≠ data
    end.
Proof.
  induction l as [|q l IH]; intros Hl; cbn.
  { exists None. split; [done|]. by intros q rq ?%not_elem_of_nil. }
  destruct (Hl q) as [rq Hq]; [by left|]. unfold request_at. mrun. rewrite Hq.
  destruct (decide (rq_data rq = data)) as [Heq|Hne].
  { exists (Some q). split; [done|]. split; [by left|eauto]. }
  destruct IH as (r & -> & Hr). { intros q' ?. apply Hl. by right. }
  exists r. split; [done|]. destruct r as [q'|].
  - destruct Hr as [? ?]. split; [by right|done].
  - intros q' rq' [->|?]%elem_of_cons ?; [congruence|by eapply Hr].
Qed.

Lemma elem_of_pending_in F s d :
  d ∈ pending_in F s ↔ ∃ q rq, q ∈ sc_requests s ++ sc_requests_wait s ++ F ∧
    sc_reqs s !! q = Some rq ∧ rq_data rq = d.
Proof.
  unfold pending_in. rewrite list_elem_of_omap. split.
  - intros (q & Hin & Hd). destruct (sc_reqs s !! q) as [rq|] eqn:?; [|done]. injection Hd as <-. eauto.
  - intros (q & rq & Hin & Hq & <-). exists q. split; [done|]. by rewrite Hq.
Qed.

Lemma request_invalidate_spec data s :
  wf_sched [] s →
  (data ∉ pending s → flb_sched_request_invalidate data s = Some (-1, s)) ∧
  (data ∈ pending s → ∃ s', flb_sched_request_invalidate data s = Some (0, s') ∧ wf_sched [] s' ∧
     (∀ q d, d ≠ data → request_data s q = Some d → request_data s' q = Some d) ∧
     pending s ≡ₚ data :: pending s').
Proof.
  intros W. unfold flb_sched_request_invalidate. mrun.
  assert (Hlive : ∀ q, q ∈ sc_requests s ++ sc_requests_wait s → is_Some (sc_reqs s !! q)).
  { intros q Hq. apply (ws_req_dom _ _ W). rewrite app_nil_r. done. }
  destruct (find_request_spec data s (sc_requests s)) as (r1 & -> & H1).
  { intros q ?. apply Hlive, elem_of_app. by left. }
  assert (Hgo : ∀ q rq, sc_reqs s !! q = Some rq → rq_data rq = data →
    ∃ s', flb_sched_request_destroy (Some q) s = Some (0, s') ∧ wf_sched [] s' ∧
      (∀ q d, d ≠ data → request_data s q = Some d → request_data s' q = Some d) ∧
      pending s ≡ₚ data :: pending s').
  { intros q rq Hq <-. destruct (request_destroy_spec [] s q rq W Hq) as (s' & ? & ? & Hr & _ & _ & ?);
      [by apply not_elem_of_nil|]. exists s'. split_and!; try done. intros q' d Hd Hq'.
    unfold request_data in *. rewrite Hr. destruct (decide (q = q')) as [<-|]; [|by rewrite lookup_delete_ne].
    rewrite Hq in Hq'. by injection Hq' as <-. }
  destruct r1 as [q|].
  { destruct H1 as (Hin & rq & Hq & Hd). destruct (Hgo q rq Hq Hd) as (s' & -> & ? & ? & ?).
    split; [|by eauto 10]. intros Hnp. destruct Hnp. apply elem_of_pending_in. exists q, rq. set_solver. }
  destruct (find_request_spec data s (sc_requests_wait s)) as (r2 & -> & H2).
  { intros q ?. apply Hlive, elem_of_app. by right. }
  destruct r2 as [q|].
  - destruct H2 as (Hin & rq & Hq & Hd). destruct (Hgo q rq Hq Hd) as (s' & -> & ? & ? & ?).
    split; [|by eauto 10]. intros Hnp. destruct Hnp. apply elem_of_pending_in. exists q, rq. set_solver.
  - split; [done|]. intros (q & rq & Hin & Hq & Hd)%elem_of_pending_in. exfalso.
    rewrite app_nil_r in Hin. apply elem_of_app in Hin as [Hin|Hin]; [by eapply H1|by eapply H2].
Qed.

(** A new request, owned by a timer nobody owns yet. *)
Lemma wf_add_request F s t x q rq :
  wf_sched F s → t ∈ sc_timers s → sc_tmrs s !! t = Some x → tm_active x = true →
  (∀ q' rq', sc_reqs s !! q' = Some rq' → rq_timer rq' ≠ t) →
  sc_reqs s !! q = None → sc_tmrs s !! q = None → (q < e_next (sc_env s))%nat → rq_timer rq = t →
  wf_sched (q :: F) (set_sc_reqs (<[q := rq]> (sc_reqs s)) (set_sc_tmrs
    (<[t := set_tm_data (Some q) (set_tm_type FLB_SCHED_TIMER_REQUEST x)]> (sc_tmrs s)) s)).
Proof.
  intros W Ht Hx Hact Hno Hq Hqt Hlt Hrt.
  assert (Hnin : q ∉ sc_requests s ++ sc_requests_wait s ++ F)
    by (rewrite (ws_req_dom _ _ W), Hq; by intros []).
  assert (Hperm : sc_requests s ++ sc_requests_wait s ++ q :: F ≡ₚ
                  q :: sc_requests s ++ sc_requests_wait s ++ F).
  { rewrite !app_assoc. symmetry. apply Permutation_middle. }
  pose proof W as [? Hrd ? Htd Hlink Hfresh]. constructor; cbn; try done.
  - rewrite Hperm. by apply NoDup_cons.
  - intros q'. rewrite Hperm, elem_of_cons, Hrd. destruct (decide (q = q')) as [<-|].
    + rewrite lookup_insert_eq. split; [by eexists|by left].
    + rewrite lookup_insert_ne by done. naive_solver.
  - intros t'. rewrite Htd. destruct (decide (t = t')) as [<-|].
    + rewrite lookup_insert_eq, Hx. by split; eexists.
    + by rewrite lookup_insert_ne.
  - intros q' rq' Hq'. destruct (decide (q = q')) as [<-|].
    + rewrite lookup_insert_eq in Hq'. injection Hq' as <-. rewrite Hrt. split; [done|].
      rewrite lookup_insert_eq. eexists. by split_and!.
    + rewrite lookup_insert_ne in Hq' by done. destruct (Hlink q' rq' Hq') as (? & y & ? & ?).
      split; [done|]. exists y. rewrite lookup_insert_ne; [done|]. intros Heq. by apply (Hno q' rq').
  - intros n Hn. destruct (Hfresh n Hn) as [? ?]. split.
    + rewrite lookup_insert_ne; [done|lia].
    + rewrite lookup_insert_ne; [done|]. congruence.
Qed.

Lemma timer_destroy_run s t x :
  sc_tmrs s !! t = Some x →
  ∃ e, e_next e = e_next (sc_env s) ∧ flb_sched_timer_destroy t s = Some (0,
    mk_sched (sc_requests s) (sc_requests_wait s) (unlink t (sc_timers s))
      (unlink t (sc_timers_drop s)) (sc_coros s) (sc_coros_drop s) (sc_frame_fd s) (sc_reqs s)
      (delete t (sc_tmrs s)) e).
Proof.
  intros Hx. unfold flb_sched_timer_destroy, flb_sched_timer_cb_disable, timer_at, unlink_timer.
  mrun. rewrite Hx. mrun. destruct (Z.eqb_spec (tm_timer_fd x) (-1)) as [Heq|].
  - exists (sc_env s). split; [done|]. cbn. done.
  - unfold emit, store_timer. mrun. cbn. rewrite delete_insert_eq. by eexists (set_e_log _ (sc_env s)).
Qed.

(** Taking back a request that is in no list, its timer first. *)
Lemma wf_drop_request F s q rq e :
  wf_sched (q :: F) s → sc_reqs s !! q = Some rq → e_next e = e_next (sc_env s) →
  wf_sched F (mk_sched (sc_requests s) (sc_requests_wait s) (unlink (rq_timer rq) (sc_timers s))
      (unlink (rq_timer rq) (sc_timers_drop s)) (sc_coros s) (sc_coros_drop s) (sc_frame_fd s)
      (delete q (sc_reqs s)) (delete (rq_timer rq) (sc_tmrs s)) e).
Proof.
  intros W Hq He. pose proof W as [Hnd Hrd ? Htd Hlink Hfresh].
  assert (Hperm : sc_requests s ++ sc_requests_wait s ++ q :: F ≡ₚ
                  q :: sc_requests s ++ sc_requests_wait s ++ F).
  { rewrite !app_assoc. symmetry. apply Permutation_middle. }
  rewrite Hperm in Hnd. apply NoDup_cons in Hnd as [Hnin Hnd]. setoid_rewrite Hperm in Hrd.
  constructor; cbn; try done.
  - intros q'. destruct (decide (q = q')) as [<-|].
    + rewrite lookup_delete_eq. split; [done|by intros []].
    + rewrite lookup_delete_ne, <- Hrd, elem_of_cons by done. naive_solver.
  - by eapply tmr_unlink_nodup.
  - intros t'. rewrite <- unlink_app, elem_of_unlink, Htd. destruct (decide (rq_timer rq = t')) as [<-|].
    + rewrite lookup_delete_eq. split; [by intros [[] _]|by intros []].
    + rewrite lookup_delete_ne by done. naive_solver.
  - intros q' rq' Hq'. destruct (decide (q = q')) as [<-|]; [by rewrite lookup_delete_eq in Hq'|].
    rewrite lookup_delete_ne in Hq' by done. destruct (Hlink q' rq' Hq') as (? & y & Hy & ? & ? & Hd).
    assert (rq_timer rq' ≠ rq_timer rq).
    { intros Heq. destruct (Hlink q rq Hq) as (_ & z & Hz & _ & _ & Hdz). congruence. }
    split; [by apply elem_of_unlink|]. exists y. by rewrite lookup_delete_ne.
  - intros n Hn. destruct (Hfresh n) as [? ?]; [lia|]. split.
    + destruct (decide (q = n)) as [<-|]; [by rewrite lookup_delete_eq|by rewrite lookup_delete_ne].
    + destruct (decide (rq_timer rq = n)) as [<-|]; [by rewrite lookup_delete_eq|by rewrite lookup_delete_ne].
Qed.

Lemma timeout_create_cases sec nsec (s : flb_sched) :
  ∃ e fd, timeout_create sec nsec s = Some (fd, set_sc_env e s) ∧
    (e_next (sc_env s) <= e_next e)%nat ∧ (fd = -1 ∨ 0 <= fd) ∧ e_now e = e_now (sc_env s) ∧
    (e_sys (sc_env s) = [] → 0 <= fd ∧ e_sys e = []).
Proof.
  unfold timeout_create, syscall, new_fd, emit. mrun. cbn.
  destruct (e_sys (sc_env s)) as [|[] script] eqn:Hs; cbn; eexists _, _; (split; [done|]); cbn;
    split_and!; try lia; try done; intros ?; try done; split; (lia || done).
Qed.

Lemma schedule_request_now_spec F s seconds q rq :
  wf_sched (q :: F) s → sc_reqs s !! q = Some rq →
  ∃ ret s', schedule_request_now seconds (rq_timer rq) q s = Some (ret, s') ∧
    e_now (sc_env s') = e_now (sc_env s) ∧ (e_sys (sc_env s) = [] → ret = 0 ∧ e_sys (sc_env s') = []) ∧
    ((ret = -1 ∧ wf_sched (q :: F) s' ∧ same_requests s s') ∨
     (ret = 0 ∧ wf_sched F s' ∧ sc_requests s' = sc_requests s ++ [q] ∧
      sc_requests_wait s' = sc_requests_wait s ∧
      ∃ fd, sc_reqs s' = <[q := set_rq_fd fd rq]> (sc_reqs s))).
Proof.
  intros W Hq. destruct (ws_link _ _ W q rq Hq) as (Ht & x & Hx & Ha & Hty & Hd).
  unfold schedule_request_now, timer_at, request_at. mrun. rewrite Hx.
  destruct (timeout_create_cases seconds 0 s) as (e & fd & -> & He & Hfd & Hnow & Hsys).
  destruct (Z.eqb_spec fd (-1)) as [->|Hne].
  - eexists _, _. split; [done|]. split_and!; [done| |].
    + intros Hs%Hsys. lia.
    + left. split_and!; try done. by apply wf_set_env.
  - cbn. rewrite Hq. cbn. eexists _, _. split; [done|]. cbn. split_and!; [done| |].
    { intros Hs%Hsys. naive_solver. }
    right. split_and!; try done; [|by eexists].
    destruct W as [Hnd Hrd ? Htd Hlink Hfresh].
    assert (Hperm : (sc_requests s ++ [q]) ++ sc_requests_wait s ++ F ≡ₚ
                    sc_requests s ++ sc_requests_wait s ++ q :: F).
    { rewrite <- app_assoc. apply Permutation_app_head. cbn. rewrite !(Permutation_middle _ _ q). done. }
    constructor; cbn; try done.
    + by rewrite Hperm.
    + intros q'. rewrite Hperm, Hrd. destruct (decide (q = q')) as [<-|].
      * rewrite lookup_insert_eq, Hq. by split; eexists.
      * by rewrite lookup_insert_ne.
    + intros t'. rewrite Htd. destruct (decide (rq_timer rq = t')) as [<-|].
      * rewrite lookup_insert_eq, Hx. by split; eexists.
      * by rewrite lookup_insert_ne.
    + intros q' rq' Hq'. assert (∃ rq0, sc_reqs s !! q' = Some rq0 ∧ rq_timer rq' = rq_timer rq0) as (rq0 & Hq0 & Heq).
      { destruct (decide (q = q')) as [<-|].
        - rewrite lookup_insert_eq in Hq'. injection Hq' as <-. by eauto.
        - rewrite lookup_insert_ne in Hq' by done. by eauto. }
      destruct (Hlink q' rq0 Hq0) as (? & y & Hy & ? & ? & ?). rewrite Heq. split; [done|].
      destruct (decide (rq_timer rq = rq_timer rq0)) as [Hsame|].
      * rewrite Hsame, lookup_insert_eq. eexists. split; [done|]. cbn.
        rewrite Hsame in Hx. rewrite Hx in Hy. by injection Hy as ->.
      * exists y. by rewrite lookup_insert_ne.
    + intros n Hn. destruct (Hfresh n) as [? ?]; [lia|].
      split; (rewrite lookup_insert_ne; [done|congruence]).
Qed.

(** [pending_in] when a request is put into the heap and into a list. *)
Lemma pending_in_insert q rq0 F s s' :
  sc_requests s' ++ sc_requests_wait s' ≡ₚ q :: sc_requests s ++ sc_requests_wait s →
  sc_reqs s' !! q = Some rq0 → (∀ q', q' ≠ q → sc_reqs s' !! q' = sc_reqs s !! q') →
  q ∉ sc_requests s ++ sc_requests_wait s ++ F →
  pending_in F s' ≡ₚ rq_data rq0 :: pending_in F s.
Proof.
  intros Hperm Hq Hother Hnin. unfold pending_in. rewrite !app_assoc, Hperm. cbn. rewrite Hq. cbn.
  f_equiv. rewrite <- app_assoc. erewrite omap_ext_in; [done|].
  intros q' Hin. cbn. rewrite Hother; [done|]. intros ->. done.
Qed.

(** ** Backoff *)

Lemma ipow_loop_spec fuel : ∀ result base exp,
  0 <= exp < 2 ^ Z.of_nat fuel → ipow_loop fuel result base exp = result * base ^ exp.
Proof.
  induction fuel as [|fuel IH]; intros result base exp Hexp.
  { assert (exp = 0) as -> by (simpl in Hexp; lia). simpl. lia. }
  cbn [ipow_loop]. rewrite Z.shiftr_div_pow2, Z.pow_1_r by lia.
  pose proof (Z.div_mod exp 2 ltac:(lia)) as Hdm. rewrite Zmod_odd in Hdm.
  assert (Hd : 0 <= exp / 2) by (apply Z.div_pos; lia).
  assert (Hb : base ^ exp = (base * base) ^ (exp / 2) * (if Z.odd exp then base else 1)).
  { rewrite <- Z.pow_2_r, <- Z.pow_mul_r by lia. rewrite Hdm at 1.
    destruct (Z.odd exp); rewrite ?Z.add_0_r; [|lia]. rewrite Z.pow_add_r, Z.pow_1_r by lia. done. }
  rewrite Hb. destruct (Z.eqb_spec (exp / 2) 0) as [->|].
  - destruct (Z.odd exp); lia.
  - rewrite IH; [destruct (Z.odd exp); lia|]. rewrite Nat2Z.inj_succ, Z.pow_succ_r in Hexp by lia.
    split; [done|]. apply Z.div_lt_upper_bound; lia.
Qed.

Lemma ipow_spec base exp : 0 <= exp < 2 ^ 31 → ipow base exp = base ^ exp.
Proof. intros. unfold ipow. rewrite ipow_loop_spec; simpl; lia. Qed.

Lemma draw_spec limit script : 0 < limit →
  ∃ ra script', draw limit script = (ra, script') ∧ 0 <= ra < limit.
Proof.
  intros Hl. induction script as [|r script IH]; cbn; [eexists _, _; split; [done|lia]|].
  destruct ((0 <=? r) && (r <? limit)) eqn:Hr; [|done]. bool_prop. eauto.
Qed.

Lemma random_uniform_spec min max s :
  0 < min → min <= max → max - min < RAND_MAX →
  ∃ v e, random_uniform min max s = Some (v, set_sc_env e s) ∧ e_next e = e_next (sc_env s) ∧
    (calm (sc_env s) → calm e) ∧ e_now e = e_now (sc_env s) ∧ min <= v <= max.
Proof.
  intros H0 Hm Hr. unfold random_uniform.
  assert (Hi : i32 (max - min + 1) = max - min + 1).
  { unfold i32, RAND_MAX in *. rewrite Z.mod_small; lia. }
  rewrite Hi. destruct (Z.eqb_spec (max - min + 1) 0); [lia|].
  set (range := max - min + 1) in *. rewrite (Z.quot_div_nonneg RAND_MAX range) by (unfold RAND_MAX in *; lia).
  set (copies := RAND_MAX / range).
  assert (Hc : 0 < copies) by (apply Z.div_str_pos; unfold RAND_MAX in *; lia).
  destruct (draw_spec (range * copies) (e_rand (sc_env s))) as (ra & script' & -> & Hra); [lia|].
  eexists _, _. split; [done|]. split_and!; try done; rewrite Z.quot_div_nonneg by lia.
  - pose proof (Z.div_pos ra copies). lia.
  - assert (ra / copies < range) by (apply Z.div_lt_upper_bound; lia). lia.
Qed.

Lemma backoff_spec cfg tries s :
  sched_config_ok cfg → 0 <= tries < 2 ^ 31 →
  ∃ v e, (if is_shutting_down cfg then mret 0
          else backoff_full_jitter (i32 (sched_base cfg)) (i32 (sched_cap cfg)) tries) s =
           Some (v, set_sc_env e s) ∧ e_next e = e_next (sc_env s) ∧ (calm (sc_env s) → calm e) ∧
    e_now e = e_now (sc_env s) ∧ delay_bounds cfg tries (v + 1).
Proof.
  intros [? ?] Ht. unfold delay_bounds. destruct (is_shutting_down cfg).
  { exists 0, (sc_env s). split_and!; try done. by destruct s. }
  unfold backoff_full_jitter. rewrite ipow_spec by done.
  assert (Hi : ∀ z, 0 < z < RAND_MAX → i32 z = z).
  { intros z Hz. unfold i32, RAND_MAX in *. rewrite Z.mod_small; lia. }
  rewrite !Hi by lia.
  assert (Hmin : ∀ a b, xmin a b = Z.min a b) by (intros a b; unfold xmin; destruct (Z.ltb_spec a b); lia).
  rewrite Hmin. pose proof (Z.pow_pos_nonneg 2 tries ltac:(lia) ltac:(lia)).
  destruct (random_uniform_spec (sched_base cfg) (Z.min (sched_cap cfg) (sched_base cfg * 2 ^ tries)) s)
    as (v & e & -> & ? & ? & ? & ?); [lia|nia|lia|].
  exists v, e. split_and!; (done || lia).
Qed.

(** The common tail of [flb_sched_request_create] and [flb_sched_retry_now]: arm the request's timer
    now, or give everything back. *)
Lemma now_or_undo_spec k s seconds q rq :
  wf_sched [q] s → sc_reqs s !! q = Some rq →
  ∃ r s', (ret ← schedule_request_now seconds (rq_timer rq) q;
           if ret =? -1 then
             flb_sched_timer_destroy (rq_timer rq) ≫= λ _,
             modify (λ s, set_sc_reqs (delete q (sc_reqs s)) s) ≫= λ _, mret (-1)
           else mret k) s = Some (r, s') ∧ wf_sched [] s' ∧ (calm (sc_env s) → r = k) ∧
    (∀ q', q' ≠ q → sc_reqs s' !! q' = sc_reqs s !! q') ∧
    ((r = -1 ∧ pending s' ≡ₚ pending s) ∨ (r = k ∧ pending s' ≡ₚ rq_data rq :: pending s)).
Proof.
  intros W Hq. mrun.
  assert (Hnin : q ∉ sc_requests s ++ sc_requests_wait s ++ []).
  { pose proof (ws_req_nodup _ _ W) as Hnd. rewrite app_assoc in Hnd.
    apply NoDup_app in Hnd as (_ & Hd & _). rewrite app_nil_r. intros Hin.
    apply (Hd q Hin). by left. }
  assert (Hdel : ∀ s', sc_requests s' = sc_requests s → sc_requests_wait s' = sc_requests_wait s →
    sc_reqs s' = delete q (sc_reqs s) → pending s' = pending s).
  { intros s' H1 H2 H3. unfold pending, pending_in. rewrite H1, H2, H3. apply omap_ext_in.
    intros x Hx. rewrite lookup_delete_ne; [done|]. by intros ->. }
  destruct (schedule_request_now_spec [] s seconds q rq W Hq)
    as (ret & s1 & -> & _ & Hcalm & [(-> & W1 & (H1 & H2 & H3))|(-> & W1 & H1 & H2 & fd & H3)]); cbn.
  - assert (Hq1 : sc_reqs s1 !! q = Some rq) by by rewrite H1.
    destruct (ws_link _ _ W1 q rq Hq1) as (_ & x & Hx & _).
    destruct (timer_destroy_run s1 (rq_timer rq) x Hx) as (e & He & ->). cbn.
    eexists _, _. split; [done|]. split_and!.
    + by apply (wf_drop_request [] s1).
    + intros [_ Hs]. apply Hcalm in Hs as [? _]. done.
    + intros q' ?. cbn. by rewrite H1, lookup_delete_ne.
    + left. split; [done|]. rewrite Hdel; [done|done|done|]. cbn. by rewrite H1.
  - eexists _, _. split; [done|]. split_and!; [done|done|intros q' ?; by rewrite H3, lookup_insert_ne|]. right. split; [done|].
    unfold pending. rewrite (pending_in_insert q (set_rq_fd fd rq) [] s s1).
    + done.
    + rewrite H1, H2, <- app_assoc. cbn. symmetry. apply Permutation_middle.
    + by rewrite H3, lookup_insert_eq.
    + intros q' ?. by rewrite H3, lookup_insert_ne.
    + done.
Qed.

(** The common head: a fresh timer and a fresh request, linked to each other. *)
Lemma link_request_wf s1 t q script rq e :
  wf_sched [] s1 → t ∈ sc_timers s1 → sc_tmrs s1 !! t = Some (mk_timer true 0 false None (-1) (-1)) →
  (∀ q' rq', sc_reqs s1 !! q' = Some rq' → rq_timer rq' ≠ t) →
  q = e_next (sc_env s1) → e_next e = S q → rq_timer rq = t →
  let s2 := set_sc_reqs (<[q := rq]> (sc_reqs s1)) (set_sc_env e (set_sc_tmrs
    (<[t := set_tm_data (Some q) (set_tm_type FLB_SCHED_TIMER_REQUEST
              (mk_timer true 0 false None (-1) (-1)))]> (sc_tmrs s1))
    (set_sc_env (set_e_next (S q) (set_e_alloc script (sc_env s1))) s1))) in
  wf_sched [q] s2 ∧ sc_reqs s2 !! q = Some rq ∧ pending s2 = pending s1 ∧
  q ∉ sc_requests s1 ++ sc_requests_wait s1.
Proof.
  intros W1 Htin Htx Hno -> He Hrt s2. set (q := e_next (sc_env s1)) in *.
  destruct (ws_fresh _ _ W1 q) as [Hq Hqt]; [done|].
  assert (Hnin : q ∉ sc_requests s1 ++ sc_requests_wait s1).
  { pose proof (ws_req_dom _ _ W1 q) as Hd. rewrite app_nil_r in Hd. rewrite Hd, Hq. by intros []. }
  split_and!; [|by cbn; rewrite lookup_insert_eq| |done].
  - set (s0 := set_sc_env (set_e_next (S q) (set_e_alloc script (sc_env s1))) s1).
    set (s3 := set_sc_reqs (<[q := rq]> (sc_reqs s0)) (set_sc_tmrs
      (<[t := set_tm_data (Some q) (set_tm_type FLB_SCHED_TIMER_REQUEST
                (mk_timer true 0 false None (-1) (-1)))]> (sc_tmrs s0)) s0)).
    assert (W3 : wf_sched [q] s3).
    { apply wf_add_request; try done; [|cbn; lia]. apply wf_set_env; [done|cbn; lia]. }
    change s2 with (set_sc_env e s3). apply wf_set_env; [done|]. rewrite He. done.
  - unfold pending, pending_in. cbn. apply omap_ext_in. intros x Hx. rewrite lookup_insert_ne; [done|].
    intros <-. apply Hnin. by rewrite app_nil_r in Hx.
Qed.

Lemma request_create_spec_full cfg data tries s :
  wf_sched [] s → sched_config_ok cfg → 0 <= tries < 2 ^ 31 →
  ∃ r s', flb_sched_request_create cfg data tries s = Some (r, s') ∧ wf_sched [] s' ∧
    (calm (sc_env s) → r ≠ -1) ∧
    (∀ q d, request_data s q = Some d → request_data s' q = Some d) ∧
    ((r = -1 ∧ pending s' ≡ₚ pending s) ∨
     (delay_bounds cfg tries r ∧ pending s' ≡ₚ data :: pending s)).
Proof.
  intros W Hcfg Htries. unfold flb_sched_request_create. mrun.
  destruct (flb_sched_timer_create_spec [] s W) as (ot & s1 & -> & W1 & Hsame & _ & Hcalm & Hot). cbn.
  assert (Hreqs : sc_reqs s1 = sc_reqs s) by apply Hsame.
  pose proof (same_requests_pending [] _ _ Hsame) as Hp1. fold (pending s) (pending s1) in Hp1.
  destruct ot as [t|]; cbn.
  2: { eexists _, _. split_and!; try done; [by intros [[] _]%Hcalm|unfold request_data; by rewrite Hreqs|left].
    split; [done|]. by rewrite Hp1. }
  destruct Hot as (Htin & Htx & Hno).
  destruct (malloc_cases s1) as [[[script ->] Hnc]|(script & -> & Hscript)]; cbn.
  { eexists _, _. split; [done|]. split_and!; [by apply wf_set_env| | |left].
    - intros [_ ?]%Hcalm. done.
    - unfold request_data. cbn. by rewrite Hreqs.
    - split; [done|]. by rewrite <- Hp1. }
  set (q := e_next (sc_env s1)). unfold timer_at, store_timer, store_request. mrun. cbn. rewrite Htx. cbn.
  edestruct (backoff_spec cfg tries) as (v & e & -> & He & Hes & Hen & Hdelay); [done|done|]. cbn in *.
  destruct (link_request_wf s1 t q script (mk_request (-1) (e_now e) (v + 1) data t) e)
    as (W2 & Hq2 & Hp2 & Hnin); try done.
  match goal with |- context [set_sc_reqs ?r ?s0] => set (s2 := set_sc_reqs r s0) in * end.
  assert (Hr : v + 1 ≠ -1).
  { unfold delay_bounds in Hdelay. destruct (is_shutting_down cfg); [lia|]. destruct Hcfg. lia. }
  assert (Hkeep : ∀ q' d, request_data s q' = Some d → q' ≠ q ∧ request_data s2 q' = Some d).
  { intros q' d Hd. assert (q' ≠ q).
    { intros ->. unfold request_data in Hd. rewrite <- Hreqs in Hd.
      destruct (ws_fresh _ _ W1 q) as [Hf _]; [done|]. by rewrite Hf in Hd. }
    split; [done|]. unfold request_data in *. cbn. by rewrite lookup_insert_ne, Hreqs. }
  destruct (FLB_SCHED_REQUEST_FRAME <? v + 1); cbn.
  - eexists _, _. split; [done|]. split_and!; [|done|by intros q' d [_ ?]%Hkeep|].
    + destruct W2 as [Hnd Hrd ????]. constructor; cbn; try done; rewrite app_nil_r; done.
    + right. split; [done|]. rewrite <- Hp1, <- Hp2. unfold pending.
      rewrite (pending_in_insert q (mk_request (-1) (e_now e) (v + 1) data t) [] s2 _);
        [done| |exact Hq2|done|].
      * change (sc_requests s2 ++ sc_requests_wait s2 ++ [q] ≡ₚ q :: sc_requests s2 ++ sc_requests_wait s2).
        rewrite app_assoc. symmetry. apply Permutation_cons_append.
      * by rewrite app_nil_r.
  - destruct (now_or_undo_spec (v + 1) s2 (v + 1) q _ W2 Hq2) as (r & s3 & Hrun & W3 & Hc3 & Hk3 & Hp3).
    unfold mbind, M_bind in Hrun. exists r, s3. split; [exact Hrun|]. split_and!; [done| | |].
    + intros Hc. destruct (Hcalm Hc) as [_ Hc1]. rewrite Hc3; [done|]. apply Hes.
      rewrite (Hscript Hc1). split; [done|]. apply Hc1.
    + intros q' d [? Hd]%Hkeep. unfold request_data. by rewrite Hk3.
    + rewrite <- Hp1, <- Hp2. destruct Hp3 as [[-> ?]|[-> ?]]; [left|right]; done.
Qed.

Lemma request_create_spec cfg data tries s :
  wf_sched [] s → sched_config_ok cfg → 0 <= tries < 2 ^ 31 →
  ∃ r s', flb_sched_request_create cfg data tries s = Some (r, s') ∧ wf_sched [] s' ∧
    (calm (sc_env s) → r ≠ -1) ∧
    ((r = -1 ∧ pending s' ≡ₚ pending s) ∨
     (delay_bounds cfg tries r ∧ pending s' ≡ₚ data :: pending s)).
Proof.
  intros W Hc Ht. destruct (request_create_spec_full cfg data tries s W Hc Ht)
    as (r & s' & ? & ? & ? & _ & ?). by exists r, s'.
Qed.

Lemma retry_now_spec retry s :
  wf_sched [] s →
  ∃ r s', flb_sched_retry_now retry s = Some (r, s') ∧ wf_sched [] s' ∧ (calm (sc_env s) → r = 0) ∧
    ((r = -1 ∧ pending s' ≡ₚ pending s) ∨ (r = 0 ∧ pending s' ≡ₚ retry :: pending s)).
Proof.
  intros W. unfold flb_sched_retry_now. mrun.
  destruct (flb_sched_timer_create_spec [] s W) as (ot & s1 & -> & W1 & Hsame & _ & Hcalm & Hot). cbn.
  pose proof (same_requests_pending [] _ _ Hsame) as Hp1. fold (pending s) (pending s1) in Hp1.
  destruct ot as [t|]; cbn.
  2: { eexists _, _. split_and!; try done; [by intros [[] _]%Hcalm|left]. by rewrite Hp1. }
  destruct Hot as (Htin & Htx & Hno).
  destruct (malloc_cases s1) as [[[script ->] Hnc]|(script & -> & Hscript)]; cbn.
  { set (s1' := set_sc_env _ s1).
    destruct (timer_destroy_spec [] s1' t) as (s2 & -> & W2 & Hsame2 & _); [by apply wf_set_env|by eexists|done|].
    eexists _, _. split; [done|]. split_and!; [done| |left].
    - intros [_ ?]%Hcalm. done.
    - split; [done|]. unfold pending. rewrite (same_requests_pending [] s1' s2 Hsame2).
      change (pending s1 ≡ₚ pending s). by rewrite Hp1. }
  set (q := e_next (sc_env s1)). unfold timer_at, store_timer, store_request. mrun. cbn. rewrite Htx. cbn.
  set (e := set_e_next (S q) (set_e_alloc script (sc_env s1))).
  destruct (link_request_wf s1 t q script (mk_request (-1) (e_now e) 0 retry t) e)
    as (W2 & Hq2 & Hp2 & Hnin); try done.
  match goal with |- context [set_sc_reqs ?r ?s0] => set (s2 := set_sc_reqs r s0) in * end.
  destruct (now_or_undo_spec 0 s2 0 q _ W2 Hq2) as (r & s3 & Hrun & W3 & Hc3 & _ & Hp3).
  unfold mbind, M_bind in Hrun. exists r, s3. split; [exact Hrun|]. split_and!; [done| |].
  - intros Hc. destruct (Hcalm Hc) as [_ Hc1]. apply Hc3. split; [|apply Hc1]. cbn. by apply Hscript.
  - rewrite <- Hp1, <- Hp2. destruct Hp3 as [[-> ?]|[-> ?]]; [left|right]; done.
Qed.

(** ** Promotion of waiting requests *)

Lemma wf_sched_perm F F' s : F ≡ₚ F' → wf_sched F s → wf_sched F' s.
Proof.
  intros HF [Hnd Hrd ????].
  assert (Hp : sc_requests s ++ sc_requests_wait s ++ F ≡ₚ sc_requests s ++ sc_requests_wait s ++ F')
    by by rewrite HF.
  constructor; try done; [by rewrite <- Hp|]. intros q. by rewrite <- Hp.
Qed.

Lemma pending_in_perm F F' s : F ≡ₚ F' → pending_in F s ≡ₚ pending_in F' s.
Proof. intros HF. unfold pending_in. by rewrite HF. Qed.

Lemma wf_unlink_wait F s q :
  wf_sched F s → q ∈ sc_requests_wait s →
  unlink q (sc_requests s) = sc_requests s ∧
  sc_requests s ++ unlink q (sc_requests_wait s) ++ q :: F ≡ₚ sc_requests s ++ sc_requests_wait s ++ F ∧
  ∀ s', s' = set_sc_requests (unlink q (sc_requests s))
          (set_sc_requests_wait (unlink q (sc_requests_wait s)) s) →
    wf_sched (q :: F) s' ∧ pending_in (q :: F) s' ≡ₚ pending_in F s.
Proof.
  intros W Hq. pose proof (ws_req_nodup _ _ W) as Hnd.
  apply NoDup_app in Hnd as (_ & Hd & [Hndw _]%NoDup_app).
  assert (Hu : unlink q (sc_requests s) = sc_requests s).
  { apply unlink_notin. intros Hin. apply (Hd q Hin), elem_of_app. by left. }
  assert (Hp : sc_requests s ++ unlink q (sc_requests_wait s) ++ q :: F ≡ₚ
               sc_requests s ++ sc_requests_wait s ++ F).
  { apply Permutation_app_head. rewrite <- Permutation_middle.
    rewrite (unlink_Permutation q (sc_requests_wait s)) at 2 by done. done. }
  split; [done|]. split; [done|]. intros s' ->. split.
  - destruct W as [? Hrd ????]. constructor; cbn; rewrite ?Hu; try done.
    + by rewrite Hp.
    + intros q'. by rewrite Hp.
  - unfold pending_in. cbn. rewrite Hu. by rewrite Hp.
Qed.

(** When a request falls into the coming frame. *)
Definition due (now : Z) (rq : flb_sched_request) : bool :=
  rq_timeout rq <=? i32 (now - rq_created rq) + FLB_SCHED_REQUEST_FRAME.

Definition times (s : flb_sched) (q : nat) : option (Z * Z) :=
  (λ rq, (rq_created rq, rq_timeout rq)) <$> sc_reqs s !! q.

Definition is_due (now : Z) (s : flb_sched) (q : nat) : Prop :=
  ∃ rq, sc_reqs s !! q = Some rq ∧ due now rq = true.

Lemma is_due_times now s s' q : times s' q = times s q → is_due now s' q → is_due now s q.
Proof.
  unfold times, is_due. intros Ht (rq & Hq & Hd). rewrite Hq in Ht. cbn in Ht.
  destruct (sc_reqs s !! q) as [rq'|]; [|done]. injection Ht as Hc Hto. exists rq'. split; [done|].
  unfold due in *. by rewrite <- Hc, <- Hto.
Qed.

Lemma promote_one_spec now q F s :
  wf_sched F s → q ∈ sc_requests_wait s →
  ∃ F' s', promote_one now q F s = Some (F', s') ∧ wf_sched F' s' ∧ e_now (sc_env s') = e_now (sc_env s) ∧
    pending_in F' s' ≡ₚ pending_in F s ∧ (∀ p, times s' p = times s p) ∧
    (e_sys (sc_env s) = [] → F' = F ∧ e_sys (sc_env s') = []) ∧
    (∀ p, p ∈ sc_requests_wait s' ↔ p ∈ sc_requests_wait s ∧ (p = q → ¬ is_due now s q)) ∧
    (∀ p, p ∈ sc_requests s' ++ F' → p ∈ sc_requests s ++ F ∨ p = q ∧ is_due now s q).
Proof.
  intros W Hq.
  destruct (proj1 (ws_req_dom _ _ W q)) as [rq Hrq]. { set_solver. }
  unfold promote_one, request_at. mrun. rewrite Hrq. unfold unlink_request. mrun.
  assert (Hcases : ∀ secs, is_due now s q → ∃ F' s',
    match schedule_request_now secs (rq_timer rq) q (set_sc_requests (unlink q (sc_requests s))
            (set_sc_requests_wait (unlink q (sc_requests_wait s)) s)) with
    | Some (ret, s') => Some (if ret =? 0 then F else F ++ [q], s')
    | None => None
    end = Some (F', s') ∧ wf_sched F' s' ∧
    e_now (sc_env s') = e_now (sc_env s) ∧
    pending_in F' s' ≡ₚ pending_in F s ∧ (∀ p, times s' p = times s p) ∧
    (e_sys (sc_env s) = [] → F' = F ∧ e_sys (sc_env s') = []) ∧
    (∀ p, p ∈ sc_requests_wait s' ↔ p ∈ sc_requests_wait s ∧ (p = q → ¬ is_due now s q)) ∧
    (∀ p, p ∈ sc_requests s' ++ F' → p ∈ sc_requests s ++ F ∨ p = q ∧ is_due now s q)).
  { intros secs Hdue. destruct (wf_unlink_wait F s q W Hq) as (Hu & Hp & Hw).
    set (s1 := set_sc_requests _ _) in *. destruct (Hw s1 eq_refl) as [W1 Hp1].
    destruct (schedule_request_now_spec F s1 secs q rq W1 Hrq)
      as (ret & s2 & Hrun & Hnow & Hsys & [(-> & W2 & (H1 & H2 & H3))|(-> & W2 & H1 & H2 & fd & H3)]);
      rewrite Hrun; cbn.
    - assert (HF : F ++ [q] ≡ₚ q :: F) by (symmetry; apply Permutation_cons_append).
      exists (F ++ [q]), s2. split_and!; [done|by eapply wf_sched_perm|done| | | | |].
      + rewrite (pending_in_perm _ _ _ HF).
        rewrite (same_requests_pending (q :: F) s1 s2); [done|by repeat split].
      + intros p. unfold times. by rewrite H1.
      + intros Hs. by apply Hsys in Hs as [? _].
      + intros p. rewrite H3. cbn. rewrite elem_of_unlink. split; [naive_solver|].
        intros [? Hn]. split; [|done]. intros ->. by apply Hn.
      + intros p. rewrite H2. cbn. rewrite Hu. set_solver.
    - exists F, s2. split_and!; [done|done|done| | | | |].
      + rewrite <- Hp1. unfold pending_in at 1. rewrite H1, H2.
        assert (Hl : (sc_requests s1 ++ [q]) ++ sc_requests_wait s1 ++ F ≡ₚ
                     sc_requests s1 ++ sc_requests_wait s1 ++ q :: F).
        { rewrite <- app_assoc. apply Permutation_app_head. cbn. by rewrite (Permutation_middle _ _ q). }
        rewrite Hl. unfold pending_in. erewrite omap_ext_in; [done|]. intros p _. cbn.
        rewrite H3. destruct (decide (q = p)) as [<-|].
        * rewrite lookup_insert_eq. cbn in *. by rewrite Hrq.
        * by rewrite lookup_insert_ne.
      + intros p. unfold times. rewrite H3. destruct (decide (q = p)) as [<-|].
        * rewrite lookup_insert_eq. cbn in *. by rewrite Hrq.
        * by rewrite lookup_insert_ne.
      + intros Hs. apply Hsys in Hs as [_ ?]. done.
      + intros p. rewrite H2. cbn. rewrite elem_of_unlink. split; [naive_solver|].
        intros [? Hn]. split; [|done]. intros ->. by apply Hn.
      + intros p. rewrite H1. cbn. rewrite Hu. set_solver. }
  destruct (Z.ltb_spec (rq_timeout rq) (i32 (now - rq_created rq))) as [Hlt|Hge].
  { apply (Hcases 1). exists rq. split; [done|]. unfold due, FLB_SCHED_REQUEST_FRAME.
    apply Z.leb_le. lia. }
  destruct (Z.leb_spec (rq_timeout rq) (i32 (now - rq_created rq) + FLB_SCHED_REQUEST_FRAME)) as [Hle|Hgt].
  { apply Hcases. exists rq. split; [done|]. by apply Z.leb_le. }
  exists F, s. split_and!; try done.
  - intros p. split; [|naive_solver]. intros ?. split; [done|]. intros _ (rq' & Hq' & Hd).
    rewrite Hrq in Hq'. injection Hq' as <-. unfold due in Hd. apply Z.leb_le in Hd. lia.
  - intros p ?. by left.
Qed.

Lemma promote_loop_spec now l : ∀ F s,
  wf_sched F s → NoDup l → (∀ q, q ∈ l → q ∈ sc_requests_wait s) →
  ∃ F' s', promote_loop now l F s = Some (F', s') ∧ wf_sched F' s' ∧
    pending_in F' s' ≡ₚ pending_in F s ∧ (∀ p, times s' p = times s p) ∧
    (e_sys (sc_env s) = [] → F' = F) ∧
    (∀ p, p ∈ sc_requests_wait s' ↔ p ∈ sc_requests_wait s ∧ (p ∈ l → ¬ is_due now s p)) ∧
    (∀ p, p ∈ sc_requests s' ++ F' → p ∈ sc_requests s ++ F ∨ p ∈ l ∧ is_due now s p).
Proof.
  induction l as [|q l IH]; intros F s W Hnd Hl; cbn.
  { exists F, s. split_and!; try done.
    - intros p. split; [|by intros []]. intros ?. split; [done|]. by intros ?%not_elem_of_nil.
    - intros p ?. by left. }
  apply NoDup_cons in Hnd as [Hq Hnd]. mrun.
  destruct (promote_one_spec now q F s W) as (F1 & s1 & -> & W1 & _ & Hp1 & Ht1 & Hs1 & Hw1 & Hr1).
  { apply Hl. by left. }
  destruct (IH F1 s1 W1 Hnd) as (F2 & s2 & -> & W2 & Hp2 & Ht2 & Hs2 & Hw2 & Hr2).
  { intros p Hp. apply Hw1. split; [apply Hl; by right|]. by intros ->. }
  assert (Hdue : ∀ p, is_due now s1 p ↔ is_due now s p).
  { intros p. split; apply is_due_times; by rewrite Ht1. }
  exists F2, s2. split_and!; [done|done|by rewrite Hp2| | | |].
  - intros p. by rewrite Ht2.
  - intros Hs. destruct (Hs1 Hs) as [-> ?]. by apply Hs2.
  - intros p. rewrite Hw2, Hw1, elem_of_cons, Hdue. split.
    + intros [[? Hn1] Hn2]. split; [done|]. intros [->|?]; [by apply Hn1|by apply Hn2].
    + intros [? Hn]. split_and!; [done| |].
      * intros ->. apply Hn. by left.
      * intros ?. apply Hn. by right.
  - intros p Hp. apply Hr2 in Hp as [Hp|[? Hd]].
    + apply Hr1 in Hp as [?|[-> ?]]; [by left|right]. split; [by left|done].
    + right. split; [by right|by apply Hdue].
Qed.

Lemma request_promote_spec s :
  wf_sched [] s →
  let now := e_now (sc_env s) in
  ∃ s', schedule_request_promote s = Some (0, s') ∧ wf_sched [] s' ∧ pending s' ≡ₚ pending s ∧
    (∀ p, p ∈ sc_requests s' → p ∈ sc_requests s ∨ p ∈ sc_requests_wait s ∧ is_due now s p) ∧
    (e_sys (sc_env s) = [] → ∀ p, p ∈ sc_requests_wait s' ↔ p ∈ sc_requests_wait s ∧ ¬ is_due now s p).
Proof.
  intros W now. unfold schedule_request_promote, time_now. mrun.
  change (e_now (env_of s)) with now.
  assert (Hnd : NoDup (sc_requests_wait s)).
  { pose proof (ws_req_nodup _ _ W) as Hnd. by apply NoDup_app in Hnd as (_ & _ & [? _]%NoDup_app). }
  destruct (promote_loop_spec now (sc_requests_wait s) [] s W Hnd)
    as (F & s1 & -> & W1 & Hp & Ht & Hs & Hw & Hr); [done|]. cbn.
  eexists. split; [done|]. split_and!.
  - assert (Hperm : sc_requests s1 ++ (sc_requests_wait s1 ++ F) ++ [] =
                    sc_requests s1 ++ sc_requests_wait s1 ++ F) by by rewrite app_nil_r.
    destruct W1 as [Hnd1 Hrd1 ????]. constructor; cbn; rewrite ?Hperm; done.
  - rewrite <- Hp. unfold pending, pending_in. cbn. by rewrite app_nil_r.
  - intros p Hin. cbn in Hin. destruct (Hr p) as [Hin'|?]; [set_solver| |by right].
    left. by rewrite app_nil_r in Hin'.
  - intros Hsys p. cbn. rewrite (Hs Hsys), app_nil_r, Hw. split.
    + intros [? Hn]. split; [done|by apply Hn].
    + intros [? Hn]. split; [done|by intros _].
Qed.

(** ** Coroutine ids *)

Lemma coro_id_loop_spec coros : ∀ (fuel : nat) (id : Z),
  (length (List.filter (λ c, (id <=? stc_id c)%Z) coros) < fuel)%nat →
  0 <= id -> id <= 2 ^ 32 - 1 →
  let r := coro_id_loop fuel id coros in
  id <= r <= 2 ^ 32 - 1 ∧ (∀ k, id <= k < r → ∃ c, c ∈ coros ∧ stc_id c = k) ∧
  (r < 2 ^ 32 - 1 → ∀ c, c ∈ coros → stc_id c ≠ r).
Proof.
  induction fuel as [|fuel IH]; intros id Hf H0 Hid; [lia|]. cbn.
  destruct (Z.ltb_spec id (2 ^ 32 - 1)) as [Hlt|Hge].
  2: { split; [lia|]. split; [intros k; lia|lia]. }
  destruct (existsb (λ c, stc_id c =? id) coros) eqn:Hex.
  - apply existsb_exists in Hex as (c & Hin & Hc). apply Z.eqb_eq in Hc.
    destruct (IH (id + 1)) as (Hr & Hbelow & Hnew); [|lia|lia|].
    + assert (Hlen : (length (List.filter (λ c, (id + 1 <=? stc_id c)%Z) coros) <
                      length (List.filter (λ c, (id <=? stc_id c)%Z) coros))%nat); [|lia].
      clear - Hin Hc. induction coros as [|d coros IH]; [done|]. cbn.
      assert (Hle : (length (List.filter (λ c, (id + 1 <=? stc_id c)%Z) coros) <=
                     length (List.filter (λ c, (id <=? stc_id c)%Z) coros))%nat).
      { clear. induction coros as [|d coros IH]; cbn; [lia|].
        destruct (Z.leb_spec (id + 1) (stc_id d)), (Z.leb_spec id (stc_id d)); cbn; lia. }
      destruct Hin as [->|Hin].
      * destruct (Z.leb_spec (id + 1) (stc_id c)), (Z.leb_spec id (stc_id c)); cbn; lia.
      * specialize (IH Hin).
        destruct (Z.leb_spec (id + 1) (stc_id d)), (Z.leb_spec id (stc_id d)); cbn; lia.
    + split; [lia|]. split; [|done]. intros k Hk. destruct (decide (k = id)) as [->|].
      * exists c. split; [by apply list_elem_of_In|done].
      * apply Hbelow. lia.
  - split; [lia|]. split; [intros k; lia|]. intros _ c Hc Heq.
    assert (existsb (λ c, stc_id c =? id) coros = true); [|congruence].
    apply existsb_exists. exists c. split; [by apply list_elem_of_In|]. by apply Z.eqb_eq.
Qed.

(** ** Cleanup *)

Lemma timer_cleanup_spec s :
  wf_sched [] s →
  ∃ s', flb_sched_timer_cleanup s = Some (zlen (sc_timers_drop s) + zlen (sc_coros_drop s), s') ∧
    wf_sched [] s' ∧ same_requests s s' ∧ sc_timers_drop s' = [] ∧ sc_coros_drop s' = [].
Proof.
  intros W. unfold flb_sched_timer_cleanup. mrun.
  assert (Hloop : ∀ l s, wf_sched [] s → sc_timers_drop s = l →
    ∃ s', foreach l (λ t, flb_sched_timer_destroy t ≫= λ _, mret tt) s = Some (tt, s') ∧
      wf_sched [] s' ∧ same_requests s s' ∧ sc_timers_drop s' = [] ∧ sc_coros_drop s' = sc_coros_drop s).
  { clear. induction l as [|t l IH]; intros s W Hl; cbn.
    { exists s. by split_and!. }
    assert (Hnd : NoDup (sc_timers s ++ t :: l)) by (rewrite <- Hl; apply W).
    apply NoDup_app in Hnd as (_ & Hd & [Htl Hndl]%NoDup_cons).
    destruct (proj1 (ws_tmr_dom _ _ W t)) as [x Hx]; [rewrite Hl; set_solver|].
    destruct (timer_destroy_run s t x Hx) as (e & He & Hrun). 
    destruct (timer_destroy_spec [] s t W) as (s1 & Hrun1 & W1 & Hs1 & _ & _ & Hd1); [by eexists| |].
    { intros q rq Hq Heq. destruct (ws_link _ _ W q rq Hq) as [Hin _]. rewrite Heq in Hin.
      apply (Hd t Hin). by left. }
    mrun. rewrite Hrun1.
    destruct (IH s1 W1) as (s2 & Hr2 & W2 & Hs2 & Hd2 & Hc2).
    { rewrite Hd1, Hl. unfold unlink. rewrite filter_cons_False by (intros H; by apply H).
      fold (unlink t l). by apply unlink_notin. }
    exists s2. split_and!; try done.
    - destruct Hs1 as (?&?&?), Hs2 as (?&?&?). split_and!; congruence.
    - rewrite Hc2. rewrite Hrun in Hrun1. by injection Hrun1 as <-. }
  destruct (Hloop (sc_timers_drop s) s W eq_refl) as (s1 & Hrun & W1 & Hs1 & Hd1 & Hc1).
  unfold mbind, M_bind, mret, M_ret in Hrun. rewrite Hrun. unfold flb_sched_timer_coro_cleanup. mrun.
  eexists. split; [by rewrite Hc1|]. split_and!; try done. destruct W1; by constructor.
Qed.

(** ** The scheduler implements the interface *)

#[global] Instance evolves_timer_at t : Evolves (timer_at t).
Proof. unfold timer_at. evolve. Qed.
#[global] Instance evolves_request_at q : Evolves (request_at q).
Proof. unfold request_at. evolve. Qed.
#[global] Instance evolves_random_uniform min max : Evolves (random_uniform min max).
Proof.
  intros s v s'. unfold random_uniform. destruct (_ =? 0); [done|].
  destruct (draw _ _) as [ra script]. intros [= <- <-]. by constructor.
Qed.
#[global] Instance evolves_find_request data l : Evolves (find_request data l).
Proof. induction l; cbn; evolve. Qed.

Create HintDb sched.
#[local] Hint Unfold store_timer store_request unlink_timer unlink_request
  schedule_request_wait schedule_request_now backoff_full_jitter
  flb_sched_timer_create flb_sched_timer_cb_disable flb_sched_timer_invalidate flb_sched_timer_destroy
  flb_sched_request_destroy : sched.

#[global] Instance evolves_request_create cfg data tries :
  Evolves (flb_sched_request_create cfg data tries).
Proof. unfold flb_sched_request_create. autounfold with sched. evolve. Qed.
#[global] Instance evolves_request_invalidate data : Evolves (flb_sched_request_invalidate data).
Proof. unfold flb_sched_request_invalidate. autounfold with sched. evolve. Qed.
#[global] Instance evolves_retry_now retry : Evolves (flb_sched_retry_now retry).
Proof. unfold flb_sched_retry_now. autounfold with sched. evolve. Qed.

#[global] Instance evolves_request_destroy q : Evolves (flb_sched_request_destroy (Some q)).
Proof. autounfold with sched. evolve. Qed.

Lemma request_destroy_law q data s :
  wf_sched [] s → request_data s q = Some data →
  ∃ s', flb_sched_request_destroy (Some q) s = Some (0, s') ∧ wf_sched [] s' ∧
    pending s ≡ₚ data :: pending s'.
Proof.
  unfold request_data. intros W (rq & Hq & ->)%fmap_Some.
  destruct (request_destroy_spec [] s q rq W Hq) as (s' & ? & ? & _ & _ & _ & ?); [set_solver|].
  by exists s'.
Qed.

#[global] Instance sched_RetryQueue : RetryQueue flb_sched := {|
  rqueue_create := flb_sched_request_create;
  rqueue_invalidate := flb_sched_request_invalidate;
  rqueue_retry_now := flb_sched_retry_now;
  rqueue_request := request_data;
  rqueue_request_destroy q := flb_sched_request_destroy (Some q);
  rqueue_wf := wf_sched [];
  rqueue_pending := pending;
  rqueue_set_env e s W He := conj (wf_set_env [] s e W He) (conj eq_refl (λ q, eq_refl));
  rqueue_create_law := request_create_spec_full;
  rqueue_request_law := request_destroy_law;
  rqueue_invalidate_law := request_invalidate_spec;
  rqueue_retry_now_law := retry_now_spec
|}.

(** ** Properties *)

(** Scheduling a retry is safe and exact.  On a well-formed scheduler, whatever allocations and
    timer creations fail, [flb_sched_request_create] never touches a freed object and keeps the
    scheduler well formed; it either reports -1 and schedules nothing, or adds exactly this retry
    with a delay of at least base+1 and at most min(cap, base*2^tries)+1 seconds (exactly 1 second
    when shutting down).  Without failures it does schedule. *)
Theorem flb_sched_request_create_correct cfg data tries s :
  wf_sched [] s → sched_config_ok cfg → 0 <= tries < 2 ^ 31 →
  ∃ r s', flb_sched_request_create cfg data tries s = Some (r, s') ∧ wf_sched [] s' ∧
    (calm (sc_env s) → r ≠ -1) ∧
    ((r = -1 ∧ pending s' ≡ₚ pending s) ∨
     (delay_bounds cfg tries r ∧ pending s' ≡ₚ data :: pending s)).
Proof. apply request_create_spec. Qed.

Definition ex_env : env := mk_env [] [] [12345; 99] 1000 7 [].
Definition ex_cfg : sched_config := mk_sched_config 5 2000 false.

Lemma sched_empty_wf e : wf_sched [] (sched_empty e).
Proof.
  constructor; cbn; try done; try (by constructor).
  - intros q. split; [by intros ?%not_elem_of_nil|by intros []].
  - intros t. split; [by intros ?%not_elem_of_nil|by intros []].
Qed.

Example flb_sched_request_create_correct_witness :
  ∃ r s', flb_sched_request_create ex_cfg 3 2 (sched_empty ex_env) = Some (r, s') ∧ wf_sched [] s' ∧
    (calm ex_env → r ≠ -1) ∧
    ((r = -1 ∧ pending s' ≡ₚ pending (sched_empty ex_env)) ∨
     (delay_bounds ex_cfg 2 r ∧ pending s' ≡ₚ 3%nat :: pending (sched_empty ex_env))).
Proof.
  apply (flb_sched_request_create_correct ex_cfg 3 2 (sched_empty ex_env));
    [apply sched_empty_wf|split; [split|]; reflexivity || discriminate|split; reflexivity || discriminate].
Defined.

(** A retry that was scheduled can be taken back: after a successful create the invalidation
    finds the retry (result 0), leaves the scheduler well formed and the multiset of scheduled
    retries as it was before the create. *)
Theorem request_create_invalidate_roundtrip cfg data tries s r s1 :
  wf_sched [] s → sched_config_ok cfg → 0 <= tries < 2 ^ 31 →
  flb_sched_request_create cfg data tries s = Some (r, s1) → r ≠ -1 →
  ∃ s2, flb_sched_request_invalidate data s1 = Some (0, s2) ∧ wf_sched [] s2 ∧
    pending s2 ≡ₚ pending s.
Proof.
  intros W Hc Ht Hrun Hr. destruct (request_create_spec cfg data tries s W Hc Ht)
    as (r' & s1' & Hrun' & W1 & _ & [[-> _]|[_ Hp]]); rewrite Hrun in Hrun'; injection Hrun' as -> ->; [done|].
  destruct (request_invalidate_spec data s1' W1) as [_ Hin].
  destruct Hin as (s2 & ? & ? & _ & Hp2); [rewrite Hp; by left|].
  exists s2. split_and!; try done. apply (Permutation_cons_inv (a := data)). by rewrite <- Hp2.
Qed.

Definition ex_scheduled : option (Z * flb_sched) :=
  flb_sched_request_create ex_cfg 3 2 (sched_empty ex_env).

Example request_create_invalidate_roundtrip_witness :
  match ex_scheduled with
  | Some (r, s1) => r ≠ -1 ∧ ∃ s2, flb_sched_request_invalidate 3 s1 = Some (0, s2) ∧
      wf_sched [] s2 ∧ pending s2 ≡ₚ pending (sched_empty ex_env)
  | None => False
  end.
Proof.
  destruct ex_scheduled as [[r s1]|] eqn:E; vm_compute in E; [|discriminate E].
  injection E as <- <-. split; [discriminate|].
  eapply (request_create_invalidate_roundtrip ex_cfg 3 2 (sched_empty ex_env));
    [apply sched_empty_wf|split; [split|]; reflexivity || discriminate
    |split; reflexivity || discriminate|vm_compute; reflexivity|discriminate].
Defined.

(** Promotion is exact.  The frame handler keeps every scheduled retry and the invariant whatever
    timer creations fail; it arms only requests whose time has come (their delay ends within the
    coming frame, or has passed); and when the system grants the timers, the requests left waiting
    are exactly those whose delay ends after the frame. *)
Theorem schedule_request_promote_exact s :
  wf_sched [] s →
  let now := e_now (sc_env s) in
  ∃ s', schedule_request_promote s = Some (0, s') ∧ wf_sched [] s' ∧ pending s' ≡ₚ pending s ∧
    (∀ q, q ∈ sc_requests s' → q ∈ sc_requests s ∨ q ∈ sc_requests_wait s ∧ is_due now s q) ∧
    (e_sys (sc_env s) = [] →
     ∀ q, q ∈ sc_requests_wait s' ↔ q ∈ sc_requests_wait s ∧ ¬ is_due now s q).
Proof. apply request_promote_spec. Qed.

Example schedule_request_promote_exact_witness :
  let s := sched_empty ex_env in
  ∃ s', schedule_request_promote s = Some (0, s') ∧ wf_sched [] s' ∧ pending s' ≡ₚ pending s ∧
    (∀ q, q ∈ sc_requests s' → q ∈ sc_requests s ∨ q ∈ sc_requests_wait s ∧ is_due 1000 s q) ∧
    (e_sys (sc_env s) = [] →
     ∀ q, q ∈ sc_requests_wait s' ↔ q ∈ sc_requests_wait s ∧ ¬ is_due 1000 s q).
Proof. apply (schedule_request_promote_exact (sched_empty ex_env)). apply sched_empty_wf. Defined.

(** A new timer coroutine gets the smallest id no active coroutine uses, as long as fewer than
    2^32-1 are active. *)
Theorem sched_timer_coro_get_id_smallest s :
  zlen (sc_coros s) < 2 ^ 32 - 1 →
  let id := sched_timer_coro_get_id s in
  0 <= id < 2 ^ 32 - 1 ∧ flb_sched_timer_coro_get s id = None ∧
  ∀ k, 0 <= k < id → is_Some (flb_sched_timer_coro_get s k).
Proof.
  intros Hlen id. unfold id, sched_timer_coro_get_id.
  destruct (coro_id_loop_spec (sc_coros s) (S (length (sc_coros s))) 0) as (Hr & Hbelow & Hnew).
  { pose proof (filter_length_le (λ c, 0 <=? stc_id c) (sc_coros s)). lia. }
  { lia. }
  { lia. }
  set (r := coro_id_loop _ _ _) in *.
  assert (Hused : ∀ k, 0 <= k < r → is_Some (flb_sched_timer_coro_get s k)).
  { intros k Hk. destruct (Hbelow k Hk) as (c & Hin & Hc). unfold flb_sched_timer_coro_get.
    destruct (List.find _ (sc_coros s)) as [c'|] eqn:Hf; [by eexists|].
    apply list_elem_of_In in Hin. eapply List.find_none in Hf; [|exact Hin].
    cbn in Hf. apply Z.eqb_neq in Hf. done. }
  assert (Hlt : r < 2 ^ 32 - 1).
  { destruct (Z.lt_ge_cases r (2 ^ 32 - 1)) as [|Hge]; [done|]. exfalso.
    pose proof (List.NoDup_incl_length (l := List.map Z.of_nat (seq 0 (Z.to_nat r)))
      (l' := List.map stc_id (sc_coros s))) as Hle.
    rewrite !List.length_map, List.length_seq in Hle. unfold zlen in Hlen.
    enough (Z.to_nat r <= length (sc_coros s))%nat by lia. apply Hle.
    - apply Finite.Injective_map_NoDup; [intros ??; lia|apply List.seq_NoDup].
    - intros k (n & <- & Hn%List.in_seq)%List.in_map_iff.
      destruct (Hbelow (Z.of_nat n)) as (c & Hin & Hc); [lia|].
      apply List.in_map_iff. exists c. split; [done|by apply list_elem_of_In]. }
  split; [lia|]. split; [|done]. unfold flb_sched_timer_coro_get.
  destruct (List.find _ (sc_coros s)) as [c|] eqn:Hf; [|done].
  apply List.find_some in Hf as [Hin Hc]. apply Z.eqb_eq in Hc. exfalso.
  by apply (Hnew Hlt c); [apply list_elem_of_In|].
Qed.

Example sched_timer_coro_get_id_smallest_witness :
  let s := set_sc_coros [mk_coro 0 1 None; mk_coro 1 1 None; mk_coro 3 1 None] (sched_empty ex_env) in
  sched_timer_coro_get_id s = 2 ∧ 0 <= 2 < 2 ^ 32 - 1 ∧ flb_sched_timer_coro_get s 2 = None ∧
  ∀ k, 0 <= k < 2 → is_Some (flb_sched_timer_coro_get s k).
Proof.
  intros s. split; [reflexivity|].
  exact (sched_timer_coro_get_id_smallest s eq_refl).
Defined.

(** Division by zero in the backoff.  With "scheduler.cap" one below "scheduler.base" (nothing
    in the configuration forbids it) the random range is empty and every retry that is not part of a
    shutdown reaches undefined behaviour. *)
Theorem backoff_empty_range_crashes cap data tries shutting s :
  0 < cap < RAND_MAX - 1 → 0 <= tries < 2 ^ 31 → wf_sched [] s → calm (sc_env s) →
  shutting = false →
  flb_sched_request_create (mk_sched_config (cap + 1) cap shutting) data tries s = None.
Proof.
  intros Hcap Ht W Hc ->. unfold flb_sched_request_create. mrun.
  destruct (flb_sched_timer_create_spec [] s W) as (ot & s1 & -> & W1 & _ & _ & Hcalm & Hot). cbn.
  destruct (Hcalm Hc) as [Hne Hc1]. destruct ot as [t|]; [|done]. destruct Hot as (_ & Htx & _). cbn.
  destruct (malloc_cases s1) as [[_ []]|(script & -> & _)]; [done|]. cbn.
  unfold timer_at, store_timer. mrun. cbn. rewrite Htx. cbn.
  unfold backoff_full_jitter. rewrite ipow_spec by done.
  assert (Hi : ∀ z, 0 < z < RAND_MAX → i32 z = z).
  { intros z Hz. unfold i32, RAND_MAX in *. rewrite Z.mod_small; lia. }
  rewrite !Hi by lia. pose proof (Z.pow_pos_nonneg 2 tries ltac:(lia) ltac:(lia)).
  unfold xmin. destruct (Z.ltb_spec cap ((cap + 1) * 2 ^ tries)); [|nia].
  unfold random_uniform. replace (cap - (cap + 1) + 1) with 0 by lia. done.
Qed.

Example backoff_empty_range_crashes_witness :
  flb_sched_request_create (mk_sched_config 5 4 false) 3 1 (sched_empty ex_env) = None.
Proof.
  apply (backoff_empty_range_crashes 4 3 1 false (sched_empty ex_env));
    [split; reflexivity|split; reflexivity || discriminate|apply sched_empty_wf|split; reflexivity|reflexivity].
Defined.
