(* ===== verification/Delivery.v ===== *)
(** * Delivery state: tasks, retries, flushes, queues and chunks

    The data of [include/fluent-bit/flb_task.h] and the parts of [struct flb_config],
    [struct flb_input_instance], [struct flb_input_chunk] and [struct flb_output_instance] that
    tasks live in, over any component [S] that keeps the scheduled retries ([RetryQueue]).  Tasks,
    retries and chunks are heap objects: reaching a freed one is undefined behaviour.  Queue entries
    and flush contexts are the nodes of their lists, so they live as long as they are linked. *)
From S2P Require Import Prelude Env RetryQueue Router RoutesMask.

Definition FLB_TASK_NEW : Z := 0.
Definition FLB_TASK_RUNNING : Z := 1.
Definition FLB_TASK_ROUTE_INACTIVE : Z := 0.
Definition FLB_TASK_ROUTE_ACTIVE : Z := 1.
Definition FLB_TASK_ROUTE_DROPPED : Z := 2.
Definition FLB_OUTPUT_NO_MULTIPLEX : Z := 512.
Definition FLB_OUTPUT_SYNCHRONOUS : Z := 2048.
Definition FLB_OUT_RETRY_NONE : Z := 0.
Definition FLB_CONFIG_DEFAULT_TASK_MAP_SIZE : Z := 2048.
Definition FLB_CONFIG_DEFAULT_TASK_MAP_SIZE_LIMIT : Z := 16384.
Definition FLB_CONFIG_DEFAULT_TASK_MAP_SIZE_GROWTH : Z := 256.
Definition FLB_ERROR : Z := 0.
Definition FLB_OK : Z := 1.
Definition FLB_RETRY : Z := 2.

(** [flags & flag] for the single-bit flags above. *)
Definition has_flag (o : flb_output_instance) (flag : Z) : bool := negb (Z.land (o_flags o) flag =? 0).

(** [struct flb_event_chunk], without tag and data *)
Record flb_event_chunk := mk_evc {
  evc_type : Z;
  evc_total_events : Z;
  evc_size : Z
}.
Definition set_evc_type (x : Z) (s : flb_event_chunk) : flb_event_chunk :=
  mk_evc x (evc_total_events s) (evc_size s).
Definition set_evc_total_events (x : Z) (s : flb_event_chunk) : flb_event_chunk :=
  mk_evc (evc_type s) x (evc_size s).
Definition set_evc_size (x : Z) (s : flb_event_chunk) : flb_event_chunk :=
  mk_evc (evc_type s) (evc_total_events s) x.

(** [struct flb_task_route]; [r_out] is the position of the output in [config->outputs] *)
Record flb_task_route := mk_route {
  r_status : Z;
  r_records : Z;
  r_bytes : Z;
  r_out : nat
}.
Definition set_r_status (x : Z) (s : flb_task_route) : flb_task_route :=
  mk_route x (r_records s) (r_bytes s) (r_out s).
Definition set_r_records (x : Z) (s : flb_task_route) : flb_task_route :=
  mk_route (r_status s) x (r_bytes s) (r_out s).
Definition set_r_bytes (x : Z) (s : flb_task_route) : flb_task_route :=
  mk_route (r_status s) (r_records s) x (r_out s).
Definition set_r_out (x : nat) (s : flb_task_route) : flb_task_route :=
  mk_route (r_status s) (r_records s) (r_bytes s) x.

(** [struct flb_task_retry] *)
Record flb_task_retry := mk_retry {
  rt_attempts : Z;
  rt_o_ins : nat;
  rt_parent : nat
}.
Definition set_rt_attempts (x : Z) (s : flb_task_retry) : flb_task_retry :=
  mk_retry x (rt_o_ins s) (rt_parent s).
Definition set_rt_o_ins (x : nat) (s : flb_task_retry) : flb_task_retry :=
  mk_retry (rt_attempts s) x (rt_parent s).
Definition set_rt_parent (x : nat) (s : flb_task_retry) : flb_task_retry :=
  mk_retry (rt_attempts s) (rt_o_ins s) x.

(** [struct flb_task]; [t_i_ins] is the position of the input, NULL until the task is linked *)
Record flb_task := mk_task {
  t_id : Z;
  t_ref_id : Z;
  t_status : Z;
  t_users : Z;
  t_event_chunk : option flb_event_chunk;
  t_ic : option nat;
  t_records : Z;
  t_routes : list flb_task_route;
  t_retries : list nat;
  t_i_ins : option nat
}.
Definition set_t_id (x : Z) (s : flb_task) : flb_task :=
  mk_task x (t_ref_id s) (t_status s) (t_users s) (t_event_chunk s) (t_ic s) (t_records s) (t_routes s) (t_retries s) (t_i_ins s).
Definition set_t_ref_id (x : Z) (s : flb_task) : flb_task :=
  mk_task (t_id s) x (t_status s) (t_users s) (t_event_chunk s) (t_ic s) (t_records s) (t_routes s) (t_retries s) (t_i_ins s).
Definition set_t_status (x : Z) (s : flb_task) : flb_task :=
  mk_task (t_id s) (t_ref_id s) x (t_users s) (t_event_chunk s) (t_ic s) (t_records s) (t_routes s) (t_retries s) (t_i_ins s).
Definition set_t_users (x : Z) (s : flb_task) : flb_task :=
  mk_task (t_id s) (t_ref_id s) (t_status s) x (t_event_chunk s) (t_ic s) (t_records s) (t_routes s) (t_retries s) (t_i_ins s).
Definition set_t_event_chunk (x : option flb_event_chunk) (s : flb_task) : flb_task :=
  mk_task (t_id s) (t_ref_id s) (t_status s) (t_users s) x (t_ic s) (t_records s) (t_routes s) (t_retries s) (t_i_ins s).
Definition set_t_ic (x : option nat) (s : flb_task) : flb_task :=
  mk_task (t_id s) (t_ref_id s) (t_status s) (t_users s) (t_event_chunk s) x (t_records s) (t_routes s) (t_retries s) (t_i_ins s).
Definition set_t_records (x : Z) (s : flb_task) : flb_task :=
  mk_task (t_id s) (t_ref_id s) (t_status s) (t_users s) (t_event_chunk s) (t_ic s) x (t_routes s) (t_retries s) (t_i_ins s).
Definition set_t_routes (x : list flb_task_route) (s : flb_task) : flb_task :=
  mk_task (t_id s) (t_ref_id s) (t_status s) (t_users s) (t_event_chunk s) (t_ic s) (t_records s) x (t_retries s) (t_i_ins s).
Definition set_t_retries (x : list nat) (s : flb_task) : flb_task :=
  mk_task (t_id s) (t_ref_id s) (t_status s) (t_users s) (t_event_chunk s) (t_ic s) (t_records s) (t_routes s) x (t_i_ins s).
Definition set_t_i_ins (x : option nat) (s : flb_task) : flb_task :=
  mk_task (t_id s) (t_ref_id s) (t_status s) (t_users s) (t_event_chunk s) (t_ic s) (t_records s) (t_routes s) (t_retries s) x.

(** [struct flb_task_enqueued]; [eq_addr] is its address *)
Record flb_task_enqueued := mk_enq {
  eq_addr : nat;
  eq_task : nat;
  eq_retry : option nat;
  eq_out : nat
}.

(** [struct flb_task_queue] *)
Record flb_task_queue := mk_queue {
  q_pending : list flb_task_enqueued;
  q_in_progress : list flb_task_enqueued
}.
Definition set_q_pending (x : list flb_task_enqueued) (s : flb_task_queue) : flb_task_queue :=
  mk_queue x (q_in_progress s).
Definition set_q_in_progress (x : list flb_task_enqueued) (s : flb_task_queue) : flb_task_queue :=
  mk_queue (q_pending s) x.

(** A flush ([struct flb_output_flush], or the task handed to a worker): it waits for its coroutine to be
    resumed, its callback runs, or it has returned a verdict that is in the pipe of the engine. *)
Inductive flush_state := FlushWaiting | FlushRunning | FlushReturned (ret : Z).
#[export] Instance flush_state_eq_dec : EqDecision flush_state.
Proof. solve_decision. Defined.
Record flb_output_flush := mk_flush { of_task : nat; of_out : nat; of_state : flush_state }.
Definition of_returned (f : flb_output_flush) : bool := match of_state f with FlushReturned _ => true | _ => false end.

(** [struct flb_chunk_direct_route]: a route stored in the metadata of a chunk. *)
Record flb_chunk_direct_route := mk_direct {
  dr_id : Z; dr_label : option (list Z); dr_label_length : Z; dr_plugin_name : option (list Z);
  dr_plugin_name_length : Z
}.

(** The fields of [struct flb_input_chunk] that tasks use.  [ck_direct] is what
    [flb_input_chunk_get_direct_routes] answers when [flb_input_chunk_has_direct_routes], [ck_tag] and
    [ck_size] what [flb_input_chunk_get_tag] and [flb_input_chunk_flush] answer when they succeed. *)
Record flb_input_chunk := mk_chunk {
  ck_in : nat;
  ck_event_type : Z;
  ck_busy : bool;
  ck_total_records : Z;
  ck_task : option nat;
  ck_routes_mask : option (list Z);
  ck_direct : option (Z * list flb_chunk_direct_route);
  ck_tag : option (list Z);
  ck_size : Z
}.
Definition set_ck_busy (x : bool) (s : flb_input_chunk) : flb_input_chunk :=
  mk_chunk (ck_in s) (ck_event_type s) x (ck_total_records s) (ck_task s) (ck_routes_mask s)
    (ck_direct s) (ck_tag s) (ck_size s).
Definition set_ck_task (x : option nat) (s : flb_input_chunk) : flb_input_chunk :=
  mk_chunk (ck_in s) (ck_event_type s) (ck_busy s) (ck_total_records s) x (ck_routes_mask s)
    (ck_direct s) (ck_tag s) (ck_size s).

(** The static configuration: [cf_keep_rejected] is [storage_keep_rejected && storage_path]. *)
Record flb_config := mk_config {
  cf_inputs : list flb_input_instance;
  cf_outputs : list flb_output_instance;
  cf_router : option flb_router;
  cf_sched : sched_config;
  cf_keep_rejected : bool
}.

(** The delivery state: the scheduler, [config->task_map], the heaps, the lists [tasks] and [chunks]
    of every input, the [singleplex_queue] of every output, and the flushes under way. *)
Record delivery (S : Type) := mk_delivery {
  d_rq : S;
  d_map : list (option nat);
  d_tasks : gmap nat flb_task;
  d_retries : gmap nat flb_task_retry;
  d_chunks : gmap nat flb_input_chunk;
  d_in_tasks : list (list nat);
  d_in_chunks : list (list nat);
  d_queues : list flb_task_queue;
  d_flushes : list flb_output_flush
}.
Arguments mk_delivery {S}.
Arguments d_rq {S}.
Arguments d_map {S}.
Arguments d_tasks {S}.
Arguments d_retries {S}.
Arguments d_chunks {S}.
Arguments d_in_tasks {S}.
Arguments d_in_chunks {S}.
Arguments d_queues {S}.
Arguments d_flushes {S}.
Definition set_d_rq {S} (x : S) (s : delivery S) : delivery S :=
  mk_delivery x (d_map s) (d_tasks s) (d_retries s) (d_chunks s) (d_in_tasks s) (d_in_chunks s) (d_queues s) (d_flushes s).
Definition set_d_map {S} (x : list (option nat)) (s : delivery S) : delivery S :=
  mk_delivery (d_rq s) x (d_tasks s) (d_retries s) (d_chunks s) (d_in_tasks s) (d_in_chunks s) (d_queues s) (d_flushes s).
Definition set_d_tasks {S} (x : gmap nat flb_task) (s : delivery S) : delivery S :=
  mk_delivery (d_rq s) (d_map s) x (d_retries s) (d_chunks s) (d_in_tasks s) (d_in_chunks s) (d_queues s) (d_flushes s).
Definition set_d_retries {S} (x : gmap nat flb_task_retry) (s : delivery S) : delivery S :=
  mk_delivery (d_rq s) (d_map s) (d_tasks s) x (d_chunks s) (d_in_tasks s) (d_in_chunks s) (d_queues s) (d_flushes s).
Definition set_d_chunks {S} (x : gmap nat flb_input_chunk) (s : delivery S) : delivery S :=
  mk_delivery (d_rq s) (d_map s) (d_tasks s) (d_retries s) x (d_in_tasks s) (d_in_chunks s) (d_queues s) (d_flushes s).
Definition set_d_in_tasks {S} (x : list (list nat)) (s : delivery S) : delivery S :=
  mk_delivery (d_rq s) (d_map s) (d_tasks s) (d_retries s) (d_chunks s) x (d_in_chunks s) (d_queues s) (d_flushes s).
Definition set_d_in_chunks {S} (x : list (list nat)) (s : delivery S) : delivery S :=
  mk_delivery (d_rq s) (d_map s) (d_tasks s) (d_retries s) (d_chunks s) (d_in_tasks s) x (d_queues s) (d_flushes s).
Definition set_d_queues {S} (x : list flb_task_queue) (s : delivery S) : delivery S :=
  mk_delivery (d_rq s) (d_map s) (d_tasks s) (d_retries s) (d_chunks s) (d_in_tasks s) (d_in_chunks s) x (d_flushes s).
Definition set_d_flushes {S} (x : list flb_output_flush) (s : delivery S) : delivery S :=
  mk_delivery (d_rq s) (d_map s) (d_tasks s) (d_retries s) (d_chunks s) (d_in_tasks s) (d_in_chunks s) (d_queues s) x.

#[global] Instance delivery_HasEnv {S} `{HasEnv S} : HasEnv (delivery S).
Proof.
  refine {| env_of d := env_of (d_rq d); set_env e d := set_d_rq (set_env e (d_rq d)) d |}.
  - intros e d. apply env_of_set.
  - intros []. cbn. by rewrite set_env_of.
  - intros e e' []. unfold set_d_rq. cbn. by rewrite set_env_set.
Defined.

(** [mk_list_del] of an element that may be in any of the lists. *)
Definition unlink_all (p : nat) (ls : list (list nat)) : list (list nat) := map (unlink p) ls.
Arguments unlink_all : simpl never.
(** [mk_list_add] at the end of list [i]. *)
Definition link_at {S} (i p : nat) (ls : list (list nat)) : M S (list (list nat)) :=
  l ← deref (ls !! i); mret (<[i := l ++ [p]]> ls).

Section access.
Context {S : Type} `{HasEnv S}.

(** Run a computation of the scheduler. *)
Definition lift {A} (m : M S A) : M (delivery S) A := λ d,
  match m (d_rq d) with Some (a, q) => Some (a, set_d_rq q d) | None => None end.

Definition task_at (t : nat) : M (delivery S) flb_task := λ d,
  match d_tasks d !! t with Some x => Some (x, d) | None => None end.
Definition store_task (t : nat) (x : flb_task) : M (delivery S) unit :=
  modify (λ d, set_d_tasks (<[t := x]> (d_tasks d)) d).
Definition retry_at (r : nat) : M (delivery S) flb_task_retry := λ d,
  match d_retries d !! r with Some x => Some (x, d) | None => None end.
Definition store_retry (r : nat) (x : flb_task_retry) : M (delivery S) unit :=
  modify (λ d, set_d_retries (<[r := x]> (d_retries d)) d).
Definition chunk_at (c : nat) : M (delivery S) flb_input_chunk := λ d,
  match d_chunks d !! c with Some x => Some (x, d) | None => None end.
Definition store_chunk (c : nat) (x : flb_input_chunk) : M (delivery S) unit :=
  modify (λ d, set_d_chunks (<[c := x]> (d_chunks d)) d).
Definition queue_at (o : nat) : M (delivery S) flb_task_queue := λ d,
  match d_queues d !! o with Some x => Some (x, d) | None => None end.
Definition store_queue (o : nat) (x : flb_task_queue) : M (delivery S) unit :=
  modify (λ d, set_d_queues (<[o := x]> (d_queues d)) d).

(** ** What tasks ask of input chunks ([src/flb_input_chunk.c])

    The content of a chunk is kept by the storage layer: bringing it up, or reading it, is a call
    that may fail.  Keeping it down and updating the limits of the input have no effect here. *)

Definition flb_input_chunk_set_up (c : nat) : M (delivery S) Z :=
  _ ← chunk_at c; ok ← syscall; mret (if (ok : bool) then 0 else -1).
Definition flb_input_chunk_set_up_down (c : nat) : M (delivery S) unit :=
  _ ← chunk_at c; emit (ChunkSetUpDown c).
Definition flb_input_chunk_down (c : nat) : M (delivery S) unit :=
  _ ← chunk_at c; emit (ChunkDown c).

(** The size of the content, or NULL. *)
Definition flb_input_chunk_flush (c : nat) : M (delivery S) (option Z) :=
  ck ← chunk_at c;
  ok ← syscall;
  if (ok : bool) then store_chunk c (set_ck_busy true ck) ≫= λ _, mret (Some (ck_size ck))
  else mret None.

Definition flb_input_chunk_release_lock (c : nat) : M (delivery S) Z :=
  ck ← chunk_at c;
  if ck_busy ck then
    store_chunk c (set_ck_busy false ck) ≫= λ _, emit (ChunkReleaseLock c) ≫= λ _, mret 0
  else mret (-1).

(** Memory and list of [flb_input_chunk_destroy]; sizes and the chunk table of the input aside. *)
Definition flb_input_chunk_destroy (c : nat) (del : bool) : M (delivery S) Z :=
  _ ← chunk_at c;
  emit (ChunkDestroy c del) ≫= λ _,
  modify (λ d, set_d_in_chunks (unlink_all c (d_in_chunks d)) d) ≫= λ _,
  modify (λ d, set_d_chunks (delete c (d_chunks d)) d) ≫= λ _,
  mret 0.

Definition flb_input_chunk_set_limits (i : nat) : M (delivery S) unit := emit (InputSetLimits i).

(** ** The task map ([src/flb_config.c]) *)

Definition flb_config_task_map_resize (new_size : Z) : M (delivery S) Z :=
  d ← get;
  let size := zlen (d_map d) in
  if new_size =? size then mret 0
  else if new_size =? 0 then put (set_d_map [] d) ≫= λ _, mret 0
  else
    p ← malloc;
    match p with
    | None => mret (-1)
    | Some _ =>
        modify (λ d, set_d_map (take (Z.to_nat new_size) (d_map d) ++
                                replicate (Z.to_nat (new_size - size)) None) d) ≫= λ _,
        mret 0
    end.

Definition flb_config_task_map_grow : M (delivery S) Z :=
  size ← gets (λ d, zlen (d_map d));
  if FLB_CONFIG_DEFAULT_TASK_MAP_SIZE_LIMIT <=? size then mret (-1)
  else flb_config_task_map_resize (size + FLB_CONFIG_DEFAULT_TASK_MAP_SIZE_GROWTH).
End access.

(** ** Stored routes of a chunk *)

(** [strlen(s) == n && strncmp(s, buf, n) == 0] *)
Definition str_eq (s buf : list Z) (n : Z) : bool :=
  (zlen s =? n) && bool_decide (take (Z.to_nat n) buf = s).

(** [flb_chunk_route_plugin_matches] of [src/flb_input_chunk.c]; the output and its plugin exist. *)
Definition flb_chunk_route_plugin_matches (o : flb_output_instance) (route : flb_chunk_direct_route)
    : bool :=
  match dr_plugin_name route with
  | None | Some [] => true
  | Some name =>
      let stored := if 0 <? dr_plugin_name_length route then dr_plugin_name_length route
                    else zlen name in
      str_eq (o_p_name o) name stored
  end.

(** The positions, from [n] on, of the outputs a predicate selects. *)
Fixpoint positions (p : flb_output_instance → bool) (n : nat) (outs : list flb_output_instance)
    : list nat :=
  match outs with
  | [] => []
  | o :: outs' => (if p o then [n] else []) ++ positions p (S n) outs'
  end.

Definition alias_is (label : list Z) (n : Z) (o : flb_output_instance) : bool :=
  match o_alias o with Some alias => str_eq alias label n | None => false end.

Definition direct_matches (outs : list flb_output_instance) (route : flb_chunk_direct_route)
    : list nat :=
  let by_id := positions (λ o, (u32 (o_id o) =? dr_id route) &&
                               flb_chunk_route_plugin_matches o route) 0 outs in
  match dr_label route with
  | None => by_id
  | Some label =>
      let n := if dr_label_length route =? 0 then zlen label else dr_label_length route in
      if 0 <? n then
        positions (λ o, alias_is label n o && flb_chunk_route_plugin_matches o route) 0 outs ++
        positions (λ o, str_eq (o_name o) label n && flb_chunk_route_plugin_matches o route &&
                        negb (alias_is label n o)) 0 outs
      else by_id
  end.

(** The outputs a list of stored routes leads to. *)
Definition direct_all (outs : list flb_output_instance) (routes : list flb_chunk_direct_route)
    : list nat := routes ≫= direct_matches outs.

(** ** Invariant

    A *token* [(t, o)] stands for task [t] on its way to output [o]: its flush is under way, it
    waits in the queue of a synchronous output, or its retry is scheduled.  At any time there is at
    most one token per pair: this is what keeps two parties from freeing the same retry. *)

Definition flush_pair (f : flb_output_flush) : nat * nat := (of_task f, of_out f).
Definition enq_pair (e : flb_task_enqueued) : nat * nat := (eq_task e, eq_out e).
Definition retry_pair (x : flb_task_retry) : nat * nat := (rt_parent x, rt_o_ins x).

Definition flush_pairs {S} (d : delivery S) : list (nat * nat) := flush_pair <$> d_flushes d.
Definition queue_pairs {S} (d : delivery S) : list (nat * nat) :=
  enq_pair <$> (d_queues d ≫= q_pending).
Definition sched_pairs {S} (P : list nat) (d : delivery S) : list (nat * nat) :=
  omap (λ r, retry_pair <$> d_retries d !! r) P.

Arguments flush_pairs : simpl never.
Arguments queue_pairs : simpl never.
Arguments sched_pairs : simpl never.

Definition task_count (t : nat) (l : list (nat * nat)) : Z := zlen (filter (λ p, p.1 = t) l).
Definition in_list (ls : list (list nat)) (i x : nat) : Prop := ∃ l, ls !! i = Some l ∧ x ∈ l.

(** What is going on while a handler works: the tokens it holds, counted in [users] or not; the
    request (with its retry) it serves; the outputs whose queue it is moving; the task it is building
    or taking apart; and, at any time, the retries that are scheduled (but for the request served)
    and a bound on the attempts of every retry. *)
Record hold := mk_hold {
  h_counted : list (nat * nat);
  h_free : list (nat * nat);
  h_req : list (nat * nat);
  h_busy : list nat;
  h_open : list nat;
  h_sched : list nat;
  h_bound : Z
}.

Definition is_sync (cfg : flb_config) (o : nat) : bool :=
  match cf_outputs cfg !! o with Some x => has_flag x FLB_OUTPUT_SYNCHRONOUS | None => false end.
Definition is_output (cfg : flb_config) (o : nat) : Prop := (o < length (cf_outputs cfg))%nat.

(** The static configuration: ids identify outputs and fit the 14 bits of a message, a retry limit
    is -1 (none) or at least 0, the backoff is defined, and direct routes lead to distinct outputs. *)
Record config_ok (cfg : flb_config) : Prop := {
  co_id o ins : cf_outputs cfg !! o = Some ins → 0 <= o_id ins < 2 ^ 14;
  co_id_inj o1 o2 ins1 ins2 : cf_outputs cfg !! o1 = Some ins1 → cf_outputs cfg !! o2 = Some ins2 →
    o_id ins1 = o_id ins2 → o1 = o2;
  co_sched : sched_config_ok (cf_sched cfg);
  co_paths i ins : cf_inputs cfg !! i = Some ins →
    NoDup (rp_ins <$> i_routes_direct ins) ∧ Forall (λ p, is_output cfg (rp_ins p)) (i_routes_direct ins)
}.

(** A chunk as the input side makes them: it belongs to an input, the routes stored in it lead to
    distinct outputs, and its routes mask covers every output id. *)
Record chunk_ok (cfg : flb_config) (ck : flb_input_chunk) : Prop := {
  ck_ok_in : (ck_in ck < length (cf_inputs cfg))%nat;
  ck_ok_direct routes : ck_direct ck = Some (0, routes) →
    NoDup (direct_all (cf_outputs cfg) routes);
  ck_ok_mask o : o ∈ cf_outputs cfg →
    is_Some (flb_routes_mask_get_bit (default [] (ck_routes_mask ck)) (o_id o) (cf_router cfg))
}.

Definition routes_ok (cfg : flb_config) (l : list flb_task_route) : Prop :=
  NoDup (r_out <$> l) ∧ Forall (λ r, is_output cfg (r_out r)) l.

Definition retry_ok (cfg : flb_config) (n : Z) (x : flb_task_retry) : Prop :=
  1 <= rt_attempts x <= n ∧
  ∃ ins, cf_outputs cfg !! rt_o_ins x = Some ins ∧
    (0 <= o_retry_limit ins → rt_attempts x <= o_retry_limit ins).

Section invariant.
Context {S : Type} `{RetryQueue S} (cfg : flb_config).

(** A task with all its parts: its slot of the task map, its event chunk, and its busy input chunk. *)
Definition task_linked (d : delivery S) (t : nat) (k : flb_task) : Prop :=
  d_map d !z (t_id k) = Some (Some t) ∧ is_Some (t_event_chunk k) ∧
  ∃ c ck, t_ic k = Some c ∧ d_chunks d !! c = Some ck ∧ ck_task ck = Some t ∧ ck_busy ck = true ∧
    t_i_ins k = Some (ck_in ck).

(** The heaps and lists: no dangling pointer. *)
Record wf_heap (h : hold) (d : delivery S) : Prop := {
  wh_map : zlen (d_map d) mod FLB_CONFIG_DEFAULT_TASK_MAP_SIZE_GROWTH = 0 ∧
           zlen (d_map d) <= FLB_CONFIG_DEFAULT_TASK_MAP_SIZE_LIMIT;
  wh_in_tasks i t : in_list (d_in_tasks d) i t ↔
    ∃ k, d_tasks d !! t = Some k ∧ t_i_ins k = Some i ∧ t ∉ h_open h;
  wh_in_tasks_len : length (d_in_tasks d) = length (cf_inputs cfg);
  wh_in_tasks_nodup : Forall NoDup (d_in_tasks d);
  wh_in_chunks i c : in_list (d_in_chunks d) i c ↔ ∃ ck, d_chunks d !! c = Some ck ∧ ck_in ck = i;
  wh_in_chunks_len : length (d_in_chunks d) = length (cf_inputs cfg);
  wh_in_chunks_nodup : Forall NoDup (d_in_chunks d);
  wh_task t k : d_tasks d !! t = Some k → t ∉ h_open h → task_linked d t k;
  wh_routes t k : d_tasks d !! t = Some k → routes_ok cfg (t_routes k);
  wh_chunk c ck : d_chunks d !! c = Some ck → chunk_ok cfg ck ∧
    ∀ t, ck_task ck = Some t → (t ∉ h_open h) ∧ ∃ k, d_tasks d !! t = Some k ∧ t_ic k = Some c;
  wh_retries t k r : d_tasks d !! t = Some k → r ∈ t_retries k →
    ∃ x, d_retries d !! r = Some x ∧ rt_parent x = t;
  wh_retries_nodup t k : d_tasks d !! t = Some k → NoDup (t_retries k);
  wh_retry r x : d_retries d !! r = Some x → retry_ok cfg (h_bound h) x ∧
    ∃ k, d_tasks d !! rt_parent x = Some k ∧ r ∈ t_retries k;
  wh_retry_inj r1 r2 x1 x2 : d_retries d !! r1 = Some x1 → d_retries d !! r2 = Some x2 →
    retry_pair x1 = retry_pair x2 → r1 = r2;
  wh_fresh n : (e_next (env_of d) <= n)%nat →
    d_tasks d !! n = None ∧ d_retries d !! n = None ∧ d_chunks d !! n = None
}.

Definition counted (h : hold) (d : delivery S) : list (nat * nat) :=
  h_counted h ++ flush_pairs d ++ queue_pairs d.
Definition tokens (h : hold) (d : delivery S) : list (nat * nat) :=
  h_free h ++ counted h d ++ sched_pairs (h_sched h) d.

(** The tokens: one per pair; [users] counts those that are neither held free nor scheduled. *)
Record wf_tokens (h : hold) (d : delivery S) : Prop := {
  wt_nodup : NoDup (tokens h d);
  wt_live t o : (t, o) ∈ h_free h ++ counted h d →
    is_output cfg o ∧ (t ∉ h_open h) ∧ ∃ k, d_tasks d !! t = Some k ∧ t_status k = FLB_TASK_RUNNING;
  wt_users t k : d_tasks d !! t = Some k → t_users k = task_count t (counted h d);
  wt_new t k : d_tasks d !! t = Some k → t_status k ≠ FLB_TASK_RUNNING →
    t_status k = FLB_TASK_NEW ∧ t_retries k = []
}.

(** The queue of an output: only synchronous outputs use theirs; the entry in progress is the flush
    under way, and nothing waits while nothing is in progress. *)
Record queue_ok (h : hold) (d : delivery S) (o : nat) (q : flb_task_queue) : Prop := {
  qo_out e : e ∈ q_in_progress q ++ q_pending q → eq_out e = o ∧ (eq_addr e < e_next (env_of d))%nat;
  qo_addr : NoDup (eq_addr <$> q_in_progress q ++ q_pending q);
  qo_retry e r : e ∈ q_pending q → eq_retry e = Some r →
    ∃ x, d_retries d !! r = Some x ∧ retry_pair x = enq_pair e;
  qo_async : is_sync cfg o = false → q_in_progress q = [] ∧ q_pending q = [];
  qo_one : (length (q_in_progress q) <= 1)%nat;
  qo_flush : is_sync cfg o = true → o ∉ h_busy h →
    enq_pair <$> q_in_progress q = filter (λ p, p.2 = o) (flush_pairs d) ∧
    (q_in_progress q = [] → q_pending q = []);
  qo_busy : o ∈ h_busy h → is_sync cfg o = true ∧ filter (λ p, p.2 = o) (flush_pairs d) = []
}.

Record wf_queues (h : hold) (d : delivery S) : Prop := {
  wq_len : length (d_queues d) = length (cf_outputs cfg);
  wq_queue o q : d_queues d !! o = Some q → queue_ok h d o q
}.

(** The scheduler holds exactly the scheduled retries and the request being served. *)
Record wf_rqueue (h : hold) (d : delivery S) : Prop := {
  wr_wf : rqueue_wf (d_rq d);
  wr_pending : rqueue_pending (d_rq d) ≡ₚ (h_req h).*2 ++ h_sched h;
  wr_req q r : (q, r) ∈ h_req h → rqueue_request (d_rq d) q = Some r;
  wr_live r : r ∈ (h_req h).*2 ++ h_sched h → is_Some (d_retries d !! r)
}.

Record wf (h : hold) (d : delivery S) : Prop := {
  wf_h : wf_heap h d;
  wf_t : wf_tokens h d;
  wf_q : wf_queues h d;
  wf_r : wf_rqueue h d
}.

(** Between two events nothing is held. *)
Definition idle (n : Z) (d : delivery S) : hold :=
  mk_hold [] [] [] [] [] (rqueue_pending (d_rq d)) n.
Definition delivery_ok (n : Z) (d : delivery S) : Prop := wf (idle n d) d.
End invariant.
