(* ===== verification/Invariant.v ===== *)
(** * Steps that keep the delivery invariant

    The state changes the operations are made of, each with what it does to the parts of [wf]: the
    proofs about operations chain these lemmas. *)
From S2P Require Import Prelude Env RetryQueue Router RoutesMask Delivery.

(** ** Counting tokens *)

Lemma task_count_app t l1 l2 : task_count t (l1 ++ l2) = task_count t l1 + task_count t l2.
Proof. unfold task_count, zlen. rewrite filter_app, length_app. lia. Qed.

Lemma task_count_cons t p l : task_count t (p :: l) = (if decide (p.1 = t) then 1 else 0) + task_count t l.
Proof. unfold task_count, zlen. rewrite filter_cons. destruct (decide _); cbn; lia. Qed.

Lemma task_count_nil t : task_count t [] = 0.
Proof. done. Qed.

Lemma task_count_perm t l1 l2 : l1 ≡ₚ l2 → task_count t l1 = task_count t l2.
Proof. intros Hl. unfold task_count, zlen. by rewrite Hl. Qed.

Lemma task_count_zero t l : task_count t l = 0 ↔ ∀ o, (t, o) ∉ l.
Proof.
  induction l as [|[t' o'] l IH].
  { split; [|done]. by intros _ o ?%not_elem_of_nil. }
  rewrite task_count_cons. cbn. pose proof (zlen_nonneg (filter (λ p : nat * nat, p.1 = t) l)) as Hl.
  fold (task_count t l) in Hl. setoid_rewrite not_elem_of_cons. destruct (decide (t' = t)) as [->|Hne].
  - split; [lia|]. intros Hall. destruct (Hall o') as [Hn _]. done.
  - rewrite Z.add_0_l, IH. split; [|naive_solver]. intros Hall o. split; [congruence|done].
Qed.

#[export] Hint Rewrite task_count_app task_count_cons task_count_nil : agent.

(** A list of pairs on another task does not count. *)
Lemma task_count_other t l : (∀ o, (t, o) ∉ l) → task_count t l = 0.
Proof. apply task_count_zero. Qed.

(** ** Lists of lists *)

Lemma in_list_unlink_all ls p i x : in_list (unlink_all p ls) i x ↔ x ≠ p ∧ in_list ls i x.
Proof.
  unfold in_list, unlink_all. setoid_rewrite list_lookup_fmap. split.
  - intros (l & Hl & Hx). destruct (ls !! i) as [l0|]; [|done]. cbn in Hl. injection Hl as <-.
    apply elem_of_unlink in Hx as [? ?]. eauto.
  - intros (? & l & Hl & Hx). rewrite Hl. eexists. split; [done|]. by apply elem_of_unlink.
Qed.

Lemma unlink_all_nodup ls p : Forall NoDup ls → Forall NoDup (unlink_all p ls).
Proof. intros Hls. unfold unlink_all. apply Forall_fmap. eapply Forall_impl; [exact Hls|]. apply NoDup_unlink. Qed.

Lemma length_unlink_all ls p : length (unlink_all p ls) = length ls.
Proof. apply length_map. Qed.

Lemma in_list_link ls l i p j x : ls !! i = Some l →
  in_list (<[i := l ++ [p]]> ls) j x ↔ in_list ls j x ∨ (j = i ∧ x = p).
Proof.
  intros Hl. apply lookup_lt_Some in Hl as Hlt. unfold in_list. destruct (decide (j = i)) as [->|Hne].
  - rewrite list_lookup_insert_eq by done. setoid_rewrite Hl. split.
    + intros (l' & [= <-] & Hx). apply elem_of_app in Hx as [?|?%list_elem_of_singleton]; eauto.
    + intros [(l' & [= <-] & ?)|[_ ->]]; (eexists; split; [done|]); apply elem_of_app; [by left|right].
      by left.
  - rewrite list_lookup_insert_ne by done. naive_solver.
Qed.

Section steps.
Context {S : Type} `{RetryQueue S} (cfg : flb_config).
Implicit Types (d : delivery S) (h : hold).
Abbreviation wf := (wf cfg).
Abbreviation wf_heap := (wf_heap cfg).
Abbreviation wf_tokens := (wf_tokens cfg).
Abbreviation wf_queues := (wf_queues cfg).
Abbreviation queue_ok := (queue_ok cfg).

(** ** The environment moves forward *)

Lemma wf_heap_env h d e : wf_heap h d → (e_next (env_of d) <= e_next e)%nat → wf_heap h (set_env e d).
Proof.
  intros [] He. constructor; try done. intros n Hn. apply wh_fresh.
  rewrite env_of_set in Hn. lia.
Qed.

Lemma queue_ok_mono h d d' o q :
  queue_ok h d o q → (e_next (env_of d) <= e_next (env_of d'))%nat → d_flushes d' = d_flushes d →
  (∀ r x, d_retries d !! r = Some x → ∃ x', d_retries d' !! r = Some x' ∧ retry_pair x' = retry_pair x) →
  queue_ok h d' o q.
Proof.
  intros [] He Hf Hr. constructor; try done.
  - intros e' Hin. destruct (qo_out e' Hin). split; [done|lia].
  - intros e' r Hin Hre. destruct (qo_retry e' r Hin Hre) as (x & Hx & Hp).
    destruct (Hr r x Hx) as (x' & ? & ?). exists x'. split; [done|congruence].
  - unfold flush_pairs. by rewrite Hf.
  - unfold flush_pairs. by rewrite Hf.
Qed.

Lemma wf_env h d e : wf h d → (e_next (env_of d) <= e_next e)%nat → wf h (set_env e d).
Proof.
  intros [Wh Wt [Hlen Wq] [Hrq Hp Hreq Hlive]] He.
  destruct (rqueue_set_env e (d_rq d) Hrq He) as (Hrq' & Hp' & Hreq').
  constructor.
  - by apply wf_heap_env.
  - destruct Wt. by constructor.
  - constructor; [done|]. intros o q Hq. eapply queue_ok_mono; [by apply Wq| |done|by eauto].
    by rewrite env_of_set.
  - constructor; try done.
    + cbn. by rewrite Hp'.
    + intros q r Hin. cbn. rewrite Hreq'. by apply Hreq.
Qed.

(** ** A task changes *)

(** [k'] differs from [k] in nothing the heaps depend on. *)
Record task_same (k k' : flb_task) : Prop := {
  ts_id : t_id k' = t_id k;
  ts_ic : t_ic k' = t_ic k;
  ts_i_ins : t_i_ins k' = t_i_ins k;
  ts_retries : t_retries k' = t_retries k;
  ts_evc : is_Some (t_event_chunk k) → is_Some (t_event_chunk k');
  ts_routes : routes_ok cfg (t_routes k) → routes_ok cfg (t_routes k')
}.

Lemma wf_heap_store_task h d t k k' :
  wf_heap h d → d_tasks d !! t = Some k → task_same k k' →
  wf_heap h (set_d_tasks (<[t := k']> (d_tasks d)) d).
Proof.
  intros W Hk [Hid Hic Hins Hret Hevc Hro].
  assert (Hlook : ∀ t' k0, <[t := k']> (d_tasks d) !! t' = Some k0 →
    (t' = t ∧ k0 = k') ∨ (t' ≠ t ∧ d_tasks d !! t' = Some k0)).
  { intros t' k0. destruct (decide (t = t')) as [<-|].
    - rewrite lookup_insert_eq. intros [= <-]. by left.
    - rewrite lookup_insert_ne by done. intros ?. by right. }
  assert (Hex : ∀ t' (Q : flb_task → Prop), (Q k → Q k') →
    (∃ k0, d_tasks d !! t' = Some k0 ∧ Q k0) → ∃ k0, <[t := k']> (d_tasks d) !! t' = Some k0 ∧ Q k0).
  { intros t' Q HQ (k0 & Hk0 & HQ0). destruct (decide (t = t')) as [<-|].
    - exists k'. rewrite lookup_insert_eq. split; [done|]. apply HQ. congruence.
    - exists k0. by rewrite lookup_insert_ne. }
  destruct W. constructor; cbn; try done.
  - intros i t'. rewrite wh_in_tasks. split.
    + apply Hex. by rewrite Hins.
    + intros (k0 & [[-> ->]|[? ?]]%Hlook & ? & ?); [exists k|exists k0]; split_and!; try done; congruence.
  - intros t' k0 [[-> ->]|[? Hk0]]%Hlook Ho; [|by apply wh_task].
    destruct (wh_task t k Hk Ho) as (? & ? & c & ck & ? & ?). unfold task_linked. cbn. split_and!; [congruence|by apply Hevc|].
    exists c, ck. rewrite Hic, Hins. done.
  - intros t' k0 [[-> ->]|[? Hk0]]%Hlook; [|by eapply wh_routes]. apply Hro. by eapply wh_routes.
  - intros c ck Hc. destruct (wh_chunk c ck Hc) as [? Ht]. split; [done|]. intros t' Hct.
    destruct (Ht t' Hct) as [? Hk0]. split; [done|]. revert Hk0. apply Hex. by rewrite Hic.
  - intros t' k0 r [[-> ->]|[? Hk0]]%Hlook; [|by eapply wh_retries]. rewrite Hret. by apply wh_retries.
  - intros t' k0 [[-> ->]|[? Hk0]]%Hlook; [|by eapply wh_retries_nodup]. rewrite Hret. by eapply wh_retries_nodup.
  - intros r x Hr. destruct (wh_retry r x Hr) as [? Hk0]. split; [done|]. revert Hk0. apply Hex. by rewrite Hret.
  - intros n Hn. destruct (wh_fresh n Hn) as (Hn1 & ? & ?). split_and!; try done.
    rewrite lookup_insert_ne; [done|]. by intros ->; rewrite Hn1 in Hk.
Qed.

(** The heaps do not depend on the tokens held. *)
Lemma wf_heap_hold h h' d :
  wf_heap h d → h_open h' = h_open h → h_bound h <= h_bound h' → wf_heap h' d.
Proof.
  intros [] Ho Hb. constructor; rewrite ?Ho; try done.
  intros r x Hr. destruct (wh_retry r x Hr) as [[? ?] ?]. split; [|done]. split; [lia|done].
Qed.

(** A change of a task that also touches its [users] moves tokens between the held ones. *)
Lemma wf_store_task C C' U U' R B O P n d t k k' :
  wf (mk_hold C U R B O P n) d → d_tasks d !! t = Some k → task_same k k' →
  t_status k' = t_status k → U' ++ C' ≡ₚ U ++ C →
  (∀ t' k0, d_tasks d !! t' = Some k0 →
     task_count t' C' - task_count t' C = if decide (t' = t) then t_users k' - t_users k else 0) →
  wf (mk_hold C' U' R B O P n) (set_d_tasks (<[t := k']> (d_tasks d)) d).
Proof.
  intros [Wh Wt Wq Wr] Hk Hs Hst Hperm Hcount. constructor.
  - eapply wf_heap_store_task; [|done|done]. by eapply wf_heap_hold.
  - destruct Wt as [Hnd Hlive Hu Hnew]. unfold tokens, counted in *. cbn in *.
    assert (Hp2 : ∀ l, U' ++ (C' ++ l) ≡ₚ U ++ (C ++ l)) by (intros l; by rewrite !app_assoc, Hperm).
    constructor; unfold tokens, counted; cbn.
    + change (NoDup (U' ++ (C' ++ flush_pairs d ++ queue_pairs d) ++ sched_pairs P d)).
      rewrite <- !app_assoc, Hp2. by rewrite <- !app_assoc in Hnd.
    + intros t' o Hin. rewrite Hp2 in Hin. destruct (Hlive t' o Hin) as (? & ? & k0 & Hk0 & Hst0).
      split_and!; try done. destruct (decide (t = t')) as [<-|].
      * exists k'. rewrite lookup_insert_eq. split; [done|]. congruence.
      * exists k0. by rewrite lookup_insert_ne.
    + intros t' k0 Hk0. change (t_users k0 = task_count t' (C' ++ flush_pairs d ++ queue_pairs d)).
      destruct (decide (t = t')) as [<-|Hne].
      * rewrite lookup_insert_eq in Hk0. injection Hk0 as <-. specialize (Hu t k Hk).
        specialize (Hcount t k Hk). rewrite decide_True in Hcount by done.
        rewrite task_count_app in *. lia.
      * rewrite lookup_insert_ne in Hk0 by done. specialize (Hu t' k0 Hk0).
        specialize (Hcount t' k0 Hk0). rewrite decide_False in Hcount by done.
        rewrite task_count_app in *. lia.
    + intros t' k0 Hk0. destruct (decide (t = t')) as [<-|Hne].
      * rewrite lookup_insert_eq in Hk0. injection Hk0 as <-. destruct Hs. rewrite Hst. intros ?.
        rewrite ts_retries0. by apply (Hnew t k).
      * rewrite lookup_insert_ne in Hk0 by done. by apply (Hnew t' k0).
  - destruct Wq as [Hlen Wq]. constructor; [done|]. intros o q Hq.
    assert (Hqo : queue_ok (mk_hold C U R B O P n) d o q) by by apply Wq.
    destruct Hqo. by constructor.
  - destruct Wr. by constructor.
Qed.

Lemma wf_users_inc C U R B O P n d t o k :
  wf (mk_hold C ((t, o) :: U) R B O P n) d → d_tasks d !! t = Some k →
  wf (mk_hold ((t, o) :: C) U R B O P n) (set_d_tasks (<[t := set_t_users (t_users k + 1) k]> (d_tasks d)) d).
Proof.
  intros W Hk. eapply wf_store_task; try done.
  - solve_Permutation.
  - intros t' k0 _. rewrite task_count_cons. cbn. repeat case_decide; congruence || lia.
Qed.

Lemma wf_users_dec C U R B O P n d t o k :
  wf (mk_hold ((t, o) :: C) U R B O P n) d → d_tasks d !! t = Some k →
  wf (mk_hold C ((t, o) :: U) R B O P n) (set_d_tasks (<[t := set_t_users (t_users k - 1) k]> (d_tasks d)) d).
Proof.
  intros W Hk. eapply wf_store_task; try done.
  - solve_Permutation.
  - intros t' k0 _. rewrite task_count_cons. cbn. repeat case_decide; congruence || lia.
Qed.

Lemma wf_neutral h d t k k' :
  wf h d → d_tasks d !! t = Some k → task_same k k' → t_status k' = t_status k →
  t_users k' = t_users k → wf h (set_d_tasks (<[t := k']> (d_tasks d)) d).
Proof.
  destruct h as [C U R B O P n]. intros W Hk Hs Hst Hu. eapply wf_store_task; try done.
  intros t' k0 _. case_decide; lia.
Qed.

(** ** The scheduler changes *)

Lemma NoDup_submseteq_inv {A} (l k : list A) : l ⊆+ k → NoDup k → NoDup l.
Proof. intros [m ->]%submseteq_Permutation. by intros (? & _ & _)%NoDup_app. Qed.

Lemma wf_set_rq C U R B O P n U' R' P' d q :
  wf (mk_hold C U R B O P n) d → rqueue_wf q →
  (e_next (env_of (d_rq d)) <= e_next (env_of q))%nat →
  rqueue_pending q ≡ₚ R'.*2 ++ P' →
  (∀ a r, (a, r) ∈ R' → rqueue_request q a = Some r) →
  (∀ r, r ∈ R'.*2 ++ P' → is_Some (d_retries d !! r)) →
  U' ++ sched_pairs P' d ⊆+ U ++ sched_pairs P d → U' ⊆ U →
  wf (mk_hold C U' R' B O P' n) (set_d_rq q d).
Proof.
  intros [Wh Wt [Hlen Wq] Wr] Hwf He Hp Hreq Hlive Htok HU. constructor.
  - eapply (wf_heap_hold (mk_hold C U R B O P n)); [|done|done]. destruct Wh. constructor; try done.
    intros m Hm. apply wh_fresh. cbn in *. lia.
  - destruct Wt as [Hnd Hl Hu Hnew]. constructor; try done.
    + unfold tokens in *. cbn in *. eapply NoDup_submseteq_inv; [|exact Hnd].
      change (U' ++ counted (mk_hold C U R B O P n) d ++ sched_pairs P' d ⊆+
              U ++ counted (mk_hold C U R B O P n) d ++ sched_pairs P d).
      rewrite (Permutation_app_swap_app U'), (Permutation_app_swap_app U). by apply submseteq_app.
    + intros t o Hin. apply Hl. cbn in *. apply elem_of_app in Hin as [?|?]; apply elem_of_app; [left|by right].
      by apply HU.
  - constructor; [done|]. intros o q0 Hq0. eapply (queue_ok_mono _ d); [|done|done|by eauto].
    destruct (Wq o q0 Hq0). by constructor.
  - by constructor.
Qed.

Lemma sched_pairs_app P1 P2 d : sched_pairs (P1 ++ P2) d = sched_pairs P1 d ++ sched_pairs P2 d.
Proof. apply omap_app. Qed.

Lemma sched_pairs_cons r P d x : d_retries d !! r = Some x →
  sched_pairs (r :: P) d = retry_pair x :: sched_pairs P d.
Proof. intros Hr. unfold sched_pairs. cbn. by rewrite Hr. Qed.

Lemma elem_of_sched_pairs p P d :
  p ∈ sched_pairs P d ↔ ∃ r x, r ∈ P ∧ d_retries d !! r = Some x ∧ retry_pair x = p.
Proof.
  unfold sched_pairs. rewrite list_elem_of_omap. split.
  - intros (r & Hr & (x & Hx & ->)%fmap_Some). eauto.
  - intros (r & x & ? & Hx & <-). exists r. split; [done|]. by rewrite Hx.
Qed.

Lemma sched_pairs_perm P P' d : P ≡ₚ P' → sched_pairs P d ≡ₚ sched_pairs P' d.
Proof. apply omap_Permutation. Qed.

Lemma sched_pairs_unlink r P d : sched_pairs (unlink r P) d ⊆+ sched_pairs P d.
Proof.
  unfold sched_pairs, unlink. induction P as [|r' P IH]; [done|]. rewrite filter_cons. cbn.
  case_decide; cbn; destruct (d_retries d !! r'); cbn; [by apply submseteq_skip|done|by apply submseteq_cons|done].
Qed.

(** Scheduled retries are scheduled once, and the request served is not among them. *)
Lemma wf_sched_nodup C U R B O P n d : wf (mk_hold C U R B O P n) d → NoDup P.
Proof.
  intros [_ [Hnd _ _ _] _ [_ _ _ Hlive]]. unfold tokens in Hnd. cbn in *.
  apply NoDup_app in Hnd as (_ & _ & Hnd). apply NoDup_app in Hnd as (_ & _ & Hnd).
  assert (Hl : ∀ r, r ∈ P → is_Some (d_retries d !! r)) by (intros r ?; apply Hlive, elem_of_app; by right).
  clear Hlive. induction P as [|r P IH]; [constructor|].
  destruct (Hl r) as [x Hx]; [by left|]. rewrite (sched_pairs_cons _ _ _ x Hx) in Hnd.
  apply NoDup_cons in Hnd as [Hn Hnd]. constructor; [|apply IH; [done|intros r' ?; apply Hl; by right]].
  intros Hin. apply Hn. apply elem_of_sched_pairs. eauto.
Qed.

Lemma wf_perm C U R B O P P' n d :
  P ≡ₚ P' → wf (mk_hold C U R B O P n) d → wf (mk_hold C U R B O P' n) d.
Proof.
  intros HP W. pose proof W as [_ _ _ [Hwf Hp Hreq Hlive]].
  eapply (wf_set_rq C U R B O P n U R P' d (d_rq d)) in W.
  - by destruct d.
  - done.
  - done.
  - by rewrite <- HP.
  - done.
  - intros r. rewrite <- HP. apply Hlive.
  - by rewrite (sched_pairs_perm _ _ d HP).
  - done.
Qed.

(** ** Retries change *)

Lemma sched_pairs_retries P d d' :
  (∀ r, r ∈ P → retry_pair <$> d_retries d' !! r = retry_pair <$> d_retries d !! r) →
  sched_pairs P d' = sched_pairs P d.
Proof.
  intros Hr. unfold sched_pairs. induction P as [|r P IH]; [done|]. cbn. rewrite Hr by by left.
  rewrite IH; [done|]. intros r' ?. apply Hr. by right.
Qed.

Lemma queue_pairs_elem d o q e : d_queues d !! o = Some q → e ∈ q_pending q → enq_pair e ∈ queue_pairs d.
Proof.
  intros Hq He. unfold queue_pairs. apply list_elem_of_fmap. exists e. split; [done|].
  apply list_elem_of_bind. exists q. split; [done|]. by eapply list_elem_of_lookup_2.
Qed.

Lemma wf_retry_delete C U R B O P n d r x k :
  wf (mk_hold C U R B O P n) d → d_retries d !! r = Some x → d_tasks d !! rt_parent x = Some k →
  r ∉ R.*2 ++ P → retry_pair x ∉ queue_pairs d →
  wf (mk_hold C U R B O P n)
    (set_d_retries (delete r (d_retries d))
      (set_d_tasks (<[rt_parent x := set_t_retries (unlink r (t_retries k)) k]> (d_tasks d)) d)).
Proof.
  intros [Wh Wt [Hlen Wq] [Hrq Hp Hreq Hlive]] Hr Hk Hnp Hnq. set (k' := set_t_retries _ k).
  assert (Hlook : ∀ t' k0, <[rt_parent x := k']> (d_tasks d) !! t' = Some k0 →
    (t' = rt_parent x ∧ k0 = k') ∨ (t' ≠ rt_parent x ∧ d_tasks d !! t' = Some k0)).
  { intros t' k0. destruct (decide (rt_parent x = t')) as [<-|].
    - rewrite lookup_insert_eq. intros [= <-]. by left.
    - rewrite lookup_insert_ne by done. intros ?. by right. }
  assert (Hex : ∀ t' (Q : flb_task → Prop), (Q k → Q k') →
    (∃ k0, d_tasks d !! t' = Some k0 ∧ Q k0) → ∃ k0, <[rt_parent x := k']> (d_tasks d) !! t' = Some k0 ∧ Q k0).
  { intros t' Q HQ (k0 & Hk0 & HQ0). destruct (decide (rt_parent x = t')) as [<-|].
    - exists k'. rewrite lookup_insert_eq. split; [done|]. apply HQ. congruence.
    - exists k0. by rewrite lookup_insert_ne. }
  constructor.
  - destruct Wh. constructor; cbn; try done.
    + intros i t'. rewrite wh_in_tasks. split; [by apply Hex|].
      intros (k0 & [[-> ->]|[? ?]]%Hlook & ? & ?); [exists k|exists k0]; split_and!; done.
    + intros t' k0 [[-> ->]|[? Hk0]]%Hlook Ho; [exact (wh_task _ k Hk Ho)|exact (wh_task _ k0 Hk0 Ho)].
    + intros t' k0 [[-> ->]|[? Hk0]]%Hlook; [exact (wh_routes _ k Hk)|by eapply wh_routes].
    + intros c ck Hc. destruct (wh_chunk c ck Hc) as [? Ht]. split; [done|]. intros t' Hct.
      destruct (Ht t' Hct) as [? Hk0]. split; [done|]. revert Hk0. by apply Hex.
    + intros t' k0 r' [[-> ->]|[? Hk0]]%Hlook Hin.
      * cbn in Hin. apply elem_of_unlink in Hin as [? Hin]. rewrite lookup_delete_ne by done.
        by eapply wh_retries.
      * destruct (wh_retries t' k0 r' Hk0 Hin) as (x' & Hx' & Hpar). exists x'.
        rewrite lookup_delete_ne; [done|]. intros ->. congruence.
    + intros t' k0 [[-> ->]|[? Hk0]]%Hlook; [|by eapply wh_retries_nodup].
      apply NoDup_unlink. by eapply wh_retries_nodup.
    + intros r' x' Hr'. destruct (decide (r = r')) as [<-|]; [by rewrite lookup_delete_eq in Hr'|].
      rewrite lookup_delete_ne in Hr' by done. destruct (wh_retry r' x' Hr') as [? Hk0].
      split; [done|]. revert Hk0. apply Hex. intros ?. cbn. by apply elem_of_unlink.
    + intros r1 r2 x1 x2 Hr1 Hr2. apply lookup_delete_Some in Hr1 as [_ ?], Hr2 as [_ ?]. by eapply wh_retry_inj.
    + intros m Hm. destruct (wh_fresh m Hm) as (Hn1 & Hn2 & ?). split_and!; try done.
      * rewrite lookup_insert_ne; [done|]. intros Heq. congruence.
      * rewrite lookup_delete_ne; [done|]. intros Heq. congruence.
  - assert (Hsp : sched_pairs P (set_d_retries (delete r (d_retries d)) (set_d_tasks
        (<[rt_parent x := k']> (d_tasks d)) d)) = sched_pairs P d).
    { apply sched_pairs_retries. intros r' ?. cbn. rewrite lookup_delete_ne; [done|].
      intros ->. apply Hnp. apply elem_of_app. by right. }
    destruct Wt as [Hnd Hl Hu Hnew]. constructor; cbn.
    + unfold tokens. cbn. by rewrite Hsp.
    + intros t o Hin. destruct (Hl t o Hin) as (? & ? & Hk0). split_and!; try done. revert Hk0. by apply Hex.
    + intros t' k0 [[-> ->]|[? Hk0]]%Hlook; [exact (Hu _ k Hk)|exact (Hu _ k0 Hk0)].
    + intros t' k0 [[-> ->]|[? Hk0]]%Hlook; [|exact (Hnew t' k0 Hk0)]. cbn. intros Hst.
      destruct (Hnew _ k Hk Hst) as [? ->]. done.
  - constructor; [done|]. intros o q Hq. destruct (Wq o q Hq). constructor; try done.
    intros e r' He Hre. destruct (qo_retry e r' He Hre) as (x' & Hx' & Hpair). exists x'.
    cbn. rewrite lookup_delete_ne; [done|]. intros ->. rewrite Hr in Hx'. injection Hx' as <-.
    apply Hnq. rewrite Hpair. by eapply queue_pairs_elem.
  - constructor; try done. intros r' Hr'. cbn. rewrite lookup_delete_ne; [by apply Hlive|]. by intros ->.
Qed.

(** One more attempt. *)
Lemma wf_retry_store C U R B O P n n' d r x x' :
  wf (mk_hold C U R B O P n) d → d_retries d !! r = Some x → retry_pair x' = retry_pair x →
  retry_ok cfg n' x' → n <= n' →
  wf (mk_hold C U R B O P n') (set_d_retries (<[r := x']> (d_retries d)) d).
Proof.
  intros [Wh Wt [Hlen Wq] [Hrq Hp Hreq Hlive]] Hr Hpair Hok Hn. injection Hpair as Hpar Hins.
  assert (Hlook : ∀ r' y, <[r := x']> (d_retries d) !! r' = Some y →
    (r' = r ∧ y = x') ∨ (r' ≠ r ∧ d_retries d !! r' = Some y)).
  { intros r' y. destruct (decide (r = r')) as [<-|].
    - rewrite lookup_insert_eq. intros [= <-]. by left.
    - rewrite lookup_insert_ne by done. intros ?. by right. }
  assert (Hold : ∀ r' y, d_retries d !! r' = Some y →
    ∃ y', <[r := x']> (d_retries d) !! r' = Some y' ∧ retry_pair y' = retry_pair y).
  { intros r' y Hy. destruct (decide (r = r')) as [<-|].
    - exists x'. rewrite lookup_insert_eq. split; [done|]. unfold retry_pair. congruence.
    - exists y. by rewrite lookup_insert_ne. }
  constructor.
  - destruct Wh. constructor; cbn; try done.
    + intros t k r' Hk Hin. destruct (wh_retries t k r' Hk Hin) as (y & Hy & <-).
      destruct (Hold r' y Hy) as (y' & ? & [= ? ?]). eauto.
    + intros r' y [[-> ->]|[? Hy]]%Hlook.
      * split; [done|]. rewrite Hpar. by apply (wh_retry r x).
      * destruct (wh_retry r' y Hy) as [[? ?] ?]. split; [|done]. split; [cbn in *; lia|done].
    + assert (Hinv : ∀ r' y, <[r := x']> (d_retries d) !! r' = Some y →
        ∃ y', d_retries d !! r' = Some y' ∧ retry_pair y' = retry_pair y).
      { intros r' y [[-> ->]|[? Hy]]%Hlook; [|eauto]. exists x. split; [done|]. unfold retry_pair. congruence. }
      intros r1 r2 x1 x2 (y1 & ? & ?)%Hinv (y2 & ? & ?)%Hinv Heq. eapply wh_retry_inj; [done|done|congruence].
    + intros m Hm. destruct (wh_fresh m Hm) as (? & Hn2 & ?). split_and!; try done.
      rewrite lookup_insert_ne; [done|]. intros Heq. congruence.
  - assert (Hsp : sched_pairs P (set_d_retries (<[r := x']> (d_retries d)) d) = sched_pairs P d).
    { apply sched_pairs_retries. intros r' ?. cbn. destruct (decide (r = r')) as [<-|].
      - rewrite lookup_insert_eq, Hr. cbn. unfold retry_pair. congruence.
      - by rewrite lookup_insert_ne. }
    destruct Wt. constructor; try done. unfold tokens. cbn. by rewrite Hsp.
  - constructor; [done|]. intros o q Hq. eapply (queue_ok_mono _ d); [|done|done|done].
    destruct (Wq o q Hq). by constructor.
  - constructor; try done. intros r' Hr'. cbn. destruct (Hlive r' Hr') as [y Hy].
    destruct (Hold r' y Hy) as (? & ? & _). by eexists.
Qed.

(** A task gets the retry of an output it has none for. *)
Lemma wf_retry_add C U R B O P n d r x t k :
  wf (mk_hold C U R B O P n) d → d_tasks d !! t = Some k → t_status k = FLB_TASK_RUNNING →
  d_retries d !! r = None → (r < e_next (env_of d))%nat → rt_parent x = t → retry_ok cfg n x →
  (∀ r' y, r' ∈ t_retries k → d_retries d !! r' = Some y → rt_o_ins y ≠ rt_o_ins x) →
  wf (mk_hold C U R B O P n)
    (set_d_tasks (<[t := set_t_retries (t_retries k ++ [r]) k]> (d_tasks d))
      (set_d_retries (<[r := x]> (d_retries d)) d)).
Proof.
  intros [Wh Wt [Hlen Wq] [Hrq Hp Hreq Hlive]] Hk Hst Hr Hlt Hpar Hok Hnew. set (k' := set_t_retries _ k).
  assert (Hold : ∀ r' y, d_retries d !! r' = Some y → <[r := x]> (d_retries d) !! r' = Some y).
  { intros r' y Hy. rewrite lookup_insert_ne; [done|]. intros ->. congruence. }
  assert (Hlook : ∀ t' k0, <[t := k']> (d_tasks d) !! t' = Some k0 →
    (t' = t ∧ k0 = k') ∨ (t' ≠ t ∧ d_tasks d !! t' = Some k0)).
  { intros t' k0. destruct (decide (t = t')) as [<-|].
    - rewrite lookup_insert_eq. intros [= <-]. by left.
    - rewrite lookup_insert_ne by done. intros ?. by right. }
  assert (Hex : ∀ t' (Q : flb_task → Prop), (Q k → Q k') →
    (∃ k0, d_tasks d !! t' = Some k0 ∧ Q k0) → ∃ k0, <[t := k']> (d_tasks d) !! t' = Some k0 ∧ Q k0).
  { intros t' Q HQ (k0 & Hk0 & HQ0). destruct (decide (t = t')) as [<-|].
    - exists k'. rewrite lookup_insert_eq. split; [done|]. apply HQ. congruence.
    - exists k0. by rewrite lookup_insert_ne. }
  constructor.
  - destruct Wh. constructor; cbn; try done.
    + intros i t'. rewrite wh_in_tasks. split; [by apply Hex|].
      intros (k0 & [[-> ->]|[? ?]]%Hlook & ? & ?); [exists k|exists k0]; split_and!; done.
    + intros t' k0 [[-> ->]|[? Hk0]]%Hlook Ho; [exact (wh_task _ k Hk Ho)|exact (wh_task _ k0 Hk0 Ho)].
    + intros t' k0 [[-> ->]|[? Hk0]]%Hlook; [exact (wh_routes _ k Hk)|by eapply wh_routes].
    + intros c ck Hc. destruct (wh_chunk c ck Hc) as [? Ht]. split; [done|]. intros t' Hct.
      destruct (Ht t' Hct) as [? Hk0]. split; [done|]. revert Hk0. by apply Hex.
    + intros t' k0 r' [[-> ->]|[? Hk0]]%Hlook Hin.
      * cbn in Hin. apply elem_of_app in Hin as [Hin|Hin%list_elem_of_singleton].
        -- destruct (wh_retries t k r' Hk Hin) as (y & ? & ?). eauto.
        -- subst r'. exists x. by rewrite lookup_insert_eq.
      * destruct (wh_retries t' k0 r' Hk0 Hin) as (y & ? & ?). eauto.
    + intros t' k0 [[-> ->]|[? Hk0]]%Hlook; [|by eapply wh_retries_nodup]. cbn.
      apply NoDup_app. split_and!; [by eapply wh_retries_nodup| |apply NoDup_singleton].
      intros r' Hin ->%list_elem_of_singleton. destruct (wh_retries t k r Hk Hin) as (? & ? & _). congruence.
    + intros r' y Hy. destruct (decide (r = r')) as [<-|].
      * rewrite lookup_insert_eq in Hy. injection Hy as <-. split; [done|]. exists k'.
        rewrite Hpar, lookup_insert_eq. split; [done|]. cbn. apply elem_of_app. right. by left.
      * rewrite lookup_insert_ne in Hy by done. destruct (wh_retry r' y Hy) as [? Hk0]. split; [done|].
        revert Hk0. apply Hex. intros ?. cbn. apply elem_of_app. by left.
    + assert (Hdist : ∀ r' y, d_retries d !! r' = Some y → retry_pair y ≠ retry_pair x).
      { intros r' y Hy [= Hp1 Hp2]. destruct (wh_retry r' y Hy) as (_ & k0 & Hk0 & Hin).
        rewrite Hp1, Hpar, Hk in Hk0. injection Hk0 as <-. by apply (Hnew r' y). }
      intros r1 r2 x1 x2. destruct (decide (r = r1)) as [<-|], (decide (r = r2)) as [<-|].
      * done.
      * rewrite lookup_insert_eq, lookup_insert_ne by done. intros [= <-] Hy Heq. by apply Hdist in Hy.
      * rewrite lookup_insert_eq, lookup_insert_ne by done. intros Hy [= <-] Heq. by apply Hdist in Hy.
      * rewrite !lookup_insert_ne by done. apply wh_retry_inj.
    + intros m Hm. destruct (wh_fresh m Hm) as (Hn1 & Hn2 & ?). split_and!; try done.
      * rewrite lookup_insert_ne; [done|]. intros Heq. congruence.
      * rewrite lookup_insert_ne; [done|]. cbn in *. lia.
  - assert (Hsp : sched_pairs P (set_d_tasks (<[t := k']> (d_tasks d))
                    (set_d_retries (<[r := x]> (d_retries d)) d)) = sched_pairs P d).
    { apply sched_pairs_retries. intros r' Hr'. cbn. rewrite lookup_insert_ne; [done|]. intros ->.
      destruct (Hlive r') as [y Hy]; [apply elem_of_app; by right|]. congruence. }
    destruct Wt as [Hnd Hl Hu Hnw]. constructor; cbn.
    + unfold tokens. cbn. by rewrite Hsp.
    + intros t' o Hin. destruct (Hl t' o Hin) as (? & ? & Hk0). split_and!; try done. revert Hk0. by apply Hex.
    + intros t' k0 [[-> ->]|[? Hk0]]%Hlook; [exact (Hu _ k Hk)|exact (Hu _ k0 Hk0)].
    + intros t' k0 [[-> ->]|[? Hk0]]%Hlook; [by intros []|exact (Hnw t' k0 Hk0)].
  - constructor; [done|]. intros o q Hq. eapply (queue_ok_mono _ d); [|done|done|by eauto].
    destruct (Wq o q Hq). by constructor.
  - constructor; try done. intros r' Hr'. destruct (Hlive r' Hr') as [y Hy]. exists y. by apply Hold.
Qed.

(** ** Queues and flushes change *)

Lemma queue_pairs_store d o q q' : d_queues d !! o = Some q →
  queue_pairs (set_d_queues (<[o := q']> (d_queues d)) d) ++ (enq_pair <$> q_pending q) ≡ₚ
  queue_pairs d ++ (enq_pair <$> q_pending q').
Proof.
  intros Hq. unfold queue_pairs. cbn. apply lookup_lt_Some in Hq as Hlt.
  rewrite (insert_take_drop _ _ _ Hlt). rewrite <- (take_drop_middle _ _ _ Hq) at 3.
  rewrite !bind_app, !bind_cons, !fmap_app. solve_Permutation.
Qed.

(** The most general change: the queue of [o] and the flushes under way, with the tokens accounted
    for.  The other outputs keep their flushes. *)
Lemma wf_set_queue C C' U U' R B B' O P n d o q q' fl :
  wf (mk_hold C U R B O P n) d → d_queues d !! o = Some q →
  let d' := set_d_flushes fl (set_d_queues (<[o := q']> (d_queues d)) d) in
  C' ++ (flush_pair <$> fl) ++ (enq_pair <$> q_pending q') ≡ₚ
    C ++ flush_pairs d ++ (enq_pair <$> q_pending q) → U' = U →
  queue_ok (mk_hold C' U' R B' O P n) d' o q' →
  (∀ o', o' ≠ o → (o' ∈ B' ↔ o' ∈ B) ∧
     filter (λ p, p.2 = o') (flush_pair <$> fl) = filter (λ p, p.2 = o') (flush_pairs d)) →
  wf (mk_hold C' U' R B' O P n) d'.
Proof.
  intros [Wh Wt [Hlen Wq] Wr] Hq d' Hperm -> Hqo Hother.
  assert (Hc : counted (mk_hold C' U R B' O P n) d' ≡ₚ counted (mk_hold C U R B O P n) d).
  { unfold counted. cbn. change (flush_pairs d') with (flush_pair <$> fl).
    apply (Permutation_app_inv_r (enq_pair <$> q_pending q)).
    change (queue_pairs d') with (queue_pairs (set_d_queues (<[o := q']> (d_queues d)) d)).
    rewrite <- !app_assoc, (queue_pairs_store d o q q' Hq).
    rewrite (Permutation_app_comm (queue_pairs d)), (Permutation_app_comm (queue_pairs d)).
    rewrite !app_assoc. f_equiv. by rewrite <- !app_assoc. }
  constructor.
  - eapply (wf_heap_hold (mk_hold C U R B O P n)); [|done|done]. destruct Wh. by constructor.
  - destruct Wt as [Hnd Hl Hu Hnew]. constructor; try done.
    + unfold tokens in *. cbn in *. rewrite Hc. exact Hnd.
    + intros t o' Hin. rewrite Hc in Hin. by apply Hl.
    + intros t k Hk. rewrite (task_count_perm t _ _ Hc). by apply Hu.
  - constructor; [by cbn; rewrite length_insert|]. intros o' q0 Hq0. cbn in Hq0.
    destruct (decide (o = o')) as [<-|Hne].
    { rewrite list_lookup_insert_eq in Hq0 by by eapply lookup_lt_Some. by injection Hq0 as <-. }
    rewrite list_lookup_insert_ne in Hq0 by done. destruct (Hother o') as [HB Hf]; [done|].
    destruct (Wq o' q0 Hq0). constructor; cbn in *; try done; rewrite ?HB; try done;
      unfold flush_pairs in *; cbn; by rewrite Hf.
  - destruct Wr. by constructor.
Qed.

Lemma filter_flush_app o (l : list (nat * nat)) p :
  filter (λ p, p.2 = o) (l ++ [p]) = filter (λ p, p.2 = o) l ++ (if decide (p.2 = o) then [p] else []).
Proof. rewrite filter_app, filter_cons. case_decide; [done|]. by rewrite filter_nil. Qed.

Lemma set_queue_id d o q : d_queues d !! o = Some q → set_d_queues (<[o := q]> (d_queues d)) d = d.
Proof. intros Hq. rewrite list_insert_id by done. by destruct d. Qed.

Lemma wf_queue_at C U R B O P n d o q :
  wf (mk_hold C U R B O P n) d → d_queues d !! o = Some q → queue_ok (mk_hold C U R B O P n) d o q.
Proof. intros [_ _ [_ Wq] _]. apply Wq. Qed.

Lemma wf_is_queue C U R B O P n d o :
  wf (mk_hold C U R B O P n) d → is_output cfg o → ∃ q, d_queues d !! o = Some q.
Proof. intros [_ _ [Hlen _] _] Ho. apply lookup_lt_is_Some. by rewrite Hlen. Qed.

(** An entry joins the queue of a synchronous output. *)
Lemma wf_queue_push C U R B O P n d o q a t retry :
  wf (mk_hold ((t, o) :: C) U R B O P n) d → d_queues d !! o = Some q → is_sync cfg o = true →
  (a < e_next (env_of d))%nat → a ∉ eq_addr <$> q_in_progress q ++ q_pending q →
  (∀ r, retry = Some r → ∃ x, d_retries d !! r = Some x ∧ retry_pair x = (t, o)) →
  (o ∈ B ∨ q_in_progress q ≠ []) →
  wf (mk_hold C U R B O P n)
    (set_d_queues (<[o := set_q_pending (q_pending q ++ [mk_enq a t retry o]) q]> (d_queues d)) d).
Proof.
  intros W Hq Hs Ha Hfresh Hretry Hprog. pose proof (wf_queue_at _ _ _ _ _ _ _ _ _ _ W Hq) as [].
  eapply (wf_set_queue _ C U U R B B O P n d o q
            (set_q_pending (q_pending q ++ [mk_enq a t retry o]) q) (d_flushes d)) in W; [exact W|done| |done| |done].
  - change (flush_pair <$> d_flushes d) with (flush_pairs d). cbn. rewrite fmap_app.
    change (enq_pair <$> [mk_enq a t retry o]) with [(t, o)]. solve_Permutation.
  - constructor; cbn in *; try done.
    + intros e. rewrite app_assoc, elem_of_app. intros [?| ->%list_elem_of_singleton]; [by apply qo_out|done].
    + rewrite app_assoc, fmap_app. apply NoDup_app. split_and!; [done| |apply NoDup_singleton].
      intros a' Hin ->%list_elem_of_singleton. done.
    + intros e r. rewrite elem_of_app. intros [?| ->%list_elem_of_singleton]; [by eapply qo_retry|].
      cbn. apply Hretry.
    + intros Hf. by rewrite Hs in Hf.
    + intros Hs' HB. destruct (qo_flush Hs' HB) as [Hf _]. split; [done|]. intros Hn.
      destruct Hprog; [done|]. by rewrite Hn in *.
Qed.

(** The first entry of a queue that is being moved gets its turn. *)
Lemma wf_queue_pop C U R B O P n d o e rest :
  wf (mk_hold C U R B O P n) d → d_queues d !! o = Some (mk_queue (e :: rest) []) → o ∈ B →
  wf (mk_hold (enq_pair e :: C) U R B O P n) (set_d_queues (<[o := mk_queue rest [e]]> (d_queues d)) d).
Proof.
  intros W Hq HB. pose proof (wf_queue_at _ _ _ _ _ _ _ _ _ _ W Hq) as [].
  eapply (wf_set_queue _ (enq_pair e :: C) U U R B B O P n d o _ (mk_queue rest [e]) (d_flushes d)) in W;
    [exact W|done| |done| |done].
  - change (flush_pair <$> d_flushes d) with (flush_pairs d). cbn. solve_Permutation.
  - constructor; cbn in *; try done.
    + intros e' r He'. apply qo_retry. by right.
    + intros Hf. by destruct (qo_async Hf).
Qed.

Lemma wf_queue_clear C U R B O P n d o q :
  wf (mk_hold C U R B O P n) d → d_queues d !! o = Some q → o ∈ B →
  wf (mk_hold C U R B O P n)
    (set_d_queues (<[o := mk_queue (q_pending q) []]> (d_queues d)) d).
Proof.
  intros W Hq HB. pose proof (wf_queue_at _ _ _ _ _ _ _ _ _ _ W Hq) as [].
  eapply (wf_set_queue _ C U U R B B O P n d o q (mk_queue (q_pending q) []) (d_flushes d)) in W;
    [exact W|done| |done| |done].
  - done.
  - constructor; cbn in *; try done.
    + intros e He. apply qo_out, elem_of_app. by right.
    + rewrite fmap_app in qo_addr. by apply NoDup_app in qo_addr as (_ & _ & ?).
    + intros Hf. by destruct (qo_async Hf).
    + lia.
Qed.

Lemma wf_busy C U R B B' O P n d o q :
  wf (mk_hold C U R B O P n) d → d_queues d !! o = Some q →
  (∀ o', o' ≠ o → o' ∈ B' ↔ o' ∈ B) →
  queue_ok (mk_hold C U R B' O P n) d o q →
  wf (mk_hold C U R B' O P n) d.
Proof.
  intros W Hq HB Hqo. eapply (wf_set_queue _ C U U R B B' O P n d o q q (d_flushes d)) in W.
  - rewrite (set_queue_id d o q Hq) in W. destruct d. exact W.
  - done.
  - done.
  - done.
  - rewrite (set_queue_id d o q Hq). destruct d. exact Hqo.
  - intros o' Ho'. split; [by apply HB|done].
Qed.

Lemma wf_busy_enter C U R B O P n d o :
  wf (mk_hold C U R B O P n) d → is_output cfg o → is_sync cfg o = true →
  filter (λ p, p.2 = o) (flush_pairs d) = [] → wf (mk_hold C U R (o :: B) O P n) d.
Proof.
  intros W Ho Hs Hf. destruct (wf_is_queue _ _ _ _ _ _ _ _ _ W Ho) as [q Hq].
  eapply wf_busy; [done|done| |].
  - intros o' ?. rewrite elem_of_cons. naive_solver.
  - pose proof (wf_queue_at _ _ _ _ _ _ _ _ _ _ W Hq) as []. constructor; cbn in *; try done.
    intros _ Hn. exfalso. apply Hn. by left.
Qed.

Lemma wf_busy_leave C U R B O P n d o :
  wf (mk_hold C U R (o :: B) O P n) d → o ∉ B → d_queues d !! o = Some (mk_queue [] []) →
  wf (mk_hold C U R B O P n) d.
Proof.
  intros W Ho Hq. eapply wf_busy; [done|done| |].
  - intros o' ?. rewrite elem_of_cons. naive_solver.
  - pose proof (wf_queue_at _ _ _ _ _ _ _ _ _ _ W Hq) as []. constructor; cbn in *; try done.
    intros _ _. split; [|done]. by destruct qo_busy as [_ ->]; [by left|].
Qed.

(** A flush gets under way. *)
Lemma wf_flush_add C U R B O P n d t o :
  wf (mk_hold ((t, o) :: C) U R B O P n) d → is_output cfg o → is_sync cfg o = false →
  wf (mk_hold C U R B O P n) (set_d_flushes (d_flushes d ++ [mk_flush t o FlushWaiting]) d).
Proof.
  intros W Ho Hs. destruct (wf_is_queue _ _ _ _ _ _ _ _ _ W Ho) as [q Hq].
  pose proof (wf_queue_at _ _ _ _ _ _ _ _ _ _ W Hq) as [].
  eapply (wf_set_queue _ C U U R B B O P n d o q q (d_flushes d ++ [mk_flush t o FlushWaiting])) in W.
  - rewrite (set_queue_id d o q Hq) in W. exact W.
  - done.
  - rewrite fmap_app. change (flush_pair <$> d_flushes d) with (flush_pairs d).
    change (flush_pair <$> [mk_flush t o FlushWaiting]) with [(t, o)]. solve_Permutation.
  - done.
  - constructor; cbn in *; try done; [by rewrite Hs|]. intros HB. destruct (qo_busy HB). congruence.
  - intros o' ?. split; [done|]. rewrite fmap_app. change (flush_pair <$> [mk_flush t o FlushWaiting]) with [(t, o)].
    rewrite filter_flush_app. cbn. case_decide; [congruence|]. by rewrite app_nil_r.
Qed.

Lemma wf_flush_add_sync C U R B O P n d t o e rest :
  wf (mk_hold ((t, o) :: C) U R (o :: B) O P n) d → o ∉ B →
  d_queues d !! o = Some (mk_queue rest [e]) → enq_pair e = (t, o) →
  wf (mk_hold C U R B O P n) (set_d_flushes (d_flushes d ++ [mk_flush t o FlushWaiting]) d).
Proof.
  intros W HB Hq He. pose proof (wf_queue_at _ _ _ _ _ _ _ _ _ _ W Hq) as [].
  destruct qo_busy as [Hs Hf]; [by left|].
  assert (Hfl : flush_pair <$> d_flushes d ++ [mk_flush t o FlushWaiting] = flush_pairs d ++ [(t, o)])
    by by rewrite fmap_app.
  eapply (wf_set_queue _ C U U R (o :: B) B O P n d o _ (mk_queue rest [e])
            (d_flushes d ++ [mk_flush t o FlushWaiting])) in W.
  - rewrite (set_queue_id d o _ Hq) in W. exact W.
  - done.
  - rewrite Hfl. solve_Permutation.
  - done.
  - constructor; cbn in *; try done.
    intros _ _. change (flush_pairs _) with (flush_pair <$> d_flushes d ++ [mk_flush t o FlushWaiting]).
    rewrite Hfl, filter_flush_app, Hf. cbn. rewrite decide_True by done. by rewrite He.
  - intros o' ?. split; [rewrite elem_of_cons; naive_solver|].
    rewrite Hfl, filter_flush_app. cbn. case_decide; [congruence|]. by rewrite app_nil_r.
Qed.

(** The verdict on a flush arrives: its token passes to the handler. *)
Lemma wf_flush_remove C U R B O P n d l1 f l2 :
  wf (mk_hold C U R B O P n) d → d_flushes d = l1 ++ f :: l2 → of_out f ∉ B →
  wf (mk_hold (flush_pair f :: C) U R (if is_sync cfg (of_out f) then of_out f :: B else B) O P n)
    (set_d_flushes (l1 ++ l2) d).
Proof.
  intros W Hfl HB. set (o := of_out f).
  assert (Hperm : flush_pairs d ≡ₚ flush_pair f :: (flush_pair <$> l1 ++ l2)).
  { unfold flush_pairs. rewrite Hfl, !fmap_app, fmap_cons. solve_Permutation. }
  assert (Ho : is_output cfg o).
  { destruct (wf_t _ _ _ W) as [_ Hl _ _]. destruct (Hl (of_task f) o) as [? _]; [|done].
    apply elem_of_app. right. unfold counted. cbn. apply elem_of_app. right. apply elem_of_app. left.
    rewrite Hperm. by left. }
  destruct (wf_is_queue _ _ _ _ _ _ _ _ _ W Ho) as [q Hq].
  pose proof (wf_queue_at _ _ _ _ _ _ _ _ _ _ W Hq) as [].
  assert (Hrem : is_sync cfg o = true → filter (λ p : nat * nat, p.2 = o) (flush_pair <$> l1 ++ l2) = []).
  { intros Hs. destruct (qo_flush Hs HB) as [Hfil _].
    assert (Hlen : (length (filter (λ p : nat * nat, p.2 = o) (flush_pairs d)) <= 1)%nat)
      by by rewrite <- Hfil, length_fmap.
    rewrite Hperm, filter_cons_True in Hlen by done. cbn in Hlen. apply nil_length_inv. lia. }
  eapply (wf_set_queue _ (flush_pair f :: C) U U R B _ O P n d o q q (l1 ++ l2)) in W.
  - rewrite (set_queue_id d o q Hq) in W. exact W.
  - done.
  - rewrite Hperm. solve_Permutation.
  - done.
  - constructor; cbn in *; try done.
    + intros Hs Hn. exfalso. apply Hn. rewrite Hs. by left.
    + intros HB'. destruct (is_sync cfg o) eqn:Hs; [|done]. split; [done|]. by apply Hrem.
  - intros o' Hne. split.
    + destruct (is_sync cfg o); [|done]. rewrite elem_of_cons. naive_solver.
    + unfold flush_pairs. rewrite Hfl, !fmap_app, fmap_cons, !filter_app, filter_cons_False; [done|].
      intros Heq. by apply Hne.
Qed.

(** A chunk changes, but for what links it to its task. *)
Lemma wf_chunk_update h d c ck ck' :
  wf h d → d_chunks d !! c = Some ck → ck_in ck' = ck_in ck → ck_task ck' = ck_task ck →
  (ck_busy ck' = ck_busy ck ∨ ck_busy ck' = true ∨ ck_task ck = None) → chunk_ok cfg ck' →
  wf h (set_d_chunks (<[c := ck']> (d_chunks d)) d).
Proof.
  intros [Wh Wt [Hlen Wq] Wr] Hc Hi Ht Hb Hok. constructor.
  - assert (Hlook : ∀ c' ck0, <[c := ck']> (d_chunks d) !! c' = Some ck0 →
      (c' = c ∧ ck0 = ck') ∨ (c' ≠ c ∧ d_chunks d !! c' = Some ck0)).
    { intros c' ck0. destruct (decide (c = c')) as [<-|].
      - rewrite lookup_insert_eq. intros [= <-]. by left.
      - rewrite lookup_insert_ne by done. intros ?. by right. }
    destruct Wh. constructor; cbn; try done.
    + intros i c'. rewrite wh_in_chunks. split.
      * intros (ck0 & Hck0 & Hi0). destruct (decide (c = c')) as [<-|].
        -- exists ck'. rewrite lookup_insert_eq. split; [done|]. congruence.
        -- exists ck0. by rewrite lookup_insert_ne.
      * intros (ck0 & [[-> ->]|[? ?]]%Hlook & ?); [exists ck; split; [done|congruence]|eauto].
    + intros t k Hk Ho. destruct (wh_task t k Hk Ho) as (? & ? & c' & ck0 & Hic & Hck0 & Ht0 & Hbusy & Hi0).
      split_and!; try done. destruct (decide (c = c')) as [<-|].
      * exists c, ck'. cbn. rewrite lookup_insert_eq, Ht, Hi. rewrite Hc in Hck0. injection Hck0 as <-.
        split_and!; try done. destruct Hb as [->|[|Hb]]; [done|done|]. congruence.
      * exists c', ck0. cbn. by rewrite lookup_insert_ne.
    + intros c' ck0 [[-> ->]|[? ?]]%Hlook; [|by apply wh_chunk].
      split; [done|]. rewrite Ht. by apply wh_chunk.
    + intros m Hm. destruct (wh_fresh m Hm) as (? & ? & Hn). split_and!; try done.
      rewrite lookup_insert_ne; [done|]. intros Heq. congruence.
  - destruct Wt. by constructor.
  - constructor; [done|]. intros o q Hq. by destruct (Wq o q Hq).
  - destruct Wr. by constructor.
Qed.

(** A chunk gets busy, or is released when no task has it. *)
Lemma wf_chunk_busy h d c ck b :
  wf h d → d_chunks d !! c = Some ck → (b = true ∨ ck_task ck = None) →
  wf h (set_d_chunks (<[c := set_ck_busy b ck]> (d_chunks d)) d).
Proof.
  intros W Hc Hb. eapply wf_chunk_update; [done|done|done|done|by right|].
  destruct (wh_chunk _ _ _ (wf_h _ _ _ W) c ck Hc) as [[] _]. by constructor.
Qed.

(** A chunk without a task goes. *)
Lemma wf_drop_chunk h d c ck :
  wf h d → d_chunks d !! c = Some ck → ck_task ck = None →
  wf h (set_d_chunks (delete c (d_chunks d)) (set_d_in_chunks (unlink_all c (d_in_chunks d)) d)).
Proof.
  intros [Wh Wt [Hlen Wq] Wr] Hc Ht. constructor.
  - destruct Wh. constructor; cbn; try done.
    + intros i c'. rewrite in_list_unlink_all, wh_in_chunks. split.
      * intros (Hne & ck' & ? & ?). exists ck'. by rewrite lookup_delete_ne.
      * intros (ck' & [? ?]%lookup_delete_Some & ?). eauto.
    + by rewrite length_unlink_all.
    + by apply unlink_all_nodup.
    + intros t k Hk Ho. destruct (wh_task t k Hk Ho) as (? & ? & c' & ck' & ? & Hck' & Ht' & ?).
      unfold task_linked. cbn. split_and!; [done|done|]. exists c', ck'. rewrite lookup_delete_ne; [done|].
      intros ->. congruence.
    + intros c' ck' [? ?]%lookup_delete_Some. by apply wh_chunk.
    + intros m Hm. destruct (wh_fresh m Hm) as (? & ? & ?). split_and!; try done.
      apply lookup_delete_None. by right.
  - destruct Wt. by constructor.
  - constructor; [done|]. intros o q Hq. by destruct (Wq o q Hq).
  - destruct Wr. by constructor.
Qed.

(** No token is about a task. *)
Definition no_token (h : hold) (t : nat) (d : delivery S) : Prop :=
  ∀ o, (t, o) ∉ h_free h ++ counted h d.

(** A task and its chunk leave the lists before the task is freed. *)
Definition unlink_task (t : nat) (k : flb_task) (c : nat) (d : delivery S) : delivery S :=
  set_d_chunks (delete c (d_chunks d)) (set_d_in_chunks (unlink_all c (d_in_chunks d))
    (set_d_in_tasks (unlink_all t (d_in_tasks d)) (set_d_tasks (<[t := set_t_routes [] k]> (d_tasks d))
      (set_d_map (<[Z.to_nat (t_id k) := None]> (d_map d)) d)))).

Lemma wf_unlink_task C U R B O P n d t k c :
  wf (mk_hold C U R B O P n) d → d_tasks d !! t = Some k → t ∉ O → t_ic k = Some c →
  no_token (mk_hold C U R B O P n) t d →
  wf (mk_hold C U R B (t :: O) P n) (unlink_task t k c d).
Proof.
  intros [Wh Wt [Hlen Wq] Wr] Hk HO Hic Hno. set (k' := set_t_routes [] k).
  assert (Hlook : ∀ t' k0, <[t := k']> (d_tasks d) !! t' = Some k0 →
    (t' = t ∧ k0 = k') ∨ (t' ≠ t ∧ d_tasks d !! t' = Some k0)).
  { intros t' k0. destruct (decide (t = t')) as [<-|].
    - rewrite lookup_insert_eq. intros [= <-]. by left.
    - rewrite lookup_insert_ne by done. intros ?. by right. }
  destruct (wh_task _ _ _ Wh t k Hk HO) as (Hmap & Hevc & c0 & ck & Hc0 & Hck & Hct & Hbusy & Hins).
  rewrite Hic in Hc0. injection Hc0 as <-.
  assert (Hother : ∀ t' c' ck', d_chunks d !! c' = Some ck' → ck_task ck' = Some t' → t' ≠ t → c' ≠ c).
  { intros t' c' ck' Hck' Ht' Hne ->. congruence. }
  constructor.
  - destruct Wh. constructor; cbn in *.
    + by rewrite zlen_insert.
    + intros i t'. rewrite in_list_unlink_all, wh_in_tasks. setoid_rewrite not_elem_of_cons. split.
      * intros (Hne & k0 & Hk0 & ? & ?). exists k0. by rewrite lookup_insert_ne.
      * intros (k0 & [[-> ->]|[? ?]]%Hlook & ? & ? & ?); [done|]. eauto.
    + by rewrite length_unlink_all.
    + by apply unlink_all_nodup.
    + intros i c'. rewrite in_list_unlink_all, wh_in_chunks. split.
      * intros (Hne & ck' & ? & ?). exists ck'. by rewrite lookup_delete_ne.
      * intros (ck' & [? ?]%lookup_delete_Some & ?). eauto.
    + by rewrite length_unlink_all.
    + by apply unlink_all_nodup.
    + intros t' k0 Hk0 [Hne HO']%not_elem_of_cons. rewrite lookup_insert_ne in Hk0 by done.
      destruct (wh_task t' k0 Hk0 HO') as (Hmap' & ? & c' & ck' & ? & Hck' & Ht' & ? & ?).
      split_and!; try done.
      * cbn. pose proof (zlookup_Some _ _ _ Hmap) as [? _]. rewrite zlookup_insert_ne; [done|lia|].
        intros Heq. rewrite <- Heq, Hmap in Hmap'. injection Hmap' as ->. done.
      * exists c', ck'. cbn. rewrite lookup_delete_ne; [done|]. intros ->. by eapply Hother in Hck'.
    + intros t' k0 [[-> ->]|[? Hk0]]%Hlook; [|by eapply wh_routes]. split; [apply NoDup_nil_2|done].
    + intros c' ck' [Hne Hck']%lookup_delete_Some. destruct (wh_chunk c' ck' Hck') as [? Ht'].
      split; [done|]. intros t' Ht. destruct (Ht' t' Ht) as (HO' & k0 & Hk0 & Hic0).
      assert (t' ≠ t) by (intros ->; congruence). split; [by apply not_elem_of_cons|].
      exists k0. by rewrite lookup_insert_ne.
    + intros t' k0 r [[-> ->]|[? Hk0]]%Hlook; [by apply (wh_retries t k)|by apply wh_retries].
    + intros t' k0 [[-> ->]|[? Hk0]]%Hlook; [by apply (wh_retries_nodup t k)|by eapply wh_retries_nodup].
    + intros r x Hr. destruct (wh_retry r x Hr) as [? (k0 & Hk0 & ?)]. split; [done|].
      destruct (decide (t = rt_parent x)) as [->|].
      * exists k'. rewrite lookup_insert_eq. split; [done|]. cbn. congruence.
      * exists k0. by rewrite lookup_insert_ne.
    + done.
    + intros m Hm. destruct (wh_fresh m Hm) as (? & ? & ?). split_and!; try done.
      * rewrite lookup_insert_ne; [done|]. intros Heq. congruence.
      * apply lookup_delete_None. by right.
  - destruct Wt as [Hnd Hl Hu Hnew]. constructor; cbn; try done.
    + intros t' o Hin. destruct (Hl t' o Hin) as (? & HO' & k0 & Hk0 & ?).
      assert (t' ≠ t) by (intros ->; by apply (Hno o)). split_and!; [done|by apply not_elem_of_cons|].
      exists k0. by rewrite lookup_insert_ne.
    + intros t' k0 [[-> ->]|[? Hk0]]%Hlook; [by apply (Hu t k)|by apply Hu].
    + intros t' k0 [[-> ->]|[? Hk0]]%Hlook; [by apply (Hnew t k)|by apply (Hnew t' k0)].
  - constructor; [done|]. intros o q Hq. by destruct (Wq o q Hq).
  - destruct Wr. by constructor.
Qed.

(** A task that is in no list any more is freed. *)
Lemma wf_free_task C U R B O P n d t k :
  wf (mk_hold C U R B (t :: O) P n) d → d_tasks d !! t = Some k → t ∉ O → t_retries k = [] →
  wf (mk_hold C U R B O P n) (set_d_tasks (delete t (d_tasks d)) d).
Proof.
  intros [Wh Wt [Hlen Wq] Wr] Hk HO Hret. constructor.
  - destruct Wh. constructor; cbn in *; try done.
    + intros i t'. rewrite wh_in_tasks. split.
      * intros (k0 & ? & ? & [? ?]%not_elem_of_cons). exists k0. by rewrite lookup_delete_ne.
      * intros (k0 & [? ?]%lookup_delete_Some & ? & ?). exists k0. by rewrite not_elem_of_cons.
    + intros t' k0 [? ?]%lookup_delete_Some ?. apply (wh_task t' k0); [done|]. by apply not_elem_of_cons.
    + intros t' k0 [? ?]%lookup_delete_Some. by apply (wh_routes t').
    + intros c ck Hc. destruct (wh_chunk c ck Hc) as [? Ht]. split; [done|]. intros t' Ht'.
      destruct (Ht t' Ht') as ([? ?]%not_elem_of_cons & k0 & ? & ?). split; [done|]. exists k0.
      by rewrite lookup_delete_ne.
    + intros t' k0 r [? ?]%lookup_delete_Some. by apply wh_retries.
    + intros t' k0 [? ?]%lookup_delete_Some. by apply (wh_retries_nodup t').
    + intros r x Hr. destruct (wh_retry r x Hr) as [? (k0 & Hk0 & Hin)]. split; [done|]. exists k0.
      rewrite lookup_delete_ne; [done|]. intros Heq. rewrite <- Heq, Hk in Hk0. injection Hk0 as <-.
      rewrite Hret in Hin. by apply not_elem_of_nil in Hin.
    + intros m Hm. destruct (wh_fresh m Hm) as (? & ? & ?). split_and!; try done.
      apply lookup_delete_None. by right.
  - destruct Wt as [Hnd Hl Hu Hnew]. constructor; cbn in *; try done.
    + intros t' o Hin. destruct (Hl t' o Hin) as (? & [? ?]%not_elem_of_cons & k0 & ? & ?). split_and!; try done.
      exists k0. by rewrite lookup_delete_ne.
    + intros t' k0 [? ?]%lookup_delete_Some. by apply Hu.
    + intros t' k0 [? ?]%lookup_delete_Some. by apply (Hnew t' k0).
  - constructor; [done|]. intros o q Hq. by destruct (Wq o q Hq).
  - destruct Wr. by constructor.
Qed.

(** A new task takes a slot of the map. *)
Lemma wf_new_task C U R B O P n d t i id :
  wf (mk_hold C U R B O P n) d → d_tasks d !! t = None → (t < e_next (env_of d))%nat →
  d_map d !! i = Some None →
  wf (mk_hold C U R B (t :: O) P n)
    (set_d_tasks (<[t := mk_task id 0 FLB_TASK_NEW 0 None None 0 [] [] None]> (d_tasks d))
      (set_d_map (<[i := Some t]> (d_map d)) d)).
Proof.
  intros [Wh Wt [Hlen Wq] Wr] Hk Hlt Hi.
  assert (Hlook : ∀ t' k0, <[t := mk_task id 0 FLB_TASK_NEW 0 None None 0 [] [] None]> (d_tasks d) !! t' = Some k0 →
    (t' = t ∧ k0 = mk_task id 0 FLB_TASK_NEW 0 None None 0 [] [] None) ∨ (t' ≠ t ∧ d_tasks d !! t' = Some k0)).
  { intros t' k0. destruct (decide (t = t')) as [<-|].
    - rewrite lookup_insert_eq. intros [= <-]. by left.
    - rewrite lookup_insert_ne by done. intros ?. by right. }
  assert (Hex : ∀ t' (Q : flb_task → Prop), (∃ k0, d_tasks d !! t' = Some k0 ∧ Q k0) →
    t' ≠ t ∧ ∃ k0, <[t := mk_task id 0 FLB_TASK_NEW 0 None None 0 [] [] None]> (d_tasks d) !! t' = Some k0 ∧ Q k0).
  { intros t' Q (k0 & Hk0 & ?). assert (t' ≠ t) by (intros ->; congruence). split; [done|].
    exists k0. by rewrite lookup_insert_ne. }
  constructor.
  - destruct Wh. constructor; cbn in *; try done.
    + by rewrite zlen_insert.
    + intros i' t'. rewrite wh_in_tasks. setoid_rewrite not_elem_of_cons. split.
      * intros [? (k0 & ? & ? & ?)]%(Hex t' (λ k0, t_i_ins k0 = Some i' ∧ t' ∉ O)). by exists k0.
      * intros (k0 & [[-> ->]|[? ?]]%Hlook & ? & ? & ?); [done|]. by exists k0.
    + intros t' k0 [[-> ->]|[? Hk0]]%Hlook [? HO]%not_elem_of_cons; [done|].
      destruct (wh_task t' k0 Hk0 HO) as (Hmap & ? & ?). split_and!; try done. cbn.
      apply zlookup_Some in Hmap as [? Hm]. unfold zlookup. destruct (Z.leb_spec 0 (t_id k0)); [|lia].
      rewrite list_lookup_insert_ne; [done|]. intros ->. congruence.
    + intros t' k0 [[-> ->]|[? Hk0]]%Hlook; [|by apply (wh_routes t')]. split; [apply NoDup_nil_2|done].
    + intros c ck Hc. destruct (wh_chunk c ck Hc) as [? Ht]. split; [done|]. intros t' Ht'.
      destruct (Ht t' Ht') as (? & Hk0). apply Hex in Hk0 as [? ?]. split; [by apply not_elem_of_cons|done].
    + intros t' k0 r [[-> ->]|[? Hk0]]%Hlook; [by intros ?%not_elem_of_nil|by apply wh_retries].
    + intros t' k0 [[-> ->]|[? Hk0]]%Hlook; [apply NoDup_nil_2|by apply (wh_retries_nodup t')].
    + intros r x Hr. destruct (wh_retry r x Hr) as [? Hk0]. split; [done|]. by apply Hex in Hk0 as [_ ?].
    + intros m Hm. destruct (wh_fresh m Hm) as (? & ? & ?). split_and!; try done.
      rewrite lookup_insert_ne; [done|]. cbn in *. lia.
  - destruct Wt as [Hnd Hl Hu Hnew]. constructor; cbn in *; try done.
    + intros t' o Hin. destruct (Hl t' o Hin) as (? & ? & Hk0). apply Hex in Hk0 as [? ?].
      split_and!; try done. by apply not_elem_of_cons.
    + intros t' k0 [[-> ->]|[? Hk0]]%Hlook; [|by apply Hu]. symmetry. apply task_count_other. intros o Hin.
      destruct (Hl t o) as (_ & _ & k1 & ? & _); [apply elem_of_app; by right|]. congruence.
    + intros t' k0 [[-> ->]|[? Hk0]]%Hlook; [done|by apply (Hnew t' k0)].
  - constructor; [done|]. intros o q Hq. by destruct (Wq o q Hq).
  - destruct Wr. by constructor.
Qed.

(** A new task gets its chunk and joins the list of its input. *)
Lemma wf_link_task C U R B O P n d t k k' c ck l :
  wf (mk_hold C U R B (t :: O) P n) d → t ∉ O → d_tasks d !! t = Some k → t_i_ins k = None →
  d_chunks d !! c = Some ck → ck_task ck = None → ck_busy ck = true →
  d_map d !z (t_id k) = Some (Some t) → d_in_tasks d !! ck_in ck = Some l →
  t_id k' = t_id k → t_ic k' = Some c → t_i_ins k' = Some (ck_in ck) → is_Some (t_event_chunk k') →
  t_retries k' = t_retries k → t_routes k' = t_routes k → t_users k' = t_users k →
  t_status k' = t_status k →
  wf (mk_hold C U R B O P n)
    (set_d_in_tasks (<[ck_in ck := l ++ [t]]> (d_in_tasks d))
      (set_d_tasks (<[t := k']> (d_tasks d))
        (set_d_chunks (<[c := set_ck_task (Some t) ck]> (d_chunks d)) d))).
Proof.
  intros [Wh Wt [Hlen Wq] Wr] HO Hk Hkins Hc Hct Hbusy Hmap Hl Hid Hic Hins Hevc Hret Hrou Hus Hst.
  assert (Hlook : ∀ t' k0, <[t := k']> (d_tasks d) !! t' = Some k0 →
    (t' = t ∧ k0 = k') ∨ (t' ≠ t ∧ d_tasks d !! t' = Some k0)).
  { intros t' k0. destruct (decide (t = t')) as [<-|].
    - rewrite lookup_insert_eq. intros [= <-]. by left.
    - rewrite lookup_insert_ne by done. intros ?. by right. }
  constructor.
  - destruct Wh. constructor; cbn in *; try done.
    + intros i t'. rewrite (in_list_link _ _ _ _ _ _ Hl), wh_in_tasks. split.
      * intros [(k0 & Hk0 & ? & [? ?]%not_elem_of_cons)|[-> ->]].
        -- exists k0. by rewrite lookup_insert_ne.
        -- exists k'. by rewrite lookup_insert_eq.
      * intros (k0 & [[-> ->]|[? ?]]%Hlook & Hi & ?).
        -- right. rewrite Hins in Hi. by injection Hi as <-.
        -- left. exists k0. by rewrite not_elem_of_cons.
    + by rewrite length_insert.
    + apply Forall_insert; [done|]. apply NoDup_app. split_and!; [|intros t' Ht' ->%list_elem_of_singleton|apply NoDup_singleton].
      * rewrite Forall_lookup in wh_in_tasks_nodup. by eapply wh_in_tasks_nodup.
      * destruct (proj1 (wh_in_tasks (ck_in ck) t)) as (k0 & Hk0 & Hi & _); [by exists l|]. congruence.
    + intros i c'. rewrite wh_in_chunks. destruct (decide (c = c')) as [<-|].
      * rewrite lookup_insert_eq. split; intros (ck' & Hck' & <-).
        -- exists (set_ck_task (Some t) ck). rewrite Hc in Hck'. by injection Hck' as <-.
        -- injection Hck' as <-. by exists ck.
      * by rewrite lookup_insert_ne.
    + intros t' k0 [[-> ->]|[? Hk0]]%Hlook HO'.
      * split_and!; [by rewrite Hid|done|]. exists c, (set_ck_task (Some t) ck). cbn.
        by rewrite lookup_insert_eq.
      * destruct (wh_task t' k0 Hk0) as (? & ? & c' & ck' & ? & Hck' & Ht' & ?); [by apply not_elem_of_cons|].
        split_and!; try done. exists c', ck'. cbn. rewrite lookup_insert_ne; [done|]. intros ->. congruence.
    + intros t' k0 [[-> ->]|[? Hk0]]%Hlook; [|by apply (wh_routes t')]. rewrite Hrou. by apply (wh_routes t).
    + intros c' ck' Hck'. destruct (decide (c = c')) as [<-|].
      * rewrite lookup_insert_eq in Hck'. injection Hck' as <-. destruct (wh_chunk c ck Hc) as [[] _].
        split; [by constructor|]. cbn. intros t' [= <-]. split; [done|]. exists k'. by rewrite lookup_insert_eq.
      * rewrite lookup_insert_ne in Hck' by done. destruct (wh_chunk c' ck' Hck') as [? Ht].
        split; [done|]. intros t' Ht'. destruct (Ht t' Ht') as ([? ?]%not_elem_of_cons & k0 & ? & ?).
        split; [done|]. exists k0. by rewrite lookup_insert_ne.
    + intros t' k0 r [[-> ->]|[? Hk0]]%Hlook; [rewrite Hret; by apply (wh_retries t k)|by apply wh_retries].
    + intros t' k0 [[-> ->]|[? Hk0]]%Hlook; [rewrite Hret; by apply (wh_retries_nodup t k)|by apply (wh_retries_nodup t')].
    + intros r x Hr. destruct (wh_retry r x Hr) as [? (k0 & Hk0 & ?)]. split; [done|].
      destruct (decide (t = rt_parent x)) as [->|].
      * exists k'. rewrite lookup_insert_eq. split; [done|]. rewrite Hret. congruence.
      * exists k0. by rewrite lookup_insert_ne.
    + intros m Hm. destruct (wh_fresh m Hm) as (? & ? & ?). split_and!; try done.
      * rewrite lookup_insert_ne; [done|]. intros Heq. congruence.
      * rewrite lookup_insert_ne; [done|]. intros Heq. congruence.
  - destruct Wt as [Hnd Hlv Hu Hnew]. constructor; cbn in *; try done.
    + intros t' o Hin. destruct (Hlv t' o Hin) as (? & [? ?]%not_elem_of_cons & k0 & ? & ?). split_and!; try done.
      exists k0. by rewrite lookup_insert_ne.
    + intros t' k0 [[-> ->]|[? Hk0]]%Hlook; [rewrite Hus; by apply (Hu t k)|by apply Hu].
    + intros t' k0 [[-> ->]|[? Hk0]]%Hlook; [rewrite Hst, Hret; by apply (Hnew t k)|by apply (Hnew t' k0)].
  - constructor; [done|]. intros o q Hq. by destruct (Wq o q Hq).
  - destruct Wr. by constructor.
Qed.

(** The task map grows. *)
Lemma wf_map_grow h d :
  wf h d → zlen (d_map d) < FLB_CONFIG_DEFAULT_TASK_MAP_SIZE_LIMIT →
  wf h (set_d_map (d_map d ++ replicate (Z.to_nat FLB_CONFIG_DEFAULT_TASK_MAP_SIZE_GROWTH) None) d).
Proof.
  intros [Wh Wt [Hlen Wq] Wr] Hlt. constructor.
  - destruct Wh. constructor; cbn; try done.
    + assert (Hl : zlen (d_map d ++ replicate (Z.to_nat FLB_CONFIG_DEFAULT_TASK_MAP_SIZE_GROWTH) None) =
        zlen (d_map d) + 256) by (unfold zlen, FLB_CONFIG_DEFAULT_TASK_MAP_SIZE_GROWTH; rewrite length_app, length_replicate; lia).
      rewrite Hl. destruct wh_map as [Hmod Hle].
      unfold FLB_CONFIG_DEFAULT_TASK_MAP_SIZE_GROWTH, FLB_CONFIG_DEFAULT_TASK_MAP_SIZE_LIMIT in *.
      split; [|Z.div_mod_to_equations; lia].
      rewrite <- (Z.mul_1_l 256) at 1. by rewrite Z.mod_add.
    + intros t k Hk Ho. destruct (wh_task t k Hk Ho) as (Hm & ?). split; [|done]. cbn.
      apply zlookup_Some in Hm as [? Hm]. unfold zlookup. destruct (Z.leb_spec 0 (t_id k)); [|lia].
      by apply lookup_app_l_Some.
  - destruct Wt. by constructor.
  - constructor; [done|]. intros o q Hq. by destruct (Wq o q Hq).
  - destruct Wr. by constructor.
Qed.
End steps.

(** ** What the operations on flushes and retries leave alone

    Tasks may lose retries and change their [users], the measures of their event chunk and their
    routes; no task appears or goes. *)
Record task_le (k k' : flb_task) : Prop := {
  tl_id : t_id k' = t_id k;
  tl_ic : t_ic k' = t_ic k;
  tl_i_ins : t_i_ins k' = t_i_ins k;
  tl_status : t_status k' = t_status k;
  tl_routes : t_routes k' = t_routes k;
  tl_retries : t_retries k' ⊆ t_retries k
}.

Record frame {S} (d d' : delivery S) : Prop := {
  fr_map : d_map d' = d_map d;
  fr_chunks : d_chunks d' = d_chunks d;
  fr_in_tasks : d_in_tasks d' = d_in_tasks d;
  fr_in_chunks : d_in_chunks d' = d_in_chunks d;
  fr_tasks t : option_Forall2 task_le (d_tasks d !! t) (d_tasks d' !! t);
  fr_retries r x : d_retries d' !! r = Some x → d_retries d !! r = Some x
}.

#[global] Instance task_le_preorder : PreOrder task_le.
Proof.
  split.
  - intros k. by constructor.
  - intros k1 k2 k3 [] []. constructor; try congruence. by etrans.
Qed.

#[global] Instance frame_preorder {S} : PreOrder (frame (S := S)).
Proof.
  split.
  - intros d. constructor; try done.
  - intros d1 d2 d3 [] []. constructor; try congruence; [|naive_solver]. intros t.
    specialize (fr_tasks0 t). specialize (fr_tasks1 t).
    destruct fr_tasks0; inversion fr_tasks1; subst; constructor. by etrans.
Qed.

Lemma frame_task {S} (d d' : delivery S) t k : frame d d' → d_tasks d !! t = Some k →
  ∃ k', d_tasks d' !! t = Some k' ∧ task_le k k'.
Proof. intros F Hk. pose proof (fr_tasks _ _ F t) as Ht. rewrite Hk in Ht. inversion Ht; eauto. Qed.

Lemma frame_task_inv {S} (d d' : delivery S) t k' : frame d d' → d_tasks d' !! t = Some k' →
  ∃ k, d_tasks d !! t = Some k ∧ task_le k k'.
Proof. intros F Hk. pose proof (fr_tasks _ _ F t) as Ht. rewrite Hk in Ht. inversion Ht; eauto. Qed.

(** One task changes, and perhaps retries go. *)
Lemma frame_store_task {S} (d d' : delivery S) t k k' :
  d_tasks d !! t = Some k → d_tasks d' = <[t := k']> (d_tasks d) → task_le k k' →
  d_map d' = d_map d → d_chunks d' = d_chunks d → d_in_tasks d' = d_in_tasks d →
  d_in_chunks d' = d_in_chunks d →
  (∀ r x, d_retries d' !! r = Some x → d_retries d !! r = Some x) → frame d d'.
Proof.
  intros Hk Ht Hle ? ? ? ? ?. constructor; try done. intros t'. rewrite Ht.
  destruct (decide (t = t')) as [<-|].
  - rewrite lookup_insert_eq, Hk. by constructor.
  - rewrite lookup_insert_ne by done. destruct (d_tasks d !! t'); by constructor.
Qed.

(** Nothing but the scheduler, the queues and the flushes changes. *)
Lemma frame_same {S} (d d' : delivery S) :
  d_map d' = d_map d → d_chunks d' = d_chunks d → d_in_tasks d' = d_in_tasks d →
  d_in_chunks d' = d_in_chunks d → d_tasks d' = d_tasks d → d_retries d' = d_retries d → frame d d'.
Proof.
  intros ? ? ? ? Ht Hr. constructor; try done; [intros t|by rewrite Hr]. rewrite Ht.
  destruct (d_tasks d !! t); by constructor.
Qed.

#[export] Hint Resolve frame_same : agent.

Section run.
Context {S : Type} `{RetryQueue S}.

#[global] Instance evolves_lift {A} (m : M S A) : Evolves m → Evolves (lift m).
Proof.
  intros Hm d a d'. unfold lift. destruct (m (d_rq d)) as [[b q]|] eqn:Hq; [|done].
  intros [= <- <-]. by apply (Hm _ _ _ Hq).
Qed.
#[global] Instance evolves_task_at t : Evolves (task_at (S := S) t).
Proof. unfold task_at. evolve. Qed.
#[global] Instance evolves_retry_at t : Evolves (retry_at (S := S) t).
Proof. unfold retry_at. evolve. Qed.
#[global] Instance evolves_chunk_at t : Evolves (chunk_at (S := S) t).
Proof. unfold chunk_at. evolve. Qed.
#[global] Instance evolves_queue_at t : Evolves (queue_at (S := S) t).
Proof. unfold queue_at. evolve. Qed.
#[global] Instance evolves_deref {A} (o : option A) : Evolves (deref (S := delivery S) o).
Proof. intros d a d'. unfold deref. destruct o; [|done]. by intros [= <- <-]. Qed.

Lemma task_at_run t k (d : delivery S) : d_tasks d !! t = Some k → task_at t d = Some (k, d).
Proof. unfold task_at. by intros ->. Qed.
Lemma retry_at_run t k (d : delivery S) : d_retries d !! t = Some k → retry_at t d = Some (k, d).
Proof. unfold retry_at. by intros ->. Qed.
Lemma chunk_at_run t k (d : delivery S) : d_chunks d !! t = Some k → chunk_at t d = Some (k, d).
Proof. unfold chunk_at. by intros ->. Qed.
Lemma queue_at_run t k (d : delivery S) : d_queues d !! t = Some k → queue_at t d = Some (k, d).
Proof. unfold queue_at. by intros ->. Qed.
End run.

Create HintDb delivery.
#[export] Hint Unfold store_task store_retry store_chunk store_queue flb_input_chunk_set_up
  flb_input_chunk_set_up_down flb_input_chunk_down flb_input_chunk_flush flb_input_chunk_release_lock
  flb_input_chunk_destroy flb_input_chunk_set_limits flb_config_task_map_resize
  flb_config_task_map_grow link_at : delivery.
