(* ===== verification/Task.v ===== *)
(** * Tasks ([src/flb_task.c], [include/fluent-bit/flb_task.h])

    A task takes one chunk to the outputs it is routed to; a retry belongs to a task and an output. *)
From S2P Require Import Prelude Env RetryQueue Router RoutesMask Delivery Invariant.

(** ** Routes of a task (inline functions of the header) *)

Definition flb_task_get_active_route_count (k : flb_task) : Z :=
  zlen (filter (λ r, r_status r = FLB_TASK_ROUTE_ACTIVE) (t_routes k)).

Definition find_route (o : nat) (l : list flb_task_route) : option flb_task_route :=
  List.find (λ r, bool_decide (r_out r = o)) l.

Definition flb_task_get_route_status (k : flb_task) (o : nat) : Z :=
  match find_route o (t_routes k) with Some r => r_status r | None => FLB_TASK_ROUTE_INACTIVE end.

(** The setters change the first route to the output. *)
Fixpoint update_route (o : nat) (f : flb_task_route → flb_task_route) (l : list flb_task_route)
    : list flb_task_route :=
  match l with
  | [] => []
  | r :: l' => if bool_decide (r_out r = o) then f r :: l' else r :: update_route o f l'
  end.

Definition flb_task_set_route_status (k : flb_task) (o : nat) (new_status : Z) : flb_task :=
  set_t_routes (update_route o (set_r_status new_status) (t_routes k)) k.
Definition flb_task_set_route_metrics (k : flb_task) (o : nat) (records bytes : Z) : flb_task :=
  set_t_routes (update_route o (λ r, set_r_bytes bytes (set_r_records records r)) (t_routes k)) k.
Definition flb_task_get_route_metrics (k : flb_task) (o : nat) : option (Z * Z) :=
  match find_route o (t_routes k) with Some r => Some (r_records r, r_bytes r) | None => None end.
Definition flb_task_activate_route (k : flb_task) (o : nat) : flb_task :=
  flb_task_set_route_status k o FLB_TASK_ROUTE_ACTIVE.
Definition flb_task_deactivate_route (k : flb_task) (o : nat) : flb_task :=
  flb_task_set_route_status k o FLB_TASK_ROUTE_INACTIVE.
Definition flb_task_drop_route (k : flb_task) (o : nat) : flb_task :=
  flb_task_set_route_status k o FLB_TASK_ROUTE_DROPPED.

(** ** Which outputs a chunk may go to *)

(** Should a chunk take this path: [route_condition] is the condition of a route, evaluated by
    [src/flb_router_condition.c] on the content of the chunk. *)
Definition flb_router_path_should_route (route_condition : flb_event_chunk → nat → bool)
    (evc : flb_event_chunk) (path : flb_router_path) : bool :=
  match rp_route path with None => true | Some r => route_condition evc r end.

Definition flb_router_match_type (in_event_type : Z) (o : flb_output_instance) : bool :=
  let has bit := negb (Z.land (o_event_type o) bit =? 0) in
  if in_event_type =? 0 then has 1             (* FLB_INPUT_LOGS, FLB_OUTPUT_LOGS *)
  else if in_event_type =? 1 then has 2        (* metrics *)
  else if in_event_type =? 2 then has 4        (* traces *)
  else if in_event_type =? 4 then has 16       (* profiles *)
  else if in_event_type =? 3 then has 8        (* blobs *)
  else true.

Section operations.
Context {S : Type} `{RetryQueue S}.
Context (cfg : flb_config) (route_condition : flb_event_chunk → nat → bool).

Definition task_collect_output_references (route : flb_chunk_direct_route)
    : M (delivery S) (Z * list nat) :=
  match direct_matches (cf_outputs cfg) route with
  | [] => mret (0, [])
  | matches => p ← malloc; mret (match p with None => (-1, []) | Some _ => (0, matches) end)
  end.

(** ** Task ids *)

Fixpoint free_slot (i : nat) (l : list (option nat)) : option nat :=
  match l with
  | [] => None
  | None :: _ => Some i
  | Some _ :: l' => free_slot (Datatypes.S i) l'
  end.

Definition map_get_task_id : M (delivery S) Z :=
  m ← gets d_map;
  match free_slot 0 m with
  | Some i => mret (Z.of_nat i)
  | None =>
      result ← flb_config_task_map_grow;
      if result =? 0 then mret (zlen m) else mret (-1)
  end.

Definition flb_task_map_get_task_id : M (delivery S) Z := map_get_task_id.

Definition map_set_task_id (id : Z) (t : option nat) : M (delivery S) unit :=
  m ← gets d_map;
  m' ← deref (zinsert id t m);
  modify (set_d_map m').
Definition map_free_task_id (id : Z) : M (delivery S) unit := map_set_task_id id None.

(** ** Retries *)

Definition flb_task_retry_destroy (r : nat) : M (delivery S) unit :=
  x ← retry_at r;
  _ ← task_at (rt_parent x);
  lift (rqueue_invalidate r) ≫= λ _,
  k ← task_at (rt_parent x);
  store_task (rt_parent x) (set_t_retries (unlink r (t_retries k)) k) ≫= λ _,
  modify (λ d, set_d_retries (delete r (d_retries d)) d).

Definition flb_task_destroy (t : nat) (del : bool) : M (delivery S) unit :=
  k ← task_at t;
  map_free_task_id (t_id k) ≫= λ _,
  store_task t (set_t_routes [] k) ≫= λ _,
  modify (λ d, set_d_in_tasks (unlink_all t (d_in_tasks d)) d) ≫= λ _,
  (match t_ic k with None => mret tt | Some c => flb_input_chunk_destroy c del ≫= λ _, mret tt end) ≫= λ _,
  foreach (t_retries k) flb_task_retry_destroy ≫= λ _,
  (match t_i_ins k with None => mret tt | Some i => flb_input_chunk_set_limits i end) ≫= λ _,
  modify (λ d, set_d_tasks (delete t (d_tasks d)) d).

Definition flb_task_users_release (t : nat) : M (delivery S) unit :=
  k ← task_at t;
  if (t_users k =? 0) && bool_decide (t_retries k = []) then flb_task_destroy t true else mret tt.

Definition flb_task_users_inc (t : nat) : M (delivery S) unit :=
  k ← task_at t; store_task t (set_t_users (t_users k + 1) k).

Definition flb_task_users_dec (t : nat) (release_check : bool) : M (delivery S) unit :=
  k ← task_at t;
  store_task t (set_t_users (t_users k - 1) k) ≫= λ _,
  when release_check (flb_task_users_release t).

Definition flb_task_retry_reschedule (r : nat) : M (delivery S) Z :=
  x ← retry_at r;
  _ ← task_at (rt_parent x);
  seconds ← lift (rqueue_create (cf_sched cfg) r (rt_attempts x));
  if seconds =? -1 then
    flb_task_retry_destroy r ≫= λ _,
    k ← task_at (rt_parent x);
    (if (t_users k =? 0) && bool_decide (t_retries k = [])
     then flb_task_destroy (rt_parent x) true else mret tt) ≫= λ _,
    mret (-1)
  else mret 0.

(** The search for the retry of an output among those of a task. *)
Fixpoint find_retry (o : nat) (l : list nat) : M (delivery S) (option (nat * flb_task_retry)) :=
  match l with
  | [] => mret None
  | r :: l' =>
      x ← retry_at r;
      if bool_decide (rt_o_ins x = o) then mret (Some (r, x)) else find_retry o l'
  end.

(** The tail of [flb_task_retry_create]: memory restrictions. *)
Definition retry_put_down (t : nat) : M (delivery S) unit :=
  k ← task_at t;
  c ← deref (t_ic k);
  when (t_users k <=? 1) (flb_input_chunk_set_up_down c) ≫= λ _,
  when (length (t_routes k) =? 1)%nat (flb_input_chunk_down c).

Definition flb_task_retry_create (t o : nat) : M (delivery S) (option nat) :=
  k ← task_at t;
  ins ← deref (cf_outputs cfg !! o);
  found ← find_retry o (t_retries k);
  match found with
  | Some (r, x) =>
      if (o_retry_limit ins <=? rt_attempts x) && (0 <=? o_retry_limit ins) then
        flb_task_retry_destroy r ≫= λ _, mret None
      else if rt_attempts x =? INT_MAX then ub       (* signed overflow *)
      else
        store_retry r (set_rt_attempts (rt_attempts x + 1) x) ≫= λ _,
        retry_put_down t ≫= λ _, mret (Some r)
  | None =>
      p ← malloc;
      match p with
      | None => mret None
      | Some r =>
          store_retry r (mk_retry 1 o t) ≫= λ _,
          k ← task_at t;
          store_task t (set_t_retries (t_retries k ++ [r]) k) ≫= λ _,
          retry_put_down t ≫= λ _, mret (Some r)
      end
  end.

Definition flb_task_retry_count (t o : nat) : M (delivery S) Z :=
  k ← task_at t;
  found ← find_retry o (t_retries k);
  mret (match found with Some (_, x) => rt_attempts x | None => -1 end).

Definition flb_task_retry_clean (t o : nat) : M (delivery S) Z :=
  k ← task_at t;
  found ← find_retry o (t_retries k);
  match found with
  | Some (r, _) => flb_task_retry_destroy r ≫= λ _, mret 0
  | None => mret (-1)
  end.

(** ** Creation *)

Definition task_alloc : M (delivery S) (option nat) :=
  p ← malloc;
  match p with
  | None => mret None
  | Some t =>
      task_id ← map_get_task_id;
      if task_id =? -1 then mret None
      else
        map_set_task_id task_id (Some t) ≫= λ _,
        store_task t (mk_task task_id 0 FLB_TASK_NEW 0 None None 0 [] [] None) ≫= λ _,
        mret (Some t)
  end.

(** [flb_event_chunk_create] of [src/flb_event.c]: the object and a copy of the tag. *)
Definition flb_event_chunk_create (type total_events size : Z)
    : M (delivery S) (option flb_event_chunk) :=
  p ← malloc;
  match p with
  | None => mret None
  | Some _ =>
      q ← malloc;
      mret (match q with None => None | Some _ => Some (mk_evc type total_events size) end)
  end.

(** Allocate a route and link it; [false] when there is no memory. *)
Definition add_route (t : nat) (evc : flb_event_chunk) (o : nat) : M (delivery S) bool :=
  p ← malloc;
  match p with
  | None => mret false
  | Some _ =>
      k ← task_at t;
      store_task t (set_t_routes (t_routes k ++
        [mk_route FLB_TASK_ROUTE_INACTIVE (evc_total_events evc) (evc_size evc) o]) k) ≫= λ _,
      mret true
  end.

(** The first pass over the stored routes: [stored_routes_valid]. *)
Fixpoint check_direct (routes : list flb_chunk_direct_route) : M (delivery S) bool :=
  match routes with
  | [] => mret true
  | route :: routes' =>
      res ← task_collect_output_references route;
      if negb (fst res =? 0) || bool_decide (snd res = []) then mret false
      else check_direct routes'
  end.

(** Routes to all of a list; stops, with [false], at the first failure. *)
Fixpoint add_all (t : nat) (evc : flb_event_chunk) (outs : list nat) (count : Z)
    : M (delivery S) (bool * Z) :=
  match outs with
  | [] => mret (true, count)
  | o :: outs' =>
      ok ← add_route t evc o;
      if (ok : bool) then add_all t evc outs' (count + 1) else mret (false, count)
  end.

(** The second pass. *)
Fixpoint add_direct (t : nat) (evc : flb_event_chunk) (routes : list flb_chunk_direct_route)
    (count : Z) : M (delivery S) (bool * Z) :=
  match routes with
  | [] => mret (true, count)
  | route :: routes' =>
      res ← task_collect_output_references route;
      if negb (fst res =? 0) || bool_decide (snd res = []) then add_direct t evc routes' count
      else
        r ← add_all t evc (snd res) count;
        match r with
        | (true, n) => add_direct t evc routes' n
        | (false, n) => mret (false, n)
        end
  end.

Definition mask_bit (mask : option (list Z)) (o : flb_output_instance) : M (delivery S) Z :=
  deref (flb_routes_mask_get_bit (default [] mask) (o_id o) (cf_router cfg)).

(** The loop over [i_ins->routes_direct]. *)
Fixpoint add_paths (t : nat) (evc : flb_event_chunk) (mask : option (list Z))
    (paths : list flb_router_path) (count : Z) : M (delivery S) (bool * Z) :=
  match paths with
  | [] => mret (true, count)
  | path :: paths' =>
      if negb (flb_router_path_should_route route_condition evc path) then
        add_paths t evc mask paths' count
      else
        ins ← deref (cf_outputs cfg !! rp_ins path);
        bit ← (match mask with None => mret 1 | Some _ => mask_bit mask ins end);
        if bit =? 0 then add_paths t evc mask paths' count
        else
          ok ← add_route t evc (rp_ins path);
          if (ok : bool) then add_paths t evc mask paths' (count + 1) else mret (false, count)
  end.

(** The loop over [config->outputs]; a route that cannot be allocated is skipped. *)
Fixpoint add_masked (t : nat) (evc : flb_event_chunk) (mask : option (list Z)) (n : nat)
    (outs : list flb_output_instance) (count : Z) : M (delivery S) Z :=
  match outs with
  | [] => mret count
  | o :: outs' =>
      if negb (flb_router_match_type (evc_type evc) o) then
        add_masked t evc mask (Datatypes.S n) outs' count
      else
        bit ← mask_bit mask o;
        if bit =? 0 then add_masked t evc mask (Datatypes.S n) outs' count
        else
          ok ← add_route t evc n;
          add_masked t evc mask (Datatypes.S n) outs' (if (ok : bool) then count + 1 else count)
  end.

(** From the test of the stored routes to the end of [flb_task_create]. *)
Definition task_create_routes (t c i_ins : nat) (evc : flb_event_chunk)
    : M (delivery S) (option nat) :=
  ck ← chunk_at c;
  let drop := flb_task_destroy t true ≫= λ _, mret None in
  stored ← (match ck_direct ck with
            | Some (0, ((_ :: _) as routes)) =>
                valid ← check_direct routes;
                if (valid : bool) then add_direct t evc routes 0 else mret (true, 0)
            | _ => mret (true, 0)
            end);
  if negb (fst stored) then drop
  else if 0 <? snd stored then mret (Some t)
  else
    ins ← deref (cf_inputs cfg !! i_ins);
    match i_routes_direct ins with
    | _ :: _ =>
        r ← add_paths t evc (ck_routes_mask ck) (i_routes_direct ins) 0;
        if negb (fst r) || (snd r =? 0) then drop else mret (Some t)
    | [] =>
        count ← add_masked t evc (ck_routes_mask ck) 0 (cf_outputs cfg) 0;
        if count =? 0 then emit (Unmatched c (ck_total_records ck)) ≫= λ _, drop
        else mret (Some t)
    end.

(** [flb_task_create]: the task or NULL, and [*err]. *)
Definition flb_task_create (ref_id size : Z) (i_ins c : nat) : M (delivery S) (option nat * bool) :=
  p ← task_alloc;
  match p with
  | None => mret (None, true)
  | Some t =>
      ck ← chunk_at c;
      evc ← flb_event_chunk_create (ck_event_type ck) (ck_total_records ck) size;
      match evc with
      | None => modify (λ d, set_d_tasks (delete t (d_tasks d)) d) ≫= λ _, mret (None, true)
      | Some evc =>
          store_chunk c (set_ck_task (Some t) ck) ≫= λ _,
          k ← task_at t;
          store_task t (mk_task (t_id k) ref_id (t_status k) (t_users k) (Some evc) (Some c)
                          (ck_total_records ck) (t_routes k) (t_retries k) (Some i_ins)) ≫= λ _,
          ls ← gets d_in_tasks;
          ls' ← link_at i_ins t ls;
          modify (set_d_in_tasks ls') ≫= λ _,
          r ← task_create_routes t c i_ins evc;
          mret (r, false)
      end
  end.

(** ** Reports and queues *)

Definition task_is_running (k : flb_task) : bool :=
  (0 <? t_users k) || negb (bool_decide (t_retries k = [])).

Fixpoint count_running (l : list nat) (count : Z) : M (delivery S) Z :=
  match l with
  | [] => mret count
  | t :: l' => k ← task_at t; count_running l' (if task_is_running k then count + 1 else count)
  end.

Fixpoint count_inputs (ls : list (list nat)) (count : Z) : M (delivery S) Z :=
  match ls with
  | [] => mret count
  | l :: ls' => c ← count_running l count; count_inputs ls' c
  end.

Definition flb_task_running_count : M (delivery S) Z := ls ← gets d_in_tasks; count_inputs ls 0.

Definition flb_task_queue_create : M (delivery S) (option flb_task_queue) :=
  p ← malloc; mret (match p with None => None | Some _ => Some (mk_queue [] []) end).

(** Every entry is unlinked and freed. *)
Definition flb_task_queue_destroy (o : nat) : M (delivery S) unit :=
  _ ← queue_at o; store_queue o (mk_queue [] []).
End operations.

(** ** Specifications *)

Section specs.
Context {S : Type} `{RetryQueue S} (cfg : flb_config) (Hcfg : config_ok cfg).
Context (route_condition : flb_event_chunk → nat → bool).
Implicit Types (d : delivery S).

Lemma filter_unlink (r : nat) (R : list (nat * nat)) : (filter (λ p, p.2 ≠ r) R).*2 = unlink r R.*2.
Proof.
  unfold unlink. induction R as [|[a r'] R IH]; [done|]. rewrite filter_cons, fmap_cons, filter_cons. cbn.
  case_decide; cbn; by rewrite IH.
Qed.

Lemma retry_destroy_spec C U R B O P n d r x k :
  wf cfg (mk_hold C U R B O P n) d → d_retries d !! r = Some x → d_tasks d !! rt_parent x = Some k →
  retry_pair x ∉ queue_pairs d → NoDup (R.*2 ++ P) →
  ∃ d', flb_task_retry_destroy r d = Some (tt, d') ∧
    wf cfg (mk_hold C U (filter (λ p, p.2 ≠ r) R) B O (unlink r P) n) d' ∧ frame d d' ∧
    d_retries d' = delete r (d_retries d) ∧
    d_tasks d' = <[rt_parent x := set_t_retries (unlink r (t_retries k)) k]> (d_tasks d) ∧
    d_queues d' = d_queues d ∧ d_flushes d' = d_flushes d.
Proof.
  intros W Hr Hk Hnq Hnd. pose proof W as [_ _ _ [Hrq Hp Hreq Hlive]]. cbn in *.
  assert (Hinv : ∃ v q, rqueue_invalidate r (d_rq d) = Some (v, q) ∧ rqueue_wf q ∧
    (∀ a r', r' ≠ r → rqueue_request (d_rq d) a = Some r' → rqueue_request q a = Some r') ∧
    rqueue_pending q ≡ₚ unlink r (R.*2 ++ P)).
  { destruct (rqueue_invalidate_law r (d_rq d) Hrq) as [Hout Hin].
    destruct (decide (r ∈ rqueue_pending (d_rq d))) as [Hi|Hn].
    - destruct (Hin Hi) as (q & ? & ? & ? & Hpq). exists 0, q. split_and!; try done.
      apply (Permutation_cons_inv (a := r)). rewrite <- Hpq, Hp. apply unlink_Permutation; [done|].
      by rewrite <- Hp.
    - exists (-1), (d_rq d). split_and!; [by apply Hout|done|done|]. rewrite unlink_notin; [done|].
      by rewrite <- Hp. }
  destruct Hinv as (v & q & Hrun & Hq & Hreq' & Hpq).
  pose proof (evolves (m := rqueue_invalidate r) _ _ _ Hrun) as [He _ _ _ _].
  rewrite unlink_app, <- filter_unlink in Hpq.
  assert (W1 : wf cfg (mk_hold C U (filter (λ p, p.2 ≠ r) R) B O (unlink r P) n) (set_d_rq q d)).
  { eapply wf_set_rq; [done|done|done|done| | | |done].
    - intros a r' [Hne Hin]%list_elem_of_filter. apply Hreq'; [done|]. by apply Hreq.
    - intros r' Hin. apply Hlive. rewrite filter_unlink, <- unlink_app in Hin.
      by apply elem_of_unlink in Hin as [_ ?].
    - apply submseteq_app; [done|apply sched_pairs_unlink]. }
  eapply wf_retry_delete in W1; [|done|done| |done].
  2: { rewrite filter_unlink, <- unlink_app, elem_of_unlink. by intros []. }
  unfold flb_task_retry_destroy, store_task, lift. mrun.
  rewrite (retry_at_run r x d Hr), (task_at_run _ k d Hk), Hrun. cbn.
  rewrite (task_at_run _ k) by done. eexists. split; [done|]. split_and!; try done.
  eapply frame_store_task; try done.
  - constructor; try done. cbn. unfold unlink. intros y Hy. by apply list_elem_of_filter in Hy as [_ ?].
  - cbn. intros r' y Hy. by apply lookup_delete_Some in Hy as [_ ?].
Qed.

Lemma retry_parent C U R B O P n d t k r :
  wf cfg (mk_hold C U R B O P n) d → d_tasks d !! t = Some k → r ∈ t_retries k →
  ∃ x, d_retries d !! r = Some x ∧ rt_parent x = t.
Proof. intros [Wh _ _ _]. apply (wh_retries _ _ _ Wh). Qed.

(** All the retries of a task that is in nobody's hands go. *)
Lemma retries_destroy_loop C U B O n t l : ∀ P d k,
  wf cfg (mk_hold C U [] B O P n) d → d_tasks d !! t = Some k → t_retries k = l →
  (∀ o, (t, o) ∉ queue_pairs d) →
  ∃ d' P', foreach l flb_task_retry_destroy d = Some (tt, d') ∧
    wf cfg (mk_hold C U [] B O P' n) d' ∧ (∀ r, r ∈ P' ↔ r ∈ P ∧ r ∉ l) ∧
    d_tasks d' = <[t := set_t_retries [] k]> (d_tasks d) ∧
    (∀ r, d_retries d' !! r = if decide (r ∈ l) then None else d_retries d !! r) ∧
    frame d d' ∧ d_queues d' = d_queues d ∧ d_flushes d' = d_flushes d.
Proof.
  induction l as [|r l IH]; intros P d k W Hk Hl Hnq; cbn.
  { exists d, P. split_and!; try done.
    - intros r. split; [|by intros [? _]]. intros ?. split; [done|apply not_elem_of_nil].
    - rewrite insert_id; [done|]. rewrite Hk. f_equal. destruct k. cbn in *. by rewrite Hl. }
  destruct (retry_parent _ _ _ _ _ _ _ _ t k r W Hk) as (x & Hx & Hpar); [rewrite Hl; by left|].
  pose proof (wh_retries_nodup _ _ _ (wf_h _ _ _ W) t k Hk) as Hnd.
  rewrite Hl in Hnd. apply NoDup_cons in Hnd as [Hrl Hnd].
  destruct (retry_destroy_spec C U [] B O P n d r x k) as (d1 & Hrun & W1 & F1 & Hr1 & Ht1 & Hq1 & Hf1);
    [done|done|by rewrite Hpar| | |].
  { unfold retry_pair. rewrite Hpar. apply Hnq. }
  { by eapply wf_sched_nodup. }
  rewrite Hpar in Ht1. cbn in W1.
  destruct (IH (unlink r P) d1 (set_t_retries (unlink r (t_retries k)) k))
    as (d2 & P2 & Hrun2 & W2 & HP2 & Ht2 & Hr2 & F2 & Hq2 & Hf2); [done| | | |].
  { by rewrite Ht1, lookup_insert_eq. }
  { cbn. rewrite Hl. unfold unlink. rewrite filter_cons_False by (intros Hn; by apply Hn).
    fold (unlink r l). by apply unlink_notin. }
  { intros o. unfold queue_pairs. rewrite Hq1. apply Hnq. }
  exists d2, P2. unfold mbind, M_bind. rewrite Hrun, Hrun2. split_and!; try done.
  - intros r'. rewrite HP2, elem_of_unlink, not_elem_of_cons. tauto.
  - rewrite Ht2, Ht1. cbn. by rewrite insert_insert_eq.
  - intros r'. rewrite Hr2, Hr1. destruct (decide (r' = r)) as [->|Hne].
    + rewrite lookup_delete_eq. repeat case_decide; set_solver.
    + rewrite lookup_delete_ne by done. repeat case_decide; set_solver.
  - by etrans.
  - by rewrite Hq2.
  - by rewrite Hf2.
Qed.

(** The state after a task is destroyed. *)
Record destroyed (t : nat) (k : flb_task) (d d' : delivery S) : Prop := {
  de_tasks : d_tasks d' = delete t (d_tasks d);
  de_retries r : d_retries d' !! r = if decide (r ∈ t_retries k) then None else d_retries d !! r;
  de_chunks : ∀ c, t_ic k = Some c → d_chunks d' = delete c (d_chunks d);
  de_in_tasks : d_in_tasks d' = unlink_all t (d_in_tasks d);
  de_in_chunks : ∀ c, t_ic k = Some c → d_in_chunks d' = unlink_all c (d_in_chunks d);
  de_queues : d_queues d' = d_queues d;
  de_flushes : d_flushes d' = d_flushes d;
  de_map : ∀ id, id ≠ t_id k → d_map d' !z id = d_map d !z id;
  de_slot : d_map d' !z (t_id k) = Some None
}.

Lemma emit_run x (d : delivery S) : emit x d = Some (tt, set_env (set_e_log (e_log (env_of d) ++ [x]) (env_of d)) d).
Proof. done. Qed.

Lemma wf_emit h d x : wf cfg h d →
  wf cfg h (set_env (set_e_log (e_log (env_of d) ++ [x]) (env_of d)) d).
Proof. intros W. by apply wf_env. Qed.

Lemma task_parts h d t k : wf cfg h d → d_tasks d !! t = Some k → t ∉ h_open h →
  ∃ c ck evc, t_ic k = Some c ∧ d_chunks d !! c = Some ck ∧ ck_task ck = Some t ∧ ck_busy ck = true ∧
    t_i_ins k = Some (ck_in ck) ∧ t_event_chunk k = Some evc ∧ d_map d !z (t_id k) = Some (Some t).
Proof.
  intros [Wh _ _ _] Hk HO. destruct (wh_task _ _ _ Wh t k Hk HO) as (? & [evc ?] & c & ck & ? & ? & ? & ? & ?).
  exists c, ck, evc. done.
Qed.

Lemma task_destroy_spec C U B P n d t k del :
  wf cfg (mk_hold C U [] B [] P n) d → d_tasks d !! t = Some k →
  no_token (mk_hold C U [] B [] P n) t d →
  ∃ d' P', flb_task_destroy t del d = Some (tt, d') ∧ wf cfg (mk_hold C U [] B [] P' n) d' ∧
    (∀ r, r ∈ P' ↔ r ∈ P ∧ r ∉ t_retries k) ∧ destroyed t k d d'.
Proof.
  intros W Hk Hno. destruct (task_parts _ d t k W Hk) as (c & ck & evc & Hic & Hck & Hct & _ & Hi & _ & Hmap);
    [by apply not_elem_of_nil|]. apply zlookup_Some in Hmap as [Hid Hmap].
  unfold flb_task_destroy, map_free_task_id, map_set_task_id, flb_input_chunk_destroy, store_task. mrun.
  rewrite (task_at_run t k d Hk). rewrite zinsert_Some by done. cbn. rewrite Hic. mrun.
  rewrite (chunk_at_run c ck) by done. rewrite emit_run. cbn.
  eapply wf_unlink_task in W as W1; [|done|by apply not_elem_of_nil|done|done].
  set (d1 := set_d_chunks _ _).
  assert (W1' : wf cfg (mk_hold C U [] B [t] P n) d1).
  { apply (wf_emit _ _ (ChunkDestroy c del)) in W1. exact W1. }
  destruct (retries_destroy_loop C U B [t] n t (t_retries k) P d1 (set_t_routes [] k))
    as (d2 & P2 & Hrun & W2 & HP2 & Ht2 & Hr2 & F2 & Hq2 & Hf2); [done|by apply lookup_insert_eq|done| |].
  { intros o Hin. apply (Hno o). unfold counted. cbn. rewrite !elem_of_app. right. right. by right. }
  unfold mbind, M_bind in Hrun. rewrite Hrun, Hi. unfold flb_input_chunk_set_limits. rewrite emit_run. cbn.
  eexists _, P2. split; [done|]. split_and!; [|done|].
  - apply (wf_emit _ _ (InputSetLimits (ck_in ck))) in W2. eapply (wf_free_task cfg _ _ _ _ _ _ _ _ t) in W2.
    + exact W2.
    + cbn. rewrite Ht2. by apply lookup_insert_eq.
    + by apply not_elem_of_nil.
    + done.
  - destruct F2 as [Fm Fc Fit Fic _ _].
    constructor; cbn; rewrite ?Fm, ?Fc, ?Fit, ?Fic; try done.
    + rewrite Ht2. cbn. by rewrite insert_insert_eq, delete_insert_eq.
    + intros c0 Hc0. rewrite Hic in Hc0. by injection Hc0 as <-.
    + intros c0 Hc0. rewrite Hic in Hc0. by injection Hc0 as <-.
    + intros id Hne. apply zlookup_insert_ne; [lia|done].
    + by apply zlookup_insert_eq.
Qed.

(** *** Users *)

Lemma wf_free_drop C U U' R B O P n d :
  wf cfg (mk_hold C (U' ++ U) R B O P n) d → wf cfg (mk_hold C U R B O P n) d.
Proof.
  intros W. pose proof W as [_ _ _ [Hwf Hp Hreq Hlive]].
  apply (wf_set_rq cfg C (U' ++ U) R B O P n U R P d (d_rq d)) in W; try done.
  - by destruct d.
  - rewrite <- app_assoc. by apply submseteq_inserts_l.
  - intros p ?. apply elem_of_app. by right.
Qed.

Lemma users_inc_spec C U R B O P n d t o k :
  wf cfg (mk_hold C ((t, o) :: U) R B O P n) d → d_tasks d !! t = Some k →
  let d' := set_d_tasks (<[t := set_t_users (t_users k + 1) k]> (d_tasks d)) d in
  flb_task_users_inc t d = Some (tt, d') ∧ wf cfg (mk_hold ((t, o) :: C) U R B O P n) d' ∧ frame d d'.
Proof.
  intros W Hk d'. split_and!.
  - unfold flb_task_users_inc, store_task. mrun. by rewrite (task_at_run t k d Hk).
  - by apply wf_users_inc.
  - by eapply frame_store_task.
Qed.

Lemma users_dec_run t k d : d_tasks d !! t = Some k →
  flb_task_users_dec t false d =
    Some (tt, set_d_tasks (<[t := set_t_users (t_users k - 1) k]> (d_tasks d)) d).
Proof. intros Hk. unfold flb_task_users_dec, store_task. mrun. by rewrite (task_at_run t k d Hk). Qed.

Lemma users_dec_spec C U R B O P n d t o k :
  wf cfg (mk_hold ((t, o) :: C) U R B O P n) d → d_tasks d !! t = Some k →
  let d' := set_d_tasks (<[t := set_t_users (t_users k - 1) k]> (d_tasks d)) d in
  flb_task_users_dec t false d = Some (tt, d') ∧ wf cfg (mk_hold C ((t, o) :: U) R B O P n) d' ∧ frame d d'.
Proof.
  intros W Hk d'. split_and!; [by apply users_dec_run|by apply wf_users_dec|by eapply frame_store_task].
Qed.

(** Will a task be released, once its users are what they are. *)
Definition releasable (k : flb_task) : bool := (t_users k =? 0) && bool_decide (t_retries k = []).

Lemma users_release_spec C U B P n d t k :
  wf cfg (mk_hold C U [] B [] P n) d → d_tasks d !! t = Some k → (∀ o, (t, o) ∉ U) →
  ∃ d', flb_task_users_release t d = Some (tt, d') ∧ wf cfg (mk_hold C U [] B [] P n) d' ∧
    if releasable k then destroyed t k d d' else d' = d.
Proof.
  intros W Hk HU. unfold flb_task_users_release. mrun. rewrite (task_at_run t k d Hk). fold (releasable k).
  destruct (releasable k) eqn:Hrel; [|by exists d]. unfold releasable in Hrel.
  apply andb_true_iff in Hrel as [Hu Hr]. apply Z.eqb_eq in Hu. apply bool_decide_eq_true in Hr.
  destruct (task_destroy_spec C U B P n d t k true) as (d' & P' & -> & W' & HP & Hd); [done|done| |].
  { intros o. cbn. rewrite elem_of_app. intros [?|Hin]; [by apply (HU o)|].
    assert (Hc : task_count t (counted (mk_hold C U [] B [] P n) d) = 0) by by rewrite <- (wt_users _ _ _ (wf_t _ _ _ W) t k Hk).
    rewrite task_count_zero in Hc. by apply (Hc o). }
  exists d'. split_and!; [done| |done]. eapply wf_perm; [|exact W'].
  apply NoDup_Permutation; [by eapply wf_sched_nodup|by eapply wf_sched_nodup|].
  intros r. rewrite HP, Hr. split; [by intros [? _]|]. intros ?. split; [done|apply not_elem_of_nil].
Qed.

Lemma users_dec_release_spec C U B P n d t o k :
  wf cfg (mk_hold ((t, o) :: C) U [] B [] P n) d → d_tasks d !! t = Some k → (∀ o', (t, o') ∉ U) →
  let k1 := set_t_users (t_users k - 1) k in
  let d1 := set_d_tasks (<[t := k1]> (d_tasks d)) d in
  ∃ d', flb_task_users_dec t true d = Some (tt, d') ∧ wf cfg (mk_hold C U [] B [] P n) d' ∧
    if releasable k1 then destroyed t k1 d1 d' else d' = d1.
Proof.
  intros W Hk HU k1 d1. destruct (users_dec_spec _ _ _ _ _ _ _ _ _ _ _ W Hk) as (_ & W1 & _).
  fold k1 in W1. fold d1 in W1. apply (wf_free_drop _ _ [(t, o)]) in W1.
  destruct (users_release_spec C U B P n d1 t k1 W1) as (d' & Hrun & ? & ?); [by apply lookup_insert_eq|done|].
  exists d'. split_and!; try done. unfold flb_task_users_dec, store_task. mrun.
  by rewrite (task_at_run t k d Hk).
Qed.

(** *** Retries *)

Lemma find_retry_spec o l d :
  (∀ r, r ∈ l → is_Some (d_retries d !! r)) →
  ∃ res, find_retry o l d = Some (res, d) ∧
    match res with
    | Some (r, x) => r ∈ l ∧ d_retries d !! r = Some x ∧ rt_o_ins x = o
    | None => ∀ r x, r ∈ l → d_retries d !! r = Some x → rt_o_ins x ≠ o
    end.
Proof.
  induction l as [|r l IH]; intros Hl; cbn.
  { exists None. split; [done|]. by intros r x ?%not_elem_of_nil. }
  destruct (Hl r) as [x Hx]; [by left|]. mrun. rewrite (retry_at_run r x d Hx).
  destruct (bool_decide_reflect (rt_o_ins x = o)) as [Heq|Hne].
  { exists (Some (r, x)). split_and!; try done. by left. }
  destruct IH as (res & -> & Hres). { intros r' ?. apply Hl. by right. }
  exists res. split; [done|]. destruct res as [[r' x']|].
  - destruct Hres as (? & ? & ?). split_and!; try done. by right.
  - intros r' x' [->|?]%elem_of_cons ?; [congruence|by eapply Hres].
Qed.

Lemma find_retry_of_task C U R B O P n d t k o :
  wf cfg (mk_hold C U R B O P n) d → d_tasks d !! t = Some k →
  ∃ res, find_retry o (t_retries k) d = Some (res, d) ∧
    match res with
    | Some (r, x) => r ∈ t_retries k ∧ d_retries d !! r = Some x ∧ retry_pair x = (t, o)
    | None => ∀ r x, d_retries d !! r = Some x → retry_pair x ≠ (t, o)
    end.
Proof.
  intros W Hk. destruct (find_retry_spec o (t_retries k) d) as (res & Hrun & Hres).
  { intros r Hr. destruct (retry_parent _ _ _ _ _ _ _ _ t k r W Hk Hr) as (x & ? & _). by eexists. }
  exists res. split; [done|]. destruct res as [[r x]|].
  - destruct Hres as (Hr & Hx & Ho). split_and!; try done.
    destruct (retry_parent _ _ _ _ _ _ _ _ t k r W Hk Hr) as (x' & Hx' & Hpar). unfold retry_pair. congruence.
  - intros r x Hx [= Hpar Ho]. destruct (wh_retry _ _ _ (wf_h _ _ _ W) r x Hx) as (_ & k' & Hk' & Hin).
    rewrite Hpar, Hk in Hk'. injection Hk' as <-. by eapply Hres.
Qed.

(** The retry of a pair whose token the caller holds is neither scheduled nor queued. *)
Lemma held_not_elsewhere C U R B O P n d p :
  wf cfg (mk_hold C U R B O P n) d → p ∈ C ++ U → (p ∉ queue_pairs d) ∧ p ∉ sched_pairs P d.
Proof.
  intros [_ [Hnd _ _ _] _ _] Hin. unfold tokens, counted in Hnd. cbn in Hnd.
  assert (Hperm : U ++ (C ++ flush_pairs d ++ queue_pairs d) ++ sched_pairs P d ≡ₚ
    (C ++ U) ++ flush_pairs d ++ queue_pairs d ++ sched_pairs P d) by solve_Permutation.
  rewrite Hperm in Hnd. apply NoDup_app in Hnd as (_ & Hd & _). specialize (Hd p Hin).
  rewrite !elem_of_app in Hd. tauto.
Qed.

Lemma retry_unsched P d r x : d_retries d !! r = Some x → retry_pair x ∉ sched_pairs P d → r ∉ P.
Proof. intros Hx Hn Hr. apply Hn, elem_of_sched_pairs. eauto. Qed.

(** Destroying the retry of a held pair. *)
Lemma retry_destroy_held C U B O P n d r x k :
  wf cfg (mk_hold C U [] B O P n) d → d_retries d !! r = Some x → d_tasks d !! rt_parent x = Some k →
  retry_pair x ∈ C ++ U →
  ∃ d', flb_task_retry_destroy r d = Some (tt, d') ∧
    wf cfg (mk_hold C U [] B O P n) d' ∧ frame d d' ∧
    d_retries d' = delete r (d_retries d) ∧
    d_tasks d' = <[rt_parent x := set_t_retries (unlink r (t_retries k)) k]> (d_tasks d) ∧
    d_queues d' = d_queues d ∧ d_flushes d' = d_flushes d.
Proof.
  intros W Hx Hk Hin. destruct (held_not_elsewhere _ _ _ _ _ _ _ _ _ W Hin) as [Hq Hs].
  destruct (retry_destroy_spec C U [] B O P n d r x k) as (d' & Hrun & W' & Hrest); try done.
  { by eapply wf_sched_nodup. }
  exists d'. split_and!; try apply Hrest; [done|]. rewrite unlink_notin in W' by by eapply retry_unsched. done.
Qed.

Lemma retry_clean_spec C U B O P n d t o k :
  wf cfg (mk_hold C U [] B O P n) d → d_tasks d !! t = Some k → (t, o) ∈ C ++ U →
  ∃ v d' k', flb_task_retry_clean t o d = Some (v, d') ∧ wf cfg (mk_hold C U [] B O P n) d' ∧ frame d d' ∧
    d_tasks d' = <[t := k']> (d_tasks d) ∧ k' = set_t_retries (t_retries k') k ∧
    (∀ r x, d_retries d' !! r = Some x ↔ d_retries d !! r = Some x ∧ retry_pair x ≠ (t, o)) ∧
    (∀ r, r ∈ t_retries k' ↔ r ∈ t_retries k ∧ is_Some (d_retries d' !! r)) ∧
    d_queues d' = d_queues d ∧ d_flushes d' = d_flushes d.
Proof.
  intros W Hk Hin. destruct (find_retry_of_task _ _ _ _ _ _ _ _ t k o W Hk) as (res & Hrun & Hres).
  unfold flb_task_retry_clean. mrun. rewrite (task_at_run t k d Hk), Hrun.
  destruct res as [[r x]|].
  - destruct Hres as (Hr & Hx & Hpair). injection Hpair as Hpar Ho.
    destruct (retry_destroy_held C U B O P n d r x k) as (d' & -> & W' & F & Hr' & Ht' & ? & ?);
      [done|done|by rewrite Hpar|unfold retry_pair; by rewrite Hpar, Ho|].
    rewrite Hpar in Ht'.
    eexists _, d', _. split; [done|]. split; [done|]. split; [done|]. split; [exact Ht'|].
    split_and!; try done.
    + intros r' x'. rewrite Hr', lookup_delete_Some. split.
      * intros [Hne Hx']. split; [done|]. intros Hp. apply Hne. symmetry.
        eapply (wh_retry_inj _ _ _ (wf_h _ _ _ W)); [done|done|]. rewrite Hp. unfold retry_pair. congruence.
      * intros [Hx' Hne]. split; [|done]. intros ->. apply Hne. rewrite Hx in Hx'. injection Hx' as <-.
        unfold retry_pair. congruence.
    + intros r'. cbn. rewrite elem_of_unlink, Hr'. split.
      * intros [Hne Hr0]. split; [done|]. rewrite lookup_delete_ne by done.
        destruct (retry_parent _ _ _ _ _ _ _ _ t k r' W Hk Hr0) as (? & ? & _). by eexists.
      * intros [? [? [? ?]%lookup_delete_Some]]. done.
  - eexists _, d, k. split; [done|]. split; [done|]. split; [done|]. split; [by rewrite insert_id|].
    split_and!; try done.
    + by destruct k.
    + intros r x. split; [|by intros [? _]]. intros Hx. split; [done|by eapply Hres].
    + intros r. split; [|by intros [? _]]. intros Hr. split; [done|].
      destruct (retry_parent _ _ _ _ _ _ _ _ t k r W Hk Hr) as (? & ? & _). by eexists.
Qed.

Lemma emit_when b x d :
  ∃ e, when b (emit x) d = Some (tt, set_env e d) ∧ e_next e = e_next (env_of d) ∧
    e_alloc e = e_alloc (env_of d) ∧ e_sys e = e_sys (env_of d).
Proof.
  destruct b.
  - unfold when. rewrite emit_run. eexists. split; [done|]. done.
  - exists (env_of d). by rewrite set_env_of.
Qed.

Lemma retry_put_down_run h d t k :
  wf cfg h d → d_tasks d !! t = Some k → t ∉ h_open h →
  ∃ e, retry_put_down t d = Some (tt, set_env e d) ∧ e_next e = e_next (env_of d) ∧
    e_alloc e = e_alloc (env_of d) ∧ e_sys e = e_sys (env_of d).
Proof.
  intros W Hk HO. destruct (task_parts h d t k W Hk HO) as (c & ck & evc & Hic & Hck & _).
  unfold retry_put_down. unfold mbind, M_bind. rewrite (task_at_run t k d Hk), Hic. cbn.
  assert (Hone : ∀ b x d0, d_chunks d0 = d_chunks d →
    when b (_ ← chunk_at c; emit x) d0 = when b (emit x) d0).
  { intros b x d0 Hd0. destruct b; [|done]. cbn. mrun. by rewrite (chunk_at_run c ck) by by rewrite Hd0. }
  unfold flb_input_chunk_set_up_down, flb_input_chunk_down. rewrite Hone by done.
  destruct (emit_when (t_users k <=? 1) (ChunkSetUpDown c) d) as (e1 & -> & Hn1 & Ha1 & Hs1).
  rewrite Hone by done.
  destruct (emit_when (length (t_routes k) =? 1)%nat (ChunkDown c) (set_env e1 d)) as (e2 & -> & Hn2 & Ha2 & Hs2).
  rewrite (env_of_set e1 d) in *. exists e2. rewrite (set_env_set e2 e1 d).
  rewrite Hn2, Ha2, Hs2. done.
Qed.

(** What else waits for its retry still does, and nothing is new. *)
Record other_retries (t o : nat) (k k' : flb_task) (d d' : delivery S) : Prop := {
  ot_old r x : d_retries d' !! r = Some x → d_retries d !! r = Some x;
  ot_listed r : r ∈ t_retries k' → r ∈ t_retries k;
  ot_kept r x : r ∈ t_retries k → d_retries d !! r = Some x → retry_pair x ≠ (t, o) →
    r ∈ t_retries k' ∧ d_retries d' !! r = Some x
}.

Lemma retry_create_spec C U B P n d t o k ins :
  wf cfg (mk_hold C U [] B [] P n) d → d_tasks d !! t = Some k → t_status k = FLB_TASK_RUNNING →
  (t, o) ∈ C ++ U → cf_outputs cfg !! o = Some ins → o_retry_limit ins ≠ FLB_OUT_RETRY_NONE →
  0 <= n < INT_MAX →
  ∃ res d' k', flb_task_retry_create cfg t o d = Some (res, d') ∧
    d_tasks d' = <[t := k']> (d_tasks d) ∧ k' = set_t_retries (t_retries k') k ∧
    d_queues d' = d_queues d ∧ d_flushes d' = d_flushes d ∧ d_chunks d' = d_chunks d ∧
    match res with
    | None => wf cfg (mk_hold C U [] B [] P n) d' ∧ frame d d' ∧ other_retries t o k k' d d' ∧
        (¬ calm (env_of d) ∨ ∃ r x, d_retries d !! r = Some x ∧ retry_pair x = (t, o) ∧
           0 <= o_retry_limit ins <= rt_attempts x)
    | Some r => wf cfg (mk_hold C U [] B [] P (n + 1)) d' ∧ (calm (env_of d) → calm (env_of d')) ∧
        ∃ x, d_retries d' !! r = Some x ∧ retry_pair x = (t, o) ∧ r ∈ t_retries k' ∧
          (if decide (r ∈ t_retries k)
           then ∃ x0, d_retries d !! r = Some x0 ∧ retry_pair x0 = (t, o) ∧ rt_attempts x = rt_attempts x0 + 1
           else rt_attempts x = 1 ∧ ∀ r0 x0, d_retries d !! r0 = Some x0 → retry_pair x0 ≠ (t, o))
    end.
Proof.
  intros W Hk Hst Hin Hins Hlim Hn.
  destruct (find_retry_of_task _ _ _ _ _ _ _ _ t k o W Hk) as (res & Hrun & Hres).
  unfold flb_task_retry_create, store_retry, store_task. mrun.
  rewrite (task_at_run t k d Hk), Hins. cbn. rewrite Hrun.
  destruct res as [[r x]|].
  - destruct Hres as (Hr & Hx & Hpair).
    destruct ((o_retry_limit ins <=? rt_attempts x) && (0 <=? o_retry_limit ins)) eqn:Hlimit.
    + bool_prop. injection Hpair as Hpar Ho.
      destruct (retry_destroy_held C U B [] P n d r x k) as (d' & -> & W' & F & Hr' & Ht' & ? & ?);
        [done|done|by rewrite Hpar|unfold retry_pair; by rewrite Hpar, Ho|].
      rewrite Hpar in Ht'. eexists None, d', _. split; [done|]. split; [exact Ht'|].
      split_and!; try done; [apply F| |].
      { constructor.
        - intros r' x'. rewrite Hr'. by intros [_ ?]%lookup_delete_Some.
        - intros r' [_ Hin']%elem_of_unlink. done.
        - intros r' x' Hin' Hx' Hne. assert (r' ≠ r) by (intros ->; apply Hne; unfold retry_pair; congruence).
          split; [by apply elem_of_unlink|]. by rewrite Hr', lookup_delete_ne. }
      right. exists r, x. split_and!; try done.
      unfold retry_pair. congruence.
    + pose proof (wh_retry _ _ _ (wf_h _ _ _ W) r x Hx) as [[Hatt (ins' & Hins' & Hl')] _]. cbn in Hatt.
      destruct (Z.eqb_spec (rt_attempts x) INT_MAX) as [|_]; [lia|].
      set (x' := set_rt_attempts (rt_attempts x + 1) x). injection Hpair as Hpar Ho.
      rewrite Ho, Hins in Hins'. injection Hins' as <-.
      assert (W1 : wf cfg (mk_hold C U [] B [] P (n + 1)) (set_d_retries (<[r := x']> (d_retries d)) d)).
      { eapply wf_retry_store; try done; [|lia]. split; [cbn; lia|]. exists ins. split; [by rewrite <- Ho in Hins|].
        intros Hpos. cbn. bool_prop. destruct Hlimit; bool_prop; lia. }
      destruct (retry_put_down_run _ _ t k W1) as (e & Hpd & Hen & Hea & Hes); [done|by apply not_elem_of_nil|].
      unfold mbind, M_bind, modify in *. rewrite Hpd.
      eexists (Some r), _, k. split; [done|]. cbn. split; [by rewrite insert_id|].
      split; [by destruct k|]. split_and!; try done.
      * refine (wf_env cfg _ _ e W1 _). by rewrite Hen.
      * refine (λ Hc, _). unfold calm. rewrite (env_of_set e (d_rq d)). by rewrite Hea, Hes.
      * exists x'. rewrite lookup_insert_eq. unfold retry_pair. cbn. split_and!; try done; [congruence|].
        rewrite decide_True by done. exists x. split_and!; congruence || done.
  - destruct (malloc_cases d) as [[[script ->] Hnc]|(script & -> & Hscript)]; cbn.
    { eexists None, _, k. split; [done|]. cbn. split; [by rewrite insert_id|]. split; [by destruct k|].
      split_and!; try done; [by refine (wf_env cfg _ _ _ W _)|by left]. }
    set (r := e_next (env_of (d_rq d))).
    set (e1 := set_e_next (Datatypes.S r) (set_e_alloc script (env_of (d_rq d)))).
    set (d1 := set_d_rq (set_env e1 (d_rq d)) d).
    assert (He1 : env_of (d_rq d1) = e1) by apply (env_of_set e1 (d_rq d)).
    assert (W1 : wf cfg (mk_hold C U [] B [] P (n + 1)) d1).
    { destruct (wf_env cfg _ d e1 W) as [Wh Wt Wq Wr].
      { cbn. lia. }
      constructor; [eapply wf_heap_hold; [exact Wh|done|cbn; lia]|destruct Wt; by constructor| |destruct Wr; by constructor].
      destruct Wq as [? Wq]. constructor; [done|]. intros o' q' Hq'. by destruct (Wq o' q' Hq'). }
    destruct (wh_fresh _ _ _ (wf_h _ _ _ W) r) as (Hf1 & Hf2 & _); [done|].
    rewrite (task_at_run t k) by done. mrun.
    eapply (wf_retry_add cfg _ _ _ _ _ _ _ d1 r (mk_retry 1 o t) t k) in W1; try done.
    2: { change (r < e_next (env_of (d_rq d1)))%nat. rewrite He1. cbn. lia. }
    2: { split; [cbn; lia|]. exists ins. split; [done|]. cbn. unfold FLB_OUT_RETRY_NONE in *. lia. }
    2: { intros r' y Hr' Hy. cbn in *. intros Ho.
         destruct (retry_parent _ _ _ _ _ _ _ _ t k r' W Hk Hr') as (y' & Hy' & Hpar).
         rewrite Hy in Hy'. injection Hy' as <-. apply (Hres r' y Hy). unfold retry_pair. congruence. }
    destruct (retry_put_down_run _ _ t (set_t_retries (t_retries k ++ [r]) k) W1)
      as (e & Hpd & Hen & Hea & Hes); [by apply lookup_insert_eq|by apply not_elem_of_nil|].
    unfold mbind, M_bind, modify in *. 
    match goal with |- context [retry_put_down t ?x] => change x with
      (set_d_tasks (<[t := set_t_retries (t_retries k ++ [r]) k]> (d_tasks d1))
         (set_d_retries (<[r := mk_retry 1 o t]> (d_retries d1)) d1)) end.
    rewrite Hpd. eexists (Some r), _, _. split; [done|]. cbn. split; [done|]. split_and!; try done.
    + refine (wf_env cfg _ _ e W1 _). by rewrite Hen.
    + intros Hc. unfold calm. rewrite (env_of_set e (d_rq d1)), Hea, Hes.
      change (e_alloc (env_of (d_rq d1)) = [] ∧ e_sys (env_of (d_rq d1)) = []). rewrite He1. cbn. rewrite (Hscript Hc). by destruct Hc.
    + exists (mk_retry 1 o t). rewrite lookup_insert_eq. split_and!; try done.
      * cbn. apply elem_of_app. right. by left.
      * rewrite decide_False; [done|]. intros Hr.
        destruct (retry_parent _ _ _ _ _ _ _ _ t k r W Hk Hr) as (? & ? & _). congruence.
Qed.

(** The retry a request carries is scheduled again, or goes, perhaps with its task; [t, o] is the
    token of the retry while the request is served. *)
Lemma reschedule_spec C q r t o x B P n d :
  wf cfg (mk_hold C [(t, o)] [(q, r)] B [] P n) d → d_retries d !! r = Some x → retry_pair x = (t, o) →
  n < 2 ^ 31 →
  ∃ v d', flb_task_retry_reschedule cfg r d = Some (v, d') ∧
    ((v = 0 ∧ wf cfg (mk_hold C [] [(q, r)] B [] (r :: P) n) d') ∨
     (v = -1 ∧ ¬ calm (env_of d) ∧ wf cfg (mk_hold C [] [] B [] P n) d')).
Proof.
  intros W Hx Hpair Hn. injection Hpair as Hpar Ho.
  pose proof (wh_retry _ _ _ (wf_h _ _ _ W) r x Hx) as [[Hatt _] (k & Hk & Hrk)]. cbn in Hatt.
  assert (HrP : r ∉ P).
  { eapply retry_unsched; [done|]. apply (held_not_elsewhere _ _ _ _ _ _ _ _ _ W).
    unfold retry_pair. rewrite Hpar, Ho. apply elem_of_app. right. by left. }
  pose proof W as [_ _ _ [Hrq Hp Hreq Hlive]]. cbn in *.
  destruct (rqueue_create_law (cf_sched cfg) r (rt_attempts x) (d_rq d) Hrq (co_sched _ Hcfg))
    as (s & q1 & Hrun & Hq1 & Hcalm & Hkeep & Hcase); [lia|].
  pose proof (evolves (m := rqueue_create (cf_sched cfg) r (rt_attempts x)) _ _ _ Hrun) as [He _ _ _ _].
  unfold flb_task_retry_reschedule, lift. mrun.
  rewrite (retry_at_run r x d Hx), (task_at_run _ k d Hk), Hrun.
  assert (Hs : s = -1 ∨ s ≠ -1 ∧ rqueue_pending q1 ≡ₚ r :: rqueue_pending (d_rq d)).
  { destruct Hcase as [[-> _]|[Hd ?]]; [by left|right]. split; [|done]. unfold delay_bounds in Hd.
    destruct (is_shutting_down _); [lia|]. destruct (co_sched _ Hcfg). lia. }
  destruct Hs as [->|[Hne Hp1]]; cbn.
  - destruct Hcase as [[_ Hp1]|[Hd _]].
    2: { exfalso. unfold delay_bounds in Hd. destruct (is_shutting_down _); [lia|].
         destruct (co_sched _ Hcfg). lia. }
    assert (W1 : wf cfg (mk_hold C [(t, o)] [(q, r)] B [] P n) (set_d_rq q1 d)).
    { eapply wf_set_rq; try done.
      - by rewrite Hp1.
      - intros a r' Hin. by apply Hkeep, Hreq. }
    destruct (retry_destroy_spec C [(t, o)] [(q, r)] B [] P n (set_d_rq q1 d) r x k)
      as (d1 & -> & W2 & F & Hr1 & Ht1 & Hq & Hf); [done|done|done| | |].
    { apply (held_not_elsewhere _ _ _ _ _ _ _ _ _ W1). unfold retry_pair. rewrite Hpar, Ho. apply elem_of_app. right. by left. }
    { cbn. apply NoDup_cons. split; [done|]. by eapply wf_sched_nodup. }
    rewrite filter_cons_False in W2 by (intros Hn'; by apply Hn'). rewrite filter_nil, unlink_notin in W2 by done.
    apply (wf_free_drop _ _ [(t, o)]) in W2. rewrite (task_at_run _ (set_t_retries (unlink r (t_retries k)) k))
      by by rewrite Ht1, lookup_insert_eq.
    destruct (users_release_spec C [] B P n d1 (rt_parent x) (set_t_retries (unlink r (t_retries k)) k) W2)
      as (d2 & Hrel & W3 & _); [by rewrite Ht1, lookup_insert_eq|intros o'; apply not_elem_of_nil|].
    unfold flb_task_users_release in Hrel. unfold mbind, M_bind in Hrel.
    rewrite (task_at_run _ (set_t_retries (unlink r (t_retries k)) k)) in Hrel by by rewrite Ht1, lookup_insert_eq.
    cbn in Hrel |- *. unfold mret, M_ret in *. rewrite Hrel. eexists _, d2. split; [done|]. right.
    split_and!; try done. intros Hc. by apply Hcalm in Hc.
  - destruct (Z.eqb_spec s (-1)) as [|_]; [done|]. eexists _, _. split; [done|]. left. split; [done|].
    eapply wf_set_rq; [exact W|done|done| | | | |by intros ? ?%not_elem_of_nil].
    + rewrite Hp1, Hp. cbn. apply perm_swap.
    + intros a r' Hin. by apply Hkeep, Hreq.
    + cbn. intros r' Hin. apply Hlive. set_solver.
    + rewrite (sched_pairs_cons _ _ _ x Hx). unfold retry_pair. by rewrite Hpar, Ho.
Qed.

(** *** Task ids *)

(** Only the environment and the task map change, or one task. *)
Record quiet (d d' : delivery S) : Prop := {
  qu_retries : d_retries d' = d_retries d;
  qu_queues : d_queues d' = d_queues d;
  qu_flushes : d_flushes d' = d_flushes d;
  qu_chunks : d_chunks d' = d_chunks d;
  qu_in_tasks : d_in_tasks d' = d_in_tasks d;
  qu_in_chunks : d_in_chunks d' = d_in_chunks d;
  qu_calm : calm (env_of d) → calm (env_of d');
  qu_next : (e_next (env_of d) <= e_next (env_of d'))%nat
}.

#[global] Instance quiet_preorder : PreOrder quiet.
Proof.
  split; [intros d; by constructor|]. intros d1 d2 d3 [] []. constructor; congruence || eauto. lia.
Qed.

Lemma free_slot_spec l : ∀ i,
  match free_slot i l with
  | Some j => (i <= j)%nat ∧ l !! (j - i)%nat = Some None ∧
      ∀ m, (m < j - i)%nat → ∃ t, l !! m = Some (Some t)
  | None => ∀ m, (m < length l)%nat → ∃ t, l !! m = Some (Some t)
  end.
Proof.
  induction l as [|[t|] l IH]; intros i; cbn.
  - intros m Hm. lia.
  - specialize (IH (Datatypes.S i)). destruct (free_slot _ l) as [j|].
    + destruct IH as (? & Hj & Hm). replace (j - i)%nat with (Datatypes.S (j - Datatypes.S i)) by lia.
      split_and!; [lia|done|]. intros [|m] ?; [by exists t|]. apply Hm. lia.
    + intros [|m] ?; [by exists t|]. apply IH. cbn in *. lia.
  - replace (i - i)%nat with 0%nat by lia. split_and!; [lia|done|]. intros m ?. lia.
Qed.

Lemma malloc_quiet d : ∃ p e, malloc d = Some (p, set_env e d) ∧ quiet d (set_env e d) ∧
  (e_next (env_of d) <= e_next e)%nat ∧ (calm (env_of d) → is_Some p) ∧
  (p = None ∨ p = Some (e_next (env_of d)) ∧ (e_next (env_of d) < e_next e)%nat).
Proof.
  destruct (malloc_cases d) as [[[script ->] Hnc]|(script & -> & Hscript)].
  - eexists None, _. split; [done|]. split_and!; [|done|done|by left].
    constructor; try done. by rewrite (env_of_set _ d).
  - eexists (Some _), _. split; [done|]. split_and!; [|cbn; lia|by eexists|right; split; [done|cbn; lia]].
    constructor; try done; rewrite (env_of_set _ d); cbn; [|lia]. intros Hc. split; [by apply Hscript|apply Hc].
Qed.

Lemma map_get_task_id_spec h d :
  wf cfg h d →
  ∃ id d', map_get_task_id d = Some (id, d') ∧ wf cfg h d' ∧ quiet d d' ∧ d_tasks d' = d_tasks d ∧
    ((id = -1 ∧ (∀ m, (m < length (d_map d))%nat → ∃ t, d_map d !! m = Some (Some t)) ∧
      (calm (env_of d) → zlen (d_map d) = FLB_CONFIG_DEFAULT_TASK_MAP_SIZE_LIMIT)) ∨
     (0 <= id ∧ d_map d' !! Z.to_nat id = Some None ∧
      ∀ m, (m < Z.to_nat id)%nat → ∃ t, d_map d' !! m = Some (Some t))).
Proof.
  intros W. unfold map_get_task_id. mrun. pose proof (free_slot_spec (d_map d) 0) as Hfs.
  destruct (free_slot 0 (d_map d)) as [j|].
  { destruct Hfs as (_ & Hj & Hm). rewrite Nat.sub_0_r in *. eexists _, d. split; [done|].
    split_and!; try done. right. rewrite Nat2Z.id. split; [lia|done]. }
  destruct (wh_map _ _ _ (wf_h _ _ _ W)) as [Hmod Hle]. unfold flb_config_task_map_grow. mrun.
  destruct (Z.leb_spec FLB_CONFIG_DEFAULT_TASK_MAP_SIZE_LIMIT (zlen (d_map d))) as [Hge|Hlt]; cbn.
  { eexists _, d. split; [done|]. split_and!; try done. left. split_and!; try done. intros _. lia. }
  unfold flb_config_task_map_resize. mrun. pose proof (zlen_nonneg (d_map d)).
  unfold FLB_CONFIG_DEFAULT_TASK_MAP_SIZE_GROWTH in *.
  destruct (Z.eqb_spec (zlen (d_map d) + 256) (zlen (d_map d))) as [|_]; [lia|].
  destruct (Z.eqb_spec (zlen (d_map d) + 256) 0) as [|_]; [lia|].
  destruct (malloc_quiet d) as (p & e & -> & Hq & He & Hcalm & Hp).
  destruct p as [p|]; cbn.
  - eexists _, _. split; [done|]. replace (zlen (d_map d) + 256 - zlen (d_map d)) with 256 by lia.
    assert (Htake : take (Z.to_nat (zlen (d_map d) + 256)) (d_map d) = d_map d).
    { apply take_ge. unfold zlen. lia. }
    cbn. rewrite Htake. split_and!.
    + eapply (wf_env cfg h d e) in W as W1; [|done]. apply wf_map_grow in W1; [|done]. exact W1.
    + destruct Hq. by constructor.
    + done.
    + right. split; [apply zlen_nonneg|]. unfold zlen. rewrite Nat2Z.id. split.
      * rewrite lookup_app_r by done. by rewrite Nat.sub_diag.
      * intros m Hm. destruct (Hfs m Hm) as [t Ht]. exists t. by rewrite lookup_app_l.
  - eexists _, _. split; [done|]. split_and!; [by refine (wf_env cfg h d e W _)|done|done|].
    left. split_and!; try done. intros Hc. by apply Hcalm in Hc as [].
Qed.

Lemma quiet_tasks_store d t k : quiet d (set_d_tasks (<[t := k]> (d_tasks d)) d).
Proof. by constructor. Qed.

(** All the ids there may be are taken. *)
Definition map_full (d : delivery S) : Prop :=
  zlen (d_map d) = FLB_CONFIG_DEFAULT_TASK_MAP_SIZE_LIMIT ∧
  ∀ m, (m < length (d_map d))%nat → ∃ t, d_map d !! m = Some (Some t).

Lemma task_alloc_spec C U R B P n d :
  wf cfg (mk_hold C U R B [] P n) d →
  ∃ res d', task_alloc d = Some (res, d') ∧ quiet d d' ∧
    match res with
    | None => wf cfg (mk_hold C U R B [] P n) d' ∧ d_tasks d' = d_tasks d ∧ (calm (env_of d) → map_full d)
    | Some t => wf cfg (mk_hold C U R B [t] P n) d' ∧ d_tasks d !! t = None ∧
        ∃ id, d_tasks d' = <[t := mk_task id 0 FLB_TASK_NEW 0 None None 0 [] [] None]> (d_tasks d) ∧
          d_map d' !z id = Some (Some t)
    end.
Proof.
  intros W. unfold task_alloc. mrun. destruct (malloc_quiet d) as (p & e & -> & Hq & He & Hcalm & Hp).
  pose proof (wf_env cfg _ d e W He) as W1.
  destruct Hp as [->|[-> Hlt]].
  { eexists None, _. split; [done|]. split_and!; try done. intros Hc. by apply Hcalm in Hc as []. }
  set (t := e_next (env_of d)) in *. destruct (map_get_task_id_spec _ _ W1) as (id & d1 & -> & W2 & Hq2 & Ht & Hid).
  destruct Hid as [(-> & Hall & Hfull)|(Hpos & Hslot & _)].
  { eexists None, d1. split; [done|]. split_and!; [by etrans|done|done|].
    intros Hc. split; [by apply Hfull, Hq|exact Hall]. }
  destruct (Z.eqb_spec id (-1)) as [|_]; [lia|]. unfold map_set_task_id, store_task. mrun.
  apply lookup_lt_Some in Hslot as Hl.
  rewrite zinsert_Some by (unfold zlen; lia). cbn.
  destruct (wh_fresh _ _ _ (wf_h _ _ _ W) t) as (Hn & _); [done|].
  eexists (Some t), _. split; [done|]. split_and!.
  - etrans; [exact Hq|]. etrans; [exact Hq2|]. by constructor.
  - eapply (wf_new_task cfg _ _ _ _ _ _ _ d1 t (Z.to_nat id) id) in W2; [exact W2| | |done].
    + by rewrite Ht.
    + pose proof (qu_next _ _ Hq2) as Hn2. rewrite (env_of_set e d) in Hn2. cbn in *. lia.
  - done.
  - exists id. cbn. rewrite Ht. split; [done|]. apply zlookup_insert_eq. unfold zlen. lia.
Qed.

(** *** Routes of a new task *)

Definition new_route (evc : flb_event_chunk) (o : nat) : flb_task_route :=
  mk_route FLB_TASK_ROUTE_INACTIVE (evc_total_events evc) (evc_size evc) o.

(** The task [t] got routes to the outputs [l], in this order. *)
Record routed (t : nat) (evc : flb_event_chunk) (l : list nat) (d d' : delivery S) : Prop := {
  ro_quiet : quiet d d';
  ro_map : d_map d' = d_map d;
  ro_tasks k : d_tasks d !! t = Some k →
    d_tasks d' = <[t := set_t_routes (t_routes k ++ (new_route evc <$> l)) k]> (d_tasks d)
}.

Lemma routed_nil t evc d d' : quiet d d' → d_map d' = d_map d → d_tasks d' = d_tasks d →
  routed t evc [] d d'.
Proof.
  intros Hq Hm Ht. constructor; [done|done|]. intros k Hk. rewrite Ht. cbn. rewrite app_nil_r.
  rewrite insert_id; [done|]. rewrite Hk. by destruct k.
Qed.

Lemma routed_trans t evc l1 l2 d1 d2 d3 k :
  d_tasks d1 !! t = Some k → routed t evc l1 d1 d2 → routed t evc l2 d2 d3 → routed t evc (l1 ++ l2) d1 d3.
Proof.
  intros Hk [Hq1 Hm1 Ht1] [Hq2 Hm2 Ht2]. constructor; [by etrans|congruence|]. intros k' Hk'.
  specialize (Ht1 k' Hk'). rewrite (Ht2 (set_t_routes (t_routes k' ++ (new_route evc <$> l1)) k')).
  - rewrite Ht1. cbn. by rewrite insert_insert_eq, fmap_app, app_assoc.
  - by rewrite Ht1, lookup_insert_eq.
Qed.

Lemma routed_task t evc l d d' k : routed t evc l d d' → d_tasks d !! t = Some k →
  d_tasks d' !! t = Some (set_t_routes (t_routes k ++ (new_route evc <$> l)) k).
Proof. intros Hr Hk. by rewrite (ro_tasks _ _ _ _ _ Hr k Hk), lookup_insert_eq. Qed.

Lemma routes_ok_app l evc o : routes_ok cfg l → is_output cfg o → o ∉ r_out <$> l →
  routes_ok cfg (l ++ [new_route evc o]).
Proof.
  intros [Hnd Hall] Ho Hn. split.
  - rewrite fmap_app. apply NoDup_app. split_and!; [done| |apply NoDup_singleton].
    intros o' ? ->%list_elem_of_singleton. done.
  - apply Forall_app. split; [done|]. by apply Forall_singleton.
Qed.

Definition outs_of (d : delivery S) (t : nat) : list nat :=
  match d_tasks d !! t with Some k => r_out <$> t_routes k | None => [] end.

Lemma routed_outs t evc l d d' k : d_tasks d !! t = Some k → routed t evc l d d' →
  outs_of d' t = outs_of d t ++ l.
Proof.
  intros Hk Hr. unfold outs_of. rewrite Hk, (routed_task _ _ _ _ _ _ Hr Hk). cbn. rewrite fmap_app. f_equal.
  clear. induction l as [|o l IH]; [done|]. cbn. f_equal. exact IH.
Qed.

Lemma add_route_spec h t evc o d k :
  wf cfg h d → d_tasks d !! t = Some k → is_output cfg o → o ∉ outs_of d t →
  ∃ ok d', add_route t evc o d = Some (ok, d') ∧ wf cfg h d' ∧
    routed t evc (if ok : bool then [o] else []) d d' ∧ (calm (env_of d) → ok = true).
Proof.
  intros W Hk Ho Hn. unfold outs_of in Hn. rewrite Hk in Hn.
  unfold add_route, store_task. mrun. destruct (malloc_quiet d) as (p & e & -> & Hq & He & Hcalm & Hp).
  pose proof (wf_env cfg _ d e W He) as W1. destruct p as [p|].
  - rewrite (task_at_run t k) by done. eexists true, _. split; [done|]. split_and!; [| |done].
    + eapply wf_neutral in W1; [exact W1|done| |done|done]. constructor; try done.
      intros Hr. by apply routes_ok_app.
    + constructor; [etrans; [exact Hq|by constructor]|done|]. intros k' Hk'. rewrite Hk in Hk'. by injection Hk' as <-.
  - eexists false, _. split; [done|]. split_and!; [done|by apply routed_nil|]. intros Hc. by apply Hcalm in Hc as [].
Qed.

Lemma add_all_spec h t evc outs : ∀ count d k,
  wf cfg h d → d_tasks d !! t = Some k → Forall (is_output cfg) outs → NoDup outs →
  (∀ o, o ∈ outs → o ∉ outs_of d t) →
  ∃ ok n' d' l, add_all t evc outs count d = Some ((ok, n'), d') ∧ wf cfg h d' ∧
    routed t evc l d d' ∧ n' = count + zlen l ∧ l ⊆ outs ∧
    (ok = true → l = outs) ∧ (calm (env_of d) → ok = true).
Proof.
  induction outs as [|o outs IH]; intros count d k W Hk Ho Hnd Hnew; cbn.
  { exists true, count, d, []. split_and!; try done; [by apply routed_nil|unfold zlen; cbn; lia]. }
  apply Forall_cons in Ho as [Ho Hos]. apply NoDup_cons in Hnd as [Hno Hnd]. mrun.
  destruct (add_route_spec h t evc o d k) as (ok & d1 & -> & W1 & R1 & Hcalm1); [done|done|done|apply Hnew; by left|].
  destruct ok; cbn.
  - destruct (IH (count + 1) d1 _ W1 (routed_task _ _ _ _ _ _ R1 Hk)) as (ok & n' & d2 & l & -> & W2 & R2 & -> & Hl & Hok & Hcalm2);
      [done|done| |].
    { intros o' Ho'. rewrite (routed_outs _ _ _ _ _ _ Hk R1), not_elem_of_app, list_elem_of_singleton.
      split; [apply Hnew; by right|]. by intros ->. }
    exists ok, (count + 1 + zlen l), d2, (o :: l). split_and!; try done.
    + by apply (routed_trans t evc [o] l d d1 d2 k).
    + unfold zlen. cbn. lia.
    + set_solver.
    + intros ?. by rewrite Hok.
    + intros Hc. apply Hcalm2. by apply (qu_calm _ _ (ro_quiet _ _ _ _ _ R1)).
  - exists false, count, d1, []. split_and!; try done; [unfold zlen; cbn; lia|set_solver].
Qed.

Lemma positions_lookup p outs : ∀ n o, o ∈ positions p n outs ↔
  ∃ i x, outs !! i = Some x ∧ p x = true ∧ o = (n + i)%nat.
Proof.
  induction outs as [|x outs IH]; intros n o; cbn.
  { split; [by intros ?%not_elem_of_nil|]. by intros (i & x & ? & _). }
  rewrite elem_of_app, IH. split.
  - intros [Hin|(i & y & ? & ? & ->)].
    + destruct (p x) eqn:Hp; [|by apply not_elem_of_nil in Hin]. apply list_elem_of_singleton in Hin as ->.
      exists 0%nat, x. split_and!; [done|done|lia].
    + exists (Datatypes.S i), y. split_and!; [done|done|lia].
  - intros ([|i] & y & Hy & Hp & ->).
    + injection Hy as ->. rewrite Hp. left. apply list_elem_of_singleton. lia.
    + right. exists i, y. split_and!; [done|done|lia].
Qed.

Lemma direct_matches_outputs route o : o ∈ direct_matches (cf_outputs cfg) route → is_output cfg o.
Proof.
  assert (Hpos : ∀ p, o ∈ positions p 0 (cf_outputs cfg) → is_output cfg o).
  { intros p (i & x & Hi & _ & ->)%positions_lookup. by eapply lookup_lt_Some. }
  unfold direct_matches. destruct (dr_label route) as [label|]; [|by apply Hpos].
  destruct (0 <? _); [|by apply Hpos]. rewrite elem_of_app. intros [?|?]; by eapply Hpos.
Qed.

Lemma collect_spec h route d : wf cfg h d →
  ∃ v l d', task_collect_output_references cfg route d = Some ((v, l), d') ∧ wf cfg h d' ∧
    quiet d d' ∧ d_map d' = d_map d ∧ d_tasks d' = d_tasks d ∧
    ((v = 0 ∧ l = direct_matches (cf_outputs cfg) route) ∨ (v = -1 ∧ l = [] ∧ ¬ calm (env_of d))).
Proof.
  intros W. unfold task_collect_output_references.
  destruct (direct_matches (cf_outputs cfg) route) as [|o l].
  { eexists 0, [], d. split_and!; try done. by left. }
  mrun. destruct (malloc_quiet d) as (p & e & -> & Hq & He & Hcalm & Hp).
  pose proof (wf_env cfg _ d e W He) as W1. destruct p as [p|].
  - eexists 0, _, _. split_and!; try done. by left.
  - eexists (-1), _, _. split_and!; try done. right. split_and!; try done. intros Hc. by apply Hcalm in Hc as [].
Qed.

Lemma check_direct_spec h routes : ∀ d, wf cfg h d →
  ∃ v d', check_direct cfg routes d = Some (v, d') ∧ wf cfg h d' ∧ quiet d d' ∧
    d_map d' = d_map d ∧ d_tasks d' = d_tasks d ∧
    (calm (env_of d) → v = forallb (λ r, negb (bool_decide (direct_matches (cf_outputs cfg) r = []))) routes).
Proof.
  induction routes as [|route routes IH]; intros d W; cbn.
  { exists true, d. by split_and!. }
  mrun. destruct (collect_spec h route d W) as (v & l & d1 & -> & W1 & Q1 & Hm1 & Ht1 & Hv). cbn.
  destruct (negb (v =? 0) || bool_decide (l = [])) eqn:Hb.
  - exists false, d1. split_and!; try done. intros Hc. destruct Hv as [[-> ->]|(_ & _ & ?)]; [|done]. cbn in Hb.
    by rewrite Hb.
  - destruct (IH d1 W1) as (v2 & d2 & -> & W2 & Q2 & Hm2 & Ht2 & Hc2). exists v2, d2. split_and!; try done.
    + by etrans.
    + congruence.
    + congruence.
    + intros Hc. rewrite Hc2 by by apply Q1. destruct Hv as [[-> ->]|(_ & _ & ?)]; [|done]. cbn in Hb. by rewrite Hb.
Qed.

Lemma direct_all_cons outs r routes :
  direct_all outs (r :: routes) = direct_matches outs r ++ direct_all outs routes.
Proof. apply bind_cons. Qed.
Arguments direct_all : simpl never.

Lemma add_direct_spec h t evc routes : ∀ count d k,
  wf cfg h d → d_tasks d !! t = Some k → NoDup (direct_all (cf_outputs cfg) routes) →
  (∀ o, o ∈ direct_all (cf_outputs cfg) routes → o ∉ outs_of d t) →
  ∃ ok n' d' l, add_direct cfg t evc routes count d = Some ((ok, n'), d') ∧ wf cfg h d' ∧
    routed t evc l d d' ∧ n' = count + zlen l ∧ l ⊆ (direct_all (cf_outputs cfg) routes) ∧
    (calm (env_of d) → ok = true ∧ l = direct_all (cf_outputs cfg) routes).
Proof.
  induction routes as [|route routes IH]; intros count d k W Hk Hnd Hnew; cbn.
  { exists true, count, d, []. split_and!; try done; [by apply routed_nil|unfold zlen; cbn; lia]. }
  rewrite direct_all_cons in Hnd, Hnew. apply NoDup_app in Hnd as (Hnd1 & Hdis & Hnd2).
  mrun. destruct (collect_spec h route d W) as (v & l & d1 & -> & W1 & Q1 & Hm1 & Ht1 & Hv). cbn.
  assert (Hk1 : d_tasks d1 !! t = Some k) by by rewrite Ht1.
  assert (Ho1 : outs_of d1 t = outs_of d t) by (unfold outs_of; by rewrite Ht1).
  destruct (negb (v =? 0) || bool_decide (l = [])) eqn:Hb.
  - destruct (IH count d1 k W1 Hk1 Hnd2) as (ok & n' & d2 & l2 & -> & W2 & R2 & -> & Hl2 & Hc2).
    { intros o Ho. rewrite Ho1. apply Hnew, elem_of_app. by right. }
    exists ok, (count + zlen l2), d2, l2. split_and!; try done.
    + by apply (routed_trans t evc [] l2 d d1 d2 k); [|apply routed_nil|].
    + rewrite direct_all_cons. set_solver.
    + intros Hc. destruct Hc2 as [-> ->]; [by apply Q1|]. split; [done|].
      destruct Hv as [[-> ->]|(_ & _ & ?)]; [|done]. cbn in Hb. apply bool_decide_eq_true in Hb.
      by rewrite direct_all_cons, Hb.
  - apply orb_false_iff in Hb as [Hv0 _]. destruct Hv as [[-> ->]|(-> & _ & _)]; [|done].
    destruct (add_all_spec h t evc (direct_matches (cf_outputs cfg) route) count d1 k W1 Hk1)
      as (ok & n1 & d2 & l1 & -> & W2 & R2 & -> & Hl1 & Hok & Hc1).
    { apply Forall_forall. intros o. apply direct_matches_outputs. }
    { done. }
    { intros o Ho. rewrite Ho1. apply Hnew, elem_of_app. by left. }
    assert (R12 : routed t evc l1 d d2).
    { by apply (routed_trans t evc [] l1 d d1 d2 k); [|apply routed_nil|]. }
    destruct ok.
    + specialize (Hok eq_refl) as ->.
      destruct (IH (count + zlen (direct_matches (cf_outputs cfg) route)) d2 _ W2 (routed_task _ _ _ _ _ _ R12 Hk) Hnd2)
        as (ok & n' & d3 & l2 & -> & W3 & R3 & -> & Hl2 & Hc2).
      { intros o Ho. rewrite (routed_outs _ _ _ _ _ _ Hk R12), not_elem_of_app. split.
        - apply Hnew, elem_of_app. by right.
        - intros Ho1'. by apply (Hdis o). }
      exists ok, (count + zlen (direct_matches (cf_outputs cfg) route) + zlen l2), d3,
        (direct_matches (cf_outputs cfg) route ++ l2). split; [done|]. rewrite direct_all_cons. split_and!; [done| | | |].
      * by apply (routed_trans t evc _ l2 d d2 d3 k).
      * unfold zlen. rewrite length_app. lia.
      * set_solver.
      * intros Hc. destruct Hc2 as [-> ->]; [|done].
        by apply (qu_calm _ _ (ro_quiet _ _ _ _ _ R12)).
    + exists false, (count + zlen l1), d2, l1. split_and!; try done.
      * rewrite direct_all_cons. set_solver.
      * intros Hc. exfalso. specialize (Hc1 (qu_calm _ _ Q1 Hc)). done.
Qed.

(** Which paths and which outputs a chunk takes. *)
Definition mask_has (mask : option (list Z)) (o : flb_output_instance) : bool :=
  match flb_routes_mask_get_bit (default [] mask) (o_id o) (cf_router cfg) with
  | Some b => negb (b =? 0)
  | None => false
  end.

Definition wanted_path (evc : flb_event_chunk) (mask : option (list Z)) (path : flb_router_path) : bool :=
  flb_router_path_should_route route_condition evc path &&
  match mask, cf_outputs cfg !! rp_ins path with
  | Some _, Some o => mask_has mask o
  | _, _ => true
  end.

Definition wanted_paths (evc : flb_event_chunk) (mask : option (list Z)) (paths : list flb_router_path)
    : list nat := rp_ins <$> filter (λ p, wanted_path evc mask p = true) paths.

Definition wanted_masked (evc : flb_event_chunk) (mask : option (list Z)) (n : nat)
    (outs : list flb_output_instance) : list nat :=
  positions (λ o, flb_router_match_type (evc_type evc) o && mask_has mask o) n outs.

Arguments wanted_paths : simpl never.
Arguments wanted_masked : simpl never.

Definition mask_ok (mask : option (list Z)) : Prop :=
  ∀ o, o ∈ cf_outputs cfg →
    is_Some (flb_routes_mask_get_bit (default [] mask) (o_id o) (cf_router cfg)).

Lemma mask_bit_run mask o d : mask_ok mask → o ∈ cf_outputs cfg →
  ∃ b, mask_bit cfg mask o d = Some (b, d) ∧ mask_has mask o = negb (b =? 0).
Proof.
  intros Hm Ho. unfold mask_bit, mask_has. destruct (Hm o Ho) as [b ->]. by exists b.
Qed.

Lemma add_paths_spec h t evc mask paths : ∀ count d k,
  wf cfg h d → d_tasks d !! t = Some k → mask_ok mask → NoDup (rp_ins <$> paths) →
  Forall (λ p, is_output cfg (rp_ins p)) paths → (∀ p, p ∈ paths → rp_ins p ∉ outs_of d t) →
  ∃ ok n' d' l, add_paths cfg route_condition t evc mask paths count d = Some ((ok, n'), d') ∧
    wf cfg h d' ∧ routed t evc l d d' ∧ n' = count + zlen l ∧ l ⊆ (rp_ins <$> paths) ∧
    (calm (env_of d) → ok = true ∧ l = wanted_paths evc mask paths).
Proof.
  induction paths as [|path paths IH]; intros count d k W Hk Hmask Hnd Hout Hnew; cbn.
  { exists true, count, d, []. split_and!; try done; [by apply routed_nil|unfold zlen; cbn; lia]. }
  rewrite fmap_cons in Hnd. apply NoDup_cons in Hnd as [Hno Hnd]. apply Forall_cons in Hout as [Ho Hout].
  assert (Hskip : wanted_path evc mask path = false →
    ∃ ok n' d' l, add_paths cfg route_condition t evc mask paths count d = Some ((ok, n'), d') ∧
      wf cfg h d' ∧ routed t evc l d d' ∧ n' = count + zlen l ∧ l ⊆ (rp_ins <$> path :: paths) ∧
      (calm (env_of d) → ok = true ∧ l = wanted_paths evc mask (path :: paths))).
  { intros Hw. destruct (IH count d k W Hk Hmask Hnd Hout) as (ok & n' & d' & l & -> & W' & R & -> & Hl & Hc).
    { intros p Hp. apply Hnew. by right. }
    eexists ok, _, d', l. split; [done|]. split_and!; try done; [rewrite fmap_cons; set_solver|].
    intros Hcalm. destruct (Hc Hcalm) as [? ->]. split; [done|]. unfold wanted_paths.
    by rewrite filter_cons_False by congruence. }
  unfold wanted_path in Hskip.
  destruct (flb_router_path_should_route route_condition evc path) eqn:Hs; cbn; [|by apply Hskip].
  destruct (lookup_lt_is_Some_2 _ _ Ho) as [ins Hins].
  assert (Hbit : ∃ b, (match mask with None => mret 1 | Some _ => mask_bit cfg mask ins end) d = Some (b, d) ∧
    negb (b =? 0) = match mask with Some _ => mask_has mask ins | None => true end).
  { destruct mask as [m|]; [|by exists 1].
    destruct (mask_bit_run (Some m) ins d Hmask) as (b & -> & ->); [by eapply list_elem_of_lookup_2|eauto]. }
  destruct Hbit as (b & Hb & Hbit). unfold mbind, M_bind. rewrite Hins in *. cbn. rewrite Hb.
  destruct (Z.eqb_spec b 0) as [->|Hb0].
  { apply Hskip. destruct mask; cbn in *; congruence. }
  destruct (add_route_spec h t evc (rp_ins path) d k W Hk Ho) as (ok & d1 & -> & W1 & R1 & Hc1).
  { apply Hnew. by left. }
  destruct ok.
  - destruct (IH (count + 1) d1 _ W1 (routed_task _ _ _ _ _ _ R1 Hk) Hmask Hnd Hout)
      as (ok & n' & d' & l & -> & W' & R & -> & Hl & Hc).
    { intros p Hp. rewrite (routed_outs _ _ _ _ _ _ Hk R1), not_elem_of_app, list_elem_of_singleton.
      split; [apply Hnew; by right|]. intros Heq. apply Hno. rewrite <- Heq. by apply list_elem_of_fmap_2. }
    eexists ok, _, d', (rp_ins path :: l). split; [done|]. split_and!; [done| | | |].
    + by apply (routed_trans t evc [rp_ins path] l d d1 d' k).
    + unfold zlen. cbn. lia.
    + set_solver.
    + intros Hcalm. destruct Hc as [? ->]; [by apply (qu_calm _ _ (ro_quiet _ _ _ _ _ R1))|]. split; [done|].
      unfold wanted_paths. rewrite filter_cons_True; [done|]. unfold wanted_path. rewrite Hs, Hins. cbn.
      destruct mask; [|done]. rewrite <- Hbit. by destruct (Z.eqb_spec b 0).
  - eexists false, count, d1, []. split; [done|]. split_and!; [done|done|unfold zlen; cbn; lia|set_solver|].
    intros Hcalm. by specialize (Hc1 Hcalm).
Qed.

Lemma add_masked_spec h t evc mask outs : ∀ n count d k,
  wf cfg h d → d_tasks d !! t = Some k → mask_ok mask →
  (∀ i o, outs !! i = Some o → cf_outputs cfg !! (n + i)%nat = Some o) →
  (∀ o, o ∈ outs_of d t → (o < n)%nat) →
  ∃ n' d' l, add_masked cfg t evc mask n outs count d = Some (n', d') ∧
    wf cfg h d' ∧ routed t evc l d d' ∧ n' = count + zlen l ∧
    (calm (env_of d) → l = wanted_masked evc mask n outs).
Proof.
  induction outs as [|o outs IH]; intros n count d k W Hk Hmask Hpos Hnew; cbn.
  { exists count, d, []. split_and!; try done; [by apply routed_nil|unfold zlen; cbn; lia]. }
  pose proof (Hpos 0%nat o eq_refl) as Ho. rewrite Nat.add_0_r in Ho.
  assert (Hpos' : ∀ i o0, outs !! i = Some o0 → cf_outputs cfg !! (Datatypes.S n + i)%nat = Some o0).
  { intros i o0 Hi. rewrite <- (Hpos (Datatypes.S i) o0 Hi). f_equal. lia. }
  assert (Hskip : flb_router_match_type (evc_type evc) o && mask_has mask o = false →
    ∃ n' d' l, add_masked cfg t evc mask (Datatypes.S n) outs count d = Some (n', d') ∧
      wf cfg h d' ∧ routed t evc l d d' ∧ n' = count + zlen l ∧
      (calm (env_of d) → l = wanted_masked evc mask n (o :: outs))).
  { intros Hw. destruct (IH (Datatypes.S n) count d k W Hk Hmask Hpos') as (n' & d' & l & -> & W' & R & -> & Hc).
    { intros o' ?. specialize (Hnew o' ltac:(done)). lia. }
    eexists _, d', l. split; [done|]. split_and!; try done. intros Hcalm. rewrite (Hc Hcalm).
    unfold wanted_masked. cbn. by rewrite Hw. }
  destruct (flb_router_match_type (evc_type evc) o) eqn:Ht; cbn; [|by apply Hskip].
  destruct (mask_bit_run mask o d Hmask) as (b & Hb & Hbit); [by eapply list_elem_of_lookup_2|].
  unfold mbind, M_bind. rewrite Hb. destruct (Z.eqb_spec b 0) as [->|Hb0]; [by apply Hskip|].
  destruct (add_route_spec h t evc n d k W Hk) as (ok & d1 & -> & W1 & R1 & Hc1).
  { by eapply lookup_lt_Some. }
  { intros Hin. specialize (Hnew n Hin). lia. }
  destruct (IH (Datatypes.S n) (if ok then count + 1 else count) d1 _ W1 (routed_task _ _ _ _ _ _ R1 Hk) Hmask Hpos')
    as (n' & d' & l & -> & W' & R & -> & Hc).
  { intros o'. rewrite (routed_outs _ _ _ _ _ _ Hk R1), elem_of_app. intros [Hin|Hin].
    - specialize (Hnew o' Hin). lia.
    - destruct ok; [|by apply not_elem_of_nil in Hin]. apply list_elem_of_singleton in Hin. lia. }
  eexists _, d', ((if ok then [n] else []) ++ l). split; [done|]. split_and!; [done| | |].
  - by apply (routed_trans t evc _ l d d1 d' k).
  - unfold zlen. rewrite length_app. destruct ok; cbn; lia.
  - intros Hcalm. rewrite Hc by by apply (qu_calm _ _ (ro_quiet _ _ _ _ _ R1)).
    rewrite (Hc1 Hcalm). unfold wanted_masked. cbn. rewrite Ht, Hbit. cbn. by destruct (Z.eqb_spec b 0).
Qed.

Lemma no_token_new h d t k : wf cfg h d → d_tasks d !! t = Some k → t_status k ≠ FLB_TASK_RUNNING →
  no_token h t d.
Proof.
  intros [_ Wt _ _] Hk Hst o Hin. destruct (wt_live _ _ _ Wt t o Hin) as (_ & _ & k' & Hk' & ?). congruence.
Qed.

(** The outputs a chunk is routed to: those stored in it when all of them still exist, else those of
    the direct routes of its input when there are any, else those of its mask. *)
Definition selected_outputs (evc : flb_event_chunk) (ck : flb_input_chunk) (ins : flb_input_instance)
    : list nat :=
  let configured := match i_routes_direct ins with
                    | [] => wanted_masked evc (ck_routes_mask ck) 0 (cf_outputs cfg)
                    | paths => wanted_paths evc (ck_routes_mask ck) paths
                    end in
  match ck_direct ck with
  | Some (0, (_ :: _) as routes) =>
      if forallb (λ r, negb (bool_decide (direct_matches (cf_outputs cfg) r = []))) routes
      then direct_all (cf_outputs cfg) routes else configured
  | _ => configured
  end.

Lemma stored_spec h t c evc d k ck ins :
  wf cfg h d → d_tasks d !! t = Some k → t_routes k = [] → d_chunks d !! c = Some ck →
  ∃ ok n' d' l,
    (match ck_direct ck with
     | Some (0, (_ :: _) as routes) =>
         valid ← check_direct cfg routes;
         if (valid : bool) then add_direct cfg t evc routes 0 else mret (true, 0)
     | _ => mret (true, 0)
     end) d = Some ((ok, n'), d') ∧
    wf cfg h d' ∧ routed t evc l d d' ∧ n' = zlen l ∧
    (calm (env_of d) → ok = true ∧ if 0 <? n' then l = selected_outputs evc ck ins
       else selected_outputs evc ck ins = match i_routes_direct ins with
                    | [] => wanted_masked evc (ck_routes_mask ck) 0 (cf_outputs cfg)
                    | paths => wanted_paths evc (ck_routes_mask ck) paths
                    end).
Proof.
  intros W Hk Hr Hck. destruct (wh_chunk _ _ _ (wf_h _ _ _ W) c ck Hck) as [[_ Hdir _] _].
  assert (Hnone : ∃ ok n' d' l, (mret (true, 0) : M (delivery S) (bool * Z)) d = Some ((ok, n'), d') ∧
    wf cfg h d' ∧ routed t evc l d d' ∧ n' = zlen l ∧ ok = true ∧ l = []).
  { exists true, 0, d, []. split_and!; try done. by apply routed_nil. }
  unfold selected_outputs. destruct (ck_direct ck) as [[v routes]|].
  2: { destruct Hnone as (ok & n' & d' & l & ? & ? & ? & -> & -> & ->). by exists true, 0, d', []. }
  destruct v as [|p|p]; [destruct routes as [|r routes]| |];
    try (destruct Hnone as (ok & n' & d' & l & ? & ? & ? & -> & -> & ->); by exists true, 0, d', []).
  destruct (check_direct_spec h (r :: routes) d W) as (v & d1 & Hrun & W1 & Q1 & Hm1 & Ht1 & Hv).
  unfold mbind, M_bind. rewrite Hrun.
  assert (Hk1 : d_tasks d1 !! t = Some k) by by rewrite Ht1.
  destruct v.
  - destruct (add_direct_spec h t evc (r :: routes) 0 d1 k W1 Hk1) as (ok & n' & d' & l & -> & W2 & R2 & -> & _ & Hc).
    { by apply Hdir. }
    { intros o _. unfold outs_of. rewrite Hk1, Hr. apply not_elem_of_nil. }
    exists ok, (0 + zlen l), d', l. split_and!; try done.
    + by apply (routed_trans t evc [] l d d1 d' k); [|apply routed_nil|].
    + intros Hcalm. destruct Hc as [-> ->]; [by apply Q1|]. split; [done|].
      rewrite <- (Hv Hcalm). case_match; [done|]. exfalso.
      assert (direct_matches (cf_outputs cfg) r ≠ []).
      { specialize (Hv Hcalm). cbn in Hv. symmetry in Hv. apply andb_true_iff in Hv as [Hv _].
        apply negb_true_iff in Hv. by apply bool_decide_eq_false in Hv. }
      match goal with Hx : (0 <? _) = false |- _ => apply Z.ltb_ge, zlen_nil_inv in Hx; rename Hx into Hnil end.
      rewrite direct_all_cons in Hnil. by destruct (direct_matches (cf_outputs cfg) r).
  - exists true, 0, d1, []. split_and!; try done; [by apply routed_nil|]. intros Hcalm.
    split; [done|]. by rewrite <- (Hv Hcalm).
Qed.

(** A task that is dropped again, and its chunk with it. *)
Definition dropped (t : nat) (k : flb_task) (d d' : delivery S) : Prop :=
  ∃ d1 k1, quiet d d1 ∧ d_map d1 = d_map d ∧ d_tasks d1 = <[t := k1]> (d_tasks d) ∧ t_ic k1 = t_ic k ∧
    t_id k1 = t_id k ∧ t_retries k1 = t_retries k ∧ destroyed t k1 d1 d'.

Lemma drop_spec C U B P n d t k evc l d0 :
  wf cfg (mk_hold C U [] B [] P n) d → d_tasks d0 !! t = Some k → t_retries k = [] →
  t_status k ≠ FLB_TASK_RUNNING → routed t evc l d0 d →
  ∃ d', (flb_task_destroy t true ≫= λ _, mret None : M (delivery S) (option nat)) d = Some (None, d') ∧
    wf cfg (mk_hold C U [] B [] P n) d' ∧ dropped t k d0 d'.
Proof.
  intros W Hk0 Hr Hst R. pose proof (routed_task _ _ _ _ _ _ R Hk0) as Hk.
  set (k1 := set_t_routes _ k) in Hk.
  destruct (task_destroy_spec C U B P n d t k1 true) as (d' & P' & Hrun & W' & HP & Hd); [done|done| |].
  { by eapply no_token_new. }
  exists d'. unfold mbind, M_bind. rewrite Hrun. split_and!; [done| |].
  - eapply wf_perm; [|exact W']. apply NoDup_Permutation; [by eapply wf_sched_nodup|by eapply wf_sched_nodup|].
    intros r. rewrite HP. cbn. rewrite Hr. split; [by intros [? _]|]. intros ?. split; [done|apply not_elem_of_nil].
  - exists d, k1. destruct R. split_and!; try done. by apply ro_tasks0.
Qed.

Lemma task_create_routes_spec C U B P n d t c k ck evc :
  wf cfg (mk_hold C U [] B [] P n) d → d_tasks d !! t = Some k → t_status k = FLB_TASK_NEW →
  t_routes k = [] → t_retries k = [] → t_ic k = Some c → d_chunks d !! c = Some ck →
  ∃ res d' ins, task_create_routes cfg route_condition t c (ck_in ck) evc d = Some (res, d') ∧
    cf_inputs cfg !! ck_in ck = Some ins ∧
    wf cfg (mk_hold C U [] B [] P n) d' ∧
    match res with
    | Some t' => t' = t ∧ ∃ l, routed t evc l d d' ∧ l ≠ [] ∧
        (calm (env_of d) → l = selected_outputs evc ck ins)
    | None => dropped t k d d' ∧ (calm (env_of d) → selected_outputs evc ck ins = [])
    end.
Proof.
  intros W Hk Hst Hr Hret Hic Hck.
  destruct (wh_chunk _ _ _ (wf_h _ _ _ W) c ck Hck) as [[Hin _ Hmask] _].
  destruct (lookup_lt_is_Some_2 _ _ Hin) as [ins Hins].
  assert (Hnew : t_status k ≠ FLB_TASK_RUNNING) by by rewrite Hst.
  assert (Houts : ∀ d1 l, routed t evc l d d1 → outs_of d1 t = l).
  { intros d1 l R. rewrite (routed_outs _ _ _ _ _ _ Hk R). unfold outs_of. by rewrite Hk, Hr. }
  unfold task_create_routes. unfold mbind at 1, M_bind at 1. rewrite (chunk_at_run c ck d Hck).
  destruct (stored_spec _ t c evc d k ck ins W Hk Hr Hck) as (ok & n1 & d1 & l1 & Hrun & W1 & R1 & Hn1 & Hc1).
  unfold mbind at 1, M_bind at 1. rewrite Hrun. cbn [fst snd].
  destruct ok; cbn [negb].
  2: { destruct (drop_spec C U B P n d1 t k evc l1 d) as (d' & Hd & W' & Hdr); try done.
       exists None, d', ins. split; [exact Hd|]. split_and!; try done. intros Hc. by destruct (Hc1 Hc). }
  destruct (Z.ltb_spec 0 n1) as [Hpos|Hzero].
  { exists (Some t), d1, ins. split; [done|]. split_and!; try done. exists l1. split_and!; [done| |].
    - intros ->. unfold zlen in Hn1. cbn in Hn1. lia.
    - intros Hc. by destruct (Hc1 Hc) as [_ ?]. }
  assert (Hl1 : l1 = []). { destruct l1; [done|]. unfold zlen in Hn1. cbn in Hn1. lia. }
  subst l1. unfold mbind at 1, M_bind at 1. rewrite Hins. cbn [deref].
  pose proof (routed_task _ _ _ _ _ _ R1 Hk) as Hk1.
  assert (Hnone : ∀ l d2, routed t evc l d1 d2 → routed t evc l d d2).
  { intros l d2. by apply (routed_trans t evc [] l d d1 d2 k). }
  destruct (i_routes_direct ins) as [|path paths] eqn:Hpaths.
  - destruct (add_masked_spec _ t evc (ck_routes_mask ck) (cf_outputs cfg) 0 0 d1 _ W1 Hk1)
      as (n2 & d2 & l2 & Hrun2 & W2 & R2 & -> & Hc2); [done|done| |].
    { intros o. rewrite (Houts _ _ R1). by intros ?%not_elem_of_nil. }
    unfold mbind at 1, M_bind at 1. rewrite Hrun2.
    assert (Hsel : calm (env_of d) → l2 = selected_outputs evc ck ins).
    { intros Hc. destruct (Hc1 Hc) as [_ ->]. apply Hc2. by apply (qu_calm _ _ (ro_quiet _ _ _ _ _ R1)). }
    destruct (Z.eqb_spec (0 + zlen l2) 0) as [Hz|Hnz].
    + assert (l2 = []) as ->. { destruct l2; [done|]. unfold zlen in Hz. cbn in Hz. lia. }
      apply (wf_emit _ _ (Unmatched c (ck_total_records ck))) in W2.
      unfold mbind at 1, M_bind at 1. rewrite emit_run.
      edestruct (drop_spec C U B P n _ t k evc [] d W2 Hk Hret Hnew) as (d' & Hd & W' & Hdr).
      { apply Hnone in R2. destruct R2 as [Q2 M2 T2]. constructor; [|done|done]. destruct Q2.
        constructor; try done; rewrite (env_of_set _ d2); done. }
      exists None, d', ins. split; [exact Hd|]. split_and!; try done. intros Hc. by rewrite <- Hsel.
    + exists (Some t), d2, ins. split; [done|]. split_and!; try done. exists l2. split_and!; [by apply Hnone| |done].
      intros ->. done.
  - destruct (co_paths _ Hcfg _ _ Hins) as [Hnd Hrange]. rewrite Hpaths in Hnd, Hrange.
    destruct (add_paths_spec _ t evc (ck_routes_mask ck) (path :: paths) 0 d1 _ W1 Hk1 Hmask Hnd Hrange)
      as (ok & n2 & d2 & l2 & Hrun2 & W2 & R2 & -> & _ & Hc2).
    { intros p _. rewrite (Houts _ _ R1). apply not_elem_of_nil. }
    unfold mbind at 1, M_bind at 1. rewrite Hrun2. cbn [fst snd].
    assert (Hsel : calm (env_of d) → ok = true ∧ l2 = selected_outputs evc ck ins).
    { intros Hc. destruct (Hc1 Hc) as [_ ->]. apply Hc2. by apply (qu_calm _ _ (ro_quiet _ _ _ _ _ R1)). }
    destruct (negb ok || (0 + zlen l2 =? 0)) eqn:Hdrop.
    + destruct (drop_spec C U B P n d2 t k evc l2 d W2 Hk Hret Hnew (Hnone _ _ R2)) as (d' & Hd & W' & Hdr).
      exists None, d', ins. split; [exact Hd|]. split_and!; try done. intros Hc.
      destruct (Hsel Hc) as [-> <-]. cbn in Hdrop. apply Z.eqb_eq in Hdrop. destruct l2; [done|].
      unfold zlen in Hdrop. cbn in Hdrop. lia.
    + apply orb_false_iff in Hdrop as [_ Hnz%Z.eqb_neq].
      exists (Some t), d2, ins. split; [done|]. split_and!; try done. exists l2. split_and!; [by apply Hnone| |].
      * intros ->. done.
      * intros Hc. by apply Hsel.
Qed.

Lemma event_chunk_create_spec h type total size d : wf cfg h d →
  ∃ res e, flb_event_chunk_create type total size d = Some (res, set_env e d) ∧
    wf cfg h (set_env e d) ∧ quiet d (set_env e d) ∧
    match res with Some evc => evc = mk_evc type total size | None => ¬ calm (env_of d) end.
Proof.
  intros W. unfold flb_event_chunk_create. unfold mbind at 1, M_bind at 1.
  destruct (malloc_quiet d) as (p & e & -> & Hq & He & Hcalm & Hp). pose proof (wf_env cfg _ d e W He) as W1.
  destruct p as [p|].
  2: { exists None, e. split_and!; try done. intros Hc. by apply Hcalm in Hc as []. }
  unfold mbind at 1, M_bind at 1.
  destruct (malloc_quiet (set_env e d)) as (p2 & e2 & -> & Hq2 & He2 & Hcalm2 & Hp2).
  pose proof (wf_env cfg _ _ e2 W1 He2) as W2. rewrite (set_env_set e2 e d) in *.
  destruct p2 as [p2|]; eexists _, e2; (split; [done|]); split_and!; try done; try by etrans.
  intros Hc. assert (Hc1 : calm (env_of (set_env e d))) by by apply Hq. by apply Hcalm2 in Hc1 as [].
Qed.

(** What [flb_task_create] leaves alone. *)
Record create_frame (d d' : delivery S) : Prop := {
  cf_retries : d_retries d' = d_retries d;
  cf_queues : d_queues d' = d_queues d;
  cf_flushes : d_flushes d' = d_flushes d
}.

Definition create_result (size : Z) (c : nat) (ck : flb_input_chunk) (ins : flb_input_instance)
    (d d' : delivery S) (res : option nat * bool) : Prop :=
  let evc := mk_evc (ck_event_type ck) (ck_total_records ck) size in
  match res with
  | (Some t, _) => d_tasks d !! t = None ∧ d_in_chunks d' = d_in_chunks d ∧
      d_chunks d' = <[c := set_ck_task (Some t) ck]> (d_chunks d) ∧
      ∃ k l, d_tasks d' = <[t := k]> (d_tasks d) ∧ t_status k = FLB_TASK_NEW ∧ t_users k = 0 ∧
        t_retries k = [] ∧ t_ic k = Some c ∧ t_event_chunk k = Some evc ∧
        t_routes k = new_route evc <$> l ∧ l ≠ [] ∧
        (calm (env_of d) → l = selected_outputs evc ck ins)
  | (None, false) => d_tasks d' = d_tasks d ∧ d_chunks d' = delete c (d_chunks d) ∧
      d_in_chunks d' = unlink_all c (d_in_chunks d) ∧
      (calm (env_of d) → selected_outputs evc ck ins = [])
  | (None, true) => d_tasks d' = d_tasks d ∧ d_chunks d' = d_chunks d ∧ d_in_chunks d' = d_in_chunks d ∧
      (calm (env_of d) → map_full d)
  end.

Lemma task_create_spec C U B P n d ref_id size c ck :
  wf cfg (mk_hold C U [] B [] P n) d → d_chunks d !! c = Some ck → ck_task ck = None → ck_busy ck = true →
  ∃ res d' ins, flb_task_create cfg route_condition ref_id size (ck_in ck) c d = Some (res, d') ∧
    cf_inputs cfg !! ck_in ck = Some ins ∧ wf cfg (mk_hold C U [] B [] P n) d' ∧
    create_frame d d' ∧ create_result size c ck ins d d' res.
Proof.
  intros W Hck Hct Hbusy. set (evc := mk_evc (ck_event_type ck) (ck_total_records ck) size).
  destruct (wh_chunk _ _ _ (wf_h _ _ _ W) c ck Hck) as [[Hin _ _] _].
  destruct (lookup_lt_is_Some_2 _ _ Hin) as [ins Hins].
  unfold flb_task_create. unfold mbind at 1, M_bind at 1.
  destruct (task_alloc_spec _ _ _ _ _ _ _ W) as (p & d1 & -> & Q1 & Hp).
  destruct p as [t|].
  2: { destruct Hp as (W1 & Ht1 & Hfull). exists (None, true), d1, ins. split_and!; try done.
       - destruct Q1. by constructor.
       - destruct Q1. by split_and!. }
  destruct Hp as (W1 & Hfresh & id & Ht1 & Hmap1).
  set (k0 := mk_task id 0 FLB_TASK_NEW 0 None None 0 [] [] None) in *.
  assert (Hk1 : d_tasks d1 !! t = Some k0) by by rewrite Ht1, lookup_insert_eq.
  unfold mbind at 1, M_bind at 1. rewrite (chunk_at_run c ck) by by rewrite (qu_chunks _ _ Q1).
  unfold mbind at 1, M_bind at 1.
  destruct (event_chunk_create_spec _ (ck_event_type ck) (ck_total_records ck) size d1 W1) as (oevc & e & -> & W2 & Q2 & Hevc).
  set (d2 := set_env e d1) in *.
  destruct oevc as [evc'|].
  2: { mrun. exists (None, true). eexists _, ins. split; [done|].
       eapply (wf_free_task cfg _ _ _ _ _ _ _ d2 t k0) in W2; [|done|by apply not_elem_of_nil|done].
       split_and!; try done.
       - destruct Q1. by constructor.
       - cbn. split_and!; [|apply Q1|apply Q1|by intros Hc; apply Q1 in Hc]. rewrite Ht1. by apply delete_insert_id. }
  subst evc'. fold evc. unfold store_chunk, store_task, link_at. mrun.
  rewrite (task_at_run t k0) by done. cbn -[d2].
  destruct (wf_h _ _ _ W2) as [_ _ Hlen _ _ _ _ _ _ _ _ _ _ _ _].
  destruct (lookup_lt_is_Some_2 (d_in_tasks d2) (ck_in ck)) as [l0 Hl0]; [by rewrite Hlen|].
  change (d_in_tasks d1) with (d_in_tasks d2). rewrite Hl0. cbn -[d2].
  set (k2 := mk_task id ref_id FLB_TASK_NEW 0 (Some evc) (Some c) (ck_total_records ck) [] [] (Some (ck_in ck))).
  eapply (wf_link_task cfg _ _ _ _ _ _ _ d2 t k0 k2 c ck l0) in W2 as W3; try done; [|by apply not_elem_of_nil|by rewrite (qu_chunks _ _ Q2), (qu_chunks _ _ Q1)].
  set (d3 := set_d_in_tasks _ _) in W3.
  match goal with |- context [task_create_routes _ _ _ _ _ _ ?x] => change x with d3 end.
  assert (Hc3 : d_chunks d3 = <[c := set_ck_task (Some t) ck]> (d_chunks d)).
  { unfold d3. cbn -[d2]. by rewrite (qu_chunks _ _ Q2), (qu_chunks _ _ Q1). }
  assert (Ht3 : d_tasks d3 = <[t := k2]> (d_tasks d)).
  { change (<[t := k2]> (d_tasks d1) = <[t := k2]> (d_tasks d)). by rewrite Ht1, insert_insert_eq. }
  assert (Hcalm3 : calm (env_of d) → calm (env_of d3)).
  { intros Hc. apply (qu_calm _ _ Q2), (qu_calm _ _ Q1), Hc. }
  destruct (task_create_routes_spec C U B P n d3 t c k2 (set_ck_task (Some t) ck) evc W3)
    as (res & d4 & ins' & Hrun & Hins' & W4 & Hres); try done.
  { by rewrite Ht3, lookup_insert_eq. }
  { by rewrite Hc3, lookup_insert_eq. }
  cbn in Hins', Hrun. rewrite Hins in Hins'. injection Hins' as <-. rewrite Hrun.
  exists (res, false), d4, ins. split; [done|]. split_and!; try done.
  - destruct res as [t'|].
    + destruct Hres as (-> & l & [[] _ _] & _). destruct Q1, Q2.
      constructor; [by rewrite qu_retries0|by rewrite qu_queues0|by rewrite qu_flushes0].
    + destruct Hres as [(d5 & k5 & Q5 & _ & Ht5 & Hic5 & _ & Hret5 & Hd5) _]. destruct Q1, Q5.
      constructor.
      * apply map_eq. intros r. rewrite (de_retries _ _ _ _ Hd5), Hret5. cbn. rewrite decide_False by apply not_elem_of_nil.
        transitivity (d_retries d1 !! r); [by rewrite qu_retries1|by rewrite qu_retries0].
      * rewrite (de_queues _ _ _ _ Hd5), qu_queues1. exact qu_queues0.
      * rewrite (de_flushes _ _ _ _ Hd5), qu_flushes1. exact qu_flushes0.
  - destruct res as [t'|].
    + destruct Hres as (-> & l & R & Hl & Hc). split_and!; [done| | |].
      * rewrite (qu_in_chunks _ _ (ro_quiet _ _ _ _ _ R)). apply Q1.
      * rewrite (qu_chunks _ _ (ro_quiet _ _ _ _ _ R)). exact Hc3.
      * eexists _, l. split.
        { rewrite (ro_tasks _ _ _ _ _ R k2) by by rewrite Ht3, lookup_insert_eq.
          by rewrite Ht3, insert_insert_eq. }
        split_and!; try done. intros Hcalm. by apply Hc, Hcalm3.
    + destruct Hres as [(d5 & k5 & Q5 & _ & Ht5 & Hic5 & _ & Hret5 & Hd5) Hc]. cbn. split_and!.
      * rewrite (de_tasks _ _ _ _ Hd5), Ht5, Ht3, insert_insert_eq. by apply delete_insert_id.
      * rewrite (de_chunks _ _ _ _ Hd5 c) by by rewrite Hic5. rewrite (qu_chunks _ _ Q5), Hc3. apply delete_insert_eq.
      * rewrite (de_in_chunks _ _ _ _ Hd5 c) by by rewrite Hic5. rewrite (qu_in_chunks _ _ Q5). f_equal. apply Q1.
      * intros Hcalm. by apply Hc, Hcalm3.
Qed.

(** ** Properties *)

(** A chunk becomes a task for exactly the outputs it is routed to.  From a consistent state, and
    when memory lasts, [flb_task_create] either makes a NEW task with one route per selected output,
    in order (the outputs stored in the chunk when all of them still exist, else the direct routes of
    its input, else the bits of its mask), or, when no output is selected, destroys the chunk; it
    refuses only when all 16384 task ids are taken.  The state stays consistent. *)
Theorem flb_task_create_selects n d ref_id size c ck ins :
  delivery_ok cfg n d → d_chunks d !! c = Some ck → ck_task ck = None → ck_busy ck = true →
  cf_inputs cfg !! ck_in ck = Some ins → calm (env_of d) →
  let evc := mk_evc (ck_event_type ck) (ck_total_records ck) size in
  let outs := selected_outputs evc ck ins in
  ∃ res d', flb_task_create cfg route_condition ref_id size (ck_in ck) c d = Some (res, d') ∧
    delivery_ok cfg n d' ∧
    match res with
    | (Some t, _) => outs ≠ [] ∧ d_tasks d !! t = None ∧
        ∃ k, d_tasks d' = <[t := k]> (d_tasks d) ∧ t_routes k = new_route evc <$> outs ∧
          t_status k = FLB_TASK_NEW ∧ t_users k = 0 ∧ t_ic k = Some c ∧ t_event_chunk k = Some evc
    | (None, false) => outs = [] ∧ d_tasks d' = d_tasks d ∧ d_chunks d' = delete c (d_chunks d)
    | (None, true) => map_full d ∧ d_tasks d' = d_tasks d ∧ d_chunks d' = d_chunks d
    end.
Proof.
  intros W Hck Hct Hb Hins Hcalm evc outs.
  destruct (task_create_spec [] [] [] _ n d ref_id size c ck W Hck Hct Hb) as (res & d' & ins' & Hrun & Hins' & W' & _ & Hres).
  rewrite Hins in Hins'. injection Hins' as <-. exists res, d'. split; [done|]. split.
  { eapply wf_perm; [|exact W']. symmetry. by apply (wr_pending _ _ (wf_r _ _ _ W')). }
  destruct res as [[t|] [|]]; cbn in Hres.
  3: { destruct Hres as (? & ? & _ & Hf). split_and!; try done. by apply Hf. }
  3: { destruct Hres as (? & ? & _ & Hf). split_and!; try done. by apply Hf. }
  all: destruct Hres as (Hnew & _ & _ & k & l & Htk & Hst & Hu & _ & Hic & Hevc & Hr & Hl & Hsel).
  all: specialize (Hsel Hcalm); subst l; split; [done|]; split; [done|]; by exists k.
Qed.

(** Task ids: [flb_task_map_get_task_id] hands out the lowest free slot of the task map, growing
    the map when it is full; when memory lasts it fails only with all 16384 slots taken.  It keeps
    the state consistent and the tasks as they were. *)
Theorem flb_task_map_get_task_id_lowest n d :
  delivery_ok cfg n d →
  ∃ id d', flb_task_map_get_task_id d = Some (id, d') ∧ wf cfg (idle n d) d' ∧ d_tasks d' = d_tasks d ∧
    ((id = -1 ∧ (calm (env_of d) → map_full d)) ∨
     (0 <= id < FLB_CONFIG_DEFAULT_TASK_MAP_SIZE_LIMIT ∧ d_map d' !! Z.to_nat id = Some None ∧
      ∀ m, (m < Z.to_nat id)%nat → ∃ t, d_map d' !! m = Some (Some t))).
Proof.
  intros W. destruct (map_get_task_id_spec _ d W) as (id & d' & Hrun & W' & _ & Ht & Hid).
  exists id, d'. split_and!; try done. destruct Hid as [(-> & Hall & Hf)|(Hpos & Hslot & Hlow)]; [left|right].
  - split; [done|]. intros Hc. split; [by apply Hf|done].
  - split_and!; try done. destruct (wh_map _ _ _ (wf_h _ _ _ W')) as [_ Hle]. unfold zlen in Hle.
    apply lookup_lt_Some in Hslot. lia.
Qed.
End specs.
