(* ===== verification/Output.v ===== *)
(** * Output flushes and the queue of synchronous outputs ([src/flb_output.c])

    A synchronous output works on one task at a time; the others wait in its [singleplex_queue]. *)
From S2P Require Import Prelude Env RetryQueue Router RoutesMask Delivery Invariant Task.

(** [flb_output_get_instance]: the first output with the id. *)
Fixpoint output_by_id (id : Z) (n : nat) (outs : list flb_output_instance) : option nat :=
  match outs with
  | [] => None
  | o :: outs' => if o_id o =? id then Some n else output_by_id id (Datatypes.S n) outs'
  end.
Definition flb_output_get_instance (cfg : flb_config) (out_id : Z) : option nat :=
  output_by_id out_id 0 (cf_outputs cfg).

(** [flb_output_flush_id_get]: the id handed out and the next one; 14 bits. *)
Definition flb_output_flush_id_get (flush_id : Z) : Z * Z :=
  let max := Z.shiftl 2 13 - 1 in
  let next := flush_id + 1 in
  (flush_id, if max <? next then 0 else next).

Section operations.
Context {S : Type} `{RetryQueue S}.
Context (cfg : flb_config).

Definition output_at (o : nat) : M (delivery S) flb_output_instance := deref (cf_outputs cfg !! o).

(** [flb_output_coros_size]: the flushes of the output that have not returned. *)
Definition flb_output_coros_size (o : nat) : M (delivery S) Z :=
  gets (λ d, zlen (filter (λ f, of_out f = o ∧ of_returned f = false) (d_flushes d))).

(** [flb_output_flush_create]: the context, its coroutine, and the processors of the output, which
    may refuse; the result is the flush, linked in no list the engine reads before it is handed over. *)
Definition flb_output_flush_create : M (delivery S) bool :=
  p ← malloc;
  match p with
  | None => mret false
  | Some _ =>
      q ← malloc;
      match q with
      | None => mret false
      | Some _ => syscall
      end
  end.

(** [flb_pipe_w] to the engine, or [flb_output_thread_pool_flush]: on success the flush is under way. *)
Definition hand_over (t o : nat) : M (delivery S) Z :=
  ok ← syscall;
  if (ok : bool) then
    modify (λ d, set_d_flushes (d_flushes d ++ [mk_flush t o FlushWaiting]) d) ≫= λ _,
    emit (Dispatched t o) ≫= λ _, mret 0
  else mret (-1).

(** An entry of a queue, found by its address; freed entries are in no list. *)
Definition entry_at (o a : nat) : M (delivery S) flb_task_enqueued :=
  q ← queue_at o;
  deref (List.find (λ e, bool_decide (eq_addr e = a)) (q_in_progress q ++ q_pending q)).

Definition flb_output_task_queue_enqueue (o : nat) (retry : option nat) (t : nat)
    : M (delivery S) Z :=
  p ← malloc;
  match p with
  | None =>
      (match retry with None => mret tt | Some r => flb_task_retry_destroy r end) ≫= λ _, mret (-1)
  | Some a =>
      q ← queue_at o;
      store_queue o (set_q_pending (q_pending q ++ [mk_enq a t retry o]) q) ≫= λ _, mret 0
  end.

(** [flb_output_task_flush], given the function that flushes the next entry of a queue. *)
Definition task_flush_with (flush_next : nat → M (delivery S) Z) (t o : nat) : M (delivery S) Z :=
  ins ← output_at o;
  if o_is_threaded ins then
    flb_task_users_inc t ≫= λ _,
    ret ← hand_over t o;
    when (ret =? -1)
      (flb_task_users_dec t false ≫= λ _,
       when (has_flag ins FLB_OUTPUT_SYNCHRONOUS) (flush_next o ≫= λ _, mret tt)) ≫= λ _,
    mret 0
  else
    _ ← task_at t;
    created ← flb_output_flush_create;
    if negb created then mret (-1)
    else
      flb_task_users_inc t ≫= λ _,
      ret ← hand_over t o;
      if ret =? -1 then
        flb_task_users_dec t false ≫= λ _,
        when (has_flag ins FLB_OUTPUT_SYNCHRONOUS) (flush_next o ≫= λ _, mret tt) ≫= λ _,
        mret (-1)
      else mret 0.

(** [flb_output_task_queue_flush_one], likewise. *)
Definition flush_one_with (flush_next : nat → M (delivery S) Z) (o : nat) : M (delivery S) Z :=
  q ← queue_at o;
  match q_pending q with
  | [] => mret (-1)
  | e :: pending =>
      store_queue o (mk_queue pending (q_in_progress q ++ [e])) ≫= λ _,
      flb_task_users_dec (eq_task e) false ≫= λ _,
      ret ← task_flush_with flush_next (eq_task e) (eq_out e);
      if ret =? -1 then
        e' ← entry_at o (eq_addr e);
        (match eq_retry e' with None => mret tt | Some r => flb_task_retry_destroy r end) ≫= λ _,
        flush_next o ≫= λ _, mret (-1)
      else mret ret
  end.

(** [flb_output_task_singleplex_flush_next] with a bound on the recursion between the three
    functions.  Every round takes an entry out of [pending], so one more than the entries there are
    is enough; out of [fuel] the result is undefined. *)
Fixpoint flush_next_fuel (fuel : nat) (o : nat) : M (delivery S) Z :=
  match fuel with
  | O => ub
  | Datatypes.S fuel' =>
      q ← queue_at o;
      store_queue o (set_q_in_progress (tail (q_in_progress q)) q) ≫= λ _,
      match q_pending q with
      | [] => mret 0
      | _ :: _ => flush_one_with (flush_next_fuel fuel') o
      end
  end.

Definition flb_output_task_singleplex_flush_next (o : nat) : M (delivery S) Z :=
  q ← queue_at o; flush_next_fuel (Datatypes.S (length (q_pending q))) o.

Definition flb_output_task_flush (t o : nat) : M (delivery S) Z :=
  task_flush_with flb_output_task_singleplex_flush_next t o.

Definition flb_output_task_queue_flush_one (o : nat) : M (delivery S) Z :=
  flush_one_with flb_output_task_singleplex_flush_next o.

Definition flb_output_task_singleplex_enqueue (o : nat) (retry : option nat) (t : nat)
    : M (delivery S) Z :=
  flb_task_users_inc t ≫= λ _,
  ret ← flb_output_task_queue_enqueue o retry t;
  if ret =? -1 then mret (-1)
  else
    q ← queue_at o;
    match q_in_progress q with
    | [] => flb_output_task_queue_flush_one o
    | _ :: _ => mret 0
    end.
End operations.

(** ** Specifications *)

Section evolves.
Context {S : Type} `{RetryQueue S} (cfg : flb_config).

#[global] Instance evolves_map_set id t : Evolves (map_set_task_id (S := S) id t).
Proof. unfold map_set_task_id. evolve. Qed.
#[global] Instance evolves_retry_destroy r : Evolves (flb_task_retry_destroy (S := S) r).
Proof. unfold flb_task_retry_destroy, store_task. evolve. Qed.
#[global] Instance evolves_task_destroy t del : Evolves (flb_task_destroy (S := S) t del).
Proof.
  unfold flb_task_destroy, map_free_task_id, store_task, flb_input_chunk_destroy, flb_input_chunk_set_limits.
  evolve.
Qed.
#[global] Instance evolves_users_inc t : Evolves (flb_task_users_inc (S := S) t).
Proof. unfold flb_task_users_inc, store_task. evolve. Qed.
#[global] Instance evolves_users_release t : Evolves (flb_task_users_release (S := S) t).
Proof. unfold flb_task_users_release. evolve. Qed.
#[global] Instance evolves_users_dec t b : Evolves (flb_task_users_dec (S := S) t b).
Proof. unfold flb_task_users_dec, store_task. evolve. Qed.
#[global] Instance evolves_hand_over t o : Evolves (hand_over (S := S) t o).
Proof. unfold hand_over. evolve. Qed.
#[global] Instance evolves_flush_create : Evolves (flb_output_flush_create (S := S)).
Proof. unfold flb_output_flush_create. evolve. Qed.
#[global] Instance evolves_task_flush_with next t o :
  (∀ o', Evolves (next o')) → Evolves (task_flush_with (S := S) cfg next t o).
Proof. intros Hn. unfold task_flush_with, output_at. evolve. Qed.
#[global] Instance evolves_flush_one_with next o :
  (∀ o', Evolves (next o')) → Evolves (flush_one_with (S := S) cfg next o).
Proof. intros Hn. unfold flush_one_with, store_queue, entry_at. evolve. Qed.
#[global] Instance evolves_flush_next_fuel fuel : ∀ o, Evolves (flush_next_fuel (S := S) cfg fuel o).
Proof. induction fuel as [|fuel IH]; intros o; cbn; unfold store_queue; evolve. Qed.
#[global] Instance evolves_flush_next o : Evolves (flb_output_task_singleplex_flush_next (S := S) cfg o).
Proof. unfold flb_output_task_singleplex_flush_next. evolve. Qed.
#[global] Instance evolves_task_flush t o : Evolves (flb_output_task_flush (S := S) cfg t o).
Proof. unfold flb_output_task_flush. apply _. Qed.
#[global] Instance evolves_enqueue o retry t : Evolves (flb_output_task_singleplex_enqueue (S := S) cfg o retry t).
Proof.
  unfold flb_output_task_singleplex_enqueue, flb_output_task_queue_enqueue, flb_output_task_queue_flush_one, store_queue.
  evolve.
Qed.
End evolves.

Section specs.
Context {S : Type} `{RetryQueue S} (cfg : flb_config) (Hcfg : config_ok cfg).
Implicit Types (d : delivery S).

(** Failing to write to the pipe of the engine is survived by every output but the synchronous ones
    that run in the engine itself. *)
Definition sync_ok (d : delivery S) : Prop :=
  e_sys (env_of d) = [] ∨
  ∀ o ins, cf_outputs cfg !! o = Some ins → is_sync cfg o = true → o_is_threaded ins = true.

Lemma sync_ok_le d d' : env_le (env_of d) (env_of d') → sync_ok d → sync_ok d'.
Proof.
  intros Hle [Hs|Hs]; [left|by right]. destruct Hle as [_ _ Hsuf _ _]. rewrite Hs in Hsuf.
  by apply suffix_nil_inv.
Qed.

Lemma sync_ok_run {A} (m : M (delivery S) A) `{!Evolves m} d a d' : m d = Some (a, d') → sync_ok d → sync_ok d'.
Proof. intros Hm. apply sync_ok_le. by apply (evolves (m := m) _ _ _ Hm). Qed.

(** The pairs flushed or queued afterwards were so before, or are among [X]. *)
Definition pairs_le (X : list (nat * nat)) (d d' : delivery S) : Prop :=
  ∀ p, p ∈ flush_pairs d' ++ queue_pairs d' → p ∈ X ++ flush_pairs d ++ queue_pairs d.

Lemma pairs_le_refl X d : pairs_le X d d.
Proof. intros p ?. apply elem_of_app. by right. Qed.

Lemma pairs_le_trans X Y d1 d2 d3 : pairs_le X d1 d2 → pairs_le Y d2 d3 → Y ⊆ X ++ flush_pairs d1 ++ queue_pairs d1 →
  pairs_le X d1 d3.
Proof. intros H1 H2 HY p Hp. apply H2, elem_of_app in Hp as [?|?]; [by apply HY|by apply H1]. Qed.

Lemma pairs_le_same X d d' : d_flushes d' = d_flushes d → d_queues d' = d_queues d → pairs_le X d d'.
Proof. intros Hf Hq p. unfold flush_pairs, queue_pairs. rewrite Hf, Hq, !elem_of_app. tauto. Qed.

Lemma syscall_quiet d : ∃ b e, syscall d = Some (b, set_env e d) ∧ quiet d (set_env e d) ∧
  (e_next (env_of d) <= e_next e)%nat ∧ (e_sys (env_of d) = [] → b = true).
Proof.
  unfold syscall. destruct (e_sys (env_of d)) as [|b script] eqn:Hs.
  - exists true, (env_of d). rewrite set_env_of. by split_and!.
  - exists b, (set_e_sys script (env_of d)). split; [done|]. split_and!; [|done|done].
    constructor; try done; rewrite (env_of_set _ d); [|done].
    intros [_ Hc]. discriminate (eq_trans (eq_sym Hs) Hc).
Qed.

Lemma quiet_env_trans d e e' : quiet d (set_env e d) → quiet (set_env e d) (set_env e' (set_env e d)) →
  quiet d (set_env e' d).
Proof. intros Q1 Q2. rewrite (set_env_set e' e d) in Q2. by etrans. Qed.

Lemma flush_create_spec h d : wf cfg h d →
  ∃ b e, flb_output_flush_create d = Some (b, set_env e d) ∧ wf cfg h (set_env e d) ∧
    quiet d (set_env e d) ∧ (calm (env_of d) → b = true).
Proof.
  intros W. unfold flb_output_flush_create. mrun.
  destruct (malloc_quiet d) as (p & e & -> & Q1 & He & Hc & _). pose proof (wf_env cfg _ d e W He) as W1.
  destruct p as [p|]. 2: { exists false, e. split_and!; try done. intros Hcalm. by apply Hc in Hcalm as []. }
  destruct (malloc_quiet (set_env e d)) as (p2 & e2 & -> & Q2 & He2 & Hc2 & _).
  pose proof (wf_env cfg _ _ e2 W1 He2) as W2. rewrite (set_env_set e2 e d) in *.
  assert (Q12 : quiet d (set_env e2 d)) by by etrans.
  destruct p2 as [p2|].
  2: { exists false, e2. split_and!; try done. intros Hcalm. apply Q1, Hc2 in Hcalm as []. done. }
  destruct (syscall_quiet (set_env e2 d)) as (b & e3 & -> & Q3 & He3 & Hc3).
  pose proof (wf_env cfg _ _ e3 W2 He3) as W3. rewrite (set_env_set e3 e2 d) in *.
  exists b, e3. split_and!; try done; [by etrans|]. intros Hcalm. apply Hc3. by apply Q12.
Qed.

Lemma quiet_log d l : quiet d (set_env (set_e_log l (env_of d)) d).
Proof. constructor; try done; by rewrite (env_of_set _ d). Qed.

Lemma hand_over_spec t o d :
  ∃ v e, (v = 0 ∨ v = -1 ∧ e_sys (env_of d) ≠ []) ∧ (e_next (env_of d) <= e_next e)%nat ∧
    quiet d (set_env e d) ∧
    hand_over t o d = Some (v, let d1 := set_env e d in
      if v =? 0 then set_d_flushes (d_flushes d ++ [mk_flush t o FlushWaiting]) d1 else d1).
Proof.
  unfold hand_over. mrun. destruct (syscall_quiet d) as (b & e & -> & Q & He & Hs). destruct b.
  - set (e' := set_e_log (e_log (env_of (set_env e d)) ++ [Dispatched t o]) (env_of (set_env e d))).
    exists 0, e'. split_and!; [by left| | |].
    + unfold e'. rewrite (env_of_set e d). exact He.
    + rewrite <- (set_env_set e' e d). etrans; [exact Q|apply quiet_log].
    + rewrite emit_run. unfold set_d_rq, set_d_flushes. cbn. rewrite set_env_set. done.
  - exists (-1), e. split_and!; try done. right. split; [done|]. intros Hn. by specialize (Hs Hn).
Qed.

(** What all operations on flushes and queues have in common: they start from tokens [X]. *)
Record flush_frame (o : nat) (X : list (nat * nat)) (d d' : delivery S) : Prop := {
  ff_frame : frame d d';
  ff_pairs : pairs_le X d d';
  ff_queues o' : o' ≠ o → d_queues d' !! o' = d_queues d !! o';
  ff_calm : calm (env_of d) → calm (env_of d')
}.

Lemma flush_frame_refl o X d : flush_frame o X d d.
Proof. constructor; try done. apply pairs_le_refl. Qed.

Lemma flush_frame_trans o X Y d1 d2 d3 :
  flush_frame o X d1 d2 → flush_frame o Y d2 d3 → Y ⊆ X ++ flush_pairs d1 ++ queue_pairs d1 →
  flush_frame o X d1 d3.
Proof.
  intros [] [] HY. constructor; [by etrans|by eapply pairs_le_trans| |by auto].
  intros o' Ho. by rewrite ff_queues1, ff_queues0.
Qed.

(** Without failures nothing that is on its way is lost. *)
Definition pairs_kept (d d' : delivery S) : Prop :=
  calm (env_of d) → flush_pairs d ++ queue_pairs d ⊆ flush_pairs d' ++ queue_pairs d'.

Lemma pairs_kept_same d d' : d_flushes d' = d_flushes d → d_queues d' = d_queues d → pairs_kept d d'.
Proof. intros Hf Hq _. unfold flush_pairs, queue_pairs. by rewrite Hf, Hq. Qed.

Lemma pairs_kept_trans d1 d2 d3 : (calm (env_of d1) → calm (env_of d2)) →
  pairs_kept d1 d2 → pairs_kept d2 d3 → pairs_kept d1 d3.
Proof. intros Hc H1 H2 Hcalm. etrans; [by apply H1|]. by apply H2, Hc. Qed.

Lemma pairs_kept_not_calm d d' : ¬ calm (env_of d) → pairs_kept d d'.
Proof. by intros Hn Hc. Qed.

Lemma quiet_frame d d' : quiet d d' → d_map d' = d_map d → d_tasks d' = d_tasks d → frame d d'.
Proof. intros [] ? ?. by apply frame_same. Qed.

Lemma quiet_flush_frame o X d d' : quiet d d' → d_map d' = d_map d → d_tasks d' = d_tasks d → flush_frame o X d d'.
Proof.
  intros Q Hm Ht. constructor; [by apply quiet_frame| | |apply Q].
  - apply pairs_le_same; apply Q.
  - intros o' _. by rewrite (qu_queues _ _ Q).
Qed.

Lemma users_flush_frame o X d t k u :
  d_tasks d !! t = Some k → flush_frame o X d (set_d_tasks (<[t := set_t_users u k]> (d_tasks d)) d).
Proof.
  intros Hk. constructor; try done; [|by apply pairs_le_same]. eapply frame_store_task; try done.
Qed.

Lemma output_at_run o ins d : cf_outputs cfg !! o = Some ins → output_at cfg o d = Some (ins, d).
Proof. unfold output_at. by intros ->. Qed.

Lemma is_sync_flag o ins : cf_outputs cfg !! o = Some ins → has_flag ins FLB_OUTPUT_SYNCHRONOUS = is_sync cfg o.
Proof. unfold is_sync. by intros ->. Qed.

Lemma held_live C U R B O P n d t o : wf cfg (mk_hold C U R B O P n) d → (t, o) ∈ U ++ C →
  is_output cfg o ∧ ∃ k, d_tasks d !! t = Some k ∧ t_status k = FLB_TASK_RUNNING.
Proof.
  intros [_ Wt _ _] Hin. destruct (wt_live _ _ _ Wt t o) as (? & _ & ?); [|done].
  unfold counted. cbn. rewrite !elem_of_app in *. tauto.
Qed.

(** *** The outcome of [flb_output_task_flush] for a token held free *)
Inductive flush_result C U R B P n t o : Z → delivery S → delivery S → Prop :=
| FlushStarted d d' :                 (* the flush is under way *)
    wf cfg (mk_hold C U R B [] P n) d' → (t, o) ∈ flush_pairs d' →
    flush_result C U R B P n t o 0 d d'
| FlushLost d d' :                    (* a worker could not be reached; reported as success *)
    wf cfg (mk_hold C U R B [] P n) d' → ¬ calm (env_of d) →
    (∃ ins, cf_outputs cfg !! o = Some ins ∧ o_is_threaded ins = true) →
    flush_result C U R B P n t o 0 d d'
| FlushRefused d d' :
    wf cfg (mk_hold C ((t, o) :: U) R (if is_sync cfg o then o :: B else B) [] P n) d' →
    ¬ calm (env_of d) → d_queues d' = d_queues d → d_retries d' = d_retries d →
    flush_result C U R B P n t o (-1) d d'.

(** What is asked of the function that flushes the next entry of the queue of [o]. *)
Definition next_ok (flush_next : nat → M (delivery S) Z) (o : nat) (rest : list flb_task_enqueued) : Prop :=
  ∀ C U R B P n d q,
    wf cfg (mk_hold C U R (o :: B) [] P n) d → o ∉ B → d_queues d !! o = Some q → q_pending q = rest →
    (∀ e r, e ∈ rest → eq_retry e = Some r → r ∉ R.*2) → NoDup (R.*2 ++ P) → sync_ok d →
    ∃ v d', flush_next o d = Some (v, d') ∧ wf cfg (mk_hold C U R B [] P n) d' ∧ flush_frame o [] d d' ∧
      pairs_kept d d'.

Section task_flush.
(** The token [(t, o)] is held free; for a synchronous output its entry [e] is the one in progress. *)
Context (next : nat → M (delivery S) Z) (C U R : list (nat * nat)) (B P : list nat) (n : Z) (d : delivery S)
  (t o : nat) (rest : list flb_task_enqueued) (e : flb_task_enqueued) (ins : flb_output_instance).
Let B' : list nat := if is_sync cfg o then o :: B else B.
Context (HoB : o ∉ B) (Hins : cf_outputs cfg !! o = Some ins).
Context (Hsync : is_sync cfg o = true → d_queues d !! o = Some (mk_queue rest [e]) ∧ enq_pair e = (t, o) ∧
  next_ok next o rest ∧ (∀ e' r, e' ∈ rest → eq_retry e' = Some r → r ∉ R.*2) ∧ sync_ok d).
Context (HRP : NoDup (R.*2 ++ P)).

Lemma flush_added d1 : wf cfg (mk_hold ((t, o) :: C) U R B' [] P n) d1 → d_queues d1 = d_queues d →
  wf cfg (mk_hold C U R B [] P n) (set_d_flushes (d_flushes d1 ++ [mk_flush t o FlushWaiting]) d1).
Proof.
  intros W1 Hq1. unfold B' in W1. destruct (is_sync cfg o) eqn:Hs.
  - destruct (Hsync eq_refl) as (Hq & He & _). eapply wf_flush_add_sync; [done|done| |done]. by rewrite Hq1.
  - apply wf_flush_add; [done|by eapply lookup_lt_Some|done].
Qed.

(** One more user, and the task is handed over: to a coroutine or a worker. *)
Lemma hand_over_step d1 k1 :
  d_tasks d1 !! t = Some k1 → wf cfg (mk_hold C ((t, o) :: U) R B' [] P n) d1 →
  flush_frame o [(t, o)] d d1 → d_queues d1 = d_queues d → d_retries d1 = d_retries d →
  d_flushes d1 = d_flushes d →
  let d2 := set_d_tasks (<[t := set_t_users (t_users k1 + 1) k1]> (d_tasks d1)) d1 in
  ∃ e1, let d3 := set_env e1 d2 in let d4 := set_d_flushes (d_flushes d2 ++ [mk_flush t o FlushWaiting]) d3 in
    flb_task_users_inc t d1 = Some (tt, d2) ∧ flush_frame o [(t, o)] d d3 ∧
    ((hand_over t o d2 = Some (0, d4) ∧ wf cfg (mk_hold C U R B [] P n) d4 ∧ flush_frame o [(t, o)] d d4 ∧
      pairs_kept d d4) ∨
     (hand_over t o d2 = Some (-1, d3) ∧ e_sys (env_of d2) ≠ [] ∧
      let d5 := set_d_tasks (<[t := set_t_users (t_users k1 + 1 - 1) (set_t_users (t_users k1 + 1) k1)]> (d_tasks d3)) d3 in
      flb_task_users_dec t false d3 = Some (tt, d5) ∧ wf cfg (mk_hold C ((t, o) :: U) R B' [] P n) d5 ∧
      flush_frame o [(t, o)] d d5 ∧ d_queues d5 = d_queues d ∧ d_retries d5 = d_retries d)).
Proof.
  intros Hk1 W1 F1 Hq1 Hr1 Hf1 d2. destruct (users_inc_spec cfg _ _ _ _ _ _ _ _ _ _ _ W1 Hk1) as (Hinc & W2 & _).
  fold d2 in Hinc, W2. destruct (hand_over_spec t o d2) as (v & e1 & Hv & He1 & Q1 & Hrun). exists e1. intros d3 d4.
  pose proof (wf_env cfg _ d2 e1 W2 He1) as W3. fold d3 in W3.
  assert (F3 : flush_frame o [(t, o)] d d3).
  { eapply flush_frame_trans; [exact F1| |apply list_subseteq_nil].
    eapply flush_frame_trans; [by apply (users_flush_frame o [] d1 t k1)| |apply list_subseteq_nil].
    by apply quiet_flush_frame. }
  split_and!; [done|done|]. destruct Hv as [->|[-> Hsys]]; [left|right].
  - split_and!; [exact Hrun|by apply (flush_added d3)| |].
    + destruct F3. constructor; try done; [etrans; [done|by apply frame_same]|].
      intros p Hp. unfold flush_pairs, queue_pairs in Hp. cbn in Hp. rewrite fmap_app in Hp.
      rewrite !elem_of_app in Hp. destruct Hp as [[Hp|Hp]|Hp].
      * apply ff_pairs0. apply elem_of_app. by left.
      * apply elem_of_app. by left.
      * apply ff_pairs0. apply elem_of_app. by right.
    + intros _ p. unfold d4, flush_pairs, queue_pairs. cbn. rewrite Hf1, Hq1, fmap_app, !elem_of_app. tauto.
  - assert (Hk3 : d_tasks d3 !! t = Some (set_t_users (t_users k1 + 1) k1)) by apply lookup_insert_eq.
    destruct (users_dec_spec cfg _ _ _ _ _ _ _ _ _ _ _ W3 Hk3) as (Hdec & W5 & F5).
    split; [exact Hrun|]. split; [exact Hsys|]. cbv zeta. split_and!; try done.
    eapply flush_frame_trans; [exact F3| |apply list_subseteq_nil].
    exact (users_flush_frame o [] d3 t _ (t_users k1 + 1 - 1) Hk3).
Qed.

Lemma threaded_flush_spec : wf cfg (mk_hold C ((t, o) :: U) R B' [] P n) d → o_is_threaded ins = true →
  ∃ v d', task_flush_with cfg next t o d = Some (v, d') ∧ flush_result C U R B P n t o v d d' ∧
    flush_frame o [(t, o)] d d' ∧ pairs_kept d d'.
Proof.
  intros W Hthr. destruct (held_live _ _ _ _ _ _ _ _ t o W) as (_ & k & Hk & _); [by left|].
  destruct (hand_over_step d k Hk W (flush_frame_refl _ _ _) eq_refl eq_refl eq_refl) as (e1 & Hinc & F3 & Hcase).
  set (d2 := set_d_tasks _ d) in *. set (d3 := set_env e1 d2) in *.
  unfold task_flush_with. unfold mbind at 1, M_bind at 1. rewrite (output_at_run o ins d Hins), Hthr.
  unfold mbind at 1, M_bind at 1. rewrite Hinc. unfold mbind at 1, M_bind at 1.
  destruct Hcase as [(Hrun & W4 & F4 & K4)|(Hrun & Hsys & Hdec & W5 & F5 & Hq5 & _)]; rewrite Hrun.
  - eexists 0, _. split; [done|]. split; [|by split]. constructor 1; [exact W4|].
    unfold flush_pairs. cbn. rewrite fmap_app. apply elem_of_app. right. by left.
  - change (-1 =? -1) with true. unfold when at 1.
    unfold mbind at 1, M_bind at 1. unfold mbind at 1, M_bind at 1. cbv iota beta. rewrite Hdec.
    rewrite (is_sync_flag o ins Hins). set (d5 := set_d_tasks _ d3) in *.
    assert (Hnc : ¬ calm (env_of d)) by (intros [_ Hc]; by apply Hsys).
    unfold B' in W5. destruct (is_sync cfg o) eqn:Hs; unfold when.
    + destruct (Hsync eq_refl) as (Hq & He & Hnext & HR & Hok).
      destruct (Hnext C ((t, o) :: U) R B P n d5 (mk_queue rest [e]) W5 HoB) as (v' & d6 & Hr6 & W6 & F6 & _); try done.
      { destruct Hok as [Hok|Hok]; [|by right]. exfalso. by apply Hsys. }
      mrun. rewrite Hr6. eexists 0, d6. split; [done|]. split.
      * constructor 2; [|done|by exists ins]. by apply (wf_free_drop cfg C U [(t, o)]).
      * split; [eapply flush_frame_trans; [exact F5|exact F6|apply list_subseteq_nil]|by apply pairs_kept_not_calm].
    + eexists 0, d5. split; [done|]. split; [|split; [exact F5|by apply pairs_kept_not_calm]]. constructor 2; [|done|by exists ins].
      by apply (wf_free_drop cfg C U [(t, o)]).
Qed.

Lemma inline_flush_spec : wf cfg (mk_hold C ((t, o) :: U) R B' [] P n) d → o_is_threaded ins = false →
  ∃ v d', task_flush_with cfg next t o d = Some (v, d') ∧ flush_result C U R B P n t o v d d' ∧
    flush_frame o [(t, o)] d d' ∧ pairs_kept d d'.
Proof.
  intros W Hthr. destruct (held_live _ _ _ _ _ _ _ _ t o W) as (_ & k & Hk & _); [by left|].
  unfold task_flush_with. unfold mbind at 1, M_bind at 1. rewrite (output_at_run o ins d Hins), Hthr.
  unfold mbind at 1, M_bind at 1. rewrite (task_at_run t k d Hk).
  destruct (flush_create_spec _ d W) as (b & e0 & Hcr & W1 & Q1 & Hcalm).
  unfold mbind at 1, M_bind at 1. rewrite Hcr. set (d1 := set_env e0 d) in *.
  assert (F1 : flush_frame o [(t, o)] d d1) by by apply quiet_flush_frame.
  destruct b; cbn [negb].
  2: { assert (Hnc : ¬ calm (env_of d)) by (intros Hc; by specialize (Hcalm Hc)).
       eexists (-1), d1. split; [done|]. split; [|split; [done|by apply pairs_kept_not_calm]].
       constructor 3; [done|done|apply Q1|done]. }
  destruct (hand_over_step d1 k Hk W1 F1 eq_refl eq_refl eq_refl) as (e1 & Hinc & F3 & Hcase).
  set (d2 := set_d_tasks _ d1) in *. set (d3 := set_env e1 d2) in *.
  unfold mbind at 1, M_bind at 1. rewrite Hinc. unfold mbind at 1, M_bind at 1.
  destruct Hcase as [(Hrun & W4 & F4 & K4)|(Hrun & Hsys & Hdec & W5 & F5 & Hq5 & Hr5)]; rewrite Hrun.
  - replace (0 =? -1) with false by done. eexists 0, _. split; [done|]. split; [|by split]. constructor 1; [exact W4|].
    unfold flush_pairs. cbn. rewrite fmap_app. apply elem_of_app. right. by left.
  - replace (-1 =? -1) with true by done. unfold mbind at 1, M_bind at 1. rewrite Hdec.
    rewrite (is_sync_flag o ins Hins). set (d5 := set_d_tasks _ d3) in *.
    assert (Hnc : ¬ calm (env_of d)).
    { intros Hc. apply (qu_calm _ _ Q1) in Hc. apply Hsys. by destruct Hc. }
    destruct (is_sync cfg o) eqn:Hs; unfold when.
    + exfalso. destruct (Hsync eq_refl) as (_ & _ & _ & _ & [Hok|Hok]).
      * apply Hsys. pose proof (evolves (m := flb_output_flush_create) _ _ _ Hcr) as [_ _ Hsuf _ _].
        rewrite Hok in Hsuf. by apply suffix_nil_inv in Hsuf.
      * specialize (Hok o ins Hins Hs). congruence.
    + eexists (-1), d5. split; [done|]. split; [|split; [exact F5|by apply pairs_kept_not_calm]]. constructor 3; [|done|done|done].
      unfold B' in W5. by rewrite Hs in *.
Qed.
End task_flush.

Lemma task_flush_spec next C U R B P n d t o rest e :
  wf cfg (mk_hold C ((t, o) :: U) R (if is_sync cfg o then o :: B else B) [] P n) d → o ∉ B →
  (is_sync cfg o = true → d_queues d !! o = Some (mk_queue rest [e]) ∧ enq_pair e = (t, o) ∧
     next_ok next o rest ∧ (∀ e' r, e' ∈ rest → eq_retry e' = Some r → r ∉ R.*2) ∧ sync_ok d) →
  NoDup (R.*2 ++ P) →
  ∃ v d', task_flush_with cfg next t o d = Some (v, d') ∧ flush_result C U R B P n t o v d d' ∧
    flush_frame o [(t, o)] d d' ∧ pairs_kept d d'.
Proof.
  intros W HoB Hsync HRP. destruct (held_live _ _ _ _ _ _ _ _ t o W) as (Ho & _); [by left|].
  destruct (lookup_lt_is_Some_2 _ _ Ho) as [ins Hins]. destruct (o_is_threaded ins) eqn:Hthr.
  - by eapply threaded_flush_spec.
  - by eapply inline_flush_spec.
Qed.

(** *** The queue of a synchronous output *)

Definition drop_retry (retry : option nat) (R : list (nat * nat)) : list (nat * nat) :=
  match retry with None => R | Some r => filter (λ p, p.2 ≠ r) R end.

Lemma drop_retry_notin e (R : list (nat * nat)) : (∀ r, eq_retry e = Some r → r ∉ R.*2) → drop_retry (eq_retry e) R = R.
Proof.
  unfold drop_retry. destruct (eq_retry e) as [r|]; [|done]. intros Hn. specialize (Hn r eq_refl).
  induction R as [|[a r'] R IH]; [done|]. rewrite fmap_cons, not_elem_of_cons in Hn. destruct Hn as [? ?].
  rewrite filter_cons_True by (cbn; by intros ->). by rewrite IH.
Qed.

Lemma drop_retry_self q r : drop_retry (Some r) [(q, r)] = [].
Proof. unfold drop_retry. rewrite filter_cons_False; [done|]. intros Hne. by apply Hne. Qed.

Lemma drop_retry_sub retry (R : list (nat * nat)) r : r ∈ (drop_retry retry R).*2 → r ∈ R.*2.
Proof.
  unfold drop_retry. destruct retry as [r0|]; [|done]. rewrite filter_unlink. by intros [_ ?]%elem_of_unlink.
Qed.

Lemma drop_retry_nodup retry (R : list (nat * nat)) P : NoDup (R.*2 ++ P) → NoDup ((drop_retry retry R).*2 ++ P).
Proof.
  intros (H1 & H2 & H3)%NoDup_app. apply NoDup_app. split_and!; [|intros r ?; by apply H2, (drop_retry_sub retry)|done].
  unfold drop_retry. destruct retry; [|done]. rewrite filter_unlink. by apply NoDup_unlink.
Qed.

(** An entry that could not be flushed: its retry goes. *)
Lemma entry_retry_destroy C U R B P n d t o retry :
  wf cfg (mk_hold C U R B [] P n) d → (t, o) ∈ U ++ C →
  (∀ r, retry = Some r → ∃ x, d_retries d !! r = Some x ∧ retry_pair x = (t, o)) → NoDup (R.*2 ++ P) →
  ∃ d', (match retry with None => mret tt | Some r => flb_task_retry_destroy r end) d = Some (tt, d') ∧
    wf cfg (mk_hold C U (drop_retry retry R) B [] P n) d' ∧ frame d d' ∧
    d_queues d' = d_queues d ∧ d_flushes d' = d_flushes d ∧ env_le (env_of d) (env_of d').
Proof.
  intros W Hin Hr HRP. destruct retry as [r|]; [|by exists d].
  destruct (Hr r eq_refl) as (x & Hx & Hpair).
  destruct (held_not_elsewhere cfg _ _ _ _ _ _ _ _ (t, o) W) as [Hnq Hns]; [by apply elem_of_app; rewrite elem_of_app in Hin; tauto|].
  destruct (held_live _ _ _ _ _ _ _ _ t o W Hin) as (_ & k & Hk & _).
  assert (Hpar : rt_parent x = t) by (by injection Hpair).
  destruct (retry_destroy_spec cfg C U R B [] P n d r x k) as (d' & Hrun & W' & F & _ & _ & Hqs & Hfs);
    [done|done|by rewrite Hpar|by rewrite Hpair|done|].
  exists d'. split_and!; try done; [|by eapply (evolves (m := flb_task_retry_destroy r))].
  rewrite unlink_notin in W'; [done|].
  eapply retry_unsched; [done|by rewrite Hpair].
Qed.

Lemma flush_one_spec next C U R B P n d o e rest :
  wf cfg (mk_hold C U R (o :: B) [] P n) d → o ∉ B → d_queues d !! o = Some (mk_queue (e :: rest) []) →
  next_ok next o rest → (∀ e' r, e' ∈ rest → eq_retry e' = Some r → r ∉ R.*2) →
  NoDup (R.*2 ++ P) → sync_ok d → (∀ o', Evolves (next o')) →
  ∃ v d', flush_one_with cfg next o d = Some (v, d') ∧ flush_frame o [] d d' ∧ pairs_kept d d' ∧
    ((v ≠ -1 ∧ wf cfg (mk_hold C U R B [] P n) d') ∨
     (v = -1 ∧ ¬ calm (env_of d) ∧ wf cfg (mk_hold C U (drop_retry (eq_retry e) R) B [] P n) d')).
Proof.
  intros W HoB Hq Hnext HR HRP Hok Hev.
  destruct (wf_queue_at cfg _ _ _ _ _ _ _ _ _ _ W Hq) as [Hout Haddr Hretry _ _ _ Hbusy].
  destruct (Hbusy) as [Hs _]; [by left|].
  destruct (Hout e) as [Heo _]; [by left|]. set (t := eq_task e).
  assert (Hpair : enq_pair e = (t, o)) by (unfold enq_pair; by rewrite Heo).
  assert (W1 := wf_queue_pop cfg _ _ _ _ _ _ _ _ _ _ _ W Hq ltac:(by left)).
  rewrite Hpair in W1. set (d1 := set_d_queues _ d) in *.
  destruct (held_live _ _ _ _ _ _ _ _ t o W1) as (Ho & k & Hk & _); [apply elem_of_app; right; by left|].
  destruct (users_dec_spec cfg _ _ _ _ _ _ _ _ _ _ _ W1 Hk) as (Hdec & W2 & F2).
  set (d2 := set_d_tasks _ d1) in *.
  assert (Hq1 : d_queues d1 !! o = Some (mk_queue rest [e])).
  { unfold d1. cbn. apply list_lookup_insert_eq. by eapply lookup_lt_Some. }
  assert (F02 : flush_frame o [] d d2).
  { constructor; try done.
    - etrans; [|exact F2]. by apply frame_same.
    - intros p Hp. change (p ∈ flush_pairs d ++ queue_pairs d1) in Hp. cbn.
      rewrite elem_of_app in *. destruct Hp as [?|Hp]; [by left|right].
      pose proof (queue_pairs_store d o _ (mk_queue rest [e]) Hq) as Hperm. cbn in Hperm.
      assert (Hin : p ∈ queue_pairs d ++ (enq_pair <$> rest)) by (rewrite <- Hperm; apply elem_of_app; by left).
      apply elem_of_app in Hin as [?|Hin]; [done|]. apply list_elem_of_fmap in Hin as (e' & -> & He').
      eapply queue_pairs_elem; [exact Hq|]. by right.
    - intros o' Hne. change (<[o := mk_queue rest [e]]> (d_queues d) !! o' = d_queues d !! o').
      by apply list_lookup_insert_ne. }
  assert (W2' : wf cfg (mk_hold C ((t, o) :: U) R (if is_sync cfg o then o :: B else B) [] P n) d2) by by rewrite Hs.
  destruct (task_flush_spec next C U R B P n d2 t o rest e W2' HoB) as (v & d3 & Hrun & Hres & F3 & K3); [|done|].
  { intros _. split_and!; done. }
  unfold flush_one_with, store_queue. unfold mbind at 1, M_bind at 1. rewrite (queue_at_run o _ d Hq). cbn [q_pending].
  unfold mbind at 1, M_bind at 1, modify at 1. cbn [q_in_progress app]. fold d1.
  unfold mbind at 1, M_bind at 1. fold t. rewrite Hdec.
  unfold mbind at 1, M_bind at 1. rewrite Heo, Hrun.
  assert (Hsub : [(t, o)] ⊆ [] ++ flush_pairs d ++ queue_pairs d).
  { intros p ->%list_elem_of_singleton. cbn. apply elem_of_app. right. rewrite <- Hpair.
    eapply queue_pairs_elem; [exact Hq|]. by left. }
  assert (F03 : flush_frame o [] d d3) by by eapply flush_frame_trans.
  inversion Hres as [d2' d3' W3 Hin3|d2' d3' W3 Hnc _|d2' d3' W3 Hnc Hq3 Hr3]; subst d2' d3'; subst v.
  - replace (0 =? -1) with false by done. exists 0, d3. split_and!; [done|done| |by left].
    intros Hc p Hp. destruct (decide (p = (t, o))) as [->|Hne]; [by apply elem_of_app; left|].
    apply K3; [done|]. apply elem_of_app in Hp as [Hp|Hp]; apply elem_of_app; [by left|right].
    assert (Hperm : queue_pairs d1 ++ (t, o) :: (enq_pair <$> rest) ≡ₚ queue_pairs d ++ (enq_pair <$> rest)).
    { rewrite <- Hpair. exact (queue_pairs_store d o _ (mk_queue rest [e]) Hq). }
    assert (Hin : p ∈ queue_pairs d1 ++ (t, o) :: (enq_pair <$> rest)) by (rewrite Hperm; apply elem_of_app; by left).
    apply elem_of_app in Hin as [Hin|[?|(e' & -> & He')%list_elem_of_fmap]%elem_of_cons]; [exact Hin|done|].
    by eapply (queue_pairs_elem d1).
  - replace (0 =? -1) with false by done. exists 0, d3. split_and!; [done|done|apply pairs_kept_not_calm; exact Hnc|by left].
  - rewrite Hs in W3. replace (-1 =? -1) with true by done.
    assert (Hq3o : d_queues d3 !! o = Some (mk_queue rest [e])) by by rewrite Hq3.
    unfold mbind at 1, M_bind at 1, entry_at. unfold mbind at 1, M_bind at 1. rewrite (queue_at_run o _ d3 Hq3o).
    cbn [q_in_progress q_pending app List.find]. rewrite bool_decide_true by done. cbn [deref].
    destruct (entry_retry_destroy C ((t, o) :: U) R (o :: B) P n d3 t o (eq_retry e) W3) as (d4 & Hdes & W4 & F4 & Hq4 & Hf4 & He4); [by left| |done|].
    { intros r Hr. destruct (Hretry e r) as (x & Hx & Hpx); [by left|done|].
      exists x. split; [by rewrite Hr3|congruence]. }
    unfold mbind at 1, M_bind at 1. rewrite Hdes.
    assert (F34 : flush_frame o [] d3 d4).
    { constructor; [done|by apply pairs_le_same|by rewrite Hq4|].
      intros Hc. by eapply calm_le. }
    assert (Hq4o : d_queues d4 !! o = Some (mk_queue rest [e])) by by rewrite Hq4.
    assert (Hok4 : sync_ok d4).
    { eapply sync_ok_le; [exact He4|]. eapply (sync_ok_run (task_flush_with cfg next t o) d2); [exact Hrun|done]. }
    destruct (Hnext C ((t, o) :: U) (drop_retry (eq_retry e) R) B P n d4 _ W4 HoB Hq4o eq_refl)
      as (v' & d5 & Hr5 & W5 & F5 & _); [|by apply drop_retry_nodup|done|].
    { intros e' r He' Hr' Hin. by eapply HR, drop_retry_sub. }
    unfold mbind at 1, M_bind at 1. rewrite Hr5. exists (-1), d5. split_and!; [done| |by apply pairs_kept_not_calm|].
    + eapply flush_frame_trans; [exact F03| |apply list_subseteq_nil].
      eapply flush_frame_trans; [exact F34|exact F5|apply list_subseteq_nil].
    + right. split_and!; [done| |by apply (wf_free_drop cfg C U [(t, o)])].
      intros Hc. by apply Hnc.
Qed.

Lemma queue_frame o X d q q' : d_queues d !! o = Some q → q_pending q' = q_pending q →
  flush_frame o X d (set_d_queues (<[o := q']> (d_queues d)) d).
Proof.
  intros Hq Hp. constructor; [by apply frame_same| | |done].
  - intros p Hp'. rewrite !elem_of_app. unfold flush_pairs in *. cbn in Hp'. rewrite elem_of_app in Hp'.
    destruct Hp' as [?|Hin]; [by right; left|]. right; right.
    apply list_elem_of_fmap in Hin as (e & -> & He). apply list_elem_of_bind in He as (q0 & He & Hq0).
    apply list_elem_of_lookup in Hq0 as [o' Hq0]. cbn in Hq0. destruct (decide (o' = o)) as [->|Hne].
    + rewrite list_lookup_insert_eq in Hq0 by (by eapply lookup_lt_Some). injection Hq0 as <-.
      eapply queue_pairs_elem; [exact Hq|]. by rewrite <- Hp.
    + rewrite list_lookup_insert_ne in Hq0 by done. by eapply queue_pairs_elem.
  - intros o' Hne. cbn. by apply list_lookup_insert_ne.
Qed.

Lemma queue_kept d o q q' : d_queues d !! o = Some q → q_pending q' = q_pending q →
  pairs_kept d (set_d_queues (<[o := q']> (d_queues d)) d).
Proof.
  intros Hq Hp _ p. rewrite !elem_of_app. intros [?|Hin]; [by left|right].
  pose proof (queue_pairs_store d o q q' Hq) as Hperm. rewrite Hp in Hperm.
  apply Permutation_app_inv_r in Hperm. by rewrite Hperm.
Qed.

(** One more than the pending entries is enough fuel. *)
Lemma flush_next_fuel_ok o rest : ∀ fuel, (length rest < fuel)%nat → next_ok (flush_next_fuel cfg fuel) o rest.
Proof.
  induction rest as [|e rest IH]; intros fuel Hfuel C U R B P n d q W HoB Hq Hrest HR HRP Hok;
    (destruct fuel as [|fuel]; [cbn in Hfuel; lia|]); cbn [flush_next_fuel].
  all: assert (W1 := wf_queue_clear cfg _ _ _ _ _ _ _ _ _ _ W Hq ltac:(by left)).
  all: destruct (wf_queue_at cfg _ _ _ _ _ _ _ _ _ _ W Hq) as [_ _ _ _ Hone _ _].
  all: assert (Htl : tail (q_in_progress q) = []) by (destruct (q_in_progress q) as [|? []]; [done|done|cbn in Hone; lia]).
  all: unfold mbind at 1, M_bind at 1; rewrite (queue_at_run o q d Hq), Hrest, Htl.
  all: unfold mbind at 1, M_bind at 1, store_queue at 1, modify at 1; rewrite Hrest in W1.
  all: change (set_q_in_progress [] q) with (mk_queue (q_pending q) []); rewrite Hrest.
  all: assert (F1 : flush_frame o [] d (set_d_queues (<[o := mk_queue (q_pending q) []]> (d_queues d)) d))
    by (by apply (queue_frame o [] d q)); rewrite Hrest in F1.
  all: assert (K1 : pairs_kept d (set_d_queues (<[o := mk_queue (q_pending q) []]> (d_queues d)) d))
    by (by apply (queue_kept d o q)); rewrite Hrest in K1.
  all: assert (Hq1 : <[o := mk_queue (q_pending q) []]> (d_queues d) !! o = Some (mk_queue (q_pending q) []))
    by (apply list_lookup_insert_eq; by eapply lookup_lt_Some); rewrite Hrest in Hq1.
  - eexists 0, _. split_and!; [done|by eapply wf_busy_leave|done|done].
  - destruct (flush_one_spec (flush_next_fuel cfg fuel) C U R B P n _ o e rest W1 HoB Hq1)
      as (v & d' & Hrun & F' & K' & Hcase); try done.
    + apply IH. cbn in Hfuel. lia.
    + intros e' r He'. apply HR. by right.
    + intros o'. apply _.
    + exists v, d'. split_and!; [done| | |].
      * destruct Hcase as [[_ ?]|(_ & _ & W')]; [done|]. rewrite drop_retry_notin in W'; [done|].
        intros r. apply HR. by left.
      * eapply flush_frame_trans; [exact F1|exact F'|apply list_subseteq_nil].
      * eapply pairs_kept_trans; [|exact K1|exact K']. done.
Qed.

Lemma flush_next_ok o rest : next_ok (flb_output_task_singleplex_flush_next cfg) o rest.
Proof.
  intros C U R B P n d q W HoB Hq Hrest HR HRP Hok. unfold flb_output_task_singleplex_flush_next.
  unfold mbind at 1, M_bind at 1. rewrite (queue_at_run o q d Hq).
  eapply flush_next_fuel_ok; try done. rewrite Hrest. lia.
Qed.

(** *** [flb_output_task_flush] and [flb_output_task_singleplex_enqueue] *)
Lemma output_task_flush_spec C U R B P n d t o :
  wf cfg (mk_hold C ((t, o) :: U) R B [] P n) d → o ∉ B → is_sync cfg o = false → NoDup (R.*2 ++ P) →
  ∃ v d', flb_output_task_flush cfg t o d = Some (v, d') ∧ flush_result C U R B P n t o v d d' ∧
    flush_frame o [(t, o)] d d' ∧ pairs_kept d d'.
Proof.
  intros W HoB Hs HRP. unfold flb_output_task_flush.
  eapply (task_flush_spec _ C U R B P n d t o [] (mk_enq 0 t None o)); [by rewrite Hs|done|by rewrite Hs|done].
Qed.

Lemma queue_push_pairs d o q en : d_queues d !! o = Some q →
  queue_pairs (set_d_queues (<[o := set_q_pending (q_pending q ++ [en]) q]> (d_queues d)) d) ≡ₚ
  enq_pair en :: queue_pairs d.
Proof.
  intros Hq. apply (Permutation_app_inv_r (enq_pair <$> q_pending q)). rewrite queue_pairs_store by done.
  cbn. rewrite fmap_app. cbn. solve_Permutation.
Qed.

(** The token of an entry that cannot be queued is lost: [users] is not decremented (the [X] below). *)
Lemma enqueue_spec C U R B P n d t o retry :
  wf cfg (mk_hold C ((t, o) :: U) R B [] P n) d → o ∉ B → is_sync cfg o = true →
  (∀ r, retry = Some r → ∃ x, d_retries d !! r = Some x ∧ retry_pair x = (t, o)) →
  NoDup (R.*2 ++ P) → sync_ok d →
  ∃ v d', flb_output_task_singleplex_enqueue cfg o retry t d = Some (v, d') ∧
    flush_frame o [(t, o)] d d' ∧ pairs_kept d d' ∧
    (calm (env_of d) → (t, o) ∈ flush_pairs d' ++ queue_pairs d') ∧
    ((v ≠ -1 ∧ wf cfg (mk_hold C U R B [] P n) d') ∨
     (v = -1 ∧ ¬ calm (env_of d) ∧
      ∃ X, X ⊆ [(t, o)] ∧ wf cfg (mk_hold (X ++ C) U (drop_retry retry R) B [] P n) d')).
Proof.
  intros W HoB Hs Hretry HRP Hok.
  destruct (held_live _ _ _ _ _ _ _ _ t o W) as (Ho & k & Hk & Hst); [by left|].
  destruct (users_inc_spec cfg _ _ _ _ _ _ _ _ _ _ _ W Hk) as (Hinc & W1 & F1).
  unfold flb_output_task_singleplex_enqueue. unfold mbind at 1, M_bind at 1. rewrite Hinc.
  set (d1 := set_d_tasks _ d) in *.
  assert (FF1 : flush_frame o [(t, o)] d d1) by by apply users_flush_frame.
  destruct (wf_is_queue cfg _ _ _ _ _ _ _ _ _ W1 Ho) as [q Hq].
  destruct (malloc_quiet d1) as (p & e & Hm & Q1 & He & Hc & Hp).
  assert (W2 := wf_env cfg _ d1 e W1 He). set (d2 := set_env e d1) in *.
  assert (FF2 : flush_frame o [(t, o)] d d2).
  { eapply flush_frame_trans; [exact FF1| |apply list_subseteq_nil]. by apply quiet_flush_frame. }
  unfold mbind at 1, M_bind at 1, flb_output_task_queue_enqueue.
  unfold mbind at 1, M_bind at 1. rewrite Hm. destruct p as [a|].
  - unfold mbind at 1, M_bind at 1. rewrite (queue_at_run o q d2 Hq).
    unfold mbind at 1, M_bind at 1, store_queue at 1, modify at 1.
    destruct Hp as [Hp|[Ha Hlt]]; [done|]. injection Ha as ->.
    destruct (wf_queue_at cfg _ _ _ _ _ _ _ _ _ _ W1 Hq) as [Hout Haddr Hqr _ _ Hfl _]. cbn in Hfl.
    destruct (Hfl Hs HoB) as [Hflush Hpend].
    set (en := mk_enq (e_next (env_of d1)) t retry o). set (d3 := set_d_queues _ d2).
    assert (Hq3 : d_queues d3 !! o = Some (set_q_pending (q_pending q ++ [en]) q)).
    { apply list_lookup_insert_eq. by eapply lookup_lt_Some. }
    assert (Hpush : queue_pairs d3 ≡ₚ (t, o) :: queue_pairs d2) by exact (queue_push_pairs d2 o q en Hq).
    assert (Hin3 : (t, o) ∈ flush_pairs d3 ++ queue_pairs d3) by (rewrite Hpush; apply elem_of_app; right; by left).
    assert (K3 : pairs_kept d d3).
    { intros _ p. rewrite Hpush, !elem_of_app, elem_of_cons. tauto. }
    assert (FF3 : flush_frame o [(t, o)] d d3).
    { destruct FF2. constructor; try done.
      - etrans; [done|]. by apply frame_same.
      - intros p Hp. apply elem_of_app in Hp as [Hp|Hp]; [apply ff_pairs0, elem_of_app; by left|].
        rewrite Hpush in Hp. apply elem_of_cons in Hp as [->|Hp]; [by left|]. apply ff_pairs0, elem_of_app. by right.
      - intros o' Hne. rewrite <- ff_queues0 by done. by apply list_lookup_insert_ne. }
    assert (Hfresh : e_next (env_of d1) ∉ eq_addr <$> q_in_progress q ++ q_pending q).
    { intros (e' & Heq & He')%list_elem_of_fmap. apply Hout in He' as [_ He']. lia. }
    assert (Hret2 : ∀ r, retry = Some r → ∃ x, d_retries d2 !! r = Some x ∧ retry_pair x = (t, o)) by done.
    assert (Hlt2 : (e_next (env_of d1) < e_next (env_of d2))%nat) by (unfold d2; by rewrite (env_of_set e d1)).
    change (0 =? -1) with false. cbn iota.
    unfold mbind at 1, M_bind at 1, mret at 1, M_ret at 1. cbn iota beta.
    change (0 =? -1) with false. cbn iota.
    cbn beta. rewrite (queue_at_run o _ d3 Hq3). cbn [q_in_progress set_q_pending].
    destruct (q_in_progress q) as [|e0 l0] eqn:Hprog.
    + assert (W2b : wf cfg (mk_hold ((t, o) :: C) U R (o :: B) [] P n) d2) by by apply wf_busy_enter.
      rewrite <- Hprog in Hfresh.
      assert (W3 := wf_queue_push cfg _ _ _ _ _ _ _ _ _ _ _ _ retry W2b Hq Hs Hlt2 Hfresh Hret2 ltac:(left; by left)).
      destruct (flush_one_spec (flb_output_task_singleplex_flush_next cfg) C U R B P n d3 o en []) as (v & d' & Hrun & F' & K' & Hcase); try done.
      * rewrite Hq3. rewrite Hpend by done. unfold set_q_pending. by rewrite Hprog.
      * apply flush_next_ok.
      * by intros ? ? ?%not_elem_of_nil.
      * eapply sync_ok_le; [|exact Hok]. change (env_le (env_of d1) (env_of d2)). by eapply (evolves (m := malloc) d1).
      * apply _.
      * exists v, d'. split_and!; [done| | | |].
        { eapply flush_frame_trans; [exact FF3|exact F'|apply list_subseteq_nil]. }
        { eapply pairs_kept_trans; [|exact K3|exact K']. apply FF3. }
        { intros Hcd. by apply K'; [apply FF3|]. }
        destruct Hcase as [?|(-> & Hnc & W')]; [by left|right]. split_and!; [done| |exists []; split; [apply list_subseteq_nil|exact W']].
        intros Hcd. apply Hnc. by apply FF3.
    + eexists 0, d3. split_and!; [done|done|done|done|]. left. split; [done|]. rewrite <- Hprog in Hfresh.
      apply (wf_queue_push cfg _ _ _ _ _ _ _ _ _ _ _ _ retry W2 Hq Hs Hlt2); try done. right. by rewrite Hprog.
  - unfold mbind at 1, M_bind at 1.
    destruct (entry_retry_destroy ((t, o) :: C) U R B P n d2 t o retry W2) as (d3 & Hdes & W3 & F3 & Hq3 & Hf3 & He3).
    { apply elem_of_app. right. by left. } { done. } { done. }
    assert (Hnc : ¬ calm (env_of d)) by (intros Hcd; by apply Hc in Hcd as []).
    rewrite Hdes. eexists (-1), d3. split_and!; [done| |by apply pairs_kept_not_calm|by intros Hcd; apply Hnc in Hcd|].
    + eapply flush_frame_trans; [exact FF2| |apply list_subseteq_nil].
      constructor; [done|by apply pairs_le_same|by rewrite Hq3|]. intros Hcd. by eapply calm_le.
    + right. split_and!; [done|done|by exists [(t, o)]].
Qed.

(** ** Properties *)

Lemma malloc_run d : e_alloc (env_of d) = [] →
  ∃ a e, malloc d = Some (Some a, set_env e d) ∧ e_alloc e = [] ∧ e_sys e = e_sys (env_of d).
Proof. intros Ha. unfold malloc. rewrite Ha. eexists _, _. split; [reflexivity|done]. Qed.

Lemma syscall_run d b script : e_sys (env_of d) = b :: script →
  ∃ e, syscall d = Some (b, set_env e d) ∧ e_alloc e = e_alloc (env_of d) ∧ e_sys e = script.
Proof. intros Hs. unfold syscall. rewrite Hs. eexists. split; [reflexivity|done]. Qed.

Lemma users_inc_run t k d : d_tasks d !! t = Some k →
  flb_task_users_inc t d = Some (tt, set_d_tasks (<[t := set_t_users (t_users k + 1) k]> (d_tasks d)) d).
Proof. intros Hk. unfold flb_task_users_inc, store_task, mbind, M_bind. by rewrite (task_at_run t k d Hk). Qed.

(** The context is made, the pipe fails: the queue moves on before the failure is reported. *)
Lemma pipe_refuses next t o d k ins script :
  d_tasks d !! t = Some k → cf_outputs cfg !! o = Some ins → is_sync cfg o = true → o_is_threaded ins = false →
  e_alloc (env_of d) = [] → e_sys (env_of d) = true :: false :: script →
  ∃ d', task_flush_with cfg next t o d = (next o ≫= λ _, mret (-1)) d' ∧ d_queues d' = d_queues d.
Proof.
  intros Hk Hins Hs Hthr Ha Hsys. unfold task_flush_with.
  unfold mbind at 1, M_bind at 1. rewrite (output_at_run o ins d Hins), Hthr.
  unfold mbind at 1, M_bind at 1. rewrite (task_at_run t _ d Hk).
  unfold flb_output_flush_create. unfold mbind at 1, M_bind at 1. unfold mbind at 1, M_bind at 1.
  destruct (malloc_run d Ha) as (p & e1 & Hm1 & Ha1 & Hs1). rewrite Hm1. set (d1 := set_env e1 d).
  assert (He1 : env_of d1 = e1) by apply (env_of_set e1 d). unfold mbind at 1, M_bind at 1.
  destruct (malloc_run d1) as (p2 & e2 & Hm2 & Ha2 & Hs2); [by rewrite He1|]. rewrite Hm2. set (d2 := set_env e2 d1).
  assert (He2 : env_of d2 = e2) by apply (env_of_set e2 d1).
  destruct (syscall_run d2 true (false :: script)) as (e3 & Hsy & _ & Hs3).
  { rewrite He2, Hs2, He1, Hs1. exact Hsys. }
  rewrite Hsy. cbn [negb]. set (d3 := set_env e3 d2). assert (He3 : env_of d3 = e3) by apply (env_of_set e3 d2).
  unfold mbind at 1, M_bind at 1. rewrite (users_inc_run t k d3 Hk). set (d4 := set_d_tasks _ d3).
  destruct (syscall_run d4 false script) as (e5 & Hsy2 & _ & _); [change (env_of d4) with (env_of d3); by rewrite He3|].
  assert (Hhand : hand_over t o d4 = Some (-1, set_env e5 d4)) by (unfold hand_over, mbind, M_bind; by rewrite Hsy2).
  unfold mbind at 1, M_bind at 1. rewrite Hhand. change (-1 =? -1) with true. cbn iota. set (d5 := set_env e5 d4).
  assert (exists k5, d_tasks d5 !! t = Some k5) as [k5 Hk5] by (eexists; apply lookup_insert_eq).
  unfold mbind at 1, M_bind at 1. rewrite (users_dec_run t _ d5 Hk5). set (d6 := set_d_tasks _ d5).
  exists d6. split; [|done]. rewrite (is_sync_flag o ins Hins), Hs. unfold when, mbind, M_bind, mret, M_ret.
  by destruct (next o d6) as [[]|].
Qed.

(** Use after free in the queue of a synchronous output that runs in the engine.  When its flush
    context is made but the pipe to the engine refuses the coroutine ([e_sys] = success, failure),
    [flb_output_task_flush] itself moves the queue on and so frees the entry that
    [flb_output_task_queue_flush_one] then reads: enqueueing a task reaches undefined behaviour. *)
Theorem synchronous_pipe_failure t o d k ins script :
  d_tasks d !! t = Some k → cf_outputs cfg !! o = Some ins → is_sync cfg o = true → o_is_threaded ins = false →
  d_queues d !! o = Some (mk_queue [] []) →
  e_alloc (env_of d) = [] → e_sys (env_of d) = true :: false :: script →
  flb_output_task_singleplex_enqueue cfg o None t d = None.
Proof.
  intros Hk Hins Hs Hthr Hq Ha Hsys. apply lookup_lt_Some in Hq as Hlt.
  unfold flb_output_task_singleplex_enqueue. unfold mbind at 1, M_bind at 1. rewrite (users_inc_run t k d Hk).
  set (d1 := set_d_tasks _ d). destruct (malloc_run d1 Ha) as (a & e1 & Hm1 & Ha1 & Hs1).
  unfold flb_output_task_queue_enqueue, store_queue. unfold mbind at 1, M_bind at 1.
  unfold mbind at 1, M_bind at 1. rewrite Hm1. set (d2 := set_env e1 d1).
  unfold mbind at 1, M_bind at 1. rewrite (queue_at_run o _ d2 Hq).
  unfold mbind at 1, M_bind at 1, modify at 1. cbn [q_pending set_q_pending app q_in_progress].
  set (d3 := set_d_queues _ d2). unfold mret at 1, M_ret at 1. change (0 =? -1) with false. cbn iota.
  assert (Hq3 : d_queues d3 !! o = Some (mk_queue [mk_enq a t None o] [])) by by apply list_lookup_insert_eq.
  unfold mbind at 1, M_bind at 1. rewrite (queue_at_run o _ d3 Hq3). cbn [q_in_progress].
  unfold flb_output_task_queue_flush_one, flush_one_with, store_queue.
  unfold mbind at 1, M_bind at 1. rewrite (queue_at_run o _ d3 Hq3). cbn [q_pending q_in_progress app eq_task eq_out eq_addr].
  unfold mbind at 1, M_bind at 1, modify at 1. set (d4 := set_d_queues _ d3).
  assert (Hk4 : d_tasks d4 !! t = Some (set_t_users (t_users k + 1) k)) by apply lookup_insert_eq.
  unfold mbind at 1, M_bind at 1. rewrite (users_dec_run t _ d4 Hk4). set (d5 := set_d_tasks _ d4).
  assert (He5 : env_of d5 = e1) by (change (env_of d5) with (env_of (set_env e1 d1)); apply (env_of_set e1 d1)).
  destruct (pipe_refuses (flb_output_task_singleplex_flush_next cfg) t o d5
    (set_t_users (t_users k + 1 - 1) (set_t_users (t_users k + 1) k)) ins script) as (d6 & Hrun & Hq6); try done.
  { apply lookup_insert_eq. } { by rewrite He5. } { rewrite He5, Hs1. exact Hsys. }
  unfold mbind at 1, M_bind at 1. rewrite Hrun.
  assert (Hq6o : d_queues d6 !! o = Some (mk_queue [] [mk_enq a t None o])).
  { rewrite Hq6. apply list_lookup_insert_eq. unfold d3. cbn. by rewrite length_insert. }
  unfold flb_output_task_singleplex_flush_next at 1, mbind, M_bind. rewrite (queue_at_run o _ d6 Hq6o).
  cbn [q_pending length flush_next_fuel]. unfold mbind, M_bind. rewrite (queue_at_run o _ d6 Hq6o).
  cbn [q_pending q_in_progress tail set_q_in_progress]. unfold store_queue, modify, mret, M_ret.
  change (-1 =? -1) with true. cbn iota. unfold entry_at, mbind, M_bind.
  by rewrite (queue_at_run o (mk_queue [] [])) by (apply list_lookup_insert_eq; by eapply lookup_lt_Some).
Qed.
End specs.
