(* ===== verification/Dispatch.v ===== *)
(** * Dispatch ([src/flb_engine_dispatch.c]): chunks become tasks, tasks are flushed, retries are served *)
From S2P Require Import Prelude Env RetryQueue Router RoutesMask Delivery Invariant Task Output.

Section operations.
Context {S : Type} `{RetryQueue S}.
Context (cfg : flb_config) (route_condition : flb_event_chunk → nat → bool).

Definition flb_engine_dispatch_retry (r : nat) : M (delivery S) Z :=
  x ← retry_at r;
  k ← task_at (rt_parent x);
  c ← deref (t_ic k);
  ret ← flb_input_chunk_set_up c;
  if ret =? -1 then
    ret ← flb_task_retry_reschedule cfg r;
    if ret =? -1 then mret (-1) else mret 0
  else
    buf ← flb_input_chunk_flush c;
    match buf with
    | None => flb_task_retry_destroy r ≫= λ _, mret (-1)
    | Some size =>
        k ← task_at (rt_parent x);
        evc ← deref (t_event_chunk k);
        store_task (rt_parent x) (set_t_event_chunk (Some (set_evc_size size evc)) k) ≫= λ _,
        ins ← output_at cfg (rt_o_ins x);
        if has_flag ins FLB_OUTPUT_SYNCHRONOUS then
          ret ← flb_output_task_singleplex_enqueue cfg (rt_o_ins x) (Some r) (rt_parent x);
          if ret =? -1 then mret (-1) else mret 0
        else
          ret ← flb_output_task_flush cfg (rt_parent x) (rt_o_ins x);
          if ret =? -1 then flb_task_retry_destroy r ≫= λ _, mret (-1) else mret 0
    end.

(** Remove a route of a task. *)
Fixpoint remove_route (o : nat) (l : list flb_task_route) : list flb_task_route :=
  match l with
  | [] => []
  | r :: l' => if bool_decide (r_out r = o) then l' else r :: remove_route o l'
  end.

(** The loop of [tasks_start] over the routes of a task; [hits] is the number of routes flushed or
    queued.  The routes are those the task had when the loop began: the body only unlinks the
    current one. *)
Fixpoint start_routes (t : nat) (routes : list flb_task_route) (retry hits : Z)
    : M (delivery S) Z :=
  match routes with
  | [] => mret hits
  | route :: routes' =>
      let o := r_out route in
      ins ← output_at cfg o;
      if o_test_mode ins then
        k ← task_at t;
        store_task t (set_t_routes (remove_route o (t_routes k)) k) ≫= λ _,
        start_routes t routes' retry hits
      else
        coros ← flb_output_coros_size o;
        if has_flag ins FLB_OUTPUT_NO_MULTIPLEX && ((0 <? coros) || (0 <? retry)) then
          start_routes t routes' retry hits
        else
          (if has_flag ins FLB_OUTPUT_SYNCHRONOUS
           then flb_output_task_singleplex_enqueue cfg o None t
           else flb_output_task_flush cfg t o) ≫= λ _,
          start_routes t routes' retry (hits + 1)
  end.

(** The loop over [in->tasks]; [retry] counts the tasks with retries seen so far. *)
Fixpoint start_tasks (l : list nat) (retry : Z) : M (delivery S) unit :=
  match l with
  | [] => mret tt
  | t :: l' =>
      k ← task_at t;
      let retry := if bool_decide (t_retries k = []) then retry else retry + 1 in
      if negb (t_status k =? FLB_TASK_NEW) then start_tasks l' retry
      else
        store_task t (set_t_status FLB_TASK_RUNNING k) ≫= λ _,
        hits ← start_routes t (t_routes k) retry 0;
        k ← task_at t;
        when (hits =? 0) (store_task t (set_t_status FLB_TASK_NEW k)) ≫= λ _,
        start_tasks l' retry
  end.

Definition tasks_start (i : nat) : M (delivery S) unit :=
  ls ← gets d_in_tasks; l ← deref (ls !! i); start_tasks l 0.

(** The loop over [in->chunks]; [false] in the result of the body ends it. *)
Definition dispatch_chunk (id : Z) (c : nat) : M (delivery S) bool :=
  ck ← chunk_at c;
  if ck_busy ck then mret true
  else
    tid ← flb_task_map_get_task_id;
    if tid =? -1 then mret false
    else
      buf ← flb_input_chunk_flush c;
      match buf with
      | None => flb_input_chunk_release_lock c ≫= λ _, mret true
      | Some size =>
          if size =? 0 then flb_input_chunk_release_lock c ≫= λ _, mret true
          else
            match ck_tag ck with
            | None | Some [] => flb_input_chunk_release_lock c ≫= λ _, mret true
            | Some (_ :: _) =>
                res ← flb_task_create cfg route_condition id size (ck_in ck) c;
                match res with
                | (None, true) =>
                    flb_input_chunk_release_lock c ≫= λ _,
                    flb_input_chunk_down c ≫= λ _, mret true
                | _ => mret true
                end
            end
      end.

Fixpoint dispatch_chunks (id : Z) (l : list nat) : M (delivery S) unit :=
  match l with
  | [] => mret tt
  | c :: l' => go ← dispatch_chunk id c; if (go : bool) then dispatch_chunks id l' else mret tt
  end.

(** The last loop: tasks left without routes by the test mode. *)
Definition cleanup_task (t : nat) : M (delivery S) unit :=
  k ← task_at t;
  if (t_users k =? 0) && bool_decide (t_retries k = []) && bool_decide (t_routes k = [])
  then flb_task_destroy t true else mret tt.

Definition flb_engine_dispatch (id : Z) (i : nat) : M (delivery S) Z :=
  ins ← deref (cf_inputs cfg !! i);
  if negb (i_p ins) then mret 0
  else
    ls ← gets d_in_chunks; l ← deref (ls !! i);
    dispatch_chunks id l ≫= λ _,
    tasks_start i ≫= λ _,
    ls ← gets d_in_tasks; l ← deref (ls !! i);
    foreach l cleanup_task ≫= λ _,
    mret 0.
End operations.

(** ** Specifications *)

Section evolves.
Context {S : Type} `{RetryQueue S} (cfg : flb_config) (route_condition : flb_event_chunk → nat → bool).

#[global] Instance evolves_map_resize n : Evolves (flb_config_task_map_resize (S := S) n).
Proof.
  intros d a d'. unfold flb_config_task_map_resize. mrun. case_match; [by intros [= <- <-]|].
  case_match; [by intros [= <- <-]|]. destruct (malloc d) as [[p d1]|] eqn:Hm; [|done].
  apply (evolves (m := malloc)) in Hm. destruct p; by intros [= <- <-].
Qed.
#[global] Instance evolves_get_task_id : Evolves (map_get_task_id (S := S)).
Proof. unfold map_get_task_id, flb_config_task_map_grow. evolve. Qed.
#[global] Instance evolves_task_alloc : Evolves (task_alloc (S := S)).
Proof. unfold task_alloc, store_task. evolve. Qed.
#[global] Instance evolves_event_chunk_create ty n size : Evolves (flb_event_chunk_create (S := S) ty n size).
Proof. unfold flb_event_chunk_create. evolve. Qed.
#[global] Instance evolves_add_route t evc o : Evolves (add_route (S := S) t evc o).
Proof. unfold add_route, store_task. evolve. Qed.
#[global] Instance evolves_collect route : Evolves (task_collect_output_references (S := S) cfg route).
Proof. unfold task_collect_output_references. evolve. Qed.
#[global] Instance evolves_check_direct routes : Evolves (check_direct (S := S) cfg routes).
Proof. induction routes as [|route routes IH]; cbn; evolve. Qed.
#[global] Instance evolves_add_all t evc outs : ∀ count, Evolves (add_all (S := S) t evc outs count).
Proof. induction outs as [|o outs IH]; intros count; cbn; evolve. Qed.
#[global] Instance evolves_add_direct t evc routes : ∀ count, Evolves (add_direct (S := S) cfg t evc routes count).
Proof. induction routes as [|route routes IH]; intros count; cbn; evolve. Qed.
#[global] Instance evolves_mask_bit mask o : Evolves (mask_bit (S := S) cfg mask o).
Proof. unfold mask_bit. apply _. Qed.
#[global] Instance evolves_add_paths t evc mask paths : ∀ count,
  Evolves (add_paths (S := S) cfg route_condition t evc mask paths count).
Proof. induction paths as [|path paths IH]; intros count; cbn; evolve. Qed.
#[global] Instance evolves_add_masked t evc mask outs : ∀ n count,
  Evolves (add_masked (S := S) cfg t evc mask n outs count).
Proof. induction outs as [|o outs IH]; intros n count; cbn; evolve. Qed.
#[global] Instance evolves_create_routes t c i evc :
  Evolves (task_create_routes (S := S) cfg route_condition t c i evc).
Proof. unfold task_create_routes. evolve. Qed.
#[global] Instance evolves_link_at i t ls : Evolves (link_at (S := delivery S) i t ls).
Proof. unfold link_at. evolve. Qed.
#[global] Instance evolves_task_create id size i c :
  Evolves (flb_task_create (S := S) cfg route_condition id size i c).
Proof. unfold flb_task_create, store_chunk, store_task. evolve. Qed.
#[global] Instance evolves_chunk_flush c : Evolves (flb_input_chunk_flush (S := S) c).
Proof. unfold flb_input_chunk_flush, store_chunk. evolve. Qed.
#[global] Instance evolves_release_lock c : Evolves (flb_input_chunk_release_lock (S := S) c).
Proof. unfold flb_input_chunk_release_lock, store_chunk. evolve. Qed.
#[global] Instance evolves_dispatch_chunk id c :
  Evolves (dispatch_chunk (S := S) cfg route_condition id c).
Proof. unfold dispatch_chunk, flb_task_map_get_task_id, flb_input_chunk_down. evolve. Qed.
#[global] Instance evolves_dispatch_chunks id l :
  Evolves (dispatch_chunks (S := S) cfg route_condition id l).
Proof. induction l as [|c l IH]; cbn; evolve. Qed.
End evolves.

Section specs.
Context {S : Type} `{RetryQueue S} (cfg : flb_config) (route_condition : flb_event_chunk → nat → bool).
Context (Hcfg : config_ok cfg).
Implicit Types (d : delivery S).

Lemma chunk_set_up_spec h d c ck : wf cfg h d → d_chunks d !! c = Some ck →
  ∃ v e, flb_input_chunk_set_up c d = Some (v, set_env e d) ∧ wf cfg h (set_env e d) ∧ quiet d (set_env e d) ∧
    env_le (env_of d) e ∧ (v = 0 ∨ v = -1 ∧ ¬ calm (env_of d)).
Proof.
  intros W Hc. unfold flb_input_chunk_set_up. mrun. rewrite (chunk_at_run c ck d Hc).
  destruct (syscall_quiet d) as (b & e & Hrun & Q & He & Hs). rewrite Hrun.
  apply (evolves (m := syscall)) in Hrun as Hle. rewrite (env_of_set e d) in Hle. eexists _, e. split; [done|].
  split_and!; [by refine (wf_env cfg h d e W He)|done|done|]. destruct b; [by left|right].
  split; [done|]. intros [_ Hn]. by apply Hs in Hn.
Qed.

Lemma chunk_flush_spec h d c ck : wf cfg h d → d_chunks d !! c = Some ck →
  ∃ e, wf cfg h (set_env e d) ∧ quiet d (set_env e d) ∧ env_le (env_of d) e ∧
    ((flb_input_chunk_flush c d = Some (None, set_env e d) ∧ ¬ calm (env_of d)) ∨
     (let d' := set_d_chunks (<[c := set_ck_busy true ck]> (d_chunks d)) (set_env e d) in
      flb_input_chunk_flush c d = Some (Some (ck_size ck), d') ∧ wf cfg h d')).
Proof.
  intros W Hc. unfold flb_input_chunk_flush, store_chunk. mrun. rewrite (chunk_at_run c ck d Hc).
  destruct (syscall_quiet d) as (b & e & Hrun & Q & He & Hs). rewrite Hrun.
  apply (evolves (m := syscall)) in Hrun as Hle. rewrite (env_of_set e d) in Hle. exists e.
  assert (W1 : wf cfg h (set_env e d)) by (by refine (wf_env cfg h d e W He)).
  split_and!; [done|done|done|]. destruct b; [right|left].
  - split; [done|]. refine (wf_chunk_busy cfg h (set_env e d) c ck true W1 Hc _). by left.
  - split; [done|]. intros [_ Hn]. by apply Hs in Hn.
Qed.

(** A retry is dispatched: [r] is carried by the request [q] and is nowhere else.  When the result
    is 0 the request still has to be removed; otherwise it went with the retry. *)
Lemma dispatch_retry_spec q r t o x C P n d :
  wf cfg (mk_hold C [(t, o)] [(q, r)] [] [] P n) d → d_retries d !! r = Some x → retry_pair x = (t, o) →
  n < 2 ^ 31 → sync_ok cfg d →
  ∃ v d', flb_engine_dispatch_retry cfg r d = Some (v, d') ∧
    ((v = 0 ∧ (∃ P', wf cfg (mk_hold C [] [(q, r)] [] [] P' n) d' ∧ (calm (env_of d) → P' = P)) ∧
      (calm (env_of d) → (t, o) ∈ flush_pairs d' ++ queue_pairs d')) ∨
     (v = -1 ∧ ¬ calm (env_of d) ∧ ∃ X, wf cfg (mk_hold (X ++ C) [] [] [] [] P n) d')).
Proof.
  intros W Hx Hpair Hn Hok. pose proof Hpair as [= Hpar Ho].
  destruct (held_live cfg _ _ _ _ _ _ _ _ t o W) as (Hout & k & Hk & Hst); [by left|].
  destruct (lookup_lt_is_Some_2 _ _ Hout) as [ins Hins].
  destruct (task_parts cfg _ d t k W Hk) as (c & ck & evc & Hic & Hck & _ & _ & _ & Hevc & _); [by apply not_elem_of_nil|].
  assert (HrP : r ∉ P).
  { eapply retry_unsched; [done|]. apply (held_not_elsewhere cfg _ _ _ _ _ _ _ _ _ W).
    rewrite Hpair. apply elem_of_app. right. by left. }
  assert (HRP : NoDup ([(q, r)].*2 ++ P)).
  { cbn. apply NoDup_cons. split; [done|]. by eapply wf_sched_nodup. }
  unfold flb_engine_dispatch_retry.
  unfold mbind at 1, M_bind at 1. rewrite (retry_at_run r x d Hx).
  unfold mbind at 1, M_bind at 1. rewrite Hpar, (task_at_run t k d Hk).
  unfold mbind at 1, M_bind at 1. rewrite Hic. cbn [deref].
  unfold mbind at 1, M_bind at 1.
  destruct (chunk_set_up_spec _ d c ck W Hck) as (v1 & e1 & -> & W1 & Q1 & Hle1 & Hv1). set (d1 := set_env e1 d) in *.
  assert (Hnc1 : ¬ calm (env_of d1) → ¬ calm (env_of d)) by (intros Hnc Hc; by apply Hnc, Q1).
  destruct Hv1 as [->|[-> Hnc]].
  2: { change (-1 =? -1) with true. cbn iota. unfold mbind at 1, M_bind at 1.
       destruct (reschedule_spec cfg Hcfg C q r t o x [] P n d1 W1) as (v & d2 & -> & Hcase); [done|done|done|].
       destruct Hcase as [[-> W2]|(-> & _ & W2)].
       - exists 0, d2. split; [done|]. left. split_and!; [done| |by intros Hc].
         exists (r :: P). by split.
       - exists (-1), d2. split; [done|]. right. split_and!; [done|done|]. by exists []. }
  change (0 =? -1) with false. cbn iota. unfold mbind at 1, M_bind at 1.
  destruct (chunk_flush_spec _ d1 c ck W1 Hck) as (e2 & W2 & Q2 & Hle2 & [[-> Hnc]|[-> W3]]).
  { set (d2 := set_env e2 d1) in *. unfold mbind at 1, M_bind at 1.
    destruct (entry_retry_destroy cfg C [(t, o)] [(q, r)] [] P n d2 t o (Some r) W2)
      as (d3 & -> & W3 & _); [by left|by intros ? [= <-]; exists x|done|].
    eexists (-1), d3. split; [done|]. right. split_and!; [done|by apply Hnc1|]. exists [].
    apply (wf_free_drop cfg C [] [(t, o)]). rewrite drop_retry_self in W3. exact W3. }
  set (d3 := set_d_chunks _ _) in *.
  unfold mbind at 1, M_bind at 1. rewrite (task_at_run t k d3 Hk).
  unfold mbind at 1, M_bind at 1. rewrite Hevc. cbn [deref].
  unfold mbind at 1, M_bind at 1, store_task at 1, modify at 1.
  set (k' := set_t_event_chunk _ k). set (d4 := set_d_tasks _ d3).
  assert (W4 : wf cfg (mk_hold C [(t, o)] [(q, r)] [] [] P n) d4).
  { eapply wf_neutral; [exact W3|exact Hk| |done|done]. by constructor. }
  unfold mbind at 1, M_bind at 1. rewrite Ho, (output_at_run cfg o ins d4 Hins), (is_sync_flag cfg o ins Hins).
  assert (Hle4 : env_le (env_of d) (env_of d4)).
  { etrans; [exact Hle1|]. change (env_of d4) with (env_of (set_env e2 d1)). rewrite (env_of_set e2 d1).
    unfold d1 in Hle2. by rewrite (env_of_set e1 d) in Hle2. }
  assert (Hok4 : sync_ok cfg d4) by (by eapply sync_ok_le).
  assert (Hnc4 : ¬ calm (env_of d4) → ¬ calm (env_of d)) by (intros Hnc Hc; by eapply Hnc, calm_le).
  destruct (is_sync cfg o) eqn:Hs.
  - destruct (enqueue_spec cfg C [] [(q, r)] [] P n d4 t o (Some r) W4) as (v & d5 & Hrun & F & _ & Hin & Hcase);
      [by apply not_elem_of_nil|done|by intros ? [= <-]; exists x|done|done|].
    unfold mbind at 1, M_bind at 1. rewrite Hrun. destruct Hcase as [[Hv W5]|(-> & Hnc & X & _ & W5)].
    + rewrite (proj2 (Z.eqb_neq v (-1)) Hv). eexists 0, d5. split; [done|]. left. split_and!; [done|by exists P|].
      intros Hc. apply Hin. by eapply calm_le.
    + eexists (-1), d5. split; [done|]. right.
      split_and!; [done|by apply Hnc4|]. exists X. by rewrite drop_retry_self in W5.
  - destruct (output_task_flush_spec cfg C [] [(q, r)] [] P n d4 t o W4) as (v & d5 & Hrun & Hres & F & _);
      [by apply not_elem_of_nil|done|done|].
    unfold mbind at 1, M_bind at 1. rewrite Hrun.
    inversion Hres as [? ? W5 Hin|? ? W5 Hnc _|? ? W5 Hnc _ Hr5]; subst.
    1, 2: (eexists 0, _; split; [done|]; left; split_and!; [done|by exists P|]).
    { intros _. apply elem_of_app. by left. } { intros Hc. by apply Hnc4 in Hnc. }
    change (-1 =? -1) with true. cbn iota. unfold mbind at 1, M_bind at 1.
    rewrite Hs in W5.
    destruct (entry_retry_destroy cfg C [(rt_parent x, rt_o_ins x)] [(q, r)] [] P n d5 (rt_parent x) (rt_o_ins x)
      (Some r) W5) as (d6 & -> & W6 & _); [by left|intros ? [= <-]; exists x; by rewrite Hr5|done|].
    eexists (-1), d6. split; [done|]. right. split_and!; [done|by apply Hnc4|]. exists [].
    apply (wf_free_drop cfg C [] [(rt_parent x, rt_o_ins x)]). by rewrite drop_retry_self in W6.
Qed.

(** *** Chunks become tasks *)

(** Chunks and tasks that are not dealt with stay. *)
Record chunk_step (c : nat) (d d' : delivery S) : Prop := {
  cs_chunks c' : c' ≠ c → d_chunks d' !! c' = d_chunks d !! c';
  cs_tasks t k : d_tasks d !! t = Some k → d_tasks d' !! t = Some k;
  cs_rest : d_retries d' = d_retries d ∧ d_queues d' = d_queues d ∧ d_flushes d' = d_flushes d
}.

Lemma chunk_step_env c d e : chunk_step c d (set_env e d).
Proof. by constructor. Qed.

Lemma release_lock_spec h c d ck : wf cfg h d → d_chunks d !! c = Some ck → ck_task ck = None →
  ∃ v d', flb_input_chunk_release_lock c d = Some (v, d') ∧ wf cfg h d' ∧ chunk_step c d d' ∧
    ∃ ck', d_chunks d' !! c = Some ck' ∧ ck_task ck' = None ∧ ck_busy ck' = false.
Proof.
  intros W Hc Ht. unfold flb_input_chunk_release_lock, store_chunk. mrun. rewrite (chunk_at_run c ck d Hc).
  destruct (ck_busy ck) eqn:Hb.
  - rewrite emit_run. eexists 0, _. split; [done|]. split_and!.
    + apply (wf_emit cfg h (set_d_chunks (<[c := set_ck_busy false ck]> (d_chunks d)) d)).
      apply (wf_chunk_busy cfg h d); auto.
    + constructor; [|done|done]. intros c' Hne. cbn. by rewrite lookup_insert_ne.
    + exists (set_ck_busy false ck). cbn. by rewrite lookup_insert_eq.
  - eexists (-1), d. split_and!; [done|done|by constructor|by exists ck].
Qed.

Lemma dispatch_chunk_spec C P n id c ck d :
  wf cfg (mk_hold C [] [] [] [] P n) d → d_chunks d !! c = Some ck →
  ∃ v d', dispatch_chunk cfg route_condition id c d = Some (v, d') ∧
    wf cfg (mk_hold C [] [] [] [] P n) d' ∧ chunk_step c d d'.
Proof.
  intros W Hc. unfold dispatch_chunk. unfold mbind at 1, M_bind at 1. rewrite (chunk_at_run c ck d Hc).
  destruct (ck_busy ck) eqn:Hb; [by exists true, d|].
  assert (Hct : ck_task ck = None).
  { destruct (ck_task ck) as [t|] eqn:Ht; [|done].
    destruct (wh_chunk _ _ _ (wf_h _ _ _ W) c ck Hc) as [_ Hin]. destruct (Hin t Ht) as (Ho & k & Hk & Hic).
    destruct (task_parts cfg _ d t k W Hk) as (c' & ck' & evc & Hic' & Hck' & _ & Hbusy & _); [done|]. congruence. }
  unfold mbind at 1, M_bind at 1, flb_task_map_get_task_id.
  destruct (map_get_task_id_spec cfg _ d W) as (tid & d1 & -> & W1 & Q1 & Ht1 & _).
  destruct (tid =? -1); [exists false, d1; split_and!; [done|done|]|].
  { destruct Q1. constructor; [congruence| |done]. intros t k. congruence. }
  assert (Hc1 : d_chunks d1 !! c = Some ck) by by rewrite (qu_chunks _ _ Q1).
  assert (S1 : ∀ d2, chunk_step c d1 d2 → chunk_step c d d2).
  { intros d2 [H1 H2 (H3 & H4 & H5)]. destruct Q1. constructor.
    - intros c' Hne. rewrite H1 by done. congruence.
    - intros t k Hk. apply H2. congruence.
    - split_and!; congruence. }
  unfold mbind at 1, M_bind at 1.
  destruct (chunk_flush_spec _ d1 c ck W1 Hc1) as (e & W2 & Q2 & _ & [[-> _]|[-> W3]]).
  { unfold mbind at 1, M_bind at 1.
    destruct (release_lock_spec _ c (set_env e d1) ck W2) as (v & d3 & -> & W3 & [S3 S4 S5] & _); [done|done|].
    exists true, d3. split_and!; [done|done|]. apply S1. by constructor. }
  set (d3 := set_d_chunks _ _) in *.
  assert (Hc3 : d_chunks d3 !! c = Some (set_ck_busy true ck)) by apply lookup_insert_eq.
  assert (S3 : ∀ d4, chunk_step c d3 d4 → chunk_step c d d4).
  { intros d4 [H1 H2 H3]. apply S1. constructor; [|done|done].
    intros c' Hne. rewrite H1 by done. cbn. by rewrite lookup_insert_ne. }
  assert (Hrel : ∃ v d', (flb_input_chunk_release_lock c ≫= λ _, mret true) d3 = Some (v, d') ∧
    wf cfg (mk_hold C [] [] [] [] P n) d' ∧ chunk_step c d d').
  { unfold mbind, M_bind. destruct (release_lock_spec _ c d3 _ W3 Hc3) as (v & d4 & -> & W4 & S4 & _); [done|].
    exists true, d4. split_and!; [done|done|by apply S3]. }
  destruct (ck_size ck =? 0); [exact Hrel|]. destruct (ck_tag ck) as [[|b tag]|]; [exact Hrel| |exact Hrel].
  clear Hrel. unfold mbind at 1, M_bind at 1.
  destruct (task_create_spec cfg Hcfg route_condition C [] [] P n d3 id (ck_size ck) c _ W3 Hc3) as (res & d4 & ins & Hrun & _ & W4 & [F1 F2 F3] & Hres);
    [done|done|]. cbn [ck_in set_ck_busy] in Hrun. rewrite Hrun.
  destruct res as [[t|] err]; cbn in Hres.
  - destruct Hres as (Hnew & _ & Hch & k & l & Htk & _). exists true, d4. split_and!; [done|done|]. apply S3.
    constructor; [|intros t' k' Hk'|done].
    + intros c' Hne. rewrite Hch. by rewrite lookup_insert_ne.
    + rewrite Htk, lookup_insert_ne; [done|]. intros Heq. rewrite Heq in Hnew. by pose proof (eq_trans (eq_sym Hnew) Hk').
  - destruct err.
    + destruct Hres as (Htk & Hch & _).
      assert (Hc4 : d_chunks d4 !! c = Some (set_ck_busy true ck)) by by rewrite Hch.
      unfold mbind at 1, M_bind at 1.
      destruct (release_lock_spec _ c d4 _ W4 Hc4) as (v & d5 & -> & W5 & S5 & ck' & Hck' & _); [done|].
      unfold flb_input_chunk_down, mbind at 1, M_bind at 1. unfold mbind at 1, M_bind at 1.
      rewrite (chunk_at_run c ck' d5 Hck'), emit_run. eexists true, _. split_and!; [done|by apply wf_emit|].
      apply S3. destruct S5 as [H1 H2 (H3 & H4 & H5)]. constructor; cbn.
      * intros c' Hne. rewrite H1 by done. by rewrite Hch.
      * intros t' k' Hk'. apply H2. by rewrite Htk.
      * split_and!; etrans; eassumption.
    + destruct Hres as (Htk & Hch & _). exists true, d4. split_and!; [done|done|]. apply S3.
      constructor; [|intros t' k' Hk'; by rewrite Htk|done].
      intros c' Hne. rewrite Hch. by rewrite lookup_delete_ne.
Qed.

Lemma dispatch_chunks_spec C P n id l : ∀ d,
  wf cfg (mk_hold C [] [] [] [] P n) d → NoDup l → (∀ c, c ∈ l → is_Some (d_chunks d !! c)) →
  ∃ d', dispatch_chunks cfg route_condition id l d = Some (tt, d') ∧
    wf cfg (mk_hold C [] [] [] [] P n) d'.
Proof.
  induction l as [|c l IH]; intros d W Hnd Hl; cbn; [by exists d|].
  apply NoDup_cons in Hnd as [Hcl Hnd]. destruct (Hl c) as [ck Hck]; [by left|].
  destruct (dispatch_chunk_spec C P n id c ck d W Hck) as (v & d1 & Hrun & W1 & S1).
  unfold mbind, M_bind. rewrite Hrun. destruct v; [|by exists d1].
  apply IH; [done|done|]. intros c' Hc'. rewrite (cs_chunks _ _ _ S1); [by apply Hl; right|]. by intros ->.
Qed.

#[global] Instance evolves_coros_size o : Evolves (flb_output_coros_size (S := S) o).
Proof. unfold flb_output_coros_size. evolve. Qed.
#[global] Instance evolves_start_routes t routes : ∀ retry hits,
  Evolves (start_routes (S := S) cfg t routes retry hits).
Proof. induction routes as [|r routes IH]; intros retry hits; cbn; unfold store_task, output_at; evolve. Qed.

(** *** Tasks are started *)

(** A task starts to run: a free token for each of its routes. *)
Lemma wf_start C P n d t k :
  wf cfg (mk_hold C [] [] [] [] P n) d → d_tasks d !! t = Some k → t_status k = FLB_TASK_NEW →
  wf cfg (mk_hold C ((t,.) <$> (r_out <$> t_routes k)) [] [] [] P n)
    (set_d_tasks (<[t := set_t_status FLB_TASK_RUNNING k]> (d_tasks d)) d).
Proof.
  intros W Hk Hst. assert (Hnr : t_status k ≠ FLB_TASK_RUNNING) by by rewrite Hst.
  pose proof (no_token_new cfg _ d t k W Hk Hnr) as Hno.
  destruct (wt_new _ _ _ (wf_t _ _ _ W) t k Hk Hnr) as [_ Hret].
  destruct (wh_routes _ _ _ (wf_h _ _ _ W) t k Hk) as [Hnd Hout].
  set (k' := set_t_status FLB_TASK_RUNNING k).
  assert (Hns : ∀ o, (t, o) ∉ sched_pairs P d).
  { intros o (r & x & _ & Hx & [= Hpar _])%elem_of_sched_pairs.
    destruct (wh_retry _ _ _ (wf_h _ _ _ W) r x Hx) as (_ & k0 & Hk0 & Hin).
    rewrite Hpar, Hk in Hk0. injection Hk0 as <-. rewrite Hret in Hin. by apply not_elem_of_nil in Hin. }
  destruct W as [Wh [Hndt Hlive Hu Hnew] [Hlen Wq] Wr]. constructor.
  - eapply wf_heap_store_task; [by eapply wf_heap_hold|exact Hk|by constructor].
  - constructor.
    + unfold tokens, counted in *. cbn [h_free h_counted h_sched] in *. apply NoDup_app. split_and!; [| |exact Hndt].
      * apply NoDup_fmap_2; [by intros ? ? [= ->]|done].
      * intros p (o & -> & _)%list_elem_of_fmap. cbn. rewrite elem_of_app. intros [Hin|Hin]; [|by apply (Hns o)].
        apply (Hno o). unfold counted. cbn. done.
    + intros t' o. rewrite elem_of_app. intros [(o' & [= -> ->] & Ho)%list_elem_of_fmap|Hin].
      * apply list_elem_of_fmap in Ho as (ro & -> & Hro). rewrite Forall_forall in Hout. split_and!; [by apply Hout|by apply not_elem_of_nil|].
        exists k'. cbn. by rewrite lookup_insert_eq.
      * destruct (Hlive t' o) as (? & ? & k0 & Hk0 & ?); [exact Hin|]. split_and!; try done. exists k0. cbn.
        rewrite lookup_insert_ne; [done|]. intros <-. congruence.
    + intros t' k0. cbn. destruct (decide (t = t')) as [<-|Hne].
      * rewrite lookup_insert_eq. intros [= <-]. exact (Hu t k Hk).
      * rewrite lookup_insert_ne by done. apply Hu.
    + intros t' k0. cbn. destruct (decide (t = t')) as [<-|Hne].
      * rewrite lookup_insert_eq. by intros [= <-].
      * rewrite lookup_insert_ne by done. apply Hnew.
  - constructor; [done|]. intros o q Hq. destruct (Wq o q Hq). by constructor.
  - destruct Wr. by constructor.
Qed.

(** A task that could not be started waits as it did. *)
Lemma wf_unstart C P n d t k :
  wf cfg (mk_hold C [] [] [] [] P n) d → d_tasks d !! t = Some k → t_retries k = [] →
  no_token (mk_hold C [] [] [] [] P n) t d →
  wf cfg (mk_hold C [] [] [] [] P n) (set_d_tasks (<[t := set_t_status FLB_TASK_NEW k]> (d_tasks d)) d).
Proof.
  intros [Wh [Hndt Hlive Hu Hnew] [Hlen Wq] Wr] Hk Hret Hno. constructor.
  - eapply wf_heap_store_task; [exact Wh|exact Hk|by constructor].
  - constructor.
    + exact Hndt.
    + intros t' o Hin. destruct (Hlive t' o) as (? & ? & k0 & Hk0 & ?); [exact Hin|]. split_and!; try done. exists k0. cbn.
      rewrite lookup_insert_ne; [done|]. intros <-. by apply (Hno o).
    + intros t' k0. cbn. destruct (decide (t = t')) as [<-|Hne].
      * rewrite lookup_insert_eq. intros [= <-]. exact (Hu t k Hk).
      * rewrite lookup_insert_ne by done. apply Hu.
    + intros t' k0. cbn. destruct (decide (t = t')) as [<-|Hne].
      * rewrite lookup_insert_eq. by intros [= <-].
      * rewrite lookup_insert_ne by done. apply Hnew.
  - constructor; [done|]. intros o q Hq. destruct (Wq o q Hq). by constructor.
  - destruct Wr. by constructor.
Qed.

(** What starting the task [t] leaves alone. *)
Record keeps (t : nat) (d d' : delivery S) : Prop := {
  ke_in_tasks : d_in_tasks d' = d_in_tasks d;
  ke_tasks t' k : d_tasks d !! t' = Some k → ∃ k', d_tasks d' !! t' = Some k' ∧ t_status k' = t_status k;
  ke_routes t' k : t' ≠ t → d_tasks d !! t' = Some k → ∃ k', d_tasks d' !! t' = Some k' ∧ t_routes k' = t_routes k
}.
#[global] Instance keeps_preorder t : PreOrder (keeps t).
Proof.
  split; [by constructor; eauto|]. intros d1 d2 d3 [H1 H2 H2'] [H3 H4 H4']. constructor; [congruence| |].
  - intros t' k Hk. destruct (H2 t' k Hk) as (k2 & Hk2 & <-). by apply H4.
  - intros t' k Hne Hk. destruct (H2' t' k Hne Hk) as (k2 & Hk2 & <-). by apply H4'.
Qed.
Lemma frame_keeps t d d' : frame d d' → keeps t d d'.
Proof.
  intros F. constructor; [apply F| |].
  - intros t' k Hk. destruct (frame_task _ _ t' k F Hk) as (k' & ? & []). eauto.
  - intros t' k _ Hk. destruct (frame_task _ _ t' k F Hk) as (k' & ? & []). eauto.
Qed.

(** Nothing but the routes of [t] changes. *)
Record only_routes (t : nat) (d d' : delivery S) : Prop := {
  or_tasks k : d_tasks d !! t = Some k → ∃ l, d_tasks d' !! t = Some (set_t_routes l k);
  or_flushes : d_flushes d' = d_flushes d;
  or_queues : d_queues d' = d_queues d
}.
Lemma only_routes_refl t d : only_routes t d d.
Proof. constructor; [|done|done]. intros k ->. exists (t_routes k). by destruct k. Qed.
Lemma only_routes_trans t d1 d2 d3 : only_routes t d1 d2 → only_routes t d2 d3 → only_routes t d1 d3.
Proof.
  intros [H1 H2 H3] [H4 H5 H6]. constructor; [|congruence|congruence].
  intros k Hk. destruct (H1 k Hk) as [l Hl]. destruct (H4 _ Hl) as [l' Hl']. by exists l'.
Qed.

Lemma remove_route_sub o l : remove_route o l `sublist_of` l.
Proof.
  induction l as [|r l IH]; cbn; [done|]. case_bool_decide; [by apply sublist_cons|by apply sublist_skip].
Qed.

Lemma routes_ok_sublist l l' : l' `sublist_of` l → routes_ok cfg l → routes_ok cfg l'.
Proof.
  intros Hsub [Hnd Hout]. split.
  - eapply sublist_NoDup; [exact Hnd|]. by apply fmap_sublist.
  - rewrite Forall_forall in *. intros r Hr. apply Hout. by eapply elem_of_sublist.
Qed.

(** Nothing came of starting a task: it is NEW again. *)
Lemma unstart_spec t C P n h d k :
  wf cfg (mk_hold C [] [] [] [] P n) d → d_tasks d !! t = Some k →
  (h = 0 → t_retries k = [] ∧ no_token (mk_hold C [] [] [] [] P n) t d) →
  ∃ d', when (h =? 0) (store_task t (set_t_status FLB_TASK_NEW k)) d = Some (tt, d') ∧
    wf cfg (mk_hold C [] [] [] [] P n) d' ∧ env_of d' = env_of d ∧ d_in_tasks d' = d_in_tasks d ∧
    d_flushes d' = d_flushes d ∧ d_queues d' = d_queues d ∧
    (∀ t', t ≠ t' → d_tasks d' !! t' = d_tasks d !! t') ∧
    (∀ t', is_Some (d_tasks d !! t') → is_Some (d_tasks d' !! t')).
Proof.
  intros W Hk Hh. destruct (Z.eqb_spec h 0) as [->|]; [|by exists d].
  destruct (Hh eq_refl) as (Hret & Hno). eexists. split; [done|]. split_and!; try done.
  - by apply wf_unstart.
  - intros t' Hne. cbn. by apply lookup_insert_ne.
  - intros t'. cbn. destruct (decide (t = t')) as [<-|]; [by rewrite lookup_insert_eq|by rewrite lookup_insert_ne].
Qed.

Lemma keeps_store_routes t k l d : d_tasks d !! t = Some k →
  keeps t d (set_d_tasks (<[t := set_t_routes l k]> (d_tasks d)) d).
Proof.
  intros Hk. constructor; [done| |].
  - intros t' k' Hk'. cbn. destruct (decide (t = t')) as [<-|]; [|rewrite lookup_insert_ne by done; eauto].
    rewrite lookup_insert_eq. rewrite Hk in Hk'. injection Hk' as <-. eauto.
  - intros t' k' Hne Hk'. cbn. rewrite lookup_insert_ne by done. eauto.
Qed.

(** An output every task may start on: no test mode, any number of tasks at a time. *)
Definition startable (o : nat) : Prop :=
  ∃ ins, cf_outputs cfg !! o = Some ins ∧ o_test_mode ins = false ∧ has_flag ins FLB_OUTPUT_NO_MULTIPLEX = false.
Definition on_its_way (t o : nat) (d : delivery S) : Prop := (t, o) ∈ flush_pairs d ++ queue_pairs d.

(** One route is started: flushed, or queued at a synchronous output. *)
Lemma start_route_spec C U P n d t o :
  wf cfg (mk_hold C ((t, o) :: U) [] [] [] P n) d → sync_ok cfg d →
  ∃ v X d', (if is_sync cfg o then flb_output_task_singleplex_enqueue cfg o None t
             else flb_output_task_flush cfg t o) d = Some (v, d') ∧
    wf cfg (mk_hold (X ++ C) U [] [] [] P n) d' ∧ env_le (env_of d) (env_of d') ∧ frame d d' ∧
    pairs_kept d d' ∧ (calm (env_of d) → X = [] ∧ on_its_way t o d').
Proof.
  intros W Hok. assert (HP : NoDup (([] : list (nat * nat)).*2 ++ P)) by (cbn; by eapply wf_sched_nodup). destruct (is_sync cfg o) eqn:Hs.
  - destruct (enqueue_spec cfg C U [] [] P n d t o None W)
      as (v & d1 & Hrun & F & K & Hin & Hcase); [by apply not_elem_of_nil|done|done|done|done|].
    assert (Hle : env_le (env_of d) (env_of d1)) by by eapply (evolves (m := flb_output_task_singleplex_enqueue cfg o None t)).
    destruct Hcase as [[Hv W1]|(-> & Hnc & X & _ & W1)].
    + exists v, [], d1. split_and!; try done; [apply F|]. intros Hc. split; [done|by apply Hin].
    + exists (-1), X, d1. split_and!; try done. apply F.
  - destruct (output_task_flush_spec cfg C U [] [] P n d t o W) as (v & d1 & Hrun & Hres & F & K);
      [by apply not_elem_of_nil|done|done|].
    assert (Hle : env_le (env_of d) (env_of d1)) by by eapply (evolves (m := flb_output_task_flush cfg t o)).
    exists v, [], d1.
    inversion Hres as [? ? W1 Hin|? ? W1 Hnc _|? ? W1 Hnc _ _]; subst; split_and!; try done; try apply F.
    + intros _. split; [done|]. apply elem_of_app. by left.
    + rewrite Hs in W1. by apply (wf_free_drop cfg C _ [(t, o)]) in W1.
Qed.

(** The loop over the routes of a task: every route is flushed, queued or given up; [X] are the
    tokens lost to failures. *)
Lemma start_routes_spec t P n retry routes : ∀ C hits d k,
  wf cfg (mk_hold C ((t,.) <$> (r_out <$> routes)) [] [] [] P n) d → d_tasks d !! t = Some k → sync_ok cfg d →
  ∃ hits' X d', start_routes cfg t routes retry hits d = Some (hits', d') ∧
    wf cfg (mk_hold (X ++ C) [] [] [] [] P n) d' ∧ (calm (env_of d) → X = []) ∧ hits <= hits' ∧
    keeps t d d' ∧ (hits' = hits → X = [] ∧ only_routes t d d') ∧ pairs_kept d d' ∧
    (calm (env_of d) → ∀ r, r ∈ routes → startable (r_out r) → on_its_way t (r_out r) d').
Proof.
  induction routes as [|route routes IH]; intros C hits d k W Hk Hok; cbn [start_routes].
  { exists hits, [], d. split_and!; try done || lia.
    - intros _. split; [done|apply only_routes_refl].
    - by apply pairs_kept_same.
    - by intros _ r ?%not_elem_of_nil. }
  rewrite !fmap_cons in W. set (o := r_out route) in *.
  destruct (held_live cfg _ _ _ _ _ _ _ _ t o W) as (Hout & _); [by left|].
  destruct (lookup_lt_is_Some_2 _ _ Hout) as [ins Hins].
  assert (Hskip : ∀ d1 k1, wf cfg (mk_hold C ((t, o) :: ((t,.) <$> (r_out <$> routes))) [] [] [] P n) d1 →
    d_tasks d1 !! t = Some k1 → env_of d1 = env_of d → keeps t d d1 → only_routes t d d1 → ¬ startable o →
    ∃ hits' X d', start_routes cfg t routes retry hits d1 = Some (hits', d') ∧
      wf cfg (mk_hold (X ++ C) [] [] [] [] P n) d' ∧ (calm (env_of d) → X = []) ∧ hits <= hits' ∧
      keeps t d d' ∧ (hits' = hits → X = [] ∧ only_routes t d d') ∧ pairs_kept d d' ∧
      (calm (env_of d) → ∀ r, r ∈ route :: routes → startable (r_out r) → on_its_way t (r_out r) d')).
  { intros d1 k1 W1 Hk1 He K1 O1 Hns. apply (wf_free_drop cfg C _ [(t, o)]) in W1.
    destruct (IH C hits d1 k1 W1 Hk1) as (h' & X & d' & Hrun & W' & Hc & Hh & K & Hor & Hkept & Hway).
    { unfold sync_ok. by rewrite He. }
    rewrite He in Hc, Hway. exists h', X, d'. split_and!; try done.
    - by etrans.
    - intros Heq. destruct (Hor Heq) as [-> O2]. split; [done|]. by eapply only_routes_trans.
    - eapply pairs_kept_trans; [by rewrite He| |exact Hkept]. apply pairs_kept_same; apply O1.
    - intros Hcalm r [->|Hr]%elem_of_cons Hst; [done|]. by apply Hway. }
  unfold mbind at 1, M_bind at 1. rewrite (output_at_run cfg o ins d Hins).
  destruct (o_test_mode ins) eqn:Htest.
  - unfold mbind at 1, M_bind at 1. rewrite (task_at_run t k d Hk).
    unfold mbind at 1, M_bind at 1, store_task at 1, modify at 1.
    apply (Hskip _ (set_t_routes (remove_route o (t_routes k)) k)); try done.
    + eapply wf_neutral; [exact W|exact Hk| |done|done]. constructor; try done.
      apply routes_ok_sublist, remove_route_sub.
    + apply lookup_insert_eq.
    + by apply keeps_store_routes.
    + constructor; [|done|done]. intros k' Hk'. rewrite Hk in Hk'. injection Hk' as <-.
      exists (remove_route o (t_routes k)). apply lookup_insert_eq.
    + intros (ins' & Hins' & Ht & _). congruence.
  - unfold mbind at 1, M_bind at 1, flb_output_coros_size, gets. destruct (_ && _) eqn:Hmulti.
    { apply (Hskip d k); try done; [apply only_routes_refl|]. intros (ins' & Hins' & _ & Hm).
      rewrite Hins in Hins'. injection Hins' as <-. by rewrite Hm in Hmulti. }
    rewrite (is_sync_flag cfg o ins Hins). unfold mbind at 1, M_bind at 1.
    destruct (start_route_spec C _ P n d t o W Hok) as (v & X1 & d1 & Hrun & W1 & Hle & F1 & K1 & Hc1). rewrite Hrun.
    destruct (frame_task _ _ t k F1 Hk) as (k1 & Hk1 & _).
    destruct (IH (X1 ++ C) (hits + 1) d1 k1 W1 Hk1) as (h' & X & d' & Hrun' & W' & Hc & Hh & K & _ & Hkept & Hway);
      [by eapply sync_ok_le|].
    exists h', (X ++ X1), d'. rewrite app_assoc in W'. split_and!; [done|done| |lia| |lia| |].
    + intros Hcalm. destruct (Hc1 Hcalm) as [-> _]. rewrite Hc by by eapply calm_le. done.
    + etrans; [by apply frame_keeps|done].
    + eapply pairs_kept_trans; [|exact K1|exact Hkept]. by apply calm_le.
    + intros Hcalm r [->|Hr]%elem_of_cons Hst; [|apply Hway; [by eapply calm_le|done|done]].
      apply Hkept; [by eapply calm_le|]. by apply Hc1.
Qed.

Lemma start_tasks_spec P n l : ∀ C retry d,
  wf cfg (mk_hold C [] [] [] [] P n) d → (∀ t, t ∈ l → is_Some (d_tasks d !! t)) → NoDup l → sync_ok cfg d →
  ∃ X d', start_tasks cfg l retry d = Some (tt, d') ∧
    wf cfg (mk_hold (X ++ C) [] [] [] [] P n) d' ∧ (calm (env_of d) → X = []) ∧
    d_in_tasks d' = d_in_tasks d ∧ (∀ t, is_Some (d_tasks d !! t) → is_Some (d_tasks d' !! t)) ∧
    pairs_kept d d' ∧
    (calm (env_of d) → ∀ t k r, t ∈ l → d_tasks d !! t = Some k → t_status k = FLB_TASK_NEW → r ∈ t_routes k →
       startable (r_out r) → on_its_way t (r_out r) d').
Proof.
  induction l as [|t l IH]; intros C retry d W Hl Hnd Hok; cbn [start_tasks].
  { exists [], d. split_and!; try done; [by apply pairs_kept_same|]. by intros _ ? ? ? ?%not_elem_of_nil. }
  apply NoDup_cons in Hnd as [Htl Hnd].
  destruct (Hl t) as [k Hk]; [by left|].
  unfold mbind at 1, M_bind at 1. rewrite (task_at_run t k d Hk).
  set (retry' := if bool_decide _ then _ else _). destruct (Z.eqb_spec (t_status k) FLB_TASK_NEW) as [Hst|Hst]; cbn [negb].
  2: { destruct (IH C retry' d W) as (X & d' & Hrun & W' & Hc & Hit & Hlive & K & Hway);
         [by intros; apply Hl; right|done|done|].
       exists X, d'. split_and!; try done. intros Hcalm t' k' r [->|Ht']%elem_of_cons Hk' Hst'; [congruence|].
       by apply (Hway Hcalm t' k'). }
  unfold mbind at 1, M_bind at 1, store_task at 1, modify at 1.
  set (k1 := set_t_status FLB_TASK_RUNNING k). set (d1 := set_d_tasks _ d).
  pose proof (wf_start _ _ _ _ _ _ W Hk Hst) as W1. fold k1 d1 in W1.
  assert (Hk1 : d_tasks d1 !! t = Some k1) by apply lookup_insert_eq.
  destruct (start_routes_spec t P n retry' (t_routes k) C 0 d1 k1 W1 Hk1)
    as (h & X & d2 & Hrun & W2 & Hc & Hh & K & Hor & Hkept & Hway); [by eapply sync_ok_le|].
  unfold mbind at 1, M_bind at 1. rewrite Hrun.
  destruct (ke_tasks _ _ _ K t k1 Hk1) as (k2 & Hk2 & _).
  unfold mbind at 1, M_bind at 1. rewrite (task_at_run t k2 d2 Hk2).
  assert (Hle : env_le (env_of d) (env_of d2)) by (change (env_le (env_of d1) (env_of d2)); by eapply (evolves (m := start_routes cfg t (t_routes k) retry' 0) d1)).
  assert (Hnot : ∀ t', t' ∈ l → t ≠ t') by (by intros t' Ht' ->).
  assert (Hlive : ∀ t', is_Some (d_tasks d !! t') → is_Some (d_tasks d2 !! t')).
  { intros t' [k' Hk']. destruct (decide (t = t')) as [<-|Hne]; [by eexists|].
    destruct (ke_tasks _ _ _ K t' k') as (k3 & ? & _); [|by eexists]. cbn. by rewrite lookup_insert_ne. }
  destruct (unstart_spec t (X ++ C) P n h d2 k2 W2 Hk2) as (d3 & Hw & W3 & He3 & Hit3 & Hf3 & Hq3 & Ho3 & Hlive3).
  { intros ->. destruct (Hor eq_refl) as [-> [Hot Hof Hoq]]. destruct (Hot k1 Hk1) as [lr Hlr].
    rewrite Hlr in Hk2. injection Hk2 as <-. split_and!.
    - cbn. apply (wt_new _ _ _ (wf_t _ _ _ W) t k Hk). by rewrite Hst.
    - pose proof (no_token_new cfg _ d t k W Hk ltac:(by rewrite Hst)) as Hno.
      intros o. unfold counted, flush_pairs, queue_pairs. rewrite Hof, Hoq. apply Hno. }
  unfold mbind at 1, M_bind at 1. rewrite Hw.
  destruct (IH (X ++ C) retry' d3 W3) as (X' & d' & Hrun' & W' & Hc' & Hit' & Hlive' & K' & Hway').
  { intros t' Ht'. apply Hlive3, Hlive, Hl. by right. } { done. }
  { eapply sync_ok_le; [|exact Hok]. by rewrite He3. }
  assert (Hcalm2 : calm (env_of d) → calm (env_of d3)) by (rewrite He3; by apply calm_le).
  assert (K3 : pairs_kept d2 d3) by by apply pairs_kept_same.
  exists (X' ++ X), d'. rewrite <- app_assoc. split_and!; try done.
  - intros Hcalm. rewrite Hc by done. rewrite Hc'; [done|]. by apply Hcalm2.
  - rewrite Hit', Hit3. apply K.
  - intros t' Ht'. by apply Hlive', Hlive3, Hlive.
  - eapply pairs_kept_trans; [|exact Hkept|]; [by apply calm_le|].
    eapply pairs_kept_trans; [|exact K3|exact K']. by rewrite He3.
  - intros Hcalm t' k' r [->|Ht']%elem_of_cons Hk' Hst' Hr Hs.
    + rewrite Hk in Hk'. injection Hk' as <-. apply K'; [by apply Hcalm2|]. apply K3; [by eapply calm_le|]. by apply Hway.
    + destruct (ke_tasks _ _ _ K t' k') as (k3 & Hk3 & Hst3); [cbn; rewrite lookup_insert_ne; auto|].
      destruct (ke_routes _ _ _ K t' k') as (k4 & Hk4 & Hr4); [by intros ->; apply Hnot in Ht'|cbn; rewrite lookup_insert_ne; auto|].
      rewrite Hk3 in Hk4. injection Hk4 as <-. apply (Hway' (Hcalm2 Hcalm) t' k3); try done.
      * rewrite Ho3; [done|]. by apply Hnot.
      * by rewrite Hst3.
      * by rewrite Hr4.
Qed.

(** *** The whole of a dispatch *)
Lemma cleanup_spec C P n l : ∀ d,
  wf cfg (mk_hold C [] [] [] [] P n) d → NoDup l → (∀ t, t ∈ l → is_Some (d_tasks d !! t)) →
  ∃ d', foreach l cleanup_task d = Some (tt, d') ∧ wf cfg (mk_hold C [] [] [] [] P n) d'.
Proof.
  induction l as [|t l IH]; intros d W Hnd Hl; [by exists d|].
  apply NoDup_cons in Hnd as [Htl Hnd]. destruct (Hl t) as [k Hk]; [by left|].
  cbn [foreach]. unfold mbind at 1, M_bind at 1, cleanup_task. unfold mbind at 1, M_bind at 1.
  rewrite (task_at_run t k d Hk).
  destruct ((t_users k =? 0) && bool_decide (t_retries k = []) && bool_decide (t_routes k = [])) eqn:Hb.
  - bool_prop. destruct (users_release_spec cfg Hcfg C [] [] P n d t k W Hk) as (d1 & Hrun & W1 & Hd).
    { intros o. apply not_elem_of_nil. }
    assert (Hrel : releasable k = true).
    { unfold releasable. apply andb_true_iff. split; [by apply Z.eqb_eq|done]. }
    unfold flb_task_users_release in Hrun. unfold mbind at 1, M_bind at 1 in Hrun.
    rewrite (task_at_run t k d Hk) in Hrun. fold (releasable k) in Hrun. rewrite Hrel in Hrun, Hd. rewrite Hrun.
    apply IH; [done|done|]. intros t' Ht'. rewrite (de_tasks _ _ _ _ Hd), lookup_delete_ne; [by apply Hl; right|].
    by intros ->.
  - apply IH; [done|done|]. intros t' ?. apply Hl. by right.
Qed.

Lemma in_list_at (ls : list (list nat)) i l : ls !! i = Some l → ∀ x, x ∈ l → in_list ls i x.
Proof. intros Hl x Hx. by exists l. Qed.

Lemma dispatch_spec C P n id i d :
  wf cfg (mk_hold C [] [] [] [] P n) d → (i < length (cf_inputs cfg))%nat → sync_ok cfg d →
  ∃ v X d', flb_engine_dispatch cfg route_condition id i d = Some (v, d') ∧
    wf cfg (mk_hold (X ++ C) [] [] [] [] P n) d' ∧ (calm (env_of d) → X = []) ∧ v = 0.
Proof.
  intros W Hi Hok. destruct (lookup_lt_is_Some_2 _ _ Hi) as [ins Hins].
  unfold flb_engine_dispatch. unfold mbind at 1, M_bind at 1. rewrite Hins. cbn [deref].
  destruct (i_p ins); cbn [negb]; [|by exists 0, [], d].
  destruct (lookup_lt_is_Some_2 (d_in_chunks d) i) as [lc Hlc]; [by rewrite (wh_in_chunks_len _ _ _ (wf_h _ _ _ W))|].
  unfold mbind at 1, M_bind at 1, gets at 1. unfold mbind at 1, M_bind at 1. rewrite Hlc. cbn [deref].
  destruct (dispatch_chunks_spec C P n id lc d W) as (d1 & Hrun1 & W1).
  { pose proof (wh_in_chunks_nodup _ _ _ (wf_h _ _ _ W)) as Hnd. by eapply Forall_lookup_1 in Hnd. }
  { intros c Hc. apply (in_list_at _ _ _ Hlc) in Hc.
    apply (wh_in_chunks _ _ _ (wf_h _ _ _ W)) in Hc as (ck & ? & _). by eexists. }
  unfold mbind at 1, M_bind at 1. rewrite Hrun1.
  assert (Hle1 : env_le (env_of d) (env_of d1)) by by eapply (evolves (m := dispatch_chunks cfg route_condition id lc)).
  destruct (lookup_lt_is_Some_2 (d_in_tasks d1) i) as [lt Hlt]; [by rewrite (wh_in_tasks_len _ _ _ (wf_h _ _ _ W1))|].
  destruct (start_tasks_spec P n lt C 0 d1 W1) as (X & d2 & Hrun2 & W2 & Hc & Hit & Hlive & _).
  { intros t Ht. apply (in_list_at _ _ _ Hlt) in Ht.
    apply (wh_in_tasks _ _ _ (wf_h _ _ _ W1)) in Ht as (k & ? & _). by eexists. }
  { pose proof (wh_in_tasks_nodup _ _ _ (wf_h _ _ _ W1)) as Hnd. by eapply Forall_lookup_1 in Hnd. }
  { by eapply sync_ok_le. }
  assert (Hts : tasks_start cfg i d1 = Some (tt, d2)).
  { unfold tasks_start. unfold mbind at 1, M_bind at 1, gets at 1. unfold mbind at 1, M_bind at 1. by rewrite Hlt. }
  unfold mbind at 1, M_bind at 1. rewrite Hts.
  unfold mbind at 1, M_bind at 1, gets at 1. unfold mbind at 1, M_bind at 1. rewrite Hit, Hlt. cbn [deref].
  destruct (cleanup_spec (X ++ C) P n lt d2 W2) as (d3 & Hrun3 & W3).
  { pose proof (wh_in_tasks_nodup _ _ _ (wf_h _ _ _ W1)) as Hnd. by eapply Forall_lookup_1 in Hnd. }
  { intros t Ht. apply Hlive. apply (in_list_at _ _ _ Hlt) in Ht.
    apply (wh_in_tasks _ _ _ (wf_h _ _ _ W1)) in Ht as (k & ? & _). by eexists. }
  unfold mbind at 1, M_bind at 1. rewrite Hrun3. exists 0, X, d3. split_and!; try done.
  intros Hcalm. apply Hc. by eapply calm_le.
Qed.
End specs.
