(* ===== verification/Engine.v ===== *)
(** * Engine events of the delivery core ([src/flb_engine.c], [include/fluent-bit/flb_output.h])

    An output returns its verdict on a flush through a 64-bit message in a pipe; the engine decodes
    it and settles the task: done, dropped, or to be retried. *)
From S2P Require Import Prelude Env RetryQueue Router RoutesMask Delivery Invariant Task Output Dispatch.

(** ** Messages *)

Definition FLB_BITS_U64_SET (a b : Z) : Z := Z.lor (u64 (Z.shiftl a 32)) b.
Definition FLB_BITS_U64_HIGH (val : Z) : Z := Z.shiftr val 32.
Definition FLB_BITS_U64_LOW (val : Z) : Z := Z.land val 0xffffffff.
Definition FLB_TASK_RET (val : Z) : Z := Z.shiftr val 28.
Definition FLB_TASK_ID (val : Z) : Z := Z.shiftr (Z.land val 0xfffc000) 14.
Definition FLB_TASK_OUT (val : Z) : Z := Z.land val 0x3fff.
Definition FLB_TASK_SET (ret task_id out_id : Z) : Z :=
  u32 (Z.lor (Z.lor (Z.shiftl ret 28) (Z.shiftl task_id 14)) out_id).
Definition FLB_ENGINE_TASK : Z := 2.

Definition FLB_EVENT_TYPE_LOGS : Z := 0.
Definition FLB_EVENT_TYPE_METRICS : Z := 1.

Section operations.
Context {S : Type} `{RetryQueue S}.
Context (cfg : flb_config) (route_condition : flb_event_chunk → nat → bool).

(** The flush of the pair that has not returned goes on to the state [st]. *)
Fixpoint mark_flush (t o : nat) (st : flush_state) (l : list flb_output_flush) : list flb_output_flush :=
  match l with
  | [] => []
  | f :: l' =>
      if bool_decide (of_task f = t ∧ of_out f = o ∧ of_returned f = false)
      then mk_flush t o st :: l' else f :: mark_flush t o st l'
  end.
Definition move_flush (t o : nat) (st : flush_state) : M (delivery S) unit :=
  modify (λ d, set_d_flushes (mark_flush t o st (d_flushes d)) d).

(** [flb_output_return]: the message a flush leaves in the pipe.  [processed] is what the
    processors of the output left of the records and bytes. *)
Definition flb_output_return (ret : Z) (t o : nat) (processed : option (Z * Z)) : M (delivery S) Z :=
  ins ← output_at cfg o;
  k ← task_at t;
  let own := match t_event_chunk k with
             | Some evc => (evc_total_events evc, evc_size evc)
             | None => (0, 0)
             end in
  let '(records, bytes) := default own processed in
  let k := flb_task_set_route_metrics k o records bytes in
  store_task t (flb_task_deactivate_route k o) ≫= λ _,
  move_flush t o (FlushReturned ret) ≫= λ _,
  mret (FLB_BITS_U64_SET FLB_ENGINE_TASK (FLB_TASK_SET ret (t_id k) (o_id ins))).

(** [output_pre_cb_flush]: what the coroutine of a flush does once it is resumed; [processed] is the event
    chunk the processors of the output left, if it has any.  Nothing to send returns FLB_OK at once, and a
    route that was dropped meanwhile FLB_ERROR: the result is the message.  Otherwise the route becomes
    active and the callback of the plugin takes over. *)
Definition nothing_to_send (evc : flb_event_chunk) : bool :=
  (evc_type evc =? FLB_EVENT_TYPE_LOGS) && (evc_total_events evc =? 0) ||
  (evc_type evc =? FLB_EVENT_TYPE_METRICS) && (evc_size evc =? 0).

Definition output_pre_cb_flush (t o : nat) (processed : option flb_event_chunk) : M (delivery S) (option Z) :=
  k ← task_at t;
  let metrics := (λ evc, (evc_total_events evc, evc_size evc)) <$> processed in
  let event_chunk := match processed with Some evc => Some evc | None => t_event_chunk k end in
  if default false (nothing_to_send <$> event_chunk) then
    val ← flb_output_return FLB_OK t o metrics; mret (Some val)
  else if flb_task_get_route_status k o =? FLB_TASK_ROUTE_DROPPED then
    val ← flb_output_return FLB_ERROR t o metrics; mret (Some val)
  else
    store_task t (flb_task_activate_route k o) ≫= λ _,
    move_flush t o FlushRunning ≫= λ _, mret None.

(** [handle_dlq_if_available]: copy the rejected chunk aside. *)
Definition handle_dlq_if_available (t o : nat) : M (delivery S) unit :=
  if cf_keep_rejected cfg then
    k ← task_at t;
    match t_ic k with
    | None => mret tt
    | Some c => _ ← chunk_at c; emit (Quarantine c o)
    end
  else mret tt.

(** The records and bytes a message is about. *)
Definition effective (k : flb_task) (o : nat) : M (delivery S) (Z * Z) :=
  evc ← deref (t_event_chunk k);
  mret (default (evc_total_events evc, evc_size evc) (flb_task_get_route_metrics k o)).

Definition handle_ok (t o : nat) (records : Z) : M (delivery S) Z :=
  emit (Delivered t o records) ≫= λ _,
  _ ← flb_task_retry_count t o;
  flb_task_retry_clean t o ≫= λ _,
  flb_task_users_dec t true ≫= λ _,
  mret 0.

(** The end of a flush that will not be repeated. *)
Definition handle_drop (t o : nat) (records : Z) : M (delivery S) Z :=
  handle_dlq_if_available t o ≫= λ _,
  emit (Dropped t o records) ≫= λ _,
  flb_task_retry_clean t o ≫= λ _,
  flb_task_users_dec t true ≫= λ _,
  mret 0.

Definition handle_retry (t o : nat) (ins : flb_output_instance) (records : Z) : M (delivery S) Z :=
  if o_retry_limit ins =? FLB_OUT_RETRY_NONE then handle_drop t o records
  else
    retry ← flb_task_retry_create cfg t o;
    match retry with
    | None => handle_drop t o records
    | Some r =>
        flb_task_users_dec t false ≫= λ _,
        x ← retry_at r;
        retry_seconds ← lift (rqueue_create (cf_sched cfg) r (rt_attempts x));
        if retry_seconds =? -1 then
          handle_dlq_if_available t o ≫= λ _,
          flb_task_retry_destroy r ≫= λ _,
          flb_task_users_release t ≫= λ _,
          mret 0
        else emit (Retried t o records) ≫= λ _, mret 0
    end.

Definition handle_output_event (val : Z) : M (delivery S) Z :=
  let type := FLB_BITS_U64_HIGH val in
  let key := FLB_BITS_U64_LOW val in
  if negb (type =? FLB_ENGINE_TASK) then mret (-1)
  else
    let ret := FLB_TASK_RET key in
    let task_id := FLB_TASK_ID key in
    let out_id := FLB_TASK_OUT key in
    m ← gets d_map;
    slot ← deref (m !z task_id);
    t ← deref slot;
    o ← deref (flb_output_get_instance cfg out_id);
    ins ← output_at cfg o;
    when (negb (o_is_threaded ins)) (emit (FlushFinished o)) ≫= λ _,
    k ← task_at t;
    _ ← deref (t_i_ins k);
    eff ← effective k o;
    when (has_flag ins FLB_OUTPUT_SYNCHRONOUS &&
          ((ret =? FLB_OK) || (ret =? FLB_RETRY) || (ret =? FLB_ERROR)))
      (flb_output_task_singleplex_flush_next cfg o ≫= λ _, mret tt) ≫= λ _,
    if ret =? FLB_OK then handle_ok t o (fst eff)
    else if ret =? FLB_RETRY then handle_retry t o ins (fst eff)
    else if ret =? FLB_ERROR then handle_drop t o (fst eff)
    else mret 0.

(** ** Timers that carry a retry: the FLB_SCHED_TIMER_REQUEST branch of [flb_sched_event_handler] *)

Definition request_event (q : nat) : M (delivery S) Z :=
  d ← get;
  r ← deref (rqueue_request (d_rq d) q);
  ret ← flb_engine_dispatch_retry cfg r;
  when (ret =? 0) (lift (rqueue_request_destroy q) ≫= λ _, mret tt) ≫= λ _,
  mret 0.

(** ** Shutdown *)

Definition reschedule_task (t : nat) : M (delivery S) unit :=
  k ← task_at t;
  if 0 <? t_users k then mret tt
  else foreach (t_retries k) (λ r,
    _ ← retry_at r;
    lift (rqueue_invalidate r) ≫= λ _, lift (rqueue_retry_now r) ≫= λ _, mret tt).

(** [flb_engine_reschedule_retries] *)
Definition flb_engine_reschedule_retries : M (delivery S) unit :=
  ls ← gets d_in_tasks;
  foreach ls (λ l, foreach l reschedule_task).

(** [flb_engine_destroy_tasks] *)
Definition flb_engine_destroy_tasks (i : nat) : M (delivery S) Z :=
  ls ← gets d_in_tasks; l ← deref (ls !! i);
  foreach l (λ t, flb_task_destroy t false) ≫= λ _, mret (zlen l).

(** [flb_engine_flush] without [in_force] *)
Fixpoint flush_inputs (n : nat) (ins : list flb_input_instance) : M (delivery S) unit :=
  match ins with
  | [] => mret tt
  | _ :: ins' => flb_engine_dispatch cfg route_condition 0 n ≫= λ _, flush_inputs (Datatypes.S n) ins'
  end.
Definition flb_engine_flush : M (delivery S) Z := flush_inputs 0 (cf_inputs cfg) ≫= λ _, mret 0.
End operations.

(** ** Messages are read as they were written *)

Lemma lor_shiftl_add a b k : 0 <= k → 0 <= b < 2 ^ k → Z.lor (Z.shiftl a k) b = a * 2 ^ k + b.
Proof.
  intros Hk Hb. rewrite <- Z.add_nocarry_lor; [by rewrite Z.shiftl_mul_pow2|].
  apply Z.bits_inj'. intros m Hm. rewrite Z.land_spec, Z.bits_0.
  destruct (decide (m < k)); [by rewrite Z.shiftl_spec_low|].
  destruct (Z.eq_dec b 0) as [->|]; [by rewrite Z.bits_0, andb_false_r|].
  rewrite (Z.bits_above_log2 b), andb_false_r; [done|lia|].
  apply Z.log2_lt_pow2; [lia|]. eapply Z.lt_le_trans; [apply Hb|]. apply Z.pow_le_mono_r; lia.
Qed.

Definition task_fields (ret task_id out_id : Z) : Prop :=
  0 <= ret < 2 ^ 4 ∧ 0 <= task_id < 2 ^ 14 ∧ 0 <= out_id < 2 ^ 14.

Lemma task_set_value ret task_id out_id : task_fields ret task_id out_id →
  FLB_TASK_SET ret task_id out_id = ret * 2 ^ 28 + task_id * 2 ^ 14 + out_id.
Proof.
  intros (Hr & Ht & Ho). unfold FLB_TASK_SET. rewrite <- Z.lor_assoc.
  rewrite (lor_shiftl_add task_id out_id) by lia. rewrite lor_shiftl_add by lia.
  unfold u32. rewrite Z.mod_small by lia. lia.
Qed.

Lemma task_message_fields ret task_id out_id : task_fields ret task_id out_id →
  let val := FLB_BITS_U64_SET FLB_ENGINE_TASK (FLB_TASK_SET ret task_id out_id) in
  FLB_BITS_U64_HIGH val = FLB_ENGINE_TASK ∧
  FLB_TASK_RET (FLB_BITS_U64_LOW val) = ret ∧ FLB_TASK_ID (FLB_BITS_U64_LOW val) = task_id ∧
  FLB_TASK_OUT (FLB_BITS_U64_LOW val) = out_id.
Proof.
  intros Hf. pose proof (task_set_value _ _ _ Hf) as Hv. destruct Hf as (Hr & Ht & Ho).
  set (key := FLB_TASK_SET ret task_id out_id) in *.
  assert (Hkey : 0 <= key < 2 ^ 32) by lia.
  assert (Hval : FLB_BITS_U64_SET FLB_ENGINE_TASK key = 2 * 2 ^ 32 + key).
  { unfold FLB_BITS_U64_SET, u64, FLB_ENGINE_TASK. rewrite Z.mod_small by (by cbn). by rewrite lor_shiftl_add by lia. }
  cbv zeta. rewrite Hval. unfold FLB_BITS_U64_HIGH, FLB_BITS_U64_LOW, FLB_TASK_RET, FLB_TASK_ID, FLB_TASK_OUT, FLB_ENGINE_TASK.
  change 4294967295 with (Z.ones 32). change 16383 with (Z.ones 14).
  change 268419072 with (Z.shiftl (Z.ones 14) 14).
  rewrite !Z.shiftr_div_pow2, !Z.land_ones by lia.
  assert (Hlow : (2 * 2 ^ 32 + key) mod 2 ^ 32 = key) by (rewrite Z.add_comm, Z.mod_add by lia; by apply Z.mod_small).
  rewrite Hlow. rewrite <- Z.shiftr_div_pow2 by lia.
  replace (Z.land key (Z.shiftl (Z.ones 14) 14) / 2 ^ 14) with ((key / 2 ^ 14) mod 2 ^ 14).
  2: { rewrite <- (Z.shiftr_div_pow2 (Z.land _ _)) by lia. rewrite Z.shiftr_land, Z.shiftr_shiftl_l by lia.
       rewrite Z.sub_diag, Z.shiftl_0_r, Z.land_ones by lia. by rewrite Z.shiftr_div_pow2 by lia. }
  rewrite !Z.shiftr_div_pow2 by lia. rewrite Hv. split_and!; Z.div_mod_to_equations; lia.
Qed.

Lemma output_by_id_first id outs : ∀ n o ins, outs !! o = Some ins → o_id ins = id →
  (∀ o' ins', outs !! o' = Some ins' → o_id ins' = id → o' = o) → output_by_id id n outs = Some (n + o)%nat.
Proof.
  induction outs as [|x outs IH]; intros n o ins Ho Hid Huniq; [done|]. cbn.
  destruct (Z.eqb_spec (o_id x) id) as [Hx|Hx].
  - rewrite <- (Huniq 0%nat x); [by rewrite Nat.add_0_r|done|done].
  - destruct o as [|o]; [cbn in Ho; congruence|]. rewrite (IH (Datatypes.S n) o ins); [f_equal; lia|done|done|].
    intros o' ins' Ho' Hid'. specialize (Huniq (Datatypes.S o') ins' Ho' Hid'). lia.
Qed.

Lemma get_instance_spec cfg (Hcfg : config_ok cfg) o ins : cf_outputs cfg !! o = Some ins →
  flb_output_get_instance cfg (o_id ins) = Some o.
Proof.
  intros Ho. unfold flb_output_get_instance. rewrite (output_by_id_first _ _ 0 o ins); [done|done|done|].
  intros o' ins' Ho' Hid. by eapply (co_id_inj _ Hcfg).
Qed.

(** The message of a flush is read as it was written: for every verdict that fits 4 bits, task id
    below 16384 and output of the configuration, the type is FLB_ENGINE_TASK and the fields decode to
    the verdict, the task id, and an output id that leads back to the same output instance. *)
Theorem task_message_roundtrip cfg o ins ret task_id :
  config_ok cfg → cf_outputs cfg !! o = Some ins → 0 <= ret < 2 ^ 4 → 0 <= task_id < 2 ^ 14 →
  let val := FLB_BITS_U64_SET FLB_ENGINE_TASK (FLB_TASK_SET ret task_id (o_id ins)) in
  FLB_BITS_U64_HIGH val = FLB_ENGINE_TASK ∧
  FLB_TASK_RET (FLB_BITS_U64_LOW val) = ret ∧ FLB_TASK_ID (FLB_BITS_U64_LOW val) = task_id ∧
  flb_output_get_instance cfg (FLB_TASK_OUT (FLB_BITS_U64_LOW val)) = Some o.
Proof.
  intros Hcfg Hins Hret Hid. pose proof (co_id _ Hcfg o ins Hins) as Hout.
  destruct (task_message_fields ret task_id (o_id ins)) as (H1 & H2 & H3 & H4); [done|].
  cbv zeta. rewrite H4. split_and!; try done. by apply get_instance_spec.
Qed.

(** ** A verdict is settled *)

Section evolves.
Context {S : Type} `{RetryQueue S} (cfg : flb_config).
#[global] Instance evolves_find_retry o l : Evolves (find_retry (S := S) o l).
Proof. induction l as [|r l IH]; cbn; evolve. Qed.
#[global] Instance evolves_retry_clean t o : Evolves (flb_task_retry_clean (S := S) t o).
Proof. unfold flb_task_retry_clean. evolve. Qed.
#[global] Instance evolves_put_down t : Evolves (retry_put_down (S := S) t).
Proof. unfold retry_put_down, flb_input_chunk_set_up_down, flb_input_chunk_down. evolve. Qed.
#[global] Instance evolves_retry_create t o : Evolves (flb_task_retry_create (S := S) cfg t o).
Proof. unfold flb_task_retry_create, store_retry, store_task. evolve. Qed.
#[global] Instance evolves_chunk_set_up n : Evolves (flb_input_chunk_set_up (S := S) n).
Proof. unfold flb_input_chunk_set_up. evolve. Qed.
#[global] Instance evolves_reschedule r : Evolves (flb_task_retry_reschedule (S := S) cfg r).
Proof. unfold flb_task_retry_reschedule. evolve. Qed.
#[global] Instance evolves_dispatch_retry r : Evolves (flb_engine_dispatch_retry (S := S) cfg r).
Proof. unfold flb_engine_dispatch_retry, store_task, output_at. evolve. Qed.
#[global] Instance evolves_start_tasks l : ∀ retry, Evolves (start_tasks (S := S) cfg l retry).
Proof. induction l as [|t l IH]; intros retry; cbn; unfold store_task; evolve. Qed.
#[global] Instance evolves_dispatch route_condition id i :
  Evolves (flb_engine_dispatch (S := S) cfg route_condition id i).
Proof. unfold flb_engine_dispatch, tasks_start, cleanup_task. evolve. Qed.
#[global] Instance evolves_dlq t o : Evolves (handle_dlq_if_available (S := S) cfg t o).
Proof. unfold handle_dlq_if_available. evolve. Qed.
#[global] Instance evolves_handle_ok t o n : Evolves (handle_ok (S := S) t o n).
Proof. unfold handle_ok, flb_task_retry_count. evolve. Qed.
#[global] Instance evolves_handle_drop t o n : Evolves (handle_drop (S := S) cfg t o n).
Proof. unfold handle_drop. evolve. Qed.
#[global] Instance evolves_handle_retry t o ins n : Evolves (handle_retry (S := S) cfg t o ins n).
Proof. unfold handle_retry. evolve. Qed.
#[global] Instance evolves_output_return ret t o pr : Evolves (flb_output_return (S := S) cfg ret t o pr).
Proof. unfold flb_output_return, move_flush, store_task, output_at. evolve. Qed.
#[global] Instance evolves_pre_cb_flush t o pr : Evolves (output_pre_cb_flush (S := S) cfg t o pr).
Proof.
  unfold output_pre_cb_flush, move_flush, store_task. apply evolves_bind; [apply _|intros k]. cbv zeta.
  destruct (default _ _); [evolve|]. evolve.
Qed.
#[global] Instance evolves_output_event val : Evolves (handle_output_event (S := S) cfg val).
Proof. unfold handle_output_event, output_at, effective. evolve. Qed.
End evolves.

Section specs.
Context {S : Type} `{RetryQueue S} (cfg : flb_config) (route_condition : flb_event_chunk → nat → bool).
Context (Hcfg : config_ok cfg).
Implicit Types (d : delivery S).

(** No retry is left for the pair, the flush is no longer counted, and the task goes with its last
    user when it waits for no other retry. *)
Record settled (t o : nat) (k : flb_task) (d d' : delivery S) : Prop := {
  se_retries r x : d_retries d' !! r = Some x → retry_pair x ≠ (t, o);
  se_gone : d_tasks d' !! t = None ↔
    t_users k = 1 ∧ ∀ r x, r ∈ t_retries k → d_retries d !! r = Some x → retry_pair x = (t, o);
  se_users k' : d_tasks d' !! t = Some k' → t_users k' = t_users k - 1
}.

Lemma settled_before t o k k1 d d1 d' : t_users k1 = t_users k → other_retries t o k k1 d d1 →
  settled t o k1 d1 d' → settled t o k d d'.
Proof.
  intros Hu [Hold Hlist Hkept] [Hr Hg Hus]. constructor; [done| |by rewrite <- Hu].
  rewrite Hg, Hu. split; intros [? Hall]; (split; [done|]).
  - intros r x Hin Hx. destruct (decide (retry_pair x = (t, o))) as [|Hne]; [done|].
    destruct (Hkept r x Hin Hx Hne) as [Hin' Hx']. by apply (Hall r).
  - intros r x Hin Hx. apply (Hall r x); auto.
Qed.

Lemma settle_spec C P n d t o k :
  wf cfg (mk_hold ((t, o) :: C) [] [] [] [] P n) d → d_tasks d !! t = Some k →
  ∃ d', (flb_task_retry_clean t o ≫= λ _, flb_task_users_dec t true) d = Some (tt, d') ∧
    wf cfg (mk_hold C [] [] [] [] P n) d' ∧ settled t o k d d'.
Proof.
  intros W Hk. unfold mbind, M_bind.
  destruct (retry_clean_spec cfg ((t, o) :: C) [] [] [] P n d t o k W Hk)
    as (v & d1 & k1 & -> & W1 & F1 & Ht1 & Hk1 & Hr1 & Hin1 & _ & _); [by left|].
  assert (Hk1t : d_tasks d1 !! t = Some k1) by by rewrite Ht1, lookup_insert_eq.
  destruct (users_dec_release_spec cfg Hcfg C [] [] P n d1 t o k1 W1 Hk1t) as (d' & -> & W' & Hd);
    [intros ?; apply not_elem_of_nil|].
  exists d'. split_and!; [done|done|].
  assert (Hu1 : t_users k1 = t_users k) by (by rewrite Hk1).
  assert (Hnil : t_retries k1 = [] ↔ ∀ r x, r ∈ t_retries k → d_retries d !! r = Some x → retry_pair x = (t, o)).
  { split.
    - intros Hnil r x Hr Hx. destruct (decide (retry_pair x = (t, o))) as [|Hne]; [done|].
      assert (r ∈ t_retries k1) as Hr'.
      { apply Hin1. split; [done|]. exists x. by apply Hr1. }
      rewrite Hnil in Hr'. by apply not_elem_of_nil in Hr'.
    - intros Hall. apply elem_of_nil_inv. intros r [Hr [x Hx]]%Hin1. apply Hr1 in Hx as [Hx Hne].
      by apply Hne, (Hall r). }
  destruct (releasable _) eqn:Hrel; unfold releasable in Hrel.
  - bool_prop. destruct Hd as [Hd Hdr _ _ _ _ _ _ _]. cbn in *. constructor.
    + intros r x Hx. rewrite Hdr in Hx. case_decide; [done|]. by apply Hr1 in Hx as [_ Hne].
    + rewrite Hd, lookup_delete_eq. split; [intros _|done]. split; [lia|apply Hnil; by eapply bool_decide_eq_true_1].
    + intros k'. by rewrite Hd, lookup_delete_eq.
  - subst d'. constructor.
    + intros r x Hx. by apply Hr1 in Hx as [_ Hne].
    + cbn. rewrite lookup_insert_eq. split; [done|]. intros [Hu Hall].
      apply Hnil in Hall. cbn in Hrel. rewrite Hall, Hu1, Hu in Hrel. by vm_compute in Hrel.
    + cbn. rewrite lookup_insert_eq. intros k' [= <-]. cbn. lia.
Qed.

Lemma delay_not_failure tries s : delay_bounds (cf_sched cfg) tries s → s ≠ -1.
Proof.
  unfold delay_bounds. destruct (is_shutting_down _); [lia|]. destruct (co_sched _ Hcfg). lia.
Qed.

(** The two ways a retry is scheduled: for the caller who holds its free token. *)
Lemma schedule_spec C P n d t o r x :
  wf cfg (mk_hold C [(t, o)] [] [] [] P n) d → d_retries d !! r = Some x → retry_pair x = (t, o) → n < 2 ^ 31 →
  ∃ s q, lift (rqueue_create (cf_sched cfg) r (rt_attempts x)) d = Some (s, set_d_rq q d) ∧
    ((s = -1 ∧ ¬ calm (env_of d) ∧ wf cfg (mk_hold C [(t, o)] [] [] [] P n) (set_d_rq q d)) ∨
     (s ≠ -1 ∧ delay_bounds (cf_sched cfg) (rt_attempts x) s ∧
      wf cfg (mk_hold C [] [] [] [] (r :: P) n) (set_d_rq q d))).
Proof.
  intros W Hx Hpair Hn. pose proof Hpair as [= Hpar Ho].
  pose proof (wh_retry _ _ _ (wf_h _ _ _ W) r x Hx) as [[Hatt _] _]. cbn in Hatt.
  pose proof W as [_ _ _ [Hrq Hp Hreq Hlive]]. cbn in *.
  destruct (rqueue_create_law (cf_sched cfg) r (rt_attempts x) (d_rq d) Hrq (co_sched _ Hcfg))
    as (s & q1 & Hrun & Hq1 & Hcalm & Hkeep & Hcase); [lia|].
  pose proof (evolves (m := rqueue_create (cf_sched cfg) r (rt_attempts x)) _ _ _ Hrun) as [He _ _ _ _].
  exists s, q1. unfold lift. rewrite Hrun. split; [done|].
  destruct Hcase as [[-> Hp1]|[Hd Hp1]].
  - left. split_and!; [done|intros Hc; by apply Hcalm in Hc|].
    eapply wf_set_rq; [exact W|done|done| | | |done|done].
    + by rewrite Hp1.
    + intros a r' Hin. by apply not_elem_of_nil in Hin.
    + exact Hlive.
  - right. split_and!; [by eapply delay_not_failure|done|].
    eapply wf_set_rq; [exact W|done|done| | | | |by intros ? ?%not_elem_of_nil].
    + by rewrite Hp1, Hp.
    + intros a r' Hin. by apply not_elem_of_nil in Hin.
    + cbn. intros r' [->|Hin]%elem_of_cons; [by eexists|by apply Hlive].
    + rewrite (sched_pairs_cons _ _ _ x Hx). by rewrite Hpair.
Qed.

Lemma dlq_spec h d t o k : wf cfg h d → d_tasks d !! t = Some k → t ∉ h_open h →
  ∃ l, handle_dlq_if_available cfg t o d = Some (tt, set_env (set_e_log (e_log (env_of d) ++ l) (env_of d)) d) ∧
    (if cf_keep_rejected cfg then ∃ c, t_ic k = Some c ∧ l = [Quarantine c o] else l = []).
Proof.
  intros W Hk HO. unfold handle_dlq_if_available. destruct (cf_keep_rejected cfg).
  - destruct (task_parts cfg h d t k W Hk HO) as (c & ck & evc & Hic & Hck & _).
    exists [Quarantine c o]. unfold mbind, M_bind. rewrite (task_at_run t k d Hk), Hic.
    rewrite (chunk_at_run c ck d Hck). split; [by rewrite emit_run|]. by exists c.
  - exists []. split; [|done]. rewrite app_nil_r. unfold mret, M_ret. f_equal. f_equal.
    transitivity (set_env (env_of d) d); [by rewrite set_env_of|]. f_equal. by destruct (env_of d).
Qed.

Lemma handle_drop_spec C P n d t o k records :
  wf cfg (mk_hold ((t, o) :: C) [] [] [] [] P n) d → d_tasks d !! t = Some k →
  ∃ d', handle_drop cfg t o records d = Some (0, d') ∧
    wf cfg (mk_hold C [] [] [] [] P n) d' ∧ settled t o k d d' ∧ Dropped t o records ∈ e_log (env_of d').
Proof.
  intros W Hk. unfold handle_drop.
  destruct (dlq_spec _ d t o k W Hk) as (l & Hdlq & _); [apply not_elem_of_nil|].
  unfold mbind at 1, M_bind at 1. rewrite Hdlq. set (d1 := set_env _ d).
  assert (W1 : wf cfg (mk_hold ((t, o) :: C) [] [] [] [] P n) d1) by (by refine (wf_env cfg _ d _ W _)).
  unfold mbind at 1, M_bind at 1. rewrite emit_run. set (d2 := set_env _ d1).
  assert (W2 : wf cfg (mk_hold ((t, o) :: C) [] [] [] [] P n) d2) by by apply wf_emit.
  destruct (settle_spec C P n d2 t o k W2 Hk) as (d3 & Hrun & W3 & Hs).
  unfold mbind, M_bind in Hrun |- *. destruct (flb_task_retry_clean t o d2) as [[v d2']|] eqn:Hcl; [|done].
  rewrite Hrun. exists d3. split_and!; [done|done| |].
  - destruct Hs. by constructor.
  - assert (Hle : env_le (env_of d2) (env_of d3)).
    { etrans; [by eapply (evolves (m := flb_task_retry_clean t o) d2)|by eapply (evolves (m := flb_task_users_dec t true) d2')]. }
    destruct Hle as [_ _ _ _ [l' Hl']]. rewrite Hl'. unfold d2. rewrite (env_of_set _ d1). cbn.
    rewrite !elem_of_app. left. right. by left.
Qed.

Lemma handle_ok_spec C P n d t o k records :
  wf cfg (mk_hold ((t, o) :: C) [] [] [] [] P n) d → d_tasks d !! t = Some k →
  ∃ d', handle_ok t o records d = Some (0, d') ∧
    wf cfg (mk_hold C [] [] [] [] P n) d' ∧ settled t o k d d' ∧ Delivered t o records ∈ e_log (env_of d').
Proof.
  intros W Hk. unfold handle_ok.
  unfold mbind at 1, M_bind at 1. rewrite emit_run. set (d1 := set_env _ d).
  assert (W1 : wf cfg (mk_hold ((t, o) :: C) [] [] [] [] P n) d1) by by apply wf_emit.
  destruct (find_retry_of_task cfg _ _ _ _ _ _ _ d1 t k o W1 Hk) as (res & Hfind & _).
  unfold mbind at 1, M_bind at 1, flb_task_retry_count. unfold mbind at 1, M_bind at 1.
  rewrite (task_at_run t k d1 Hk). unfold mbind at 1, M_bind at 1. rewrite Hfind. unfold mret at 1, M_ret at 1.
  destruct (settle_spec C P n d1 t o k W1 Hk) as (d3 & Hrun & W3 & Hs).
  unfold mbind, M_bind in Hrun |- *. destruct (flb_task_retry_clean t o d1) as [[v d2']|] eqn:Hcl; [|done].
  rewrite Hrun. exists d3. split_and!; [done|done| |].
  - destruct Hs. by constructor.
  - assert (Hle : env_le (env_of d1) (env_of d3)).
    { etrans; [by eapply (evolves (m := flb_task_retry_clean t o) d1)|by eapply (evolves (m := flb_task_users_dec t true) d2')]. }
    destruct Hle as [_ _ _ _ [l' Hl']]. rewrite Hl'. unfold d1. rewrite (env_of_set _ d). cbn.
    rewrite !elem_of_app. left. right. by left.
Qed.

(** The attempts of the retry of a pair, 0 when there is none. *)
Definition attempts_of (t o : nat) (d : delivery S) (a : Z) : Prop :=
  (∃ r x, d_retries d !! r = Some x ∧ retry_pair x = (t, o) ∧ rt_attempts x = a) ∨
  (a = 0 ∧ ∀ r x, d_retries d !! r = Some x → retry_pair x ≠ (t, o)).

(** How a request to retry ends. *)
Inductive retried (t o : nat) (ins : flb_output_instance) (k : flb_task) (records : Z) (d d' : delivery S) : Prop :=
| RetryDropped :              (* no retry allowed, or no memory for one *)
    (o_retry_limit ins = FLB_OUT_RETRY_NONE ∨ ¬ calm (env_of d) ∨
     ∃ a, attempts_of t o d a ∧ 0 <= o_retry_limit ins <= a) →
    settled t o k d d' → Dropped t o records ∈ e_log (env_of d') → retried t o ins k records d d'
| RetryScheduled r x a k' :
    attempts_of t o d a → (0 <= o_retry_limit ins → a < o_retry_limit ins) →
    d_retries d' !! r = Some x → retry_pair x = (t, o) → rt_attempts x = a + 1 →
    r ∈ rqueue_pending (d_rq d') → d_tasks d' !! t = Some k' → t_users k' = t_users k - 1 →
    Retried t o records ∈ e_log (env_of d') → retried t o ins k records d d'
| RetryNotScheduled :         (* no memory or timer for the request *)
    ¬ calm (env_of d) → (∀ r x, d_retries d' !! r = Some x → retry_pair x ≠ (t, o)) →
    retried t o ins k records d d'.

Lemma wf_bound h d n' : wf cfg h d → h_bound h <= n' →
  wf cfg (mk_hold (h_counted h) (h_free h) (h_req h) (h_busy h) (h_open h) (h_sched h) n') d.
Proof.
  intros [Wh Wt [Hlen Wq] Wr] Hn. constructor.
  - by eapply wf_heap_hold.
  - destruct Wt. by constructor.
  - constructor; [done|]. intros o q Hq. destruct (Wq o q Hq). by constructor.
  - destruct Wr. by constructor.
Qed.

Lemma handle_retry_spec C P n d t o k ins records :
  wf cfg (mk_hold ((t, o) :: C) [] [] [] [] P n) d → d_tasks d !! t = Some k →
  cf_outputs cfg !! o = Some ins → 0 <= n < INT_MAX →
  ∃ d' P', handle_retry cfg t o ins records d = Some (0, d') ∧
    wf cfg (mk_hold C [] [] [] [] P' (n + 1)) d' ∧ retried t o ins k records d d'.
Proof.
  intros W Hk Hins Hn. unfold handle_retry.
  destruct (held_live cfg _ _ _ _ _ _ _ _ t o W) as (_ & k0 & Hk0 & Hst); [by left|].
  rewrite Hk in Hk0. injection Hk0 as <-.
  assert (Hdrop : ∀ d1 k1, wf cfg (mk_hold ((t, o) :: C) [] [] [] [] P n) d1 → d_tasks d1 !! t = Some k1 →
    t_users k1 = t_users k → other_retries t o k k1 d d1 →
    (o_retry_limit ins = FLB_OUT_RETRY_NONE ∨ ¬ calm (env_of d) ∨
     ∃ a, attempts_of t o d a ∧ 0 <= o_retry_limit ins <= a) →
    ∃ d' P', handle_drop cfg t o records d1 = Some (0, d') ∧
      wf cfg (mk_hold C [] [] [] [] P' (n + 1)) d' ∧ retried t o ins k records d d').
  { intros d1 k1 W1 Hk1 Hu Hot Hwhy. destruct (handle_drop_spec C P n d1 t o k1 records W1 Hk1) as (d' & Hrun & W' & Hs & Hlog).
    exists d', P. split_and!; [done| |].
    - apply (wf_bound _ _ (n + 1)) in W'; [done|cbn; lia].
    - constructor 1; [done|by eapply settled_before|done]. }
  destruct (Z.eqb_spec (o_retry_limit ins) FLB_OUT_RETRY_NONE) as [Hnone|Hlim].
  { apply (Hdrop d k); auto. by constructor. }
  destruct (retry_create_spec cfg ((t, o) :: C) [] [] P n d t o k ins W Hk Hst) as (res & d1 & k1 & Hrun & Ht1 & Hk1 & Hq1 & Hf1 & Hc1 & Hres);
    [by left|done|done|done|].
  unfold mbind at 1, M_bind at 1. rewrite Hrun.
  assert (Hk1t : d_tasks d1 !! t = Some k1) by by rewrite Ht1, lookup_insert_eq.
  destruct res as [r|].
  2: { destruct Hres as (W1 & F1 & Hot & Hwhy). apply (Hdrop d1 k1 W1 Hk1t); [by rewrite Hk1|done|]. right.
       destruct Hwhy as [?|(r & x & Hx & Hp & Ha)]; [by left|right]. exists (rt_attempts x). split; [|done].
       left. by exists r, x. }
  destruct Hres as (W1 & Hcalm1 & x & Hx & Hpair & Hrk & Hatt).
  assert (Hle1 : env_le (env_of d) (env_of d1)) by by eapply (evolves (m := flb_task_retry_create cfg t o) d).
  destruct (users_dec_spec cfg _ _ _ _ _ _ _ _ _ _ _ W1 Hk1t) as (Hdec & W2 & _). set (d2 := set_d_tasks _ d1) in *.
  unfold mbind at 1, M_bind at 1. rewrite Hdec.
  unfold mbind at 1, M_bind at 1. rewrite (retry_at_run r x d2 Hx).
  destruct (schedule_spec C P (n + 1) d2 t o r x W2 Hx Hpair) as (s & q & Hsch & Hcase); [unfold INT_MAX in *; lia|].
  unfold mbind at 1, M_bind at 1. rewrite Hsch. set (d3 := set_d_rq q d2) in *.
  assert (Hk3 : d_tasks d3 !! t = Some (set_t_users (t_users k1 - 1) k1)) by apply lookup_insert_eq.
  destruct Hcase as [(-> & Hnc & W3)|(Hs & Hd & W3)].
  - change (-1 =? -1) with true. cbn iota.
    destruct (dlq_spec _ d3 t o _ W3 Hk3) as (l & Hdlq & _); [apply not_elem_of_nil|].
    unfold mbind at 1, M_bind at 1. rewrite Hdlq. set (d4 := set_env _ d3).
    assert (W4 : wf cfg (mk_hold C [(t, o)] [] [] [] P (n + 1)) d4) by (by refine (wf_env cfg _ d3 _ W3 _)).
    pose proof Hpair as [= Hpar Ho].
    destruct (retry_destroy_held cfg C [(t, o)] [] [] P (n + 1) d4 r x (set_t_users (t_users k1 - 1) k1) W4)
      as (d5 & Hdes & W5 & F5 & Hr5 & Ht5 & _); [done|by rewrite Hpar|rewrite Hpair; apply elem_of_app; right; by left|].
    unfold mbind at 1, M_bind at 1. rewrite Hdes. rewrite Hpar in Ht5.
    apply (wf_free_drop cfg C [] [(t, o)]) in W5.
    assert (exists k5, d_tasks d5 !! t = Some k5) as [k5 Hk5] by (rewrite Ht5; eexists; apply lookup_insert_eq).
    destruct (users_release_spec cfg Hcfg C [] [] P (n + 1) d5 t k5 W5 Hk5) as (d6 & Hrel & W6 & Hd6).
    { intros ?. apply not_elem_of_nil. }
    unfold mbind at 1, M_bind at 1. rewrite Hrel. exists d6, P. split_and!; [done|done|].
    assert (Hnr : ∀ r x, d_retries d5 !! r = Some x → retry_pair x ≠ (t, o)).
    { intros r' x' Hx' Hp'. rewrite Hr5 in Hx'. apply lookup_delete_Some in Hx' as [Hne Hx'].
      apply Hne. symmetry. eapply (wh_retry_inj _ _ _ (wf_h _ _ _ W4)); [exact Hx'|exact Hx|]. by rewrite Hp'. }
    constructor 3; [intros Hc; by apply Hnc; eapply calm_le|].
    destruct (releasable _); [|by subst d6]. intros r' x' Hx'. rewrite (de_retries _ _ _ _ Hd6) in Hx'.
    case_decide; [done|]. by eapply Hnr.
  - destruct (Z.eqb_spec s (-1)) as [|_]; [done|]. unfold mbind at 1, M_bind at 1. rewrite emit_run.
    set (d4 := set_env _ d3). assert (W4 : wf cfg (mk_hold C [] [] [] [] (r :: P) (n + 1)) d4) by by apply wf_emit.
    exists d4, (r :: P). split_and!; [done|done|].
    pose proof (wh_retry _ _ _ (wf_h _ _ _ W4) r x Hx) as [[Hb (ins' & Hins' & Hl')] _].
    pose proof Hpair as [= Hpar Ho]. rewrite Ho, Hins in Hins'. injection Hins' as <-.
    apply (RetryScheduled t o ins k records d d4 r x (rt_attempts x - 1) (set_t_users (t_users k1 - 1) k1)); try done.
    + case_decide.
      * destruct Hatt as (x0 & Hx0 & Hp0 & Ha). left. exists r, x0. split_and!; [done|done|lia].
      * destruct Hatt as [Ha Hno]. right. split; [lia|done].
    + intros Hp. specialize (Hl' Hp). lia.
    + lia.
    + rewrite (wr_pending _ _ (wf_r _ _ _ W4)). cbn. by left.
    + cbn. by rewrite Hk1.
    + unfold d4. rewrite (env_of_set _ d3). cbn. apply elem_of_app. right. by left.
Qed.

(** The records a verdict is about. *)
Definition records_of (k : flb_task) (o : nat) : Z :=
  match flb_task_get_route_metrics k o with
  | Some (n, _) => n
  | None => match t_event_chunk k with Some evc => evc_total_events evc | None => 0 end
  end.

Lemma task_id_range h d t k : wf cfg h d → d_tasks d !! t = Some k → t ∉ h_open h → 0 <= t_id k < 2 ^ 14.
Proof.
  intros W Hk HO. destruct (task_parts cfg h d t k W Hk HO) as (c & ck & evc & _ & _ & _ & _ & _ & _ & Hm).
  apply zlookup_Some in Hm as [Hid Hm]. apply lookup_lt_Some in Hm.
  destruct (wh_map _ _ _ (wf_h _ _ _ W)) as [_ Hle]. unfold zlen, FLB_CONFIG_DEFAULT_TASK_MAP_SIZE_LIMIT in Hle. lia.
Qed.

(** The message about a flush, as [flb_output_return] makes it. *)
Definition verdict_message (ret : Z) (k : flb_task) (ins : flb_output_instance) : Z :=
  FLB_BITS_U64_SET FLB_ENGINE_TASK (FLB_TASK_SET ret (t_id k) (o_id ins)).

Inductive verdict_outcome (ret : Z) (t o : nat) (ins : flb_output_instance) (records : Z) (k : flb_task)
    (d1 d' : delivery S) : Prop :=
| VerdictOk : ret = FLB_OK → settled t o k d1 d' → Delivered t o records ∈ e_log (env_of d') →
    verdict_outcome ret t o ins records k d1 d'
| VerdictError : ret = FLB_ERROR → settled t o k d1 d' → Dropped t o records ∈ e_log (env_of d') →
    verdict_outcome ret t o ins records k d1 d'
| VerdictRetry : ret = FLB_RETRY → retried t o ins k records d1 d' → verdict_outcome ret t o ins records k d1 d'.

Lemma handle_output_event_spec C P n d t o k ins ret b l1 l2 :
  wf cfg (mk_hold C [] [] [] [] P n) d → d_flushes d = l1 ++ mk_flush t o b :: l2 →
  d_tasks d !! t = Some k → cf_outputs cfg !! o = Some ins → ret ∈ [FLB_OK; FLB_RETRY; FLB_ERROR] →
  sync_ok cfg d → 0 <= n < INT_MAX →
  ∃ d' P', handle_output_event cfg (verdict_message ret k ins) (set_d_flushes (l1 ++ l2) d) = Some (0, d') ∧
    wf cfg (mk_hold C [] [] [] [] P' (n + 1)) d' ∧
    ∃ d1 k1, verdict_outcome ret t o ins (records_of k o) k1 d1 d' ∧ d_tasks d1 !! t = Some k1 ∧ frame d d1 ∧
      (calm (env_of d) → calm (env_of d1)) ∧
      (is_sync cfg o = false → d_tasks d1 = d_tasks d ∧ d_retries d1 = d_retries d).
Proof.
  intros W Hfl Hk Hins Hret Hok Hn.
  pose proof (wf_flush_remove cfg _ _ _ _ _ _ _ _ _ _ _ W Hfl ltac:(apply not_elem_of_nil)) as W0.
  change (flush_pair (mk_flush t o b)) with (t, o) in W0. change (of_out (mk_flush t o b)) with o in W0.
  set (d0 := set_d_flushes (l1 ++ l2) d) in *.
  assert (Hk0 : d_tasks d0 !! t = Some k) by done.
  destruct (task_parts cfg _ d0 t k W0 Hk0) as (c & ck & evc & Hic & Hck & _ & _ & Hi & Hevc & Hmap); [apply not_elem_of_nil|].
  pose proof (task_id_range _ d0 t k W0 Hk0 ltac:(apply not_elem_of_nil)) as Hid.
  assert (Hret3 : 0 <= ret < 2 ^ 4).
  { unfold FLB_OK, FLB_RETRY, FLB_ERROR in Hret. set_unfold. lia. }
  destruct (task_message_fields ret (t_id k) (o_id ins)) as (Hhigh & HR & HI & HO).
  { split_and!; try lia; by eapply (co_id _ Hcfg). }
  unfold handle_output_event. unfold verdict_message at 1. rewrite Hhigh, Z.eqb_refl. cbn [negb].
  unfold mbind at 1, M_bind at 1, gets at 1. unfold verdict_message. rewrite HR, HI, HO.
  unfold mbind at 1, M_bind at 1. rewrite Hmap. cbn [deref].
  unfold mbind at 1, M_bind at 1. cbn [deref].
  unfold mbind at 1, M_bind at 1. rewrite (get_instance_spec cfg Hcfg o ins Hins). cbn [deref].
  unfold mbind at 1, M_bind at 1. rewrite (output_at_run cfg o ins d0 Hins).
  destruct (emit_when (negb (o_is_threaded ins)) (FlushFinished o) d0) as (e & Hem & Hen & Hea & Hes).
  unfold mbind at 1, M_bind at 1. rewrite Hem. set (d1 := set_env e d0).
  assert (W1 : wf cfg (mk_hold ((t, o) :: C) [] [] (if is_sync cfg o then [o] else []) [] P n) d1).
  { refine (wf_env cfg _ d0 e W0 _). by rewrite Hen. }
  unfold mbind at 1, M_bind at 1. rewrite (task_at_run t k d1 Hk0).
  unfold mbind at 1, M_bind at 1. rewrite Hi. cbn [deref].
  unfold effective. unfold mbind at 1, M_bind at 1. unfold mbind at 1, M_bind at 1. rewrite Hevc. cbn [deref].
  unfold mret at 1, M_ret at 1. rewrite (is_sync_flag cfg o ins Hins).
  set (eff := default _ _).
  assert (Heff : fst eff = records_of k o).
  { unfold eff, records_of. rewrite Hevc. by destruct (flb_task_get_route_metrics k o) as [[]|]. }
  rewrite Heff. clearbody eff.
  assert (Hsync : ∃ d2 k2, when (is_sync cfg o && ((ret =? FLB_OK) || (ret =? FLB_RETRY) || (ret =? FLB_ERROR)))
      (flb_output_task_singleplex_flush_next cfg o ≫= λ _, mret tt) d1 = Some (tt, d2) ∧
    wf cfg (mk_hold ((t, o) :: C) [] [] [] [] P n) d2 ∧ d_tasks d2 !! t = Some k2 ∧ frame d d2 ∧
    (calm (env_of d) → calm (env_of d2)) ∧
    (is_sync cfg o = false → d_tasks d2 = d_tasks d ∧ d_retries d2 = d_retries d)).
  { assert (Hc1 : calm (env_of d) → calm (env_of d1)).
    { intros [? ?]. unfold calm, d1. rewrite (env_of_set e d0), Hea, Hes. done. }
    assert (F1 : frame d d1) by by apply frame_same.
    destruct (is_sync cfg o) eqn:Hs.
    - rewrite andb_true_l. replace (_ || _) with true.
      2: { symmetry. rewrite !orb_true_iff, !Z.eqb_eq. set_unfold. tauto. }
      destruct (held_live cfg _ _ _ _ _ _ _ _ t o W1) as (Ho & _); [by left|].
      destruct (wf_is_queue cfg _ _ _ _ _ _ _ _ _ W1 Ho) as [q Hq].
      destruct (flush_next_ok cfg o (q_pending q) ((t, o) :: C) [] [] [] P n d1 q W1) as (v & d2 & Hrun & W2 & F2 & _); try done.
      + apply not_elem_of_nil.
      + intros; apply not_elem_of_nil.
      + cbn. by eapply wf_sched_nodup.
      + eapply sync_ok_le; [|exact Hok].
        assert (Hev : Evolves (when (negb (o_is_threaded ins)) (emit (S := delivery S) (FlushFinished o)))) by evolve.
        exact (Hev _ _ _ Hem).
      + destruct F2 as [F2 _ _ Hc2]. assert (F : frame d d2) by by etrans.
        destruct (frame_task _ _ t k F Hk) as (k2 & Hk2 & _).
        exists d2, k2. unfold when, mbind, M_bind. rewrite Hrun. split_and!; try done. intros Hc. by apply Hc2, Hc1.
    - exists d1, k. split_and!; done. }
  destruct Hsync as (d2 & k2 & Hwhen & W2 & Hk2 & F2 & Hc2 & Hsame).
  unfold mbind at 1, M_bind at 1. rewrite Hwhen.
  unfold FLB_OK, FLB_RETRY, FLB_ERROR in *.
  assert (Hcases : ret = 1 ∨ ret = 2 ∨ ret = 0) by (set_unfold; tauto).
  destruct Hcases as [->|[->| ->]]; cbn [Z.eqb Pos.eqb].
  - destruct (handle_ok_spec C P n d2 t o k2 (records_of k o) W2 Hk2) as (d' & Hrun & W' & Hs & Hl).
    exists d', P. split_and!; [done|by apply (wf_bound _ _ (n + 1)) in W'; [|cbn; lia]|].
    exists d2, k2. split_and!; try done. by constructor 1.
  - destruct (handle_retry_spec C P n d2 t o k2 ins (records_of k o) W2 Hk2 Hins Hn) as (d' & P' & Hrun & W' & Hr).
    exists d', P'. split_and!; [done|done|]. exists d2, k2. split_and!; try done. by constructor 3.
  - destruct (handle_drop_spec C P n d2 t o k2 (records_of k o) W2 Hk2) as (d' & Hrun & W' & Hs & Hl).
    exists d', P. split_and!; [done|by apply (wf_bound _ _ (n + 1)) in W'; [|cbn; lia]|].
    exists d2, k2. split_and!; try done. by constructor 2.
Qed.

(** *** Requests *)

(** The request [q] of the scheduler goes off: its retry is in the hands of the engine. *)
Lemma wf_serve C P n d q r x :
  wf cfg (mk_hold C [] [] [] [] P n) d → rqueue_request (d_rq d) q = Some r → r ∈ P →
  d_retries d !! r = Some x →
  wf cfg (mk_hold C [retry_pair x] [(q, r)] [] [] (unlink r P) n) d.
Proof.
  intros [Wh [Hnd Hlive Hu Hnew] [Hlen Wq] [Hrq Hp Hreq Hl]] Hq Hr Hx. 
  assert (HP : P ≡ₚ r :: unlink r P).
  { apply unlink_Permutation; [|done]. eapply (wf_sched_nodup cfg C [] [] [] [] P n d). by constructor. }
  pose proof (sched_pairs_perm _ _ d HP) as Hsp. rewrite (sched_pairs_cons _ _ _ x Hx) in Hsp.
  constructor.
  - by eapply wf_heap_hold.
  - constructor.
    + unfold tokens, counted in *. cbn [h_free h_counted h_sched] in *. rewrite Hsp in Hnd. rewrite app_nil_l in Hnd.
      assert (Hperm : [retry_pair x] ++ (C ++ flush_pairs d ++ queue_pairs d) ++ sched_pairs (unlink r P) d ≡ₚ
        (C ++ flush_pairs d ++ queue_pairs d) ++ retry_pair x :: sched_pairs (unlink r P) d) by solve_Permutation.
      by rewrite Hperm.
    + intros t o. rewrite elem_of_app. intros [Hin%list_elem_of_singleton|Hin]; [|apply Hlive, Hin].
      destruct (wh_retry _ _ _ Wh r x Hx) as [[_ (ins & Hins & _)] (k & Hk & Hrk)]. injection Hin as -> ->.
      split_and!; [by eapply lookup_lt_Some|apply not_elem_of_nil|]. exists k. split; [done|].
      destruct (decide (t_status k = FLB_TASK_RUNNING)) as [|Hne]; [done|].
      destruct (Hnew _ k Hk Hne) as [_ Hnil]. rewrite Hnil in Hrk. by apply not_elem_of_nil in Hrk.
    + exact Hu.
    + exact Hnew.
  - constructor; [done|]. intros o q' Hq'. destruct (Wq o q' Hq'). by constructor.
  - constructor; cbn in *; try done.
    + by rewrite Hp, HP at 1.
    + intros q' r' [= -> ->]%list_elem_of_singleton. done.
    + intros r' [->|[_ Hin]%elem_of_unlink]%elem_of_cons; [by eexists|]. by apply Hl.
Qed.

(** The request is removed, whether or not its retry was scheduled anew. *)
Lemma request_done C P n d q r :
  wf cfg (mk_hold C [] [(q, r)] [] [] P n) d →
  ∃ d', lift (rqueue_request_destroy q) d = Some (0, d') ∧ wf cfg (mk_hold C [] [] [] [] P n) d' ∧
    d_flushes d' = d_flushes d ∧ d_queues d' = d_queues d.
Proof.
  intros W. pose proof W as [_ _ _ [Hrq Hp Hreq Hl]]. cbn in *.
  destruct (rqueue_request_law q r (d_rq d) Hrq) as (s & Hrun & Hs & Hps); [apply Hreq; by left|].
  pose proof (evolves (m := rqueue_request_destroy q) _ _ _ Hrun) as [He _ _ _ _].
  unfold lift. rewrite Hrun. eexists. split; [done|]. split; [|done].
  eapply wf_set_rq; [exact W|done|done| | | |done|done].
  - cbn. apply (Permutation_cons_inv (a := r)). by rewrite <- Hps, Hp.
  - intros a r' Hin. by apply not_elem_of_nil in Hin.
  - cbn. intros r' Hin. apply Hl. by right.
Qed.

Lemma request_event_spec C P n d q r :
  wf cfg (mk_hold C [] [] [] [] P n) d → rqueue_request (d_rq d) q = Some r → r ∈ P →
  n < 2 ^ 31 → sync_ok cfg d →
  ∃ X d' P' x, request_event cfg q d = Some (0, d') ∧ wf cfg (mk_hold (X ++ C) [] [] [] [] P' n) d' ∧
    d_retries d !! r = Some x ∧
    (calm (env_of d) → X = [] ∧ P' = unlink r P ∧ on_its_way (rt_parent x) (rt_o_ins x) d').
Proof.
  intros W Hq Hr Hn Hok. destruct (wr_live _ _ (wf_r _ _ _ W) r) as [x Hx]; [done|].
  pose proof (wf_serve _ _ _ _ _ _ _ W Hq Hr Hx) as W1. destruct (retry_pair x) as [t o] eqn:Hpair.
  unfold request_event. unfold mbind at 1, M_bind at 1, get at 1. rewrite Hq.
  unfold mbind at 1, M_bind at 1. cbn [deref].
  destruct (dispatch_retry_spec cfg Hcfg q r t o x C (unlink r P) n d W1 Hx Hpair Hn Hok) as (v & d1 & Hrun & Hcase).
  unfold mbind at 1, M_bind at 1. rewrite Hrun.
  destruct Hcase as [(-> & (P' & W2 & HP') & Hway)|(-> & Hnc & X & W2)].
  - destruct (request_done _ _ _ _ _ _ W2) as (d2 & Hdes & W3 & Hf & Hqs).
    exists [], d2, P', x. rewrite Z.eqb_refl. unfold when, mbind, M_bind. rewrite Hdes. split_and!; try done.
    intros Hc. split_and!; [done|by apply HP'|]. injection Hpair as -> ->.
    unfold on_its_way, flush_pairs, queue_pairs. rewrite Hf, Hqs. by apply Hway.
  - exists X, d1, (unlink r P), x. split_and!; [done|done|done|]. intros Hc. by apply Hnc in Hc.
Qed.

(** *** A flush returns *)

Lemma mark_flush_pairs t o st l : flush_pair <$> mark_flush t o st l = flush_pair <$> l.
Proof.
  induction l as [|f l IH]; [done|]. cbn. case_bool_decide as Hf; cbn; [|by rewrite IH].
  destruct Hf as (<- & <- & _). by destruct f.
Qed.

Lemma wf_flushes_same h d fl : wf cfg h d → flush_pair <$> fl = flush_pairs d → wf cfg h (set_d_flushes fl d).
Proof.
  intros [Wh [Hnd Hlive Hu Hnew] [Hlen Wq] Wr] Hfl. constructor.
  - destruct Wh. by constructor.
  - constructor; unfold tokens, counted, flush_pairs in *; cbn; rewrite ?Hfl; done.
  - constructor; [done|]. intros o q Hq. destruct (Wq o q Hq).
    constructor; unfold flush_pairs in *; cbn; rewrite ?Hfl; done.
  - destruct Wr. by constructor.
Qed.

Definition same_outs (f : flb_task → flb_task) : Prop :=
  ∀ k, t_id (f k) = t_id k ∧ t_ic (f k) = t_ic k ∧ t_i_ins (f k) = t_i_ins k ∧ t_retries (f k) = t_retries k ∧
    t_event_chunk (f k) = t_event_chunk k ∧ t_status (f k) = t_status k ∧ t_users (f k) = t_users k ∧
    r_out <$> t_routes (f k) = r_out <$> t_routes k.

Lemma wf_same_outs h d t k f : same_outs f → wf cfg h d → d_tasks d !! t = Some k →
  wf cfg h (set_d_tasks (<[t := f k]> (d_tasks d)) d).
Proof.
  intros Hf W Hk. destruct (Hf k) as (? & ? & ? & ? & He & ? & ? & Hr).
  eapply wf_neutral; [exact W|exact Hk| |done|done]. constructor; try done; [by rewrite He|].
  intros [Hnd Hall]. split; [by rewrite Hr|]. rewrite Forall_forall in *. intros r Hin.
  assert (Hin' : r_out r ∈ r_out <$> t_routes k) by (rewrite <- Hr; by apply list_elem_of_fmap_2).
  apply list_elem_of_fmap in Hin' as (r' & -> & Hin'). by apply Hall.
Qed.

Lemma update_route_outs o f l : (∀ r, r_out (f r) = r_out r) → r_out <$> update_route o f l = r_out <$> l.
Proof. intros Hf. induction l as [|r l IH]; [done|]. cbn. case_bool_decide; cbn; by rewrite ?Hf, ?IH. Qed.

Lemma same_outs_return o records bytes :
  same_outs (λ k, flb_task_deactivate_route (flb_task_set_route_metrics k o records bytes) o).
Proof.
  intros k. unfold flb_task_deactivate_route, flb_task_set_route_status, flb_task_set_route_metrics. cbn.
  repeat (split; [reflexivity|]). by rewrite !update_route_outs.
Qed.

(** A flush returns its verdict: the message names the task and the output, and the route records
    what was left of the chunk. *)
Lemma output_return_spec C P n d t o ret processed k ins :
  wf cfg (mk_hold C [] [] [] [] P n) d → d_tasks d !! t = Some k → cf_outputs cfg !! o = Some ins →
  ∃ k', flb_output_return cfg ret t o processed d =
      Some (verdict_message ret k' ins, set_d_flushes (mark_flush t o (FlushReturned ret) (d_flushes d)) (set_d_tasks (<[t := k']> (d_tasks d)) d)) ∧
    wf cfg (mk_hold C [] [] [] [] P n) (set_d_flushes (mark_flush t o (FlushReturned ret) (d_flushes d)) (set_d_tasks (<[t := k']> (d_tasks d)) d)) ∧
    t_id k' = t_id k.
Proof.
  intros W Hk Hins. unfold flb_output_return. unfold mbind at 1, M_bind at 1. rewrite (output_at_run cfg o ins d Hins).
  unfold mbind at 1, M_bind at 1. rewrite (task_at_run t k d Hk). destruct (default _ processed) as [records bytes].
  exists (flb_task_deactivate_route (flb_task_set_route_metrics k o records bytes) o). split; [reflexivity|]. split; [|done].
  apply wf_flushes_same; [|apply mark_flush_pairs].
  exact (wf_same_outs _ d t k _ (same_outs_return o records bytes) W Hk).
Qed.

Lemma same_outs_activate o : same_outs (λ k, flb_task_activate_route k o).
Proof. intros k. unfold flb_task_activate_route, flb_task_set_route_status. cbn. repeat (split; [reflexivity|]). by rewrite update_route_outs. Qed.

Lemma pre_cb_flush_spec C P n d t o processed k ins :
  wf cfg (mk_hold C [] [] [] [] P n) d → d_tasks d !! t = Some k → cf_outputs cfg !! o = Some ins →
  ∃ v d', output_pre_cb_flush cfg t o processed d = Some (v, d') ∧ wf cfg (mk_hold C [] [] [] [] P n) d'.
Proof.
  intros W Hk Hins. unfold output_pre_cb_flush. unfold mbind at 1, M_bind at 1. rewrite (task_at_run t k d Hk). cbv zeta.
  assert (Hreturn : ∀ ret pr, ∃ v d', (val ← flb_output_return cfg ret t o pr; mret (Some val)) d = Some (v, d') ∧
    wf cfg (mk_hold C [] [] [] [] P n) d').
  { intros ret pr. destruct (output_return_spec C P n d t o ret pr k ins W Hk Hins) as (k' & Hrun & W' & _).
    eexists _, _. unfold mbind, M_bind. rewrite Hrun. split; [reflexivity|exact W']. }
  destruct (default _ _); [apply Hreturn|]. destruct (_ =? _); [apply Hreturn|].
  eexists _, _. split; [reflexivity|]. apply wf_flushes_same; [|apply mark_flush_pairs].
  exact (wf_same_outs _ d t k _ (same_outs_activate o) W Hk).
Qed.

(** An input plugin hands in a chunk. *)
Lemma wf_add_chunk h d c ck l :
  wf cfg h d → d_chunks d !! c = None → (c < e_next (env_of d))%nat → chunk_ok cfg ck → ck_task ck = None →
  d_in_chunks d !! ck_in ck = Some l →
  wf cfg h (set_d_in_chunks (<[ck_in ck := l ++ [c]]> (d_in_chunks d))
    (set_d_chunks (<[c := ck]> (d_chunks d)) d)).
Proof.
  intros [Wh Wt [Hlen Wq] Wr] Hc Hlt Hck Hct Hl. constructor.
  - destruct Wh. constructor; cbn; try done.
    + intros i c'. rewrite (in_list_link _ _ _ _ _ _ Hl), wh_in_chunks. split.
      * intros [(ck' & Hck' & <-)|[-> ->]].
        -- exists ck'. rewrite lookup_insert_ne; [done|]. intros ->. congruence.
        -- exists ck. by rewrite lookup_insert_eq.
      * intros (ck' & Hck' & <-). destruct (decide (c = c')) as [<-|Hne].
        -- rewrite lookup_insert_eq in Hck'. injection Hck' as <-. by right.
        -- rewrite lookup_insert_ne in Hck' by done. left. by exists ck'.
    + by rewrite length_insert.
    + apply Forall_insert; [done|]. apply NoDup_app. split_and!; [|intros c' Hc' ->%list_elem_of_singleton|apply NoDup_singleton].
      * rewrite Forall_lookup in wh_in_chunks_nodup. by eapply wh_in_chunks_nodup.
      * destruct (proj1 (wh_in_chunks (ck_in ck) c)) as (ck0 & Hck0 & _); [by exists l|]. congruence.
    + intros t k Hk Ho. destruct (wh_task t k Hk Ho) as (? & ? & c' & ck' & ? & Hck' & ?).
      unfold task_linked. cbn. split_and!; [done|done|]. exists c', ck'. rewrite lookup_insert_ne; [done|]. intros ->. congruence.
    + intros c' ck'. destruct (decide (c = c')) as [<-|Hne].
      * rewrite lookup_insert_eq. intros [= <-]. split; [done|]. intros t. by rewrite Hct.
      * rewrite lookup_insert_ne by done. apply wh_chunk.
    + intros m Hm. destruct (wh_fresh m Hm) as (? & ? & ?). split_and!; try done.
      rewrite lookup_insert_ne; [done|]. cbn in *. lia.
  - destruct Wt. by constructor.
  - constructor; [done|]. intros o q Hq. destruct (Wq o q Hq). by constructor.
  - destruct Wr. by constructor.
Qed.

Definition chunk_arrives (ck : flb_input_chunk) : M (delivery S) Z :=
  p ← malloc;
  match p with
  | None => mret (-1)
  | Some c =>
      store_chunk c ck ≫= λ _,
      ls ← gets d_in_chunks;
      ls' ← link_at (ck_in ck) c ls;
      modify (set_d_in_chunks ls') ≫= λ _, mret 0
  end.

Lemma chunk_arrives_spec h d ck : wf cfg h d → chunk_ok cfg ck → ck_task ck = None →
  ∃ v d', chunk_arrives ck d = Some (v, d') ∧ wf cfg h d'.
Proof.
  intros W Hck Hct. unfold chunk_arrives. unfold mbind at 1, M_bind at 1.
  destruct (malloc_quiet d) as (p & e & Hm & Q & He & _ & Hp). rewrite Hm.
  assert (W1 : wf cfg h (set_env e d)) by (by refine (wf_env cfg h d e W He)).
  destruct p as [c|]; [|by eexists (-1), _]. destruct Hp as [|[[= ->] Hlt]]; [done|].
  destruct (wh_fresh _ _ _ (wf_h _ _ _ W) (e_next (env_of d))) as (_ & _ & Hf); [done|].
  destruct (lookup_lt_is_Some_2 (d_in_chunks d) (ck_in ck)) as [l Hl].
  { rewrite (wh_in_chunks_len _ _ _ (wf_h _ _ _ W)). apply Hck. }
  eexists 0, _. split.
  - unfold store_chunk, link_at, modify, gets, mbind, M_bind. cbn. rewrite Hl. reflexivity.
  - refine (wf_add_chunk h (set_env e d) (e_next (env_of d)) ck l W1 Hf _ Hck Hct Hl). by rewrite (env_of_set e d).
Qed.

(** ** The engine, event by event *)

Inductive event :=
| EvChunk (ck : flb_input_chunk)                                 (* an input makes a chunk *)
| EvDispatch (id : Z) (input : nat)                              (* an input has data, or the flush timer *)
| EvRequest (q : nat)                                            (* the timer of a retry *)
| EvStart (t o : nat) (processed : option flb_event_chunk)       (* the coroutine of a flush is resumed *)
| EvReturn (t o : nat) (ret : Z) (processed : option (Z * Z))    (* the callback of a flush returns *)
| EvVerdict (t o : nat) (ret : Z).                               (* its message is read *)

Definition enabled (e : event) (d : delivery S) : Prop :=
  match e with
  | EvChunk ck => chunk_ok cfg ck ∧ ck_task ck = None
  | EvDispatch _ i => (i < length (cf_inputs cfg))%nat
  | EvRequest q => is_Some (rqueue_request (d_rq d) q)
  | EvStart t o _ => mk_flush t o FlushWaiting ∈ d_flushes d
  | EvReturn t o _ _ => mk_flush t o FlushRunning ∈ d_flushes d
  | EvVerdict t o ret => mk_flush t o (FlushReturned ret) ∈ d_flushes d ∧ ret ∈ [FLB_OK; FLB_RETRY; FLB_ERROR]
  end.

Fixpoint take_flush (t o : nat) (ret : Z) (l : list flb_output_flush) : list flb_output_flush :=
  match l with
  | [] => []
  | f :: l' => if bool_decide (of_task f = t ∧ of_out f = o ∧ of_state f = FlushReturned ret) then l' else f :: take_flush t o ret l'
  end.

Definition run_event (e : event) : M (delivery S) Z :=
  match e with
  | EvChunk ck => chunk_arrives ck
  | EvDispatch id i => flb_engine_dispatch cfg route_condition id i
  | EvRequest q => request_event cfg q
  | EvStart t o processed => output_pre_cb_flush cfg t o processed ≫= λ val, mret (default 0 val)
  | EvReturn t o ret processed => flb_output_return cfg ret t o processed
  | EvVerdict t o ret =>
      k ← task_at t; ins ← output_at cfg o;
      modify (λ d, set_d_flushes (take_flush t o ret (d_flushes d)) d) ≫= λ _,
      handle_output_event cfg (verdict_message ret k ins)
  end.

Lemma take_flush_split t o ret l : mk_flush t o (FlushReturned ret) ∈ l →
  ∃ l1 l2, l = l1 ++ mk_flush t o (FlushReturned ret) :: l2 ∧ take_flush t o ret l = l1 ++ l2.
Proof.
  induction l as [|f l IH]; intros Hin; [by apply not_elem_of_nil in Hin|]. cbn.
  case_bool_decide as Hf; [destruct f, Hf as (<- & <- & <-); by exists [], l|].
  apply elem_of_cons in Hin as [<-|Hin]; [by destruct Hf|]. destruct (IH Hin) as (l1 & l2 & -> & ->). by exists (f :: l1), l2.
Qed.

(** The invariant up to lost tokens [L]: failures may leave a task behind, never a dangling pointer. *)
Definition delivery_safe (L : list (nat * nat)) (n : Z) (d : delivery S) : Prop :=
  wf cfg (mk_hold L [] [] [] [] (rqueue_pending (d_rq d)) n) d.

Lemma delivery_safe_intro L P n d : wf cfg (mk_hold L [] [] [] [] P n) d → delivery_safe L n d.
Proof. intros W. eapply wf_perm; [|exact W]. symmetry. by apply (wr_pending _ _ (wf_r _ _ _ W)). Qed.

Lemma flush_task L n d t o b : delivery_safe L n d → mk_flush t o b ∈ d_flushes d →
  ∃ k ins, d_tasks d !! t = Some k ∧ cf_outputs cfg !! o = Some ins.
Proof.
  intros W Hin. destruct (wt_live _ _ _ (wf_t _ _ _ W) t o) as (Ho & _ & k & Hk & _).
  { unfold counted, flush_pairs. cbn. rewrite !elem_of_app. right. left. apply list_elem_of_fmap. by exists (mk_flush t o b). }
  destruct (lookup_lt_is_Some_2 _ _ Ho) as [ins Hins]. eauto.
Qed.

Lemma step_spec e L n d :
  delivery_safe L n d → enabled e d → sync_ok cfg d → 0 <= n < INT_MAX →
  ∃ v d' L', run_event e d = Some (v, d') ∧ delivery_safe L' (n + 1) d' ∧ (calm (env_of d) → L' = L).
Proof.
  intros W He Hok Hn. destruct e as [ck|id i|q|t o processed|t o ret processed|t o ret]; cbn in He |- *.
  - destruct (chunk_arrives_spec _ d ck W) as (v & d' & Hrun & W'); [apply He|apply He|].
    exists v, d', L. split_and!; [done| |done].
    eapply delivery_safe_intro. apply (wf_bound _ _ (n + 1)) in W'; [exact W'|cbn; lia].
  - destruct (dispatch_spec cfg route_condition Hcfg L _ n id i d W He Hok) as (v & X & d' & Hrun & W' & Hc & _).
    exists v, d', (X ++ L). split_and!; [done| |by intros ->%Hc].
    eapply delivery_safe_intro. apply (wf_bound _ _ (n + 1)) in W'; [exact W'|cbn; lia].
  - destruct He as [r Hr]. 
    destruct (rqueue_request_law q r (d_rq d) (wr_wf _ _ (wf_r _ _ _ W)) Hr) as (s & _ & _ & Hp).
    destruct (request_event_spec L _ n d q r W Hr) as (X & d' & P' & x & Hrun & W' & _ & Hc); [rewrite Hp; by left|unfold INT_MAX in *; lia|done|].
    exists 0, d', (X ++ L). split_and!; [done| |by intros [-> _]%Hc].
    eapply delivery_safe_intro. apply (wf_bound _ _ (n + 1)) in W'; [exact W'|cbn; lia].
  - destruct (flush_task _ _ _ _ _ _ W He) as (k & ins & Hk & Hins).
    destruct (pre_cb_flush_spec L _ n d t o processed k ins W Hk Hins) as (v & d' & Hrun & W').
    eexists _, _, L. unfold mbind, M_bind. rewrite Hrun. split_and!; [reflexivity| |done].
    eapply delivery_safe_intro. apply (wf_bound _ _ (n + 1)) in W'; [exact W'|cbn; lia].
  - destruct (flush_task _ _ _ _ _ _ W He) as (k & ins & Hk & Hins).
    destruct (output_return_spec L _ n d t o ret processed k ins W Hk Hins) as (k' & Hrun & W' & _).
    eexists _, _, L. split_and!; [exact Hrun| |done].
    eapply delivery_safe_intro. apply (wf_bound _ _ (n + 1)) in W'; [exact W'|cbn; lia].
  - destruct He as [He Hret]. destruct (flush_task _ _ _ _ _ _ W He) as (k & ins & Hk & Hins).
    destruct (take_flush_split t o _ _ He) as (l1 & l2 & Hl & Htake).
    destruct (handle_output_event_spec L _ n d t o k ins ret _ l1 l2 W Hl Hk Hins Hret Hok Hn) as (d' & P' & Hrun & W' & _).
    exists 0, d', L. split_and!; [|by eapply delivery_safe_intro|done].
    unfold mbind at 1, M_bind at 1. rewrite (task_at_run t k d Hk).
    unfold mbind at 1, M_bind at 1. rewrite (output_at_run cfg o ins d Hins).
    unfold mbind at 1, M_bind at 1, modify at 1. by rewrite Htake.
Qed.

(** The states the engine can get to in [m] events. *)
Inductive reachable (d0 : delivery S) : Z → delivery S → Prop :=
| reachable_start : reachable d0 0 d0
| reachable_step m d e v d' :
    reachable d0 m d → enabled e d → run_event e d = Some (v, d') → reachable d0 (m + 1) d'.

#[local] Instance evolves_run_event e : Evolves (run_event e).
Proof.
  destruct e; cbn.
  - unfold chunk_arrives, store_chunk. evolve.
  - apply _.
  - unfold request_event. evolve.
  - evolve.
  - apply _.
  - unfold output_at, handle_output_event. evolve.
Qed.
End specs.
