(* ===== verification/Agent.v ===== *)
(** * The delivery core as a whole: what holds in every state the engine can get to

    The theorems about runs are proved for any scheduler that keeps the promises of [RetryQueue];
    the examples run the engine on the scheduler of [Sched.v]. *)
From S2P Require Import Prelude Env RetryQueue Router RoutesMask Sched Delivery Invariant Task Output Dispatch Engine.

Section runs.
Context {S : Type} `{RetryQueue S} (cfg : flb_config) (route_condition : flb_event_chunk → nat → bool).
Implicit Types (d : delivery S).

(** The state [flb_config_init] and the start of the engine leave: a task map of 2048 slots, and
    nothing to deliver. *)
Definition initial (s : S) : delivery S :=
  mk_delivery s (replicate (Z.to_nat FLB_CONFIG_DEFAULT_TASK_MAP_SIZE) None) ∅ ∅ ∅
    (replicate (length (cf_inputs cfg)) []) (replicate (length (cf_inputs cfg)) [])
    (replicate (length (cf_outputs cfg)) (mk_queue [] [])) [].

Lemma in_list_replicate n i x : ¬ in_list (replicate n []) i x.
Proof. intros (l & [-> _]%lookup_replicate & Hx). by apply not_elem_of_nil in Hx. Qed.

Lemma queue_pairs_none n : (replicate n (mk_queue [] []) ≫= q_pending) = [].
Proof. induction n as [|n IH]; [done|]. cbn. exact IH. Qed.

Lemma initial_safe s : rqueue_wf s → rqueue_pending s = [] → delivery_safe cfg [] 0 (initial s).
Proof.
  intros Hs Hp. unfold delivery_safe. cbn [d_rq initial]. rewrite Hp. unfold initial.
  set (m := replicate (Z.to_nat FLB_CONFIG_DEFAULT_TASK_MAP_SIZE) None).
  assert (Hm : zlen m = FLB_CONFIG_DEFAULT_TASK_MAP_SIZE) by (unfold m, zlen; by rewrite length_replicate).
  clearbody m. constructor.
  - constructor; cbn; try done.
    + by rewrite Hm.
    + intros i t. split; [by intros ?%in_list_replicate|by intros (? & ? & _)].
    + by rewrite length_replicate.
    + apply Forall_replicate. constructor.
    + intros i c. split; [by intros ?%in_list_replicate|by intros (? & ? & _)].
    + by rewrite length_replicate.
    + apply Forall_replicate. constructor.
  - constructor; unfold tokens, counted, flush_pairs, queue_pairs; cbn; rewrite ?queue_pairs_none; try done.
    + constructor.
    + intros t o Hin. by apply not_elem_of_nil in Hin.
  - constructor; cbn; [by rewrite length_replicate|]. intros o q [-> Ho]%lookup_replicate.
    constructor; cbn; try done; try (by intros e ?%not_elem_of_nil).
    + constructor.
    + intros e r ?%not_elem_of_nil. done.
    + lia.
    + by intros ?%not_elem_of_nil.
  - constructor; cbn; [done|by rewrite Hp|by intros q r ?%not_elem_of_nil|by intros r ?%not_elem_of_nil].
Qed.

(** [d] is reached from the start in [m] events, on a system that is set up properly. *)
Definition starts (s : S) : Prop :=
  config_ok cfg ∧ rqueue_wf s ∧ rqueue_pending s = [] ∧ sync_ok cfg (initial s).
Definition reaches (s : S) (m : Z) (d : delivery S) : Prop :=
  starts s ∧ reachable cfg route_condition (initial s) m d ∧ m < INT_MAX.

Lemma reachable_nonneg d0 m d : reachable cfg route_condition d0 m d → 0 <= m.
Proof. induction 1; lia. Qed.

Lemma reaches_safe s m d : reaches s m d →
  ∃ L, delivery_safe cfg L m d ∧ sync_ok cfg d ∧ (calm (env_of s) → L = [] ∧ calm (env_of d)).
Proof.
  intros ((Hcfg & Hs & Hp & Hok) & Hr & Hm). revert Hm.
  induction Hr as [|m d e v d' Hr IH He Hrun]; intros Hm.
  { exists []. split_and!; [by apply initial_safe|done|done]. }
  pose proof (reachable_nonneg _ _ _ Hr). destruct IH as (L & W & Hok1 & Hc); [lia|].
  destruct (step_spec cfg route_condition Hcfg e L m d W He Hok1) as (v' & d2 & L' & Hrun' & W' & HL); [lia|].
  rewrite Hrun in Hrun'. injection Hrun' as <- <-.
  assert (Hle : env_le (env_of d) (env_of d')) by (by eapply (evolves_run_event cfg route_condition e)).
  exists L'. split_and!; [done|by eapply sync_ok_le|]. intros Hcalm. destruct (Hc Hcalm) as [-> Hcd].
  split; [by apply HL|by eapply calm_le].
Qed.

(** ** Properties of every reachable state *)

(** C1. The delivery core never reaches undefined behaviour.  Start from an empty engine with a valid
    configuration and let inputs hand in chunks, dispatches happen, retries go off, flushes start and return and
    their verdicts be read, in any order and with any allocations and system calls failing; only if a
    synchronous output runs in the engine itself must system calls work ([sync_ok]), as the failure of its pipe is
    not survived ([synchronous_pipe_failure]).  Then every event that can happen has a defined result - no freed task,
    retry, chunk or queue entry is ever reached - up to 2^31-1 events, after which the counter of
    attempts may overflow. *)
Theorem engine_never_undefined s m d e :
  reaches s m d → enabled cfg e d → ∃ v d', run_event cfg route_condition e d = Some (v, d').
Proof.
  intros Hreach He. destruct (reaches_safe s m d Hreach) as (L & W & Hok & _).
  destruct Hreach as ((Hcfg & _) & Hr & Hm). pose proof (reachable_nonneg _ _ _ Hr).
  destruct (step_spec cfg route_condition Hcfg e L m d W He Hok) as (v & d' & L' & Hrun & _); [lia|eauto].
Qed.

(** C2. Users are counted exactly.  In every state reached without failures, [users] of a task is the
    number of its flushes under way plus its entries in queues, and no (task, output) pair is flushed,
    queued and scheduled for retry more than once in all - which is why a task is freed exactly when
    nobody uses it any more. *)
Theorem users_exact s m d t k :
  reaches s m d → calm (env_of s) → d_tasks d !! t = Some k →
  t_users k = zlen (filter (λ p, p.1 = t) (flush_pairs d ++ queue_pairs d)) ∧
  NoDup (flush_pairs d ++ queue_pairs d ++ sched_pairs (rqueue_pending (d_rq d)) d).
Proof.
  intros Hreach Hcalm Hk. destruct (reaches_safe s m d Hreach) as (L & W & _ & HL).
  destruct (HL Hcalm) as [-> _]. destruct W as [_ [Hnd _ Hu _] _ _]. split.
  - exact (Hu t k Hk).
  - unfold tokens, counted in Hnd. cbn in Hnd. by rewrite <- app_assoc in Hnd.
Qed.

(** C6. Retry limits.  In every reachable state, whatever failed on the way, every retry belongs to a
    live task and an existing output, is the only one of that task for that output, and has counted at
    least one attempt and no more than the retry limit of the output (when it has one). *)
Theorem retry_limit_respected s m d r x :
  reaches s m d → d_retries d !! r = Some x →
  ∃ ins k, cf_outputs cfg !! rt_o_ins x = Some ins ∧ d_tasks d !! rt_parent x = Some k ∧ r ∈ t_retries k ∧
    1 <= rt_attempts x <= m ∧ (0 <= o_retry_limit ins → rt_attempts x <= o_retry_limit ins) ∧
    ∀ r' x', d_retries d !! r' = Some x' → rt_parent x' = rt_parent x → rt_o_ins x' = rt_o_ins x → r' = r.
Proof.
  intros Hreach Hx. destruct (reaches_safe s m d Hreach) as (L & W & _).
  destruct (wh_retry _ _ _ (wf_h _ _ _ W) r x Hx) as [[Hb (ins & Hins & Hl)] (k & Hk & Hr)].
  exists ins, k. split_and!; try done; try apply Hb. intros r' x' Hx' Hp Ho.
  eapply (wh_retry_inj _ _ _ (wf_h _ _ _ W)); [exact Hx'|exact Hx|]. unfold retry_pair. congruence.
Qed.

(** C7. A synchronous output works on one task at a time.  In every reachable state its queue has at
    most one entry in progress, which is exactly the flush it has under way; nothing waits in the
    queue while nothing is in progress; and all entries are its own. *)
Theorem synchronous_one_at_a_time s m d o :
  reaches s m d → is_sync cfg o = true →
  ∃ q, d_queues d !! o = Some q ∧
    enq_pair <$> q_in_progress q = filter (λ p, p.2 = o) (flush_pairs d) ∧
    (length (q_in_progress q) <= 1)%nat ∧ (q_pending q ≠ [] → length (q_in_progress q) = 1%nat) ∧
    ∀ e, e ∈ q_in_progress q ++ q_pending q → eq_out e = o.
Proof.
  intros Hreach Hs. destruct (reaches_safe s m d Hreach) as (L & W & _).
  assert (Ho : is_output cfg o).
  { unfold is_sync in Hs. destruct (cf_outputs cfg !! o) eqn:Ho; [|done]. by eapply lookup_lt_Some. }
  destruct (wf_is_queue cfg _ _ _ _ _ _ _ _ _ W Ho) as [q Hq].
  destruct (wf_queue_at cfg _ _ _ _ _ _ _ _ _ _ W Hq) as [Hout _ _ _ Hone Hfl _].
  destruct (Hfl Hs) as [Hflush Hpend]; [apply not_elem_of_nil|]. exists q. split_and!; try done.
  - intros Hne. destruct (q_in_progress q) as [|e [|]]; cbn in *; [by specialize (Hpend eq_refl)|done|lia].
  - intros e He. by apply Hout.
Qed.

(** C8. Task ids identify tasks, and tasks own their chunks.  In every reachable state the id of a
    task fits 14 bits and no other task has it; the task holds a live, locked input chunk that points
    back to it, is linked in the list of the chunk's input, and no other task holds the chunk. *)
Theorem task_ids_identify s m d t k :
  reaches s m d → d_tasks d !! t = Some k →
  0 <= t_id k < 2 ^ 14 ∧
  (∀ t' k', d_tasks d !! t' = Some k' → t_id k' = t_id k → t' = t) ∧
  (∃ c ck, t_ic k = Some c ∧ d_chunks d !! c = Some ck ∧ ck_task ck = Some t ∧ ck_busy ck = true ∧
     in_list (d_in_tasks d) (ck_in ck) t) ∧
  (∀ t' k' c, d_tasks d !! t' = Some k' → t_ic k = Some c → t_ic k' = Some c → t' = t).
Proof.
  intros Hreach Hk. destruct (reaches_safe s m d Hreach) as (L & W & _).
  pose proof (task_id_range cfg _ d t k W Hk ltac:(apply not_elem_of_nil)) as Hid.
  destruct (task_parts cfg _ d t k W Hk) as (c & ck & evc & Hic & Hck & Hct & Hb & Hi & _ & Hm); [apply not_elem_of_nil|].
  split_and!; try lia.
  - intros t' k' Hk' Heq.
    destruct (task_parts cfg _ d t' k' W Hk') as (? & ? & ? & _ & _ & _ & _ & _ & _ & Hm'); [apply not_elem_of_nil|].
    rewrite Heq in Hm'. congruence.
  - exists c, ck. split_and!; try done. apply (wh_in_tasks _ _ _ (wf_h _ _ _ W)). exists k. split_and!; [done|done|].
    apply not_elem_of_nil.
  - intros t' k' c' Hk' Hc Hc'.
    destruct (task_parts cfg _ d t' k' W Hk') as (c2 & ck2 & ? & Hic2 & Hck2 & Hct2 & _); [apply not_elem_of_nil|].
    congruence.
Qed.

(** C3. Verdicts.  While nothing fails, reading the verdict of a returned flush keeps the state
    consistent and does what the verdict asks: FLB_OK counts the records as delivered and FLB_ERROR as
    dropped, and both end the retry of the pair, drop one user, and free the task exactly when it was
    the last one and no other retry waits; FLB_RETRY schedules a retry with one more attempt and drops one user, unless
    the output allows none or its limit is reached, in which case the records are dropped and the task settled just so.  A
    synchronous output first moves on to the next task of its queue ([d1] is the state after that). *)
Theorem verdict_settles s m d t o ret :
  reaches s m d → calm (env_of s) → enabled cfg (EvVerdict t o ret) d →
  ∃ d' d1 k ins k1, run_event cfg route_condition (EvVerdict t o ret) d = Some (0, d') ∧
    delivery_ok cfg (m + 1) d' ∧
    d_tasks d !! t = Some k ∧ cf_outputs cfg !! o = Some ins ∧
    verdict_outcome ret t o ins (records_of k o) k1 d1 d' ∧ d_tasks d1 !! t = Some k1 ∧ frame d d1 ∧
    calm (env_of d1) ∧ (is_sync cfg o = false → d_tasks d1 = d_tasks d ∧ d_retries d1 = d_retries d).
Proof.
  intros Hreach Hcalm [He Hret]. destruct (reaches_safe s m d Hreach) as (L & W & Hok & HL).
  destruct (HL Hcalm) as [-> Hcd]. destruct Hreach as ((Hcfg & _) & Hr & Hm). pose proof (reachable_nonneg _ _ _ Hr).
  destruct (flush_task cfg _ _ _ _ _ _ W He) as (k & ins & Hk & Hins).
  destruct (take_flush_split t o _ _ He) as (l1 & l2 & Hl & Htake).
  destruct (handle_output_event_spec cfg route_condition Hcfg [] _ m d t o k ins ret _ l1 l2 W Hl Hk Hins Hret Hok ltac:(lia))
    as (d' & P' & Hrun & W' & d1 & k1 & Hout & Hk1 & F & Hc1 & Hsame).
  exists d', d1, k, ins, k1. split_and!; try done; [|by apply (delivery_safe_intro cfg) in W'|by apply Hc1].
  cbn. unfold mbind at 1, M_bind at 1. rewrite (task_at_run t k d Hk).
  unfold mbind at 1, M_bind at 1. rewrite (output_at_run cfg o ins d Hins).
  unfold mbind at 1, M_bind at 1, modify at 1. by rewrite Htake.
Qed.
(** C4. Retries are redelivered.  While nothing fails, when the timer of a scheduled retry goes off the
    task of the retry is again on its way to the output, flushed or in the queue of a synchronous
    output; the retry is no longer scheduled, the other scheduled retries still are, and the state
    stays consistent. *)
Theorem request_redelivers s m d q r :
  reaches s m d → calm (env_of s) → rqueue_request (d_rq d) q = Some r →
  ∃ d' x, run_event cfg route_condition (EvRequest q) d = Some (0, d') ∧ delivery_ok cfg m d' ∧
    d_retries d !! r = Some x ∧ on_its_way (rt_parent x) (rt_o_ins x) d' ∧
    rqueue_pending (d_rq d') ≡ₚ unlink r (rqueue_pending (d_rq d)).
Proof.
  intros Hreach Hcalm Hq. destruct (reaches_safe s m d Hreach) as (L & W & Hok & HL).
  destruct (HL Hcalm) as [-> Hcd]. destruct Hreach as ((Hcfg & _) & _ & Hm).
  destruct (rqueue_request_law q r (d_rq d) (wr_wf _ _ (wf_r _ _ _ W)) Hq) as (s' & _ & _ & Hp).
  destruct (request_event_spec cfg Hcfg [] _ m d q r W Hq) as (X & d' & P' & x & Hrun & W' & Hx & Hc);
    [rewrite Hp; by left|unfold INT_MAX in *; lia|done|].
  destruct (Hc Hcd) as (-> & -> & Hway). exists d', x. split_and!; try done.
  - by apply (delivery_safe_intro cfg) in W'.
  - exact (wr_pending _ _ (wf_r _ _ _ W')).
Qed.

End runs.

(** ** An engine with one input and two outputs

    Output 0 is asynchronous and retries once; output 1 is synchronous. *)

Definition ex_output (id flags limit : Z) : flb_output_instance :=
  mk_output id [] None None flags limit false 1 None [] false.
Definition ex_config : flb_config :=
  mk_config [mk_input 0 [] true None 0 [] []]
    [ex_output 0 0 1; ex_output 1 FLB_OUTPUT_SYNCHRONOUS (-1)]
    (Some (mk_router 1 64 None)) Sched.ex_cfg false.
Definition ex_chunk : flb_input_chunk := mk_chunk 0 0 false 10 None (Some [3]) None (Some [97]) 100.
Definition ex_sched : flb_sched := sched_empty (mk_env [] [] [7; 8; 9] 1000 0 []).
Definition ex_always (_ : flb_event_chunk) (_ : nat) : bool := true.

Definition ex_run (es : list event) : option (delivery flb_sched) :=
  foldl (λ o e, d ← o; '(_, d') ← run_event ex_config ex_always e d; Some d') (Some (initial ex_config ex_sched)) es.

Lemma ex_config_ok : config_ok ex_config.
Proof.
  constructor.
  - intros [|[|o]] ins [= <-]; cbn; lia.
  - intros [|[|o1]] [|[|o2]] ? ? [= <-] [= <-]; cbn; done.
  - split; [split|]; reflexivity || discriminate.
  - intros [|i] ins [= <-]. split; constructor.
Qed.

Lemma ex_chunk_ok : chunk_ok ex_config ex_chunk.
Proof.
  constructor; [cbn; lia|done|]. intros o Ho. cbn in Ho. 
  apply elem_of_cons in Ho as [->|[->|Ho]%elem_of_cons]; [by eexists|by eexists|by apply not_elem_of_nil in Ho].
Qed.

Lemma ex_starts : starts ex_config ex_sched.
Proof. split_and!; [apply ex_config_ok|apply sched_empty_wf|reflexivity|by left]. Qed.

Definition ex_after (es : list event) : delivery flb_sched :=
  default (initial ex_config ex_sched) (ex_run es).

Lemma ex_step m es e :
  reaches ex_config ex_always ex_sched m (ex_after es) → is_Some (ex_run es) → enabled ex_config e (ex_after es) →
  is_Some (ex_run (es ++ [e])) → m + 1 < INT_MAX →
  reaches ex_config ex_always ex_sched (m + 1) (ex_after (es ++ [e])).
Proof.
  intros (Hs & Hr & _) [d Hd] He [d' Hd'] Hm. split_and!; [done| |done].
  unfold ex_after in *. rewrite Hd in *. rewrite Hd'. cbn in *.
  unfold ex_run in *. rewrite foldl_snoc, Hd in Hd'. cbn in Hd'.
  destruct (run_event ex_config ex_always e d) as [[v d2]|] eqn:Hrun; [|done].
  cbn in Hd'. injection Hd' as <-. by eapply reachable_step.
Qed.

(** The chunk is at address 0 and its task at 1; both flushes are under way, then the callback of the first
    is started and comes back asking for a retry (its object is at address 11). *)
Definition ex_started : list event := [EvChunk ex_chunk; EvDispatch 1 0; EvStart 1 0 None].
Definition ex_events : list event := ex_started ++ [EvReturn 1 0 FLB_RETRY None].
Definition ex_events_retry : list event := ex_events ++ [EvVerdict 1 0 FLB_RETRY].

Lemma ex_reaches_started : reaches ex_config ex_always ex_sched 3 (ex_after ex_started).
Proof.
  apply (ex_step 2 [EvChunk ex_chunk; EvDispatch 1 0] (EvStart 1 0 None)).
  - apply (ex_step 1 [EvChunk ex_chunk] (EvDispatch 1 0)).
    + apply (ex_step 0 [] (EvChunk ex_chunk)).
      * split_and!; [apply ex_starts|constructor|done].
      * by eexists.
      * split; [apply ex_chunk_ok|done].
      * vm_compute. by eexists.
      * done.
    + vm_compute. by eexists.
    + vm_compute. lia.
    + vm_compute. by eexists.
    + done.
  - vm_compute. by eexists.
  - vm_compute. by left.
  - vm_compute. by eexists.
  - done.
Qed.

Lemma ex_reaches : reaches ex_config ex_always ex_sched 4 (ex_after ex_events).
Proof.
  apply (ex_step 3 ex_started (EvReturn 1 0 FLB_RETRY None)); [apply ex_reaches_started| | | |done].
  - vm_compute. by eexists.
  - vm_compute. by left.
  - vm_compute. by eexists.
Qed.

Lemma ex_enabled : enabled ex_config (EvVerdict 1 0 FLB_RETRY) (ex_after ex_events).
Proof. split; [|by right; left]. vm_compute. by left. Qed.

Lemma ex_reaches_retry : reaches ex_config ex_always ex_sched 5 (ex_after ex_events_retry).
Proof.
  apply (ex_step 4 ex_events (EvVerdict 1 0 FLB_RETRY)); [apply ex_reaches| |apply ex_enabled| |done];
    vm_compute; by eexists.
Qed.

Example engine_never_undefined_witness :
  ∃ v d', run_event ex_config ex_always (EvVerdict 1 0 FLB_RETRY) (ex_after ex_events) = Some (v, d').
Proof. apply (engine_never_undefined ex_config ex_always ex_sched 4 _ _ ex_reaches ex_enabled). Defined.

Example users_exact_witness :
  ∃ k, d_tasks (ex_after ex_events_retry) !! 1%nat = Some k ∧ t_users k = 1 ∧
    t_users k = zlen (filter (λ p, p.1 = 1%nat) (flush_pairs (ex_after ex_events_retry) ++ queue_pairs (ex_after ex_events_retry))) ∧
    NoDup (flush_pairs (ex_after ex_events_retry) ++ queue_pairs (ex_after ex_events_retry) ++
      sched_pairs (rqueue_pending (d_rq (ex_after ex_events_retry))) (ex_after ex_events_retry)).
Proof.
  destruct (d_tasks (ex_after ex_events_retry) !! 1%nat) as [k|] eqn:Hk; [|by vm_compute in Hk].
  exists k. split; [reflexivity|]. split; [by vm_compute in Hk; injection Hk as <-|].
  apply (users_exact ex_config ex_always ex_sched 5 _ 1%nat k ex_reaches_retry); [by split|exact Hk].
Defined.

Example verdict_settles_witness :
  ∃ d' d1 k ins k1, run_event ex_config ex_always (EvVerdict 1 0 FLB_RETRY) (ex_after ex_events) = Some (0, d') ∧
    delivery_ok ex_config 5 d' ∧
    d_tasks (ex_after ex_events) !! 1%nat = Some k ∧ cf_outputs ex_config !! 0%nat = Some ins ∧
    verdict_outcome FLB_RETRY 1 0 ins (records_of k 0) k1 d1 d' ∧ d_tasks d1 !! 1%nat = Some k1 ∧
    frame (ex_after ex_events) d1 ∧ calm (env_of d1) ∧
    (is_sync ex_config 0 = false →
     d_tasks d1 = d_tasks (ex_after ex_events) ∧ d_retries d1 = d_retries (ex_after ex_events)).
Proof. apply (verdict_settles ex_config ex_always ex_sched 4 _ 1 0 FLB_RETRY ex_reaches); [by split|apply ex_enabled]. Defined.

Example retry_limit_respected_witness :
  ∃ x ins k, d_retries (ex_after ex_events_retry) !! 11%nat = Some x ∧ rt_attempts x = 1 ∧
    cf_outputs ex_config !! rt_o_ins x = Some ins ∧
    d_tasks (ex_after ex_events_retry) !! rt_parent x = Some k ∧ 11%nat ∈ t_retries k ∧ 1 <= rt_attempts x <= 5 ∧
    (0 <= o_retry_limit ins → rt_attempts x <= o_retry_limit ins) ∧
    ∀ r' x', d_retries (ex_after ex_events_retry) !! r' = Some x' → rt_parent x' = rt_parent x →
      rt_o_ins x' = rt_o_ins x → r' = 11%nat.
Proof.
  destruct (d_retries (ex_after ex_events_retry) !! 11%nat) as [x|] eqn:Hx; [|by vm_compute in Hx].
  destruct (retry_limit_respected ex_config ex_always ex_sched 5 _ 11%nat x ex_reaches_retry Hx) as (ins & k & Hrest).
  exists x, ins, k. split; [reflexivity|]. split; [by vm_compute in Hx; injection Hx as <-|exact Hrest].
Defined.

Example synchronous_one_at_a_time_witness :
  ∃ q, d_queues (ex_after ex_events) !! 1%nat = Some q ∧
    enq_pair <$> q_in_progress q = filter (λ p, p.2 = 1%nat) (flush_pairs (ex_after ex_events)) ∧
    (length (q_in_progress q) <= 1)%nat ∧ (q_pending q ≠ [] → length (q_in_progress q) = 1%nat) ∧
    ∀ e, e ∈ q_in_progress q ++ q_pending q → eq_out e = 1%nat.
Proof. apply (synchronous_one_at_a_time ex_config ex_always ex_sched 4 _ 1 ex_reaches). reflexivity. Defined.

Example task_ids_identify_witness :
  ∃ k, d_tasks (ex_after ex_events) !! 1%nat = Some k ∧ 0 <= t_id k < 2 ^ 14 ∧
    (∀ t' k', d_tasks (ex_after ex_events) !! t' = Some k' → t_id k' = t_id k → t' = 1%nat) ∧
    (∃ c ck, t_ic k = Some c ∧ d_chunks (ex_after ex_events) !! c = Some ck ∧ ck_task ck = Some 1%nat ∧
       ck_busy ck = true ∧ in_list (d_in_tasks (ex_after ex_events)) (ck_in ck) 1%nat) ∧
    (∀ t' k' c, d_tasks (ex_after ex_events) !! t' = Some k' → t_ic k = Some c → t_ic k' = Some c → t' = 1%nat).
Proof.
  destruct (d_tasks (ex_after ex_events) !! 1%nat) as [k|] eqn:Hk; [|by vm_compute in Hk].
  exists k. split; [reflexivity|]. exact (task_ids_identify ex_config ex_always ex_sched 4 _ 1%nat k ex_reaches Hk).
Defined.

Lemma ex_delivery_ok m es : reaches ex_config ex_always ex_sched m (ex_after es) →
  delivery_ok ex_config m (ex_after es).
Proof.
  intros Hr. destruct (reaches_safe _ _ _ _ _ Hr) as (L & W & _ & HL). by destruct (HL) as [-> _]; [split|].
Qed.

(** The chunk once its lock is taken, as [flb_engine_dispatch] hands it to [flb_task_create]. *)
Definition ex_locked : delivery flb_sched :=
  set_d_chunks (<[0%nat := set_ck_busy true ex_chunk]> (d_chunks (ex_after [EvChunk ex_chunk]))) (ex_after [EvChunk ex_chunk]).

Lemma ex_locked_ok : delivery_ok ex_config 1 ex_locked.
Proof.
  apply (wf_chunk_busy ex_config _ (ex_after [EvChunk ex_chunk]) 0 ex_chunk true); [|reflexivity|by left].
  apply (ex_delivery_ok 1 [EvChunk ex_chunk]). apply (ex_step 0 [] (EvChunk ex_chunk)).
  - split_and!; [apply ex_starts|constructor|done].
  - by eexists.
  - split; [apply ex_chunk_ok|done].
  - vm_compute. by eexists.
  - done.
Qed.

Example flb_task_create_selects_witness :
  let evc := mk_evc 0 10 100 in
  let outs := selected_outputs ex_config ex_always evc (set_ck_busy true ex_chunk) (mk_input 0 [] true None 0 [] []) in
  outs = [0; 1]%nat ∧
  ∃ res d', flb_task_create ex_config ex_always 1 100 0 0 ex_locked = Some (res, d') ∧
    delivery_ok ex_config 1 d' ∧
    match res with
    | (Some t, _) => outs ≠ [] ∧ d_tasks ex_locked !! t = None ∧
        ∃ k, d_tasks d' = <[t := k]> (d_tasks ex_locked) ∧ t_routes k = new_route evc <$> outs ∧
          t_status k = FLB_TASK_NEW ∧ t_users k = 0 ∧ t_ic k = Some 0%nat ∧ t_event_chunk k = Some evc
    | (None, false) => outs = [] ∧ d_tasks d' = d_tasks ex_locked ∧ d_chunks d' = delete 0%nat (d_chunks ex_locked)
    | (None, true) => map_full ex_locked ∧ d_tasks d' = d_tasks ex_locked ∧ d_chunks d' = d_chunks ex_locked
    end.
Proof.
  intros evc outs. split; [reflexivity|].
  apply (flb_task_create_selects ex_config ex_config_ok ex_always 1 ex_locked 1 100 0 (set_ck_busy true ex_chunk)
           (mk_input 0 [] true None 0 [] [])); [apply ex_locked_ok|reflexivity|reflexivity|reflexivity|reflexivity|by split].
Defined.

Example flb_task_map_get_task_id_lowest_witness :
  ∃ id d', flb_task_map_get_task_id (ex_after ex_events) = Some (id, d') ∧ id = 1 ∧
    wf ex_config (idle 4 (ex_after ex_events)) d' ∧ d_tasks d' = d_tasks (ex_after ex_events) ∧
    ((id = -1 ∧ (calm (env_of (ex_after ex_events)) → map_full (ex_after ex_events))) ∨
     (0 <= id < FLB_CONFIG_DEFAULT_TASK_MAP_SIZE_LIMIT ∧ d_map d' !! Z.to_nat id = Some None ∧
      ∀ m, (m < Z.to_nat id)%nat → ∃ t, d_map d' !! m = Some (Some t))).
Proof.
  destruct (flb_task_map_get_task_id_lowest ex_config 4 _ (ex_delivery_ok 4 ex_events ex_reaches)) as (id & d' & Hrun & Hrest).
  exists id, d'. split; [exact Hrun|]. split; [by vm_compute in Hrun; injection Hrun as <- <-|exact Hrest].
Defined.

Example task_message_roundtrip_witness :
  let val := FLB_BITS_U64_SET FLB_ENGINE_TASK (FLB_TASK_SET FLB_RETRY 16383 1) in
  FLB_BITS_U64_HIGH val = FLB_ENGINE_TASK ∧
  FLB_TASK_RET (FLB_BITS_U64_LOW val) = FLB_RETRY ∧ FLB_TASK_ID (FLB_BITS_U64_LOW val) = 16383 ∧
  flb_output_get_instance ex_config (FLB_TASK_OUT (FLB_BITS_U64_LOW val)) = Some 1%nat.
Proof.
  apply (task_message_roundtrip ex_config 1 (ex_output 1 FLB_OUTPUT_SYNCHRONOUS (-1)) FLB_RETRY 16383);
    [apply ex_config_ok|reflexivity|split; reflexivity || discriminate|split; reflexivity || discriminate].
Defined.

(** The task of [ex_events] before it is started, in an engine whose second system call fails. *)
Definition ex_failing : delivery flb_sched :=
  set_env (mk_env [] [true; false] [] 1000 20 [])
    (set_d_queues [mk_queue [] []; mk_queue [] []] (set_d_flushes [] (ex_after ex_events))).

Example synchronous_pipe_failure_witness :
  flb_output_task_singleplex_enqueue ex_config 1 None 1 ex_failing = None.
Proof.
  destruct (d_tasks ex_failing !! 1%nat) as [k|] eqn:Hk; [|by vm_compute in Hk].
  apply (synchronous_pipe_failure ex_config 1 1 ex_failing k (ex_output 1 FLB_OUTPUT_SYNCHRONOUS (-1)) []);
    [exact Hk|reflexivity|reflexivity|reflexivity|reflexivity|reflexivity|reflexivity].
Defined.

(** The retry of [ex_events_retry], and the request that carries it. *)
Example request_redelivers_witness :
  ∃ q d' x, rqueue_request (d_rq (ex_after ex_events_retry)) q = Some 11%nat ∧
    run_event ex_config ex_always (EvRequest q) (ex_after ex_events_retry) = Some (0, d') ∧
    delivery_ok ex_config 5 d' ∧ d_retries (ex_after ex_events_retry) !! 11%nat = Some x ∧
    on_its_way (rt_parent x) (rt_o_ins x) d' ∧
    rqueue_pending (d_rq d') ≡ₚ unlink 11 (rqueue_pending (d_rq (ex_after ex_events_retry))).
Proof.
  assert (Hq : ∃ q, rqueue_request (d_rq (ex_after ex_events_retry)) q = Some 11%nat) by (exists 13%nat; reflexivity).
  destruct Hq as [q Hq]. exists q.
  destruct (request_redelivers ex_config ex_always ex_sched 5 _ q 11 ex_reaches_retry) as (d' & x & Hrest);
    [by split|exact Hq|]. exists d', x. by split.
Defined.


(** C5. Tasks are started.  From a consistent state and while nothing fails, after [tasks_start] every
    route of every task that was NEW is on its way, flushed or in the queue of a synchronous output,
    unless the output is in test mode or takes one task per flush (FLB_OUTPUT_NO_MULTIPLEX); nothing
    that was on its way before is lost; and the state stays consistent. *)
Theorem tasks_start_all {S} `{RetryQueue S} cfg n (d : delivery S) i l :
  delivery_ok cfg n d → calm (env_of d) → d_in_tasks d !! i = Some l →
  ∃ d', tasks_start cfg i d = Some (tt, d') ∧ delivery_ok cfg n d' ∧
    flush_pairs d ++ queue_pairs d ⊆ flush_pairs d' ++ queue_pairs d' ∧
    ∀ t k r, t ∈ l → d_tasks d !! t = Some k → t_status k = FLB_TASK_NEW → r ∈ t_routes k →
      startable cfg (r_out r) → on_its_way t (r_out r) d'.
Proof.
  intros W Hcd Hl.
  destruct (start_tasks_spec cfg _ n l [] 0 d W) as (X & d' & Hrun & W' & HX & _ & _ & Hkept & Hway).
  { intros t Ht. apply (in_list_at _ _ _ Hl) in Ht.
    apply (wh_in_tasks _ _ _ (wf_h _ _ _ W)) in Ht as (k & ? & _). by eexists. }
  { pose proof (wh_in_tasks_nodup _ _ _ (wf_h _ _ _ W)) as Hnd. by eapply Forall_lookup_1 in Hnd. }
  { left. apply Hcd. }
  rewrite (HX Hcd) in W'. exists d'. split_and!.
  - unfold tasks_start. unfold mbind at 1, M_bind at 1, gets at 1. unfold mbind at 1, M_bind at 1. by rewrite Hl.
  - by apply (delivery_safe_intro cfg) in W'.
  - by apply Hkept.
  - by apply Hway.
Qed.

(** The task the chunk becomes, before it is started. *)
Definition ex_created : delivery flb_sched :=
  match flb_task_create ex_config ex_always 1 100 0 0 ex_locked with Some (_, d) => d | None => ex_locked end.

Lemma ex_created_ok : delivery_ok ex_config 1 ex_created.
Proof.
  destruct (task_create_spec ex_config ex_config_ok ex_always [] [] [] _ 1 ex_locked 1 100 0 (set_ck_busy true ex_chunk)
    ex_locked_ok) as (res & d' & ins & Hrun & _ & W' & _); [done|done|done|].
  unfold ex_created. change (ck_in (set_ck_busy true ex_chunk)) with 0%nat in Hrun. rewrite Hrun.
  by apply (delivery_safe_intro ex_config) in W'.
Qed.

Example tasks_start_all_witness :
  ∃ d', tasks_start ex_config 0 ex_created = Some (tt, d') ∧ delivery_ok ex_config 1 d' ∧
    flush_pairs ex_created ++ queue_pairs ex_created ⊆ flush_pairs d' ++ queue_pairs d' ∧
    on_its_way 1 0 d' ∧ on_its_way 1 1 d'.
Proof.
  destruct (tasks_start_all ex_config 1 ex_created 0 [1%nat] ex_created_ok) as (d' & Hrun & Hok & Hkept & Hway);
    [by split|by vm_compute|].
  destruct (d_tasks ex_created !! 1%nat) as [k|] eqn:Hk; [|by vm_compute in Hk].
  assert (Hk' : t_status k = FLB_TASK_NEW ∧ r_out <$> t_routes k = [0; 1]%nat) by (vm_compute in Hk; by injection Hk as <-).
  destruct Hk' as [Hst Hr].
  assert (Hgo : ∀ o, o ∈ [0; 1]%nat → on_its_way 1 o d').
  { intros o Ho. assert (Hs : startable ex_config o).
    { apply elem_of_cons in Ho as [->|[->|Ho]%elem_of_cons]; [by eexists|by eexists|by apply not_elem_of_nil in Ho]. }
    rewrite <- Hr in Ho. apply list_elem_of_fmap in Ho as (r & -> & Hin).
    apply (Hway 1%nat k r); [by left|exact Hk|exact Hst|exact Hin|exact Hs]. }
  exists d'. split_and!; [exact Hrun|exact Hok|exact Hkept|apply Hgo; by left|apply Hgo; right; by left].
Defined.
