(* ===== verification/ChunkFrame.v ===== *)
(** * What the delivery core does to chunks

    Between its creation and its destruction a chunk keeps its input, type, tag, routes and content:
    tasks only lock it and hold it.  [ChunkSpace] relies on this to account for the space of chunks
    the core destroys. *)
From S2P Require Import Prelude Env RetryQueue Router RoutesMask Delivery Invariant Task Output Dispatch Engine.

(** The same chunk, perhaps locked or held by another task. *)
Record same_chunk (ck ck' : flb_input_chunk) : Prop := {
  sk_in : ck_in ck' = ck_in ck;
  sk_event_type : ck_event_type ck' = ck_event_type ck;
  sk_mask : ck_routes_mask ck' = ck_routes_mask ck;
  sk_direct : ck_direct ck' = ck_direct ck;
  sk_tag : ck_tag ck' = ck_tag ck;
  sk_size : ck_size ck' = ck_size ck
}.

#[global] Instance same_chunk_preorder : PreOrder same_chunk.
Proof. split; [by constructor|]. intros k1 k2 k3 [] []. constructor; congruence. Qed.

(** Chunks may go, the others stay the same. *)
Definition chunks_le (m m' : gmap nat flb_input_chunk) : Prop :=
  ∀ c ck', m' !! c = Some ck' → ∃ ck, m !! c = Some ck ∧ same_chunk ck ck'.

#[global] Instance chunks_le_preorder : PreOrder chunks_le.
Proof.
  split.
  - intros m c ck Hc. by exists ck.
  - intros m1 m2 m3 H12 H23 c ck3 Hc3. destruct (H23 c ck3 Hc3) as (ck2 & Hc2 & S23).
    destruct (H12 c ck2 Hc2) as (ck1 & Hc1 & S12). exists ck1. split; [done|by etrans].
Qed.

Lemma chunks_le_store m c ck ck' : m !! c = Some ck → same_chunk ck ck' → chunks_le m (<[c := ck']> m).
Proof.
  intros Hc Hs c' ck2. destruct (decide (c = c')) as [<-|Hne].
  - rewrite lookup_insert_eq. intros [= <-]. by exists ck.
  - rewrite lookup_insert_ne by done. intros Hc'. by exists ck2.
Qed.

Lemma chunks_le_delete m c : chunks_le m (delete c m).
Proof. intros c' ck Hc'. apply lookup_delete_Some in Hc' as [_ Hc']. by exists ck. Qed.

Section keeps.
Context {S : Type} `{HasEnv S}.

Class Keeps {A} (m : M (delivery S) A) : Prop :=
  keeps : ∀ d a d', m d = Some (a, d') → chunks_le (d_chunks d) (d_chunks d').

#[global] Instance keeps_ret {A} (a : A) : Keeps (mret (M := M (delivery S)) a).
Proof. intros d b d' [= <- <-]. done. Qed.
#[global] Instance keeps_bind {A B} (m : M (delivery S) A) (f : A → M (delivery S) B) :
  Keeps m → (∀ a, Keeps (f a)) → Keeps (m ≫= f).
Proof.
  intros Hm Hf d b d'. unfold mbind, M_bind. destruct (m d) as [[a d1]|] eqn:Hd; [|done].
  intros Hf'. etrans; [by eapply Hm|by eapply Hf].
Qed.
#[global] Instance keeps_malloc : Keeps malloc.
Proof. intros d p d'. unfold malloc. by destruct (e_alloc (env_of d)) as [|[]]; intros [= <- <-]. Qed.
#[global] Instance keeps_syscall : Keeps syscall.
Proof. intros d p d'. unfold syscall. by destruct (e_sys (env_of d)); intros [= <- <-]. Qed.
#[global] Instance keeps_emit x : Keeps (emit x).
Proof. by intros d p d' [= <- <-]. Qed.
#[global] Instance keeps_gets {A} (f : delivery S → A) : Keeps (gets f).
Proof. by intros d p d' [= <- <-]. Qed.
#[global] Instance keeps_get : Keeps get.
Proof. by intros d p d' [= <- <-]. Qed.
#[global] Instance keeps_ub {A} : Keeps (ub (A := A)).
Proof. by intros d p d' [=]. Qed.
#[global] Instance keeps_deref {A} (o : option A) : Keeps (deref o).
Proof. intros d p d'. unfold deref. destruct o; [|done]. by intros [= <- <-]. Qed.
#[global] Instance keeps_lift {A} (m : M S A) : Keeps (lift m).
Proof. intros d p d'. unfold lift. destruct (m (d_rq d)) as [[]|]; [|done]. by intros [= <- <-]. Qed.
Lemma keeps_modify (f : delivery S → delivery S) : (∀ d, chunks_le (d_chunks d) (d_chunks (f d))) → Keeps (modify f).
Proof. intros Hf d p d' [= <- <-]. apply Hf. Qed.
#[global] Instance keeps_foreach {A} (l : list A) (body : A → M (delivery S) unit) :
  (∀ x, Keeps (body x)) → Keeps (foreach l body).
Proof. intros Hb. induction l as [|x l IH]; cbn; apply _. Qed.

#[global] Instance keeps_task_at t : Keeps (task_at (S := S) t).
Proof. intros d p d'. unfold task_at. case_match; [|done]. by intros [= <- <-]. Qed.
#[global] Instance keeps_retry_at t : Keeps (retry_at (S := S) t).
Proof. intros d p d'. unfold retry_at. case_match; [|done]. by intros [= <- <-]. Qed.
#[global] Instance keeps_chunk_at t : Keeps (chunk_at (S := S) t).
Proof. intros d p d'. unfold chunk_at. case_match; [|done]. by intros [= <- <-]. Qed.
#[global] Instance keeps_queue_at t : Keeps (queue_at (S := S) t).
Proof. intros d p d'. unfold queue_at. case_match; [|done]. by intros [= <- <-]. Qed.
End keeps.

Ltac keep :=
  repeat match goal with
  | |- Keeps (_ ≫= _) => apply keeps_bind; [|intros ?]
  | |- Keeps (modify _) => apply keeps_modify; intros ?; first [apply chunks_le_delete | reflexivity]
  | |- Keeps (foreach _ _) => apply keeps_foreach; intros ?
  | |- Keeps (match ?x with _ => _ end) => destruct x
  | |- Keeps (if ?x then _ else _) => destruct x
  | |- Keeps (when ?b _) => unfold when; destruct b
  | |- Keeps (let _ := _ in _) => cbv zeta
  | |- Keeps _ => apply _
  end.

Section instances.
Context {S : Type} `{RetryQueue S} (cfg : flb_config) (route_condition : flb_event_chunk → nat → bool).

(** ** Tasks *)
#[global] Instance keeps_chunk_destroy c del : Keeps (flb_input_chunk_destroy (S := S) c del).
Proof. unfold flb_input_chunk_destroy. keep. Qed.
#[global] Instance keeps_map_set id t : Keeps (map_set_task_id (S := S) id t).
Proof. unfold map_set_task_id. keep. Qed.
#[global] Instance keeps_retry_destroy r : Keeps (flb_task_retry_destroy (S := S) r).
Proof. unfold flb_task_retry_destroy, store_task. keep. Qed.
#[global] Instance keeps_task_destroy t del : Keeps (flb_task_destroy (S := S) t del).
Proof. unfold flb_task_destroy, map_free_task_id, store_task, flb_input_chunk_set_limits. keep. Qed.
#[global] Instance keeps_users_inc t : Keeps (flb_task_users_inc (S := S) t).
Proof. unfold flb_task_users_inc, store_task. keep. Qed.
#[global] Instance keeps_users_release t : Keeps (flb_task_users_release (S := S) t).
Proof. unfold flb_task_users_release. keep. Qed.
#[global] Instance keeps_users_dec t b : Keeps (flb_task_users_dec (S := S) t b).
Proof. unfold flb_task_users_dec, store_task. keep. Qed.
#[global] Instance keeps_reschedule r : Keeps (flb_task_retry_reschedule (S := S) cfg r).
Proof. unfold flb_task_retry_reschedule. keep. Qed.
#[global] Instance keeps_find_retry o l : Keeps (find_retry (S := S) o l).
Proof. induction l as [|r l IH]; cbn; keep. Qed.
#[global] Instance keeps_put_down t : Keeps (retry_put_down (S := S) t).
Proof. unfold retry_put_down, flb_input_chunk_set_up_down, flb_input_chunk_down. keep. Qed.
#[global] Instance keeps_retry_create t o : Keeps (flb_task_retry_create (S := S) cfg t o).
Proof. unfold flb_task_retry_create, store_retry, store_task. keep. Qed.
#[global] Instance keeps_retry_count t o : Keeps (flb_task_retry_count (S := S) t o).
Proof. unfold flb_task_retry_count. keep. Qed.
#[global] Instance keeps_retry_clean t o : Keeps (flb_task_retry_clean (S := S) t o).
Proof. unfold flb_task_retry_clean. keep. Qed.
#[global] Instance keeps_map_resize n : Keeps (flb_config_task_map_resize (S := S) n).
Proof.
  intros d a d'. unfold flb_config_task_map_resize. mrun. case_match; [by intros [= <- <-]|].
  case_match; [by intros [= <- <-]|]. destruct (malloc_quiet d) as (p & e & Hm & _). rewrite Hm.
  destruct p; by intros [= <- <-].
Qed.
#[global] Instance keeps_get_task_id : Keeps (map_get_task_id (S := S)).
Proof. unfold map_get_task_id, flb_config_task_map_grow. keep. Qed.
#[global] Instance keeps_task_alloc : Keeps (task_alloc (S := S)).
Proof. unfold task_alloc, store_task. keep. Qed.
#[global] Instance keeps_event_chunk_create ty n size : Keeps (flb_event_chunk_create (S := S) ty n size).
Proof. unfold flb_event_chunk_create. keep. Qed.
#[global] Instance keeps_add_route t evc o : Keeps (add_route (S := S) t evc o).
Proof. unfold add_route, store_task. keep. Qed.
#[global] Instance keeps_collect route : Keeps (task_collect_output_references (S := S) cfg route).
Proof. unfold task_collect_output_references. keep. Qed.
#[global] Instance keeps_check_direct routes : Keeps (check_direct (S := S) cfg routes).
Proof. induction routes as [|route routes IH]; cbn; keep. Qed.
#[global] Instance keeps_add_all t evc outs : ∀ count, Keeps (add_all (S := S) t evc outs count).
Proof. induction outs as [|o outs IH]; intros count; cbn; keep. Qed.
#[global] Instance keeps_add_direct t evc routes : ∀ count, Keeps (add_direct (S := S) cfg t evc routes count).
Proof. induction routes as [|route routes IH]; intros count; cbn; keep. Qed.
#[global] Instance keeps_mask_bit mask o : Keeps (mask_bit (S := S) cfg mask o).
Proof. unfold mask_bit. apply _. Qed.
#[global] Instance keeps_add_paths t evc mask paths : ∀ count,
  Keeps (add_paths (S := S) cfg route_condition t evc mask paths count).
Proof. induction paths as [|path paths IH]; intros count; cbn; keep. Qed.
#[global] Instance keeps_add_masked t evc mask outs : ∀ n count,
  Keeps (add_masked (S := S) cfg t evc mask n outs count).
Proof. induction outs as [|o outs IH]; intros n count; cbn; keep. Qed.
#[global] Instance keeps_create_routes t c i evc :
  Keeps (task_create_routes (S := S) cfg route_condition t c i evc).
Proof. unfold task_create_routes. keep. Qed.
#[global] Instance keeps_link_at i t ls : Keeps (link_at (S := delivery S) i t ls).
Proof. unfold link_at. keep. Qed.

Lemma event_chunk_create_chunks ty n size (d : delivery S) r d' :
  flb_event_chunk_create ty n size d = Some (r, d') → d_chunks d' = d_chunks d.
Proof.
  unfold flb_event_chunk_create. mrun. destruct (malloc_quiet d) as (p & e & Hm & _). rewrite Hm.
  destruct p; [|by intros [= <- <-]]. destruct (malloc_quiet (set_env e d)) as (q & e' & Hm' & _). rewrite Hm'.
  by intros [= <- <-].
Qed.

#[global] Instance keeps_task_create id size i c :
  Keeps (flb_task_create (S := S) cfg route_condition id size i c).
Proof.
  unfold flb_task_create. apply keeps_bind; [apply _|]. intros [t|]; [|apply _].
  intros d r d'. unfold mbind at 1, M_bind at 1. unfold chunk_at at 1. destruct (d_chunks d !! c) as [ck|] eqn:Hc; [|done].
  unfold mbind at 1, M_bind at 1. destruct (flb_event_chunk_create _ _ _ d) as [[evc d1]|] eqn:Hevc; [|done].
  apply event_chunk_create_chunks in Hevc. intros Hrun. rewrite <- Hevc in Hc. rewrite <- Hevc. revert Hrun. destruct evc as [evc|].
  - unfold mbind at 1, M_bind at 1. unfold store_chunk, modify at 1. cbn beta iota. intros Hrun.
    etrans; [eapply (chunks_le_store _ c ck (set_ck_task (Some t) ck)); [exact Hc|by constructor]|].
    revert Hrun. match goal with |- ?m ?d0 = _ → _ => change (d_chunks d1) with (d_chunks d1); set (dd := d0) end.
    change (<[c := set_ck_task (Some t) ck]> (d_chunks d1)) with (d_chunks dd). generalize dd. clear.
    match goal with |- ∀ dd, ?m dd = _ → _ => assert (Hk : Keeps m) by (unfold store_task; keep) end.
    intros dd Hrun. by eapply Hk.
  - assert (Hk : Keeps (modify (λ d, set_d_tasks (delete t (d_tasks d)) d) ≫= λ _, mret (M := M (delivery S)) (None (A := nat), true)))
      by keep. apply Hk.
Qed.

(** ** Flushes *)
#[global] Instance keeps_output_at o : Keeps (output_at (S := S) cfg o).
Proof. unfold output_at. keep. Qed.
#[global] Instance keeps_hand_over t o : Keeps (hand_over (S := S) t o).
Proof. unfold hand_over. keep. Qed.
#[global] Instance keeps_flush_create : Keeps (flb_output_flush_create (S := S)).
Proof. unfold flb_output_flush_create. keep. Qed.
#[global] Instance keeps_task_flush_with next t o :
  (∀ o', Keeps (next o')) → Keeps (task_flush_with (S := S) cfg next t o).
Proof. intros Hn. unfold task_flush_with. keep. Qed.
#[global] Instance keeps_flush_one_with next o :
  (∀ o', Keeps (next o')) → Keeps (flush_one_with (S := S) cfg next o).
Proof. intros Hn. unfold flush_one_with, store_queue, entry_at. keep. Qed.
#[global] Instance keeps_flush_next_fuel fuel : ∀ o, Keeps (flush_next_fuel (S := S) cfg fuel o).
Proof. induction fuel as [|fuel IH]; intros o; cbn; unfold store_queue; keep. Qed.
#[global] Instance keeps_flush_next o : Keeps (flb_output_task_singleplex_flush_next (S := S) cfg o).
Proof. unfold flb_output_task_singleplex_flush_next. keep. Qed.
#[global] Instance keeps_task_flush t o : Keeps (flb_output_task_flush (S := S) cfg t o).
Proof. unfold flb_output_task_flush. apply _. Qed.
#[global] Instance keeps_enqueue o retry t : Keeps (flb_output_task_singleplex_enqueue (S := S) cfg o retry t).
Proof.
  unfold flb_output_task_singleplex_enqueue, flb_output_task_queue_enqueue, flb_output_task_queue_flush_one, store_queue.
  keep.
Qed.

(** ** Dispatch *)
#[global] Instance keeps_chunk_set_up n : Keeps (flb_input_chunk_set_up (S := S) n).
Proof. unfold flb_input_chunk_set_up. keep. Qed.
#[global] Instance keeps_chunk_flush c : Keeps (flb_input_chunk_flush (S := S) c).
Proof.
  intros d r d'. unfold flb_input_chunk_flush, store_chunk. mrun. unfold chunk_at. destruct (d_chunks d !! c) as [ck|] eqn:Hc; [|done].
  destruct (syscall_quiet d) as (b & e & Hs & _). rewrite Hs. destruct b; intros [= <- <-]; [|done].
  cbn. eapply chunks_le_store; [exact Hc|by constructor].
Qed.
#[global] Instance keeps_release_lock c : Keeps (flb_input_chunk_release_lock (S := S) c).
Proof.
  intros d r d'. unfold flb_input_chunk_release_lock, store_chunk. mrun. unfold chunk_at.
  destruct (d_chunks d !! c) as [ck|] eqn:Hc; [|done]. destruct (ck_busy ck); intros [= <- <-]; [|done].
  cbn. eapply chunks_le_store; [exact Hc|by constructor].
Qed.
#[global] Instance keeps_dispatch_retry r : Keeps (flb_engine_dispatch_retry (S := S) cfg r).
Proof. unfold flb_engine_dispatch_retry, store_task. keep. Qed.
#[global] Instance keeps_start_routes t routes : ∀ retry hits, Keeps (start_routes (S := S) cfg t routes retry hits).
Proof. induction routes as [|r l IH]; intros retry hits; cbn; unfold store_task, flb_output_coros_size; keep. Qed.
#[global] Instance keeps_start_tasks l : ∀ retry, Keeps (start_tasks (S := S) cfg l retry).
Proof. induction l as [|t l IH]; intros retry; cbn; unfold store_task; keep. Qed.
#[global] Instance keeps_dispatch_chunk id c : Keeps (dispatch_chunk (S := S) cfg route_condition id c).
Proof. unfold dispatch_chunk, flb_task_map_get_task_id, flb_input_chunk_down. keep. Qed.
#[global] Instance keeps_dispatch_chunks id l : Keeps (dispatch_chunks (S := S) cfg route_condition id l).
Proof. induction l as [|c l IH]; cbn; keep. Qed.
#[global] Instance keeps_dispatch id i : Keeps (flb_engine_dispatch (S := S) cfg route_condition id i).
Proof. unfold flb_engine_dispatch, tasks_start, cleanup_task. keep. Qed.

(** ** Events *)
#[global] Instance keeps_dlq t o : Keeps (handle_dlq_if_available (S := S) cfg t o).
Proof. unfold handle_dlq_if_available. keep. Qed.
#[global] Instance keeps_handle_ok t o n : Keeps (handle_ok (S := S) t o n).
Proof. unfold handle_ok. keep. Qed.
#[global] Instance keeps_handle_drop t o n : Keeps (handle_drop (S := S) cfg t o n).
Proof. unfold handle_drop. keep. Qed.
#[global] Instance keeps_handle_retry t o ins n : Keeps (handle_retry (S := S) cfg t o ins n).
Proof. unfold handle_retry. keep. Qed.
#[global] Instance keeps_output_event val : Keeps (handle_output_event (S := S) cfg val).
Proof. unfold handle_output_event, effective. keep. Qed.

#[global] Instance keeps_output_return ret t o pr : Keeps (flb_output_return (S := S) cfg ret t o pr).
Proof. unfold flb_output_return, move_flush, store_task. keep. Qed.
#[global] Instance keeps_pre_cb_flush t o pr : Keeps (output_pre_cb_flush (S := S) cfg t o pr).
Proof. unfold output_pre_cb_flush, move_flush, store_task. apply keeps_bind; [apply _|intros k]. cbv zeta. destruct (default _ _); keep. Qed.

(** Every event but the arrival of a chunk. *)
Lemma keeps_run_event e :
  (∀ ck, e ≠ EvChunk ck) → Keeps (run_event (S := S) cfg route_condition e).
Proof.
  intros He. destruct e as [ck|id i|q|t o processed|t o ret processed|t o ret]; [by destruct (He ck)|..]; cbn.
  - apply _.
  - unfold request_event. keep.
  - keep.
  - apply _.
  - keep.
Qed.
End instances.
