(* ===== verification/ChunkSpace.v ===== *)
(** * The space of chunks ([src/flb_input_chunk.c])

    Inputs append records to chunks.  An output may have a limit on the bytes of the chunks routed to
    it, [storage.total_limit_size]; [fs_chunks_size] is what is charged against it.  When new data would
    exceed a limit the oldest chunks lose their route to the output, or are destroyed with their tasks.

    The state is that of the delivery core and what the core does not look at: the sizes of chunks, the
    charges, and the tables that lead from a tag to the chunk being filled.  What the storage layer
    answers during a call - chunkio, a library - is an argument of the call ([append_io]).  The build is
    without the plugin for the storage backlog, whose two functions then release nothing. *)
From S2P Require Import Prelude Env RetryQueue Router RoutesMask Delivery Invariant Task Output Dispatch Engine ChunkFrame.

Definition FLB_STORAGE_FS : Z := 0.
Definition FLB_STORAGE_MEM : Z := 1.
Definition FLB_STORAGE_MEMRB : Z := 10.
Definition FLB_INPUT_LOGS : Z := 0.
Definition FLB_INPUT_METRICS : Z := 1.
Definition FLB_INPUT_TRACES : Z := 2.
Definition FLB_INPUT_PROFILES : Z := 4.
Definition FLB_INPUT_CHUNK_META_HEADER : Z := 4.
Definition FLB_INPUT_CHUNK_TAG_MAX : Z := 65535 - FLB_INPUT_CHUNK_META_HEADER.

(** The configuration of storage: [config->storage_input_plugin], [config->storage_del_bad_chunks], of
    each input [storage_type] and [routable], of each output [total_limit_size] (-1 without a limit) and
    [fs_backlog_chunks_size], which only the plugin for the backlog changes. *)
Record storage_config := mk_storage_config {
  sc_storage_input_plugin : option nat;
  sc_storage_del_bad_chunks : bool;
  sc_storage_type : list Z;
  sc_routable : list bool;
  sc_total_limit_size : list Z;
  sc_fs_backlog_chunks_size : list Z
}.

(** A chunk as chunkio has it, and [fs_counted] *)
Record chunk_info := mk_info { ci_real_size : Z; ci_meta_size : Z; ci_fs_counted : bool }.
Definition set_ci_real_size (x : Z) (ci : chunk_info) : chunk_info := mk_info x (ci_meta_size ci) (ci_fs_counted ci).
Definition set_ci_fs_counted (x : bool) (ci : chunk_info) : chunk_info := mk_info (ci_real_size ci) (ci_meta_size ci) x.

(** [sp_fs] is [fs_chunks_size] of every output, [sp_table] the tables of all inputs - [ht_log_chunks],
    [ht_metric_chunks], [ht_trace_chunks] and [ht_profile_chunks] - by input, event type and tag
    ([HashTable] shows that they are maps, but for
    a deletion that may take a key for one it is a prefix of), [sp_reads] tells which of the next attempts to read the tag
    of a chunk succeed (all of them once the list is used up). *)
Record space := mk_space {
  sp_info : gmap nat chunk_info;
  sp_fs : list Z;
  sp_table : gmap (nat * Z * list Z) nat;
  sp_reads : list bool
}.
Definition set_sp_info (x : gmap nat chunk_info) (sp : space) : space := mk_space x (sp_fs sp) (sp_table sp) (sp_reads sp).
Definition set_sp_fs (x : list Z) (sp : space) : space := mk_space (sp_info sp) x (sp_table sp) (sp_reads sp).
Definition set_sp_table (x : gmap (nat * Z * list Z) nat) (sp : space) : space := mk_space (sp_info sp) (sp_fs sp) x (sp_reads sp).
Definition set_sp_reads (x : list bool) (sp : space) : space := mk_space (sp_info sp) (sp_fs sp) (sp_table sp) x.

Record core (S : Type) := mk_core { c_d : delivery S; c_sp : space }.
Arguments mk_core {S}.
Arguments c_d {S}.
Arguments c_sp {S}.

(** [flb_input_chunk_get_real_size] *)
Definition flb_input_chunk_get_real_size (ck : flb_input_chunk) (ci : chunk_info) : Z :=
  let size := ci_real_size ci in
  if negb (size =? 0) then size
  else
    let size := ck_size ck in
    if size =? 0 then -1 else size + ci_meta_size ci + 2 + 4 + 16 + 2.

(** The setters of a chunk that tasks do not use *)
Definition set_ck_routes_mask (x : list Z) (ck : flb_input_chunk) : flb_input_chunk :=
  mk_chunk (ck_in ck) (ck_event_type ck) (ck_busy ck) (ck_total_records ck) (ck_task ck) (Some x)
    (ck_direct ck) (ck_tag ck) (ck_size ck).
Definition set_ck_content (records size : Z) (ck : flb_input_chunk) : flb_input_chunk :=
  mk_chunk (ck_in ck) (ck_event_type ck) (ck_busy ck) records (ck_task ck) (ck_routes_mask ck)
    (ck_direct ck) (ck_tag ck) size.

Section operations.
Context {S : Type} `{RetryQueue S}.
Context (cfg : flb_config) (sc : storage_config) (onig_match : regex → list Z → Z).

Definition mask_get (ck : flb_input_chunk) (ins : flb_output_instance) : option Z :=
  flb_routes_mask_get_bit (default [] (ck_routes_mask ck)) (o_id ins) (cf_router cfg).

(** ** Charges *)

(** Add to [fs_chunks_size] of every output with a limit the chunk is routed to; whether there is one. *)
Fixpoint charge_outputs (ck : flb_input_chunk) (x : Z) (o : nat) (outs : list flb_output_instance) (fs : list Z)
    : option (bool * list Z) :=
  match outs with
  | [] => Some (false, fs)
  | ins :: outs' =>
      limit ← sc_total_limit_size sc !! o;
      if limit =? -1 then charge_outputs ck x (Datatypes.S o) outs' fs
      else
        bit ← mask_get ck ins;
        if bit =? 0 then charge_outputs ck x (Datatypes.S o) outs' fs
        else
          v ← fs !! o;
          '(_, fs') ← charge_outputs ck x (Datatypes.S o) outs' (<[o := u64 (v + x)]> fs);
          Some (true, fs')
  end.

(** The first loop of [flb_input_chunk_destroy]: a chunk that was counted is no longer charged. *)
Definition discharge (ck : flb_input_chunk) (ci : chunk_info) (fs : list Z) : option (list Z) :=
  let bytes := flb_input_chunk_get_real_size ck ci in
  '(_, fs') ← charge_outputs ck (if (bytes =? -1) || negb (ci_fs_counted ci) then 0 else - bytes) 0 (cf_outputs cfg) fs;
  Some fs'.

(** [flb_hash_table_del_ptr] with the tag of the chunk *)
Definition table_del_ptr (ck : flb_input_chunk) (c : nat) (table : gmap (nat * Z * list Z) nat)
    : gmap (nat * Z * list Z) nat :=
  match ck_tag ck with
  | None => table
  | Some tag =>
      let key := (ck_in ck, ck_event_type ck, tag) in
      if decide (table !! key = Some c) then delete key table else table
  end.

(** What [flb_input_chunk_destroy] does here; [del] is whether it takes the chunk out of the table. *)
Definition forget_chunk (del : bool) (chunks : gmap nat flb_input_chunk) (c : nat) (sp : space) : option space :=
  ck ← chunks !! c;
  ci ← sp_info sp !! c;
  fs ← discharge ck ci (sp_fs sp);
  Some (mk_space (delete c (sp_info sp)) fs (if del then table_del_ptr ck c (sp_table sp) else sp_table sp) (sp_reads sp)).

(** With [del] set the tag is read from the chunk, which may fail. *)
Definition destroy_chunk (chunks : gmap nat flb_input_chunk) (c : nat) (sp : space) : option space :=
  match sp_reads sp with
  | [] => forget_chunk true chunks c sp
  | readable :: reads => forget_chunk readable chunks c (set_sp_reads reads sp)
  end.

(** ** Calls of the delivery core

    Every chunk that is gone after a call went through [flb_input_chunk_destroy], with [del] set. *)
Definition gone (m m' : gmap nat flb_input_chunk) : list nat := filter (λ c, m' !! c = None) (map_to_list m).*1.

Definition deliver {A} (m : M (delivery S) A) : M (core S) A := λ s,
  match m (c_d s) with
  | None => None
  | Some (a, d') =>
      sp' ← foldl (λ sp c, sp ≫= destroy_chunk (d_chunks (c_d s)) c) (Some (c_sp s))
              (gone (d_chunks (c_d s)) (d_chunks d'));
      Some (a, mk_core d' sp')
  end.

Definition on_space (f : space → option space) : M (core S) unit := λ s,
  match f (c_sp s) with Some sp => Some (tt, mk_core (c_d s) sp) | None => None end.

Definition info_at (c : nat) : M (core S) chunk_info := λ s,
  match sp_info (c_sp s) !! c with Some ci => Some (ci, s) | None => None end.
Definition store_info (c : nat) (ci : chunk_info) : M (core S) unit :=
  on_space (λ sp, Some (set_sp_info (<[c := ci]> (sp_info sp)) sp)).
Definition fs_at (o : nat) : M (core S) Z := λ s,
  match sp_fs (c_sp s) !! o with Some v => Some (v, s) | None => None end.

Definition real_size (c : nat) : M (core S) Z :=
  ck ← deliver (chunk_at c); ci ← info_at c; mret (flb_input_chunk_get_real_size ck ci).
Definition mask_bit_of (c : nat) (ins : flb_output_instance) : M (core S) Z :=
  ck ← deliver (chunk_at c); deref (mask_get ck ins).
Definition mask_is_empty (c : nat) : M (core S) bool :=
  ck ← deliver (chunk_at c);
  e ← deref (flb_routes_mask_is_empty (default [] (ck_routes_mask ck)) (cf_router cfg));
  mret (negb (e =? 0)).

Definition flb_input_chunk_update_output_instances (c : nat) (chunk_size : Z) : M (core S) unit :=
  ck ← deliver (chunk_at c);
  ci ← info_at c;
  fs ← (λ s, Some (sp_fs (c_sp s), s));
  '(counted, fs') ← deref (charge_outputs ck chunk_size 0 (cf_outputs cfg) fs);
  on_space (λ sp, Some (set_sp_fs fs' sp)) ≫= λ _,
  when counted (store_info c (set_ci_fs_counted true ci)).

(** ** Releasing space *)

Inductive release_scope := RELEASE_SCOPE_LOCAL | RELEASE_SCOPE_GLOBAL.

Definition flb_input_chunk_drop_task_route (task : option nat) (o : nat) : M (delivery S) bool :=
  match task with
  | None => mret true
  | Some t =>
      k ← task_at t;
      if t_users k =? 0 then mret true
      else if flb_task_get_route_status k o =? FLB_TASK_ROUTE_INACTIVE then
        store_task t (flb_task_set_route_status k o FLB_TASK_ROUTE_DROPPED) ≫= λ _, mret true
      else mret false
  end.

(** [flb_input_chunk_is_task_safe_delete] *)
Definition flb_input_chunk_is_task_safe_delete (task : option nat) : M (delivery S) bool :=
  match task with None => mret true | Some t => k ← task_at t; mret (t_users k =? 0) end.

Definition flb_input_chunk_safe_delete (ic old_ic : nat) (ins : flb_output_instance) : M (core S) bool :=
  if decide (ic = old_ic) then mret false
  else bit ← mask_bit_of old_ic ins; mret (negb (bit =? 0)).

(** Destroy a chunk, or the task that holds it and has no users; whether it was. *)
Definition destroy_unused (c : nat) : M (core S) bool :=
  ck ← deliver (chunk_at c);
  match ck_task ck with
  | Some t =>
      k ← deliver (task_at t);
      if t_users k =? 0 then deliver (flb_task_destroy t true) ≫= λ _, mret true else mret false
  | None => deliver (flb_input_chunk_destroy c true) ≫= λ _, mret true
  end.

(** The body of the loop of [flb_input_chunk_release_space]: the space released, or [None] when the
    loop goes on with the next chunk.  Counting of dropped records aside. *)
Definition release_chunk (new_input_chunk o : nat) (ins : flb_output_instance) (scope : release_scope) (old : nat)
    : M (core S) (option Z) :=
  bit ← mask_bit_of old ins;
  if bit =? 0 then mret None
  else
    safe ← flb_input_chunk_safe_delete new_input_chunk old ins;
    if negb safe then mret None
    else
      ck ← deliver (chunk_at old);
      drop ← deliver (flb_input_chunk_drop_task_route (ck_task ck) o);
      if negb drop then mret None
      else
        chunk_size ← real_size old;
        '(chunk_released, chunk_destroy_flag) ←
          (match scope with
           | RELEASE_SCOPE_LOCAL =>
               mask ← deref (flb_routes_mask_clear_bit (default [] (ck_routes_mask ck)) (o_id ins) (cf_router cfg));
               deliver (store_chunk old (set_ck_routes_mask mask ck)) ≫= λ _,
               v ← fs_at o;
               on_space (λ sp, Some (set_sp_fs (<[o := u64 (v - chunk_size)]> (sp_fs sp)) sp)) ≫= λ _,
               e ← mask_is_empty old;
               mret (true, e)
           | RELEASE_SCOPE_GLOBAL => mret (false, true)
           end);
        destroyed ← (if (chunk_destroy_flag : bool) then destroy_unused old else mret false);
        mret (Some (if (chunk_released || destroyed : bool) then chunk_size else 0)).

Fixpoint release_chunks (new_input_chunk o : nat) (ins : flb_output_instance) (scope : release_scope) (l : list nat)
    (released_space required_space : Z) : M (core S) Z :=
  match l with
  | [] => mret released_space
  | old :: l' =>
      r ← release_chunk new_input_chunk o ins scope old;
      match r with
      | None => release_chunks new_input_chunk o ins scope l' released_space required_space
      | Some n =>
          let released_space := released_space + n in
          if required_space <=? released_space then mret released_space
          else release_chunks new_input_chunk o ins scope l' released_space required_space
      end
  end.

(** The space still required afterwards *)
Definition flb_input_chunk_release_space (new_input_chunk : nat) (input : option nat) (o : nat)
    (required_space : Z) (scope : release_scope) : M (core S) Z :=
  i ← deref input;
  ins ← deref (cf_outputs cfg !! o);
  ls ← deliver (gets d_in_chunks);
  l ← deref (ls !! i);
  released_space ← release_chunks new_input_chunk o ins scope l 0 required_space;
  mret (required_space - released_space).

(** The loop over the other inputs *)
Fixpoint release_inputs (new_input_chunk own o : nat) (n : nat) (inputs : list flb_input_instance) (remainder : Z)
    : M (core S) Z :=
  match inputs with
  | [] => mret remainder
  | _ :: inputs' =>
      remainder ← (if decide (n = own) then mret remainder
                   else flb_input_chunk_release_space new_input_chunk (Some n) o remainder RELEASE_SCOPE_LOCAL);
      if remainder <=? 0 then mret remainder
      else release_inputs new_input_chunk own o (Datatypes.S n) inputs' remainder
  end.

(** The result is [*local_release_requirement]; [sb_release_output_queue_space] releases nothing. *)
Definition flb_input_chunk_release_space_compound (new_input_chunk o : nat) (release_local_space : bool) : M (core S) Z :=
  ck ← deliver (chunk_at new_input_chunk);
  remainder ← real_size new_input_chunk;
  remainder ← (if 0 <? remainder then
                 flb_input_chunk_release_space new_input_chunk (sc_storage_input_plugin sc) o remainder RELEASE_SCOPE_GLOBAL
               else mret remainder);
  remainder ← (if release_local_space && (0 <? remainder) then
                 flb_input_chunk_release_space new_input_chunk (Some (ck_in ck)) o remainder RELEASE_SCOPE_LOCAL
               else mret remainder);
  remainder ← (if 0 <? remainder then release_inputs new_input_chunk (ck_in ck) o 0 (cf_inputs cfg) remainder
               else mret remainder);
  mret (if remainder <? 0 then 0 else remainder).

(** [1 << id] of an [int]: undefined from 31 on. *)
Definition shl_1 (id : Z) : option Z := if (0 <=? id) && (id <? 31) then Some (Z.shiftl 1 id) else None.

Fixpoint find_space (ic : nat) (overlimit : Z) (o : nat) (outs : list flb_output_instance) (count : Z) : M (core S) Z :=
  match outs with
  | [] => mret count
  | ins :: outs' =>
      limit ← deref (sc_total_limit_size sc !! o);
      if limit =? -1 then find_space ic overlimit (Datatypes.S o) outs' count
      else
        b ← deref (shl_1 (o_id ins));
        if Z.land b overlimit =? 0 then find_space ic overlimit (Datatypes.S o) outs' count
        else
          bit ← mask_bit_of ic ins;
          if bit =? 0 then find_space ic overlimit (Datatypes.S o) outs' count
          else
            local_release_requirement ← flb_input_chunk_release_space_compound ic o true;
            find_space ic overlimit (Datatypes.S o) outs'
              (if negb (local_release_requirement =? 0) then count + 1 else count)
  end.

(** [chunk_size] is not used. *)
Definition flb_input_chunk_find_space_new_data (ic : nat) (chunk_size overlimit : Z) : M (core S) Z :=
  find_space ic overlimit 0 (cf_outputs cfg) 0.

Fixpoint has_overlimit (ic : nat) (chunk_size : Z) (o : nat) (outs : list flb_output_instance) (overlimit : Z) : M (core S) Z :=
  match outs with
  | [] => mret overlimit
  | ins :: outs' =>
      limit ← deref (sc_total_limit_size sc !! o);
      if limit =? -1 then has_overlimit ic chunk_size (Datatypes.S o) outs' overlimit
      else
        bit ← mask_bit_of ic ins;
        if bit =? 0 then has_overlimit ic chunk_size (Datatypes.S o) outs' overlimit
        else
          fs ← fs_at o;
          backlog ← deref (sc_fs_backlog_chunks_size sc !! o);
          if limit <? u64 (fs + backlog + chunk_size) then
            b ← deref (shl_1 (o_id ins));
            has_overlimit ic chunk_size (Datatypes.S o) outs' (Z.lor overlimit b)
          else has_overlimit ic chunk_size (Datatypes.S o) outs' overlimit
  end.
Definition flb_input_chunk_has_overlimit_routes (ic : nat) (chunk_size : Z) : M (core S) Z :=
  has_overlimit ic chunk_size 0 (cf_outputs cfg) 0.

Definition flb_input_chunk_place_new_chunk (ic : nat) (chunk_size : Z) : M (core S) bool :=
  ck ← deliver (chunk_at ic);
  type ← deref (sc_storage_type sc !! ck_in ck);
  result ← (if type =? FLB_STORAGE_FS then
              overlimit ← flb_input_chunk_has_overlimit_routes ic chunk_size;
              if negb (overlimit =? 0) then flb_input_chunk_find_space_new_data ic chunk_size overlimit else mret 0
            else mret 0);
  if negb (result =? 0) then mret false else e ← mask_is_empty ic; mret (negb e).

(** [memrb_input_chunk_release_space]: the loop, whether it released enough.  The comparison is between
    a [ssize_t] and a [size_t]. *)
Fixpoint memrb_release (l : list nat) (released_space required_space : Z) : M (core S) bool :=
  match l with
  | [] => mret (required_space <=? u64 released_space)
  | c :: l' =>
      ck ← deliver (chunk_at c);
      safe ← deliver (flb_input_chunk_is_task_safe_delete (ck_task ck));
      if negb safe then memrb_release l' released_space required_space
      else
        chunk_size ← real_size c;
        released ← destroy_unused c;
        let released_space := if (released : bool) then released_space + chunk_size else released_space in
        if required_space <=? u64 released_space then mret true
        else memrb_release l' released_space required_space
  end.
Definition memrb_input_chunk_release_space (i : nat) (required_space : Z) : M (core S) bool :=
  ls ← deliver (gets d_in_chunks); l ← deref (ls !! i); memrb_release l 0 required_space.
End operations.
