(* ===== verification/ChunkAccount.v ===== *)
(** * Accounting for the space of chunks

    The invariant [space_ok]: the sizes, the charges and the tables are about the chunks that live, and
    while no write fails [fs_chunks_size] of an output with a limit is the sum of the sizes of the chunks
    routed to it.  Every operation of [ChunkSpace] keeps it, together with the invariant of the core. *)
From S2P Require Import Prelude Env RetryQueue Router RoutesMask Delivery Invariant Task Output Dispatch Engine.
From S2P Require Import ChunkFrame ChunkSpace.

(** ** Sums over finite maps *)

Definition zsum (m : gmap nat Z) : Z := map_fold (λ _, Z.add) 0 m.

Lemma zsum_insert m i x : m !! i = None → zsum (<[i := x]> m) = x + zsum m.
Proof. intros Hi. unfold zsum. apply (map_fold_insert_L (λ _, Z.add)); [intros; lia|done]. Qed.

Lemma zsum_delete m i x : m !! i = Some x → zsum m = x + zsum (delete i m).
Proof. intros Hi. unfold zsum. apply (map_fold_delete_L (λ _, Z.add)); [intros; lia|done]. Qed.

Lemma zsum_update m i x y : m !! i = Some x → zsum (<[i := y]> m) = zsum m - x + y.
Proof.
  intros Hi. rewrite <- insert_delete_eq, zsum_insert by apply lookup_delete_eq.
  rewrite (zsum_delete m i x Hi). lia.
Qed.

Lemma u64_add_l a b : u64 (u64 a + b) = u64 (a + b).
Proof. unfold u64. by rewrite Zplus_mod_idemp_l. Qed.

Section accounting.
Context {S : Type} `{RetryQueue S}.
Context (cfg : flb_config) (sc : storage_config) (r : flb_router).

(** The configuration of storage fits that of the core: [flb_routes_mask_set_size] made room for every
    output, an output with a limit has an id below 31, and there is an input for the storage then. *)
Record storage_ok : Prop := {
  st_router : cf_router cfg = Some r;
  st_router_wf : router_wf r;
  st_slots ins : ins ∈ cf_outputs cfg → in_slots r (o_id ins);
  st_limits : length (sc_total_limit_size sc) = length (cf_outputs cfg);
  st_backlog : length (sc_fs_backlog_chunks_size sc) = length (cf_outputs cfg);
  st_types : length (sc_storage_type sc) = length (cf_inputs cfg);
  st_routable : length (sc_routable sc) = length (cf_inputs cfg);
  st_limited o ins limit : cf_outputs cfg !! o = Some ins → sc_total_limit_size sc !! o = Some limit → limit ≠ -1 →
    0 <= o_id ins < 31 ∧ ∃ i, sc_storage_input_plugin sc = Some i ∧ (i < length (cf_inputs cfg))%nat
}.

(** ** The invariant *)

Definition limited (o : nat) : bool :=
  match sc_total_limit_size sc !! o with Some limit => negb (limit =? -1) | None => false end.

(** The chunk has a route to output [o], which has a limit. *)
Definition routed (ck : flb_input_chunk) (o : nat) : bool :=
  match cf_outputs cfg !! o with
  | Some ins => limited o && match mask_get cfg ck ins with Some b => negb (b =? 0) | None => false end
  | None => false
  end.

(** What a chunk contributes to [fs_chunks_size] of [o] *)
Definition charge (o : nat) (ck : flb_input_chunk) (ci : chunk_info) : Z :=
  if routed ck o && ci_fs_counted ci then flb_input_chunk_get_real_size ck ci else 0.
Definition total (o : nat) (chunks : gmap nat flb_input_chunk) (info : gmap nat chunk_info) : Z :=
  zsum (map_zip_with (charge o) chunks info).

Definition mask_ok (ck : flb_input_chunk) : Prop :=
  ∃ mask, ck_routes_mask ck = Some mask ∧ mask_wf r mask.

(** An entry of the tables is a live chunk with that input, event type and tag; when the charges are right it has
    no stored routes: they come from the backlog, or from logs that were split by record. *)
Definition entry_ok (clean : bool) (chunks : gmap nat flb_input_chunk) (key : nat * Z * list Z) (c : nat) : Prop :=
  ∃ ck, chunks !! c = Some ck ∧ (ck_in ck, ck_event_type ck) = key.1 ∧ ck_tag ck = Some key.2 ∧
    (clean = true → ck_direct ck = None).

(** The charges are right; [new] is the chunk that is being filled, with its size: it may not be counted yet. *)
Record charges_ok (new : option (nat * Z)) (chunks : gmap nat flb_input_chunk) (sp : space) : Prop := {
  ch_counted c ck ci : chunks !! c = Some ck → sp_info sp !! c = Some ci → ci_fs_counted ci = true →
    ck_size ck ≠ 0 ∧ (ck_direct ck = None → sc_routable sc !! ck_in ck = Some true);
  ch_routed c ck ci o : chunks !! c = Some ck → sp_info sp !! c = Some ci → routed ck o = true →
    ci_fs_counted ci = true ∨ new = Some (c, ck_size ck);
  ch_fs o : limited o = true → (o < length (cf_outputs cfg))%nat →
    sp_fs sp !! o = Some (u64 (total o chunks (sp_info sp)))
}.

Definition sizes_ok (ck : flb_input_chunk) (ci : chunk_info) : Prop :=
  0 <= ck_size ck ∧ 0 <= ci_real_size ci ∧ 0 <= ci_meta_size ci.

Record space_ok (clean : bool) (new : option (nat * Z)) (chunks : gmap nat flb_input_chunk) (sp : space) : Prop := {
  so_info c : is_Some (sp_info sp !! c) ↔ is_Some (chunks !! c);
  so_mask c ck : chunks !! c = Some ck → mask_ok ck;
  so_sizes c ck ci : chunks !! c = Some ck → sp_info sp !! c = Some ci → sizes_ok ck ci;
  so_fs : length (sp_fs sp) = length (cf_outputs cfg);
  so_table key c : sp_table sp !! key = Some c → entry_ok clean chunks key c;
  so_reads : sp_reads sp = [];
  so_charges : clean = true → charges_ok new chunks sp
}.

Lemma real_size_pos ck ci : sizes_ok ck ci → ck_size ck ≠ 0 → 0 < flb_input_chunk_get_real_size ck ci.
Proof.
  intros (? & ? & ?) Hne. unfold flb_input_chunk_get_real_size. destruct (Z.eqb_spec (ci_real_size ci) 0); cbn; [|lia].
  destruct (Z.eqb_spec (ck_size ck) 0); [done|lia].
Qed.

(** ** Sums of charges *)

Lemma total_insert o chunks info c ck ci : chunks !! c = None →
  total o (<[c := ck]> chunks) (<[c := ci]> info) = charge o ck ci + total o chunks info.
Proof.
  intros Hc. unfold total. rewrite <- map_insert_zip_with. apply zsum_insert.
  by rewrite map_lookup_zip_with, Hc.
Qed.

Lemma total_delete o chunks info c ck ci : chunks !! c = Some ck → info !! c = Some ci →
  total o (delete c chunks) (delete c info) = total o chunks info - charge o ck ci.
Proof.
  intros Hc Hi. unfold total. rewrite <- map_delete_zip_with.
  rewrite (zsum_delete (map_zip_with (charge o) chunks info) c (charge o ck ci)); [lia|].
  by rewrite map_lookup_zip_with, Hc, Hi.
Qed.

Lemma total_update o chunks info c ck ci ck' ci' : chunks !! c = Some ck → info !! c = Some ci →
  total o (<[c := ck']> chunks) (<[c := ci']> info) = total o chunks info - charge o ck ci + charge o ck' ci'.
Proof.
  intros Hc Hi. unfold total. rewrite <- map_insert_zip_with. apply zsum_update.
  by rewrite map_lookup_zip_with, Hc, Hi.
Qed.

Lemma same_real_size ck ck' ci : same_chunk ck ck' →
  flb_input_chunk_get_real_size ck' ci = flb_input_chunk_get_real_size ck ci.
Proof. intros []. unfold flb_input_chunk_get_real_size. by rewrite sk_size. Qed.

Lemma same_routed ck ck' o : same_chunk ck ck' → routed ck' o = routed ck o.
Proof. intros []. unfold routed, mask_get. by rewrite sk_mask. Qed.

Lemma same_charge o ck ck' ci : same_chunk ck ck' → charge o ck' ci = charge o ck ci.
Proof. intros Hs. unfold charge. by rewrite (same_routed _ _ o Hs), (same_real_size _ _ _ Hs). Qed.

(** ** Charging *)

Context (Hst : storage_ok).

Lemma mask_get_ok ck ins : mask_ok ck → ∃ b, mask_get cfg ck ins = Some b ∧ (b = 0 ∨ b = 1).
Proof.
  intros (mask & Hm & Hwf). unfold mask_get. rewrite Hm, (st_router Hst).
  destruct (get_bit_spec r mask (o_id ins) (st_router_wf Hst) Hwf) as (b & ? & ? & _). exists b. split; [done|tauto].
Qed.

Lemma charge_outputs_spec ck x : mask_ok ck → ∀ outs o fs,
  drop o (cf_outputs cfg) = outs → length fs = length (cf_outputs cfg) →
  ∃ b fs', charge_outputs cfg sc ck x o outs fs = Some (b, fs') ∧ length fs' = length fs ∧
    (∀ o', fs' !! o' = if bool_decide (o <= o')%nat && routed ck o' then (λ v, u64 (v + x)) <$> fs !! o' else fs !! o') ∧
    (b = true ↔ ∃ o', (o <= o')%nat ∧ routed ck o' = true).
Proof.
  intros Hm. induction outs as [|ins outs IH]; intros o fs Hdrop Hlen.
  { exists false, fs. split_and!; [done|done| |].
    - intros o'. case_bool_decide; [|done]. cbn. unfold routed.
      assert (cf_outputs cfg !! o' = None) as ->; [|done].
      apply lookup_ge_None. apply (f_equal length) in Hdrop. rewrite length_drop in Hdrop. cbn in Hdrop. lia.
    - split; [done|]. intros (o' & Ho & Hr'). unfold routed in Hr'.
      assert (cf_outputs cfg !! o' = None) as Hno; [|by rewrite Hno in Hr'].
      apply lookup_ge_None. apply (f_equal length) in Hdrop. rewrite length_drop in Hdrop. cbn in Hdrop. lia. }
  assert (Hins : cf_outputs cfg !! o = Some ins).
  { rewrite <- (Nat.add_0_r o), <- lookup_drop, Hdrop. done. }
  assert (Hdrop' : drop (Datatypes.S o) (cf_outputs cfg) = outs).
  { rewrite <- Nat.add_1_r, <- drop_drop, Hdrop. by rewrite skipn_cons, drop_0. }
  assert (Hlt : (o < length (cf_outputs cfg))%nat) by by eapply lookup_lt_Some.
  destruct (lookup_lt_is_Some_2 (sc_total_limit_size sc) o) as [limit Hlim]; [by rewrite (st_limits Hst)|].
  destruct (mask_get_ok ck ins Hm) as (bit & Hbit & _).
  assert (Hskip : routed ck o = false →
    ∃ b fs', charge_outputs cfg sc ck x (Datatypes.S o) outs fs = Some (b, fs') ∧ length fs' = length fs ∧
    (∀ o', fs' !! o' = if bool_decide (o <= o')%nat && routed ck o' then (λ v, u64 (v + x)) <$> fs !! o' else fs !! o') ∧
    (b = true ↔ ∃ o', (o <= o')%nat ∧ routed ck o' = true)).
  { intros Hr'. destruct (IH (Datatypes.S o) fs Hdrop' Hlen) as (b & fs' & Hrun & Hl & Hfs & Hb).
    exists b, fs'. split_and!; [done|done| |].
    - intros o'. rewrite Hfs. destruct (decide (o = o')) as [<-|Hne]; [by rewrite Hr', !andb_false_r|].
      rewrite (bool_decide_ext (Datatypes.S o <= o')%nat (o <= o')%nat); [done|lia].
    - rewrite Hb. split; intros (o' & ? & ?); exists o'; (split; [|done]); [lia|].
      destruct (decide (o = o')) as [<-|]; [congruence|lia]. }
  cbn [charge_outputs]. rewrite Hlim. cbn [mbind option_bind].
  assert (Hrt : routed ck o = negb (limit =? -1) && negb (bit =? 0)).
  { unfold routed, limited. by rewrite Hins, Hlim, Hbit. }
  destruct (limit =? -1); [by apply Hskip|]. rewrite Hbit. cbn [mbind option_bind].
  destruct (bit =? 0); [by apply Hskip|]. cbn in Hrt. clear Hskip.
  destruct (lookup_lt_is_Some_2 fs o) as [v Hv]; [by rewrite Hlen|]. rewrite Hv. cbn [mbind option_bind].
  destruct (IH (Datatypes.S o) (<[o := u64 (v + x)]> fs) Hdrop') as (b & fs' & -> & Hl & Hfs & _); [by rewrite length_insert|].
  exists true, fs'. split_and!; [done|by rewrite Hl, length_insert| |].
  - intros o'. rewrite Hfs. destruct (decide (o = o')) as [<-|Hne].
    + rewrite bool_decide_false by lia. rewrite bool_decide_true, Hrt by lia. cbn.
      by rewrite list_lookup_insert_eq, Hv by (rewrite Hlen; done).
    + rewrite !list_lookup_insert_ne by done.
      rewrite (bool_decide_ext (Datatypes.S o <= o')%nat (o <= o')%nat); [done|lia].
  - split; [|done]. intros _. exists o. split; [lia|done].
Qed.

Lemma charge_all_spec ck x fs : mask_ok ck → length fs = length (cf_outputs cfg) →
  ∃ b fs', charge_outputs cfg sc ck x 0 (cf_outputs cfg) fs = Some (b, fs') ∧ length fs' = length fs ∧
    (∀ o, fs' !! o = if routed ck o then (λ v, u64 (v + x)) <$> fs !! o else fs !! o) ∧
    (b = true ↔ ∃ o, routed ck o = true).
Proof.
  intros Hm Hlen. destruct (charge_outputs_spec ck x Hm (cf_outputs cfg) 0 fs) as (b & fs' & ? & ? & Hfs & Hb); [done|done|].
  exists b, fs'. split_and!; [done|done| |].
  - intros o. rewrite Hfs. by rewrite bool_decide_true by lia.
  - rewrite Hb. split; intros (o & Ho); [naive_solver|]. exists o. split; [lia|done].
Qed.
(** ** Forgetting a chunk *)

Lemma entry_key clean chunks key c ck : entry_ok clean chunks key c → chunks !! c = Some ck →
  ck_tag ck = Some key.2 ∧ key = (ck_in ck, ck_event_type ck, key.2).
Proof. destruct key as [[i ty] tag]. intros (ck' & -> & Hp & Ht & _) [= <-]. cbn in *. by injection Hp as -> ->. Qed.

Lemma table_del_lookup (clean : bool) (chunks : gmap nat flb_input_chunk) (table : gmap (nat * Z * list Z) nat) ck c key c' :
  (∀ k a, table !! k = Some a → entry_ok clean chunks k a) → chunks !! c = Some ck →
  table_del_ptr ck c table !! key = Some c' → table !! key = Some c' ∧ c' ≠ c.
Proof.
  intros Htab Hc. unfold table_del_ptr.
  assert (Hkey : ∀ key, table !! key = Some c → ck_tag ck = Some key.2 ∧ key = (ck_in ck, ck_event_type ck, key.2)).
  { intros k Hk. by eapply entry_key; [apply Htab|]. }
  destruct (ck_tag ck) as [tag|].
  - case_decide as Hd.
    + intros [Hne Hk]%lookup_delete_Some. split; [done|]. intros ->. destruct (Hkey _ Hk) as [[= ->] ?]. congruence.
    + intros Hk. split; [done|]. intros ->. destruct (Hkey _ Hk) as [[= ->] Heq]. congruence.
  - intros Hk. split; [done|]. intros ->. by destruct (Hkey _ Hk).
Qed.

Lemma entry_delete clean chunks key c c' : entry_ok clean chunks key c' → c' ≠ c → entry_ok clean (delete c chunks) key c'.
Proof. intros (ck & Hck & ?) Hne. exists ck. by rewrite lookup_delete_ne. Qed.

Lemma forget_spec clean new chunks cur c ck sp :
  cur !! c = Some ck → chunks !! c = Some ck → space_ok clean new cur sp →
  ∃ sp', forget_chunk cfg sc true chunks c sp = Some sp' ∧ space_ok clean new (delete c cur) sp' ∧
    sp_info sp' = delete c (sp_info sp).
Proof.
  intros Hcur Hc [Hinfo Hmask Hsz Hlen Htab Hreads Hch]. unfold forget_chunk, discharge.
  destruct (proj2 (Hinfo c) ltac:(eauto)) as [ci Hci]. rewrite Hc, Hci. cbn [mbind option_bind].
  set (bytes := flb_input_chunk_get_real_size ck ci).
  destruct (charge_all_spec ck (if (bytes =? -1) || negb (ci_fs_counted ci) then 0 else - bytes) (sp_fs sp) (Hmask c ck Hcur) Hlen)
    as (b & fs & -> & Hl & Hfs & _). cbn [mbind option_bind].
  eexists. split; [done|]. split; [|done]. constructor; cbn.
  - intros c'. destruct (decide (c = c')) as [<-|]; [by rewrite !lookup_delete_eq|by rewrite !lookup_delete_ne].
  - intros c' ck' [_ ?]%lookup_delete_Some. by apply (Hmask c').
  - intros c' ck' ci' [_ ?]%lookup_delete_Some [_ ?]%lookup_delete_Some. by apply (Hsz c').
  - by rewrite Hl.
  - intros key c' Hk. destruct (table_del_lookup _ cur _ _ _ _ _ Htab Hcur Hk) as [? ?].
    apply entry_delete; [by apply Htab|done].
  - done.
  - intros Hcl. destruct (Hch Hcl) as [Hcnt Hrt Hsum]. constructor; cbn.
    + intros c' ck' ci' [_ ?]%lookup_delete_Some [_ ?]%lookup_delete_Some. by apply (Hcnt c').
    + intros c' ck' ci' o [_ ?]%lookup_delete_Some [_ ?]%lookup_delete_Some. by apply (Hrt c').
    + intros o Ho Hlt. rewrite Hfs, (Hsum o Ho Hlt), (total_delete o cur _ c ck ci Hcur Hci). unfold charge.
      assert (Hpos : ci_fs_counted ci = true → 0 < bytes).
      { intros Hct. apply real_size_pos; [by apply (Hsz c)|by apply (Hcnt c ck ci)]. }
      fold bytes.
      destruct (routed ck o); cbn; [|by rewrite Z.sub_0_r]. rewrite u64_add_l.
      destruct (ci_fs_counted ci); cbn; [|by rewrite orb_true_r, Z.sub_0_r, Z.add_0_r].
      specialize (Hpos eq_refl). by destruct (Z.eqb_spec bytes (-1)); [lia|].
Qed.

(** Chunks that stay the same, perhaps locked or held by another task *)
Lemma space_ok_same clean new m m' sp :
  (∀ c, option_Forall2 same_chunk (m !! c) (m' !! c)) → space_ok clean new m sp → space_ok clean new m' sp.
Proof.
  intros Hm [Hinfo Hmask Hsz Hlen Htab Hreads Hch].
  assert (Hfw : ∀ c ck, m !! c = Some ck → ∃ ck', m' !! c = Some ck' ∧ same_chunk ck ck').
  { intros c ck Hc. specialize (Hm c). rewrite Hc in Hm. inversion Hm; eauto. }
  assert (Hbw : ∀ c ck', m' !! c = Some ck' → ∃ ck, m !! c = Some ck ∧ same_chunk ck ck').
  { intros c ck Hc. specialize (Hm c). rewrite Hc in Hm. inversion Hm; eauto. }
  constructor; try done.
  - intros c. rewrite Hinfo. split; intros [ck Hck]; [by destruct (Hfw c ck Hck) as (? & -> & _)|].
    by destruct (Hbw c ck Hck) as (? & -> & _).
  - intros c ck' Hc. destruct (Hbw c ck' Hc) as (ck & Hck & Hs). destruct (Hmask c ck Hck) as (mask & ? & ?).
    exists mask. by rewrite (sk_mask _ _ Hs).
  - intros c ck' ci Hc Hci. destruct (Hbw c ck' Hc) as (ck & Hck & []). unfold sizes_ok. rewrite sk_size. by apply (Hsz c).
  - intros key c Hk. destruct (Htab key c Hk) as (ck & Hck & Hkey & Htag & Hdir). destruct (Hfw c ck Hck) as (ck' & ? & []).
    exists ck'. split_and!; [done|by rewrite sk_in, sk_event_type|congruence|]. rewrite sk_direct. exact Hdir.
  - intros Hcl. destruct (Hch Hcl) as [Hcnt Hrt Hsum]. constructor.
    + intros c ck' ci Hc Hci. destruct (Hbw c ck' Hc) as (ck & Hck & Hs). rewrite (sk_size _ _ Hs), (sk_direct _ _ Hs), (sk_in _ _ Hs).
      by apply (Hcnt c).
    + intros c ck' ci o Hc Hci. destruct (Hbw c ck' Hc) as (ck & Hck & Hs). rewrite (same_routed _ _ o Hs), (sk_size _ _ Hs).
      by apply (Hrt c).
    + intros o Ho Hlt. rewrite (Hsum o Ho Hlt). do 2 f_equal. unfold total. f_equal. apply map_eq. intros c.
      rewrite !map_lookup_zip_with. specialize (Hm c). destruct Hm as [ck ck' Hs|]; cbn; [|done].
      destruct (sp_info sp !! c); cbn; [|done]. by rewrite (same_charge o _ _ _ Hs).
Qed.

(** ** Calls of the core *)

Lemma elem_of_gone m m' c : c ∈ gone m m' ↔ is_Some (m !! c) ∧ m' !! c = None.
Proof.
  unfold gone. rewrite list_elem_of_filter, list_elem_of_fmap. split.
  - intros (? & [c' ck] & -> & Hin%elem_of_map_to_list). cbn in *. eauto.
  - intros [[ck Hc] ?]. split; [done|]. exists (c, ck). split; [done|]. by apply elem_of_map_to_list.
Qed.

Lemma gone_nodup m m' : NoDup (gone m m').
Proof. apply NoDup_filter, NoDup_fst_map_to_list. Qed.

Lemma gone_nil m m' : (∀ c, is_Some (m !! c) → is_Some (m' !! c)) → gone m m' = [].
Proof.
  intros Hm. destruct (gone m m') as [|c l] eqn:Hg; [done|].
  assert (Hin : c ∈ gone m m') by (rewrite Hg; by left). apply elem_of_gone in Hin as [[? Hn]%Hm Hno]. congruence.
Qed.

Lemma forget_all_spec clean new chunks : ∀ l cur sp, NoDup l →
  (∀ c, c ∈ l → is_Some (cur !! c) ∧ cur !! c = chunks !! c) → space_ok clean new cur sp →
  ∃ sp', foldl (λ sp c, sp ≫= destroy_chunk cfg sc chunks c) (Some sp) l = Some sp' ∧
    space_ok clean new (foldr delete cur (reverse l)) sp' ∧ ∀ c, c ∉ l → sp_info sp' !! c = sp_info sp !! c.
Proof.
  induction l as [|c l IH]; intros cur sp Hnd Hl Hok; [by exists sp|].
  apply NoDup_cons in Hnd as [Hni Hnd]. destruct (Hl c) as [[ck Hcur] Heq]; [by left|]. rewrite Hcur in Heq.
  cbn [foldl]. cbn [mbind option_bind]. unfold destroy_chunk at 2. rewrite (so_reads _ _ _ _ Hok).
  destruct (forget_spec clean new chunks cur c ck sp Hcur (eq_sym Heq) Hok) as (sp1 & -> & Hok1 & Hi1).
  destruct (IH (delete c cur) sp1 Hnd) as (sp' & Hrun & Hok' & Hi'); [|done|].
  { intros c' Hin. assert (c' ≠ c) by (intros ->; done). rewrite lookup_delete_ne by done. apply Hl. by right. }
  exists sp'. split; [done|]. split; [by rewrite reverse_cons, foldr_app|].
  intros c' [Hne Hn]%not_elem_of_cons. by rewrite Hi', Hi1, lookup_delete_ne.
Qed.

Lemma deliver_spec {A} (m : M (delivery S) A) clean new d sp a d' :
  m d = Some (a, d') → chunks_le (d_chunks d) (d_chunks d') → space_ok clean new (d_chunks d) sp →
  ∃ sp', deliver cfg sc m (mk_core d sp) = Some (a, mk_core d' sp') ∧ space_ok clean new (d_chunks d') sp' ∧
    ∀ c, is_Some (d_chunks d' !! c) → sp_info sp' !! c = sp_info sp !! c.
Proof.
  intros Hm Hle Hok. unfold deliver. cbn [c_d c_sp]. rewrite Hm. set (l := gone (d_chunks d) (d_chunks d')).
  destruct (forget_all_spec clean new (d_chunks d) l (d_chunks d) sp) as (sp' & -> & Hok' & Hi'); [apply gone_nodup| |done|].
  { intros c [? _]%elem_of_gone. done. }
  exists sp'. split; [done|]. split.
  2: { intros c Hc. apply Hi'. intros [_ Hn]%elem_of_gone. rewrite Hn in Hc. by destruct Hc. }
  eapply space_ok_same; [|exact Hok']. intros c.
  destruct (decide (c ∈ reverse l)) as [Hin|Hni].
  - rewrite lookup_foldr_delete by done. apply list_elem_of_In in Hin. rewrite <- list_elem_of_In in Hin.
    apply elem_of_reverse, elem_of_gone in Hin as [_ ->]. constructor.
  - rewrite lookup_foldr_delete_not_elem_of by done. rewrite elem_of_reverse in Hni.
    destruct (d_chunks d' !! c) as [ck'|] eqn:Hc'.
    + destruct (Hle c ck' Hc') as (ck & -> & ?). by constructor.
    + destruct (d_chunks d !! c) eqn:Hc; [|by constructor]. destruct Hni. apply elem_of_gone. by rewrite Hc.
Qed.

(** Calls that take no chunk away *)
Lemma deliver_run {A} (m : M (delivery S) A) d sp a d' :
  m d = Some (a, d') → (∀ c, is_Some (d_chunks d !! c) → is_Some (d_chunks d' !! c)) →
  deliver cfg sc m (mk_core d sp) = Some (a, mk_core d' sp).
Proof. intros Hm Hd. unfold deliver. cbn [c_d c_sp]. by rewrite Hm, gone_nil. Qed.

(** ** Chunks that are filled *)

Lemma space_ok_weaken clean new chunks sp : space_ok clean None chunks sp → space_ok clean new chunks sp.
Proof.
  intros [? ? ? ? ? ? Hch]. constructor; try done. intros Hcl. destruct (Hch Hcl) as [? Hrt ?]. constructor; try done.
  intros c ck ci o Hc Hci Hr. by destruct (Hrt c ck ci o Hc Hci Hr); [left|].
Qed.

Lemma space_ok_unclean clean new new' chunks sp : space_ok clean new chunks sp → space_ok false new' chunks sp.
Proof.
  intros [? ? ? ? Htab ? _]. constructor; try done. intros key c Hk. destruct (Htab key c Hk) as (ck & ? & ? & ? & _). by exists ck.
Qed.

(** The chunk that is filled is gone, or is known to be counted. *)
Lemma space_ok_settle clean c z chunks sp : space_ok clean (Some (c, z)) chunks sp →
  (clean = true → ∀ ck o, chunks !! c = Some ck → routed ck o = true → ck_size ck ≠ z) → space_ok clean None chunks sp.
Proof.
  intros [? ? ? ? ? ? Hch] Hz. constructor; try done. intros Hcl. destruct (Hch Hcl) as [? Hrt ?]. constructor; try done.
  intros c' ck ci o Hc Hci Hr. destruct (Hrt c' ck ci o Hc Hci Hr) as [|[= <- Heq]]; [by left|].
  by destruct (Hz Hcl ck o Hc Hr).
Qed.

Lemma space_ok_add clean chunks sp c ck ci : chunks !! c = None → mask_ok ck → sizes_ok ck ci → ci_fs_counted ci = false →
  space_ok clean None chunks sp →
  space_ok clean (Some (c, ck_size ck)) (<[c := ck]> chunks) (set_sp_info (<[c := ci]> (sp_info sp)) sp).
Proof.
  intros Hc Hm Hs Hnc [Hinfo Hmask Hsz Hlen Htab Hreads Hch].
  constructor; cbn; try done.
  - intros c'. destruct (decide (c = c')) as [<-|]; [|by rewrite !lookup_insert_ne].
    rewrite !lookup_insert_eq. split; intros _; by eexists.
  - intros c' ck'. destruct (decide (c = c')) as [<-|]; [rewrite lookup_insert_eq; by intros [= <-]|].
    rewrite lookup_insert_ne by done. apply Hmask.
  - intros c' ck' ci'. destruct (decide (c = c')) as [<-|]; [rewrite !lookup_insert_eq; by intros [= <-] [= <-]|].
    rewrite !lookup_insert_ne by done. apply Hsz.
  - intros key c' Hk. destruct (Htab key c' Hk) as (ck' & Hck' & ?). exists ck'. rewrite lookup_insert_ne; [done|]. intros ->. congruence.
  - intros Hcl. destruct (Hch Hcl) as [Hcnt Hrt Hsum]. constructor; cbn.
    + intros c' ck' ci'. destruct (decide (c = c')) as [<-|]; [rewrite !lookup_insert_eq; intros [= <-] [= <-]; congruence|].
      rewrite !lookup_insert_ne by done. apply Hcnt.
    + intros c' ck' ci' o. destruct (decide (c = c')) as [<-|].
      * rewrite !lookup_insert_eq. intros [= <-] [= <-] _. by right.
      * rewrite !lookup_insert_ne by done. intros Hck' Hci' Hr'. by destruct (Hrt c' ck' ci' o Hck' Hci' Hr'); [left|].
    + intros o Ho Hlt. rewrite (total_insert o _ _ c ck ci Hc). unfold charge. rewrite Hnc, andb_false_r. by apply Hsum.
Qed.

(** Another content, and the charges follow by the difference. *)
Record recharge (ck : flb_input_chunk) (pre size' : Z) (fs fs' : list Z) : Prop := {
  re_len : length fs' = length fs;
  re_fs o t : fs !! o = Some (u64 t) → fs' !! o = Some (if routed ck o then u64 (t + (size' - pre)) else u64 t)
}.

(** A chunk gets another content or mask: what is left to show is about the charges. *)
Record refilled (clean : bool) (ck ck' : flb_input_chunk) : Prop := {
  rf_in : ck_in ck' = ck_in ck;
  rf_event_type : ck_event_type ck' = ck_event_type ck;
  rf_direct : clean = true → ck_direct ck' = ck_direct ck;
  rf_tag : ck_tag ck' = ck_tag ck
}.

Lemma insert_cases {A} (m : gmap nat A) c x c' y : <[c := x]> m !! c' = Some y → (c' = c ∧ y = x) ∨ (c' ≠ c ∧ m !! c' = Some y).
Proof.
  destruct (decide (c = c')) as [<-|]; [rewrite lookup_insert_eq; intros [= <-]; by left|].
  rewrite lookup_insert_ne by done. by right.
Qed.

Lemma space_ok_replace clean new new' chunks sp c ck ck' ci' fs' :
  chunks !! c = Some ck → refilled clean ck ck' → mask_ok ck' → sizes_ok ck' ci' → length fs' = length (sp_fs sp) →
  let sp' := mk_space (<[c := ci']> (sp_info sp)) fs' (sp_table sp) (sp_reads sp) in
  (clean = true → charges_ok new chunks sp → charges_ok new' (<[c := ck']> chunks) sp') →
  space_ok clean new chunks sp → space_ok clean new' (<[c := ck']> chunks) sp'.
Proof.
  intros Hc [Hin Hty Hdir Htag] Hm Hs Hl sp' Hch' [Hinfo Hmask Hsz Hlen Htab Hreads Hch]. constructor; cbn; try done.
  - intros c'. destruct (decide (c = c')) as [<-|]; [|by rewrite !lookup_insert_ne].
    rewrite !lookup_insert_eq. split; intros _; by eexists.
  - intros c' ck0 [[-> ->]|[_ Hck0]]%insert_cases; [done|by apply (Hmask c')].
  - intros c' ck0 ci0 [[-> ->]|[Hne Hck0]]%insert_cases [[? ->]|[? Hci0]]%insert_cases; [done..|].
    by apply (Hsz c').
  - by rewrite Hl.
  - intros key c' Hk. destruct (Htab key c' Hk) as (ck0 & Hck0 & Hkey & Htag' & Hdir'). destruct (decide (c = c')) as [<-|Hcc].
    + rewrite Hc in Hck0. injection Hck0 as <-. exists ck'. rewrite lookup_insert_eq. split_and!; [done|congruence|congruence|]. intros Hcl. rewrite Hdir by done. by apply Hdir'.
    + exists ck0. by rewrite lookup_insert_ne.
  - intros Hcl. by apply Hch'; [|apply Hch].
Qed.

Lemma space_ok_charge clean c z chunks sp ck ci ck' ci' pre fs' :
  chunks !! c = Some ck → sp_info sp !! c = Some ci → refilled clean ck ck' → ck_routes_mask ck' = ck_routes_mask ck →
  ck_size ck' ≠ 0 → sizes_ok ck' ci' →
  (ci_fs_counted ci' = true → ck_direct ck = None → sc_routable sc !! ck_in ck = Some true) →
  (clean = true → ∀ o, routed ck o = true → ci_fs_counted ci' = true ∧ charge o ck ci = pre) →
  recharge ck pre (flb_input_chunk_get_real_size ck' ci') (sp_fs sp) fs' →
  space_ok clean (Some (c, z)) chunks sp →
  space_ok clean None (<[c := ck']> chunks) (mk_space (<[c := ci']> (sp_info sp)) fs' (sp_table sp) (sp_reads sp)).
Proof.
  intros Hc Hci Hrf Hmk Hne Hs Hrb Hpre [Hfl Hfs] Hok.
  assert (Hrt' : ∀ o, routed ck' o = routed ck o) by (intros o; unfold routed, mask_get; by rewrite Hmk).
  eapply space_ok_replace; [done|done| |done|done| |exact Hok].
  { unfold mask_ok. rewrite Hmk. by apply (so_mask _ _ _ _ Hok c). }
  intros Hcl [Hcnt Hrt Hsum]. constructor; cbn.
  - intros c' ck0 ci0 [[-> ->]|[Hcc Hck0]]%insert_cases [[? ->]|[? Hci0]]%insert_cases Hct; try done.
    + split; [done|]. rewrite (rf_direct _ _ _ Hrf Hcl), (rf_in _ _ _ Hrf). by apply Hrb.
    + by apply (Hcnt c' ck0 ci0).
  - intros c' ck0 ci0 o [[-> ->]|[Hcc Hck0]]%insert_cases [[? ->]|[? Hci0]]%insert_cases Hr; try done; left.
    + rewrite Hrt' in Hr. by apply (Hpre Hcl o).
    + by destruct (Hrt c' ck0 ci0 o Hck0 Hci0 Hr) as [|[= ? _]].
  - intros o Ho Hlt. rewrite (Hfs o _ (Hsum o Ho Hlt)), (total_update o _ _ c ck ci _ _ Hc Hci).
    assert (Hnew : charge o ck' ci' = if routed ck o && ci_fs_counted ci' then flb_input_chunk_get_real_size ck' ci' else 0)
      by (unfold charge; by rewrite Hrt'). rewrite Hnew. destruct (routed ck o) eqn:Hr; cbn.
    + destruct (Hpre Hcl o Hr) as [-> ->]. do 2 f_equal. lia.
    + assert (Hold : charge o ck ci = 0) by (unfold charge; by rewrite Hr). rewrite Hold. do 2 f_equal. lia.
Qed.

(** A chunk that is not counted may have any content. *)
Lemma space_ok_refill clean c z chunks sp ck ci ck' ci' :
  chunks !! c = Some ck → sp_info sp !! c = Some ci → refilled clean ck ck' → ck_routes_mask ck' = ck_routes_mask ck →
  sizes_ok ck' ci' → ci_fs_counted ci' = ci_fs_counted ci → (clean = true → ci_fs_counted ci = false) →
  space_ok clean (Some (c, z)) chunks sp →
  space_ok clean (Some (c, ck_size ck')) (<[c := ck']> chunks)
    (mk_space (<[c := ci']> (sp_info sp)) (sp_fs sp) (sp_table sp) (sp_reads sp)).
Proof.
  intros Hc Hci Hrf Hmk Hs Hsc Hnc Hok. eapply space_ok_replace; [done|done| |done|done| |exact Hok].
  { unfold mask_ok. rewrite Hmk. by apply (so_mask _ _ _ _ Hok c). }
  intros Hcl [Hcnt Hrt Hsum]. specialize (Hnc Hcl). rewrite Hnc in Hsc. constructor; cbn.
  - intros c' ck0 ci0 [[-> ->]|[Hcc Hck0]]%insert_cases [[? ->]|[? Hci0]]%insert_cases Hct; try done; [congruence|].
    by apply (Hcnt c' ck0 ci0).
  - intros c' ck0 ci0 o [[-> ->]|[Hcc Hck0]]%insert_cases [[? ->]|[? Hci0]]%insert_cases Hr; try done; [by right|left].
    by destruct (Hrt c' ck0 ci0 o Hck0 Hci0 Hr) as [|[= ? _]].
  - intros o Ho Hlt. rewrite (total_update o _ _ c ck ci _ _ Hc Hci), (Hsum o Ho Hlt).
    assert (Hz : ∀ k i, ci_fs_counted i = false → charge o k i = 0) by (intros k i Hi; unfold charge; by rewrite Hi, andb_false_r).
    rewrite !Hz by done. do 2 f_equal. lia.
Qed.

(** What [flb_input_chunk_update_output_instances] computes *)
Lemma recharge_run ck pre size' fs : mask_ok ck → length fs = length (cf_outputs cfg) →
  ∃ b fs', charge_outputs cfg sc ck (size' - pre) 0 (cf_outputs cfg) fs = Some (b, fs') ∧ recharge ck pre size' fs fs' ∧
    (b = true ↔ ∃ o, routed ck o = true).
Proof.
  intros Hm Hlen. destruct (charge_all_spec ck (size' - pre) fs Hm Hlen) as (b & fs' & ? & ? & Hfs & ?).
  exists b, fs'. split_and!; try done. constructor; [done|]. intros o t Ho. rewrite Hfs, Ho. destruct (routed ck o); [|done].
  cbn. by rewrite u64_add_l.
Qed.

Lemma recharge_none ck pre fs : recharge ck pre pre fs fs.
Proof. constructor; [done|]. intros o t ->. rewrite Z.sub_diag, Z.add_0_r. by destruct (routed ck o). Qed.
End accounting.
