(* ===== verification/ChunkRelease.v ===== *)
(** * Making room for new data: the operations of [ChunkSpace] keep the invariants

    [core_ok] joins the invariant of the delivery core and that of the space of chunks.  There is a lemma
    per operation, that it [runs] with a postcondition ([Heap]). *)
From S2P Require Import Prelude CStd Env Heap RetryQueue Router RoutesMask Delivery Invariant Task Output Dispatch Engine.
From S2P Require Import ChunkFrame ChunkSpace ChunkAccount.

Section release.
Context {S : Type} `{RetryQueue S}.
Context (cfg : flb_config) (sc : storage_config) (r : flb_router).
Context (Hcfg : config_ok cfg) (Hst : storage_ok cfg sc r).
Abbreviation space_ok := (space_ok cfg sc r).
Abbreviation deliver := (deliver cfg sc).

Record core_ok (clean : bool) (new : option (nat * Z)) (L : list (nat * nat)) (n : Z) (s : core S) : Prop := {
  co_safe : delivery_safe cfg L n (c_d s);
  co_sync : sync_ok cfg (c_d s);
  co_space : space_ok clean new (d_chunks (c_d s)) (c_sp s)
}.

Definition chunks_of (s : core S) : gmap nat flb_input_chunk := d_chunks (c_d s).

(** ** Reading *)

Lemma runs_chunk_at c ck (s : core S) Q : chunks_of s !! c = Some ck → Q ck s → runs (deliver (chunk_at c)) s Q.
Proof.
  intros Hc HQ. exists ck, s. split; [|done]. destruct s as [d sp]. apply deliver_run; [by apply chunk_at_run|done].
Qed.

Lemma runs_task_at t k (s : core S) Q : d_tasks (c_d s) !! t = Some k → Q k s → runs (deliver (task_at t)) s Q.
Proof.
  intros Hc HQ. exists k, s. split; [|done]. destruct s as [d sp]. apply deliver_run; [by apply task_at_run|done].
Qed.

Lemma runs_gets {A} (f : delivery S → A) (s : core S) Q : Q (f (c_d s)) s → runs (deliver (gets f)) s Q.
Proof. intros HQ. eexists _, s. split; [|exact HQ]. destruct s as [d sp]. by apply deliver_run. Qed.

Lemma runs_info_at c ci (s : core S) Q : sp_info (c_sp s) !! c = Some ci → Q ci s → runs (info_at c) s Q.
Proof. intros Hc HQ. exists ci, s. unfold info_at. by rewrite Hc. Qed.

Lemma runs_fs_at o v (s : core S) Q : sp_fs (c_sp s) !! o = Some v → Q v s → runs (fs_at o) s Q.
Proof. intros Hc HQ. exists v, s. unfold fs_at. by rewrite Hc. Qed.

Lemma runs_on_space f sp (s : core S) Q : f (c_sp s) = Some sp → Q tt (mk_core (c_d s) sp) → runs (on_space f) s Q.
Proof. intros Hf HQ. exists tt, (mk_core (c_d s) sp). unfold on_space. by rewrite Hf. Qed.

Lemma runs_store_chunk c ck ck0 (s : core S) Q : chunks_of s !! c = Some ck0 →
  Q tt (mk_core (set_d_chunks (<[c := ck]> (chunks_of s)) (c_d s)) (c_sp s)) → runs (deliver (store_chunk c ck)) s Q.
Proof.
  intros Hc HQ. eexists tt, _. split; [|exact HQ]. destruct s as [d sp]. apply deliver_run; [done|]. cbn.
  intros c'. destruct (decide (c = c')) as [<-|]; [rewrite lookup_insert_eq; by eexists|by rewrite lookup_insert_ne].
Qed.

Lemma core_info clean new L n s c ck : core_ok clean new L n s → chunks_of s !! c = Some ck →
  ∃ ci, sp_info (c_sp s) !! c = Some ci ∧ sizes_ok ck ci ∧ mask_ok r ck.
Proof.
  intros [_ _ Hok] Hc. destruct (proj2 (so_info _ _ _ _ _ _ _ Hok c) ltac:(eauto)) as [ci Hci].
  exists ci. split_and!; [done|by eapply so_sizes|by eapply so_mask].
Qed.

Lemma core_task clean new L n s c ck t : core_ok clean new L n s → chunks_of s !! c = Some ck → ck_task ck = Some t →
  ∃ k, d_tasks (c_d s) !! t = Some k ∧ t_ic k = Some c.
Proof. intros [W _ _] Hc Ht. by apply (wh_chunk _ _ _ (wf_h _ _ _ W) c ck Hc). Qed.

Lemma runs_mask_bit_of clean new L n c ck ins s (Q : Z → core S → Prop) :
  core_ok clean new L n s → chunks_of s !! c = Some ck →
  (∀ b, mask_get cfg ck ins = Some b → Q b s) → runs (mask_bit_of cfg sc c ins) s Q.
Proof.
  intros Hok Hc HQ. destruct (core_info _ _ _ _ _ _ _ Hok Hc) as (_ & _ & _ & Hm). apply runs_bind, (runs_chunk_at c ck); [done|].
  destruct (mask_get_ok cfg sc r Hst ck ins Hm) as (b & Hb & _). eapply runs_deref; [done|by apply HQ].
Qed.

Lemma runs_mask_empty ck c s (Q : bool → core S → Prop) :
  mask_ok r ck → chunks_of s !! c = Some ck →
  (∀ b : bool, (b = true ↔ ∀ v, ¬ selected (default [] (ck_routes_mask ck)) v) → Q b s) → runs (mask_is_empty cfg sc c) s Q.
Proof.
  intros (mask & Hmask & Hm) Hc HQ. apply runs_bind, (runs_chunk_at c ck); [done|]. rewrite Hmask in HQ |- *. cbn [default] in HQ |- *.
  destruct (is_empty_spec r mask (st_router_wf _ _ _ Hst) Hm) as (e & He & Hiff). rewrite (st_router _ _ _ Hst).
  apply runs_bind. eapply runs_deref; [exact He|]. apply runs_ret, HQ. rewrite negb_true_iff, Z.eqb_neq. exact Hiff.
Qed.
Lemma runs_mask_is_empty ck c s (Q : bool → core S → Prop) :
  mask_ok r ck → chunks_of s !! c = Some ck → (∀ b, Q b s) → runs (mask_is_empty cfg sc c) s Q.
Proof. intros Hm Hc HQ. by eapply runs_mask_empty. Qed.

Lemma runs_real_size clean new L n c ck s (Q : Z → core S → Prop) :
  core_ok clean new L n s → chunks_of s !! c = Some ck →
  (∀ ci, sp_info (c_sp s) !! c = Some ci → Q (flb_input_chunk_get_real_size ck ci) s) → runs (real_size cfg sc c) s Q.
Proof.
  intros Hok Hc HQ. destruct (core_info _ _ _ _ _ _ _ Hok Hc) as (ci & Hci & _). apply runs_bind, (runs_chunk_at c ck); [done|].
  apply runs_bind, (runs_info_at c ci); [done|]. apply runs_ret. by apply HQ.
Qed.

(** ** Calls that keep the chunks *)

(** Chunks that are still there have the size they had. *)
Definition info_kept (s s' : core S) : Prop :=
  ∀ c, is_Some (chunks_of s' !! c) → sp_info (c_sp s') !! c = sp_info (c_sp s) !! c.

Lemma runs_deliver_keep {A} (m : M (delivery S) A) clean new L n L' n' s a d' (Q : A → core S → Prop) :
  core_ok clean new L n s → m (c_d s) = Some (a, d') → Evolves m → Keeps m → delivery_safe cfg L' n' d' →
  (∀ s', c_d s' = d' → core_ok clean new L' n' s' → info_kept s s' → Q a s') → runs (deliver m) s Q.
Proof.
  intros [W Hs Hsp] Hm He Hk W' HQ. destruct s as [d sp].
  destruct (deliver_spec cfg sc r Hst m clean new d sp a d' Hm (Hk d a d' Hm) Hsp) as (sp' & Hrun & Hsp' & Hi).
  exists a, (mk_core d' sp'). split; [done|]. apply HQ; [done| |exact Hi]. constructor; [done| |done]. by eapply sync_ok_run.
Qed.

(** The chunk is held by no task that flushes it to output [o]. *)
Definition may_drop (ck : flb_input_chunk) (o : nat) (s : core S) : bool :=
  match ck_task ck with
  | None => true
  | Some t =>
      match d_tasks (c_d s) !! t with
      | Some k => (t_users k =? 0) || (flb_task_get_route_status k o =? FLB_TASK_ROUTE_INACTIVE)
      | None => false
      end
  end.

(** Only the task that holds the chunk changes. *)
Definition tasks_kept (ck : flb_input_chunk) (s s' : core S) : Prop :=
  ∀ t, ck_task ck ≠ Some t → d_tasks (c_d s') !! t = d_tasks (c_d s) !! t.

Lemma runs_drop_task_route clean new L n s c ck o (Q : bool → core S → Prop) :
  core_ok clean new L n s → chunks_of s !! c = Some ck →
  (∀ s', core_ok clean new L n s' → chunks_of s' = chunks_of s → c_sp s' = c_sp s → tasks_kept ck s s' →
     (may_drop ck o s = false → s' = s) → Q (may_drop ck o s) s') →
  runs (deliver (flb_input_chunk_drop_task_route (ck_task ck) o)) s Q.
Proof.
  intros Hok Hc HQ. unfold may_drop in *.
  assert (Hsame : ∀ b, flb_input_chunk_drop_task_route (ck_task ck) o (c_d s) = Some (b, c_d s) → Q b s →
    runs (deliver (flb_input_chunk_drop_task_route (ck_task ck) o)) s Q).
  { intros b Hrun Hb. exists b, s. split; [|done]. destruct s as [d sp]. by apply deliver_run. }
  unfold flb_input_chunk_drop_task_route in *. destruct (ck_task ck) as [t|] eqn:Ht; [|by apply (Hsame true); [|apply HQ]].
  destruct (core_task _ _ _ _ _ _ _ _ Hok Hc Ht) as (k & Hk & _). rewrite Hk in HQ.
  unfold mbind at 1, M_bind at 1 in Hsame. rewrite (task_at_run t k _ Hk) in Hsame.
  destruct (t_users k =? 0) eqn:Hu; [by apply (Hsame true); [|apply HQ]|]. cbn [orb] in HQ.
  destruct (_ =? FLB_TASK_ROUTE_INACTIVE) eqn:Hi; [|by apply (Hsame false); [|apply HQ]]. clear Hsame.
  set (k' := flb_task_set_route_status k o FLB_TASK_ROUTE_DROPPED). destruct s as [d sp]. cbn [c_d c_sp] in *.
  exists true, (mk_core (set_d_tasks (<[t := k']> (d_tasks d)) d) sp). split.
  { apply deliver_run; [|done]. unfold mbind, M_bind. by rewrite (task_at_run t k d Hk), Hu, Hi. }
  destruct Hok as [W Hs Hsp]. apply HQ; [|done|done| |done].
  - constructor; [|exact Hs|exact Hsp].
    apply (wf_same_outs cfg _ d t k (λ k, flb_task_set_route_status k o FLB_TASK_ROUTE_DROPPED)); [|apply W|done].
    intros k0. unfold flb_task_set_route_status. cbn. repeat (split; [reflexivity|]). by rewrite update_route_outs.
  - intros t' Hne. cbn. rewrite lookup_insert_ne; [done|congruence].
Qed.

(** ** Destroying *)

Lemma chunk_destroy_spec clean new L n s c ck del : core_ok clean new L n s → chunks_of s !! c = Some ck → ck_task ck = None →
  ∃ d', flb_input_chunk_destroy c del (c_d s) = Some (0, d') ∧ delivery_safe cfg L n d' ∧
    d_chunks d' = delete c (chunks_of s) ∧ d_tasks d' = d_tasks (c_d s) ∧ e_sys (env_of d') = e_sys (env_of (c_d s)).
Proof.
  intros [W _ _] Hc Ht. unfold flb_input_chunk_destroy. mrun. rewrite (chunk_at_run c ck) by done. rewrite emit_run.
  eexists. split; [reflexivity|]. split_and!; [|done|done|by cbn; rewrite ?env_of_set].
  unfold delivery_safe. eapply delivery_safe_intro.
  apply (wf_emit cfg _ _ (ChunkDestroy c del)) in W. by apply (wf_drop_chunk cfg _ _ c ck) in W.
Qed.

Lemma runs_chunk_destroy clean new L n s c ck (Q : Z → core S → Prop) :
  core_ok clean new L n s → chunks_of s !! c = Some ck → ck_task ck = None →
  (∀ s', core_ok clean new L n s' → chunks_of s' = delete c (chunks_of s) → info_kept s s' → tasks_kept ck s s' → Q 0 s') →
  runs (deliver (flb_input_chunk_destroy c true)) s Q.
Proof.
  intros Hok Hc Ht HQ. destruct (chunk_destroy_spec _ _ _ _ _ _ _ true Hok Hc Ht) as (d' & Hrun & W' & Hd & Htk & _).
  eapply runs_deliver_keep; [exact Hok|exact Hrun| |apply _|exact W'|].
  - unfold flb_input_chunk_destroy. evolve.
  - intros s' Hd' Hok' Hi'. apply HQ; [done| |done|].
    + unfold chunks_of at 1. by rewrite Hd'.
    + intros t _. by rewrite Hd', Htk.
Qed.

Lemma runs_destroy_unused clean new L n s c ck (Q : bool → core S → Prop) :
  core_ok clean new L n s → chunks_of s !! c = Some ck →
  (∀ b s', core_ok clean new L n s' → chunks_of s' = (if b : bool then delete c (chunks_of s) else chunks_of s) →
     info_kept s s' → tasks_kept ck s s' → Q b s') →
  runs (destroy_unused cfg sc c) s Q.
Proof.
  intros Hok Hc HQ. apply runs_bind, (runs_chunk_at c ck); [done|]. destruct (ck_task ck) as [t|] eqn:Ht.
  2: { apply runs_bind. eapply runs_chunk_destroy; [done|done|done|]. intros s' Hok' Hs' ? ?. apply runs_ret. by apply HQ. }
  destruct (core_task _ _ _ _ _ _ _ _ Hok Hc Ht) as (k & Hk & Hic). apply runs_bind, (runs_task_at t k); [done|].
  destruct (Z.eqb_spec (t_users k) 0) as [Hu|Hu]; [|by apply runs_ret, HQ].
  pose proof (co_safe _ _ _ _ _ Hok) as W. unfold delivery_safe in W.
  destruct (task_destroy_spec cfg Hcfg L [] [] (rqueue_pending (d_rq (c_d s))) n (c_d s) t k true)
    as (d' & P' & Hrun & W' & _ & Hd); [done|done| |].
  { intros o. cbn. apply task_count_zero. rewrite <- Hu. symmetry. by apply (wt_users _ _ _ (wf_t _ _ _ W)). }
  apply runs_bind. eapply runs_deliver_keep; [exact Hok|exact Hrun|apply _|apply _|by eapply delivery_safe_intro|].
  intros s' Hd' Hok' Hi'. apply runs_ret, HQ; [done| |done|].
  - unfold chunks_of at 1. rewrite Hd'. by apply (de_chunks _ _ _ _ Hd).
  - intros t' Hne. rewrite Hd', (de_tasks _ _ _ _ Hd), lookup_delete_ne; [done|congruence].
Qed.

(** ** Dropping a route *)

Lemma clear_mask ck ins o mask' : mask_ok r ck → cf_outputs cfg !! o = Some ins →
  flb_routes_mask_clear_bit (default [] (ck_routes_mask ck)) (o_id ins) (cf_router cfg) = Some mask' →
  let ck' := set_ck_routes_mask mask' ck in
  mask_ok r ck' ∧
  ∀ o' ins', cf_outputs cfg !! o' = Some ins' →
    mask_get cfg ck' ins' = if decide (o' = o) then Some 0 else mask_get cfg ck ins'.
Proof.
  intros (mask & Hmask & Hwf) Ho Hclear ck'. rewrite Hmask, (st_router _ _ _ Hst) in Hclear. cbn [default] in Hclear.
  pose proof (st_router_wf _ _ _ Hst) as Hr.
  assert (Hsl : ∀ o' ins', cf_outputs cfg !! o' = Some ins' → in_slots r (o_id ins')).
  { intros o' ins' Hi. eapply st_slots; [done|]. by eapply list_elem_of_lookup_2. }
  destruct (clear_bit_spec r mask (o_id ins) Hr Hwf (Hsl _ _ Ho)) as (m & Hm & Hwf' & Hsel).
  unfold default, id in Hclear. rewrite Hm in Hclear. injection Hclear as <-.
  split; [by exists m|]. intros o' ins' Ho'. unfold mask_get. rewrite Hmask, (st_router _ _ _ Hst).
  change (default [] (ck_routes_mask ck')) with m. change (default [] (Some mask)) with mask.
  destruct (get_bit_spec r m (o_id ins') Hr Hwf') as (b' & Hb' & Hb01' & Hiff').
  destruct (get_bit_spec r mask (o_id ins') Hr Hwf) as (b & Hb & Hb01 & Hiff).
  rewrite Hb', Hb. rewrite Hsel in Hiff'. case_decide as Hd.
  - subst o'. assert (ins' = ins) as -> by congruence. f_equal. destruct Hb01' as [->|]; [|done]. tauto.
  - assert (Hne : o_id ins ≠ o_id ins') by (intros Heq; apply Hd; by eapply co_id_inj).
    assert (b' = 1 ↔ b = 1) by (rewrite Hiff, Hiff'; tauto). f_equal. lia.
Qed.

Lemma space_ok_clear clean new chunks sp c ck ci ins o v mask' :
  chunks !! c = Some ck → sp_info sp !! c = Some ci → cf_outputs cfg !! o = Some ins →
  flb_routes_mask_clear_bit (default [] (ck_routes_mask ck)) (o_id ins) (cf_router cfg) = Some mask' →
  (∃ b, mask_get cfg ck ins = Some b ∧ b ≠ 0) → (∀ z, new ≠ Some (c, z)) → sp_fs sp !! o = Some v →
  space_ok clean new chunks sp →
  space_ok clean new (<[c := set_ck_routes_mask mask' ck]> chunks)
    (set_sp_fs (<[o := u64 (v - flb_input_chunk_get_real_size ck ci)]> (sp_fs sp)) sp).
Proof.
  intros Hc Hci Ho Hclear (b & Hb & Hb0) Hnew Hv Hok.
  destruct (clear_mask ck ins o mask' (so_mask _ _ _ _ _ _ _ Hok c ck Hc) Ho Hclear) as [Hm' Hget].
  set (ck' := set_ck_routes_mask mask' ck) in *.
  assert (Hrt' : ∀ o', routed cfg sc ck' o' = if decide (o' = o) then false else routed cfg sc ck o').
  { intros o'. unfold routed. destruct (cf_outputs cfg !! o') as [ins'|] eqn:Ho'; [|by case_decide].
    rewrite (Hget o' ins' Ho'). case_decide; [|done]. cbn. by rewrite andb_false_r. }
  pose proof (so_sizes _ _ _ _ _ _ _ Hok c ck ci Hc Hci) as Hsz.
  unfold set_sp_fs. rewrite <- (insert_id (sp_info sp) c ci Hci). eapply space_ok_replace; [done|done|done|done| | |exact Hok].
  - by rewrite length_insert.
  - intros Hcl [Hcnt Hrt Hsum]. rewrite (insert_id (sp_info sp) c ci Hci). constructor; cbn.
    + intros c' ck0 ci0 [[-> ->]|[_ ?]]%insert_cases Hi; [exact (Hcnt c ck ci0 Hc Hi)|by apply (Hcnt c' ck0 ci0)].
    + intros c' ck0 ci0 o' [[-> ->]|[_ Hck0]]%insert_cases Hi Hr'; [|by apply (Hrt c' ck0 ci0 o')].
      rewrite Hrt' in Hr'. case_decide; [done|]. exact (Hrt c ck ci0 o' Hc Hi Hr').
    + intros o' Hlim Hlt. rewrite <- (insert_id (sp_info sp) c ci Hci), (total_update cfg sc o' _ _ c ck ci _ _ Hc Hci).
      unfold charge. rewrite Hrt'. specialize (Hsum o' Hlim Hlt). case_decide as Hd.
      * subst o'. rewrite Hsum in Hv. injection Hv as <-.
        rewrite list_lookup_insert_eq by (apply lookup_lt_Some in Hsum; done).
        assert (Hr' : routed cfg sc ck o = true).
        { unfold routed. rewrite Ho, Hlim, Hb. by destruct (Z.eqb_spec b 0). }
        destruct (Hrt c ck ci o Hc Hci Hr') as [Hcount|Hn]; [|by apply Hnew in Hn]. rewrite Hr', Hcount. cbn.
        rewrite <- Z.add_opp_r, u64_add_l. do 2 f_equal. lia.
      * rewrite list_lookup_insert_ne by done. rewrite Hsum. do 2 f_equal.
        unfold flb_input_chunk_get_real_size. cbn. lia.
Qed.

(** ** Releasing chunks *)

Lemma core_fs clean new L n s o ins : core_ok clean new L n s → cf_outputs cfg !! o = Some ins →
  ∃ v, sp_fs (c_sp s) !! o = Some v.
Proof.
  intros [_ _ Hok] Ho. apply lookup_lt_is_Some. rewrite (so_fs _ _ _ _ _ _ _ Hok). by eapply lookup_lt_Some.
Qed.

Lemma core_ok_chunk clean0 new0 clean new L n d sp sp' c ck ck' : core_ok clean0 new0 L n (mk_core d sp) →
  d_chunks d !! c = Some ck → ck_in ck' = ck_in ck → ck_task ck' = ck_task ck → ck_busy ck' = ck_busy ck →
  ck_direct ck' = ck_direct ck → mask_ok r ck' → space_ok clean new (<[c := ck']> (d_chunks d)) sp' →
  core_ok clean new L n (mk_core (set_d_chunks (<[c := ck']> (d_chunks d)) d) sp').
Proof.
  intros [W Hs _] Hc Hi Ht Hb Hd Hm Hsp. constructor; [|exact Hs|exact Hsp].
  apply (wf_chunk_update cfg _ d c ck ck' W Hc); [done|done|by left|].
  destruct (wh_chunk _ _ _ (wf_h _ _ _ W) c ck Hc) as [[] _]. constructor; [by rewrite Hi|by rewrite Hd|].
  intros ins _. destruct (mask_get_ok cfg sc r Hst ck' ins Hm) as (b & Hget & _). exists b. exact Hget.
Qed.

(** Dropping the route of an old chunk, with its charge *)
Lemma runs_drop_route clean new L n s old ck o ins chunk_size ci (Q : bool * bool → core S → Prop) :
  core_ok clean new L n s → chunks_of s !! old = Some ck → sp_info (c_sp s) !! old = Some ci →
  chunk_size = flb_input_chunk_get_real_size ck ci → cf_outputs cfg !! o = Some ins → (∀ z, new ≠ Some (old, z)) →
  (∃ b, mask_get cfg ck ins = Some b ∧ b ≠ 0) →
  (∀ e mask' s', core_ok clean new L n s' → sp_info (c_sp s') = sp_info (c_sp s) →
     c_d s' = set_d_chunks (<[old := set_ck_routes_mask mask' ck]> (chunks_of s)) (c_d s) →
     mask_get cfg (set_ck_routes_mask mask' ck) ins = Some 0 → Q (true, e) s') →
  runs (mask ← deref (flb_routes_mask_clear_bit (default [] (ck_routes_mask ck)) (o_id ins) (cf_router cfg));
        deliver (store_chunk old (set_ck_routes_mask mask ck)) ≫= λ _,
        v ← fs_at o;
        on_space (λ sp, Some (set_sp_fs (<[o := u64 (v - chunk_size)]> (sp_fs sp)) sp)) ≫= λ _,
        e ← mask_is_empty cfg sc old;
        mret (true, e)) s Q.
Proof.
  intros Hok Hc Hci -> Ho Hnew Hbit HQ. destruct (core_info _ _ _ _ _ _ _ Hok Hc) as (_ & _ & _ & Hm).
  destruct (core_fs _ _ _ _ _ _ _ Hok Ho) as [v Hv].
  assert (Hclear : ∃ mask', flb_routes_mask_clear_bit (default [] (ck_routes_mask ck)) (o_id ins) (cf_router cfg) = Some mask').
  { destruct Hm as (mask & Hmask & Hwf). rewrite Hmask, (st_router _ _ _ Hst).
    destruct (clear_bit_spec r mask (o_id ins) (st_router_wf _ _ _ Hst) Hwf) as (m & Hclear & _); [|by exists m].
    eapply st_slots; [done|]. by eapply list_elem_of_lookup_2. }
  destruct Hclear as [mask' Hclear]. apply runs_bind. eapply runs_deref; [exact Hclear|].
  apply runs_bind. eapply runs_store_chunk; [exact Hc|]. apply runs_bind, (runs_fs_at o v); [done|].
  apply runs_bind. eapply runs_on_space; [reflexivity|]. destruct s as [d sp]. cbn in *.
  pose proof (space_ok_clear clean new (d_chunks d) sp old ck ci ins o v mask' Hc Hci Ho Hclear Hbit Hnew Hv (co_space _ _ _ _ _ Hok)) as Hsp.
  destruct (clear_mask ck ins o mask' Hm Ho Hclear) as [Hm' Hget].
  apply runs_bind. eapply runs_mask_is_empty; [exact Hm'|by apply lookup_insert_eq|]. intros e. apply runs_ret.
  eapply HQ; [|reflexivity|reflexivity|by rewrite (Hget o ins Ho), decide_True]. by eapply core_ok_chunk.
Qed.

(** The size of a chunk *)
Definition size_of (s : core S) (c : nat) : Z :=
  match chunks_of s !! c, sp_info (c_sp s) !! c with
  | Some ck, Some ci => flb_input_chunk_get_real_size ck ci
  | _, _ => 0
  end.

(** May the route of chunk [c] to output [o] be dropped, to make room for [ic]? *)
Definition evictable (ic o : nat) (ins : flb_output_instance) (s : core S) (c : nat) : bool :=
  match chunks_of s !! c with
  | Some ck => negb (default 0 (mask_get cfg ck ins) =? 0) && negb (bool_decide (ic = c)) && may_drop ck o s
  | None => false
  end.

(** Nothing but chunk [old] and its task changed. *)
Record others_kept (old : nat) (s s' : core S) : Prop := {
  ok_chunk c : c ≠ old → chunks_of s' !! c = chunks_of s !! c;
  ok_info c : c ≠ old → is_Some (chunks_of s !! c) → sp_info (c_sp s') !! c = sp_info (c_sp s) !! c;
  ok_task c ck t : c ≠ old → chunks_of s !! c = Some ck → ck_task ck = Some t → d_tasks (c_d s') !! t = d_tasks (c_d s) !! t
}.

Lemma others_kept_refl old s : others_kept old s s.
Proof. by constructor. Qed.

Lemma others_kept_evictable ic o ins old s s' c : others_kept old s s' → c ≠ old →
  evictable ic o ins s' c = evictable ic o ins s c ∧ size_of s' c = size_of s c.
Proof.
  intros [Hch Hi Ht] Hne. unfold evictable, size_of, may_drop. rewrite (Hch c Hne).
  destruct (chunks_of s !! c) as [ck|] eqn:Hc; [|done]. rewrite (Hi c Hne) by (by rewrite Hc; eexists). split; [|done].
  destruct (ck_task ck) as [t|] eqn:Hct; [|done]. by rewrite (Ht c ck t Hne Hc Hct).
Qed.

Lemma task_of_other clean new L n s c1 c2 ck1 ck2 t : core_ok clean new L n s → c1 ≠ c2 →
  chunks_of s !! c1 = Some ck1 → chunks_of s !! c2 = Some ck2 → ck_task ck1 = Some t → ck_task ck2 ≠ Some t.
Proof.
  intros Hok Hne Hc1 Hc2 Ht1 Ht2. destruct (core_task _ _ _ _ _ _ _ _ Hok Hc1 Ht1) as (k1 & Hk1 & Hic1).
  destruct (core_task _ _ _ _ _ _ _ _ Hok Hc2 Ht2) as (k2 & Hk2 & Hic2). congruence.
Qed.

Lemma runs_release_chunk clean ic z L n s old ck o ins scope (Q : option Z → core S → Prop) :
  core_ok clean (Some (ic, z)) L n s → chunks_of s !! old = Some ck → cf_outputs cfg !! o = Some ins →
  (∀ res s', core_ok clean (Some (ic, z)) L n s' → chunks_of s' !! ic = chunks_of s !! ic → others_kept old s s' →
     (evictable ic o ins s old = false → res = None ∧ s' = s) →
     (evictable ic o ins s old = true → scope = RELEASE_SCOPE_LOCAL → res = Some (size_of s old) ∧
        ∀ ck', chunks_of s' !! old = Some ck' → mask_get cfg ck' ins = Some 0) → Q res s') →
  runs (release_chunk cfg sc ic o ins scope old) s Q.
Proof.
  intros Hok Hc Ho HQ. unfold release_chunk. apply runs_bind. eapply runs_mask_bit_of; [done|done|]. intros bit Hbit.
  assert (Hev : evictable ic o ins s old = negb (bit =? 0) && negb (bool_decide (ic = old)) && may_drop ck o s).
  { unfold evictable. by rewrite Hc, Hbit. }
  assert (Hno : evictable ic o ins s old = false → Q None s).
  { intros Hf. apply HQ; [done|done|apply others_kept_refl|done|congruence]. }
  destruct (Z.eqb_spec bit 0) as [|Hb0]; [by apply runs_ret, Hno|].
  apply runs_bind. unfold flb_input_chunk_safe_delete. case_decide as Hne.
  { apply runs_ret; cbn; apply runs_ret, Hno. rewrite Hev, bool_decide_true by done. done. }
  rewrite bool_decide_false in Hev by done. cbn in Hev.
  apply runs_bind. eapply runs_mask_bit_of; [done|done|]. intros bit' Hbit'. apply runs_ret.
  rewrite Hbit in Hbit'. injection Hbit' as <-. rewrite (proj2 (Z.eqb_neq _ _) Hb0). cbn [negb].
  apply runs_bind, (runs_chunk_at old ck); [done|]. apply runs_bind. eapply runs_drop_task_route; [done|done|].
  intros s1 Hok1 Hs1 Hsp1 Htk1 Hdrop. assert (Hc1 : chunks_of s1 !! old = Some ck) by by rewrite Hs1.
  destruct (may_drop ck o s) eqn:Hmd; cbn [negb]; [|apply runs_ret; rewrite Hdrop by done; by apply Hno].
  clear Hno Hdrop. apply runs_bind. eapply runs_real_size; [done|done|]. intros ci Hci. apply runs_bind.
  assert (Hsize : size_of s old = flb_input_chunk_get_real_size ck ci).
  { unfold size_of. rewrite <- Hsp1, Hc, Hci. done. }
  assert (Hend : ∀ (released e : bool) ck' s2, core_ok clean (Some (ic, z)) L n s2 → sp_info (c_sp s2) = sp_info (c_sp s1) →
    chunks_of s2 = <[old := ck']> (chunks_of s1) → d_tasks (c_d s2) = d_tasks (c_d s1) → ck_task ck' = ck_task ck →
    (scope = RELEASE_SCOPE_LOCAL → released = true ∧ mask_get cfg ck' ins = Some 0) →
    runs (destroyed ← (if e then destroy_unused cfg sc old else mret false);
          mret (Some (if (released || destroyed : bool) then flb_input_chunk_get_real_size ck ci else 0))) s2 Q).
  { intros released e ck' s2 Hok2 Hi2 Hs2 Ht2 Hct' Hloc.
    assert (HQ2 : ∀ (destroyed : bool) s3, core_ok clean (Some (ic, z)) L n s3 →
      chunks_of s3 = (if destroyed then delete old (chunks_of s2) else chunks_of s2) → info_kept s2 s3 → tasks_kept ck' s2 s3 →
      Q (Some (if (released || destroyed : bool) then flb_input_chunk_get_real_size ck ci else 0)) s3).
    { intros destroyed s3 Hok3 Hs3 Hi3 Ht3.
      assert (Hother : ∀ c, c ≠ old → chunks_of s3 !! c = chunks_of s !! c).
      { intros c Hcne. rewrite Hs3. destruct destroyed; rewrite ?lookup_delete_ne, Hs2, lookup_insert_ne, Hs1 by done; done. }
      apply HQ; [done|by apply Hother| |congruence|].
      - constructor; [done| |].
        + intros c Hcne Hsome. rewrite Hi3 by (by rewrite Hother). by rewrite Hi2, Hsp1.
        + intros c ckc t Hcne Hcc Hct. pose proof (task_of_other _ _ _ _ _ _ _ _ _ _ Hok Hcne Hcc Hc Hct) as Hneq.
          rewrite Ht3 by congruence. by rewrite Ht2, Htk1.
      - intros _ Hsc. destruct (Hloc Hsc) as [-> Hget]. split; [by rewrite Hsize|]. intros ck2. rewrite Hs3, Hs2.
        destruct destroyed; [by rewrite lookup_delete_eq|]. rewrite lookup_insert_eq. by intros [= <-]. }
    apply runs_bind. destruct e; [|by apply runs_ret, runs_ret, (HQ2 false)].
    eapply runs_destroy_unused; [exact Hok2|by rewrite Hs2, lookup_insert_eq|].
    intros b s3 Hok3 Hs3 Hi3 Ht3. by apply runs_ret, HQ2. }
  destruct scope.
  - eapply runs_drop_route; [exact Hok1|exact Hc1|exact Hci|done|exact Ho|by intros z' [= -> _]|by exists bit|].
    intros e mask' s2 Hok2 Hi2 Hs2 Hget. apply (Hend true e (set_ck_routes_mask mask' ck)); try done; [|by rewrite Hs2].
    unfold chunks_of at 1. by rewrite Hs2.
  - apply runs_ret. apply (Hend false true ck); try done. by rewrite insert_id.
Qed.

Lemma runs_release_chunks clean ic z L n o ins scope required_space : cf_outputs cfg !! o = Some ins →
  ∀ l released_space s (Q : Z → core S → Prop),
  core_ok clean (Some (ic, z)) L n s → NoDup l → (∀ c, c ∈ l → is_Some (chunks_of s !! c)) →
  (∀ res s', core_ok clean (Some (ic, z)) L n s' → chunks_of s' !! ic = chunks_of s !! ic → Q res s') →
  runs (release_chunks cfg sc ic o ins scope l released_space required_space) s Q.
Proof.
  intros Ho. induction l as [|old l IH]; intros released_space s Q Hok Hnd Hl HQ; cbn [release_chunks].
  { by apply runs_ret, HQ. }
  apply NoDup_cons in Hnd as [Hni Hnd]. destruct (Hl old) as [ck Hc]; [by left|].
  apply runs_bind. eapply runs_release_chunk; [exact Hok|exact Hc|exact Ho|]. intros res s1 Hok1 Hic1 [Hs1 _ _] _ _.
  assert (Hrest : ∀ released, runs (release_chunks cfg sc ic o ins scope l released required_space) s1 Q).
  { intros released. apply IH; [done|done| |].
    - intros c Hin. rewrite Hs1; [apply Hl; by right|]. by intros ->.
    - intros res' s' Hok' Hs'. apply HQ; [done|]. by rewrite Hs'. }
  destruct res as [m|]; [|done]. destruct (required_space <=? released_space + m); [|done].
  by apply runs_ret, HQ.
Qed.

Lemma core_in_chunks clean new L n s i : core_ok clean new L n s → (i < length (cf_inputs cfg))%nat →
  ∃ l, d_in_chunks (c_d s) !! i = Some l ∧ NoDup l ∧ ∀ c, c ∈ l → is_Some (chunks_of s !! c).
Proof.
  intros [W _ _] Hi. destruct (lookup_lt_is_Some_2 (d_in_chunks (c_d s)) i) as [l Hl].
  { by rewrite (wh_in_chunks_len _ _ _ (wf_h _ _ _ W)). }
  exists l. split_and!; [done| |].
  - pose proof (wh_in_chunks_nodup _ _ _ (wf_h _ _ _ W)) as Hnd. rewrite Forall_lookup in Hnd. by eapply Hnd.
  - intros c Hin. destruct (proj1 (wh_in_chunks _ _ _ (wf_h _ _ _ W) i c)) as (ck & Hck & _); [by exists l|].
    by exists ck.
Qed.

Lemma runs_release_space clean ic z L n i o ins required_space scope s (Q : Z → core S → Prop) :
  core_ok clean (Some (ic, z)) L n s → (i < length (cf_inputs cfg))%nat → cf_outputs cfg !! o = Some ins →
  (∀ res s', core_ok clean (Some (ic, z)) L n s' → chunks_of s' !! ic = chunks_of s !! ic → Q res s') →
  runs (flb_input_chunk_release_space cfg sc ic (Some i) o required_space scope) s Q.
Proof.
  intros Hok Hi Ho HQ. destruct (core_in_chunks _ _ _ _ _ _ Hok Hi) as (l & Hl & Hnd & Hlive).
  unfold flb_input_chunk_release_space. apply runs_bind. eapply runs_deref; [done|].
  apply runs_bind. eapply runs_deref; [done|]. apply runs_bind, runs_gets. apply runs_bind. eapply runs_deref; [done|].
  apply runs_bind. eapply runs_release_chunks; [done|done|done|done|]. intros res s' Hok' Hs'. by apply runs_ret, HQ.
Qed.

Lemma runs_release_inputs clean ic z L n own o ins : cf_outputs cfg !! o = Some ins → ∀ inputs m remainder s (Q : Z → core S → Prop),
  core_ok clean (Some (ic, z)) L n s → (m + length inputs = length (cf_inputs cfg))%nat →
  (∀ res s', core_ok clean (Some (ic, z)) L n s' → chunks_of s' !! ic = chunks_of s !! ic → Q res s') →
  runs (release_inputs cfg sc ic own o m inputs remainder) s Q.
Proof.
  intros Ho. induction inputs as [|ins' inputs IH]; intros m remainder s Q Hok Hm HQ; cbn [release_inputs].
  { by apply runs_ret, HQ. }
  cbn in Hm.
  assert (Hrest : ∀ rem s1, core_ok clean (Some (ic, z)) L n s1 → chunks_of s1 !! ic = chunks_of s !! ic →
    runs (if rem <=? 0 then mret rem else release_inputs cfg sc ic own o (Datatypes.S m) inputs rem) s1 Q).
  { intros rem s1 Hok1 Hs1. destruct (rem <=? 0); [by apply runs_ret, HQ|]. apply IH; [done|lia|].
    intros res s' Hok' Hs'. apply HQ; [done|]. by rewrite Hs'. }
  apply runs_bind. case_decide; [by apply runs_ret, Hrest|].
  eapply runs_release_space; [exact Hok|lia|exact Ho|]. intros res s1 Hok1 Hs1. by apply Hrest.
Qed.

Lemma runs_release_compound clean ic z L n o ins release_local_space i ck s (Q : Z → core S → Prop) :
  core_ok clean (Some (ic, z)) L n s → chunks_of s !! ic = Some ck → cf_outputs cfg !! o = Some ins →
  sc_storage_input_plugin sc = Some i → (i < length (cf_inputs cfg))%nat →
  (∀ res s', core_ok clean (Some (ic, z)) L n s' → chunks_of s' !! ic = Some ck → Q res s') →
  runs (flb_input_chunk_release_space_compound cfg sc ic o release_local_space) s Q.
Proof.
  intros Hok Hc Ho Hplug Hi HQ. unfold flb_input_chunk_release_space_compound. apply runs_bind, (runs_chunk_at ic ck); [done|].
  apply runs_bind. eapply runs_real_size; [done|done|]. intros ci _.
  assert (Hown : (ck_in ck < length (cf_inputs cfg))%nat).
  { destruct Hok as [W _ _]. by apply (wh_chunk _ _ _ (wf_h _ _ _ W) ic ck Hc). }
  set (R := λ (_ : Z) (s : core S), core_ok clean (Some (ic, z)) L n s ∧ chunks_of s !! ic = Some ck).
  assert (Hmaybe : ∀ (b : bool) rem (m : M (core S) Z) s1, R rem s1 →
    (b = true → runs m s1 R) → runs (if b then m else mret rem) s1 R).
  { intros [] rem m s1 HR Hm; [by apply Hm|]. by apply runs_ret. }
  apply runs_bind. eapply runs_weaken; [apply Hmaybe; [done|]|intros r1 s1 [Hok1 Hc1]].
  { intros _. rewrite Hplug. eapply runs_release_space; [done|done|done|]. intros res s' Hok' Hs'. split; [done|by rewrite Hs']. }
  apply runs_bind. eapply runs_weaken; [apply Hmaybe; [done|]|intros r2 s2 [Hok2 Hc2]].
  { intros _. eapply runs_release_space; [done|done|done|]. intros res s' Hok' Hs'. split; [done|by rewrite Hs']. }
  apply runs_bind. eapply runs_weaken; [apply Hmaybe; [done|]|intros r3 s3 [Hok3 Hc3]].
  { intros _. eapply runs_release_inputs; [done|done|done|]. intros res s' Hok' Hs'. split; [done|by rewrite Hs']. }
  by apply runs_ret, HQ.
Qed.

(** ** Finding room for a chunk *)

(** At output [o] of the loops over outputs *)
Lemma output_at_loop o ins outs : drop o (cf_outputs cfg) = ins :: outs →
  cf_outputs cfg !! o = Some ins ∧ drop (Datatypes.S o) (cf_outputs cfg) = outs ∧
  ∃ limit, sc_total_limit_size sc !! o = Some limit ∧
    (limit ≠ -1 → is_Some (shl_1 (o_id ins)) ∧ ∃ i, sc_storage_input_plugin sc = Some i ∧ (i < length (cf_inputs cfg))%nat).
Proof.
  intros Hdrop. assert (Ho : cf_outputs cfg !! o = Some ins) by (by rewrite <- (Nat.add_0_r o), <- lookup_drop, Hdrop).
  split_and!; [done|by rewrite <- Nat.add_1_r, <- drop_drop, Hdrop, skipn_cons, drop_0|].
  destruct (lookup_lt_is_Some_2 (sc_total_limit_size sc) o) as [limit Hlim].
  { rewrite (st_limits _ _ _ Hst). by eapply lookup_lt_Some. }
  exists limit. split; [done|]. intros Hne. destruct (st_limited _ _ _ Hst o ins limit Ho Hlim Hne) as [Hid Hplug].
  split; [|done]. unfold shl_1. rewrite (proj2 (Z.leb_le _ _)), (proj2 (Z.ltb_lt _ _)) by lia. by eexists.
Qed.

Lemma runs_find_space clean ic z L n ck overlimit : ∀ outs o count s (Q : Z → core S → Prop),
  drop o (cf_outputs cfg) = outs → core_ok clean (Some (ic, z)) L n s → chunks_of s !! ic = Some ck →
  (∀ res s', core_ok clean (Some (ic, z)) L n s' → chunks_of s' !! ic = Some ck → Q res s') →
  runs (find_space cfg sc ic overlimit o outs count) s Q.
Proof.
  induction outs as [|ins outs IH]; intros o count s Q Hdrop Hok Hc HQ; cbn [find_space]; [by apply runs_ret, HQ|].
  destruct (output_at_loop o ins outs Hdrop) as (Ho & Hdrop' & limit & Hlim & Hne).
  apply runs_bind. eapply runs_deref; [done|]. destruct (Z.eqb_spec limit (-1)) as [_|Hl]; [by apply IH|].
  destruct (Hne Hl) as ([b Hb] & i & Hplug & Hi). apply runs_bind. eapply runs_deref; [done|].
  destruct (Z.land b overlimit =? 0); [by apply IH|]. apply runs_bind. eapply runs_mask_bit_of; [done|done|].
  intros bit _. destruct (bit =? 0); [by apply IH|]. apply runs_bind. eapply runs_release_compound; try done.
  intros res s1 Hok1 Hc1. by apply IH.
Qed.

Lemma runs_has_overlimit clean new ic L n ck chunk_size : ∀ outs o overlimit s (Q : Z → core S → Prop),
  drop o (cf_outputs cfg) = outs → core_ok clean new L n s → chunks_of s !! ic = Some ck →
  (∀ res, Q res s) → runs (has_overlimit cfg sc ic chunk_size o outs overlimit) s Q.
Proof.
  induction outs as [|ins outs IH]; intros o overlimit s Q Hdrop Hok Hc HQ; cbn [has_overlimit]; [by apply runs_ret, HQ|].
  destruct (output_at_loop o ins outs Hdrop) as (Ho & Hdrop' & limit & Hlim & Hne).
  apply runs_bind. eapply runs_deref; [done|]. destruct (Z.eqb_spec limit (-1)) as [_|Hl]; [by apply IH|].
  apply runs_bind. eapply runs_mask_bit_of; [done|done|]. intros bit _. destruct (bit =? 0); [by apply IH|].
  destruct (core_fs _ _ _ _ _ _ _ Hok Ho) as [v Hv]. apply runs_bind, (runs_fs_at o v); [done|].
  destruct (lookup_lt_is_Some_2 (sc_fs_backlog_chunks_size sc) o) as [backlog Hback].
  { rewrite (st_backlog _ _ _ Hst). by eapply lookup_lt_Some. }
  apply runs_bind. eapply runs_deref; [done|]. destruct (limit <? _); [|by apply IH].
  destruct (Hne Hl) as ([b Hb] & _). apply runs_bind. eapply runs_deref; [done|]. by apply IH.
Qed.

Lemma runs_place_new_chunk clean ic z L n ck chunk_size s (Q : bool → core S → Prop) :
  core_ok clean (Some (ic, z)) L n s → chunks_of s !! ic = Some ck →
  (∀ res s', core_ok clean (Some (ic, z)) L n s' → chunks_of s' !! ic = Some ck → Q res s') →
  runs (flb_input_chunk_place_new_chunk cfg sc ic chunk_size) s Q.
Proof.
  intros Hok Hc HQ. unfold flb_input_chunk_place_new_chunk. apply runs_bind, (runs_chunk_at ic ck); [done|].
  destruct (lookup_lt_is_Some_2 (sc_storage_type sc) (ck_in ck)) as [type Htype].
  { rewrite (st_types _ _ _ Hst). destruct Hok as [W _ _]. by apply (wh_chunk _ _ _ (wf_h _ _ _ W) ic ck Hc). }
  apply runs_bind. eapply runs_deref; [done|].
  assert (Hend : ∀ res s1, core_ok clean (Some (ic, z)) L n s1 → chunks_of s1 !! ic = Some ck →
    runs (if negb (res =? 0) then mret false else e ← mask_is_empty cfg sc ic; mret (negb e)) s1 Q).
  { intros res s1 Hok1 Hc1. destruct (negb (res =? 0)); [by apply runs_ret, HQ|]. apply runs_bind.
    destruct (core_info _ _ _ _ _ _ _ Hok1 Hc1) as (_ & _ & _ & Hm).
    eapply runs_mask_is_empty; [done|done|]. intros e. by apply runs_ret, HQ. }
  apply runs_bind. destruct (type =? FLB_STORAGE_FS); [|by apply runs_ret, Hend].
  apply runs_bind. eapply runs_has_overlimit; [done|done|done|]. intros overlimit.
  destruct (negb (overlimit =? 0)); [|by apply runs_ret, Hend].
  unfold flb_input_chunk_find_space_new_data. eapply runs_find_space; [done|done|done|]. exact Hend.
Qed.

(** ** The ring buffer in memory *)

Lemma runs_memrb_release clean L n required_space : ∀ l released_space s (Q : bool → core S → Prop),
  core_ok clean None L n s → NoDup l → (∀ c, c ∈ l → is_Some (chunks_of s !! c)) →
  (∀ res s', core_ok clean None L n s' → Q res s') →
  runs (memrb_release cfg sc l released_space required_space) s Q.
Proof.
  induction l as [|c l IH]; intros released_space s Q Hok Hnd Hl HQ; cbn [memrb_release]; [by apply runs_ret, HQ|].
  apply NoDup_cons in Hnd as [Hni Hnd]. destruct (Hl c) as [ck Hc]; [by left|].
  apply runs_bind, (runs_chunk_at c ck); [done|].
  assert (Hl' : ∀ c', c' ∈ l → is_Some (chunks_of s !! c')) by (intros c' ?; apply Hl; by right).
  apply runs_bind. assert (Hsafe : ∃ safe, flb_input_chunk_is_task_safe_delete (ck_task ck) (c_d s) = Some (safe, c_d s)).
  { unfold flb_input_chunk_is_task_safe_delete. destruct (ck_task ck) as [t|] eqn:Ht; [|by eexists].
    destruct (core_task _ _ _ _ _ _ _ _ Hok Hc Ht) as (k & Hk & _). unfold mbind, M_bind.
    rewrite (task_at_run t k _ Hk). by eexists. }
  destruct Hsafe as [safe Hsafe]. exists safe, s. split; [destruct s as [d sp]; by apply deliver_run|].
  destruct safe; cbn [negb]; [|by apply IH].
  apply runs_bind. eapply runs_real_size; [done|done|]. intros ci _. apply runs_bind.
  eapply runs_destroy_unused; [done|done|]. intros b s1 Hok1 Hs1 _ _. destruct (_ <=? _); [by apply runs_ret, HQ|].
  apply IH; [done|done| |done]. intros c' Hin. rewrite Hs1. destruct b; [|by apply Hl'].
  rewrite lookup_delete_ne; [by apply Hl'|]. by intros ->.
Qed.

Lemma runs_memrb_release_space clean L n i required_space s (Q : bool → core S → Prop) :
  core_ok clean None L n s → (i < length (cf_inputs cfg))%nat →
  (∀ res s', core_ok clean None L n s' → Q res s') →
  runs (memrb_input_chunk_release_space cfg sc i required_space) s Q.
Proof.
  intros Hok Hi HQ. destruct (core_in_chunks _ _ _ _ _ _ Hok Hi) as (l & Hl & Hnd & Hlive).
  apply runs_bind, runs_gets. apply runs_bind. eapply runs_deref; [done|]. by eapply runs_memrb_release.
Qed.

(** ** Oldest first *)

(** The shortest beginning of a list that makes up the required space, or all of it *)
Fixpoint victims (size : nat → Z) (required released : Z) (l : list nat) : list nat :=
  match l with
  | [] => []
  | c :: l' => c :: (if required <=? released + size c then [] else victims size required (released + size c) l')
  end.
Definition sizes (size : nat → Z) (l : list nat) : Z := foldr (λ c total, size c + total) 0 l.

Lemma victims_sub size required l : ∀ released c, c ∈ victims size required released l → c ∈ l.
Proof.
  induction l as [|c0 l IH]; intros released c; [done|]. cbn. rewrite !elem_of_cons. intros [->|Hin]; [by left|right].
  destruct (required <=? _); [by apply not_elem_of_nil in Hin|by eapply IH].
Qed.

Lemma victims_ext size1 size2 required l : ∀ released, (∀ c, c ∈ l → size1 c = size2 c) →
  victims size1 required released l = victims size2 required released l ∧
  sizes size1 (victims size1 required released l) = sizes size2 (victims size1 required released l).
Proof.
  induction l as [|c l IH]; intros released Hs; [done|]. cbn. rewrite (Hs c) by by left.
  destruct (required <=? _); [done|]. destruct (IH (released + size2 c)) as [Hv Hsz].
  { intros c' ?. apply Hs. by right. }
  split; [by rewrite Hv|]. f_equal. exact Hsz.
Qed.

Lemma filter_ext_in {A} (p q : A → bool) (l : list A) : (∀ c, c ∈ l → p c = q c) →
  filter (λ c, p c = true) l = filter (λ c, q c = true) l.
Proof.
  induction l as [|c l IH]; intros Hpq; [done|]. rewrite !filter_cons, (Hpq c) by by left.
  rewrite IH; [done|]. intros c' ?. apply Hpq. by right.
Qed.

(** Dropping routes takes the oldest chunks that may be dropped, and no more than needed. *)
Lemma runs_release_local clean ic z L n o ins required : cf_outputs cfg !! o = Some ins → ∀ l released s,
  core_ok clean (Some (ic, z)) L n s → NoDup l → (∀ c, c ∈ l → is_Some (chunks_of s !! c)) →
  let vs := victims (size_of s) required released (filter (λ c, evictable ic o ins s c = true) l) in
  runs (release_chunks cfg sc ic o ins RELEASE_SCOPE_LOCAL l released required) s (λ res s',
    core_ok clean (Some (ic, z)) L n s' ∧ res = released + sizes (size_of s) vs ∧
    (∀ c ck', c ∈ vs → chunks_of s' !! c = Some ck' → mask_get cfg ck' ins = Some 0) ∧
    (∀ c, c ∉ vs → chunks_of s' !! c = chunks_of s !! c)).
Proof.
  intros Ho. induction l as [|old l IH]; intros released s Hok Hnd Hl; cbv zeta; cbn [release_chunks].
  { apply runs_ret. cbn. split_and!; [done|lia| |done]. intros c ck' Hin. by apply not_elem_of_nil in Hin. }
  apply NoDup_cons in Hnd as [Hni Hnd]. destruct (Hl old) as [ck Hc]; [by left|].
  assert (Hl' : ∀ c, c ∈ l → is_Some (chunks_of s !! c)) by (intros c ?; apply Hl; by right).
  apply runs_bind. eapply runs_release_chunk; [exact Hok|exact Hc|exact Ho|].
  intros res s1 Hok1 _ Hkept Hno Hyes. rewrite filter_cons.
  destruct (evictable ic o ins s old) eqn:Hev.
  2: { rewrite decide_False by done. destruct (Hno eq_refl) as [-> ->]. by apply IH. }
  rewrite decide_True by done. destruct (Hyes eq_refl eq_refl) as [-> Hclear]. cbn [victims].
  destruct (required <=? released + size_of s old).
  { apply runs_ret. cbn. split_and!; [done|lia| |].
    - intros c ck' ->%list_elem_of_singleton. apply Hclear.
    - intros c Hne. apply (ok_chunk _ _ _ Hkept). intros ->. by apply Hne, list_elem_of_singleton. }
  assert (Hsame : ∀ c, c ∈ l → evictable ic o ins s1 c = evictable ic o ins s c ∧ size_of s1 c = size_of s c).
  { intros c Hin. eapply others_kept_evictable; [done|]. by intros ->. }
  eapply runs_weaken; [apply (IH _ s1 Hok1 Hnd)|].
  { intros c Hin. rewrite (ok_chunk _ _ _ Hkept); [by apply Hl'|]. by intros ->. }
  cbn beta. rewrite (filter_ext_in _ (evictable ic o ins s)) by (intros c Hin; by apply Hsame).
  set (rest := filter _ l). set (vs := victims (size_of s1) _ _ rest).
  destruct (victims_ext (size_of s1) (size_of s) required rest (released + size_of s old)) as [Hv Hsz].
  { intros c [_ Hin]%list_elem_of_filter. by apply Hsame. }
  fold vs in Hv, Hsz. rewrite <- Hv. intros total s' (Hok' & -> & Hin' & Hout'). split_and!; [done|rewrite Hsz; change (sizes (size_of s) (old :: vs)) with (size_of s old + sizes (size_of s) vs); lia| |].
  - intros c ck' [->|Hin]%elem_of_cons; [|by apply Hin']. rewrite Hout'; [apply Hclear|].
    intros [_ Hin]%victims_sub%list_elem_of_filter. done.
  - intros c [Hne Hnot]%not_elem_of_cons. by rewrite Hout', (ok_chunk _ _ _ Hkept).
Qed.
End release.
