(* ===== verification/InputChunk.v ===== *)
(** * Filling chunks ([src/flb_input_chunk.c])

    [input_chunk_append_raw] looks for the chunk being filled for a tag, or creates one, makes room for
    the new data, writes it and charges the outputs. *)
From S2P Require Import Prelude CStd Env Heap RetryQueue Router RoutesMask Delivery Invariant Task Output Dispatch Engine Agent.
From S2P Require Import ChunkFrame ChunkSpace ChunkAccount ChunkRelease.

(** [cio_chunk_up_force] of a chunk that was found: also when it is up already *)
Inductive up_result := UP_OK | UP_CORRUPTED | UP_FAILED.

(** What the storage layer and the filters answer during one call: whether the input is paused
    ([flb_input_buf_paused]) or over its memory limit, whether the chunk found is locked and can be
    brought up, the file created for a new chunk (its real and metadata size, or none), whether the chunk
    can be brought up for writing, the size of the data after filtering, whether it is written, and the
    real size of the chunk then. *)
Record append_io := mk_io {
  io_paused : bool;
  io_mem_overlimit : bool;
  io_locked : bool;
  io_up : up_result;
  io_create : option (Z * Z);
  io_up_write : bool;
  io_filtered : Z;
  io_write : bool;
  io_real_size : Z
}.

(** The types of events that have a table *)
Definition has_table (event_type : Z) : bool :=
  (event_type =? FLB_INPUT_LOGS) || (event_type =? FLB_INPUT_METRICS) || (event_type =? FLB_INPUT_TRACES) ||
  (event_type =? FLB_INPUT_PROFILES).

Section operations.
Context {S : Type} `{RetryQueue S}.
Context (cfg : flb_config) (sc : storage_config) (onig_match : regex → list Z → Z).
Context (route_condition : flb_event_chunk → nat → bool).

(** The chunk at [c] is in the list of its input from now on. *)
Definition link_chunk (c : nat) (ck : flb_input_chunk) (ci : chunk_info) : M (core S) unit :=
  deliver cfg sc (store_chunk c ck) ≫= λ _,
  ls ← deliver cfg sc (gets d_in_chunks);
  ls' ← deref (l ← ls !! ck_in ck; Some (<[ck_in ck := l ++ [c]]> ls));
  deliver cfg sc (modify (set_d_in_chunks ls')) ≫= λ _,
  store_info c ci.

(** [flb_hash_table_add], which takes no empty key and may find no memory *)
Definition table_add (key : nat * Z * list Z) (c : nat) : M (core S) unit :=
  if bool_decide (key.2 = []) then mret tt
  else
    p ← deliver cfg sc malloc;
    match p with
    | None => mret tt
    | Some _ => on_space (λ sp, Some (set_sp_table (<[key := c]> (sp_table sp)) sp))
    end.

(** A routes mask of zeros *)
Definition new_mask : list Z := replicate (Z.to_nat (flb_routes_mask_get_size (cf_router cfg))) 0.

Definition flb_input_chunk_create (i : nat) (event_type : Z) (tag : list Z) (io : append_io) : M (core S) (option nat) :=
  match io_create io with
  | None => mret None
  | Some (real, meta) =>
      p ← deliver cfg sc malloc;                                    (* ic *)
      match p with
      | None => mret None
      | Some c =>
          q ← deliver cfg sc malloc;                                (* ic->routes_mask *)
          match q with
          | None => mret None
          | Some _ =>
              '(_, mask) ← deref (flb_routes_mask_set_by_tag onig_match new_mask (Some tag) (zlen tag)
                                    (Some (cf_router cfg, cf_outputs cfg)));
              link_chunk c (mk_chunk i event_type false 0 None (Some mask) None (Some (until_nul tag)) 0)
                (mk_info real meta false) ≫= λ _,
              when (has_table event_type) (table_add (i, event_type, tag) c) ≫= λ _,
              mret (Some c)
          end
      end
  end.

Definition flb_input_chunk_destroy (c : nat) : M (core S) unit :=
  deliver cfg sc (Delivery.flb_input_chunk_destroy c true) ≫= λ _, mret tt.

(** [flb_input_chunk_destroy_corrupted]: the tag is given, [del] is [config->storage_del_bad_chunks]. *)
Definition flb_input_chunk_destroy_corrupted (c : nat) (del : bool) : M (core S) unit := λ s,
  match Delivery.flb_input_chunk_destroy c del (c_d s) with
  | None => None
  | Some (_, d') => sp' ← forget_chunk cfg sc del (d_chunks (c_d s)) c (c_sp s); Some (tt, mk_core d' sp')
  end.

(** The first half of [input_chunk_get]: the chunk found in the table, when it can be used *)
Definition lookup_chunk (i : nat) (event_type : Z) (tag : list Z) (io : append_io) : M (core S) (option nat) :=
  found ← (λ s, Some (if has_table event_type then sp_table (c_sp s) !! (i, event_type, tag) else None, s));
  match found with
  | None => mret None
  | Some c =>
      ck ← deliver cfg sc (chunk_at c);
      if ck_busy ck || io_locked io then mret None
      else
        match io_up io with
        | UP_OK => mret (Some c)
        | UP_CORRUPTED => flb_input_chunk_destroy_corrupted c (sc_storage_del_bad_chunks sc) ≫= λ _, mret None
        | UP_FAILED => mret None
        end
  end.

Definition input_chunk_get (i : nat) (event_type : Z) (tag : list Z) (chunk_size : Z) (io : append_io)
    : M (core S) (option nat) :=
  let tag := take (Z.to_nat FLB_INPUT_CHUNK_TAG_MAX) tag in
  found ← lookup_chunk i event_type tag io;
  ic ← (match found with Some c => mret (Some c) | None => flb_input_chunk_create i event_type tag io end);
  match ic with
  | None => mret None
  | Some c =>
      e ← mask_is_empty cfg sc c;
      placed ← (if (e : bool) then mret true else flb_input_chunk_place_new_chunk cfg sc c chunk_size);
      if (placed : bool) then mret (Some c)
      else
        e ← mask_is_empty cfg sc c;
        when (bool_decide (found = None) || e) (flb_input_chunk_destroy c) ≫= λ _, mret None
  end.

(** From the write on; [ck] is the chunk before it.  The stream processor and the limits on memory are
    not modelled. *)
Definition append_data (i c : nat) (n_records size : Z) (io : append_io) : M (core S) Z :=
  ck ← deliver cfg sc (chunk_at c);
  ci ← info_at c;
  let pre_real_size := if ck_size ck =? 0 then 0 else flb_input_chunk_get_real_size ck ci in
  let final_data_size := if ck_event_type ck =? FLB_INPUT_LOGS then io_filtered io else size in
  if (0 <? final_data_size) && negb (io_write io) then mret (-1)
  else
    let content_size := ck_size ck + final_data_size in
    deliver cfg sc (store_chunk c (set_ck_content (ck_total_records ck + n_records) content_size ck)) ≫= λ _,
    when (0 <? final_data_size) (store_info c (set_ci_real_size (io_real_size io) ci)) ≫= λ _,
    if content_size =? 0 then
      flb_input_chunk_destroy c ≫= λ _, deliver cfg sc (flb_input_chunk_set_limits i) ≫= λ _, mret 0
    else
      routable ← deref (sc_routable sc !! i);
      if negb routable then flb_input_chunk_destroy c ≫= λ _, mret 0
      else
        deliver cfg sc (flb_input_chunk_set_limits i) ≫= λ _,
        size' ← real_size cfg sc c;
        let real_diff := size' - pre_real_size in
        when (negb (real_diff =? 0)) (flb_input_chunk_update_output_instances cfg sc c real_diff) ≫= λ _,
        mret 0.

(** The tag of the input, or its name *)
Definition default_tag (ins : flb_input_instance) : list Z :=
  match i_tag ins with
  | Some t => if 0 <? i_tag_len ins then t else i_name ins
  | None => i_name ins
  end.

Definition input_chunk_append_raw (i : nat) (event_type n_records : Z) (tag : option (list Z)) (buf_size : Z)
    (io : append_io) : M (core S) Z :=
  ins ← deref (cf_inputs cfg !! i);
  type ← deref (sc_storage_type sc !! i);
  room ← (if (type =? FLB_STORAGE_MEMRB) && io_mem_overlimit io
          then memrb_input_chunk_release_space cfg sc i buf_size else mret true);
  if negb room then mret (-1)
  else if io_paused io then mret (-1)
  else if buf_size =? 0 then mret (-1)
  else
    ic ← input_chunk_get i event_type (default (default_tag ins) tag) buf_size io;
    match ic with
    | None => mret (-1)
    | Some c => if negb (io_up_write io) then mret (-1) else append_data i c n_records buf_size io
    end.

(** ** Chunks of the backlog *)

(** What [flb_input_chunk_map] reads from a chunk: whether it has content, the result of the validation
    (whether all is valid, the valid records and where they end), the size of the content then or [-1],
    the tag or [None], the direct routes (status and routes), the sizes. *)
Record map_io := mk_map_io {
  mp_content : bool;
  mp_valid : bool;
  mp_records : Z;
  mp_offset : Z;
  mp_content_size : Z;
  mp_tag : option (list Z);
  mp_direct : Z * list flb_chunk_direct_route;
  mp_info : chunk_info
}.

(** The same code as [task_collect_output_references] of [Task] *)
Definition input_chunk_collect_output_references (route : flb_chunk_direct_route) : M (core S) (Z * list nat) :=
  deliver cfg sc (task_collect_output_references cfg route).

(** Do all the stored routes lead to outputs? *)
Fixpoint routes_restored (routes : list flb_chunk_direct_route) : M (core S) bool :=
  match routes with
  | [] => mret true
  | route :: routes' =>
      '(ret, matches) ← input_chunk_collect_output_references route;
      if negb (ret =? 0) || bool_decide (matches = []) then mret false else routes_restored routes'
  end.

Fixpoint set_bits (mask : list Z) (outs : list nat) : option (list Z) :=
  match outs with
  | [] => Some mask
  | o :: outs' =>
      ins ← cf_outputs cfg !! o;
      mask' ← flb_routes_mask_set_bit mask (o_id ins) (cf_router cfg);
      set_bits mask' outs'
  end.

(** The mask with the bits of the stored routes, and how many were set *)
Fixpoint restore_routes (mask : list Z) (has_routes : Z) (routes : list flb_chunk_direct_route) : M (core S) (Z * list Z) :=
  match routes with
  | [] => mret (has_routes, mask)
  | route :: routes' =>
      '(ret, matches) ← input_chunk_collect_output_references route;
      if negb (ret =? 0) || bool_decide (matches = []) then restore_routes mask has_routes routes'
      else
        mask' ← deref (set_bits mask matches);
        restore_routes mask' (has_routes + zlen matches) routes'
  end.

(** The routes mask of a restored chunk *)
Definition restore_mask (tag : list Z) (direct : Z * list flb_chunk_direct_route) : M (core S) (list Z) :=
  let by_tag (mask : list Z) : M (core S) (list Z) :=
    '(_, mask') ← deref (flb_routes_mask_set_by_tag onig_match mask (Some tag) (zlen tag)
                           (Some (cf_router cfg, cf_outputs cfg)));
    mret mask' in
  let '(direct_status, direct_routes) := direct in
  direct_loaded ← (if (direct_status =? 0) && negb (bool_decide (direct_routes = []))
                   then routes_restored direct_routes else mret false);
  if (direct_loaded : bool) then
    '(has_routes, mask) ← restore_routes new_mask 0 direct_routes;
    if has_routes =? 0 then by_tag mask else mret mask
  else by_tag new_mask.

(** Only the records of logs and metrics are counted, and a chunk without records is refused. *)
Definition flb_input_chunk_map (i : nat) (event_type : Z) (io : map_io) : M (core S) (option nat) :=
  p ← deliver cfg sc malloc;                                        (* ic *)
  match p with
  | None => mret None
  | Some c =>
      if negb (mp_content io) then mret None
      else
        q ← deliver cfg sc malloc;                                  (* ic->routes_mask *)
        match q with
        | None => mret None
        | Some _ =>
            let validated := (event_type =? FLB_INPUT_LOGS) || (event_type =? FLB_INPUT_METRICS) in
            let records := if validated then mp_records io else 0 in
            if validated && negb (mp_valid io) && negb ((0 <? records) && (32 <? mp_offset io)) then mret None
            else if records =? 0 then mret None
            else if mp_content_size io =? -1 then mret None
            else
              match mp_tag io with
              | None => mret None
              | Some tag =>
                  mask ← restore_mask tag (mp_direct io);
                  let ck := mk_chunk i event_type false records None (Some mask) (Some (mp_direct io)) (Some tag)
                              (mp_content_size io) in
                  let ci := set_ci_fs_counted false (mp_info io) in
                  let bytes := flb_input_chunk_get_real_size ck ci in
                  if bytes <? 0 then mret None
                  else
                    link_chunk c ck ci ≫= λ _,
                    flb_input_chunk_update_output_instances cfg sc c bytes ≫= λ _,
                    mret (Some c)
              end
        end
  end.

End operations.

(** ** Every operation keeps the invariants *)

Section specs.
Context {S : Type} `{RetryQueue S}.
Context (cfg : flb_config) (sc : storage_config) (r : flb_router) (onig_match : regex → list Z → Z).
Context (route_condition : flb_event_chunk → nat → bool).
Context (Hcfg : config_ok cfg) (Hst : storage_ok cfg sc r).
#[local] Abbreviation core_ok := (core_ok cfg sc r).
#[local] Abbreviation space_ok := (space_ok cfg sc r).
#[local] Abbreviation deliver := (deliver cfg sc).

(** A fresh address *)
Definition fresh (c : nat) (s : core S) : Prop := chunks_of s !! c = None ∧ (c < e_next (env_of (c_d s)))%nat.
Definition still (s s' : core S) : Prop :=
  chunks_of s' = chunks_of s ∧ (e_next (env_of (c_d s)) <= e_next (env_of (c_d s')))%nat.

Lemma still_refl s : still s s.
Proof. split; [done|lia]. Qed.
Lemma still_trans s1 s2 s3 : still s1 s2 → still s2 s3 → still s1 s3.
Proof. intros [? ?] [? ?]. split; [congruence|lia]. Qed.
Lemma fresh_still c s s' : still s s' → fresh c s → fresh c s'.
Proof. intros [Hs ?] [? ?]. split; [by rewrite Hs|lia]. Qed.

(** Calls that change the environment, and tasks at most *)
Lemma runs_quiet {A} (m : M (delivery S) A) clean new L n s a d' (Q : A → core S → Prop) :
  core_ok clean new L n s → m (c_d s) = Some (a, d') → Evolves m → quiet (c_d s) d' → delivery_safe cfg L n d' →
  (∀ s', core_ok clean new L n s' → c_d s' = d' → still s s' → Q a s') → runs (deliver m) s Q.
Proof.
  intros [W Hs Hsp] Hm He Hq W' HQ. destruct s as [d sp].
  exists a, (mk_core d' sp). cbn in *. pose proof (qu_chunks _ _ Hq) as Hch.
  split; [apply deliver_run; [done|]; intros c; by rewrite Hch|].
  apply HQ; [|done|split; [done|apply Hq]]. constructor; cbn; [done|by eapply sync_ok_run|by rewrite Hch].
Qed.

Lemma runs_malloc clean new L n s (Q : option nat → core S → Prop) :
  core_ok clean new L n s →
  (∀ p s', core_ok clean new L n s' → still s s' → (∀ c, p = Some c → fresh c s') → Q p s') →
  runs (deliver malloc) s Q.
Proof.
  intros Hok HQ. destruct (malloc_quiet (c_d s)) as (p & e & Hm & Hq & He & _ & Hp).
  pose proof (co_safe _ _ _ _ _ _ _ _ Hok) as W.
  eapply runs_quiet; [exact Hok|exact Hm|apply _|exact Hq| |].
  - eapply delivery_safe_intro. by apply (wf_env cfg _ _ e W).
  - intros s' Hok' Hd Hstill. apply HQ; [done|done|]. intros c ->. destruct Hp as [|[[= ->] Hlt]]; [done|].
    split; [|by rewrite Hd, env_of_set]. unfold chunks_of. rewrite Hd. by apply (wh_fresh _ _ _ (wf_h _ _ _ W)).
Qed.

Lemma runs_collect clean new L n s route (Q : Z * list nat → core S → Prop) :
  core_ok clean new L n s →
  (∀ ret matches s', core_ok clean new L n s' → still s s' → Forall (is_output cfg) matches → Q (ret, matches) s') →
  runs (input_chunk_collect_output_references cfg sc route) s Q.
Proof.
  intros Hok HQ. pose proof (co_safe _ _ _ _ _ _ _ _ Hok) as W.
  destruct (collect_spec cfg _ route (c_d s) W) as (v & l & d' & Hrun & W' & Hq & _ & _ & Hl).
  eapply runs_quiet; [exact Hok|exact Hrun|apply _|exact Hq|by eapply delivery_safe_intro|].
  intros s' Hok' _ Hstill. apply HQ; [done|done|]. destruct Hl as [[_ ->]|(_ & -> & _)]; [|constructor].
  apply Forall_forall. intros o. apply direct_matches_outputs.
Qed.

(** ** A chunk appears *)

Lemma runs_link_chunk clean L n s c ck ci (Q : unit → core S → Prop) :
  core_ok clean None L n s → fresh c s → (ck_in ck < length (cf_inputs cfg))%nat → ck_task ck = None → mask_ok r ck →
  (∀ routes, ck_direct ck = Some (0, routes) → NoDup (direct_all (cf_outputs cfg) routes)) →
  sizes_ok ck ci → ci_fs_counted ci = false →
  (∀ s', core_ok clean (Some (c, ck_size ck)) L n s' → chunks_of s' = <[c := ck]> (chunks_of s) →
     sp_info (c_sp s') !! c = Some ci → Q tt s') →
  runs (link_chunk cfg sc c ck ci) s Q.
Proof.
  intros [W Hs Hsp] [Hc Hlt] Hin Ht Hm Hdir Hsz Hcnt HQ. destruct s as [d sp]. cbn in *. unfold chunks_of in *. cbn in *.
  destruct (lookup_lt_is_Some_2 (d_in_chunks d) (ck_in ck)) as [l Hl].
  { by rewrite (wh_in_chunks_len _ _ _ (wf_h _ _ _ W)). }
  unfold link_chunk. apply runs_bind. eexists tt, _. split.
  { apply (deliver_run cfg sc (store_chunk c ck)); [reflexivity|]. cbn. intros c'.
    destruct (decide (c = c')) as [<-|]; [rewrite Hc; by intros []|by rewrite lookup_insert_ne]. }
  apply runs_bind, runs_gets. cbn. apply runs_bind. eapply runs_deref; [by rewrite Hl|].
  apply runs_bind. eexists tt, _. split; [by apply (deliver_run cfg sc (modify _))|].
  eapply runs_on_space; [reflexivity|]. cbn. apply HQ; [|done|by apply lookup_insert_eq].
  constructor; cbn; [|exact Hs|by apply space_ok_add].
  apply (wf_add_chunk cfg _ d c ck l W Hc Hlt); [|done|done].
  constructor; [done|done|]. intros ins _. destruct (mask_get_ok cfg sc r Hst ck ins Hm) as (b & Hget & _). by exists b.
Qed.

Lemma runs_table_add clean new L n s c ck tag (Q : unit → core S → Prop) :
  core_ok clean new L n s → chunks_of s !! c = Some ck → ck_tag ck = Some tag → ck_direct ck = None →
  (∀ s', core_ok clean new L n s' → chunks_of s' = chunks_of s → Q tt s') →
  runs (table_add cfg sc (ck_in ck, ck_event_type ck, tag) c) s Q.
Proof.
  intros Hok Hc Htag Hdir HQ. unfold table_add. case_bool_decide; [by apply runs_ret, HQ|]. apply runs_bind. eapply runs_malloc; [done|].
  intros p s1 Hok1 [Hs1 _] _. destruct p as [p|]; [|by apply runs_ret, HQ].
  eapply runs_on_space; [reflexivity|]. apply HQ; [|done]. destruct Hok1 as [W1 Hsy1 Hsp1].
  constructor; [done|done|]. destruct Hsp1 as [? ? ? ? Htab ? Hch]. constructor; cbn; try done.
  - intros key c'. destruct (decide (key = (ck_in ck, ck_event_type ck, tag))) as [->|Hne].
    + rewrite lookup_insert_eq. intros [= <-]. exists ck. unfold chunks_of in Hs1, Hc. by rewrite Hs1.
    + rewrite lookup_insert_ne by done. apply Htab.
  - intros Hcl. destruct (Hch Hcl). by constructor.
Qed.

Lemma until_nul_id tag : 0 ∉ tag → until_nul tag = tag.
Proof.
  induction tag as [|b tag IH]; [done|]. intros [Hb Ht]%not_elem_of_cons. cbn.
  destruct (Z.eqb_spec b 0); [by subst b|]. by rewrite IH.
Qed.

Lemma new_mask_ok : mask_wf r (new_mask cfg).
Proof. unfold new_mask. rewrite (st_router _ _ _ Hst). apply mask_wf_zero; [apply (st_router_wf _ _ _ Hst)|done]. Qed.

Lemma set_by_tag_ok mask tag n : mask_wf r mask →
  ∃ h mask', flb_routes_mask_set_by_tag onig_match mask tag n (Some (cf_router cfg, cf_outputs cfg)) = Some (h, mask') ∧
    mask_wf r mask'.
Proof.
  intros Hm. rewrite (st_router _ _ _ Hst). pose proof (st_router_wf _ _ _ Hst) as Hr. unfold flb_routes_mask_set_by_tag.
  cbn [flb_routes_mask_get_size]. rewrite (memset_zero_all r mask Hm). cbn [mbind option_bind].
  destruct (set_matching_spec onig_match r tag n Hr (cf_outputs cfg) (replicate (Z.to_nat (route_mask_size r)) 0) 0)
    as (h & m & -> & Hm' & _); [by apply mask_wf_zero|by exists h, m].
Qed.

(** What the chunk handed to the caller is: not held by a task, and without stored routes while the charges are right *)
Definition fillable (clean : bool) (i : nat) (c : nat) (s : core S) : Prop :=
  ∃ ck, chunks_of s !! c = Some ck ∧ ck_task ck = None ∧ (clean = true → ck_direct ck = None) ∧ ck_in ck = i.

Definition io_ok (io : append_io) : Prop :=
  0 <= io_filtered io ∧ 0 <= io_real_size io ∧
  (∀ real meta, io_create io = Some (real, meta) → 0 <= real ∧ 0 <= meta) ∧
  (io_up io = UP_CORRUPTED → sc_storage_del_bad_chunks sc = true).

Lemma runs_create clean L n s i event_type tag io (Q : option nat → core S → Prop) :
  core_ok clean None L n s → (i < length (cf_inputs cfg))%nat → 0 ∉ tag → io_ok io →
  (∀ s', core_ok clean None L n s' → Q None s') →
  (∀ c ck s', core_ok clean (Some (c, 0)) L n s' → chunks_of s' !! c = Some ck → ck_task ck = None → ck_direct ck = None →
     ck_in ck = i → Q (Some c) s') →
  runs (flb_input_chunk_create cfg sc onig_match i event_type tag io) s Q.
Proof.
  intros Hok Hi Htag (_ & _ & Hio & _) HQn HQs. unfold flb_input_chunk_create.
  destruct (io_create io) as [[real meta]|]; [|by apply runs_ret, HQn]. destruct (Hio real meta eq_refl) as [Hreal Hmeta].
  apply runs_bind. eapply runs_malloc; [done|]. intros p s1 Hok1 _ Hp. destruct p as [c|]; [|by apply runs_ret, HQn].
  specialize (Hp c eq_refl). apply runs_bind. eapply runs_malloc; [done|]. intros q s2 Hok2 Hstill _.
  destruct q as [q|]; [|by apply runs_ret, HQn]. apply (fresh_still _ _ _ Hstill) in Hp.
  destruct (set_by_tag_ok (new_mask cfg) (Some tag) (zlen tag) new_mask_ok) as (h & mask & Hmask & Hwf).
  apply runs_bind. eapply runs_deref; [exact Hmask|]. rewrite (until_nul_id tag Htag).
  set (ck := mk_chunk i event_type false 0 None (Some mask) None (Some tag) 0).
  apply runs_bind. eapply runs_link_chunk; [exact Hok2|exact Hp|done|done|by exists mask|done| |done|].
  { split_and!; cbn; lia. }
  intros s3 Hok3 Hs3 _. assert (Hc3 : chunks_of s3 !! c = Some ck) by (by rewrite Hs3, lookup_insert_eq).
  apply runs_bind, runs_when; intros _; [|by eapply runs_ret, HQs].
  eapply (runs_table_add _ _ _ _ _ _ ck); [exact Hok3|exact Hc3|done|done|].
  intros s4 Hok4 Hs4. eapply runs_ret, HQs; [exact Hok4|by rewrite Hs4|done|done|done].
Qed.

(** ** A chunk to fill *)

Lemma core_ok_weaken clean new L n s : core_ok clean None L n s → core_ok clean new L n s.
Proof. intros []. constructor; [done|done|by apply space_ok_weaken]. Qed.

Lemma core_ok_settle clean c z L n s : core_ok clean (Some (c, z)) L n s →
  (clean = true → ∀ ck o, chunks_of s !! c = Some ck → routed cfg sc ck o = true → ck_size ck ≠ z) → core_ok clean None L n s.
Proof. intros [] Hz. constructor; [done|done|by eapply space_ok_settle]. Qed.

Lemma core_ok_unclean clean new new' L n s : core_ok clean new L n s → core_ok false new' L n s.
Proof. intros []. constructor; [done|done|by eapply space_ok_unclean]. Qed.

Lemma runs_destroy clean c z L n s ck (Q : unit → core S → Prop) :
  core_ok clean (Some (c, z)) L n s → chunks_of s !! c = Some ck → ck_task ck = None →
  (∀ s', core_ok clean None L n s' → Q tt s') → runs (flb_input_chunk_destroy cfg sc c) s Q.
Proof.
  intros Hok Hc Ht HQ. apply runs_bind. eapply runs_chunk_destroy; [exact Hst|exact Hok|done|done|].
  intros s' Hok' Hs' _ _. apply runs_ret, HQ. eapply core_ok_settle; [exact Hok'|]. intros _ ck' o Hc'.
  rewrite Hs', lookup_delete_eq in Hc'. done.
Qed.

Lemma runs_destroy_corrupted clean c L n s ck (Q : unit → core S → Prop) :
  core_ok clean None L n s → chunks_of s !! c = Some ck → ck_task ck = None →
  (∀ s', core_ok clean None L n s' → Q tt s') → runs (flb_input_chunk_destroy_corrupted cfg sc c true) s Q.
Proof.
  intros Hok Hc Ht HQ. destruct (chunk_destroy_spec cfg sc r _ _ _ _ _ _ _ true Hok Hc Ht) as (d' & Hrun & W' & Hd & _ & He).
  destruct Hok as [_ Hs Hsp].
  destruct (forget_spec cfg sc r Hst clean None (chunks_of s) (chunks_of s) c ck (c_sp s) Hc Hc Hsp) as (sp' & Hf & Hsp' & _).
  exists tt, (mk_core d' sp'). split.
  - unfold flb_input_chunk_destroy_corrupted. rewrite Hrun. unfold chunks_of in Hf. by rewrite Hf.
  - apply HQ. constructor; cbn; [done| |by rewrite Hd]. unfold sync_ok. by rewrite He.
Qed.

Lemma not_busy_no_task clean new L n s c ck : core_ok clean new L n s → chunks_of s !! c = Some ck → ck_busy ck = false →
  ck_task ck = None.
Proof.
  intros [W _ _] Hc Hb. destruct (ck_task ck) as [t|] eqn:Ht; [|done].
  destruct (wh_chunk _ _ _ (wf_h _ _ _ W) c ck Hc) as [_ Hk]. destruct (Hk t Ht) as (Ho & k & Hk' & Hic).
  destruct (wh_task _ _ _ (wf_h _ _ _ W) t k Hk' Ho) as (_ & _ & c' & ck' & Hic' & Hc' & _ & Hb' & _).
  unfold chunks_of in Hc. congruence.
Qed.

Lemma runs_lookup clean L n s i event_type tag io (Q : option nat → core S → Prop) :
  core_ok clean None L n s → io_ok io →
  (∀ s', core_ok clean None L n s' → Q None s') →
  (∀ c, core_ok clean None L n s → fillable clean i c s → Q (Some c) s) →
  runs (lookup_chunk cfg sc i event_type tag io) s Q.
Proof.
  intros Hok (_ & _ & _ & Hio) HQn HQs. unfold lookup_chunk. apply runs_bind. eexists _, s. split; [reflexivity|].
  destruct (has_table event_type); [|by apply runs_ret, HQn].
  destruct (sp_table (c_sp s) !! (i, event_type, tag)) as [c|] eqn:Hk; [|by apply runs_ret, HQn].
  destruct (so_table _ _ _ _ _ _ _ (co_space _ _ _ _ _ _ _ _ Hok) _ _ Hk) as (ck & Hc & Hkey & _ & Hdir).
  apply runs_bind. eapply (runs_chunk_at cfg sc c ck); [done|]. destruct (ck_busy ck) eqn:Hb; [by apply runs_ret, HQn|].
  pose proof (not_busy_no_task _ _ _ _ _ _ _ Hok Hc Hb) as Ht. cbn [orb].
  destruct (io_locked io); [by apply runs_ret, HQn|]. destruct (io_up io) eqn:Hup; [| |by apply runs_ret, HQn].
  - apply runs_ret, HQs; [done|]. exists ck. cbn in Hkey. by injection Hkey as -> _.
  - rewrite (Hio eq_refl). apply runs_bind. eapply runs_destroy_corrupted; [done|done|done|].
    intros s' Hok'. by apply runs_ret, HQn.
Qed.

(** Room is made for a chunk that was found, which is counted, or one that was made, which is empty. *)
Lemma runs_get_rest clean L n s c ck chunk_size (found : bool) (Q : option nat → core S → Prop) :
  core_ok clean (Some (c, 0)) L n s → chunks_of s !! c = Some ck → ck_task ck = None →
  (found = true → clean = true → ∀ o, routed cfg sc ck o = true → ck_size ck ≠ 0) →
  (∀ s', core_ok clean None L n s' → Q None s') →
  (∀ s', core_ok clean (Some (c, 0)) L n s' → chunks_of s' !! c = Some ck → Q (Some c) s') →
  runs (e ← mask_is_empty cfg sc c;
        placed ← (if (e : bool) then mret true else flb_input_chunk_place_new_chunk cfg sc c chunk_size);
        if (placed : bool) then mret (Some c)
        else
          e ← mask_is_empty cfg sc c;
          when (negb found || e) (flb_input_chunk_destroy cfg sc c) ≫= λ _, mret None) s Q.
Proof.
  intros Hok Hc Ht Hfound HQn HQs. destruct (core_info _ _ _ _ _ _ _ _ _ _ Hok Hc) as (_ & _ & _ & Hm).
  apply runs_bind. eapply runs_mask_is_empty; [exact Hst|done|done|]. intros e.
  assert (Hrest : ∀ (placed : bool) s1, core_ok clean (Some (c, 0)) L n s1 → chunks_of s1 !! c = Some ck →
    runs (if placed then mret (Some c)
          else e ← mask_is_empty cfg sc c; when (negb found || e) (flb_input_chunk_destroy cfg sc c) ≫= λ _, mret None) s1 Q).
  { intros placed s1 Hok1 Hc1. destruct placed; [by apply runs_ret, HQs|].
    apply runs_bind. eapply runs_mask_is_empty; [exact Hst|done|done|]. intros e'.
    apply runs_bind, runs_when; intros Hw; [eapply runs_destroy; [done|done|done|]; intros s' Hok'; by apply runs_ret, HQn|].
    apply orb_false_iff in Hw as [Hf _]. apply negb_false_iff in Hf. apply runs_ret, HQn. eapply core_ok_settle; [done|].
    intros Hcl ck' o Hc' Hr. rewrite Hc1 in Hc'. injection Hc' as <-. by apply (Hfound Hf Hcl o). }
  apply runs_bind. destruct e; [apply runs_ret; by apply (Hrest true)|].
  eapply runs_place_new_chunk; [done|done|done|done|]. intros res s1 Hok1 Hc1. by apply (Hrest res).
Qed.

Lemma counted_size clean L n s c ck o : core_ok clean None L n s → chunks_of s !! c = Some ck → clean = true →
  routed cfg sc ck o = true → ck_size ck ≠ 0.
Proof.
  intros Hok Hc Hcl Hr. destruct (core_info _ _ _ _ _ _ _ _ _ _ Hok Hc) as (ci & Hci & _).
  destruct (so_charges _ _ _ _ _ _ _ (co_space _ _ _ _ _ _ _ _ Hok) Hcl) as [Hcnt Hrt _].
  destruct (Hrt c ck ci o Hc Hci Hr) as [Hct|]; [|done]. by apply (Hcnt c ck ci).
Qed.

Lemma runs_get clean L n s i event_type tag chunk_size io (Q : option nat → core S → Prop) :
  core_ok clean None L n s → (i < length (cf_inputs cfg))%nat → 0 ∉ tag → io_ok io →
  (∀ s', core_ok clean None L n s' → Q None s') →
  (∀ c s', core_ok clean (Some (c, 0)) L n s' → fillable clean i c s' → Q (Some c) s') →
  runs (input_chunk_get cfg sc onig_match i event_type tag chunk_size io) s Q.
Proof.
  intros Hok Hi Htag Hio HQn HQs. unfold input_chunk_get. cbv zeta. set (tag' := take _ tag).
  assert (Htag' : 0 ∉ tag') by (intros Hin; apply Htag; eapply elem_of_take in Hin as (? & ? & _); by eapply list_elem_of_lookup_2).
  apply runs_bind. eapply runs_lookup; [done|done| |].
  - intros s1 Hok1. apply runs_bind. eapply runs_create; [done|done|done|done| |].
    { intros s2 Hok2. by apply runs_ret, HQn. }
    intros c ck s2 Hok2 Hc Ht Hdir Hin. rewrite bool_decide_true by done.
    eapply (runs_get_rest _ _ _ _ _ _ _ false); [done|done|done|done|done|].
    intros s3 Hok3 Hc3. apply HQs; [done|]. by exists ck.
  - intros c _ (ck & Hc & Ht & Hdir & Hin). apply runs_bind, runs_ret. rewrite bool_decide_false by done.
    eapply (runs_get_rest _ _ _ _ _ ck _ true); [by apply core_ok_weaken|done|done| |done|].
    + intros _ Hcl o. by eapply counted_size.
    + intros s3 Hok3 Hc3. apply HQs; [done|]. by exists ck.
Qed.

(** ** Writing *)

Lemma core_ok_emit clean new L n d sp x : core_ok clean new L n (mk_core d sp) →
  core_ok clean new L n (mk_core (set_env (set_e_log (e_log (env_of d) ++ [x]) (env_of d)) d) sp).
Proof.
  intros [W Hs Hsp]. cbn in *. constructor; cbn; [|exact (sync_ok_run cfg (emit x) d tt _ eq_refl Hs)|done].
  eapply delivery_safe_intro. by apply (wf_emit cfg _ d x).
Qed.

Lemma runs_emit x d sp (Q : unit → core S → Prop) :
  Q tt (mk_core (set_env (set_e_log (e_log (env_of d) ++ [x]) (env_of d)) d) sp) → runs (deliver (emit x)) (mk_core d sp) Q.
Proof. intros HQ. eexists tt, _. split; [|exact HQ]. by apply deliver_run. Qed.

(** [flb_input_chunk_update_output_instances] in any state *)
Lemma runs_update_outputs c ck ci x d sp (Q : unit → core S → Prop) b fs' :
  d_chunks d !! c = Some ck → sp_info sp !! c = Some ci →
  charge_outputs cfg sc ck x 0 (cf_outputs cfg) (sp_fs sp) = Some (b, fs') →
  Q tt (mk_core d (mk_space (<[c := if b then set_ci_fs_counted true ci else ci]> (sp_info sp)) fs' (sp_table sp) (sp_reads sp))) →
  runs (flb_input_chunk_update_output_instances cfg sc c x) (mk_core d sp) Q.
Proof.
  intros Hc Hci Hch HQ. unfold flb_input_chunk_update_output_instances. apply runs_bind. eapply (runs_chunk_at cfg sc c ck); [done|].
  apply runs_bind, (runs_info_at c ci); [done|]. apply runs_bind. eexists _, _. split; [reflexivity|].
  apply runs_bind. eapply runs_deref; [exact Hch|]. apply runs_bind. eapply runs_on_space; [reflexivity|].
  apply runs_when; intros ->; [eapply runs_on_space; [reflexivity|]; exact HQ|].
  rewrite insert_id in HQ by done. exact HQ.
Qed.

Definition fill (c : nat) (ck' : flb_input_chunk) (ci' : chunk_info) (s : core S) : core S :=
  mk_core (set_d_chunks (<[c := ck']> (d_chunks (c_d s))) (c_d s))
    (mk_space (<[c := ci']> (sp_info (c_sp s))) (sp_fs (c_sp s)) (sp_table (c_sp s)) (sp_reads (c_sp s))).

Lemma set_ck_content_refilled clean records size ck : refilled clean ck (set_ck_content records size ck).
Proof. by constructor. Qed.

(** The state once the data is written is fine but for the charges. *)
Lemma core_ok_refill clean c z L n s ck ci records size ci' :
  core_ok clean (Some (c, z)) L n s → chunks_of s !! c = Some ck → sp_info (c_sp s) !! c = Some ci →
  let ck' := set_ck_content records size ck in
  sizes_ok ck' ci' → ci_fs_counted ci' = ci_fs_counted ci → (clean = true → ci_fs_counted ci = false) →
  core_ok clean (Some (c, size)) L n (fill c ck' ci' s).
Proof.
  intros Hok Hc Hci ck' Hsz Hsc Hnc. destruct (core_info _ _ _ _ _ _ _ _ _ _ Hok Hc) as (_ & _ & _ & Hm). destruct s as [d sp].
  eapply core_ok_chunk; [done|exact Hok|exact Hc|done..|exact Hm|].
  apply (space_ok_refill cfg sc r clean c z (d_chunks d) sp ck ci ck' ci'); try done. apply Hok.
Qed.

(** The charges follow. *)
Lemma runs_account clean c i L n s ck ci records size ci' (Q : Z → core S → Prop) :
  core_ok clean (Some (c, 0)) L n s → chunks_of s !! c = Some ck → sp_info (c_sp s) !! c = Some ci →
  let ck' := set_ck_content records size ck in
  let pre := if ck_size ck =? 0 then 0 else flb_input_chunk_get_real_size ck ci in
  sizes_ok ck' ci' → size ≠ 0 → ci_fs_counted ci' = ci_fs_counted ci → sc_routable sc !! ck_in ck = Some true →
  (∀ s', core_ok clean None L n s' → Q 0 s') →
  runs (deliver (flb_input_chunk_set_limits i) ≫= λ _,
        size' ← real_size cfg sc c;
        let real_diff := size' - pre in
        when (negb (real_diff =? 0)) (flb_input_chunk_update_output_instances cfg sc c real_diff) ≫= λ _,
        mret 0) (fill c ck' ci' s) Q.
Proof.
  intros Hok Hc Hci ck' pre Hsz Hne Hsc Hrb HQ. destruct (core_info _ _ _ _ _ _ _ _ _ _ Hok Hc) as (ci0 & Hci0 & Hsz0 & Hm).
  rewrite Hci in Hci0. injection Hci0 as <-. destruct s as [d sp]. unfold fill, chunks_of in *. cbn [c_d c_sp] in *.
  set (d' := set_d_chunks _ d). set (sp' := mk_space _ _ _ _).
  apply runs_bind, runs_emit. set (d'' := set_env _ d').
  assert (Hc' : d_chunks d'' !! c = Some ck') by apply lookup_insert_eq.
  assert (Hci' : sp_info sp' !! c = Some ci') by apply lookup_insert_eq.
  apply runs_bind, runs_bind. eapply (runs_chunk_at cfg sc c ck'); [done|]. apply runs_bind, (runs_info_at c ci'); [done|].
  apply runs_ret. cbv zeta. set (real := flb_input_chunk_get_real_size ck' ci').
  pose proof (so_fs _ _ _ _ _ _ _ (co_space _ _ _ _ _ _ _ _ Hok)) as Hfs.
  assert (Hreal : 0 < real) by by apply real_size_pos.
  assert (Hdone : ∀ ci'' fs', flb_input_chunk_get_real_size ck' ci'' = real → sizes_ok ck' ci'' →
    (clean = true → ∀ o, routed cfg sc ck o = true → ci_fs_counted ci'' = true) → recharge cfg sc ck pre real (sp_fs sp) fs' →
    core_ok clean None L n (mk_core d'' (mk_space (<[c := ci'']> (sp_info sp)) fs' (sp_table sp) (sp_reads sp)))).
  { intros ci'' fs' Hreal' Hsz'' Hct Hre. apply core_ok_emit.
    eapply core_ok_chunk; [done|exact Hok|exact Hc|done..|exact Hm|].
    eapply (space_ok_charge cfg sc r clean c 0 (d_chunks d) sp ck ci ck' ci'' pre); try done; [|by rewrite Hreal'|apply Hok].
    intros Hcl o Hr. split; [by eapply Hct|]. unfold charge. rewrite Hr. cbn.
    destruct (so_charges _ _ _ _ _ _ _ (co_space _ _ _ _ _ _ _ _ Hok) Hcl) as [Hcnt Hrt _].
    unfold pre. destruct (Hrt c ck ci o Hc Hci Hr) as [Hcount|[= Hz]].
    - rewrite Hcount. destruct (Hcnt c ck ci Hc Hci Hcount) as [Hnz _]. by rewrite (proj2 (Z.eqb_neq _ _) Hnz).
    - rewrite <- Hz. cbn. destruct (ci_fs_counted ci) eqn:Hcount; [|done]. by destruct (Hcnt c ck ci Hc Hci Hcount) as [[] _]. }
  apply runs_bind, runs_when; intros Hdiff.
  - destruct (recharge_run cfg sc r Hst ck' pre real (sp_fs sp) Hm Hfs) as (b & fs' & Hrun & [Hre1 Hre2] & Hb).
    eapply runs_update_outputs; [exact Hc'|exact Hci'|exact Hrun|]. apply runs_ret, HQ.
    subst sp'. cbn. rewrite insert_insert_eq. apply Hdone; [by destruct b|by destruct b| |by constructor].
    intros _ o Hr. assert (b = true) as -> by (apply Hb; by exists o). done.
  - apply negb_false_iff, Z.eqb_eq in Hdiff. apply runs_ret, HQ, Hdone; [done|done| |].
    + intros Hcl o Hr. rewrite Hsc. destruct (so_charges _ _ _ _ _ _ _ (co_space _ _ _ _ _ _ _ _ Hok) Hcl) as [_ Hrt _].
      destruct (Hrt c ck ci o Hc Hci Hr) as [|[= Hz]]; [done|]. unfold pre in Hdiff. rewrite <- Hz in Hdiff. cbn in Hdiff. lia.
    + replace pre with real by lia. apply recharge_none.
Qed.

Lemma runs_append_data clean i c n_records size io L n s (Q : Z → core S → Prop) :
  core_ok clean (Some (c, 0)) L n s → fillable clean i c s → (i < length (cf_inputs cfg))%nat → 0 <= size → io_ok io →
  (∀ v s', core_ok (clean && io_write io) None L n s' → Q v s') →
  runs (append_data cfg sc i c n_records size io) s Q.
Proof.
  intros Hok (ck & Hc & Ht & Hdir & Hin) Hi Hsize (Hfil & Hreal & _) HQ.
  destruct (core_info _ _ _ _ _ _ _ _ _ _ Hok Hc) as (ci & Hci & Hsz & Hm). unfold append_data.
  apply runs_bind. eapply (runs_chunk_at cfg sc c ck); [done|]. apply runs_bind, (runs_info_at c ci); [done|]. cbv zeta.
  set (final := if ck_event_type ck =? FLB_INPUT_LOGS then io_filtered io else size).
  assert (Hfinal : 0 <= final) by (subst final; destruct (_ =? _); lia).
  destruct ((0 <? final) && negb (io_write io)) eqn:Hw.
  { apply andb_true_iff in Hw as [_ Hw]. apply negb_true_iff in Hw. rewrite Hw, andb_false_r in HQ.
    apply runs_ret, HQ. by eapply core_ok_unclean. }
  assert (HQ' : ∀ v s', core_ok clean None L n s' → Q v s').
  { intros v s' Hok'. apply HQ. destruct (io_write io); [by rewrite andb_true_r|]. rewrite andb_false_r. by eapply core_ok_unclean. }
  clear HQ. set (content := ck_size ck + final). set (ck' := set_ck_content (ck_total_records ck + n_records) content ck).
  set (ci' := if 0 <? final then set_ci_real_size (io_real_size io) ci else ci).
  assert (Hsz' : sizes_ok ck' ci').
  { destruct Hsz as (? & ? & ?). subst ci' content. unfold sizes_ok. cbn. destruct (0 <? final); cbn; lia. }
  assert (Hsc : ci_fs_counted ci' = ci_fs_counted ci) by (subst ci'; by destruct (0 <? final)).
  assert (Hc' : chunks_of (fill c ck' ci' s) !! c = Some ck') by apply lookup_insert_eq.
  apply runs_bind. eapply runs_store_chunk; [exact Hc|]. apply runs_bind.
  match goal with |- runs _ _ ?P => assert (Hafter : P tt (fill c ck' ci' s)) end.
  2: { apply runs_when; intros Hf; subst ci'; rewrite Hf in Hafter; [eapply runs_on_space; [reflexivity|exact Hafter]|].
       unfold fill in Hafter. rewrite (insert_id (sp_info (c_sp s)) c ci Hci) in Hafter. destruct s as [d []]; exact Hafter. }
  cbn beta. destruct (Z.eqb_spec content 0) as [Hz|Hz].
  - apply runs_bind. eapply (runs_destroy _ c content); [|exact Hc'|done|].
    + eapply core_ok_refill; try done. intros Hcl.
      destruct (so_charges _ _ _ _ _ _ _ (co_space _ _ _ _ _ _ _ _ Hok) Hcl) as [Hcnt _ _].
      destruct (ci_fs_counted ci) eqn:Hct; [|done]. destruct (Hcnt c ck ci Hc Hci Hct) as [Hne _]. destruct Hsz. lia.
    + intros [d sp] Hok'. apply runs_bind, runs_emit, runs_ret, HQ'. by apply core_ok_emit.
  - destruct (lookup_lt_is_Some_2 (sc_routable sc) i) as [routable Hrb]; [by rewrite (st_routable _ _ _ Hst)|].
    apply runs_bind. eapply runs_deref; [exact Hrb|]. destruct routable; cbn [negb].
    + eapply (runs_account clean c i L n s ck ci); try done; [by rewrite Hin|]. apply HQ'.
    + apply runs_bind. eapply (runs_destroy _ c content); [|exact Hc'|done|intros s' Hok'; by apply runs_ret, HQ'].
      eapply core_ok_refill; try done. intros Hcl.
      destruct (so_charges _ _ _ _ _ _ _ (co_space _ _ _ _ _ _ _ _ Hok) Hcl) as [Hcnt _ _].
      destruct (ci_fs_counted ci) eqn:Hct; [|done]. destruct (Hcnt c ck ci Hc Hci Hct) as [_ Hr].
      rewrite Hin in Hr. specialize (Hr (Hdir Hcl)). congruence.
Qed.

Definition writes (io : append_io) : bool := io_up_write io && io_write io.

Lemma runs_append_raw clean i event_type n_records tag buf_size io L n s ins (Q : Z → core S → Prop) :
  core_ok clean None L n s → cf_inputs cfg !! i = Some ins → 0 ∉ default (default_tag ins) tag → 0 <= buf_size → io_ok io →
  (∀ v s', core_ok (clean && writes io) None L n s' → Q v s') →
  runs (input_chunk_append_raw cfg sc onig_match i event_type n_records tag buf_size io) s Q.
Proof.
  intros Hok Hins Htag Hsize Hio HQ. assert (Hi : (i < length (cf_inputs cfg))%nat) by by eapply lookup_lt_Some.
  assert (HQ' : ∀ v s', core_ok clean None L n s' → Q v s').
  { intros v s' Hok'. apply HQ. destruct (writes io); [by rewrite andb_true_r|]. rewrite andb_false_r. by eapply core_ok_unclean. }
  destruct (lookup_lt_is_Some_2 (sc_storage_type sc) i) as [type Htype]; [by rewrite (st_types _ _ _ Hst)|].
  unfold input_chunk_append_raw. apply runs_bind. eapply runs_deref; [exact Hins|].
  apply runs_bind. eapply runs_deref; [exact Htype|]. apply runs_bind.
  match goal with |- runs _ _ ?P => assert (Hrest : ∀ room s1, core_ok clean None L n s1 → P room s1) end.
  { intros room s1 Hok1. cbn beta. destruct room; cbn [negb]; [|by apply runs_ret, HQ'].
    destruct (io_paused io); [by apply runs_ret, HQ'|]. destruct (buf_size =? 0); [by apply runs_ret, HQ'|].
    apply runs_bind. eapply runs_get; [done|done|done|done| |].
    - intros s2 Hok2. by apply runs_ret, HQ'.
    - intros c s2 Hok2 Hfill. unfold writes in HQ. destruct (io_up_write io); cbn [negb].
      + eapply runs_append_data; try done.
      + rewrite andb_false_r in HQ. apply runs_ret, HQ. by eapply core_ok_unclean. }
  destruct ((type =? FLB_STORAGE_MEMRB) && io_mem_overlimit io); [|by apply runs_ret, Hrest].
  eapply runs_memrb_release_space; [done|done|done|done|]. intros res s1 Hok1. by apply Hrest.
Qed.

(** ** Chunks of the backlog *)

Lemma set_bits_ok outs : ∀ mask, mask_wf r mask → Forall (is_output cfg) outs →
  ∃ mask', set_bits cfg mask outs = Some mask' ∧ mask_wf r mask'.
Proof.
  induction outs as [|o outs IH]; intros mask Hm Houts; [by exists mask|]. apply Forall_cons in Houts as [Ho Houts].
  destruct (lookup_lt_is_Some_2 _ _ Ho) as [ins Hins]. cbn [set_bits]. rewrite Hins. cbn [mbind option_bind].
  rewrite (st_router _ _ _ Hst).
  destruct (set_bit_spec r mask (o_id ins) (st_router_wf _ _ _ Hst) Hm) as (m & -> & Hm' & _); [|by apply IH].
  eapply st_slots; [done|]. by eapply list_elem_of_lookup_2.
Qed.

Lemma runs_routes_restored clean L n routes : ∀ s (Q : bool → core S → Prop),
  core_ok clean None L n s → (∀ b s', core_ok clean None L n s' → still s s' → Q b s') →
  runs (routes_restored cfg sc routes) s Q.
Proof.
  induction routes as [|route routes IH]; intros s Q Hok HQ; cbn [routes_restored]; [by apply runs_ret, HQ, still_refl|].
  apply runs_bind. eapply runs_collect; [done|]. intros ret matches s1 Hok1 Hs1 _. cbn beta iota.
  destruct (negb (ret =? 0) || _); [by apply runs_ret, HQ|]. apply IH; [done|]. intros b s2 Hok2 Hs2.
  apply HQ; [done|]. by eapply still_trans.
Qed.

Lemma runs_restore_routes clean L n routes : ∀ mask has s (Q : Z * list Z → core S → Prop),
  core_ok clean None L n s → mask_wf r mask →
  (∀ has' mask' s', core_ok clean None L n s' → still s s' → mask_wf r mask' → Q (has', mask') s') →
  runs (restore_routes cfg sc mask has routes) s Q.
Proof.
  induction routes as [|route routes IH]; intros mask has s Q Hok Hm HQ; cbn [restore_routes]; [by apply runs_ret, HQ; [|apply still_refl|]|].
  apply runs_bind. eapply runs_collect; [done|]. intros ret matches s1 Hok1 Hs1 Hout. cbn beta iota.
  assert (Hnext : ∀ mask' has', mask_wf r mask' → runs (restore_routes cfg sc mask' has' routes) s1 Q).
  { intros mask' has' Hm'. apply IH; [done|done|]. intros h m s2 Hok2 Hs2 Hm2. apply HQ; [done|by eapply still_trans|done]. }
  destruct (negb (ret =? 0) || _); [by apply Hnext|]. destruct (set_bits_ok matches mask Hm Hout) as (mask' & Hset & Hm').
  apply runs_bind. eapply runs_deref; [exact Hset|]. by apply Hnext.
Qed.

Lemma runs_restore_mask clean L n s tag direct (Q : list Z → core S → Prop) :
  core_ok clean None L n s →
  (∀ mask s', core_ok clean None L n s' → still s s' → mask_wf r mask → Q mask s') →
  runs (restore_mask cfg sc onig_match tag direct) s Q.
Proof.
  intros Hok HQ. unfold restore_mask. destruct direct as [status routes]. cbv zeta.
  assert (Htag : ∀ mask s1, core_ok clean None L n s1 → still s s1 → mask_wf r mask →
    runs ('(_, mask') ← deref (flb_routes_mask_set_by_tag onig_match mask (Some tag) (zlen tag)
                                 (Some (cf_router cfg, cf_outputs cfg))); mret mask') s1 Q).
  { intros mask s1 Hok1 Hs1 Hm. destruct (set_by_tag_ok mask (Some tag) (zlen tag) Hm) as (h & m & Hrun & Hm').
    apply runs_bind. eapply runs_deref; [exact Hrun|]. by apply runs_ret, HQ. }
  assert (Hrest : ∀ (loaded : bool) s1, core_ok clean None L n s1 → still s s1 →
    runs (if loaded then
            '(has_routes, mask) ← restore_routes cfg sc (new_mask cfg) 0 routes;
            if has_routes =? 0 then '(_, mask') ← deref (flb_routes_mask_set_by_tag onig_match mask (Some tag) (zlen tag)
                                       (Some (cf_router cfg, cf_outputs cfg))); mret mask' else mret mask
          else '(_, mask') ← deref (flb_routes_mask_set_by_tag onig_match (new_mask cfg) (Some tag) (zlen tag)
                                      (Some (cf_router cfg, cf_outputs cfg))); mret mask') s1 Q).
  { intros loaded s1 Hok1 Hs1. destruct loaded; [|by apply Htag, new_mask_ok].
    apply runs_bind. eapply runs_restore_routes; [done|apply new_mask_ok|]. intros has mask s2 Hok2 Hs2 Hm.
    pose proof (still_trans _ _ _ Hs1 Hs2). destruct (has =? 0); [by apply Htag|by apply runs_ret, HQ]. }
  apply runs_bind. destruct (_ && _); [|apply runs_ret; apply (Hrest false); [done|apply still_refl]].
  eapply runs_routes_restored; [done|]. intros b s1 Hok1 Hs1. by apply (Hrest b).
Qed.

(** The sizes are sizes, valid records take space, and the stored routes lead to distinct outputs. *)
Definition map_ok (io : map_io) : Prop :=
  (mp_records io = 0 ∨ mp_content_size io = -1 ∨ 0 < mp_content_size io) ∧
  0 <= ci_real_size (mp_info io) ∧ 0 <= ci_meta_size (mp_info io) ∧
  (∀ routes, mp_direct io = (0, routes) → NoDup (direct_all (cf_outputs cfg) routes)).

Lemma runs_map clean L n s i event_type io (Q : option nat → core S → Prop) :
  core_ok clean None L n s → (i < length (cf_inputs cfg))%nat → map_ok io →
  (∀ v s', core_ok clean None L n s' → Q v s') →
  runs (flb_input_chunk_map cfg sc onig_match i event_type io) s Q.
Proof.
  intros Hok Hi (Hsize & Hreal & Hmeta & Hdir) HQ. unfold flb_input_chunk_map.
  apply runs_bind. eapply runs_malloc; [done|]. intros p s1 Hok1 _ Hp. destruct p as [c|]; [|by apply runs_ret, HQ].
  specialize (Hp c eq_refl). destruct (mp_content io); cbn [negb]; [|by apply runs_ret, HQ].
  apply runs_bind. eapply runs_malloc; [done|]. intros q s2 Hok2 Hs2 _. apply (fresh_still _ _ _ Hs2) in Hp.
  destruct q as [q|]; [|by apply runs_ret, HQ]. cbv zeta.
  set (validated := (event_type =? FLB_INPUT_LOGS) || _). set (records := if validated then mp_records io else 0).
  destruct (validated && _ && _); [by apply runs_ret, HQ|]. destruct (Z.eqb_spec records 0) as [|Hrec]; [by apply runs_ret, HQ|].
  destruct (Z.eqb_spec (mp_content_size io) (-1)) as [|Hcs]; [by apply runs_ret, HQ|].
  destruct (mp_tag io) as [tag|]; [|by apply runs_ret, HQ].
  assert (Hpos : 0 < mp_content_size io) by (unfold records in Hrec; destruct validated; [tauto|done]).
  apply runs_bind. eapply runs_restore_mask; [done|]. intros mask s3 Hok3 Hs3 Hm. apply (fresh_still _ _ _ Hs3) in Hp.
  destruct (_ <? 0); [by apply runs_ret, HQ|].
  set (ck := mk_chunk _ _ _ _ _ _ _ _ _). set (ci := set_ci_fs_counted false _).
  assert (Hsz : sizes_ok ck ci) by (split_and!; cbn; lia). assert (Hmo : mask_ok r ck) by by exists mask.
  apply runs_bind. eapply runs_link_chunk; [exact Hok3|exact Hp|done|done|done| |done|done|].
  { intros routes [= Hd]. by apply Hdir. }
  intros [d sp] Hok4 Hch Hci. apply runs_bind. unfold chunks_of in Hch. cbn [c_d c_sp] in *.
  assert (Hc : d_chunks d !! c = Some ck) by (rewrite Hch; apply lookup_insert_eq).
  pose proof (so_fs _ _ _ _ _ _ _ (co_space _ _ _ _ _ _ _ _ Hok4)) as Hfs.
  destruct (recharge_run cfg sc r Hst ck 0 (flb_input_chunk_get_real_size ck ci) (sp_fs sp) Hmo Hfs) as (b & fs' & Hrun & Hre & Hb).
  rewrite Z.sub_0_r in Hrun. eapply runs_update_outputs; [exact Hc|exact Hci|exact Hrun|]. apply runs_ret, HQ.
  destruct Hok4 as [W4 Hsy4 Hsp4]. constructor; [exact W4|exact Hsy4|]. cbn [c_d c_sp] in *.
  rewrite <- (insert_id (d_chunks d) c ck Hc) at 1.
  eapply (space_ok_charge cfg sc r clean c _ _ sp ck ci ck _ 0); [done|done|done|done|cbn; lia|by destruct b|done| | |exact Hsp4].
  - intros _ o Hr. assert (b = true) as -> by (apply Hb; by exists o). split; [done|].
    unfold charge. cbn. by rewrite andb_false_r.
  - by destruct b.
Qed.
End specs.
