(* ===== verification/ChunkMeta.v ===== *)
(** * The metadata of chunks ([src/flb_input_chunk.c]: headers, tags and direct routes)

    A chunk carries a header of four bytes, its tag and, when routes were chosen for it, these routes:
    ids, labels and names of plugins, each with its length.  The header is written when the chunk is
    filled and read back, possibly by another process after a restart, from a file that may be damaged.

    The blocks the functions allocate are kept in a multiset, so that a leak or a second [free] shows.
    A pointer to text is the block (0 for one of the caller) with the bytes from there to the end of the
    object.  Reading past the routing data counts as undefined, even where the metadata goes on. *)
From S2P Require Import Prelude CStd Env Heap Router RoutesMask Delivery Engine ChunkSpace ChunkRelease InputChunk.

Definition FLB_INPUT_BLOBS : Z := 3.
Definition FLB_CHUNK_FLAG_DIRECT_ROUTES : Z := Z.shiftl 1 0.
Definition FLB_CHUNK_FLAG_DIRECT_ROUTE_LABELS : Z := Z.shiftl 1 1.
Definition FLB_CHUNK_FLAG_DIRECT_ROUTE_WIDE_IDS : Z := Z.shiftl 1 2.
Definition FLB_CHUNK_FLAG_DIRECT_ROUTE_PLUGIN_IDS : Z := Z.shiftl 1 3.
Definition FLB_CHUNK_DIRECT_ROUTE_LABEL_ALIAS_FLAG : Z := 0x8000.
Definition FLB_CHUNK_DIRECT_ROUTE_LABEL_LENGTH_MASK : Z := 0x7FFF.
Definition FLB_INPUT_CHUNK_MAGIC_BYTE_0 : Z := 0xF1.
Definition FLB_INPUT_CHUNK_MAGIC_BYTE_1 : Z := 0x77.
Definition FLB_INPUT_CHUNK_TYPE_LOGS : Z := 0.
Definition FLB_INPUT_CHUNK_TYPE_METRICS : Z := 1.
Definition FLB_INPUT_CHUNK_TYPE_TRACES : Z := 2.
Definition FLB_INPUT_CHUNK_TYPE_BLOBS : Z := 3.
Definition FLB_INPUT_CHUNK_TYPE_PROFILES : Z := 4.
Definition UINT16_MAX : Z := 65535.

(** [struct flb_chunk_direct_route] with the pointers *)
Record stored_route := mk_stored {
  st_id : Z;
  st_label : option (nat * list Z);
  st_label_length : Z;
  st_label_is_alias : Z;
  st_plugin_name : option (nat * list Z);
  st_plugin_name_length : Z
}.

(** What the tasks look at of it *)
Definition to_direct (r : stored_route) : flb_chunk_direct_route :=
  mk_direct (st_id r) (until_nul ∘ snd <$> st_label r) (st_label_length r)
    (until_nul ∘ snd <$> st_plugin_name r) (st_plugin_name_length r).

(** [strlen]: the text has to end within its object. *)
Fixpoint strlen (s : list Z) : option Z :=
  match s with [] => None | b :: s' => if b =? 0 then Some 0 else n ← strlen s'; Some (n + 1) end.

(** The [n] bytes at [off] *)
Definition slice (d : list Z) (off n : Z) : option (list Z) :=
  if (0 <=? off) && (0 <=? n) && (off + n <=? zlen d) then Some (take (Z.to_nat n) (drop (Z.to_nat off) d)) else None.

(** [memcpy(buf + off, bytes, n)] *)
Definition memcpy_at (buf : list Z) (off : Z) (bytes : list Z) : option (list Z) :=
  if (0 <=? off) && (off + zlen bytes <=? zlen buf)
  then Some (take (Z.to_nat off) buf ++ bytes ++ drop (Z.to_nat (off + zlen bytes)) buf) else None.

(** Two bytes, the higher one first *)
Definition put16 (buf : list Z) (off v : Z) : option (list Z) :=
  b ← zinsert off (u8 (Z.shiftr v 8)) buf; zinsert (off + 1) (u8 (Z.land v 0xFF)) b.
Definition get16 (d : list Z) (off : Z) : option Z :=
  a ← d !z off; b ← d !z (off + 1); Some (Z.lor (Z.shiftl a 8) b).

(** ** Writing *)

(** The byte for the event type *)
Definition chunk_type (event_type : Z) : Z :=
  if event_type =? FLB_INPUT_LOGS then FLB_INPUT_CHUNK_TYPE_LOGS
  else if event_type =? FLB_INPUT_METRICS then FLB_INPUT_CHUNK_TYPE_METRICS
  else if event_type =? FLB_INPUT_TRACES then FLB_INPUT_CHUNK_TYPE_TRACES
  else if event_type =? FLB_INPUT_PROFILES then FLB_INPUT_CHUNK_TYPE_PROFILES
  else 0.

(** The lengths of label and plugin name that are stored *)
Definition resolved_label (r : stored_route) : option Z :=
  match st_label r with
  | None => Some 0
  | Some (_, mem) =>
      n ← (if st_label_length r =? 0 then n ← strlen mem; Some (if UINT16_MAX <? n then UINT16_MAX else n)
           else Some (st_label_length r));
      Some (if negb (st_label_is_alias r =? 0) && (FLB_CHUNK_DIRECT_ROUTE_LABEL_LENGTH_MASK <? n)
            then FLB_CHUNK_DIRECT_ROUTE_LABEL_LENGTH_MASK else n)
  end.
Definition resolved_plugin (r : stored_route) : option Z :=
  match st_plugin_name r with
  | None => Some 0
  | Some (_, mem) =>
      if st_plugin_name_length r =? 0 then n ← strlen mem; Some (if UINT16_MAX <? n then UINT16_MAX else n)
      else Some (st_plugin_name_length r)
  end.

(** What the loop over the routes finds out *)
Record totals := mk_totals {
  tl_wide_ids : bool; tl_has_labels : bool; tl_has_plugins : bool; tl_labels : Z; tl_plugins : Z
}.

Fixpoint resolve (routes : list stored_route) (t : totals) : option (list (Z * Z) * totals) :=
  match routes with
  | [] => Some ([], t)
  | r :: routes' =>
      l ← resolved_label r;
      p ← resolved_plugin r;
      '(ls, t') ← resolve routes'
        (mk_totals (tl_wide_ids t || (UINT16_MAX <? st_id r)) (tl_has_labels t || (0 <? l))
           (tl_has_plugins t || (0 <? p)) (tl_labels t + l) (tl_plugins t + p));
      Some ((l, p) :: ls, t')
  end.

Definition put_id (wide : bool) (buf : list Z) (off id : Z) : option (list Z) :=
  if wide then
    b ← zinsert off (u8 (Z.land (Z.shiftr id 24) 0xFF)) buf;
    b ← zinsert (off + 1) (u8 (Z.land (Z.shiftr id 16) 0xFF)) b;
    b ← zinsert (off + 2) (u8 (Z.land (Z.shiftr id 8) 0xFF)) b;
    zinsert (off + 3) (u8 (Z.land id 0xFF)) b
  else
    b ← zinsert off (u8 (Z.land (Z.shiftr id 8) 0xFF)) buf;
    zinsert (off + 1) (u8 (Z.land id 0xFF)) b.
Definition id_bytes (wide : bool) : Z := if wide then 4 else 2.

Fixpoint put_ids (wide : bool) (buf : list Z) (off : Z) (routes : list stored_route) : option (list Z) :=
  match routes with
  | [] => Some buf
  | r :: routes' => b ← put_id wide buf off (st_id r); put_ids wide b (off + id_bytes wide) routes'
  end.

(** A loop that stores lengths: the buffer and the offset after it *)
Fixpoint put_lengths (buf : list Z) (off : Z) (lengths : list Z) : option (list Z * Z) :=
  match lengths with
  | [] => Some (buf, off)
  | n :: lengths' => b ← put16 buf off n; put_lengths b (off + 2) lengths'
  end.

(** A loop that stores texts *)
Fixpoint put_texts (buf : list Z) (off : Z) (texts : list (Z * option (nat * list Z))) : option (list Z * Z) :=
  match texts with
  | [] => Some (buf, off)
  | (n, text) :: texts' =>
      b ← match text with
          | Some (_, mem) => if 0 <? n then bytes ← slice mem 0 n; memcpy_at buf off bytes else Some buf
          | None => Some buf
          end;
      put_texts b (off + n) texts'
  end.

Definition stored_label_length (r : stored_route) (n : Z) : Z :=
  if negb (st_label_is_alias r =? 0) && (0 <? n) then
    Z.lor (if FLB_CHUNK_DIRECT_ROUTE_LABEL_LENGTH_MASK <? n then FLB_CHUNK_DIRECT_ROUTE_LABEL_LENGTH_MASK else n)
      FLB_CHUNK_DIRECT_ROUTE_LABEL_ALIAS_FLAG
  else n.

(** The count, the ids, the labels and the plugin names; [resolved] and [t] are from [resolve]. *)
Definition fill_routes (meta : list Z) (offset : Z) (routes : list stored_route) (resolved : list (Z * Z)) (t : totals)
    : option (list Z) :=
  meta ← put16 meta (offset + 2) (u16 (zlen routes));
  meta ← put_ids (tl_wide_ids t) meta (offset + 4) routes;
  let label_offset := offset + 4 + zlen routes * id_bytes (tl_wide_ids t) in
  '(meta, label_offset) ← (if tl_has_labels t then
      '(meta, off) ← put_lengths meta label_offset (zip_with stored_label_length routes resolved.*1);
      put_texts meta off (zip resolved.*1 (st_label <$> routes))
    else Some (meta, label_offset));
  '(meta, _) ← (if tl_has_plugins t then
      '(meta, off) ← put_lengths meta label_offset resolved.*2;
      put_texts meta off (zip resolved.*2 (st_plugin_name <$> routes))
    else Some (meta, label_offset));
  Some meta.

Definition route_flags (t : totals) : Z :=
  let flags := FLB_CHUNK_FLAG_DIRECT_ROUTES in
  let flags := if tl_has_labels t then Z.lor flags FLB_CHUNK_FLAG_DIRECT_ROUTE_LABELS else flags in
  let flags := if tl_wide_ids t then Z.lor flags FLB_CHUNK_FLAG_DIRECT_ROUTE_WIDE_IDS else flags in
  if tl_has_plugins t then Z.lor flags FLB_CHUNK_FLAG_DIRECT_ROUTE_PLUGIN_IDS else flags.

(** From the buffer of zeros to the metadata *)
Definition fill_meta (event_type : Z) (tag : list Z) (tag_len : Z) (routes : list stored_route)
    (resolved : list (Z * Z)) (t : totals) (routing_length meta_size : Z) : option (list Z) :=
  let meta := replicate (Z.to_nat meta_size) 0 in
  meta ← zinsert 0 FLB_INPUT_CHUNK_MAGIC_BYTE_0 meta;
  meta ← zinsert 1 FLB_INPUT_CHUNK_MAGIC_BYTE_1 meta;
  meta ← zinsert 2 (chunk_type event_type) meta;
  meta ← zinsert 3 (route_flags t) meta;
  bytes ← slice tag 0 tag_len;
  meta ← memcpy_at meta FLB_INPUT_CHUNK_META_HEADER bytes;
  meta ← zinsert (FLB_INPUT_CHUNK_META_HEADER + tag_len) 0 meta;
  let offset := FLB_INPUT_CHUNK_META_HEADER + tag_len + 1 in
  meta ← put16 meta offset routing_length;
  fill_routes meta offset routes resolved t.

(** The size of the routing data *)
Definition routing_payload_bytes (route_count : Z) (t : totals) : Z :=
  2 + route_count * id_bytes (tl_wide_ids t) +
  (if tl_has_labels t then route_count * 2 + tl_labels t else 0) +
  (if tl_has_plugins t then route_count * 2 + tl_plugins t else 0).

(** The tag is cut to the room that the other metadata leaves. *)
Definition max_tag_length (routing_length : Z) : Z :=
  let n := 65535 - (FLB_INPUT_CHUNK_META_HEADER + 1 + 2 + routing_length) in if n <? 0 then 0 else n.

Section write.
(** Whether chunkio accepts the metadata, in [cio_meta_write]. *)
Variable cio_meta_write : list Z → bool.

(** The result comes with the metadata that was written. *)
Definition input_chunk_write_header (event_type : Z) (tag : list Z) (tag_len : Z) : M heap (Z * option (list Z)) :=
  let tag_len := if 65535 - FLB_INPUT_CHUNK_META_HEADER <? tag_len then 65535 - FLB_INPUT_CHUNK_META_HEADER
                 else tag_len in
  p ← alloc;
  match p with
  | None => mret (-1, None)
  | Some a =>
      let meta := replicate (Z.to_nat (FLB_INPUT_CHUNK_META_HEADER + tag_len)) 0 in
      meta ← deref (
        meta ← zinsert 0 FLB_INPUT_CHUNK_MAGIC_BYTE_0 meta;
        meta ← zinsert 1 FLB_INPUT_CHUNK_MAGIC_BYTE_1 meta;
        meta ← zinsert 2 (chunk_type event_type) meta;
        meta ← zinsert 3 0 meta;
        bytes ← slice tag 0 tag_len;
        memcpy_at meta FLB_INPUT_CHUNK_META_HEADER bytes);
      free_block a ≫= λ _,
      mret (if cio_meta_write meta then (0, Some meta) else (-1, None))
  end.

Definition flb_input_chunk_write_header_v2 (event_type : Z) (tag : list Z) (tag_len : Z) (routes : list stored_route)
    : M heap (Z * option (list Z)) :=
  let route_count := zlen routes in
  if (route_count <=? 0) || (UINT16_MAX <? route_count) then mret (-1, None)
  else
    p ← alloc;                                                        (* resolved_lengths *)
    match p with
    | None => mret (-1, None)
    | Some lengths =>
        q ← alloc;                                                    (* resolved_plugin_lengths *)
        match q with
        | None => free_block lengths ≫= λ _, mret (-1, None)
        | Some plugin_lengths =>
            let fail := free_block lengths ≫= λ _, free_block plugin_lengths ≫= λ _, mret (-1, None) in
            '(resolved, t) ← deref (resolve routes (mk_totals false false false 0 0));
            let routing_length := routing_payload_bytes route_count t in
            if UINT16_MAX <? routing_length then fail
            else
              let max_tag_len := max_tag_length routing_length in
              let tag_len := if max_tag_len <? tag_len then max_tag_len else tag_len in
              let meta_size := FLB_INPUT_CHUNK_META_HEADER + tag_len + 1 + 2 + routing_length in
              m ← alloc;                                              (* meta *)
              match m with
              | None => fail
              | Some a =>
                  meta ← deref (fill_meta event_type tag tag_len routes resolved t routing_length meta_size);
                  free_block lengths ≫= λ _, free_block plugin_lengths ≫= λ _, free_block a ≫= λ _,
                  mret (if cio_meta_write meta then (0, Some meta) else (-1, None))
              end
        end
    end.
End write.

(** ** Reading *)

(** [meta] is what [cio_meta_read] gives, [None] when it fails. *)

Definition input_chunk_has_magic_bytes (buf : list Z) : option bool :=
  if zlen buf <? FLB_INPUT_CHUNK_META_HEADER then Some false
  else
    a ← buf !z 0;
    b ← buf !z 1;
    Some ((a =? FLB_INPUT_CHUNK_MAGIC_BYTE_0) && (b =? FLB_INPUT_CHUNK_MAGIC_BYTE_1)).

(** [struct flb_input_chunk_meta_view]; tag and routing data are given up to their lengths. *)
Record flb_input_chunk_meta_view := mk_view { mv_tag : list Z; mv_flags : Z; mv_routing_data : option (list Z) }.

Definition input_chunk_metadata_view (meta : option (list Z)) : option (Z * flb_input_chunk_meta_view) :=
  match meta with
  | None => Some (-1, mk_view [] 0 None)
  | Some buf =>
      magic ← input_chunk_has_magic_bytes buf;
      if negb magic then Some (0, mk_view buf 0 None)
      else
        let payload := drop (Z.to_nat FLB_INPUT_CHUNK_META_HEADER) buf in
        let payload_length := zlen payload in
        flags ← buf !z 3;
        let tag := until_nul payload in
        let terminator := zlen tag <? payload_length in
        let view := mk_view tag flags None in
        if Z.land flags FLB_CHUNK_FLAG_DIRECT_ROUTES =? 0 then Some (0, view)
        else if payload_length <=? 0 then Some (0, view)
        else if negb terminator then Some (1, view)
        else
          let offset := zlen tag + 1 in
          if payload_length <? offset + 2 then Some (1, view)
          else
            routing_length ← get16 payload offset;
            if payload_length <? offset + 2 + routing_length then Some (1, view)
            else
              data ← slice payload (offset + 2) routing_length;
              Some (0, mk_view tag flags (Some data))
  end.

Definition flb_input_chunk_get_tag (meta : option (list Z)) : option (Z * option (list Z)) :=
  '(ret, view) ← input_chunk_metadata_view meta;
  if ret =? -1 then Some (-1, None) else Some (0, Some (mv_tag view)).

Definition flb_input_chunk_get_event_type (meta : option (list Z)) : option Z :=
  match meta with
  | None => Some (-1)
  | Some buf =>
      magic ← input_chunk_has_magic_bytes buf;
      if (magic : bool) then
        type ← buf !z 2;
        Some (if type =? FLB_INPUT_CHUNK_TYPE_LOGS then FLB_INPUT_LOGS
              else if type =? FLB_INPUT_CHUNK_TYPE_METRICS then FLB_INPUT_METRICS
              else if type =? FLB_INPUT_CHUNK_TYPE_TRACES then FLB_INPUT_TRACES
              else if type =? FLB_INPUT_CHUNK_TYPE_PROFILES then FLB_INPUT_PROFILES
              else if type =? FLB_INPUT_CHUNK_TYPE_BLOBS then FLB_INPUT_BLOBS
              else -1)
      else Some FLB_INPUT_LOGS
  end.

Definition flb_input_chunk_has_direct_routes (meta : option (list Z)) : option bool :=
  '(ret, view) ← input_chunk_metadata_view meta;
  Some (negb (ret =? -1) && negb (Z.land (mv_flags view) FLB_CHUNK_FLAG_DIRECT_ROUTES =? 0) &&
        match mv_routing_data view with None => false | Some data => 2 <=? zlen data end).

Definition get_id (wide : bool) (d : list Z) (off : Z) : option Z :=
  if wide then
    a ← d !z off; b ← d !z (off + 1); c ← d !z (off + 2); e ← d !z (off + 3);
    Some (Z.lor (Z.lor (Z.lor (Z.shiftl a 24) (Z.shiftl b 16)) (Z.shiftl c 8)) e)
  else get16 d off.

Fixpoint get_ids (wide : bool) (d : list Z) (off : Z) (n : nat) : option (list stored_route) :=
  match n with
  | O => Some []
  | S n' =>
      id ← get_id wide d off;
      rs ← get_ids wide d (off + id_bytes wide) n';
      Some (mk_stored id None 0 0 None 0 :: rs)
  end.

(** A loop that reads lengths: what [f] makes of them and the offset after them, or [None] when they go
    beyond the routing data. *)
Fixpoint get_lengths {A} (f : Z → A) (d : list Z) (off : Z) (n : nat) : option (option (list A * Z)) :=
  match n with
  | O => Some (Some ([], off))
  | S n' =>
      if zlen d <? off + 2 then Some None
      else
        x ← get16 d off;
        rest ← get_lengths f d (off + 2) n';
        Some ('(l, off') ← rest; Some (f x :: l, off'))
  end.

(** The length of a label and whether it is an alias *)
Definition label_entry (plugins_present : bool) (n : Z) : Z * Z :=
  if negb (Z.land n FLB_CHUNK_DIRECT_ROUTE_LABEL_ALIAS_FLAG =? 0)
  then (Z.land n FLB_CHUNK_DIRECT_ROUTE_LABEL_LENGTH_MASK, 1)
  else (n, if plugins_present then 0 else 1).

Definition set_st_label (p : option (nat * list Z)) (n alias : Z) (r : stored_route) : stored_route :=
  mk_stored (st_id r) p n alias (st_plugin_name r) (st_plugin_name_length r).
Definition set_st_plugin (p : option (nat * list Z)) (n : Z) (r : stored_route) : stored_route :=
  mk_stored (st_id r) (st_label r) (st_label_length r) (st_label_is_alias r) p n.

(** A loop that reads texts: [set] stores one in its route.  The status is 0, -1 without memory or -2
    when the texts go beyond the routing data; the routes after a failure are left as they were. *)
Fixpoint get_texts {A} (set : A → option (nat * list Z) → Z → stored_route → stored_route) (d : list Z)
    (entries : list (Z * A)) (routes : list stored_route) (off remaining : Z) : M heap (Z * list stored_route * Z) :=
  match entries, routes with
  | [], _ => mret (0, routes, off)
  | _ :: _, [] => ub
  | (n, x) :: entries', r :: routes' =>
      if n =? 0 then
        '(ret, rs, off') ← get_texts set d entries' routes' off remaining;
        mret (ret, set x None 0 r :: rs, off')
      else if remaining <? n then mret (-2, routes, off)
      else
        p ← alloc;
        match p with
        | None => mret (-1, routes, off)
        | Some a =>
            bytes ← deref (slice d off n);
            '(ret, rs, off') ← get_texts set d entries' routes' (off + n) (remaining - n);
            mret (ret, set x (Some (a, bytes ++ [0])) n r :: rs, off')
        end
  end.

Definition get_labels (plugins_present : bool) (d : list Z) (routes : list stored_route) (off : Z)
    : M heap (Z * list stored_route * Z) :=
  p ← alloc;                                                          (* label_lengths *)
  match p with
  | None => mret (-1, routes, off)
  | Some lengths =>
      q ← alloc;                                                      (* label_alias_flags *)
      match q with
      | None => free_block lengths ≫= λ _, mret (-1, routes, off)
      | Some flags =>
          entries ← deref (get_lengths (label_entry plugins_present) d off (length routes));
          result ← match entries with
            | None => mret (-2, routes, off)
            | Some (entries, off) =>
                if zlen d <? off then mret (-2, routes, off)
                else get_texts (λ alias p n, set_st_label p n alias) d entries routes off (zlen d - off)
            end;
          free_block flags ≫= λ _, free_block lengths ≫= λ _, mret result
      end
  end.

Definition get_plugins (d : list Z) (routes : list stored_route) (off : Z) : M heap (Z * list stored_route * Z) :=
  p ← alloc;                                                          (* plugin_lengths *)
  match p with
  | None => mret (-1, routes, off)
  | Some lengths =>
      entries ← deref (get_lengths (λ n, (n, tt)) d off (length routes));
      result ← match entries with
        | None => mret (-2, routes, off)
        | Some (entries, off) =>
            if zlen d <? off then mret (-2, routes, off)
            else get_texts (λ _, set_st_plugin) d entries routes off (zlen d - off)
        end;
      free_block lengths ≫= λ _, mret result
  end.

Definition free_route (r : stored_route) : M heap unit :=
  match st_label r with
  | Some (a, _) => when (0 <? st_label_length r) (free_block a)
  | None => mret tt
  end ≫= λ _,
  match st_plugin_name r with Some (a, _) => free_block a | None => mret tt end.

(** [None] is NULL. *)
Definition flb_input_chunk_destroy_direct_routes (routes : option (nat * list stored_route)) : M heap unit :=
  match routes with
  | None => mret tt
  | Some (block, routes) => foreach routes free_route ≫= λ _, free_block block
  end.

(** The labels and plugin names of the routes in [block] *)
Definition complete_routes (flags : Z) (d : list Z) (block : nat) (routes : list stored_route) (off : Z)
    : M heap (Z * option (nat * list stored_route)) :=
  let labels_present := negb (Z.land flags FLB_CHUNK_FLAG_DIRECT_ROUTE_LABELS =? 0) in
  let plugins_present := negb (Z.land flags FLB_CHUNK_FLAG_DIRECT_ROUTE_PLUGIN_IDS =? 0) in
  let fail (ret : Z) (routes : list stored_route) :=
    flb_input_chunk_destroy_direct_routes (Some (block, routes)) ≫= λ _, mret (ret, None) in
  if zlen d <? off then fail (-2) routes
  else
    '(ret, routes, off) ← (if labels_present then get_labels plugins_present d routes off else mret (0, routes, off));
    if negb (ret =? 0) then fail ret routes
    else
      '(ret, routes, _) ← (if plugins_present then get_plugins d routes off
                           else mret (0, set_st_plugin None 0 <$> routes, off));
      if negb (ret =? 0) then fail ret routes else mret (0, Some (block, routes)).

Definition flb_input_chunk_get_direct_routes (meta : option (list Z)) : M heap (Z * option (nat * list stored_route)) :=
  '(ret, view) ← deref (input_chunk_metadata_view meta);
  if ret =? -1 then mret (-1, None)
  else if Z.land (mv_flags view) FLB_CHUNK_FLAG_DIRECT_ROUTES =? 0 then mret (0, None)
  else
    match mv_routing_data view with
    | None => mret (-2, None)
    | Some d =>
        if zlen d <? 2 then mret (-2, None)
        else
          stored_count ← deref (get16 d 0);
          if stored_count =? 0 then mret (0, None)
          else
            let wide_ids := negb (Z.land (mv_flags view) FLB_CHUNK_FLAG_DIRECT_ROUTE_WIDE_IDS =? 0) in
            if zlen d <? 2 + stored_count * id_bytes wide_ids then mret (-2, None)
            else
              p ← alloc;                                              (* result *)
              match p with
              | None => mret (-1, None)
              | Some block =>
                  routes ← deref (get_ids wide_ids d 2 (Z.to_nat stored_count));
                  complete_routes (mv_flags view) d block routes (2 + stored_count * id_bytes wide_ids)
              end
    end.

(** The route that is stored for an output ([src/flb_input_log.c]); the plugin exists and has a name. *)
Definition direct_route_of (o : flb_output_instance) : stored_route :=
  let '(label, alias) := match o_alias o with
    | None | Some [] => (o_name o, 0)
    | Some s => (s, 1)
    end in
  let limit (n : Z) := if UINT16_MAX <? n then UINT16_MAX else n in
  mk_stored (u32 (o_id o)) (Some (0%nat, label ++ [0])) (u16 (limit (zlen label))) alias
    (Some (0%nat, o_p_name o ++ [0])) (u16 (limit (zlen (o_p_name o)))).

(** The loop over the routes of the input: the outputs whose bit is set in the mask of the chunk *)
Fixpoint routed_outputs (cfg : flb_config) (mask : list Z) (paths : list flb_router_path)
    : option (list flb_output_instance) :=
  match paths with
  | [] => Some []
  | path :: paths' =>
      o ← cf_outputs cfg !! rp_ins path;
      bit ← flb_routes_mask_get_bit mask (o_id o) (cf_router cfg);
      os ← routed_outputs cfg mask paths';
      Some (if bit =? 0 then os else o :: os)
  end.

(** The end of [route_payload_apply_outputs]: the metadata that is written, [None] when it stays. *)
Definition persist_direct_routes (cio_meta_write : list Z → bool) (cfg : flb_config) (mask : list Z)
    (paths : list flb_router_path) (event_type : Z) (tag : list Z) : M heap (option (list Z)) :=
  outs ← deref (routed_outputs cfg mask paths);
  if bool_decide (outs = []) then mret None
  else
    p ← alloc;                                                        (* direct_routes *)
    match p with
    | None => mret None
    | Some a =>
        '(_, meta) ← flb_input_chunk_write_header_v2 cio_meta_write event_type tag (zlen tag) (direct_route_of <$> outs);
        free_block a ≫= λ _, mret meta
    end.

(** ** The functions on memory *)

Lemma slice_ok d off n : 0 <= off → 0 <= n → off + n <= zlen d → ∃ l, slice d off n = Some l ∧ zlen l = n.
Proof.
  intros. unfold slice. rewrite !(proj2 (Z.leb_le _ _)) by lia. eexists. split; [done|].
  unfold zlen in *. rewrite length_take, length_drop. lia.
Qed.

Lemma bytes_lookup d i x : bytes_ok d → d !z i = Some x → is_byte x.
Proof. intros Hd [_ Hx]%zlookup_Some. by eapply (Forall_lookup_1 _ _ _ _ Hd). Qed.

Lemma get16_ok d off : bytes_ok d → 0 <= off → off + 2 <= zlen d → ∃ x, get16 d off = Some x ∧ 0 <= x < 65536.
Proof.
  intros Hd ? ?. unfold get16. destruct (zlookup_is_Some d off) as [a Ha]; [lia|].
  destruct (zlookup_is_Some d (off + 1)) as [b Hb]; [lia|]. rewrite Ha, Hb. eexists. split; [reflexivity|].
  apply (bytes_lookup _ _ _ Hd) in Ha, Hb. unfold is_byte in *. rewrite (lor_shiftl_add a b 8) by lia. lia.
Qed.

Lemma get_id_ok wide d off : bytes_ok d → 0 <= off → off + id_bytes wide <= zlen d → ∃ x, get_id wide d off = Some x.
Proof.
  unfold get_id. destruct wide; cbn [id_bytes]; intros Hd ? ?.
  - destruct (zlookup_is_Some d off) as [a ->]; [lia|]. destruct (zlookup_is_Some d (off + 1)) as [b ->]; [lia|].
    destruct (zlookup_is_Some d (off + 2)) as [c ->]; [lia|]. destruct (zlookup_is_Some d (off + 3)) as [e ->]; [lia|].
    by eexists.
  - destruct (get16_ok d off) as (x & ? & _); eauto.
Qed.

Lemma get_ids_ok wide d n : ∀ off, bytes_ok d → 0 <= off → off + Z.of_nat n * id_bytes wide <= zlen d →
  ∃ rs, get_ids wide d off n = Some rs ∧ length rs = n ∧
    Forall (λ r, st_label r = None ∧ st_label_length r = 0 ∧ st_plugin_name r = None ∧ st_plugin_name_length r = 0) rs.
Proof.
  assert (Hw : 0 < id_bytes wide) by by destruct wide.
  induction n as [|n IH]; intros off Hd ? Hl; cbn [get_ids]; [by exists []|].
  destruct (get_id_ok wide d off) as [x ->]; [done|done|nia|]. cbn.
  destruct (IH (off + id_bytes wide)) as (rs & -> & <- & Hrs); [done|nia|nia|]. cbn.
  eexists. split; [reflexivity|]. split; [done|]. by constructor.
Qed.

(** Lengths that were read are followed by nothing beyond the data. *)
Lemma get_lengths_ok {A} (f : Z → A) d n : ∀ off, bytes_ok d → 0 <= off → off <= zlen d →
  ∃ res, get_lengths f d off n = Some res ∧
    (∀ l off', res = Some (l, off') → length l = n ∧ off <= off' <= zlen d ∧
       Forall (λ x, ∃ y, 0 <= y < 65536 ∧ x = f y) l).
Proof.
  induction n as [|n IH]; intros off Hd Ho Hl; cbn [get_lengths].
  { eexists. split; [reflexivity|]. intros l off' [= <- <-]. split_and!; (done || lia). }
  destruct (Z.ltb_spec (zlen d) (off + 2)); [by eexists|].
  destruct (get16_ok d off) as (x & -> & Hx); [done|done|lia|]. cbn.
  destruct (IH (off + 2)) as (res & -> & Hres); [done|lia|lia|]. cbn. eexists. split; [reflexivity|].
  intros l off'. destruct res as [[l' off'']|]; [|done]. intros [= <- <-].
  destruct (Hres _ _ eq_refl) as (<- & ? & ?). split_and!; [done|lia|lia|]. constructor; [eauto|done].
Qed.

(** ** The reader keeps to the routing data and to its memory *)

(** A text that was read: a block with as many bytes as the length says and a NUL *)
Definition text_ok (p : option (nat * list Z)) (n : Z) : Prop :=
  match p with None => n = 0 | Some (_, mem) => 0 < n ∧ ∃ bytes, mem = bytes ++ [0] ∧ zlen bytes = n end.
Definition route_ok (r : stored_route) : Prop :=
  text_ok (st_label r) (st_label_length r) ∧ text_ok (st_plugin_name r) (st_plugin_name_length r).
Definition unlabelled (r : stored_route) : Prop :=
  st_label r = None ∧ st_label_length r = 0 ∧ st_plugin_name r = None ∧ st_plugin_name_length r = 0.
Definition unnamed (r : stored_route) : Prop :=
  route_ok r ∧ st_plugin_name r = None ∧ st_plugin_name_length r = 0.

Definition text_blocks (p : option (nat * list Z)) : list nat := match p with Some (a, _) => [a] | None => [] end.
Definition route_blocks (r : stored_route) : list nat := text_blocks (st_label r) ++ text_blocks (st_plugin_name r).
(** The blocks of a result *)
Definition result_blocks (out : option (nat * list stored_route)) : list nat :=
  match out with None => [] | Some (block, rs) => block :: (rs ≫= route_blocks) end.

Lemma unnamed_ok r : unnamed r → route_ok r.
Proof. by intros [? _]. Qed.
Lemma unlabelled_unnamed r : unlabelled r → unnamed r.
Proof. intros (H1 & H2 & H3 & H4). split; [split; [rewrite H1|rewrite H3]; done|done]. Qed.

(** What storing a text in a route does *)
Record setter_ok {A} (set : A → option (nat * list Z) → Z → stored_route → stored_route) (before after : stored_route → Prop) := {
  sr_before r : before r → route_ok r;
  sr_none x r : before r → after (set x None 0 r) ∧ route_blocks (set x None 0 r) = route_blocks r;
  sr_some x a bytes n r : before r → zlen bytes = n → 0 < n →
    after (set x (Some (a, bytes ++ [0])) n r) ∧ route_blocks (set x (Some (a, bytes ++ [0])) n r) ≡ₚ a :: route_blocks r;
  sr_after r : after r → route_ok r
}.

Lemma label_setter : setter_ok (λ alias p n, set_st_label p n alias) unlabelled unnamed.
Proof.
  constructor.
  - intros r ?. by apply unnamed_ok, unlabelled_unnamed.
  - intros x r (Hl & ? & Hp & Hn). unfold unnamed, route_ok, route_blocks. cbn. rewrite Hl, Hp, Hn. done.
  - intros x a bytes n r (Hl & ? & Hp & Hn) <- ?. unfold unnamed, route_ok, route_blocks. cbn. rewrite Hl, Hp, Hn.
    split; [|done]. split_and!; cbn; eauto.
  - apply unnamed_ok.
Qed.

Lemma plugin_setter : setter_ok (λ _ : unit, set_st_plugin) unnamed route_ok.
Proof.
  constructor.
  - apply unnamed_ok.
  - intros x r ([Hl _] & Hp & Hn). unfold route_ok, route_blocks. cbn. rewrite Hp. done.
  - intros x a bytes n r ([Hl _] & Hp & Hn) <- ?. unfold route_ok, route_blocks. cbn. rewrite Hp, app_nil_r.
    split; [split; cbn; eauto|]. symmetry. apply Permutation_cons_append.
  - done.
Qed.

(** The result of reading texts: [X] are the blocks of others, [n] the number of routes. *)
Record texts_result (s : heap) (X : list nat) (n : nat) (after : stored_route → Prop) (d : list Z)
    (res : Z * list stored_route * Z) (s' : heap) : Prop := {
  tr_status : res.1.1 = 0 ∨ res.1.1 = -1 ∨ res.1.1 = -2;
  tr_length : length res.1.2 = n;
  tr_routes : Forall route_ok res.1.2;
  tr_live : hp_live s' ≡ₚ (res.1.2 ≫= route_blocks) ++ X;
  tr_calm : calm (hp_env s) → calm (hp_env s') ∧ res.1.1 ≠ -1;
  tr_done : res.1.1 = 0 → Forall after res.1.2 ∧ 0 <= res.2 <= zlen d
}.

(** Permutations of blocks, by counting *)
Lemma count_cons a (l : list nat) x :
  count_occ Nat.eq_dec (a :: l) x = ((if Nat.eq_dec a x then 1 else 0) + count_occ Nat.eq_dec l x)%nat.
Proof. cbn. by destruct (Nat.eq_dec a x). Qed.
Ltac blocks :=
  repeat match goal with H : _ ≡ₚ _ |- _ => rewrite (Permutation_count_occ Nat.eq_dec) in H end;
  apply (Permutation_count_occ Nat.eq_dec); intros ?;
  repeat match goal with
  | H : ∀ x : nat, count_occ _ _ x = count_occ _ _ x |- context [count_occ _ _ ?y] => specialize (H y)
  end;
  repeat (rewrite ?count_occ_app in *; progress rewrite ?count_cons in * ); rewrite ?count_occ_app in *;
  cbn [count_occ] in *; lia.

(** Nothing has been stored. *)
Lemma texts_left s s' X after d routes off st :
  st = -1 ∨ st = -2 → (st = -1 → ¬ calm (hp_env s)) → Forall route_ok routes →
  hp_live s' ≡ₚ (routes ≫= route_blocks) ++ X → (calm (hp_env s) → calm (hp_env s')) →
  texts_result s X (length routes) after d (st, routes, off) s'.
Proof. intros Hst Hnc Hr Hl Hc. constructor; cbn [fst snd]; [tauto|done|done|done|tauto|intros ->; lia]. Qed.

Lemma get_texts_ok {A} set (before after : stored_route → Prop) d : setter_ok (A := A) set before after → bytes_ok d →
  ∀ entries routes off remaining s X, length entries = length routes → Forall (λ e, 0 <= e.1 < 65536) entries →
  Forall before routes → 0 <= off → 0 <= remaining → off + remaining = zlen d → hp_live s ≡ₚ (routes ≫= route_blocks) ++ X →
  runs (get_texts set d entries routes off remaining) s (texts_result s X (length routes) after d).
Proof.
  intros Hset Hd. assert (Hbefore : ∀ rs, Forall before rs → Forall route_ok rs).
  { intros rs Hrs. eapply Forall_impl; [exact Hrs|]. apply (sr_before _ _ _ Hset). }
  induction entries as [|[n x] entries IH]; intros routes off remaining s X Hlen He Hr Ho Hrem Hsum Hlive.
  { destruct routes; [|done]. apply runs_ret. constructor; cbn; [by left|done|done|done|by intros ?|intros _; split; [done|lia]]. }
  destruct routes as [|r routes]; [done|]. injection Hlen as Hlen.
  apply Forall_cons in He as [Hn He]. pose proof Hr as Hall. apply Forall_cons in Hr as [Hr Hrs]. cbn [fst] in Hn.
  cbn [get_texts]. destruct (Z.eqb_spec n 0) as [->|Hn0].
  - destruct (sr_none _ _ _ Hset x r Hr) as [Haft Hbl].
    cbn [mbind list_bind] in Hlive. apply runs_bind.
    eapply runs_weaken; [apply (IH routes off remaining s (route_blocks r ++ X)); try done|].
    { blocks. }
    intros [[st rs] off'] s' [H1 H2 H3 H4 H5 H6]. cbn [fst snd] in *. apply runs_ret.
    constructor; cbn [fst snd]; [done|by cbn; rewrite H2| |cbn [mbind list_bind]|done|].
    + constructor; [by apply (sr_after _ _ _ Hset)|done].
    + rewrite Hbl. blocks.
    + intros ->. destruct H6; [done|]. split; [by constructor|done].
  - destruct (Z.ltb_spec remaining n). { apply runs_ret, texts_left; auto; lia. }
    apply runs_bind, runs_alloc; [intros s' Hl' ?; apply runs_ret, texts_left; auto; [by rewrite Hl'|tauto]|].
    intros a s1 Hl1 Hc1. destruct (slice_ok d off n) as (bytes & Hs & Hb); [lia|lia|lia|].
    apply runs_bind. eapply runs_deref; [exact Hs|].
    destruct (sr_some _ _ _ Hset x a bytes n r Hr Hb) as [Haft Hbl]; [lia|].
    cbn [mbind list_bind] in Hlive. apply runs_bind.
    eapply runs_weaken; [apply (IH routes (off + n) (remaining - n) s1 (a :: route_blocks r ++ X)); try done; try lia|].
    { rewrite Hl1. blocks. }
    intros [[st rs] off'] s' [H1 H2 H3 H4 H5 H6]. cbn [fst snd] in *. apply runs_ret.
    constructor; cbn [fst snd]; [done|by cbn; rewrite H2| |cbn [mbind list_bind]|tauto|].
    + constructor; [by apply (sr_after _ _ _ Hset)|done].
    + blocks.
    + intros ->. destruct H6; [done|]. split; [by constructor|done].
Qed.

Lemma land_length_mask n : Z.land n FLB_CHUNK_DIRECT_ROUTE_LABEL_LENGTH_MASK = n mod 32768.
Proof. change FLB_CHUNK_DIRECT_ROUTE_LABEL_LENGTH_MASK with (Z.ones 15). by rewrite Z.land_ones. Qed.

Lemma label_entry_bound plugins n : 0 <= n < 65536 → 0 <= (label_entry plugins n).1 < 65536.
Proof.
  intros ?. unfold label_entry. case_match; cbn; [|done]. rewrite land_length_mask.
  pose proof (Z.mod_pos_bound n 32768). lia.
Qed.

Lemma get_labels_ok plugins d routes off s X :
  bytes_ok d → Forall unlabelled routes → 0 <= off <= zlen d → hp_live s ≡ₚ (routes ≫= route_blocks) ++ X →
  runs (get_labels plugins d routes off) s (texts_result s X (length routes) unnamed d).
Proof.
  intros Hd Hr Ho Hlive. assert (Hok : Forall route_ok routes).
  { eapply Forall_impl; [exact Hr|]. intros r ?. by apply unnamed_ok, unlabelled_unnamed. }
  apply runs_bind, runs_alloc; [intros s' Hl' ?; apply runs_ret, texts_left; auto; [by rewrite Hl'|tauto]|].
  intros lengths s1 Hl1 Hc1. apply runs_bind, runs_alloc.
  { intros s2 Hl2 ?. apply runs_bind, (runs_free _ (hp_live s)); [by rewrite Hl2, Hl1|]. intros s3 Hl3 He3.
    apply runs_ret, texts_left; auto; [by rewrite Hl3|tauto]. }
  intros flags s2 Hl2 Hc2. destruct (get_lengths_ok (label_entry plugins) d (length routes) off) as (res & Hres & Hlen); [done|lia|lia|].
  apply runs_bind. eapply runs_deref; [exact Hres|]. clear Hres. apply runs_bind.
  eapply runs_weaken with (Q := texts_result s2 (flags :: lengths :: X) (length routes) unnamed d).
  { assert (Hfail : ∀ off', texts_result s2 (flags :: lengths :: X) (length routes) unnamed d (-2, routes, off') s2).
    { intros off'. apply texts_left; auto; [lia|]. rewrite Hl2, Hl1. blocks. }
    destruct res as [[entries off']|]; [|apply runs_ret, Hfail].
    destruct (Hlen _ _ eq_refl) as (He & ? & Hb). destruct (Z.ltb_spec (zlen d) off'); [apply runs_ret, Hfail|].
    apply (get_texts_ok _ _ _ _ label_setter Hd); auto; try lia; [|rewrite Hl2, Hl1; blocks].
    eapply Forall_impl; [exact Hb|]. intros [? ?] (y & Hy & Heq). apply (f_equal fst) in Heq. cbn in *. subst.
    by apply label_entry_bound. }
  intros [[st rs] off'] s3 [H1 H2 H3 H4 H5 H6]. cbn [fst snd] in *.
  apply runs_bind, (runs_free _ ((rs ≫= route_blocks) ++ lengths :: X)); [blocks|]. intros s4 Hl4 He4.
  apply runs_bind, (runs_free _ ((rs ≫= route_blocks) ++ X)); [blocks|]. intros s5 Hl5 He5.
  apply runs_ret. constructor; cbn [fst snd]; try done. rewrite He5, He4. tauto.
Qed.

Lemma get_plugins_ok d routes off s X :
  bytes_ok d → Forall unnamed routes → 0 <= off <= zlen d → hp_live s ≡ₚ (routes ≫= route_blocks) ++ X →
  runs (get_plugins d routes off) s (texts_result s X (length routes) route_ok d).
Proof.
  intros Hd Hr Ho Hlive. assert (Hok : Forall route_ok routes).
  { eapply Forall_impl; [exact Hr|]. apply unnamed_ok. }
  apply runs_bind, runs_alloc; [intros s' Hl' ?; apply runs_ret, texts_left; auto; [by rewrite Hl'|tauto]|].
  intros lengths s1 Hl1 Hc1. destruct (get_lengths_ok (λ n, (n, tt)) d (length routes) off) as (res & Hres & Hlen); [done|lia|lia|].
  apply runs_bind. eapply runs_deref; [exact Hres|]. clear Hres. apply runs_bind.
  eapply runs_weaken with (Q := texts_result s1 (lengths :: X) (length routes) route_ok d).
  { assert (Hfail : ∀ off', texts_result s1 (lengths :: X) (length routes) route_ok d (-2, routes, off') s1).
    { intros off'. apply texts_left; auto; [lia|]. rewrite Hl1. blocks. }
    destruct res as [[entries off']|]; [|apply runs_ret, Hfail].
    destruct (Hlen _ _ eq_refl) as (He & ? & Hb). destruct (Z.ltb_spec (zlen d) off'); [apply runs_ret, Hfail|].
    apply (get_texts_ok _ _ _ _ plugin_setter Hd); auto; try lia; [|rewrite Hl1; blocks].
    eapply Forall_impl; [exact Hb|]. intros [? ?] (y & Hy & [= -> _]). done. }
  intros [[st rs] off'] s3 [H1 H2 H3 H4 H5 H6]. cbn [fst snd] in *.
  apply runs_bind, (runs_free _ ((rs ≫= route_blocks) ++ X)); [blocks|]. intros s5 Hl5 He5.
  apply runs_ret. constructor; cbn [fst snd]; try done. rewrite He5. tauto.
Qed.

Lemma free_route_ok r s X : route_ok r → hp_live s ≡ₚ route_blocks r ++ X →
  runs (free_route r) s (λ _ s', hp_live s' ≡ₚ X ∧ hp_env s' = hp_env s).
Proof.
  intros [Hl Hp] Hlive. unfold free_route, route_blocks in *. apply runs_bind.
  assert (Hplugin : ∀ s1, hp_live s1 ≡ₚ text_blocks (st_plugin_name r) ++ X → hp_env s1 = hp_env s →
    runs (match st_plugin_name r with Some (a, _) => free_block a | None => mret tt end) s1
      (λ _ s', hp_live s' ≡ₚ X ∧ hp_env s' = hp_env s)).
  { intros s1 Hl1 He1. destruct (st_plugin_name r) as [[a mem]|]; [|by apply runs_ret].
    apply (runs_free _ X); [done|]. intros s2 ? ->. done. }
  destruct (st_label r) as [[a mem]|]; [|by apply runs_ret, Hplugin].
  destruct Hl as [Hn _]. apply runs_when; [intros _|rewrite Z.ltb_ge; lia].
  eapply runs_free; [exact Hlive|]. intros s1 ? ?. by apply Hplugin.
Qed.

(** What is allocated for routes is freed with them. *)
Lemma destroy_ok out s X : (∀ block rs, out = Some (block, rs) → Forall route_ok rs) → hp_live s ≡ₚ result_blocks out ++ X →
  runs (flb_input_chunk_destroy_direct_routes out) s (λ _ s', hp_live s' ≡ₚ X ∧ hp_env s' = hp_env s).
Proof.
  destruct out as [[block rs]|]; [|intros _ ?; by apply runs_ret]. intros Hr. specialize (Hr _ _ eq_refl).
  cbn [flb_input_chunk_destroy_direct_routes result_blocks]. intros Hlive. apply runs_bind.
  apply runs_weaken with (Q := λ _ s', hp_live s' ≡ₚ block :: X ∧ hp_env s' = hp_env s).
  - revert s Hlive. induction Hr as [|r rs Hr Hrs IH]; intros s Hlive; [by apply runs_ret|].
    cbn [foreach mbind list_bind] in *. apply runs_bind.
    eapply runs_weaken; [apply (free_route_ok r s (block :: (rs ≫= route_blocks) ++ X) Hr)|]; [blocks|].
    intros [] s1 [Hl1 He1]. eapply runs_weaken; [apply (IH s1)|]; [done|]. intros [] s2 [Hl2 He2]. split; [done|congruence].
  - intros [] s1 [Hl1 He1]. apply (runs_free _ X); [done|]. intros s2 ? ?. split; [done|congruence].
Qed.

(** What reading direct routes leads to: [X] are the blocks of others. *)
Record read_result (s : heap) (X : list nat) (res : Z * option (nat * list stored_route)) (s' : heap) : Prop := {
  rr_status : res.1 = 0 ∨ res.1 = -1 ∨ res.1 = -2;
  rr_failed : res.1 ≠ 0 → res.2 = None;
  rr_routes block rs : res.2 = Some (block, rs) → Forall route_ok rs;
  rr_live : hp_live s' ≡ₚ result_blocks res.2 ++ X;
  rr_calm : calm (hp_env s) → calm (hp_env s') ∧ (res.1 = -1 → False)
}.

Lemma read_nothing s st : st = 0 ∨ st = -2 → read_result s (hp_live s) (st, None) s.
Proof. intros [->| ->]; constructor; cbn; (done || tauto). Qed.

Lemma complete_failed flags s s1 X block rs st :
  st = -1 ∨ st = -2 → (calm (hp_env s) → calm (hp_env s1) ∧ st ≠ -1) → Forall route_ok rs →
  hp_live s1 ≡ₚ block :: (rs ≫= route_blocks) ++ X →
  runs (flb_input_chunk_destroy_direct_routes (Some (block, rs)) ≫= λ _, mret (st, flags)) s1
    (λ res s', flags = None → read_result s X res s').
Proof.
  intros Hst Hc Hr Hl. apply runs_bind.
  eapply runs_weaken; [apply (destroy_ok _ s1 X)|]; [by intros ?? [= <- <-]|done|].
  intros [] s2 [Hl2 He2]. apply runs_ret. intros ->. constructor; cbn [fst snd result_blocks];
    [tauto|done|done|done|rewrite He2; tauto].
Qed.

Lemma complete_routes_ok flags d block routes off s X :
  bytes_ok d → Forall unlabelled routes → 0 <= off <= zlen d → hp_live s ≡ₚ block :: X →
  runs (complete_routes flags d block routes off) s (read_result s X).
Proof.
  intros Hd Hr Ho Hl. assert (Hbl : routes ≫= route_blocks = []).
  { clear -Hr. induction Hr as [|r rs (H1 & _ & H2 & _)]; [done|]. cbn. unfold route_blocks at 1. by rewrite H1, H2. }
  unfold complete_routes. destruct (Z.ltb_spec (zlen d) off); [lia|].
  set (plugins := negb (Z.land flags FLB_CHUNK_FLAG_DIRECT_ROUTE_PLUGIN_IDS =? 0)). apply runs_bind.
  eapply runs_weaken with (Q := texts_result s (block :: X) (length routes) unnamed d).
  { destruct (negb (Z.land flags FLB_CHUNK_FLAG_DIRECT_ROUTE_LABELS =? 0)).
    - apply get_labels_ok; [done|done|lia|by rewrite Hbl].
    - apply runs_ret. assert (Forall unnamed routes) by (eapply Forall_impl; [exact Hr|apply unlabelled_unnamed]).
      constructor; cbn [fst snd]; [by left|done| |by rewrite Hbl|by intros ?|done].
      eapply Forall_impl; [done|apply unnamed_ok]. }
  intros [[st rs] off1] s1 [H1 H2 H3 H4 H5 H6]. cbn [fst snd] in *. destruct (Z.eqb_spec st 0) as [->|Hst]; cbn [negb].
  2: { eapply runs_weaken; [apply (complete_failed None s s1 X)|]; auto; [tauto|blocks]. }
  destruct H6 as [Hun Ho1]; [done|]. apply runs_bind.
  eapply runs_weaken with (Q := texts_result s1 (block :: X) (length rs) route_ok d).
  { destruct plugins; [by apply get_plugins_ok|]. apply runs_ret.
    assert (Hu : Forall unnamed (set_st_plugin None 0 <$> rs) ∧ (set_st_plugin None 0 <$> rs) ≫= route_blocks = rs ≫= route_blocks).
    { clear -Hun. induction Hun as [|r rs ([Hok _] & Hp & ?) _ [IH1 IH2]]; [done|]. cbn. split.
      - constructor; [|done]. done.
      - f_equal; [|exact IH2]. unfold route_blocks. cbn. by rewrite Hp. }
    destruct Hu as [Hu Hub].
    assert (Forall route_ok (set_st_plugin None 0 <$> rs)) by (eapply Forall_impl; [done|apply unnamed_ok]).
    constructor; cbn [fst snd]; [by left|by rewrite length_fmap|done|by rewrite Hub|by intros ?|done]. }
  intros [[st rs'] off2] s2 [G1 G2 G3 G4 G5 G6]. cbn [fst snd] in *. destruct (Z.eqb_spec st 0) as [->|Hst]; cbn [negb].
  2: { eapply runs_weaken; [apply (complete_failed None s s2 X)|]; auto; [tauto| |blocks].
       intros ?. apply G5. tauto. }
  apply runs_ret. constructor; cbn [fst snd result_blocks]; [by left|done|by intros ?? [= <- <-]|cbn; blocks|].
  intros ?. destruct G5; [tauto|]. split; [done|lia].
Qed.

Lemma bytes_sub pre d post : bytes_ok (pre ++ d ++ post) → bytes_ok d.
Proof. intros [_ [? _]%Forall_app]%Forall_app. done. Qed.

Lemma slice_Some d off n l : slice d off n = Some l → ∃ pre post, d = pre ++ l ++ post.
Proof.
  unfold slice. case_match; [|done]. intros [= <-]. exists (take (Z.to_nat off) d), (drop (Z.to_nat n) (drop (Z.to_nat off) d)).
  by rewrite !take_drop.
Qed.

Lemma until_nul_length l : zlen (until_nul l) <= zlen l.
Proof. induction l as [|b l IH]; [done|]. cbn [until_nul]. case_match; [unfold zlen; cbn; lia|]. rewrite !zlen_cons. lia. Qed.

Lemma magic_ok buf : ∃ b, input_chunk_has_magic_bytes buf = Some b ∧ (b = true → 4 <= zlen buf).
Proof.
  unfold input_chunk_has_magic_bytes, FLB_INPUT_CHUNK_META_HEADER. destruct (Z.ltb_spec (zlen buf) 4); [by eexists|].
  destruct (zlookup_is_Some buf 0) as [a ->]; [lia|]. destruct (zlookup_is_Some buf 1) as [b ->]; [lia|]. by eexists.
Qed.

(** The view of any metadata is defined and its routing data are part of them. *)
Lemma metadata_view_ok buf : bytes_ok buf → ∃ ret view, input_chunk_metadata_view (Some buf) = Some (ret, view) ∧
  (ret = 0 ∨ ret = 1) ∧ ∀ d, mv_routing_data view = Some d → ∃ pre post, buf = pre ++ d ++ post.
Proof.
  intros Hb. unfold input_chunk_metadata_view. destruct (magic_ok buf) as ([] & -> & Hlen); cbn [mbind option_bind negb].
  2: { eexists _, _. split; [done|]. by split; [left|]. }
  specialize (Hlen eq_refl). destruct (zlookup_is_Some buf 3) as [flags ->]; [lia|]. cbn [mbind option_bind].
  set (payload := drop _ buf). set (tag := until_nul payload).
  repeat (case_match; [eexists _, _; split; [reflexivity|]; split; [auto|done]|]). bool_prop.
  pose proof (zlen_nonneg tag). assert (Hp : bytes_ok payload) by by apply Forall_drop.
  destruct (get16_ok payload (zlen tag + 1)) as (x & -> & Hx); [done|lia|lia|]. cbn [mbind option_bind].
  case_match; [eexists _, _; split; [reflexivity|]; split; [auto|done]|]. bool_prop.
  destruct (slice_ok payload (zlen tag + 1 + 2) x) as (d & Hd & _); [lia|lia|lia|]. rewrite Hd. cbn [mbind option_bind].
  eexists _, _. split; [reflexivity|]. split; [by left|]. intros d' [= <-]. apply slice_Some in Hd as (pre & post & Hd).
  exists (take (Z.to_nat FLB_INPUT_CHUNK_META_HEADER) buf ++ pre), post. rewrite <- app_assoc, <- Hd. unfold payload. by rewrite take_drop.
Qed.

Lemma get_direct_routes_ok meta s : (∀ buf, meta = Some buf → bytes_ok buf) → meta ≠ None →
  runs (flb_input_chunk_get_direct_routes meta) s (read_result s (hp_live s)).
Proof.
  intros Hb Hm. destruct meta as [buf|]; [|done]. specialize (Hb _ eq_refl). clear Hm.
  destruct (metadata_view_ok buf Hb) as (ret & view & Hv & Hret & Hd).
  apply runs_bind. eapply runs_deref; [exact Hv|]. cbv beta iota.
  destruct (Z.eqb_spec ret (-1)) as [|_]; [lia|]. destruct (Z.land (mv_flags view) FLB_CHUNK_FLAG_DIRECT_ROUTES =? 0); [apply runs_ret, read_nothing; auto|].
  destruct (mv_routing_data view) as [d|]; [|apply runs_ret, read_nothing; auto].
  destruct (Hd d eq_refl) as (pre & post & ->). apply bytes_sub in Hb. clear Hd Hv.
  destruct (Z.ltb_spec (zlen d) 2); [apply runs_ret, read_nothing; auto|].
  destruct (get16_ok d 0) as (n & Hn & Hnb); [done|lia|lia|]. apply runs_bind. eapply runs_deref; [exact Hn|].
  destruct (Z.eqb_spec n 0); [apply runs_ret, read_nothing; auto|].
  set (wide := negb (Z.land (mv_flags view) FLB_CHUNK_FLAG_DIRECT_ROUTE_WIDE_IDS =? 0)).
  cbv zeta. assert (0 < id_bytes wide) by (by destruct wide).
  destruct (Z.ltb_spec (zlen d) (2 + n * id_bytes wide)); [apply runs_ret, read_nothing; auto|].
  apply runs_bind, runs_alloc.
  - intros s1 Hl Hc. apply runs_ret. constructor; cbn; [tauto|done|done|by rewrite Hl|tauto].
  - intros block s1 Hl Hc. destruct (get_ids_ok wide d (Z.to_nat n) 2) as (rs & Hrs & _ & Hu); [done|lia|lia|].
    apply runs_bind. eapply runs_deref; [exact Hrs|].
    eapply runs_weaken; [apply (complete_routes_ok (mv_flags view) d block rs _ s1 (hp_live s)); [done|done|nia|by rewrite Hl]|].
    intros res s2 [G1 G2 G3 G4 G5]. constructor; try done. tauto.
Qed.

Lemma views_ok meta : (∀ buf, meta = Some buf → bytes_ok buf) →
  (∃ ret tag, flb_input_chunk_get_tag meta = Some (ret, tag)) ∧ is_Some (flb_input_chunk_get_event_type meta) ∧
  is_Some (flb_input_chunk_has_direct_routes meta).
Proof.
  intros Hb. unfold flb_input_chunk_get_tag, flb_input_chunk_has_direct_routes, flb_input_chunk_get_event_type.
  destruct meta as [buf|]; [|split; [by eexists _, _|split; by eexists]]. specialize (Hb _ eq_refl).
  destruct (metadata_view_ok buf Hb) as (ret & view & -> & Hret & _). cbn [mbind option_bind].
  split_and!; [destruct (ret =? -1); eauto| |by eexists].
  destruct (magic_ok buf) as ([] & -> & Hlen); [|by eexists]. cbn [mbind option_bind].
  destruct (zlookup_is_Some buf 2) as [t ->]; [specialize (Hlen eq_refl); lia|by eexists].
Qed.

(** C16. Reading the metadata of a chunk is safe on any bytes, as a damaged file may hold: tag, event type
    and routes have defined results - nothing is read outside the metadata, nothing outside the routing
    data for the routes.  Reading the routes gives 0, -1 only when memory runs out or there is no metadata,
    or -2; after a failure there is no result and all memory is given back, otherwise every text of the
    result has the length stated for it and a NUL, and destroying the result frees all there is of it. *)
Theorem metadata_read_safe meta s :
  (∀ buf, meta = Some buf → bytes_ok buf) →
  (∃ ret tag, flb_input_chunk_get_tag meta = Some (ret, tag)) ∧ is_Some (flb_input_chunk_get_event_type meta) ∧
  is_Some (flb_input_chunk_has_direct_routes meta) ∧
  ∃ ret out s', flb_input_chunk_get_direct_routes meta s = Some (ret, out, s') ∧
    (ret = 0 ∨ ret = -1 ∧ (meta = None ∨ ¬ calm (hp_env s)) ∧ out = None ∨ ret = -2 ∧ out = None) ∧
    (∀ block rs, out = Some (block, rs) → Forall route_ok rs) ∧ (out = None → hp_live s' ≡ₚ hp_live s) ∧
    ∃ s'', flb_input_chunk_destroy_direct_routes out s' = Some (tt, s'') ∧ hp_live s'' ≡ₚ hp_live s.
Proof.
  intros Hb. destruct (views_ok meta Hb) as (? & ? & ?). split_and!; [done|done|done|].
  destruct (decide (meta = None)) as [->|Hm].
  { exists (-1), None, s. split_and!; [done|tauto|done|done|]. exists s. done. }
  destruct (get_direct_routes_ok meta s Hb Hm) as ([ret out] & s' & Hrun & [G1 G2 G3 G4 G5]). cbn [fst snd] in *.
  exists ret, out, s'. split_and!; [done| |done|by intros ->|].
  - destruct G1 as [?|[?|?]]; [tauto| |]; right; (rewrite G2 by lia); tauto.
  - destruct (destroy_ok out s' (hp_live s) G3 G4) as ([] & s'' & ? & ? & _). eauto.
Qed.

(** A header whose second route has a label that goes beyond the routing data *)
Definition damaged : list Z := [241; 119; 0; 7; 116; 0; 0; 14; 0; 2; 0; 0; 0; 1; 0; 0; 0; 2; 0; 1; 0; 9].
Definition no_heap : heap := mk_heap (mk_env [] [] [] 0 1 []) [].

Lemma metadata_read_safe_witness :
  (∀ buf, Some damaged = Some buf → bytes_ok buf) ∧ (∃ s', flb_input_chunk_get_direct_routes (Some damaged) no_heap = Some (-2, None, s')) ∧
  ∃ ret out s', flb_input_chunk_get_direct_routes (Some damaged) no_heap = Some (ret, out, s').
Proof.
  assert (Hb : ∀ buf, Some damaged = Some buf → bytes_ok buf).
  { intros buf [= <-]. repeat constructor; vm_compute; (discriminate || reflexivity). }
  split; [exact Hb|]. split; [eexists; vm_compute; reflexivity|].
  destruct (metadata_read_safe (Some damaged) no_heap Hb) as (_ & _ & _ & ret & out & s' & Hr & _). eauto.
Defined.
