(* ===== verification/DirectRoutes.v ===== *)
(** * Direct routes survive in the metadata of their chunk

    The layout of the metadata that [flb_input_chunk_write_header_v2] writes, byte for byte, and what
    [flb_input_chunk_get_direct_routes] makes of it: the routes come back, and lead to the outputs they
    were stored for ([Delivery.direct_matches], which [Task] and [InputChunk] use). *)
From S2P Require Import Prelude CStd Env Heap Router RoutesMask Delivery Task Engine ChunkSpace ChunkRelease InputChunk.
From S2P Require Import ChunkMeta.

(** ** Bytes *)

Definition be16 (v : Z) : list Z := [u8 (Z.shiftr v 8); u8 (Z.land v 0xFF)].
Definition be_id (wide : bool) (id : Z) : list Z :=
  (if wide then [u8 (Z.land (Z.shiftr id 24) 0xFF); u8 (Z.land (Z.shiftr id 16) 0xFF)] else []) ++
  [u8 (Z.land (Z.shiftr id 8) 0xFF); u8 (Z.land id 0xFF)].
Definition zeros (n : nat) : list Z := replicate n 0.

Lemma zinsert_at w x y (l : list Z) : zinsert (zlen w) x (w ++ y :: l) = Some (w ++ x :: l).
Proof.
  rewrite zinsert_Some by (rewrite zlen_app, zlen_cons; pose proof (zlen_nonneg w); pose proof (zlen_nonneg l); lia).
  rewrite zlen_nat. by rewrite insert_app_r_alt, Nat.sub_diag by lia.
Qed.
Lemma zinsert_next w x y z (l : list Z) : zinsert (zlen w + 1) x (w ++ z :: y :: l) = Some (w ++ z :: x :: l).
Proof.
  replace (zlen w + 1) with (zlen (w ++ [z])) by (rewrite zlen_app; done).
  rewrite (cons_middle z w (y :: l)), app_assoc, zinsert_at. by rewrite <- app_assoc.
Qed.

Lemma put16_zeros w v n : put16 (w ++ zeros (2 + n)) (zlen w) v = Some (w ++ be16 v ++ zeros n).
Proof. unfold put16. cbn [zeros replicate Nat.add]. by rewrite zinsert_at; cbn [mbind option_bind]; rewrite zinsert_next. Qed.

Lemma put_id_zeros wide w id n :
  put_id wide (w ++ zeros (length (be_id wide id) + n)) (zlen w) id = Some (w ++ be_id wide id ++ zeros n).
Proof.
  unfold put_id, be_id. destruct wide; cbn [app length zeros replicate Nat.add].
  - rewrite zinsert_at. cbn [mbind option_bind]. rewrite zinsert_next. cbn [mbind option_bind].
    set (a := u8 (Z.land (Z.shiftr id 24) _)). set (b := u8 (Z.land (Z.shiftr id 16) _)). replace (zlen w + 2) with (zlen (w ++ [a; b])) by (rewrite zlen_app; done).
    replace (zlen w + 3) with (zlen (w ++ [a; b]) + 1) by (rewrite zlen_app; change (zlen [a; b]) with 2; lia).
    assert (Hw : ∀ l, w ++ a :: b :: l = (w ++ [a; b]) ++ l) by (intros; by rewrite <- app_assoc).
    rewrite (Hw (_ :: _)), zinsert_at. cbn [mbind option_bind]. rewrite zinsert_next. by rewrite <- app_assoc.
  - rewrite zinsert_at. cbn [mbind option_bind]. by rewrite zinsert_next.
Qed.

Lemma memcpy_zeros w bytes n : memcpy_at (w ++ zeros (length bytes + n)) (zlen w) bytes = Some (w ++ bytes ++ zeros n).
Proof.
  unfold memcpy_at. pose proof (zlen_nonneg w). rewrite zlen_app.
  replace (zlen (zeros (length bytes + n))) with (zlen bytes + Z.of_nat n)
    by (unfold zlen, zeros; rewrite length_replicate; lia).
  rewrite !(proj2 (Z.leb_le _ _)) by lia. cbn [andb]. f_equal. rewrite zlen_nat, take_app_length. f_equal. f_equal.
  replace (Z.to_nat (zlen w + zlen bytes)) with (length w + length bytes)%nat by (unfold zlen; lia).
  rewrite drop_app_add. unfold zeros. rewrite drop_replicate. f_equal. lia.
Qed.

Lemma slice_app pre l post : slice (pre ++ l ++ post) (zlen pre) (zlen l) = Some l.
Proof.
  unfold slice. rewrite !zlen_app. pose proof (zlen_nonneg pre). pose proof (zlen_nonneg l). pose proof (zlen_nonneg post).
  rewrite !(proj2 (Z.leb_le _ _)) by lia. cbn [andb]. by rewrite !zlen_nat, drop_app_length, take_app_length.
Qed.
Lemma slice_take l n : 0 <= n <= zlen l → slice l 0 n = Some (take (Z.to_nat n) l).
Proof. intros. unfold slice. rewrite !(proj2 (Z.leb_le _ _)) by lia. done. Qed.

Lemma u8_low v : u8 (Z.land v 0xFF) = v mod 256.
Proof. unfold u8. change 0xFF with (Z.ones 8). rewrite Z.land_ones by lia. apply Z.mod_mod. lia. Qed.
Lemma u8_shift v k : 0 <= k → u8 (Z.land (Z.shiftr v k) 0xFF) = v / 2 ^ k mod 256.
Proof. intros. by rewrite u8_low, Z.shiftr_div_pow2. Qed.

Lemma get16_app pre v post : 0 <= v < 65536 → get16 (pre ++ be16 v ++ post) (zlen pre) = Some v.
Proof.
  intros Hv. unfold get16, be16. cbn [app]. rewrite zlookup_at. cbn [mbind option_bind]. rewrite zlookup_next.
  cbn [mbind option_bind]. rewrite u8_low. unfold u8. rewrite Z.shiftr_div_pow2 by lia. change (2 ^ 8) with 256.
  rewrite (lor_shiftl_add _ _ 8) by (try lia; apply Z.mod_pos_bound; lia). f_equal.
  rewrite (Z.mod_small (v / 256)) by (split; [apply Z.div_pos|apply Z.div_lt_upper_bound]; lia).
  pose proof (Z.div_mod v 256). lia.
Qed.

Lemma be_id_length wide id : zlen (be_id wide id) = id_bytes wide.
Proof. by destruct wide. Qed.

Lemma lor_bytes a b c e : 0 <= a → 0 <= b < 256 → 0 <= c < 256 → 0 <= e < 256 →
  Z.lor (Z.lor (Z.lor (Z.shiftl a 24) (Z.shiftl b 16)) (Z.shiftl c 8)) e = ((a * 256 + b) * 256 + c) * 256 + e.
Proof.
  intros. replace (Z.shiftl a 24) with (Z.shiftl (Z.shiftl (Z.shiftl a 8) 8) 8) by (by rewrite !Z.shiftl_shiftl by lia).
  replace (Z.shiftl b 16) with (Z.shiftl (Z.shiftl b 8) 8) by (by rewrite !Z.shiftl_shiftl by lia).
  rewrite <- !Z.shiftl_lor. by rewrite !(lor_shiftl_add _ _ 8) by lia.
Qed.

Lemma get_id_app wide pre id post : 0 <= id < 2 ^ 32 → (wide = false → id < 65536) →
  get_id wide (pre ++ be_id wide id ++ post) (zlen pre) = Some id.
Proof.
  intros Hid Hw. unfold be_id. destruct wide; cbn [app].
  - unfold get_id. rewrite zlookup_at. cbn [mbind option_bind]. rewrite zlookup_next. cbn [mbind option_bind].
    rewrite !zlookup_skip by lia. change ((?a :: ?b :: ?c :: ?l) !z 2) with (Some c). cbn [mbind option_bind].
    change ((?a :: ?b :: ?c :: ?e :: ?l) !z 3) with (Some e). cbn [mbind option_bind]. rewrite !u8_shift, u8_low by lia. f_equal.
    rewrite lor_bytes by (try apply Z.mod_pos_bound; try (apply Z.mod_pos_bound; lia); lia).
    change (2 ^ 24) with 16777216. change (2 ^ 16) with 65536. change (2 ^ 8) with 256. change (2 ^ 32) with 4294967296 in *.
    replace (id / 16777216) with (id / 256 / 256 / 256) by (by rewrite !Z.div_div).
    replace (id / 65536) with (id / 256 / 256) by (by rewrite Z.div_div).
    clear Hw. pose proof (Z.div_mod id 256). pose proof (Z.div_mod (id / 256) 256). pose proof (Z.div_mod (id / 256 / 256) 256).
    rewrite (Z.mod_small (id / 256 / 256 / 256)) by (Z.div_mod_to_equations; lia). lia.
  - specialize (Hw eq_refl). change (get_id false) with get16.
    replace (u8 (Z.land (Z.shiftr id 8) 255)) with (u8 (Z.shiftr id 8)); [apply (get16_app pre id post); lia|].
    rewrite u8_shift by lia. unfold u8. by rewrite Z.shiftr_div_pow2.
Qed.

(** ** Loops *)

Lemma put_ids_zeros wide routes : ∀ w n,
  put_ids wide (w ++ zeros (length (routes ≫= λ r, be_id wide (st_id r)) + n)) (zlen w) routes =
  Some (w ++ (routes ≫= λ r, be_id wide (st_id r)) ++ zeros n).
Proof.
  induction routes as [|r routes IH]; intros w n; cbn [put_ids mbind list_bind]; [done|].
  rewrite length_app, <- Nat.add_assoc, put_id_zeros. cbn [option_bind].
  replace (zlen w + id_bytes wide) with (zlen (w ++ be_id wide (st_id r))) by (by rewrite zlen_app, be_id_length).
  rewrite app_assoc. etrans; [apply IH|]. by rewrite <- !app_assoc.
Qed.

Lemma put_lengths_zeros lens : ∀ w n,
  put_lengths (w ++ zeros (length (lens ≫= be16) + n)) (zlen w) lens =
  Some (w ++ (lens ≫= be16) ++ zeros n, zlen (w ++ (lens ≫= be16))).
Proof.
  induction lens as [|v lens IH]; intros w n; cbn [put_lengths mbind list_bind]; [by rewrite app_nil_r|].
  rewrite length_app, <- Nat.add_assoc, put16_zeros. cbn [option_bind].
  replace (zlen w + 2) with (zlen (w ++ be16 v)) by (by rewrite zlen_app).
  rewrite app_assoc. etrans; [apply IH|]. by rewrite <- !app_assoc.
Qed.

(** The bytes stored of a text *)
Definition text_bytes (e : Z * option (nat * list Z)) : list Z :=
  match e.2 with Some (_, mem) => take (Z.to_nat e.1) mem | None => [] end.
Definition text_fits (e : Z * option (nat * list Z)) : Prop :=
  match e.2 with Some (_, mem) => 0 <= e.1 <= zlen mem | None => e.1 = 0 end.

Lemma text_bytes_length e : text_fits e → zlen (text_bytes e) = e.1.
Proof.
  destruct e as [n [[a mem]|]]; unfold text_fits, text_bytes; cbn; [|done]. unfold zlen. rewrite length_take. lia.
Qed.

Lemma put_texts_zeros texts : ∀ w n, Forall text_fits texts →
  put_texts (w ++ zeros (length (texts ≫= text_bytes) + n)) (zlen w) texts =
  Some (w ++ (texts ≫= text_bytes) ++ zeros n, zlen (w ++ (texts ≫= text_bytes))).
Proof.
  induction texts as [|e texts IH]; intros w n Hf; cbn [put_texts mbind list_bind]; [by rewrite app_nil_r|].
  apply Forall_cons in Hf as [He Hf]. pose proof (text_bytes_length e He) as Hlen.
  assert (Hput : (match e.2 with
      | Some (_, mem) => if 0 <? e.1 then bytes ← slice mem 0 e.1;
          memcpy_at (w ++ zeros (length (text_bytes e) + (length (texts ≫= text_bytes) + n))) (zlen w) bytes
          else Some (w ++ zeros (length (text_bytes e) + (length (texts ≫= text_bytes) + n)))
      | None => Some (w ++ zeros (length (text_bytes e) + (length (texts ≫= text_bytes) + n))) end) =
    Some ((w ++ text_bytes e) ++ zeros (length (texts ≫= text_bytes) + n))).
  { destruct e as [m [[a mem]|]]; unfold text_fits, text_bytes in *; cbn [fst snd] in *; [|by rewrite app_nil_r].
    destruct (Z.ltb_spec 0 m).
    - rewrite (slice_take mem m) by lia. cbn [mbind option_bind]. by rewrite memcpy_zeros, <- app_assoc.
    - replace m with 0 by lia. by rewrite app_nil_r. }
  rewrite length_app, <- Nat.add_assoc. destruct e as [m p]. cbn [fst snd] in *. rewrite Hput. cbn [mbind option_bind].
  replace (zlen w + m) with (zlen (w ++ text_bytes (m, p))) by (by rewrite zlen_app, Hlen).
  etrans; [by apply IH|]. by rewrite <- !app_assoc.
Qed.

Lemma get_ids_app wide routes : ∀ pre post, Forall (λ r, 0 <= st_id r < 2 ^ 32 ∧ (wide = false → st_id r < 65536)) routes →
  get_ids wide (pre ++ (routes ≫= λ r, be_id wide (st_id r)) ++ post) (zlen pre) (length routes) =
  Some ((λ r, mk_stored (st_id r) None 0 0 None 0) <$> routes).
Proof.
  induction routes as [|r routes IH]; intros pre post Hr; [done|]. apply Forall_cons in Hr as [[Hid Hw] Hr].
  cbn [length get_ids mbind list_bind fmap list_fmap]. rewrite <- app_assoc, get_id_app by done. cbn [option_bind].
  replace (zlen pre + id_bytes wide) with (zlen (pre ++ be_id wide (st_id r))) by (by rewrite zlen_app, be_id_length).
  rewrite (app_assoc pre). by rewrite IH.
Qed.

Lemma get_lengths_app {A} (f : Z → A) lens : ∀ pre post, Forall (λ v, 0 <= v < 65536) lens →
  get_lengths f (pre ++ (lens ≫= be16) ++ post) (zlen pre) (length lens) =
  Some (Some (f <$> lens, zlen (pre ++ (lens ≫= be16)))).
Proof.
  induction lens as [|v lens IH]; intros pre post Hr; cbn [length get_lengths mbind list_bind fmap list_fmap];
    [by rewrite app_nil_r|].
  apply Forall_cons in Hr as [Hv Hr]. rewrite <- app_assoc, get16_app by done.
  destruct (Z.ltb_spec (zlen (pre ++ be16 v ++ (lens ≫= be16) ++ post)) (zlen pre + 2)) as [Hlt|_].
  { rewrite !zlen_app in Hlt. change (zlen (be16 v)) with 2 in Hlt. pose proof (zlen_nonneg (lens ≫= be16)).
    pose proof (zlen_nonneg post). lia. }
  cbn [option_bind]. replace (zlen pre + 2) with (zlen (pre ++ be16 v)) by (by rewrite zlen_app).
  rewrite (app_assoc pre). rewrite IH by done. by rewrite <- !app_assoc.
Qed.

(** Routes without the addresses of their texts *)
Definition erase (p : option (nat * list Z)) : option (nat * list Z) := (λ q, (0%nat, q.2)) <$> p.
Definition forget (r : stored_route) : stored_route :=
  mk_stored (st_id r) (erase (st_label r)) (st_label_length r) (st_label_is_alias r)
    (erase (st_plugin_name r)) (st_plugin_name_length r).

(** A text that comes back *)
Definition copy_of (n : Z) (bytes : list Z) : option (nat * list Z) := if n =? 0 then None else Some (0%nat, bytes ++ [0]).

Lemma get_texts_app {A} (set : A → option (nat * list Z) → Z → stored_route → stored_route) entries : 
  (∀ x p n r, forget (set x p n r) = set x (erase p) n (forget r)) →
  ∀ pre post routes s, calm (hp_env s) → length entries = length routes → Forall (λ e, zlen e.2 = e.1.1) entries →
  let d := pre ++ (entries ≫= snd) ++ post in
  runs (get_texts set d (fst <$> entries) routes (zlen pre) (zlen d - zlen pre)) s (λ res s',
    calm (hp_env s') ∧ res.1.1 = 0 ∧ res.2 = zlen (pre ++ (entries ≫= snd)) ∧
    forget <$> res.1.2 = zip_with (λ e r, set e.1.2 (copy_of e.1.1 e.2) e.1.1 r) entries (forget <$> routes)).
Proof.
  intros Hset. induction entries as [|[[n x] bytes] entries IH]; intros pre post routes s Hc Hl Hb d.
  { destruct routes; [|done]. apply runs_ret. cbn. by rewrite app_nil_r. }
  destruct routes as [|r routes]; [done|]. injection Hl as Hl. apply Forall_cons in Hb as [Hn Hb]. cbn [fst snd] in Hn.
  assert (Hd : d = (pre ++ bytes) ++ (entries ≫= snd) ++ post) by (unfold d; cbn; by rewrite <- !app_assoc).
  assert (Hpre : zlen (pre ++ bytes) = zlen pre + n) by (by rewrite zlen_app, Hn).
  pose proof (zlen_nonneg bytes). pose proof (zlen_nonneg (entries ≫= snd)). pose proof (zlen_nonneg post).
  specialize (IH (pre ++ bytes) post routes). cbn [zip_with fmap list_fmap fst snd mbind list_bind get_texts].
  rewrite (app_assoc pre). destruct (Z.eqb_spec n 0) as [->|Hn0].
  - assert (bytes = []) as -> by (apply zlen_nil_inv; lia). rewrite app_nil_r in *. apply runs_bind. eapply runs_weaken; [by apply IH|].
    intros [[st rs] off] s' (Hc' & Hst & Hoff & Hrs). apply runs_ret. cbn [fst snd fmap list_fmap] in *. subst st off.
    split_and!; try done.
    rewrite Hset, Hrs. done.
  - destruct (Z.ltb_spec (zlen d - zlen pre) n). { rewrite Hd, !zlen_app in *. lia. }
    apply runs_bind, runs_alloc_calm; [done|]. intros a s1 Hc1. apply runs_bind.
    eapply runs_deref; [rewrite <- Hn; unfold d; cbn [mbind list_bind snd]; rewrite <- app_assoc; apply slice_app|].
    apply runs_bind. rewrite <- Hpre, Hd. replace (_ - zlen pre - n) with (zlen ((pre ++ bytes) ++ (entries ≫= snd) ++ post) - zlen (pre ++ bytes)) by lia.
    eapply runs_weaken; [by apply IH|].
    intros [[st rs] off] s' (Hc' & Hst & Hoff & Hrs). apply runs_ret. cbn [fst snd fmap list_fmap] in *. subst st off.
    split_and!; try done.
    rewrite Hset, Hrs. unfold copy_of. by destruct (Z.eqb_spec n 0).
Qed.

(** ** Routes that can be stored *)

Definition label_of (r : stored_route) : Z := default 0 (resolved_label r).
Definition plugin_of (r : stored_route) : Z := default 0 (resolved_plugin r).
(** Fields within their types, texts that end or have the length stated within their objects, and a
    label that leaves the bit for aliases free *)
Record storable (r : stored_route) : Prop := {
  sb_id : 0 <= st_id r < 2 ^ 32;
  sb_label : resolved_label r = Some (label_of r) ∧ text_fits (label_of r, st_label r);
  sb_plugin : resolved_plugin r = Some (plugin_of r) ∧ text_fits (plugin_of r, st_plugin_name r);
  sb_label_length : 0 <= label_of r <= FLB_CHUNK_DIRECT_ROUTE_LABEL_LENGTH_MASK;
  sb_plugin_length : 0 <= plugin_of r <= UINT16_MAX;
  sb_bytes : bytes_ok (text_bytes (label_of r, st_label r)) ∧ bytes_ok (text_bytes (plugin_of r, st_plugin_name r))
}.

Definition wide_of (routes : list stored_route) : bool := existsb (λ r, UINT16_MAX <? st_id r) routes.
Definition labels_of (routes : list stored_route) : bool := existsb (λ r, 0 <? label_of r) routes.
Definition plugins_of (routes : list stored_route) : bool := existsb (λ r, 0 <? plugin_of r) routes.
Definition lsum (l : list Z) : Z := foldr Z.add 0 l.
Definition totals_of (routes : list stored_route) : totals :=
  mk_totals (wide_of routes) (labels_of routes) (plugins_of routes) (lsum (label_of <$> routes)) (lsum (plugin_of <$> routes)).

Lemma resolve_ok routes : Forall storable routes → ∀ t, resolve routes t =
  Some ((λ r, (label_of r, plugin_of r)) <$> routes,
    let u := totals_of routes in
    mk_totals (tl_wide_ids t || tl_wide_ids u) (tl_has_labels t || tl_has_labels u) (tl_has_plugins t || tl_has_plugins u)
      (tl_labels t + tl_labels u) (tl_plugins t + tl_plugins u)).
Proof.
  induction 1 as [|r routes [_ [Hl _] [Hp _] _ _ _] _ IH]; intros t; cbn [resolve].
  { destruct t. cbn. by rewrite !orb_false_r, !Z.add_0_r. }
  rewrite Hl, Hp. cbn [mbind option_bind]. rewrite IH. cbn. by rewrite !orb_assoc, !Z.add_assoc.
Qed.

(** The routing data of routes *)
Definition label_data (routes : list stored_route) : list Z :=
  (((λ r, stored_label_length r (label_of r)) <$> routes) ≫= be16) ++
  (((λ r, (label_of r, st_label r)) <$> routes) ≫= text_bytes).
Definition plugin_data (routes : list stored_route) : list Z :=
  ((plugin_of <$> routes) ≫= be16) ++ (((λ r, (plugin_of r, st_plugin_name r)) <$> routes) ≫= text_bytes).
Definition routing_data (routes : list stored_route) : list Z :=
  be16 (zlen routes) ++ (routes ≫= λ r, be_id (wide_of routes) (st_id r)) ++
  (if labels_of routes then label_data routes else []) ++ (if plugins_of routes then plugin_data routes else []).

(** All of the metadata *)
Definition layout (event_type : Z) (tag : list Z) (routes : list stored_route) : list Z :=
  [FLB_INPUT_CHUNK_MAGIC_BYTE_0; FLB_INPUT_CHUNK_MAGIC_BYTE_1; chunk_type event_type; route_flags (totals_of routes)] ++
  tag ++ [0] ++ be16 (zlen (routing_data routes)) ++ routing_data routes.

Definition resolved_of (routes : list stored_route) : list (Z * Z) := (λ r, (label_of r, plugin_of r)) <$> routes.

Lemma resolved_labels routes : (resolved_of routes).*1 = label_of <$> routes.
Proof. unfold resolved_of. by rewrite <- list_fmap_compose. Qed.
Lemma resolved_plugins routes : (resolved_of routes).*2 = plugin_of <$> routes.
Proof. unfold resolved_of. by rewrite <- list_fmap_compose. Qed.
Lemma zip_fmap {A B C D} (h : B → C → D) (f : A → B) (g : A → C) l : zip_with h (f <$> l) (g <$> l) = (λ x, h (f x) (g x)) <$> l.
Proof. by rewrite zip_with_fmap_l, zip_with_fmap_r, zip_with_diag. Qed.

Lemma texts_fit routes : Forall storable routes →
  Forall text_fits ((λ r, (label_of r, st_label r)) <$> routes) ∧
  Forall text_fits ((λ r, (plugin_of r, st_plugin_name r)) <$> routes).
Proof. intros Hr. split; apply Forall_fmap; (eapply Forall_impl; [exact Hr|]); intros r Hs; [apply (sb_label _ Hs)|apply (sb_plugin _ Hs)]. Qed.

Lemma be16s_length l : zlen (l ≫= be16) = 2 * zlen l.
Proof. induction l as [|x l IH]; [done|]. cbn [mbind list_bind]. rewrite zlen_app, IH, zlen_cons. change (zlen (be16 x)) with 2. lia. Qed.
Lemma texts_length l : Forall text_fits l → zlen (l ≫= text_bytes) = lsum l.*1.
Proof. induction 1 as [|e l He _ IH]; [done|]. cbn. by rewrite zlen_app, IH, text_bytes_length. Qed.
Lemma ids_length wide routes : zlen (routes ≫= λ r, be_id wide (st_id r)) = zlen routes * id_bytes wide.
Proof.
  induction routes as [|r l IH]; [done|]. cbn [mbind list_bind]. rewrite zlen_app, IH, zlen_cons, be_id_length. lia.
Qed.
Lemma zlen_fmap {A B} (f : A → B) l : zlen (f <$> l) = zlen l.
Proof. unfold zlen. by rewrite length_fmap. Qed.

Lemma routing_data_length routes : Forall storable routes →
  zlen (routing_data routes) = routing_payload_bytes (zlen routes) (totals_of routes).
Proof.
  intros Hr. destruct (texts_fit routes Hr) as [Hl Hp]. unfold routing_data, routing_payload_bytes. cbn.
  change (u8 (Z.shiftr (zlen routes) 8) :: u8 (Z.land (zlen routes) 255) :: ?l) with (be16 (zlen routes) ++ l).
  rewrite !zlen_app, ids_length. change (zlen (be16 (zlen routes))) with 2.
  assert (HL : zlen (label_data routes) = zlen routes * 2 + lsum (label_of <$> routes)).
  { unfold label_data. rewrite zlen_app, be16s_length, zlen_fmap, texts_length by done. rewrite <- list_fmap_compose. cbn. f_equal. lia. }
  assert (HP : zlen (plugin_data routes) = zlen routes * 2 + lsum (plugin_of <$> routes)).
  { unfold plugin_data. rewrite zlen_app, be16s_length, zlen_fmap, texts_length by done. rewrite <- list_fmap_compose. cbn. f_equal. lia. }
  destruct (labels_of routes), (plugins_of routes); rewrite ?HL, ?HP; change (zlen (@nil Z)) with 0; lia.
Qed.

(** A part of the buffer is filled by a loop of lengths and a loop of texts, or left out. *)
Lemma fill_part (present : bool) lens texts bytes w n : Forall text_fits texts →
  bytes = (if present then (lens ≫= be16) ++ (texts ≫= text_bytes) else []) →
  (if present then
     '(meta, off) ← put_lengths (w ++ zeros (length bytes + n)) (zlen w) lens; put_texts meta off texts
   else Some (w ++ zeros (length bytes + n), zlen w)) = Some ((w ++ bytes) ++ zeros n, zlen (w ++ bytes)).
Proof.
  intros Hf ->. destruct present; [|by rewrite !app_nil_r].
  rewrite length_app, <- Nat.add_assoc, put_lengths_zeros. cbn [mbind option_bind]. rewrite app_assoc.
  rewrite put_texts_zeros by done. by rewrite <- !app_assoc.
Qed.

Lemma fill_routes_layout w routes : Forall storable routes → zlen routes <= UINT16_MAX →
  fill_routes (w ++ zeros (length (routing_data routes))) (zlen w - 2) routes (resolved_of routes) (totals_of routes) =
  Some (w ++ routing_data routes).
Proof.
  intros Hr Hn. destruct (texts_fit routes Hr) as [Hl Hp]. unfold fill_routes.
  rewrite resolved_labels, resolved_plugins. unfold totals_of at 1 2 3 4 5. cbn [tl_wide_ids tl_has_labels tl_has_plugins].
  rewrite !zip_fmap, zip_with_fmap_r, zip_with_diag.
  unfold routing_data. set (ids := routes ≫= λ r, be_id (wide_of routes) (st_id r)).
  set (LB := if labels_of routes then _ else _). set (PB := if plugins_of routes then _ else _).
  unfold u16. rewrite Z.mod_small by (unfold UINT16_MAX in Hn; pose proof (zlen_nonneg routes); lia).
  rewrite length_app. change (length (be16 (zlen routes))) with 2%nat.
  replace (zlen w - 2 + 2) with (zlen w) by lia. rewrite put16_zeros. cbn [mbind option_bind].
  replace (zlen w - 2 + 4) with (zlen (w ++ be16 (zlen routes))) by (rewrite zlen_app; change (zlen (be16 (zlen routes))) with 2; lia).
  rewrite length_app, app_assoc. unfold ids. rewrite put_ids_zeros. fold ids. cbn [option_bind].
  rewrite <- (ids_length (wide_of routes)). fold ids. rewrite <- zlen_app, length_app, app_assoc.
  change (Some ?x ≫= ?f) with (f x). cbv beta.
  erewrite (fill_part (labels_of routes) _ _ LB _ (length PB) Hl) by reflexivity.
  change (Some ?x ≫= ?f) with (f x). cbv beta iota. rewrite <- (Nat.add_0_r (length PB)).
  erewrite (fill_part (plugins_of routes) _ _ PB _ 0 Hp) by reflexivity. cbn [mbind option_bind].
  by rewrite app_nil_r, <- !app_assoc.
Qed.

(** The four bytes of the header *)
Lemma header_zeros {B} a b c e rest (k : list Z → option B) :
  (m ← zinsert 0 a (replicate (4 + rest) 0); m ← zinsert 1 b m; m ← zinsert 2 c m; m ← zinsert 3 e m; k m) =
  k ([a; b; c; e] ++ zeros rest).
Proof.
  change (replicate (4 + rest) 0) with ([] ++ 0 :: 0 :: 0 :: 0 :: zeros rest).
  change (zinsert 0 a) with (zinsert (zlen (@nil Z)) a). rewrite zinsert_at. cbn [mbind option_bind].
  change (zinsert 1 b _) with (zinsert (zlen [a]) b ([a] ++ 0 :: 0 :: 0 :: zeros rest)). rewrite zinsert_at. cbn [mbind option_bind].
  change (zinsert 2 c _) with (zinsert (zlen [a; b]) c ([a; b] ++ 0 :: 0 :: zeros rest)). rewrite zinsert_at. cbn [mbind option_bind].
  change (zinsert 3 e _) with (zinsert (zlen [a; b; c]) e ([a; b; c] ++ 0 :: zeros rest)). by rewrite zinsert_at.
Qed.

(** The header, tag and length in front of the routing data *)
Lemma fill_meta_layout event_type tag tag_len routes : Forall storable routes → zlen routes <= UINT16_MAX →
  0 <= tag_len <= zlen tag →
  let n := zlen (routing_data routes) in
  fill_meta event_type tag tag_len routes (resolved_of routes) (totals_of routes) n (FLB_INPUT_CHUNK_META_HEADER + tag_len + 1 + 2 + n) =
  Some (layout event_type (take (Z.to_nat tag_len) tag) routes).
Proof.
  intros Hr Hn Ht n. set (t := take (Z.to_nat tag_len) tag).
  assert (Hlt : zlen t = tag_len) by (unfold t, zlen in *; rewrite length_take; lia).
  unfold fill_meta, FLB_INPUT_CHUNK_META_HEADER.
  replace (Z.to_nat (4 + tag_len + 1 + 2 + n)) with (4 + (length t + (1 + (2 + length (routing_data routes)))))%nat
    by (unfold n, zlen in *; lia).
  rewrite header_zeros. rewrite (slice_take tag tag_len) by done. fold t.
  change (Some ?x ≫= ?f) with (f x). cbv beta zeta.
  set (h := [_; _; _; _]). rewrite (memcpy_zeros h). change (Some ?x ≫= ?f) with (f x). cbv beta.
  rewrite app_assoc. replace (4 + tag_len) with (zlen (h ++ t)) by (rewrite zlen_app, Hlt; done).
  change (zeros (1 + ?k)) with (0 :: zeros k). rewrite zinsert_at. change (Some ?x ≫= ?f) with (f x). cbv beta.
  change (?w ++ 0 :: ?l) with (w ++ [0] ++ l). rewrite (app_assoc (h ++ t)).
  replace (zlen (h ++ t) + 1) with (zlen ((h ++ t) ++ [0])) by (rewrite (zlen_app (h ++ t)); done).
  rewrite put16_zeros. change (Some ?x ≫= ?f) with (f x). cbv beta. rewrite app_assoc.
  set (w := ((h ++ t) ++ [0]) ++ be16 n).
  replace (zlen ((h ++ t) ++ [0])) with (zlen w - 2) by (unfold w; rewrite (zlen_app _ (be16 n)); change (zlen (be16 n)) with 2; lia).
  rewrite fill_routes_layout by done. unfold layout, w. by rewrite <- !app_assoc.
Qed.

(** ** Reading what was written *)

Lemma land_alias_flag v : (Z.land v FLB_CHUNK_DIRECT_ROUTE_LABEL_ALIAS_FLAG =? 0) = negb (Z.testbit v 15).
Proof.
  change FLB_CHUNK_DIRECT_ROUTE_LABEL_ALIAS_FLAG with (2 ^ 15). destruct (Z.testbit v 15) eqn:Hb.
  - apply Z.eqb_neq. intros H0. apply (f_equal (λ z, Z.testbit z 15)) in H0.
    rewrite Z.land_spec, Z.pow2_bits_true, Hb, Z.bits_0 in H0 by lia. done.
  - apply Z.eqb_eq, Z.bits_inj'. intros k Hk. rewrite Z.land_spec, Z.bits_0. destruct (decide (k = 15)) as [->|].
    + by rewrite Hb.
    + by rewrite Z.pow2_bits_false, andb_false_r.
Qed.

(** What the alias of a label is when it is read *)
Definition read_alias (labels plugins : bool) (r : stored_route) : Z :=
  if labels then if negb (st_label_is_alias r =? 0) && (0 <? label_of r) then 1 else if plugins then 0 else 1 else 0.

Lemma label_entry_stored plugins r : 0 <= label_of r <= FLB_CHUNK_DIRECT_ROUTE_LABEL_LENGTH_MASK →
  label_entry plugins (stored_label_length r (label_of r)) = (label_of r, read_alias true plugins r) ∧
  0 <= stored_label_length r (label_of r) < 65536.
Proof.
  unfold label_entry, stored_label_length, read_alias, FLB_CHUNK_DIRECT_ROUTE_LABEL_LENGTH_MASK. intros Hl.
  rewrite land_alias_flag, negb_involutive. destruct (negb (st_label_is_alias r =? 0) && (0 <? label_of r)).
  - destruct (Z.ltb_spec 0x7FFF (label_of r)); [lia|]. change FLB_CHUNK_DIRECT_ROUTE_LABEL_ALIAS_FLAG with (Z.shiftl 1 15).
    rewrite Z.lor_comm, lor_shiftl_add by lia. change (1 * 2 ^ 15) with 32768. split; [|lia].
    rewrite Z.testbit_eqb by lia. replace ((32768 + label_of r) / 2 ^ 15) with 1
      by (apply Z.div_unique with (r := label_of r); lia). cbn [Z.modulo Z.eqb]. f_equal.
    change 0x7FFF with (Z.ones 15). rewrite Z.land_ones by lia.
    symmetry. apply Z.mod_unique with (q := 1); [left|]; lia.
  - split; [|lia]. rewrite Z.testbit_eqb by lia. by rewrite Z.div_small by lia.
Qed.

(** The route that is read for [r]; [labels] and [plugins] tell whether any route has one. *)
Definition read_back (labels plugins : bool) (r : stored_route) : stored_route :=
  mk_stored (st_id r) (copy_of (label_of r) (text_bytes (label_of r, st_label r))) (label_of r) (read_alias labels plugins r)
    (copy_of (plugin_of r) (text_bytes (plugin_of r, st_plugin_name r))) (plugin_of r).

Lemma until_nul_app tag l : 0 ∉ tag → until_nul (tag ++ 0 :: l) = tag.
Proof.
  induction tag as [|b tag IH]; [done|]. intros [Hb Ht]%not_elem_of_cons. cbn.
  destruct (Z.eqb_spec b 0); [congruence|]. by rewrite IH.
Qed.

Lemma flag_direct t : (Z.land (route_flags t) FLB_CHUNK_FLAG_DIRECT_ROUTES =? 0) = false.
Proof. by destruct t as [[] [] []]. Qed.
Lemma flag_labels t : negb (Z.land (route_flags t) FLB_CHUNK_FLAG_DIRECT_ROUTE_LABELS =? 0) = tl_has_labels t.
Proof. by destruct t as [[] [] []]. Qed.
Lemma flag_wide t : negb (Z.land (route_flags t) FLB_CHUNK_FLAG_DIRECT_ROUTE_WIDE_IDS =? 0) = tl_wide_ids t.
Proof. by destruct t as [[] [] []]. Qed.
Lemma flag_plugins t : negb (Z.land (route_flags t) FLB_CHUNK_FLAG_DIRECT_ROUTE_PLUGIN_IDS =? 0) = tl_has_plugins t.
Proof. by destruct t as [[] [] []]. Qed.

Lemma view_layout event_type tag routes : 0 ∉ tag → zlen (routing_data routes) <= UINT16_MAX →
  input_chunk_metadata_view (Some (layout event_type tag routes)) =
  Some (0, mk_view tag (route_flags (totals_of routes)) (Some (routing_data routes))).
Proof.
  intros Ht Hn. set (d := routing_data routes) in *. set (fl := route_flags (totals_of routes)).
  assert (Hlay : layout event_type tag routes = [FLB_INPUT_CHUNK_MAGIC_BYTE_0; FLB_INPUT_CHUNK_MAGIC_BYTE_1; chunk_type event_type; fl] ++
    tag ++ [0] ++ be16 (zlen d) ++ d) by done.
  rewrite Hlay. clear Hlay. set (payload := tag ++ _). unfold input_chunk_metadata_view, input_chunk_has_magic_bytes.
  pose proof (zlen_nonneg tag). pose proof (zlen_nonneg d).
  assert (Hp : zlen payload = zlen tag + 1 + 2 + zlen d).
  { unfold payload. rewrite !zlen_app. change (zlen [0]) with 1. change (zlen (be16 _)) with 2. lia. }
  rewrite (zlen_app [_; _; _; _]). change (zlen [_; _; _; _]) with 4. unfold FLB_INPUT_CHUNK_META_HEADER.
  destruct (Z.ltb_spec (4 + zlen payload) 4); [lia|]. cbn [app drop Z.to_nat Pos.to_nat Pos.iter_op].
  change ((?a :: ?l) !z 0) with (Some a). change ((?a :: ?b :: ?l) !z 1) with (Some b).
  change ((?a :: ?b :: ?c :: ?e :: ?l) !z 3) with (Some e). cbn [mbind option_bind]. rewrite !Z.eqb_refl. cbn [andb negb].
  change (drop (Z.to_nat 4) (_ :: _ :: _ :: _ :: payload)) with payload. unfold fl. rewrite flag_direct. fold fl.
  assert (Hu : until_nul payload = tag) by (apply until_nul_app; done). rewrite Hu.
  rewrite (proj2 (Z.leb_gt _ _)) by lia. rewrite (proj2 (Z.ltb_lt (zlen tag) _)) by lia. cbn [negb].
  rewrite (proj2 (Z.ltb_ge _ _)) by lia.
  assert (Hoff : zlen (tag ++ [0]) = zlen tag + 1) by by rewrite zlen_app.
  assert (Hget : get16 payload (zlen tag + 1) = Some (zlen d)).
  { rewrite <- Hoff. unfold payload. rewrite app_assoc. apply get16_app. unfold UINT16_MAX in Hn. lia. }
  rewrite Hget. cbn [mbind option_bind]. rewrite (proj2 (Z.ltb_ge _ _)) by lia.
  assert (Hs : slice payload (zlen tag + 1 + 2) (zlen d) = Some d).
  { replace (zlen tag + 1 + 2) with (zlen ((tag ++ [0]) ++ be16 (zlen d))) by (rewrite zlen_app, Hoff; done).
    unfold payload. pose proof (slice_app ((tag ++ [0]) ++ be16 (zlen d)) d []) as Hs. rewrite app_nil_r, <- !app_assoc in Hs.
    rewrite <- !app_assoc. exact Hs. }
  by rewrite Hs.
Qed.

(** [yields]: whatever a computation gives satisfies [Q]; that it is defined is known from [ChunkMeta]. *)
Definition yields {A} (m : M heap A) (s : heap) (Q : A → heap → Prop) : Prop := ∀ a s', m s = Some (a, s') → Q a s'.

Lemma yields_ret {A} (a : A) s (Q : A → heap → Prop) : Q a s → yields (mret a) s Q.
Proof. by intros ? ?? [= <- <-]. Qed.
Lemma yields_bind {A B} (m : M heap A) (f : A → M heap B) s Q :
  yields m s (λ a s', yields (f a) s' Q) → yields (m ≫= f) s Q.
Proof. intros Hm b s'. unfold mbind, M_bind. destruct (m s) as [[a s1]|] eqn:E; [|done]. by apply Hm. Qed.
Lemma yields_weaken {A} (m : M heap A) s (Q Q' : A → heap → Prop) :
  yields m s Q → (∀ a s', Q a s' → Q' a s') → yields m s Q'.
Proof. intros Hm HQ a s' Hr. by apply HQ, Hm. Qed.
Lemma yields_deref {A} (o : option A) a s (Q : A → heap → Prop) : o = Some a → Q a s → yields (deref o) s Q.
Proof. by intros -> ? ?? [= <- <-]. Qed.
Lemma yields_runs {A} (m : M heap A) s Q : runs m s Q → yields m s Q.
Proof. intros (a & s' & Hr & HQ) b s''. rewrite Hr. by intros [= <- <-]. Qed.
Lemma yields_free a s (Q : unit → heap → Prop) : (∀ s', hp_env s' = hp_env s → Q tt s') → yields (free_block a) s Q.
Proof. intros HQ [] s'. unfold free_block. destruct (take_out a (hp_live s)); [|done]. cbn. intros [= <-]. by apply HQ. Qed.
Lemma yields_alloc s (Q : option nat → heap → Prop) :
  calm (hp_env s) → (∀ a s', calm (hp_env s') → Q (Some a) s') → yields alloc s Q.
Proof. intros. by apply yields_runs, runs_alloc_calm. Qed.

(** What the fields say before any text is stored *)
Definition bare (r : stored_route) : stored_route := mk_stored (st_id r) None 0 0 None 0.

Lemma get_labels_app plugins pre post routes s : Forall storable routes → calm (hp_env s) →
  let d := pre ++ label_data routes ++ post in
  yields (get_labels plugins d (bare <$> routes) (zlen pre)) s (λ res s',
    calm (hp_env s') ∧ res.1.1 = 0 ∧ res.2 = zlen (pre ++ label_data routes) ∧
    forget <$> res.1.2 = (λ r, mk_stored (st_id r) (copy_of (label_of r) (text_bytes (label_of r, st_label r))) (label_of r)
                               (read_alias true plugins r) None 0) <$> routes).
Proof.
  intros Hr Hc d. destruct (texts_fit routes Hr) as [Hf _].
  set (lens := (λ r, stored_label_length r (label_of r)) <$> routes).
  set (texts := ((λ r, (label_of r, st_label r)) <$> routes) ≫= text_bytes).
  assert (Hd : d = pre ++ (lens ≫= be16) ++ texts ++ post) by (unfold d, label_data; by rewrite <- !app_assoc).
  assert (Hlens : Forall (λ v, 0 <= v < 65536) lens).
  { apply Forall_fmap. eapply Forall_impl; [exact Hr|]. intros r Hs. by apply (label_entry_stored plugins r), (sb_label_length _ Hs). }
  apply yields_bind, yields_alloc; [done|]. intros a s1 Hc1. apply yields_bind, yields_alloc; [done|]. intros a2 s2 Hc2.
  pose proof (get_lengths_app (label_entry plugins) lens pre (texts ++ post) Hlens) as Hget. rewrite <- Hd in Hget.
  assert (Hentries : label_entry plugins <$> lens = (λ r, (label_of r, read_alias true plugins r)) <$> routes).
  { unfold lens. rewrite <- list_fmap_compose. apply Forall_fmap_ext_1. eapply Forall_impl; [exact Hr|].
    intros r Hs. by apply (label_entry_stored plugins r), (sb_label_length _ Hs). }
  rewrite Hentries in Hget. apply yields_bind. rewrite length_fmap.
  replace (length lens) with (length routes) in Hget by (unfold lens; by rewrite length_fmap).
  eapply yields_deref; [exact Hget|]. cbv beta iota.
  rewrite (proj2 (Z.ltb_ge (zlen d) _)).
  2: { rewrite Hd, (app_assoc pre), (zlen_app (pre ++ _)). pose proof (zlen_nonneg (texts ++ post)). lia. }
  apply yields_bind. set (E := (λ r, ((label_of r, read_alias true plugins r), text_bytes (label_of r, st_label r))) <$> routes).
  assert (Htexts : texts = E ≫= snd) by (unfold texts, E; by rewrite !list_fmap_bind).
  assert (HE : Forall (λ e, zlen e.2 = e.1.1) E).
  { apply Forall_fmap. eapply Forall_impl; [exact Hr|]. intros r Hs. apply (text_bytes_length _ (proj2 (sb_label _ Hs))). }
  pose proof (get_texts_app (λ alias p n, set_st_label p n alias) E ltac:(by intros) (pre ++ (lens ≫= be16)) post
                (bare <$> routes) s2 Hc2 ltac:(unfold E; by rewrite !length_fmap) HE) as Hrun.
  cbv zeta in Hrun. rewrite <- Htexts, <- (app_assoc pre), <- Hd in Hrun.
  replace (E.*1) with ((λ r, (label_of r, read_alias true plugins r)) <$> routes) in Hrun
    by (unfold E; by rewrite <- list_fmap_compose).
  eapply yields_weaken; [apply yields_runs, Hrun|]. clear Hrun. intros [[st rs] off] s3 (Hc3 & Hst & Hoff & Hrs).
  cbn [fst snd] in *. subst st off. apply yields_bind, yields_free. intros s4 He4. apply yields_bind, yields_free. intros s5 He5.
  apply yields_ret. cbn [fst snd]. split_and!; [by rewrite He5, He4|done| |].
  - unfold label_data. fold lens texts. by rewrite <- app_assoc.
  - rewrite Hrs. unfold E. rewrite <- list_fmap_compose, zip_fmap. by apply list_fmap_ext.
Qed.

Lemma get_plugins_app pre post routes rs g s : Forall storable routes → calm (hp_env s) → forget <$> rs = g <$> routes →
  let d := pre ++ plugin_data routes ++ post in
  yields (get_plugins d rs (zlen pre)) s (λ res s', calm (hp_env s') ∧ res.1.1 = 0 ∧
    forget <$> res.1.2 =
      (λ r, set_st_plugin (copy_of (plugin_of r) (text_bytes (plugin_of r, st_plugin_name r))) (plugin_of r) (g r)) <$> routes).
Proof.
  intros Hr Hc Hg d. destruct (texts_fit routes Hr) as [_ Hf]. set (lens := plugin_of <$> routes).
  set (texts := ((λ r, (plugin_of r, st_plugin_name r)) <$> routes) ≫= text_bytes).
  assert (Hlen : length rs = length routes) by (apply (f_equal length) in Hg; by rewrite !length_fmap in Hg).
  assert (Hd : d = pre ++ (lens ≫= be16) ++ texts ++ post) by (unfold d, plugin_data; by rewrite <- !app_assoc).
  assert (Hlens : Forall (λ v, 0 <= v < 65536) lens).
  { apply Forall_fmap. eapply Forall_impl; [exact Hr|]. intros r Hs. pose proof (sb_plugin_length _ Hs).
    unfold UINT16_MAX in *. cbn. lia. }
  apply yields_bind, yields_alloc; [done|]. intros a s1 Hc1.
  pose proof (get_lengths_app (λ n, (n, tt)) lens pre (texts ++ post) Hlens) as Hget. rewrite <- Hd in Hget.
  replace (length lens) with (length rs) in Hget by (unfold lens; by rewrite length_fmap).
  apply yields_bind. eapply yields_deref; [exact Hget|]. cbv beta iota.
  rewrite (proj2 (Z.ltb_ge (zlen d) _)).
  2: { rewrite Hd, (app_assoc pre), (zlen_app (pre ++ _)). pose proof (zlen_nonneg (texts ++ post)). lia. }
  apply yields_bind. set (E := (λ r, ((plugin_of r, tt), text_bytes (plugin_of r, st_plugin_name r))) <$> routes).
  assert (Htexts : texts = E ≫= snd) by (unfold texts, E; by rewrite !list_fmap_bind).
  assert (HE : Forall (λ e, zlen e.2 = e.1.1) E).
  { apply Forall_fmap. eapply Forall_impl; [exact Hr|]. intros r Hs. apply (text_bytes_length _ (proj2 (sb_plugin _ Hs))). }
  pose proof (get_texts_app (λ _, set_st_plugin) E ltac:(by intros) (pre ++ (lens ≫= be16)) post rs s1 Hc1
                ltac:(unfold E; by rewrite length_fmap) HE) as Hrun.
  cbv zeta in Hrun. rewrite <- Htexts, <- (app_assoc pre), <- Hd in Hrun.
  replace (E.*1) with ((λ n, (n, tt)) <$> lens) in Hrun by (unfold E, lens; by rewrite <- !list_fmap_compose).
  eapply yields_weaken; [apply yields_runs, Hrun|]. clear Hrun. intros [[st rs'] off] s3 (Hc3 & Hst & Hoff & Hrs).
  cbn [fst snd] in *. subst st off. apply yields_bind, yields_free. intros s4 He4.
  apply yields_ret. cbn [fst snd]. split_and!; [by rewrite He4|done|].
  rewrite Hrs, Hg. unfold E. rewrite zip_fmap. by apply list_fmap_ext.
Qed.

Lemma none_present (f : stored_route → Z) routes : Forall (λ r, 0 <= f r) routes → existsb (λ r, 0 <? f r) routes = false →
  Forall (λ r, f r = 0) routes.
Proof.
  induction 1 as [|r routes Hr _ IH]; cbn; [done|]. intros [?%Z.ltb_ge ?]%orb_false_iff. constructor; [lia|auto].
Qed.

(** The routes come back. *)
Lemma complete_routes_app block routes s : Forall storable routes → calm (hp_env s) →
  let off := 2 + zlen routes * id_bytes (wide_of routes) in
  yields (complete_routes (route_flags (totals_of routes)) (routing_data routes) block (bare <$> routes) off) s (λ res _,
    ∃ rs, res = (0, Some (block, rs)) ∧ forget <$> rs = read_back (labels_of routes) (plugins_of routes) <$> routes).
Proof.
  intros Hr Hc off. unfold complete_routes. rewrite flag_labels, flag_plugins. cbn [totals_of tl_has_labels tl_has_plugins].
  set (pre := be16 (zlen routes) ++ (routes ≫= λ r, be_id (wide_of routes) (st_id r))).
  assert (Hpre : off = zlen pre) by (unfold pre; rewrite zlen_app, ids_length; done). rewrite Hpre. clear Hpre off.
  set (LB := if labels_of routes then label_data routes else []). set (PB := if plugins_of routes then plugin_data routes else []).
  assert (Hd : routing_data routes = pre ++ LB ++ PB) by (unfold routing_data, pre; by rewrite <- !app_assoc).
  rewrite (proj2 (Z.ltb_ge (zlen (routing_data routes)) _)).
  2: { rewrite Hd, zlen_app. pose proof (zlen_nonneg (LB ++ PB)). lia. }
  set (g := λ r, mk_stored (st_id r) (copy_of (label_of r) (text_bytes (label_of r, st_label r))) (label_of r)
                   (read_alias (labels_of routes) (plugins_of routes) r) None 0).
  apply yields_bind. eapply yields_weaken with (Q := λ res s', calm (hp_env s') ∧ res.1.1 = 0 ∧ res.2 = zlen (pre ++ LB) ∧
    forget <$> res.1.2 = g <$> routes).
  { unfold g, LB in *. destruct (labels_of routes) eqn:HL.
    - rewrite Hd. by apply get_labels_app.
    - apply yields_ret. split_and!; [done|done|by rewrite app_nil_r|]. cbn. rewrite <- list_fmap_compose.
      apply Forall_fmap_ext_1. eapply Forall_impl; [apply (none_present label_of); [|exact HL]|].
      + eapply Forall_impl; [exact Hr|]. intros r Hs. apply (sb_label_length _ Hs).
      + intros r ->. done. }
  intros [[st rs] off] s1 (Hc1 & Hst & Hoff & Hrs). cbn [fst snd] in *. subst st off. cbn [Z.eqb negb].
  apply yields_bind. eapply yields_weaken with (Q := λ res s', res.1.1 = 0 ∧
    forget <$> res.1.2 = read_back (labels_of routes) (plugins_of routes) <$> routes).
  { unfold PB in Hd. destruct (plugins_of routes) eqn:HP.
    - rewrite Hd, app_assoc, <- (app_nil_r (plugin_data routes)).
      eapply yields_weaken; [by apply get_plugins_app|]. intros [[st rs'] off] s2 (_ & Hst & Hrs'). done.
    - apply yields_ret. split; [done|]. cbn [fst snd]. rewrite <- list_fmap_compose.
      transitivity (set_st_plugin None 0 <$> (forget <$> rs)); [by rewrite <- list_fmap_compose|].
      rewrite Hrs, <- list_fmap_compose. apply Forall_fmap_ext_1.
      eapply Forall_impl; [apply (none_present plugin_of); [|exact HP]|].
      + eapply Forall_impl; [exact Hr|]. intros r Hs. apply (sb_plugin_length _ Hs).
      + intros r Hp. unfold read_back. cbn. by rewrite Hp. }
  intros [[st rs'] off] s2 (Hst & Hrs'). cbn [fst snd] in *. subst st. cbn [Z.eqb negb]. apply yields_ret. eauto.
Qed.

Lemma storable_ids routes : Forall storable routes →
  Forall (λ r, 0 <= st_id r < 2 ^ 32 ∧ (wide_of routes = false → st_id r < 65536)) routes.
Proof.
  intros Hr. apply Forall_forall. intros r Hin. split; [apply sb_id; by eapply Forall_forall in Hr|].
  intros Hw. destruct (Z.ltb_spec (st_id r) 65536); [done|]. exfalso.
  assert (wide_of routes = true); [|congruence]. apply existsb_exists. exists r.
  split; [by apply list_elem_of_In|]. unfold UINT16_MAX. apply Z.ltb_lt. lia.
Qed.

Lemma get_direct_routes_app event_type tag routes s : Forall storable routes → calm (hp_env s) → 0 ∉ tag →
  0 < zlen routes <= UINT16_MAX → zlen (routing_data routes) <= UINT16_MAX →
  yields (flb_input_chunk_get_direct_routes (Some (layout event_type tag routes))) s (λ res _,
    ∃ block rs, res = (0, Some (block, rs)) ∧ forget <$> rs = read_back (labels_of routes) (plugins_of routes) <$> routes).
Proof.
  intros Hr Hc Ht Hn Hd. unfold flb_input_chunk_get_direct_routes. rewrite view_layout by done.
  apply yields_bind. eapply yields_deref; [reflexivity|]. cbn [mv_flags mv_routing_data]. cbv beta iota. cbn [Z.eqb].
  rewrite flag_direct, flag_wide. cbn [totals_of tl_wide_ids]. set (wide := wide_of routes).
  set (rest := (if labels_of routes then label_data routes else []) ++ (if plugins_of routes then plugin_data routes else [])).
  assert (Hrd : routing_data routes = be16 (zlen routes) ++ (routes ≫= λ r, be_id wide (st_id r)) ++ rest) by done.
  assert (Hlen : zlen (routing_data routes) = 2 + zlen routes * id_bytes wide + zlen rest).
  { rewrite Hrd, !zlen_app, ids_length. change (zlen (be16 (zlen routes))) with 2. lia. }
  pose proof (zlen_nonneg rest). assert (Hw : 0 < id_bytes wide) by (by destruct wide).
  rewrite (proj2 (Z.ltb_ge _ 2)) by nia. apply yields_bind.
  eapply yields_deref; [rewrite Hrd; apply (get16_app []); unfold UINT16_MAX in Hn; lia|].
  rewrite (proj2 (Z.eqb_neq _ 0)) by lia. cbv zeta. rewrite (proj2 (Z.ltb_ge (zlen (routing_data routes)) _)) by lia.
  apply yields_bind, yields_alloc; [done|]. intros block s1 Hc1. apply yields_bind. rewrite zlen_nat.
  eapply yields_deref; [rewrite Hrd; by apply (get_ids_app wide routes (be16 (zlen routes)) rest), storable_ids|].
  eapply yields_weaken; [by apply complete_routes_app|]. intros res s2 (rs & ? & ?). eauto.
Qed.

(** ** The layout consists of bytes *)

Lemma u8_byte v : is_byte (u8 v).
Proof. unfold is_byte, u8. apply Z.mod_pos_bound. lia. Qed.
Lemma be16_bytes v : bytes_ok (be16 v).
Proof. repeat constructor; apply u8_byte. Qed.
Lemma bind_bytes {A} (f : A → list Z) l : Forall (λ x, bytes_ok (f x)) l → bytes_ok (l ≫= f).
Proof. induction 1 as [|x l Hx _ IH]; [by apply Forall_nil|]. cbn. by apply Forall_app. Qed.
Lemma be16s_bytes l : bytes_ok (l ≫= be16).
Proof. apply bind_bytes, Forall_true. apply be16_bytes. Qed.

Lemma layout_bytes event_type tag routes : Forall storable routes → bytes_ok tag → bytes_ok (layout event_type tag routes).
Proof.
  intros Hr Ht. unfold layout, routing_data, label_data, plugin_data.
  assert (Hl : bytes_ok (((λ r, (label_of r, st_label r)) <$> routes) ≫= text_bytes)).
  { apply bind_bytes, Forall_fmap. eapply Forall_impl; [exact Hr|]. intros r Hs. apply (sb_bytes _ Hs). }
  assert (Hp : bytes_ok (((λ r, (plugin_of r, st_plugin_name r)) <$> routes) ≫= text_bytes)).
  { apply bind_bytes, Forall_fmap. eapply Forall_impl; [exact Hr|]. intros r Hs. apply (sb_bytes _ Hs). }
  assert (Hids : bytes_ok (routes ≫= λ r, be_id (wide_of routes) (st_id r))).
  { apply bind_bytes, Forall_true. intros r. unfold be_id. destruct (wide_of routes); repeat constructor; apply u8_byte. }
  assert (Hh : bytes_ok [FLB_INPUT_CHUNK_MAGIC_BYTE_0; FLB_INPUT_CHUNK_MAGIC_BYTE_1; chunk_type event_type; route_flags (totals_of routes)]).
  { repeat constructor; try (vm_compute; (done || lia)); unfold chunk_type; [repeat case_match; done..| |];
      destruct (totals_of routes) as [[] [] []]; done. }
  unfold bytes_ok in *. repeat (apply Forall_app; split); try done; try apply be16_bytes; [by repeat constructor| |].
  all: case_match; [|by apply Forall_nil]; apply Forall_app; split; try done; apply be16s_bytes.
Qed.

(** ** Writing *)

(** The number of bytes of the tag that are kept *)
Definition kept_tag (tag : list Z) (tag_len : Z) (routes : list stored_route) : list Z :=
  take (Z.to_nat (Z.min tag_len (max_tag_length (zlen (routing_data routes))))) tag.
(** What has to hold for the metadata to be written *)
Definition fits (cio_meta_write : list Z → bool) (event_type : Z) (tag : list Z) (tag_len : Z) (routes : list stored_route) : Prop :=
  0 < zlen routes <= UINT16_MAX ∧ zlen (routing_data routes) <= UINT16_MAX ∧
  cio_meta_write (layout event_type (kept_tag tag tag_len routes) routes) = true.

Record write_result cio_meta_write event_type tag tag_len routes (s : heap) (res : Z * option (list Z)) (s' : heap) : Prop := {
  wr_live : hp_live s' ≡ₚ hp_live s;
  wr_calm : calm (hp_env s) → calm (hp_env s');
  wr_res : res = (-1, None) ∧ (¬ calm (hp_env s) ∨ ¬ fits cio_meta_write event_type tag tag_len routes) ∨
    res = (0, Some (layout event_type (kept_tag tag tag_len routes) routes)) ∧ fits cio_meta_write event_type tag tag_len routes
}.

Lemma max_tag_nonneg n : 0 <= max_tag_length n.
Proof. unfold max_tag_length. case_match; bool_prop; lia. Qed.

Lemma write_ok cio_meta_write event_type tag tag_len routes s : Forall storable routes → 0 <= tag_len <= zlen tag →
  runs (flb_input_chunk_write_header_v2 cio_meta_write event_type tag tag_len routes) s
    (write_result cio_meta_write event_type tag tag_len routes s).
Proof.
  intros Hr Ht. unfold flb_input_chunk_write_header_v2.
  destruct ((zlen routes <=? 0) || (UINT16_MAX <? zlen routes)) eqn:Hn.
  { apply runs_ret. constructor; [done|done|]. left. split; [done|]. right. intros (? & _). apply orb_true_iff in Hn as [?|?]; bool_prop; lia. }
  bool_prop. apply runs_bind, runs_alloc.
  { intros s1 Hl ?. apply runs_ret. constructor; [by rewrite Hl|tauto|tauto]. }
  intros a s1 Hl1 Hc1. apply runs_bind, runs_alloc.
  { intros s2 Hl2 ?. apply runs_bind, (runs_free _ (hp_live s)); [by rewrite Hl2, Hl1|]. intros s3 Hl3 He3.
    apply runs_ret. constructor; [done|tauto|tauto]. }
  intros b s2 Hl2 Hc2. apply runs_bind. eapply runs_deref; [by apply resolve_ok|]. cbv beta iota zeta. cbn [orb tl_wide_ids tl_has_labels tl_has_plugins tl_labels tl_plugins].
  change (mk_totals _ _ _ _ _) with (totals_of routes). rewrite <- routing_data_length by done.
  assert (Hfail : ∀ s3, hp_live s3 ≡ₚ b :: a :: hp_live s → (calm (hp_env s) → calm (hp_env s3)) →
    ¬ calm (hp_env s) ∨ ¬ fits cio_meta_write event_type tag tag_len routes →
    runs (free_block a ≫= λ _, free_block b ≫= λ _, mret (-1, None)) s3 (write_result cio_meta_write event_type tag tag_len routes s)).
  { intros s3 Hl3 Hc3 Hwhy. apply runs_bind, (runs_free _ (b :: hp_live s)); [blocks|]. intros s4 Hl4 He4.
    apply runs_bind, (runs_free _ (hp_live s)); [done|]. intros s5 Hl5 He5. apply runs_ret.
    constructor; [done|rewrite He5, He4; tauto|tauto]. }
  destruct (Z.ltb_spec UINT16_MAX (zlen (routing_data routes))).
  { apply Hfail; [by rewrite Hl2, Hl1|tauto|]. right. intros (? & ? & _). lia. }
  set (max := max_tag_length (zlen (routing_data routes))).
  assert (Hk : (if max <? tag_len then max else tag_len) = Z.min tag_len max) by (destruct (Z.ltb_spec max tag_len); lia).
  rewrite Hk. pose proof (max_tag_nonneg (zlen (routing_data routes))). apply runs_bind, runs_alloc.
  { intros s3 Hl3 ?. apply Hfail; [by rewrite Hl3, Hl2, Hl1|tauto|tauto]. }
  intros m s3 Hl3 Hc3. apply runs_bind. eapply runs_deref; [apply fill_meta_layout; [done|lia|lia]|].
  fold (kept_tag tag tag_len routes).
  apply runs_bind, (runs_free _ (m :: b :: hp_live s)); [rewrite Hl3, Hl2, Hl1; blocks|]. intros s4 Hl4 He4.
  apply runs_bind, (runs_free _ (m :: hp_live s)); [blocks|]. intros s5 Hl5 He5.
  apply runs_bind, (runs_free _ (hp_live s)); [done|]. intros s6 Hl6 He6. apply runs_ret.
  constructor; [done|rewrite He6, He5, He4; tauto|].
  unfold fits. destruct (cio_meta_write _) eqn:Hcio; [right|left]; (split; [done|]).
  - split; [lia|]. split; [lia|done].
  - right. intros (_ & _ & ?). done.
Qed.

(** The event type that a chunk has when its metadata are read *)
Definition stored_event_type (event_type : Z) : Z := if has_table event_type then event_type else FLB_INPUT_LOGS.

Lemma event_type_layout event_type tag routes :
  flb_input_chunk_get_event_type (Some (layout event_type tag routes)) = Some (stored_event_type event_type).
Proof.
  unfold flb_input_chunk_get_event_type, input_chunk_has_magic_bytes, layout.
  rewrite (zlen_app [_; _; _; _]). change (zlen [_; _; _; _]) with 4.
  match goal with |- context [4 + zlen ?l] => pose proof (zlen_nonneg l); destruct (Z.ltb_spec (4 + zlen l) FLB_INPUT_CHUNK_META_HEADER) as [Hlt|_] end.
  { unfold FLB_INPUT_CHUNK_META_HEADER in Hlt. lia. }
  cbn [app]. change ((?a :: ?l) !z 0) with (Some a). change ((?a :: ?b :: ?l) !z 1) with (Some b).
  change ((?a :: ?b :: ?c :: ?l) !z 2) with (Some c). cbn [mbind option_bind]. rewrite !Z.eqb_refl. cbn [andb].
  unfold stored_event_type, has_table, chunk_type. f_equal.
  destruct (Z.eqb_spec event_type FLB_INPUT_LOGS) as [->|]; [done|].
  destruct (Z.eqb_spec event_type FLB_INPUT_METRICS) as [->|]; [done|].
  destruct (Z.eqb_spec event_type FLB_INPUT_TRACES) as [->|]; [done|].
  by destruct (Z.eqb_spec event_type FLB_INPUT_PROFILES) as [->|].
Qed.

Lemma layout_reads event_type tag routes s : Forall storable routes → bytes_ok tag → 0 ∉ tag →
  0 < zlen routes <= UINT16_MAX → zlen (routing_data routes) <= UINT16_MAX → calm (hp_env s) →
  flb_input_chunk_get_tag (Some (layout event_type tag routes)) = Some (0, Some tag) ∧
  flb_input_chunk_has_direct_routes (Some (layout event_type tag routes)) = Some true ∧
  ∃ block rs s', flb_input_chunk_get_direct_routes (Some (layout event_type tag routes)) s = Some (0, Some (block, rs), s') ∧
    forget <$> rs = read_back (labels_of routes) (plugins_of routes) <$> routes.
Proof.
  intros Hr Hb Ht Hn Hd Hc. split_and!.
  - unfold flb_input_chunk_get_tag. by rewrite view_layout.
  - unfold flb_input_chunk_has_direct_routes. rewrite view_layout by done. cbn [mbind option_bind mv_flags mv_routing_data].
    rewrite flag_direct. cbn. f_equal. apply Z.leb_le. pose proof (zlen_nonneg routes).
    change (u8 (Z.shiftr (zlen routes) 8) :: u8 (Z.land (zlen routes) 255) :: ?l) with (be16 (zlen routes) ++ l).
    rewrite zlen_app. change (zlen (be16 (zlen routes))) with 2. match goal with |- context [2 + zlen ?l] => pose proof (zlen_nonneg l) end. lia.
  - destruct (get_direct_routes_ok (Some (layout event_type tag routes)) s) as (res & s' & Hrun & _); [|done|].
    { intros buf [= <-]. by apply layout_bytes. }
    destruct (get_direct_routes_app event_type tag routes s Hr Hc Ht Hn Hd _ _ Hrun) as (block & rs & -> & ?). eauto 6.
Qed.

Lemma take_bytes n l : bytes_ok l → bytes_ok (take n l).
Proof. apply Forall_take. Qed.
Lemma take_notin (x : Z) n m l : x ∉ take m l → (n <= m)%nat → x ∉ take n l.
Proof.
  intros Hx Hle Hin. apply Hx. rewrite <- (take_drop n (take m l)), take_take. apply elem_of_app. left.
  by rewrite Nat.min_l.
Qed.

(** C17. A chunk gets its direct routes back.  Writing never leaks memory or fails otherwise than by -1; it
    succeeds, while memory is there, exactly when there are routes, at most 65535 of them, their data fit
    in 65535 bytes and chunkio takes the metadata.  From what was written, at any later time when memory is
    there, the tag is read up to the room left for it, the event type - except for blobs, which become
    logs -, and for every route the same id, label and plugin name; the alias mark comes back too, except
    that a label that is no alias is read as one when no route has a plugin name. *)
Theorem direct_routes_roundtrip cio_meta_write event_type tag tag_len routes s :
  Forall storable routes → bytes_ok tag → 0 <= tag_len <= zlen tag → 0 ∉ take (Z.to_nat tag_len) tag →
  let size := routing_payload_bytes (zlen routes) (totals_of routes) in
  let kept := take (Z.to_nat (Z.min tag_len (max_tag_length size))) tag in
  ∃ ret meta s1, flb_input_chunk_write_header_v2 cio_meta_write event_type tag tag_len routes s = Some (ret, meta, s1) ∧
    hp_live s1 ≡ₚ hp_live s ∧ (ret = -1 ∧ meta = None ∨ ret = 0 ∧ is_Some meta) ∧
    (calm (hp_env s) → ret = 0 ↔
       0 < zlen routes <= UINT16_MAX ∧ size <= UINT16_MAX ∧ cio_meta_write (layout event_type kept routes) = true) ∧
    ∀ m s2, meta = Some m → calm (hp_env s2) →
      flb_input_chunk_get_tag meta = Some (0, Some kept) ∧
      flb_input_chunk_get_event_type meta = Some (stored_event_type event_type) ∧
      flb_input_chunk_has_direct_routes meta = Some true ∧
      ∃ block rs s3, flb_input_chunk_get_direct_routes meta s2 = Some (0, Some (block, rs), s3) ∧
        forget <$> rs = read_back (labels_of routes) (plugins_of routes) <$> routes.
Proof.
  intros Hr Hb Hl Ht size kept. pose proof (routing_data_length routes Hr) as Hsize. fold size in Hsize.
  assert (Hkept : kept = kept_tag tag tag_len routes) by (unfold kept_tag; by rewrite Hsize).
  destruct (write_ok cio_meta_write event_type tag tag_len routes s Hr Hl) as ([ret meta] & s1 & Hrun & [G1 G2 G3]).
  exists ret, meta, s1. split; [done|]. split; [done|]. unfold fits in G3. rewrite Hsize, <- Hkept in G3.
  destruct G3 as [[[= -> ->] Hwhy]|[[= -> ->] (Hn & Hd & Hcio)]].
  { split; [by left|]. split; [|done]. intros ?. split; [done|]. intros ?. exfalso. tauto. }
  split; [right; eauto|]. split; [done|]. intros m s2 _ Hc2.
  assert (Hkt : 0 ∉ kept) by (eapply take_notin; [exact Ht|lia]).
  destruct (layout_reads event_type kept routes s2 Hr (take_bytes _ _ Hb) Hkt Hn) as (? & ? & ?); [by rewrite Hsize|done|].
  split_and!; try done. apply event_type_layout.
Qed.

(** Two routes, one with an alias and an id of more than 16 bits, one without *)
Definition ex_routes : list stored_route :=
  [mk_stored 70000 (Some (0%nat, [97; 108; 0])) 2 1 (Some (0%nat, [111; 0])) 1;
   mk_stored 3 (Some (0%nat, [98; 0])) 0 0 None 0].

Lemma ex_storable : Forall storable ex_routes.
Proof.
  repeat constructor; try (vm_compute; (done || (split; (done || discriminate))));
    unfold text_bytes; cbn; repeat constructor; vm_compute; (done || discriminate).
Qed.

Lemma direct_routes_roundtrip_witness :
  flb_input_chunk_write_header_v2 (λ m, zlen m <=? 65535) 1 [116; 46] 2 ex_routes no_heap =
    Some (0, Some [241; 119; 1; 15; 116; 46; 0; 0; 22; 0; 2; 0; 1; 17; 112; 0; 0; 0; 3; 128; 2; 0; 1; 97; 108; 98;
                   0; 1; 0; 0; 111], mk_heap (mk_env [] [] [] 0 4 []) []) ∧
  ∃ ret meta s1, flb_input_chunk_write_header_v2 (λ m, zlen m <=? 65535) 1 [116; 46] 2 ex_routes no_heap = Some (ret, meta, s1) ∧
    hp_live s1 ≡ₚ [].
Proof.
  split; [vm_compute; reflexivity|].
  destruct (direct_routes_roundtrip (λ m, zlen m <=? 65535) 1 [116; 46] 2 ex_routes no_heap ex_storable)
    as (ret & meta & s1 & Hw & Hl & _); [| | |eauto 6].
  - repeat constructor; vm_compute; (done || discriminate).
  - vm_compute. split; discriminate.
  - vm_compute. intros Hin. repeat (apply elem_of_cons in Hin as [Hin|Hin]; [discriminate|]). by apply elem_of_nil in Hin.
Defined.

(** ** The header of a chunk without direct routes *)

Definition plain_layout (event_type : Z) (tag : list Z) : list Z :=
  [FLB_INPUT_CHUNK_MAGIC_BYTE_0; FLB_INPUT_CHUNK_MAGIC_BYTE_1; chunk_type event_type; 0] ++ tag.

Lemma plain_header_ok cio_meta_write event_type tag tag_len s : 0 <= tag_len <= zlen tag →
  let kept := take (Z.to_nat (Z.min tag_len FLB_INPUT_CHUNK_TAG_MAX)) tag in
  runs (input_chunk_write_header cio_meta_write event_type tag tag_len) s (λ res s',
    hp_live s' ≡ₚ hp_live s ∧
    (res = (-1, None) ∧ (¬ calm (hp_env s) ∨ cio_meta_write (plain_layout event_type kept) = false) ∨
     res = (0, Some (plain_layout event_type kept)))).
Proof.
  intros Ht kept. unfold input_chunk_write_header, FLB_INPUT_CHUNK_TAG_MAX, FLB_INPUT_CHUNK_META_HEADER in *.
  assert (Hk : (if 65535 - 4 <? tag_len then 65535 - 4 else tag_len) = Z.min tag_len (65535 - 4)) by (destruct (Z.ltb_spec (65535 - 4) tag_len); lia).
  rewrite Hk. set (n := Z.min tag_len (65535 - 4)) in *. assert (Hn : 0 <= n <= zlen tag) by lia.
  assert (Hlk : zlen kept = n) by (unfold kept, zlen in *; rewrite length_take; lia).
  apply runs_bind, runs_alloc; [intros s1 Hl1 ?; apply runs_ret; split; [by rewrite Hl1|tauto]|].
  intros a s1 Hl1 Hc1. apply runs_bind. eapply runs_deref with (a := plain_layout event_type kept).
  - replace (Z.to_nat (4 + n)) with (4 + (length kept + 0))%nat by (unfold zlen in *; lia).
    rewrite header_zeros, (slice_take tag n) by done. change (Some ?x ≫= ?f) with (f x). cbv beta. fold kept.
    rewrite (memcpy_zeros [_; _; _; _]). by rewrite app_nil_r.
  - apply runs_bind, (runs_free _ (hp_live s)); [by rewrite Hl1|]. intros s2 Hl2 _. apply runs_ret. split; [done|].
    destruct (cio_meta_write _) eqn:Hcio; [by right|left; auto].
Qed.

(** A chunk is found again by its tag up to the first NUL ([CStd.until_nul]), and has no direct routes. *)
Lemma plain_header_reads event_type tag :
  flb_input_chunk_get_tag (Some (plain_layout event_type tag)) = Some (0, Some (until_nul tag)) ∧
  flb_input_chunk_has_direct_routes (Some (plain_layout event_type tag)) = Some false ∧
  ∀ s, flb_input_chunk_get_direct_routes (Some (plain_layout event_type tag)) s = Some (0, None, s).
Proof.
  assert (Hv : input_chunk_metadata_view (Some (plain_layout event_type tag)) = Some (0, mk_view (until_nul tag) 0 None)).
  { unfold input_chunk_metadata_view, input_chunk_has_magic_bytes, plain_layout. rewrite (zlen_app [_; _; _; _]).
    change (zlen [_; _; _; _]) with 4. pose proof (zlen_nonneg tag).
    destruct (Z.ltb_spec (4 + zlen tag) FLB_INPUT_CHUNK_META_HEADER) as [Hlt|_]; [unfold FLB_INPUT_CHUNK_META_HEADER in Hlt; lia|].
    reflexivity. }
  unfold flb_input_chunk_get_tag, flb_input_chunk_has_direct_routes, flb_input_chunk_get_direct_routes. rewrite Hv. done.
Qed.

(** ** Back to the outputs *)

(** The label an output is stored with *)
Definition label_text (o : flb_output_instance) : list Z :=
  match o_alias o with None | Some [] => o_name o | Some s => s end.

(** A C string that is not empty *)
Definition c_string (s : list Z) : Prop := 0 < zlen s ∧ bytes_ok s ∧ 0 ∉ s.
(** Outputs are named, with labels of less than 32768 characters and plugin names of less than 65536. *)
Definition named (o : flb_output_instance) : Prop :=
  c_string (label_text o) ∧ zlen (label_text o) <= FLB_CHUNK_DIRECT_ROUTE_LABEL_LENGTH_MASK ∧
  c_string (o_p_name o) ∧ zlen (o_p_name o) <= UINT16_MAX.

Definition alias_mark (o : flb_output_instance) : Z := match o_alias o with None | Some [] => 0 | Some _ => 1 end.

Lemma direct_route_named o : named o → direct_route_of o =
  mk_stored (u32 (o_id o)) (Some (0%nat, label_text o ++ [0])) (zlen (label_text o)) (alias_mark o)
    (Some (0%nat, o_p_name o ++ [0])) (zlen (o_p_name o)).
Proof.
  intros (_ & Hl & _ & Hp). unfold direct_route_of, label_text, alias_mark in *.
  unfold UINT16_MAX, FLB_CHUNK_DIRECT_ROUTE_LABEL_LENGTH_MASK in *. revert Hl.
  destruct (o_alias o) as [[|b s]|]; intros Hl; rewrite !(proj2 (Z.ltb_ge 65535 _)) by lia;
    unfold u16; rewrite !Z.mod_small; try done; split; (apply zlen_nonneg || lia).
Qed.

Lemma take_all (s : list Z) l : take (Z.to_nat (zlen s)) (s ++ l) = s.
Proof. rewrite zlen_nat. apply take_app_length. Qed.

Lemma direct_route_parts o : named o →
  label_of (direct_route_of o) = zlen (label_text o) ∧ plugin_of (direct_route_of o) = zlen (o_p_name o) ∧
  text_bytes (zlen (label_text o), st_label (direct_route_of o)) = label_text o ∧
  text_bytes (zlen (o_p_name o), st_plugin_name (direct_route_of o)) = o_p_name o ∧
  resolved_label (direct_route_of o) = Some (zlen (label_text o)) ∧ resolved_plugin (direct_route_of o) = Some (zlen (o_p_name o)).
Proof.
  intros Hn. rewrite (direct_route_named o Hn). destruct Hn as ((Hl & _) & Hlm & (Hp & _) & Hpm).
  assert (HL : resolved_label (mk_stored (u32 (o_id o)) (Some (0%nat, label_text o ++ [0])) (zlen (label_text o)) (alias_mark o)
    (Some (0%nat, o_p_name o ++ [0])) (zlen (o_p_name o))) = Some (zlen (label_text o))).
  { unfold resolved_label. cbn [st_label st_label_length st_label_is_alias]. rewrite (proj2 (Z.eqb_neq (zlen (label_text o)) 0)) by lia. cbn [mbind option_bind].
    by rewrite (proj2 (Z.ltb_ge FLB_CHUNK_DIRECT_ROUTE_LABEL_LENGTH_MASK _)), andb_false_r by done. }
  assert (HP : resolved_plugin (mk_stored (u32 (o_id o)) (Some (0%nat, label_text o ++ [0])) (zlen (label_text o)) (alias_mark o)
    (Some (0%nat, o_p_name o ++ [0])) (zlen (o_p_name o))) = Some (zlen (o_p_name o))).
  { unfold resolved_plugin. cbn [st_plugin_name st_plugin_name_length]. by rewrite (proj2 (Z.eqb_neq (zlen (o_p_name o)) 0)) by lia. }
  unfold label_of, plugin_of. rewrite HL, HP. split_and!; try done; apply take_all.
Qed.

Lemma direct_route_storable o : named o → storable (direct_route_of o).
Proof.
  intros Hn. destruct (direct_route_parts o Hn) as (Hl & Hp & Htl & Htp & Hrl & Hrp). pose proof (direct_route_named o Hn) as Heq.
  destruct Hn as ((? & ? & _) & ? & (? & ? & _) & ?). constructor; rewrite ?Hl, ?Hp, ?Htl, ?Htp, ?Hrl, ?Hrp.
  - rewrite Heq. cbn. apply Z.mod_pos_bound. lia.
  - split; [done|]. rewrite Heq. unfold text_fits. cbn [fst snd st_label]. rewrite zlen_app. change (zlen [0]) with 1. lia.
  - split; [done|]. rewrite Heq. unfold text_fits. cbn [fst snd st_plugin_name]. rewrite zlen_app. change (zlen [0]) with 1. lia.
  - lia.
  - lia.
  - done.
Qed.

(** What the tasks see of a route that came back *)
Lemma to_direct_forget r : to_direct (forget r) = to_direct r.
Proof. destruct r as [? [[]|] ? ? [[]|] ?]; done. Qed.

Lemma read_back_direct labels plugins o : named o → to_direct (read_back labels plugins (direct_route_of o)) =
  mk_direct (u32 (o_id o)) (Some (label_text o)) (zlen (label_text o)) (Some (o_p_name o)) (zlen (o_p_name o)).
Proof.
  intros Hn. destruct (direct_route_parts o Hn) as (Hl & Hp & Htl & Htp & _ & _). unfold read_back. rewrite Hl, Hp, Htl, Htp.
  pose proof (direct_route_named o Hn) as ->. destruct Hn as ((? & _ & ?) & _ & (? & _ & ?) & _). unfold to_direct, copy_of. cbn [st_id st_label st_label_length st_plugin_name st_plugin_name_length].
  rewrite !(proj2 (Z.eqb_neq _ 0)) by lia. cbn. by rewrite !until_nul_app.
Qed.

Lemma str_eq_refl s buf : str_eq s buf (zlen buf) = bool_decide (s = buf).
Proof.
  unfold str_eq. rewrite zlen_nat, firstn_all. destruct (decide (s = buf)) as [->|].
  - by rewrite Z.eqb_refl, !bool_decide_true.
  - rewrite !bool_decide_false by congruence. apply andb_false_r.
Qed.

(** The outputs such a route leads to *)
Lemma direct_matches_named outs o k : named o →
  k ∈ direct_matches outs (mk_direct (u32 (o_id o)) (Some (label_text o)) (zlen (label_text o)) (Some (o_p_name o)) (zlen (o_p_name o))) ↔
  ∃ o', outs !! k = Some o' ∧ o_p_name o' = o_p_name o ∧ (o_alias o' = Some (label_text o) ∨ o_name o' = label_text o).
Proof.
  intros ((Hl & _) & _ & (Hp & _) & _). unfold direct_matches. cbn [dr_label dr_label_length].
  rewrite (proj2 (Z.eqb_neq (zlen (label_text o)) 0)), (proj2 (Z.ltb_lt 0 (zlen (label_text o)))) by lia.
  assert (Hpl : ∀ o', flb_chunk_route_plugin_matches o' (mk_direct (u32 (o_id o)) (Some (label_text o)) (zlen (label_text o)) (Some (o_p_name o)) (zlen (o_p_name o))) =
    bool_decide (o_p_name o' = o_p_name o)).
  { intros o'. unfold flb_chunk_route_plugin_matches. cbn [dr_plugin_name dr_plugin_name_length].
    rewrite (proj2 (Z.ltb_lt 0 (zlen (o_p_name o)))) by lia. destruct (o_p_name o) eqn:Hn; [by vm_compute in Hp|]. by rewrite str_eq_refl. }
  assert (Hal : ∀ o', alias_is (label_text o) (zlen (label_text o)) o' = bool_decide (o_alias o' = Some (label_text o))).
  { intros o'. unfold alias_is. destruct (o_alias o') as [s|]; [|done]. rewrite str_eq_refl. apply bool_decide_ext. naive_solver. }
  rewrite elem_of_app, !positions_lookup. split.
  - intros [(i & x & Hi & Hx & ->)|(i & x & Hi & Hx & ->)]; exists x; rewrite Hpl, Hal in Hx; rewrite ?str_eq_refl in Hx;
      rewrite ?andb_true_iff, ?negb_true_iff, ?bool_decide_eq_true in Hx; naive_solver.
  - intros (o' & Hk & Hpn & Hor). destruct (decide (o_alias o' = Some (label_text o))) as [Ha|Ha]; [left|right]; exists k, o';
      (split; [done|]); (split; [|done]); rewrite Hpl, Hal, ?str_eq_refl.
    + by rewrite !bool_decide_true.
    + rewrite (bool_decide_false _ Ha), !bool_decide_true by (done || tauto). done.
Qed.

(** An output that a chunk with this mask is routed to by a direct route of the input *)
Definition routed (cfg : flb_config) (mask : list Z) (paths : list flb_router_path) (o : flb_output_instance) : Prop :=
  ∃ p, p ∈ paths ∧ cf_outputs cfg !! rp_ins p = Some o ∧ flb_routes_mask_get_bit mask (o_id o) (cf_router cfg) = Some 1.

Lemma routed_outputs_ok cfg r mask paths :
  cf_router cfg = Some r → router_wf r → mask_wf r mask → (∀ p, p ∈ paths → is_Some (cf_outputs cfg !! rp_ins p)) →
  ∃ outs, routed_outputs cfg mask paths = Some outs ∧ ∀ o, o ∈ outs ↔ routed cfg mask paths o.
Proof.
  intros Hcr Hr Hm. induction paths as [|p paths IH]; intros Hp.
  { exists []. split; [done|]. intros o. split; [by intros ?%not_elem_of_nil|]. by intros (p & ?%not_elem_of_nil & _). }
  destruct (Hp p) as [o Ho]; [by left|]. destruct IH as (os & Hos & Hin); [intros; apply Hp; by right|].
  destruct (get_bit_spec r mask (o_id o) Hr Hm) as (b & Hb & Hb01 & _). cbn [routed_outputs]. rewrite Ho, Hcr. cbn [mbind option_bind].
  rewrite Hb. cbn [mbind option_bind]. rewrite Hos. cbn [mbind option_bind]. eexists. split; [reflexivity|]. intros o'.
  assert (Hcons : routed cfg mask (p :: paths) o' ↔ (o' = o ∧ b = 1) ∨ routed cfg mask paths o').
  { unfold routed. rewrite Hcr. split.
    - intros (q & [->|Hq]%elem_of_cons & Ho' & Hbit); [left|right; eauto]. rewrite Ho in Ho'. injection Ho' as <-.
      split; [done|]. congruence.
    - intros [[-> ->]|(q & ? & ? & ?)]; [exists p|exists q]; (split; [|done]); [left|by right]. }
  rewrite Hcons, <- Hin. destruct Hb01 as [-> | ->]; cbn [Z.eqb].
  - rewrite elem_of_cons. tauto.
  - split; [by right|]. by intros [[_ ?]|?].
Qed.

Lemma direct_all_named outs os rs labels plugins k : Forall named os →
  forget <$> rs = read_back labels plugins <$> (direct_route_of <$> os) →
  k ∈ direct_all outs (to_direct <$> rs) ↔
  ∃ o o', o ∈ os ∧ outs !! k = Some o' ∧ o_p_name o' = o_p_name o ∧ (o_alias o' = Some (label_text o) ∨ o_name o' = label_text o).
Proof.
  intros Hn Hrs. assert (Hd : to_direct <$> rs = (λ o, mk_direct (u32 (o_id o)) (Some (label_text o)) (zlen (label_text o))
      (Some (o_p_name o)) (zlen (o_p_name o))) <$> os).
  { transitivity (to_direct <$> (forget <$> rs)).
    { rewrite <- list_fmap_compose. apply list_fmap_ext. intros. symmetry. apply to_direct_forget. }
    rewrite Hrs, <- !list_fmap_compose. apply Forall_fmap_ext_1. eapply Forall_impl; [exact Hn|]. intros o ?. by apply read_back_direct. }
  unfold direct_all. rewrite Hd, list_fmap_bind, list_elem_of_bind. split.
  - intros (o & Hk & Ho). exists o. cbn in Hk. apply direct_matches_named in Hk as (o' & ?); [eauto|]. by eapply Forall_forall in Ho.
  - intros (o & o' & Ho & ?). exists o. split; [|done]. cbn. apply direct_matches_named; [by eapply Forall_forall in Ho|eauto].
Qed.

Lemma label_text_own o : o_alias o = Some (label_text o) ∨ o_name o = label_text o.
Proof. unfold label_text. destruct (o_alias o) as [[|b s]|]; auto. Qed.

(** C18. Routes chosen for a chunk survive a restart.  What [route_payload_apply_outputs] stores with a chunk
    for the outputs whose bit is set in its mask is read back as routes that lead to exactly the outputs
    with the plugin of a chosen one and its label as alias or name - so to every chosen output.  Writing
    gives all memory back, and with memory it succeeds exactly when the routes fit. *)
Theorem direct_routes_restored cio_meta_write cfg r mask paths event_type tag s :
  cf_router cfg = Some r → router_wf r → mask_wf r mask → (∀ p, p ∈ paths → is_Some (cf_outputs cfg !! rp_ins p)) →
  Forall named (cf_outputs cfg) → bytes_ok tag → 0 ∉ tag →
  ∃ meta s1 outs, persist_direct_routes cio_meta_write cfg mask paths event_type tag s = Some (meta, s1) ∧
    hp_live s1 ≡ₚ hp_live s ∧ routed_outputs cfg mask paths = Some outs ∧
    (calm (hp_env s) → is_Some meta ↔ fits cio_meta_write event_type tag (zlen tag) (direct_route_of <$> outs)) ∧
    ∀ m s2, meta = Some m → calm (hp_env s2) →
      ∃ block rs s3, flb_input_chunk_get_direct_routes meta s2 = Some (0, Some (block, rs), s3) ∧
        (∀ k o, cf_outputs cfg !! k = Some o → routed cfg mask paths o → k ∈ direct_all (cf_outputs cfg) (to_direct <$> rs)) ∧
        ∀ k, k ∈ direct_all (cf_outputs cfg) (to_direct <$> rs) ↔
          ∃ o o', routed cfg mask paths o ∧ cf_outputs cfg !! k = Some o' ∧ o_p_name o' = o_p_name o ∧
                  (o_alias o' = Some (label_text o) ∨ o_name o' = label_text o).
Proof.
  intros Hcr Hr Hm Hp Hnamed Hb Ht. destruct (routed_outputs_ok cfg r mask paths Hcr Hr Hm Hp) as (outs & Houts & Hin).
  assert (Hn : Forall named outs).
  { apply Forall_forall. intros o (p & _ & Ho & _)%Hin. by eapply Forall_lookup_1 in Ho. }
  assert (Hst : Forall storable (direct_route_of <$> outs)).
  { apply Forall_fmap. eapply Forall_impl; [exact Hn|]. apply direct_route_storable. }
  enough (Hw : runs (persist_direct_routes cio_meta_write cfg mask paths event_type tag) s (λ meta s1, hp_live s1 ≡ₚ hp_live s ∧
    (calm (hp_env s) → is_Some meta ↔ fits cio_meta_write event_type tag (zlen tag) (direct_route_of <$> outs)) ∧
    ∀ m, meta = Some m → m = layout event_type (kept_tag tag (zlen tag) (direct_route_of <$> outs)) (direct_route_of <$> outs) ∧
      fits cio_meta_write event_type tag (zlen tag) (direct_route_of <$> outs))).
  { destruct Hw as (meta & s1 & Hrun & Hl & Hiff & Hmeta). exists meta, s1, outs. split_and!; try done.
    intros m s2 -> Hc2. destruct (Hmeta m eq_refl) as [-> (Hc & Hd & _)].
    assert (Hkt : 0 ∉ kept_tag tag (zlen tag) (direct_route_of <$> outs)).
    { intros Hk. apply Ht. unfold kept_tag in Hk. eapply subseteq_take, Hk. }
    destruct (layout_reads event_type _ _ s2 Hst (take_bytes _ _ Hb) Hkt Hc Hd Hc2) as (_ & _ & block & rs & s3 & Hget & Hrs).
    exists block, rs, s3. split; [exact Hget|]. pose proof (λ k, direct_all_named (cf_outputs cfg) outs rs _ _ k Hn Hrs) as Hall.
    split; intros k; [intros o Hk Ho|]; rewrite Hall; [|by setoid_rewrite Hin]. exists o, o. rewrite Hin. auto using label_text_own. }
  unfold persist_direct_routes. apply runs_bind. eapply runs_deref; [exact Houts|].
  destruct (bool_decide_reflect (outs = [])) as [->|Hne].
  { apply runs_ret. split_and!; [done| |done]. intros _. split; [by intros []|]. intros ((? & _) & _). done. }
  apply runs_bind, runs_alloc; [intros s1 Hl1 ?; apply runs_ret; rewrite Hl1; split_and!; [done|tauto|done]|].
  intros a s1 Hl1 Hc1. apply runs_bind. pose proof (zlen_nonneg tag).
  eapply runs_weaken; [apply (write_ok cio_meta_write event_type tag (zlen tag) _ s1 Hst); lia|].
  intros [ret meta] s2 [G1 G2 G3]. apply runs_bind, (runs_free _ (hp_live s)); [by rewrite G1, Hl1|]. intros s3 Hl3 He3.
  apply runs_ret. split; [done|]. destruct G3 as [[[= -> ->] Hwhy]|[[= -> ->] Hfits]].
  - split; [|done]. intros ?. split; [by intros []|]. intros ?. exfalso. tauto.
  - split; [intros _; split; [done|eauto]|]. by intros m [= <-].
Qed.

(** Two outputs of one plugin, the second with an alias, and a chunk routed to the second *)
Definition ex_outputs : list flb_output_instance :=
  [mk_output 0 [111; 46; 48] None None 0 1 false 0 None [111] false;
   mk_output 1 [111; 46; 49] None None 0 1 false 0 (Some [97; 108]) [111] false].
Definition ex_cfg : flb_config := mk_config [] ex_outputs (Some ex_router) Sched.ex_cfg false.

Lemma ex_named : Forall named ex_outputs.
Proof.
  repeat constructor; try (vm_compute; (done || discriminate));
    intros Hin; repeat (apply elem_of_cons in Hin as [Hin|Hin]; [discriminate|]); by apply elem_of_nil in Hin.
Qed.

Lemma direct_routes_restored_witness :
  routed_outputs ex_cfg [2; 0] [mk_path 0 None; mk_path 1 None] = Some (drop 1 ex_outputs) ∧
  (∃ m s1, persist_direct_routes (λ m, zlen m <=? 65535) ex_cfg [2; 0] [mk_path 0 None; mk_path 1 None] 0 [116] no_heap = Some (Some m, s1)) ∧
  ∃ meta s1, persist_direct_routes (λ m, zlen m <=? 65535) ex_cfg [2; 0] [mk_path 0 None; mk_path 1 None] 0 [116] no_heap = Some (meta, s1) ∧
    hp_live s1 ≡ₚ [].
Proof.
  split; [vm_compute; reflexivity|]. split; [eexists _, _; vm_compute; reflexivity|].
  destruct (direct_routes_restored (λ m, zlen m <=? 65535) ex_cfg ex_router [2; 0] [mk_path 0 None; mk_path 1 None] 0 [116] no_heap)
    as (meta & s1 & outs & Hp & Hl & _); [done|apply ex_router_wf| | |exact ex_named| | |eauto].
  - split; [done|]. repeat constructor; vm_compute; (done || discriminate).
  - intros p [->|[->|[]%elem_of_nil]%elem_of_cons]%elem_of_cons; eexists; reflexivity.
  - repeat constructor; vm_compute; (done || discriminate).
  - intros [?|[]%elem_of_nil]%elem_of_cons. discriminate.
Defined.
