(* ===== verification/LogAppend.v ===== *)
(** * Appending logs to chunks ([src/flb_input_log.c])

    What [input_log_append] does with the chunks of an input: the payload of every conditional route is appended under
    the name of the route, and the chunk it went to is given the outputs of the route for its own; then all logs are
    appended under their tag, and the chunk they went to loses the outputs of conditional routes.  [LogSplit] makes the
    payloads, [LogIngest] joins the two.  With the events of [Engine], the appends of [InputChunk] and the chunks of
    the backlog these are the events of the delivery core. *)
From S2P Require Import Prelude CStd Env Heap RetryQueue Router RoutesMask Delivery Invariant Task Output Dispatch Engine Agent.
From S2P Require Import ChunkMeta DirectRoutes ChunkFrame ChunkSpace ChunkAccount ChunkRelease InputChunk.

(** A payload: the place of its route, the name of the route, its bytes and its records *)
Record pending_payload := mk_pending_payload { pp_route : nat; pp_tag : list Z; pp_size : Z; pp_records : Z }.

(** What the storage layer answers when routes are stored with a chunk: whether the metadata is written, the status of
    reading them later, and the real and the metadata size of the chunk then. *)
Record apply_io := mk_apply_io { ap_written : bool; ap_status : Z; ap_real_size : Z; ap_meta_size : Z }.

(** The setter of what is read from the metadata of a chunk *)
Definition set_ck_meta (direct : Z * list flb_chunk_direct_route) (tag : list Z) (ck : flb_input_chunk) : flb_input_chunk :=
  mk_chunk (ck_in ck) (ck_event_type ck) (ck_busy ck) (ck_total_records ck) (ck_task ck) (ck_routes_mask ck)
    (Some direct) (Some tag) (ck_size ck).

(** The route to an output as it is read back ([DirectRoutes.direct_all_named], for outputs that are [named]) *)
Definition read_route (o : flb_output_instance) : flb_chunk_direct_route :=
  mk_direct (u32 (o_id o)) (Some (label_text o)) (zlen (label_text o)) (Some (o_p_name o)) (zlen (o_p_name o)).

Section operations.
Context {S : Type} `{RetryQueue S}.
Context (cfg : flb_config) (sc : storage_config) (onig_match : regex → list Z → Z).

(** [flb_hash_table_get] of [ht_log_chunks] *)
Definition open_chunk (i : nat) (tag : list Z) : M (core S) (option nat) := λ s,
  Some (sp_table (c_sp s) !! (i, FLB_INPUT_LOGS, tag), s).

(** The bytes of a chunk that are charged *)
Definition counted_size (ck : flb_input_chunk) (ci : chunk_info) : Z :=
  if ci_fs_counted ci then Z.max 0 (flb_input_chunk_get_real_size ck ci) else 0.

(** The loop over the paths of an input that takes the outputs of some of them from a chunk: their bits are cleared,
    and when the chunk was counted they are charged [size] bytes less, but never less than 0. *)
Fixpoint drop_paths (drops : flb_router_path → bool) (size : Z) (paths : list flb_router_path) (mask fs : list Z) : option (list Z * list Z) :=
  match paths with
  | [] => Some (mask, fs)
  | path :: paths' =>
      ins ← cf_outputs cfg !! rp_ins path;
      bit ← flb_routes_mask_get_bit mask (o_id ins) (cf_router cfg);
      if (bit =? 0) || negb (drops path) then drop_paths drops size paths' mask fs
      else
        limit ← sc_total_limit_size sc !! rp_ins path;
        v ← fs !! rp_ins path;
        mask ← flb_routes_mask_clear_bit mask (o_id ins) (cf_router cfg);
        drop_paths drops size paths' mask
          (if negb (limit =? -1) && (0 <? size) then <[rp_ins path := if size <? v then v - size else 0]> fs else fs)
  end.

Definition on_route (route : nat) (path : flb_router_path) : bool := bool_decide (rp_route path = Some route).

(** The bits of the outputs of a route *)
Fixpoint set_paths (route : nat) (paths : list flb_router_path) (mask : list Z) : option (list Z) :=
  match paths with
  | [] => Some mask
  | path :: paths' =>
      if on_route route path then
        ins ← cf_outputs cfg !! rp_ins path;
        mask ← flb_routes_mask_set_bit mask (o_id ins) (cf_router cfg);
        set_paths route paths' mask
      else set_paths route paths' mask
  end.

(** The end of [route_payload_apply_outputs]: the outputs are stored with the chunk.  [ChunkMeta.persist_direct_routes]
    has the bytes; the tag may be cut off ([DirectRoutes.kept_tag]). *)
Definition store_routes (c : nat) (tag : list Z) (paths : list flb_router_path) (ap : apply_io) : M (core S) unit :=
  ck ← deliver cfg sc (chunk_at c);
  outs ← deref (routed_outputs cfg (default [] (ck_routes_mask ck)) paths);
  when (negb (bool_decide (outs = [])) && ap_written ap)
    (deliver cfg sc (store_chunk c (set_ck_meta (ap_status ap, read_route <$> outs)
       (until_nul (kept_tag tag (zlen tag) (direct_route_of <$> outs))) ck)) ≫= λ _,
     ci ← info_at c;
     store_info c (mk_info (ap_real_size ap) (ap_meta_size ap) (ci_fs_counted ci))).

Definition route_payload_apply_outputs (i : nat) (tag : list Z) (route : nat) (ap : apply_io) : M (core S) Z :=
  ins ← deref (cf_inputs cfg !! i);
  let paths := i_routes_direct ins in
  found ← open_chunk i tag;
  match found with
  | None => mret (-1)
  | Some c =>
      ck ← deliver cfg sc (chunk_at c);
      match ck_routes_mask ck with
      | None => mret (-1)
      | Some mask =>
          ci ← info_at c;
          fs ← (λ s, Some (sp_fs (c_sp s), s));
          let size := counted_size ck ci in
          '(mask, fs) ← deref (if 0 <? size then drop_paths (λ path, negb (on_route route path)) size paths mask fs else Some (mask, fs));
          on_space (λ sp, Some (set_sp_fs fs sp)) ≫= λ _,
          mask ← deref (memset_zero mask (flb_routes_mask_get_size (cf_router cfg)));
          mask ← deref (set_paths route paths mask);
          deliver cfg sc (store_chunk c (set_ck_routes_mask mask ck)) ≫= λ _,
          e ← mask_is_empty cfg sc c;
          if (e : bool) then mret (-1)
          else
            when (negb (ci_fs_counted ci))
              (chunk_size ← real_size cfg sc c;
               when (0 <? chunk_size) (flb_input_chunk_update_output_instances cfg sc c chunk_size)) ≫= λ _,
            store_routes c tag paths ap ≫= λ _, mret 0
      end
  end.

(** The chunk of a payload whose outputs could not be set goes. *)
Definition destroy_orphan (i : nat) (tag : list Z) : M (core S) unit :=
  found ← open_chunk i tag;
  match found with
  | None => mret tt
  | Some c =>
      on_space (λ sp, Some (set_sp_table (delete (i, FLB_INPUT_LOGS, tag) (sp_table sp)) sp)) ≫= λ _,
      flb_input_chunk_destroy cfg sc c
  end.

Definition append_payload (i : nat) (p : pending_payload) (io : append_io) (ap : apply_io) : M (core S) Z :=
  ret ← input_chunk_append_raw cfg sc onig_match i FLB_INPUT_LOGS (pp_records p) (Some (pp_tag p)) (pp_size p) io;
  if negb (ret =? 0) then mret (-1)
  else
    ret ← route_payload_apply_outputs i (pp_tag p) (pp_route p) ap;
    if negb (ret =? 0) then destroy_orphan i (pp_tag p) ≫= λ _, mret (-1) else mret 0.

(** The payloads in turn, each with what is answered to it; how many were appended *)
Fixpoint append_payloads (i : nat) (ps : list (pending_payload * append_io * apply_io)) (appended : Z) : M (core S) Z :=
  match ps with
  | [] => mret appended
  | (p, io, ap) :: ps' =>
      if (pp_records p <=? 0) || (pp_size p =? 0) then append_payloads i ps' appended
      else
        ret ← append_payload i p io ap;
        if negb (ret =? 0) then mret (-1) else append_payloads i ps' (appended + 1)
  end.

(** The end of [split_and_append_route_payloads], from the first append on *)
Definition split_and_append (i : nat) (ps : list (pending_payload * append_io * apply_io)) : M (core S) Z :=
  appended ← append_payloads i ps 0;
  mret (if appended <? 0 then -1 else if 0 <? appended then appended else 1).

(** [conditional] tells which routes have a condition or are by record. *)
Definition on_conditional (conditional : list bool) (path : flb_router_path) : bool := from_option (λ k, default false (conditional !! k)) false (rp_route path).

Definition input_chunk_remove_conditional_routes (i : nat) (conditional : list bool) (c : nat) : M (core S) unit :=
  ins ← deref (cf_inputs cfg !! i);
  ck ← deliver cfg sc (chunk_at c);
  match ck_routes_mask ck with
  | None => mret tt
  | Some mask =>
      ci ← info_at c;
      fs ← (λ s, Some (sp_fs (c_sp s), s));
      '(mask, fs) ← deref (drop_paths (on_conditional conditional) (counted_size ck ci) (i_routes_direct ins) mask fs);
      on_space (λ sp, Some (set_sp_fs fs sp)) ≫= λ _,
      deliver cfg sc (store_chunk c (set_ck_routes_mask mask ck))
  end.

(** The end of [input_log_append]: all logs are appended, unless the split failed; a tag comes with its length. *)
Definition append_all (i : nat) (conditional_result : Z) (conditional : list bool) (n_records : Z) (tag : option (list Z)) (size : Z)
    (io : append_io) : M (core S) Z :=
  if conditional_result <? 0 then mret (-1)
  else
    ret ← input_chunk_append_raw cfg sc onig_match i FLB_INPUT_LOGS n_records tag size io;
    ins ← deref (cf_inputs cfg !! i);
    when ((ret =? 0) && (0 <? conditional_result))
      (found ← open_chunk i (default (default_tag ins) tag);
       match found with
       | None => mret tt
       | Some c => input_chunk_remove_conditional_routes i conditional c
       end) ≫= λ _,
    mret ret.

(** The appends of [input_log_append], once the logs are split: [split] is [None] when the input has no conditional
    routes, and the payloads otherwise. *)
Definition append_after_split (i : nat) (split : option (list (pending_payload * append_io * apply_io))) (conditional : list bool)
    (n_records : Z) (tag : option (list Z)) (size : Z) (io : append_io) : M (core S) Z :=
  conditional_result ← match split with None => mret 0 | Some ps => split_and_append i ps end;
  append_all i conditional_result conditional n_records tag size io.

(** ** Events *)

Context (route_condition : flb_event_chunk → nat → bool).

Inductive core_event :=
| CoreEngine (e : event)                                                              (* an event of the engine *)
| CoreAppend (i : nat) (event_type n_records : Z) (tag : option (list Z)) (size : Z) (io : append_io)
| CoreLogs (i : nat) (split : option (list (pending_payload * append_io * apply_io))) (conditional : list bool)
    (n_records : Z) (tag : option (list Z)) (size : Z) (io : append_io)
| CoreMap (i : nat) (event_type : Z) (io : map_io).                                  (* a chunk of the backlog *)

Definition run_core (e : core_event) : M (core S) unit :=
  match e with
  | CoreEngine e => deliver cfg sc (run_event cfg route_condition e) ≫= λ _, mret tt
  | CoreAppend i event_type n_records tag size io =>
      input_chunk_append_raw cfg sc onig_match i event_type n_records tag size io ≫= λ _, mret tt
  | CoreLogs i split conditional n_records tag size io =>
      append_after_split i split conditional n_records tag size io ≫= λ _, mret tt
  | CoreMap i event_type io => flb_input_chunk_map cfg sc onig_match i event_type io ≫= λ _, mret tt
  end.
End operations.

(** ** Labels lead to one output *)

Section labels.
Context (cfg : flb_config).

(** Outputs are named, and no output has the label of another of the same plugin for its alias or name. *)
Definition labels_ok : Prop :=
  Forall named (cf_outputs cfg) ∧
  ∀ k k' o o', cf_outputs cfg !! k = Some o → cf_outputs cfg !! k' = Some o' → o_p_name o' = o_p_name o →
    (o_alias o' = Some (label_text o) ∨ o_name o' = label_text o) → k' = k.

Lemma positions_nodup p outs : ∀ n, NoDup (positions p n outs).
Proof.
  induction outs as [|o outs IH]; intros n; cbn [positions]; [constructor|]. apply NoDup_app. split_and!; [destruct (p o); [apply NoDup_singleton|constructor]| |apply IH].
  intros k Hk (i & x & _ & _ & ->)%positions_lookup. destruct (p o); [|by apply elem_of_nil in Hk]. apply list_elem_of_singleton in Hk. lia.
Qed.

Lemma nodup_singleton {A} (l : list A) x : NoDup l → (∀ y, y ∈ l ↔ y = x) → l = [x].
Proof.
  intros Hnd Hl. destruct l as [|y l]; [by destruct (not_elem_of_nil x); apply Hl|]. assert (y = x) as -> by (apply Hl; by left).
  destruct l as [|z l]; [done|]. assert (z = x) as -> by (apply Hl; right; by left). apply NoDup_cons in Hnd as [Hn _]. destruct Hn. by left.
Qed.

Lemma direct_matches_nodup outs route : NoDup (direct_matches outs route).
Proof.
  unfold direct_matches. destruct (dr_label route) as [label|]; [|apply positions_nodup]. destruct (0 <? _); [|apply positions_nodup].
  apply NoDup_app. split_and!; [apply positions_nodup| |apply positions_nodup].
  intros k (i & x & Hi & Hx & ->)%positions_lookup (i' & x' & Hi' & Hx' & Heq)%positions_lookup. cbn in Heq. subst i'. rewrite Hi in Hi'. injection Hi' as <-.
  apply andb_true_iff in Hx as [Hx _]. apply andb_true_iff in Hx' as [_ Hx']. by rewrite Hx in Hx'.
Qed.

(** The stored route to an output leads to it. *)
Lemma direct_matches_own k o : labels_ok → cf_outputs cfg !! k = Some o → direct_matches (cf_outputs cfg) (read_route o) = [k].
Proof.
  intros [Hn Hu] Ho. apply nodup_singleton; [apply direct_matches_nodup|]. intros k'. unfold read_route.
  rewrite direct_matches_named by by eapply Forall_lookup_1 in Ho. split.
  - intros (o' & Ho' & Hp & Hl). by eapply Hu.
  - intros ->. exists o. split_and!; [done|done|apply label_text_own].
Qed.

Lemma direct_all_own ks os : labels_ok → Forall2 (λ k o, cf_outputs cfg !! k = Some o) ks os → direct_all (cf_outputs cfg) (read_route <$> os) = ks.
Proof.
  intros Hl. unfold direct_all. induction 1 as [|k o ks os Ho _ IH]; [done|].
  rewrite fmap_cons, bind_cons, IH. by rewrite (direct_matches_own k o).
Qed.
End labels.

Section specs.
Context {S : Type} `{RetryQueue S}.
Context (cfg : flb_config) (sc : storage_config) (r : flb_router) (onig_match : regex → list Z → Z).
Context (route_condition : flb_event_chunk → nat → bool).
Context (Hcfg : config_ok cfg) (Hst : storage_ok cfg sc r).
#[local] Abbreviation core_ok := (core_ok cfg sc r).
#[local] Abbreviation deliver := (deliver cfg sc).

(** ** Masks *)

Lemma output_slot o ins : cf_outputs cfg !! o = Some ins → in_slots r (o_id ins).
Proof. intros Ho. eapply st_slots; [done|]. by eapply list_elem_of_lookup_2. Qed.

Lemma output_bit mask o ins : mask_wf r mask → cf_outputs cfg !! o = Some ins →
  ∃ b, flb_routes_mask_get_bit mask (o_id ins) (cf_router cfg) = Some b ∧ b = if decide (selected mask (o_id ins)) then 1 else 0.
Proof.
  intros Hm Ho. rewrite (st_router _ _ _ Hst). destruct (get_bit_spec r mask (o_id ins) (st_router_wf _ _ _ Hst) Hm) as (b & Hb & Hb01 & Hiff).
  exists b. split; [done|]. pose proof (output_slot o ins Ho). case_decide; [tauto|]. destruct Hb01 as [->|]; [|done]. tauto.
Qed.

(** Is the output of one of the paths that are dropped *)
Definition drops_output (drops : flb_router_path → bool) (paths : list flb_router_path) (o : nat) : bool :=
  existsb (λ path, Nat.eqb (rp_ins path) o && drops path) paths.

(** What the loop over the paths does to masks and charges *)
Record dropped (drops : flb_router_path → bool) (size : Z) (paths : list flb_router_path) (mask fs mask' fs' : list Z) : Prop := {
  dr_wf : mask_wf r mask';
  dr_len : length fs' = length fs;
  dr_mask o ins : cf_outputs cfg !! o = Some ins → selected mask' (o_id ins) ↔ selected mask (o_id ins) ∧ drops_output drops paths o = false;
  dr_fs o ins : cf_outputs cfg !! o = Some ins → fs' !! o =
    if drops_output drops paths o && bool_decide (selected mask (o_id ins)) && limited sc o && (0 <? size)
    then (λ v, Z.max 0 (v - size)) <$> fs !! o else fs !! o
}.

Lemma drop_paths_ok drops size paths : Forall (λ p, is_output cfg (rp_ins p)) paths → ∀ mask fs,
  mask_wf r mask → length fs = length (cf_outputs cfg) →
  ∃ mask' fs', drop_paths cfg sc drops size paths mask fs = Some (mask', fs') ∧ dropped drops size paths mask fs mask' fs'.
Proof.
  induction 1 as [|path paths Ho _ IH]; intros mask fs Hm Hlen.
  { exists mask, fs. split; [done|]. constructor; [done|done|naive_solver|done]. }
  destruct (lookup_lt_is_Some_2 _ _ Ho) as [ins Hins]. destruct (output_bit mask _ ins Hm Hins) as (b & Hb & Hsel).
  cbn [drop_paths]. rewrite Hins. cbn [mbind option_bind]. rewrite Hb. cbn [mbind option_bind].
  destruct ((b =? 0) || negb (drops path)) eqn:Hskip.
  { destruct (IH mask fs Hm Hlen) as (mask' & fs' & Hrun & [Hwf Hl Hmask Hfs]). exists mask', fs'. split; [done|].
    assert (Hpath : ∀ o ins', cf_outputs cfg !! o = Some ins' → selected mask (o_id ins') →
      drops_output drops (path :: paths) o = drops_output drops paths o).
    { intros o ins' Ho' Hs. cbn. destruct (Nat.eqb_spec (rp_ins path) o) as [<-|]; [|done]. rewrite Hins in Ho'. injection Ho' as <-.
      rewrite decide_True in Hsel by done. subst b. cbn in Hskip. apply negb_true_iff in Hskip. by rewrite Hskip. }
    constructor; [done|done| |].
    - intros o ins' Ho'. rewrite (Hmask o ins' Ho'). split; intros [Hs ?]; (split; [done|]); [by rewrite (Hpath o ins')|by rewrite <- (Hpath o ins')].
    - intros o ins' Ho'. rewrite (Hfs o ins' Ho'). destruct (bool_decide_reflect (selected mask (o_id ins'))) as [Hs|]; [by rewrite (Hpath o ins')|].
      by rewrite !andb_false_r. }
  apply orb_false_iff in Hskip as [Hb0 Hd%negb_false_iff]. destruct (decide _) as [Hs|] in Hsel; [|by subst b]. subst b. clear Hb0.
  destruct (lookup_lt_is_Some_2 (sc_total_limit_size sc) (rp_ins path)) as [limit Hlim]; [by rewrite (st_limits _ _ _ Hst)|].
  destruct (lookup_lt_is_Some_2 fs (rp_ins path)) as [v Hv]; [by rewrite Hlen|]. rewrite Hlim, Hv. cbn [mbind option_bind].
  destruct (clear_bit_spec r mask (o_id ins) (st_router_wf _ _ _ Hst) Hm (output_slot _ _ Hins)) as (mask1 & Hclear & Hm1 & Hsel1).
  rewrite (st_router _ _ _ Hst). rewrite Hclear. cbn [mbind option_bind].
  set (fs1 := if _ && _ then _ else fs). assert (Hfs1 : ∀ o, fs1 !! o = if bool_decide (o = rp_ins path) && limited sc o && (0 <? size)
    then (λ v, Z.max 0 (v - size)) <$> fs !! o else fs !! o).
  { intros o. subst fs1. unfold limited. case_bool_decide as Hoeq.
    - subst o. rewrite Hlim. destruct (_ && (0 <? size)); [|done]. rewrite list_lookup_insert_eq by (rewrite Hlen; done). rewrite Hv. cbn. f_equal.
      destruct (Z.ltb_spec size v); lia.
    - cbn. destruct (_ && (0 <? size)); [by rewrite list_lookup_insert_ne|done]. }
  destruct (IH mask1 fs1 Hm1) as (mask' & fs' & Hrun & [Hwf Hl Hmask Hfs]); [subst fs1; by destruct (_ && _); rewrite ?length_insert|].
  exists mask', fs'. split; [done|].
  assert (Hid : ∀ o ins', cf_outputs cfg !! o = Some ins' → o_id ins ≠ o_id ins' ↔ rp_ins path ≠ o).
  { intros o ins' Ho'. split; intros Hne Heq; apply Hne; [subst o; congruence|by eapply co_id_inj]. }
  constructor; [done|rewrite Hl; subst fs1; by destruct (_ && _); rewrite ?length_insert| |].
  - intros o ins' Ho'. rewrite (Hmask o ins' Ho'), Hsel1, (Hid o ins' Ho'). cbn. destruct (Nat.eqb_spec (rp_ins path) o); cbn; rewrite ?Hd; cbn; intuition congruence.
  - intros o ins' Ho'. rewrite (Hfs o ins' Ho'), Hfs1. cbn. destruct (Nat.eqb_spec (rp_ins path) o) as [<-|Hne].
    + rewrite Hd, (bool_decide_eq_true_2 (rp_ins path = rp_ins path)) by done. cbn. rewrite Hins in Ho'. injection Ho' as <-.
      rewrite (bool_decide_eq_false_2 (selected mask1 _)) by (rewrite Hsel1; tauto). rewrite andb_false_r. cbn. by rewrite (bool_decide_eq_true_2 _ Hs).
    + rewrite (bool_decide_eq_false_2 (o = _)) by done. cbn. rewrite (bool_decide_ext (selected mask1 (o_id ins')) (selected mask (o_id ins'))); [done|].
      rewrite Hsel1, (Hid o ins' Ho'). tauto.
Qed.

(** The outputs of a route *)
Definition targets (route : nat) (paths : list flb_router_path) : list nat := rp_ins <$> List.filter (on_route route) paths.

Lemma elem_of_targets route paths o : o ∈ targets route paths ↔ ∃ path, path ∈ paths ∧ rp_route path = Some route ∧ rp_ins path = o.
Proof.
  unfold targets. rewrite list_elem_of_fmap. setoid_rewrite list_elem_of_In. setoid_rewrite filter_In. unfold on_route.
  setoid_rewrite bool_decide_eq_true. naive_solver.
Qed.

Lemma set_paths_ok route paths : Forall (λ p, is_output cfg (rp_ins p)) paths → ∀ mask, mask_wf r mask →
  ∃ mask', set_paths cfg route paths mask = Some mask' ∧ mask_wf r mask' ∧
    ∀ o ins, cf_outputs cfg !! o = Some ins → selected mask' (o_id ins) ↔ selected mask (o_id ins) ∨ o ∈ targets route paths.
Proof.
  induction 1 as [|path paths Ho _ IH]; intros mask Hm.
  { exists mask. split_and!; [done|done|]. intros o ins _. split; [by left|]. by intros [|[]%elem_of_nil]. }
  cbn [set_paths]. unfold targets. cbn [List.filter]. fold (targets route paths). destruct (on_route route path) eqn:Hon; [|by apply IH].
  destruct (lookup_lt_is_Some_2 _ _ Ho) as [ins Hins]. rewrite Hins, (st_router _ _ _ Hst). cbn [mbind option_bind].
  destruct (set_bit_spec r mask (o_id ins) (st_router_wf _ _ _ Hst) Hm (output_slot _ _ Hins)) as (mask1 & -> & Hm1 & Hsel1).
  cbn [mbind option_bind]. destruct (IH mask1 Hm1) as (mask' & Hrun & Hm' & Hsel). exists mask'. split_and!; [done|done|].
  intros o ins' Ho'. rewrite (Hsel o ins' Ho'), Hsel1, fmap_cons, elem_of_cons.
  assert (o_id ins = o_id ins' ↔ o = rp_ins path); [|tauto]. split; [intros; by eapply co_id_inj|intros ->; congruence].
Qed.

Lemma nodup_fmap_eq {A B} (f : A → B) (l : list A) x y : NoDup (f <$> l) → x ∈ l → y ∈ l → f x = f y → x = y.
Proof.
  induction l as [|z l IH]; [by intros _ ?%elem_of_nil|]. rewrite fmap_cons. intros [Hn Hnd]%NoDup_cons.
  rewrite !elem_of_cons. intros [->|Hx] [->|Hy] Hf; [done|..]; [destruct Hn; rewrite Hf|destruct Hn; rewrite <- Hf|by apply IH]; by apply list_elem_of_fmap_2.
Qed.

Lemma routed_targets route mask paths : Forall (λ p, is_output cfg (rp_ins p)) paths → NoDup (rp_ins <$> paths) → mask_wf r mask →
  (∀ o ins, cf_outputs cfg !! o = Some ins → selected mask (o_id ins) ↔ o ∈ targets route paths) →
  ∃ os, routed_outputs cfg mask paths = Some os ∧ Forall2 (λ k o, cf_outputs cfg !! k = Some o) (targets route paths) os.
Proof.
  intros Hout Hnd Hm Hsel.
  assert (Hin : Forall (λ path, ∀ ins, cf_outputs cfg !! rp_ins path = Some ins → selected mask (o_id ins) ↔ on_route route path = true) paths).
  { apply Forall_forall. intros path Hp ins Hins. rewrite (Hsel _ ins Hins), elem_of_targets. unfold on_route. rewrite bool_decide_eq_true. split.
    - intros (path' & Hp' & Hr & Heq). by rewrite <- (nodup_fmap_eq rp_ins paths path' path).
    - intros Hr. by exists path. }
  clear Hsel Hnd. induction paths as [|path paths IH]; [by exists []|]. apply Forall_cons in Hout as [Ho Hout], Hin as [Hp Hin].
  destruct (IH Hout Hin) as (os & Hos & Hf). destruct (lookup_lt_is_Some_2 _ _ Ho) as [ins Hins]. destruct (output_bit mask _ ins Hm Hins) as (b & Hb & ->).
  cbn [routed_outputs]. rewrite Hins. cbn [mbind option_bind]. rewrite Hb. cbn [mbind option_bind]. rewrite Hos. cbn [mbind option_bind].
  eexists. split; [reflexivity|]. unfold targets. cbn [List.filter]. fold (targets route paths). specialize (Hp ins Hins).
  case_decide as Hd; cbn; destruct (on_route route path); [by constructor|naive_solver|naive_solver|done].
Qed.

(** ** Giving a chunk to a route *)

(** The tag fits into the metadata with the routes. *)
Definition tag_fits (tag : list Z) (route : nat) (paths : list flb_router_path) : Prop :=
  ∀ os, Forall2 (λ k o, cf_outputs cfg !! k = Some o) (targets route paths) os →
    zlen tag <= max_tag_length (zlen (routing_data (direct_route_of <$> os))).

(** The chunk of a payload is routed to the outputs of its route and to no others, and if it was written so are the routes
    stored with it. *)
Record applied (route : nat) (paths : list flb_router_path) (ap : apply_io) (ck ck' : flb_input_chunk) : Prop := {
  al_in : ck_in ck' = ck_in ck;
  al_event_type : ck_event_type ck' = ck_event_type ck;
  al_busy : ck_busy ck' = ck_busy ck;
  al_records : ck_total_records ck' = ck_total_records ck;
  al_task : ck_task ck' = ck_task ck;
  al_tag : ck_tag ck' = ck_tag ck;
  al_size : ck_size ck' = ck_size ck;
  al_mask_ok : mask_ok r ck';
  al_mask o ins : cf_outputs cfg !! o = Some ins → mask_get cfg ck' ins = Some (if decide (o ∈ targets route paths) then 1 else 0);
  al_direct : if ap_written ap
    then ∃ os, ck_direct ck' = Some (ap_status ap, read_route <$> os) ∧ Forall2 (λ k o, cf_outputs cfg !! k = Some o) (targets route paths) os
    else ck_direct ck' = ck_direct ck
}.

(** What the outputs are charged then: the bytes of a chunk that was counted are taken from the other outputs of the input
    it was routed to, one that was not is charged to the outputs of the route. *)
Definition applied_charge (route : nat) (paths : list flb_router_path) (ck : flb_input_chunk) (ci : chunk_info) (o : nat) (v : Z) : Z :=
  let size := flb_input_chunk_get_real_size ck ci in
  if limited sc o && (0 <? size) then
    if ci_fs_counted ci then
      if drops_output (λ path, negb (on_route route path)) paths o && routed cfg sc ck o then Z.max 0 (v - size) else v
    else if bool_decide (o ∈ targets route paths) then u64 (v + size) else v
  else v.

Lemma routed_selected ck mask o ins : ck_routes_mask ck = Some mask → mask_wf r mask → cf_outputs cfg !! o = Some ins →
  routed cfg sc ck o = limited sc o && bool_decide (selected mask (o_id ins)).
Proof.
  intros Hck Hm Ho. unfold routed, mask_get. rewrite Ho, Hck. destruct (output_bit mask o ins Hm Ho) as (b & Hb & ->). cbn [default].
  unfold default, id. rewrite Hb. case_decide; [by rewrite bool_decide_eq_true_2|by rewrite bool_decide_eq_false_2].
Qed.

Lemma core_ok_given clean new L n d sp c ck ck' ci' fs' : core_ok clean new L n (mk_core d sp) → d_chunks d !! c = Some ck →
  ck_in ck' = ck_in ck → ck_event_type ck' = ck_event_type ck → ck_busy ck' = ck_busy ck → ck_task ck' = ck_task ck → ck_tag ck' = ck_tag ck →
  mask_ok r ck' → (∀ routes, ck_direct ck' = Some (0, routes) → NoDup (direct_all (cf_outputs cfg) routes)) →
  sizes_ok ck' ci' → length fs' = length (sp_fs sp) →
  core_ok false None L n (mk_core (set_d_chunks (<[c := ck']> (d_chunks d)) d) (mk_space (<[c := ci']> (sp_info sp)) fs' (sp_table sp) (sp_reads sp))).
Proof.
  intros [W Hs Hsp] Hc Hin Hty Hb Ht Htag Hm Hdir Hsz Hl. cbn in *. constructor; cbn; [|exact Hs|].
  - apply (wf_chunk_update cfg _ d c ck ck' W Hc); [done|done|by left|].
    destruct (wh_chunk _ _ _ (wf_h _ _ _ W) c ck Hc) as [[] _]. constructor; [by rewrite Hin|done|].
    intros ins _. destruct (mask_get_ok cfg sc r Hst ck' ins Hm) as (b & Hget & _). exists b. exact Hget.
  - eapply (space_ok_replace cfg sc r false None None); [exact Hc|by constructor|done|done|done|done|]. eapply space_ok_unclean. exact Hsp.
Qed.

Lemma runs_store_routes clean new L n d sp c ck ci tag route paths ap (Q : unit → core S → Prop) :
  core_ok clean new L n (mk_core d sp) → d_chunks d !! c = Some ck → sp_info sp !! c = Some ci → ck_tag ck = Some tag → 0 ∉ tag →
  Forall (λ p, is_output cfg (rp_ins p)) paths → NoDup (rp_ins <$> paths) → targets route paths ≠ [] → labels_ok cfg → tag_fits tag route paths →
  (∀ o ins, cf_outputs cfg !! o = Some ins → mask_get cfg ck ins = Some (if decide (o ∈ targets route paths) then 1 else 0)) →
  (∀ ck' ci', applied route paths ap ck ck' → ci_fs_counted ci' = ci_fs_counted ci →
     ci' = (if ap_written ap then mk_info (ap_real_size ap) (ap_meta_size ap) (ci_fs_counted ci) else ci) →
     Q tt (mk_core (set_d_chunks (<[c := ck']> (d_chunks d)) d) (mk_space (<[c := ci']> (sp_info sp)) (sp_fs sp) (sp_table sp) (sp_reads sp)))) →
  runs (store_routes cfg sc c tag paths ap) (mk_core d sp) Q.
Proof.
  intros Hok Hc Hci Htag Hnul Hout Hnd Hne Hlab Hfit Hmask HQ. destruct (core_info _ _ _ _ _ _ _ _ _ _ Hok Hc) as (_ & _ & _ & Hmo).
  pose proof Hmo as (mask & Hm & Hwf).
  destruct (routed_targets route mask paths Hout Hnd Hwf) as (os & Hos & Hf).
  { intros o ins Ho. specialize (Hmask o ins Ho). unfold mask_get in Hmask. rewrite Hm in Hmask. cbn in Hmask.
    destruct (output_bit mask o ins Hwf Ho) as (b & Hb & ->). rewrite Hb in Hmask. case_decide; case_decide; naive_solver. }
  unfold store_routes. apply runs_bind, (runs_chunk_at cfg sc c ck); [done|]. apply runs_bind. eapply runs_deref; [rewrite Hm; exact Hos|].
  assert (Hos0 : os ≠ []) by (intros ->; by apply Forall2_nil_inv_r in Hf).
  rewrite bool_decide_eq_false_2 by done. cbn [negb andb]. apply runs_when; intros Hw; rewrite Hw in HQ.
  - apply runs_bind. eapply runs_store_chunk; [exact Hc|]. apply runs_bind, (runs_info_at c ci); [done|].
    eapply runs_on_space; [reflexivity|]. cbn. apply HQ; [|done|done].
    assert (Hkept : until_nul (kept_tag tag (zlen tag) (direct_route_of <$> os)) = tag).
    { unfold kept_tag. specialize (Hfit os Hf). rewrite Z.min_l by done. rewrite take_ge by (unfold zlen; lia). by apply until_nul_id. }
    rewrite Hkept. constructor; try done. rewrite Hw. by exists os.
  - specialize (HQ ck ci). rewrite (insert_id (d_chunks d) c ck Hc), (insert_id (sp_info sp) c ci Hci) in HQ.
    destruct d, sp. apply HQ; [|done|done]. constructor; try done. by rewrite Hw.
Qed.

(** The route of a payload comes from a path of the input. *)
Record payload_route_ok (i : nat) (ins : flb_input_instance) (tag : list Z) (route : nat) (ap : apply_io) : Prop := {
  pr_input : cf_inputs cfg !! i = Some ins;
  pr_targets : targets route (i_routes_direct ins) ≠ [];
  pr_nul : 0 ∉ tag;
  pr_fits : tag_fits tag route (i_routes_direct ins);
  pr_sizes : 0 <= ap_real_size ap ∧ 0 <= ap_meta_size ap
}.

(** The charges before the mask is set *)
Lemma discharge_others_ok route ck ci mask paths fs : Forall (λ p, is_output cfg (rp_ins p)) paths → ck_routes_mask ck = Some mask → mask_wf r mask →
  length fs = length (cf_outputs cfg) → let size := counted_size ck ci in
  ∃ mask' fs', (if 0 <? size then drop_paths cfg sc (λ path, negb (on_route route path)) size paths mask fs else Some (mask, fs)) = Some (mask', fs') ∧
    mask_wf r mask' ∧ length fs' = length fs ∧
    ∀ o, is_output cfg o → fs' !! o = (λ v, if ci_fs_counted ci then applied_charge route paths ck ci o v else v) <$> fs !! o.
Proof.
  intros Hout Hck Hm Hlen size.
  assert (Hsame : 0 <= size ∧ (0 <? size) = ci_fs_counted ci && (0 <? flb_input_chunk_get_real_size ck ci) ∧
    ((0 <? size) = true → size = flb_input_chunk_get_real_size ck ci)).
  { subst size. unfold counted_size. destruct (ci_fs_counted ci); cbn; [|lia]. lia. }
  destruct Hsame as (_ & Hpos & Heq). destruct (0 <? size) eqn:Hs.
  - destruct (drop_paths_ok (λ path, negb (on_route route path)) size paths Hout mask fs Hm Hlen) as (mask' & fs' & Hrun & [Hwf Hl _ Hfs]).
    exists mask', fs'. split_and!; [exact Hrun|done|done|]. intros o Ho. destruct (lookup_lt_is_Some_2 _ _ Ho) as [ins Hins]. rewrite (Hfs o ins Hins), Hs.
    symmetry in Hpos. apply andb_true_iff in Hpos as [Hct Hp]. rewrite Hct. unfold applied_charge. rewrite Hct, Hp, (routed_selected ck mask o ins Hck Hm Hins), !andb_true_r.
    rewrite (Heq eq_refl). destruct (limited sc o); rewrite ?andb_true_r, ?andb_false_r; cbn; [|by rewrite option_fmap_id]. by destruct (_ && _); [|rewrite option_fmap_id].
  - exists mask, fs. split_and!; [done|done|done|]. intros o _. unfold applied_charge. destruct (ci_fs_counted ci); [|by rewrite option_fmap_id].
    cbn in Hpos. rewrite <- Hpos, andb_false_r. by rewrite option_fmap_id.
Qed.

Lemma filter_sublist {A} (f : A → bool) l : sublist (List.filter f l) l.
Proof. induction l as [|x l IH]; cbn; [constructor|]. destruct (f x); by constructor. Qed.

Lemma route_mask_ok route paths : Forall (λ p, is_output cfg (rp_ins p)) paths →
  ∃ mask, set_paths cfg route paths (replicate (Z.to_nat (route_mask_size r)) 0) = Some mask ∧ mask_wf r mask ∧
    (∀ o ins, cf_outputs cfg !! o = Some ins → selected mask (o_id ins) ↔ o ∈ targets route paths) ∧
    ∀ ck o ins, cf_outputs cfg !! o = Some ins →
      mask_get cfg (set_ck_routes_mask mask ck) ins = Some (if decide (o ∈ targets route paths) then 1 else 0).
Proof.
  intros Hout. destruct (set_paths_ok route paths Hout (replicate (Z.to_nat (route_mask_size r)) 0)) as (mask & Hset & Hwf & Hsel);
    [apply mask_wf_zero; [apply (st_router_wf _ _ _ Hst)|done]|].
  assert (Hsel' : ∀ o ins, cf_outputs cfg !! o = Some ins → selected mask (o_id ins) ↔ o ∈ targets route paths).
  { intros o ins Ho. rewrite (Hsel o ins Ho). split; [|by right]. intros [Hz|]; [|done]. by apply selected_zero in Hz. }
  exists mask. split_and!; [done|done|done|]. intros ck o ins Ho. unfold mask_get. cbn [set_ck_routes_mask ck_routes_mask default]. unfold default, id.
  destruct (output_bit mask o ins Hwf Ho) as (b & -> & ->). specialize (Hsel' o ins Ho). f_equal. case_decide; case_decide; tauto.
Qed.

Lemma applied_ok clean new L n d sp c ck ck' ci' fs' route paths ap : core_ok clean new L n (mk_core d sp) → d_chunks d !! c = Some ck →
  labels_ok cfg → NoDup (rp_ins <$> paths) → applied route paths ap ck ck' → sizes_ok ck' ci' → length fs' = length (sp_fs sp) →
  core_ok false None L n (mk_core (set_d_chunks (<[c := ck']> (d_chunks d)) d) (mk_space (<[c := ci']> (sp_info sp)) fs' (sp_table sp) (sp_reads sp))).
Proof.
  intros Hok Hc Hlab Hnd [] Hsz' Hl'. eapply core_ok_given; try done. intros routes Hd. destruct (ap_written ap).
  - destruct al_direct0 as (os & Hd' & Hos). rewrite Hd in Hd'. injection Hd' as _ ->. rewrite (direct_all_own cfg _ os Hlab Hos).
    eapply sublist_NoDup; [exact Hnd|]. unfold targets. apply fmap_sublist, filter_sublist.
  - rewrite al_direct0 in Hd. destruct Hok as [W _ _]. destruct (wh_chunk _ _ _ (wf_h _ _ _ W) c ck Hc) as [[_ Hdir _] _]. by apply Hdir.
Qed.

(** The chunk is given away; what is left is its accounting, and storing the routes. *)
Lemma runs_given clean new L n d sp fs1 c ck ck1 ci i ins tag route ap (Q : Z → core S → Prop) :
  core_ok clean new L n (mk_core d sp) → payload_route_ok i ins tag route ap → labels_ok cfg → d_chunks d !! c = Some ck → sp_info sp !! c = Some ci →
  ck_tag ck = Some tag → (∃ mask, ck1 = set_ck_routes_mask mask ck ∧ mask_wf r mask) → length fs1 = length (sp_fs sp) →
  (∀ o ins', cf_outputs cfg !! o = Some ins' → mask_get cfg ck1 ins' = Some (if decide (o ∈ targets route (i_routes_direct ins)) then 1 else 0)) →
  (∀ o, is_output cfg o → fs1 !! o = (λ v, if ci_fs_counted ci then applied_charge route (i_routes_direct ins) ck ci o v else v) <$> sp_fs sp !! o) →
  (∀ ck' ci' fs' s', applied route (i_routes_direct ins) ap ck ck' → core_ok false None L n s' →
     s' = mk_core (set_d_chunks (<[c := ck']> (d_chunks d)) d) (mk_space (<[c := ci']> (sp_info sp)) fs' (sp_table sp) (sp_reads sp)) →
     (∀ o, is_output cfg o → fs' !! o = applied_charge route (i_routes_direct ins) ck ci o <$> sp_fs sp !! o) → Q 0 s') →
  runs (when (negb (ci_fs_counted ci))
          (chunk_size ← real_size cfg sc c; when (0 <? chunk_size) (flb_input_chunk_update_output_instances cfg sc c chunk_size)) ≫= λ _,
        store_routes cfg sc c tag (i_routes_direct ins) ap ≫= λ _, mret 0)
    (mk_core (set_d_chunks (<[c := ck1]> (d_chunks d)) d) (set_sp_fs fs1 sp)) Q.
Proof.
  intros Hok Hpr Hlab Hc Hci Htag (mask & Hck1 & Hwf) Hl1 Hget Hfs1 HQ. destruct Hpr as [Hins Htg Hnul Hfit Hszs].
  destruct (core_info _ _ _ _ _ _ _ _ _ _ Hok Hc) as (ci0 & Hci0 & Hsz & _). cbn [c_sp] in Hci0. rewrite Hci in Hci0. injection Hci0 as <-.
  destruct (co_paths _ Hcfg i ins Hins) as [Hnd Hout]. set (paths := i_routes_direct ins) in *.
  assert (Hm1 : mask_ok r ck1) by (exists mask; by subst ck1). set (d1 := set_d_chunks (<[c := ck1]> (d_chunks d)) d).
  assert (Hc1 : d_chunks d1 !! c = Some ck1) by apply lookup_insert_eq.
  assert (Hend : ∀ ci2 fs2, sizes_ok ck1 ci2 → length fs2 = length (sp_fs sp) →
    (∀ o, is_output cfg o → fs2 !! o = applied_charge route paths ck ci o <$> sp_fs sp !! o) →
    runs (store_routes cfg sc c tag paths ap ≫= λ _, mret 0)
      (mk_core d1 (mk_space (<[c := ci2]> (sp_info sp)) fs2 (sp_table sp) (sp_reads sp))) Q).
  { intros ci2 fs2 Hsz2 Hl2 Hfs2. assert (Hok1 : core_ok false None L n (mk_core d1 (mk_space (<[c := ci2]> (sp_info sp)) fs2 (sp_table sp) (sp_reads sp)))).
    { subst d1. eapply core_ok_given; [exact Hok|exact Hc|by subst ck1..|exact Hm1| |done|done].
      intros routes Hd. subst ck1. destruct Hok as [W _ _]. destruct (wh_chunk _ _ _ (wf_h _ _ _ W) c ck Hc) as [[_ Hdir _] _]. by apply Hdir. }
    apply runs_bind. eapply (runs_store_routes false None L n _ _ c ck1 ci2 tag route);
      [exact Hok1|exact Hc1|apply lookup_insert_eq|by subst ck1|done|done|done|done|done|done|done|].
    intros ck' ci' Hap _ ->. cbn [sp_info sp_fs sp_table sp_reads]. unfold d1. cbn [d_chunks set_d_chunks]. rewrite !insert_insert_eq. apply runs_ret.
    assert (Hap' : applied route paths ap ck ck') by (destruct Hap; subst ck1; by constructor).
    eapply HQ; [exact Hap'| |reflexivity|exact Hfs2]. change (set_d_chunks ?x (set_d_chunks _ ?y)) with (set_d_chunks x y).
    eapply applied_ok; [exact Hok|done|done|done|exact Hap'| |done]. unfold sizes_ok in *. rewrite (al_size _ _ _ _ _ Hap'). subst ck1. cbn in Hsz2.
    destruct (ap_written ap); cbn; lia. }
  assert (Hreal : flb_input_chunk_get_real_size ck1 ci = flb_input_chunk_get_real_size ck ci) by by subst ck1.
  assert (Hsz1 : sizes_ok ck1 ci) by by subst ck1.
  assert (Hplain : (∀ o, is_output cfg o → fs1 !! o = applied_charge route paths ck ci o <$> sp_fs sp !! o) →
    runs (store_routes cfg sc c tag paths ap ≫= λ _, mret 0) (mk_core d1 (set_sp_fs fs1 sp)) Q).
  { intros Hfs. unfold set_sp_fs. rewrite <- (insert_id (sp_info sp) c ci Hci). by apply Hend. }
  apply runs_bind, runs_when; intros Hct; [|apply negb_false_iff in Hct; rewrite Hct in Hfs1; by apply Hplain].
  apply negb_true_iff in Hct. rewrite Hct in Hfs1.
  unfold real_size. apply runs_bind, runs_bind, (runs_chunk_at cfg sc c ck1); [done|]. apply runs_bind, (runs_info_at c ci); [done|]. apply runs_ret. rewrite Hreal.
  apply runs_when; intros Hpos.
  - destruct (charge_all_spec cfg sc r Hst ck1 (flb_input_chunk_get_real_size ck ci) fs1 Hm1) as (b & fs2 & Hrun & Hl2 & Hfs2 & _).
    { rewrite Hl1. apply (so_fs _ _ _ _ _ _ _ (co_space _ _ _ _ _ _ _ _ Hok)). }
    eapply runs_update_outputs; [exact Hc1|exact Hci|exact Hrun|]. apply Hend; [by destruct b|by rewrite Hl2|].
    intros o Ho. rewrite Hfs2, (Hfs1 o Ho), option_fmap_id. unfold applied_charge. rewrite Hct, Hpos, andb_true_r.
    destruct (lookup_lt_is_Some_2 _ _ Ho) as [ins' Hins']. unfold ChunkAccount.routed. rewrite Hins', (Hget o ins' Hins').
    destruct (limited sc o); [|by rewrite option_fmap_id]. by case_decide; [rewrite bool_decide_eq_true_2|rewrite bool_decide_eq_false_2, option_fmap_id].
  - apply Hplain. intros o Ho. rewrite (Hfs1 o Ho), option_fmap_id. unfold applied_charge. by rewrite Hpos, andb_false_r, option_fmap_id.
Qed.

Lemma runs_apply clean new L n s i ins tag route ap c ck ci (Q : Z → core S → Prop) :
  core_ok clean new L n s → payload_route_ok i ins tag route ap → labels_ok cfg →
  sp_table (c_sp s) !! (i, FLB_INPUT_LOGS, tag) = Some c → chunks_of s !! c = Some ck → sp_info (c_sp s) !! c = Some ci →
  (∀ ck' ci' fs' s', applied route (i_routes_direct ins) ap ck ck' → core_ok false None L n s' →
     s' = mk_core (set_d_chunks (<[c := ck']> (chunks_of s)) (c_d s)) (mk_space (<[c := ci']> (sp_info (c_sp s))) fs' (sp_table (c_sp s)) (sp_reads (c_sp s))) →
     (∀ o, is_output cfg o → fs' !! o = applied_charge route (i_routes_direct ins) ck ci o <$> sp_fs (c_sp s) !! o) → Q 0 s') →
  runs (route_payload_apply_outputs cfg sc i tag route ap) s Q.
Proof.
  intros Hok Hpr Hlab Htab Hc Hci HQ. pose proof Hpr as [Hins Htg _ _ _]. destruct (core_info _ _ _ _ _ _ _ _ _ _ Hok Hc) as (_ & _ & _ & mask & Hmask & Hwf).
  destruct (co_paths _ Hcfg i ins Hins) as [_ Hout]. pose proof (so_fs _ _ _ _ _ _ _ (co_space _ _ _ _ _ _ _ _ Hok)) as Hfs.
  destruct (so_table _ _ _ _ _ _ _ (co_space _ _ _ _ _ _ _ _ Hok) _ _ Htab) as (ck0 & Hck0 & _ & Htag & _).
  unfold chunks_of in Hc, HQ. rewrite Hc in Hck0. injection Hck0 as <-. cbn in Htag. destruct s as [d sp]. cbn [c_d c_sp] in *.
  unfold route_payload_apply_outputs. apply runs_bind. eapply runs_deref; [exact Hins|]. cbv zeta.
  apply runs_bind. eexists _, _. split; [reflexivity|]. cbn [c_sp]. rewrite Htab. apply runs_bind, (runs_chunk_at cfg sc c ck); [done|]. rewrite Hmask.
  apply runs_bind, (runs_info_at c ci); [done|]. apply runs_bind. eexists _, _. split; [reflexivity|]. cbn [c_sp].
  destruct (discharge_others_ok route ck ci mask _ (sp_fs sp) Hout Hmask Hwf Hfs) as (mask1 & fs1 & Hrun & Hwf1 & Hl1 & Hfs1).
  apply runs_bind. eapply runs_deref; [exact Hrun|]. clear Hrun. apply runs_bind. eapply runs_on_space; [reflexivity|]. cbn [c_d c_sp].
  apply runs_bind. rewrite (st_router _ _ _ Hst). cbn [flb_routes_mask_get_size]. eapply runs_deref; [by apply memset_zero_all|].
  destruct (route_mask_ok route _ Hout) as (mask2 & Hset & Hwf2 & Hsel & Hget).
  apply runs_bind. eapply runs_deref; [exact Hset|]. apply runs_bind. eapply runs_store_chunk; [exact Hc|]. cbn [c_d c_sp chunks_of].
  apply runs_bind. apply (runs_mask_empty cfg sc r Hst (set_ck_routes_mask mask2 ck)); [by exists mask2|apply lookup_insert_eq|]. cbn [set_ck_routes_mask ck_routes_mask default].
  intros e He. destruct e.
  { exfalso. assert (∃ o, o ∈ targets route (i_routes_direct ins)) as [o Ho].
    { destruct (targets route (i_routes_direct ins)) as [|o l]; [done|]. exists o. by left. }
    pose proof Ho as (path & Hp & _ & <-)%elem_of_targets. rewrite Forall_forall in Hout. destruct (lookup_lt_is_Some_2 _ _ (Hout path Hp)) as [ins' Hins'].
    by apply (proj1 He eq_refl (o_id ins')), (Hsel _ _ Hins'). }
  by eapply (runs_given clean new L n d sp fs1 c ck _ ci i ins tag route); [exact Hok|exact Hpr|..|exists mask2| |apply Hget| |].
Qed.

(** ** Appending *)

Definition payload_ok (i : nat) (x : pending_payload * append_io * apply_io) : Prop :=
  let '(p, io, ap) := x in 0 <= pp_size p ∧ io_ok sc io ∧ ∃ ins, payload_route_ok i ins (pp_tag p) (pp_route p) ap.

Lemma runs_append_payload clean L n s i p io ap (Q : Z → core S → Prop) :
  core_ok clean None L n s → labels_ok cfg → payload_ok i (p, io, ap) → (∀ v s', core_ok false None L n s' → Q v s') →
  runs (append_payload cfg sc onig_match i p io ap) s Q.
Proof.
  intros Hok Hlab (Hsize & Hio & ins & Hpr) HQ. unfold append_payload. apply runs_bind.
  eapply runs_append_raw; [done|done|exact Hok|apply Hpr|apply Hpr|done|done|]. intros ret s1 Hok1%(core_ok_unclean _ _ _ _ _ None).
  destruct (negb (ret =? 0)); [by apply runs_ret, HQ|]. apply runs_bind.
  destruct (sp_table (c_sp s1) !! (i, FLB_INPUT_LOGS, pp_tag p)) as [c|] eqn:Htab.
  - destruct (so_table _ _ _ _ _ _ _ (co_space _ _ _ _ _ _ _ _ Hok1) _ _ Htab) as (ck & Hc & _).
    destruct (core_info _ _ _ _ _ _ _ _ _ _ Hok1 Hc) as (ci & Hci & _).
    eapply runs_apply; [exact Hok1|exact Hpr|exact Hlab|exact Htab|exact Hc|exact Hci|]. intros ck' ci' fs' s2 _ Hok2 _ _. by apply runs_ret, HQ.
  - unfold route_payload_apply_outputs. apply runs_bind. eapply runs_deref; [apply Hpr|]. cbv zeta. apply runs_bind. eexists _, _. split; [reflexivity|].
    rewrite Htab. apply runs_ret. cbn [Z.eqb negb]. apply runs_bind. unfold destroy_orphan. apply runs_bind. eexists _, _. split; [reflexivity|].
    rewrite Htab. by apply runs_ret, runs_ret, HQ.
Qed.

Lemma runs_append_payloads L n i ps : labels_ok cfg → Forall (payload_ok i) ps → ∀ appended clean s (Q : Z → core S → Prop),
  core_ok clean None L n s → (∀ v s', core_ok false None L n s' → Q v s') → runs (append_payloads cfg sc onig_match i ps appended) s Q.
Proof.
  intros Hlab. induction 1 as [|[[p io] ap] ps Hp _ IH]; intros appended clean s Q Hok HQ; cbn [append_payloads].
  { apply runs_ret, HQ. by eapply core_ok_unclean. }
  destruct (_ || _); [by eapply IH|]. apply runs_bind. eapply runs_append_payload; [exact Hok|done|done|]. intros v s1 Hok1.
  destruct (negb (v =? 0)); [by apply runs_ret, HQ|]. by eapply IH.
Qed.

(** The chunk that logs were appended to loses the outputs of conditional routes, and they are charged no more for it. *)
Lemma runs_remove_conditional clean L n s i ins conditional c ck ci (Q : unit → core S → Prop) :
  core_ok clean None L n s → cf_inputs cfg !! i = Some ins → chunks_of s !! c = Some ck → sp_info (c_sp s) !! c = Some ci →
  (∀ mask mask' fs' s', ck_routes_mask ck = Some mask → core_ok false None L n s' →
     s' = mk_core (set_d_chunks (<[c := set_ck_routes_mask mask' ck]> (chunks_of s)) (c_d s)) (set_sp_fs fs' (c_sp s)) →
     dropped (on_conditional conditional) (counted_size ck ci) (i_routes_direct ins) mask (sp_fs (c_sp s)) mask' fs' → Q tt s') →
  runs (input_chunk_remove_conditional_routes cfg sc i conditional c) s Q.
Proof.
  intros Hok Hins Hc Hci HQ. destruct (core_info _ _ _ _ _ _ _ _ _ _ Hok Hc) as (ci0 & Hci0 & Hsz & mask & Hmask & Hwf).
  rewrite Hci in Hci0. injection Hci0 as <-. destruct (co_paths _ Hcfg i ins Hins) as [_ Hout].
  pose proof (so_fs _ _ _ _ _ _ _ (co_space _ _ _ _ _ _ _ _ Hok)) as Hfs.
  unfold input_chunk_remove_conditional_routes. apply runs_bind. eapply runs_deref; [exact Hins|]. apply runs_bind, (runs_chunk_at cfg sc c ck); [done|].
  rewrite Hmask. apply runs_bind, (runs_info_at c ci); [done|]. apply runs_bind. eexists _, _. split; [reflexivity|].
  destruct (drop_paths_ok (on_conditional conditional) (counted_size ck ci) _ Hout mask (sp_fs (c_sp s)) Hwf Hfs) as (mask' & fs' & Hrun & Hd).
  apply runs_bind. eapply runs_deref; [exact Hrun|]. apply runs_bind. eapply runs_on_space; [reflexivity|].
  eapply runs_store_chunk; [exact Hc|]. unfold chunks_of in *. eapply HQ; [exact Hmask| |reflexivity|exact Hd]. destruct s as [d sp]. cbn [c_d c_sp chunks_of] in *.
  unfold set_sp_fs. rewrite <- (insert_id (sp_info sp) c ci Hci) at 1.
  eapply core_ok_given; [exact Hok|exact Hc|done..|exists mask'; split; [done|apply Hd]| |done|apply Hd].
  intros routes Hdir. destruct Hok as [W _ _]. destruct (wh_chunk _ _ _ (wf_h _ _ _ W) c ck Hc) as [[_ Hok _] _]. by apply Hok.
Qed.

Definition split_ok (i : nat) (split : option (list (pending_payload * append_io * apply_io))) : Prop :=
  match split with Some ps => labels_ok cfg ∧ Forall (payload_ok i) ps | None => True end.
Definition split_writes (split : option (list (pending_payload * append_io * apply_io))) (io : append_io) : bool :=
  match split with Some _ => false | None => writes io end.

Lemma runs_append_after_split clean L n s i ins split conditional n_records tag size io (Q : Z → core S → Prop) :
  core_ok clean None L n s → cf_inputs cfg !! i = Some ins → 0 ∉ default (default_tag ins) tag → 0 <= size → io_ok sc io → split_ok i split →
  (∀ v s', core_ok (clean && split_writes split io) None L n s' → Q v s') →
  runs (append_after_split cfg sc onig_match i split conditional n_records tag size io) s Q.
Proof.
  intros Hok Hins Htag Hsize Hio Hsplit HQ. unfold append_after_split, append_all. apply runs_bind. destruct split as [ps|]; cbn [split_writes] in HQ.
  - rewrite andb_false_r in HQ. destruct Hsplit as [Hlab Hps]. unfold split_and_append. apply runs_bind. eapply runs_append_payloads; [done|done|exact Hok|].
    intros appended s1 Hok1. apply runs_ret. destruct (_ <? 0); [by apply runs_ret, HQ|]. apply runs_bind.
    eapply runs_append_raw; [done|done|exact Hok1|done..|]. intros ret s2 Hok2. apply runs_bind. eapply runs_deref; [exact Hins|]. apply runs_bind.
    assert (Hdone : runs (mret (M := M (core S)) ret) s2 Q) by by apply runs_ret, HQ.
    apply runs_when; intros _; [|exact Hdone]. apply runs_bind. eexists _, _. split; [reflexivity|].
    destruct (sp_table (c_sp s2) !! _) as [c|] eqn:Htab; [|by apply runs_ret].
    destruct (so_table _ _ _ _ _ _ _ (co_space _ _ _ _ _ _ _ _ Hok2) _ _ Htab) as (ck & Hc & _).
    destruct (core_info _ _ _ _ _ _ _ _ _ _ Hok2 Hc) as (ci & Hci & _).
    eapply runs_remove_conditional; [exact Hok2|exact Hins|exact Hc|exact Hci|]. intros mask mask' fs' s3 _ Hok3 _ _. by apply runs_ret, HQ.
  - apply runs_ret. cbn [Z.ltb Z.compare]. apply runs_bind. eapply runs_append_raw; [done|done|exact Hok|done..|]. intros ret s1 Hok1.
    apply runs_bind. eapply runs_deref; [exact Hins|]. rewrite andb_false_r. apply runs_bind, runs_ret. by apply runs_ret, HQ.
Qed.

(** ** Every event *)

Definition core_enabled (e : core_event) (s : core S) : Prop :=
  match e with
  | CoreEngine e => enabled cfg e (c_d s) ∧ ∀ ck, e ≠ EvChunk ck
  | CoreAppend i event_type n_records tag size io =>
      0 <= size ∧ io_ok sc io ∧ ∃ ins, cf_inputs cfg !! i = Some ins ∧ 0 ∉ default (default_tag ins) tag
  | CoreLogs i split conditional n_records tag size io =>
      0 <= size ∧ io_ok sc io ∧ (∃ ins, cf_inputs cfg !! i = Some ins ∧ 0 ∉ default (default_tag ins) tag) ∧ split_ok i split
  | CoreMap i event_type io => (i < length (cf_inputs cfg))%nat ∧ map_ok cfg io
  end.

(** No write of the event fails, and it does not split logs by record. *)
Definition written (e : core_event) : bool :=
  match e with
  | CoreAppend _ _ _ _ _ io => writes io
  | CoreLogs _ split _ _ _ _ io => split_writes split io
  | _ => true
  end.

Lemma core_ok_bound clean new L n n' s : core_ok clean new L n s → n <= n' → core_ok clean new L n' s.
Proof. intros [W ? ?] Hn. constructor; [|done|done]. unfold delivery_safe in *. apply (wf_bound cfg _ _ n') in W; [exact W|exact Hn]. Qed.

Lemma core_step_spec clean e L n s : core_ok clean None L n s → core_enabled e s → 0 <= n < INT_MAX →
  ∃ s' L', run_core cfg sc onig_match route_condition e s = Some (tt, s') ∧ core_ok (clean && written e) None L' (n + 1) s'.
Proof.
  intros Hok He Hn.
  assert (Hruns : runs (run_core cfg sc onig_match route_condition e) s
    (λ _ s', ∃ L', core_ok (clean && written e) None L' (n + 1) s')).
  { destruct e as [e|i event_type n_records tag size io|i split conditional n_records tag size io|i event_type io]; cbn [run_core written] in *; rewrite ?andb_true_r.
    - destruct He as [He Hne]. destruct Hok as [W Hs Hsp].
      destruct (step_spec cfg route_condition Hcfg e L n (c_d s) W He Hs Hn) as (v & d' & L' & Hrun & W' & _).
      apply runs_bind. eapply runs_deliver_keep; [done|by constructor|exact Hrun|by apply evolves_run_event|by apply keeps_run_event|exact W'|].
      intros s' _ Hok' _. apply runs_ret. by exists L'.
    - destruct He as (Hsize & Hio & ins & Hins & Htag). apply runs_bind. eapply runs_append_raw; try done.
      intros v s' Hok'. apply runs_ret. exists L. eapply core_ok_bound; [done|lia].
    - destruct He as (Hsize & Hio & (ins & Hins & Htag) & Hsplit). apply runs_bind. eapply runs_append_after_split; try done.
      intros v s' Hok'. apply runs_ret. exists L. eapply core_ok_bound; [done|lia].
    - destruct He as [Hi Hio]. apply runs_bind. eapply runs_map; try done.
      intros v s' Hok'. apply runs_ret. exists L. eapply core_ok_bound; [done|lia]. }
  destruct Hruns as ([] & s' & Hrun & L' & Hok'). by exists s', L'.
Qed.
End specs.
