(* ===== verification/Ingest.v ===== *)
(** * The delivery core with chunks that are filled: what holds in every run

    The states that events of the engine, appends of records and chunks of the backlog lead to, in any
    order; what goes wrong with tags that contain a NUL and with the limit of an output. *)
From S2P Require Import Prelude CStd Env Heap RetryQueue Router RoutesMask Sched Delivery Invariant Task Output Dispatch Engine Agent.
From S2P Require Import ChunkFrame ChunkSpace ChunkAccount ChunkRelease InputChunk LogAppend.

Section runs.
Context {S : Type} `{RetryQueue S}.
Context (cfg : flb_config) (sc : storage_config) (r : flb_router) (onig_match : regex → list Z → Z).
Context (route_condition : flb_event_chunk → nat → bool).

(** The start: no chunk, nothing charged *)
Definition core_initial (s : S) : core S :=
  mk_core (initial cfg s) (mk_space ∅ (replicate (length (cf_outputs cfg)) 0) ∅ []).

(** The boolean tells whether every write succeeded, and no logs were split by record. *)
Inductive core_reachable (c0 : core S) : bool → Z → core S → Prop :=
| core_start : core_reachable c0 true 0 c0
| core_step clean m e c c' :
    core_reachable c0 clean m c → core_enabled cfg sc e c →
    run_core cfg sc onig_match route_condition e c = Some (tt, c') →
    core_reachable c0 (clean && written e) (m + 1) c'.

Definition core_reaches (s : S) (clean : bool) (m : Z) (c : core S) : Prop :=
  starts cfg s ∧ storage_ok cfg sc r ∧ core_reachable (core_initial s) clean m c ∧ m < INT_MAX.

Lemma total_empty o : total cfg sc o ∅ ∅ = 0.
Proof. unfold total. by rewrite map_zip_with_empty. Qed.

Lemma core_initial_ok s : starts cfg s → storage_ok cfg sc r → core_ok cfg sc r true None [] 0 (core_initial s).
Proof.
  intros (_ & Hs & Hp & Hok) Hst. constructor; [by apply initial_safe|done|]. constructor; cbn.
  - intros c. by rewrite !lookup_empty.
  - intros c ck. by rewrite lookup_empty.
  - intros c ck ci. by rewrite lookup_empty.
  - by rewrite length_replicate.
  - intros key c. by rewrite lookup_empty.
  - done.
  - intros _. constructor; cbn.
    + intros c ck ci. by rewrite lookup_empty.
    + intros c ck ci o. by rewrite lookup_empty.
    + intros o _ Ho. rewrite total_empty. by apply lookup_replicate.
Qed.

Lemma core_reachable_nonneg c0 clean m c : core_reachable c0 clean m c → 0 <= m.
Proof. induction 1; lia. Qed.

Lemma core_reaches_ok s clean m c : core_reaches s clean m c → ∃ L, core_ok cfg sc r clean None L m c.
Proof.
  intros (Hs & Hst & Hr & Hm). revert Hm. induction Hr as [|clean m e c c' Hr IH He Hrun]; intros Hm.
  { exists []. by apply core_initial_ok. }
  pose proof (core_reachable_nonneg _ _ _ _ Hr). destruct IH as [L Hok]; [lia|].
  destruct (core_step_spec cfg sc r onig_match route_condition (proj1 Hs) Hst clean e L m c Hok He) as (c2 & L' & Hrun' & Hok'); [lia|].
  rewrite Hrun in Hrun'. injection Hrun' as <-. by exists L'.
Qed.

(** ** Properties of every reachable state *)

(** C13. Chunks are filled without undefined behaviour.  From an empty agent with a valid configuration
    let the engine run and inputs append records - to chunks that are found by tag or made, after making
    room by dropping routes or destroying the oldest chunks and tasks, and logs also as payloads of
    conditional routes, whose chunks are given to the outputs of the route - and restore chunks from the
    backlog, in any order, with any allocation, system call, write or bring-up of a chunk failing: every
    such call has a defined result.  In particular no call ever uses a chunk that was destroyed.  What the
    code does not survive is assumed away: tags have no NUL ([nul_tag_dangles]); if a synchronous output runs in
    the engine itself system calls work ([sync_ok], [Output.synchronous_pipe_failure]); corrupted chunks are deleted; the ids of
    outputs fit the mask and those of outputs with a limit are below 31; a restored chunk with records has content;
    stored routes lead to distinct outputs, and where payloads of routes are appended the labels of outputs lead to
    one output each and the tag leaves room for the routes; and there are less than 2^31 - 1 events. *)
Theorem core_never_undefined s clean m c e :
  core_reaches s clean m c → core_enabled cfg sc e c →
  ∃ c', run_core cfg sc onig_match route_condition e c = Some (tt, c').
Proof.
  intros Hreach He. destruct (core_reaches_ok s clean m c Hreach) as [L Hok].
  destruct Hreach as (Hs & Hst & Hr & Hm). pose proof (core_reachable_nonneg _ _ _ _ Hr).
  destruct (core_step_spec cfg sc r onig_match route_condition (proj1 Hs) Hst clean e L m c Hok He) as (c' & _ & Hrun & _);
    [lia|by exists c'].
Qed.

(** The bytes of the chunks that have a route to output [o] *)
Definition routed_bytes (o : nat) (c : core S) : Z :=
  zsum (map_zip_with (λ ck ci, if routed cfg sc ck o then flb_input_chunk_get_real_size ck ci else 0)
    (d_chunks (c_d c)) (sp_info (c_sp c))).

(** C14. The space charged to an output is exact.  In every state reached without a failed write and without
    logs split by record (see [LogIngest.conditional_charges_wrong]), [fs_chunks_size] of every output with a
    limit is the sum of the real sizes of the chunks routed to it, modulo 2^64: whatever is appended, dropped,
    flushed or destroyed, nothing is charged twice, and nothing stays charged that is gone. *)
Theorem fs_chunks_size_exact s m c o ins limit :
  core_reaches s true m c → cf_outputs cfg !! o = Some ins → sc_total_limit_size sc !! o = Some limit → limit ≠ -1 →
  sp_fs (c_sp c) !! o = Some (u64 (routed_bytes o c)).
Proof.
  intros Hreach Ho Hlim Hne. destruct (core_reaches_ok s true m c Hreach) as [L [_ _ Hsp]].
  destruct (so_charges _ _ _ _ _ _ _ Hsp eq_refl) as [_ Hrt Hsum]. rewrite Hsum.
  - do 2 f_equal. unfold total, routed_bytes. f_equal. apply map_eq. intros a. rewrite !map_lookup_zip_with.
    destruct (d_chunks (c_d c) !! a) as [ck|] eqn:Hck; cbn; [|done].
    destruct (sp_info (c_sp c) !! a) as [ci|] eqn:Hci; cbn; [|done]. f_equal. unfold charge.
    destruct (routed cfg sc ck o) eqn:Hr; cbn; [|done]. by destruct (Hrt a ck ci o Hck Hci Hr) as [->|].
  - unfold limited. rewrite Hlim. by destruct (Z.eqb_spec limit (-1)).
  - by eapply lookup_lt_Some.
Qed.

(** The tables of open chunks are exact.  In every reachable state, whatever failed, each entry of
    a table leads to a live chunk of that input, event type and tag, which is on the list of chunks of
    the input; and a chunk is in the tables at most once. *)
Theorem open_chunks_live s clean m c i event_type tag a :
  core_reaches s clean m c → sp_table (c_sp c) !! (i, event_type, tag) = Some a →
  (∃ ck, d_chunks (c_d c) !! a = Some ck ∧ ck_in ck = i ∧ ck_event_type ck = event_type ∧ ck_tag ck = Some tag) ∧
  in_list (d_in_chunks (c_d c)) i a ∧
  ∀ key, sp_table (c_sp c) !! key = Some a → key = (i, event_type, tag).
Proof.
  intros Hreach Hk. destruct (core_reaches_ok s clean m c Hreach) as [L [W _ Hsp]].
  destruct (so_table _ _ _ _ _ _ _ Hsp _ _ Hk) as (ck & Hc & Hkey & Htag & Hdir). cbn in Hkey, Htag. injection Hkey as Hi Hty.
  split_and!; [by exists ck| |].
  - apply (wh_in_chunks _ _ _ (wf_h _ _ _ W)). by exists ck.
  - intros key Hk'. destruct (entry_key _ _ _ _ _ (so_table _ _ _ _ _ _ _ Hsp _ _ Hk') Hc) as [Htag' ->].
    rewrite Htag in Htag'. injection Htag' as Htag'. by rewrite Hi, Hty, <- Htag'.
Qed.

(** The callback of output [o] works on the chunk: its route in the task that holds the chunk is active. *)
Definition being_flushed (o : nat) (c : core S) (a : nat) : Prop :=
  ∃ ck t k, d_chunks (c_d c) !! a = Some ck ∧ ck_task ck = Some t ∧ d_tasks (c_d c) !! t = Some k ∧
    t_users k ≠ 0 ∧ flb_task_get_route_status k o = FLB_TASK_ROUTE_ACTIVE.

Lemma being_flushed_kept o ins ic c a : being_flushed o c a → evictable cfg ic o ins c a = false.
Proof.
  intros (ck & t & k & Hc & Ht & Hk & Hu & Hs). unfold evictable, chunks_of, may_drop. rewrite Hc. rewrite Ht, Hk, Hs.
  rewrite (proj2 (Z.eqb_neq _ _) Hu). by rewrite andb_false_r.
Qed.

(** C15. Making room within an input takes the oldest chunks first and no more than needed.  In every reachable
    state, releasing space of an output from an input in the local scope - as [flb_input_chunk_release_space_compound]
    does with the inputs, not with the backlog - drops the route to the output from exactly the shortest beginning of
    the chunks, in the order they were made, that have the route, are not the chunk to make room for, and are held by
    no task or by one that has no users or whose route to the output is neither active nor dropped already; their
    sizes are the space released, and they make up the required space unless there are no more.  Every other chunk of
    the agent stays as it is, among them those the callback of the output works on. *)
Theorem release_oldest_first s clean m c ic i l o ins required :
  core_reaches s clean m c → d_in_chunks (c_d c) !! i = Some l → cf_outputs cfg !! o = Some ins →
  let vs := victims (size_of c) required 0 (filter (λ a, evictable cfg ic o ins c a = true) l) in
  ∃ c', flb_input_chunk_release_space cfg sc ic (Some i) o required RELEASE_SCOPE_LOCAL c =
      Some (required - sizes (size_of c) vs, c') ∧
    (∀ a ck', a ∈ vs → d_chunks (c_d c') !! a = Some ck' → mask_get cfg ck' ins = Some 0) ∧
    (∀ a, a ∉ vs → d_chunks (c_d c') !! a = d_chunks (c_d c) !! a) ∧
    (∀ a, being_flushed o c a → a ∉ vs).
Proof.
  intros Hreach Hl Ho vs. destruct (core_reaches_ok s clean m c Hreach) as [L Hok].
  destruct Hreach as ((Hcfg & _) & Hst & _).
  assert (Hi : (i < length (cf_inputs cfg))%nat).
  { destruct Hok as [W _ _]. rewrite <- (wh_in_chunks_len _ _ _ (wf_h _ _ _ W)). by eapply lookup_lt_Some. }
  destruct (core_in_chunks cfg sc r _ _ _ _ _ _ Hok Hi) as (l' & Hl' & Hnd & Hlive).
  rewrite Hl in Hl'. injection Hl' as <-. apply (core_ok_weaken cfg sc r clean (Some (ic, 0))) in Hok.
  destruct (runs_release_local cfg sc r Hcfg Hst clean ic 0 L m o ins required Ho l 0 c Hok Hnd Hlive)
    as (total & c' & Hrun & _ & -> & Hin & Hout).
  exists c'. split; [|split_and!; [done|done|]].
  2: { intros a Hf Hv. apply victims_sub, list_elem_of_filter in Hv as [Hv _]. by rewrite (being_flushed_kept o ins ic) in Hv. }
  unfold flb_input_chunk_release_space.
  unfold mbind at 1, M_bind at 1. cbn [deref]. unfold mbind at 1, M_bind at 1. rewrite Ho. cbn [deref].
  unfold mbind at 1, M_bind at 1. destruct c as [d sp]. rewrite (deliver_run cfg sc (gets d_in_chunks) d sp _ d eq_refl) by done.
  cbn [c_d] in Hl. unfold mbind at 1, M_bind at 1. rewrite Hl. cbn [deref].
  unfold mbind, M_bind. rewrite Hrun. by rewrite Z.add_0_l.
Qed.
End runs.

(** ** An input and two outputs, the first with a limit of 1000000 bytes *)

Definition ix_config : flb_config :=
  mk_config [mk_input 0 [105] true (Some [97]) 1 [] []]
    [mk_output 0 [111] (Some [42]) None 0 1 false 1 None [] false; mk_output 1 [112] (Some [42]) None 0 1 false 1 None [] false]
    (Some (mk_router 1 64 (Some [0]))) Sched.ex_cfg false.
Definition ix_storage : storage_config :=
  mk_storage_config (Some 0%nat) true [FLB_STORAGE_FS] [true] [1000000; -1] [0; 0].
(** Nothing fails; a new file takes 262144 bytes on disk. *)
Definition ix_io (filtered real : Z) : append_io := mk_io false false false UP_OK (Some (262144, 30)) true filtered true real.
Definition ix_append (tag : list Z) (size real : Z) : core_event := CoreAppend 0 FLB_INPUT_LOGS 1 (Some tag) size (ix_io size real).
Definition ix_regex (_ : regex) (_ : list Z) : Z := 0.
Definition ix_run (es : list core_event) : option (core flb_sched) :=
  foldl (λ o e, c ← o; '(_, c') ← run_core ix_config ix_storage ix_regex ex_always e c; Some c')
    (Some (core_initial ix_config ex_sched)) es.
Definition ix_after (es : list core_event) : core flb_sched := default (core_initial ix_config ex_sched) (ix_run es).

(** The limit of an output is not enforced.  Room for new data is made by releasing as many bytes
    as the chunk that is filled has on disk before the data is written; the size of the data
    ([chunk_size] of [flb_input_chunk_find_space_new_data]) is not used.  With a limit of 1000000 bytes
    and chunks of 300000 and 600000 bytes, appending 700000 bytes under a new tag - nothing fails -
    drops the route of the first chunk only, because the new file has 262144 bytes, and leaves 1300000
    bytes charged to the output. *)
Theorem total_limit_exceeded :
  ∃ c c', ix_run [ix_append [98] 300000 300000; ix_append [99] 600000 600000] = Some c ∧
    sp_fs (c_sp c) !! 0%nat = Some 900000 ∧
    input_chunk_append_raw ix_config ix_storage ix_regex 0 FLB_INPUT_LOGS 1 (Some [100]) 700000 (ix_io 700000 700000) c = Some (0, c') ∧
    sc_total_limit_size ix_storage !! 0%nat = Some 1000000 ∧ sp_fs (c_sp c') !! 0%nat = Some 1300000.
Proof.
  eexists _, _. split; [vm_compute; reflexivity|]. split; [reflexivity|]. split; [vm_compute; reflexivity|]. by split.
Qed.

(** A tag that contains a NUL leaves a dangling pointer.  The table of open chunks is keyed with the
    whole tag, but the tag read back from a chunk ends at its first NUL, so destroying the chunk leaves
    the entry.  When all records appended under such a tag are filtered out, the chunk is destroyed at
    once, and the next append under the tag reads the freed chunk. *)
Theorem nul_tag_dangles :
  let append := CoreAppend 0 FLB_INPUT_LOGS 1 (Some [97; 0; 98]) 100 (ix_io 0 0) in
  ∃ c a, ix_run [append] = Some c ∧
    sp_table (c_sp c) !! (0%nat, FLB_INPUT_LOGS, [97; 0; 98]) = Some a ∧ d_chunks (c_d c) !! a = None ∧
    run_core ix_config ix_storage ix_regex ex_always append c = None.
Proof.
  cbv zeta. eexists _, _. split; [vm_compute; reflexivity|]. split; [vm_compute; reflexivity|].
  split; [reflexivity|vm_compute; reflexivity].
Qed.

(** ** Witnesses *)

Definition ix_router : flb_router := mk_router 1 64 (Some [0]).

Lemma ix_config_ok : config_ok ix_config.
Proof.
  constructor.
  - intros [|[|o]] ins [= <-]; cbn; lia.
  - intros [|[|o1]] [|[|o2]] ? ? [= <-] [= <-]; cbn; done.
  - split; [split|]; reflexivity || discriminate.
  - intros [|i] ins [= <-]. split; constructor.
Qed.

Lemma ix_storage_ok : storage_ok ix_config ix_storage ix_router.
Proof.
  constructor; try done.
  - intros ins. cbn. rewrite !elem_of_cons, elem_of_nil. intros [->|[->|[]]]; split; cbn; lia.
  - intros [|[|o]] ins limit [= <-] [= <-] Hne; [|done]. split; [cbn; lia|]. exists 0%nat. split; [done|cbn; lia].
Qed.

Lemma ix_starts : starts ix_config ex_sched.
Proof. split_and!; [apply ix_config_ok|apply sched_empty_wf|reflexivity|by left]. Qed.

#[local] Abbreviation ix_reaches := (core_reaches ix_config ix_storage ix_router ix_regex ex_always ex_sched true).

Lemma ix_reaches_nil : ix_reaches 0 (ix_after []).
Proof. split_and!; [apply ix_starts|apply ix_storage_ok|constructor|done]. Qed.

Lemma ix_reaches_step m es e :
  ix_reaches m (ix_after es) → is_Some (ix_run es) → core_enabled ix_config ix_storage e (ix_after es) → written e = true →
  is_Some (ix_run (es ++ [e])) → m + 1 < INT_MAX → ix_reaches (m + 1) (ix_after (es ++ [e])).
Proof.
  intros (Hs & Hst & Hr & _) [c Hc] He Hw [c' Hc'] Hm. split_and!; [done|done| |done].
  unfold ix_after in *. rewrite Hc in *. rewrite Hc'. cbn in *. unfold ix_run in *. rewrite foldl_snoc, Hc in Hc'. cbn in Hc'.
  destruct (run_core ix_config ix_storage ix_regex ex_always e c) as [[[] c2]|] eqn:Hrun; [|done].
  cbn in Hc'. injection Hc' as <-. change true with (true && true). rewrite <- Hw at 2. by eapply core_step.
Qed.

Lemma ix_append_enabled tag size real c : 0 <= size → 0 <= real → 0 ∉ tag → core_enabled ix_config ix_storage (ix_append tag size real) c.
Proof.
  intros Hs Hr Ht. cbn. split; [done|]. split; [|by eexists]. split_and!; cbn; [done|done| |done].
  intros real' meta [= <- <-]. lia.
Qed.

(** Two tags are filled, the first chunk is dispatched: it is held by a task with two flushes. *)
Definition ix_events : list core_event :=
  [ix_append [98] 300000 300000; CoreEngine (EvDispatch 1 0); ix_append [99] 600000 600000].

Lemma ix_reaches_events : ix_reaches 3 (ix_after ix_events).
Proof.
  apply (ix_reaches_step 2 [ix_append [98] 300000 300000; CoreEngine (EvDispatch 1 0)] (ix_append [99] 600000 600000)).
  - apply (ix_reaches_step 1 [ix_append [98] 300000 300000] (CoreEngine (EvDispatch 1 0))).
    + apply (ix_reaches_step 0 [] (ix_append [98] 300000 300000)).
      * apply ix_reaches_nil.
      * by eexists.
      * apply ix_append_enabled; [lia|lia|]. rewrite list_elem_of_singleton. lia.
      * done.
      * vm_compute. by eexists.
      * done.
    + vm_compute. by eexists.
    + split; [cbn; lia|done].
    + done.
    + vm_compute. by eexists.
    + done.
  - vm_compute. by eexists.
  - apply ix_append_enabled; [lia|lia|]. rewrite list_elem_of_singleton. lia.
  - done.
  - vm_compute. by eexists.
  - done.
Qed.

Example core_never_undefined_witness :
  ∃ c', run_core ix_config ix_storage ix_regex ex_always (ix_append [100] 700000 700000) (ix_after ix_events) = Some (tt, c').
Proof.
  apply (core_never_undefined ix_config ix_storage ix_router ix_regex ex_always ex_sched true 3 _ _ ix_reaches_events).
  apply ix_append_enabled; [lia|lia|]. rewrite list_elem_of_singleton. lia.
Defined.

Example fs_chunks_size_exact_witness :
  routed_bytes ix_config ix_storage 0 (ix_after ix_events) = 900000 ∧
  sp_fs (c_sp (ix_after ix_events)) !! 0%nat = Some (u64 (routed_bytes ix_config ix_storage 0 (ix_after ix_events))).
Proof.
  split; [vm_compute; reflexivity|].
  apply (fs_chunks_size_exact ix_config ix_storage ix_router ix_regex ex_always ex_sched 3 _ 0
           (mk_output 0 [111] (Some [42]) None 0 1 false 1 None [] false) 1000000 ix_reaches_events);
    [reflexivity|reflexivity|discriminate].
Defined.

Example open_chunks_live_witness :
  ∃ a, sp_table (c_sp (ix_after ix_events)) !! (0%nat, FLB_INPUT_LOGS, [99]) = Some a ∧
  (∃ ck, d_chunks (c_d (ix_after ix_events)) !! a = Some ck ∧ ck_in ck = 0%nat ∧ ck_event_type ck = FLB_INPUT_LOGS ∧
     ck_tag ck = Some [99]) ∧
  in_list (d_in_chunks (c_d (ix_after ix_events))) 0 a ∧
  ∀ key, sp_table (c_sp (ix_after ix_events)) !! key = Some a → key = (0%nat, FLB_INPUT_LOGS, [99]).
Proof.
  destruct (sp_table (c_sp (ix_after ix_events)) !! (0%nat, FLB_INPUT_LOGS, [99])) as [a|] eqn:Ha; [|by vm_compute in Ha].
  exists a. split; [reflexivity|].
  apply (open_chunks_live ix_config ix_storage ix_router ix_regex ex_always ex_sched true 3 _ _ _ _ a ix_reaches_events Ha).
Defined.

(** The callback of the output works on the first chunk, of 300000 bytes: the second, of 600000 bytes, makes up the
    262144 bytes required. *)
Definition ix_flushing : list core_event := ix_events ++ [CoreEngine (EvStart 3 0 None)].

Lemma ix_reaches_flushing : ix_reaches 4 (ix_after ix_flushing).
Proof.
  apply (ix_reaches_step 3 ix_events (CoreEngine (EvStart 3 0 None)) ix_reaches_events); [| |done| |done].
  - vm_compute. by eexists.
  - split; [vm_compute; by left|done].
  - vm_compute. by eexists.
Qed.

Lemma ix_being_flushed : being_flushed 0 (ix_after ix_flushing) 0.
Proof.
  unfold being_flushed. destruct (d_chunks (c_d (ix_after ix_flushing)) !! 0%nat) as [ck|] eqn:Hck; [|by vm_compute in Hck].
  destruct (d_tasks (c_d (ix_after ix_flushing)) !! 3%nat) as [k|] eqn:Hk; [|by vm_compute in Hk].
  exists ck, 3%nat, k. vm_compute in Hck. vm_compute in Hk. injection Hck as <-. injection Hk as <-. by split_and!.
Qed.

Example release_oldest_first_witness :
  let c := ix_after ix_flushing in
  let ins := mk_output 0 [111] (Some [42]) None 0 1 false 1 None [] false in
  ∃ l vs, d_in_chunks (c_d c) !! 0%nat = Some l ∧ l = [0; 12]%nat ∧ vs = [12]%nat ∧
    ∃ c', flb_input_chunk_release_space ix_config ix_storage 99 (Some 0%nat) 0 262144 RELEASE_SCOPE_LOCAL c =
        Some (262144 - sizes (size_of c) vs, c') ∧
      (∀ a ck', a ∈ vs → d_chunks (c_d c') !! a = Some ck' → mask_get ix_config ck' ins = Some 0) ∧
      (∀ a, a ∉ vs → d_chunks (c_d c') !! a = d_chunks (c_d c) !! a) ∧ (0%nat ∉ vs).
Proof.
  intros c ins. destruct (d_in_chunks (c_d c) !! 0%nat) as [l|] eqn:Hl; [|by vm_compute in Hl].
  destruct (release_oldest_first ix_config ix_storage ix_router ix_regex ex_always ex_sched true 4 c 99 0 l 0 ins 262144 ix_reaches_flushing Hl)
    as (c' & Hrun & Hz & Hk & Hf); [reflexivity|].
  assert (Hl2 : l = [0; 12]%nat) by (vm_compute in Hl; by injection Hl as <-). subst l. exists [0; 12]%nat, [12]%nat.
  assert (Hv : victims (size_of c) 262144 0 (filter (λ a, evictable ix_config 99 0 ins c a = true) [0; 12]%nat) = [12]%nat) by (vm_compute; reflexivity).
  rewrite Hv in Hrun, Hz, Hk, Hf. split_and!; [done|done|done|]. exists c'. split_and!; [exact Hrun|exact Hz|exact Hk|].
  apply Hf, ix_being_flushed.
Defined.
