(* ===== verification/Filter.v ===== *)
(** * Filters ([src/flb_filter.c], [src/flb_mp.c] and the filtering part of [src/flb_input_chunk.c])

    Logs pass the filters of the configuration, in its order, before they are written to a chunk: a filter
    that is active and matches the tag gets what the one before it left and may replace it by a buffer of its
    own, which is freed when it is replaced in turn.  The plugins, the MessagePack reader that counts
    records and the storage layer are parameters. *)
From S2P Require Import Prelude CStd Env Heap Router Delivery ChunkSpace.

(** ** Data *)

Definition FLB_FILTER_MODIFIED : Z := 1.
Definition FLB_FILTER_NOTOUCH : Z := 2.

(** The counters of both kinds of metrics *)
Record filter_metrics := mk_metrics {
  fm_records : Z; fm_bytes : Z; fm_added : Z; fm_dropped : Z; fm_dropped_bytes : Z
}.
(** [id] names the plugin with its context. *)
Record flb_filter_instance := mk_filter {
  f_id : nat;
  f_match : option (list Z);
  f_match_regex : option regex;
  f_properties : list (list Z * list Z);
  f_metrics : filter_metrics
}.
Definition set_f_metrics (m : filter_metrics) (f : flb_filter_instance) : flb_filter_instance :=
  mk_filter (f_id f) (f_match f) (f_match_regex f) (f_properties f) m.

(** The counts of a chunk *)
Record chunk_records := mk_counts { cr_total_records : Z; cr_added_records : Z }.

(** A buffer that a call works on: the caller's, or one of a filter, which may be NULL *)
Inductive work_data := caller_data | filter_data (p : option nat).

Section filters.
Variable onig_match : regex → list Z → Z.
(** [mpack_discard]: the bytes after one object, [None] for an error *)
Variable mpack_discard : list Z → option (list Z).
(** The contexts of the plugins, and [cb_filter]: what it returns, the buffer with its bytes, and the contexts then *)
Context {contexts : Type}.
Variable cb_filter : nat → list Z → list Z → contexts → M heap (Z * option nat * list Z * contexts).

(** ** Counting records *)

Fixpoint count_loop (fuel : nat) (data : list Z) (count : Z) : option (Z * Z) :=
  match fuel with
  | O => None
  | S fuel' =>
      if zlen data =? 0 then Some (count, 0)
      else
        match mpack_discard data with
        | None => Some (count, zlen data)
        | Some rest => count_loop fuel' rest (count + 1)
        end
  end.
(** The records, and the bytes that are none *)
Definition flb_mp_count_remaining (data : list Z) : option (Z * Z) :=
  '(count, remaining) ← count_loop (S (length data)) data 0; Some (i32 count, remaining).
Definition flb_mp_count (data : list Z) : option Z := fst <$> flb_mp_count_remaining data.

(** ** The filters of a configuration *)

Definition is_active (properties : list (list Z * list Z)) : bool :=
  negb (existsb (λ kv, strcasecmp_eq kv.1 (map Z.of_nat [97; 99; 116; 105; 118; 101]%nat) &&
    (strcasecmp_eq kv.2 (map Z.of_nat [70; 65; 76; 83; 69]%nat) || strcmp_eq kv.2 [48])) properties).
Definition applies (tag : list Z) (f : flb_filter_instance) : bool :=
  is_active (f_properties f) && flb_router_match onig_match (Some tag) (zlen tag) (f_match f) (f_match_regex f).

Definition free_work (w : work_data) : M heap unit :=
  match w with filter_data (Some p) => free_block p | _ => mret tt end.

(** The counters after a call of a filter, and after it replaced [in_records] records by [out_records] *)
Definition count_call (in_records out_size : Z) (m : filter_metrics) : filter_metrics :=
  mk_metrics (fm_records m + in_records) (fm_bytes m + out_size) (fm_added m) (fm_dropped m) (fm_dropped_bytes m).
Definition count_change (in_records out_records dropped_size : Z) (m : filter_metrics) : filter_metrics :=
  if in_records <? out_records
  then mk_metrics (fm_records m) (fm_bytes m) (fm_added m + (out_records - in_records)) (fm_dropped m) (fm_dropped_bytes m + dropped_size)
  else if out_records <? in_records
  then mk_metrics (fm_records m) (fm_bytes m) (fm_added m) (fm_dropped m + (in_records - out_records)) (fm_dropped_bytes m + dropped_size)
  else m.
Definition count_removed (in_records dropped_size : Z) (m : filter_metrics) : filter_metrics :=
  mk_metrics (fm_records m) (fm_bytes m) (fm_added m) (fm_dropped m + in_records) (fm_dropped_bytes m + dropped_size).

(** The loop over the filters: the buffer and its bytes, the total of the chunk, the filters, and the contexts *)
Fixpoint filter_loop (fs : list flb_filter_instance) (tag : list Z) (ingested_size pre_records in_records total : Z)
    (work : work_data) (data : list Z) (cx : contexts) : M heap (work_data * list Z * Z * list flb_filter_instance * contexts) :=
  match fs with
  | [] => mret (work, data, total, [], cx)
  | f :: fs' =>
      if negb (applies tag f) then
        '(work, data, total, fs', cx) ← filter_loop fs' tag ingested_size pre_records in_records total work data cx;
        mret (work, data, total, f :: fs', cx)
      else
        '(ret, out_buf, out, cx) ← cb_filter (f_id f) data tag cx;
        let out_size := zlen out in
        let m := count_call in_records out_size (f_metrics f) in
        if ret =? FLB_FILTER_MODIFIED then
          free_work work ≫= λ _,
          let dropped_size := if out_size <? ingested_size then ingested_size - out_size else 0 in
          if out_size =? 0 then mret (filter_data out_buf, out, pre_records, set_f_metrics (count_removed in_records dropped_size m) f :: fs', cx)
          else
            out_records ← deref (flb_mp_count out);
            let m := count_change in_records out_records dropped_size m in
            '(work, data, total, fs', cx) ← filter_loop fs' tag ingested_size pre_records out_records (i32 (pre_records + out_records)) (filter_data out_buf) out cx;
            mret (work, data, total, set_f_metrics m f :: fs', cx)
        else
          '(work, data, total, fs', cx) ← filter_loop fs' tag ingested_size pre_records in_records total work data cx;
          mret (work, data, total, set_f_metrics m f :: fs', cx)
  end.

(** The buffer that is left with its bytes, the counts of the chunk, the filters, and the contexts *)
Definition flb_filter_do (ic : chunk_records) (data tag : list Z) (filters : list flb_filter_instance) (cx : contexts)
    : M heap (work_data * list Z * chunk_records * list flb_filter_instance * contexts) :=
  ntag ← alloc;
  match ntag with
  | None => mret (filter_data None, [], ic, filters, cx)
  | Some ntag =>
      let in_records := cr_added_records ic in
      let pre_records := i32 (cr_total_records ic - in_records) in
      '(work, out, total, filters, cx) ← filter_loop filters tag (zlen data) pre_records in_records (cr_total_records ic) caller_data data cx;
      free_block ntag ≫= λ _,
      mret (work, out, mk_counts total (cr_added_records ic), filters, cx)
  end.

(** The part of [input_chunk_append_raw] that counts, filters and writes: the result so far ([-1] for a write that
    failed), what was given to the storage layer, if anything, the counts, the filters and their contexts.  [cio_write] is what
    the storage layer answers. *)
Definition append_filtered (event_type n_records : Z) (ic : chunk_records) (buf tag : list Z) (filters : list flb_filter_instance)
    (cio_write : list Z → bool) (cx : contexts) : M heap (Z * option (list Z) * chunk_records * list flb_filter_instance * contexts) :=
  let total_records_start := cr_total_records ic in
  let ic := mk_counts (i32 (cr_total_records ic + n_records)) (i32 n_records) in
  '(work, final_data, ic, filters, cx) ←
    (if event_type =? FLB_INPUT_LOGS then flb_filter_do ic buf tag filters cx else mret (caller_data, buf, ic, filters, cx));
  let written := 0 <? zlen final_data in
  let ret := if written && negb (cio_write final_data) then -1 else 0 in
  free_work work ≫= λ _,
  let ic := if negb (ret =? 0) then mk_counts total_records_start 0 else ic in
  mret (ret, if written then Some final_data else None, ic, filters, cx).

(** ** Specification *)

(** What the filters make of data: the bytes and the records that are left of [n], and the contexts then *)
Section spec.
Variable replaces : nat → list Z → list Z → contexts → option (list Z) * contexts.
Fixpoint chain (fs : list flb_filter_instance) (tag data : list Z) (n : Z) (cx : contexts) : list Z * Z * contexts :=
  match fs with
  | [] => (data, n, cx)
  | f :: fs' =>
      if applies tag f then
        match replaces (f_id f) data tag cx with
        | (None, cx) => chain fs' tag data n cx
        | (Some [], cx) => ([], 0, cx)
        | (Some out, cx) => chain fs' tag out (default 0 (flb_mp_count out)) cx
        end
      else chain fs' tag data n cx
  end.

(** A plugin: it says whether it has replaced the data; then the new buffer, which is NULL only without data, is the
    caller's to free.  Without failures it does what [replaces] says. *)
Definition filter_ok : Prop := ∀ i data tag cx s,
  runs (cb_filter i data tag cx) s (λ '(ret, out_buf, out, cx') s',
    (if ret =? FLB_FILTER_MODIFIED then (out_buf = None → out = []) ∧ hp_live s' ≡ₚ option_list out_buf ++ hp_live s else hp_live s' ≡ₚ hp_live s) ∧
    (calm (hp_env s) → calm (hp_env s') ∧ replaces i data tag cx = (if ret =? FLB_FILTER_MODIFIED then Some out else None, cx'))).
End spec.

(** The reader takes at least a byte. *)
Definition mpack_ok : Prop := ∀ b rest, mpack_discard b = Some rest → (length rest < length b)%nat.

Lemma count_loop_ok fuel : mpack_ok → ∀ data count, (length data < fuel)%nat → is_Some (count_loop fuel data count).
Proof.
  intros Hok. induction fuel as [|fuel IH]; intros data count Hf; [lia|]. cbn [count_loop].
  destruct (zlen data =? 0); [done|]. destruct (mpack_discard data) as [rest|] eqn:Hd; [|done]. apply Hok in Hd. apply IH. lia.
Qed.
Lemma mp_count_ok data : mpack_ok → ∃ n, flb_mp_count data = Some n ∧ n = i32 n.
Proof.
  intros Hok. unfold flb_mp_count, flb_mp_count_remaining. destruct (count_loop_ok (S (length data)) Hok data 0 ltac:(lia)) as [[n r] ->].
  eexists. split; [done|]. cbn. unfold i32. Z.div_mod_to_equations. lia.
Qed.

Definition work_blocks (w : work_data) : list nat := match w with filter_data (Some p) => [p] | _ => [] end.
Lemma free_work_ok w X s (Q : unit → heap → Prop) : hp_live s ≡ₚ work_blocks w ++ X →
  (∀ s', hp_live s' ≡ₚ X → hp_env s' = hp_env s → Q tt s') → runs (free_work w) s Q.
Proof.
  intros Hl HQ. destruct w as [|[p|]]; cbn in *; [by apply runs_ret, HQ| |by apply runs_ret, HQ]. eapply runs_free; [exact Hl|done].
Qed.

(** Records in and out, and what the counters say of them *)
Definition net (fs : list flb_filter_instance) : Z := foldr (λ f z, fm_added (f_metrics f) - fm_dropped (f_metrics f) + z) 0 fs.
Lemma net_change n out d m : fm_added (count_change n out d m) - fm_dropped (count_change n out d m) = fm_added m - fm_dropped m + (out - n).
Proof. unfold count_change. destruct (Z.ltb_spec n out); [cbn; lia|]. destruct (Z.ltb_spec out n); cbn; lia. Qed.

Section laws.
Variable replaces : nat → list Z → list Z → contexts → option (list Z) * contexts.
Hypothesis Hfilter : filter_ok replaces.
Hypothesis Hmpack : mpack_ok.

(** What a run over filters gives, from a state with the blocks [X] and a buffer *)
Definition chained (fs : list flb_filter_instance) (tag data : list Z) (pre n : Z) (cx : contexts) (X : list nat) (s : heap)
    (r : work_data * list Z * Z * list flb_filter_instance * contexts) (s' : heap) : Prop :=
  let '(work', data', total', fs', cx') := r in
  hp_live s' ≡ₚ work_blocks work' ++ X ∧
  (calm (hp_env s) → calm (hp_env s') ∧ ∃ n', chain replaces fs tag data n cx = (data', n', cx') ∧ total' = i32 (pre + n') ∧ net fs' = net fs + (n' - n)).

Lemma filter_loop_ok fs tag ingested pre X : pre = i32 pre → ∀ n total work data cx s, total = i32 (pre + n) → hp_live s ≡ₚ work_blocks work ++ X →
  runs (filter_loop fs tag ingested pre n total work data cx) s (chained fs tag data pre n cx X s).
Proof.
  intros Hpre. induction fs as [|f fs IH]; intros n total work data cx s Htotal Hl; cbn [filter_loop].
  { apply runs_ret. split; [done|]. intros Hc. split; [done|]. exists n. split_and!; [done|done|cbn; lia]. }
  assert (Hskip : ∀ f' cx1 s1, f_metrics f' = f_metrics f ∨ (fm_added (f_metrics f') = fm_added (f_metrics f) ∧ fm_dropped (f_metrics f') = fm_dropped (f_metrics f)) →
    hp_live s1 ≡ₚ work_blocks work ++ X → (calm (hp_env s) → calm (hp_env s1) ∧ chain replaces (f :: fs) tag data n cx = chain replaces fs tag data n cx1) →
    runs ('(work, data, total, fs', cx) ← filter_loop fs tag ingested pre n total work data cx1; mret (work, data, total, f' :: fs', cx)) s1
      (chained (f :: fs) tag data pre n cx X s)).
  { intros f' cx1 s1 Hm Hl1 Hc1. apply runs_bind. eapply runs_weaken; [by apply IH|]. intros [[[[w d] t] fs'] cx2] s2 [Hl2 Hs2]. apply runs_ret. split; [done|].
    intros Hc. destruct (Hc1 Hc) as [Hc1' Hch]. destruct (Hs2 Hc1') as (Hc2 & n' & Hn & Ht & Hnet). split; [done|]. exists n'. split_and!; [by rewrite Hch|done|].
    cbn [net foldr]. fold (net fs') (net fs). destruct Hm as [-> |[-> ->]]; lia. }
  destruct (applies tag f) eqn:Hap; cbn [negb].
  2: { apply Hskip; [by left|done|]. intros Hc. split; [done|]. cbn [chain]. by rewrite Hap. }
  apply runs_bind. eapply runs_weaken; [apply Hfilter|]. intros [[[ret buf] out] cx1] s1 [Hmem Hcalm].
  destruct (ret =? FLB_FILTER_MODIFIED).
  2: { apply Hskip; [by right|by rewrite Hmem|]. intros Hc. destruct (Hcalm Hc) as [? Hr]. split; [done|]. cbn [chain]. by rewrite Hap, Hr. }
  destruct Hmem as [Hnull Hmem]. apply runs_bind.
  eapply (free_work_ok work (option_list buf ++ X)); [rewrite Hmem, Hl; solve_Permutation|]. intros s2 Hl2 He2.
  assert (Hb : option_list buf = work_blocks (filter_data buf)) by (by destruct buf).
  destruct (Z.eqb_spec (zlen out) 0) as [Hz|Hz].
  - apply runs_ret. split; [by rewrite <- Hb|]. intros Hc. destruct (Hcalm Hc) as [Hc1 Hr]. split; [by rewrite He2|]. exists 0.
    assert (out = []) as -> by (destruct out; [done|rewrite zlen_cons in Hz; pose proof (zlen_nonneg out); lia]).
    split_and!; [cbn [chain]; by rewrite Hap, Hr|by rewrite Z.add_0_r|]. cbn. lia.
  - destruct (mp_count_ok out Hmpack) as (m & Hm & Hmi). apply runs_bind. eapply runs_deref; [exact Hm|]. apply runs_bind.
    eapply runs_weaken; [apply IH; [done|by rewrite <- Hb]|]. intros [[[[w d] t] fs'] cx3] s3 [Hl3 Hs3]. apply runs_ret. split; [done|].
    intros Hc. destruct (Hcalm Hc) as [Hc1 Hr]. rewrite He2 in Hs3. destruct (Hs3 Hc1) as (Hc3 & n' & Hn & Ht & Hnet). split; [done|]. exists n'. split_and!; [|done|].
    + cbn [chain]. rewrite Hap, Hr. destruct out as [|x out]; [done|]. by rewrite Hm.
    + cbn [net foldr set_f_metrics f_metrics]. fold (net fs') (net fs). rewrite net_change. cbn. lia.
Qed.

Lemma filter_do_ok ic data tag fs cx s : cr_total_records ic = i32 (cr_total_records ic) →
  runs (flb_filter_do ic data tag fs cx) s (λ '(work, out, ic', fs', cx') s', hp_live s' ≡ₚ work_blocks work ++ hp_live s ∧
    (calm (hp_env s) → ∃ n', chain replaces fs tag data (cr_added_records ic) cx = (out, n', cx') ∧
       cr_total_records ic' = i32 (cr_total_records ic - cr_added_records ic + n') ∧ net fs' = net fs + (n' - cr_added_records ic))).
Proof.
  intros Hi. unfold flb_filter_do. apply runs_bind, runs_alloc.
  - intros s' Hl Hc. apply runs_ret. split; [by rewrite Hl|done].
  - intros a s1 Hl1 Hc1. apply runs_bind. set (pre := i32 (cr_total_records ic - cr_added_records ic)).
    assert (Hadd : ∀ k, i32 (pre + k) = i32 (cr_total_records ic - cr_added_records ic + k)) by (intros k; unfold pre, i32; Z.div_mod_to_equations; lia).
    eapply runs_weaken; [apply (filter_loop_ok fs tag (zlen data) pre (hp_live s1))|].
    + unfold pre, i32. Z.div_mod_to_equations. lia.
    + rewrite Hadd, Hi at 1. f_equal. lia.
    + done.
    + intros [[[[work out] total] fs'] cx'] s2 [Hl2 Hs2]. apply runs_bind. eapply (runs_free a (work_blocks work ++ hp_live s)); [rewrite Hl2, Hl1; solve_Permutation|].
      intros s3 Hl3 He3. apply runs_ret. split; [done|]. intros Hc. destruct (Hs2 (Hc1 Hc)) as (_ & n' & Hn & Ht & Hnet). exists n'. split_and!; [done|by rewrite <- Hadd|done].
Qed.

(** What filtering and writing come to: nothing but the chunk and the counters changes in memory, and without failures
    the filters' output is written and counted. *)
Definition filtered (event_type n_records : Z) (ic : chunk_records) (buf tag : list Z) (fs : list flb_filter_instance)
    (cio_write : list Z → bool) (cx : contexts) (s : heap) (r : Z * option (list Z) * chunk_records * list flb_filter_instance * contexts)
    (s' : heap) : Prop :=
  let '(ret, written, ic', fs', cx') := r in
  hp_live s' ≡ₚ hp_live s ∧
  (calm (hp_env s) →
    let '(out, n', after) := if event_type =? FLB_INPUT_LOGS then chain replaces fs tag buf (i32 n_records) cx else (buf, i32 n_records, cx) in
    written = (match out with [] => None | _ => Some out end) ∧
    ret = (match written with Some w => if cio_write w then 0 else -1 | None => 0 end) ∧
    cr_total_records ic' = (if ret =? 0 then i32 (cr_total_records ic + n') else cr_total_records ic) ∧
    net fs' = net fs + (n' - i32 n_records) ∧ cx' = after).

Lemma finish_ok event_type n_records ic buf tag fs cio_write cx s work out ic1 fs1 cx1 s1 : hp_live s1 ≡ₚ work_blocks work ++ hp_live s →
  (calm (hp_env s) → ∃ n', (if event_type =? FLB_INPUT_LOGS then chain replaces fs tag buf (i32 n_records) cx else (buf, i32 n_records, cx)) = (out, n', cx1) ∧
     cr_total_records ic1 = i32 (cr_total_records ic + n') ∧ net fs1 = net fs + (n' - i32 n_records)) →
  let ret := if (0 <? zlen out) && negb (cio_write out) then -1 else 0 in
  runs (free_work work ≫= λ _, mret (ret, (if 0 <? zlen out then Some out else None),
    (if negb (ret =? 0) then mk_counts (cr_total_records ic) 0 else ic1), fs1, cx1)) s1
    (filtered event_type n_records ic buf tag fs cio_write cx s).
Proof.
  intros Hl Hres ret. apply runs_bind. eapply free_work_ok; [exact Hl|]. intros s2 Hl2 _. apply runs_ret. split; [done|].
  intros Hc. destruct (Hres Hc) as (n' & -> & Ht & Hnet). assert (Hw : (0 <? zlen out) = match out with [] => false | _ => true end).
  { destruct out as [|x l]; [done|]. rewrite zlen_cons. pose proof (zlen_nonneg l). destruct (Z.ltb_spec 0 (zlen l + 1)); [done|lia]. }
  unfold ret. rewrite Hw. destruct out as [|x l]; cbn [andb]; [by split_and!|]. destruct (cio_write (x :: l)); by split_and!.
Qed.

(** C36. What is written is what the filters leave.  While no allocation fails - the write may - logs go through the
    active filters that match their tag, in order, each working on what the last one left and with the contexts that the
    calls before have left, up to one that leaves nothing; if something is left it is written, and the total of the
    chunk grows by exactly its records, or not at all when the write fails, while the counters of the filters account for
    every record added and dropped on the way.  Whatever fails, every intermediate buffer is freed, once.  (Without memory
    for the tag nothing is written but the records are counted: [unwritten_records_counted].) *)
Theorem filtered_exact event_type n_records ic buf tag fs cio_write cx s : cr_total_records ic = i32 (cr_total_records ic) →
  runs (append_filtered event_type n_records ic buf tag fs cio_write cx) s (filtered event_type n_records ic buf tag fs cio_write cx s).
Proof.
  intros Hi. unfold append_filtered. apply runs_bind. destruct (Z.eqb_spec event_type FLB_INPUT_LOGS) as [He|He].
  - eapply runs_weaken; [apply filter_do_ok; cbn [cr_total_records]; unfold i32; Z.div_mod_to_equations; lia|].
    intros [[[[work out] ic1] fs1] cx1] s1 [Hl Hres]. apply finish_ok; [done|]. intros Hc. destruct (Hres Hc) as (n' & Hch & Ht & Hnet). cbn in *.
    exists n'. rewrite He, Z.eqb_refl. split_and!; [done| |done]. rewrite Ht. unfold i32. Z.div_mod_to_equations. lia.
  - apply runs_ret. apply finish_ok; [done|]. intros _. exists (i32 n_records). rewrite (proj2 (Z.eqb_neq _ _) He).
    split_and!; [done| |lia]. cbn. unfold i32. Z.div_mod_to_equations. lia.
Qed.
End laws.
End filters.

(** ** Examples

    A byte is a record; the filters drop the first record, repeat it, leave everything, and drop everything, and count
    their calls. *)
Definition ex_discard (b : list Z) : option (list Z) := match b with [] => None | _ :: l => Some l end.
Lemma ex_discard_ok : mpack_ok ex_discard.
Proof. intros [|x l] rest; cbn; [done|]. intros [= ->]. lia. Qed.
Definition ex_replaces (i : nat) (data _ : list Z) (calls : nat) : option (list Z) * nat :=
  (match i, data with
   | 0%nat, _ :: l => Some l
   | 1%nat, x :: l => Some (x :: x :: l)
   | 3%nat, _ => Some []
   | _, _ => None
   end, S calls).
Definition ex_filter (i : nat) (data tag : list Z) (calls : nat) : M heap (Z * option nat * list Z * nat) :=
  match (ex_replaces i data tag calls).1 with
  | None => mret (FLB_FILTER_NOTOUCH, None, [], S calls)
  | Some [] => mret (FLB_FILTER_MODIFIED, None, [], S calls)
  | Some out =>
      p ← alloc;
      mret (match p with Some a => (FLB_FILTER_MODIFIED, Some a, out) | None => (FLB_FILTER_NOTOUCH, None, []) end, S calls)
  end.
Lemma ex_filter_ok : filter_ok ex_filter ex_replaces.
Proof.
  intros i data tag calls s. unfold ex_filter. destruct (ex_replaces i data tag calls) as [[[|x out]|] calls'] eqn:Hr; injection Hr as Hr <-; cbn [fst].
  1: by apply runs_ret.
  2: { apply runs_ret. change (FLB_FILTER_NOTOUCH =? FLB_FILTER_MODIFIED) with false. split; [done|]. intros Hc. by split. }
  apply runs_bind, runs_alloc.
  - intros s' Hl Hc. apply runs_ret. change (FLB_FILTER_NOTOUCH =? FLB_FILTER_MODIFIED) with false. split; [by rewrite Hl|done].
  - intros a s' Hl Hc. apply runs_ret. rewrite Z.eqb_refl. split; [split; [done|by rewrite Hl]|]. intros Hc'. split; [auto|done].
Qed.
Definition ex_instance (i : nat) (properties : list (list Z * list Z)) : flb_filter_instance :=
  mk_filter i (Some [STAR]) None properties (mk_metrics 0 0 0 0 0).
Definition ex_instances : list flb_filter_instance :=
  [ex_instance 0 []; ex_instance 2 []; ex_instance 3 [(map Z.of_nat [65; 67; 84; 73; 86; 69]%nat, [48])]; ex_instance 1 []; ex_instance 1 []; ex_instance 0 []].
Definition ex_empty_heap (script : list bool) : heap := mk_heap (mk_env script [] [] 0 1 []) [].

(** Three records: the first is dropped, the second repeated twice and dropped once; then three are written. *)
Lemma filtered_exact_witness : ∃ ic' fs' s',
  append_filtered (λ _ _, 0) ex_discard ex_filter FLB_INPUT_LOGS 3 (mk_counts 10 0) [7; 8; 9] [116] ex_instances (λ _, true) 0%nat (ex_empty_heap []) =
    Some (0, Some [8; 8; 9], ic', fs', 5%nat, s') ∧ cr_total_records ic' = 13 ∧ hp_live s' = [] ∧ net fs' = 0.
Proof.
  destruct (filtered_exact (λ _ _, 0) ex_discard ex_filter ex_replaces ex_filter_ok ex_discard_ok
    FLB_INPUT_LOGS 3 (mk_counts 10 0) [7; 8; 9] [116] ex_instances (λ _, true) 0%nat (ex_empty_heap []) eq_refl)
    as ([[[[ret written] ic'] fs'] calls] & s' & Hr & Hl & Hc).
  specialize (Hc (conj eq_refl eq_refl)). vm_compute in Hc. destruct Hc as (-> & -> & Ht & Hn & ->). exists ic', fs', s'.
  split; [exact Hr|]. split; [exact Ht|]. split; [by apply Permutation_nil, symmetry|exact Hn].
Defined.

(** Without memory for the tag the filters are not run and nothing is written, but the records are counted. *)
Lemma unwritten_records_counted {contexts} onig discard cb n ic buf tag fs write (cx : contexts) s script : e_alloc (hp_env s) = false :: script →
  ∃ s', append_filtered onig discard cb FLB_INPUT_LOGS n ic buf tag fs write cx s =
    Some (0, None, mk_counts (i32 (cr_total_records ic + n)) (i32 n), fs, cx, s').
Proof.
  intros He. unfold append_filtered, flb_filter_do, alloc, malloc. cbn. unfold mbind, M_bind. cbn. rewrite He. eexists. reflexivity.
Qed.

(** Two filters that drop one record of one byte each: the second is said to have dropped two bytes. *)
Example dropped_bytes_twice : ∃ r s',
  append_filtered (λ _ _, 0) ex_discard ex_filter FLB_INPUT_LOGS 3 (mk_counts 0 0) [7; 8; 9] [116] [ex_instance 0 []; ex_instance 0 []] (λ _, true)
    0%nat (ex_empty_heap []) = Some (r, s') ∧ fm_dropped_bytes <$> (f_metrics <$> r.1.2) = [1; 2] ∧ fm_dropped <$> (f_metrics <$> r.1.2) = [1; 1].
Proof. do 2 eexists. split; [vm_compute; reflexivity|]. split; reflexivity. Qed.
