(* ===== verification/Backpressure.v ===== *)
(** * Pausing and resuming inputs ([src/flb_input.c], [src/flb_input_chunk.c])

    An input that has buffered as much as it may is paused: its plugin is told to stop and what it still
    appends is refused; it is resumed when a task of it is freed and it is below its limits again.  Memory
    is limited per input; files are limited by the chunks of all inputs that are up.  What the storage
    layer holds after a call is an argument. *)
From S2P Require Import Prelude CStd Env Heap Router Delivery ChunkSpace.

(** ** Data *)

Definition FLB_INPUT_RUNNING : Z := 1.
Definition FLB_INPUT_PAUSED : Z := 0.

(** The calls of a plugin; those of an input with a thread of its own are messages to it, which arrive in order. *)
Inductive callback := cb_pause | cb_resume.

(** [p_pause], [p_resume], [context]: whether the plugin has the callbacks and the instance its context.  [chunks_up]
    are the sizes of the chunks of its stream that are up ([stream->chunks_up]), [calls] the calls so far, the
    last one first. *)
Record input_limits := mk_limits {
  li_mem_buf_limit : Z;
  li_mem_chunks_size : Z;
  li_mem_buf_status : Z;
  li_storage_buf_status : Z;
  li_storage_type : Z;
  li_storage_pause_on_chunks_overlimit : bool;
  li_p_pause : bool;
  li_p_resume : bool;
  li_context : bool;
  li_chunks_up : list Z;
  li_calls : list callback
}.
Definition set_li_mem (size status : Z) (i : input_limits) : input_limits :=
  mk_limits (li_mem_buf_limit i) size status (li_storage_buf_status i) (li_storage_type i) (li_storage_pause_on_chunks_overlimit i)
    (li_p_pause i) (li_p_resume i) (li_context i) (li_chunks_up i) (li_calls i).
Definition set_li_storage_buf_status (status : Z) (i : input_limits) : input_limits :=
  mk_limits (li_mem_buf_limit i) (li_mem_chunks_size i) (li_mem_buf_status i) status (li_storage_type i) (li_storage_pause_on_chunks_overlimit i)
    (li_p_pause i) (li_p_resume i) (li_context i) (li_chunks_up i) (li_calls i).
Definition set_li_chunks_up (up : list Z) (i : input_limits) : input_limits :=
  mk_limits (li_mem_buf_limit i) (li_mem_chunks_size i) (li_mem_buf_status i) (li_storage_buf_status i) (li_storage_type i)
    (li_storage_pause_on_chunks_overlimit i) (li_p_pause i) (li_p_resume i) (li_context i) up (li_calls i).
Definition add_li_call (c : callback) (i : input_limits) : input_limits :=
  mk_limits (li_mem_buf_limit i) (li_mem_chunks_size i) (li_mem_buf_status i) (li_storage_buf_status i) (li_storage_type i)
    (li_storage_pause_on_chunks_overlimit i) (li_p_pause i) (li_p_resume i) (li_context i) (li_chunks_up i) (c :: li_calls i).

(** All inputs and what they share *)
Record agent := mk_agent {
  ag_inputs : list input_limits;
  ag_max_chunks_up : Z;
  ag_is_running : bool;
  ag_is_ingestion_active : bool
}.
Definition set_ag_inputs (l : list input_limits) (a : agent) : agent :=
  mk_agent l (ag_max_chunks_up a) (ag_is_running a) (ag_is_ingestion_active a).
(** [cio->total_chunks_up] *)
Definition total_chunks_up (a : agent) : Z := foldr (λ i n, zlen (li_chunks_up i) + n) 0 (ag_inputs a).

(** ** Pausing and resuming *)

Definition flb_input_buf_paused (i : input_limits) : bool :=
  (li_mem_buf_status i =? FLB_INPUT_PAUSED) || (li_storage_buf_status i =? FLB_INPUT_PAUSED).
Definition flb_input_pause (i : input_limits) : Z * input_limits :=
  if flb_input_buf_paused i then (-1, i)
  else (0, if li_p_pause i && li_context i then add_li_call cb_pause i else i).
Definition flb_input_resume (i : input_limits) : input_limits :=
  if li_p_resume i then add_li_call cb_resume i else i.
(** All inputs, and how many were paused *)
Definition flb_input_pause_all (l : list input_limits) : Z * list input_limits :=
  (zlen (List.filter (λ i, (flb_input_pause i).1 =? 0) l), (λ i, (flb_input_pause i).2) <$> l).

(** ** Limits *)

Definition cio_stream_size_chunks_up (up : list Z) : Z := foldr (λ b n, if b <=? 0 then n else b + n) 0 up.
Definition flb_input_chunk_total_size (i : input_limits) : Z := cio_stream_size_chunks_up (li_chunks_up i).

Definition flb_input_chunk_is_mem_overlimit (i : input_limits) : bool :=
  if li_mem_buf_limit i <=? 0 then false else li_mem_buf_limit i <=? li_mem_chunks_size i.
Definition flb_input_chunk_is_storage_overlimit (a : agent) (i : input_limits) : bool :=
  (li_storage_type i =? FLB_STORAGE_FS) && li_storage_pause_on_chunks_overlimit i && (ag_max_chunks_up a <=? total_chunks_up a).

Definition flb_input_chunk_set_limits (a : agent) (i : input_limits) : Z * input_limits :=
  let total := flb_input_chunk_total_size i in
  let i := set_li_mem total (li_mem_buf_status i) i in
  let may_resume := ag_is_running a && ag_is_ingestion_active a in
  let i :=
    if negb (flb_input_chunk_is_mem_overlimit i) && may_resume && (li_mem_buf_status i =? FLB_INPUT_PAUSED)
    then flb_input_resume (set_li_mem total FLB_INPUT_RUNNING i) else i in
  let i :=
    if negb (flb_input_chunk_is_storage_overlimit a i) && may_resume && (li_storage_buf_status i =? FLB_INPUT_PAUSED)
    then flb_input_resume (set_li_storage_buf_status FLB_INPUT_RUNNING i) else i in
  (total, i).

Definition flb_input_chunk_protect (a : agent) (i : input_limits) : bool * input_limits :=
  if flb_input_chunk_is_storage_overlimit a i then
    (true, set_li_storage_buf_status FLB_INPUT_PAUSED (flb_input_pause i).2)
  else if li_storage_type i =? FLB_STORAGE_FS then (false, i)
  else if flb_input_chunk_is_mem_overlimit i then
    if li_storage_type i =? FLB_STORAGE_MEMRB then (false, i)
    else let i := (flb_input_pause i).2 in (true, set_li_mem (li_mem_chunks_size i) FLB_INPUT_PAUSED i)
  else (false, i).

(** [flb_input_chunk_set_up_down]: the chunk is up or not, and what is up without it *)
Definition flb_input_chunk_set_up_down (is_up : bool) (without : list Z) (i : input_limits) : bool * input_limits :=
  let i := set_li_mem (flb_input_chunk_total_size i) (li_mem_buf_status i) i in
  if flb_input_chunk_is_mem_overlimit i && is_up then
    let i := set_li_chunks_up without i in
    (false, set_li_mem (flb_input_chunk_total_size i) (li_mem_buf_status i) i)
  else (true, i).

(** ** What happens *)

(** What the storage layer and the rest of an append answer: what the ring buffer gave up - whether it was a task, and
    what is up then - and whether that is enough; how the data was written; and what is up when a chunk that is full
    was put down, if it was. *)
Inductive write_answer :=
| not_written
| removed (up : list Z)     (* nothing is left of the data, and the chunk was empty *)
| unroutable (up : list Z)  (* the chunk is not kept *)
| written (up : list Z).
Record append_answer := mk_answer {
  an_released : list (bool * list Z); an_room : bool; an_write : write_answer; an_down : option (list Z)
}.

Section append.
(** What the agent is when the input is changed *)
Variable put : input_limits → agent.

Definition after_limits (i : input_limits) : input_limits := (flb_input_chunk_set_limits (put i) i).2.
Definition release (i : input_limits) (r : bool * list Z) : input_limits :=
  let i := set_li_chunks_up r.2 i in if r.1 then after_limits i else i.

(** The part of [input_chunk_append_raw] that limits are about *)
Definition append (an : append_answer) (i : input_limits) : Z * input_limits :=
  let memrb := (li_storage_type i =? FLB_STORAGE_MEMRB) && flb_input_chunk_is_mem_overlimit i in
  let i := if memrb then foldl release i (an_released an) else i in
  if memrb && negb (an_room an) then (-1, i)
  else if flb_input_buf_paused i then (-1, i)
  else
    match an_write an with
    | not_written => (-1, i)
    | removed up => (0, after_limits (set_li_chunks_up up i))
    | unroutable up => (0, set_li_chunks_up up i)
    | written up =>
        let i := after_limits (set_li_chunks_up up i) in
        let i :=
          match an_down an with
          | Some down => if flb_input_chunk_is_mem_overlimit i && (li_storage_type i =? FLB_STORAGE_FS) then set_li_chunks_up down i else i
          | None => i
          end in
        (0, (flb_input_chunk_protect (put i) i).2)
    end.
End append.

(** An append, the end of a task whose chunk is gone (what is up then), a chunk that the engine puts up or down,
    a direct pause or resume of an input - by the emitter of a filter, for the inputs that feed it, and by
    [flb_input_test_pause_resume] - and the end of ingestion and of the engine *)
Inductive event :=
| EvAppend (n : nat) (an : append_answer)
| EvTaskDestroyed (n : nat) (up : list Z)
| EvUpDown (n : nat) (is_up : bool) (without : list Z)
| EvUp (n : nat) (up : list Z)
| EvPause (n : nat)
| EvResume (n : nat)
| EvStopIngestion
| EvShutdown.

Definition put_input (a : agent) (n : nat) (i : input_limits) : agent := set_ag_inputs (<[n := i]> (ag_inputs a)) a.
Definition step (a : agent) (e : event) : agent :=
  match e with
  | EvAppend n an => match ag_inputs a !! n with Some i => put_input a n (append (put_input a n) an i).2 | None => a end
  | EvTaskDestroyed n up =>
      match ag_inputs a !! n with
      | Some i => let i := set_li_chunks_up up i in put_input a n (after_limits (put_input a n) i)
      | None => a
      end
  | EvUpDown n is_up without =>
      match ag_inputs a !! n with Some i => put_input a n (flb_input_chunk_set_up_down is_up without i).2 | None => a end
  | EvUp n up => match ag_inputs a !! n with Some i => put_input a n (set_li_chunks_up up i) | None => a end
  | EvPause n => match ag_inputs a !! n with Some i => put_input a n (flb_input_pause i).2 | None => a end
  | EvResume n => match ag_inputs a !! n with Some i => put_input a n (flb_input_resume i) | None => a end
  | EvStopIngestion => mk_agent (flb_input_pause_all (ag_inputs a)).2 (ag_max_chunks_up a) (ag_is_running a) false
  | EvShutdown => mk_agent (flb_input_pause_all (ag_inputs a)).2 (ag_max_chunks_up a) false false
  end.
Definition run (a : agent) (es : list event) : agent := foldl step a es.

(** What an event does to one input *)
Definition on_input (a : agent) (e : event) (n : nat) (i : input_limits) : input_limits :=
  match e with
  | EvAppend m an => if decide (m = n) then (append (put_input a n) an i).2 else i
  | EvTaskDestroyed m up => if decide (m = n) then after_limits (put_input a n) (set_li_chunks_up up i) else i
  | EvUpDown m is_up without => if decide (m = n) then (flb_input_chunk_set_up_down is_up without i).2 else i
  | EvUp m up => if decide (m = n) then set_li_chunks_up up i else i
  | EvPause m => if decide (m = n) then (flb_input_pause i).2 else i
  | EvResume m => if decide (m = n) then flb_input_resume i else i
  | EvStopIngestion | EvShutdown => (flb_input_pause i).2
  end.
Lemma step_at a e n : ag_inputs (step a e) !! n = on_input a e n <$> ag_inputs a !! n.
Proof.
  assert (Hput : ∀ m (f : input_limits → input_limits),
    ag_inputs (match ag_inputs a !! m with Some j => put_input a m (f j) | None => a end) !! n =
    (λ i, if decide (m = n) then f i else i) <$> ag_inputs a !! n).
  { intros m f. destruct (decide (m = n)) as [->|Hm].
    - destruct (ag_inputs a !! n) as [i|] eqn:Hn; [|by rewrite Hn]. apply list_lookup_insert_eq. by eapply lookup_lt_Some.
    - transitivity (ag_inputs a !! n); [|by destruct (_ !! n)]. destruct (ag_inputs a !! m); [by apply list_lookup_insert_ne|done]. }
  destruct e as [m an|m up|m is_up without|m up|m|m| |]; cbn [step].
  - rewrite (Hput m (λ j, (append (put_input a m) an j).2)). destruct (_ !! n); [|done]. cbn. by destruct (decide (m = n)) as [->|].
  - rewrite (Hput m (λ j, after_limits (put_input a m) (set_li_chunks_up up j))). destruct (_ !! n); [|done]. cbn. by destruct (decide (m = n)) as [->|].
  - apply (Hput m (λ j, (flb_input_chunk_set_up_down is_up without j).2)).
  - apply (Hput m (λ j, set_li_chunks_up up j)).
  - apply (Hput m (λ j, (flb_input_pause j).2)).
  - apply (Hput m flb_input_resume).
  - apply list_lookup_fmap.
  - apply list_lookup_fmap.
Qed.

(** ** The state of an input and of its plugin *)

(** The calls of a plugin that is paused or not: pauses and resumes in turn, the first a pause *)
Fixpoint alternating (paused : bool) (l : list callback) : Prop :=
  match l with
  | [] => paused = false
  | cb_pause :: l' => paused = true ∧ alternating false l'
  | cb_resume :: l' => paused = false ∧ alternating true l'
  end.
Definition active (a : agent) : bool := ag_is_running a && ag_is_ingestion_active a.

Section invariant.
(** May the input be paused or resumed directly? *)
Variable direct : bool.

(** Unless the input is paused or resumed directly: while the agent takes data in, its plugin has been told what the status
    of the input is; afterwards it is paused. *)
Definition told (act : bool) (i : input_limits) : Prop := direct = false → li_p_pause i = true → li_p_resume i = true → li_context i = true →
  if act then alternating (flb_input_buf_paused i) (li_calls i) else head (li_calls i) = Some cb_pause.
(** Statuses are what they can be: only files pause on chunks, only plain memory on bytes. *)
Record limits_ok (i : input_limits) : Prop := {
  lo_mem : li_mem_buf_status i = FLB_INPUT_RUNNING ∨ li_mem_buf_status i = FLB_INPUT_PAUSED ∧ li_storage_type i = FLB_STORAGE_MEM;
  lo_storage : li_storage_buf_status i = FLB_INPUT_RUNNING ∨ li_storage_buf_status i = FLB_INPUT_PAUSED ∧ li_storage_type i = FLB_STORAGE_FS;
  lo_type : li_storage_type i = FLB_STORAGE_FS ∨ li_storage_type i = FLB_STORAGE_MEM ∨ li_storage_type i = FLB_STORAGE_MEMRB
}.
Definition input_ok (act : bool) (i : input_limits) : Prop := limits_ok i ∧ told act i.

Ltac limits := unfold flb_input_buf_paused, flb_input_pause, flb_input_resume, FLB_INPUT_PAUSED, FLB_INPUT_RUNNING, FLB_STORAGE_FS, FLB_STORAGE_MEM, FLB_STORAGE_MEMRB in *.

Lemma up_ok act up i : input_ok act i → input_ok act (set_li_chunks_up up i).
Proof. intros [[Hm Hs Ht] Hc]. split; [by constructor|exact Hc]. Qed.
Lemma mem_size_ok act n i : input_ok act i → input_ok act (set_li_mem n (li_mem_buf_status i) i).
Proof. intros [[Hm Hs Ht] Hc]. split; [by constructor|exact Hc]. Qed.

(** The call of a pause when the status changes to paused next *)
Lemma pause_told act i : input_ok act i → direct = false → li_p_pause i = true → li_p_resume i = true → li_context i = true →
  if act then alternating true (li_calls (flb_input_pause i).2) else head (li_calls (flb_input_pause i).2) = Some cb_pause.
Proof.
  intros [_ Ht] Hd Hp Hr Hx. specialize (Ht Hd Hp Hr Hx). unfold flb_input_pause. destruct (flb_input_buf_paused i) eqn:Hpaused; [by destruct act|].
  rewrite Hp, Hx. cbn. by destruct act.
Qed.
Lemma pause_keeps i : let i' := (flb_input_pause i).2 in li_mem_buf_status i' = li_mem_buf_status i ∧ li_storage_buf_status i' = li_storage_buf_status i ∧
  li_storage_type i' = li_storage_type i ∧ li_p_pause i' = li_p_pause i ∧ li_p_resume i' = li_p_resume i ∧ li_context i' = li_context i ∧
  li_chunks_up i' = li_chunks_up i ∧ li_mem_chunks_size i' = li_mem_chunks_size i ∧ li_mem_buf_limit i' = li_mem_buf_limit i.
Proof. unfold flb_input_pause. destruct (flb_input_buf_paused i); [done|]. by destruct (li_p_pause i && li_context i). Qed.

Lemma protect_ok a i act : input_ok act i → input_ok act (flb_input_chunk_protect a i).2.
Proof.
  intros Hi. pose proof Hi as [[Hm Hs Ht] Hc]. destruct (pause_keeps i) as (Em & Es & Et & Ep & Er & Ex & _). unfold flb_input_chunk_protect.
  destruct (flb_input_chunk_is_storage_overlimit a i) eqn:Hov.
  - assert (Hfs : li_storage_type i = FLB_STORAGE_FS) by (unfold flb_input_chunk_is_storage_overlimit in Hov; lia). split.
    + constructor; cbn; rewrite ?Em, ?Et; [done|by right|done].
    + intros Hd Hp Hr Hx. cbn in Hp, Hr, Hx. rewrite Ep, Er, Ex in *. pose proof (pause_told act i Hi Hd Hp Hr Hx) as Hpt.
      cbn [snd li_calls set_li_storage_buf_status]. destruct act; [|done]. unfold flb_input_buf_paused. cbn. by rewrite orb_true_r.
  - destruct (Z.eqb_spec (li_storage_type i) FLB_STORAGE_FS) as [Hfs|Hfs]; [done|]. destruct (flb_input_chunk_is_mem_overlimit i); [|done].
    destruct (Z.eqb_spec (li_storage_type i) FLB_STORAGE_MEMRB) as [Hrb|Hrb]; [done|]. split.
    + constructor; cbn; rewrite ?Es, ?Et; [right; split; [done|tauto]|done|done].
    + intros Hd Hp Hr Hx. cbn in Hp, Hr, Hx. rewrite Ep, Er, Ex in *. pose proof (pause_told act i Hi Hd Hp Hr Hx) as Hpt.
      cbn [snd li_calls set_li_mem]. by destruct act.
Qed.

(** Only one of the two statuses can be paused, so an input is resumed once. *)
Lemma one_paused i : limits_ok i → li_mem_buf_status i = FLB_INPUT_PAUSED → li_storage_buf_status i = FLB_INPUT_RUNNING.
Proof. intros [[?|[? ?]] [?|[? ?]] _] ?; limits; lia. Qed.
Lemma resume_ok i i' : input_ok true i → flb_input_buf_paused i = true → li_calls i' = li_calls i →
  li_mem_buf_status i' = FLB_INPUT_RUNNING → li_storage_buf_status i' = FLB_INPUT_RUNNING → li_storage_type i' = li_storage_type i →
  li_p_pause i' = li_p_pause i → li_p_resume i' = li_p_resume i → li_context i' = li_context i → input_ok true (flb_input_resume i').
Proof.
  intros [[_ _ Hty] Ht] Hp Ec Em Es Et Ep Er Ex. unfold flb_input_resume.
  assert (Hok : ∀ c, limits_ok (add_li_call c i')) by (intros c; constructor; cbn; [by left|by left|by rewrite Et]).
  assert (Hi' : limits_ok i') by (constructor; [by left|by left|by rewrite Et]).
  destruct (li_p_resume i') eqn:Hr; (split; [done|]); intros Hd Hp' Hr' Hx'.
  - cbn in Hp', Hr', Hx'. rewrite Ep in Hp'. rewrite Ex in Hx'. specialize (Ht Hd Hp' (eq_sym Er) Hx'). rewrite Hp in Ht.
    assert (Hpaused : flb_input_buf_paused (add_li_call cb_resume i') = false) by (unfold flb_input_buf_paused; cbn; by rewrite Em, Es).
    rewrite Hpaused. cbn [add_li_call li_calls alternating]. by rewrite Ec.
  - congruence.
Qed.

Lemma set_limits_ok a i : input_ok (active a) i → input_ok (active a) (flb_input_chunk_set_limits a i).2.
Proof.
  intros Hi. apply (mem_size_ok _ (flb_input_chunk_total_size i)) in Hi. unfold flb_input_chunk_set_limits. cbn zeta.
  set (total := flb_input_chunk_total_size i) in *. set (i0 := set_li_mem total _ i) in *.
  change (ag_is_running a && ag_is_ingestion_active a) with (active a). cbn [snd].
  destruct (negb (flb_input_chunk_is_mem_overlimit i0) && active a && (li_mem_buf_status i0 =? FLB_INPUT_PAUSED)) eqn:Hmem.
  - apply andb_prop in Hmem as [[_ Ha]%andb_prop Hp%Z.eqb_eq]. rewrite Ha in *. pose proof (one_paused i0 (proj1 Hi) Hp) as Hs.
    assert (Hok : input_ok true (flb_input_resume (set_li_mem total FLB_INPUT_RUNNING i0))).
    { apply (resume_ok i0); try done. unfold flb_input_buf_paused. by rewrite Hp. }
    assert (Hrun : li_storage_buf_status (flb_input_resume (set_li_mem total FLB_INPUT_RUNNING i0)) = FLB_INPUT_RUNNING).
    { unfold flb_input_resume. by destruct (li_p_resume _). }
    rewrite Hrun. change (FLB_INPUT_RUNNING =? FLB_INPUT_PAUSED) with false. by rewrite andb_false_r.
  - clear Hmem. destruct (negb (flb_input_chunk_is_storage_overlimit a i0) && active a && (li_storage_buf_status i0 =? FLB_INPUT_PAUSED)) eqn:Hst; [|done].
    apply andb_prop in Hst as [[_ Ha]%andb_prop Hp%Z.eqb_eq]. rewrite Ha in *.
    apply (resume_ok i0); try done; [unfold flb_input_buf_paused; by rewrite Hp, orb_true_r|].
    pose proof Hi as [Hok _]. cbn [set_li_storage_buf_status li_mem_buf_status]. destruct (lo_mem _ Hok) as [?|[Hm _]]; [done|].
    pose proof (one_paused i0 Hok Hm). limits. congruence.
Qed.

Section append_input_ok.
Variables (put : input_limits → agent) (act : bool).
Hypothesis Hput : ∀ i, active (put i) = act.

Lemma after_limits_ok i : input_ok act i → input_ok act (after_limits put i).
Proof. intros Hi. unfold after_limits. rewrite <- (Hput i) in *. by apply set_limits_ok. Qed.
Lemma release_ok l i : input_ok act i → input_ok act (foldl (release put) i l).
Proof.
  revert i. induction l as [|[t up] l IH]; intros i Hi; [done|]. cbn [foldl]. apply IH. unfold release. cbn [fst snd].
  destruct t; [apply after_limits_ok|]; by apply up_ok.
Qed.
Lemma append_input_ok an i : input_ok act i → input_ok act (append put an i).2.
Proof.
  intros Hi. unfold append. set (i1 := if _ : bool then foldl (release put) i (an_released an) else i).
  assert (Hi1 : input_ok act i1) by (unfold i1; destruct (_ && _); [by apply release_ok|done]). clearbody i1.
  destruct (_ && negb _); [done|]. destruct (flb_input_buf_paused i1); [done|]. destruct (an_write an) as [|up|up|up]; cbn [snd]; [done|by apply after_limits_ok, up_ok|by apply up_ok|].
  apply protect_ok. assert (Hi2 : input_ok act (after_limits put (set_li_chunks_up up i1))) by by apply after_limits_ok, up_ok.
  destruct (an_down an); [|done]. destruct (_ && _); [by apply up_ok|done].
Qed.
End append_input_ok.

Lemma paused_ok act i : input_ok act i → input_ok false (flb_input_pause i).2.
Proof.
  intros Hi. pose proof Hi as [[Hm Hs Hty] Ht]. destruct (pause_keeps i) as (Em & Es & Et & Ep & Er & Ex & _). split.
  - constructor; by rewrite ?Em, ?Es, ?Et.
  - intros Hd Hp Hr Hx. rewrite Ep, Er, Ex in *. pose proof (pause_told act i Hi Hd Hp Hr Hx) as Hpt. destruct act; [|done].
    destruct (li_calls _) as [|[] l]; cbn in *; [done|done|]. by destruct Hpt.
Qed.

Lemma paused_limits i : limits_ok i → limits_ok (flb_input_pause i).2.
Proof. intros [Hm Hs Ht]. destruct (pause_keeps i) as (Em & Es & Et & _). constructor; by rewrite ?Em, ?Es, ?Et. Qed.
Lemma resumed_limits i : limits_ok i → limits_ok (flb_input_resume i).
Proof. intros [Hm Hs Ht]. unfold flb_input_resume. destruct (li_p_resume i); by constructor. Qed.

(** The event does not pause or resume input [n] directly. *)
Definition indirect (n : nat) (e : event) : Prop := e ≠ EvPause n ∧ e ≠ EvResume n.

Lemma on_input_ok a e n i : (direct = false → indirect n e) → input_ok (active a) i → input_ok (active (step a e)) (on_input a e n i).
Proof.
  intros He Hi.
  assert (Hact : ∀ m f, active (match ag_inputs a !! m with Some j => put_input a m (f j) | None => a end) = active a) by (intros m f; by destruct (_ !! m)).
  destruct e as [m an|m up|m is_up without|m up|m|m| |]; cbn [step on_input].
  - rewrite (Hact m (λ j, (append (put_input a m) an j).2)). case_decide; [|done]. by apply append_input_ok.
  - rewrite (Hact m (λ j, after_limits (put_input a m) (set_li_chunks_up up j))). case_decide; [|done]. apply after_limits_ok; [done|]. by apply up_ok.
  - rewrite (Hact m (λ j, (flb_input_chunk_set_up_down is_up without j).2)). case_decide; [|done]. unfold flb_input_chunk_set_up_down.
    destruct (_ && _); cbn [snd]; repeat first [apply mem_size_ok|apply up_ok]; done.
  - rewrite (Hact m (λ j, set_li_chunks_up up j)). case_decide; [|done]. by apply up_ok.
  - rewrite (Hact m (λ j, (flb_input_pause j).2)). case_decide as Hm; [|done]. subst m. split; [apply paused_limits, Hi|].
    intros Hd. by destruct (He Hd) as [[] _].
  - rewrite (Hact m flb_input_resume). case_decide as Hm; [|done]. subst m. split; [apply resumed_limits, Hi|].
    intros Hd. by destruct (He Hd) as [_ []].
  - unfold active. cbn. rewrite andb_false_r. by eapply paused_ok.
  - by eapply paused_ok.
Qed.
Lemma run_ok n es : ∀ a i, (direct = false → Forall (indirect n) es) → ag_inputs a !! n = Some i → input_ok (active a) i →
  ∃ i', ag_inputs (run a es) !! n = Some i' ∧ input_ok (active (run a es)) i'.
Proof.
  induction es as [|e es IH]; intros a i Hes Hn Hi; [by exists i|]. apply (IH (step a e) (on_input a e n i)).
  - intros Hd. by apply Hes, Forall_cons in Hd as [_ ?].
  - by rewrite step_at, Hn.
  - apply on_input_ok; [|done]. intros Hd. by apply Hes, Forall_cons in Hd as [? _].
Qed.
End invariant.

(** An agent that starts: nothing is buffered, nothing was called *)
Record starting (a : agent) : Prop := {
  st_active : active a = true;
  st_inputs : Forall (λ i, li_mem_buf_status i = FLB_INPUT_RUNNING ∧ li_storage_buf_status i = FLB_INPUT_RUNNING ∧ li_calls i = [] ∧ li_chunks_up i = [] ∧
    (li_storage_type i = FLB_STORAGE_FS ∨ li_storage_type i = FLB_STORAGE_MEM ∨ li_storage_type i = FLB_STORAGE_MEMRB)) (ag_inputs a)
}.
Lemma starting_ok direct a n i : starting a → ag_inputs a !! n = Some i → input_ok direct (active a) i.
Proof.
  intros [Ha Hi] Hn. eapply Forall_lookup_1 in Hi as (Hm & Hs & Hc & _ & Ht); [|exact Hn]. split; [by constructor; [left|left|]|].
  rewrite Ha. intros _ _ _ _. rewrite Hc. unfold flb_input_buf_paused. by rewrite Hm, Hs.
Qed.
Lemma step_length a e : length (ag_inputs (step a e)) = length (ag_inputs a).
Proof.
  destruct e as [m an|m up|m is_up without|m up|m|m| |]; cbn [step].
  1-6: destruct (ag_inputs a !! m); [apply length_insert|done].
  all: apply length_fmap.
Qed.
Lemma run_length es : ∀ a, length (ag_inputs (run a es)) = length (ag_inputs a).
Proof. induction es as [|e es IH]; intros a; [done|]. rewrite <- (step_length a e). apply IH. Qed.
Lemma started_ok direct a es n i : starting a → (direct = false → Forall (indirect n) es) → ag_inputs (run a es) !! n = Some i →
  input_ok direct (active (run a es)) i.
Proof.
  intros Hst Hes Hn. destruct (lookup_lt_is_Some_2 (ag_inputs a) n) as [i0 Hi0]; [rewrite <- (run_length es a); by eapply lookup_lt_Some|].
  destruct (run_ok direct n es a i0 Hes Hi0 (starting_ok direct a n i0 Hst Hi0)) as (i' & Hn' & Hi'). rewrite Hn in Hn'. by injection Hn' as <-.
Qed.

(** C33. A plugin knows whether its input is paused.  In every run in which the input is paused and resumed for its limits
    and at the end only - other inputs may be paused and resumed directly as well - the calls of its plugin are, while the
    agent takes data in, pauses and resumes in turn, each pause before its resume, and the last one is what the status of
    the input says; once ingestion has stopped or the engine shuts down the last call is a pause, so it is never resumed. *)
Theorem pauses_alternate a es n i : starting a → Forall (indirect n) es → ag_inputs (run a es) !! n = Some i →
  li_p_pause i = true → li_p_resume i = true → li_context i = true →
  if active (run a es) then alternating (flb_input_buf_paused i) (li_calls i) else head (li_calls i) = Some cb_pause.
Proof. intros Hst Hes Hn. by apply (started_ok false a es n i Hst). Qed.

(** ** Memory stays within its limit *)

Abbreviation held := flb_input_chunk_total_size.

(** What the storage layer holds for input [n] grows by appends only, and by at most [k] bytes each. *)
Definition grows (k : Z) (n : nat) (a : agent) (e : event) : Prop :=
  match e with
  | EvAppend m an => m = n → ∀ i, ag_inputs a !! n = Some i →
      match an_write an with
      | not_written => True
      | removed up | unroutable up => cio_stream_size_chunks_up up <= held i
      | written up => cio_stream_size_chunks_up up <= held i + k
      end
  | EvTaskDestroyed m up | EvUp m up | EvUpDown m _ up => m = n → ∀ i, ag_inputs a !! n = Some i → cio_stream_size_chunks_up up <= held i
  | EvPause _ | EvResume _ | EvStopIngestion | EvShutdown => True
  end.
Fixpoint grows_by (k : Z) (n : nat) (a : agent) (es : list event) : Prop :=
  match es with [] => True | e :: es => grows k n a e ∧ grows_by k n (step a e) es end.

(** A memory input with the limit [l] *)
Record within (l k : Z) (i : input_limits) : Prop := {
  wi_type : li_storage_type i = FLB_STORAGE_MEM;
  wi_limit : li_mem_buf_limit i = l;
  wi_below : li_mem_buf_status i = FLB_INPUT_PAUSED ∨ held i < l;
  wi_held : held i <= l - 1 + k
}.

Lemma set_limits_keeps a i : let i' := (flb_input_chunk_set_limits a i).2 in
  li_storage_type i' = li_storage_type i ∧ li_mem_buf_limit i' = li_mem_buf_limit i ∧ li_chunks_up i' = li_chunks_up i ∧ li_mem_chunks_size i' = held i ∧
  (li_mem_buf_status i' = li_mem_buf_status i ∨ li_mem_buf_limit i <= 0 ∨ held i < li_mem_buf_limit i).
Proof.
  unfold flb_input_chunk_set_limits. cbn zeta. set (i0 := set_li_mem (held i) _ i).
  assert (Hkeep : ∀ j, let j' := flb_input_resume j in li_storage_type j' = li_storage_type j ∧ li_mem_buf_limit j' = li_mem_buf_limit j ∧
    li_chunks_up j' = li_chunks_up j ∧ li_mem_chunks_size j' = li_mem_chunks_size j ∧ li_mem_buf_status j' = li_mem_buf_status j).
  { intros j. unfold flb_input_resume. by destruct (li_p_resume j). }
  set (i1 := if negb (flb_input_chunk_is_mem_overlimit i0) && _ && _ then _ else i0).
  assert (H1 : li_storage_type i1 = li_storage_type i ∧ li_mem_buf_limit i1 = li_mem_buf_limit i ∧ li_chunks_up i1 = li_chunks_up i ∧ li_mem_chunks_size i1 = held i ∧
    (li_mem_buf_status i1 = li_mem_buf_status i ∨ li_mem_buf_limit i <= 0 ∨ held i < li_mem_buf_limit i)).
  { unfold i1. destruct (negb (flb_input_chunk_is_mem_overlimit i0) && _ && _) eqn:Hr; [|split_and!; [done..|by left]].
    destruct (Hkeep (set_li_mem (held i) FLB_INPUT_RUNNING i0)) as (-> & -> & -> & -> & _). split_and!; try done. right.
    apply andb_prop in Hr as [[Hov _]%andb_prop _]. unfold flb_input_chunk_is_mem_overlimit in Hov. cbn [i0 set_li_mem li_mem_buf_limit li_mem_chunks_size] in Hov.
    destruct (Z.leb_spec (li_mem_buf_limit i) 0); [by left|]. destruct (Z.leb_spec (li_mem_buf_limit i) (held i)); [done|by right]. }
  clearbody i1. cbn [snd]. destruct (negb (flb_input_chunk_is_storage_overlimit a i1) && _ && _); [|exact H1].
  destruct (Hkeep (set_li_storage_buf_status FLB_INPUT_RUNNING i1)) as (-> & -> & -> & -> & ->). exact H1.
Qed.

Lemma within_up l k i up : within l k i → cio_stream_size_chunks_up up <= held i → within l k (set_li_chunks_up up i).
Proof. intros [Hty Hlim Hb Hh] Hup. constructor; [done|done| |]; change (held (set_li_chunks_up up i)) with (cio_stream_size_chunks_up up); [|lia]. destruct Hb; [by left|right; lia]. Qed.
Lemma within_limits l k i a : 0 < l → within l k i → within l k (flb_input_chunk_set_limits a i).2.
Proof.
  intros Hl [Hty Hlim Hb Hh]. pose proof (set_limits_keeps a i) as (Et & El & Eu & _ & Es).
  constructor; unfold held in *; rewrite ?Et, ?El, ?Eu; [done|done| |done]. destruct Es as [-> |Es]; [done|right; lia].
Qed.
Lemma within_same l k i i' : within l k i → li_storage_type i' = li_storage_type i → li_mem_buf_limit i' = li_mem_buf_limit i →
  li_chunks_up i' = li_chunks_up i → li_mem_buf_status i' = li_mem_buf_status i → within l k i'.
Proof. intros [Hty Hlim Hb Hh] Et El Eu Es. constructor; unfold held in *; by rewrite ?Et, ?El, ?Eu, ?Es. Qed.

Lemma within_append put l k an i : 0 < l → 0 <= k → within l k i →
  match an_write an with
  | not_written => True
  | removed up | unroutable up => cio_stream_size_chunks_up up <= held i
  | written up => cio_stream_size_chunks_up up <= held i + k
  end → within l k (append put an i).2.
Proof.
  intros Hl Hk Hi Hw. pose proof Hi as [Hty Hlim Hb Hh]. unfold append. rewrite Hty. change (FLB_STORAGE_MEM =? FLB_STORAGE_MEMRB) with false. cbn [andb].
  destruct (flb_input_buf_paused i) eqn:Hp; [done|]. destruct (an_write an) as [|up|up|up]; cbn [snd]; [done|by apply within_limits, within_up|by apply within_up|].
  assert (Hnp : held i < l) by (destruct Hb as [Hb|]; [|done]; unfold flb_input_buf_paused in Hp; by rewrite Hb in Hp).
  set (i1 := set_li_chunks_up up i) in *. pose proof (set_limits_keeps (put i1) i1) as (Et & El & Eu & Em & _). fold (after_limits put i1) in *.
  set (i2 := after_limits put i1) in *. clearbody i2. cbn in Et, El, Eu. fold (held i1) in Em.
  assert (Hdown : (match an_down an with
    | Some down => if flb_input_chunk_is_mem_overlimit i2 && (li_storage_type i2 =? FLB_STORAGE_FS) then set_li_chunks_up down i2 else i2
    | None => i2 end) = i2).
  { rewrite Et, Hty. change (FLB_STORAGE_MEM =? FLB_STORAGE_FS) with false. rewrite andb_false_r. by destruct (an_down an). }
  rewrite Hdown. unfold flb_input_chunk_protect, flb_input_chunk_is_storage_overlimit. rewrite Et, Hty. change (FLB_STORAGE_MEM =? FLB_STORAGE_FS) with false. cbn [andb].
  assert (Hheld : held i2 = cio_stream_size_chunks_up up) by (unfold held; by rewrite Eu). assert (Hm : li_mem_chunks_size i2 = held i2) by (rewrite Em, Hheld; done).
  unfold flb_input_chunk_is_mem_overlimit. rewrite El, Hlim, Hm, (proj2 (Z.leb_gt l 0)) by lia. destruct (Z.leb_spec l (held i2)) as [Hov|Hov].
  - change (FLB_STORAGE_MEM =? FLB_STORAGE_MEMRB) with false. cbn [snd]. destruct (pause_keeps i2) as (_ & _ & Et2 & _ & _ & _ & Eu2 & _ & El2).
    constructor; [cbn; by rewrite Et2, Et|cbn; by rewrite El2, El|by left|]. unfold held. cbn [li_chunks_up set_li_mem]. rewrite Eu2. fold (held i2). lia.
  - cbn [snd]. constructor; [by rewrite Et|by rewrite El|by right|]. rewrite Hheld. lia.
Qed.

Lemma step_within l k n a e i : 0 < l → 0 <= k → ag_inputs a !! n = Some i → within l k i → grows k n a e → within l k (on_input a e n i).
Proof.
  intros Hl Hk Hn Hi Hg. assert (Hpause : within l k (flb_input_pause i).2).
  { destruct (pause_keeps i) as (? & ? & ? & _ & _ & _ & ? & _ & ?). by eapply within_same. }
  destruct e as [m an|m up|m is_up without|m up|m|m| |]; cbn [on_input grows] in *; try case_decide as Hm; try done.
  - apply within_append; [done..|by apply Hg].
  - apply within_limits; [done|]. apply within_up; [done|by apply Hg].
  - unfold flb_input_chunk_set_up_down.
    assert (Hsame : ∀ x j, within l k j → within l k (set_li_mem x (li_mem_buf_status j) j)) by (intros; by eapply within_same).
    destruct (_ && _); cbn [snd]; [|by apply Hsame]. apply (Hsame _ (set_li_chunks_up _ _)). apply within_up; [by apply Hsame|exact (Hg Hm i Hn)].
  - apply within_up; [done|exact (Hg Hm i Hn)].
  - unfold flb_input_resume. destruct (li_p_resume i); [by apply (within_same l k i)|done].
Qed.
Lemma run_within l k n es : ∀ a i, 0 < l → 0 <= k → ag_inputs a !! n = Some i → within l k i → grows_by k n a es →
  ∃ i', ag_inputs (run a es) !! n = Some i' ∧ within l k i'.
Proof.
  induction es as [|e es IH]; intros a i Hl Hk Hn Hi Hg; [by exists i|]. destruct Hg as [Hg Hgs].
  apply (IH _ (on_input a e n i)); [done|done|by rewrite step_at, Hn|by apply step_within|done].
Qed.

(** C34. The memory limit holds: in every run an input that buffers in memory only, with the limit [l], holds less than [l]
    bytes and one append, and from [l] on it refuses every append until it holds less. *)
Theorem memory_bounded a es n i i' k : starting a → ag_inputs a !! n = Some i → li_storage_type i = FLB_STORAGE_MEM → 0 < li_mem_buf_limit i → 0 <= k →
  grows_by k n a es → ag_inputs (run a es) !! n = Some i' →
  held i' < li_mem_buf_limit i + k ∧ (li_mem_buf_limit i <= held i' → ∀ put an, append put an i' = (-1, i')).
Proof.
  intros [_ Hst] Hn Hty Hl Hk Hg Hn'. eapply Forall_lookup_1 in Hst as (_ & _ & _ & Hup & _); [|exact Hn].
  destruct (run_within (li_mem_buf_limit i) k n es a i Hl Hk Hn) as (i2 & Hn2 & [Hty2 _ Hb Hh]); [|done|].
  - constructor; unfold held; rewrite ?Hup; [done|done|by right|cbn; lia].
  - rewrite Hn' in Hn2. injection Hn2 as <-. split; [lia|]. intros Hov put an. destruct Hb as [Hb|Hb]; [|lia].
    unfold append. rewrite Hty2. change (FLB_STORAGE_MEM =? FLB_STORAGE_MEMRB) with false. cbn [andb].
    unfold flb_input_buf_paused. by rewrite Hb.
Qed.

(** ** Resuming *)

(** C35. An input is resumed when it is drained: in every run, with direct pauses and resumes too, if ingestion is still
    active when a task of the input is freed with which it is below its memory limit, and below the limit of chunks if it
    pauses on that, its status is running, so that appends are not refused for it, and its plugin is told to resume exactly
    if the status was paused before. *)
Theorem resumed_when_drained a es n up i (a' := run a (es ++ [EvTaskDestroyed n up])) :
  starting a → active (run a es) = true → ag_inputs (run a es) !! n = Some i →
  li_mem_buf_limit i <= 0 ∨ cio_stream_size_chunks_up up < li_mem_buf_limit i →
  flb_input_chunk_is_storage_overlimit (put_input (run a es) n (set_li_chunks_up up i)) i = false →
  ∃ i', ag_inputs a' !! n = Some i' ∧ flb_input_buf_paused i' = false ∧ held i' = cio_stream_size_chunks_up up ∧
    li_calls i' = (if flb_input_buf_paused i && li_p_resume i then [cb_resume] else []) ++ li_calls i.
Proof.
  intros Hst Hact Hn Hlim Hov. destruct (started_ok true a es n i Hst ltac:(done) Hn) as [Hi _].
  unfold a', run. rewrite foldl_app. fold (run a es). cbn [foldl]. rewrite step_at, Hn. cbn [on_input fmap option_fmap option_map]. rewrite decide_True by done.
  eexists. split; [reflexivity|].
  unfold after_limits. set (b := put_input _ _ (set_li_chunks_up up i)) in *. unfold flb_input_chunk_set_limits. cbn zeta.
  set (i0 := set_li_mem _ _ (set_li_chunks_up up i)).
  change (ag_is_running b && ag_is_ingestion_active b) with (active (run a es)). rewrite Hact, !andb_true_r.
  assert (Hmem : flb_input_chunk_is_mem_overlimit i0 = false).
  { unfold flb_input_chunk_is_mem_overlimit. change (li_mem_buf_limit i0) with (li_mem_buf_limit i). change (li_mem_chunks_size i0) with (cio_stream_size_chunks_up up).
    destruct (Z.leb_spec (li_mem_buf_limit i) 0); [done|]. apply Z.leb_gt. lia. }
  rewrite Hmem. cbn [negb andb snd]. change (li_mem_buf_status i0) with (li_mem_buf_status i).
  destruct (lo_mem _ Hi) as [Hm|[Hm Hty]]; rewrite Hm.
  - change (FLB_INPUT_RUNNING =? FLB_INPUT_PAUSED) with false. cbn iota. change (flb_input_chunk_is_storage_overlimit b i0) with (flb_input_chunk_is_storage_overlimit b i).
    rewrite Hov. cbn [negb andb]. change (li_storage_buf_status i0) with (li_storage_buf_status i). unfold flb_input_buf_paused at 2. rewrite Hm.
    destruct (lo_storage _ Hi) as [Hs|[Hs _]]; rewrite Hs.
    + change (FLB_INPUT_RUNNING =? FLB_INPUT_PAUSED) with false. cbn iota. split_and!; [|done|done]. unfold flb_input_buf_paused. cbn. by rewrite Hm, Hs.
    + rewrite Z.eqb_refl. unfold flb_input_resume. cbn [li_p_resume set_li_storage_buf_status i0 set_li_mem set_li_chunks_up]. rewrite orb_true_r. cbn [andb].
      destruct (li_p_resume i); (split_and!; [|done|done]); unfold flb_input_buf_paused; cbn; by rewrite Hm.
  - pose proof (one_paused i Hi Hm) as Hs. rewrite Z.eqb_refl.
    assert (Hp : flb_input_buf_paused i = true) by (unfold flb_input_buf_paused; by rewrite Hm). rewrite Hp.
    set (r := flb_input_resume _).
    assert (Hr : li_storage_buf_status r = FLB_INPUT_RUNNING ∧ flb_input_buf_paused r = false ∧ held r = cio_stream_size_chunks_up up ∧
      li_calls r = (if li_p_resume i then [cb_resume] else []) ++ li_calls i).
    { unfold r, flb_input_resume. cbn [li_p_resume i0 set_li_mem set_li_chunks_up].
      destruct (li_p_resume i); (split_and!; [exact Hs| |done|done]); unfold flb_input_buf_paused; cbn; by rewrite Hs. }
    clearbody r. destruct Hr as (Hsr & ? & ? & ?). rewrite Hsr. change (FLB_INPUT_RUNNING =? FLB_INPUT_PAUSED) with false. rewrite andb_false_r. by split_and!.
Qed.

(** An input that was paused because the chunks of all inputs are too many is resumed by its own tasks alone: while none
    of them ends, it stays paused and refuses appends, even when nothing is buffered any more. *)
Lemma paused_until_own_task n es : ∀ a i, Forall (λ e, ∀ up, e ≠ EvTaskDestroyed n up) es → ag_inputs a !! n = Some i →
  li_storage_buf_status i = FLB_INPUT_PAUSED → li_storage_type i = FLB_STORAGE_FS →
  ∃ i', ag_inputs (run a es) !! n = Some i' ∧ li_storage_buf_status i' = FLB_INPUT_PAUSED ∧ ∀ put an, append put an i' = (-1, i').
Proof.
  induction es as [|e es IH]; intros a i Hes Hn Hs Hty.
  { exists i. split_and!; [done|done|]. intros put an. unfold append. rewrite Hty. change (FLB_STORAGE_FS =? FLB_STORAGE_MEMRB) with false.
    cbn [andb]. unfold flb_input_buf_paused. by rewrite Hs, orb_true_r. }
  apply Forall_cons in Hes as [He Hes].
  assert (Hp : flb_input_buf_paused i = true) by (unfold flb_input_buf_paused; by rewrite Hs, orb_true_r).
  assert (Hnext : li_storage_buf_status (on_input a e n i) = FLB_INPUT_PAUSED ∧ li_storage_type (on_input a e n i) = FLB_STORAGE_FS).
  { destruct e as [m an|m up|m is_up without|m up|m|m| |]; cbn [on_input]; try case_decide as Hm; try done.
    - unfold append. rewrite Hty. change (FLB_STORAGE_FS =? FLB_STORAGE_MEMRB) with false. cbn [andb]. by rewrite Hp.
    - subst m. by destruct (He up).
    - unfold flb_input_chunk_set_up_down. by destruct (_ && _).
    - unfold flb_input_pause. by rewrite Hp.
    - unfold flb_input_resume. by destruct (li_p_resume i).
    - unfold flb_input_pause. by rewrite Hp.
    - unfold flb_input_pause. by rewrite Hp. }
  destruct Hnext as [Hs' Hty']. apply (IH _ (on_input a e n i)); [done|by rewrite step_at, Hn|done|done].
Qed.

(** ** Examples: an input that buffers up to 100 bytes in memory, and two that buffer files, with two chunks up at most *)

Definition ex_input (type limit : Z) : input_limits := mk_limits limit 0 FLB_INPUT_RUNNING FLB_INPUT_RUNNING type true true true true [] [].
Definition ex_memory : agent := mk_agent [ex_input FLB_STORAGE_MEM 100] 128 true true.
Definition ex_files : agent := mk_agent [ex_input FLB_STORAGE_FS 0; ex_input FLB_STORAGE_FS 0] 2 true true.
Definition ex_write (n : nat) (up : list Z) : event := EvAppend n (mk_answer [] true (written up) None).
Definition ex_filled : list event := [ex_write 0 [60]; ex_write 0 [130]; ex_write 0 [190]].

Lemma ex_memory_starting : starting ex_memory.
Proof. split; [done|]. constructor; [|constructor]. split_and!; [done..|]. right. by left. Qed.

Lemma pauses_alternate_witness : ∃ i, ag_inputs (run ex_memory (ex_filled ++ [EvTaskDestroyed 0 []; ex_write 0 [120]])) !! 0%nat = Some i ∧
  li_calls i = [cb_pause; cb_resume; cb_pause] ∧ alternating true (li_calls i).
Proof.
  destruct (ag_inputs (run ex_memory (ex_filled ++ [EvTaskDestroyed 0 []; ex_write 0 [120]])) !! 0%nat) as [i|] eqn:Hi; [|vm_compute in Hi; discriminate Hi].
  exists i. split; [reflexivity|]. pose proof (pauses_alternate ex_memory (ex_filled ++ [EvTaskDestroyed 0 []; ex_write 0 [120]]) 0 i ex_memory_starting ltac:(repeat constructor; discriminate) Hi) as Halt.
  vm_compute in Hi. injection Hi as <-. split; [reflexivity|]. exact (Halt eq_refl eq_refl eq_refl).
Defined.

(** The third append is refused. *)
Lemma memory_bounded_witness : ∃ i, ag_inputs (run ex_memory ex_filled) !! 0%nat = Some i ∧ held i = 130 ∧ held i < 100 + 70 ∧ ∀ put an, append put an i = (-1, i).
Proof.
  destruct (ag_inputs (run ex_memory ex_filled) !! 0%nat) as [i|] eqn:Hi; [|vm_compute in Hi; discriminate Hi].
  exists i. split; [reflexivity|]. assert (Hh : held i = 130) by (vm_compute in Hi; by injection Hi as <-). split; [exact Hh|].
  destruct (memory_bounded ex_memory ex_filled 0 (ex_input FLB_STORAGE_MEM 100) i 70 ex_memory_starting eq_refl eq_refl) as [Hb Hr]; [done|done| |exact Hi|].
  - unfold ex_filled, ex_write. repeat split; intros _ j Hj; vm_compute in Hj; injection Hj as <-; vm_compute; discriminate.
  - split; [exact Hb|]. apply Hr. rewrite Hh. vm_compute. discriminate.
Defined.

Lemma resumed_when_drained_witness : ∃ i, ag_inputs (run ex_memory (ex_filled ++ [EvTaskDestroyed 0 [40]])) !! 0%nat = Some i ∧
  flb_input_buf_paused i = false ∧ li_calls i = [cb_resume; cb_pause].
Proof.
  destruct (ag_inputs (run ex_memory ex_filled) !! 0%nat) as [i|] eqn:Hi; [|vm_compute in Hi; discriminate Hi].
  destruct (resumed_when_drained ex_memory ex_filled 0 [40] i ex_memory_starting eq_refl Hi) as (i' & Hn & Hp & _ & Hc).
  - right. vm_compute in Hi. injection Hi as <-. vm_compute. reflexivity.
  - vm_compute in Hi. injection Hi as <-. vm_compute. reflexivity.
  - exists i'. split; [exact Hn|]. split; [exact Hp|]. rewrite Hc. vm_compute in Hi. injection Hi as <-. reflexivity.
Defined.

(** Input 1 has two chunks up when input 0 appends, which is paused; its own task ends before those of input 1, and then
    nothing is buffered and nothing resumes it. *)
Example paused_forever :
  let a := run ex_files [ex_write 1 [5]; EvUp 1 [5; 5]; ex_write 0 [7]; EvTaskDestroyed 0 []; EvTaskDestroyed 1 [5]; EvTaskDestroyed 1 []] in
  total_chunks_up a = 0 ∧ flb_input_buf_paused <$> ag_inputs a = [true; false].
Proof. split; reflexivity. Qed.

(** The emitter of a filter that is paused pauses the inputs that feed it, whose status stays: an input over its limit is
    told to pause again.  And it resumes them all: an input that is paused for its own limit is told to go on, while what it
    appends is refused. *)
Example paused_twice : li_calls <$> ag_inputs (run ex_memory [EvPause 0; ex_write 0 [130]]) = [[cb_pause; cb_pause]].
Proof. reflexivity. Qed.
Example resumed_while_paused :
  let a := run ex_memory [ex_write 0 [130]; EvPause 0; EvResume 0] in
  li_calls <$> ag_inputs a = [[cb_resume; cb_pause]] ∧ flb_input_buf_paused <$> ag_inputs a = [true] ∧
  ∀ i, ag_inputs a !! 0%nat = Some i → ∀ put an, append put an i = (-1, i).
Proof. split_and!; [reflexivity..|]. intros i [= <-] put an. reflexivity. Qed.
