(* ===== verification/BucketQueue.v ===== *)
(** * The priority queue of the event loops ([include/fluent-bit/flb_bucket_queue.h], [flb_event_loop.h])

    An engine or a worker takes the events that are ready from a queue with a list per priority, lower
    numbers first and each list in the order of arrival.  Items are addresses of list nodes: linking a
    node twice or unlinking one that is not linked is undefined behaviour.  [top] is a position in the
    array of buckets, its length when it is one past the end.  What [mk_event_wait_2] finds ready and what
    the handlers delete and inject are arguments of the loop. *)
From S2P Require Import Prelude Env.

(** ** Data and operations *)

Record flb_bucket_queue := mk_bq { bq_buckets : list (list nat); bq_top : nat; bq_n_items : Z }.
Definition set_bq_buckets (x : list (list nat)) (q : flb_bucket_queue) : flb_bucket_queue :=
  mk_bq x (bq_top q) (bq_n_items q).
Definition set_bq_top (x : nat) (q : flb_bucket_queue) : flb_bucket_queue := mk_bq (bq_buckets q) x (bq_n_items q).
Definition set_bq_n_items (x : Z) (q : flb_bucket_queue) : flb_bucket_queue := mk_bq (bq_buckets q) (bq_top q) x.

(** [bucket_queue->n_buckets]: it never changes. *)
Definition bq_n_buckets (q : flb_bucket_queue) : nat := length (bq_buckets q).

Definition flb_bucket_queue_create (priorities : nat) : M env (option flb_bucket_queue) :=
  p ← malloc;
  match p with
  | None => mret None
  | Some _ =>
      b ← malloc;
      match b with
      | None => mret None
      | Some _ => mret (Some (mk_bq (replicate priorities []) priorities 0))
      end
  end.

Definition flb_bucket_queue_is_empty (q : flb_bucket_queue) : bool := Nat.eqb (bq_top q) (bq_n_buckets q).

(** The loop of the seek: it moves [top] over at most [fuel] buckets. *)
Fixpoint seek_loop (fuel : nat) (q : flb_bucket_queue) : option flb_bucket_queue :=
  if flb_bucket_queue_is_empty q then Some q
  else
    b ← bq_buckets q !! bq_top q;
    match b with
    | [] => match fuel with O => None | S fuel' => seek_loop fuel' (set_bq_top (S (bq_top q)) q) end
    | _ :: _ => Some q
    end.
Definition flb_bucket_queue_seek (q : flb_bucket_queue) : option flb_bucket_queue := seek_loop (bq_n_buckets q - bq_top q) q.

(** [mk_list_add] to the bucket of a priority; the node must not be in a list. *)
Definition link_item (q : flb_bucket_queue) (item priority : nat) : option flb_bucket_queue :=
  if bool_decide (item ∈ concat (bq_buckets q)) then None
  else b ← bq_buckets q !! priority; Some (set_bq_buckets (<[priority := b ++ [item]]> (bq_buckets q)) q).

(** [mk_list_del] of a node in a bucket *)
Definition unlink_item (q : flb_bucket_queue) (item : nat) : option flb_bucket_queue :=
  if bool_decide (item ∈ concat (bq_buckets q)) then Some (set_bq_buckets (unlink item <$> bq_buckets q) q) else None.

Definition flb_bucket_queue_add (q : flb_bucket_queue) (item priority : nat) : option (Z * flb_bucket_queue) :=
  if Nat.leb (bq_n_buckets q) priority then Some (-1, q)
  else
    q ← flb_bucket_queue_seek q;
    q ← link_item q item priority;
    let q := if Nat.ltb priority (bq_top q) then set_bq_top priority q else q in
    Some (0, set_bq_n_items (u64 (bq_n_items q + 1)) q).

Definition flb_bucket_queue_find_min (q : flb_bucket_queue) : option (option nat * flb_bucket_queue) :=
  q ← flb_bucket_queue_seek q;
  if flb_bucket_queue_is_empty q then Some (None, q)
  else b ← bq_buckets q !! bq_top q; item ← head b; Some (Some item, q).

Definition flb_bucket_queue_delete_min (q : flb_bucket_queue) : option flb_bucket_queue :=
  q ← flb_bucket_queue_seek q;
  if flb_bucket_queue_is_empty q then Some q
  else
    b ← bq_buckets q !! bq_top q;
    item ← head b;
    q ← unlink_item q item;
    q ← flb_bucket_queue_seek q;
    Some (set_bq_n_items (u64 (bq_n_items q - 1)) q).

Definition flb_bucket_queue_pop_min (q : flb_bucket_queue) : option (option nat * flb_bucket_queue) :=
  '(item, q) ← flb_bucket_queue_find_min q;
  q ← flb_bucket_queue_delete_min q;
  Some (item, q).

(** The queue is gone when the result is 0. *)
Definition flb_bucket_queue_destroy (q : flb_bucket_queue) : option (Z * option flb_bucket_queue) :=
  q ← flb_bucket_queue_seek q;
  if flb_bucket_queue_is_empty q then Some (0, None) else Some (-1, Some q).

(** ** The loop over the events that are ready *)

(** An event: its priority and whether it is still registered ([status != MK_EVENT_NONE]).  The address of
    an event stands for that of its [_priority_head]. *)
Record mk_event := mk_ev { ev_priority : nat; ev_live : bool }.

Section loop.
Variable events : gmap nat mk_event.

(** A node is in the queue when its [prev] is not NULL. *)
Definition flb_event_load_bucket_queue_event (q : flb_bucket_queue) (event : nat) : option flb_bucket_queue :=
  ev ← events !! event;
  if bool_decide (event ∈ concat (bq_buckets q)) then Some q
  else '(_, q) ← flb_bucket_queue_add q event (ev_priority ev); Some q.

Fixpoint flb_event_load_bucket_queue (q : flb_bucket_queue) (ready : list nat) : option flb_bucket_queue :=
  match ready with
  | [] => Some q
  | event :: ready' =>
      ev ← events !! event;
      q ← (if ev_live ev then flb_event_load_bucket_queue_event q event else Some q);
      flb_event_load_bucket_queue q ready'
  end.

(** The events that were injected are those from position [n_events_initial] on. *)
Fixpoint load_all (q : flb_bucket_queue) (injected : list nat) : option flb_bucket_queue :=
  match injected with
  | [] => Some q
  | event :: injected' => q ← flb_event_load_bucket_queue_event q event; load_all q injected'
  end.
Definition flb_event_load_injected_events (q : flb_bucket_queue) (ready : list nat) (n_events_initial : nat)
    : option flb_bucket_queue := load_all q (drop n_events_initial ready).

(** [mk_event_del] of an event: it leaves the queue when it is in it. *)
Fixpoint delete_events (q : flb_bucket_queue) (deleted : list nat) : option flb_bucket_queue :=
  match deleted with
  | [] => Some q
  | event :: deleted' =>
      q ← (if bool_decide (event ∈ concat (bq_buckets q)) then unlink_item q event else Some q);
      delete_events q deleted'
  end.
End loop.

(** One iteration: the events while the handler runs and after it, those the handler deletes, those it
    injects, and those [mk_event_wait_2] finds ready *)
Record iteration_io := mk_iteration {
  it_events : gmap nat mk_event;
  it_deleted : list nat;
  it_injected : list nat;
  it_ready : list nat
}.

(** [flb_event_priority_live_foreach] with [n] iterations left: [event] is the one in hand, [n_events] the
    number of ready events when it was taken.  The result: the events handled, the queue, and the event
    that was taken out of the queue for an iteration that did not come. *)
Fixpoint live_foreach (n : nat) (io : nat → iteration_io) (i : nat) (q : flb_bucket_queue) (event : option nat)
    (ready : list nat) : option (list nat * flb_bucket_queue * option nat) :=
  match event with
  | None => Some ([], q, None)
  | Some e =>
      match n with
      | O => Some ([], q, Some e)
      | S n' =>
          let it := io i in
          q ← delete_events q (it_deleted it);                        (* the body *)
          q ← flb_event_load_injected_events (it_events it) q (ready ++ it_injected it) (length ready);
          q ← flb_event_load_bucket_queue (it_events it) q (it_ready it);
          '(next, q) ← flb_bucket_queue_find_min q;
          '(next, q) ← (match next with None => Some (None, q) | Some _ => flb_bucket_queue_pop_min q end);
          '(handled, q, dropped) ← live_foreach n' io (S i) q next (it_ready it);
          Some (e :: handled, q, dropped)
      end
  end.

Definition flb_event_priority_live_foreach (max_iter : nat) (events : gmap nat mk_event) (io : nat → iteration_io)
    (q : flb_bucket_queue) (ready : list nat) : option (list nat * flb_bucket_queue * option nat) :=
  q ← flb_event_load_bucket_queue events q ready;
  '(next, q) ← flb_bucket_queue_find_min q;
  '(next, q) ← (match next with None => Some (None, q) | Some _ => flb_bucket_queue_pop_min q end);
  live_foreach max_iter io 0 q next ready.

(** ** Specification

    A list of items with their priorities in the order of arrival; the next one is the earliest of those
    with the lowest number. *)
#[local] Abbreviation spec := (list (nat * nat)).
Definition spec_bucket (p : nat) (l : spec) : list nat := (filter (λ x, x.2 = p) l).*1.
Fixpoint spec_min (l : spec) : option (nat * nat) :=
  match l with
  | [] => None
  | x :: l' => match spec_min l' with Some y => if Nat.ltb y.2 x.2 then Some y else Some x | None => Some x end
  end.
Definition spec_remove (item : nat) (l : spec) : spec := filter (λ x, x.1 ≠ item) l.

(** The queue holds the items of [l]; [extra] of those it counts are gone, as they were unlinked directly. *)
Record represents (q : flb_bucket_queue) (l : spec) (extra : Z) : Prop := {
  rp_nodup : NoDup l.*1;
  rp_range : Forall (λ x, (x.2 < bq_n_buckets q)%nat) l;
  rp_bucket p : (p < bq_n_buckets q)%nat → bq_buckets q !! p = Some (spec_bucket p l);
  rp_top : (bq_top q <= bq_n_buckets q)%nat;
  rp_below x : x ∈ l → (bq_top q <= x.2)%nat;
  rp_items : bq_n_items q = u64 (zlen l + extra)
}.

Lemma elem_of_spec_bucket p l i : i ∈ spec_bucket p l ↔ (i, p) ∈ l.
Proof.
  unfold spec_bucket. rewrite list_elem_of_fmap. split.
  - intros ([i' p'] & -> & [Hp ?]%list_elem_of_filter). cbn in Hp. by subst.
  - intros ?. exists (i, p). split; [done|]. by apply list_elem_of_filter.
Qed.

Lemma spec_min_None l : spec_min l = None → l = [].
Proof. destruct l as [|x l]; [done|]. cbn. destruct (spec_min l); [case_match|]; done. Qed.

Lemma spec_min_Some l x : spec_min l = Some x →
  x ∈ l ∧ (∀ y, y ∈ l → (x.2 <= y.2)%nat) ∧ ∃ b, spec_bucket x.2 l = x.1 :: b.
Proof.
  revert x. induction l as [|z l IH]; intros x; [done|]. cbn [spec_min]. destruct (spec_min l) as [y|] eqn:Hy.
  - destruct (IH y eq_refl) as (Hin & Hmin & b & Hb). destruct (Nat.ltb_spec y.2 z.2) as [Hlt|Hge]; intros [= <-].
    + split; [by right|]. split; [intros w [->|?]%elem_of_cons; [lia|auto]|]. exists b.
      unfold spec_bucket in *. rewrite filter_cons_False by lia. done.
    + split; [by left|]. split; [intros w [->|Hw]%elem_of_cons; [lia|specialize (Hmin w Hw); lia]|].
      unfold spec_bucket. rewrite filter_cons_True by done. by eexists.
  - apply spec_min_None in Hy as ->. intros [= <-]. split; [by left|].
    split; [intros w [->|[]%elem_of_nil]%elem_of_cons; lia|]. unfold spec_bucket. rewrite filter_cons_True by done. by eexists.
Qed.

(** ** Every operation implements the specification *)

Lemma reps_concat q l extra item : represents q l extra → item ∈ concat (bq_buckets q) ↔ item ∈ l.*1.
Proof.
  intros [_ Hr Hb _ _ _]. rewrite list_elem_of_In, in_concat. setoid_rewrite <- list_elem_of_In. split.
  - intros (b & Hin & Hi). apply list_elem_of_lookup in Hin as [p Hp]. pose proof (lookup_lt_Some _ _ _ Hp) as Hlt.
    rewrite (Hb p Hlt) in Hp. injection Hp as <-. apply elem_of_spec_bucket in Hi. apply list_elem_of_fmap. by exists (item, p).
  - intros ([i p] & -> & Hin)%list_elem_of_fmap. cbn. assert ((p < bq_n_buckets q)%nat) by exact (proj1 (Forall_forall _ l) Hr _ Hin).
    exists (spec_bucket p l). split; [by eapply list_elem_of_lookup_2, Hb|]. by apply elem_of_spec_bucket.
Qed.

Lemma reps_top q l extra n : represents q l extra → (n <= bq_n_buckets q)%nat → (∀ x, x ∈ l → (n <= x.2)%nat) →
  represents (set_bq_top n q) l extra.
Proof. intros [] ? ?. by constructor. Qed.

Lemma seek_loop_ok l extra fuel : ∀ q, represents q l extra → (fuel = bq_n_buckets q - bq_top q)%nat →
  ∃ q', seek_loop fuel q = Some q' ∧ represents q' l extra ∧ bq_buckets q' = bq_buckets q ∧
    (bq_top q' = bq_n_buckets q' ∧ l = [] ∨ (bq_top q' < bq_n_buckets q')%nat ∧ ∃ x, spec_min l = Some x ∧ x.2 = bq_top q').
Proof.
  induction fuel as [|fuel IH]; intros q Hq Hf; pose proof (rp_top _ _ _ Hq); cbn [seek_loop];
    unfold flb_bucket_queue_is_empty; destruct (Nat.eqb_spec (bq_top q) (bq_n_buckets q)) as [He|He]; try lia.
  1: exists q; split_and!; try done; left; split; [done|]; destruct l as [|x l]; [done|];
    assert (Hx : x ∈ x :: l) by (by apply elem_of_cons; left); pose proof (rp_below _ _ _ Hq x Hx); pose proof (rp_range _ _ _ Hq) as [? _]%Forall_cons; lia.
  rewrite (rp_bucket _ _ _ Hq) by lia. cbn [mbind option_bind]. destruct (spec_bucket (bq_top q) l) as [|i b] eqn:Hb.
  - destruct (IH (set_bq_top (S (bq_top q)) q)) as (q' & ? & ? & ? & ?); [|unfold bq_n_buckets in *; cbn; lia|by exists q'].
    apply reps_top; [done|lia|]. intros [j p] Hx. pose proof (rp_below _ _ _ Hq _ Hx) as Hle. cbn in *.
    destruct (decide (p = bq_top q)) as [->|]; [|lia]. apply elem_of_spec_bucket in Hx. rewrite Hb in Hx. by apply elem_of_nil in Hx.
  - exists q. split_and!; try done. right. split; [lia|]. assert (Hi : (i, bq_top q) ∈ l) by (apply elem_of_spec_bucket; rewrite Hb; left).
    destruct (spec_min l) as [x|] eqn:Hm; [|apply spec_min_None in Hm as ->; by apply elem_of_nil in Hi].
    exists x. split; [done|]. destruct (spec_min_Some _ _ Hm) as (Hx & Hmin & _). specialize (Hmin _ Hi).
    pose proof (rp_below _ _ _ Hq _ Hx). cbn in *. lia.
Qed.

Lemma seek_ok q l extra : represents q l extra → ∃ q', flb_bucket_queue_seek q = Some q' ∧ represents q' l extra ∧
  bq_buckets q' = bq_buckets q ∧
  (bq_top q' = bq_n_buckets q' ∧ l = [] ∨ (bq_top q' < bq_n_buckets q')%nat ∧ ∃ x, spec_min l = Some x ∧ x.2 = bq_top q').
Proof. intros Hq. by apply seek_loop_ok. Qed.

Lemma spec_bucket_app p l1 l2 : spec_bucket p (l1 ++ l2) = spec_bucket p l1 ++ spec_bucket p l2.
Proof. unfold spec_bucket. by rewrite filter_app, fmap_app. Qed.

Lemma spec_bucket_remove p item l : spec_bucket p (spec_remove item l) = unlink item (spec_bucket p l).
Proof.
  unfold spec_bucket, spec_remove, unlink. induction l as [|x l IH]; [done|].
  destruct (decide (x.1 = item)) as [Hi|Hi], (decide (x.2 = p)) as [Hp|Hp];
    rewrite ?(filter_cons_False (λ x, x.1 ≠ item)), ?(filter_cons_True (λ x, x.1 ≠ item)) by (done || (intros ?; done));
    rewrite ?(filter_cons_True (λ x, x.2 = p)), ?(filter_cons_False (λ x, x.2 = p)) by done; cbn [fmap list_fmap];
    rewrite ?(filter_cons_False (λ x, x ≠ item)), ?(filter_cons_True (λ x, x ≠ item)) by (done || (intros ?; done));
    by rewrite ?IH.
Qed.

Lemma spec_remove_fmap item l : (spec_remove item l).*1 = unlink item l.*1.
Proof.
  unfold spec_remove, unlink. induction l as [|x l IH]; [done|]. cbn [fmap list_fmap].
  destruct (decide (x.1 = item)) as [Hi|Hi].
  - rewrite !filter_cons_False by (intros ?; done). done.
  - rewrite !filter_cons_True by done. cbn. by rewrite <- IH.
Qed.

Lemma elem_of_spec_remove x item l : x ∈ spec_remove item l ↔ x.1 ≠ item ∧ x ∈ l.
Proof. unfold spec_remove. by rewrite list_elem_of_filter. Qed.

Lemma spec_remove_length item l : NoDup l.*1 → item ∈ l.*1 → zlen (spec_remove item l) = zlen l - 1.
Proof.
  intros Hnd Hin. pose proof (unlink_Permutation item _ Hnd Hin) as Hp. apply Permutation_length in Hp.
  rewrite <- spec_remove_fmap in Hp. cbn in Hp. rewrite !length_fmap in Hp. unfold zlen. lia.
Qed.

Lemma u64_add a b : u64 (u64 a + b) = u64 (a + b).
Proof. unfold u64. by rewrite Zplus_mod_idemp_l. Qed.

Lemma unlink_item_ok q l extra item : represents q l extra → item ∈ l.*1 →
  ∃ q', unlink_item q item = Some q' ∧ represents q' (spec_remove item l) (extra + 1) ∧ bq_n_buckets q' = bq_n_buckets q ∧
    bq_top q' = bq_top q.
Proof.
  intros Hq Hin. unfold unlink_item. rewrite bool_decide_true by by apply (reps_concat q l extra item Hq).
  eexists. split; [reflexivity|]. split; [|split; [unfold bq_n_buckets; cbn; by rewrite length_fmap|done]].
  assert (Hlen : bq_n_buckets (set_bq_buckets (unlink item <$> bq_buckets q) q) = bq_n_buckets q)
    by (unfold bq_n_buckets; cbn; by rewrite length_fmap). destruct Hq as [Hnd Hr Hb Ht Hbl Hi].
  constructor; rewrite ?Hlen.
  - rewrite spec_remove_fmap. by apply NoDup_unlink.
  - apply Forall_forall. intros x [_ Hx]%elem_of_spec_remove. exact (proj1 (Forall_forall _ l) Hr _ Hx).
  - intros p Hp. cbn. by rewrite list_lookup_fmap, (Hb p Hp), spec_bucket_remove.
  - done.
  - intros x [_ Hx]%elem_of_spec_remove. by apply Hbl.
  - cbn. rewrite Hi, spec_remove_length by done. f_equal. lia.
Qed.

Lemma find_min_ok q l extra : represents q l extra → ∃ q', flb_bucket_queue_find_min q = Some (fst <$> spec_min l, q') ∧
  represents q' l extra ∧ bq_n_buckets q' = bq_n_buckets q ∧
  ∀ x, spec_min l = Some x → (bq_top q' < bq_n_buckets q')%nat ∧ x.2 = bq_top q' ∧ ∃ b, bq_buckets q' !! bq_top q' = Some (x.1 :: b).
Proof.
  intros Hq. destruct (seek_ok q l extra Hq) as (q' & Hs & Hq' & Hb & Hcase). unfold flb_bucket_queue_find_min. rewrite Hs.
  cbn [mbind option_bind]. unfold flb_bucket_queue_is_empty. destruct Hcase as [[Ht ->]|[Ht (x & Hm & Hx)]].
  - rewrite Ht, Nat.eqb_refl. exists q'. split_and!; [done|done|unfold bq_n_buckets; by rewrite Hb|done].
  - rewrite (proj2 (Nat.eqb_neq _ _)) by lia. destruct (spec_min_Some _ _ Hm) as (_ & _ & b & Hbk).
    assert (Hl : bq_buckets q' !! bq_top q' = Some (x.1 :: b)) by (rewrite <- Hbk, Hx; by apply (rp_bucket _ _ _ Hq')).
    rewrite Hl. cbn. rewrite Hm. exists q'. split_and!; [done|done|unfold bq_n_buckets; by rewrite Hb|].
    intros y [= <-]. eauto.
Qed.

Definition after_delete (l : spec) : spec := match spec_min l with Some x => spec_remove x.1 l | None => l end.

Lemma delete_min_ok q l extra : represents q l extra →
  ∃ q', flb_bucket_queue_delete_min q = Some q' ∧ represents q' (after_delete l) extra ∧ bq_n_buckets q' = bq_n_buckets q.
Proof.
  intros Hq. unfold flb_bucket_queue_delete_min, after_delete. destruct (seek_ok q l extra Hq) as (q1 & Hs & Hq1 & Hb & Hcase).
  rewrite Hs. cbn [mbind option_bind]. unfold flb_bucket_queue_is_empty. destruct Hcase as [[Ht ->]|[Ht (x & Hm & Hx)]].
  - rewrite Ht, Nat.eqb_refl. exists q1. split_and!; [done|done|unfold bq_n_buckets; by rewrite Hb].
  - rewrite (proj2 (Nat.eqb_neq _ _)) by lia. destruct (spec_min_Some _ _ Hm) as (Hin & _ & b & Hbk).
    assert (Hl : bq_buckets q1 !! bq_top q1 = Some (x.1 :: b)) by (rewrite <- Hbk, Hx; by apply (rp_bucket _ _ _ Hq1)).
    rewrite Hl, Hm. cbn [mbind option_bind head].
    destruct (unlink_item_ok q1 l extra x.1 Hq1) as (q2 & -> & Hq2 & Hn2 & _); [apply list_elem_of_fmap; eauto|]. cbn [mbind option_bind].
    destruct (seek_ok q2 _ _ Hq2) as (q3 & -> & Hq3 & Hb3 & _). cbn [mbind option_bind]. eexists. split; [reflexivity|].
    split; [|unfold bq_n_buckets in *; cbn; congruence].
    destruct Hq3 as [? ? ? ? ? Hi]. constructor; try done. cbn. rewrite Hi. rewrite <- Z.add_opp_r, u64_add. f_equal. lia.
Qed.

Lemma pop_min_ok q l extra : represents q l extra →
  ∃ q', flb_bucket_queue_pop_min q = Some (fst <$> spec_min l, q') ∧ represents q' (after_delete l) extra ∧
    bq_n_buckets q' = bq_n_buckets q.
Proof.
  intros Hq. destruct (find_min_ok q l extra Hq) as (q1 & Hf & Hq1 & Hn1 & _). destruct (delete_min_ok q1 l extra Hq1) as (q2 & Hd & Hq2 & Hn2).
  unfold flb_bucket_queue_pop_min. rewrite Hf. cbn [mbind option_bind]. rewrite Hd. cbn. exists q2. split_and!; [done|done|congruence].
Qed.

Lemma add_ok q l extra item p : represents q l extra → item ∉ l.*1 →
  ∃ q', flb_bucket_queue_add q item p = Some (if Nat.leb (bq_n_buckets q) p then -1 else 0, q') ∧
    represents q' (if Nat.leb (bq_n_buckets q) p then l else l ++ [(item, p)]) extra ∧ bq_n_buckets q' = bq_n_buckets q.
Proof.
  intros Hq Hin. unfold flb_bucket_queue_add. destruct (Nat.leb_spec (bq_n_buckets q) p) as [Hp|Hp]; [by exists q|].
  destruct (seek_ok q l extra Hq) as (q1 & Hs & Hq1 & Hb & _). rewrite Hs. cbn [mbind option_bind]. unfold link_item.
  rewrite bool_decide_false by by rewrite (reps_concat q1 l extra item Hq1).
  assert (Hn : bq_n_buckets q1 = bq_n_buckets q) by (unfold bq_n_buckets; by rewrite Hb).
  rewrite (rp_bucket _ _ _ Hq1) by lia. cbn [mbind option_bind]. eexists. split; [reflexivity|].
  set (bs := <[p := _]> (bq_buckets q1)). assert (Hbs : length bs = bq_n_buckets q) by (unfold bs; by rewrite length_insert).
  assert (Hlen : ∀ q', bq_buckets q' = bs → bq_n_buckets q' = bq_n_buckets q) by (intros q' Hq'; unfold bq_n_buckets; by rewrite Hq').
  destruct Hq1 as [Hnd Hr Hbk Ht Hbl Hi]. split; [|case_match; by apply Hlen].
  cbn [bq_top set_bq_buckets]. constructor.
  - rewrite fmap_app. apply NoDup_app. split; [done|]. split; [|apply NoDup_singleton]. intros x Hx Hx'.
    apply list_elem_of_singleton in Hx'. cbn in Hx'. by subst.
  - rewrite Hlen by (case_match; done). rewrite <- Hn. apply Forall_app. split; [done|]. constructor; [cbn; lia|done].
  - rewrite Hlen by (case_match; done). intros p' Hp'. rewrite spec_bucket_app. unfold spec_bucket at 2.
    replace (bq_buckets _) with bs by (case_match; done). unfold bs. destruct (decide (p' = p)) as [->|Hne].
    + rewrite list_lookup_insert_eq by (fold (bq_n_buckets q1); lia). by rewrite filter_cons_True.
    + rewrite list_lookup_insert_ne, Hbk by (done || lia). rewrite filter_cons_False by done. by rewrite app_nil_r.
  - rewrite Hlen by (case_match; done). destruct (Nat.ltb_spec p (bq_top q1)); cbn; lia.
  - intros x [Hx|Hx%list_elem_of_singleton]%elem_of_app; [apply Hbl in Hx|subst x]; destruct (Nat.ltb_spec p (bq_top q1)); cbn; lia.
  - replace (bq_n_items _) with (u64 (bq_n_items q1 + 1)) by (case_match; done). rewrite Hi, u64_add. f_equal.
    unfold zlen. rewrite length_app. cbn. lia.
Qed.

(** ** Sequences of operations *)

Inductive bq_op := OpAdd (item priority : nat) | OpFindMin | OpDeleteMin | OpPopMin | OpUnlink (item : nat).
Inductive bq_result := ResInt (r : Z) | ResItem (item : option nat) | ResUnit.

Definition run_op (q : flb_bucket_queue) (op : bq_op) : option (bq_result * flb_bucket_queue) :=
  match op with
  | OpAdd item p => '(r, q') ← flb_bucket_queue_add q item p; Some (ResInt r, q')
  | OpFindMin => '(item, q') ← flb_bucket_queue_find_min q; Some (ResItem item, q')
  | OpDeleteMin => q' ← flb_bucket_queue_delete_min q; Some (ResUnit, q')
  | OpPopMin => '(item, q') ← flb_bucket_queue_pop_min q; Some (ResItem item, q')
  | OpUnlink item => q' ← unlink_item q item; Some (ResUnit, q')
  end.
Fixpoint run_ops (q : flb_bucket_queue) (ops : list bq_op) : option (list bq_result * flb_bucket_queue) :=
  match ops with
  | [] => Some ([], q)
  | op :: ops' => '(r, q') ← run_op q op; '(rs, q'') ← run_ops q' ops'; Some (r :: rs, q'')
  end.

(** What an operation does to the list, with [n] priorities *)
Definition spec_op (n : nat) (l : spec) (op : bq_op) : bq_result * spec :=
  match op with
  | OpAdd item p => if Nat.leb n p then (ResInt (-1), l) else (ResInt 0, l ++ [(item, p)])
  | OpFindMin => (ResItem (fst <$> spec_min l), l)
  | OpDeleteMin => (ResUnit, after_delete l)
  | OpPopMin => (ResItem (fst <$> spec_min l), after_delete l)
  | OpUnlink item => (ResUnit, spec_remove item l)
  end.
Fixpoint spec_ops (n : nat) (l : spec) (ops : list bq_op) : list bq_result * spec :=
  match ops with
  | [] => ([], l)
  | op :: ops' => let '(r, l') := spec_op n l op in let '(rs, l'') := spec_ops n l' ops' in (r :: rs, l'')
  end.

(** Callers add what is not in the queue and unlink what is. *)
Definition op_allowed (l : spec) (op : bq_op) : Prop :=
  match op with OpAdd item _ => item ∉ l.*1 | OpUnlink item => item ∈ l.*1 | _ => True end.
Fixpoint ops_allowed (n : nat) (l : spec) (ops : list bq_op) : Prop :=
  match ops with [] => True | op :: ops' => op_allowed l op ∧ ops_allowed n (spec_op n l op).2 ops' end.

Lemma run_op_ok q l extra op : represents q l extra → op_allowed l op →
  ∃ q' extra', run_op q op = Some ((spec_op (bq_n_buckets q) l op).1, q') ∧
    represents q' (spec_op (bq_n_buckets q) l op).2 extra' ∧ bq_n_buckets q' = bq_n_buckets q.
Proof.
  intros Hq Ha. destruct op as [item p| | | |item]; cbn [run_op spec_op].
  - destruct (add_ok q l extra item p Hq Ha) as (q' & -> & ? & ?). exists q', extra. by destruct (Nat.leb _ p).
  - destruct (find_min_ok q l extra Hq) as (q' & -> & ? & ? & _). by exists q', extra.
  - destruct (delete_min_ok q l extra Hq) as (q' & -> & ? & ?). by exists q', extra.
  - destruct (pop_min_ok q l extra Hq) as (q' & -> & ? & ?). by exists q', extra.
  - destruct (unlink_item_ok q l extra item Hq Ha) as (q' & -> & ? & ? & _). by exists q', (extra + 1).
Qed.

Lemma create_ok priorities s : ∃ o s', flb_bucket_queue_create priorities s = Some (o, s') ∧
  (calm s → is_Some o) ∧ ∀ q, o = Some q → represents q [] 0 ∧ bq_n_buckets q = priorities.
Proof.
  unfold flb_bucket_queue_create. mrun.
  destruct (malloc_cases s) as [[(sc & ->) Hc]|(sc & -> & Hc)]; [eexists _, _; split; [reflexivity|]; done|].
  set (s1 := set_env _ s). assert (Hc1 : calm s → calm s1) by (intros Hs; split; [by apply Hc|apply Hs]).
  destruct (malloc_cases s1) as [[(sc' & ->) Hc']|(sc' & -> & _)]; (eexists _, _; split; [reflexivity|]).
  - split; [|done]. intros Hs. by destruct (Hc' (Hc1 Hs)).
  - split; [by eexists|]. intros q [= <-]. unfold bq_n_buckets. cbn. split; [|apply length_replicate]. constructor; unfold bq_n_buckets; cbn; rewrite ?length_replicate.
    + constructor.
    + constructor.
    + intros p Hp. by rewrite lookup_replicate_2.
    + done.
    + by intros x ?%elem_of_nil.
    + done.
Qed.

Lemma run_ops_ok priorities ops : ∀ q l extra, represents q l extra → bq_n_buckets q = priorities → ops_allowed priorities l ops →
  ∃ q' extra', run_ops q ops = Some ((spec_ops priorities l ops).1, q') ∧
    represents q' (spec_ops priorities l ops).2 extra' ∧
    ∃ q'', flb_bucket_queue_destroy q' =
      Some (if bool_decide ((spec_ops priorities l ops).2 = []) then (0, None) else (-1, Some q'')).
Proof.
  induction ops as [|op ops IH]; intros q l extra Hrep Hn Ha; cbn [run_ops spec_ops].
  - exists q, extra. split; [done|]. split; [done|]. destruct (seek_ok q l extra Hrep) as (q' & Hs & _ & _ & Hcase).
    exists q'. unfold flb_bucket_queue_destroy. rewrite Hs. cbn. unfold flb_bucket_queue_is_empty. destruct Hcase as [[-> ->]|[Ht (x & Hm & _)]].
    + by rewrite Nat.eqb_refl.
    + rewrite (proj2 (Nat.eqb_neq _ _)) by lia. rewrite bool_decide_false; [done|]. by intros ->.
  - destruct Ha as [Ha Hrest]. destruct (run_op_ok q l extra op Hrep Ha) as (q1 & e1 & Hr & Hrep1 & Hn1). rewrite Hn in Hr, Hrep1.
    rewrite Hr. cbn [mbind option_bind]. destruct (spec_op priorities l op) as [r l'] eqn:Hop. cbn [fst snd] in *.
    destruct (IH q1 l' e1 Hrep1 ltac:(congruence) Hrest) as (q2 & e2 & Hr2 & ?). rewrite Hr2. cbn [mbind option_bind].
    destruct (spec_ops priorities l' ops) as [rs l'']. by exists q2, e2.
Qed.

(** C19. The bucket queue is a priority queue, first in first out among equals: from its creation on, any
    operations - additions, also with a priority out of range, looking for the next item, removing it, and
    unlinking nodes directly as [mk_event_del] does - have defined results, which are those on a list of
    the items in the order of arrival where the next one is the earliest with the lowest number; destroying
    it succeeds exactly when no item is left.  [n_items] counts the items and those unlinked directly. *)
Theorem bucket_queue_refines priorities ops s q s' :
  flb_bucket_queue_create priorities s = Some (Some q, s') → ops_allowed priorities [] ops →
  ∃ q' extra, run_ops q ops = Some ((spec_ops priorities [] ops).1, q') ∧
    represents q' (spec_ops priorities [] ops).2 extra ∧
    ∃ q'', flb_bucket_queue_destroy q' =
      Some (if bool_decide ((spec_ops priorities [] ops).2 = []) then (0, None) else (-1, Some q'')).
Proof.
  intros Hcr. destruct (create_ok priorities s) as (o & s'' & Hc & _ & Hq). rewrite Hcr in Hc. injection Hc as <- <-.
  destruct (Hq q eq_refl) as [Hrep Hn]. intros Ha. by apply (run_ops_ok priorities ops q [] 0).
Qed.

Definition ex_env : env := mk_env [] [] [] 0 1 [].
Definition ex_ops : list bq_op := [OpAdd 10 3; OpAdd 11 1; OpAdd 12 1; OpAdd 13 9; OpPopMin; OpUnlink 12; OpPopMin; OpFindMin].

Lemma bucket_queue_refines_witness :
  (spec_ops 8 [] ex_ops).1 =
    [ResInt 0; ResInt 0; ResInt 0; ResInt (-1); ResItem (Some 11%nat); ResUnit; ResItem (Some 10%nat); ResItem None] ∧
  ∃ q s', flb_bucket_queue_create 8 ex_env = Some (Some q, s') ∧
    ∃ q' extra, run_ops q ex_ops = Some ((spec_ops 8 [] ex_ops).1, q') ∧ represents q' [] extra.
Proof.
  split; [vm_compute; reflexivity|]. eexists _, _. split; [vm_compute; reflexivity|].
  destruct (bucket_queue_refines 8 ex_ops ex_env (mk_bq (replicate 8 []) 8 0) (mk_env [] [] [] 0 3 []) eq_refl) as (q' & extra & H1 & H2 & _).
  - cbn. repeat split; try done; apply (bool_decide_unpack _); vm_compute; exact I.
  - exists q', extra. split; [exact H1|exact H2].
Defined.

(** ** The event loop *)

Definition spec_load_event (n : nat) (events : gmap nat mk_event) (l : spec) (event : nat) : spec :=
  match events !! event with
  | Some ev => if bool_decide (event ∈ l.*1) || Nat.leb n (ev_priority ev) then l else l ++ [(event, ev_priority ev)]
  | None => l
  end.
Definition spec_load_live (n : nat) (events : gmap nat mk_event) (l : spec) (event : nat) : spec :=
  if from_option ev_live false (events !! event) then spec_load_event n events l event else l.

(** The queue after an iteration *)
Definition spec_iteration (n : nat) (it : iteration_io) (l : spec) : spec :=
  foldl (spec_load_live n (it_events it))
    (foldl (spec_load_event n (it_events it)) (foldl (λ l e, spec_remove e l) l (it_deleted it)) (it_injected it)) (it_ready it).

(** The loop on the list: every event that is handled is the next one of the list at its time. *)
Fixpoint spec_foreach (n max : nat) (io : nat → iteration_io) (i : nat) (l : spec) : list nat * spec * option nat :=
  match spec_min l with
  | None => ([], l, None)
  | Some (e, _) =>
      match max with
      | O => ([], after_delete l, Some e)
      | S max' =>
          let '(handled, l', dropped) := spec_foreach n max' io (S i) (spec_iteration n (io i) (after_delete l)) in
          (e :: handled, l', dropped)
      end
  end.

(** Events that are ready or injected exist. *)
Definition io_ok (it : iteration_io) : Prop :=
  ∀ e, e ∈ it_injected it ++ it_ready it → is_Some (it_events it !! e).

Lemma load_event_ok q l extra events e : represents q l extra → is_Some (events !! e) →
  ∃ q', flb_event_load_bucket_queue_event events q e = Some q' ∧
    represents q' (spec_load_event (bq_n_buckets q) events l e) extra ∧ bq_n_buckets q' = bq_n_buckets q.
Proof.
  intros Hq [ev Hev]. unfold flb_event_load_bucket_queue_event, spec_load_event. rewrite Hev. cbn [mbind option_bind].
  destruct (decide (e ∈ l.*1)) as [Hin|Hin].
  - rewrite !bool_decide_true; [|done|by apply (reps_concat q l extra e Hq)]. by exists q.
  - rewrite !bool_decide_false; [|done|by rewrite (reps_concat q l extra e Hq)]. cbn [orb].
    destruct (add_ok q l extra e (ev_priority ev) Hq Hin) as (q' & -> & ? & ?). by exists q'.
Qed.

Lemma load_all_ok events es : ∀ q l extra, represents q l extra → (∀ e, e ∈ es → is_Some (events !! e)) →
  ∃ q', load_all events q es = Some q' ∧ represents q' (foldl (spec_load_event (bq_n_buckets q) events) l es) extra ∧
    bq_n_buckets q' = bq_n_buckets q.
Proof.
  induction es as [|e es IH]; intros q l extra Hq He; [by exists q|]. cbn [load_all foldl].
  destruct (load_event_ok q l extra events e Hq) as (q1 & -> & Hq1 & Hn1); [apply He; by left|]. cbn [mbind option_bind].
  destruct (IH q1 _ extra Hq1) as (q2 & -> & Hq2 & Hn2); [intros; apply He; by right|]. exists q2.
  rewrite Hn1 in Hq2. split_and!; [done|done|congruence].
Qed.

Lemma load_ready_ok events es : ∀ q l extra, represents q l extra → (∀ e, e ∈ es → is_Some (events !! e)) →
  ∃ q', flb_event_load_bucket_queue events q es = Some q' ∧
    represents q' (foldl (spec_load_live (bq_n_buckets q) events) l es) extra ∧ bq_n_buckets q' = bq_n_buckets q.
Proof.
  induction es as [|e es IH]; intros q l extra Hq He; [by exists q|]. cbn [flb_event_load_bucket_queue foldl].
  destruct (He e) as [ev Hev]; [by left|]. rewrite Hev. cbn [mbind option_bind]. unfold spec_load_live at 2. rewrite Hev. cbn [from_option].
  assert (Hstep : ∃ q1, (if ev_live ev then flb_event_load_bucket_queue_event events q e else Some q) = Some q1 ∧
    represents q1 (if ev_live ev then spec_load_event (bq_n_buckets q) events l e else l) extra ∧ bq_n_buckets q1 = bq_n_buckets q).
  { destruct (ev_live ev); [apply load_event_ok; eauto|by exists q]. }
  destruct Hstep as (q1 & -> & Hq1 & Hn1). cbn [mbind option_bind].
  destruct (IH q1 _ extra Hq1) as (q2 & -> & Hq2 & Hn2); [intros; apply He; by right|]. exists q2.
  rewrite Hn1 in Hq2. split_and!; [done|done|congruence].
Qed.

Lemma spec_remove_notin e l : e ∉ l.*1 → spec_remove e l = l.
Proof.
  unfold spec_remove. induction l as [|x l IH]; [done|]. cbn [fmap list_fmap]. intros [? ?]%not_elem_of_cons.
  rewrite filter_cons_True by congruence. by rewrite IH.
Qed.

Lemma delete_events_ok es : ∀ q l extra, represents q l extra →
  ∃ q' extra', delete_events q es = Some q' ∧ represents q' (foldl (λ l e, spec_remove e l) l es) extra' ∧
    bq_n_buckets q' = bq_n_buckets q.
Proof.
  induction es as [|e es IH]; intros q l extra Hq; [by exists q, extra|]. cbn [delete_events foldl].
  assert (Hstep : ∃ q1 e1, (if bool_decide (e ∈ concat (bq_buckets q)) then unlink_item q e else Some q) = Some q1 ∧
    represents q1 (spec_remove e l) e1 ∧ bq_n_buckets q1 = bq_n_buckets q).
  { destruct (decide (e ∈ l.*1)) as [Hin|Hin].
    - rewrite bool_decide_true by by apply (reps_concat q l extra e Hq).
      destruct (unlink_item_ok q l extra e Hq Hin) as (q1 & ? & ? & ? & _). by exists q1, (extra + 1).
    - rewrite bool_decide_false by by rewrite (reps_concat q l extra e Hq). exists q, extra. split; [done|].
      by rewrite spec_remove_notin. }
  destruct Hstep as (q1 & e1 & -> & Hq1 & Hn1). cbn [mbind option_bind].
  destruct (IH q1 _ e1 Hq1) as (q2 & e2 & -> & Hq2 & Hn2). exists q2, e2. split_and!; [done|done|congruence].
Qed.

(** Taking the next event *)
Lemma take_next_ok q l extra : represents q l extra →
  ∃ q', ('(next, q) ← flb_bucket_queue_find_min q;
         match next with None => Some (None, q) | Some _ => flb_bucket_queue_pop_min q end) = Some (fst <$> spec_min l, q') ∧
    represents q' (after_delete l) extra ∧ bq_n_buckets q' = bq_n_buckets q.
Proof.
  intros Hq. destruct (find_min_ok q l extra Hq) as (q1 & -> & Hq1 & Hn1 & _). cbn [mbind option_bind].
  destruct (spec_min l) as [[e p]|] eqn:Hm; cbn [fmap option_fmap option_map fst].
  - destruct (pop_min_ok q1 l extra Hq1) as (q2 & -> & ? & ?). rewrite Hm. exists q2. split_and!; [done|done|congruence].
  - exists q1. unfold after_delete. by rewrite Hm.
Qed.

Lemma spec_min_after l e p : spec_min l = Some (e, p) → after_delete l = spec_remove e l ∧ e ∉ (after_delete l).*1.
Proof.
  intros Hm. unfold after_delete. rewrite Hm. cbn. split; [done|]. rewrite spec_remove_fmap, elem_of_unlink. tauto.
Qed.

Lemma live_foreach_ok n max io : (∀ i, io_ok (io i)) → ∀ i q l extra ready, represents q (after_delete l) extra → bq_n_buckets q = n →
  ∃ q' extra', live_foreach max io i q (fst <$> spec_min l) ready =
      Some ((spec_foreach n max io i l).1.1, q', (spec_foreach n max io i l).2) ∧
    represents q' (spec_foreach n max io i l).1.2 extra'.
Proof.
  intros Hio. induction max as [|max IH]; intros i q l extra ready Hq Hn; cbn [live_foreach spec_foreach].
  - destruct (spec_min l) as [[e p]|] eqn:Hm; cbn; [by exists q, extra|]. exists q, extra. unfold after_delete in Hq. by rewrite Hm in Hq.
  - destruct (spec_min l) as [[e p]|] eqn:Hm; cbn [fmap option_fmap option_map fst].
    2: { exists q, extra. unfold after_delete in Hq. by rewrite Hm in Hq. }
    destruct (delete_events_ok (it_deleted (io i)) q _ extra Hq) as (q1 & e1 & -> & Hq1 & Hn1). cbn [mbind option_bind].
    unfold flb_event_load_injected_events. rewrite drop_app_length.
    destruct (load_all_ok (it_events (io i)) (it_injected (io i)) q1 _ e1 Hq1) as (q2 & -> & Hq2 & Hn2).
    { intros e' ?. apply (Hio i), elem_of_app. by left. }
    cbn [mbind option_bind].
    destruct (load_ready_ok (it_events (io i)) (it_ready (io i)) q2 _ e1 Hq2) as (q3 & -> & Hq3 & Hn3).
    { intros e' ?. apply (Hio i), elem_of_app. by right. }
    cbn [mbind option_bind]. destruct (take_next_ok q3 _ e1 Hq3) as (q4 & Htake & Hq4 & Hn4).
    destruct (flb_bucket_queue_find_min q3) as [[next q3']|]; [|done]. cbn [mbind option_bind] in *. rewrite Htake. cbn [mbind option_bind].
    rewrite Hn2, Hn1, Hn in Hq4. fold (spec_iteration n (io i) (after_delete l)) in Hq4.
    assert (Hmin : fst <$> spec_min (foldl (spec_load_live (bq_n_buckets q2) (it_events (io i)))
        (foldl (spec_load_event (bq_n_buckets q1) (it_events (io i))) (foldl (λ l e, spec_remove e l) (after_delete l) (it_deleted (io i)))
           (it_injected (io i))) (it_ready (io i))) = fst <$> spec_min (spec_iteration n (io i) (after_delete l))).
    { by rewrite Hn2, Hn1, Hn. }
    rewrite Hmin.
    destruct (IH (S i) q4 (spec_iteration n (io i) (after_delete l)) e1 (it_ready (io i)) Hq4) as (q5 & e5 & -> & Hq5); [congruence|].
    cbn [mbind option_bind]. destruct (spec_foreach n max io (S i) _) as [[handled l'] dropped]. by exists q5, e5.
Qed.

(** The loop handles at most [max] events; unless the list is empty then, one more has been taken from it. *)
Lemma spec_foreach_bound n max io : ∀ i l,
  let '(handled, l', dropped) := spec_foreach n max io i l in
  (length handled <= max)%nat ∧
  match dropped with None => l' = [] | Some e => length handled = max ∧ e ∉ l'.*1 end.
Proof.
  induction max as [|max IH]; intros i l; cbn [spec_foreach]; (destruct (spec_min l) as [[e p]|] eqn:Hm;
    [|apply spec_min_None in Hm as ->; split; [cbn; lia|done]]).
  - split; [done|]. split; [done|]. by apply (spec_min_after l e p).
  - specialize (IH (S i) (spec_iteration n (io i) (after_delete l))).
    destruct (spec_foreach n max io (S i) _) as [[handled l'] dropped]. destruct IH as [Hle Hd].
    split; [cbn; lia|]. destruct dropped; [|done]. destruct Hd as [Hl ?]. cbn. auto.
Qed.

(** A round of the event loop handles events by priority, first come first served among equals, whatever
    the handlers delete and inject and whatever becomes ready in between: it is the loop [spec_foreach] on
    the list of events that are waiting.  It handles at most the given number of events, and ends early
    only when no event waits.  Otherwise one event more has been taken out of the queue, which is then
    neither handled nor waiting: unless it becomes ready again, as an event that was injected does not, it
    is lost. *)
Theorem live_foreach_by_priority max events io q l extra ready :
  represents q l extra → (∀ e, e ∈ ready → is_Some (events !! e)) → (∀ i, io_ok (io i)) →
  ∃ handled q' l' extra' dropped,
    flb_event_priority_live_foreach max events io q ready = Some (handled, q', dropped) ∧
    spec_foreach (bq_n_buckets q) max io 0 (foldl (spec_load_live (bq_n_buckets q) events) l ready) = (handled, l', dropped) ∧
    represents q' l' extra' ∧ (length handled <= max)%nat ∧
    match dropped with None => l' = [] | Some e => length handled = max ∧ e ∉ l'.*1 end.
Proof.
  intros Hq He Hio. unfold flb_event_priority_live_foreach. set (l0 := foldl _ l ready).
  destruct (load_ready_ok events ready q l extra Hq He) as (q1 & -> & Hq1 & Hn1). fold l0 in Hq1. cbn [mbind option_bind].
  destruct (take_next_ok q1 l0 extra Hq1) as (q2 & Htake & Hq2 & Hn2).
  destruct (flb_bucket_queue_find_min q1) as [[next q1']|]; [|done]. cbn [mbind option_bind] in *. rewrite Htake. cbn [mbind option_bind].
  destruct (live_foreach_ok (bq_n_buckets q) max io Hio 0 q2 l0 extra ready Hq2) as (q3 & e3 & -> & Hq3); [congruence|].
  pose proof (spec_foreach_bound (bq_n_buckets q) max io 0 l0) as Hb.
  destruct (spec_foreach (bq_n_buckets q) max io 0 l0) as [[handled l'] dropped]. destruct Hb.
  exists handled, q3, l', e3, dropped. done.
Qed.

(** Three events, of which the second has the highest priority, and rounds of two: the last is lost. *)
Definition ex_events : gmap nat mk_event := {[ 10%nat := mk_ev 3 true; 11%nat := mk_ev 1 true; 12%nat := mk_ev 3 true ]}.
Definition ex_io (i : nat) : iteration_io := mk_iteration ex_events [] [] [].
Definition ex_queue : flb_bucket_queue := mk_bq (replicate 8 []) 8 0.

Lemma live_foreach_by_priority_witness :
  (∃ q', flb_event_priority_live_foreach 2 ex_events ex_io ex_queue [10; 11; 12]%nat = Some ([11; 10]%nat, q', Some 12%nat)) ∧
  ∃ handled q' l' extra' dropped,
    flb_event_priority_live_foreach 2 ex_events ex_io ex_queue [10; 11; 12]%nat = Some (handled, q', dropped) ∧
    represents q' l' extra'.
Proof.
  split; [eexists; vm_compute; reflexivity|].
  assert (Hq : represents ex_queue [] 0).
  { destruct (create_ok 8 ex_env) as (o & s' & Hc & _ & Hq). vm_compute in Hc. injection Hc as <- <-. by apply Hq. }
  assert (He : ∀ e, e ∈ [10; 11; 12]%nat → is_Some (ex_events !! e)).
  { intros e Hin. repeat (apply elem_of_cons in Hin as [->|Hin]; [by eexists|]). by apply elem_of_nil in Hin. }
  destruct (live_foreach_by_priority 2 ex_events ex_io ex_queue [] 0 [10; 11; 12]%nat Hq He) as (h & q' & l' & e' & d & H1 & _ & H3 & _).
  - intros i e Hin. by apply elem_of_nil in Hin.
  - exists h, q', l', e', d. split; [exact H1|exact H3].
Defined.
