(* ===== verification/MsgPack.v ===== *)
(** * Records as objects: MessagePack values and CFL variants ([src/flb_mp.c], the conversions)

    The bytes of MessagePack are the business of a vendored library: here are its objects, the variants of
    the vendored CFL library, and the conversions between them, which the routing of logs applies to every
    record.  Packing gives the sequence of calls to the packer, so equal sequences are equal bytes. *)
From S2P Require Import Prelude CStd Env Heap.

(** ** Data *)

Inductive msgpack_object :=
| MSGPACK_OBJECT_NIL
| MSGPACK_OBJECT_BOOLEAN (b : bool)
| MSGPACK_OBJECT_POSITIVE_INTEGER (u64 : Z)
| MSGPACK_OBJECT_NEGATIVE_INTEGER (i64 : Z)
| MSGPACK_OBJECT_FLOAT32 (f64 : double)
| MSGPACK_OBJECT_FLOAT64 (f64 : double)
| MSGPACK_OBJECT_STR (s : list Z)
| MSGPACK_OBJECT_BIN (s : list Z)
| MSGPACK_OBJECT_EXT (type : Z) (s : list Z)
| MSGPACK_OBJECT_ARRAY (l : list msgpack_object)
| MSGPACK_OBJECT_MAP (l : list (msgpack_object * msgpack_object)).

Inductive cfl_variant :=
| CFL_VARIANT_BOOL (b : bool)
| CFL_VARIANT_INT (i : Z)
| CFL_VARIANT_UINT (u : Z)
| CFL_VARIANT_DOUBLE (d : double)
| CFL_VARIANT_NULL
| CFL_VARIANT_REFERENCE
| CFL_VARIANT_STRING (s : list Z)
| CFL_VARIANT_BYTES (s : list Z)
| CFL_VARIANT_ARRAY (l : list cfl_variant)
| CFL_VARIANT_KVLIST (l : list (list Z * cfl_variant)).

(** [cfl_kvlist_fetch]: the first entry with the key, in any case of its letters *)
Definition cfl_kvlist_fetch (l : list (list Z * cfl_variant)) (key : list Z) : option cfl_variant :=
  match list_find (λ kv, zlen kv.1 = zlen key ∧ strcasecmp_eq kv.1 key = true) l with
  | Some (_, kv) => Some kv.2
  | None => None
  end.

(** ** From MessagePack to CFL *)

(** Only maps and arrays become objects. *)
Definition is_container (o : msgpack_object) : bool :=
  match o with MSGPACK_OBJECT_MAP _ | MSGPACK_OBJECT_ARRAY _ => true | _ => false end.

Section conversion.
Context {S : Type} `{HasEnv S}.

(** A call of the CFL library that makes a variant *)
Definition cfl_create (v : cfl_variant) : M S (option cfl_variant) :=
  ok ← syscall; mret (if (ok : bool) then Some v else None).

(** One that adds an entry to an array or a map: 0, or -1 or -2 when there is no memory *)
Definition cfl_add : M S Z :=
  ok ← syscall;
  if (ok : bool) then mret 0 else ok ← syscall; mret (if (ok : bool) then -1 else -2).

(** [None] is -1: a key that is no string, a value of an extension type anywhere inside, or no memory.  An
    entry that could not be added is missing, unless it is the last and the code is -1.  Elements of an
    array that are no containers have their slots already. *)
Fixpoint mp_object_to_cfl (o : msgpack_object) : M S (option cfl_variant) :=
  match o with
  | MSGPACK_OBJECT_NIL => cfl_create CFL_VARIANT_NULL
  | MSGPACK_OBJECT_BOOLEAN b => cfl_create (CFL_VARIANT_BOOL b)
  | MSGPACK_OBJECT_POSITIVE_INTEGER u => cfl_create (CFL_VARIANT_UINT u)
  | MSGPACK_OBJECT_NEGATIVE_INTEGER i => cfl_create (CFL_VARIANT_INT i)
  | MSGPACK_OBJECT_FLOAT32 d | MSGPACK_OBJECT_FLOAT64 d => cfl_create (CFL_VARIANT_DOUBLE d)
  | MSGPACK_OBJECT_STR s => cfl_create (CFL_VARIANT_STRING s)
  | MSGPACK_OBJECT_BIN s => cfl_create (CFL_VARIANT_BYTES s)
  | MSGPACK_OBJECT_EXT _ _ => mret None
  | MSGPACK_OBJECT_ARRAY l =>
      ok ← syscall;
      if (ok : bool) then
        (fix elements l added ret := match l with
         | [] => mret (if ret =? -1 then None else Some (CFL_VARIANT_ARRAY added))
         | x :: l' =>
             v ← mp_object_to_cfl x;
             match v with
             | None => mret None
             | Some v =>
                 ret ← (if is_container x then cfl_add else mret 0);
                 elements l' (if ret =? 0 then added ++ [v] else added) ret
             end
         end) l [] 0
      else mret None
  | MSGPACK_OBJECT_MAP l =>
      ok ← syscall;
      if (ok : bool) then
        (fix pairs l added ret := match l with
         | [] => mret (if ret =? -1 then None else Some (CFL_VARIANT_KVLIST added))
         | (MSGPACK_OBJECT_STR key, x) :: l' =>
             v ← mp_object_to_cfl x;
             match v with
             | None => mret None
             | Some v =>
                 ret ← cfl_add;
                 pairs l' (if ret =? 0 then added ++ [(key, v)] else added) ret
             end
         | _ :: _ => mret None
         end) l [] 0
      else mret None
  end.
End conversion.

(** ** From CFL to MessagePack *)

(** The calls to the packer *)
Inductive packed :=
| pack_nil | pack_bool (b : bool) | pack_int64 (i : Z) | pack_uint64 (u : Z) | pack_double (d : double) | pack_float (d : double)
| pack_str (s : list Z) | pack_bin (s : list Z) | pack_ext (type : Z) (s : list Z) | pack_array (n : Z) | pack_map32 (n : Z).

(** The header of a map is written first, with 32 bits for the size that it gets at the end
    ([flb_mp_map_header_init]). *)
Fixpoint mp_cfl_to_msgpack (var : cfl_variant) : list packed :=
  match var with
  | CFL_VARIANT_BOOL b => [pack_bool b]
  | CFL_VARIANT_INT i => [pack_int64 i]
  | CFL_VARIANT_UINT u => [pack_uint64 u]
  | CFL_VARIANT_DOUBLE d => [pack_double d]
  | CFL_VARIANT_NULL => [pack_nil]
  | CFL_VARIANT_REFERENCE => []
  | CFL_VARIANT_STRING s => [pack_str s]
  | CFL_VARIANT_BYTES s => [pack_bin s]
  | CFL_VARIANT_ARRAY l => pack_array (zlen l) :: (l ≫= mp_cfl_to_msgpack)
  | CFL_VARIANT_KVLIST l => pack_map32 (zlen l) :: (l ≫= λ kv, pack_str kv.1 :: mp_cfl_to_msgpack kv.2)
  end.

(** ** The round trip *)

(** What [msgpack_pack_object] does, but for maps of less than 65536 entries, which get a shorter header there *)
Fixpoint pack_object (o : msgpack_object) : list packed :=
  match o with
  | MSGPACK_OBJECT_NIL => [pack_nil]
  | MSGPACK_OBJECT_BOOLEAN b => [pack_bool b]
  | MSGPACK_OBJECT_POSITIVE_INTEGER u => [pack_uint64 u]
  | MSGPACK_OBJECT_NEGATIVE_INTEGER i => [pack_int64 i]
  | MSGPACK_OBJECT_FLOAT32 d => [pack_float d]
  | MSGPACK_OBJECT_FLOAT64 d => [pack_double d]
  | MSGPACK_OBJECT_STR s => [pack_str s]
  | MSGPACK_OBJECT_BIN s => [pack_bin s]
  | MSGPACK_OBJECT_EXT t s => [pack_ext t s]
  | MSGPACK_OBJECT_ARRAY l => pack_array (zlen l) :: (l ≫= pack_object)
  | MSGPACK_OBJECT_MAP l => pack_map32 (zlen l) :: (l ≫= λ kv, pack_object kv.1 ++ pack_object kv.2)
  end.

(** The variant of an object, unless it has a key that is no string or a value of an extension type *)
Fixpoint cfl_of (o : msgpack_object) : option cfl_variant :=
  match o with
  | MSGPACK_OBJECT_NIL => Some CFL_VARIANT_NULL
  | MSGPACK_OBJECT_BOOLEAN b => Some (CFL_VARIANT_BOOL b)
  | MSGPACK_OBJECT_POSITIVE_INTEGER u => Some (CFL_VARIANT_UINT u)
  | MSGPACK_OBJECT_NEGATIVE_INTEGER i => Some (CFL_VARIANT_INT i)
  | MSGPACK_OBJECT_FLOAT32 d | MSGPACK_OBJECT_FLOAT64 d => Some (CFL_VARIANT_DOUBLE d)
  | MSGPACK_OBJECT_STR s => Some (CFL_VARIANT_STRING s)
  | MSGPACK_OBJECT_BIN s => Some (CFL_VARIANT_BYTES s)
  | MSGPACK_OBJECT_EXT _ _ => None
  | MSGPACK_OBJECT_ARRAY l =>
      CFL_VARIANT_ARRAY <$> (fix elements l := match l with
        | [] => Some []
        | x :: l' => v ← cfl_of x; vs ← elements l'; Some (v :: vs)
        end) l
  | MSGPACK_OBJECT_MAP l =>
      CFL_VARIANT_KVLIST <$> (fix pairs l := match l with
        | [] => Some []
        | (MSGPACK_OBJECT_STR key, x) :: l' => v ← cfl_of x; vs ← pairs l'; Some ((key, v) :: vs)
        | _ :: _ => None
        end) l
  end.

(** The object with its single-precision numbers in double precision *)
Fixpoint widen (o : msgpack_object) : msgpack_object :=
  match o with
  | MSGPACK_OBJECT_FLOAT32 d => MSGPACK_OBJECT_FLOAT64 d
  | MSGPACK_OBJECT_ARRAY l => MSGPACK_OBJECT_ARRAY (widen <$> l)
  | MSGPACK_OBJECT_MAP l => MSGPACK_OBJECT_MAP ((λ kv, (widen kv.1, widen kv.2)) <$> l)
  | _ => o
  end.

(** No extension types, and every key is a string *)
Fixpoint convertible (o : msgpack_object) : bool :=
  match o with
  | MSGPACK_OBJECT_EXT _ _ => false
  | MSGPACK_OBJECT_ARRAY l => forallb convertible l
  | MSGPACK_OBJECT_MAP l => forallb (λ kv, match kv.1 with MSGPACK_OBJECT_STR _ => convertible kv.2 | _ => false end) l
  | _ => true
  end.

Section object_ind.
Variable P : msgpack_object → Prop.
Hypothesis Hleaf : ∀ o, is_container o = false → P o.
Hypothesis Harray : ∀ l, Forall P l → P (MSGPACK_OBJECT_ARRAY l).
Hypothesis Hmap : ∀ l, Forall (λ kv, P kv.1 ∧ P kv.2) l → P (MSGPACK_OBJECT_MAP l).

Lemma msgpack_object_nested_ind : ∀ o, P o.
Proof.
  fix IH 1. intros [| | | | | | | | |l|l]; try (apply Hleaf; reflexivity).
  - apply Harray. induction l as [|x l IHl]; constructor; [apply IH|apply IHl].
  - apply Hmap. induction l as [|[k x] l IHl]; constructor; [split; apply IH|apply IHl].
Qed.
End object_ind.

Lemma cfl_of_packs o :
  match cfl_of o with
  | Some v => convertible o = true ∧ mp_cfl_to_msgpack v = pack_object (widen o)
  | None => convertible o = false
  end.
Proof.
  induction o as [o Ho|l IH|l IH] using msgpack_object_nested_ind.
  - by destruct o.
  - cbn [cfl_of convertible widen pack_object].
    match goal with |- context [?f l] => set (elements := f) end.
    assert (H : match elements l with
      | Some vs => forallb convertible l = true ∧ length vs = length l ∧ vs ≫= mp_cfl_to_msgpack = (widen <$> l) ≫= pack_object
      | None => forallb convertible l = false end).
    { induction IH as [|x l Hx _ IHl]; [done|]. cbn. destruct (cfl_of x) as [v|]; cbn; [|by rewrite Hx].
      destruct Hx as [-> Hx]. destruct (elements l) as [vs|]; cbn; [|done]. destruct IHl as (-> & -> & IHl).
      split_and!; [done|done|]. by rewrite Hx, IHl. }
    destruct (elements l) as [vs|]; [|done]. destruct H as (? & Hlen & Hpack). split; [done|]. cbn.
    rewrite Hpack. unfold zlen. by rewrite length_fmap, Hlen.
  - cbn [cfl_of convertible widen pack_object].
    match goal with |- context [?f l] => set (pairs := f) end.
    match goal with |- context [forallb ?f l] => set (ok := f) end.
    assert (H : match pairs l with
      | Some vs => forallb ok l = true ∧ length vs = length l ∧
          (vs ≫= λ kv, pack_str kv.1 :: mp_cfl_to_msgpack kv.2) =
          ((λ kv, (widen kv.1, widen kv.2)) <$> l) ≫= (λ kv, pack_object kv.1 ++ pack_object kv.2)
      | None => forallb ok l = false end).
    { induction IH as [|[k x] l [_ Hx] _ IHl]; [done|]. destruct k; try done. cbn [snd] in Hx.
      change (forallb ok ((MSGPACK_OBJECT_STR s, x) :: l)) with (convertible x && forallb ok l).
      change (pairs ((MSGPACK_OBJECT_STR s, x) :: l)) with (v ← cfl_of x; vs ← pairs l; Some ((s, v) :: vs)).
      destruct (cfl_of x) as [v|]; cbn [mbind option_bind]; [|by rewrite Hx].
      destruct Hx as [-> Hx]. destruct (pairs l) as [vs|]; cbn [mbind option_bind]; [|done].
      destruct IHl as (-> & Hlen & IHl). split_and!; [done|cbn; by rewrite Hlen|].
      rewrite bind_cons, fmap_cons, bind_cons, IHl. cbn [fst snd]. by rewrite Hx. }
    destruct (pairs l) as [vs|]; [|done]. destruct H as (? & Hlen & Hpack). split; [done|]. cbn.
    rewrite Hpack. unfold zlen. by rewrite length_fmap, Hlen.
Qed.

(** ** Conversions and failures *)

Section running.
Context {S : Type} `{HasEnv S}.

(** Computations that read the script of the library and do nothing else, and their result without failures *)
Definition only_sys {A} (m : M S A) : Prop := ∀ s, ∃ r script, m s = Some (r, set_env (set_e_sys script (env_of s)) s).
Definition quiet {A} (m : M S A) (a : A) : Prop := ∀ s, calm (env_of s) → m s = Some (a, s).

Lemma only_sys_ret {A} (a : A) : only_sys (mret a).
Proof. intros s. exists a, (e_sys (env_of s)). destruct (env_of s) eqn:He. unfold set_e_sys. cbn. rewrite <- He, set_env_of. done. Qed.
Lemma only_sys_bind {A B} (m : M S A) (f : A → M S B) : only_sys m → (∀ a, only_sys (f a)) → only_sys (m ≫= f).
Proof.
  intros Hm Hf s. destruct (Hm s) as (a & sc & Ha). unfold mbind, M_bind. rewrite Ha.
  destruct (Hf a (set_env (set_e_sys sc (env_of s)) s)) as (r & sc' & ->). exists r, sc'. by rewrite env_of_set, set_env_set.
Qed.
Lemma only_sys_syscall : only_sys (syscall (S := S)).
Proof.
  intros s. unfold syscall. destruct (e_sys (env_of s)) as [|b sc] eqn:He; [|by exists b, sc].
  destruct (only_sys_ret true s) as (r & sc & Hr). injection Hr as <- Hs. exists true, sc. by rewrite <- Hs.
Qed.

Lemma quiet_ret {A} (a : A) : quiet (mret a) a.
Proof. done. Qed.
Lemma quiet_bind {A B} (m : M S A) (f : A → M S B) a b : quiet m a → quiet (f a) b → quiet (m ≫= f) b.
Proof. intros Hm Hf s Hs. unfold mbind, M_bind. rewrite (Hm s Hs). by apply Hf. Qed.
Lemma quiet_syscall : quiet (syscall (S := S)) true.
Proof. intros s [_ Hs]. unfold syscall. by rewrite Hs. Qed.

Lemma cfl_add_only_sys : only_sys (cfl_add (S := S)).
Proof.
  apply only_sys_bind; [apply only_sys_syscall|]. intros []; [apply only_sys_ret|].
  apply only_sys_bind; [apply only_sys_syscall|]. intros. apply only_sys_ret.
Qed.
Lemma cfl_add_quiet : quiet (cfl_add (S := S)) 0.
Proof. by eapply quiet_bind; [apply quiet_syscall|]. Qed.

Lemma cfl_create_ok v : only_sys (cfl_create (S := S) v) ∧ quiet (cfl_create (S := S) v) (Some v).
Proof.
  split; [|by eapply quiet_bind; [apply quiet_syscall|]].
  apply only_sys_bind; [apply only_sys_syscall|]. intros. apply only_sys_ret.
Qed.

(** A conversion always ends, and without failures gives the variant of the object. *)
Lemma mp_object_to_cfl_ok o : only_sys (mp_object_to_cfl (S := S) o) ∧ quiet (mp_object_to_cfl (S := S) o) (cfl_of o).
Proof.
  induction o as [o Ho|l IH|l IH] using msgpack_object_nested_ind.
  - destruct o; try discriminate Ho; try apply cfl_create_ok. split; [apply only_sys_ret|done].
  - cbn [mp_object_to_cfl cfl_of]. match goal with |- context [?f l [] 0] => set (elements := f) end.
    match goal with |- context [CFL_VARIANT_ARRAY <$> ?f l] => set (spec := f) end.
    assert (Hall : ∀ added ret, only_sys (elements l added ret) ∧
      (ret = 0 → quiet (elements l added ret) (CFL_VARIANT_ARRAY <$> ((λ vs, added ++ vs) <$> spec l)))).
    { induction IH as [|x l [Hx1 Hx2] _ IHl]; intros added ret; cbn.
      - split; [apply only_sys_ret|]. intros ->. cbn. by rewrite app_nil_r.
      - assert (Hadd : only_sys (if is_container x then cfl_add (S := S) else mret 0) ∧
          quiet (if is_container x then cfl_add (S := S) else mret 0) 0).
        { destruct (is_container x); [split; [apply cfl_add_only_sys|apply cfl_add_quiet]|split; [apply only_sys_ret|done]]. }
        split.
        + apply only_sys_bind; [done|]. intros [v|]; [|apply only_sys_ret]. apply only_sys_bind; [apply Hadd|]. intros. apply IHl.
        + intros ->. eapply quiet_bind; [done|]. destruct (cfl_of x) as [v|]; cbn; [|done].
          eapply quiet_bind; [apply Hadd|]. rewrite Z.eqb_refl.
          replace ((λ vs, added ++ vs) <$> (vs ← spec l; Some (v :: vs))) with ((λ vs, (added ++ [v]) ++ vs) <$> spec l); [by apply IHl|].
          destruct (spec l); cbn; [|done]. by rewrite <- app_assoc. }
    split.
    + apply only_sys_bind; [apply only_sys_syscall|]. intros []; [apply Hall|apply only_sys_ret].
    + eapply quiet_bind; [apply quiet_syscall|]. destruct (Hall [] 0) as [_ Hq]. specialize (Hq eq_refl).
      replace (CFL_VARIANT_ARRAY <$> spec l) with (CFL_VARIANT_ARRAY <$> ((λ vs, [] ++ vs) <$> spec l)); [done|by destruct (spec l)].
  - cbn [mp_object_to_cfl cfl_of]. match goal with |- context [?f l [] 0] => set (pairs := f) end.
    match goal with |- context [CFL_VARIANT_KVLIST <$> ?f l] => set (spec := f) end.
    assert (Hall : ∀ added ret, only_sys (pairs l added ret) ∧
      (ret = 0 → quiet (pairs l added ret) (CFL_VARIANT_KVLIST <$> ((λ vs, added ++ vs) <$> spec l)))).
    { induction IH as [|[k x] l [_ [Hx1 Hx2]] _ IHl]; intros added ret.
      - split; [apply only_sys_ret|]. intros ->. cbn. by rewrite app_nil_r.
      - destruct k; cbn; try (split; [apply only_sys_ret|done]). cbn [snd] in *. split.
        + apply only_sys_bind; [done|]. intros [v|]; [|apply only_sys_ret]. apply only_sys_bind; [apply cfl_add_only_sys|]. intros. apply IHl.
        + intros ->. eapply quiet_bind; [done|]. destruct (cfl_of x) as [v|]; cbn; [|done].
          eapply quiet_bind; [apply cfl_add_quiet|]. rewrite Z.eqb_refl.
          replace ((λ vs, added ++ vs) <$> (vs ← spec l; Some ((s, v) :: vs))) with ((λ vs, (added ++ [(s, v)]) ++ vs) <$> spec l); [by apply IHl|].
          destruct (spec l); cbn; [|done]. by rewrite <- app_assoc. }
    split.
    + apply only_sys_bind; [apply only_sys_syscall|]. intros []; [apply Hall|apply only_sys_ret].
    + eapply quiet_bind; [apply quiet_syscall|]. destruct (Hall [] 0) as [_ Hq]. specialize (Hq eq_refl).
      replace (CFL_VARIANT_KVLIST <$> spec l) with (CFL_VARIANT_KVLIST <$> ((λ vs, [] ++ vs) <$> spec l)); [done|by destruct (spec l)].
Qed.
End running.

(** C21. Whatever fails, a conversion ends.  Without failures it succeeds exactly for objects without values
    of an extension type and keys that are no strings, and packing the variant then is packing the object
    itself, with single precision numbers in double precision and 32 bits for the sizes of maps. *)
Theorem cfl_roundtrip {S} `{HasEnv S} o (s : S) :
  ∃ r s', mp_object_to_cfl o s = Some (r, s') ∧
    (calm (env_of s) → s' = s ∧
       match r with
       | Some v => convertible o = true ∧ mp_cfl_to_msgpack v = pack_object (widen o)
       | None => convertible o = false
       end).
Proof.
  destruct (mp_object_to_cfl_ok (S := S) o) as [Hany Hquiet]. destruct (Hany s) as (r & script & Hr).
  exists r, (set_env (set_e_sys script (env_of s)) s). split; [done|]. intros Hc. rewrite (Hquiet s Hc) in Hr.
  injection Hr as <- Hs. split; [done|]. apply cfl_of_packs.
Qed.

Lemma cfl_roundtrip_witness : ∃ r s',
  mp_object_to_cfl (MSGPACK_OBJECT_MAP [(MSGPACK_OBJECT_STR [97], MSGPACK_OBJECT_ARRAY [MSGPACK_OBJECT_NIL])]) (mk_env [] [] [] 0 0 []) = Some (r, s') ∧
  is_Some r.
Proof.
  destruct (cfl_roundtrip (MSGPACK_OBJECT_MAP [(MSGPACK_OBJECT_STR [97], MSGPACK_OBJECT_ARRAY [MSGPACK_OBJECT_NIL])])
    (mk_env [] [] [] 0 0 [])) as (r & s' & Hr & Hq).
  exists r, s'. split; [exact Hr|]. assert (Hc : calm (env_of (mk_env [] [] [] 0 0 []))) by done. destruct (Hq Hc) as [_ H'].
  destruct r as [v|]; [by eexists|discriminate H'].
Defined.
