(* ===== verification/Packer.v ===== *)
(** * Packing MessagePack ([src/flb_mp.c], headers of maps and arrays)

    A packer writes into a buffer that grows ([sbuffer.h] of the vendored library, which the code also
    manipulates itself: it cuts buffers and writes into them).  A header of 32 bits is written first and
    gets the number of entries at the end.  The bits of floating-point numbers are a parameter. *)
From S2P Require Import Prelude CStd Env Heap MsgPack.

(** ** Buffers

    [sb_mem] is what was written to [data], of which the first [sb_size] bytes are the content: the code
    sets the size back, and forward again. *)
Record msgpack_sbuffer := mk_sbuffer { sb_size : Z; sb_data : option nat; sb_mem : list Z; sb_alloc : Z }.
Definition set_sb_size (x : Z) (b : msgpack_sbuffer) : msgpack_sbuffer := mk_sbuffer x (sb_data b) (sb_mem b) (sb_alloc b).
Definition set_sb_mem (x : list Z) (b : msgpack_sbuffer) : msgpack_sbuffer := mk_sbuffer (sb_size b) (sb_data b) x (sb_alloc b).

Definition sb_content (b : msgpack_sbuffer) : list Z := take (Z.to_nat (sb_size b)) (sb_mem b).
Definition sb_blocks (b : msgpack_sbuffer) : list nat := option_list (sb_data b).

Definition MSGPACK_SBUFFER_INIT_SIZE : Z := 8192.

Definition msgpack_sbuffer_init : msgpack_sbuffer := mk_sbuffer 0 None [] 0.
Definition msgpack_sbuffer_clear (b : msgpack_sbuffer) : msgpack_sbuffer := set_sb_size 0 b.
Definition free_opt (p : option nat) : M heap unit := match p with Some a => free_block a | None => mret tt end.
Definition msgpack_sbuffer_destroy (b : msgpack_sbuffer) : M heap unit := free_opt (sb_data b).
(** What was released belongs to the caller. *)
Definition msgpack_sbuffer_release (b : msgpack_sbuffer) : msgpack_sbuffer := msgpack_sbuffer_init.

(** [realloc]: the block may move. *)
Definition realloc (old : option nat) : M heap (option nat) :=
  p ← alloc;
  match p with
  | None => mret None
  | Some a => free_opt old ≫= λ _, mret (Some a)
  end.

(** The new size: doubled until it is enough; it cannot be doubled more than 64 times. *)
Fixpoint grow (fuel : nat) (nsize need : Z) : Z :=
  match fuel with
  | O => need
  | S fuel' =>
      if need <=? nsize then nsize
      else let tmp_nsize := u64 (nsize * 2) in if tmp_nsize <=? nsize then need else grow fuel' tmp_nsize need
  end.

(** The bytes [buf] at an offset *)
Definition write_at (off : Z) (buf mem : list Z) : list Z :=
  take (Z.to_nat off) mem ++ buf ++ drop (Z.to_nat (off + zlen buf)) mem.

(** The result is 0 or -1.  Writing beyond what was written before is undefined: the bytes between are not
    known. *)
Definition msgpack_sbuffer_write (buf : list Z) (b : msgpack_sbuffer) : M heap (Z * msgpack_sbuffer) :=
  let len := zlen buf in
  let store b := if (0 <=? sb_size b) && (sb_size b <=? zlen (sb_mem b))
                 then Some (0, mk_sbuffer (sb_size b + len) (sb_data b) (write_at (sb_size b) buf (sb_mem b)) (sb_alloc b))
                 else None in
  if u64 (sb_alloc b - sb_size b) <? len then
    let nsize := grow 64 (if sb_alloc b =? 0 then MSGPACK_SBUFFER_INIT_SIZE else u64 (sb_alloc b * 2)) (u64 (sb_size b + len)) in
    tmp ← realloc (sb_data b);
    match tmp with
    | None => mret (-1, b)
    | Some a => deref (store (mk_sbuffer (sb_size b) (Some a) (sb_mem b) nsize))
    end
  else deref (store b).

(** ** Bytes *)

(** Big-endian, in 2, 4 and 8 bytes *)
Definition store16 (d : Z) : list Z := [u8 (Z.shiftr d 8); u8 d].
Definition store32 (d : Z) : list Z := [u8 (Z.shiftr d 24); u8 (Z.shiftr d 16); u8 (Z.shiftr d 8); u8 d].
Definition store64 (d : Z) : list Z := store32 (Z.shiftr d 32) ++ store32 d.

(** [msgpack_pack_real_uint*], [msgpack_pack_real_int*]: the shortest form of a number *)
Definition pack_integer (d : Z) : list Z :=
  if d <? - 2 ^ 5 then
    if d <? - 2 ^ 15 then if d <? - 2 ^ 31 then 0xd3 :: store64 d else 0xd2 :: store32 d
    else if d <? - 2 ^ 7 then 0xd1 :: store16 d else [0xd0; u8 d]
  else if d <? 2 ^ 7 then [u8 d]
  else if d <? 2 ^ 16 then if d <? 2 ^ 8 then [0xcc; u8 d] else 0xcd :: store16 d
  else if d <? 2 ^ 32 then 0xce :: store32 d else 0xcf :: store64 d.

Definition msgpack_pack_array (n : Z) : list Z :=
  if n <? 16 then [Z.lor 0x90 n] else if n <? 65536 then 0xdc :: store16 n else 0xdd :: store32 n.
Definition msgpack_pack_map (n : Z) : list Z :=
  if n <? 16 then [Z.lor 0x80 n] else if n <? 65536 then 0xde :: store16 n else 0xdf :: store32 n.
Definition msgpack_pack_str (l : Z) : list Z :=
  if l <? 32 then [Z.lor 0xa0 l] else if l <? 256 then [0xd9; u8 l]
  else if l <? 65536 then 0xda :: store16 l else 0xdb :: store32 l.
Definition msgpack_pack_bin (l : Z) : list Z :=
  if l <? 256 then [0xc4; u8 l] else if l <? 65536 then 0xc5 :: store16 l else 0xc6 :: store32 l.
Definition msgpack_pack_ext (l type : Z) : list Z :=
  if l =? 1 then [0xd4; u8 type] else if l =? 2 then [0xd5; u8 type] else if l =? 4 then [0xd6; u8 type]
  else if l =? 8 then [0xd7; u8 type] else if l =? 16 then [0xd8; u8 type]
  else if l <? 256 then [0xc7; u8 l; u8 type]
  else if l <? 65536 then 0xc8 :: store16 l ++ [u8 type] else 0xc9 :: store32 l ++ [u8 type].
Definition msgpack_pack_bool (b : bool) : list Z := if b then [0xc3] else [0xc2].
Definition msgpack_pack_nil : list Z := [0xc0].

(** ** Headers of maps and arrays *)

(** [None]: outside what was written *)
Definition set_header_size (fix_type type16 type32 : Z) (off size : Z) (mem : list Z) : option (list Z) :=
  h ← mem !z off;
  let put bytes at_off := if at_off + zlen bytes <=? zlen mem then Some (write_at at_off bytes mem) else None in
  if Z.shiftr h 4 =? fix_type then put [u8 (Z.lor (Z.shiftl fix_type 4) (u8 size))] off
  else if h =? type16 then put (store16 (u16 size)) (off + 1)
  else if h =? type32 then put (store32 (u32 size)) (off + 1)
  else Some mem.
Definition flb_mp_set_map_header_size : Z → Z → list Z → option (list Z) := set_header_size 0x8 0xde 0xdf.
Definition flb_mp_set_array_header_size : Z → Z → list Z → option (list Z) := set_header_size 0x9 0xdc 0xdd.

Record flb_mp_map_header := mk_header { mh_offset : Z; mh_entries : Z }.

Definition mp_header_type_init (b : msgpack_sbuffer) : flb_mp_map_header := mk_header (sb_size b) 0.
(** The result of the packer, the buffer and the header *)
Definition flb_mp_map_header_init (b : msgpack_sbuffer) : M heap (Z * msgpack_sbuffer * flb_mp_map_header) :=
  '(ret, b') ← msgpack_sbuffer_write (msgpack_pack_map 65536) b; mret (ret, b', mp_header_type_init b).
Definition flb_mp_array_header_init (b : msgpack_sbuffer) : M heap (Z * msgpack_sbuffer * flb_mp_map_header) :=
  '(ret, b') ← msgpack_sbuffer_write (msgpack_pack_array 65536) b; mret (ret, b', mp_header_type_init b).
(** [entries] is a [size_t], but the size of a header is an int. *)
Definition flb_mp_map_header_append (mh : flb_mp_map_header) : flb_mp_map_header :=
  mk_header (mh_offset mh) (u64 (mh_entries mh + 1)).
Definition flb_mp_array_header_append (mh : flb_mp_map_header) : flb_mp_map_header := flb_mp_map_header_append mh.
Definition flb_mp_map_header_end (mh : flb_mp_map_header) (b : msgpack_sbuffer) : option msgpack_sbuffer :=
  (λ mem, set_sb_mem mem b) <$> flb_mp_set_map_header_size (mh_offset mh) (i32 (mh_entries mh)) (sb_mem b).
Definition flb_mp_array_header_end (mh : flb_mp_map_header) (b : msgpack_sbuffer) : option msgpack_sbuffer :=
  (λ mem, set_sb_mem mem b) <$> flb_mp_set_array_header_size (mh_offset mh) (i32 (mh_entries mh)) (sb_mem b).

Section bytes.
(** The bits of numbers, in 4 and 8 bytes, the highest first *)
Variables float_bits double_bits : double → list Z.

(** The bytes of a call to the packer, one list per write *)
Definition packed_bytes (p : packed) : list (list Z) :=
  match p with
  | pack_nil => [msgpack_pack_nil]
  | pack_bool b => [msgpack_pack_bool b]
  | pack_int64 z | pack_uint64 z => [pack_integer z]
  | pack_double d => [0xcb :: double_bits d]
  | pack_float d => [0xca :: float_bits d]
  | pack_str s => [msgpack_pack_str (zlen s); s]
  | pack_bin s => [msgpack_pack_bin (zlen s); s]
  | pack_ext t s => [msgpack_pack_ext (zlen s) t; s]
  | pack_array n => [msgpack_pack_array n]
  | pack_map32 n => [0xdf :: store32 n]
  end.

(** [msgpack_pack_object] (unlike the maps of [mp_cfl_to_msgpack], its maps have the shortest header) *)
Fixpoint object_writes (o : msgpack_object) : list (list Z) :=
  match o with
  | MSGPACK_OBJECT_NIL => packed_bytes pack_nil
  | MSGPACK_OBJECT_BOOLEAN b => packed_bytes (pack_bool b)
  | MSGPACK_OBJECT_POSITIVE_INTEGER u => packed_bytes (pack_uint64 u)
  | MSGPACK_OBJECT_NEGATIVE_INTEGER i => packed_bytes (pack_int64 i)
  | MSGPACK_OBJECT_FLOAT32 d => packed_bytes (pack_float d)
  | MSGPACK_OBJECT_FLOAT64 d => packed_bytes (pack_double d)
  | MSGPACK_OBJECT_STR s => packed_bytes (pack_str s)
  | MSGPACK_OBJECT_BIN s => packed_bytes (pack_bin s)
  | MSGPACK_OBJECT_EXT t s => packed_bytes (pack_ext t s)
  | MSGPACK_OBJECT_ARRAY l => msgpack_pack_array (zlen l) :: (l ≫= object_writes)
  | MSGPACK_OBJECT_MAP l => msgpack_pack_map (zlen l) :: (l ≫= λ kv, object_writes kv.1 ++ object_writes kv.2)
  end.
End bytes.

(** Several writes, until one fails *)
Fixpoint pack_writes (ws : list (list Z)) (b : msgpack_sbuffer) : M heap (Z * msgpack_sbuffer) :=
  match ws with
  | [] => mret (0, b)
  | w :: ws' =>
      '(ret, b) ← msgpack_sbuffer_write w b;
      if ret <? 0 then mret (ret, b) else pack_writes ws' b
  end.

Lemma bounded_free_opt p : bounded (free_opt p).
Proof. unfold free_opt. solve_bounded. Qed.
#[export] Hint Resolve bounded_free_opt : bounded.
Lemma bounded_write buf b : bounded (msgpack_sbuffer_write buf b).
Proof. unfold msgpack_sbuffer_write, realloc. solve_bounded. Qed.
#[export] Hint Resolve bounded_write : bounded.
Lemma bounded_pack_writes ws b : bounded (pack_writes ws b).
Proof. revert b. induction ws as [|w ws IH]; intros b; cbn [pack_writes]; solve_bounded. Qed.
#[export] Hint Resolve bounded_pack_writes : bounded.

(** ** Growing *)

(** 64 doublings are enough from any size above zero. *)
Lemma grow_enough fuel extra nsize need : 2 ^ (64 - Z.of_nat fuel) <= nsize < 2 ^ 64 → (fuel <= 64)%nat →
  grow (fuel + extra) nsize need = grow fuel nsize need.
Proof.
  revert nsize. induction fuel as [|fuel IH]; intros nsize Hn Hf; cbn [grow Nat.add]; [exfalso; cbn in Hn; lia|].
  destruct (need <=? nsize); [done|]. destruct (Z.leb_spec (u64 (nsize * 2)) nsize) as [Hle|Hgt]; [done|]. apply IH; [|lia].
  assert (nsize * 2 < 2 ^ 64).
  { destruct (Z.le_gt_cases (2 ^ 64) (nsize * 2)) as [Hbig|]; [|done]. unfold u64 in Hgt.
rewrite <- (Z.mod_unique (nsize * 2) (2 ^ 64) 1 (nsize * 2 - 2 ^ 64)) in Hgt by lia. lia. }
  unfold u64 in *. rewrite Z.mod_small in * by lia. split; [|lia].
  replace (64 - Z.of_nat fuel) with (Z.succ (64 - Z.of_nat (S fuel))) by lia. rewrite Z.pow_succ_r by lia. lia.
Qed.

Lemma grow_range fuel nsize need : 0 <= nsize < 2 ^ 64 → 0 <= need < 2 ^ 64 → need <= grow fuel nsize need < 2 ^ 64.
Proof.
  revert nsize. induction fuel as [|fuel IH]; intros nsize Hn Hneed; cbn [grow]; [lia|].
  destruct (Z.leb_spec need nsize); [lia|]. destruct (_ <=? nsize); [lia|]. apply IH; [|done]. unfold u64. apply Z.mod_pos_bound. lia.
Qed.

(** ** Writing *)

Lemma write_at_length off buf mem : 0 <= off <= zlen mem → zlen (write_at off buf mem) = Z.max (zlen mem) (off + zlen buf).
Proof. unfold write_at, zlen. intros. rewrite !length_app, length_take, length_drop. lia. Qed.

Lemma write_at_take off buf mem : 0 <= off <= zlen mem →
  take (Z.to_nat (off + zlen buf)) (write_at off buf mem) = take (Z.to_nat off) mem ++ buf.
Proof.
  unfold write_at, zlen. intros. rewrite app_assoc. apply take_app_length'. rewrite length_app, length_take. lia.
Qed.

Record sb_ok (b : msgpack_sbuffer) : Prop := {
  so_size : 0 <= sb_size b <= zlen (sb_mem b);
  so_alloc : zlen (sb_mem b) <= sb_alloc b < 2 ^ 64;
  so_data : sb_data b = None → sb_alloc b = 0
}.

Lemma sb_init_ok : sb_ok msgpack_sbuffer_init.
Proof. by constructor. Qed.
Lemma sb_clear_ok b : sb_ok b → sb_ok (msgpack_sbuffer_clear b).
Proof. intros [? ? ?]. constructor; [cbn; pose proof (zlen_nonneg (sb_mem b)); lia|done|done]. Qed.

Lemma zlen_content b : sb_ok b → zlen (sb_content b) = sb_size b.
Proof. intros [? _ _]. unfold sb_content, zlen in *. rewrite length_take. lia. Qed.

Lemma runs_free_opt p X s (Q : unit → heap → Prop) : hp_live s ≡ₚ option_list p ++ X →
  (∀ s', hp_live s' ≡ₚ X → hp_env s' = hp_env s → Q tt s') → runs (free_opt p) s Q.
Proof. destruct p as [a|]; intros Hl HQ; [by apply (runs_free a X)|by apply runs_ret, HQ]. Qed.

Lemma runs_realloc old X s (Q : option nat → heap → Prop) : hp_live s ≡ₚ option_list old ++ X →
  (∀ s', hp_live s' ≡ₚ option_list old ++ X → ¬ calm (hp_env s) → Q None s') →
  (∀ a s', hp_live s' ≡ₚ a :: X → (calm (hp_env s) → calm (hp_env s')) → Q (Some a) s') → runs (realloc old) s Q.
Proof.
  intros Hl HN HS. apply runs_bind, runs_alloc; [intros s' Hs' Hc; apply runs_ret, HN; [by rewrite Hs'|done]|].
  intros a s1 Hs1 Hc1. apply runs_bind. eapply (runs_free_opt old (a :: X)).
  - rewrite Hs1, Hl. by rewrite Permutation_middle.
  - intros s2 Hs2 He2. apply runs_ret, HS; [done|]. by rewrite He2.
Qed.

(** What a write leaves *)
Definition written (b : msgpack_sbuffer) (X : list nat) (buf : list Z) (s : heap) (res : Z * msgpack_sbuffer) (s' : heap) : Prop :=
  let '(ret, b') := res in
  hp_live s' ≡ₚ sb_blocks b' ++ X ∧ sb_ok b' ∧ (calm (hp_env s) → calm (hp_env s')) ∧
  (ret = 0 ∧ sb_size b' = sb_size b + zlen buf ∧ sb_content b' = sb_content b ++ buf ∧ (buf ≠ [] → is_Some (sb_data b')) ∨
   ret = -1 ∧ b' = b ∧ ¬ calm (hp_env s)).

Lemma sbuffer_write_ok b X buf s : sb_ok b → sb_size b + zlen buf < 2 ^ 64 → hp_live s ≡ₚ sb_blocks b ++ X →
  runs (msgpack_sbuffer_write buf b) s (written b X buf s).
Proof.
  intros [Hs Ha Hd] Hlen Hl. unfold msgpack_sbuffer_write. pose proof (zlen_nonneg buf).
  assert (Hstore : ∀ d al s', sb_size b + zlen buf <= al < 2 ^ 64 → zlen (sb_mem b) <= al → (d = None → al = 0 ∧ buf = []) →
    hp_live s' ≡ₚ option_list d ++ X → (calm (hp_env s) → calm (hp_env s')) →
    runs (deref (if (0 <=? sb_size b) && (sb_size b <=? zlen (sb_mem b))
      then Some (0, mk_sbuffer (sb_size b + zlen buf) d (write_at (sb_size b) buf (sb_mem b)) al) else None)) s' (written b X buf s)).
  { intros d al s' Hal Hmem Hdn Hl' Hc. rewrite (proj2 (Z.leb_le _ _)), (proj2 (Z.leb_le _ _)) by lia.
    eapply runs_deref; [reflexivity|]. split_and!; [done| |done|left; split_and!; [done|done| |]].
    - constructor; cbn; rewrite ?write_at_length by lia; [lia|lia|]. intros Hn. by apply Hdn in Hn as [-> ->].
    - unfold sb_content. cbn. by apply write_at_take.
    - cbn. intros Hne. destruct d; [by eexists|]. destruct Hdn; congruence. }
  assert (Hu : u64 (sb_alloc b - sb_size b) = sb_alloc b - sb_size b) by (apply Z.mod_small; lia). rewrite Hu.
  destruct (Z.ltb_spec (sb_alloc b - sb_size b) (zlen buf)) as [Hgrow|Hfits].
  - apply runs_bind, (runs_realloc _ X); [done| |].
    + intros s' Hs' Hc. apply runs_ret. split_and!; [done|by constructor|tauto|by right].
    + intros a s' Hs' Hc. cbn [sb_size sb_mem sb_data sb_alloc].
      assert (Hneed : u64 (sb_size b + zlen buf) = sb_size b + zlen buf) by (apply Z.mod_small; lia). rewrite Hneed.
      destruct (grow_range 64 (if sb_alloc b =? 0 then MSGPACK_SBUFFER_INIT_SIZE else u64 (sb_alloc b * 2)) (sb_size b + zlen buf)) as [Hg1 Hg2].
      { destruct (sb_alloc b =? 0); [unfold MSGPACK_SBUFFER_INIT_SIZE; lia|]. apply Z.mod_pos_bound. lia. }
      { lia. }
      apply Hstore; [lia|lia|done|done|done].
  - apply Hstore; [lia|lia| |done|done]. intros Hn. specialize (Hd Hn). split; [done|]. apply zlen_nil_inv. lia.
Qed.

Lemma content_empty b : sb_ok b → sb_data b = None → sb_content b = [] ∧ sb_size b = 0.
Proof.
  intros [Hsz Ha Hd] Hn. specialize (Hd Hn). assert (Hm : sb_mem b = []) by (apply zlen_nil_inv; lia).
  rewrite Hm in Hsz. unfold sb_content. rewrite Hm, take_nil. change (zlen (@nil Z)) with 0 in Hsz. split; [done|lia].
Qed.

(** ** Writing while no allocation fails *)

Definition appended (b : msgpack_sbuffer) (buf : list Z) (r : Z * msgpack_sbuffer) : Prop :=
  r.1 = 0 ∧ sb_ok r.2 ∧ sb_content r.2 = sb_content b ++ buf ∧ (buf ≠ [] → is_Some (sb_data r.2)).

Lemma calm_write b buf : sb_ok b → zlen (sb_content b ++ buf) < 2 ^ 64 →
  calm_run (sb_blocks b) (msgpack_sbuffer_write buf b) (λ r, sb_blocks r.2) (appended b buf).
Proof.
  intros Hb Hlen s X Hc Hl. rewrite zlen_app, zlen_content in Hlen by done.
  eapply runs_weaken; [by apply (sbuffer_write_ok b X)|]. intros [ret b'] s' (Hl' & Hb' & Hc' & [(-> & _ & Hct & Hd)|(_ & _ & ?)]); [|done].
  split_and!; [auto|done|]. by split_and!.
Qed.

Lemma calm_pack_writes ws b : sb_ok b → zlen (sb_content b ++ concat ws) < 2 ^ 64 →
  calm_run (sb_blocks b) (pack_writes ws b) (λ r, sb_blocks r.2) (λ r, r.1 = 0 ∧ sb_ok r.2 ∧ sb_content r.2 = sb_content b ++ concat ws).
Proof.
  revert b. induction ws as [|w ws IH]; intros b Hb Hlen; cbn [pack_writes concat].
  - apply calm_ret; [done|]. cbn. by rewrite app_nil_r.
  - cbn [concat] in Hlen. pose proof (zlen_nonneg (concat ws)). eapply calm_bind.
    { apply calm_write; [done|]. rewrite !zlen_app in *. lia. }
    intros [ret b'] (Hr & Hb' & Hct & _). cbn in Hr, Hb', Hct. subst ret. cbn. eapply calm_weaken.
    + apply IH; [done|]. rewrite Hct, <- app_assoc. done.
    + intros [r b''] (? & ? & Hct'). split; [done|]. split_and!; [done|done|]. cbn in *. by rewrite Hct', Hct, <- app_assoc.
Qed.

(** ** Headers *)

Lemma content_prefix b : sb_mem b = sb_content b ++ drop (Z.to_nat (sb_size b)) (sb_mem b).
Proof. unfold sb_content. by rewrite take_drop. Qed.

Lemma store32_length d : zlen (store32 d) = 4.
Proof. done. Qed.

Lemma store32_u32 d : store32 (u32 d) = store32 d.
Proof.
  assert (Hk : ∀ k, 0 <= k <= 24 → u8 (Z.shiftr (u32 d) k) = u8 (Z.shiftr d k)).
  { intros k Hk. apply Z.bits_inj'. intros i Hi. unfold u8, u32. destruct (Z.lt_ge_cases i 8) as [Hlt|Hge].
    - rewrite !Z.mod_pow2_bits_low, !Z.shiftr_spec by lia. by rewrite Z.mod_pow2_bits_low by lia.
    - by rewrite !Z.mod_pow2_bits_high by lia. }
  unfold store32. rewrite !Hk by lia. do 3 f_equal. f_equal. pose proof (Hk 0) as H0. rewrite !Z.shiftr_0_r in H0. by apply H0.
Qed.

Lemma store32_i32 d : store32 (i32 d) = store32 d.
Proof.
  rewrite <- (store32_u32 (i32 d)), <- (store32_u32 d). f_equal. unfold u32, i32.
  rewrite Zminus_mod_idemp_l. f_equal. lia.
Qed.

(** A header of 32 bits gets a new size. *)
Lemma set_header_size_32 fix_type type16 type32 pre old post n rest :
  Z.shiftr type32 4 ≠ fix_type → type32 ≠ type16 →
  set_header_size fix_type type16 type32 (zlen pre) (i32 n) (pre ++ (type32 :: store32 old) ++ post ++ rest) =
  Some (pre ++ (type32 :: store32 n) ++ post ++ rest).
Proof.
  intros Hf H16. unfold set_header_size.
  assert (Hh : (pre ++ (type32 :: store32 old) ++ post ++ rest) !z zlen pre = Some type32).
  { unfold zlookup. pose proof (zlen_nonneg pre). destruct (Z.leb_spec 0 (zlen pre)); [|lia].
    unfold zlen. rewrite Nat2Z.id, lookup_app_r, Nat.sub_diag by done. done. }
  rewrite Hh. cbn [mbind option_bind]. rewrite (proj2 (Z.eqb_neq _ _) Hf), (proj2 (Z.eqb_neq _ _) H16), Z.eqb_refl.
  rewrite store32_length. cbn [app]. rewrite !zlen_app, zlen_cons, !zlen_app, store32_length.
  pose proof (zlen_nonneg post). pose proof (zlen_nonneg rest). rewrite (proj2 (Z.leb_le _ _)) by lia. f_equal.
  rewrite store32_u32, store32_i32.
  unfold write_at. rewrite store32_length.
  assert (Hsplit : ∀ x l, (pre ++ (type32 :: x) ++ l) = (pre ++ [type32]) ++ x ++ l) by (intros; by rewrite <- app_assoc).
  assert (H1 : Z.to_nat (zlen pre + 1) = length (pre ++ [type32])) by (rewrite length_app; unfold zlen; cbn; lia).
  assert (H2 : Z.to_nat (zlen pre + 1 + 4) = length ((pre ++ [type32]) ++ store32 old)) by (rewrite !length_app; unfold zlen; cbn; lia).
  change (type32 :: store32 old ++ post ++ rest) with ((type32 :: store32 old) ++ post ++ rest).
  change (type32 :: store32 n ++ post ++ rest) with ((type32 :: store32 n) ++ post ++ rest).
  rewrite !Hsplit, H1, take_app_length, H2, (app_assoc (pre ++ [type32]) (store32 old)), drop_app_length. done.
Qed.

(** The header of a map at the end of its entries *)
Lemma map_header_end_ok b pre post n : sb_ok b → sb_content b = pre ++ (0xdf :: store32 65536) ++ post →
  ∃ b', flb_mp_map_header_end (mk_header (zlen pre) n) b = Some b' ∧ sb_ok b' ∧ sb_data b' = sb_data b ∧
        sb_content b' = pre ++ (0xdf :: store32 n) ++ post.
Proof.
  intros Hok Hc. set (rest := drop (Z.to_nat (sb_size b)) (sb_mem b)).
  assert (Hmem : sb_mem b = pre ++ (0xdf :: store32 65536) ++ post ++ rest).
  { rewrite (content_prefix b), Hc. subst rest. by rewrite <- !app_assoc. }
  assert (Hz : zlen (sb_content b) = sb_size b) by (by apply zlen_content). destruct Hok as [Hsz Hal Hd].
  unfold flb_mp_map_header_end, flb_mp_set_map_header_size. cbn [mh_offset mh_entries]. rewrite Hmem, set_header_size_32 by done.
  eexists. split; [reflexivity|]. assert (H5 : ∀ m, zlen (0xdf :: store32 m) = 5) by done.
  rewrite Hc in Hz. rewrite !zlen_app, H5 in Hz. rewrite Hmem in Hsz, Hal. rewrite !zlen_app, H5 in Hsz, Hal.
  split_and!; [constructor; cbn [sb_size sb_mem sb_alloc sb_data set_sb_mem]; rewrite ?zlen_app, ?H5; try done; lia|done|].
  unfold sb_content. cbn [sb_size sb_mem set_sb_mem]. rewrite !app_assoc. apply take_app_length'.
  rewrite <- (zlen_nat (_ ++ _)), !zlen_app, H5. f_equal. lia.
Qed.

Lemma store32_u64 d : store32 (u64 d) = store32 d.
Proof.
  rewrite <- (store32_u32 (u64 d)), <- (store32_u32 d). f_equal. unfold u32, u64.
  replace (2 ^ 64) with (2 ^ 32 * 2 ^ 32) by done. by rewrite Z.rem_mul_r, Z.mul_comm, Z.mod_add, Z.mod_mod by done.
Qed.
