(* ===== verification/Sds.v ===== *)
(** * Dynamic strings ([src/flb_sds.c], [flb_sds.h])

    A string is a block with a header: its length and the room for text, without the NUL at the end.  What is
    known of the text are the bytes written so far.  Printing with formats is not modelled. *)
From S2P Require Import Prelude CStd Env Heap MsgPack Packer.

(** ** Strings *)

Record flb_sds := mk_sds { s_block : nat; s_len : Z; s_alloc : Z; s_buf : list Z }.
Definition set_s_len (x : Z) (s : flb_sds) : flb_sds := mk_sds (s_block s) x (s_alloc s) (s_buf s).
Definition set_s_buf (x : list Z) (s : flb_sds) : flb_sds := mk_sds (s_block s) (s_len s) (s_alloc s) x.

Definition FLB_SDS_HEADER_SIZE : Z := 16.

Definition flb_sds_len (s : flb_sds) : Z := s_len s.
Definition flb_sds_len_set (s : flb_sds) (len : Z) : flb_sds := set_s_len len s.
Definition flb_sds_alloc (s : flb_sds) : Z := s_alloc s.
Definition flb_sds_avail (s : flb_sds) : Z := u64 (s_alloc s - s_len s).
Definition flb_sds_is_empty (s : flb_sds) : bool := flb_sds_len s =? 0.

(** Bytes written to [s + off]: within the block, and behind what is known only. *)
Definition sds_write (off : Z) (bytes : list Z) (s : flb_sds) : option flb_sds :=
  if (0 <=? off) && (off <=? zlen (s_buf s)) && (off + zlen bytes <=? s_alloc s + 1)
  then Some (set_s_buf (write_at off bytes (s_buf s)) s) else None.
(** [len] bytes of a buffer *)
Definition bytes_of (str : list Z) (len : Z) : option (list Z) :=
  if (0 <=? len) && (len <=? zlen str) then Some (take (Z.to_nat len) str) else None.

(** Requests that overflow [size_t] are taken as undefined. *)
Definition block_size (size : Z) : option Z :=
  if (0 <=? size) && (size <? 2 ^ 64 - FLB_SDS_HEADER_SIZE - 1) then Some (FLB_SDS_HEADER_SIZE + size + 1) else None.

Definition sds_alloc (size : Z) : M heap (option flb_sds) :=
  deref (block_size size) ≫= λ _,
  buf ← alloc;
  mret (match buf with None => None | Some a => Some (mk_sds a 0 size [0]) end).

Definition flb_sds_create_len (str : option (list Z)) (len : Z) : M heap (option flb_sds) :=
  s ← sds_alloc len;
  match s with
  | None => mret None
  | Some s =>
      match str with
      | None => mret (Some s)
      | Some str =>
          bytes ← deref (bytes_of str len);
          s ← deref (sds_write 0 bytes s);
          s ← deref (sds_write len [0] s);
          mret (Some (set_s_len len s))
      end
  end.

Definition flb_sds_create (str : option (list Z)) : M heap (option flb_sds) :=
  flb_sds_create_len str (match str with None => 0 | Some str => i32 (zlen (until_nul str)) end).

Definition flb_sds_create_size (size : Z) : M heap (option flb_sds) := sds_alloc size.

(** When there is no memory the string stays as it is. *)
Definition flb_sds_increase (s : flb_sds) (len : Z) : M heap (option flb_sds) :=
  deref (block_size (s_alloc s + len)) ≫= λ _,
  tmp ← realloc (Some (s_block s));
  mret (match tmp with None => None | Some a => Some (mk_sds a (s_len s) (s_alloc s + len) (s_buf s)) end).

(** Room for [len] bytes after the text, or after its beginning *)
Definition make_room (avail len : Z) (s : flb_sds) : M heap (option flb_sds) :=
  if avail <? u64 len then flb_sds_increase s (u64 len) else mret (Some s).

Definition flb_sds_cat (s : flb_sds) (str : list Z) (len : Z) : M heap (option flb_sds) :=
  t ← make_room (flb_sds_avail s) len s;
  match t with
  | None => mret None
  | Some s =>
      bytes ← deref (bytes_of str len);
      s ← deref (sds_write (s_len s) bytes s);
      let s := set_s_len (u64 (s_len s + len)) s in
      s ← deref (sds_write (s_len s) [0] s);
      mret (Some s)
  end.

Definition flb_sds_cat_safe (buf : flb_sds) (str : list Z) (len : Z) : M heap (Z * flb_sds) :=
  tmp ← flb_sds_cat buf str len;
  mret (match tmp with None => (-1, buf) | Some s => (0, s) end).

Definition flb_sds_copy (s : flb_sds) (str : list Z) (len : Z) : M heap (option flb_sds) :=
  t ← make_room (flb_sds_alloc s) len s;
  match t with
  | None => mret None
  | Some s =>
      bytes ← deref (bytes_of str len);
      s ← deref (sds_write 0 bytes s);
      s ← deref (sds_write len [0] s);
      mret (Some (set_s_len len s))
  end.

Definition flb_sds_destroy (s : option flb_sds) : M heap unit := free_opt (s_block <$> s).

(** *** Trimming *)

(** [while (left) { if (isspace( *left)) left++; else break; }] *)
Fixpoint left_spaces (fuel : nat) (s : flb_sds) (left : Z) : option Z :=
  c ← s_buf s !z left;
  if isspace c then match fuel with O => None | S fuel' => left_spaces fuel' s (left + 1) end else Some left.
(** [while (right != buf) { if (isspace( *right)) right--; else break; }] *)
Fixpoint right_spaces (fuel : nat) (s : flb_sds) (right : Z) : option Z :=
  if right =? 0 then Some right
  else
    c ← s_buf s !z right;
    if isspace c then match fuel with O => None | S fuel' => right_spaces fuel' s (right - 1) end else Some right.
(** [for (i = 0; i < len; i++) buf[i] = left[i];] *)
Fixpoint move_left (fuel : nat) (s : flb_sds) (left i len : Z) : option flb_sds :=
  if i <? len then
    match fuel with
    | O => None
    | S fuel' => c ← s_buf s !z (left + i); s ← sds_write i [c] s; move_left fuel' s left (i + 1) len
    end
  else Some s.

Definition flb_sds_trim (s : option flb_sds) : option (Z * option flb_sds) :=
  match s with
  | None => Some (-1, None)
  | Some s =>
      let len := u32 (flb_sds_len s) in
      if len =? 0 then Some (0, Some s)
      else
        left ← left_spaces (length (s_buf s)) s 0;
        let right := len - 1 in
        if right <? left then
          s ← sds_write 0 [0] s; Some (-1, Some s)
        else
          right ← right_spaces (length (s_buf s)) s right;
          let len := u32 (right - left + 1) in
          s ← move_left (Z.to_nat len) s left 0 len;
          s ← sds_write len [0] s;
          Some (i32 len, Some (flb_sds_len_set s len))
  end.

(** *** Escaping *)

Section escape.
(** The table of escapes, [None] for NULL, with its size *)
Context (esc : option (list Z)) (esc_size : Z).

Definition escape_of (c : Z) : option (option Z) :=
  match esc with
  | None => Some None
  | Some table => if c <? esc_size then e ← table !z c; Some (if e =? 0 then None else Some e) else Some None
  end.

Definition put_char (c : Z) (s : flb_sds) : option flb_sds :=
  s ← sds_write (s_len s) [c] s; Some (set_s_len (u64 (s_len s + 1)) s).

(** The result is NULL when there is no memory. *)
Fixpoint cat_esc_loop (str : list Z) (s : flb_sds) : M heap (option flb_sds) :=
  match str with
  | [] => s ← deref (sds_write (s_len s) [0] s); mret (Some s)
  | c :: str' =>
      t ← (if flb_sds_avail s <? 8 then flb_sds_increase s 8 else mret (Some s));
      match t with
      | None => mret None
      | Some s =>
          e ← deref (escape_of c);
          s ← deref (match e with
                     | Some e => s ← put_char 92 s; put_char e s
                     | None => put_char c s
                     end);
          cat_esc_loop str' s
      end
  end.

Definition flb_sds_cat_esc (s : flb_sds) (str : list Z) (len : Z) : M heap (option flb_sds) :=
  t ← make_room (flb_sds_avail s) len s;
  match t with
  | None => mret None
  | Some s => bytes ← deref (bytes_of str len); cat_esc_loop bytes s
  end.
End escape.

(** ** Lemmas *)

Record sds_ok (s : flb_sds) : Prop := {
  sk_len : 0 <= s_len s <= s_alloc s;
  sk_buf : s_len s <= zlen (s_buf s) <= s_alloc s + 1;
  sk_alloc : s_alloc s < 2 ^ 63
}.
Definition content (s : flb_sds) : list Z := take (Z.to_nat (s_len s)) (s_buf s).
Definition sds_blocks (s : option flb_sds) : list nat := option_list (s_block <$> s).

Lemma zlen_take {A} (l : list A) n : 0 <= n <= zlen l → zlen (take (Z.to_nat n) l) = n.
Proof. unfold zlen. rewrite length_take. lia. Qed.
Lemma zlen_sds s : sds_ok s → zlen (content s) = s_len s.
Proof. intros [? ? _]. apply zlen_take. lia. Qed.

Lemma sds_write_ok off bytes s : 0 <= off <= zlen (s_buf s) → off + zlen bytes <= s_alloc s + 1 →
  sds_write off bytes s = Some (set_s_buf (write_at off bytes (s_buf s)) s).
Proof. intros H1 H2. unfold sds_write. by rewrite !(proj2 (Z.leb_le _ _)) by lia. Qed.

Lemma bytes_of_all str : bytes_of str (zlen str) = Some str.
Proof.
  unfold bytes_of. rewrite !(proj2 (Z.leb_le _ _)) by (pose proof (zlen_nonneg str); lia). cbn. by rewrite zlen_nat, firstn_all.
Qed.

Lemma block_size_ok size : 0 <= size < 2 ^ 63 → block_size size = Some (FLB_SDS_HEADER_SIZE + size + 1).
Proof. intros H. unfold block_size, FLB_SDS_HEADER_SIZE. by rewrite (proj2 (Z.leb_le _ _)), (proj2 (Z.ltb_lt _ _)) by lia. Qed.

(** Text written at the end, with a NUL behind it *)
Lemma sds_append_ok s str : sds_ok s → s_len s + zlen str <= s_alloc s → ∃ s',
  (s ← sds_write (s_len s) str s;
   let s := set_s_len (u64 (s_len s + zlen str)) s in sds_write (s_len s) [0] s) = Some s' ∧
  sds_ok s' ∧ content s' = content s ++ str ∧ s_block s' = s_block s ∧ s_alloc s' = s_alloc s ∧
  s_buf s' !z s_len s' = Some 0.
Proof.
  intros [Hl Hb Ha] Hfit. pose proof (zlen_nonneg str). rewrite sds_write_ok by lia.
  cbn [mbind option_bind set_s_buf set_s_len s_len s_buf s_alloc s_block]. rewrite u64_id by lia.
  set (buf1 := write_at (s_len s) str (s_buf s)).
  assert (Hz1 : zlen buf1 = Z.max (zlen (s_buf s)) (s_len s + zlen str)) by (apply write_at_length; lia).
  rewrite sds_write_ok by (cbn; unfold zlen in *; cbn; lia). eexists. split; [done|]. cbn.
  assert (Hz2 : zlen (write_at (s_len s + zlen str) [0] buf1) = Z.max (zlen buf1) (s_len s + zlen str + 1)) by (apply write_at_length; lia).
  split_and!; [constructor; cbn; lia| |done..|].
  - unfold content. cbn. unfold write_at at 1. rewrite take_app_le by (rewrite length_take; unfold zlen in *; lia).
    rewrite take_take, Nat.min_id. apply write_at_take. lia.
  - unfold zlookup. rewrite (proj2 (Z.leb_le _ _)) by lia. unfold write_at. rewrite lookup_app_r; rewrite length_take; [|unfold zlen in *; lia].
    replace (_ - _)%nat with 0%nat by (unfold zlen in *; lia). done.
Qed.

(** While no allocation fails *)

Lemma calm_realloc a : calm_run [a] (realloc (Some a)) option_list is_Some.
Proof.
  intros h X Hc Hl. apply (runs_realloc _ X); [done|tauto|]. intros b h' Hl' Hc'. split_and!; [auto|done|by eexists].
Qed.

Lemma calm_increase s len : sds_ok s → 0 <= len → s_alloc s + len < 2 ^ 63 →
  calm_run [s_block s] (flb_sds_increase s len) sds_blocks
    (λ r, ∃ s', r = Some s' ∧ sds_ok s' ∧ content s' = content s ∧ s_len s' = s_len s ∧ s_alloc s' = s_alloc s + len ∧ s_buf s' = s_buf s).
Proof.
  intros [Hl Hb Ha] Hlen Hsum. unfold flb_sds_increase. eapply calm_bind.
  { apply (calm_deref _ _ _ (λ _, [s_block s]) (λ _, True) (block_size_ok (s_alloc s + len) ltac:(lia))); done. }
  intros z _. eapply calm_bind; [apply calm_realloc|]. intros t [a ->]. apply calm_ret; [done|].
  eexists. split; [done|]. split_and!; [constructor; cbn; lia|done..].
Qed.

Lemma calm_make_room avail s len : sds_ok s → 0 <= len → s_alloc s + len < 2 ^ 63 →
  calm_run [s_block s] (make_room avail len s) sds_blocks
    (λ r, ∃ s', r = Some s' ∧ sds_ok s' ∧ content s' = content s ∧ s_len s' = s_len s ∧ s_alloc s <= s_alloc s' <= s_alloc s + len ∧
      s_buf s' = s_buf s ∧ (len <= avail ∧ s_alloc s' = s_alloc s ∨ avail < len ∧ s_alloc s' = s_alloc s + len)).
Proof.
  intros Hs Hlen Hsum. pose proof (sk_alloc _ Hs). pose proof (sk_len _ Hs). unfold make_room. rewrite u64_id by lia. destruct (Z.ltb_spec avail len).
  - eapply calm_weaken; [by apply calm_increase|]. intros r (s' & -> & ? & ? & ? & ? & ?). split; [done|].
    exists s'. split_and!; try done; [lia..|by right].
  - apply calm_ret; [done|]. exists s. split_and!; try done; [lia..|by left].
Qed.

Lemma calm_cat s str : sds_ok s → s_alloc s + zlen str < 2 ^ 63 →
  calm_run [s_block s] (flb_sds_cat s str (zlen str)) sds_blocks
    (λ r, ∃ s', r = Some s' ∧ sds_ok s' ∧ content s' = content s ++ str ∧ s_alloc s' <= Z.max (s_alloc s) (s_len s + 2 * zlen str) ∧
      s_buf s' !z s_len s' = Some 0).
Proof.
  intros Hs Hsum. pose proof (zlen_nonneg str). pose proof (sk_len _ Hs). unfold flb_sds_cat. eapply calm_bind.
  { apply calm_make_room; [done..]. }
  intros t (s1 & -> & Hs1 & Hct & Hln & Hal & _ & Hroom). rewrite bytes_of_all.
  assert (Hav : flb_sds_avail s = s_alloc s - s_len s) by (apply u64_id; destruct Hs; lia). rewrite Hav in Hroom.
  destruct (sds_append_ok s1 str) as (s' & Hw & Hs' & Hct' & Hbl & Hal' & Hnul); [done| |].
  { lia. }
  cbn [mbind option_bind] in Hw. destruct (sds_write (s_len s1) str s1) as [s2|] eqn:Hw1; [|done]. cbn [mbind option_bind] in Hw.
  intros h X Hc Hlive. cbn [sds_blocks option_list fmap option_fmap option_map app] in Hlive.
  do 2 (apply runs_bind; eapply runs_deref; [first [done|exact Hw1]|]).
  apply runs_bind. eapply runs_deref; [exact Hw|]. apply runs_ret. split_and!; [done| |].
  - rewrite Hlive. cbn. by rewrite Hbl.
  - exists s'. split_and!; [done..| |lia|done]. by rewrite Hct', Hct.
Qed.

Lemma calm_create_empty : calm_run [] (flb_sds_create (Some [])) sds_blocks
  (λ r, ∃ s, r = Some s ∧ sds_ok s ∧ content s = [] ∧ s_len s = 0 ∧ s_alloc s = 0).
Proof.
  intros h X Hc Hl. unfold flb_sds_create, flb_sds_create_len, sds_alloc.
  apply runs_bind, runs_bind. eapply runs_deref; [done|]. apply runs_bind.
  eapply runs_weaken; [by apply (calm_alloc [] h X)|]. intros r h' (Hc' & Hl' & [a ->]). cbn. apply runs_ret.
  do 3 (apply runs_bind; eapply runs_deref; [reflexivity|]). apply runs_ret. split_and!; [done|done|].
  eexists. split; [done|]. by split_and!.
Qed.

Lemma calm_destroy s : calm_run (sds_blocks s) (flb_sds_destroy s) (λ _, []) (λ _, True).
Proof.
  intros h X Hc Hl. apply (runs_free_opt _ X); [done|]. intros h' Hl' He. by rewrite He.
Qed.

(** ** Trimming *)

Definition trimmed (t : list Z) : list Z := rev (skip_while isspace (rev (skip_while isspace t))).

Lemma skip_while_split p t : ∃ sp, t = sp ++ skip_while p t ∧ Forall (λ c, p c = true) sp ∧
  match skip_while p t with c :: _ => p c = false | [] => True end.
Proof.
  induction t as [|c t (sp & Ht & Hsp & Hhd)]; [by exists []|]. cbn. destruct (p c) eqn:Hc.
  - exists (c :: sp). split_and!; [by rewrite Ht at 1|by constructor|done].
  - by exists [].
Qed.

(** Spaces around what is left of the text; its last character is none. *)
Lemma trimmed_split t : ∃ sp sp', t = sp ++ trimmed t ++ sp' ∧ Forall (λ c, isspace c = true) sp ∧ Forall (λ c, isspace c = true) sp' ∧
  match trimmed t ++ sp' with c :: _ => isspace c = false | [] => True end ∧
  (trimmed t = [] ∨ ∃ u c, trimmed t = u ++ [c] ∧ isspace c = false).
Proof.
  unfold trimmed. destruct (skip_while_split isspace t) as (sp & Ht & Hsp & Hhd). set (t1 := skip_while isspace t) in *.
  destruct (skip_while_split isspace (rev t1)) as (sp' & Ht' & Hsp' & Hhd'). set (t2 := skip_while isspace (rev t1)) in *.
  assert (H1 : t1 = rev t2 ++ rev sp') by (rewrite <-rev_app_distr, <-Ht'; by rewrite rev_involutive).
  exists sp, (rev sp'). rewrite <-H1. split_and!; [done|done| |done|].
  - by apply Forall_rev.
  - destruct t2 as [|c t2]; [by left|right]. by exists (rev t2), c.
Qed.

(** The loops *)
Lemma left_spaces_run s sp c rest : Forall (λ c, isspace c = true) sp → isspace c = false → ∀ pre fuel, (length sp <= fuel)%nat →
  s_buf s = pre ++ sp ++ c :: rest → left_spaces fuel s (zlen pre) = Some (zlen pre + zlen sp).
Proof.
  intros Hsp Hc. induction Hsp as [|d sp Hd Hsp IH]; intros pre fuel Hf Hb.
  - rewrite Z.add_0_r. destruct fuel; cbn [left_spaces]; rewrite Hb; cbn [app]; rewrite zlookup_at; cbn; by rewrite Hc.
  - destruct fuel as [|fuel]; [cbn in Hf; lia|]. cbn [left_spaces]. rewrite Hb. cbn [app]. rewrite zlookup_at. cbn [mbind option_bind].
    rewrite Hd, <-(zlen_snoc pre d), (IH (pre ++ [d])); [|cbn in Hf; lia|by rewrite <-snoc_cons].
    rewrite zlen_snoc, zlen_cons. f_equal. lia.
Qed.

Lemma right_spaces_run s pre c sp rest : Forall (λ c, isspace c = true) sp → isspace c = false → ∀ fuel, (length sp <= fuel)%nat →
  s_buf s = pre ++ c :: sp ++ rest → right_spaces fuel s (zlen pre + zlen sp) = Some (zlen pre).
Proof.
  intros Hsp Hc. revert rest. induction sp as [|d sp IH] using rev_ind; intros rest fuel Hf Hb.
  - rewrite Z.add_0_r. destruct fuel; cbn [right_spaces]; destruct (Z.eqb_spec (zlen pre) 0); [congruence| |congruence|];
      rewrite Hb, zlookup_at; cbn; by rewrite Hc.
  - apply Forall_app in Hsp as [Hsp Hd]. inv Hd. rewrite length_app in Hf. destruct fuel as [|fuel]; [cbn in Hf; lia|].
    pose proof (zlen_nonneg pre). pose proof (zlen_nonneg sp). cbn [right_spaces]. rewrite zlen_snoc.
    destruct (Z.eqb_spec (zlen pre + (zlen sp + 1)) 0); [lia|].
    rewrite <-app_assoc in Hb. cbn [app] in Hb. rewrite Hb, zlookup_skip by lia.
    replace ((c :: sp ++ d :: rest) !z (zlen sp + 1)) with (Some d)
      by (rewrite <-(zlen_cons c sp), app_comm_cons; symmetry; apply zlookup_at).
    cbn [mbind option_bind]. rewrite H1. replace (zlen pre + (zlen sp + 1) - 1) with (zlen pre + zlen sp) by lia.
    eapply IH; [done|cbn in Hf; lia|exact Hb].
Qed.

(** Copying [m] characters to the front, from [left] on; the first [i] are done. *)
Lemma move_left_run buf left m : left + Z.of_nat m <= zlen buf → 0 <= left → ∀ i fuel s, (i <= m)%nat → (m - i <= fuel)%nat →
  s_buf s = take i (drop (Z.to_nat left) buf) ++ drop i buf → zlen buf <= s_alloc s + 1 →
  ∃ s', move_left fuel s left (Z.of_nat i) (Z.of_nat m) = Some s' ∧ s' = set_s_buf (take m (drop (Z.to_nat left) buf) ++ drop m buf) s.
Proof.
  intros Hm Hleft i fuel. revert i. induction fuel as [|fuel IH]; intros i s Hi Hf Hb Hal; cbn [move_left].
  - assert (i = m) as -> by lia. rewrite Z.ltb_irrefl. exists s. split; [done|]. rewrite <-Hb. by destruct s.
  - destruct (Z.ltb_spec (Z.of_nat i) (Z.of_nat m)) as [Hlt|Hge].
    2:{ assert (i = m) as -> by lia. exists s. split; [done|]. rewrite <-Hb. by destruct s. }
    unfold zlen in *. destruct (lookup_lt_is_Some_2 buf (Z.to_nat left + i)) as [c Hc]; [lia|].
    assert (Hlen : length (take i (drop (Z.to_nat left) buf)) = i) by (rewrite length_take, length_drop; lia).
    assert (Hget : s_buf s !z (left + Z.of_nat i) = Some c).
    { unfold zlookup. rewrite (proj2 (Z.leb_le _ _)) by lia. rewrite Hb, lookup_app_r by (rewrite Hlen; lia).
      rewrite Hlen, lookup_drop. replace (i + _)%nat with (Z.to_nat left + i)%nat by lia. done. }
    rewrite Hget. cbn [mbind option_bind].
    assert (Hbl : length (s_buf s) = length buf) by (rewrite Hb, length_app, Hlen, length_drop; lia).
    rewrite sds_write_ok by (unfold zlen; cbn; lia). cbn [mbind option_bind].
    replace (Z.of_nat i + 1) with (Z.of_nat (S i)) by lia.
    edestruct (IH (S i)) as (s' & -> & ->); [lia|lia| | |eexists; split; [done|by destruct s]]; [|done].
    cbn [s_buf set_s_buf]. unfold write_at. rewrite Nat2Z.id, Hb. replace (Z.to_nat (Z.of_nat i + zlen [c])) with (i + 1)%nat by (unfold zlen; cbn; lia).
    rewrite take_app_le, firstn_all2, drop_app_ge by (rewrite Hlen; lia). rewrite Hlen, drop_drop.
    replace (i + (i + 1 - i))%nat with (S i) by lia.
    rewrite (take_S_r _ i c) by (rewrite lookup_drop; exact Hc). by rewrite <-app_assoc.
Qed.

(** A text of less than 2 GB with its NUL *)
Definition sds_text (s : flb_sds) : Prop := sds_ok s ∧ s_len s < 2 ^ 31 ∧ s_buf s !z s_len s = Some 0.

Lemma text_buf s : sds_text s → ∃ rest, s_buf s = content s ++ 0 :: rest.
Proof.
  intros ([Hl Hb _] & _ & Hnul). apply zlookup_Some in Hnul as [? Hnul].
  exists (drop (S (Z.to_nat (s_len s))) (s_buf s)). unfold content. by rewrite take_drop_middle.
Qed.

(** The text is moved to the front and ended there. *)
Lemma move_trimmed s sp t back : sds_ok s → s_buf s = sp ++ t ++ back → back ≠ [] → zlen t < 2 ^ 31 → zlen t <= s_alloc s → ∃ s1 s2,
  move_left (length t) s (zlen sp) 0 (zlen t) = Some s1 ∧ sds_write (zlen t) [0] s1 = Some s2 ∧
  sds_text (flb_sds_len_set s2 (zlen t)) ∧ content (flb_sds_len_set s2 (zlen t)) = t.
Proof.
  intros [Hl Hbl Hal] Hb Hback Hmax Hfit. pose proof (zlen_nonneg sp).
  assert (Hn : zlen (s_buf s) = zlen sp + zlen t + zlen back) by (rewrite Hb, !zlen_app; lia).
  assert (Hz : 0 < zlen back) by (destruct back; [done|rewrite zlen_cons; pose proof (zlen_nonneg back); lia]).
  destruct (move_left_run (s_buf s) (zlen sp) (length t)) with (i := 0%nat) (fuel := length t) (s := s) as (s1 & Hmove & ->);
    [unfold zlen in *; lia|done|lia|lia|done|lia|].
  change (Z.of_nat 0) with 0 in Hmove. change (Z.of_nat (length t)) with (zlen t) in Hmove. eexists _, _. split; [exact Hmove|].
  assert (Htake : take (length t) (drop (Z.to_nat (zlen sp)) (s_buf s)) = t) by (rewrite Hb, zlen_nat, drop_app_length; by apply take_app_length).
  rewrite Htake. assert (Hd : zlen (t ++ drop (length t) (s_buf s)) = zlen (s_buf s)).
  { rewrite zlen_app. unfold zlen in *. rewrite length_drop. lia. }
  split; [apply sds_write_ok; cbn; change (zlen [0]) with 1; pose proof (zlen_nonneg t); lia|].
  assert (Hw : write_at (zlen t) [0] (t ++ drop (length t) (s_buf s)) = t ++ 0 :: drop (length t + 1) (s_buf s)).
  { unfold write_at. rewrite zlen_nat, take_app_length. change (zlen [0]) with 1.
    replace (Z.to_nat (zlen t + 1)) with (length t + 1)%nat by (unfold zlen; lia).
    rewrite drop_app_ge, drop_drop by lia. cbn. do 3 f_equal. lia. }
  cbn [set_s_buf s_buf flb_sds_len_set]. rewrite Hw. unfold sds_text, content. cbn. rewrite zlen_nat, take_app_length, zlookup_at.
  split; [split_and!; [|lia|done]|done].
  constructor; cbn; [pose proof (zlen_nonneg t); lia| |done]. rewrite zlen_app, zlen_cons. unfold zlen in *. rewrite length_drop. lia.
Qed.

(** What [flb_sds_trim] does: spaces around the text go, with the length.  A text of spaces only becomes empty for those who
    look for the NUL, but keeps its length. *)
Theorem sds_trim_exact s : sds_text s → ∃ r, flb_sds_trim (Some s) = Some r ∧
  match content s, trimmed (content s) with
  | [], _ => r = (0, Some s)
  | _, [] => ∃ s', r = (-1, Some s') ∧ s_len s' = s_len s ∧ s_buf s' !z 0 = Some 0
  | _, t => ∃ s', r = (zlen t, Some s') ∧ sds_text s' ∧ content s' = t
  end.
Proof.
  intros Hs. destruct (text_buf s Hs) as [rest Hb]. destruct Hs as (Hok & Hmax & Hnul). pose proof (zlen_sds s Hok) as Hlen.
  pose proof Hok as [Hl Hbl Hal]. unfold flb_sds_trim, flb_sds_len. rewrite u32_id by lia.
  destruct (Z.eqb_spec (s_len s) 0) as [H0|H0].
  { exists (0, Some s). split; [done|]. assert (Ht : content s = []) by (apply zlen_nil_inv; lia). by rewrite Ht. }
  destruct (trimmed_split (content s)) as (sp & sp' & Ht & Hsp & Hsp' & Hhd & Hlast).
  destruct Hlast as [Hnil|(u & c & Hu & Hc)].
  - assert (sp' = []) as ->. { rewrite Hnil in Hhd. destruct sp' as [|d sp']; [done|]. inv Hsp'. cbn in Hhd. congruence. }
    rewrite Hnil, app_nil_r in Ht. cbn [app] in Ht.
    pose proof (left_spaces_run s sp 0 rest Hsp eq_refl [] (length (s_buf s))) as Hleft.
    change (zlen []) with 0 in Hleft. rewrite Hleft; [|apply (f_equal zlen) in Ht; unfold zlen in *; lia|by rewrite Hb, Ht]. cbn [mbind option_bind].
    rewrite <-Ht, Hlen, Z.add_0_l. destruct (Z.ltb_spec (s_len s - 1) (s_len s)); [|lia].
    rewrite sds_write_ok by (unfold zlen; cbn; lia). eexists. split; [done|]. rewrite Hnil, Ht.
    destruct (content s) eqn:Hct; [exfalso; apply H0; by rewrite <-Hlen|]. rewrite <-Ht. eexists. by split_and!.
  - assert (Hn : s_len s = zlen sp + zlen (trimmed (content s)) + zlen sp') by (apply (f_equal zlen) in Ht; rewrite !zlen_app in Ht; lia).
    set (t := trimmed (content s)) in *. clearbody t. pose proof (zlen_nonneg sp). pose proof (zlen_nonneg sp').
    assert (Htlen : zlen t = zlen u + 1) by (by rewrite Hu, zlen_snoc). pose proof (zlen_nonneg u).
    destruct t as [|d t0] eqn:Htd; [by destruct u|]. rewrite <-Htd in *. assert (Hd : isspace d = false) by by rewrite Htd in Hhd.
    pose proof (left_spaces_run s sp d (t0 ++ sp' ++ 0 :: rest) Hsp Hd [] (length (s_buf s))) as Hleft.
    change (zlen []) with 0 in Hleft. rewrite Hleft; [|unfold zlen in *; lia|rewrite Hb, Ht, Htd, <-!app_assoc; done].
    cbn [mbind option_bind]. rewrite Z.add_0_l. destruct (Z.ltb_spec (s_len s - 1) (zlen sp)); [lia|].
    pose proof (right_spaces_run s (sp ++ u) c sp' (0 :: rest) Hsp' Hc (length (s_buf s))) as Hright.
    rewrite zlen_app in Hright. replace (s_len s - 1) with (zlen sp + zlen u + zlen sp') by lia.
    rewrite Hright; [|unfold zlen in *; lia|rewrite Hb, Ht, Hu, <-!app_assoc; done]. cbn [mbind option_bind].
    replace (zlen sp + zlen u - zlen sp + 1) with (zlen t) by lia. rewrite u32_id by lia.
    destruct (move_trimmed s sp t (sp' ++ 0 :: rest)) as (s1 & s2 & Hmove & Hwrite & Htext & Hct);
      [done|by rewrite Hb, Ht, <-!app_assoc|by destruct sp'|lia|lia|].
    rewrite zlen_nat, Hmove. cbn [mbind option_bind]. rewrite Hwrite. cbn [mbind option_bind]. eexists. split; [done|].
    rewrite Htd. destruct (content s); [by destruct sp|]. rewrite <-Htd.
    eexists. split; [f_equal; unfold i32; rewrite Z.mod_small by lia; lia|done].
Qed.
