(* ===== verification/CflAccessor.v ===== *)
(** * Record accessors on CFL variants ([src/flb_cfl_record_accessor.c], [src/flb_cfl_ra_key.c])

    An accessor is a list of parts: texts and keys with subkeys.  Translating it for a variant joins the texts
    with what is found at the keys, printed.  Patterns are parsed by a generated parser: here are the accessors
    it makes.  The accessor of a condition is translated without a tag and without results of a regular
    expression.

    Variants are those that [flb_mp_object_to_cfl] makes: their texts refer to the bytes of the buffer, so there
    is no header with a length in front of them. *)
From Corelib Require Import SpecFloat.
From stdpp Require Import strings.
From S2P Require Import Prelude CStd Env Heap MsgPack Packer Sds.

(** ** Printing *)

(** The decimal digits of a number that is not negative *)
Fixpoint decimal_loop (fuel : nat) (n : Z) (acc : list Z) : list Z :=
  match fuel with
  | O => acc
  | S fuel' =>
      let acc := 48 + n mod 10 :: acc in
      if n / 10 =? 0 then acc else decimal_loop fuel' (n / 10) acc
  end.
Definition decimal (n : Z) : list Z := decimal_loop (S (Z.to_nat (Z.log2 n))) n [].

(** ["%" PRId64], ["%" PRIu64] *)
Definition print_integer (z : Z) : list Z := if z <? 0 then 45 :: decimal (- z) else decimal z.

(** The integer nearest to [num / den], the even one of two *)
Definition round_half_even (num den : Z) : Z :=
  let q := num / den in
  let r := num mod den in
  if (den <? 2 * r) || ((2 * r =? den) && Z.odd q) then q + 1 else q.

(** ["%f"]: six digits after the point.  The sign of a NaN is not part of [double]: it is not printed here. *)
Definition print_double (d : double) : option (list Z) :=
  let sign (s : bool) := if s then [45] else [] in
  match d with
  | S754_nan => None
  | S754_infinity s => Some (sign s ++ [105; 110; 102])
  | S754_zero s => Some (sign s ++ [48; 46; 48; 48; 48; 48; 48; 48])
  | S754_finite s m e =>
      let q := if 0 <=? e then Zpos m * 2 ^ e * 10 ^ 6 else round_half_even (Zpos m * 10 ^ 6) (2 ^ (- e)) in
      Some (sign s ++ decimal (q / 10 ^ 6) ++ [46] ++ drop 1 (decimal (10 ^ 6 + q mod 10 ^ 6)))
  end.

(** The 64 bits of a double; those of a NaN are not part of [double]. *)
Definition double_pattern (d : double) : option Z :=
  let sign (s : bool) := if s then 2 ^ 63 else 0 in
  match d with
  | S754_nan => None
  | S754_infinity s => Some (sign s + Z.shiftl 2047 52)
  | S754_zero s => Some (sign s)
  | S754_finite s m e => Some (sign s + if Zpos m <? 2 ^ 52 then Zpos m else Z.shiftl (e + 1075) 52 + (Zpos m - 2 ^ 52))
  end.

(** [snprintf(str, size, ...)]: what is in the buffer, and the length of the whole text *)
Definition snprintf (size : Z) (printed : list Z) : list Z * Z := (take (Z.to_nat (size - 1)) printed ++ [0], zlen printed).

(** ** Accessors *)

Inductive flb_ra_subentry := SUBENTRY_STRING (str : list Z) | SUBENTRY_ARRAY_ID (array_id : Z).
Record flb_ra_key := mk_ra_key { rk_name : list Z; rk_subkeys : option (list flb_ra_subentry) }.
Inductive flb_ra_parser :=
| FLB_RA_PARSER_STRING (key : flb_ra_key)
| FLB_RA_PARSER_KEYMAP (key : option flb_ra_key)
| FLB_RA_PARSER_FUNC
| FLB_RA_PARSER_REGEX_ID (id : Z)
| FLB_RA_PARSER_TAG
| FLB_RA_PARSER_TAG_PART (id : Z).
Record flb_cfl_record_accessor := mk_accessor { cra_size_hint : Z; cra_list : list flb_ra_parser }.

(** ** Finding a key *)

(** The last entry with the key, in the letters as they are *)
Definition cfl_variant_kvpair_get (vobj : cfl_variant) (key : list Z) : option (list Z * cfl_variant) :=
  match vobj with
  | CFL_VARIANT_KVLIST l => snd <$> list_find (λ kv, zlen key = zlen kv.1 ∧ strcmp_eq key kv.1 = true) (reverse l)
  | _ => None
  end.

(** The rest of the function behind its loop; [None] is -1. *)
Definition subkeys_matched (levels matched : Z) (val : option cfl_variant) : option cfl_variant :=
  if (matched =? 0) || ((0 <? matched) && negb (levels =? matched)) then None else val.
Fixpoint subkey_loop (levels : Z) (subkeys : list flb_ra_subentry) (cur : cfl_variant) (val : option cfl_variant) (matched : Z)
    : option cfl_variant :=
  match subkeys with
  | [] => subkeys_matched levels matched val
  | SUBENTRY_ARRAY_ID array_id :: subkeys' =>
      match cur with
      | CFL_VARIANT_ARRAY l =>
          if (array_id =? INT_MAX) || (zlen l <=? u64 array_id) then None
          else
            v ← l !z array_id;
            if levels =? matched + 1 then subkeys_matched levels (matched + 1) (Some v)
            else subkey_loop levels subkeys' v (Some v) (matched + 1)
      | _ => None
      end
  | SUBENTRY_STRING str :: subkeys' =>
      match cur with
      | CFL_VARIANT_KVLIST _ =>
          match cfl_variant_kvpair_get cur str with
          | None => subkey_loop levels subkeys' cur val matched
          | Some kvpair =>
              if levels =? matched + 1 then subkeys_matched levels (matched + 1) (Some kvpair.2)
              else subkey_loop levels subkeys' kvpair.2 (Some kvpair.2) (matched + 1)
          end
      | _ => subkeys_matched levels matched val
      end
  end.
Definition subkey_to_variant (vobj : cfl_variant) (subkeys : list flb_ra_subentry) : option cfl_variant :=
  let levels := zlen subkeys in
  if levels =? 0 then None else subkey_loop levels subkeys vobj None 0.

(** A value that was found, and its block *)
Inductive flb_ra_value_type := FLB_CFL_RA_BOOL | FLB_CFL_RA_INT | FLB_CFL_RA_FLOAT | FLB_CFL_RA_STRING | FLB_CFL_RA_NULL.
Inductive flb_ra_val := RA_VAL_BOOL (b : bool) | RA_VAL_I64 (i : Z) | RA_VAL_F64 (d : double) | RA_VAL_STRING (s : list Z) | RA_VAL_NONE.
Record flb_cfl_ra_value := mk_ra_value { crv_block : nat; crv_type : flb_ra_value_type; crv_val : flb_ra_val; crv_v : cfl_variant }.

Definition cfl_variant_to_ra_value (v : cfl_variant) (result : nat) : option flb_cfl_ra_value :=
  match v with
  | CFL_VARIANT_BOOL b => Some (mk_ra_value result FLB_CFL_RA_BOOL (RA_VAL_BOOL b) v)
  | CFL_VARIANT_INT i => Some (mk_ra_value result FLB_CFL_RA_INT (RA_VAL_I64 i) v)
  | CFL_VARIANT_UINT u => Some (mk_ra_value result FLB_CFL_RA_INT (RA_VAL_I64 (i64 u)) v)
  | CFL_VARIANT_DOUBLE d => Some (mk_ra_value result FLB_CFL_RA_FLOAT (RA_VAL_F64 d) v)
  | CFL_VARIANT_NULL => Some (mk_ra_value result FLB_CFL_RA_NULL RA_VAL_NONE v)
  | CFL_VARIANT_STRING s | CFL_VARIANT_BYTES s => Some (mk_ra_value result FLB_CFL_RA_STRING (RA_VAL_STRING s) v)
  | CFL_VARIANT_ARRAY _ | CFL_VARIANT_KVLIST _ => Some (mk_ra_value result FLB_CFL_RA_BOOL (RA_VAL_BOOL true) v)
  | CFL_VARIANT_REFERENCE => None
  end.

(** Without memory for the value it counts as not found. *)
Definition flb_cfl_ra_key_to_value (ckey : list Z) (vobj : cfl_variant) (subkeys : option (list flb_ra_subentry))
    : M heap (option flb_cfl_ra_value) :=
  match cfl_variant_kvpair_get vobj ckey with
  | None => mret None
  | Some (_, val) =>
      result ← alloc;
      match result with
      | None => mret None
      | Some result =>
          let to_value v :=
            match cfl_variant_to_ra_value v result with
            | None => free_block result ≫= λ _, mret None
            | Some value => mret (Some value)
            end in
          match val, subkeys with
          | (CFL_VARIANT_ARRAY _ | CFL_VARIANT_KVLIST _), Some ((_ :: _) as subkeys) =>
              match subkey_to_variant val subkeys with
              | Some out_val => to_value out_val
              | None => free_block result ≫= λ _, mret None
              end
          | _, _ => to_value val
          end
      end
  end.
Definition flb_cfl_ra_key_value_destroy (v : flb_cfl_ra_value) : M heap unit := free_block (crv_block v).

(** ** JSON *)

Definition cat_text (str : list Z) (buf : flb_sds) : M heap flb_sds :=
  '(_, buf) ← flb_sds_cat_safe buf str (zlen str); mret buf.
Definition quote : list Z := [34].
(** The buffer is passed by value: when a call for a part of the value has moved it, the caller goes on with
    memory that was freed. *)
Definition still_at (buf inner : flb_sds) : M heap flb_sds :=
  if Nat.eqb (s_block inner) (s_block buf) then mret inner else ub.

(** The result and where the buffer is at the end.  Entries [-1] of an empty array and the length in front of a
    text are read out of bounds.  Of a map only the first pair is written. *)
Fixpoint cfl_to_json (var : cfl_variant) (buf : flb_sds) : M heap (Z * flb_sds) :=
  match var with
  | CFL_VARIANT_NULL => buf ← cat_text (text "null") buf; mret (0, buf)
  | CFL_VARIANT_BOOL b => buf ← cat_text (if b then text "true" else text "false") buf; mret (0, buf)
  | CFL_VARIANT_INT i =>
      let '(tmp, i) := snprintf 31 (print_integer i) in
      '(_, buf) ← flb_sds_cat_safe buf tmp i; mret (0, buf)
  | CFL_VARIANT_UINT u =>
      let '(tmp, i) := snprintf 31 (print_integer u) in
      '(_, buf) ← flb_sds_cat_safe buf tmp i; mret (0, buf)
  | CFL_VARIANT_DOUBLE d =>
      bits ← deref (double_pattern d);
      let '(tmp, i) := snprintf 511 (print_integer bits) in
      '(_, buf) ← flb_sds_cat_safe buf tmp i; mret (0, buf)
  | CFL_VARIANT_STRING _ | CFL_VARIANT_BYTES _ => buf ← cat_text quote buf; ub
  | CFL_VARIANT_REFERENCE => mret (0, buf)
  | CFL_VARIANT_ARRAY l =>
      buf ← cat_text (text "[") buf;
      buf ← (fix elements l buf := match l with
             | [] => ub
             | [x] => '(_, inner) ← cfl_to_json x buf; still_at buf inner
             | x :: l' =>
                 '(_, inner) ← cfl_to_json x buf;
                 buf ← still_at buf inner;
                 buf ← cat_text (text ",") buf;
                 elements l' buf
             end) l buf;
      buf ← cat_text (text "]") buf;
      mret (0, buf)
  | CFL_VARIANT_KVLIST l =>
      buf ← cat_text (text "{") buf;
      match l with
      | [] => buf ← cat_text (text "}") buf; mret (0, buf)
      | (key, val) :: _ =>
          buf ← cat_text quote buf;
          '(_, buf) ← flb_sds_cat_safe buf key (i32 (zlen key));
          buf ← cat_text quote buf;
          buf ← cat_text (text ":") buf;
          '(ret, inner) ← cfl_to_json val buf;
          if ret =? -1 then mret (-1, inner)
          else buf ← still_at buf inner; buf ← cat_text (text "}") buf; mret (0, buf)
      end
  end.

(** ** Translation *)

Definition cfl_ra_translate_string (rp : flb_ra_key) (buf : flb_sds) : M heap (option flb_sds) :=
  flb_sds_cat buf (rk_name rp) (i32 (zlen (rk_name rp))).

(** A map is printed to a buffer of its own, which is used and freed only when printing failed; nobody keeps it
    otherwise.  The result is NULL for maps and arrays. *)
Definition cat_value (crv : flb_cfl_ra_value) (buf : flb_sds) : M heap (option flb_sds) :=
  match crv_type crv, crv_val crv with
  | FLB_CFL_RA_BOOL, RA_VAL_BOOL b =>
      match crv_v crv with
      | CFL_VARIANT_KVLIST _ =>
          js ← flb_sds_create_size 1024;
          match js with
          | None => ub
          | Some js =>
              '(ret, inner) ← cfl_to_json (crv_v crv) js;
              if ret =? -1 then
                js ← still_at js inner;
                tmp ← flb_sds_cat buf (content js) (i32 (zlen (until_nul (content js))));
                free_block (s_block js) ≫= λ _, mret tmp
              else mret None
          end
      | CFL_VARIANT_BOOL _ => if b then flb_sds_cat buf (text "true") 4 else flb_sds_cat buf (text "false") 5
      | _ => mret None
      end
  | FLB_CFL_RA_INT, RA_VAL_I64 i => let '(str, len) := snprintf 31 (print_integer i) in flb_sds_cat buf str len
  | FLB_CFL_RA_FLOAT, RA_VAL_F64 d =>
      printed ← deref (print_double d);
      let '(str, len) := snprintf 31 printed in
      if 32 <=? len then flb_sds_cat buf str 31 else flb_sds_cat buf str len
  | FLB_CFL_RA_STRING, RA_VAL_STRING s => flb_sds_cat buf s (i32 (zlen s))
  | FLB_CFL_RA_NULL, _ => flb_sds_cat buf (text "null") 4
  | _, _ => ub
  end.
(** The new buffer, or NULL, and whether the key was found *)
Definition cfl_ra_translate_keymap (key : option flb_ra_key) (buf : flb_sds) (vobj : cfl_variant) : M heap (option flb_sds * bool) :=
  match key with
  | None => mret (Some buf, false)
  | Some key =>
      crv ← flb_cfl_ra_key_to_value (rk_name key) vobj (rk_subkeys key);
      match crv with
      | None => mret (Some buf, false)
      | Some crv => tmp ← cat_value crv buf; flb_cfl_ra_key_value_destroy crv ≫= λ _, mret (tmp, true)
      end
  end.

(** Parts that need a tag or results do nothing without them: [tmp] stays as it is. *)
Fixpoint translate_list (check : bool) (var : cfl_variant) (l : list flb_ra_parser) (tmp : option flb_sds) (buf : flb_sds) (found : bool)
    : M heap (option flb_sds) :=
  match l with
  | [] => mret (Some buf)
  | rp :: l' =>
      '(tmp, found) ← match rp with
                      | FLB_RA_PARSER_STRING key => tmp ← cfl_ra_translate_string key buf; mret (tmp, found)
                      | FLB_RA_PARSER_KEYMAP key => cfl_ra_translate_keymap key buf var
                      | _ => mret (tmp, found)
                      end;
      let next :=
        match tmp with
        | None => flb_sds_destroy (Some buf) ≫= λ _, mret None
        | Some t => translate_list check var l' (Some t) t found
        end in
      match rp with
      | FLB_RA_PARSER_KEYMAP key =>
          if check && negb found then
            match key with None => ub | Some _ => flb_sds_destroy (Some buf) ≫= λ _, mret None end
          else next
      | _ => next
      end
  end.
Definition flb_cfl_ra_translate_check (cra : flb_cfl_record_accessor) (var : cfl_variant) (check : bool) : M heap (option flb_sds) :=
  buf ← flb_sds_create_size (cra_size_hint cra);
  match buf with
  | None => mret None
  | Some buf => translate_list check var (cra_list cra) None buf false
  end.
Definition flb_cfl_ra_translate (cra : flb_cfl_record_accessor) (var : cfl_variant) : M heap (option flb_sds) :=
  flb_cfl_ra_translate_check cra var false.

(** ** Specification

    What a path of subkeys leads to: entries of arrays, and the last pair with a key in maps. *)
Fixpoint follow (v : cfl_variant) (path : list flb_ra_subentry) : option cfl_variant :=
  match path with
  | [] => Some v
  | SUBENTRY_STRING str :: path' => kv ← cfl_variant_kvpair_get v str; follow kv.2 path'
  | SUBENTRY_ARRAY_ID i :: path' =>
      match v with CFL_VARIANT_ARRAY l => x ← (if i =? INT_MAX then None else l !z i); follow x path' | _ => None end
  end.
Definition find_field (key : flb_ra_key) (v : cfl_variant) : option cfl_variant :=
  kv ← cfl_variant_kvpair_get v (rk_name key);
  match kv.2 with
  | CFL_VARIANT_ARRAY _ | CFL_VARIANT_KVLIST _ => follow kv.2 (default [] (rk_subkeys key))
  | x => Some x
  end.

(** A printed value: long numbers are cut; maps and arrays have no text. *)
Definition value_text (x : cfl_variant) : option (list Z) :=
  match x with
  | CFL_VARIANT_BOOL b => Some (if b then text "true" else text "false")
  | CFL_VARIANT_INT i => Some (print_integer i)
  | CFL_VARIANT_UINT u => Some (print_integer (i64 u))
  | CFL_VARIANT_DOUBLE d => (λ p, if zlen p <=? 30 then p else take 30 p ++ [0]) <$> print_double d
  | CFL_VARIANT_NULL => Some (text "null")
  | CFL_VARIANT_REFERENCE => Some []
  | CFL_VARIANT_STRING s | CFL_VARIANT_BYTES s => Some s
  | CFL_VARIANT_ARRAY _ | CFL_VARIANT_KVLIST _ => None
  end.
(** A field that is not there is empty.  Parts that need a tag are empty too, but not at the beginning. *)
Definition part_text (v : cfl_variant) (first : bool) (rp : flb_ra_parser) : option (list Z) :=
  match rp with
  | FLB_RA_PARSER_STRING key => Some (rk_name key)
  | FLB_RA_PARSER_KEYMAP None => Some []
  | FLB_RA_PARSER_KEYMAP (Some key) => match find_field key v with Some x => value_text x | None => Some [] end
  | _ => if first then None else Some []
  end.
Fixpoint parts_text (v : cfl_variant) (first : bool) (l : list flb_ra_parser) : option (list Z) :=
  match l with
  | [] => Some []
  | rp :: l' => t ← part_text v first rp; (t ++.) <$> parts_text v false l'
  end.
Definition cfl_ra_text (cra : flb_cfl_record_accessor) (v : cfl_variant) : option (list Z) := parts_text v true (cra_list cra).

(** An accessor can read a variant: it finds no map and no NaN, numbers and lengths are in their range. *)
Definition subentry_ok (e : flb_ra_subentry) : bool :=
  match e with SUBENTRY_STRING _ => true | SUBENTRY_ARRAY_ID i => (- 2 ^ 31 <=? i) && (i <? 2 ^ 31) end.
Definition length_ok (s : list Z) : bool := zlen s <? 2 ^ 31.
Definition value_readable (x : cfl_variant) : bool :=
  match x with
  | CFL_VARIANT_KVLIST _ | CFL_VARIANT_DOUBLE S754_nan => false
  | CFL_VARIANT_STRING s | CFL_VARIANT_BYTES s => length_ok s
  | CFL_VARIANT_INT i => (- 2 ^ 63 <=? i) && (i <? 2 ^ 63)
  | _ => true
  end.
Definition part_readable (v : cfl_variant) (rp : flb_ra_parser) : bool :=
  match rp with
  | FLB_RA_PARSER_STRING key => length_ok (rk_name key)
  | FLB_RA_PARSER_KEYMAP (Some key) =>
      forallb subentry_ok (default [] (rk_subkeys key)) &&
      match find_field key v with Some x => value_readable x | None => true end
  | _ => true
  end.
Definition cfl_ra_readable (cra : flb_cfl_record_accessor) (v : cfl_variant) : bool :=
  (0 <=? cra_size_hint cra) && (cra_size_hint cra <? 2 ^ 62) && (zlen (cra_list cra) <? 2 ^ 30) && forallb (part_readable v) (cra_list cra).

(** ** Lemmas *)

(** *** Paths *)

Lemma subkeys_matched_short levels matched val : 0 <= matched < levels → subkeys_matched levels matched val = None.
Proof.
  intros Hm. unfold subkeys_matched. destruct (Z.eqb_spec matched 0); [done|]. cbn [orb].
  by rewrite (proj2 (Z.ltb_lt _ _)), (proj2 (Z.eqb_neq levels matched)) by lia.
Qed.
Lemma subkeys_matched_all levels v : 0 < levels → subkeys_matched levels levels (Some v) = Some v.
Proof. intros Hm. unfold subkeys_matched. by rewrite (proj2 (Z.eqb_neq levels 0)), Z.eqb_refl, andb_false_r by lia. Qed.

(** Fewer entries are left than levels are missing. *)
Lemma subkey_loop_short levels path : ∀ cur val matched, 0 <= matched → matched + zlen path < levels →
  subkey_loop levels path cur val matched = None.
Proof.
  induction path as [|[str|i] path IH]; intros cur val matched H0 Hlt; cbn [subkey_loop]; rewrite ?zlen_cons in Hlt.
  - apply subkeys_matched_short. unfold zlen in Hlt. cbn in Hlt. lia.
  - pose proof (zlen_nonneg path). destruct cur; try (apply subkeys_matched_short; lia).
    destruct (cfl_variant_kvpair_get _ _); [|apply IH; lia]. rewrite (proj2 (Z.eqb_neq _ _)) by lia. apply IH; lia.
  - pose proof (zlen_nonneg path). destruct cur; try done. destruct (_ || _); [done|].
    destruct (l !z i); cbn [mbind option_bind]; [|done]. rewrite (proj2 (Z.eqb_neq _ _)) by lia. apply IH; lia.
Qed.

Lemma array_entry (l : list cfl_variant) i : subentry_ok (SUBENTRY_ARRAY_ID i) = true →
  (if (i =? INT_MAX) || (zlen l <=? u64 i) then None else l !z i) = (if i =? INT_MAX then None else l !z i).
Proof.
  intros Hi. cbn in Hi. destruct (i =? INT_MAX); [done|]. cbn [orb]. destruct (Z.leb_spec (zlen l) (u64 i)) as [Hle|]; [|done].
  unfold zlookup. destruct (Z.leb_spec 0 i); [|done]. rewrite u64_id in Hle by lia. symmetry. apply lookup_ge_None_2. unfold zlen in Hle. lia.
Qed.

Lemma subkey_loop_follow path : path ≠ [] → forallb subentry_ok path = true → ∀ cur val matched levels, 0 <= matched →
  levels = matched + zlen path → subkey_loop levels path cur val matched = follow cur path.
Proof.
  induction path as [|e path IH]; [done|]. intros _ Hok cur val matched levels H0 ->. cbn [forallb] in Hok. apply andb_true_iff in Hok as [He Hok].
  assert (Hnext : ∀ v, (if matched + zlen (e :: path) =? matched + 1 then subkeys_matched (matched + zlen (e :: path)) (matched + 1) (Some v)
      else subkey_loop (matched + zlen (e :: path)) path v (Some v) (matched + 1)) = follow v path).
  { intros v. destruct path as [|e' path].
    - change (zlen [e]) with 1. rewrite Z.eqb_refl. apply subkeys_matched_all. lia.
    - rewrite !zlen_cons. pose proof (zlen_nonneg path). rewrite (proj2 (Z.eqb_neq _ _)) by lia.
      apply IH; [done|done|lia|rewrite zlen_cons; lia]. }
  destruct e as [str|i]; cbn [subkey_loop follow].
  - destruct cur; try (apply subkeys_matched_short; rewrite zlen_cons; pose proof (zlen_nonneg path); lia).
    destruct (cfl_variant_kvpair_get _ _); cbn [mbind option_bind]; [apply Hnext|].
    apply subkey_loop_short; [done|]. rewrite zlen_cons. lia.
  - destruct cur; try done. pose proof (array_entry l i He) as Ha. destruct (i =? INT_MAX); [done|]. cbn [orb] in *.
    rewrite <- Ha. destruct (zlen l <=? u64 i); [done|]. destruct (l !z i); cbn [mbind option_bind]; [apply Hnext|done].
Qed.

Lemma subkey_to_variant_follow v path : path ≠ [] → forallb subentry_ok path = true → subkey_to_variant v path = follow v path.
Proof.
  intros Hp Hok. unfold subkey_to_variant. destruct path as [|e path]; [done|]. rewrite (proj2 (Z.eqb_neq _ _)).
  - by apply subkey_loop_follow.
  - rewrite zlen_cons. pose proof (zlen_nonneg path). lia.
Qed.

(** *** Printed numbers *)

Lemma decimal_loop_length k : ∀ fuel n acc, 0 <= n < 10 ^ Z.of_nat (S k) → (length (decimal_loop fuel n acc) <= S k + length acc)%nat.
Proof.
  induction k as [|k IH]; intros [|fuel] n acc Hn; cbn [decimal_loop]; try lia.
  - rewrite Z.div_small by lia. cbn. lia.
  - destruct (n / 10 =? 0); [cbn; lia|]. etrans; [apply IH|cbn; lia]. split; [apply Z.div_pos; lia|].
    apply Z.div_lt_upper_bound; [lia|]. rewrite <- Z.pow_succ_r by lia. replace (Z.succ _) with (Z.of_nat (S (S k))) by lia. lia.
Qed.
Lemma print_integer_length z : - 2 ^ 63 <= z < 2 ^ 63 → zlen (print_integer z) <= 20.
Proof.
  intros Hz. unfold print_integer, zlen, decimal.
  pose proof (decimal_loop_length 18 (S (Z.to_nat (Z.log2 (- z)))) (- z) []). pose proof (decimal_loop_length 18 (S (Z.to_nat (Z.log2 z))) z []).
  change (Z.of_nat 19) with 19 in *. destruct (Z.ltb_spec z 0); cbn [length] in *; lia.
Qed.

(** What a text of printed digits is worth, for the reader of numbers in [CStd] *)
Lemma digits_decimal_loop fuel : ∀ n acc rest v, 0 <= n < 2 ^ Z.of_nat fuel → (0 < fuel)%nat →
  digits 10 v (decimal_loop fuel n acc ++ rest) =
  let k := zlen (decimal_loop fuel n acc) - zlen acc in
  let '(w, c, t) := digits 10 (v * 10 ^ k + n) (acc ++ rest) in (w, c + k, t).
Proof.
  induction fuel as [|fuel IH]; [lia|]. intros n acc rest v Hn _. cbn [decimal_loop].
  pose proof (Z.mod_pos_bound n 10 ltac:(lia)) as Hm. pose proof (Z.div_mod n 10 ltac:(lia)) as Hdm.
  assert (Hd : ∀ u, digits 10 u ((48 + n mod 10 :: acc) ++ rest) =
    let '(w, c, t) := digits 10 (u * 10 + n mod 10) (acc ++ rest) in (w, c + 1, t)).
  { intros u. cbn [app digits]. unfold digit at 1, isdigit. rewrite (proj2 (Z.leb_le _ _)), (proj2 (Z.leb_le _ _)) by lia. cbn [andb].
    replace (48 + n mod 10 - 48) with (n mod 10) by lia. by destruct (digits _ _ _) as [[w c] t]. }
  destruct (Z.eqb_spec (n / 10) 0) as [Hz|Hz].
  - rewrite Hd, zlen_cons. cbv zeta.
    assert (Hk : zlen acc + 1 - zlen acc = 1) by lia. rewrite ?Hk.
    cbv zeta. replace (v * 10 ^ 1 + n) with (v * 10 + n mod 10) by lia. done.
  - assert (Hf : (0 < fuel)%nat). { destruct fuel; [|lia]. cbn in Hn. assert (n / 10 = 0) by (apply Z.div_small; lia). done. }
    rewrite IH; [|split; [apply Z.div_pos; lia|]|done].
    + cbv zeta. rewrite Hd. rewrite zlen_cons. set (m := zlen (decimal_loop _ _ _)).
      assert (Hk : 0 <= m - (zlen acc + 1)).
      { subst m. assert (Hle : ∀ f p a, (length a <= length (decimal_loop f p a))%nat).
        { induction f as [|f IHf]; intros p a; cbn [decimal_loop]; [lia|]. destruct (_ =? 0); cbn; [lia|]. specialize (IHf (p / 10) (48 + p mod 10 :: a)). cbn in IHf. lia. }
        pose proof (Hle fuel (n / 10) (48 + n mod 10 :: acc)) as Hl. cbn in Hl. unfold zlen. lia. }
      replace (v * 10 ^ (m - zlen acc) + n) with ((v * 10 ^ (m - (zlen acc + 1)) + n / 10) * 10 + n mod 10).
      * destruct (digits _ _ _) as [[w c] t]. f_equal. f_equal. lia.
      * replace (m - zlen acc) with (Z.succ (m - (zlen acc + 1))) by lia. rewrite Z.pow_succ_r by done. lia.
    + apply Z.div_lt_upper_bound; [lia|]. replace (Z.of_nat (S fuel)) with (Z.succ (Z.of_nat fuel)) in Hn by lia. rewrite Z.pow_succ_r in Hn by lia. lia.
Qed.
Lemma digits_decimal n rest : 0 <= n → (∀ c rest', rest = c :: rest' → digit 10 c = None) →
  digits 10 0 (decimal n ++ rest) = (n, zlen (decimal n), rest).
Proof.
  intros Hn Hrest. unfold decimal. rewrite digits_decimal_loop; [|split; [done|]|lia].
  - cbv zeta. cbn [app]. change (zlen (@nil Z)) with 0. rewrite Z.sub_0_r. destruct rest as [|c rest]; cbn [digits]; rewrite ?(Hrest c rest eq_refl); by rewrite Z.mul_0_l, !Z.add_0_l.
  - rewrite Nat2Z.inj_succ, Z2Nat.id by apply Z.log2_nonneg. destruct (Z.eq_dec n 0) as [->|]; [done|]. apply Z.log2_spec. lia.
Qed.

(** *** Buffers *)

Lemma cat_bytes s str len bytes : bytes_of str len = Some bytes → flb_sds_cat s str len = flb_sds_cat s bytes (zlen bytes).
Proof.
  intros Hb. pose proof Hb as Hlen. unfold bytes_of in Hlen. destruct ((0 <=? len) && (len <=? zlen str)) eqn:Hr; [|done].
  injection Hlen as Hlen. assert (zlen bytes = len) as <- by (rewrite <- Hlen; apply zlen_take; lia).
  unfold flb_sds_cat. by rewrite Hb, bytes_of_all.
Qed.

(** Text that is added to a string, or the string as it was when there is no memory *)
Lemma cat_ok b str X s (Q : option flb_sds → heap → Prop) : sds_ok b → s_alloc b + zlen str < 2 ^ 63 → hp_live s ≡ₚ s_block b :: X →
  (∀ s', hp_live s' ≡ₚ s_block b :: X → next_le s s' → ¬ calm (hp_env s) → Q None s') →
  (∀ b' s', hp_live s' ≡ₚ s_block b' :: X → next_le s s' → (calm (hp_env s) → calm (hp_env s')) → sds_ok b' →
     content b' = content b ++ str → s_alloc b' <= s_alloc b + zlen str → Q (Some b') s') →
  runs (flb_sds_cat b str (zlen str)) s Q.
Proof.
  intros Hb Hsum Hl HN HS. pose proof (zlen_nonneg str). unfold flb_sds_cat. apply runs_bind.
  assert (Hav : flb_sds_avail b = s_alloc b - s_len b) by (apply u64_id; destruct Hb; lia).
  assert (Hwrite : ∀ b1 s1, hp_live s1 ≡ₚ s_block b1 :: X → next_le s s1 → (calm (hp_env s) → calm (hp_env s1)) → sds_ok b1 →
    content b1 = content b → s_len b1 = s_len b → s_len b + zlen str <= s_alloc b1 <= s_alloc b + zlen str →
    runs (bytes ← deref (bytes_of str (zlen str)); b2 ← deref (sds_write (s_len b1) bytes b1);
      let b3 := set_s_len (u64 (s_len b2 + zlen str)) b2 in b4 ← deref (sds_write (s_len b3) [0] b3); mret (Some b4)) s1 Q).
  { intros b1 s1 Hl1 Hn1 Hc1 Hb1 Hct Hln Hal. rewrite bytes_of_all. destruct (sds_append_ok b1 str) as (b' & Hw & Hb' & Hct' & Hbl & Hal' & _); [done|lia|].
    cbn [mbind option_bind] in Hw. destruct (sds_write (s_len b1) str b1) as [b2|] eqn:Hw1; [|done]. cbn [mbind option_bind] in Hw.
    do 2 (apply runs_bind; eapply runs_deref; [first [done|exact Hw1]|]). apply runs_bind. eapply runs_deref; [exact Hw|].
    apply runs_ret, HS; [by rewrite Hl1, Hbl|done..|by rewrite Hct', Hct|rewrite Hal'; lia]. }
  unfold make_room. rewrite u64_id, Hav by (pose proof (sk_alloc _ Hb); pose proof (sk_len _ Hb); lia).
  pose proof (sk_alloc _ Hb). pose proof (sk_len _ Hb). pose proof (sk_buf _ Hb).
  destruct (Z.ltb_spec (s_alloc b - s_len b) (zlen str)).
  - unfold flb_sds_increase. apply runs_bind. eapply runs_deref; [by apply block_size_ok; lia|].
    apply runs_bind. unfold realloc. apply runs_bind, runs_alloc_le.
    + intros s1 Hl1 Hn1 Hc1. apply runs_ret, runs_ret, runs_ret, HN; [by rewrite Hl1|done..].
    + intros a s1 Hl1 Hn1 Hc1. apply runs_bind, (runs_free_opt _ (a :: X)); [rewrite Hl1, Hl; apply Permutation_swap|].
      intros s2 Hl2 He2. apply runs_ret, runs_ret. unfold next_le in *. apply Hwrite; cbn; [done|by rewrite He2|by rewrite He2| |done|done|lia].
      constructor; cbn; lia.
  - apply runs_ret, Hwrite; [done|unfold next_le; lia|done..|lia].
Qed.

Lemma create_size_ok size s (Q : option flb_sds → heap → Prop) : 0 <= size < 2 ^ 63 →
  (∀ s', hp_live s' = hp_live s → next_le s s' → ¬ calm (hp_env s) → Q None s') →
  (∀ b s', hp_live s' = s_block b :: hp_live s → next_le s s' → (calm (hp_env s) → calm (hp_env s')) → sds_ok b →
     content b = [] → s_alloc b = size → Q (Some b) s') →
  runs (flb_sds_create_size size) s Q.
Proof.
  intros Hsz HN HS. unfold flb_sds_create_size, sds_alloc. apply runs_bind. eapply runs_deref; [by apply block_size_ok|].
  apply runs_bind, runs_alloc_le; intros; apply runs_ret; [by apply HN|]. apply HS; try done. constructor; unfold zlen; cbn; lia.
Qed.

(** *** Translation *)

(** What the translation of a part leaves: the buffer with the text of the part, or NULL with the buffer as it was,
    when the part has no text or memory ran out *)
Record part_done (b : flb_sds) (X : list nat) (size : Z) (t : option (list Z)) (s : heap) (tmp : option flb_sds) (s' : heap) : Prop := {
  pd_live : hp_live s' ≡ₚ s_block (default b tmp) :: X;
  pd_next : next_le s s';
  pd_calm : calm (hp_env s) → calm (hp_env s');
  pd_ok b' : tmp = Some b' → sds_ok b' ∧ s_alloc b' <= s_alloc b + size;
  pd_text : calm (hp_env s) → content <$> tmp = (content b ++.) <$> t
}.

Lemma part_cat b str len bytes X s : sds_ok b → s_alloc b + 2 ^ 31 < 2 ^ 63 → zlen bytes < 2 ^ 31 → bytes_of str len = Some bytes →
  hp_live s ≡ₚ s_block b :: X → runs (flb_sds_cat b str len) s (part_done b X (2 ^ 31) (Some bytes) s).
Proof.
  intros Hb Ha Hlen Hbytes Hl. rewrite (cat_bytes _ _ _ _ Hbytes). apply (cat_ok b bytes X); [done|lia|done| |].
  - intros s' Hl' Hn Hc. constructor; try done; tauto.
  - intros b' s' Hl' Hn Hc Hb' Hct Hal. constructor; [done..| |].
    + intros b'' [= <-]. split; [done|lia].
    + intros _. cbn. by rewrite Hct.
Qed.

Lemma bytes_of_length_ok s : length_ok s = true → bytes_of s (i32 (zlen s)) = Some s ∧ zlen s < 2 ^ 31.
Proof. intros H%Z.ltb_lt. pose proof (zlen_nonneg s). split; [|done].
  assert (Hi : i32 (zlen s) = zlen s) by (unfold i32; rewrite Z.mod_small by lia; lia). rewrite Hi. apply bytes_of_all. Qed.

Lemma bytes_of_snprintf p : zlen p <= 30 → bytes_of (take 30 p ++ [0]) (zlen p) = Some p.
Proof.
  intros Hp. pose proof (zlen_nonneg p). rewrite take_ge by (unfold zlen in *; lia). unfold bytes_of.
  rewrite !(proj2 (Z.leb_le _ _)) by (rewrite ?zlen_app; pose proof (zlen_nonneg [0]); lia). cbn.
  rewrite zlen_nat, take_app_le by lia. by rewrite firstn_all.
Qed.

(** The value that is found is the one that the specification finds; without memory none is found. *)
Lemma key_to_value_ok key v s (Q : option flb_cfl_ra_value → heap → Prop) :
  forallb subentry_ok (default [] (rk_subkeys key)) = true →
  (∀ s', hp_live s' ≡ₚ hp_live s → next_le s s' → (calm (hp_env s) → calm (hp_env s') ∧
     match find_field key v with Some x => value_text x = Some [] | None => True end) → Q None s') →
  (∀ x a crv s', find_field key v = Some x → cfl_variant_to_ra_value x a = Some crv → crv_block crv = a →
     hp_live s' ≡ₚ a :: hp_live s → next_le s s' → (calm (hp_env s) → calm (hp_env s')) → Q (Some crv) s') →
  runs (flb_cfl_ra_key_to_value (rk_name key) v (rk_subkeys key)) s Q.
Proof.
  intros Hsub HN HS. unfold flb_cfl_ra_key_to_value, find_field in *. destruct (cfl_variant_kvpair_get v (rk_name key)) as [[k x]|]; cbn [mbind option_bind] in *.
  2: { apply runs_ret, HN; [done|unfold next_le; lia|done]. }
  apply runs_bind, runs_alloc_le; [intros s' Hl Hn Hc; apply runs_ret, HN; [by rewrite Hl|done|tauto]|].
  intros a s1 Hl1 Hn1 Hc1. cbn [snd] in *.
  assert (Hfree : ∀ (P : Prop), P → (∀ s', hp_live s' ≡ₚ hp_live s → next_le s s' → (calm (hp_env s) → calm (hp_env s') ∧ P) → Q None s') →
    runs (free_block a ≫= λ _, mret None) s1 Q).
  { intros P HP HQ. apply runs_bind, (runs_free _ (hp_live s)); [by rewrite Hl1|]. intros s2 Hl2 He2. unfold next_le in *.
    apply runs_ret, HQ; rewrite ?He2; auto. }
  set (field := match x with CFL_VARIANT_ARRAY _ | CFL_VARIANT_KVLIST _ => _ | _ => _ end) in *.
  assert (Hvalue : ∀ y, field = Some y →
    runs (match cfl_variant_to_ra_value y a with None => free_block a ≫= λ _, mret None | Some value => mret (Some value) end) s1 Q).
  { intros y Hy. destruct (cfl_variant_to_ra_value y a) as [crv|] eqn:Hcrv.
    - apply runs_ret, (HS y a); try done; [by destruct y; try discriminate Hcrv; injection Hcrv as <-|by rewrite Hl1].
    - apply (Hfree True I). intros s' Hl' Hn' Hc'. apply HN; [done..|]. intros Hc. split; [by apply Hc'|]. rewrite Hy. by destruct y. }
  assert (Hpath : ∀ path, rk_subkeys key = Some path → path ≠ [] → field = follow x path →
    runs (match subkey_to_variant x path with
          | Some out_val => match cfl_variant_to_ra_value out_val a with None => free_block a ≫= λ _, mret None | Some value => mret (Some value) end
          | None => free_block a ≫= λ _, mret None
          end) s1 Q).
  { intros path Hk Hne Hf. rewrite subkey_to_variant_follow; [|done|by rewrite Hk in Hsub]. rewrite <- Hf.
    destruct field as [y|] eqn:Hy; [by apply Hvalue|]. by apply (Hfree True I), HN. }
  clear HN HS Hfree. revert Hvalue Hpath. subst field. destruct x; intros Hvalue Hpath; try (by apply Hvalue); 
    (revert Hvalue Hpath; destruct (rk_subkeys key) as [[|e path]|]; intros Hvalue Hpath; [by apply Hvalue|by apply Hpath|by apply Hvalue]).
Qed.

Lemma cat_value_ok x a crv b X s : cfl_variant_to_ra_value x a = Some crv → value_readable x = true →
  sds_ok b → s_alloc b + 2 ^ 31 < 2 ^ 63 → hp_live s ≡ₚ s_block b :: X →
  runs (cat_value crv b) s (part_done b X (2 ^ 31) (value_text x) s).
Proof.
  intros Hcrv Hread Hb Ha Hl.
  assert (Hcat : ∀ str len bytes, zlen bytes < 2 ^ 31 → bytes_of str len = Some bytes →
    runs (flb_sds_cat b str len) s (part_done b X (2 ^ 31) (Some bytes) s)) by (intros; by apply part_cat).
  assert (Hint : ∀ i, - 2 ^ 63 <= i < 2 ^ 63 → runs (flb_sds_cat b (take (Z.to_nat (31 - 1)) (print_integer i) ++ [0]) (zlen (print_integer i))) s
    (part_done b X (2 ^ 31) (Some (print_integer i)) s)).
  { intros i Hi. pose proof (print_integer_length i Hi). apply Hcat; [lia|]. apply bytes_of_snprintf. lia. }
  destruct x; try discriminate Hread; try discriminate Hcrv; injection Hcrv as <-; cbn [cat_value value_text value_readable crv_type crv_val crv_v snprintf] in *.
  - destruct b0; by apply Hcat.
  - apply Hint. lia.
  - apply Hint. unfold i64. pose proof (Z.mod_pos_bound (u + 2 ^ 63) (2 ^ 64) ltac:(lia)). lia.
  - apply runs_bind. destruct (print_double d) as [p|] eqn:Hp; [|by destruct d]. eapply runs_deref; [done|]. unfold snprintf. cbn [fmap option_fmap option_map].
    pose proof (zlen_nonneg p). destruct (Z.leb_spec (zlen p) 30).
    + rewrite (proj2 (Z.leb_gt _ _)) by lia. apply Hcat; [lia|by apply bytes_of_snprintf].
    + assert (Hz : zlen (take 30 p ++ [0]) = 31) by (rewrite zlen_app; change (zlen [0]) with 1; unfold zlen in *; rewrite length_take; lia).
      assert (Hcut : bytes_of (take (Z.to_nat (31 - 1)) p ++ [0]) 31 = Some (take 30 p ++ [0])) 
        by (pose proof (bytes_of_all (take 30 p ++ [0])) as Hall; by rewrite Hz in Hall).
      destruct (Z.leb_spec 32 (zlen p)); [by apply Hcat; rewrite ?Hz|]. replace (zlen p) with 31 by lia. by apply Hcat; rewrite ?Hz.
  - by apply Hcat.
  - destruct (bytes_of_length_ok _ Hread). by apply Hcat.
  - destruct (bytes_of_length_ok _ Hread). by apply Hcat.
  - apply runs_ret. constructor; try done; unfold next_le; lia.
Qed.

(** A part that adds nothing *)
Lemma part_empty b X size s s' t : sds_ok b → 0 <= size → hp_live s' ≡ₚ s_block b :: X → next_le s s' →
  (calm (hp_env s) → calm (hp_env s') ∧ t = Some []) → part_done b X size t s (Some b) s'.
Proof.
  intros Hb Hs Hl Hn Hc. constructor; [done|done|by intros [? _]%Hc| |].
  - intros b' [= <-]. split; [done|lia].
  - intros [_ ->]%Hc. cbn. by rewrite app_nil_r.
Qed.

Lemma keymap_ok key b v first X s : part_readable v (FLB_RA_PARSER_KEYMAP key) = true → sds_ok b → s_alloc b + 2 ^ 31 < 2 ^ 63 →
  hp_live s ≡ₚ s_block b :: X →
  runs (cfl_ra_translate_keymap key b v) s (λ r, part_done b X (2 ^ 31) (part_text v first (FLB_RA_PARSER_KEYMAP key)) s r.1).
Proof.
  intros Hread Hb Ha Hl. destruct key as [key|]; cbn [cfl_ra_translate_keymap part_text part_readable] in *.
  2: { apply runs_ret. apply part_empty; [done|lia|done|unfold next_le; lia|done]. }
  apply andb_true_iff in Hread as [Hsub Hread]. apply runs_bind, key_to_value_ok; [done| |].
  - intros s' Hl' Hn Hc. apply runs_ret. apply part_empty; [done|lia|by rewrite Hl'|done|]. intros [? Hx]%Hc. split; [done|].
    by destruct (find_field key v).
  - intros x a crv s1 Hf Hcrv Hbl Hl1 Hn1 Hc1. rewrite Hf in *. apply runs_bind.
    eapply runs_weaken; [apply (cat_value_ok x a crv b (a :: X)); [done..|]|].
    { rewrite Hl1, Hl. apply Permutation_swap. }
    intros tmp s2 [Hl2 Hn2 Hc2 Hok2 Ht2]. apply runs_bind. unfold flb_cfl_ra_key_value_destroy. rewrite Hbl.
    eapply (runs_free _ (s_block (default b tmp) :: X)); [rewrite Hl2; apply Permutation_swap|].
    intros s3 Hl3 He3. apply runs_ret. unfold next_le in *. constructor; cbn [fst]; rewrite ?He3; [done|unfold next_le; rewrite He3; lia|tauto|done|]. auto.
Qed.

(** What the translation of an accessor leaves: memory as it was, but for the result *)
Record translated (X : list nat) (t : option (list Z)) (s : heap) (r : option flb_sds) (s' : heap) : Prop := {
  tr_live : hp_live s' ≡ₚ sds_blocks r ++ X;
  tr_next : next_le s s';
  tr_calm : calm (hp_env s) → calm (hp_env s');
  tr_text : calm (hp_env s) → content <$> r = t
}.

Lemma translate_list_ok v l : ∀ (first : bool) (tmp : option flb_sds) b found X s, forallb (part_readable v) l = true → sds_ok b → tmp = (if first then None else Some b) →
  s_alloc b + zlen l * 2 ^ 31 + 2 ^ 31 < 2 ^ 63 → hp_live s ≡ₚ s_block b :: X →
  runs (translate_list false v l tmp b found) s (translated X ((content b ++.) <$> parts_text v first l) s).
Proof.
  induction l as [|rp l IH]; intros first tmp b found X s Hread Hb Htmp Ha Hl; cbn [translate_list parts_text].
  { apply runs_ret. constructor; [done|unfold next_le; lia|done|]. intros _. cbn. by rewrite app_nil_r. }
  cbn [forallb] in Hread. apply andb_true_iff in Hread as [Hrp Hread]. rewrite zlen_cons in Ha. pose proof (zlen_nonneg l).
  apply runs_bind. eapply (runs_weaken _ _ (λ r : option flb_sds * bool, part_done b X (2 ^ 31) (part_text v first rp) s r.1)).
  { assert (Hskip : runs (mret (tmp, found)) s (λ r, part_done b X (2 ^ 31) (if first then None else Some []) s r.1)).
    { apply runs_ret. cbn [fst]. rewrite Htmp. destruct first.
      - constructor; try done; unfold next_le; lia.
      - apply part_empty; [done|lia|done|unfold next_le; lia|done]. }
    destruct rp as [key|key| | | |]; try exact Hskip; [|apply keymap_ok; [done|done|lia|done]].
    apply runs_bind. unfold cfl_ra_translate_string. destruct (bytes_of_length_ok _ Hrp). eapply runs_weaken; [apply part_cat; [done|lia|done..]|].
    intros r s1 Hr. apply runs_ret. exact Hr. }
  intros [tmp1 found1] s1 [Hl1 Hn1 Hc1 Hok1 Ht1]. cbn [fst andb] in *.
  assert (Hnext : runs (match tmp1 with None => flb_sds_destroy (Some b) ≫= λ _, mret None | Some t => translate_list false v l (Some t) t found1 end) s1
    (translated X ((content b ++.) <$> (t ← part_text v first rp; (t ++.) <$> parts_text v false l)) s)).
  { destruct tmp1 as [b1|].
    - destruct (Hok1 b1 eq_refl) as [Hb1 Ha1]. eapply runs_weaken; [apply (IH false _ b1); [done|done|done|lia|done]|].
      intros r s2 [Hl2 Hn2 Hc2 Ht2]. unfold next_le in *. constructor; [done|unfold next_le; lia|tauto|].
      intros Hc. rewrite Ht2 by auto. specialize (Ht1 Hc). cbn in Ht1. destruct (part_text v first rp) as [t|]; [|done]. injection Ht1 as ->.
      cbn. destruct (parts_text v false l); [|done]. cbn. by rewrite app_assoc.
    - apply runs_bind, (runs_free_opt _ X); [done|]. intros s2 Hl2 He2. apply runs_ret. unfold next_le in *.
      constructor; [done|unfold next_le; by rewrite He2|rewrite He2; tauto|]. intros Hc. specialize (Ht1 Hc).
      by destruct (part_text v first rp). }
  by destruct rp.
Qed.

(** Translating is defined for a variant that the accessor can read, and gives the text of the specification;
    without memory it gives nothing, or a text in which a field is missing. *)
Lemma cfl_ra_translate_ok cra v s : cfl_ra_readable cra v = true →
  runs (flb_cfl_ra_translate cra v) s (translated (hp_live s) (cfl_ra_text cra v) s).
Proof.
  intros Hread. unfold cfl_ra_readable in Hread. apply andb_true_iff in Hread as [Hsz Hread].
  unfold flb_cfl_ra_translate, flb_cfl_ra_translate_check. apply runs_bind, create_size_ok; [lia| |].
  - intros s1 Hl1 Hn1 Hc1. apply runs_ret. constructor; [by rewrite Hl1|done|tauto|tauto].
  - intros b s1 Hl1 Hn1 Hc1 Hb Hct Hal. eapply runs_weaken; [apply (translate_list_ok _ _ true _ b _ (hp_live s)); [done|done|done|lia|by rewrite Hl1]|].
    intros r s2 [Hl2 Hn2 Hc2 Ht2]. unfold next_le in *. constructor; [done|unfold next_le; lia|tauto|]. intros Hc. rewrite Ht2 by auto.
    unfold cfl_ra_text. rewrite Hct. by destruct (parts_text _ _ _).
Qed.

(** ** What the code does with maps and without memory *)

Definition ex_key (name : string) : flb_ra_parser := FLB_RA_PARSER_KEYMAP (Some (mk_ra_key (text name) (Some []))).
Definition ex_accessor (name : string) : flb_cfl_record_accessor := mk_accessor 128 [ex_key name].
Definition ex_field (name : string) (x : cfl_variant) : cfl_variant := CFL_VARIANT_KVLIST [(text name, x)].
Definition accessor_heap (script : list bool) : heap := mk_heap (mk_env script [] [] 0 1 []) [].

(** Fields of the kinds there are: an integer, a number that is cut, a text behind two subkeys, one that is missing *)
Lemma cfl_ra_text_examples :
  cfl_ra_text (ex_accessor "n") (ex_field "n" (CFL_VARIANT_UINT (2 ^ 64 - 5))) = Some (text "-5") ∧
  cfl_ra_text (ex_accessor "n") (ex_field "n" (CFL_VARIANT_DOUBLE (atof (text "-12.3456785")))) = Some (text "-12.345678") ∧
  cfl_ra_text (mk_accessor 128 [FLB_RA_PARSER_STRING (mk_ra_key (text "x=") None);
      FLB_RA_PARSER_KEYMAP (Some (mk_ra_key (text "k") (Some [SUBENTRY_STRING (text "a"); SUBENTRY_ARRAY_ID 1])));
      FLB_RA_PARSER_TAG; ex_key "m"])
    (ex_field "k" (ex_field "a" (CFL_VARIANT_ARRAY [CFL_VARIANT_NULL; CFL_VARIANT_STRING (text "yes")]))) = Some (text "x=yes").
Proof. vm_compute. done. Qed.

(** The JSON text of a map is lost and its buffer stays in memory, although nothing fails. *)
Lemma map_field_leaks : ∃ js s', flb_cfl_ra_translate (ex_accessor "k") (ex_field "k" (ex_field "n" (CFL_VARIANT_UINT 1))) (accessor_heap []) =
    Some (None, s') ∧ hp_live s' = [js].
Proof. eexists _, _. split; [by vm_compute|done]. Qed.

(** An empty array or a text in a map is read out of bounds; printing more than 1024 bytes for a part of a map goes
    on in a buffer that was freed. *)
Lemma map_field_undefined :
  flb_cfl_ra_translate (ex_accessor "k") (ex_field "k" (ex_field "l" (CFL_VARIANT_ARRAY []))) (accessor_heap []) = None ∧
  flb_cfl_ra_translate (ex_accessor "k") (ex_field "k" (ex_field "s" (CFL_VARIANT_STRING (text "t")))) (accessor_heap []) = None ∧
  flb_cfl_ra_translate (ex_accessor "k") (ex_field "k" (ex_field "l" (CFL_VARIANT_ARRAY (replicate 300 CFL_VARIANT_NULL)))) (accessor_heap []) = None.
Proof. by vm_compute. Qed.

(** Without memory for its value a field that is there counts as missing. *)
Lemma found_without_memory : ∃ b s',
  flb_cfl_ra_translate (ex_accessor "k") (ex_field "k" (CFL_VARIANT_STRING (text "v"))) (accessor_heap [true; false]) = Some (Some b, s') ∧ content b = [].
Proof. eexists _, _. split; [by vm_compute|done]. Qed.
