(* ===== verification/LogDecoder.v ===== *)
(** * Decoding log events ([src/flb_log_event_decoder.c])

    A buffer of logs is a sequence of MessagePack objects, [[timestamp, metadata], body] or the older
    [timestamp, body].  Timestamps -1 and -2 mark the start and the end of a group, whose metadata and
    attributes the decoder hands out with every event of the group; a client that does not ask for the
    markers does not see them.  [msgpack_unpack_next] of the vendored library is a parameter. *)
From S2P Require Import Prelude CStd Env Heap MsgPack.

(** ** Data *)

Definition FLB_LOG_EVENT_NORMAL : Z := 0.
Definition FLB_LOG_EVENT_GROUP_START : Z := -1.
Definition FLB_LOG_EVENT_GROUP_END : Z := -2.
Definition FLB_LOG_EVENT_FORMAT_UNKNOWN : Z := 0.
Definition FLB_LOG_EVENT_FORMAT_FORWARD : Z := 2.
Definition FLB_LOG_EVENT_FORMAT_FLUENT_BIT_V2 : Z := 4.
Definition FLB_LOG_EVENT_DECODER_MAX_RECURSION_DEPTH : Z := 1000.

Definition FLB_EVENT_DECODER_SUCCESS : Z := 0.
Definition FLB_EVENT_DECODER_ERROR_INITIALIZATION_FAILURE : Z := -1.
Definition FLB_EVENT_DECODER_ERROR_WRONG_ROOT_TYPE : Z := -4.
Definition FLB_EVENT_DECODER_ERROR_WRONG_ROOT_SIZE : Z := -5.
Definition FLB_EVENT_DECODER_ERROR_WRONG_HEADER_SIZE : Z := -7.
Definition FLB_EVENT_DECODER_ERROR_WRONG_TIMESTAMP_TYPE : Z := -8.
Definition FLB_EVENT_DECODER_ERROR_WRONG_METADATA_TYPE : Z := -9.
Definition FLB_EVENT_DECODER_ERROR_WRONG_BODY_TYPE : Z := -10.
Definition FLB_EVENT_DECODER_ERROR_DESERIALIZATION_FAILURE : Z := -11.
Definition FLB_EVENT_DECODER_ERROR_INSUFFICIENT_DATA : Z := -12.

Record flb_time := mk_time { tv_sec : Z; tv_nsec : Z }.

(** The pointers to objects are the objects, [None] when NULL. *)
Record flb_log_event := mk_event {
  ev_group_attributes : option msgpack_object;
  ev_group_metadata : option msgpack_object;
  ev_raw_timestamp : option msgpack_object;
  ev_timestamp : flb_time;
  ev_metadata : option msgpack_object;
  ev_format : Z;
  ev_body : option msgpack_object;
  ev_root : option msgpack_object
}.
(** [memset(event, 0, sizeof(struct flb_log_event))] *)
Definition no_event : flb_log_event :=
  mk_event None None None (mk_time 0 0) None FLB_LOG_EVENT_FORMAT_UNKNOWN None None.
Definition set_ev_group (md attrs : option msgpack_object) (e : flb_log_event) : flb_log_event :=
  mk_event attrs md (ev_raw_timestamp e) (ev_timestamp e) (ev_metadata e) (ev_format e) (ev_body e) (ev_root e).

(** [record_base] is an offset in [buffer]. *)
Record flb_log_event_decoder := mk_decoder {
  dc_current_group_attributes : option msgpack_object;
  dc_current_group_metadata : option msgpack_object;
  dc_previous_offset : Z;
  dc_record_length : Z;
  dc_record_base : option Z;
  dc_buffer : list Z;
  dc_offset : Z;
  dc_length : Z;
  dc_last_result : Z;
  dc_read_groups : bool;
  dc_recursion_depth : Z
}.
Definition set_dc_group (md attrs : option msgpack_object) (c : flb_log_event_decoder) : flb_log_event_decoder :=
  mk_decoder attrs md (dc_previous_offset c) (dc_record_length c) (dc_record_base c) (dc_buffer c) (dc_offset c)
    (dc_length c) (dc_last_result c) (dc_read_groups c) (dc_recursion_depth c).
Definition set_dc_record (base : option Z) (len : Z) (c : flb_log_event_decoder) : flb_log_event_decoder :=
  mk_decoder (dc_current_group_attributes c) (dc_current_group_metadata c) (dc_previous_offset c) len base (dc_buffer c)
    (dc_offset c) (dc_length c) (dc_last_result c) (dc_read_groups c) (dc_recursion_depth c).
Definition set_dc_offset (off : Z) (c : flb_log_event_decoder) : flb_log_event_decoder :=
  mk_decoder (dc_current_group_attributes c) (dc_current_group_metadata c) (dc_previous_offset c) (dc_record_length c)
    (dc_record_base c) (dc_buffer c) off (dc_length c) (dc_last_result c) (dc_read_groups c) (dc_recursion_depth c).
Definition set_dc_previous_offset (off : Z) (c : flb_log_event_decoder) : flb_log_event_decoder :=
  mk_decoder (dc_current_group_attributes c) (dc_current_group_metadata c) off (dc_record_length c)
    (dc_record_base c) (dc_buffer c) (dc_offset c) (dc_length c) (dc_last_result c) (dc_read_groups c) (dc_recursion_depth c).
Definition set_dc_last_result (r : Z) (c : flb_log_event_decoder) : flb_log_event_decoder :=
  mk_decoder (dc_current_group_attributes c) (dc_current_group_metadata c) (dc_previous_offset c) (dc_record_length c)
    (dc_record_base c) (dc_buffer c) (dc_offset c) (dc_length c) r (dc_read_groups c) (dc_recursion_depth c).
Definition set_dc_recursion_depth (d : Z) (c : flb_log_event_decoder) : flb_log_event_decoder :=
  mk_decoder (dc_current_group_attributes c) (dc_current_group_metadata c) (dc_previous_offset c) (dc_record_length c)
    (dc_record_base c) (dc_buffer c) (dc_offset c) (dc_length c) (dc_last_result c) (dc_read_groups c) d.

(** The object that create_empty_map makes *)
Definition empty_map : msgpack_object := MSGPACK_OBJECT_MAP [].

(** ** Creation and settings *)

Definition flb_log_event_decoder_reset (c : flb_log_event_decoder) (input_buffer : list Z) : flb_log_event_decoder :=
  mk_decoder None None (dc_previous_offset c) (dc_record_length c) (dc_record_base c) input_buffer 0 (zlen input_buffer)
    FLB_EVENT_DECODER_ERROR_INSUFFICIENT_DATA (dc_read_groups c) 0.

(** The setting that is not FLB_TRUE or FLB_FALSE is refused. *)
Definition flb_log_event_decoder_read_groups (c : flb_log_event_decoder) (read_groups : Z) : Z * flb_log_event_decoder :=
  if negb (read_groups =? 1) && negb (read_groups =? 0) then (-1, c)
  else (0, mk_decoder (dc_current_group_attributes c) (dc_current_group_metadata c) (dc_previous_offset c)
             (dc_record_length c) (dc_record_base c) (dc_buffer c) (dc_offset c) (dc_length c) (dc_last_result c)
             (read_groups =? 1) (dc_recursion_depth c)).

(** The packer and the unpacker may run out of memory. *)
Definition create_empty_map : M heap Z :=
  ok ← syscall;
  if (ok : bool) then
    ok ← syscall;
    mret (if (ok : bool) then FLB_EVENT_DECODER_SUCCESS else FLB_EVENT_DECODER_ERROR_INITIALIZATION_FAILURE)
  else mret FLB_EVENT_DECODER_ERROR_INITIALIZATION_FAILURE.

Definition flb_log_event_decoder_init (input_buffer : list Z) : M heap (Z * flb_log_event_decoder) :=
  let zeroed := mk_decoder None None 0 0 None [] 0 0 0 false 0 in
  result ← create_empty_map;
  mret (result, flb_log_event_decoder_reset zeroed input_buffer).

Definition flb_log_event_decoder_destroy (context : nat) : M heap unit := free_block context.

(** The context with its address *)
Definition flb_log_event_decoder_create (input_buffer : list Z) : M heap (option (nat * flb_log_event_decoder)) :=
  p ← alloc;
  match p with
  | None => mret None
  | Some a =>
      '(result, c) ← flb_log_event_decoder_init input_buffer;
      if result =? FLB_EVENT_DECODER_SUCCESS then mret (Some (a, c))
      else flb_log_event_decoder_destroy a ≫= λ _, mret None
  end.

Definition flb_log_event_decoder_get_last_result (c : flb_log_event_decoder) : Z * flb_log_event_decoder :=
  let c := if (dc_last_result c =? FLB_EVENT_DECODER_ERROR_INSUFFICIENT_DATA) && (dc_offset c =? dc_length c)
           then set_dc_last_result FLB_EVENT_DECODER_SUCCESS c else c in
  (dc_last_result c, c).

(** ** Events *)

(** Four bytes, the highest one first *)
Definition be32 (b : list Z) (off : Z) : option Z :=
  b0 ← b !z off; b1 ← b !z (off + 1); b2 ← b !z (off + 2); b3 ← b !z (off + 3);
  Some (b0 * 2 ^ 24 + b1 * 2 ^ 16 + b2 * 2 ^ 8 + b3).

(** [None] is a float that does not fit the type of seconds. *)
Definition flb_log_event_decoder_decode_timestamp (input : msgpack_object) : option (Z * flb_time) :=
  match input with
  | MSGPACK_OBJECT_POSITIVE_INTEGER u => Some (FLB_EVENT_DECODER_SUCCESS, mk_time (i64 u) 0)
  | MSGPACK_OBJECT_FLOAT64 d =>
      sec ← double_to_i64 d;
      nsec ← double_to_i64 (double_mul (double_sub d (double_of_Z sec)) (double_of_Z 1000000000));
      Some (FLB_EVENT_DECODER_SUCCESS, mk_time sec nsec)
  | MSGPACK_OBJECT_EXT type bytes =>
      if negb (type =? 0) || negb (zlen bytes =? 8) then Some (FLB_EVENT_DECODER_ERROR_WRONG_TIMESTAMP_TYPE, mk_time 0 0)
      else
        sec ← be32 bytes 0;
        nsec ← be32 bytes 4;
        Some (FLB_EVENT_DECODER_SUCCESS, mk_time (i32 sec) (i32 nsec))
  | _ => Some (FLB_EVENT_DECODER_ERROR_WRONG_TIMESTAMP_TYPE, mk_time 0 0)
  end.

Definition is_timestamp (o : msgpack_object) : bool :=
  match o with MSGPACK_OBJECT_POSITIVE_INTEGER _ | MSGPACK_OBJECT_FLOAT64 _ | MSGPACK_OBJECT_EXT _ _ => true | _ => false end.
Definition is_map (o : msgpack_object) : bool := match o with MSGPACK_OBJECT_MAP _ => true | _ => false end.

(** What the code looks at in a root object: timestamp, metadata and format, or an error *)
Definition decode_header (header : msgpack_object) : Z + msgpack_object * msgpack_object * Z :=
  match header with
  | MSGPACK_OBJECT_ARRAY [timestamp; metadata] => inr (timestamp, metadata, FLB_LOG_EVENT_FORMAT_FLUENT_BIT_V2)
  | MSGPACK_OBJECT_ARRAY _ => inl FLB_EVENT_DECODER_ERROR_WRONG_HEADER_SIZE
  | _ => inr (header, empty_map, FLB_LOG_EVENT_FORMAT_FORWARD)
  end.

Definition flb_event_decoder_decode_object (c : flb_log_event_decoder) (input : msgpack_object)
    : option (Z * flb_log_event * flb_log_event_decoder) :=
  match input with
  | MSGPACK_OBJECT_ARRAY root =>
      match root with
      | [header; body] =>
          match decode_header header with
          | inl err => Some (err, no_event, c)
          | inr (timestamp, metadata, format) =>
              if negb (is_timestamp timestamp) then Some (FLB_EVENT_DECODER_ERROR_WRONG_TIMESTAMP_TYPE, no_event, c)
              else if negb (is_map metadata) then Some (FLB_EVENT_DECODER_ERROR_WRONG_METADATA_TYPE, no_event, c)
              else if negb (is_map body) then Some (FLB_EVENT_DECODER_ERROR_WRONG_BODY_TYPE, no_event, c)
              else
                '(result, time) ← flb_log_event_decoder_decode_timestamp timestamp;
                if negb (result =? FLB_EVENT_DECODER_SUCCESS)
                then Some (result, mk_event None None None time None FLB_LOG_EVENT_FORMAT_UNKNOWN None None, c)
                else
                  Some (FLB_EVENT_DECODER_SUCCESS,
                    mk_event None None (Some timestamp) time (Some metadata) format (Some body) (Some input),
                    set_dc_record (Some (dc_previous_offset c)) (dc_offset c - dc_previous_offset c) c)
          end
      | _ => Some (FLB_EVENT_DECODER_ERROR_WRONG_ROOT_SIZE, no_event, c)
      end
  | _ => Some (FLB_EVENT_DECODER_ERROR_WRONG_ROOT_TYPE, no_event, c)
  end.

(** [None] is -1. *)
Definition flb_log_event_decoder_get_record_type (e : flb_log_event) : option Z :=
  let s := i32 (tv_sec (ev_timestamp e)) in
  if 0 <=? s then Some FLB_LOG_EVENT_NORMAL
  else if s =? FLB_LOG_EVENT_GROUP_START then Some FLB_LOG_EVENT_GROUP_START
  else if s =? FLB_LOG_EVENT_GROUP_END then Some FLB_LOG_EVENT_GROUP_END
  else None.

(** What the unpacker answers, with the new offset *)
Inductive unpacked :=
| MSGPACK_UNPACK_SUCCESS (o : msgpack_object)
| MSGPACK_UNPACK_CONTINUE
| MSGPACK_UNPACK_ERROR.

Section decoder.
Variable msgpack_unpack_next : list Z → Z → unpacked * Z.

(** The group of a GROUP_START record, from its own copy of the root object *)
Definition group_of (data : msgpack_object) (e : flb_log_event) : option msgpack_object * option msgpack_object :=
  match data with
  | MSGPACK_OBJECT_ARRAY [header; root_body] =>
      (match header with MSGPACK_OBJECT_ARRAY [_; md] => Some md | _ => Some empty_map end, Some root_body)
  | _ => (ev_metadata e, ev_body e)
  end.

(** The recursion skips a record; its depth is bounded by [dc_recursion_depth]. *)
Fixpoint decoder_next (fuel : nat) (c : flb_log_event_decoder) (event : flb_log_event)
    : option (Z * flb_log_event * flb_log_event_decoder) :=
  match fuel with
  | O => None
  | S fuel' =>
      let skip c :=
        '(ret, e, c) ← decoder_next fuel' (set_dc_recursion_depth (dc_recursion_depth c + 1) c) no_event;
        Some (ret, e, set_dc_recursion_depth (dc_recursion_depth c - 1) c) in
      if dc_length c =? 0 then
        Some (FLB_EVENT_DECODER_ERROR_INSUFFICIENT_DATA, event, set_dc_last_result FLB_EVENT_DECODER_ERROR_INSUFFICIENT_DATA c)
      else
        let c := set_dc_record None 0 c in
        let previous_offset := dc_offset c in
        let '(result, off) := msgpack_unpack_next (dc_buffer c) (dc_offset c) in
        let c := set_dc_offset off c in
        match result with
        | MSGPACK_UNPACK_CONTINUE =>
            Some (FLB_EVENT_DECODER_ERROR_INSUFFICIENT_DATA, event, set_dc_last_result FLB_EVENT_DECODER_ERROR_INSUFFICIENT_DATA c)
        | MSGPACK_UNPACK_ERROR =>
            Some (FLB_EVENT_DECODER_ERROR_DESERIALIZATION_FAILURE, event,
                  set_dc_last_result FLB_EVENT_DECODER_ERROR_DESERIALIZATION_FAILURE c)
        | MSGPACK_UNPACK_SUCCESS data =>
            '(last, e, c) ← flb_event_decoder_decode_object (set_dc_previous_offset previous_offset c) data;
            let c := set_dc_last_result last c in
            if last =? FLB_EVENT_DECODER_SUCCESS then
              if FLB_LOG_EVENT_DECODER_MAX_RECURSION_DEPTH <=? dc_recursion_depth c then
                Some (FLB_EVENT_DECODER_ERROR_DESERIALIZATION_FAILURE, e,
                      set_dc_last_result FLB_EVENT_DECODER_ERROR_DESERIALIZATION_FAILURE c)
              else
                match flb_log_event_decoder_get_record_type e with
                | None => skip c
                | Some record_type =>
                    if negb (record_type =? FLB_LOG_EVENT_NORMAL) then
                      let '(md, attrs) :=
                        if record_type =? FLB_LOG_EVENT_GROUP_START then group_of data e else (None, None) in
                      let c := set_dc_group md attrs c in
                      if dc_read_groups c then Some (dc_last_result c, e, c) else skip c
                    else
                      Some (dc_last_result c,
                            set_ev_group (dc_current_group_metadata c) (dc_current_group_attributes c) e, c)
                end
            else Some (last, e, c)
        end
  end.

Definition flb_log_event_decoder_next (c : flb_log_event_decoder) (event : flb_log_event)
    : option (Z * flb_log_event * flb_log_event_decoder) :=
  decoder_next (S (Z.to_nat (FLB_LOG_EVENT_DECODER_MAX_RECURSION_DEPTH - dc_recursion_depth c))) c event.
End decoder.

(** ** Specification

    The objects of a buffer, and how it ends *)
Section spec.
Context (msgpack_unpack_next : list Z → Z → unpacked * Z).
Abbreviation next := (flb_log_event_decoder_next msgpack_unpack_next).

Inductive stream (b : list Z) : Z → list msgpack_object → Z → Prop :=
| stream_end off off' : msgpack_unpack_next b off = (MSGPACK_UNPACK_CONTINUE, off') →
    stream b off [] FLB_EVENT_DECODER_ERROR_INSUFFICIENT_DATA
| stream_error off off' : msgpack_unpack_next b off = (MSGPACK_UNPACK_ERROR, off') →
    stream b off [] FLB_EVENT_DECODER_ERROR_DESERIALIZATION_FAILURE
| stream_cons off off' o objs r : msgpack_unpack_next b off = (MSGPACK_UNPACK_SUCCESS o, off') →
    stream b off' objs r → stream b off (o :: objs) r.

(** What the unpacker promises: it stops at the end of the buffer, and an object takes some of it. *)
Record unpacker_ok : Prop := {
  up_end b off : zlen b <= off → msgpack_unpack_next b off = (MSGPACK_UNPACK_CONTINUE, off);
  up_progress b off o off' : msgpack_unpack_next b off = (MSGPACK_UNPACK_SUCCESS o, off') → off < off' <= zlen b
}.

(** The event of an object, or the error; [None] as above *)
Definition event_of (o : msgpack_object) : option (Z + flb_log_event) :=
  match o with
  | MSGPACK_OBJECT_ARRAY [header; body] =>
      match decode_header header with
      | inl err => Some (inl err)
      | inr (timestamp, metadata, format) =>
          if negb (is_timestamp timestamp) then Some (inl FLB_EVENT_DECODER_ERROR_WRONG_TIMESTAMP_TYPE)
          else if negb (is_map metadata) then Some (inl FLB_EVENT_DECODER_ERROR_WRONG_METADATA_TYPE)
          else if negb (is_map body) then Some (inl FLB_EVENT_DECODER_ERROR_WRONG_BODY_TYPE)
          else
            '(result, time) ← flb_log_event_decoder_decode_timestamp timestamp;
            Some (if result =? FLB_EVENT_DECODER_SUCCESS
                  then inr (mk_event None None (Some timestamp) time (Some metadata) format (Some body) (Some o))
                  else inl result)
      end
  | MSGPACK_OBJECT_ARRAY _ => Some (inl FLB_EVENT_DECODER_ERROR_WRONG_ROOT_SIZE)
  | _ => Some (inl FLB_EVENT_DECODER_ERROR_WRONG_ROOT_TYPE)
  end.

(** The events of a sequence of objects that ends with the code [r], in the group [md], [attrs], after
    [skipped] records in a row that were not handed out *)
Fixpoint spec_events (read_groups : bool) (md attrs : option msgpack_object) (skipped : Z) (objs : list msgpack_object) (r : Z)
    : option (list flb_log_event * Z) :=
  match objs with
  | [] => Some ([], r)
  | o :: objs' =>
      x ← event_of o;
      match x with
      | inl err => Some ([], err)
      | inr e =>
          if FLB_LOG_EVENT_DECODER_MAX_RECURSION_DEPTH <=? skipped
          then Some ([], FLB_EVENT_DECODER_ERROR_DESERIALIZATION_FAILURE)
          else
            match flb_log_event_decoder_get_record_type e with
            | None => spec_events read_groups md attrs (skipped + 1) objs' r
            | Some t =>
                if t =? FLB_LOG_EVENT_NORMAL then
                  '(es, r') ← spec_events read_groups md attrs 0 objs' r; Some (set_ev_group md attrs e :: es, r')
                else
                  let '(md, attrs) := if t =? FLB_LOG_EVENT_GROUP_START then (ev_metadata e, ev_body e) else (None, None) in
                  if read_groups then '(es, r') ← spec_events read_groups md attrs 0 objs' r; Some (e :: es, r')
                  else spec_events read_groups md attrs (skipped + 1) objs' r
            end
      end
  end.

(** All events of a buffer, as a client reads them *)
Fixpoint decode_all (n : nat) (c : flb_log_event_decoder) : option (list flb_log_event * Z) :=
  match n with
  | O => None
  | S n' =>
      '(ret, e, c) ← next c no_event;
      if ret =? FLB_EVENT_DECODER_SUCCESS then '(es, r) ← decode_all n' c; Some (e :: es, r) else Some ([], ret)
  end.

(** ** The decoder implements the specification *)

Lemma stream_exists b off : unpacker_ok → 0 <= off → ∃ objs r, stream b off objs r.
Proof.
  intros [He Hp]. remember (Z.to_nat (zlen b - off)) as n eqn:Hn. revert off Hn.
  induction n as [n IH] using lt_wf_ind. intros off -> Hoff.
  destruct (msgpack_unpack_next b off) as [[o| |] off'] eqn:Hu; [|eauto using stream..].
  destruct (Hp _ _ _ _ Hu). destruct (IH (Z.to_nat (zlen b - off'))) with (off := off') as (objs & r & ?); [lia|done|lia|].
  eauto using stream.
Qed.

Lemma decode_object_ok c o :
  match flb_event_decoder_decode_object c o with
  | None => event_of o = None
  | Some (ret, e, c') =>
      c' = (if ret =? FLB_EVENT_DECODER_SUCCESS
            then set_dc_record (Some (dc_previous_offset c)) (dc_offset c - dc_previous_offset c) c else c) ∧
      event_of o = Some (if ret =? FLB_EVENT_DECODER_SUCCESS then inr e else inl ret)
  end.
Proof.
  unfold flb_event_decoder_decode_object, event_of.
  destruct o as [| | | | | | | | |root|]; try done. destruct root as [|header [|body [|]]]; try done.
  destruct (decode_header header) as [err|[[ts md] format]] eqn:Hh.
  - unfold decode_header in Hh. destruct header as [| | | | | | | | |[|? [|? [|]]]|]; by simplify_eq.
  - destruct (is_timestamp ts); [|done]. destruct (is_map md); [|done]. destruct (is_map body); [|done]. cbn [negb].
    destruct (flb_log_event_decoder_decode_timestamp ts) as [[result time]|]; [|done]. cbn [mbind option_bind].
    destruct (Z.eqb_spec result FLB_EVENT_DECODER_SUCCESS) as [->|Hne]; cbn [negb]; [done|].
    by rewrite (proj2 (Z.eqb_neq _ _) Hne).
Qed.

(** The group of a start marker is its metadata and its body. *)
Lemma group_of_ok o e : event_of o = Some (inr e) → group_of o e = (ev_metadata e, ev_body e).
Proof.
  unfold event_of, group_of. destruct o as [| | | | | | | | |root|]; try done. destruct root as [|header [|body [|]]]; try done.
  destruct (decode_header header) as [|[[ts md] format]] eqn:Hh; [done|]. case_match; [done|]. case_match; [done|]. case_match; [done|].
  destruct (flb_log_event_decoder_decode_timestamp ts) as [[result time]|]; [|done]. cbn [mbind option_bind].
  destruct (result =? _); [|done]. intros [= <-]. cbn. f_equal.
  unfold decode_header in Hh. destruct header as [| | | | | | | | |[|? [|? [|]]]|]; by simplify_eq.
Qed.

(** The context and the event after a call: the next event of the specification [spec], with some of the
    objects [objs] taken, or its end *)
Definition next_result (spec : option (list flb_log_event * Z)) (c : flb_log_event_decoder) (objs : list msgpack_object) (r ret : Z)
    (e : flb_log_event) (c' : flb_log_event_decoder) : Prop :=
  dc_buffer c' = dc_buffer c ∧ dc_length c' = dc_length c ∧ dc_read_groups c' = dc_read_groups c ∧
  dc_recursion_depth c' = dc_recursion_depth c ∧
  if ret =? FLB_EVENT_DECODER_SUCCESS then
    dc_offset c < dc_offset c' <= dc_length c ∧ ∃ o pre objs', stream (dc_buffer c) (dc_offset c') objs' r ∧ objs = o :: pre ++ objs' ∧
      spec = ('(es, r') ← spec_events (dc_read_groups c) (dc_current_group_metadata c') (dc_current_group_attributes c') 0 objs' r;
              Some (e :: es, r'))
  else spec = Some ([], ret).

(** What the specification gives in the state of a context *)
Definition spec_from (c : flb_log_event_decoder) (objs : list msgpack_object) (r : Z) : option (list flb_log_event * Z) :=
  spec_events (dc_read_groups c) (dc_current_group_metadata c) (dc_current_group_attributes c) (dc_recursion_depth c) objs r.

Lemma skip_ok spec c c3 o objs r ret e c4 :
  dc_buffer c3 = dc_buffer c → dc_length c3 = dc_length c → dc_read_groups c3 = dc_read_groups c → dc_offset c < dc_offset c3 →
  next_result spec (set_dc_recursion_depth (dc_recursion_depth c + 1) c3) objs r ret e c4 →
  next_result spec c (o :: objs) r ret e (set_dc_recursion_depth (dc_recursion_depth c4 - 1) c4).
Proof.
  unfold next_result. cbn. intros -> -> -> Hoff (-> & -> & -> & -> & Hret). split_and!; try done; [lia|].
  destruct (ret =? FLB_EVENT_DECODER_SUCCESS); [|done]. destruct Hret as (? & o' & pre & objs' & ? & -> & ?). split; [lia|].
  by exists o, (o' :: pre), objs'.
Qed.

Lemma stream_unpack b off objs r u off' : stream b off objs r → msgpack_unpack_next b off = (u, off') →
  match u with
  | MSGPACK_UNPACK_SUCCESS o => ∃ objs', objs = o :: objs' ∧ stream b off' objs' r
  | MSGPACK_UNPACK_CONTINUE => objs = [] ∧ r = FLB_EVENT_DECODER_ERROR_INSUFFICIENT_DATA
  | MSGPACK_UNPACK_ERROR => objs = [] ∧ r = FLB_EVENT_DECODER_ERROR_DESERIALIZATION_FAILURE
  end.
Proof. intros Hst Hu. destruct Hst as [? ? Hu'|? ? Hu'|? ? ? ? ? Hu']; rewrite Hu in Hu'; simplify_eq; eauto. Qed.

Lemma next_ok fuel : unpacker_ok → ∀ c ev objs r,
  stream (dc_buffer c) (dc_offset c) objs r → 0 <= dc_offset c → dc_length c = zlen (dc_buffer c) →
  0 <= dc_recursion_depth c <= 1000 → fuel = S (Z.to_nat (1000 - dc_recursion_depth c)) →
  match decoder_next msgpack_unpack_next fuel c ev with
  | None => spec_from c objs r = None
  | Some (ret, e, c') => next_result (spec_from c objs r) c objs r ret e c'
  end.
Proof.
  intros [Hend Hprog]. induction fuel as [|fuel IH]; intros c ev objs r Hst Hoff Hlen Hd Hf; [done|]. cbn [decoder_next].
  destruct (Z.eqb_spec (dc_length c) 0) as [Hz|Hz].
  { pose proof (stream_unpack _ _ _ _ _ _ Hst (Hend (dc_buffer c) (dc_offset c) ltac:(lia))) as [-> ->]. done. }
  cbn [dc_buffer dc_offset set_dc_record].
  destruct (msgpack_unpack_next (dc_buffer c) (dc_offset c)) as [u off'] eqn:Hu.
  pose proof (stream_unpack _ _ _ _ _ _ Hst Hu) as Hobjs.
  destruct u as [o| |]; [|by destruct Hobjs as [-> ->]..]. destruct Hobjs as (objs' & -> & Hst'). destruct (Hprog _ _ _ _ Hu).
  match goal with |- context [flb_event_decoder_decode_object ?c1 o] => set (c1' := c1); pose proof (decode_object_ok c1' o) as Hdec end.
  unfold spec_from. cbn [spec_events].
  destruct (flb_event_decoder_decode_object c1' o) as [[[last e] c2]|] eqn:Hc2; cbn [mbind option_bind]; [|by rewrite Hdec].
  destruct Hdec as [-> Hev]. rewrite Hev. cbn [mbind option_bind]. clear Hc2.
  destruct (Z.eqb_spec last FLB_EVENT_DECODER_SUCCESS) as [->|Hne].
  2: { unfold next_result. split_and!; try done. by rewrite (proj2 (Z.eqb_neq _ _) Hne). }
  rewrite (group_of_ok _ _ Hev).
  set (c2 := set_dc_last_result _ _). change (dc_recursion_depth c2) with (dc_recursion_depth c).
  destruct (Z.leb_spec FLB_LOG_EVENT_DECODER_MAX_RECURSION_DEPTH (dc_recursion_depth c)) as [Hmax|Hmax]; [done|].
  unfold FLB_LOG_EVENT_DECODER_MAX_RECURSION_DEPTH in Hmax.
  assert (Hskip : ∀ md attrs, let c3 := set_dc_group md attrs c2 in
    match ('(ret, e, c) ← decoder_next msgpack_unpack_next fuel (set_dc_recursion_depth (dc_recursion_depth c3 + 1) c3) no_event;
           Some (ret, e, set_dc_recursion_depth (dc_recursion_depth c - 1) c)) with
    | None => spec_events (dc_read_groups c) md attrs (dc_recursion_depth c + 1) objs' r = None
    | Some (ret, e, c') =>
        next_result (spec_events (dc_read_groups c) md attrs (dc_recursion_depth c + 1) objs' r) c (o :: objs') r ret e c'
    end).
  { intros md attrs c3. pose proof (IH (set_dc_recursion_depth (dc_recursion_depth c3 + 1) c3) no_event objs' r Hst'
      ltac:(cbn; lia) Hlen ltac:(cbn; lia) ltac:(cbn; lia)) as Hrec.
    destruct (decoder_next _ fuel _ no_event) as [[[ret e3] c4]|]; [|done].
    apply (skip_ok _ c c3 o) in Hrec; [done..|unfold c3, c2, c1'; cbn; lia]. }
  destruct (flb_log_event_decoder_get_record_type e) as [t|]; [|apply (Hskip (dc_current_group_metadata c) (dc_current_group_attributes c))].
  destruct (Z.eqb_spec t FLB_LOG_EVENT_NORMAL) as [->|Hn]; cbn [negb].
  - split_and!; try done. cbn. split; [lia|]. by exists o, [], objs'.
  - destruct (if t =? FLB_LOG_EVENT_GROUP_START then (ev_metadata e, ev_body e) else (None, None)) as [md attrs].
    specialize (Hskip md attrs). change (dc_read_groups (set_dc_group md attrs c2)) with (dc_read_groups c).
    destruct (dc_read_groups c) eqn:Hrg; [|exact Hskip].
    split_and!; try done. cbn. rewrite Hrg. split; [lia|]. by exists o, [], objs'.
Qed.

Lemma decode_all_ok n : unpacker_ok → ∀ c objs r,
  stream (dc_buffer c) (dc_offset c) objs r → 0 <= dc_offset c → dc_length c = zlen (dc_buffer c) →
  dc_recursion_depth c = 0 → (length objs < n)%nat → decode_all n c = spec_from c objs r.
Proof.
  intros Hup. induction n as [|n IH]; intros c objs r Hst Hoff Hlen Hd Hn; [lia|]. cbn [decode_all].
  unfold flb_log_event_decoder_next, FLB_LOG_EVENT_DECODER_MAX_RECURSION_DEPTH.
  pose proof (next_ok _ Hup c no_event objs r Hst Hoff Hlen ltac:(lia) eq_refl) as Hnext.
  destruct (decoder_next _ _ c no_event) as [[[ret e] c']|]; cbn [mbind option_bind]; [|done].
  destruct Hnext as (Hb & Hl & Hrg & Hdep & Hret). destruct (ret =? FLB_EVENT_DECODER_SUCCESS); [|done].
  destruct Hret as (? & o & pre & objs' & Hst' & -> & ->). cbn [length] in Hn. rewrite length_app in Hn.
  rewrite (IH c' objs' r); [|by rewrite Hb|lia|by rewrite Hl, Hb|by rewrite Hdep|lia].
  unfold spec_from. by rewrite Hrg, Hdep, Hd.
Qed.

Lemma stream_length b off objs r : unpacker_ok → 0 <= off → stream b off objs r → (length objs <= Z.to_nat (zlen b - off))%nat.
Proof.
  intros [_ Hp] Hoff Hst. induction Hst as [| |off off' o objs r Hu Hst IH]; cbn; [lia|lia|].
  destruct (Hp _ _ _ _ Hu). specialize (IH ltac:(lia)). lia.
Qed.

(** C20. Reading events until the decoder reports an error always ends, and gives what the specification says
    of the objects in the buffer: every event with the metadata and attributes of the group it is in,
    markers only when they were asked for, and records with another negative timestamp not at all; the end
    is the first object that is no event, the thousandth record in a row that is not handed out, or the
    end of the buffer. *)
Theorem decoder_exact c buffer : unpacker_ok →
  ∃ objs r, stream buffer 0 objs r ∧
    decode_all (S (length buffer)) (flb_log_event_decoder_reset c buffer) = spec_events (dc_read_groups c) None None 0 objs r.
Proof.
  intros Hup. destruct (stream_exists buffer 0 Hup) as (objs & r & Hst); [lia|]. exists objs, r. split; [done|].
  pose proof (stream_length buffer 0 _ _ Hup ltac:(lia) Hst) as Hlen. unfold zlen in Hlen.
  rewrite (decode_all_ok _ Hup (flb_log_event_decoder_reset c buffer) objs r Hst ltac:(cbn; lia) eq_refl eq_refl); [done|lia].
Qed.

Lemma event_parts o e : event_of o = Some (inr e) →
  ∃ md body, ev_metadata e = Some md ∧ ev_body e = Some body ∧ is_map md = true ∧ is_map body = true.
Proof.
  unfold event_of. intros Hev. destruct o as [| | | | | | | | |root|]; try done. destruct root as [|header [|body [|]]]; try done.
  destruct (decode_header header) as [|[[ts md] format]]; [done|]. destruct (is_timestamp ts); [|done].
  destruct (is_map md) eqn:?; [|done]. destruct (is_map body) eqn:?; [|done]. cbn [negb] in Hev.
  destruct (flb_log_event_decoder_decode_timestamp ts) as [[res t]|]; [|done]. cbn [mbind option_bind] in Hev.
  destruct (res =? FLB_EVENT_DECODER_SUCCESS); [|discriminate Hev]. injection Hev as <-. eauto 10.
Qed.
(** An event that is handed out has its parts and a type. *)
Lemma next_event fuel : ∀ c ev e c', decoder_next msgpack_unpack_next fuel c ev = Some (FLB_EVENT_DECODER_SUCCESS, e, c') →
  (∃ md body, ev_metadata e = Some md ∧ ev_body e = Some body ∧ is_map md = true ∧ is_map body = true) ∧
  is_Some (flb_log_event_decoder_get_record_type e).
Proof.
  induction fuel as [|fuel IH]; intros c ev e c'; [done|]. cbn [decoder_next]. destruct (dc_length c =? 0); [by intros [=]|].
  destruct (msgpack_unpack_next _ _) as [[o| |] off']; [|by intros [=]..].
  match goal with |- context [flb_event_decoder_decode_object ?c1 o] => pose proof (decode_object_ok c1 o) as Hdec end.
  destruct (flb_event_decoder_decode_object _ o) as [[[last e1] c2]|]; cbn [mbind option_bind]; [|done].
  destruct (Z.eqb_spec last FLB_EVENT_DECODER_SUCCESS) as [->|Hne]; [|intros [= -> _ _]; done]. destruct Hdec as [_ Hev].
  pose proof (event_parts _ _ Hev) as Hparts.
  destruct (_ <=? _); [by intros [=]|]. destruct (flb_log_event_decoder_get_record_type e1) as [t|] eqn:Ht.
  2: { destruct (decoder_next _ fuel _ no_event) as [[[ret e3] c4]|] eqn:Hn; cbn [mbind option_bind]; [|done]. intros [= -> -> _]. by eapply IH. }
  destruct (t =? FLB_LOG_EVENT_NORMAL); cbn [negb]; [intros [= <- <-]; split; [done|by eexists]|].
  destruct (if t =? FLB_LOG_EVENT_GROUP_START then _ else _) as [md attrs].
  destruct (dc_read_groups _); [intros [= <- <-]; split; [done|by eexists]|].
  destruct (decoder_next _ fuel _ no_event) as [[[ret e3] c4]|] eqn:Hn; cbn [mbind option_bind]; [|done]. intros [= -> -> _]. by eapply IH.
Qed.

(** What holds of the metadata and the bodies of all events in a buffer holds of every part of an event that is
    handed out, the group included. *)
Section parts.
Variable P : msgpack_object → Prop.
Definition optional (o : option msgpack_object) : Prop := match o with Some o => P o | None => True end.
Definition event_holds (e : flb_log_event) : Prop :=
  optional (ev_metadata e) ∧ optional (ev_body e) ∧ optional (ev_group_metadata e) ∧ optional (ev_group_attributes e).
Definition object_holds (o : msgpack_object) : Prop :=
  ∀ e, event_of o = Some (inr e) → optional (ev_metadata e) ∧ optional (ev_body e).
Definition group_holds (c : flb_log_event_decoder) : Prop :=
  optional (dc_current_group_metadata c) ∧ optional (dc_current_group_attributes c).
Definition source_holds (c : flb_log_event_decoder) : Prop :=
  group_holds c ∧ ∃ objs r, stream (dc_buffer c) (dc_offset c) objs r ∧ Forall object_holds objs.

Lemma event_of_group o e : event_of o = Some (inr e) → ev_group_metadata e = None ∧ ev_group_attributes e = None.
Proof.
  unfold event_of. destruct o as [| | | | | | | | |root|]; try done. destruct root as [|header [|body [|]]]; try done.
  destruct (decode_header header) as [|[[ts md] format]]; [done|]. case_match; [done|]. case_match; [done|]. case_match; [done|].
  destruct (flb_log_event_decoder_decode_timestamp ts) as [[result time]|]; [|done]. cbn [mbind option_bind].
  destruct (result =? _); [|done]. by intros [= <-].
Qed.

Lemma next_holds fuel : ∀ c ev e c', source_holds c →
  decoder_next msgpack_unpack_next fuel c ev = Some (FLB_EVENT_DECODER_SUCCESS, e, c') → event_holds e ∧ source_holds c'.
Proof.
  induction fuel as [|fuel IH]; intros c ev e c' Hsrc; [done|]. cbn [decoder_next]. destruct (dc_length c =? 0); [by intros [=]|].
  destruct Hsrc as [Hgrp (objs & r & Hst & Hobjs)]. cbn [dc_buffer dc_offset set_dc_record].
  destruct (msgpack_unpack_next (dc_buffer c) (dc_offset c)) as [[o| |] off'] eqn:Hu; [|by intros [=]..].
  pose proof (stream_unpack _ _ _ _ _ _ Hst Hu) as (objs' & -> & Hst'). apply Forall_cons in Hobjs as [Ho Hobjs'].
  match goal with |- context [flb_event_decoder_decode_object ?c1 o] => set (c1' := c1); pose proof (decode_object_ok c1' o) as Hdec end.
  destruct (flb_event_decoder_decode_object c1' o) as [[[last e1] c2]|]; cbn [mbind option_bind]; [|done].
  destruct (Z.eqb_spec last FLB_EVENT_DECODER_SUCCESS) as [->|Hne]; [|intros [= -> _ _]; done]. destruct Hdec as [-> Hev].
  rewrite (group_of_ok _ _ Hev). destruct (Ho _ Hev) as [Hmd Hbody]. destruct (event_of_group _ _ Hev) as [Hg1 Hg2].
  assert (Hsrc : ∀ c3, dc_buffer c3 = dc_buffer c → dc_offset c3 = off' → group_holds c3 → source_holds c3).
  { intros c3 Hb3 Ho3 Hg3. split; [done|]. exists objs', r. by rewrite Hb3, Ho3. }
  set (c2 := set_dc_last_result _ _).
  destruct (_ <=? _); [by intros [=]|]. destruct (flb_log_event_decoder_get_record_type e1) as [t|].
  2: { destruct (decoder_next _ fuel _ no_event) as [[[ret e3] c4]|] eqn:Hn; cbn [mbind option_bind]; [|done]. intros [= -> -> <-].
       apply IH in Hn as [? Hn]; [|by apply Hsrc]. done. }
  destruct (t =? FLB_LOG_EVENT_NORMAL); cbn [negb].
  { intros [= <- <-]. split; [|by apply Hsrc]. destruct Hgrp. done. }
  assert (Hmark : group_holds (set_dc_group (if t =? FLB_LOG_EVENT_GROUP_START then ev_metadata e1 else None)
    (if t =? FLB_LOG_EVENT_GROUP_START then ev_body e1 else None) c2)) by (unfold group_holds; cbn; by destruct (t =? _)).
  replace (if t =? FLB_LOG_EVENT_GROUP_START then (ev_metadata e1, ev_body e1) else (None, None)) with
    (if t =? FLB_LOG_EVENT_GROUP_START then ev_metadata e1 else None, if t =? FLB_LOG_EVENT_GROUP_START then ev_body e1 else None)
    by (by destruct (t =? _)).
  destruct (dc_read_groups _).
  { intros [= <- <-]. split; [|by apply Hsrc]. unfold event_holds. by rewrite Hg1, Hg2. }
  destruct (decoder_next _ fuel _ no_event) as [[[ret e3] c4]|] eqn:Hn; cbn [mbind option_bind]; [|done]. intros [= -> -> <-].
  apply IH in Hn as [? Hn]; [|by apply Hsrc]. done.
Qed.
End parts.

(** A decoder with the objects [objs] left, all of which have a defined event *)
Record decodable (d : flb_log_event_decoder) (objs : list msgpack_object) (r : Z) : Prop := {
  da_stream : stream (dc_buffer d) (dc_offset d) objs r;
  da_defined : Forall (λ o, is_Some (event_of o)) objs;
  da_offset : 0 <= dc_offset d <= dc_length d;
  da_length : dc_length d = zlen (dc_buffer d);
  da_depth : dc_recursion_depth d = 0
}.

Lemma spec_events_defined objs r : Forall (λ o, is_Some (event_of o)) objs → ∀ rg md attrs k, is_Some (spec_events rg md attrs k objs r).
Proof.
  induction 1 as [|o objs [x Hx] _ IH]; intros rg md attrs k; cbn [spec_events]; [done|]. rewrite Hx. cbn [mbind option_bind].
  destruct x as [err|e]; [done|]. case_match; [done|]. destruct (flb_log_event_decoder_get_record_type e) as [t|]; [|apply IH].
  destruct (t =? FLB_LOG_EVENT_NORMAL).
  - destruct (IH rg md attrs 0) as [[es r'] ->]. done.
  - destruct (if t =? FLB_LOG_EVENT_GROUP_START then _ else _) as [md' attrs'].
    destruct rg; [|apply IH]. destruct (IH true md' attrs' 0) as [[es r'] ->]. done.
Qed.

Lemma next_decodable d objs r : unpacker_ok → decodable d objs r →
  ∃ ret e d', next d no_event = Some (ret, e, d') ∧ next_result (spec_from d objs r) d objs r ret e d' ∧
    (ret = FLB_EVENT_DECODER_SUCCESS → dc_buffer d' = dc_buffer d ∧ dc_length d' = dc_length d ∧ dc_offset d < dc_offset d' ∧
       ∃ objs', decodable d' objs' r).
Proof.
  intros Hup [Hst Hdef Hoff Hlen Hd]. unfold flb_log_event_decoder_next, FLB_LOG_EVENT_DECODER_MAX_RECURSION_DEPTH.
  pose proof (next_ok _ Hup d no_event objs r Hst ltac:(lia) Hlen ltac:(lia) eq_refl) as Hnext.
  destruct (decoder_next _ _ d no_event) as [[[ret e] d']|].
  2: { destruct (spec_events_defined objs r Hdef (dc_read_groups d) (dc_current_group_metadata d) (dc_current_group_attributes d)
         (dc_recursion_depth d)) as [x Hx]. unfold spec_from in Hnext. congruence. }
  exists ret, e, d'. split; [done|]. split; [done|]. intros ->. destruct Hnext as (Hb & Hl & _ & Hdep & Hret).
  cbn in Hret. destruct Hret as (Ho & o & pre & objs' & Hst' & -> & _). split_and!; [done|done|lia|]. exists objs'.
  apply Forall_cons in Hdef as [_ [_ Hdef]%Forall_app]. constructor; [by rewrite Hb|done|lia|congruence|congruence].
Qed.

(** What a decoder that reads groups makes of an object: its event and its group after it *)
Definition event_in (d : flb_log_event_decoder) (t : Z) (e : flb_log_event) : flb_log_event :=
  if t =? FLB_LOG_EVENT_NORMAL then set_ev_group (dc_current_group_metadata d) (dc_current_group_attributes d) e else e.
Definition group_after (d : flb_log_event_decoder) (t : Z) (e : flb_log_event) : option msgpack_object * option msgpack_object :=
  if t =? FLB_LOG_EVENT_NORMAL then (dc_current_group_metadata d, dc_current_group_attributes d)
  else if t =? FLB_LOG_EVENT_GROUP_START then (ev_metadata e, ev_body e) else (None, None).

Lemma next_head d o off' e t : msgpack_unpack_next (dc_buffer d) (dc_offset d) = (MSGPACK_UNPACK_SUCCESS o, off') →
  event_of o = Some (inr e) → flb_log_event_decoder_get_record_type e = Some t →
  dc_read_groups d = true → dc_recursion_depth d = 0 → dc_length d ≠ 0 →
  ∃ d', next d no_event = Some (FLB_EVENT_DECODER_SUCCESS, event_in d t e, d') ∧
    dc_buffer d' = dc_buffer d ∧ dc_length d' = dc_length d ∧ dc_offset d' = off' ∧ dc_read_groups d' = true ∧ dc_recursion_depth d' = 0 ∧
    (dc_current_group_metadata d', dc_current_group_attributes d') = group_after d t e.
Proof.
  intros Hu Hev Ht Hrg Hd Hlen. unfold flb_log_event_decoder_next. rewrite Hd. cbn [decoder_next].
  rewrite (proj2 (Z.eqb_neq _ _) Hlen). cbn [dc_buffer dc_offset set_dc_record]. rewrite Hu.
  match goal with |- context [flb_event_decoder_decode_object ?c1 o] => set (c1' := c1); pose proof (decode_object_ok c1' o) as Hdec end.
  destruct (flb_event_decoder_decode_object c1' o) as [[[last e1] c2]|] eqn:Hc2; [|congruence]. destruct Hdec as [-> Hev'].
  rewrite Hev in Hev'. cbn [mbind option_bind].
  destruct (Z.eqb_spec last FLB_EVENT_DECODER_SUCCESS) as [->|_]; [|discriminate Hev']. injection Hev' as <-.
  cbn [dc_recursion_depth set_dc_last_result set_dc_record c1' set_dc_previous_offset set_dc_offset]. rewrite Hd. cbn [Z.leb Z.compare FLB_LOG_EVENT_DECODER_MAX_RECURSION_DEPTH].
  rewrite Ht, (group_of_ok _ _ Hev). unfold event_in, group_after. destruct (Z.eqb_spec t FLB_LOG_EVENT_NORMAL) as [->|Hn]; cbn [negb].
  - eexists. split; [reflexivity|]. cbn. split_and!; done.
  - destruct (if t =? FLB_LOG_EVENT_GROUP_START then (ev_metadata e, ev_body e) else (None, None)) as [md attrs].
    cbn [dc_read_groups set_dc_group set_dc_last_result set_dc_record c1' set_dc_previous_offset set_dc_offset]. rewrite Hrg.
    eexists. split; [reflexivity|]. cbn. split_and!; done.
Qed.

(** A buffer that is nothing but objects *)
Inductive all_objects (b : list Z) : Z → list msgpack_object → Prop :=
| all_objects_end : all_objects b (zlen b) []
| all_objects_cons off off' o objs : msgpack_unpack_next b off = (MSGPACK_UNPACK_SUCCESS o, off') →
    all_objects b off' objs → all_objects b off (o :: objs).

(** ** What clients see *)

Definition is_normal (e : flb_log_event) : bool :=
  match flb_log_event_decoder_get_record_type e with Some t => t =? FLB_LOG_EVENT_NORMAL | None => false end.

Lemma is_normal_group md attrs e : is_normal (set_ev_group md attrs e) = is_normal e.
Proof. done. Qed.

Lemma spec_markers objs r es r' : r' ≠ FLB_EVENT_DECODER_ERROR_DESERIALIZATION_FAILURE → ∀ md attrs k k', 0 <= k' <= k →
  spec_events false md attrs k objs r = Some (es, r') →
  ∃ es', spec_events true md attrs k' objs r = Some (es', r') ∧ es = filter (λ e, is_normal e = true) es'.
Proof.
  intros Hr'. revert es. induction objs as [|o objs IH]; intros es md attrs k k' Hk; cbn [spec_events].
  { intros [= <- <-]. by exists []. }
  destruct (event_of o) as [[err|e]|] eqn:Hev; cbn [mbind option_bind]; [|  |done].
  { intros [= <- <-]. by exists []. }
  destruct (Z.leb_spec FLB_LOG_EVENT_DECODER_MAX_RECURSION_DEPTH k) as [Hmax|Hmax]; [by intros [= <- <-]|].
  destruct (Z.leb_spec FLB_LOG_EVENT_DECODER_MAX_RECURSION_DEPTH k') as [Hmax'|Hmax']; [lia|].
  destruct (flb_log_event_decoder_get_record_type e) as [t|] eqn:Ht; [|apply IH; lia].
  destruct (Z.eqb_spec t FLB_LOG_EVENT_NORMAL) as [->|Hn].
  - destruct (spec_events false md attrs 0 objs r) as [[es1 r1]|] eqn:Hs; cbn [mbind option_bind]; [|done].
    intros [= <- ->]. destruct (IH es1 md attrs 0 0 ltac:(lia) Hs) as (es' & -> & ->). eexists. split; [done|].
    rewrite filter_cons_True; [done|]. rewrite is_normal_group. unfold is_normal. by rewrite Ht.
  - destruct (if t =? FLB_LOG_EVENT_GROUP_START then _ else _) as [md' attrs']. intros Hs.
    destruct (IH es md' attrs' (k + 1) 0 ltac:(lia) Hs) as (es' & -> & ->). eexists. split; [done|].
    rewrite filter_cons_False; [done|]. unfold is_normal. rewrite Ht. by rewrite (proj2 (Z.eqb_neq _ _) Hn).
Qed.

(** A client that does not ask for the markers of groups gets exactly the normal events among those that
    one who asks for them gets, with the same groups, and the same end - unless it ends as undecodable,
    which a thousand markers in a row are only to the former. *)
Theorem markers_transparent c buffer es r : unpacker_ok → r ≠ FLB_EVENT_DECODER_ERROR_DESERIALIZATION_FAILURE →
  decode_all (S (length buffer)) (flb_log_event_decoder_reset (flb_log_event_decoder_read_groups c 0).2 buffer) = Some (es, r) →
  ∃ es', decode_all (S (length buffer)) (flb_log_event_decoder_reset (flb_log_event_decoder_read_groups c 1).2 buffer) = Some (es', r) ∧
    es = filter (λ e, is_normal e = true) es'.
Proof.
  intros Hup Hr. destruct (stream_exists buffer 0 Hup) as (objs & r0 & Hst); [lia|].
  pose proof (stream_length buffer 0 _ _ Hup ltac:(lia) Hst) as Hlen. unfold zlen in Hlen.
  rewrite !(decode_all_ok _ Hup (flb_log_event_decoder_reset _ buffer) objs r0 Hst ltac:(cbn; lia) eq_refl eq_refl); [|lia..].
  unfold spec_from. cbn. intros Hs. by apply (spec_markers objs r0 es r Hr None None 0 0).
Qed.

(** A record in the older format with an integer timestamp *)
Definition plain_record (t : Z) (body : list (msgpack_object * msgpack_object)) : msgpack_object :=
  MSGPACK_OBJECT_ARRAY [MSGPACK_OBJECT_POSITIVE_INTEGER t; MSGPACK_OBJECT_MAP body].

Lemma spec_late rg md attrs l r : Forall (λ x : Z * list (msgpack_object * msgpack_object), 2 ^ 31 <= x.1 < 2 ^ 32 - 2) l →
  ∀ k, 0 <= k → k + zlen l <= 1000 → spec_events rg md attrs k ((λ x, plain_record x.1 x.2) <$> l) r = Some ([], r).
Proof.
  induction 1 as [|[t body] l Ht _ IH]; intros k Hk Hl; [done|]. rewrite zlen_cons in Hl. pose proof (zlen_nonneg l). cbn [fst] in Ht.
  cbn [fmap list_fmap spec_events]. cbn [plain_record event_of decode_header is_timestamp is_map negb empty_map
    flb_log_event_decoder_decode_timestamp mbind option_bind fst snd].
  rewrite Z.eqb_refl. cbn [mbind option_bind].
  rewrite (proj2 (Z.leb_gt _ _)) by (unfold FLB_LOG_EVENT_DECODER_MAX_RECURSION_DEPTH; lia).
  unfold flb_log_event_decoder_get_record_type. cbn [ev_timestamp tv_sec].
  assert (Hs : i32 (i64 t) = t - 2 ^ 32).
  { unfold i64, i32. rewrite (Z.mod_small (t + 2 ^ 63)) by lia. replace (t + 2 ^ 63 - 2 ^ 63 + 2 ^ 31) with (t - 2 ^ 31 + 1 * 2 ^ 32) by lia.
    rewrite Z.mod_add by lia. rewrite Z.mod_small by lia. lia. }
  rewrite Hs, (proj2 (Z.leb_gt _ _)), !(proj2 (Z.eqb_neq _ _)) by (unfold FLB_LOG_EVENT_GROUP_START, FLB_LOG_EVENT_GROUP_END; lia).
  apply IH; lia.
Qed.

(** Records with integer timestamps of 32 bits from the 19th of January 2038 on are taken for groups or for
    nothing: a buffer with up to a thousand of them decodes to no event at all, and without an error. *)
Theorem records_after_2038_lost c buffer l r : unpacker_ok →
  stream buffer 0 ((λ x, plain_record x.1 x.2) <$> l) r →
  Forall (λ x : Z * list (msgpack_object * msgpack_object), 2 ^ 31 <= x.1 < 2 ^ 32 - 2) l → zlen l <= 1000 →
  decode_all (S (length buffer)) (flb_log_event_decoder_reset c buffer) = Some ([], r).
Proof.
  intros Hup Hst Hl Hn. pose proof (stream_length buffer 0 _ _ Hup ltac:(lia) Hst) as Hlen. unfold zlen in Hlen.
  rewrite (decode_all_ok _ Hup (flb_log_event_decoder_reset c buffer) _ r Hst ltac:(cbn; lia) eq_refl eq_refl); [|lia].
  unfold spec_from. by apply spec_late.
Qed.
End spec.

(** ** A concrete unpacker

    One byte per object: 0 is a record of 2001, 1 and 2 start and end a group, 3 is a record of 2040,
    4 is no record. *)
Definition ex_str (s : list Z) : msgpack_object := MSGPACK_OBJECT_STR s.
Definition ex_marker (t : list Z) (md body : list (msgpack_object * msgpack_object)) : msgpack_object :=
  MSGPACK_OBJECT_ARRAY [MSGPACK_OBJECT_ARRAY [MSGPACK_OBJECT_EXT 0 (t ++ [0; 0; 0; 0]); MSGPACK_OBJECT_MAP md]; MSGPACK_OBJECT_MAP body].
Definition ex_object (b : Z) : msgpack_object :=
  if b =? 0 then plain_record 1000000000 [(ex_str [97], ex_str [98])]
  else if b =? 1 then ex_marker [255; 255; 255; 255] [(ex_str [103], ex_str [104])] []
  else if b =? 2 then ex_marker [255; 255; 255; 254] [] []
  else if b =? 3 then plain_record 2208988800 []
  else MSGPACK_OBJECT_NIL.
Definition ex_unpack (b : list Z) (off : Z) : unpacked * Z :=
  match b !z off with Some x => (MSGPACK_UNPACK_SUCCESS (ex_object x), off + 1) | None => (MSGPACK_UNPACK_CONTINUE, off) end.

Lemma ex_unpack_ok : unpacker_ok ex_unpack.
Proof.
  unfold ex_unpack. split.
  - intros b off Hoff. destruct (b !z off) as [x|] eqn:Hx; [|done]. apply zlookup_Some in Hx as [? _]. lia.
  - intros b off o off'. destruct (b !z off) as [x|] eqn:Hx; [|done]. apply zlookup_Some in Hx as [? _]. intros [= _ <-]. lia.
Qed.

Definition ex_decoder : flb_log_event_decoder := mk_decoder None None 0 0 None [] 0 0 0 false 0.

(** The summary of an event: its seconds and the metadata of its group *)
Definition ex_summary (e : flb_log_event) : Z * option msgpack_object := (tv_sec (ev_timestamp e), ev_group_metadata e).

Lemma decoder_exact_witness :
  option_map (λ x, (map ex_summary x.1, x.2))
    (decode_all ex_unpack 8 (flb_log_event_decoder_reset ex_decoder [0; 1; 0; 3; 2; 0])) =
    Some ([(1000000000, None); (1000000000, Some (MSGPACK_OBJECT_MAP [(ex_str [103], ex_str [104])])); (1000000000, None)], -12) ∧
  ∃ objs r, stream ex_unpack [0; 1; 0; 3; 2; 0] 0 objs r ∧
    decode_all ex_unpack 7 (flb_log_event_decoder_reset ex_decoder [0; 1; 0; 3; 2; 0]) = spec_events false None None 0 objs r.
Proof.
  split; [vm_compute; reflexivity|].
  destruct (decoder_exact ex_unpack ex_decoder [0; 1; 0; 3; 2; 0] ex_unpack_ok) as (objs & r & ? & ?). exists objs, r. split; assumption.
Defined.

Lemma markers_transparent_witness : ∃ es r es',
  decode_all ex_unpack 7 (flb_log_event_decoder_reset (flb_log_event_decoder_read_groups ex_decoder 0).2 [0; 1; 0; 3; 2; 0]) = Some (es, r) ∧
  decode_all ex_unpack 7 (flb_log_event_decoder_reset (flb_log_event_decoder_read_groups ex_decoder 1).2 [0; 1; 0; 3; 2; 0]) = Some (es', r) ∧
  es = filter (λ e, is_normal e = true) es'.
Proof.
  destruct (decode_all ex_unpack 7 (flb_log_event_decoder_reset (flb_log_event_decoder_read_groups ex_decoder 0).2 [0; 1; 0; 3; 2; 0]))
    as [[es r]|] eqn:He; [|vm_compute in He; discriminate].
  assert (Hr : r ≠ FLB_EVENT_DECODER_ERROR_DESERIALIZATION_FAILURE) by (vm_compute in He; by simplify_eq).
  destruct (markers_transparent ex_unpack ex_decoder [0; 1; 0; 3; 2; 0] es r ex_unpack_ok Hr He) as (es' & ? & ?).
  exists es, r, es'. split; [reflexivity|]. split; assumption.
Defined.

Lemma records_after_2038_lost_witness :
  decode_all ex_unpack 3 (flb_log_event_decoder_reset ex_decoder [3; 3]) = Some ([], -12).
Proof.
  apply (records_after_2038_lost ex_unpack ex_decoder [3; 3] [(2208988800, []); (2208988800, [])] (-12) ex_unpack_ok).
  - repeat (eapply stream_cons; [reflexivity|]). eapply stream_end. reflexivity.
  - repeat constructor; cbn; lia.
  - vm_compute. discriminate.
Defined.
