(* ===== verification/Conditions.v ===== *)
(** * Conditions on records ([src/flb_conditionals.c])

    A condition joins rules by "and" or "or"; a rule compares what a record accessor finds in a part of the
    record - body, metadata, group - with a string, a number, a regular expression or a list of strings.
    The accessors that the patterns of fields stand for (a generated parser) and regular expressions (a vendored
    engine) are parameters.
    Records hold their parts as CFL objects, which are in a store and can be used only while they are in it. *)
From S2P Require Import Prelude CStd Env Heap MsgPack Packer Sds CflAccessor LogDecoder.

(** ** Records

    [object->variant] is [None] when the library had no memory for it. *)

Record log_state := mk_log { lg_heap : heap; lg_objects : gmap nat (option cfl_variant) }.
Definition set_lg_heap (x : heap) (s : log_state) : log_state := mk_log x (lg_objects s).
Definition set_lg_objects (x : gmap nat (option cfl_variant)) (s : log_state) : log_state := mk_log (lg_heap s) x.

#[global] Instance log_HasHeap : HasHeap log_state.
Proof. refine {| heap_of := lg_heap; set_heap := set_lg_heap |}; [done|done|by intros []]. Defined.

Record flb_mp_chunk_record := mk_record {
  mr_block : nat;
  mr_modified : bool;
  mr_event : flb_log_event;
  mr_cobj_metadata : option nat;
  mr_cobj_record : option nat;
  mr_cobj_group_metadata : option nat;
  mr_cobj_group_attributes : option nat;
  mr_owns_group_metadata : bool;
  mr_owns_group_attributes : bool
}.

(** [obj->variant] *)
Definition variant_of (obj : nat) : M log_state (option cfl_variant) := λ s, v ← lg_objects s !! obj; Some (v, s).

Definition get_object_variant (obj : option nat) : M log_state (option cfl_variant) :=
  match obj with Some o => variant_of o | None => mret None end.

(** ** Data *)

Inductive record_context_type :=
| RECORD_CONTEXT_BODY | RECORD_CONTEXT_METADATA | RECORD_CONTEXT_GROUP_METADATA | RECORD_CONTEXT_GROUP_ATTRIBUTES
| RECORD_CONTEXT_OTEL_RESOURCE_ATTRIBUTES | RECORD_CONTEXT_OTEL_SCOPE_ATTRIBUTES | RECORD_CONTEXT_OTEL_SCOPE_METADATA.
Inductive flb_condition_operator := FLB_COND_OP_AND | FLB_COND_OP_OR.
Inductive flb_rule_operator :=
| FLB_RULE_OP_EQ | FLB_RULE_OP_NEQ | FLB_RULE_OP_GT | FLB_RULE_OP_LT | FLB_RULE_OP_GTE | FLB_RULE_OP_LTE
| FLB_RULE_OP_REGEX | FLB_RULE_OP_NOT_REGEX | FLB_RULE_OP_IN | FLB_RULE_OP_NOT_IN.

#[global] Instance context_eq_dec : EqDecision record_context_type.
Proof. solve_decision. Defined.
#[global] Instance rule_operator_eq_dec : EqDecision flb_rule_operator.
Proof. solve_decision. Defined.
#[global] Instance condition_operator_eq_dec : EqDecision flb_condition_operator.
Proof. solve_decision. Defined.

(** What [void *value] points to when a rule is created; the operator says what the code takes it for. *)
Inductive value_arg := ARG_STR (s : list Z) | ARG_NUM (d : double) | ARG_STRS (l : list (option (list Z))).

(** The union in a rule, with the blocks of its strings *)
Inductive rule_value :=
| VALUE_NONE
| VALUE_STR (block : nat) (s : list Z)
| VALUE_NUM (d : double)
| VALUE_ARRAY (block : nat) (values : list (nat * list Z)).

Section conditions.
(** The syntax of record accessors; regular expressions. *)
Context {regex : Type}.
Variable cfl_ra_create : list Z → option flb_cfl_record_accessor.
Variable regex_create : list Z → option regex.
Variable regex_match : regex → list Z → Z.

Record flb_condition_rule := mk_rule {
  cr_block : nat;
  cr_ra : nat * flb_cfl_record_accessor;
  cr_context : record_context_type;
  cr_op : flb_rule_operator;
  cr_value : rule_value;
  cr_regex : option (nat * regex)
}.
Record flb_condition := mk_condition { cd_block : nat; cd_op : flb_condition_operator; cd_rules : list flb_condition_rule }.
Definition set_cd_rules (x : list flb_condition_rule) (c : flb_condition) : flb_condition := mk_condition (cd_block c) (cd_op c) x.

(** ** Creation *)

(** A call of a library that gives a new block, or nothing *)
Definition flb_cfl_ra_create (field : list Z) : M heap (option (nat * flb_cfl_record_accessor)) :=
  match cfl_ra_create (until_nul field) with
  | None => mret None
  | Some ra => p ← alloc; mret ((λ a, (a, ra)) <$> p)
  end.
Definition flb_regex_create (pattern : list Z) : M heap (option (nat * regex)) :=
  match regex_create (until_nul pattern) with
  | None => mret None
  | Some re => p ← alloc; mret ((λ a, (a, re)) <$> p)
  end.
Definition flb_sds_create (s : list Z) : M heap (option (nat * list Z)) :=
  p ← alloc; mret ((λ a, (a, until_nul s)) <$> p).

(** The checks of the arguments; [None] is a value of another type than the operator takes it for. *)
Definition value_ok (op : flb_rule_operator) (value : value_arg) (value_count : Z) : option bool :=
  match op with
  | FLB_RULE_OP_EQ | FLB_RULE_OP_NEQ | FLB_RULE_OP_REGEX | FLB_RULE_OP_NOT_REGEX =>
      match value with ARG_STR s => Some (negb (bool_decide (until_nul s = []))) | _ => None end
  | FLB_RULE_OP_GT | FLB_RULE_OP_LT | FLB_RULE_OP_GTE | FLB_RULE_OP_LTE => Some true
  | FLB_RULE_OP_IN | FLB_RULE_OP_NOT_IN =>
      if value_count <=? 0 then Some false
      else match value with
           | ARG_STRS l =>
               if zlen l <? value_count then None
               else Some (forallb (λ x : option (list Z), bool_decide (is_Some x)) (take (Z.to_nat value_count) l))
           | _ => None
           end
  end.

(** The copies of the values of a list; the ones made before a failure are destroyed. *)
Fixpoint copy_values (l : list (option (list Z))) (copied : list (nat * list Z)) : M heap (option (list (nat * list Z))) :=
  match l with
  | [] => mret (Some copied)
  | None :: _ => ub
  | Some s :: l' =>
      p ← flb_sds_create s;
      match p with
      | None => foreach copied (λ v, free_block v.1) ≫= λ _, mret None
      | Some v => copy_values l' (copied ++ [v])
      end
  end.

(** The value of a rule and its regular expression; [None] when they cannot be made. *)
Definition make_value (op : flb_rule_operator) (value : value_arg) (value_count : Z)
    : M heap (option (rule_value * option (nat * regex))) :=
  match op, value with
  | (FLB_RULE_OP_EQ | FLB_RULE_OP_NEQ), ARG_STR s =>
      p ← flb_sds_create s; mret ((λ v : nat * list Z, (VALUE_STR v.1 v.2, None)) <$> p)
  | (FLB_RULE_OP_GT | FLB_RULE_OP_LT | FLB_RULE_OP_GTE | FLB_RULE_OP_LTE), ARG_NUM d => mret (Some (VALUE_NUM d, None))
  | (FLB_RULE_OP_REGEX | FLB_RULE_OP_NOT_REGEX), ARG_STR s =>
      p ← flb_regex_create s; mret ((λ re, (VALUE_NONE, Some re)) <$> p)
  | (FLB_RULE_OP_IN | FLB_RULE_OP_NOT_IN), ARG_STRS l =>
      p ← alloc;
      match p with
      | None => mret None
      | Some values =>
          vs ← copy_values (take (Z.to_nat value_count) l) [];
          match vs with
          | None => free_block values ≫= λ _, mret None
          | Some vs => mret (Some (VALUE_ARRAY values vs, None))
          end
      end
  | _, _ => ub
  end.

Definition rule_create (field : option (list Z)) (op : flb_rule_operator) (value : option value_arg) (value_count : Z)
    (context : record_context_type) : M heap (option flb_condition_rule) :=
  match field, value with
  | Some field, Some value =>
      ok ← deref (value_ok op value value_count);
      if negb (ok : bool) then mret None
      else
        p ← alloc;
        match p with
        | None => mret None
        | Some rule =>
            ra ← flb_cfl_ra_create field;
            match ra with
            | None => free_block rule ≫= λ _, mret None
            | Some ra =>
                v ← make_value op value value_count;
                match v with
                | None => free_block ra.1 ≫= λ _, free_block rule ≫= λ _, mret None
                | Some (value, re) => mret (Some (mk_rule rule ra context op value re))
                end
            end
        end
  | _, _ => mret None
  end.

(** A string in a union that holds something else would be destroyed as one: undefined. *)
Definition rule_destroy (r : flb_condition_rule) : M heap unit :=
  free_block (cr_ra r).1 ≫= λ _,
  (match cr_op r with
   | FLB_RULE_OP_EQ | FLB_RULE_OP_NEQ =>
       match cr_value r with VALUE_STR a _ => free_block a | VALUE_NONE => mret tt | _ => ub end
   | FLB_RULE_OP_REGEX | FLB_RULE_OP_NOT_REGEX =>
       match cr_regex r with Some re => free_block re.1 | None => mret tt end
   | FLB_RULE_OP_IN | FLB_RULE_OP_NOT_IN =>
       match cr_value r with
       | VALUE_ARRAY a values => foreach values (λ v, free_block v.1) ≫= λ _, free_block a
       | VALUE_NONE => mret tt
       | _ => ub
       end
   | FLB_RULE_OP_GT | FLB_RULE_OP_LT | FLB_RULE_OP_GTE | FLB_RULE_OP_LTE => mret tt
   end) ≫= λ _,
  free_block (cr_block r).

Definition flb_condition_create (op : flb_condition_operator) : M heap (option flb_condition) :=
  p ← alloc; mret ((λ a, mk_condition a op []) <$> p).

(** The result is FLB_TRUE or FLB_FALSE. *)
Definition flb_condition_add_rule (cond : flb_condition) (field : option (list Z)) (op : flb_rule_operator)
    (value : option value_arg) (value_count : Z) (context : record_context_type) : M heap (bool * flb_condition) :=
  match field, value with
  | Some _, Some _ =>
      r ← rule_create field op value value_count context;
      match r with
      | None => mret (false, cond)
      | Some rule => mret (true, set_cd_rules (cd_rules cond ++ [rule]) cond)
      end
  | _, _ => mret (false, cond)
  end.

Definition flb_condition_destroy (cond : option flb_condition) : M heap unit :=
  match cond with
  | None => mret tt
  | Some c => foreach (cd_rules c) rule_destroy ≫= λ _, free_block (cd_block c)
  end.

(** ** Evaluation *)

(** The comparison of a rule with the text [s] that was found *)
Definition compare (r : flb_condition_rule) (s : list Z) : option bool :=
  match cr_op r, cr_value r, cr_regex r with
  | FLB_RULE_OP_EQ, VALUE_STR _ v, _ => Some (strcmp_eq s v)
  | FLB_RULE_OP_NEQ, VALUE_STR _ v, _ => Some (negb (strcmp_eq s v))
  | FLB_RULE_OP_GT, VALUE_NUM d, _ => Some (double_gt (atof s) d)
  | FLB_RULE_OP_LT, VALUE_NUM d, _ => Some (double_lt (atof s) d)
  | FLB_RULE_OP_GTE, VALUE_NUM d, _ => Some (double_ge (atof s) d)
  | FLB_RULE_OP_LTE, VALUE_NUM d, _ => Some (double_le (atof s) d)
  | FLB_RULE_OP_REGEX, _, Some re => Some (0 <? regex_match re.2 s)
  | FLB_RULE_OP_NOT_REGEX, _, Some re => Some (regex_match re.2 s <=? 0)
  | FLB_RULE_OP_IN, VALUE_ARRAY _ vs, _ => Some (existsb (λ v, strcmp_eq s v.2) vs)
  | FLB_RULE_OP_NOT_IN, VALUE_ARRAY _ vs, _ => Some (negb (existsb (λ v, strcmp_eq s v.2) vs))
  | _, _, _ => None
  end.

Definition evaluate_rule (r : flb_condition_rule) (variant : cfl_variant) : M heap bool :=
  str_val ← flb_cfl_ra_translate (cr_ra r).2 variant;
  match str_val with
  | None => mret false
  | Some str_val =>
      result ← deref (compare r (content str_val));
      flb_sds_destroy (Some str_val) ≫= λ _, mret result
  end.

Section evaluate.
Context {S : Type} `{HasHeap S}.
Variable get_variant : flb_condition_rule → M S (option cfl_variant).

Fixpoint evaluate_rules (op : flb_condition_operator) (rules : list flb_condition_rule)
    (any_rule_evaluated any_rule_matched : bool) : M S bool :=
  match rules with
  | [] =>
      mret (match op with
            | FLB_COND_OP_OR => any_rule_matched
            | FLB_COND_OP_AND => any_rule_evaluated
            end)
  | r :: rules' =>
      v ← get_variant r;
      match v with
      | None => match op with
                | FLB_COND_OP_AND => mret false
                | FLB_COND_OP_OR => evaluate_rules op rules' true any_rule_matched
                end
      | Some variant =>
          result ← on_heap (evaluate_rule r variant);
          match op, result with
          | FLB_COND_OP_AND, false => mret false
          | FLB_COND_OP_OR, true => mret true
          | _, _ => evaluate_rules op rules' true (any_rule_matched || result)
          end
      end
  end.

Definition flb_condition_evaluate_ex (cond : option flb_condition) : M S bool :=
  match cond with
  | None => mret true
  | Some c =>
      match cd_rules c with
      | [] => mret (match cd_op c with FLB_COND_OP_AND => true | FLB_COND_OP_OR => false end)
      | rules => evaluate_rules (cd_op c) rules false false
      end
  end.
End evaluate.

Definition default_get_record_variant (record : flb_mp_chunk_record) (r : flb_condition_rule) : M log_state (option cfl_variant) :=
  match cr_context r with
  | RECORD_CONTEXT_METADATA => get_object_variant (mr_cobj_metadata record)
  | RECORD_CONTEXT_BODY => get_object_variant (mr_cobj_record record)
  | _ => mret None
  end.

Definition flb_condition_evaluate (cond : option flb_condition) (record : option flb_mp_chunk_record) : M log_state bool :=
  match cond, record with
  | None, _ => mret true
  | Some _, None => mret false
  | Some _, Some record => flb_condition_evaluate_ex (default_get_record_variant record) cond
  end.

(** ** Specification

    A rule without its blocks, and what it means for a variant; conditions are conjunctions and
    disjunctions. *)

Inductive spec_value := SPEC_STR (s : list Z) | SPEC_NUM (d : double) | SPEC_REGEX (re : regex) | SPEC_LIST (l : list (list Z)).
Record spec_rule := mk_spec_rule {
  sr_ra : flb_cfl_record_accessor; sr_context : record_context_type; sr_op : flb_rule_operator; sr_value : spec_value
}.

Definition spec_compare (op : flb_rule_operator) (value : spec_value) (s : list Z) : bool :=
  match op, value with
  | FLB_RULE_OP_EQ, SPEC_STR v => strcmp_eq s v
  | FLB_RULE_OP_NEQ, SPEC_STR v => negb (strcmp_eq s v)
  | FLB_RULE_OP_GT, SPEC_NUM d => double_gt (atof s) d
  | FLB_RULE_OP_LT, SPEC_NUM d => double_lt (atof s) d
  | FLB_RULE_OP_GTE, SPEC_NUM d => double_ge (atof s) d
  | FLB_RULE_OP_LTE, SPEC_NUM d => double_le (atof s) d
  | FLB_RULE_OP_REGEX, SPEC_REGEX re => 0 <? regex_match re s
  | FLB_RULE_OP_NOT_REGEX, SPEC_REGEX re => regex_match re s <=? 0
  | FLB_RULE_OP_IN, SPEC_LIST l => existsb (strcmp_eq s) l
  | FLB_RULE_OP_NOT_IN, SPEC_LIST l => negb (existsb (strcmp_eq s) l)
  | _, _ => false
  end.

(** A rule holds when its accessor has a text and it compares; without the part of the record it does not. *)
Definition spec_rule_holds (get : record_context_type → option cfl_variant) (r : spec_rule) : bool :=
  match get (sr_context r) with
  | None => false
  | Some variant =>
      match cfl_ra_text (sr_ra r) variant with
      | None => false
      | Some s => spec_compare (sr_op r) (sr_value r) s
      end
  end.

Definition spec_condition (op : flb_condition_operator) (rules : list spec_rule)
    (get : record_context_type → option cfl_variant) : bool :=
  match op with
  | FLB_COND_OP_AND => forallb (spec_rule_holds get) rules
  | FLB_COND_OP_OR => existsb (spec_rule_holds get) rules
  end.

(** The accessors of rules can read the parts that they are about. *)
Definition rules_readable (rules : list spec_rule) (get : record_context_type → option cfl_variant) : bool :=
  forallb (λ r, match get (sr_context r) with Some variant => cfl_ra_readable (sr_ra r) variant | None => true end) rules.

(** The value a rule gets; [None] when it is refused *)
Definition spec_value_of (op : flb_rule_operator) (value : value_arg) (value_count : Z) : option spec_value :=
  match op, value with
  | (FLB_RULE_OP_EQ | FLB_RULE_OP_NEQ), ARG_STR s => if bool_decide (until_nul s = []) then None else Some (SPEC_STR (until_nul s))
  | (FLB_RULE_OP_GT | FLB_RULE_OP_LT | FLB_RULE_OP_GTE | FLB_RULE_OP_LTE), ARG_NUM d => Some (SPEC_NUM d)
  | (FLB_RULE_OP_REGEX | FLB_RULE_OP_NOT_REGEX), ARG_STR s =>
      if bool_decide (until_nul s = []) then None else SPEC_REGEX <$> regex_create (until_nul s)
  | (FLB_RULE_OP_IN | FLB_RULE_OP_NOT_IN), ARG_STRS l =>
      if value_count <=? 0 then None else SPEC_LIST <$> mapM (fmap until_nul) (take (Z.to_nat value_count) l)
  | _, _ => None
  end.
Definition spec_rule_of (field : list Z) (op : flb_rule_operator) (value : value_arg) (value_count : Z)
    (context : record_context_type) : option spec_rule :=
  ra ← cfl_ra_create (until_nul field);
  v ← spec_value_of op value value_count;
  Some (mk_spec_rule ra context op v).

(** The value has the type that the operator takes it for. *)
Definition arg_fits (op : flb_rule_operator) (value : value_arg) (value_count : Z) : bool :=
  match op, value with
  | (FLB_RULE_OP_EQ | FLB_RULE_OP_NEQ | FLB_RULE_OP_REGEX | FLB_RULE_OP_NOT_REGEX), ARG_STR _ => true
  | (FLB_RULE_OP_GT | FLB_RULE_OP_LT | FLB_RULE_OP_GTE | FLB_RULE_OP_LTE), ARG_NUM _ => true
  | (FLB_RULE_OP_IN | FLB_RULE_OP_NOT_IN), ARG_STRS l => value_count <=? zlen l
  | _, _ => false
  end.

(** The type of a rule: its union holds what its operator takes it for. *)
Definition value_typed (op : flb_rule_operator) (v : rule_value) (re : option (nat * regex)) : bool :=
  match op, v, re with
  | (FLB_RULE_OP_EQ | FLB_RULE_OP_NEQ), VALUE_STR _ _, None => true
  | (FLB_RULE_OP_GT | FLB_RULE_OP_LT | FLB_RULE_OP_GTE | FLB_RULE_OP_LTE), VALUE_NUM _, None => true
  | (FLB_RULE_OP_REGEX | FLB_RULE_OP_NOT_REGEX), VALUE_NONE, Some _ => true
  | (FLB_RULE_OP_IN | FLB_RULE_OP_NOT_IN), VALUE_ARRAY _ _, None => true
  | _, _, _ => false
  end.
Definition rule_typed (r : flb_condition_rule) : bool := value_typed (cr_op r) (cr_value r) (cr_regex r).

Definition value_meaning (v : rule_value) (re : option (nat * regex)) : spec_value :=
  match v, re with
  | VALUE_STR _ s, _ => SPEC_STR s
  | VALUE_NUM d, _ => SPEC_NUM d
  | VALUE_ARRAY _ vs, _ => SPEC_LIST vs.*2
  | VALUE_NONE, Some re => SPEC_REGEX re.2
  | VALUE_NONE, None => SPEC_LIST []
  end.
Definition rule_meaning (r : flb_condition_rule) : spec_rule :=
  mk_spec_rule (cr_ra r).2 (cr_context r) (cr_op r) (value_meaning (cr_value r) (cr_regex r)).

(** The blocks a rule and a condition own *)
Definition value_blocks (v : rule_value) (re : option (nat * regex)) : list nat :=
  match v with VALUE_STR a _ => [a] | VALUE_ARRAY a vs => a :: vs.*1 | _ => [] end ++
  match re with Some re => [re.1] | None => [] end.
Definition rule_blocks (r : flb_condition_rule) : list nat :=
  cr_block r :: (cr_ra r).1 :: value_blocks (cr_value r) (cr_regex r).
Definition condition_blocks (c : flb_condition) : list nat := cd_block c :: (cd_rules c ≫= rule_blocks).

Record condition_ok (c : flb_condition) (op : flb_condition_operator) (rules : list spec_rule) : Prop := {
  co_op : cd_op c = op;
  co_typed : Forall (λ r, rule_typed r = true) (cd_rules c);
  co_rules : rule_meaning <$> cd_rules c = rules
}.

(** ** Creation and destruction *)

(** What was live and what is live after a call that gives [out], with the blocks of a result *)
Record made {A} (blocks : A → list nat) (s : heap) (out : option A) (s' : heap) : Prop := {
  md_live : hp_live s' ≡ₚ match out with Some a => blocks a | None => [] end ++ hp_live s;
  md_calm : calm (hp_env s) → calm (hp_env s')
}.

Lemma runs_foreach_free vs s l (Q : unit → heap → Prop) : hp_live s ≡ₚ vs.*1 ++ l →
  (∀ s', hp_live s' ≡ₚ l → hp_env s' = hp_env s → Q tt s') →
  runs (foreach vs (λ v : nat * list Z, free_block v.1)) s Q.
Proof.
  revert s. induction vs as [|v vs IH]; intros s Hl HQ; cbn [foreach]; [by apply runs_ret, HQ|].
  apply runs_bind. eapply runs_free; [exact Hl|]. intros s1 Hl1 He1. apply IH; [done|]. intros s2 ? He2. apply HQ; [done|congruence].
Qed.

Lemma sds_create_ok str s (Q : option (nat * list Z) → heap → Prop) :
  (∀ s', hp_live s' = hp_live s → ¬ calm (hp_env s) → Q None s') →
  (∀ a s', hp_live s' = a :: hp_live s → (calm (hp_env s) → calm (hp_env s')) → Q (Some (a, until_nul str)) s') →
  runs (flb_sds_create str) s Q.
Proof.
  intros HN HS. apply runs_bind, runs_alloc; [intros s' ? ?; by apply runs_ret, HN|].
  intros a s' ? ?. by apply runs_ret, HS.
Qed.

(** Every value of a list is there. *)
Definition all_there (l : list (option (list Z))) : bool := forallb (λ x : option (list Z), bool_decide (is_Some x)) l.

Lemma mapM_there l : all_there l = true → ∃ vs, mapM (fmap until_nul) l = Some vs ∧ vs = omap (fmap until_nul) l.
Proof.
  induction l as [|[x|] l IH]; cbn; [by exists []| |done]. intros Hl. destruct (IH Hl) as (vs & Hm & ->). 
  change (mapM (M := option) (fmap until_nul) l) with (mapM (fmap until_nul) l). rewrite Hm. by eexists.
Qed.

Lemma mapM_missing l : all_there l = false → mapM (fmap until_nul) l = None.
Proof. induction l as [|[x|] l IH]; cbn; [done| |done]. intros Hl. by rewrite (IH Hl). Qed.

Lemma copy_values_ok l : all_there l = true → ∀ copied s X (Q : option (list (nat * list Z)) → heap → Prop),
  hp_live s ≡ₚ copied.*1 ++ X →
  (∀ s', hp_live s' ≡ₚ X → ¬ calm (hp_env s) → Q None s') →
  (∀ vs s', hp_live s' ≡ₚ vs.*1 ++ X → (calm (hp_env s) → calm (hp_env s')) → vs.*2 = copied.*2 ++ omap (fmap until_nul) l → Q (Some vs) s') →
  runs (copy_values l copied) s Q.
Proof.
  induction l as [|[x|] l IH]; intros Hl copied s X Q Hs HN HS; [|cbn [copy_values]|done].
  - apply runs_ret, HS; [done|done|]. by rewrite app_nil_r.
  - apply runs_bind, sds_create_ok.
    + intros s' Hs' Hc. apply runs_bind. eapply runs_foreach_free; [rewrite Hs'; exact Hs|]. intros s'' ? ?. by apply runs_ret, HN.
    + intros a s' Hs' Hc. apply (IH Hl _ _ X).
      * rewrite Hs', fmap_app, <- app_assoc, Hs. cbn. by rewrite Permutation_middle.
      * intros s'' ? ?. apply HN; [done|tauto].
      * intros vs s'' Hlive Hcalm Hvs. apply HS; [done|tauto|]. rewrite Hvs, fmap_app, <- app_assoc. done.
Qed.

(** The value of a rule is typed, and means what the specification says. *)
Lemma make_value_ok op value n s (Q : option (rule_value * option (nat * regex)) → heap → Prop) :
  arg_fits op value n = true → value_ok op value n = Some true →
  (∀ s', hp_live s' ≡ₚ hp_live s → (calm (hp_env s) → calm (hp_env s') ∧ spec_value_of op value n = None) → Q None s') →
  (∀ v re s', hp_live s' ≡ₚ value_blocks v re ++ hp_live s → (calm (hp_env s) → calm (hp_env s')) →
     value_typed op v re = true → spec_value_of op value n = Some (value_meaning v re) → Q (Some (v, re)) s') →
  runs (make_value op value n) s Q.
Proof.
  intros Hfit Hok HN HS.
  assert (Hnum : ∀ d, value = ARG_NUM d → value_typed op (VALUE_NUM d) None = true →
    spec_value_of op value n = Some (SPEC_NUM d) → runs (mret (Some (VALUE_NUM d, None))) s Q).
  { intros d -> Ht Hv. by apply runs_ret, HS. }
  assert (Hstr : ∀ str, value = ARG_STR str → (∀ a, value_typed op (VALUE_STR a (until_nul str)) None = true) →
    spec_value_of op value n = Some (SPEC_STR (until_nul str)) →
    runs (p ← flb_sds_create str; mret ((λ v : nat * list Z, (VALUE_STR v.1 v.2, None)) <$> p)) s Q).
  { intros str -> Ht Hv. apply runs_bind, sds_create_ok.
    - intros s' Hs' Hc. apply runs_ret, HN; [by rewrite Hs'|tauto].
    - intros a s' Hs' Hc. apply runs_ret, HS; [by rewrite Hs'|done|apply Ht|done]. }
  assert (Hre : ∀ str, value = ARG_STR str → (∀ re, value_typed op VALUE_NONE (Some re) = true) →
    spec_value_of op value n = SPEC_REGEX <$> regex_create (until_nul str) →
    runs (p ← flb_regex_create str; mret ((λ re, (VALUE_NONE, Some re)) <$> p)) s Q).
  { intros str -> Ht Hv. unfold flb_regex_create. destruct (regex_create (until_nul str)) as [re|].
    - apply runs_bind, runs_bind, runs_alloc; intros.
      + apply runs_ret, runs_ret, HN; [by rewrite H|tauto].
      + apply runs_ret, runs_ret, HS; [by rewrite H|done|apply Ht|done].
    - apply runs_bind, runs_ret, runs_ret, HN; done. }
  assert (Hlist : ∀ l, value = ARG_STRS l → (∀ a vs, value_typed op (VALUE_ARRAY a vs) None = true) →
    (n <=? 0) = false → all_there (take (Z.to_nat n) l) = true →
    spec_value_of op value n = SPEC_LIST <$> mapM (fmap until_nul) (take (Z.to_nat n) l) →
    runs (p ← alloc; match p with None => mret None | Some values =>
      vs ← copy_values (take (Z.to_nat n) l) [];
      match vs with None => free_block values ≫= λ _, mret None | Some vs => mret (Some (VALUE_ARRAY values vs, None)) end end) s Q).
  { intros l -> Ht Hn Hall Hv. destruct (mapM_there _ Hall) as (vs & Hm & ->). rewrite Hm in Hv.
    apply runs_bind, runs_alloc; [intros s' Hs' ?; apply runs_ret, HN; [by rewrite Hs'|tauto]|]. intros a s1 Hs1 Hc1.
    apply runs_bind, (copy_values_ok _ Hall [] s1 (hp_live s1)); [done| |].
    - intros s2 Hs2 ?. apply runs_bind. eapply runs_free; [by rewrite Hs2, Hs1|]. intros s3 ? ?. apply runs_ret, HN; [done|tauto].
    - intros vs s2 Hs2 Hc2 Hvs. apply runs_ret, HS; [|tauto|apply Ht|by rewrite Hv; cbn; rewrite Hvs].
      rewrite Hs2, Hs1. cbn. rewrite app_nil_r. by rewrite Permutation_middle. }
  destruct op, value as [str|d|l]; try discriminate Hfit; cbn [make_value value_ok spec_value_of value_typed] in *;
    try (by apply Hnum); try (destruct (bool_decide (until_nul str = [])); [discriminate|]; (by apply Hstr) || by apply Hre).
  all: destruct (n <=? 0) eqn:Hn; [discriminate|]; destruct (zlen l <? n); [discriminate|]; injection Hok as Hall; by apply (Hlist l).
Qed.

(** Which arguments are refused by the checks *)
Lemma value_ok_fits op value n : arg_fits op value n = true →
  value_ok op value n = Some true ∨ value_ok op value n = Some false ∧ spec_value_of op value n = None.
Proof.
  intros Hfit. destruct op, value as [str|d|l]; try discriminate Hfit; cbn [arg_fits value_ok spec_value_of] in *; try (by left);
    try (destruct (bool_decide (until_nul str = [])); [by right|by left]).
  all: destruct (n <=? 0) eqn:Hn; [by right|]; apply Z.leb_le in Hfit; rewrite (proj2 (Z.ltb_ge _ _)) by done;
    fold (all_there (take (Z.to_nat n) l)); destruct (all_there _) eqn:Hall; [by left|right; split; [done|]];
    rewrite (mapM_missing _ Hall); done.
Qed.

Lemma rule_create_ok field op value n context s (Q : option flb_condition_rule → heap → Prop) :
  arg_fits op value n = true →
  (∀ s', hp_live s' ≡ₚ hp_live s → (calm (hp_env s) → calm (hp_env s') ∧ spec_rule_of field op value n context = None) → Q None s') →
  (∀ r s', hp_live s' ≡ₚ rule_blocks r ++ hp_live s → (calm (hp_env s) → calm (hp_env s')) → rule_typed r = true →
     spec_rule_of field op value n context = Some (rule_meaning r) → Q (Some r) s') →
  runs (rule_create (Some field) op (Some value) n context) s Q.
Proof.
  intros Hfit HN HS. unfold rule_create, spec_rule_of in *. apply runs_bind.
  destruct (value_ok_fits op value n Hfit) as [Hok|[Hok Hv]]; rewrite Hok; (eapply runs_deref; [reflexivity|]); cbn [negb].
  2: { apply runs_ret, HN; [done|]. intros ?. split; [done|]. rewrite Hv. by destruct (cfl_ra_create _). }
  apply runs_bind, runs_alloc; [intros s' Hs' ?; apply runs_ret, HN; [by rewrite Hs'|tauto]|]. intros rule s1 Hs1 Hc1.
  apply runs_bind. unfold flb_cfl_ra_create. destruct (cfl_ra_create (until_nul field)) as [ra|].
  2: { apply runs_ret, runs_bind. eapply runs_free; [by rewrite Hs1|]. intros s2 ? He2. apply runs_ret, HN; [done|]. rewrite He2. auto. }
  apply runs_bind, runs_alloc.
  { intros s2 Hs2 ?. apply runs_ret, runs_bind. eapply runs_free; [by rewrite Hs2, Hs1|]. intros s3 ? ?. apply runs_ret, HN; [done|tauto]. }
  intros a s2 Hs2 Hc2. apply runs_ret. cbn [fmap option_fmap option_map]. apply runs_bind, make_value_ok; [done|done| |].
  - intros s3 Hs3 Hnone. apply runs_bind. eapply runs_free; [by rewrite Hs3, Hs2|]. intros s4 Hs4 ?.
    apply runs_bind. eapply runs_free; [by rewrite Hs4, Hs1|]. intros s5 ? He5. apply runs_ret, HN; [done|].
    intros Hc. destruct Hnone as [? Hnone]; [tauto|]. rewrite He5. split; [congruence|]. cbn [mbind option_bind]. by rewrite Hnone.
  - intros v re s3 Hs3 Hc3 Ht Hv. apply runs_ret, HS; [|tauto|done|cbn [mbind option_bind]; by rewrite Hv].
    rewrite Hs3, Hs2, Hs1. unfold rule_blocks. cbn. rewrite <- !Permutation_middle. apply Permutation_swap.
Qed.

Lemma rule_destroy_ok r X s (Q : unit → heap → Prop) : rule_typed r = true → hp_live s ≡ₚ rule_blocks r ++ X →
  (∀ s', hp_live s' ≡ₚ X → hp_env s' = hp_env s → Q tt s') → runs (rule_destroy r) s Q.
Proof.
  intros Ht Hs HQ. unfold rule_destroy.
  apply runs_bind. eapply (runs_free _ (cr_block r :: value_blocks (cr_value r) (cr_regex r) ++ X)); [rewrite Hs; apply Permutation_swap|].
  intros s1 Hs1 He1. apply runs_bind.
  assert (Hrest : ∀ s2, hp_live s2 ≡ₚ cr_block r :: X → hp_env s2 = hp_env s1 → runs (free_block (cr_block r)) s2 Q).
  { intros s2 Hs2 He2. eapply runs_free; [exact Hs2|]. intros s3 ? ?. apply HQ; congruence. }
  unfold rule_typed, value_typed, value_blocks in *.
  destruct (cr_op r), (cr_value r) as [|a str|d|a vs], (cr_regex r) as [re|]; try discriminate Ht; cbn in Hs1.
  1-2, 7-8: eapply runs_free; [rewrite Hs1; apply Permutation_swap|]; intros s2 ? ?; by apply Hrest.
  1-4: apply runs_ret, Hrest; done.
  all: apply runs_bind; eapply (runs_foreach_free _ _ (cr_block r :: a :: X));
    [rewrite Hs1, app_nil_r; rewrite <- !Permutation_middle; rewrite Permutation_swap; done|]; intros s2 Hs2 ?; eapply runs_free; [rewrite Hs2; apply Permutation_swap|]; intros s3 ? ?; apply Hrest; congruence.
Qed.

Lemma condition_destroy_ok c X s (Q : unit → heap → Prop) : Forall (λ r, rule_typed r = true) (cd_rules c) →
  hp_live s ≡ₚ condition_blocks c ++ X → (∀ s', hp_live s' ≡ₚ X → hp_env s' = hp_env s → Q tt s') →
  runs (flb_condition_destroy (Some c)) s Q.
Proof.
  intros Ht Hs HQ. unfold flb_condition_destroy, condition_blocks in *. apply runs_bind.
  assert (Hrules : ∀ rules s1, Forall (λ r, rule_typed r = true) rules → hp_live s1 ≡ₚ (rules ≫= rule_blocks) ++ cd_block c :: X →
    runs (foreach rules rule_destroy) s1 (λ _ s2, hp_live s2 ≡ₚ cd_block c :: X ∧ hp_env s2 = hp_env s1)).
  { induction rules as [|r rules IH]; intros s1 Hr Hs1; [by apply runs_ret|]. apply Forall_cons in Hr as [Hr Hrs].
    apply runs_bind. eapply (rule_destroy_ok r); [done|rewrite Hs1, bind_cons, <- app_assoc; done|].
    intros s2 Hs2 He2. eapply runs_weaken; [apply IH; done|]. intros _ s3 [? ?]. split; congruence. }
  eapply runs_weaken; [apply Hrules; [done|]|].
  - rewrite Hs. cbn. by rewrite Permutation_middle.
  - intros _ s1 [Hs1 He1]. eapply runs_free; [exact Hs1|]. intros s2 ? ?. apply HQ; congruence.
Qed.

Lemma condition_create_ok op s (Q : option flb_condition → heap → Prop) :
  (∀ s', hp_live s' = hp_live s → ¬ calm (hp_env s) → Q None s') →
  (∀ c s', hp_live s' ≡ₚ condition_blocks c ++ hp_live s → (calm (hp_env s) → calm (hp_env s')) → condition_ok c op [] → Q (Some c) s') →
  runs (flb_condition_create op) s Q.
Proof.
  intros HN HS. apply runs_bind, runs_alloc; [intros s' ? ?; by apply runs_ret, HN|].
  intros a s' Hs' Hc. apply runs_ret, HS; [by rewrite Hs'|done|done].
Qed.

Lemma add_rule_ok c cop rules field op value n context X s (Q : bool * flb_condition → heap → Prop) :
  arg_fits op value n = true → condition_ok c cop rules → hp_live s ≡ₚ condition_blocks c ++ X →
  (∀ s', hp_live s' ≡ₚ condition_blocks c ++ X → (calm (hp_env s) → calm (hp_env s') ∧ spec_rule_of field op value n context = None) → Q (false, c) s') →
  (∀ c' r s', hp_live s' ≡ₚ condition_blocks c' ++ X → (calm (hp_env s) → calm (hp_env s')) →
     spec_rule_of field op value n context = Some r → condition_ok c' cop (rules ++ [r]) → Q (true, c') s') →
  runs (flb_condition_add_rule c (Some field) op (Some value) n context) s Q.
Proof.
  intros Hfit [Hop Ht Hr] Hs HN HS. unfold flb_condition_add_rule. apply runs_bind, rule_create_ok; [done| |].
  - intros s' Hs' Hn. apply runs_ret, HN; [by rewrite Hs'|done].
  - intros r s' Hs' Hc Htr Hsp. apply runs_ret, (HS _ (rule_meaning r)); [|done|done|].
    + rewrite Hs', Hs. unfold condition_blocks. cbn [cd_block cd_rules set_cd_rules app].
      rewrite bind_app, bind_singleton, <- Permutation_middle. apply Permutation_skip.
      by rewrite (app_assoc (rule_blocks r)), (Permutation_app_comm (rule_blocks r)).
    + constructor; cbn; [done| |by rewrite fmap_app, Hr]. by apply Forall_app; auto.
Qed.

(** ** Evaluation *)

Lemma compare_ok r str : rule_typed r = true →
  compare r str = Some (spec_compare (cr_op r) (value_meaning (cr_value r) (cr_regex r)) str).
Proof.
  assert (Hex : ∀ vs : list (nat * list Z), existsb (λ v, strcmp_eq str v.2) vs = existsb (strcmp_eq str) vs.*2).
  { intros vs. induction vs as [|v vs IH]; [done|]. cbn. by rewrite IH. }
  unfold rule_typed, value_typed, compare. destruct (cr_op r), (cr_value r), (cr_regex r); intros; try done; cbn; by rewrite Hex.
Qed.

Lemma evaluate_rule_ok r variant s (Q : bool → heap → Prop) : rule_typed r = true → cfl_ra_readable (cr_ra r).2 variant = true →
  (∀ s' b, hp_live s' ≡ₚ hp_live s → next_le s s' → (calm (hp_env s) → calm (hp_env s')) →
     (calm (hp_env s) → b = spec_rule_holds (λ _, Some variant) (rule_meaning r)) → Q b s') →
  runs (evaluate_rule r variant) s Q.
Proof.
  intros Ht Hread HQ. unfold evaluate_rule. apply runs_bind. eapply runs_weaken; [by apply cfl_ra_translate_ok|].
  intros str s1 [Hl1 Hn1 Hc1 Ht1]. unfold spec_rule_holds in HQ. cbn in HQ. destruct str as [str|].
  - apply runs_bind. eapply runs_deref; [by apply compare_ok|]. apply runs_bind, (runs_free_opt _ (hp_live s)); [done|].
    intros s2 ? He2. unfold next_le in *. apply runs_ret, HQ; [done|by rewrite He2..|]. intros Hc. by rewrite <- (Ht1 Hc).
  - apply runs_ret, HQ; [done..|]. intros Hc. by rewrite <- (Ht1 Hc).
Qed.

(** Evaluation over a state with an invariant [I] that the heap does not matter to, in which the parts of the
    record are [get] *)
Section evaluation.
Context {S : Type} `{HasHeap S}.
Variables (get_variant : flb_condition_rule → M S (option cfl_variant)) (get : record_context_type → option cfl_variant).
Variable I : S → Prop.
Hypothesis Hget : ∀ r s, I s → get_variant r s = Some (get (cr_context r), s).
Hypothesis HI : ∀ h s, I s → I (set_heap h s).

(** What an evaluation leaves: the heap, and the result when nothing fails *)
Record evaluated (s : S) (holds b : bool) (s' : S) : Prop := {
  ed_state : s' = set_heap (heap_of s') s;
  ed_live : hp_live (heap_of s') ≡ₚ hp_live (heap_of s);
  ed_next : next_le (heap_of s) (heap_of s');
  ed_calm : calm (hp_env (heap_of s)) → calm (hp_env (heap_of s'));
  ed_result : calm (hp_env (heap_of s)) → b = holds
}.

Lemma evaluated_step s h holds holds' b s' :
  hp_live h ≡ₚ hp_live (heap_of s) → next_le (heap_of s) h → (calm (hp_env (heap_of s)) → calm (hp_env h)) →
  (calm (hp_env (heap_of s)) → holds' = holds) →
  evaluated (set_heap h s) holds' b s' → evaluated s holds b s'.
Proof.
  unfold next_le. intros Hl Hn Hc Hh [Hs Hl' Hn' Hc' Hr]. rewrite set_heap_set in Hs. unfold next_le in *. rewrite heap_of_set in *.
  constructor; [done|by rewrite Hl', Hl|unfold next_le; lia|tauto|].
  intros Hb. rewrite <- Hh by done. apply Hr. tauto.
Qed.

Lemma evaluated_refl s b : evaluated s b b s.
Proof. constructor; [by rewrite set_heap_of|done|unfold next_le; lia|done|done]. Qed.

Lemma evaluate_rules_ok op rules : Forall (λ r, rule_typed r = true) rules → rules_readable (rule_meaning <$> rules) get = true →
  ∀ evaluated_any matched s, I s →
  runs (evaluate_rules get_variant op rules evaluated_any matched) s
    (evaluated s (match op with
                  | FLB_COND_OP_AND => (evaluated_any || negb (bool_decide (rules = []))) && forallb (spec_rule_holds get) (rule_meaning <$> rules)
                  | FLB_COND_OP_OR => matched || existsb (spec_rule_holds get) (rule_meaning <$> rules)
                  end)).
Proof.
  induction 1 as [|r rules Hr _ IH]; intros Hread any matched s Hs; cbn [evaluate_rules].
  { apply runs_ret. destruct op; cbn; rewrite ?orb_false_r, ?andb_true_r; apply evaluated_refl. }
  cbn [fmap list_fmap rules_readable forallb existsb] in *. apply andb_true_iff in Hread as [Hvr Hread].
  apply runs_bind. exists (get (cr_context r)), s. split; [by apply Hget|].
  destruct (get (cr_context r)) as [variant|] eqn:Hv.
  2: { assert (Hno : spec_rule_holds get (rule_meaning r) = false) by (unfold spec_rule_holds; cbn; by rewrite Hv).
    destruct op; rewrite Hno; cbn; [rewrite andb_false_r; apply runs_ret, evaluated_refl|by apply IH]. }
  cbn [sr_context rule_meaning sr_ra] in Hvr. rewrite Hv in Hvr.
  apply runs_bind, runs_on_heap, (evaluate_rule_ok r variant); [done|done|]. intros h b Hl Hn Hc Hb.
  assert (Hholds : spec_rule_holds (λ _, Some variant) (rule_meaning r) = spec_rule_holds get (rule_meaning r)).
  { unfold spec_rule_holds. cbn. by rewrite Hv. }
  rewrite Hholds in Hb.
  assert (Hend : ∀ c holds, (calm (hp_env (heap_of s)) → c = holds) → runs (mret c) (set_heap h s) (evaluated s holds)).
  { intros c holds Hch. apply runs_ret. constructor; rewrite ?heap_of_set; try done. }
  destruct op, b.
  - eapply runs_weaken; [apply IH; auto|]. intros b s'. apply evaluated_step; [done..|].
    intros Hcalm. rewrite <- Hb by auto. by rewrite orb_true_l, orb_true_r.
  - apply Hend. intros Hcalm. rewrite <- Hb by auto. by rewrite andb_false_r.
  - apply Hend. intros Hcalm. rewrite <- Hb by auto. by rewrite orb_true_r.
  - eapply runs_weaken; [apply IH; auto|]. intros b s'. apply evaluated_step; [done..|]. rewrite orb_false_r.
    intros Hcalm. by rewrite <- Hb by auto.
Qed.

Lemma evaluate_ex_ok c cop rules s : condition_ok c cop rules → rules_readable rules get = true → I s →
  runs (flb_condition_evaluate_ex get_variant (Some c)) s (evaluated s (spec_condition cop rules get)).
Proof.
  intros [<- Ht <-] Hread Hs. unfold flb_condition_evaluate_ex, spec_condition.
  destruct (cd_rules c) as [|r rules] eqn:Hc.
  - apply runs_ret. destruct (cd_op c); apply evaluated_refl.
  - eapply runs_weaken; [by apply evaluate_rules_ok|]. intros b s'. by destruct (cd_op c).
Qed.
End evaluation.

(** ** Theorems *)

(** The parts of a record that a condition looks at, in the store; a part without a variant is missing. *)
Definition part_of (objects : gmap nat (option cfl_variant)) (obj : option nat) : option cfl_variant :=
  match obj with Some o => mjoin (objects !! o) | None => None end.
Definition default_part (objects : gmap nat (option cfl_variant)) (record : flb_mp_chunk_record) (context : record_context_type)
    : option cfl_variant :=
  match context with
  | RECORD_CONTEXT_METADATA => part_of objects (mr_cobj_metadata record)
  | RECORD_CONTEXT_BODY => part_of objects (mr_cobj_record record)
  | _ => None
  end.
Definition live_object (objects : gmap nat (option cfl_variant)) (obj : option nat) : Prop :=
  match obj with Some o => is_Some (objects !! o) | None => True end.

Lemma get_object_variant_ok obj s : live_object (lg_objects s) obj →
  get_object_variant obj s = Some (part_of (lg_objects s) obj, s).
Proof. destruct obj as [o|]; [|done]. intros [v Hv]. cbn in Hv. unfold get_object_variant, variant_of, part_of. by rewrite Hv. Qed.

(** Only the heap changes, and not what is live. *)
Record heap_step (s s' : log_state) : Prop := {
  hs_objects : lg_objects s' = lg_objects s;
  hs_live : hp_live (lg_heap s') ≡ₚ hp_live (lg_heap s);
  hs_next : next_le (lg_heap s) (lg_heap s');
  hs_calm : calm (hp_env (lg_heap s)) → calm (hp_env (lg_heap s'))
}.

Lemma evaluate_record_ok (get_variant : flb_condition_rule → M log_state (option cfl_variant)) get c cop rules s :
  (∀ r s', lg_objects s' = lg_objects s → get_variant r s' = Some (get (cr_context r), s')) → condition_ok c cop rules →
  rules_readable rules get = true →
  runs (flb_condition_evaluate_ex get_variant (Some c)) s (λ b s', heap_step s s' ∧
    (calm (hp_env (lg_heap s)) → b = spec_condition cop rules get)).
Proof.
  intros Hget Hc Hread.
  destruct (evaluate_ex_ok get_variant get (λ s', lg_objects s' = lg_objects s))
    with (c := c) (cop := cop) (rules := rules) (s := s) as (b & s' & Hr & [Hs Hl Hn Hca Hres]); [auto|done|done|done|done|].
  exists b, s'. split; [done|]. split; [|done]. constructor; [by rewrite Hs|done..].
Qed.

Lemma default_get_ok record s r s' : live_object (lg_objects s) (mr_cobj_metadata record) →
  live_object (lg_objects s) (mr_cobj_record record) → lg_objects s' = lg_objects s →
  default_get_record_variant record r s' = Some (default_part (lg_objects s) record (cr_context r), s').
Proof.
  intros Hm Hb Hs. unfold default_get_record_variant, default_part. rewrite <- Hs in *.
  destruct (cr_context r); try done; by apply get_object_variant_ok.
Qed.

(** C24. Evaluating a condition on a record whose parts its accessors can read - no rule leads to a map or a NaN -
    is defined and leaves the record and the memory as they were, whatever allocations fail; without failures it
    gives the conjunction or disjunction of what its rules say of the texts that the accessors find. *)
Theorem condition_evaluate_exact c cop rules record s :
  condition_ok c cop rules → live_object (lg_objects s) (mr_cobj_metadata record) → live_object (lg_objects s) (mr_cobj_record record) →
  rules_readable rules (default_part (lg_objects s) record) = true →
  ∃ b s', flb_condition_evaluate (Some c) (Some record) s = Some (b, s') ∧
    lg_objects s' = lg_objects s ∧ hp_live (lg_heap s') ≡ₚ hp_live (lg_heap s) ∧
    (calm (hp_env (lg_heap s)) → b = spec_condition cop rules (default_part (lg_objects s) record)).
Proof.
  intros Hc Hm Hb Hread. unfold flb_condition_evaluate.
  destruct (evaluate_record_ok (default_get_record_variant record) (default_part (lg_objects s) record) c cop rules s)
    as (b & s' & Hr & [Ho Hl _ _] & Hres); [by intros; apply default_get_ok|done|done|].
  by exists b, s'.
Qed.

(** A call of [flb_condition_add_rule] *)
Record add_call := mk_call {
  ac_field : list Z; ac_op : flb_rule_operator; ac_value : value_arg; ac_count : Z; ac_context : record_context_type
}.
Fixpoint add_rules (c : flb_condition) (calls : list add_call) : M heap flb_condition :=
  match calls with
  | [] => mret c
  | a :: calls' =>
      '(_, c) ← flb_condition_add_rule c (Some (ac_field a)) (ac_op a) (Some (ac_value a)) (ac_count a) (ac_context a);
      add_rules c calls'
  end.
Definition spec_call (a : add_call) : option spec_rule :=
  spec_rule_of (ac_field a) (ac_op a) (ac_value a) (ac_count a) (ac_context a).

Lemma add_rules_ok calls : Forall (λ a, arg_fits (ac_op a) (ac_value a) (ac_count a) = true) calls → ∀ c cop rules X s,
  condition_ok c cop rules → hp_live s ≡ₚ condition_blocks c ++ X →
  runs (add_rules c calls) s (λ c' s', hp_live s' ≡ₚ condition_blocks c' ++ X ∧ (calm (hp_env s) → calm (hp_env s')) ∧
    ∃ added, condition_ok c' cop (rules ++ added) ∧ (calm (hp_env s) → added = omap spec_call calls)).
Proof.
  induction 1 as [|a calls Ha _ IH]; intros c cop rules X s Hc Hs; cbn [add_rules].
  - apply runs_ret. split; [done|]. split; [done|]. exists []. by rewrite app_nil_r.
  - apply runs_bind, (add_rule_ok c cop rules _ _ _ _ _ X); [done|done|done| |].
    + intros s1 Hs1 Hn. eapply runs_weaken; [by apply (IH c cop rules X)|]. intros c' s' (? & ? & added & ? & Hadded).
      split; [done|]. split; [tauto|]. exists added. split; [done|]. intros Hcalm. destruct (Hn Hcalm) as [? Hnone].
      cbn. unfold spec_call at 1. rewrite Hnone. auto.
    + intros c1 r s1 Hs1 Hcalm1 Hr Hc1. eapply runs_weaken; [by apply (IH c1 cop (rules ++ [r]) X)|].
      intros c' s' (? & ? & added & ? & Hadded). split; [done|]. split; [tauto|]. exists (r :: added).
      split; [by rewrite <- app_assoc in *|]. intros Hcalm. cbn. unfold spec_call at 1. rewrite Hr. by rewrite Hadded by tauto.
Qed.

End conditions.

(** ** A concrete engine

    An accessor is the name of a field of the body; a regular expression is a prefix. *)
Definition ex_ra (field : list Z) : option flb_cfl_record_accessor :=
  Some (mk_accessor 128 [FLB_RA_PARSER_KEYMAP (Some (mk_ra_key field None))]).
Definition ex_regex (pattern : list Z) : option (list Z) := Some pattern.
Definition ex_match (re s : list Z) : Z := if bool_decide (take (length re) s = re) then 1 else 0.

Definition ex_heap : heap := mk_heap (mk_env [] [] [] 0 1 []) [].
(** [k] is "b", [n] is 12; either "k neq c", "n gt 3.5" and "k in a, b" or just the second one *)
Definition ex_calls : list add_call := [
  mk_call [107] FLB_RULE_OP_NEQ (ARG_STR [99]) 1 RECORD_CONTEXT_BODY;
  mk_call [110] FLB_RULE_OP_GT (ARG_NUM (atof [51; 46; 53])) 1 RECORD_CONTEXT_BODY;
  mk_call [107] FLB_RULE_OP_IN (ARG_STRS [Some [97]; Some [98]]) 2 RECORD_CONTEXT_BODY ].
Definition ex_body : cfl_variant := CFL_VARIANT_KVLIST [([107], CFL_VARIANT_STRING [98]); ([110], CFL_VARIANT_STRING [49; 50])].
Definition ex_state : log_state := mk_log ex_heap {[ 50%nat := Some ex_body ]}.
Definition ex_record : flb_mp_chunk_record := mk_record 51 false no_event None (Some 50%nat) None None false false.
Definition ex_condition (cop : flb_condition_operator) : flb_condition := mk_condition 1 cop [
  mk_rule 2 (3%nat, mk_accessor 128 [FLB_RA_PARSER_KEYMAP (Some (mk_ra_key [107] None))]) RECORD_CONTEXT_BODY FLB_RULE_OP_NEQ (VALUE_STR 4 [99]) None;
  mk_rule 5 (6%nat, mk_accessor 128 [FLB_RA_PARSER_KEYMAP (Some (mk_ra_key [110] None))]) RECORD_CONTEXT_BODY FLB_RULE_OP_GT (VALUE_NUM (atof [51; 46; 53])) None ] (regex := list Z).


Lemma condition_evaluate_exact_witness : ∃ b s',
  flb_condition_evaluate ex_match (Some (ex_condition FLB_COND_OP_AND)) (Some ex_record) ex_state = Some (b, s') ∧ b = true.
Proof.
  destruct (condition_evaluate_exact ex_match (ex_condition FLB_COND_OP_AND) FLB_COND_OP_AND
    (rule_meaning <$> cd_rules (ex_condition FLB_COND_OP_AND)) ex_record ex_state) as (b & s' & Hr & _ & _ & Hb).
  - constructor; [reflexivity|repeat constructor|reflexivity].
  - exact I.
  - eexists. reflexivity.
  - vm_compute. reflexivity.
  - exists b, s'. split; [exact Hr|]. rewrite Hb by done. vm_compute. reflexivity.
Defined.

(** A rule that is false of a field holds when there is no memory for the value of the field: "k neq b". *)
Example negated_without_memory :
  let r := mk_rule 2 (3%nat, mk_accessor 128 [FLB_RA_PARSER_KEYMAP (Some (mk_ra_key [107] None))]) RECORD_CONTEXT_BODY FLB_RULE_OP_NEQ
             (VALUE_STR 4 [98]) None in
  (fst <$> evaluate_rule ex_match r ex_body ex_heap = Some false) ∧
  (fst <$> evaluate_rule ex_match r ex_body (mk_heap (mk_env [true; false] [] [] 0 1 []) []) = Some true).
Proof. split; by vm_compute. Qed.
