(* ===== verification/MpChunk.v ===== *)
(** * Chunks as lists of records ([src/flb_mp.c], the functions [flb_mp_chunk_*])

    A chunk of logs is decoded record by record; metadata, body and group of each become CFL objects, of
    which those of a group are shared by its records and owned by one of them.  The decoder of a chunk is
    kept in it. *)
From S2P Require Import Prelude CStd Env Heap MsgPack CflAccessor LogDecoder Conditions.

Definition FLB_MP_CHUNK_RECORD_ERROR : Z := -1.
Definition FLB_MP_CHUNK_RECORD_OK : Z := 0.
Definition FLB_MP_CHUNK_RECORD_EOF : Z := 1.

#[global] Instance log_HasEnv : HasEnv log_state.
Proof. refine {| env_of s := hp_env (lg_heap s); set_env e s := set_lg_heap (set_hp_env e (lg_heap s)) s |};
  [done|by intros [[]]|done]. Defined.

(** ** Objects *)

(** The library takes memory for the object, its content and its variant; without the last the object has
    none. *)
Definition flb_mp_object_to_cfl (o : msgpack_object) : M log_state (option nat) :=
  if negb (is_container o) then mret None
  else
    p ← malloc;
    match p with
    | None => mret None
    | Some a =>
        v ← mp_object_to_cfl o;
        match v with
        | Some v =>
            ok ← syscall;
            modify (λ s, set_lg_objects (<[a := if (ok : bool) then Some v else None]> (lg_objects s)) s) ≫= λ _,
            mret (Some a)
        | None => mret None
        end
    end.

Definition cfl_object_destroy (a : nat) : M log_state unit := λ s,
  _ ← lg_objects s !! a; Some (tt, set_lg_objects (delete a (lg_objects s)) s).

Section chunks.
Context {regex : Type}.
Variable regex_match : regex → list Z → Z.
Variable msgpack_unpack_next : list Z → Z → unpacked * Z.

(** [record_pos] is the block of a record. *)
Record flb_mp_chunk_cobj := mk_cobj {
  cc_block : nat;
  cc_log_decoder : flb_log_event_decoder;
  cc_record_pos : option nat;
  cc_records : list flb_mp_chunk_record;
  cc_active_group_metadata : option nat;
  cc_active_group_attributes : option nat;
  cc_condition : option (@flb_condition regex)
}.
Definition set_cc_log_decoder (x : flb_log_event_decoder) (c : flb_mp_chunk_cobj) : flb_mp_chunk_cobj :=
  mk_cobj (cc_block c) x (cc_record_pos c) (cc_records c) (cc_active_group_metadata c) (cc_active_group_attributes c) (cc_condition c).
Definition set_cc_record_pos (x : option nat) (c : flb_mp_chunk_cobj) : flb_mp_chunk_cobj :=
  mk_cobj (cc_block c) (cc_log_decoder c) x (cc_records c) (cc_active_group_metadata c) (cc_active_group_attributes c) (cc_condition c).
Definition set_cc_records (x : list flb_mp_chunk_record) (c : flb_mp_chunk_cobj) : flb_mp_chunk_cobj :=
  mk_cobj (cc_block c) (cc_log_decoder c) (cc_record_pos c) x (cc_active_group_metadata c) (cc_active_group_attributes c) (cc_condition c).
Definition set_cc_active (md attrs : option nat) (c : flb_mp_chunk_cobj) : flb_mp_chunk_cobj :=
  mk_cobj (cc_block c) (cc_log_decoder c) (cc_record_pos c) (cc_records c) md attrs (cc_condition c).
Definition set_cc_condition (x : option flb_condition) (c : flb_mp_chunk_cobj) : flb_mp_chunk_cobj :=
  mk_cobj (cc_block c) (cc_log_decoder c) (cc_record_pos c) (cc_records c) (cc_active_group_metadata c) (cc_active_group_attributes c) x.

Definition set_mr_event (x : flb_log_event) (r : flb_mp_chunk_record) : flb_mp_chunk_record :=
  mk_record (mr_block r) (mr_modified r) x (mr_cobj_metadata r) (mr_cobj_record r) (mr_cobj_group_metadata r)
    (mr_cobj_group_attributes r) (mr_owns_group_metadata r) (mr_owns_group_attributes r).
Definition set_mr_cobjs (md body : option nat) (r : flb_mp_chunk_record) : flb_mp_chunk_record :=
  mk_record (mr_block r) (mr_modified r) (mr_event r) md body (mr_cobj_group_metadata r)
    (mr_cobj_group_attributes r) (mr_owns_group_metadata r) (mr_owns_group_attributes r).
Definition set_mr_group_metadata (x : option nat) (owns : bool) (r : flb_mp_chunk_record) : flb_mp_chunk_record :=
  mk_record (mr_block r) (mr_modified r) (mr_event r) (mr_cobj_metadata r) (mr_cobj_record r) x
    (mr_cobj_group_attributes r) owns (mr_owns_group_attributes r).
Definition set_mr_group_attributes (x : option nat) (owns : bool) (r : flb_mp_chunk_record) : flb_mp_chunk_record :=
  mk_record (mr_block r) (mr_modified r) (mr_event r) (mr_cobj_metadata r) (mr_cobj_record r) (mr_cobj_group_metadata r)
    x (mr_owns_group_metadata r) owns.

(** ** Creation *)

Definition flb_mp_chunk_record_create : M log_state (option flb_mp_chunk_record) :=
  p ← on_heap alloc; mret ((λ a, mk_record a false no_event None None None None false false) <$> p).

Definition flb_mp_chunk_cobj_create (log_decoder : flb_log_event_decoder) : M log_state (option flb_mp_chunk_cobj) :=
  p ← on_heap alloc; mret ((λ a, mk_cobj a log_decoder None [] None None None) <$> p).

(** ** The next record *)

(** Metadata and body of a decoded record as objects *)
Definition record_objects (record : flb_mp_chunk_record) (event : flb_log_event) : M log_state (option flb_mp_chunk_record) :=
  let fail := on_heap (free_block (mr_block record)) ≫= λ _, mret None in
  md ← deref (ev_metadata event);
  m ← flb_mp_object_to_cfl md;
  match m with
  | None => fail
  | Some m =>
      body ← deref (ev_body event);
      b ← flb_mp_object_to_cfl body;
      match b with
      | None => cfl_object_destroy m ≫= λ _, fail
      | Some b => mret (Some (set_mr_cobjs (Some m) (Some b) (set_mr_event event record)))
      end
  end.

(** The group of a record from the chunk, and what the record does to the group of the chunk *)
Definition record_group (record_type : Z) (record : flb_mp_chunk_record) (c : flb_mp_chunk_cobj)
    : flb_mp_chunk_record * flb_mp_chunk_cobj :=
  if record_type =? FLB_LOG_EVENT_GROUP_START then
    let record := match mr_cobj_metadata record with
                  | Some m => set_mr_group_metadata (Some m) true record | None => record end in
    let record := match mr_cobj_record record with
                  | Some b => set_mr_group_attributes (Some b) true record | None => record end in
    (record, set_cc_active (mr_cobj_group_metadata record) (mr_cobj_group_attributes record) c)
  else
    let record := set_mr_group_attributes (cc_active_group_attributes c) false
                    (set_mr_group_metadata (cc_active_group_metadata c) false record) in
    (record, if record_type =? FLB_LOG_EVENT_GROUP_END then set_cc_active None None c else c).

Definition destroy_opt (o : option nat) : M log_state unit :=
  match o with Some a => cfl_object_destroy a | None => mret tt end.

(** The group from the event, when the chunk has none; the result [None] is an error. *)
Definition own_group_metadata (record : flb_mp_chunk_record) (c : flb_mp_chunk_cobj)
    : M log_state (option flb_mp_chunk_record * flb_mp_chunk_cobj) :=
  match mr_cobj_group_metadata record, ev_group_metadata (mr_event record) with
  | None, Some o =>
      if is_container o then
        g ← flb_mp_object_to_cfl o;
        match g with
        | None =>
            when (mr_owns_group_attributes record) (destroy_opt (mr_cobj_group_attributes record)) ≫= λ _,
            destroy_opt (mr_cobj_record record) ≫= λ _, destroy_opt (mr_cobj_metadata record) ≫= λ _,
            on_heap (free_block (mr_block record)) ≫= λ _, mret (None, c)
        | Some g =>
            mret (Some (set_mr_group_metadata (Some g) true record),
                  match cc_active_group_metadata c with
                  | None => set_cc_active (Some g) (cc_active_group_attributes c) c
                  | Some _ => c
                  end)
        end
      else mret (Some record, c)
  | _, _ => mret (Some record, c)
  end.
Definition own_group_attributes (record : flb_mp_chunk_record) (c : flb_mp_chunk_cobj)
    : M log_state (option flb_mp_chunk_record * flb_mp_chunk_cobj) :=
  match mr_cobj_group_attributes record, ev_group_attributes (mr_event record) with
  | None, Some o =>
      if is_container o then
        g ← flb_mp_object_to_cfl o;
        match g with
        | None =>
            when (mr_owns_group_metadata record) (destroy_opt (mr_cobj_group_metadata record)) ≫= λ _,
            destroy_opt (mr_cobj_record record) ≫= λ _, destroy_opt (mr_cobj_metadata record) ≫= λ _,
            on_heap (free_block (mr_block record)) ≫= λ _, mret (None, c)
        | Some g =>
            mret (Some (set_mr_group_attributes (Some g) true record),
                  match cc_active_group_attributes c with
                  | None => set_cc_active (cc_active_group_metadata c) (Some g) c
                  | Some _ => c
                  end)
        end
      else mret (Some record, c)
  | _, _ => mret (Some record, c)
  end.

(** A record from the decoder, at the end of the list; [None] is an error. *)
Definition decode_record (c : flb_mp_chunk_cobj) : M log_state (option flb_mp_chunk_record * flb_mp_chunk_cobj) :=
  r ← flb_mp_chunk_record_create;
  match r with
  | None => mret (None, c)
  | Some record =>
      '(ret, event, dec) ← deref (flb_log_event_decoder_next msgpack_unpack_next (cc_log_decoder c) no_event);
      let c := set_cc_log_decoder dec c in
      if negb (ret =? FLB_EVENT_DECODER_SUCCESS) then on_heap (free_block (mr_block record)) ≫= λ _, mret (None, c)
      else
        r ← record_objects record event;
        match r with
        | None => mret (None, c)
        | Some record =>
            match flb_log_event_decoder_get_record_type event with
            | None =>
                destroy_opt (mr_cobj_record record) ≫= λ _, destroy_opt (mr_cobj_metadata record) ≫= λ _,
                on_heap (free_block (mr_block record)) ≫= λ _, mret (None, c)
            | Some record_type =>
                let '(record, c) := record_group record_type record c in
                '(r, c) ← own_group_metadata record c;
                match r with
                | None => mret (None, c)
                | Some record =>
                    '(r, c) ← own_group_attributes record c;
                    match r with
                    | None => mret (None, c)
                    | Some record => mret (Some record, set_cc_records (cc_records c ++ [record]) c)
                    end
                end
            end
        end
  end.

(** The position of a record in the list *)
Fixpoint position (block : nat) (records : list flb_mp_chunk_record) : option nat :=
  match records with
  | [] => None
  | r :: records' => if Nat.eqb (mr_block r) block then Some O else S <$> position block records'
  end.

(** What is next among the records that are decoded: [None] is the end of the file.  A position that is
    not in the list is undefined behaviour. *)
Definition stored_record (c : flb_mp_chunk_cobj) : option (option flb_mp_chunk_record * flb_mp_chunk_cobj) :=
  match cc_record_pos c with
  | Some block =>
      i ← position block (cc_records c);
      if Nat.eqb (S i) (length (cc_records c)) then Some (None, set_cc_record_pos None c)
      else r ← cc_records c !! S i; Some (Some r, c)
  | None => Some (head (cc_records c), c)
  end.

(** The result, the record and the chunk; a record that fails the condition is skipped. *)
Fixpoint record_next (fuel : nat) (c : flb_mp_chunk_cobj) : M log_state (Z * option flb_mp_chunk_record * flb_mp_chunk_cobj) :=
  match fuel with
  | O => ub
  | S fuel' =>
      let bytes := u64 (dc_length (cc_log_decoder c) - dc_offset (cc_log_decoder c)) in
      if 0 <? bytes then
        '(r, c) ← decode_record c;
        match r with
        | None => mret (FLB_MP_CHUNK_RECORD_ERROR, None, c)
        | Some record =>
            ok ← flb_condition_evaluate regex_match (cc_condition c) (Some record);
            if negb (ok : bool) then record_next fuel' c
            else mret (FLB_MP_CHUNK_RECORD_OK, Some record, set_cc_record_pos (Some (mr_block record)) c)
        end
      else
        '(r, c) ← deref (stored_record c);
        match r with
        | None => mret (FLB_MP_CHUNK_RECORD_EOF, None, c)
        | Some record =>
            ok ← flb_condition_evaluate regex_match (cc_condition c) (Some record);
            if negb (ok : bool) then record_next fuel' (set_cc_record_pos (Some (mr_block record)) c)
            else mret (FLB_MP_CHUNK_RECORD_OK, Some record, set_cc_record_pos (Some (mr_block record)) c)
        end
  end.

(** Every step takes a byte of the buffer or moves on in the list. *)
Definition flb_mp_chunk_cobj_record_next (c : flb_mp_chunk_cobj) : M log_state (Z * option flb_mp_chunk_record * flb_mp_chunk_cobj) :=
  record_next (2 * (length (dc_buffer (cc_log_decoder c)) + length (cc_records c)) + 2) c.

(** A client's loop, [while (next(chunk, &record) == FLB_MP_CHUNK_RECORD_OK)] *)
Fixpoint read_records (n : nat) (c : flb_mp_chunk_cobj) : M log_state (Z * flb_mp_chunk_cobj) :=
  match n with
  | O => ub
  | S n' =>
      '(ret, _, c) ← flb_mp_chunk_cobj_record_next c;
      if ret =? FLB_MP_CHUNK_RECORD_OK then read_records n' c else mret (ret, c)
  end.
Definition read_all (c : flb_mp_chunk_cobj) : M log_state (Z * flb_mp_chunk_cobj) :=
  read_records (2 * length (dc_buffer (cc_log_decoder c)) + length (cc_records c) + 1) c.

(** ** Destruction *)

(** The objects that a record owns *)
Definition destroy_objects (record : flb_mp_chunk_record) : M log_state unit :=
  destroy_opt (mr_cobj_metadata record) ≫= λ _,
  destroy_opt (mr_cobj_record record) ≫= λ _,
  when (mr_owns_group_metadata record && negb (bool_decide (mr_cobj_group_metadata record = mr_cobj_metadata record)))
    (destroy_opt (mr_cobj_group_metadata record)) ≫= λ _,
  when (mr_owns_group_attributes record && negb (bool_decide (mr_cobj_group_attributes record = mr_cobj_record record)))
    (destroy_opt (mr_cobj_group_attributes record)).

Definition flb_mp_chunk_cobj_record_destroy (c : flb_mp_chunk_cobj) (record : flb_mp_chunk_record) : M log_state (Z * flb_mp_chunk_cobj) :=
  let c :=
    match cc_record_pos c with
    | Some _ =>
        if bool_decide (mr_block <$> head (cc_records c) = Some (mr_block record)) ||
           bool_decide (mr_block <$> last (cc_records c) = Some (mr_block record))
        then set_cc_record_pos None c else c
    | None => c
    end in
  let c := if mr_owns_group_metadata record && bool_decide (cc_active_group_metadata c = mr_cobj_group_metadata record)
           then set_cc_active None (cc_active_group_attributes c) c else c in
  let c := if mr_owns_group_attributes record && bool_decide (cc_active_group_attributes c = mr_cobj_group_attributes record)
           then set_cc_active (cc_active_group_metadata c) None c else c in
  destroy_objects record ≫= λ _,
  on_heap (free_block (mr_block record)) ≫= λ _,
  mret (0, set_cc_records (filter (λ r, mr_block r ≠ mr_block record) (cc_records c)) c).

Definition flb_mp_chunk_cobj_destroy (c : option flb_mp_chunk_cobj) : M log_state Z :=
  match c with
  | None => mret (-1)
  | Some c =>
      foreach (cc_records c) (λ record, destroy_objects record ≫= λ _, on_heap (free_block (mr_block record))) ≫= λ _,
      on_heap (free_block (cc_block c)) ≫= λ _, mret 0
  end.

(** ** Ownership

    The store is what was there before, [base], and the objects that are owned; addresses are handed out
    once. *)
Definition owns (base : gmap nat (option cfl_variant)) (s : log_state) (l : list nat) : Prop :=
  ∃ m, lg_objects s = m ∪ base ∧ m ##ₘ base ∧ (map_to_list m).*1 ≡ₚ l.

Record holds (base : gmap nat (option cfl_variant)) (blocks objects : list nat) (s : log_state) : Prop := {
  ho_live : hp_live (lg_heap s) ≡ₚ blocks;
  ho_blocks a : a ∈ blocks → (a < e_next (hp_env (lg_heap s)))%nat;
  ho_owns : owns base s objects;
  ho_fresh a : is_Some (lg_objects s !! a) → (a < e_next (hp_env (lg_heap s)))%nat
}.

Lemma holds_perm base B O B' O' s : holds base B O s → B ≡ₚ B' → O ≡ₚ O' → holds base B' O' s.
Proof. intros [Hl Hb (m & ? & ? & Hm) Hf] HB HO. split; [by rewrite Hl|intros a; rewrite <- HB; apply Hb|exists m; split_and!; [done|done|by rewrite Hm]|done]. Qed.

Lemma holds_fmap_map_insert (m : gmap nat (option cfl_variant)) a v l : m !! a = None → (map_to_list m).*1 ≡ₚ l →
  (map_to_list (<[a := v]> m)).*1 ≡ₚ a :: l.
Proof. intros Ha Hm. rewrite map_to_list_insert by done. cbn. by rewrite Hm. Qed.

Lemma object_destroy_ok base B O a s (Q : unit → log_state → Prop) : holds base B (a :: O) s →
  (∀ s', holds base B O s' → lg_heap s' = lg_heap s → lg_objects s' = delete a (lg_objects s) → Q tt s') →
  runs (cfl_object_destroy a) s Q.
Proof.
  intros [Hl Hb (m & Hs & Hd & Hm) Hf] HQ.
  assert (Hin : is_Some (m !! a)).
  { assert (Ha : a ∈ (map_to_list m).*1) by (rewrite Hm; left). apply list_elem_of_fmap in Ha as ([a' v] & -> & Hv).
    apply elem_of_map_to_list in Hv. by eexists. }
  destruct Hin as [v Hv]. unfold cfl_object_destroy.
  assert (Hlook : lg_objects s !! a = Some v) by (rewrite Hs; by apply lookup_union_Some_l).
  eexists tt, _. rewrite Hlook. split; [reflexivity|]. apply HQ; [|done|done]. split; [done|done| |].
  - exists (delete a m). split_and!; [|by apply map_disjoint_delete_l|].
    + cbn. rewrite Hs, delete_union. f_equal. apply delete_id. by eapply map_disjoint_Some_l.
    + apply (Permutation_cons_inv (a := a)). rewrite <- Hm. symmetry.
      assert (Hins : m = <[a := v]> (delete a m)) by (by rewrite insert_delete_id).
      rewrite Hins at 1. by rewrite holds_fmap_map_insert; [|apply lookup_delete_eq|done].
  - cbn. intros a' [v' Hv']. apply Hf. apply lookup_delete_Some in Hv' as [_ ?]. by eexists.
Qed.

Lemma destroy_opt_ok base B O o s (Q : unit → log_state → Prop) : holds base B (option_list o ++ O) s →
  (∀ s', holds base B O s' → lg_heap s' = lg_heap s → Q tt s') → runs (destroy_opt o) s Q.
Proof. destruct o as [a|]; intros Hh HQ; [by eapply object_destroy_ok; [exact Hh|]; auto|]. by apply runs_ret, HQ. Qed.

Lemma alloc_ok base B O s (Q : option nat → log_state → Prop) : holds base B O s →
  (∀ s', holds base B O s' → lg_objects s' = lg_objects s → ¬ calm (hp_env (lg_heap s)) → Q None s') →
  (∀ a s', holds base (a :: B) O s' → lg_objects s' = lg_objects s → a ∉ B → (calm (hp_env (lg_heap s)) → calm (hp_env (lg_heap s'))) → Q (Some a) s') →
  runs (on_heap alloc) s Q.
Proof.
  intros [Hl Hb Ho Hf] HN HS. apply runs_on_heap. cbn [heap_of log_HasHeap]. unfold alloc. apply runs_bind.
  destruct (malloc_cases (lg_heap s)) as [[(script & Hm) Hc]|(script & Hm & Hc)]; eexists _, _; (split; [exact Hm|]).
  - apply runs_ret, HN; [by split|done|done].
  - apply runs_bind. eexists tt, _. split; [reflexivity|]. apply runs_ret, HS; [|done| |].
    + split; [cbn; by rewrite Hl| |done|].
      * intros a [->|Ha%Hb]%elem_of_cons; cbn; lia.
      * intros a Ha. cbn. specialize (Hf a Ha). lia.
    + intros Ha%Hb. cbn in Ha. lia.
    + intros Hcalm. cbn. split; [by apply Hc|apply Hcalm].
Qed.

Lemma free_ok base B O a s (Q : unit → log_state → Prop) : holds base (a :: B) O s →
  (∀ s', holds base B O s' → lg_objects s' = lg_objects s → hp_env (lg_heap s') = hp_env (lg_heap s) → Q tt s') →
  runs (on_heap (free_block a)) s Q.
Proof.
  intros [Hl Hb Ho Hf] HQ. apply runs_on_heap. eapply runs_free; [exact Hl|]. intros h Hh He.
  apply HQ; [|done|done]. split; cbn; rewrite ?He; [done| |done|done]. intros a' ?. apply Hb. by right.
Qed.

(** Reading the script of the library *)
(** Computations over the heap *)
Lemma on_heap_ok {A} base B O (m : M heap A) s (Q : A → log_state → Prop) : holds base B O s → bounded m →
  runs m (lg_heap s) (λ a h, ∀ s', lg_heap s' = h → lg_objects s' = lg_objects s → (∀ B', hp_live h ≡ₚ B' → holds base B' O s') → Q a s') →
  runs (on_heap m) s Q.
Proof.
  intros [Hl Hb Ho Hf] Hm Hr. apply runs_on_heap. eapply runs_weaken.
  - eapply runs_bounded; [exact Hm| |exact Hr]. intros a Ha. apply Hb. by rewrite <- Hl.
  - intros a h (HQ & Hn & Hfr). apply HQ; [done..|]. intros B' HB. constructor; cbn.
    + done.
    + intros b Hb'. apply Hfr. by rewrite HB.
    + destruct Ho as (mm & ? & ? & ?). by exists mm.
    + intros b Hb'. specialize (Hf b Hb'). unfold next_le in Hn. cbn in Hn. lia.
Qed.

Lemma on_heap_calm {A} base own B O (m : M heap A) own' post s (Q : A → log_state → Prop) :
  holds base (own ++ B) O s → calm (hp_env (lg_heap s)) → bounded m → calm_run own m own' post →
  (∀ a s', holds base (own' a ++ B) O s' → calm (hp_env (lg_heap s')) → lg_objects s' = lg_objects s → post a → Q a s') →
  runs (on_heap m) s Q.
Proof.
  intros Hh Hc Hb Hm HQ. eapply on_heap_ok; [exact Hh|exact Hb|]. eapply runs_weaken; [apply (Hm _ B); [done|apply Hh]|].
  intros a h (Hc' & Hl & Hp) s' Hs' Ho Hh'. apply HQ; [by apply Hh'|by rewrite Hs'|done|done].
Qed.

Lemma syscall_ok base B O s (Q : bool → log_state → Prop) : holds base B O s →
  (∀ ok s', holds base B O s' → lg_objects s' = lg_objects s → e_next (hp_env (lg_heap s')) = e_next (hp_env (lg_heap s)) →
     (calm (hp_env (lg_heap s)) → calm (hp_env (lg_heap s')) ∧ ok = true) → Q ok s') →
  runs syscall s Q.
Proof.
  intros [Hl Hb Ho Hf] HQ. unfold syscall, runs. cbn [env_of log_HasEnv]. destruct (e_sys (hp_env (lg_heap s))) as [|b script] eqn:Hs.
  - eexists _, _. split; [reflexivity|]. by apply HQ.
  - eexists _, _. split; [reflexivity|]. apply HQ; [by split|done|done|]. intros [_ Hc]. by rewrite Hs in Hc.
Qed.

Lemma conversion_ok o base B O s (Q : option cfl_variant → log_state → Prop) : holds base B O s →
  (∀ r s', holds base B O s' → lg_objects s' = lg_objects s → e_next (hp_env (lg_heap s')) = e_next (hp_env (lg_heap s)) →
     (calm (hp_env (lg_heap s)) → calm (hp_env (lg_heap s')) ∧ r = cfl_of o) → Q r s') →
  runs (mp_object_to_cfl o) s Q.
Proof.
  intros [Hl Hb Ho Hf] HQ. destruct (mp_object_to_cfl_ok (S := log_state) o) as [Hany Hquiet]. destruct (Hany s) as (r & script & Hr).
  eexists r, _. split; [exact Hr|]. apply HQ; [by split|done|done|]. intros Hc. rewrite (Hquiet s Hc) in Hr.
  injection Hr as <- Hs. apply (f_equal (hp_env ∘ lg_heap)) in Hs. cbn in *. by rewrite <- Hs.
Qed.

Lemma object_to_cfl_ok o base B O s (Q : option nat → log_state → Prop) : holds base B O s →
  (∀ s', holds base B O s' → (calm (hp_env (lg_heap s)) → is_container o && convertible o = false) → Q None s') →
  (∀ a s' v, holds base B (a :: O) s' → lg_objects s' = <[a := v]> (lg_objects s) → lg_objects s !! a = None →
     (calm (hp_env (lg_heap s)) → calm (hp_env (lg_heap s')) ∧ ∃ v', v = Some v' ∧ cfl_of o = Some v') → Q (Some a) s') →
  runs (flb_mp_object_to_cfl o) s Q.
Proof.
  intros Hh HN HS. unfold flb_mp_object_to_cfl. destruct (is_container o); cbn [negb]; [|by apply runs_ret, HN].
  apply runs_bind. destruct (malloc_cases s) as [[(script & Hm) Hc]|(script & Hm & Hc)]; eexists _, _; (split; [exact Hm|]).
  { destruct Hh. apply runs_ret, HN; [by split|done]. }
  set (s1 := set_env _ s). cbn [env_of log_HasEnv] in Hc. set (a := e_next (env_of s)) in *.
  assert (Hnew : lg_objects s !! a = None).
  { apply eq_None_not_Some. intros Ha%(ho_fresh _ _ _ _ Hh). unfold a in Ha. cbn in Ha. lia. }
  assert (Hh1 : holds base B O s1) by (destruct Hh as [? Hb ? Hf]; split; [done| |done|]; [intros a' ?%Hb|intros a' ?%Hf]; cbn; unfold a; cbn; lia).
  assert (Hc1 : calm (hp_env (lg_heap s)) → calm (hp_env (lg_heap s1))).
  { intros Hcalm. cbn. split; [by apply Hc|apply Hcalm]. }
  apply runs_bind, (conversion_ok o base B O); [done|]. intros r s2 Hh2 Ho2 Hn2 Hc2. pose proof (cfl_of_packs o) as Hpk.
  destruct r as [v|].
  2: { apply runs_ret, HN; [done|]. intros Hcalm. destruct (Hc2 (Hc1 Hcalm)) as [_ Hr]. rewrite <- Hr in Hpk. by rewrite Hpk, andb_false_r. }
  apply runs_bind, (syscall_ok base B O); [done|]. intros ok s3 Hh3 Ho3 Hn3 Hc3. apply runs_bind, runs_modify, runs_ret.
  eapply HS; [|cbn; by rewrite Ho3, Ho2|done|].
  - destruct Hh3 as [? Hb3 (m & Hs & Hd & Hm') Hf3]. split; [done|done| |].
    + assert (Hno : (m ∪ base) !! a = None) by (rewrite <- Hs, Ho3, Ho2; exact Hnew). apply lookup_union_None in Hno as [? ?].
      eexists (<[a := _]> m). split_and!; [cbn; by rewrite Hs, insert_union_l|by apply map_disjoint_insert_l_2|].
      by apply holds_fmap_map_insert.
    + cbn. intros a' [v' Hv']. apply lookup_insert_Some in Hv' as [[<- _]|[_ ?]]; [|apply Hf3; by eexists].
      rewrite Hn3, Hn2. cbn. unfold a. cbn. lia.
  - intros Hcalm. destruct (Hc2 (Hc1 Hcalm)) as [Hcalm2 Hr]. destruct (Hc3 Hcalm2) as [? ->]. split; [done|]. by exists v.
Qed.

(** What records and chunks own *)
Definition record_owned (r : flb_mp_chunk_record) : list nat :=
  option_list (mr_cobj_metadata r) ++ option_list (mr_cobj_record r) ++
  (if mr_owns_group_metadata r && negb (bool_decide (mr_cobj_group_metadata r = mr_cobj_metadata r))
   then option_list (mr_cobj_group_metadata r) else []) ++
  (if mr_owns_group_attributes r && negb (bool_decide (mr_cobj_group_attributes r = mr_cobj_record r))
   then option_list (mr_cobj_group_attributes r) else []).
Definition chunk_owned (c : flb_mp_chunk_cobj) : list nat := cc_records c ≫= record_owned.
Definition chunk_blocks (c : flb_mp_chunk_cobj) : list nat := cc_block c :: (mr_block <$> cc_records c).

(** The part [o] of a record is the object at [obj]. *)
Definition part_at (objects : gmap nat (option cfl_variant)) (obj : option nat) (o : option msgpack_object) : Prop :=
  ∃ a v, obj = Some a ∧ objects !! a = Some (Some v) ∧ (o ≫= cfl_of) = Some v.

Lemma part_at_weaken objects objects' obj o : objects ⊆ objects' → part_at objects obj o → part_at objects' obj o.
Proof. intros Hs (a & v & ? & ? & ?). exists a, v. split_and!; [done|by eapply lookup_weaken|done]. Qed.

Definition convertible_part (o : option msgpack_object) : bool :=
  match o with Some o => is_container o && convertible o | None => false end.

Lemma record_objects_ok record event base B O s (Q : option flb_mp_chunk_record → log_state → Prop) :
  holds base (mr_block record :: B) O s → is_Some (ev_metadata event) → is_Some (ev_body event) →
  (∀ s', holds base B O s' → (calm (hp_env (lg_heap s)) → convertible_part (ev_metadata event) && convertible_part (ev_body event) = false) →
     Q None s') →
  (∀ m b s', holds base (mr_block record :: B) (m :: b :: O) s' → lg_objects s ⊆ lg_objects s' →
     is_Some (lg_objects s' !! m) → is_Some (lg_objects s' !! b) →
     (calm (hp_env (lg_heap s)) → calm (hp_env (lg_heap s')) ∧ part_at (lg_objects s') (Some m) (ev_metadata event) ∧
        part_at (lg_objects s') (Some b) (ev_body event)) →
     Q (Some (set_mr_cobjs (Some m) (Some b) (set_mr_event event record))) s') →
  runs (record_objects record event) s Q.
Proof.
  intros Hh [md Hmd] [body Hbody] HN HS. unfold record_objects. rewrite Hmd, Hbody in *. cbn [convertible_part] in HN.
  apply runs_bind. eapply runs_deref; [done|]. apply runs_bind, (object_to_cfl_ok md base (mr_block record :: B) O); [done| |].
  - intros s1 Hh1 Hc1. apply runs_bind. eapply free_ok; [exact Hh1|]. intros s2 Hh2 _ _. apply runs_ret, HN; [done|].
    intros Hcalm. by rewrite (Hc1 Hcalm).
  - intros m s1 v1 Hh1 Ho1 Hn1 Hc1. apply runs_bind. eapply runs_deref; [done|].
    apply runs_bind, (object_to_cfl_ok body base (mr_block record :: B) (m :: O)); [done| |].
    + intros s2 Hh2 Hc2. apply runs_bind. eapply object_destroy_ok; [exact Hh2|]. intros s3 Hh3 _ _. apply runs_bind.
      eapply free_ok; [exact Hh3|]. intros s4 Hh4 _ _. apply runs_ret, HN; [done|]. intros Hcalm.
      destruct (Hc1 Hcalm) as [Hcalm1 _]. rewrite (Hc2 Hcalm1). apply andb_false_r.
    + intros b s2 v2 Hh2 Ho2 Hn2 Hc2.
      assert (Hm : lg_objects s2 !! m = Some v1).
      { rewrite Ho2, lookup_insert_ne; [rewrite Ho1; apply lookup_insert_eq|]. intros ->. rewrite Ho1, lookup_insert_eq in Hn2. done. }
      assert (Hb : lg_objects s2 !! b = Some v2) by (rewrite Ho2; apply lookup_insert_eq).
      apply runs_ret, HS; [eapply holds_perm; [exact Hh2|done|apply Permutation_swap]| |by eexists|by eexists|].
      * rewrite Ho2, Ho1. etrans; [by apply (insert_subseteq _ m v1)|]. apply insert_subseteq. rewrite <- Ho1. done.
      * intros Hcalm. destruct (Hc1 Hcalm) as [Hcalm1 (v1' & -> & Hv1)]. destruct (Hc2 Hcalm1) as [? (v2' & -> & Hv2)].
        split; [done|]. split; [by exists m, v1'|by exists b, v2'].
Qed.

(** Only the active group differs. *)
Definition same_chunk (c c' : flb_mp_chunk_cobj) : Prop :=
  cc_block c' = cc_block c ∧ cc_records c' = cc_records c ∧ cc_log_decoder c' = cc_log_decoder c ∧
  cc_record_pos c' = cc_record_pos c ∧ cc_condition c' = cc_condition c.
Definition same_record (r r' : flb_mp_chunk_record) : Prop :=
  mr_block r' = mr_block r ∧ mr_event r' = mr_event r ∧ mr_cobj_metadata r' = mr_cobj_metadata r ∧ mr_cobj_record r' = mr_cobj_record r.
Lemma same_chunk_trans c1 c2 c3 : same_chunk c1 c2 → same_chunk c2 c3 → same_chunk c1 c3.
Proof. intros (? & ? & ? & ? & ?) (? & ? & ? & ? & ?). unfold same_chunk. split_and!; congruence. Qed.

(** The record before and after its group is looked up *)
Lemma record_group_owned rt m b record c :
  let '(r, c') := record_group rt (set_mr_cobjs (Some m) (Some b) record) c in
  mr_cobj_metadata r = Some m ∧ mr_cobj_record r = Some b ∧ mr_block r = mr_block record ∧ mr_event r = mr_event record ∧
  record_owned r = [m; b] ∧ same_chunk c c' ∧
  (rt = FLB_LOG_EVENT_GROUP_START → mr_cobj_group_metadata r = Some m ∧ mr_cobj_group_attributes r = Some b) ∧
  (rt ≠ FLB_LOG_EVENT_GROUP_START → mr_owns_group_metadata r = false ∧ mr_owns_group_attributes r = false ∧
     mr_cobj_group_metadata r = cc_active_group_metadata c ∧ mr_cobj_group_attributes r = cc_active_group_attributes c).
Proof.
  unfold record_group, record_owned. destruct (Z.eqb_spec rt FLB_LOG_EVENT_GROUP_START) as [->|Hrt]; cbn.
  - rewrite !bool_decide_true by done. done.
  - destruct (rt =? FLB_LOG_EVENT_GROUP_END); done.
Qed.

Lemma rotate3 {A} (x y z : A) l : x :: y :: z :: l ≡ₚ y :: z :: x :: l.
Proof. etrans; [apply Permutation_swap|]. apply Permutation_skip, Permutation_swap. Qed.

(** A step that may complete the group of a record, and does nothing when [idle] *)
Definition group_step_ok (base : gmap nat (option cfl_variant)) (B O : list nat) (r : flb_mp_chunk_record) (c : flb_mp_chunk_cobj)
    (idle : Prop) (s : log_state) (res : option flb_mp_chunk_record * flb_mp_chunk_cobj) (s' : log_state) : Prop :=
  same_chunk c res.2 ∧
  match res.1 with
  | None => holds base B O s' ∧ (calm (hp_env (lg_heap s)) → ¬ idle)
  | Some r' => same_record r r' ∧ holds base (mr_block r' :: B) (record_owned r' ++ O) s' ∧ lg_objects s ⊆ lg_objects s' ∧
      (calm (hp_env (lg_heap s)) → calm (hp_env (lg_heap s'))) ∧ (idle → r' = r ∧ res.2 = c)
  end.

Lemma group_step_idle base B O r c (idle : Prop) s : holds base (mr_block r :: B) (record_owned r ++ O) s →
  runs (mret (M := M log_state) (Some r, c)) s (group_step_ok base B O r c idle s).
Proof. intros Hh. apply runs_ret. split; [done|]. split_and!; done. Qed.

(** What completing the group metadata keeps: the attributes, and that it owns no object twice *)
Definition attributes_kept (r : flb_mp_chunk_record) (res : option flb_mp_chunk_record) : Prop :=
  match res with
  | None => True
  | Some r' => mr_cobj_group_attributes r' = mr_cobj_group_attributes r ∧ mr_owns_group_attributes r' = mr_owns_group_attributes r ∧
      (mr_owns_group_metadata r' = true → mr_owns_group_metadata r = true ∨ mr_cobj_group_metadata r' ≠ mr_cobj_metadata r')
  end.

Lemma own_group_metadata_ok base B O r c m b s : mr_cobj_metadata r = Some m → mr_cobj_record r = Some b →
  (mr_cobj_group_metadata r = None → mr_owns_group_metadata r = false ∧ mr_owns_group_attributes r = false) →
  is_Some (lg_objects s !! m) → holds base (mr_block r :: B) (record_owned r ++ O) s →
  runs (own_group_metadata r c) s (λ res s', group_step_ok base B O r c
    (mr_cobj_group_metadata r = None → ev_group_metadata (mr_event r) = None) s res s' ∧ attributes_kept r res.1).
Proof.
  intros Hm Hb Hown Hlive Hh. unfold own_group_metadata.
  assert (Hid : runs (mret (M := M log_state) (Some r, c)) s (λ res s', group_step_ok base B O r c
    (mr_cobj_group_metadata r = None → ev_group_metadata (mr_event r) = None) s res s' ∧ attributes_kept r res.1)).
  { apply runs_ret. split; [split; [done|split_and!; done]|]. cbn. auto. }
  destruct (mr_cobj_group_metadata r) as [g|] eqn:Hg; [done|]. destruct Hown as [Hog Hoa]; [done|].
  destruct (ev_group_metadata (mr_event r)) as [o|] eqn:He; [|done].
  destruct (is_container o); [|done].
  assert (Howned : record_owned r = [m; b]) by (unfold record_owned; by rewrite Hm, Hb, Hog, Hoa).
  rewrite Howned in Hh. apply runs_bind, (object_to_cfl_ok o base (mr_block r :: B) ([m; b] ++ O)); [done| |].
  - intros s1 Hh1 _. rewrite Hoa, Hm, Hb. cbn [when]. apply runs_bind, runs_ret, runs_bind. cbn [destroy_opt].
    eapply (object_destroy_ok base _ (m :: O) b); [eapply holds_perm; [exact Hh1|done|apply Permutation_swap]|]. intros s2 Hh2 _ _.
    apply runs_bind. eapply object_destroy_ok; [exact Hh2|]. intros s3 Hh3 _ _. apply runs_bind. eapply free_ok; [exact Hh3|].
    intros s4 Hh4 _ _. apply runs_ret. split; [|done]. split; [done|]. split; [done|]. intros _ Hidle. by specialize (Hidle eq_refl).
  - intros g s1 v Hh1 Ho1 Hn1 Hc1. apply runs_ret.
    assert (Hgm : Some g ≠ mr_cobj_metadata r) by (rewrite Hm; intros [= ->]; destruct Hlive as [? ?]; congruence).
    split; [|split_and!; [done|done|by right]]. split; [by destruct (cc_active_group_metadata c)|]. split; [done|]. split_and!.
    + eapply holds_perm; [exact Hh1|done|]. unfold record_owned. cbn. rewrite bool_decide_false by done. rewrite Hm, Hb, Hoa.
      cbn. apply rotate3.
    + rewrite Ho1. by apply insert_subseteq.
    + intros Hcalm. by apply Hc1.
    + intros Hidle. by specialize (Hidle eq_refl).
Qed.

Lemma own_group_attributes_ok base B O r c m b s : mr_cobj_metadata r = Some m → mr_cobj_record r = Some b →
  (mr_cobj_group_attributes r = None → mr_owns_group_attributes r = false ∧
     (mr_owns_group_metadata r = true → mr_cobj_group_metadata r ≠ mr_cobj_metadata r)) →
  is_Some (lg_objects s !! b) → holds base (mr_block r :: B) (record_owned r ++ O) s →
  runs (own_group_attributes r c) s (group_step_ok base B O r c
    (mr_cobj_group_attributes r = None → ev_group_attributes (mr_event r) = None) s).
Proof.
  intros Hm Hb Hown Hlive Hh. unfold own_group_attributes.
  destruct (mr_cobj_group_attributes r) as [g|] eqn:Hg; [by apply group_step_idle|]. destruct Hown as [Hoa Hne]; [done|].
  destruct (ev_group_attributes (mr_event r)) as [o|] eqn:He; [|by apply group_step_idle].
  destruct (is_container o); [|by apply group_step_idle].
  set (G := if mr_owns_group_metadata r then option_list (mr_cobj_group_metadata r) else []).
  assert (HG : (if mr_owns_group_metadata r && negb (bool_decide (mr_cobj_group_metadata r = mr_cobj_metadata r))
                then option_list (mr_cobj_group_metadata r) else []) = G).
  { unfold G. destruct (mr_owns_group_metadata r); [|done]. by rewrite bool_decide_false by auto. }
  assert (Howned : record_owned r = [m; b] ++ G) by (unfold record_owned; by rewrite HG, Hm, Hb, Hoa, app_nil_r).
  rewrite Howned in Hh. apply runs_bind, (object_to_cfl_ok o base (mr_block r :: B) (([m; b] ++ G) ++ O)); [done| |].
  - intros s1 Hh1 _. rewrite Hm, Hb. apply runs_bind.
    apply runs_weaken with (Q := λ _ s', holds base (mr_block r :: B) (b :: m :: O) s').
    + assert (Hh1' : holds base (mr_block r :: B) (G ++ b :: m :: O) s1).
      { eapply holds_perm; [exact Hh1|done|]. cbn. rewrite (Permutation_swap b m). by rewrite <- !Permutation_middle. }
      unfold G in Hh1'. destruct (mr_owns_group_metadata r); cbn [when] in *; [|by apply runs_ret].
      eapply destroy_opt_ok; [exact Hh1'|]. auto.
    + intros _ s2 Hh2. apply runs_bind. cbn [destroy_opt]. eapply object_destroy_ok; [exact Hh2|]. intros s3 Hh3 _ _.
      apply runs_bind. eapply object_destroy_ok; [exact Hh3|]. intros s4 Hh4 _ _. apply runs_bind. eapply free_ok; [exact Hh4|].
      intros s5 Hh5 _ _. apply runs_ret. split; [done|]. split; [done|]. intros _ Hidle. by specialize (Hidle eq_refl).
  - intros g s1 v Hh1 Ho1 Hn1 Hc1. apply runs_ret. split; [by destruct (cc_active_group_attributes c)|]. split; [done|]. split_and!.
    + eapply holds_perm; [exact Hh1|done|]. unfold record_owned. cbn. rewrite HG, Hm, Hb.
      rewrite bool_decide_false; [|intros [= ->]; by destruct Hlive as [? ?]; congruence]. cbn.
      rewrite rotate3. do 2 apply Permutation_skip. rewrite <- app_assoc. apply Permutation_middle.
    + rewrite Ho1. by apply insert_subseteq.
    + intros Hcalm. by apply Hc1.
    + intros Hidle. by specialize (Hidle eq_refl).
Qed.

(** The event says no more about its group than the chunk. *)
Definition in_sync (c : flb_mp_chunk_cobj) (event : flb_log_event) : Prop :=
  (cc_active_group_metadata c = None → ev_group_metadata event = None) ∧
  (cc_active_group_attributes c = None → ev_group_attributes event = None).

(** What decoding a record leaves of the chunk [c]: everything but the decoder and the active group *)
Definition chunk_grows (c : flb_mp_chunk_cobj) (records : list flb_mp_chunk_record) (c' : flb_mp_chunk_cobj) : Prop :=
  cc_block c' = cc_block c ∧ cc_records c' = cc_records c ++ records ∧ cc_record_pos c' = cc_record_pos c ∧ cc_condition c' = cc_condition c.

(** A record that was decoded, when the group of the event was known to the chunk *)
Definition decoded_record (c : flb_mp_chunk_cobj) (event : flb_log_event) (dec : flb_log_event_decoder) (objects : gmap nat (option cfl_variant))
    (r : flb_mp_chunk_record) (c' : flb_mp_chunk_cobj) : Prop :=
  ∃ block m b rt, flb_log_event_decoder_get_record_type event = Some rt ∧
    part_at objects (Some m) (ev_metadata event) ∧ part_at objects (Some b) (ev_body event) ∧
    let '(r0, c0) := record_group rt (mk_record block false event (Some m) (Some b) None None false false) (set_cc_log_decoder dec c) in
    r = r0 ∧ c' = set_cc_records (cc_records c ++ [r]) c0.

Lemma decode_record_ok base X O c s ret event dec (Q : option flb_mp_chunk_record * flb_mp_chunk_cobj → log_state → Prop) :
  holds base (chunk_blocks c ++ X) (chunk_owned c ++ O) s →
  flb_log_event_decoder_next msgpack_unpack_next (cc_log_decoder c) no_event = Some (ret, event, dec) →
  (∀ c' s', holds base (chunk_blocks c ++ X) (chunk_owned c ++ O) s' → chunk_grows c [] c' →
     cc_log_decoder c' = cc_log_decoder c ∨ cc_log_decoder c' = dec →
     (calm (hp_env (lg_heap s)) → in_sync c event →
        (ret =? FLB_EVENT_DECODER_SUCCESS) && convertible_part (ev_metadata event) && convertible_part (ev_body event) = false) →
     Q (None, c') s') →
  (∀ r c' s', ret = FLB_EVENT_DECODER_SUCCESS → holds base (chunk_blocks c' ++ X) (chunk_owned c' ++ O) s' → chunk_grows c [r] c' →
     cc_log_decoder c' = dec → lg_objects s ⊆ lg_objects s' → mr_block r ∉ chunk_blocks c →
     (calm (hp_env (lg_heap s)) → calm (hp_env (lg_heap s')) ∧ (in_sync c event → decoded_record c event dec (lg_objects s') r c')) →
     Q (Some r, c') s') →
  runs (decode_record c) s Q.
Proof.
  intros Hh Hnext HN HS. unfold decode_record, flb_mp_chunk_record_create. apply runs_bind, runs_bind, (alloc_ok base _ _ _ _ Hh).
  { intros s1 Hh1 _ Hc1. apply runs_ret, runs_ret, HN; [done|unfold chunk_grows; by rewrite app_nil_r|by left|done]. }
  intros block s1 Hh1 Ho1 Hnew Hc1. apply runs_ret. cbn [fmap option_fmap option_map]. apply runs_bind.
  eapply runs_deref; [exact Hnext|]. cbv beta iota. set (c1 := set_cc_log_decoder dec c). cbn [mr_block].
  assert (Hg1 : ∀ c2, same_chunk c1 c2 → chunk_grows c [] c2 ∧ cc_log_decoder c2 = dec).
  { intros c2 (? & ? & ? & ? & ?). unfold chunk_grows. rewrite app_nil_r. done. }
  destruct (Z.eqb_spec ret FLB_EVENT_DECODER_SUCCESS) as [->|Hret]; cbn [negb].
  2: { apply runs_bind. eapply free_ok; [exact Hh1|]. intros s2 Hh2 _ _. apply runs_ret, HN; [done|by apply Hg1|by right|done]. }
  unfold flb_log_event_decoder_next in Hnext. destruct (next_event _ _ _ _ _ _ Hnext) as ((md & body & Hmd & Hbody & _ & _) & [rt Hrt]).
  apply runs_bind, (record_objects_ok _ event base (chunk_blocks c ++ X) (chunk_owned c ++ O)); [done|by eexists|by eexists| |].
  { intros s2 Hh2 Hc2. apply runs_ret, HN; [done|by apply Hg1|by right|]. intros Hcalm _. cbn. auto. }
  intros m b s2 Hh2 Hsub2 Hlm Hlb Hc2. rewrite Hrt. set (r1 := set_mr_event event _).
  pose proof (record_group_owned rt m b r1 c1) as Hgroup. destruct (record_group rt _ c1) as [r2 c2] eqn:Hrg.
  destruct Hgroup as (Hrm & Hrb & Hblk & Hev & Hown & Hsame & Hstart & Hother).
  assert (Hcases : rt = FLB_LOG_EVENT_GROUP_START ∨ rt ≠ FLB_LOG_EVENT_GROUP_START) by lia.
  apply runs_bind. eapply runs_weaken; [eapply (own_group_metadata_ok base (chunk_blocks c ++ X) (chunk_owned c ++ O) r2 c2 m b); [done|done| |done|]|].
  { intros Hnone. destruct Hcases as [Hs|Hs]; [destruct (Hstart Hs); congruence|]. by destruct (Hother Hs) as (? & ? & _). }
  { rewrite Hblk, Hown. exact Hh2. }
  assert (Hidle2 : in_sync c event → (mr_cobj_group_metadata r2 = None → ev_group_metadata (mr_event r2) = None) ∧
    (mr_cobj_group_attributes r2 = None → ev_group_attributes (mr_event r2) = None)).
  { rewrite Hev. intros [Hs1 Hs2]. destruct Hcases as [Hs|Hs]; [destruct (Hstart Hs); split; congruence|].
    destruct (Hother Hs) as (_ & _ & -> & ->). auto. }
  intros [[r3|] c3] s3 [[Hsame3 Hres3] Hkept]; cbn [fst snd] in *.
  2: { destruct Hres3 as [Hh3 Hc3]. apply runs_ret, HN; [done|apply Hg1; by eapply same_chunk_trans|by right; apply Hg1; by eapply same_chunk_trans|].
       intros Hcalm Hsync. exfalso. apply Hc3; [by apply Hc2, Hc1|]. by apply Hidle2. }
  destruct Hres3 as ((Hblk3 & Hev3 & Hrm3 & Hrb3) & Hh3 & Hsub3 & Hc3 & Hid3). destruct Hkept as (Hga3 & Hoa3 & Hom3).
  apply runs_bind. eapply runs_weaken; [eapply (own_group_attributes_ok base (chunk_blocks c ++ X) (chunk_owned c ++ O) r3 c3 m b); [congruence|congruence| | |done]|].
  { rewrite Hga3, Hoa3. intros Hnone. destruct Hcases as [Hs|Hs]; [destruct (Hstart Hs); congruence|].
    destruct (Hother Hs) as (Hno & ? & _). split; [done|]. intros Ho. destruct (Hom3 Ho) as [?|?]; [congruence|done]. }
  { destruct Hlb as [v Hv]. exists v. eapply lookup_weaken; [exact Hv|done]. }
  intros [[r4|] c4] s4 [Hsame4 Hres4]; cbn [fst snd] in *.
  2: { destruct Hres4 as [Hh4 Hc4].
       assert (Hs14 : same_chunk c1 c4) by (eapply same_chunk_trans; [|done]; by eapply same_chunk_trans).
       apply runs_ret, HN; [done|by apply Hg1|by right; apply Hg1|]. intros Hcalm Hsync. exfalso. apply Hc4; [by apply Hc3, Hc2, Hc1|].
       destruct Hid3 as [-> _]; by apply Hidle2. }
  destruct Hres4 as ((Hblk4 & Hev4 & Hrm4 & Hrb4) & Hh4 & Hsub4 & Hc4 & Hid4).
  assert (Hs14 : same_chunk c1 c4) by (eapply same_chunk_trans; [|done]; by eapply same_chunk_trans).
  destruct Hs14 as (Hb14 & Hr14 & Hd14 & Hp14 & Hcd14). cbn in Hb14, Hr14, Hd14, Hp14, Hcd14.
  apply runs_ret, HS; [done| |by unfold chunk_grows; cbn; rewrite Hr14|done|by rewrite <- Ho1; etrans; [|done]; etrans| |].
  - unfold chunk_blocks, chunk_owned. cbn. rewrite Hb14, Hr14. unfold chunk_blocks, chunk_owned in Hh4.
    eapply holds_perm; [exact Hh4| |].
    + rewrite fmap_app. cbn. rewrite Hblk4, Hblk3, <- app_assoc. cbn. rewrite Permutation_swap. apply Permutation_skip, Permutation_middle.
    + rewrite bind_app. cbn. rewrite app_nil_r, (app_assoc (record_owned r4)), (Permutation_app_comm (record_owned r4)). done.
  - rewrite Hblk4, Hblk3, Hblk. intros Hin. apply Hnew, elem_of_app. by left.
  - intros Hcalm. destruct (Hc2 (Hc1 Hcalm)) as (Hcalm2 & Hpm & Hpb). split; [by apply Hc4, Hc3|]. intros Hsync.
    destruct (Hidle2 Hsync) as [Hi1 Hi2]. destruct Hid3 as [-> ->]; [done|]. destruct Hid4 as [-> ->]; [done|].
    exists block, m, b, rt. assert (Hsub : lg_objects s2 ⊆ lg_objects s4) by (by etrans).
    split_and!; [done|by eapply part_at_weaken|by eapply part_at_weaken|]. 
    match goal with |- let '(_, _) := ?x in _ => replace x with (r2, c2) by (symmetry; exact Hrg) end.
    split; [done|]. f_equal. by rewrite Hr14.
Qed.
(** ** Destruction *)

Lemma holds_live base B O s a : holds base B O s → a ∈ O → is_Some (lg_objects s !! a).
Proof.
  intros [_ _ (m & -> & _ & Hm) _] Ha. rewrite <- Hm in Ha. apply list_elem_of_fmap in Ha as ([a' v] & -> & Hv).
  apply elem_of_map_to_list in Hv. exists v. by apply lookup_union_Some_l.
Qed.

Lemma destroy_when_ok base B (b : bool) o O s (Q : unit → log_state → Prop) :
  holds base B ((if b then option_list o else []) ++ O) s → (∀ s', holds base B O s' → Q tt s') → runs (when b (destroy_opt o)) s Q.
Proof.
  intros Hh HQ. apply runs_when; intros ->; [|by apply HQ]. eapply destroy_opt_ok; [exact Hh|]. auto.
Qed.

Lemma destroy_objects_ok base B r O s (Q : unit → log_state → Prop) :
  holds base B (record_owned r ++ O) s → (∀ s', holds base B O s' → Q tt s') → runs (destroy_objects r) s Q.
Proof.
  unfold record_owned, destroy_objects. rewrite <- !app_assoc. intros Hh HQ.
  apply runs_bind. eapply destroy_opt_ok; [exact Hh|]. intros s1 Hh1 _.
  apply runs_bind. eapply destroy_opt_ok; [exact Hh1|]. intros s2 Hh2 _.
  apply runs_bind. eapply destroy_when_ok; [exact Hh2|]. intros s3 Hh3. by eapply destroy_when_ok.
Qed.

Lemma cobj_destroy_ok base c X O s (Q : Z → log_state → Prop) :
  holds base (chunk_blocks c ++ X) (chunk_owned c ++ O) s → (∀ s', holds base X O s' → Q 0 s') →
  runs (flb_mp_chunk_cobj_destroy (Some c)) s Q.
Proof.
  intros Hh HQ. unfold flb_mp_chunk_cobj_destroy, chunk_blocks, chunk_owned in *. apply runs_bind.
  assert (Hall : ∀ rs s, holds base (cc_block c :: (mr_block <$> rs) ++ X) ((rs ≫= record_owned) ++ O) s →
    runs (foreach rs (λ record, destroy_objects record ≫= λ _, on_heap (free_block (mr_block record)))) s
      (λ _ s', holds base (cc_block c :: X) O s')).
  { induction rs as [|r rs IH]; intros s0 Hh0; cbn [foreach]; [by apply runs_ret|]. rewrite bind_cons, <- app_assoc in Hh0.
    apply runs_bind, runs_bind. eapply destroy_objects_ok; [exact Hh0|]. intros s1 Hh1.
    eapply free_ok; [eapply holds_perm; [exact Hh1|apply Permutation_swap|done]|]. intros s2 Hh2 _ _. by apply IH. }
  eapply runs_weaken; [by apply Hall|]. intros ? s1 Hh1. apply runs_bind. eapply free_ok; [exact Hh1|].
  intros s2 Hh2 _ _. by apply runs_ret, HQ.
Qed.

(** ** What holds of all objects

    The variants of the objects that are made, [P], next to the store [base] that was there before *)
Section store.
Variable P : cfl_variant → Prop.
Variable base : gmap nat (option cfl_variant).
Definition store_holds (s : log_state) : Prop :=
  ∀ a v, lg_objects s !! a = Some (Some v) → base !! a = Some (Some v) ∨ P v.
(** Whatever fails, the variants that an object can become are in [P]. *)
Definition becomes (o : msgpack_object) : Prop := ∀ v (s s' : log_state), mp_object_to_cfl o s = Some (Some v, s') → P v.
Definition keeps {A} (m : M log_state A) : Prop := ∀ s a s', m s = Some (a, s') → store_holds s → store_holds s'.

Lemma runs_keeps {A} (m : M log_state A) s (Q : A → log_state → Prop) : keeps m → store_holds s →
  runs m s (λ a s', store_holds s' → Q a s') → runs m s Q.
Proof. intros Hm Hs (a & s' & Hr & HQ). exists a, s'. split; [done|]. by eapply HQ, Hm. Qed.
Lemma keeps_ret {A} (a : A) : keeps (mret a).
Proof. by intros s b s' [= _ <-]. Qed.
Lemma keeps_bind {A B} (m : M log_state A) (f : A → M log_state B) : keeps m → (∀ a, keeps (f a)) → keeps (m ≫= f).
Proof.
  intros Hm Hf s b s' Hr Hs. unfold mbind, M_bind in Hr. destruct (m s) as [[a s1]|] eqn:Hms; [|done]. eapply Hf, Hm; done.
Qed.
Lemma keeps_deref {A B} (o : option A) (f : A → M log_state B) : (∀ a, o = Some a → keeps (f a)) → keeps (deref o ≫= f).
Proof. intros Hf s b s' Hr. unfold mbind, M_bind, deref in Hr. destruct o as [a|]; [|done]. by eapply Hf. Qed.
Lemma keeps_on_heap {A} (m : M heap A) : keeps (on_heap m).
Proof. intros s a s' Hr. unfold on_heap in Hr. destruct (m _) as [[b h]|]; [|done]. by injection Hr as _ <-. Qed.
Lemma keeps_destroy o : keeps (destroy_opt o).
Proof.
  destruct o as [a|]; [|apply keeps_ret]. intros s u s' Hr Hs. cbn in Hr. unfold cfl_object_destroy in Hr.
  destruct (lg_objects s !! a); [|done]. injection Hr as _ <-. intros b v Hb. cbn in Hb. apply lookup_delete_Some in Hb as [_ Hb]. by apply Hs.
Qed.
Lemma keeps_object o : becomes o → keeps (flb_mp_object_to_cfl o).
Proof.
  intros Ho s r s' Hr Hs. unfold flb_mp_object_to_cfl in Hr. destruct (is_container o); cbn [negb] in Hr; [|by injection Hr as _ <-].
  unfold mbind, M_bind in Hr. destruct (malloc_cases s) as [[(script & Hm) _]|(script & Hm & _)]; rewrite Hm in Hr; [by injection Hr as _ <-|].
  match type of Hm with _ = Some (_, ?s1) => set (s1' := s1) in * end. destruct (mp_object_to_cfl_ok (S := log_state) o) as [Hany _].
  destruct (Hany s1') as (v & script' & Hv). rewrite Hv in Hr. destruct v as [v|]; [|by injection Hr as _ <-].
  assert (Hnew : ∀ x s2, lg_objects s2 = lg_objects s → (x = Some v ∨ x = None) → ∀ a, store_holds (set_lg_objects (<[a := x]> (lg_objects s2)) s2)).
  { intros x s2 Ho2 Hx a b w. cbn. rewrite Ho2. intros [[<- ->]|[_ Hb]]%lookup_insert_Some; [|by apply Hs].
    right. destruct Hx as [[= ->]|?]; [exact (Ho _ _ _ Hv)|done]. }
  unfold syscall in Hr. destruct (e_sys _) as [|ok rest]; injection Hr as _ <-; (apply (Hnew _ (set_lg_heap _ s)); [done|]); [by left|destruct ok; by auto].
Qed.

Lemma keeps_free {A} b (x : A) : keeps (on_heap (free_block b) ≫= λ _, mret x).
Proof. apply keeps_bind; [apply keeps_on_heap|intros; apply keeps_ret]. Qed.
Lemma keeps_record_objects record event : event_holds becomes event → keeps (record_objects record event).
Proof.
  intros (Hmd & Hbody & _). unfold record_objects. apply keeps_deref. intros md Hm. rewrite Hm in Hmd.
  apply keeps_bind; [by apply keeps_object|]. intros [m|]; [|apply keeps_free]. apply keeps_deref. intros body Hb. rewrite Hb in Hbody.
  apply keeps_bind; [by apply keeps_object|]. intros [b|]; [apply keeps_ret|]. apply (keeps_bind (destroy_opt (Some m))); [apply keeps_destroy|].
  intros _. apply keeps_free.
Qed.

Lemma keeps_destroy_when (b : bool) o : keeps (when b (destroy_opt o)).
Proof. destruct b; [apply keeps_destroy|apply (keeps_ret tt)]. Qed.
Ltac solve_keeps :=
  repeat first
    [ apply keeps_ret | apply keeps_on_heap | apply keeps_destroy | apply keeps_destroy_when | apply keeps_bind; [|intros ?] ].

Lemma keeps_group_metadata record c : optional becomes (ev_group_metadata (mr_event record)) → keeps (own_group_metadata record c).
Proof.
  intros Ho. unfold own_group_metadata. destruct (mr_cobj_group_metadata record); [apply keeps_ret|].
  destruct (ev_group_metadata _) as [o|]; [|apply keeps_ret]. destruct (is_container o); [|apply keeps_ret].
  apply keeps_bind; [by apply keeps_object|]. intros [g|]; [apply keeps_ret|]. solve_keeps.
Qed.
Lemma keeps_group_attributes record c : optional becomes (ev_group_attributes (mr_event record)) → keeps (own_group_attributes record c).
Proof.
  intros Ho. unfold own_group_attributes. destruct (mr_cobj_group_attributes record); [apply keeps_ret|].
  destruct (ev_group_attributes _) as [o|]; [|apply keeps_ret]. destruct (is_container o); [|apply keeps_ret].
  apply keeps_bind; [by apply keeps_object|]. intros [g|]; [apply keeps_ret|]. solve_keeps.
Qed.

(** What is known of the results *)
Definition returns {A} (m : M log_state A) (R : A → Prop) : Prop := ∀ s a s', m s = Some (a, s') → R a.
Lemma returns_ret {A} (a : A) (R : A → Prop) : R a → returns (mret a) R.
Proof. by intros Ha s b s' [= <- _]. Qed.
Lemma returns_bind {A B} (m : M log_state A) (f : A → M log_state B) R : (∀ a, returns (f a) R) → returns (m ≫= f) R.
Proof. intros Hf s b s' Hr. unfold mbind, M_bind in Hr. destruct (m s) as [[a s1]|]; [|done]. by eapply Hf. Qed.
Lemma keeps_then {A B} (m : M log_state A) (f : A → M log_state B) (R : A → Prop) : keeps m → returns m R →
  (∀ a, R a → keeps (f a)) → keeps (m ≫= f).
Proof.
  intros Hm Hr Hf s b s' Hrun Hs. unfold mbind, M_bind in Hrun. destruct (m s) as [[a s1]|] eqn:Hms; [|done].
  eapply Hf; [by eapply Hr|done|by eapply Hm].
Qed.

Definition about (event : flb_log_event) (r : option flb_mp_chunk_record) : Prop := ∀ r', r = Some r' → mr_event r' = event.
Lemma about_objects record event : returns (record_objects record event) (about event).
Proof.
  unfold record_objects. apply returns_bind. intros md. apply returns_bind. intros [m|]; [|apply returns_bind; intros; by apply returns_ret].
  apply returns_bind. intros body. apply returns_bind. intros [b|]; [apply returns_ret; by intros r' [= <-]|].
  apply returns_bind. intros _. apply returns_bind. intros. by apply returns_ret.
Qed.
Lemma about_group_metadata record c : returns (own_group_metadata record c) (λ r : option flb_mp_chunk_record * flb_mp_chunk_cobj, about (mr_event record) r.1).
Proof.
  unfold own_group_metadata. assert (Hsame : ∀ c', returns (mret (M := M log_state) (Some record, c')) (λ r : option flb_mp_chunk_record * flb_mp_chunk_cobj, about (mr_event record) r.1)).
  { intros c'. apply returns_ret. by intros r' [= <-]. }
  destruct (mr_cobj_group_metadata record); [done|]. destruct (ev_group_metadata _) as [o|]; [|done]. destruct (is_container o); [|done].
  apply returns_bind. intros [g|]; [apply returns_ret; by intros r' [= <-]|]. do 4 (apply returns_bind; intros ?). by apply returns_ret.
Qed.

Lemma keeps_decode c : source_holds msgpack_unpack_next becomes (cc_log_decoder c) → keeps (decode_record c).
Proof.
  intros Hsrc. unfold decode_record. apply keeps_bind; [unfold flb_mp_chunk_record_create; solve_keeps|]. intros [record|]; [|apply keeps_ret].
  apply keeps_deref. intros [[ret event] dec] Hn.
  destruct (Z.eqb_spec ret FLB_EVENT_DECODER_SUCCESS) as [->|_]; cbn [negb]; [|apply keeps_free].
  destruct (next_holds _ _ _ _ _ _ _ Hsrc Hn) as [Hev _].
  eapply keeps_then; [by apply keeps_record_objects|apply about_objects|]. intros [r1|] H1; [|apply keeps_ret]. specialize (H1 r1 eq_refl).
  destruct (flb_log_event_decoder_get_record_type event) as [rt|]; [|solve_keeps].
  destruct (record_group rt r1 _) as [r2 c2] eqn:Hrg. assert (H2 : mr_event r2 = event).
  { rewrite <- H1. unfold record_group in Hrg. destruct (rt =? FLB_LOG_EVENT_GROUP_START); injection Hrg as <- _; [|done].
    destruct (mr_cobj_metadata r1); cbn; by destruct (mr_cobj_record r1). }
  eapply keeps_then; [apply keeps_group_metadata; rewrite H2; apply Hev|apply about_group_metadata|].
  intros [[r3|] c3] H3; cbn [fst] in H3; [|apply keeps_ret]. specialize (H3 r3 eq_refl).
  apply keeps_bind; [apply keeps_group_attributes; rewrite H3, H2; apply Hev|]. intros [[r4|] c4]; apply keeps_ret.
Qed.
End store.

(** ** Iteration *)

(** A chunk that can be iterated *)
Record chunk_ok (c : flb_mp_chunk_cobj) : Prop := {
  ck_pos : match cc_record_pos c with Some b => b ∈ mr_block <$> cc_records c | None => True end;
  ck_blocks : NoDup (mr_block <$> cc_records c);
  ck_condition : match cc_condition c with Some cd => Forall (λ r, rule_typed r = true) (cd_rules cd) | None => True end
}.
Definition readable (c : flb_mp_chunk_cobj) : Prop :=
  dc_length (cc_log_decoder c) < 2 ^ 64 ∧ ∃ objs r, decodable msgpack_unpack_next (cc_log_decoder c) objs r.

(** What is left: bytes, and records after the position *)
Definition ahead (c : flb_mp_chunk_cobj) : nat :=
  match cc_record_pos c with
  | None => length (cc_records c)
  | Some b => match position b (cc_records c) with Some i => length (cc_records c) - S i | None => 0 end
  end.
Definition left_over (c : flb_mp_chunk_cobj) : nat :=
  2 * Z.to_nat (dc_length (cc_log_decoder c) - dc_offset (cc_log_decoder c)) + ahead c.

Lemma position_lookup rs i r : NoDup (mr_block <$> rs) → rs !! i = Some r → position (mr_block r) rs = Some i.
Proof.
  revert i. induction rs as [|r0 rs IH]; intros i Hnd Hi; [done|]. apply NoDup_cons in Hnd as [Hn Hnd]. cbn.
  destruct i as [|i]; cbn in Hi; [injection Hi as ->; by rewrite Nat.eqb_refl|].
  rewrite (proj2 (Nat.eqb_neq _ _)); [by rewrite (IH i)|]. intros Heq. apply Hn. rewrite Heq.
  apply list_elem_of_fmap. exists r. split; [done|]. by apply list_elem_of_lookup_2 in Hi.
Qed.

Lemma position_elem rs b : b ∈ mr_block <$> rs → ∃ i r, position b rs = Some i ∧ rs !! i = Some r ∧ mr_block r = b.
Proof.
  induction rs as [|r rs IH]; cbn; [by intros ?%elem_of_nil|]. destruct (Nat.eqb_spec (mr_block r) b) as [He|Hne]; [by exists 0%nat, r|].
  intros [?|Hb]%elem_of_cons; [done|]. destruct (IH Hb) as (i & r' & -> & ? & ?). by exists (S i), r'.
Qed.

Lemma ahead_at c i r : NoDup (mr_block <$> cc_records c) → cc_records c !! i = Some r →
  ahead (set_cc_record_pos (Some (mr_block r)) c) = (length (cc_records c) - S i)%nat.
Proof. intros Hnd Hi. unfold ahead. cbn. by rewrite (position_lookup _ i). Qed.

Lemma stored_ok c : chunk_ok c → ∃ r c', stored_record c = Some (r, c') ∧
  match r with
  | None => c' = c ∨ c' = set_cc_record_pos None c
  | Some r => c' = c ∧ ∃ i, cc_records c !! i = Some r ∧ (length (cc_records c) - S i < ahead c)%nat
  end.
Proof.
  intros [Hp Hnd _]. unfold stored_record, ahead. destruct (cc_record_pos c) as [b|].
  - destruct (position_elem _ _ Hp) as (i & r & -> & Hi & _). cbn [mbind option_bind]. apply lookup_lt_Some in Hi.
    destruct (Nat.eqb_spec (S i) (length (cc_records c))) as [He|Hne]; [eexists _, _; split; [done|by right]|].
    destruct (lookup_lt_is_Some_2 (cc_records c) (S i)) as [r' Hr']; [lia|]. rewrite Hr'. eexists _, _. split; [done|].
    split; [done|]. exists (S i). split; [done|lia].
  - eexists _, _. split; [done|]. destruct (cc_records c) as [|r rs] eqn:Hrs; cbn; [by left|]. split; [done|]. exists 0%nat. split; [done|lia].
Qed.
Lemma holds_heap_step base B O s s' : heap_step s s' → holds base B O s → holds base B O s'.
Proof.
  intros [Ho Hl Hn _] [Hlive Hb (m & Hm) Hf]. unfold next_le in Hn. split.
  - by rewrite Hl.
  - intros a Ha%Hb. lia.
  - exists m. by rewrite Ho.
  - intros a. rewrite Ho. intros Ha%Hf. lia.
Qed.

Lemma parts_owned c r a : r ∈ cc_records c → mr_cobj_metadata r = Some a ∨ mr_cobj_record r = Some a → a ∈ chunk_owned c.
Proof.
  intros Hr Ha. unfold chunk_owned. apply list_elem_of_bind. exists r. split; [|done]. unfold record_owned.
  rewrite !elem_of_app. destruct Ha as [-> | ->]; cbn; [left|right; left]; by apply list_elem_of_singleton.
Qed.

(** Iterating with a condition whose accessors can read all objects, which come from [P] *)
Section iteration.
Variable P : cfl_variant → Prop.
Definition condition_reads (cd : option flb_condition) : Prop :=
  match cd with
  | Some cd => ∀ v, P v → Forall (λ r : @flb_condition_rule regex, cfl_ra_readable (cr_ra r).2 v = true) (cd_rules cd)
  | None => True
  end.

Record reads (base : gmap nat (option cfl_variant)) (c : flb_mp_chunk_cobj) (s : log_state) : Prop := {
  rd_store : store_holds P base s;
  rd_condition : condition_reads (cc_condition c);
  rd_source : source_holds msgpack_unpack_next (becomes P) (cc_log_decoder c)
}.
Lemma reads_step base c c' s s' : lg_objects s' = lg_objects s → cc_condition c' = cc_condition c → cc_log_decoder c' = cc_log_decoder c →
  reads base c s → reads base c' s'.
Proof. intros Ho Hc Hd [Hs ? ?]. constructor; rewrite ?Hc, ?Hd; [|done..]. unfold store_holds. by rewrite Ho. Qed.

Lemma owned_reads base B O s a v : holds base B O s → store_holds P base s → a ∈ O → lg_objects s !! a = Some (Some v) → P v.
Proof.
  intros [_ _ (m & Hs & Hd & Hm) _] Hst Ha Hv. destruct (Hst a v Hv) as [Hb|?]; [exfalso|done].
  rewrite <- Hm in Ha. apply list_elem_of_fmap in Ha as ([a' v'] & -> & Hin). apply elem_of_map_to_list in Hin.
  by eapply map_disjoint_spec.
Qed.

Lemma evaluate_ok base B O c r s (Q : bool → log_state → Prop) :
  holds base B (chunk_owned c ++ O) s → reads base c s → chunk_ok c → r ∈ cc_records c →
  (∀ b s', heap_step s s' → Q b s') →
  runs (flb_condition_evaluate regex_match (cc_condition c) (Some r)) s Q.
Proof.
  intros Hh [Hst Hreads _] [_ _ Hcd] Hr HQ. unfold flb_condition_evaluate. destruct (cc_condition c) as [cd|].
  2: { apply runs_ret, HQ. constructor; [done|done|unfold next_le; lia|done]. }
  assert (Hlive : ∀ o, mr_cobj_metadata r = o ∨ mr_cobj_record r = o → live_object (lg_objects s) o).
  { intros [a|] Ha; [|done]. eapply holds_live; [exact Hh|]. apply elem_of_app. left. by eapply parts_owned. }
  assert (Hpart : ∀ o v, mr_cobj_metadata r = o ∨ mr_cobj_record r = o → part_of (lg_objects s) o = Some v → P v).
  { intros [a|] v Ha Hv; [|done]. cbn in Hv. destruct (lg_objects s !! a) as [w|] eqn:Hw; [|done]. cbn in Hv. subst w.
    eapply owned_reads; [exact Hh|done| |done]. apply elem_of_app. left. by eapply parts_owned. }
  eapply runs_weaken; [eapply (evaluate_record_ok _ (default_get_record_variant r) (default_part (lg_objects s) r) cd (cd_op cd))|].
  - intros. apply default_get_ok; auto.
  - by constructor.
  - unfold rules_readable. apply forallb_forall. intros rule [rule' [<- Hin%list_elem_of_In]]%in_map_iff.
    destruct (default_part _ _ _) as [v|] eqn:Hv; [|done]. cbn. assert (HP : P v).
    { unfold default_part in Hv. destruct (sr_context _); try done; eapply Hpart; [|exact Hv| |exact Hv]; auto. }
    specialize (Hreads v HP). rewrite Forall_forall in Hreads. by apply Hreads.
  - intros b s' [Hs _]. by apply HQ.
Qed.

(** What a call leaves: ownership, a chunk that can be iterated, and less to read after a record *)
Definition next_post (base : gmap nat (option cfl_variant)) (X O : list nat) (c : flb_mp_chunk_cobj)
    (res : Z * option flb_mp_chunk_record * flb_mp_chunk_cobj) (s' : log_state) : Prop :=
  let '(ret, record, c') := res in
  holds base (chunk_blocks c' ++ X) (chunk_owned c' ++ O) s' ∧ chunk_ok c' ∧
  (ret = FLB_MP_CHUNK_RECORD_ERROR ∨
   readable c' ∧ reads base c' s' ∧ (ret = FLB_MP_CHUNK_RECORD_EOF ∨ ret = FLB_MP_CHUNK_RECORD_OK ∧ (left_over c' < left_over c)%nat ∧
     ∃ r, record = Some r ∧ r ∈ cc_records c')).

Lemma next_post_step base X O c c1 res s' : (left_over c1 <= left_over c)%nat → next_post base X O c1 res s' → next_post base X O c res s'.
Proof.
  destruct res as [[ret record] c']. intros Hle (? & ? & Hres). split_and!; [done|done|].
  destruct Hres as [?|(? & ? & [?|(? & ? & ?)])]; [by left|right; split_and!; [done|done|by left]|right; split_and!; [done|done|right]]. split_and!; [done|lia|done].
Qed.

Lemma chunk_ok_pos c r : chunk_ok c → r ∈ cc_records c → chunk_ok (set_cc_record_pos (Some (mr_block r)) c).
Proof. intros [_ ? ?] Hr. constructor; [|done|done]. cbn. apply list_elem_of_fmap. eauto. Qed.

(** The record [r] of the chunk is the next one, when the condition says so. *)
Lemma try_record_ok base X O c c1 r fuel s :
  holds base (chunk_blocks c1 ++ X) (chunk_owned c1 ++ O) s → reads base c1 s → chunk_ok c1 → readable c1 → r ∈ cc_records c1 →
  (left_over (set_cc_record_pos (Some (mr_block r)) c1) < left_over c)%nat → ∀ cskip,
  (∀ s', holds base (chunk_blocks c1 ++ X) (chunk_owned c1 ++ O) s' → reads base c1 s' → runs (record_next fuel cskip) s' (next_post base X O c)) →
  runs (ok ← flb_condition_evaluate regex_match (cc_condition c1) (Some r);
        if negb (ok : bool) then record_next fuel cskip
        else mret (FLB_MP_CHUNK_RECORD_OK, Some r, set_cc_record_pos (Some (mr_block r)) c1)) s (next_post base X O c).
Proof.
  intros Hh Hrd Hok Hread Hr Hlt cskip Hskip. apply runs_bind. eapply evaluate_ok; [exact Hh|done|done|done|]. intros b s1 Hs1.
  eapply holds_heap_step in Hh; [|exact Hs1]. assert (Hrd1 : ∀ c2, cc_condition c2 = cc_condition c1 → cc_log_decoder c2 = cc_log_decoder c1 →
    reads base c2 s1) by (intros; by eapply reads_step; [apply Hs1|..]).
  destruct b; cbn [negb]; [|by apply Hskip; [|apply Hrd1]].
  apply runs_ret. split_and!; [done|by apply chunk_ok_pos|]. right. split_and!; [done|by apply Hrd1|]. right. split_and!; [done|done|by exists r].
Qed.
Lemma readable_pos c pos : readable c → readable (set_cc_record_pos pos c).
Proof. done. Qed.

Lemma chunk_grows_blocks c rs c' : chunk_grows c rs c' → chunk_blocks c' = chunk_blocks c ++ (mr_block <$> rs).
Proof. intros (Hb & Hr & _). unfold chunk_blocks. by rewrite Hb, Hr, fmap_app. Qed.

Lemma chunk_ok_grows c rs c' : chunk_grows c rs c' → NoDup (mr_block <$> cc_records c ++ rs) → chunk_ok c → chunk_ok c'.
Proof.
  intros (_ & Hr & Hp & Hc) Hnd [Hpos _ Hcd]. constructor; [rewrite Hp, Hr|by rewrite Hr|by rewrite Hc].
  destruct (cc_record_pos c); [|done]. rewrite fmap_app. apply elem_of_app. by left.
Qed.

(** Decoding takes bytes and adds a record. *)
Lemma left_over_grows c r c' : chunk_grows c [r] c' → chunk_ok c → NoDup (mr_block <$> cc_records c ++ [r]) →
  dc_length (cc_log_decoder c') = dc_length (cc_log_decoder c) →
  0 <= dc_offset (cc_log_decoder c) < dc_offset (cc_log_decoder c') → dc_offset (cc_log_decoder c') <= dc_length (cc_log_decoder c') →
  (left_over c' < left_over c)%nat ∧ (left_over (set_cc_record_pos (Some (mr_block r)) c') < left_over c)%nat.
Proof.
  intros (_ & Hr & Hp & _) [Hpos Hnd0 _] Hnd Hl Ho Hle. unfold left_over. cbn [cc_log_decoder set_cc_record_pos].
  rewrite (ahead_at c' (length (cc_records c)) r); [|by rewrite Hr|rewrite Hr; by rewrite list_lookup_middle].
  assert (Ha : (ahead c' <= S (ahead c))%nat).
  { unfold ahead. rewrite Hp, Hr, length_app. cbn. destruct (cc_record_pos c) as [b|]; [|lia].
    destruct (position_elem _ _ Hpos) as (i & r' & Hi & Hlk & <-). rewrite Hi. rewrite (position_lookup _ i r' Hnd); [lia|].
    by apply lookup_app_l_Some. }
  rewrite Hr, length_app. cbn. lia.
Qed.

Lemma record_next_ok base X O fuel : unpacker_ok msgpack_unpack_next → ∀ c s,
  holds base (chunk_blocks c ++ X) (chunk_owned c ++ O) s → reads base c s → chunk_ok c → readable c → (left_over c < fuel)%nat →
  runs (record_next fuel c) s (next_post base X O c).
Proof.
  intros Hup. induction fuel as [|fuel IH]; intros c s Hh Hrd Hok Hread Hf; [lia|]. cbn [record_next].
  destruct Hread as (H64 & objs & r & Hdec). pose proof (da_offset _ _ _ _ Hdec) as Hoff.
  assert (Hbytes : u64 (dc_length (cc_log_decoder c) - dc_offset (cc_log_decoder c)) = dc_length (cc_log_decoder c) - dc_offset (cc_log_decoder c))
    by (apply Z.mod_small; lia).
  rewrite Hbytes. destruct (Z.ltb_spec 0 (dc_length (cc_log_decoder c) - dc_offset (cc_log_decoder c))) as [Hpos|Hpos].
  - apply runs_bind. destruct (next_decodable _ _ _ _ Hup Hdec) as (ret & e & d' & Hnext & _ & Hsucc).
    apply (runs_keeps P base); [apply keeps_decode, Hrd|apply Hrd|].
    apply (decode_record_ok base X O c s ret e d'); [done|done| |].
    + intros c' s' Hh' Hg _ _ _. apply runs_ret. pose proof (chunk_ok_grows _ _ _ Hg ltac:(rewrite app_nil_r; apply Hok) Hok) as Hok'.
      destruct Hg as (Hb & Hr & _). rewrite app_nil_r in Hr. unfold chunk_blocks, chunk_owned in *. rewrite <- Hb, <- Hr in Hh'.
      split_and!; [done|done|by left].
    + intros rec c' s' Hret Hh' Hg Hd' _ Hnew _ Hst'. destruct (Hsucc Hret) as (_ & Hl & Ho & objs' & Hdec').
      assert (Hnd : NoDup (mr_block <$> cc_records c ++ [rec])).
      { rewrite fmap_app. apply NoDup_app. split_and!; [apply Hok| |apply NoDup_singleton].
        intros b Hb Hb'%list_elem_of_singleton. subst b. apply Hnew. right. done. }
      pose proof (da_offset _ _ _ _ Hdec') as Hoff'. rewrite <- Hd' in Hl, Ho, Hoff', Hdec'.
      pose proof (chunk_ok_grows _ _ _ Hg Hnd Hok) as Hok'.
      destruct (left_over_grows _ _ _ Hg Hok Hnd Hl) as [Hlt1 Hlt2]; [lia|lia|].
      assert (Hread' : readable c') by (split; [lia|by exists objs', r]).
      assert (Hrd' : reads base c' s').
      { constructor; [done|destruct Hg as (_ & _ & _ & ->); apply Hrd|]. rewrite Hd'. subst ret.
        by destruct (next_holds _ _ _ _ _ _ _ (rd_source _ _ _ Hrd) Hnext). }
      eapply try_record_ok; [done|done|done|done| |done|].
      * destruct Hg as (_ & -> & _). apply elem_of_app. right. by apply list_elem_of_singleton.
      * intros s2 Hh2 Hrd2. eapply runs_weaken; [apply IH; [done|done|done|done|lia]|]. intros res s3. apply next_post_step. lia.
  - destruct (stored_ok c Hok) as (rec & c' & Hst & Hrec). apply runs_bind. eapply runs_deref; [exact Hst|]. cbv beta iota.
    destruct rec as [rec|].
    + destruct Hrec as (-> & i & Hi & Hlt). assert (Hin : rec ∈ cc_records c) by (by apply list_elem_of_lookup_2 in Hi).
      assert (Hlt' : (left_over (set_cc_record_pos (Some (mr_block rec)) c) < left_over c)%nat).
      { unfold left_over. rewrite (ahead_at _ i) by (done || apply Hok). cbn. lia. }
      assert (Hr : readable c) by (split; [done|by exists objs, r]).
      eapply try_record_ok; [done|done|done|done|done|done|]. intros s2 Hh2 Hrd2.
      eapply runs_weaken; [apply IH; [done|by apply (reads_step _ c _ s2)|by apply chunk_ok_pos|done|lia]|]. intros res s3. apply next_post_step. lia.
    + apply runs_ret. destruct Hrec as [-> | ->]; (split_and!; [done| |right; split_and!; [split; [done|by exists objs, r]|by apply (reads_step _ c _ s)|by left]]); [done|].
      destruct Hok as [_ ? ?]. by constructor.
Qed.
(** ** Reading everything *)

Lemma left_over_bound c : readable c → (left_over c <= 2 * length (dc_buffer (cc_log_decoder c)) + length (cc_records c))%nat.
Proof.
  intros (_ & objs & r & [_ _ Ho Hl _]). unfold left_over, ahead. unfold zlen in Hl.
  destruct (cc_record_pos c) as [b|]; [destruct (position b (cc_records c))|]; lia.
Qed.

Lemma read_records_ok base X O n : unpacker_ok msgpack_unpack_next → ∀ c s,
  holds base (chunk_blocks c ++ X) (chunk_owned c ++ O) s → reads base c s → chunk_ok c → readable c → (left_over c < n)%nat →
  runs (read_records n c) s (λ '(ret, c') s', holds base (chunk_blocks c' ++ X) (chunk_owned c' ++ O) s' ∧ chunk_ok c' ∧
    ret ≠ FLB_MP_CHUNK_RECORD_OK).
Proof.
  intros Hup. induction n as [|n IH]; intros c s Hh Hrd Hok Hread Hn; [lia|]. cbn [read_records]. apply runs_bind.
  eapply runs_weaken; [apply record_next_ok; [done|exact Hh|done|done|done|]|].
  { pose proof (left_over_bound c Hread). lia. }
  intros [[ret rec] c'] s' (Hh' & Hok' & Hres). destruct Hres as [->|(Hread' & Hrd' & [->|(-> & Hlt & _)])]; cbn.
  - by apply runs_ret.
  - by apply runs_ret.
  - apply IH; [done..|lia].
Qed.

End iteration.

(** A state whose addresses were handed out *)
Definition state_ok (s : log_state) : Prop :=
  (∀ a, a ∈ hp_live (lg_heap s) → (a < e_next (hp_env (lg_heap s)))%nat) ∧
  (∀ a, is_Some (lg_objects s !! a) → (a < e_next (hp_env (lg_heap s)))%nat).

Lemma holds_start s : state_ok s → holds (lg_objects s) (hp_live (lg_heap s)) [] s.
Proof. intros [? ?]. split; [done|done| |done]. exists ∅. split_and!; [by rewrite map_empty_union|apply map_disjoint_empty_l|by rewrite map_to_list_empty]. Qed.

Lemma holds_end base X s : holds base X [] s → lg_objects s = base ∧ hp_live (lg_heap s) ≡ₚ X ∧ state_ok s.
Proof.
  intros [Hl Hb (m & Hs & _ & Hm) Hf].
  assert (m = ∅) as ->.
  { apply map_to_list_empty_iff. apply Permutation_nil_r in Hm. by apply fmap_nil_inv in Hm. }
  rewrite map_empty_union in Hs. split_and!; [done|done|split; [|done]]. intros a. rewrite Hl. apply Hb.
Qed.

(** A client: it makes a chunk with a condition, reads it and destroys it. *)
Definition lifecycle (d : flb_log_event_decoder) (condition : option flb_condition) : M log_state (option Z) :=
  c ← flb_mp_chunk_cobj_create d;
  match c with
  | None => mret None
  | Some c =>
      '(ret, c) ← read_all (set_cc_condition condition c);
      flb_mp_chunk_cobj_destroy (Some c) ≫= λ _, mret (Some ret)
  end.

(** The rules of a condition can read whatever the metadata and the bodies of the events can become, also when memory
    runs out while they are converted. *)
Definition parts_readable (condition : option flb_condition) (objs : list msgpack_object) : Prop :=
  ∀ cd o e part v (s s' : log_state) rule, condition = Some cd → o ∈ objs → event_of o = Some (inr e) →
  ev_metadata e = Some part ∨ ev_body e = Some part → mp_object_to_cfl part s = Some (Some v, s') →
  rule ∈ cd_rules cd → cfl_ra_readable (@cr_ra regex rule).2 v = true.
Definition readable_for (condition : option flb_condition) (v : cfl_variant) : Prop :=
  match condition with
  | Some cd => Forall (λ r : @flb_condition_rule regex, cfl_ra_readable (cr_ra r).2 v = true) (cd_rules cd)
  | None => True
  end.
Lemma reads_start condition d buffer objs r a base s : decodable msgpack_unpack_next (flb_log_event_decoder_reset d buffer) objs r →
  parts_readable condition objs → lg_objects s = base →
  reads (readable_for condition) base (set_cc_condition condition (mk_cobj a (flb_log_event_decoder_reset d buffer) None [] None None None)) s.
Proof.
  intros Hdec Hparts Ho. constructor.
  - intros b v. rewrite Ho. by left.
  - unfold condition_reads, readable_for. cbn. by destruct condition.
  - split; [done|]. exists objs, r. split; [apply Hdec|]. apply Forall_forall. intros o Hin e He.
    assert (Hpart : ∀ p, ev_metadata e = p ∨ ev_body e = p → optional (becomes (readable_for condition)) p).
    { intros [p|] Hp; [|done]. intros v s1 s2 Hv. unfold readable_for. destruct condition as [cd|]; [|done]. apply Forall_forall. intros rule Hrule.
      by eapply (Hparts cd). }
    split; apply Hpart; auto.
Qed.

(** C22. Iterating a chunk is safe: for any bytes whose objects have timestamps that are defined - no float out of
    range - and any condition whose rules can read the metadata and the bodies, whatever fails, the records of the
    chunk are read to an end, and destroying it then frees every record and every object exactly once and no other
    block, also when metadata and attributes of a group are shared.  An object is one block here, with what CFL keeps
    inside of it; what a conversion that fails for want of memory loses of it is not modelled. *)
Theorem chunk_lifecycle d buffer condition objs r s :
  unpacker_ok msgpack_unpack_next → state_ok s → zlen buffer < 2 ^ 64 →
  decodable msgpack_unpack_next (flb_log_event_decoder_reset d buffer) objs r →
  match condition with Some cd => Forall (λ r, rule_typed r = true) (cd_rules cd) | None => True end → parts_readable condition objs →
  ∃ ret s', lifecycle (flb_log_event_decoder_reset d buffer) condition s = Some (ret, s') ∧
    lg_objects s' = lg_objects s ∧ hp_live (lg_heap s') ≡ₚ hp_live (lg_heap s) ∧ ret ≠ Some FLB_MP_CHUNK_RECORD_OK.
Proof.
  intros Hup Hst H64 Hdec Hcd Hparts.
  cut (runs (lifecycle (flb_log_event_decoder_reset d buffer) condition) s (λ ret s', lg_objects s' = lg_objects s ∧
    hp_live (lg_heap s') ≡ₚ hp_live (lg_heap s) ∧ ret ≠ Some FLB_MP_CHUNK_RECORD_OK)).
  { intros (ret & s' & ? & ?). eauto. }
  unfold lifecycle, flb_mp_chunk_cobj_create. apply runs_bind, runs_bind, (alloc_ok _ _ _ _ _ (holds_start s Hst)).
  - intros s1 (? & ? & _)%holds_end _ _. by apply runs_ret, runs_ret.
  - intros a s1 Hh1 Ho1 _ _. apply runs_ret. cbn [fmap option_fmap option_map]. apply runs_bind.
    eapply runs_weaken; [apply (read_records_ok (readable_for condition) (lg_objects s) (hp_live (lg_heap s)) [])|].
    + done.
    + exact Hh1.
    + by eapply reads_start.
    + constructor; [done|apply NoDup_nil_2|done].
    + split; [done|by exists objs, r].
    + cbn. pose proof (left_over_bound (set_cc_condition condition (mk_cobj a (flb_log_event_decoder_reset d buffer) None [] None None None))
        ltac:(split; [done|by exists objs, r])) as Hb. cbn in Hb. lia.
    + intros [ret c] s2 (Hh2 & _ & Hret). apply runs_bind. eapply cobj_destroy_ok; [exact Hh2|].
      intros s3 (? & ? & _)%holds_end. apply runs_ret. split_and!; [done|done|congruence].
Qed.
(** ** Reading without failures *)

(** An object that is an event of the type [t], and that can be converted *)
Record good_object (o : msgpack_object) (t : Z) (e : flb_log_event) : Prop := {
  go_event : event_of o = Some (inr e);
  go_type : flb_log_event_decoder_get_record_type e = Some t;
  go_metadata : convertible_part (ev_metadata e) = true;
  go_body : convertible_part (ev_body e) = true
}.

(** The records of events: parts, time and the group they are in, given the group [active] before *)
Fixpoint records_of (objects : gmap nat (option cfl_variant)) (active : option nat * option nat)
    (es : list (Z * flb_log_event)) (rs : list flb_mp_chunk_record) : Prop :=
  match es, rs with
  | [], [] => True
  | (t, e) :: es', r :: rs' =>
      let own := (mr_cobj_metadata r, mr_cobj_record r) in
      part_at objects (mr_cobj_metadata r) (ev_metadata e) ∧ part_at objects (mr_cobj_record r) (ev_body e) ∧
      ev_timestamp (mr_event r) = ev_timestamp e ∧
      (mr_cobj_group_metadata r, mr_cobj_group_attributes r) = (if t =? FLB_LOG_EVENT_GROUP_START then own else active) ∧
      records_of objects (if t =? FLB_LOG_EVENT_GROUP_START then own
                          else if t =? FLB_LOG_EVENT_GROUP_END then (None, None) else active) es' rs'
  | _, _ => False
  end.

Lemma records_of_length objects active es rs : records_of objects active es rs → length es = length rs.
Proof.
  revert active rs. induction es as [|[t e] es IH]; intros active [|r rs]; cbn; try done. intros (_ & _ & _ & _ & Hr). f_equal. eauto.
Qed.

Definition decoder_at (b : list Z) (off : Z) (d : flb_log_event_decoder) : Prop :=
  dc_buffer d = b ∧ dc_offset d = off ∧ dc_length d = zlen b ∧ dc_read_groups d = true ∧ dc_recursion_depth d = 0.

(** The decoder is in a group only when the chunk is. *)
Definition same_group (c : flb_mp_chunk_cobj) : Prop :=
  (cc_active_group_metadata c = None → dc_current_group_metadata (cc_log_decoder c) = None) ∧
  (cc_active_group_attributes c = None → dc_current_group_attributes (cc_log_decoder c) = None).

Definition active (c : flb_mp_chunk_cobj) : option nat * option nat := (cc_active_group_metadata c, cc_active_group_attributes c).

Lemma good_event_group o t e : good_object o t e → ev_group_metadata e = None ∧ ev_group_attributes e = None.
Proof.
  intros [Hev _ _ _]. unfold event_of in Hev. destruct o as [| | | | | | | | |root|]; try done. destruct root as [|header [|body [|]]]; try done.
  destruct (decode_header header) as [|[[ts md] format]]; [done|]. case_match; [done|]. case_match; [done|]. case_match; [done|].
  destruct (flb_log_event_decoder_decode_timestamp ts) as [[res time]|]; [|done]. cbn [mbind option_bind] in Hev.
  destruct (res =? _); [|done]. by injection Hev as <-.
Qed.

Lemma event_in_parts d t e : ev_metadata (event_in d t e) = ev_metadata e ∧ ev_body (event_in d t e) = ev_body e ∧
  ev_timestamp (event_in d t e) = ev_timestamp e ∧
  flb_log_event_decoder_get_record_type (event_in d t e) = flb_log_event_decoder_get_record_type e.
Proof. unfold event_in. by destruct (t =? FLB_LOG_EVENT_NORMAL). Qed.

Lemma event_in_sync c o t e : good_object o t e → same_group c → in_sync c (event_in (cc_log_decoder c) t e).
Proof.
  intros Hg [H1 H2]. destruct (good_event_group _ _ _ Hg) as [Hm Ha]. unfold in_sync, event_in.
  destruct (t =? FLB_LOG_EVENT_NORMAL); cbn; auto.
Qed.

Lemma grouped_ok c c' d' r block m b t e objects0 :
  (dc_current_group_metadata d', dc_current_group_attributes d') = group_after (cc_log_decoder c) t e →
  same_group c → part_at objects0 (Some m) (ev_metadata e) → part_at objects0 (Some b) (ev_body e) →
  (let '(r0, c0) := record_group t (mk_record block false (event_in (cc_log_decoder c) t e) (Some m) (Some b) None None false false)
                      (set_cc_log_decoder d' c) in
   r = r0 ∧ c' = set_cc_records (cc_records c ++ [r]) c0) →
  same_group c' ∧ ∀ es rs objects, objects0 ⊆ objects → records_of objects (active c') es rs →
    records_of objects (active c) ((t, e) :: es) (r :: rs).
Proof.
  intros Hcur [Hs1 Hs2] Hm Hb Hr. destruct (event_in_parts (cc_log_decoder c) t e) as (_ & _ & Ht & _).
  unfold record_group, group_after in *.
  assert (Hparts : ∀ objects, objects0 ⊆ objects → part_at objects (Some m) (ev_metadata e) ∧ part_at objects (Some b) (ev_body e)).
  { intros objects Hsub. split; by eapply part_at_weaken. }
  destruct (Z.eqb_spec t FLB_LOG_EVENT_GROUP_START) as [->|Hns].
  - destruct Hr as [-> ->]. cbn in Hcur. injection Hcur as Hc1 Hc2. split; [split; cbn; done|].
    intros es rs objects Hsub Hrec. cbn [records_of]. rewrite Z.eqb_refl. cbn. split_and!; try done; by apply Hparts.
  - destruct (Z.eqb_spec t FLB_LOG_EVENT_GROUP_END) as [->|Hne].
    + destruct Hr as [-> ->]. cbn in Hcur. injection Hcur as Hc1 Hc2. split; [split; cbn; congruence|].
      intros es rs objects Hsub Hrec. cbn. split_and!; try done; by apply Hparts.
    + destruct Hr as [-> ->].
      assert (Hcur' : dc_current_group_metadata d' = (if t =? FLB_LOG_EVENT_NORMAL then dc_current_group_metadata (cc_log_decoder c) else None) ∧
        dc_current_group_attributes d' = (if t =? FLB_LOG_EVENT_NORMAL then dc_current_group_attributes (cc_log_decoder c) else None)).
      { destruct (t =? FLB_LOG_EVENT_NORMAL); injection Hcur as Hc1 Hc2; done. }
      destruct Hcur' as [Hc1 Hc2]. split.
      { split; cbn; [rewrite Hc1|rewrite Hc2]; destruct (t =? FLB_LOG_EVENT_NORMAL); auto. }
      intros es rs objects Hsub Hrec. cbn [records_of]. rewrite !(proj2 (Z.eqb_neq _ _)) by done. cbn.
      split_and!; try done; by apply Hparts.
Qed.

(** One record *)
Lemma next_exact base X O c s b off off' o t e :
  unpacker_ok msgpack_unpack_next → decoder_at b off (cc_log_decoder c) → 0 <= off → zlen b < 2 ^ 64 →
  msgpack_unpack_next b off = (MSGPACK_UNPACK_SUCCESS o, off') → good_object o t e → same_group c → cc_condition c = None →
  calm (hp_env (lg_heap s)) → holds base (chunk_blocks c ++ X) (chunk_owned c ++ O) s → NoDup (mr_block <$> cc_records c) →
  runs (flb_mp_chunk_cobj_record_next c) s (λ '(ret, _, c') s', ret = FLB_MP_CHUNK_RECORD_OK ∧ calm (hp_env (lg_heap s')) ∧
    holds base (chunk_blocks c' ++ X) (chunk_owned c' ++ O) s' ∧ lg_objects s ⊆ lg_objects s' ∧
    decoder_at b off' (cc_log_decoder c') ∧ same_group c' ∧ cc_condition c' = None ∧ cc_block c' = cc_block c ∧
    ∃ r, cc_records c' = cc_records c ++ [r] ∧ cc_record_pos c' = Some (mr_block r) ∧ NoDup (mr_block <$> cc_records c') ∧
      ∀ es rs objects, lg_objects s' ⊆ objects → records_of objects (active c') es rs → records_of objects (active c) ((t, e) :: es) (r :: rs)).
Proof.
  intros Hup (Hb & Ho & Hl & Hrg & Hd) Hoff H64 Hu Hgood Hsync Hcd Hcalm Hh Hnd. destruct Hup as [Hend Hprog]. destruct (Hprog _ _ _ _ Hu).
  unfold flb_mp_chunk_cobj_record_next. rewrite Nat.add_comm. cbn [Nat.add record_next]. rewrite Hl, Ho.
  rewrite (proj2 (Z.ltb_lt _ _)) by (unfold u64; rewrite Z.mod_small; lia).
  destruct (next_head msgpack_unpack_next (cc_log_decoder c) o off' e t) as (d' & Hnext & Hb' & Hl' & Ho' & Hrg' & Hd' & Hcur);
    [by rewrite Hb, Ho|apply Hgood|apply Hgood|done|done|lia|].
  destruct (event_in_parts (cc_log_decoder c) t e) as (Hem & Heb & Het & Hert).
  apply runs_bind, (decode_record_ok base X O c s FLB_EVENT_DECODER_SUCCESS (event_in (cc_log_decoder c) t e) d'); [done|done| |].
  { intros c' s' _ _ _ Hno. specialize (Hno Hcalm (event_in_sync _ _ _ _ Hgood Hsync)).
    destruct Hgood as [_ _ Hgm Hgb]. rewrite Hem, Heb, Hgm, Hgb in Hno. discriminate Hno. }
  intros r c' s' _ Hh' Hg Hdec Hsub Hnew Hc'. destruct (Hc' Hcalm) as [Hcalm' Hrec].
  destruct (Hrec (event_in_sync _ _ _ _ Hgood Hsync)) as (block & m & bo & rt & Hrt & Hpm & Hpb & Hrg2).
  rewrite Hert, (go_type _ _ _ Hgood) in Hrt. injection Hrt as <-.
  destruct Hg as (Hblk & Hrs & Hpos & Hcond). rewrite Hcond, Hcd. cbn [flb_condition_evaluate].
  apply runs_bind, runs_ret. cbn [negb]. apply runs_ret.
  assert (Hgroup : same_group c' ∧ ∀ es rs objects, lg_objects s' ⊆ objects → records_of objects (active c') es rs →
    records_of objects (active c) ((t, e) :: es) (r :: rs)).
  { rewrite Hem in Hpm. rewrite Heb in Hpb. by eapply grouped_ok. }
  destruct Hgroup as [Hsg Hrecs].
  split_and!; try done; [by unfold decoder_at; cbn; rewrite Hdec, Hb', Hl', Hb, Hl|by cbn; rewrite Hcond|].
  exists r. split_and!; [done|done| |done]. cbn [cc_records set_cc_record_pos]. rewrite Hrs, fmap_app. apply NoDup_app.
  split_and!; [done| |apply NoDup_singleton]. intros x Hx Hx'%list_elem_of_singleton. subst x. apply Hnew. right. done.
Qed.
(** At the end of the buffer *)
Lemma next_end c s b : zlen b < 2 ^ 64 → decoder_at b (zlen b) (cc_log_decoder c) →
  match cc_records c with [] => cc_record_pos c = None | _ => mr_block <$> last (cc_records c) = cc_record_pos c end →
  NoDup (mr_block <$> cc_records c) →
  flb_mp_chunk_cobj_record_next c s = Some (FLB_MP_CHUNK_RECORD_EOF, None, set_cc_record_pos None c, s).
Proof.
  intros H64 (_ & Ho & Hl & _) Hpos Hnd. unfold flb_mp_chunk_cobj_record_next. rewrite Nat.add_comm. cbn [Nat.add record_next].
  rewrite Hl, Ho, Z.sub_diag. cbn [u64]. change (0 <? u64 0) with false. cbv iota. unfold mbind, M_bind, deref.
  assert (Hst : stored_record c = Some (None, set_cc_record_pos None c)).
  { unfold stored_record. destruct (cc_records c) as [|r0 rs] eqn:Hrs.
    - rewrite Hpos. cbn. destruct c. cbn in *. by subst.
    - rewrite <- Hrs in *. destruct (last (cc_records c)) as [r|] eqn:Hlast; [|by rewrite last_None in Hlast; congruence].
      rewrite <- Hpos. cbn. rewrite last_lookup in Hlast. rewrite (position_lookup _ _ _ Hnd Hlast). cbn.
      rewrite Hrs. cbn. by rewrite Nat.eqb_refl. }
  by rewrite Hst.
Qed.

Lemma read_exact base X O b off objs : unpacker_ok msgpack_unpack_next → zlen b < 2 ^ 64 → all_objects msgpack_unpack_next b off objs →
  ∀ es c s n, Forall2 (λ o x, good_object o x.1 x.2) objs es → decoder_at b off (cc_log_decoder c) → 0 <= off →
  same_group c → cc_condition c = None → calm (hp_env (lg_heap s)) →
  holds base (chunk_blocks c ++ X) (chunk_owned c ++ O) s → NoDup (mr_block <$> cc_records c) →
  match cc_records c with [] => cc_record_pos c = None | _ => mr_block <$> last (cc_records c) = cc_record_pos c end →
  (length objs < n)%nat →
  runs (read_records n c) s (λ '(ret, c') s', ret = FLB_MP_CHUNK_RECORD_EOF ∧ calm (hp_env (lg_heap s')) ∧
    holds base (chunk_blocks c' ++ X) (chunk_owned c' ++ O) s' ∧ cc_record_pos c' = None ∧ cc_block c' = cc_block c ∧
    NoDup (mr_block <$> cc_records c') ∧ lg_objects s ⊆ lg_objects s' ∧ decoder_at b (zlen b) (cc_log_decoder c') ∧
    ∃ rs, cc_records c' = cc_records c ++ rs ∧ records_of (lg_objects s') (active c) es rs).
Proof.
  intros Hup H64 Hall. induction Hall as [|off off' o objs Hu Hall IH]; intros es c s n Hes Hdec Hoff Hsg Hcd Hcalm Hh Hnd Hpos Hn;
    (destruct n as [|n]; [lia|]); cbn [read_records]; apply runs_bind.
  - apply Forall2_nil_inv_l in Hes as ->. eexists _, s. split; [by eapply next_end|]. cbn. apply runs_ret.
    split_and!; try done. exists []. by rewrite app_nil_r.
  - apply Forall2_cons_inv_l in Hes as ([t e] & es' & Hgood & Hes & ->).
    eapply runs_weaken; [by eapply (next_exact base X O c s b off off' o t e)|].
    intros [[ret rec] c'] s' (-> & Hcalm' & Hh' & Hsub & Hdec' & Hsg' & Hcd' & Hblk & r & Hrs & Hp & Hnd' & Hrec). cbn [Z.eqb].
    change (FLB_MP_CHUNK_RECORD_OK =? FLB_MP_CHUNK_RECORD_OK) with true. cbv iota.
    destruct Hup as [Hend Hprog]. destruct (Hprog _ _ _ _ Hu).
    eapply runs_weaken; [apply (IH es' c' s' n); try done; [lia| |cbn in Hn; lia]|].
    + rewrite Hrs, last_snoc. cbn. rewrite Hp. by destruct (cc_records c).
    + intros [ret c2] s2 (-> & ? & ? & ? & ? & ? & Hsub2 & ? & rs & Hrs2 & Hr). split_and!; try done; [congruence|by etrans|].
      exists (r :: rs). split; [by rewrite Hrs2, Hrs, <- app_assoc|]. by apply Hrec.
Qed.

Lemma all_objects_length b off objs : unpacker_ok msgpack_unpack_next → all_objects msgpack_unpack_next b off objs → 0 <= off →
  (length objs <= Z.to_nat (zlen b - off))%nat.
Proof.
  intros [_ Hp] Hall. induction Hall as [|off off' o objs Hu Hall IH]; intros Hoff; cbn; [lia|].
  destruct (Hp _ _ _ _ Hu). specialize (IH ltac:(lia)). lia.
Qed.
(** A client that makes a chunk and reads it *)
Definition make_and_read (d : flb_log_event_decoder) : M log_state (option (Z * flb_mp_chunk_cobj)) :=
  c ← flb_mp_chunk_cobj_create d;
  match c with
  | None => mret None
  | Some c => r ← read_all c; mret (Some r)
  end.

(** C23. Reading a chunk is exact: when a buffer is a sequence of events that can be converted and nothing
    fails, reading ends at its end, with one record per event, in order, that has the time, the metadata and
    the body of the event, and as its group the objects of the last start of a group, unless that group has
    ended. *)
Theorem chunk_records_exact d buffer objs es s :
  unpacker_ok msgpack_unpack_next → state_ok s → calm (hp_env (lg_heap s)) → zlen buffer < 2 ^ 64 → dc_read_groups d = true →
  all_objects msgpack_unpack_next buffer 0 objs → Forall2 (λ o x, good_object o x.1 x.2) objs es →
  ∃ c s', make_and_read (flb_log_event_decoder_reset d buffer) s = Some (Some (FLB_MP_CHUNK_RECORD_EOF, c), s') ∧
    records_of (lg_objects s') (None, None) es (cc_records c) ∧ lg_objects s ⊆ lg_objects s'.
Proof.
  intros Hup Hst Hcalm H64 Hrg Hall Hes.
  cut (runs (make_and_read (flb_log_event_decoder_reset d buffer)) s (λ r s', ∃ c, r = Some (FLB_MP_CHUNK_RECORD_EOF, c) ∧
    records_of (lg_objects s') (None, None) es (cc_records c) ∧ lg_objects s ⊆ lg_objects s')).
  { intros (r & s' & Hr & c & -> & ? & ?). eauto. }
  unfold make_and_read, flb_mp_chunk_cobj_create. apply runs_bind, runs_bind, (alloc_ok _ _ _ _ _ (holds_start s Hst)); [done|].
  intros a s1 Hh1 Ho1 _ Hc1. apply runs_ret. cbn [fmap option_fmap option_map]. apply runs_bind.
  pose proof (all_objects_length _ _ _ Hup Hall ltac:(lia)) as Hlen. unfold zlen in Hlen.
  eapply runs_weaken; [eapply (read_exact (lg_objects s) (hp_live (lg_heap s)) [] buffer 0 objs); try done; [auto|apply NoDup_nil_2|cbn; lia]|].
  intros [ret c] s2 (-> & _ & _ & _ & _ & _ & Hsub & _ & rs & Hrs & Hr). apply runs_ret. exists c. split; [done|].
  cbn in Hrs. rewrite Hrs. split; [done|]. by rewrite <- Ho1.
Qed.
End chunks.

(** ** Concrete chunks

    A group with two records, with the engine of [Conditions] and the unpacker of [LogDecoder] *)
Definition ex_buffer : list Z := [1; 0; 0; 2].
Definition ex_group_decoder : flb_log_event_decoder := (flb_log_event_decoder_read_groups ex_decoder 1).2.
Definition ex_log : log_state := mk_log ex_heap ∅.
Definition ex_events : list (Z * flb_log_event) :=
  omap (λ b, match event_of (ex_object b) with
             | Some (inr e) => (λ t, (t, e)) <$> flb_log_event_decoder_get_record_type e
             | _ => None
             end) ex_buffer.

Lemma ex_log_ok : state_ok ex_log.
Proof. split; [intros a Ha; by apply elem_of_nil in Ha|intros a [v Hv]; cbn [lg_objects ex_log] in Hv; by rewrite lookup_empty in Hv]. Qed.

Lemma ex_decodable : decodable ex_unpack (flb_log_event_decoder_reset ex_group_decoder ex_buffer) (ex_object <$> ex_buffer) (-12).
Proof.
  constructor.
  - repeat (eapply stream_cons; [reflexivity|]). eapply stream_end. reflexivity.
  - repeat constructor; by eexists.
  - by vm_compute.
  - reflexivity.
  - reflexivity.
Qed.

Lemma ex_all_objects : all_objects ex_unpack ex_buffer 0 (ex_object <$> ex_buffer).
Proof. repeat (eapply all_objects_cons; [reflexivity|]). apply all_objects_end. Qed.

(** Maps of texts, which become maps of some of these texts *)
Definition flat_object (o : msgpack_object) : bool :=
  match o with MSGPACK_OBJECT_MAP l => forallb (λ kv, match kv.2 with MSGPACK_OBJECT_STR s => length_ok s | _ => false end) l | _ => false end.
Definition flat_variant (v : cfl_variant) : bool :=
  match v with CFL_VARIANT_KVLIST l => forallb (λ kv, match kv.2 with CFL_VARIANT_STRING s => length_ok s | _ => false end) l | _ => false end.
Definition flat_event (o : msgpack_object) : bool :=
  match event_of o with
  | Some (inr e) => forallb (λ p, match p with Some p => flat_object p | None => true end) [ev_metadata e; ev_body e]
  | _ => true
  end.

Lemma flat_becomes o v (s s' : log_state) : flat_object o = true → mp_object_to_cfl o s = Some (Some v, s') → flat_variant v = true.
Proof.
  destruct o as [| | | | | | | | | |l]; try done. cbn [flat_object]. intros Hl Hr. cbn [mp_object_to_cfl] in Hr.
  match type of Hr with (syscall ≫= ?k) s = _ => change (match syscall s with Some (ok, s1) => k ok s1 | None => None end = Some (Some v, s')) in Hr end.
  destruct (syscall s) as [[[] s1]|]; [|done..]. match type of Hr with ?f l [] 0 s1 = _ => set (pairs := f) in Hr end.
  assert (Hall : ∀ l added ret s1, forallb (λ kv : msgpack_object * msgpack_object, match kv.2 with MSGPACK_OBJECT_STR s => length_ok s | _ => false end) l = true →
    forallb (λ kv : list Z * cfl_variant, match kv.2 with CFL_VARIANT_STRING s => length_ok s | _ => false end) added = true →
    pairs l added ret s1 = Some (Some v, s') → flat_variant v = true).
  { clear. induction l as [|[k x] l IH]; intros added ret s1 Hl Ha Hr; cbn in Hr.
    - destruct (ret =? -1); [done|]. injection Hr as <- _. exact Ha.
    - cbn in Hl. apply andb_true_iff in Hl as [Hx Hl]. destruct k; try done. destruct x; try done. cbn in Hr.
      unfold mbind, M_bind, cfl_create in Hr. unfold mbind, M_bind in Hr.
      destruct (syscall s1) as [[[] s2]|]; [|done..]. cbn in Hr.
      destruct (cfl_add s2) as [[r s3]|]; [|done]. eapply IH; [done| |exact Hr].
      destruct (r =? 0); [|done]. rewrite forallb_app. apply andb_true_iff. split; [done|]. cbn. by rewrite Hx. }
  eapply Hall; [exact Hl| |exact Hr]. done.
Qed.

Lemma flat_readable name v : flat_variant v = true → cfl_ra_readable (mk_accessor 128 [FLB_RA_PARSER_KEYMAP (Some (mk_ra_key name None))]) v = true.
Proof.
  intros Hv. unfold cfl_ra_readable. cbn. rewrite andb_true_r. destruct v as [| | | | | | | | |l]; try done. unfold find_field. cbn [rk_name rk_subkeys].
  unfold cfl_variant_kvpair_get. destruct (list_find _ (reverse l)) as [[i kv]|] eqn:Hf; [|done]. cbn.
  apply list_find_Some in Hf as (Hin%list_elem_of_lookup_2 & _). rewrite elem_of_reverse in Hin.
  cbn in Hv. rewrite forallb_forall in Hv. specialize (Hv kv (proj1 (list_elem_of_In _ _) Hin)). destruct kv as [k x]. cbn in *. rewrite andb_true_r. by destruct x.
Qed.

Lemma flat_parts_readable (regex : Type) (cd : @flb_condition regex) objs : forallb flat_event objs = true →
  Forall (λ r, ∃ name, (cr_ra r).2 = mk_accessor 128 [FLB_RA_PARSER_KEYMAP (Some (mk_ra_key name None))]) (cd_rules cd) →
  parts_readable (Some cd) objs.
Proof.
  intros Hflat Hrules cd' o e part v s s' rule [= <-] Ho He Hp Hv Hr. rewrite forallb_forall in Hflat.
  specialize (Hflat o (proj1 (list_elem_of_In _ _) Ho)). unfold flat_event in Hflat. rewrite He in Hflat. cbn in Hflat.
  rewrite Forall_forall in Hrules. destruct (Hrules rule Hr) as [name ->]. apply flat_readable. eapply flat_becomes; [|exact Hv].
  apply andb_true_iff in Hflat as [Hm [Hb _]%andb_true_iff]. by destruct Hp as [Hp|Hp]; rewrite Hp in *.
Qed.

Lemma chunk_lifecycle_witness : ∃ ret s', lifecycle ex_match ex_unpack
    (flb_log_event_decoder_reset ex_group_decoder ex_buffer) (Some (ex_condition FLB_COND_OP_OR)) ex_log = Some (ret, s') ∧
  hp_live (lg_heap s') ≡ₚ [] ∧ lg_objects s' = ∅.
Proof.
  destruct (chunk_lifecycle ex_match ex_unpack ex_group_decoder ex_buffer (Some (ex_condition FLB_COND_OP_OR))
    (ex_object <$> ex_buffer) (-12) ex_log ex_unpack_ok ex_log_ok) as (ret & s' & Hr & Ho & Hl & _).
  - by vm_compute.
  - exact ex_decodable.
  - repeat constructor.
  - apply flat_parts_readable; [vm_compute; reflexivity|]. repeat constructor; eexists; reflexivity.
  - exists ret, s'. split; [exact Hr|]. split; assumption.
Defined.

Lemma chunk_records_exact_witness : ∃ c s', make_and_read ex_match ex_unpack
    (flb_log_event_decoder_reset ex_group_decoder ex_buffer) ex_log = Some (Some (FLB_MP_CHUNK_RECORD_EOF, c), s') ∧
  length (cc_records c) = 4%nat ∧ records_of (lg_objects s') (None, None) ex_events (cc_records c).
Proof.
  destruct (chunk_records_exact ex_match ex_unpack ex_group_decoder ex_buffer (ex_object <$> ex_buffer) ex_events ex_log
    ex_unpack_ok ex_log_ok) as (c & s' & Hr & Hrec & _).
  - done.
  - by vm_compute.
  - reflexivity.
  - exact ex_all_objects.
  - repeat constructor.
  - exists c, s'. split; [exact Hr|]. split; [|exact Hrec].
    by rewrite <- (records_of_length _ _ _ _ Hrec).
Defined.
