(* ===== verification/Csv.v ===== *)
(** * Reading CSV piece by piece ([src/flb_csv.c])

    A parser is fed with pieces of a text; it calls back with every field and returns at the end of every
    record.  A field that is cut by the end of a piece is kept in a buffer.  What the callback was called with is
    kept with the state, in [called]; with no callback fields are only counted. *)
From S2P Require Import Prelude CStd Env Heap MsgPack Packer Sds.

(** ** State *)

Inductive csv_state := FLB_CSV_STATE_INITIAL | FLB_CSV_STATE_STARTED_SIMPLE | FLB_CSV_STATE_STARTED_DQUOTE
  | FLB_CSV_STATE_FOUND_DQUOTE | FLB_CSV_STATE_FOUND_CR.
#[global] Instance csv_state_eq_dec : EqDecision csv_state.
Proof. solve_decision. Defined.

Definition FLB_CSV_SUCCESS : Z := 0.
Definition FLB_CSV_ALLOC_FAILED : Z := -1.
Definition FLB_CSV_INVALID_STATE : Z := -2.
Definition FLB_CSV_EOF : Z := -3.

Definition COMMA : Z := 44.
Definition DQUOTE : Z := 34.
Definition CR : Z := 13.
Definition LF : Z := 10.

Record flb_csv_state := mk_csv {
  field_callback : bool;
  buffered_data : option flb_sds;
  escape_buffer : option flb_sds;
  offset : Z; start : Z; length_ : Z; field_count : Z;
  state : csv_state;
  field_parsed : bool; has_dquote : bool;
  called : list (list Z)
}.
Definition set_buffered (x : option flb_sds) (s : flb_csv_state) := mk_csv (field_callback s) x (escape_buffer s) (offset s) (start s)
  (length_ s) (field_count s) (state s) (field_parsed s) (has_dquote s) (called s).
Definition set_escape (x : option flb_sds) (s : flb_csv_state) := mk_csv (field_callback s) (buffered_data s) x (offset s) (start s)
  (length_ s) (field_count s) (state s) (field_parsed s) (has_dquote s) (called s).
Definition set_offset (x : Z) (s : flb_csv_state) := mk_csv (field_callback s) (buffered_data s) (escape_buffer s) x (start s)
  (length_ s) (field_count s) (state s) (field_parsed s) (has_dquote s) (called s).
Definition set_start (x : Z) (s : flb_csv_state) := mk_csv (field_callback s) (buffered_data s) (escape_buffer s) (offset s) x
  (length_ s) (field_count s) (state s) (field_parsed s) (has_dquote s) (called s).
Definition set_length (x : Z) (s : flb_csv_state) := mk_csv (field_callback s) (buffered_data s) (escape_buffer s) (offset s) (start s)
  x (field_count s) (state s) (field_parsed s) (has_dquote s) (called s).
Definition set_count (x : Z) (s : flb_csv_state) := mk_csv (field_callback s) (buffered_data s) (escape_buffer s) (offset s) (start s)
  (length_ s) x (state s) (field_parsed s) (has_dquote s) (called s).
Definition set_state (x : csv_state) (s : flb_csv_state) := mk_csv (field_callback s) (buffered_data s) (escape_buffer s) (offset s) (start s)
  (length_ s) (field_count s) x (field_parsed s) (has_dquote s) (called s).
Definition set_parsed (x : bool) (s : flb_csv_state) := mk_csv (field_callback s) (buffered_data s) (escape_buffer s) (offset s) (start s)
  (length_ s) (field_count s) (state s) x (has_dquote s) (called s).
Definition set_dquote (x : bool) (s : flb_csv_state) := mk_csv (field_callback s) (buffered_data s) (escape_buffer s) (offset s) (start s)
  (length_ s) (field_count s) (state s) (field_parsed s) x (called s).
Definition set_called (x : list (list Z)) (s : flb_csv_state) := mk_csv (field_callback s) (buffered_data s) (escape_buffer s) (offset s) (start s)
  (length_ s) (field_count s) (state s) (field_parsed s) (has_dquote s) x.

(** [state->field_callback(state->data, field, len)] *)
Definition call_back (field : list Z) (s : flb_csv_state) : flb_csv_state := set_called (called s ++ [field]) s.

(** ** Operations *)

Definition reset_state (s : flb_csv_state) : option flb_csv_state :=
  e ← escape_buffer s; b ← buffered_data s;
  Some (mk_csv (field_callback s) (Some (flb_sds_len_set b 0)) (Some (flb_sds_len_set e 0)) 0 0 0 (field_count s)
          FLB_CSV_STATE_INITIAL false false (called s)).

(** The loop that takes doubled quotes once; [escape] is the buffer written to. *)
Fixpoint escape_loop (fuel : nat) (buf : list Z) (bufpos bufend escpos : Z) (escape : flb_sds) : option (Z * flb_sds) :=
  if bufpos <? bufend then
    match fuel with
    | O => None
    | S fuel' =>
        c ← buf !z bufpos;
        let bufpos := if c =? DQUOTE then bufpos + 1 else bufpos in
        d ← buf !z bufpos;
        escape ← sds_write escpos [d] escape;
        escape_loop fuel' buf (bufpos + 1) bufend (escpos + 1) escape
    end
  else Some (escpos, escape).

(** A field of [length] bytes at [buf + start] copied to the escape buffer, which grows when it is too small *)
Definition copy_unquoted (escape : flb_sds) (buf : list Z) (start length : Z) : M heap (option (Z * flb_sds)) :=
  grown ← (if flb_sds_alloc escape <? length then flb_sds_increase escape length else mret (Some escape));
  match grown with
  | None => mret None
  | Some escape =>
      '(escpos, escape) ← deref (escape_loop (Z.to_nat length) buf start (u64 (start + length)) 0 escape);
      escape ← deref (sds_write escpos [0] escape);
      mret (Some (escpos, flb_sds_len_set escape escpos))
  end.

Definition invoke_field_callback (s : flb_csv_state) (buf : list Z) (bufsize : Z) : M heap (Z * flb_csv_state) :=
  if negb (has_dquote s) then
    field ← deref (bytes_of (drop (Z.to_nat (start s)) buf) (length_ s));
    mret (0, call_back field s)
  else
    e ← deref (escape_buffer s);
    copied ← copy_unquoted e buf (start s) (length_ s);
    match copied with
    | None => mret (FLB_CSV_ALLOC_FAILED, set_escape None s)
    | Some (escpos, e) =>
        field ← deref (bytes_of (s_buf e) escpos);
        mret (0, call_back field (set_escape (Some e) s))
    end.

Fixpoint parse_simple (fuel : nat) (s : flb_csv_state) (buf : list Z) (bufsize : Z) : option (Z * flb_csv_state) :=
  if bufsize <=? offset s then Some (FLB_CSV_EOF, s)
  else
    c ← buf !z offset s;
    if (c =? COMMA) || (c =? LF) || (c =? CR) then Some (0, set_length (u64 (offset s - start s)) s)
    else match fuel with O => None | S fuel' => parse_simple fuel' (set_offset (offset s + 1) s) buf bufsize end.

Fixpoint parse_quoted (fuel : nat) (s : flb_csv_state) (buf : list Z) (bufsize : Z) : option (Z * flb_csv_state) :=
  if bufsize <=? offset s then Some (FLB_CSV_EOF, s)
  else
    c ← buf !z offset s;
    let next s := match fuel with O => None | S fuel' => parse_quoted fuel' (set_offset (offset s + 1) s) buf bufsize end in
    if decide (state s = FLB_CSV_STATE_FOUND_DQUOTE) then
      let s := set_state FLB_CSV_STATE_STARTED_DQUOTE s in
      if c =? DQUOTE then next (set_dquote true s)
      else Some (0, set_length (u64 (offset s - start s - 1)) s)
    else if c =? DQUOTE then next (set_state FLB_CSV_STATE_FOUND_DQUOTE s)
    else next s.

(** [state->buffered_data = flb_sds_cat(state->buffered_data, data, len)]; [false]: it is NULL now. *)
Definition save_data (s : flb_csv_state) (data : list Z) (len : Z) : M heap (bool * flb_csv_state) :=
  b ← deref (buffered_data s);
  b ← flb_sds_cat b data (i32 len);
  mret (match b with Some _ => true | None => false end, set_buffered b s).

Definition parse_field_in (s : flb_csv_state) (data : list Z) (len : Z) (buf : list Z) (bufsize : Z) (buffered : bool)
    : M heap (Z * flb_csv_state) :=
  let fuel := Z.to_nat bufsize in
  r ← deref (match state s with
             | FLB_CSV_STATE_STARTED_SIMPLE => parse_simple fuel s buf bufsize
             | FLB_CSV_STATE_STARTED_DQUOTE | FLB_CSV_STATE_FOUND_DQUOTE => parse_quoted fuel s buf bufsize
             | _ => Some (FLB_CSV_INVALID_STATE, s)
             end);
  let '(ret, s) := r in
  if negb (ret =? 0) then
    if negb buffered && (ret =? FLB_CSV_EOF) then
      '(saved, s) ← save_data s data len;
      if (saved : bool) then mret (ret, s) else mret (FLB_CSV_ALLOC_FAILED, s)
    else mret (ret, s)
  else if field_callback s then invoke_field_callback s buf bufsize
  else mret (ret, s).

Definition parse_csv_field (s : flb_csv_state) (data : list Z) (len : Z) : M heap (Z * flb_csv_state) :=
  if decide (state s = FLB_CSV_STATE_INITIAL) then
    c ← deref (data !z offset s);
    let s := if c =? DQUOTE then set_state FLB_CSV_STATE_STARTED_DQUOTE (set_offset (offset s + 1) s)
             else set_state FLB_CSV_STATE_STARTED_SIMPLE s in
    parse_field_in (set_start (offset s) s) data len data len false
  else if field_callback s then
    '(saved, s) ← save_data s data len;
    if (saved : bool) then
      b ← deref (buffered_data s);
      (* reading behind the text of the buffer is taken as undefined *)
      parse_field_in s data len (content b) (flb_sds_len b) true
    else mret (FLB_CSV_ALLOC_FAILED, s)
  else parse_field_in s data len data len false.

Definition flb_csv_init (callback : bool) : M heap flb_csv_state :=
  b ← flb_sds_create (Some []);
  e ← flb_sds_create (Some []);
  deref (reset_state (mk_csv callback b e 0 0 0 0 FLB_CSV_STATE_INITIAL false false [])).

(** A field without text, when none was read since the last comma *)
Definition empty_field (s : flb_csv_state) : flb_csv_state :=
  if field_parsed s then s
  else
    let s := set_count (u64 (field_count s + 1)) s in
    if field_callback s then call_back [] s else s.

(** The result is the code, what is left of the text and, with [FLB_CSV_SUCCESS], the number of fields. *)
Definition end_of_record (s : flb_csv_state) (data : list Z) : Z * flb_csv_state * list Z * option Z :=
  let s := empty_field s in
  let s := set_parsed false s in
  (FLB_CSV_SUCCESS, set_count 0 s, data, Some (field_count s)).

Fixpoint parse_record_loop (fuel : nat) (s : flb_csv_state) (data : list Z) : M heap (Z * flb_csv_state * list Z * option Z) :=
  match fuel with
  | O => ub
  | S fuel' =>
      match data with
      | [] => mret (FLB_CSV_EOF, s, [], None)
      | c :: data' =>
          let field :=
            let initial_offset := offset s in
            '(ret, s) ← parse_csv_field s data (zlen data);
            let advanced := offset s - initial_offset in
            let data := drop (Z.to_nat advanced) data in
            if negb (ret =? 0) then
              mret (ret, if field_callback s then s else set_offset 0 s, data, None)
            else
              s ← deref (reset_state s);
              let s := set_parsed true s in
              parse_record_loop fuel' (set_count (u64 (field_count s + 1)) s) data in
          match state s with
          | FLB_CSV_STATE_INITIAL =>
              if c =? CR then parse_record_loop fuel' (set_state FLB_CSV_STATE_FOUND_CR s) data'
              else if c =? LF then mret (end_of_record s data')
              else if c =? COMMA then parse_record_loop fuel' (set_parsed false (empty_field s)) data'
              else field
          | FLB_CSV_STATE_FOUND_CR =>
              let s := set_state FLB_CSV_STATE_INITIAL s in
              mret (end_of_record s (if c =? LF then data' else data))
          | _ => field
          end
      end
  end.

(** Every turn of the loop takes a character, but for one that ends a quoted field. *)
Definition flb_csv_parse_record (s : flb_csv_state) (data : list Z) : M heap (Z * flb_csv_state * list Z * option Z) :=
  parse_record_loop (2 * length data + 2) s data.

Definition flb_csv_destroy (s : flb_csv_state) : M heap unit :=
  flb_sds_destroy (buffered_data s) ≫= λ _, flb_sds_destroy (escape_buffer s).

(** ** Specification

    A text is read character by character: what is known of a record are its fields so far, whether one was just
    closed, and where the reading is.  A field that begins with a quote ends at a quote that is not doubled; LF, CR
    and CR LF end a record. *)

Inductive csv_mode := Between | Simple (acc : list Z) | Quoted (acc : list Z) | QuoteSeen (acc : list Z) | CrSeen.
#[global] Instance csv_mode_eq_dec : EqDecision csv_mode.
Proof. solve_decision. Defined.
Record csv_reader := mk_reader { r_fields : list (list Z); r_closed : bool; r_mode : csv_mode }.
Definition fresh_reader : csv_reader := mk_reader [] false Between.

Definition record_of (fields : list (list Z)) (closed : bool) : list (list Z) := if closed then fields else fields ++ [[]].
Definition ends_field (c : Z) : bool := (c =? COMMA) || (c =? LF) || (c =? CR).

(** The next record with what is left of the text, or what is known of it at the end of the text *)
Fixpoint next_record (r : csv_reader) (s : list Z) : list (list Z) * list Z + csv_reader :=
  match s with
  | [] => inr r
  | c :: s' =>
      let between fields closed :=
        if c =? CR then next_record (mk_reader fields closed CrSeen) s'
        else if c =? LF then inl (record_of fields closed, s')
        else if c =? COMMA then next_record (mk_reader (record_of fields closed) false Between) s'
        else next_record (mk_reader fields closed (if c =? DQUOTE then Quoted [] else Simple [c])) s' in
      let '(mk_reader fields closed mode) := r in
      match mode with
      | Between => between fields closed
      | Simple acc =>
          if ends_field c then between (fields ++ [acc]) true else next_record (mk_reader fields closed (Simple (acc ++ [c]))) s'
      | Quoted acc =>
          next_record (mk_reader fields closed (if c =? DQUOTE then QuoteSeen acc else Quoted (acc ++ [c]))) s'
      | QuoteSeen acc =>
          if c =? DQUOTE then next_record (mk_reader fields closed (Quoted (acc ++ [c]))) s' else between (fields ++ [acc]) true
      | CrSeen => inl (record_of fields closed, if c =? LF then s' else s)
      end
  end.

(** A text makes these records and leaves the reader so. *)
Inductive csv_text : csv_reader → list Z → list (list (list Z)) → csv_reader → Prop :=
| text_end r s r' : next_record r s = inr r' → csv_text r s [] r'
| text_record r s rec rest recs r' : next_record r s = inl (rec, rest) → csv_text fresh_reader rest recs r' →
    csv_text r s (rec :: recs) r'.

(** *** The parser on a whole text in pieces: what it calls back with for each record, and the number of fields. *)

Fixpoint feed_piece (fuel : nat) (s : flb_csv_state) (data : list Z) : M heap (list (list (list Z) * Z) * flb_csv_state) :=
  match fuel with
  | O => ub
  | S fuel' =>
      r ← flb_csv_parse_record s data;
      match r with
      | (ret, s, rest, Some n) => 
          '(recs, s') ← feed_piece fuel' (set_called [] s) rest;
          mret ((called s, n) :: recs, s')
      | (_, s, _, None) => mret ([], s)
      end
  end.
Fixpoint feed (s : flb_csv_state) (pieces : list (list Z)) : M heap (list (list (list Z) * Z) * flb_csv_state) :=
  match pieces with
  | [] => mret ([], s)
  | data :: pieces' =>
      '(recs, s) ← feed_piece (2 * length data + 2) s data;
      '(recs', s) ← feed s pieces';
      mret (recs ++ recs', s)
  end.

(** ** The specification on pieces *)

Lemma next_record_app s : ∀ r t, next_record r (s ++ t) =
  match next_record r s with inl (rec, rest) => inl (rec, rest ++ t) | inr r' => next_record r' t end.
Proof.
  induction s as [|c s IH]; intros [fields closed mode] t; [done|]. cbn [next_record app].
  destruct mode; rewrite ?IH; try done; repeat case_match; done.
Qed.

(** The text of a field as it is in the source so far *)
Definition raw (acc : list Z) : list Z := acc ≫= λ c, if c =? DQUOTE then [DQUOTE; DQUOTE] else [c].
Definition mode_text (m : csv_mode) : list Z :=
  match m with
  | Between | CrSeen => []
  | Simple acc => acc
  | Quoted acc => DQUOTE :: raw acc
  | QuoteSeen acc => DQUOTE :: raw acc ++ [DQUOTE]
  end.
Definition mode_acc (m : csv_mode) : list Z :=
  match m with Simple acc | Quoted acc | QuoteSeen acc => acc | _ => [] end.
Definition mode_state (m : csv_mode) : csv_state :=
  match m with
  | Between => FLB_CSV_STATE_INITIAL
  | CrSeen => FLB_CSV_STATE_FOUND_CR
  | Simple _ => FLB_CSV_STATE_STARTED_SIMPLE
  | Quoted _ => FLB_CSV_STATE_STARTED_DQUOTE
  | QuoteSeen _ => FLB_CSV_STATE_FOUND_DQUOTE
  end.
Definition in_quotes (m : csv_mode) : bool := match m with Quoted _ | QuoteSeen _ => true | _ => false end.
Definition doubled (m : csv_mode) : bool := in_quotes m && existsb (λ c, c =? DQUOTE) (mode_acc m).
Definition in_field (m : csv_mode) : bool := match m with Between | CrSeen => false | _ => true end.

Lemma raw_snoc acc c : raw (acc ++ [c]) = raw acc ++ (if c =? DQUOTE then [DQUOTE; DQUOTE] else [c]).
Proof. unfold raw. rewrite bind_app. cbn. by rewrite app_nil_r. Qed.
Lemma raw_plain acc : existsb (λ c, c =? DQUOTE) acc = false → raw acc = acc.
Proof. induction acc as [|c acc IH]; [done|]. cbn. destruct (c =? DQUOTE); [done|]. cbn. intros H. unfold raw in IH. by rewrite IH. Qed.
Lemma raw_length acc : zlen acc <= zlen (raw acc).
Proof. induction acc as [|c acc IH]; [done|]. cbn. rewrite zlen_app, zlen_cons. unfold raw in IH.
  destruct (c =? DQUOTE); rewrite ?zlen_cons; change (zlen []) with 0; lia. Qed.

(** A field up to the character that ends it, or to the end of the text *)
Fixpoint field_scan (m : csv_mode) (s : list Z) : csv_mode * list Z :=
  match s with
  | [] => (m, [])
  | c :: s' =>
      match m with
      | Simple acc => if ends_field c then (m, s) else field_scan (Simple (acc ++ [c])) s'
      | Quoted acc => field_scan (if c =? DQUOTE then QuoteSeen acc else Quoted (acc ++ [c])) s'
      | QuoteSeen acc => if c =? DQUOTE then field_scan (Quoted (acc ++ [c])) s' else (m, s)
      | _ => (m, s)
      end
  end.

Lemma field_scan_text s : ∀ m, in_field m = true → let '(m', rest) := field_scan m s in
  mode_text m ++ s = mode_text m' ++ rest ∧ in_field m' = true ∧
  (in_quotes m' = in_quotes m) ∧ (rest ≠ [] → match m' with Quoted _ => False | _ => True end).
Proof.
  induction s as [|c s IH]; intros m Hm; cbn [field_scan]; [by split_and!|].
  destruct m as [|acc|acc|acc|]; try done.
  - destruct (ends_field c); [by split_and!|]. specialize (IH (Simple (acc ++ [c])) eq_refl).
    destruct (field_scan _ _) as [m' rest]. cbn [mode_text] in IH. by rewrite <-app_assoc in IH.
  - destruct (c =? DQUOTE) eqn:Hc.
    + apply Z.eqb_eq in Hc as ->. specialize (IH (QuoteSeen acc) eq_refl). destruct (field_scan _ _) as [m' rest].
      cbn [mode_text app] in IH. by rewrite <-app_assoc in IH.
    + specialize (IH (Quoted (acc ++ [c])) eq_refl). destruct (field_scan _ _) as [m' rest].
      cbn [mode_text app] in IH. by rewrite raw_snoc, Hc, <-app_assoc in IH.
  - destruct (c =? DQUOTE) eqn:Hc; [|by split_and!]. apply Z.eqb_eq in Hc as ->.
    specialize (IH (Quoted (acc ++ [DQUOTE])) eq_refl). destruct (field_scan _ _) as [m' rest].
    cbn [mode_text app] in IH. rewrite raw_snoc, Z.eqb_refl, <-app_assoc in IH. cbn [mode_text app] in *. by rewrite <-app_assoc.
Qed.

Lemma next_record_field fields closed s : ∀ m, in_field m = true → 
  next_record (mk_reader fields closed m) s =
  let '(m', rest) := field_scan m s in
  if rest is [] then inr (mk_reader fields closed m') else next_record (mk_reader (fields ++ [mode_acc m']) true Between) rest.
Proof.
  induction s as [|c s IH]; intros m Hm; [done|].
  destruct m as [|acc|acc|acc|]; try done; cbn [field_scan next_record].
  - destruct (ends_field c) eqn:Hc; [done|]. by rewrite IH.
  - rewrite IH; [done|]. by destruct (c =? DQUOTE).
  - destruct (c =? DQUOTE) eqn:Hc; [by rewrite IH|]. cbn [next_record mode_acc]. by rewrite Hc.
Qed.

(** *** Scanning *)

Ltac lens := rewrite ?zlen_app, ?zlen_cons, ?zlen_app, ?zlen_cons; change (zlen (@nil Z)) with 0; lia.

(** The state of the parser within a field *)
Definition at_mode (m : csv_mode) (s : flb_csv_state) : flb_csv_state :=
  mk_csv (field_callback s) (buffered_data s) (escape_buffer s) (zlen (mode_text m)) (start s) (length_ s) (field_count s)
    (mode_state m) (field_parsed s) (doubled m) (called s).
Lemma at_mode_iff m s : at_mode m s = s ↔ offset s = zlen (mode_text m) ∧ state s = mode_state m ∧ has_dquote s = doubled m.
Proof.
  unfold at_mode. destruct s; cbn. split; [by intros [= -> -> ->]|by intros (-> & -> & ->)].
Qed.

Definition closed_at (m : csv_mode) (s : flb_csv_state) : flb_csv_state :=
  match m with
  | QuoteSeen acc => set_length (zlen (raw acc)) (set_state FLB_CSV_STATE_STARTED_DQUOTE (at_mode m s))
  | _ => set_length (zlen (mode_text m)) (at_mode m s)
  end.
Definition scanned (r : csv_mode * list Z) (s : flb_csv_state) : Z * flb_csv_state :=
  if r.2 is [] then (FLB_CSV_EOF, at_mode r.1 s) else (0, closed_at r.1 s).

Lemma parse_simple_run s : start s = 0 → ∀ data acc fuel, (length data <= fuel)%nat → zlen (acc ++ data) < 2 ^ 63 →
  parse_simple fuel (at_mode (Simple acc) s) (acc ++ data) (zlen (acc ++ data)) = Some (scanned (field_scan (Simple acc) data) s).
Proof.
  intros Hst data. induction data as [|c data IH]; intros acc fuel Hf Hlen.
  - destruct fuel; cbn -[zlen]; rewrite app_nil_r, Z.leb_refl; done.
  - destruct fuel as [|fuel]; [cbn in Hf; lia|]. pose proof (not_at_end acc c data) as Hn. apply Z.ltb_lt in Hn.
    cbn [parse_simple field_scan]. change (offset (at_mode (Simple acc) s)) with (zlen acc).
    destruct (Z.leb_spec (zlen (acc ++ c :: data)) (zlen acc)); [lia|]. rewrite zlookup_at. cbn [mbind option_bind].
    fold (ends_field c). destruct (ends_field c).
    + unfold scanned. cbn [fst snd closed_at mode_text]. change (start (at_mode (Simple acc) s)) with (start s).
      rewrite Hst, Z.sub_0_r, u64_id; [done|]. pose proof (zlen_nonneg acc). lia.
    + rewrite snoc_cons in Hlen |- *. rewrite <-(IH (acc ++ [c]) fuel ltac:(cbn in Hf; lia) Hlen). f_equal.
      unfold at_mode, set_offset. cbn. by rewrite zlen_snoc.
Qed.

Lemma parse_quoted_run s : start s = 1 → ∀ data m fuel, in_quotes m = true → (length data <= fuel)%nat → zlen (mode_text m ++ data) < 2 ^ 63 →
  parse_quoted fuel (at_mode m s) (mode_text m ++ data) (zlen (mode_text m ++ data)) = Some (scanned (field_scan m data) s).
Proof.
  intros Hst data. induction data as [|c data IH]; intros m fuel Hm Hf Hlen.
  - destruct fuel; cbn -[zlen]; rewrite app_nil_r, Z.leb_refl; done.
  - destruct fuel as [|fuel]; [cbn in Hf; lia|]. pose proof (not_at_end (mode_text m) c data) as Hn. apply Z.ltb_lt in Hn.
    cbn [parse_quoted]. change (offset (at_mode m s)) with (zlen (mode_text m)).
    destruct (Z.leb_spec (zlen (mode_text m ++ c :: data)) (zlen (mode_text m))); [lia|]. rewrite zlookup_at. cbn [mbind option_bind].
    assert (Hnext : ∀ m' s', in_quotes m' = true → mode_text m' = mode_text m ++ [c] → set_offset (zlen (mode_text m) + 1) s' = at_mode m' s →
      parse_quoted fuel (set_offset (zlen (mode_text m) + 1) s') (mode_text m ++ c :: data) (zlen (mode_text m ++ c :: data)) =
      Some (scanned (field_scan m' data) s)).
    { intros m' s' Hm' Ht ->. rewrite snoc_cons, <-Ht in Hlen |- *. apply IH; [done|cbn in Hf; lia|done]. }
    destruct m as [|acc|acc|acc|]; try done; cbn [field_scan at_mode mode_state state].
    + rewrite decide_False by done. destruct (Z.eqb_spec c DQUOTE) as [->|Hc].
      * apply Hnext; [done|done|]. unfold at_mode, set_offset, set_state. cbn -[zlen]. by rewrite app_comm_cons, zlen_snoc.
      * apply Z.eqb_neq in Hc. apply Hnext; [done| |].
        -- cbn -[raw]. by rewrite raw_snoc, Hc.
        -- unfold at_mode, set_offset, doubled. cbn -[zlen raw]. rewrite raw_snoc, Hc, existsb_app. cbn -[zlen raw].
           rewrite Hc, !orb_false_r. by rewrite app_comm_cons, zlen_snoc.
    + rewrite decide_True by done. destruct (Z.eqb_spec c DQUOTE) as [->|Hc].
      * apply Hnext; [done| |].
        -- cbn -[raw]. rewrite raw_snoc. cbn -[raw]. by rewrite <-app_assoc.
        -- unfold at_mode, set_offset, set_dquote, set_state, doubled. cbn -[zlen raw]. rewrite raw_snoc, existsb_app. cbn -[zlen raw].
           rewrite orb_true_r. f_equal. lens.
      * unfold scanned. cbn -[zlen raw]. unfold closed_at. do 3 f_equal. cbn -[zlen raw]. rewrite Hst.
        assert (Hz : zlen (DQUOTE :: raw acc ++ [DQUOTE]) = zlen (raw acc) + 2) by (rewrite zlen_cons, zlen_snoc; lia).
        cbn [mode_text] in *. rewrite Hz in *. pose proof (zlen_nonneg (raw acc)). rewrite u64_id by lia. lia.
Qed.

Lemma parse_run s m data : in_field m = true → at_mode m s = s → start s = (if in_quotes m then 1 else 0) →
  zlen (mode_text m ++ data) < 2 ^ 63 → let buf := mode_text m ++ data in
  match state s with
  | FLB_CSV_STATE_STARTED_SIMPLE => parse_simple (Z.to_nat (zlen buf)) s buf (zlen buf)
  | FLB_CSV_STATE_STARTED_DQUOTE | FLB_CSV_STATE_FOUND_DQUOTE => parse_quoted (Z.to_nat (zlen buf)) s buf (zlen buf)
  | _ => Some (FLB_CSV_INVALID_STATE, s)
  end = Some (scanned (field_scan m data) s).
Proof.
  intros Hm Hmode Hst Hlen buf. assert (Hstate : state s = mode_state m) by (by rewrite <-Hmode).
  assert (Hfuel : (length data <= Z.to_nat (zlen buf))%nat) by (subst buf; rewrite zlen_nat, length_app; lia). rewrite Hstate.
  destruct m as [|acc|acc|acc|]; try done; cbn [mode_state].
  - pose proof (parse_simple_run s Hst data acc _ Hfuel Hlen) as Hp. by rewrite Hmode in Hp.
  - pose proof (parse_quoted_run s Hst data (Quoted acc) _ Hm Hfuel Hlen) as Hp. by rewrite Hmode in Hp.
  - pose proof (parse_quoted_run s Hst data (QuoteSeen acc) _ Hm Hfuel Hlen) as Hp. by rewrite Hmode in Hp.
Qed.

(** *** Calling back *)

Lemma escape_loop_run buf post : ∀ acc pre done e fuel, (length acc <= fuel)%nat → buf = pre ++ raw acc ++ post →
  take (length done) (s_buf e) = done → zlen done <= zlen (s_buf e) → zlen (s_buf e) <= s_alloc e + 1 → zlen done + zlen acc <= s_alloc e →
  ∃ e', escape_loop fuel buf (zlen pre) (zlen pre + zlen (raw acc)) (zlen done) e = Some (zlen (done ++ acc), e') ∧
    take (length (done ++ acc)) (s_buf e') = done ++ acc ∧ zlen (done ++ acc) <= zlen (s_buf e') <= s_alloc e' + 1 ∧
    s_block e' = s_block e ∧ s_alloc e' = s_alloc e.
Proof.
  induction acc as [|c acc IH]; intros pre done e fuel Hf Hb Ht Hd Hal Hroom.
  - exists e. rewrite app_nil_r. destruct fuel; cbn [escape_loop raw mbind list_bind]; change (zlen []) with 0;
      rewrite Z.add_0_r, Z.ltb_irrefl; by split_and!.
  - destruct fuel as [|fuel]; [cbn in Hf; lia|]. cbn [escape_loop]. rewrite zlen_cons in Hroom. pose proof (zlen_nonneg acc). pose proof (zlen_nonneg done).
    assert (Hraw : raw (c :: acc) = (if c =? DQUOTE then [DQUOTE] else []) ++ c :: raw acc).
    { unfold raw. cbn. destruct (Z.eqb_spec c DQUOTE) as [->|]; done. }
    rewrite Hraw in Hb |- *. pose proof (zlen_nonneg (raw acc)).
    destruct (Z.ltb_spec (zlen pre) (zlen pre + zlen ((if c =? DQUOTE then [DQUOTE] else []) ++ c :: raw acc))) as [_|Hge].
    2:{ destruct (c =? DQUOTE); revert Hge; lens. }
    set (pre' := pre ++ (if c =? DQUOTE then [DQUOTE] else [])).
    assert (Hb' : buf = pre' ++ c :: raw acc ++ post) by (subst buf pre'; by rewrite <-!app_assoc).
    assert (Hread : buf !z zlen pre = Some c).
    { rewrite Hb. destruct (Z.eqb_spec c DQUOTE) as [->|]; apply zlookup_at. }
    assert (Hpos : (if c =? DQUOTE then zlen pre + 1 else zlen pre) = zlen pre').
    { subst pre'. destruct (c =? DQUOTE); [by rewrite zlen_snoc|by rewrite app_nil_r]. }
    rewrite Hread. cbn [mbind option_bind]. rewrite Hpos, Hb', zlookup_at. cbn [mbind option_bind].
    rewrite sds_write_ok by (change (zlen [c]) with 1; lia). cbn [mbind option_bind].
    rewrite <-Hb', <-(zlen_snoc pre' c), <-(zlen_snoc done c).
    replace (zlen pre + _) with (zlen (pre' ++ [c]) + zlen (raw acc)) by (subst pre'; destruct (c =? DQUOTE); lens).
    rewrite (cons_middle c done acc), app_assoc.
    apply (IH _ _ (set_s_buf (write_at (zlen done) [c] (s_buf e)) e)); cbn [s_buf set_s_buf s_alloc].
    + cbn in Hf. lia.
    + by rewrite Hb', <-app_assoc.
    + pose proof (write_at_take (zlen done) [c] (s_buf e) ltac:(lia)) as Hw. change (zlen [c]) with 1 in Hw.
      rewrite zlen_nat, Ht in Hw. rewrite <-Hw at 2. f_equal. rewrite length_app. unfold zlen. cbn. lia.
    + rewrite write_at_length by lia. rewrite zlen_snoc. change (zlen [c]) with 1. lia.
    + rewrite write_at_length by lia. change (zlen [c]) with 1. lia.
    + rewrite zlen_snoc. lia.
Qed.

Section parser.
(** A bound on the texts that are read *)
Context (N : Z) (HN : N < 2 ^ 60).

Record csv_ok (s : flb_csv_state) (r : csv_reader) (buffered : list Z) : Prop := {
  co_callback : field_callback s = true;
  co_buffered : ∃ b, buffered_data s = Some b ∧ sds_ok b ∧ content b = buffered ∧ s_alloc b <= 2 * N;
  co_escape : ∃ e, escape_buffer s = Some e ∧ sds_ok e ∧ s_alloc e <= 2 * N;
  co_mode : at_mode (r_mode r) s = s;
  co_start : in_field (r_mode r) = true → start s = if in_quotes (r_mode r) then 1 else 0;
  co_closed : field_parsed s = r_closed r;
  co_count : field_count s = u64 (zlen (r_fields r));
  co_called : called s = r_fields r
}.
Definition csv_blocks (s : flb_csv_state) : list nat := sds_blocks (buffered_data s) ++ sds_blocks (escape_buffer s).

Lemma calm_save s r old data : csv_ok s r old → zlen old + zlen data <= N → zlen data < 2 ^ 31 →
  calm_run (csv_blocks s) (save_data s data (zlen data)) (λ p, csv_blocks p.2)
    (λ p, ∃ b, p = (true, set_buffered (Some b) s) ∧ sds_ok b ∧ content b = old ++ data ∧ s_alloc b <= 2 * N).
Proof.
  intros Hs Hle Hlen. destruct (co_buffered _ _ _ Hs) as (b & Hb & Hbok & Hct & Hal).
  pose proof (zlen_nonneg old). pose proof (zlen_nonneg data). pose proof (zlen_sds b Hbok) as Hzl. rewrite Hct in Hzl.
  unfold save_data. rewrite Hb. intros h X Hc Hl. apply runs_bind. eapply runs_deref; [done|].
  replace (i32 (zlen data)) with (zlen data) by (unfold i32; rewrite Z.mod_small by lia; lia).
  apply runs_bind. unfold csv_blocks in Hl. rewrite Hb in Hl. eapply runs_weaken.
  { eapply (calm_frame (sds_blocks (escape_buffer s)) _ _ _ _ (calm_cat b data Hbok ltac:(lia)) h X Hc Hl). }
  intros r' h' (Hc' & Hl' & b' & -> & Hbok' & Hct' & Hal' & _). apply runs_ret. split_and!; [done|exact Hl'|].
  exists b'. split_and!; [done|done|by rewrite Hct', Hct|lia].
Qed.

Lemma bytes_of_app (w l : list Z) : bytes_of (w ++ l) (zlen w) = Some w.
Proof.
  unfold bytes_of. pose proof (zlen_nonneg l). pose proof (zlen_nonneg w). rewrite zlen_app, !(proj2 (Z.leb_le _ _)) by lia. cbn.
  by rewrite zlen_nat, take_app_length.
Qed.

(** A quoted field is copied to the escape buffer, which grows when it is too small. *)
Lemma calm_unquote e acc rest : sds_ok e → s_alloc e <= 2 * N → zlen (raw acc) <= N →
  calm_run [s_block e]
    (copy_unquoted e (DQUOTE :: raw acc ++ rest) 1 (zlen (raw acc))) (λ r, sds_blocks (snd <$> r))
    (λ r, ∃ e', r = Some (zlen acc, e') ∧ sds_ok e' ∧ s_alloc e' <= 2 * N ∧ bytes_of (s_buf e') (zlen acc) = Some acc).
Proof.
  intros He Hal Hraw. pose proof (zlen_nonneg (raw acc)). unfold copy_unquoted. eapply calm_bind.
  { instantiate (1 := λ r, ∃ e', r = Some e' ∧ sds_ok e' ∧ s_alloc e' <= 2 * N ∧ zlen (raw acc) <= s_alloc e').
    instantiate (1 := sds_blocks). unfold flb_sds_alloc. destruct (Z.ltb_spec (s_alloc e) (zlen (raw acc))).
    - eapply calm_weaken; [apply calm_increase; [done|lia|lia]|]. intros r (e' & -> & Hok & _ & _ & Hal' & _). split; [done|].
      pose proof (sk_len _ He). exists e'. split_and!; [done|done|lia|lia].
    - apply calm_ret; [done|]. by exists e. }
  intros r (e1 & -> & [Hl Hb Ha] & Hal1 & Hroom). pose proof (raw_length acc). pose proof (zlen_nonneg acc).
  destruct (escape_loop_run (DQUOTE :: raw acc ++ rest) rest acc [DQUOTE] [] e1 (Z.to_nat (zlen (raw acc))))
    as (e2 & Hloop & Ht & Hz & Hblk & Hal2); [unfold zlen in *; lia|done|done|change (zlen []) with 0; lia|lia|change (zlen []) with 0; lia|].
  cbn [app] in Hloop, Ht, Hz. change (zlen [DQUOTE]) with 1 in Hloop. change (zlen []) with 0 in Hloop.
  rewrite u64_id by lia. intros h X Hc Hlive. apply runs_bind. eapply runs_deref; [exact Hloop|].
  apply runs_bind. eapply runs_deref; [apply sds_write_ok; [lia|change (zlen [0]) with 1; lia]|]. apply runs_ret.
  split_and!; [done|by rewrite Hlive; cbn; rewrite Hblk|]. eexists. split; [done|].
  assert (Hw : zlen (write_at (zlen acc) [0] (s_buf e2)) = Z.max (zlen (s_buf e2)) (zlen acc + 1)) by (apply write_at_length; lia).
  split_and!; [constructor; cbn; lia|cbn; lia|]. cbn. unfold write_at. rewrite zlen_nat, Ht. apply bytes_of_app.
Qed.

Lemma calm_invoke s fields closed m old rest : csv_ok s (mk_reader fields closed m) old → in_field m = true →
  (match m with Quoted _ => False | _ => True end) → zlen (mode_text m) <= N →
  calm_run (csv_blocks s) (invoke_field_callback (closed_at m s) (mode_text m ++ rest) (zlen (mode_text m ++ rest))) (λ p, csv_blocks p.2)
    (λ p, ∃ e, p = (0, call_back (mode_acc m) (set_escape (Some e) (closed_at m s))) ∧ sds_ok e ∧ s_alloc e <= 2 * N).
Proof.
  intros Hs Hm Hend Hle. destruct (co_escape _ _ _ Hs) as (e & He & Heok & Heal). pose proof (co_start _ _ _ Hs Hm) as Hst. cbn in Hst.
  unfold invoke_field_callback. assert (Hdq : has_dquote (closed_at m s) = doubled m) by by destruct m. rewrite Hdq.
  destruct (doubled m) eqn:Hd; cbn [negb].
  - destruct m as [|acc|acc|acc|]; try done. cbn [mode_text] in *.
    assert (Hraw : zlen (raw acc) <= N) by (revert Hle; lens).
    intros h X Hc Hl. unfold csv_blocks in Hl. rewrite He in Hl.
    apply runs_bind. eapply runs_deref; [exact He|]. apply runs_bind. change (start (closed_at (QuoteSeen acc) s)) with (start s).
    change (length_ (closed_at (QuoteSeen acc) s)) with (zlen (raw acc)). rewrite Hst. cbn [in_quotes]. eapply runs_weaken.
    { replace ((DQUOTE :: raw acc ++ [DQUOTE]) ++ rest) with (DQUOTE :: raw acc ++ [DQUOTE] ++ rest) by (cbn; by rewrite <-app_assoc).
      assert (Hl2 : hp_live h ≡ₚ ([s_block e] ++ sds_blocks (buffered_data s)) ++ X) by (rewrite Hl; apply Permutation_app_tail, Permutation_app_comm).
      eapply (calm_frame (sds_blocks (buffered_data s)) _ _ _ _ (calm_unquote e acc ([DQUOTE] ++ rest) Heok Heal Hraw) h X Hc Hl2). }
    intros r h' (Hc' & Hl' & e' & -> & Hok' & Hal' & Hbytes). apply runs_bind. eapply runs_deref; [exact Hbytes|]. apply runs_ret.
    split_and!; [done| |by exists e']. rewrite Hl'. apply Permutation_app_tail. apply (Permutation_app_comm [_]).
  - assert (Hfield : bytes_of (drop (Z.to_nat (start (closed_at m s))) (mode_text m ++ rest)) (length_ (closed_at m s)) = Some (mode_acc m)).
    { destruct m as [|acc|acc|acc|]; try done; cbn [closed_at mode_text mode_acc set_length length_ start set_state at_mode] in *; rewrite Hst.
      - cbn. apply bytes_of_app.
      - cbn [in_quotes andb doubled mode_acc] in Hd. rewrite (raw_plain _ Hd). cbn. rewrite <-app_assoc. apply bytes_of_app. }
    intros h X Hc Hl. apply runs_bind. eapply runs_deref; [exact Hfield|]. apply runs_ret.
    assert (Hsame : set_escape (Some e) (closed_at m s) = closed_at m s) by (unfold closed_at, at_mode, set_escape; by destruct s, m; cbn in *; subst).
    split_and!; [done| |exists e; split_and!; [by rewrite Hsame|done|done]]. rewrite Hl. by destruct m.
Qed.
(** Where a field is read on, or begins *)
Definition entered (m : csv_mode) (data : list Z) : csv_mode * list Z :=
  match m, data with
  | Between, c :: data' => if c =? DQUOTE then (Quoted [], data') else (Simple [], data)
  | _, _ => (m, data)
  end.

(** What the reading of a field leaves: it goes on in the next piece, or it is handed to the callback. *)
Definition field_read (fields : list (list Z)) (closed : bool) (m : csv_mode) (rest : list Z) (p : Z * flb_csv_state) : Prop :=
  offset p.2 = zlen (mode_text m) ∧
  match rest with
  | [] => p.1 = FLB_CSV_EOF ∧ csv_ok p.2 (mk_reader fields closed m) (mode_text m)
  | _ => p.1 = 0 ∧ ∃ s old e, csv_ok s (mk_reader fields closed m) old ∧ sds_ok e ∧ s_alloc e <= 2 * N ∧
      p.2 = call_back (mode_acc m) (set_escape (Some e) (closed_at m s))
  end.

Lemma csv_ok_at s r old m : csv_ok s r old → in_field m = true → start s = (if in_quotes m then 1 else 0) →
  csv_ok (at_mode m s) (mk_reader (r_fields r) (r_closed r) m) old.
Proof. intros [] Hm Hst. by constructor. Qed.

Lemma csv_ok_saved s r old b new : csv_ok s r old → sds_ok b → content b = new → s_alloc b <= 2 * N →
  csv_ok (set_buffered (Some b) s) r new.
Proof.
  intros [] Hok Hct Hal. constructor; try done; [by exists b|]. cbn. rewrite <-co_mode0 at 2. done.
Qed.

Lemma calm_parse_in s fields closed m old data data0 buffered : csv_ok s (mk_reader fields closed m) old → in_field m = true →
  zlen data < 2 ^ 31 → zlen (mode_text m ++ data0) <= N →
  (if (buffered : bool) then old = mode_text m ++ data0 else old = [] ∧ data = mode_text m ++ data0) →
  let '(m', rest) := field_scan m data0 in
  calm_run (csv_blocks s) (parse_field_in s data (zlen data) (mode_text m ++ data0) (zlen (mode_text m ++ data0)) buffered)
    (λ p, csv_blocks p.2) (field_read fields closed m' rest).
Proof.
  intros Hs Hm Hlen Hle Hbuf. pose proof (field_scan_text data0 m Hm) as Ht. destruct (field_scan m data0) as [m' rest] eqn:Hscan.
  destruct Ht as (Htext & Hm' & Hq & Hend). pose proof (co_start _ _ _ Hs Hm) as Hst. pose proof (co_mode _ _ _ Hs) as Hmode. cbn in Hst, Hmode.
  unfold parse_field_in. rewrite (parse_run s m data0), Hscan by (done || lia).
  intros h X Hc Hl. apply runs_bind. eapply runs_deref; [done|]. unfold scanned. cbn [fst snd].
  destruct rest as [|c rest].
  - change (negb (FLB_CSV_EOF =? 0)) with true. cbv iota. rewrite app_nil_r in Htext.
    assert (Hat : csv_ok (at_mode m' s) (mk_reader fields closed m') old).
    { apply (csv_ok_at s (mk_reader fields closed m)); [done|done|by rewrite Hq]. }
    destruct buffered; cbn [negb andb].
    + apply runs_ret. split_and!; [done|done|]. split; [done|]. split; [done|]. by rewrite <-Htext, <-Hbuf.
    + destruct Hbuf as [-> Hdata]. change (FLB_CSV_EOF =? FLB_CSV_EOF) with true. cbv iota. apply runs_bind. eapply runs_weaken.
      { apply (calm_save _ _ _ _ Hat); [change (zlen []) with 0; rewrite Hdata; lia|done|done|exact Hl]. }
      intros p h' (Hc' & Hl' & b & -> & Hok & Hct & Hal). apply runs_ret. split_and!; [done|done|]. split; [done|]. split; [done|].
      eapply csv_ok_saved; [exact Hat|done| |done]. by rewrite Hct, Hdata, <-Htext.
  - change (negb (0 =? 0)) with false. cbv iota.
    assert (Hcb : field_callback (closed_at m' s) = true) by (destruct m'; apply (co_callback _ _ _ Hs)). rewrite Hcb, Htext.
    assert (Hat : csv_ok (at_mode m' s) (mk_reader fields closed m') old).
    { apply (csv_ok_at s (mk_reader fields closed m)); [done|done|by rewrite Hq]. }
    assert (Hcl : closed_at m' s = closed_at m' (at_mode m' s)) by by destruct m'.
    rewrite Htext in Hle. pose proof (zlen_nonneg (c :: rest)). rewrite zlen_app in Hle. rewrite Hcl. eapply runs_weaken.
    { apply (calm_invoke _ _ _ _ _ (c :: rest) Hat Hm' (Hend ltac:(done))); [lia|done|rewrite Hl; by destruct m']. }
    intros p h' (Hc' & Hl' & e & -> & Hok & Hal). split_and!; [done|done|]. split; [by destruct m'|]. split; [done|].
    by exists (at_mode m' s), old, e.
Qed.
Lemma csv_ok_state s r old : csv_ok s r old → state s = mode_state (r_mode r) ∧ offset s = zlen (mode_text (r_mode r)) ∧
  has_dquote s = doubled (r_mode r).
Proof.
  intros Hs. destruct (proj1 (at_mode_iff _ _) (co_mode _ _ _ Hs)) as (? & ? & ?). done.
Qed.

Lemma calm_field s r data : csv_ok s r (mode_text (r_mode r)) → zlen (mode_text (r_mode r)) + zlen data <= N → zlen data < 2 ^ 31 →
  in_field (r_mode r) = true ∨ r_mode r = Between ∧ data ≠ [] →
  let '(m0, data0) := entered (r_mode r) data in
  let '(m', rest) := field_scan m0 data0 in
  calm_run (csv_blocks s) (parse_csv_field s data (zlen data)) (λ p, csv_blocks p.2) (field_read (r_fields r) (r_closed r) m' rest).
Proof.
  intros Hs Hle Hlen Hwhere. destruct r as [fields closed m]. cbn [r_mode r_fields r_closed] in *.
  destruct (csv_ok_state _ _ _ Hs) as (Hstate & Hoff & Hdq). cbn [r_mode] in *. unfold parse_csv_field.
  destruct Hwhere as [Hm|[-> Hne]].
  - assert (He : entered m data = (m, data)) by by destruct m. rewrite He, Hstate, decide_False by by destruct m.
    destruct (field_scan m data) as [m' rest] eqn:Hscan. rewrite (co_callback _ _ _ Hs).
    eapply calm_bind; [apply (calm_save _ _ _ _ Hs); [done|done]|]. intros p (b & -> & Hok & Hct & Hal).
    intros h X Hc Hl. apply runs_bind. eapply runs_deref; [done|]. rewrite Hct.
    replace (flb_sds_len b) with (zlen (mode_text m ++ data)) by (rewrite <-Hct; by apply zlen_sds).
    pose proof (calm_parse_in (set_buffered (Some b) s) fields closed m (mode_text m ++ data) data data true
      (csv_ok_saved _ _ _ _ _ Hs Hok Hct Hal) Hm Hlen) as Hp. rewrite Hscan, zlen_app in Hp. rewrite zlen_app. by apply Hp.
  - destruct data as [|c data]; [done|]. rewrite Hstate, decide_True by done. change (zlen (mode_text Between)) with 0 in *.
    cbn [entered].
    pose proof Hs as [Hcb Hbf Hes _ _ Hcl Hcn Hca]. cbn in Hcl, Hcn, Hca. destruct (Z.eqb_spec c DQUOTE) as [->|Hc0].
    + assert (Hok : csv_ok (set_start 1 (set_state FLB_CSV_STATE_STARTED_DQUOTE (set_offset 1 s))) (mk_reader fields closed (Quoted [])) []).
      { constructor; try done. unfold at_mode, set_start, set_state, set_offset. cbn. by rewrite Hdq. }
      pose proof (calm_parse_in _ fields closed (Quoted []) [] (DQUOTE :: data) data false Hok eq_refl Hlen ltac:(cbn [mode_text raw mbind list_bind app]; lia)) as Hp.
      destruct (field_scan (Quoted []) data) as [m' rest].
      intros h X Hc Hl. apply runs_bind. rewrite Hoff. eapply runs_deref; [apply (zlookup_at [] DQUOTE data)|]. by apply Hp.
    + assert (Hok : csv_ok (set_start 0 (set_state FLB_CSV_STATE_STARTED_SIMPLE s)) (mk_reader fields closed (Simple [])) []).
      { constructor; try done. unfold at_mode, set_start, set_state. cbn. by rewrite Hdq, Hoff. }
      pose proof (calm_parse_in _ fields closed (Simple []) [] (c :: data) (c :: data) false Hok eq_refl Hlen ltac:(cbn [mode_text app]; lia)) as Hp.
      destruct (field_scan (Simple []) (c :: data)) as [m' rest].
      intros h X Hc Hl. apply runs_bind. rewrite Hoff. eapply runs_deref; [apply (zlookup_at [] c data)|].
      apply Z.eqb_neq in Hc0. rewrite Hc0. change (offset (set_state FLB_CSV_STATE_STARTED_SIMPLE s)) with (offset s). rewrite Hoff. by apply Hp.
Qed.
Lemma u64_succ n : u64 (u64 n + 1) = u64 (n + 1).
Proof. unfold u64. by rewrite Z.add_mod_idemp_l. Qed.

(** After a field: it is one of the record. *)
Lemma reset_closed s1 fields closed m old e : csv_ok s1 (mk_reader fields closed m) old → sds_ok e → s_alloc e <= 2 * N →
  let s := call_back (mode_acc m) (set_escape (Some e) (closed_at m s1)) in
  ∃ s', reset_state s = Some s' ∧ csv_blocks s' = csv_blocks s ∧
    csv_ok (set_count (u64 (field_count s' + 1)) (set_parsed true s')) (mk_reader (fields ++ [mode_acc m]) true Between) [].
Proof.
  intros [Hcb (b & Hb & Hbok & Hct & Hbal) _ _ _ Hcl Hcn Hca] He Hal s. cbn in Hcl, Hcn, Hca.
  assert (Hbuf : buffered_data s = Some b) by by destruct m. unfold reset_state. change (escape_buffer s) with (Some e). rewrite Hbuf.
  eexists. split; [done|]. split; [unfold csv_blocks; by rewrite Hbuf|].
  assert (Hlen0 : ∀ d, sds_ok d → sds_ok (flb_sds_len_set d 0)).
  { intros d [Hl Hd Ha]. constructor; cbn; [lia|pose proof (zlen_nonneg (s_buf d)); lia|done]. }
  constructor; cbn; [by destruct m| | |done|done|done| |].
  - eexists. split_and!; [done|by apply Hlen0|done|done].
  - eexists. split_and!; [done|by apply Hlen0|done].
  - assert (Hcnt : field_count (closed_at m s1) = field_count s1) by by destruct m. rewrite Hcnt, Hcn, u64_succ. by rewrite zlen_snoc.
  - assert (Hcd : called (closed_at m s1) = called s1) by by destruct m. by rewrite Hcd, Hca.
Qed.

(** A comma, or the end of a record, where no field is open *)
Lemma empty_field_ok s fields closed m old : csv_ok s (mk_reader fields closed m) old → in_field m = false →
  csv_ok (set_parsed false (empty_field s)) (mk_reader (record_of fields closed) false m) old ∧
  csv_blocks (set_parsed false (empty_field s)) = csv_blocks s.
Proof.
  intros [Hcb Hb He Hmo Hst Hcl Hcn Hca] Hm. cbn in Hmo, Hcl, Hcn, Hca. unfold empty_field, record_of. rewrite Hcl.
  destruct closed.
  - split; [|done]. constructor; try done. by apply at_mode_iff; apply at_mode_iff in Hmo.
  - cbn [field_callback set_count]. rewrite Hcb. split; [|done].
    constructor; try done; [by apply at_mode_iff; apply at_mode_iff in Hmo|cbn; by rewrite Hcn, u64_succ, zlen_snoc|cbn; by rewrite Hca].
Qed.

Lemma end_of_record_ok s fields closed rest : csv_ok s (mk_reader fields closed Between) [] → ∃ s',
  end_of_record s rest = (FLB_CSV_SUCCESS, s', rest, Some (u64 (zlen (record_of fields closed)))) ∧ called s' = record_of fields closed ∧
  csv_ok (set_called [] s') fresh_reader [] ∧ csv_blocks s' = csv_blocks s.
Proof.
  intros Hs. destruct (empty_field_ok _ _ _ _ _ Hs eq_refl) as [[Hcb Hb He Hmo Hst Hcl Hcn Hca] Hbl]. cbn in Hmo, Hcl, Hcn, Hca.
  unfold end_of_record. eexists. split; [by rewrite <-Hcn|]. split; [exact Hca|]. split; [|exact Hbl].
  constructor; try done. apply at_mode_iff. by apply at_mode_iff in Hmo.
Qed.
Lemma field_scan_rest s : ∀ m, (length (field_scan m s).2 <= length s)%nat.
Proof.
  induction s as [|c s IH]; intros m; [done|]. destruct m as [|acc|acc|acc|]; cbn [field_scan]; [cbn; lia| | | |cbn; lia].
  - destruct (ends_field c); [cbn; lia|]. specialize (IH (Simple (acc ++ [c]))). cbn. lia.
  - specialize (IH (if c =? DQUOTE then QuoteSeen acc else Quoted (acc ++ [c]))). cbn. lia.
  - destruct (c =? DQUOTE); [|cbn; lia]. specialize (IH (Quoted (acc ++ [c]))). cbn. lia.
Qed.

(** What the specification says of a field *)
Lemma entered_ok fields closed m data : in_field m = true ∨ m = Between ∧ (∃ c s', data = c :: s' ∧ ends_field c = false) →
  let '(m0, data0) := entered m data in
  let '(m', rest) := field_scan m0 data0 in
  mode_text m ++ data = mode_text m' ++ rest ∧ (length rest <= length data)%nat ∧ (in_field m = false → (length rest < length data)%nat) ∧
  next_record (mk_reader fields closed m) data =
    if rest is [] then inr (mk_reader fields closed m') else next_record (mk_reader (fields ++ [mode_acc m']) true Between) rest.
Proof.
  intros [Hm|(-> & c & s & -> & Hc)].
  - assert (He : entered m data = (m, data)) by by destruct m. rewrite He. pose proof (field_scan_text data m Hm) as Ht.
    pose proof (field_scan_rest data m) as Hr. pose proof (next_record_field fields closed data m Hm) as Hn.
    destruct (field_scan m data) as [m' rest]. cbn in Hr. split_and!; [by apply Ht|done|by rewrite Hm|done].
  - assert (Hstep : next_record (mk_reader fields closed Between) (c :: s) =
      next_record (mk_reader fields closed (if c =? DQUOTE then Quoted [] else Simple [c])) s).
    { unfold ends_field in Hc. apply orb_false_iff in Hc as [Hc Hcr]. apply orb_false_iff in Hc as [Hco Hlf].
      cbn [next_record]. by rewrite Hcr, Hlf, Hco. }
    rewrite Hstep. cbn [entered]. destruct (Z.eqb_spec c DQUOTE) as [->|Hq].
    + pose proof (field_scan_text s (Quoted []) eq_refl) as Ht. pose proof (field_scan_rest s (Quoted [])) as Hr.
      pose proof (next_record_field fields closed s (Quoted []) eq_refl) as Hn. destruct (field_scan (Quoted []) s) as [m' rest].
      cbn in Hr. split_and!; [apply Ht|cbn; lia|cbn; lia|done].
    + cbn [field_scan]. rewrite Hc. cbn [app].
      pose proof (field_scan_text s (Simple [c]) eq_refl) as Ht. pose proof (field_scan_rest s (Simple [c])) as Hr.
      pose proof (next_record_field fields closed s (Simple [c]) eq_refl) as Hn. destruct (field_scan (Simple [c]) s) as [m' rest].
      cbn in Hr. split_and!; [apply Ht|cbn; lia|cbn; lia|done].
Qed.

Lemma drop_advanced (w w' data rest : list Z) : w ++ data = w' ++ rest → (length rest <= length data)%nat →
  drop (Z.to_nat (zlen w' - zlen w)) data = rest.
Proof.
  intros Heq Hle. pose proof (f_equal length Heq) as Hl. rewrite !length_app in Hl.
  pose proof (f_equal (drop (length w')) Heq) as Hd. rewrite drop_app_length, drop_app_ge in Hd by lia. rewrite <-Hd. f_equal.
  unfold zlen. lia.
Qed.

(** What a call leaves *)
Definition record_read (r : csv_reader) (data : list Z) (p : Z * flb_csv_state * list Z * option Z) : Prop :=
  match next_record r data with
  | inr r' => ∃ s', p = (FLB_CSV_EOF, s', [], None) ∧ csv_ok s' r' (mode_text (r_mode r'))
  | inl (rec, rest) => ∃ s', p = (FLB_CSV_SUCCESS, s', rest, Some (u64 (zlen rec))) ∧ called s' = rec ∧ csv_ok (set_called [] s') fresh_reader []
  end.

Definition loop_ok (fuel : nat) : Prop := ∀ s r data,
  csv_ok s r (mode_text (r_mode r)) → zlen (mode_text (r_mode r)) + zlen data <= N → zlen data < 2 ^ 31 →
  (2 * length data + (if in_field (r_mode r) then 2 else 1) <= fuel)%nat →
  calm_run (csv_blocks s) (parse_record_loop fuel s data) (λ p, csv_blocks p.1.1.2) (record_read r data).

(** The turn of the loop that reads a field *)
Lemma calm_field_step fuel s fields closed m data : loop_ok fuel → csv_ok s (mk_reader fields closed m) (mode_text m) →
  zlen (mode_text m) + zlen data <= N → zlen data < 2 ^ 31 → (2 * length data + (if in_field m then 2 else 1) <= S fuel)%nat →
  in_field m = true ∨ m = Between ∧ (∃ c s', data = c :: s' ∧ ends_field c = false) →
  calm_run (csv_blocks s)
    ('(ret, s') ← parse_csv_field s data (zlen data);
     let data := drop (Z.to_nat (offset s' - offset s)) data in
     if negb (ret =? 0) then mret (ret, if field_callback s' then s' else set_offset 0 s', data, None)
     else
       s' ← deref (reset_state s');
       let s' := set_parsed true s' in
       parse_record_loop fuel (set_count (u64 (field_count s' + 1)) s') data)
    (λ p, csv_blocks p.1.1.2) (record_read (mk_reader fields closed m) data).
Proof.
  intros IH Hs Hle Hlen Hfuel Hwhere. pose proof (entered_ok fields closed m data Hwhere) as Hent.
  pose proof (calm_field s (mk_reader fields closed m) data Hs Hle Hlen) as Hfield. cbn [r_mode r_fields r_closed] in Hfield.
  destruct (entered m data) as [m0 data0]. destruct (field_scan m0 data0) as [m' rest]. destruct Hent as (Htext & Hrest & Hless & Hnext).
  destruct (csv_ok_state _ _ _ Hs) as (_ & Hoff & _). cbn in Hoff. unfold record_read. rewrite Hnext.
  eapply calm_bind; [apply Hfield; destruct Hwhere as [|(-> & ? & ? & -> & ?)]; auto|].
  intros [ret s'] [Hoff' Hread]. cbn [fst snd] in *. rewrite Hoff, Hoff', (drop_advanced _ _ _ _ Htext Hrest).
  destruct rest as [|c rest].
  - destruct Hread as [-> Hok]. apply calm_ret; cbn [negb Z.eqb FLB_CSV_EOF]; rewrite (co_callback _ _ _ Hok); [done|].
    by exists s'.
  - destruct Hread as (-> & s1 & old & e & Hok & He & Hal & ->). cbn [negb Z.eqb].
    destruct (reset_closed _ _ _ _ _ _ Hok He Hal) as (s2 & Hreset & Hbl & Hok2).
    intros h X Hc Hl. apply runs_bind. eapply runs_deref; [exact Hreset|].
    assert (zlen (c :: rest) <= zlen data) by (unfold zlen; lia). pose proof (zlen_nonneg (mode_text m)).
    apply (IH _ (mk_reader (fields ++ [mode_acc m']) true Between)); [exact Hok2|change (zlen (mode_text _)) with 0; lia|lia| |done|].
    + cbn [in_field r_mode]. destruct (in_field m); [lia|]. specialize (Hless eq_refl). lia.
    + rewrite Hl. by rewrite <-Hbl.
Qed.

Lemma calm_loop fuel : loop_ok fuel.
Proof.
  induction fuel as [|fuel IH]; intros s r data Hs Hle Hlen Hfuel; [destruct (in_field _); lia|].
  destruct data as [|c data]; cbn [parse_record_loop].
  { apply calm_ret; [done|]. exists s. by split. }
  destruct (csv_ok_state _ _ _ Hs) as (Hstate & Hoff & Hdq). destruct r as [fields closed m]. cbn [r_mode] in *.
  pose proof (calm_field_step fuel s fields closed m (c :: data) IH Hs Hle Hlen Hfuel) as Hstep. rewrite Hstate.
  assert (Hle' : zlen data <= zlen (c :: data)) by (rewrite zlen_cons; lia). cbn [length] in Hfuel.
  destruct m as [|acc|acc|acc|]; cbn [mode_state in_field] in *; try (apply Hstep; by left).
  - change (zlen (mode_text Between)) with 0 in *. destruct (c =? CR) eqn:Hcr; [|destruct (c =? LF) eqn:Hlf; [|destruct (c =? COMMA) eqn:Hco]].
    + assert (Hs' : csv_ok (set_state FLB_CSV_STATE_FOUND_CR s) (mk_reader fields closed CrSeen) []).
      { destruct Hs. constructor; try done. by apply at_mode_iff. }
      eapply calm_weaken; [apply (IH _ _ _ Hs'); [change (zlen (mode_text _)) with 0; lia|lia|cbn; lia]|].
      intros p Hp. split; [done|]. unfold record_read in *. cbn [next_record]. by rewrite Hcr.
    + destruct (end_of_record_ok s fields closed data Hs) as (s' & -> & Hcalled & Hs' & Hbl).
      apply calm_ret; [by rewrite <-Hbl|]. unfold record_read. cbn [next_record]. rewrite Hcr, Hlf. by exists s'.
    + destruct (empty_field_ok _ _ _ _ _ Hs eq_refl) as [Hs' Hbl]. rewrite <-Hbl.
      eapply calm_weaken; [apply (IH _ _ _ Hs'); [change (zlen (mode_text _)) with 0; lia|lia|cbn; lia]|].
      intros p Hp. split; [done|]. unfold record_read in *. cbn [next_record]. by rewrite Hcr, Hlf, Hco.
    + apply Hstep. right. split; [done|]. exists c, data. split; [done|]. unfold ends_field. by rewrite Hcr, Hlf, Hco.
  - assert (Hs' : csv_ok (set_state FLB_CSV_STATE_INITIAL s) (mk_reader fields closed Between) []).
    { destruct Hs. constructor; try done. by apply at_mode_iff. }
    destruct (end_of_record_ok _ fields closed (if c =? LF then data else c :: data) Hs') as (s' & -> & Hcalled & Hok & Hbl).
    apply calm_ret; [change (csv_blocks s) with (csv_blocks (set_state FLB_CSV_STATE_INITIAL s)); by rewrite <-Hbl|].
    unfold record_read. cbn [next_record]. by exists s'.
Qed.

Lemma calm_parse_record s r data : csv_ok s r (mode_text (r_mode r)) → zlen (mode_text (r_mode r)) + zlen data <= N → zlen data < 2 ^ 31 →
  calm_run (csv_blocks s) (flb_csv_parse_record s data) (λ p, csv_blocks p.1.1.2) (record_read r data).
Proof. intros Hs Hle Hlen. apply calm_loop; [done..|]. destruct (in_field _); lia. Qed.

(** *** Feeding *)

(** What is left of a text after a record, and what is known of a field at its end *)
Lemma next_record_rest data : ∀ r,
  match next_record r data with
  | inl (_, rest) => (length rest <= length data)%nat ∧ (r_mode r ≠ CrSeen → (length rest < length data)%nat)
  | inr r' => zlen (mode_text (r_mode r')) <= zlen (mode_text (r_mode r)) + zlen data
  end.
Proof.
  induction data as [|c data IH]; intros [fields closed m]; [cbn [next_record r_mode]; change (zlen []) with 0; lia|].
  assert (Hgo : ∀ m' fields' closed', zlen (mode_text m') <= zlen (mode_text m) + 1 →
    match next_record (mk_reader fields' closed' m') data with
    | inl (_, rest) => (length rest <= length (c :: data))%nat ∧ (m ≠ CrSeen → (length rest < length (c :: data))%nat)
    | inr r' => zlen (mode_text (r_mode r')) <= zlen (mode_text m) + zlen (c :: data)
    end).
  { intros m' fields' closed' Hm. specialize (IH (mk_reader fields' closed' m')). cbn [r_mode] in IH.
    destruct (next_record _ data) as [[rec rest]|r']; cbn [length]; [lia|]. rewrite zlen_cons. lia. }
  assert (Hz : ∀ l : list Z, 0 <= zlen l) by (intros; apply zlen_nonneg).
  assert (Hbetween : ∀ fields' closed',
    match
      (if c =? CR then next_record (mk_reader fields' closed' CrSeen) data
       else if c =? LF then inl (record_of fields' closed', data)
       else if c =? COMMA then next_record (mk_reader (record_of fields' closed') false Between) data
       else next_record (mk_reader fields' closed' (if c =? DQUOTE then Quoted [] else Simple [c])) data)
    with
    | inl (_, rest) => (length rest <= length (c :: data))%nat ∧ (m ≠ CrSeen → (length rest < length (c :: data))%nat)
    | inr r' => zlen (mode_text (r_mode r')) <= zlen (mode_text m) + zlen (c :: data)
    end).
  { intros fields' closed'. pose proof (Hz (mode_text m)). destruct (c =? CR); [apply Hgo; cbn [mode_text]; lens|].
    destruct (c =? LF); [cbn [length]; lia|]. destruct (c =? COMMA); [apply Hgo; cbn [mode_text]; lens|].
    apply Hgo. destruct (c =? DQUOTE); cbn [mode_text raw mbind list_bind]; lens. }
  destruct m as [|acc|acc|acc|]; cbn [next_record r_mode]; [apply Hbetween| | | |].
  - destruct (ends_field c); [apply Hbetween|]. apply Hgo. cbn [mode_text]. rewrite zlen_snoc. lia.
  - apply Hgo. destruct (c =? DQUOTE) eqn:Hc; cbn [mode_text]; [lens|]. rewrite raw_snoc, Hc. lens.
  - destruct (c =? DQUOTE) eqn:Hc; [|apply Hbetween]. apply Hgo. cbn [mode_text]. rewrite raw_snoc, Hc. lens.
  - destruct (c =? LF); cbn [length]; split; try lia; intros; congruence.
Qed.
(** The records of a piece with the numbers of their fields *)
Definition counted (recs : list (list (list Z))) : list (list (list Z) * Z) := (λ rec, (rec, u64 (zlen rec))) <$> recs.
Definition fed (r : csv_reader) (text : list Z) (p : list (list (list Z) * Z) * flb_csv_state) : Prop :=
  ∃ recs r', csv_text r text recs r' ∧ p.1 = counted recs ∧ csv_ok p.2 r' (mode_text (r_mode r')) ∧
    zlen (mode_text (r_mode r')) <= zlen (mode_text (r_mode r)) + zlen text.

Lemma calm_feed_piece fuel : ∀ s r data, csv_ok s r (mode_text (r_mode r)) → zlen (mode_text (r_mode r)) + zlen data <= N →
  zlen data < 2 ^ 31 → (2 * length data + (if decide (r_mode r = CrSeen) then 2 else 1) <= fuel)%nat →
  calm_run (csv_blocks s) (feed_piece fuel s data) (λ p, csv_blocks p.2) (fed r data).
Proof.
  induction fuel as [|fuel IH]; intros s r data Hs Hle Hlen Hfuel; [case_decide; lia|]. cbn [feed_piece].
  eapply calm_bind; [by apply (calm_parse_record s r data)|]. intros p Hp. unfold record_read in Hp.
  pose proof (next_record_rest data r) as Hrest. destruct (next_record r data) as [[rec rest]|r'] eqn:Hnext.
  - destruct Hp as (s' & -> & Hcalled & Hs'). destruct Hrest as [Hrest Hless].
    assert (zlen rest <= zlen data) by (unfold zlen; lia). pose proof (zlen_nonneg (mode_text (r_mode r))).
    eapply calm_bind; [apply (IH _ _ rest Hs'); [change (zlen (mode_text _)) with 0; lia|lia|]|].
    { cbn [r_mode fresh_reader]. rewrite decide_False by done. case_decide as Hcr; [lia|]. specialize (Hless Hcr). lia. }
    intros [recs s2] (recs' & r2 & Htext & Hrecs & Hok & Hz). cbn in Hrecs, Hok. apply calm_ret; [done|].
    exists (rec :: recs'), r2. split_and!; [by econstructor|by rewrite Hrecs, Hcalled|done|].
    change (zlen (mode_text (r_mode fresh_reader))) with 0 in Hz. lia.
  - destruct Hp as (s' & -> & Hs'). apply calm_ret; [done|]. exists [], r'. by split_and!; [constructor|..].
Qed.

Lemma csv_text_app r s recs r' t recs' r'' : csv_text r s recs r' → csv_text r' t recs' r'' → csv_text r (s ++ t) (recs ++ recs') r''.
Proof.
  intros Hs Ht. induction Hs as [r s r' Hn|r s rec rest recs r' Hn Hs IH].
  - pose proof (next_record_app s r t) as Happ. rewrite Hn in Happ. inv Ht; [constructor|econstructor]; [by rewrite Happ|by rewrite Happ|done].
  - cbn [app]. econstructor; [|by apply IH]. by rewrite next_record_app, Hn.
Qed.

Lemma calm_feed pieces : ∀ s r, csv_ok s r (mode_text (r_mode r)) → zlen (mode_text (r_mode r)) + zlen (concat pieces) <= N →
  Forall (λ data, zlen data < 2 ^ 31) pieces →
  calm_run (csv_blocks s) (feed s pieces) (λ p, csv_blocks p.2) (fed r (concat pieces)).
Proof.
  induction pieces as [|data pieces IH]; intros s r Hs Hle Hlen; cbn [feed concat].
  - apply calm_ret; [done|]. exists [], r. split_and!; [by constructor|done|done|]. change (zlen []) with 0. lia.
  - inv Hlen. cbn [concat] in Hle. rewrite zlen_app in Hle. pose proof (zlen_nonneg (concat pieces)).
    eapply calm_bind; [apply (calm_feed_piece _ s r data Hs); [lia|done|case_decide; lia]|].
    intros [recs s1] (recs1 & r1 & Htext & Hrecs & Hok & Hz). cbn in Hrecs, Hok.
    eapply calm_bind; [apply (IH _ _ Hok); [lia|done]|].
    intros [recs' s2] (recs2 & r2 & Htext' & Hrecs' & Hok' & Hz'). cbn in Hrecs', Hok'. apply calm_ret; [done|].
    exists (recs1 ++ recs2), r2. split_and!; [by eapply csv_text_app|by rewrite Hrecs, Hrecs'; unfold counted; rewrite fmap_app|done|].
    cbn. rewrite zlen_app. lia.
Qed.

Lemma calm_init : 0 <= N → calm_run [] (flb_csv_init true) csv_blocks (λ s, csv_ok s fresh_reader []).
Proof.
  intros HN0. unfold flb_csv_init. eapply calm_bind; [apply calm_create_empty|]. intros b (b' & -> & Hb & Hbc & Hbl & Hba).
  eapply calm_bind.
  { eapply calm_perm; [|apply (calm_frame (sds_blocks (Some b')) []), calm_create_empty]. done. }
  intros e (e' & -> & He & Hec & Hel & Hea). eapply calm_deref; [done|apply Permutation_app_comm|].
  assert (Hlen0 : ∀ d, sds_ok d → sds_ok (flb_sds_len_set d 0)).
  { intros d [Hl Hd Ha]. constructor; cbn; [lia|pose proof (zlen_nonneg (s_buf d)); lia|done]. }
  constructor; try done; eexists; split_and!; try done; try (by apply Hlen0); cbn; lia.
Qed.

Lemma calm_csv_destroy s : calm_run (csv_blocks s) (flb_csv_destroy s) (λ _, []) (λ _, True).
Proof.
  unfold flb_csv_destroy. eapply calm_bind; [apply (calm_frame (sds_blocks (escape_buffer s))), calm_destroy|].
  intros u _. apply (calm_destroy (escape_buffer s)).
Qed.
End parser.

(** ** Writing

    The text of records after RFC 4180: fields with a separator or a quote in them are quoted. *)

Definition plain (f : list Z) : bool := negb (existsb (λ c, ends_field c || (c =? DQUOTE)) f).
Definition csv_field (f : list Z) : list Z := if plain f then f else DQUOTE :: raw f ++ [DQUOTE].
Fixpoint csv_fields (fs : list (list Z)) : list Z :=
  match fs with
  | [] => []
  | [f] => csv_field f
  | f :: fs' => csv_field f ++ COMMA :: csv_fields fs'
  end.
Definition csv_line (rec : list (list Z)) : list Z := csv_fields rec ++ [CR; LF].

Lemma read_simple fields closed c t f : ∀ acc, existsb ends_field f = false → ends_field c = true →
  next_record (mk_reader fields closed (Simple acc)) (f ++ c :: t) = next_record (mk_reader (fields ++ [acc ++ f]) true Between) (c :: t).
Proof.
  induction f as [|d f IH]; intros acc Hf Hc.
  - cbn [app]. rewrite app_nil_r. cbn [next_record]. by rewrite Hc.
  - cbn [existsb] in Hf. apply orb_false_iff in Hf as [Hd Hf]. cbn [app]. rewrite (snoc_cons acc d f), <-IH by done. cbn [next_record]. by rewrite Hd.
Qed.

Lemma read_quoted fields closed c t f : ∀ acc, c ≠ DQUOTE →
  next_record (mk_reader fields closed (Quoted acc)) (raw f ++ DQUOTE :: c :: t) =
  next_record (mk_reader (fields ++ [acc ++ f]) true Between) (c :: t).
Proof.
  intros acc Hc. apply Z.eqb_neq in Hc. revert acc. induction f as [|d f IH]; intros acc.
  - rewrite app_nil_r. cbn [raw mbind list_bind app next_record]. by rewrite Z.eqb_refl, Hc.
  - rewrite (snoc_cons acc d f), <-IH. unfold raw. cbn [mbind list_bind]. fold (raw f).
    destruct (Z.eqb_spec d DQUOTE) as [->|Hd]; cbn [app next_record]; [by rewrite !Z.eqb_refl|].
    apply Z.eqb_neq in Hd. by rewrite Hd.
Qed.

Lemma plain_separators f : existsb (λ c, ends_field c || (c =? DQUOTE)) f = false → existsb ends_field f = false.
Proof.
  induction f as [|c f IH]; [done|]. cbn [existsb]. intros [Hc Hf]%orb_false_iff. apply orb_false_iff in Hc as [-> _]. by apply IH.
Qed.

(** A field before a separator; the empty one is found at the separator. *)
Lemma read_field fields f c t : ends_field c = true → next_record (mk_reader fields false Between) (csv_field f ++ c :: t) =
  if f is [] then next_record (mk_reader fields false Between) (c :: t) else next_record (mk_reader (fields ++ [f]) true Between) (c :: t).
Proof.
  intros Hc. unfold csv_field. destruct (plain f) eqn:Hp.
  - unfold plain in Hp. destruct f as [|d f]; [done|]. apply negb_true_iff in Hp.
    cbn [existsb] in Hp. apply orb_false_iff in Hp as [Hds Hp]. apply orb_false_iff in Hds as [Hds Hd]. apply plain_separators in Hp as Hf.
    change (d :: f) with ([d] ++ f). rewrite <-(read_simple fields false) by done.
    unfold ends_field in Hds. apply orb_false_iff in Hds as [Hds Hcr]. apply orb_false_iff in Hds as [Hco Hlf].
    cbn [app next_record]. by rewrite Hcr, Hlf, Hco, Hd.
  - destruct f as [|d f]; [done|]. assert (Hq : c ≠ DQUOTE) by (intros ->; done).
    rewrite <-(app_nil_l (d :: f)) at 2. rewrite <-(read_quoted fields false c t (d :: f) [] Hq).
    cbn [app next_record]. by rewrite <-app_assoc.
Qed.

Lemma read_fields fs : ∀ fields f t, next_record (mk_reader fields false Between) (csv_fields (f :: fs) ++ CR :: LF :: t) = inl (fields ++ f :: fs, t).
Proof.
  induction fs as [|g fs IH]; intros fields f t.
  - cbn [csv_fields]. rewrite read_field by done. destruct f; done.
  - change (csv_fields (f :: g :: fs)) with (csv_field f ++ COMMA :: csv_fields (g :: fs)). rewrite <-app_assoc. cbn [app].
    rewrite read_field by done. rewrite (cons_middle f fields (g :: fs)), app_assoc, <-IH. by destruct f.
Qed.

Lemma csv_written recs : Forall (λ rec, rec ≠ []) recs → csv_text fresh_reader (concat (csv_line <$> recs)) recs fresh_reader.
Proof.
  induction 1 as [|rec recs Hrec _ IH]; [by constructor|]. destruct rec as [|f fs]; [done|].
  econstructor; [|exact IH]. cbn [fmap list_fmap concat]. unfold csv_line at 1. rewrite <-app_assoc. apply read_fields.
Qed.

Lemma csv_text_unique r s recs r' recs' r'' : csv_text r s recs r' → csv_text r s recs' r'' → recs = recs' ∧ r' = r''.
Proof.
  intros Hs. revert recs' r''. induction Hs as [r s r' Hn|r s rec rest recs r' Hn Hs IH]; intros recs' r'' Ht; inv Ht; try congruence.
  - split; congruence.
  - rewrite Hn in H. inv H. by destruct (IH _ _ H0) as [-> ->].
Qed.

(** ** Properties *)

(** A whole life of a parser *)
Definition parse_pieces (pieces : list (list Z)) : M heap (list (list (list Z) * Z) * flb_csv_state) :=
  s ← flb_csv_init true;
  p ← feed s pieces;
  flb_csv_destroy p.2 ≫= λ _, mret p.

(** C40. However a text is cut into pieces, a parser with a callback that is fed with them while no allocation fails calls
    back with the fields of each record of the text, one after the other without their quotes, says how many they are, and
    gives all memory back in the end; so the records written to a text after RFC 4180, with any bytes in their fields, are
    read as they were.  (The text is below 2 ^ 60 bytes, each piece below 2 GB; fields are counted modulo 2 ^ 64.) *)
Theorem csv_stream_exact pieces h : calm (hp_env h) → Forall (λ data, zlen data < 2 ^ 31) pieces → zlen (concat pieces) < 2 ^ 60 →
  runs (parse_pieces pieces) h (λ p h', hp_live h' ≡ₚ hp_live h ∧
    (∃ recs r', csv_text fresh_reader (concat pieces) recs r' ∧ p.1 = counted recs ∧ called p.2 = r_fields r') ∧
    (∀ recs, Forall (λ rec, rec ≠ []) recs → concat pieces = concat (csv_line <$> recs) → p.1 = counted recs ∧ called p.2 = [])).
Proof.
  intros Hc Hpieces HN. set (N := zlen (concat pieces)) in *. unfold parse_pieces. apply runs_bind. eapply runs_weaken.
  { apply (calm_init N (zlen_nonneg _) h (hp_live h) Hc); done. }
  intros s h1 (Hc1 & Hl1 & Hs). apply runs_bind. eapply runs_weaken.
  { apply (calm_feed N HN pieces s fresh_reader Hs); [change (zlen (mode_text _)) with 0; lia|done|done|exact Hl1]. }
  intros p h2 (Hc2 & Hl2 & recs & r' & Htext & Hrecs & Hok & _). apply runs_bind. eapply runs_weaken.
  { by apply (calm_csv_destroy p.2 h2 (hp_live h)). }
  intros u h3 (_ & Hl3 & _). apply runs_ret. split; [done|]. pose proof (co_called _ _ _ _ Hok) as Hcalled.
  split; [by exists recs, r'|]. intros recs' Hne Heq. rewrite Heq in Htext.
  destruct (csv_text_unique _ _ _ _ _ _ Htext (csv_written recs' Hne)) as [-> ->]. done.
Qed.

(** Two fields, the second with a quote in it; the text is cut within the quotes and before the LF. *)
Lemma csv_stream_exact_witness : let pieces := [[97; 44; 34]; [98; 34]; [34; 34; 13]; [10]] in
  ∃ p h', parse_pieces pieces (mk_heap (mk_env [] [] [] 0 0 []) []) = Some (p, h') ∧ p.1 = [([[97]; [98; 34]], 2)].
Proof.
  intros pieces. destruct (csv_stream_exact pieces (mk_heap (mk_env [] [] [] 0 0 []) [])) as (p & h' & Hrun & _ & _ & Hw).
  - done.
  - repeat constructor.
  - done.
  - exists p, h'. split; [exact Hrun|].
    destruct (Hw [[[97]; [98; 34]]]) as [-> _]; [by apply Forall_singleton|reflexivity|]. vm_compute. reflexivity.
Defined.

(** [flb_csv_init] does not look whether its buffers were allocated. *)
Lemma csv_init_crashes h script : e_alloc (hp_env h) = false :: script → flb_csv_init true h = None.
Proof.
  destruct h as [[al sy ra no ne lo] live]. cbn. intros ->. unfold flb_csv_init, flb_sds_create, flb_sds_create_len, sds_alloc, alloc.
  cbn. destruct script as [|[|] script]; reflexivity.
Qed.
