(* ===== verification/MsgUnpack.v ===== *)
(** * Reading MessagePack ([src/source/lib/msgpack-c]: [unpack.c] and [unpack_template.h])

    The agent reads logs with the unpacker of the vendored library, a machine over the bytes with a stack of
    32 containers.  It starts anew for every object, so a partial object is read again from its start.  What
    the memory zone answers is a parameter: whether there is room for a container or a reference. *)
From Corelib Require Import SpecFloat.
From S2P Require Import Prelude CStd Env Heap MsgPack LogDecoder Packer.

(** ** Data *)

Definition MSGPACK_EMBED_STACK_SIZE : Z := 32.
Definition MSGPACK_UNPACK_PARSE_ERROR : Z := -1.
Definition MSGPACK_UNPACK_NOMEM_ERROR : Z := -2.
(** The states of [msgpack_unpack_state] are the low bits of the first byte; then those that wait for content *)
Definition MSGPACK_ACS_STR_VALUE : Z := 0x20.
Definition MSGPACK_ACS_BIN_VALUE : Z := 0x21.
Definition MSGPACK_ACS_EXT_VALUE : Z := 0x22.

Inductive msgpack_container_type := MSGPACK_CT_ARRAY_ITEM | MSGPACK_CT_MAP_KEY | MSGPACK_CT_MAP_VALUE.
Record template_stack := mk_stack {
  ts_obj : msgpack_object; ts_count : Z; ts_ct : msgpack_container_type; ts_map_key : msgpack_object
}.

(** Where the machine is: at a first byte, or at the [trail] bytes that its state asks for *)
Inductive label := _header_again | _fixed_trail_again (cs trail : Z).
Record template_context := mk_template { cx_label : label; cx_p : Z; cx_stack : list template_stack }.

(** ** Callbacks *)

Definition i16 (z : Z) : Z := (z + 2 ^ 15) mod 2 ^ 16 - 2 ^ 15.
Definition template_callback_int (d : Z) : msgpack_object :=
  if 0 <=? d then MSGPACK_OBJECT_POSITIVE_INTEGER d else MSGPACK_OBJECT_NEGATIVE_INTEGER d.
Definition template_callback_array_item (c o : msgpack_object) : msgpack_object :=
  match c with MSGPACK_OBJECT_ARRAY l => MSGPACK_OBJECT_ARRAY (l ++ [o]) | _ => c end.
Definition template_callback_map_item (c k v : msgpack_object) : msgpack_object :=
  match c with MSGPACK_OBJECT_MAP l => MSGPACK_OBJECT_MAP (l ++ [(k, v)]) | _ => c end.
(** The type is the first byte; without one it is an error. *)
Definition template_callback_ext (bytes : list Z) : option msgpack_object :=
  match bytes with [] => None | t :: s => Some (MSGPACK_OBJECT_EXT (i8 t) s) end.

(** [_push]: an object is an item of the innermost container, which may be complete with it, or the result. *)
Fixpoint _push (obj : msgpack_object) (stack : list template_stack) : msgpack_object + list template_stack :=
  match stack with
  | [] => inl obj
  | c :: stack' =>
      match ts_ct c with
      | MSGPACK_CT_ARRAY_ITEM =>
          let o := template_callback_array_item (ts_obj c) obj in
          if ts_count c - 1 =? 0 then _push o stack'
          else inr (mk_stack o (ts_count c - 1) MSGPACK_CT_ARRAY_ITEM (ts_map_key c) :: stack')
      | MSGPACK_CT_MAP_KEY => inr (mk_stack (ts_obj c) (ts_count c) MSGPACK_CT_MAP_VALUE obj :: stack')
      | MSGPACK_CT_MAP_VALUE =>
          let o := template_callback_map_item (ts_obj c) (ts_map_key c) obj in
          if ts_count c - 1 =? 0 then _push o stack'
          else inr (mk_stack o (ts_count c - 1) MSGPACK_CT_MAP_KEY (ts_map_key c) :: stack')
      end
  end.

(** Big-endian numbers *)
Definition load (bytes : list Z) : Z := foldl (λ n x, n * 2 ^ 8 + x) 0 bytes.

Section unpack.
(** The numbers of 4 and 8 bytes, and what the zone answers at an offset when it is asked for so many bytes *)
Variables float_of double_of : list Z → double.
Variable zone_malloc : Z → Z → bool.

Section machine.
Variable data : list Z.
Abbreviation pe := (zlen data).
(** The machine goes on, or it stops with its result, the offset and an object. *)
Abbreviation outcome := (template_context + Z * Z * msgpack_object)%type.

Definition stop (ret p : Z) : outcome := inr (ret, p, MSGPACK_OBJECT_NIL).
Definition header_again (stack : list template_stack) (p : Z) : outcome :=
  if p + 1 =? pe then stop 0 (p + 1) else inl (mk_template _header_again (p + 1) stack).
Definition push (obj : msgpack_object) (stack : list template_stack) (p : Z) : outcome :=
  match _push obj stack with
  | inl obj => inr (1, p + 1, obj)
  | inr stack => header_again stack p
  end.
Definition again_fixed_trail (cs trail : Z) (stack : list template_stack) (p : Z) : outcome :=
  inl (mk_template (_fixed_trail_again cs trail) (p + 1) stack).

(** The [len] bytes at an offset; outside the data they are undefined. *)
Definition trail_bytes (n len : Z) : option (list Z) :=
  if (0 <=? n) && (0 <=? len) && (n + len <=? pe) then Some (take (Z.to_nat len) (drop (Z.to_nat n) data)) else None.

(** [push_variable_value] of [_str], [_bin] and [_ext] *)
Definition push_variable_value (cs n len : Z) (stack : list template_stack) (p : Z) : option outcome :=
  bytes ← trail_bytes n len;
  if cs =? MSGPACK_ACS_EXT_VALUE then
    match template_callback_ext bytes with
    | None => Some (stop MSGPACK_UNPACK_PARSE_ERROR p)
    | Some o => Some (if zone_malloc p 0 then push o stack p else stop MSGPACK_UNPACK_NOMEM_ERROR p)
    end
  else
    let o := if cs =? MSGPACK_ACS_STR_VALUE then MSGPACK_OBJECT_STR bytes else MSGPACK_OBJECT_BIN bytes in
    Some (if zone_malloc p 0 then push o stack p else stop MSGPACK_UNPACK_NOMEM_ERROR p).
(** Without content the pointer may be anything: nothing is read. *)
Definition again_fixed_trail_if_zero (cs trail : Z) (stack : list template_stack) (p : Z) : option outcome :=
  if trail =? 0 then push_variable_value cs 0 0 stack p else Some (again_fixed_trail cs trail stack p).

(** [sizeof(msgpack_object)] is 24, that of a pair 48; the array is announced by the data and allocated at once. *)
Definition template_callback_array (p n : Z) : option msgpack_object :=
  if zone_malloc p (n * 24) then Some (MSGPACK_OBJECT_ARRAY []) else None.
Definition template_callback_map (p n : Z) : option msgpack_object :=
  if zone_malloc p (n * 48) then Some (MSGPACK_OBJECT_MAP []) else None.
Definition start_container (ct : msgpack_container_type) (count : Z) (stack : list template_stack) (p : Z) : outcome :=
  if MSGPACK_EMBED_STACK_SIZE <=? zlen stack then stop MSGPACK_UNPACK_NOMEM_ERROR p
  else
    match (match ct with MSGPACK_CT_ARRAY_ITEM => template_callback_array | _ => template_callback_map end) p count with
    | None => stop MSGPACK_UNPACK_NOMEM_ERROR p
    | Some obj =>
        if count =? 0 then push obj stack p
        else header_again (mk_stack obj count ct MSGPACK_OBJECT_NIL :: stack) p
    end.

(** [case MSGPACK_CS_HEADER] *)
Definition header (h : Z) (stack : list template_stack) (p : Z) : option outcome :=
  let next_cs := Z.land h 0x1f in
  if (0x00 <=? h) && (h <=? 0x7f) then Some (push (MSGPACK_OBJECT_POSITIVE_INTEGER h) stack p)
  else if (0xe0 <=? h) && (h <=? 0xff) then Some (push (template_callback_int (i8 h)) stack p)
  else if (0xc0 <=? h) && (h <=? 0xdf) then
    match h with
    | 0xc0 => Some (push MSGPACK_OBJECT_NIL stack p)
    | 0xc2 => Some (push (MSGPACK_OBJECT_BOOLEAN false) stack p)
    | 0xc3 => Some (push (MSGPACK_OBJECT_BOOLEAN true) stack p)
    | 0xc4 | 0xc5 | 0xc6 => Some (again_fixed_trail next_cs (Z.shiftl 1 (Z.land h 0x03)) stack p)
    | 0xc7 | 0xc8 | 0xc9 => Some (again_fixed_trail next_cs (Z.shiftl 1 (Z.land (h + 1) 0x03)) stack p)
    | 0xca | 0xcb | 0xcc | 0xcd | 0xce | 0xcf | 0xd0 | 0xd1 | 0xd2 | 0xd3 =>
        Some (again_fixed_trail next_cs (Z.shiftl 1 (Z.land h 0x03)) stack p)
    | 0xd4 | 0xd5 | 0xd6 | 0xd7 => again_fixed_trail_if_zero MSGPACK_ACS_EXT_VALUE (Z.shiftl 1 (Z.land h 0x03) + 1) stack p
    | 0xd8 => again_fixed_trail_if_zero MSGPACK_ACS_EXT_VALUE (16 + 1) stack p
    | 0xd9 | 0xda | 0xdb => Some (again_fixed_trail next_cs (Z.shiftl 1 (Z.land h 0x03 - 1)) stack p)
    | 0xdc | 0xdd | 0xde | 0xdf => Some (again_fixed_trail next_cs (Z.shiftl 2 (Z.land h 0x01)) stack p)
    | _ => Some (stop MSGPACK_UNPACK_PARSE_ERROR p)
    end
  else if (0xa0 <=? h) && (h <=? 0xbf) then again_fixed_trail_if_zero MSGPACK_ACS_STR_VALUE (Z.land h 0x1f) stack p
  else if (0x90 <=? h) && (h <=? 0x9f) then Some (start_container MSGPACK_CT_ARRAY_ITEM (Z.land h 0x0f) stack p)
  else if (0x80 <=? h) && (h <=? 0x8f) then Some (start_container MSGPACK_CT_MAP_KEY (Z.land h 0x0f) stack p)
  else Some (stop MSGPACK_UNPACK_PARSE_ERROR p).

(** The [switch] on the state, with the trail at [n] and the pointer at its last byte *)
Definition fixed_trail (cs trail n : Z) (stack : list template_stack) (p : Z) : option outcome :=
  let value f := v ← trail_bytes n trail; Some (push (f (load v)) stack p) in
  let content cs extra := v ← trail_bytes n trail; again_fixed_trail_if_zero cs (u32 (load v + extra)) stack p in
  let container ct := v ← trail_bytes n trail; Some (start_container ct (load v) stack p) in
  match cs with
  | 0x0a => v ← trail_bytes n 4; Some (push (MSGPACK_OBJECT_FLOAT32 (float_of v)) stack p)
  | 0x0b => v ← trail_bytes n 8; Some (push (MSGPACK_OBJECT_FLOAT64 (double_of v)) stack p)
  | 0x0c | 0x0d | 0x0e | 0x0f => value MSGPACK_OBJECT_POSITIVE_INTEGER
  | 0x10 => value (λ v, template_callback_int (i8 v))
  | 0x11 => value (λ v, template_callback_int (i16 v))
  | 0x12 => value (λ v, template_callback_int (i32 v))
  | 0x13 => value (λ v, template_callback_int (i64 v))
  | 0x14 => again_fixed_trail_if_zero MSGPACK_ACS_EXT_VALUE (1 + 1) stack p
  | 0x15 => again_fixed_trail_if_zero MSGPACK_ACS_EXT_VALUE (2 + 1) stack p
  | 0x16 => again_fixed_trail_if_zero MSGPACK_ACS_EXT_VALUE (4 + 1) stack p
  | 0x17 => again_fixed_trail_if_zero MSGPACK_ACS_EXT_VALUE (8 + 1) stack p
  | 0x18 => again_fixed_trail_if_zero MSGPACK_ACS_EXT_VALUE (16 + 1) stack p
  | 0x19 | 0x1a | 0x1b => content MSGPACK_ACS_STR_VALUE 0
  | 0x04 | 0x05 | 0x06 => content MSGPACK_ACS_BIN_VALUE 0
  | 0x07 | 0x08 | 0x09 => content MSGPACK_ACS_EXT_VALUE 1
  | 0x20 | 0x21 | 0x22 => push_variable_value cs n trail stack p
  | 0x1c | 0x1d => container MSGPACK_CT_ARRAY_ITEM
  | 0x1e | 0x1f => container MSGPACK_CT_MAP_KEY
  | _ => Some (stop MSGPACK_UNPACK_PARSE_ERROR p)
  end.

Definition template_step (ctx : template_context) : option outcome :=
  let p := cx_p ctx in
  match cx_label ctx with
  | _header_again => h ← data !z p; header h (cx_stack ctx) p
  | _fixed_trail_again cs trail =>
      if pe - p <? trail then Some (stop 0 p) else fixed_trail cs trail p (cx_stack ctx) (p + trail - 1)
  end.

(** The loop, from a new context *)
Fixpoint steps (fuel : nat) (ctx : template_context) : option (Z * Z * msgpack_object) :=
  match fuel with
  | O => None
  | S fuel' => r ← template_step ctx; match r with inl ctx => steps fuel' ctx | inr r => Some r end
  end.
Definition template_init (off : Z) : template_context := mk_template _header_again off [].
Definition template_execute (off : Z) : option (Z * Z * msgpack_object) :=
  if off =? pe then Some (0, off, MSGPACK_OBJECT_NIL) else steps (S (Z.to_nat (pe - off))) (template_init off).
End machine.

(** [msgpack_unpack_next]; that the machine is always defined is [execute_defined]. *)
Definition msgpack_unpack_next (data : list Z) (off : Z) : unpacked * Z :=
  if zlen data <=? off then (MSGPACK_UNPACK_CONTINUE, off)
  else
    match template_execute data off with
    | Some (e, noff, o) =>
        ((if e <? 0 then MSGPACK_UNPACK_ERROR else if e =? 0 then MSGPACK_UNPACK_CONTINUE else MSGPACK_UNPACK_SUCCESS o), noff)
    | None => (MSGPACK_UNPACK_ERROR, off)
    end.
End unpack.

(** ** The machine is defined *)

Section defined.
Variables float_of double_of : list Z → double.
Variable zone_malloc : Z → Z → bool.
Variable data : list Z.
Abbreviation pe := (zlen data).
Abbreviation template_step := (template_step float_of double_of zone_malloc data).
Abbreviation steps := (steps float_of double_of zone_malloc data).
Abbreviation push_variable_value := (push_variable_value zone_malloc data).
Abbreviation again_fixed_trail_if_zero := (again_fixed_trail_if_zero zone_malloc data).
Abbreviation start_container := (start_container zone_malloc data).

Lemma trail_bytes_ok n len : 0 <= n → 0 <= len → n + len <= pe → trail_bytes data n len = Some (take (Z.to_nat len) (drop (Z.to_nat n) data)).
Proof. intros ? ? ?. unfold trail_bytes. by rewrite !(proj2 (Z.leb_le _ _)). Qed.

(** The trail that a state asks for; content may have any length. *)
Definition trail_of (cs : Z) : option Z :=
  match cs with
  | 0x04 | 0x07 | 0x0c | 0x10 | 0x19 => Some 1
  | 0x05 | 0x08 | 0x0d | 0x11 | 0x1a | 0x1c | 0x1e => Some 2
  | 0x06 | 0x09 | 0x0a | 0x0e | 0x12 | 0x1b | 0x1d | 0x1f => Some 4
  | 0x0b | 0x0f | 0x13 => Some 8
  | _ => None
  end.
Definition context_ok (ctx : template_context) : Prop :=
  0 <= cx_p ctx ∧
  match cx_label ctx with
  | _header_again => cx_p ctx < pe
  | _fixed_trail_again cs trail => cx_p ctx <= pe ∧ 0 < trail ∧
      (trail_of cs = Some trail ∨ cs = MSGPACK_ACS_STR_VALUE ∨ cs = MSGPACK_ACS_BIN_VALUE ∨ cs = MSGPACK_ACS_EXT_VALUE)
  end.
(** What follows a context at [p]: a good context further on, or a stop within the data *)
Definition outcome_ok (p : Z) (r : template_context + Z * Z * msgpack_object) : Prop :=
  match r with
  | inl ctx => context_ok ctx ∧ p < cx_p ctx
  | inr (ret, off, _) => p <= off <= pe ∧ (ret = 1 → p < off) ∧ ret <= 1
  end.

Lemma stop_ok ret p q : q <= p <= pe → ret <= 0 → outcome_ok q (stop ret p).
Proof. intros ? ?. cbn. lia. Qed.
Lemma push_ok obj stack p q : 0 <= p < pe → q <= p → outcome_ok q (push data obj stack p).
Proof.
  intros Hp Hq. unfold push, header_again. destruct (_push obj stack) as [o|st]; [cbn; lia|].
  destruct (Z.eqb_spec (p + 1) pe); [apply stop_ok; lia|]. cbn. unfold context_ok. cbn. lia.
Qed.
Lemma again_ok cs trail stack p q : 0 <= p < pe → q <= p → 0 < trail →
  (trail_of cs = Some trail ∨ cs = MSGPACK_ACS_STR_VALUE ∨ cs = MSGPACK_ACS_BIN_VALUE ∨ cs = MSGPACK_ACS_EXT_VALUE) →
  outcome_ok q (again_fixed_trail cs trail stack p).
Proof. intros ? ? ? ?. cbn. unfold context_ok. cbn. split_and!; (done || lia). Qed.
Lemma variable_ok cs n len stack p q : 0 <= n → 0 <= len → n + len <= pe → 0 <= p < pe → q <= p →
  ∃ r, push_variable_value cs n len stack p = Some r ∧ outcome_ok q r.
Proof.
  intros Hn Hlen Hpe Hp Hq. unfold push_variable_value. rewrite trail_bytes_ok by done. cbn [mbind option_bind].
  assert (Hpush : ∀ o, outcome_ok q (if zone_malloc p 0 then push data o stack p else stop MSGPACK_UNPACK_NOMEM_ERROR p)).
  { intros o. destruct (zone_malloc p 0); [by apply push_ok|apply stop_ok; unfold MSGPACK_UNPACK_NOMEM_ERROR; lia]. }
  destruct (cs =? MSGPACK_ACS_EXT_VALUE); [|eauto]. destruct (template_callback_ext _); eexists; (split; [reflexivity|]); [apply Hpush|].
  apply stop_ok; unfold MSGPACK_UNPACK_PARSE_ERROR; lia.
Qed.
Lemma if_zero_ok cs trail stack p q : 0 <= p < pe → q <= p → 0 <= trail →
  (cs = MSGPACK_ACS_STR_VALUE ∨ cs = MSGPACK_ACS_BIN_VALUE ∨ cs = MSGPACK_ACS_EXT_VALUE) →
  ∃ r, again_fixed_trail_if_zero cs trail stack p = Some r ∧ outcome_ok q r.
Proof.
  intros Hp Hq Ht Hcs. unfold again_fixed_trail_if_zero. destruct (Z.eqb_spec trail 0) as [->|Hne].
  - apply variable_ok; lia.
  - eexists. split; [reflexivity|]. apply again_ok; [done|done|lia|by right].
Qed.
Lemma container_ok ct count stack p q : 0 <= p < pe → q <= p → outcome_ok q (start_container ct count stack p).
Proof.
  intros Hp Hq. unfold start_container. destruct (_ <=? _); [apply stop_ok; unfold MSGPACK_UNPACK_NOMEM_ERROR; lia|].
  destruct ((match ct with MSGPACK_CT_ARRAY_ITEM => _ | _ => _ end) p count) as [obj|]; [|apply stop_ok; unfold MSGPACK_UNPACK_NOMEM_ERROR; lia]. destruct (count =? 0); [by apply push_ok|].
  unfold header_again. destruct (Z.eqb_spec (p + 1) pe); [apply stop_ok; lia|]. cbn. unfold context_ok. cbn. lia.
Qed.

Lemma header_ok h stack p : 0 <= p < pe → ∃ r, header zone_malloc data h stack p = Some r ∧ outcome_ok p r.
Proof.
  intros Hp. unfold header. destruct ((0 <=? h) && (h <=? 127)); [eexists; split; [reflexivity|]; apply push_ok; lia|].
  destruct ((224 <=? h) && _); [eexists; split; [reflexivity|]; apply push_ok; lia|].
  destruct ((192 <=? h) && (h <=? 223)) eqn:Hvar.
  - assert (Hh : h = 0xc0 ∨ h = 0xc1 ∨ h = 0xc2 ∨ h = 0xc3 ∨ h = 0xc4 ∨ h = 0xc5 ∨ h = 0xc6 ∨ h = 0xc7 ∨ h = 0xc8 ∨ h = 0xc9 ∨ h = 0xca ∨ h = 0xcb ∨ h = 0xcc ∨ h = 0xcd ∨ h = 0xce ∨ h = 0xcf ∨ h = 0xd0 ∨ h = 0xd1 ∨ h = 0xd2 ∨ h = 0xd3 ∨ h = 0xd4 ∨ h = 0xd5 ∨ h = 0xd6 ∨ h = 0xd7 ∨ h = 0xd8 ∨ h = 0xd9 ∨ h = 0xda ∨ h = 0xdb ∨ h = 0xdc ∨ h = 0xdd ∨ h = 0xde ∨ h = 0xdf) by lia.
    destruct_or! Hh; subst h; cbn; first
      [ eexists; split; [reflexivity|]; first [apply push_ok; lia|apply stop_ok; [lia|done]|apply again_ok; [lia|lia|done|by left]]
      | apply if_zero_ok; [lia|lia|done|tauto] ].
  - clear Hvar. destruct ((160 <=? h) && _); [apply if_zero_ok; [lia|lia|by apply Z.land_nonneg; right|tauto]|].
    destruct ((144 <=? h) && _); [eexists; split; [reflexivity|]; apply container_ok; lia|].
    destruct ((128 <=? h) && _); eexists; (split; [reflexivity|]); [apply container_ok; lia|apply stop_ok; [lia|done]].
Qed.

Lemma fixed_trail_ok cs trail n stack : 0 <= n → 0 < trail → n + trail <= pe →
  (trail_of cs = Some trail ∨ cs = MSGPACK_ACS_STR_VALUE ∨ cs = MSGPACK_ACS_BIN_VALUE ∨ cs = MSGPACK_ACS_EXT_VALUE) →
  ∃ r, fixed_trail float_of double_of zone_malloc data cs trail n stack (n + trail - 1) = Some r ∧ outcome_ok n r.
Proof.
  intros Hn Ht Hpe Hcs. assert (Hbytes : trail_bytes data n trail = Some (take (Z.to_nat trail) (drop (Z.to_nat n) data))) by (apply trail_bytes_ok; lia).
  assert (Hval : ∀ f, ∃ r, (v ← trail_bytes data n trail; Some (push data (f v) stack (n + trail - 1))) = Some r ∧ outcome_ok n r).
  { intros f. rewrite Hbytes. eexists. split; [reflexivity|]. apply push_ok; lia. }
  assert (Hcon : ∀ ct, ∃ r, (v ← trail_bytes data n trail; Some (start_container ct (load v) stack (n + trail - 1))) = Some r ∧ outcome_ok n r).
  { intros ct. rewrite Hbytes. eexists. split; [reflexivity|]. apply container_ok; lia. }
  assert (Htr : ∀ acs extra, (acs = MSGPACK_ACS_STR_VALUE ∨ acs = MSGPACK_ACS_BIN_VALUE ∨ acs = MSGPACK_ACS_EXT_VALUE) →
    ∃ r, (v ← trail_bytes data n trail; again_fixed_trail_if_zero acs (u32 (load v + extra)) stack (n + trail - 1)) = Some r ∧ outcome_ok n r).
  { intros acs extra Ha. rewrite Hbytes. apply if_zero_ok; [lia|lia|by apply Z.mod_pos_bound|done]. }
  destruct Hcs as [Hcs|Hcs]; [|destruct_or! Hcs; subst cs; apply variable_ok; lia].
  unfold fixed_trail, trail_of in *.
  repeat (match type of Hcs with context [match ?x with _ => _ end] => destruct x; try discriminate Hcs end); injection Hcs as <-;
    first [apply Hval|apply Hcon|apply Htr; tauto].
Qed.

Lemma step_ok ctx : context_ok ctx → ∃ r, template_step ctx = Some r ∧ outcome_ok (cx_p ctx) r.
Proof.
  intros [Hp Hl]. unfold template_step. destruct ctx as [[|cs trail] p stack]; cbn in *.
  - destruct (zlookup_is_Some data p) as [h ->]; [lia|]. by apply header_ok.
  - destruct (Z.ltb_spec (pe - p) trail); [eexists; split; [reflexivity|]; apply stop_ok; lia|]. apply fixed_trail_ok; tauto || lia.
Qed.

Lemma steps_ok fuel : ∀ ctx, context_ok ctx → (Z.to_nat (pe - cx_p ctx) < fuel)%nat →
  ∃ ret off o, steps fuel ctx = Some (ret, off, o) ∧ cx_p ctx <= off <= pe ∧ (ret = 1 → cx_p ctx < off) ∧ ret <= 1.
Proof.
  induction fuel as [|fuel IH]; intros ctx Hctx Hf; [lia|]. destruct (step_ok ctx Hctx) as (r & Hr & Hok). cbn [MsgUnpack.steps]. rewrite Hr. cbn [mbind option_bind].
  destruct r as [ctx'|[[ret off] o]]; [|eauto]. destruct Hok as [Hctx' Hp].
  assert (Hpe : cx_p ctx' <= pe) by (destruct Hctx' as [_ Hl]; destruct (cx_label ctx'); lia). destruct Hctx as [H0 _].
  destruct (IH ctx' Hctx' ltac:(lia)) as (ret & off & o & ? & ? & ? & ?). exists ret, off, o. split_and!; (done || lia).
Qed.
End defined.

(** The machine reads nothing outside the data and stops: every result is within the data, and an object takes some of it. *)
Lemma execute_defined float_of double_of zone_malloc data off : 0 <= off <= zlen data →
  ∃ ret noff o, template_execute float_of double_of zone_malloc data off = Some (ret, noff, o) ∧ off <= noff <= zlen data ∧
    (ret = 1 → off < noff) ∧ ret <= 1.
Proof.
  intros Hoff. unfold template_execute. destruct (Z.eqb_spec off (zlen data)) as [->|Hne].
  - exists 0, (zlen data), MSGPACK_OBJECT_NIL. split_and!; (done || lia).
  - apply (steps_ok _ _ _ _ _ (template_init off)); [split; cbn; lia|cbn; lia].
Qed.

(** An element of a list that is written out *)
Ltac member := first [apply list_elem_of_here | apply list_elem_of_further; member].

(** ** The format

    Numbers are big-endian; a length may be announced in several ways.  [d] is how deep containers may be nested. *)
Lemma load_app l l' : load (l ++ l') = load l * 2 ^ (8 * zlen l') + load l'.
Proof.
  unfold load. rewrite foldl_app. generalize (foldl (λ n x, n * 2 ^ 8 + x) 0 l) as a. induction l' as [|x l' IH] using rev_ind; intros a.
  - cbn. change (zlen (@nil Z)) with 0. lia.
  - rewrite !foldl_app. cbn [foldl]. rewrite IH, zlen_app. change (zlen [x]) with 1. pose proof (zlen_nonneg l').
    replace (8 * (zlen l' + 1)) with (8 * zlen l' + 8) by lia. rewrite Z.pow_add_r by lia. lia.
Qed.
Lemma load_store16 n : 0 <= n < 2 ^ 16 → load (store16 n) = n.
Proof. intros Hn. unfold load, store16, u8. cbn [foldl]. rewrite Z.shiftr_div_pow2 by lia. Z.div_mod_to_equations. lia. Qed.
Lemma load_store32' n : load (store32 n) = u32 n.
Proof. unfold load, store32, u8, u32. cbn [foldl]. rewrite !Z.shiftr_div_pow2 by lia. Z.div_mod_to_equations. lia. Qed.
Lemma load_store64 n : load (store64 n) = u64 n.
Proof.
  unfold store64. rewrite load_app, !load_store32', store32_length. unfold u32, u64. rewrite Z.shiftr_div_pow2 by lia.
  Z.div_mod_to_equations. lia.
Qed.

(** Headers of strings, of binaries and of extensions (whose content starts with the type) of [m] bytes *)
Inductive content_header (acs : Z) (m : Z) : list Z → Prop :=
| fix_str : acs = MSGPACK_ACS_STR_VALUE → m < 32 → content_header acs m [0xa0 + m]
| fix_ext h : acs = MSGPACK_ACS_EXT_VALUE → (h, m) ∈ [(0xd4, 2); (0xd5, 3); (0xd6, 5); (0xd7, 9); (0xd8, 17)] → content_header acs m [h]
| sized h extra n bytes : (acs, extra, h, bytes) ∈
    [(MSGPACK_ACS_STR_VALUE, 0, 0xd9, [u8 n]); (MSGPACK_ACS_STR_VALUE, 0, 0xda, store16 n); (MSGPACK_ACS_STR_VALUE, 0, 0xdb, store32 n);
     (MSGPACK_ACS_BIN_VALUE, 0, 0xc4, [u8 n]); (MSGPACK_ACS_BIN_VALUE, 0, 0xc5, store16 n); (MSGPACK_ACS_BIN_VALUE, 0, 0xc6, store32 n);
     (MSGPACK_ACS_EXT_VALUE, 1, 0xc7, [u8 n]); (MSGPACK_ACS_EXT_VALUE, 1, 0xc8, store16 n); (MSGPACK_ACS_EXT_VALUE, 1, 0xc9, store32 n)] →
    load bytes = n → m = n + extra → m < 2 ^ 32 → content_header acs m (h :: bytes).
Definition content_object (acs : Z) (content : list Z) : option msgpack_object :=
  if acs =? MSGPACK_ACS_EXT_VALUE then template_callback_ext content
  else Some (if acs =? MSGPACK_ACS_STR_VALUE then MSGPACK_OBJECT_STR content else MSGPACK_OBJECT_BIN content).

Inductive container_header (ct : msgpack_container_type) (n : Z) : list Z → Prop :=
| fix_array : ct = MSGPACK_CT_ARRAY_ITEM → n < 16 → container_header ct n [0x90 + n]
| fix_map : ct = MSGPACK_CT_MAP_KEY → n < 16 → container_header ct n [0x80 + n]
| counted h bytes : (ct, h, bytes) ∈ [(MSGPACK_CT_ARRAY_ITEM, 0xdc, store16 n); (MSGPACK_CT_ARRAY_ITEM, 0xdd, store32 n);
    (MSGPACK_CT_MAP_KEY, 0xde, store16 n); (MSGPACK_CT_MAP_KEY, 0xdf, store32 n)] → load bytes = n → container_header ct n (h :: bytes).

Section format.
Variables float_of double_of : list Z → double.

(** Objects in one byte, and numbers *)
Inductive scalar : msgpack_object → list Z → Prop :=
| sc_nil : scalar MSGPACK_OBJECT_NIL [0xc0]
| sc_bool (b : bool) : scalar (MSGPACK_OBJECT_BOOLEAN b) [if b then 0xc3 else 0xc2]
| sc_fix n : 0 <= n < 128 → scalar (MSGPACK_OBJECT_POSITIVE_INTEGER n) [n]
| sc_negative n : -32 <= n < 0 → scalar (MSGPACK_OBJECT_NEGATIVE_INTEGER n) [n + 256]
| sc_uint h bytes : (h, zlen bytes) ∈ [(0xcc, 1); (0xcd, 2); (0xce, 4); (0xcf, 8)] →
    scalar (MSGPACK_OBJECT_POSITIVE_INTEGER (load bytes)) (h :: bytes)
| sc_int8 bytes : zlen bytes = 1 → scalar (template_callback_int (i8 (load bytes))) (0xd0 :: bytes)
| sc_int16 bytes : zlen bytes = 2 → scalar (template_callback_int (i16 (load bytes))) (0xd1 :: bytes)
| sc_int32 bytes : zlen bytes = 4 → scalar (template_callback_int (i32 (load bytes))) (0xd2 :: bytes)
| sc_int64 bytes : zlen bytes = 8 → scalar (template_callback_int (i64 (load bytes))) (0xd3 :: bytes)
| sc_float bytes : zlen bytes = 4 → scalar (MSGPACK_OBJECT_FLOAT32 (float_of bytes)) (0xca :: bytes)
| sc_double bytes : zlen bytes = 8 → scalar (MSGPACK_OBJECT_FLOAT64 (double_of bytes)) (0xcb :: bytes).

Inductive format : nat → msgpack_object → list Z → Prop :=
| fm_scalar d o bytes : scalar o bytes → format d o bytes
| fm_content d acs hdr content o : content_header acs (zlen content) hdr → content_object acs content = Some o → format d o (hdr ++ content)
| fm_array d l hdr bytes : container_header MSGPACK_CT_ARRAY_ITEM (zlen l) hdr → formats d l bytes →
    format (S d) (MSGPACK_OBJECT_ARRAY l) (hdr ++ bytes)
| fm_map d l hdr bytes : container_header MSGPACK_CT_MAP_KEY (zlen l) hdr → format_pairs d l bytes →
    format (S d) (MSGPACK_OBJECT_MAP l) (hdr ++ bytes)
with formats : nat → list msgpack_object → list Z → Prop :=
| fms_nil d : formats d [] []
| fms_cons d o l bytes rest : format d o bytes → formats d l rest → formats d (o :: l) (bytes ++ rest)
with format_pairs : nat → list (msgpack_object * msgpack_object) → list Z → Prop :=
| fmp_nil d : format_pairs d [] []
| fmp_cons d k v l kb vb rest : format d k kb → format d v vb → format_pairs d l rest → format_pairs d ((k, v) :: l) (kb ++ vb ++ rest).
Scheme format_min := Minimality for format Sort Prop
  with formats_min := Minimality for formats Sort Prop
  with format_pairs_min := Minimality for format_pairs Sort Prop.

(** ** The machine reads the format *)

Variable zone_malloc : Z → Z → bool.
Hypothesis Hzone : ∀ p n, zone_malloc p n = true.

Section data.
Variable data : list Z.
Abbreviation pe := (zlen data).
Abbreviation outcome := (template_context + Z * Z * msgpack_object)%type.
Abbreviation step := (template_step float_of double_of zone_malloc data).

Inductive leads : template_context → outcome → Prop :=
| leads_here ctx r : step ctx = Some r → leads ctx r
| leads_on ctx ctx' r : step ctx = Some (inl ctx') → leads ctx' r → leads ctx r.
Lemma leads_trans ctx ctx' r : leads ctx (inl ctx') → leads ctx' r → leads ctx r.
Proof. intros H1. remember (inl ctx') as o eqn:Ho. induction H1; intros H2; subst; [by eapply leads_on|]. eapply leads_on; [done|]. by apply IHleads. Qed.

Lemma steps_leads ctx r : leads ctx (inr r) → context_ok data ctx → ∀ fuel, (Z.to_nat (pe - cx_p ctx) < fuel)%nat →
  steps float_of double_of zone_malloc data fuel ctx = Some r.
Proof.
  intros Hl. remember (inr r) as o eqn:Ho. induction Hl as [ctx o Hs|ctx ctx' o Hs _ IH]; intros Hok fuel Hf; subst; destruct fuel as [|fuel]; try lia;
    cbn [steps]; rewrite Hs; [done|]. cbn [mbind option_bind].
  destruct (step_ok float_of double_of zone_malloc data ctx Hok) as (r' & Hr' & Hok'). rewrite Hs in Hr'. injection Hr' as <-.
  destruct Hok' as [Hok' Hp]. assert (Hpe : cx_p ctx' <= pe) by (destruct Hok' as [_ Hlab]; destruct (cx_label ctx'); lia). destruct Hok as [H0 _].
  apply IH; [done|done|lia].
Qed.

(** Bytes at an offset *)
Definition at_offset (p : Z) (bytes : list Z) : Prop := ∃ pre post, data = pre ++ bytes ++ post ∧ p = zlen pre.
Lemma at_app p l l' : at_offset p (l ++ l') → at_offset p l ∧ at_offset (p + zlen l) l'.
Proof.
  intros (pre & post & Hd & ->). split; [exists pre, (l' ++ post); by rewrite <- app_assoc in Hd|].
  exists (pre ++ l), post. rewrite zlen_app, <- app_assoc. by rewrite <- app_assoc in Hd.
Qed.
Lemma at_cons p x l : at_offset p (x :: l) → data !z p = Some x ∧ at_offset (p + 1) l.
Proof.
  intros Hat. split.
  - destruct Hat as (pre & post & -> & ->). unfold zlookup. pose proof (zlen_nonneg pre). rewrite (proj2 (Z.leb_le _ _)) by lia.
    unfold zlen. rewrite Nat2Z.id. by rewrite lookup_app_r, Nat.sub_diag by lia.
  - apply (at_app _ [x] l) in Hat as [_ Hat]. by rewrite zlen_cons in Hat.
Qed.
Lemma at_bound p l : at_offset p l → 0 <= p ∧ p + zlen l <= pe.
Proof. intros (pre & post & -> & ->). rewrite !zlen_app. pose proof (zlen_nonneg pre). pose proof (zlen_nonneg post). lia. Qed.
Lemma at_bytes p l : at_offset p l → trail_bytes data p (zlen l) = Some l.
Proof.
  intros Hat. destruct (at_bound _ _ Hat). rewrite trail_bytes_ok by (done || apply zlen_nonneg). destruct Hat as (pre & post & -> & ->).
  unfold zlen. rewrite !Nat2Z.id, drop_app_length, take_app_length. done.
Qed.

Abbreviation at_header p stack := (mk_template _header_again p stack).
Abbreviation header_at := (header zone_malloc data).
Abbreviation trail_at := (fixed_trail float_of double_of zone_malloc data).

Lemma leads_header p h stack r : data !z p = Some h → header_at h stack p = Some r → leads (at_header p stack) r.
Proof. intros Hd Hh. apply leads_here. unfold step. cbn. by rewrite Hd. Qed.
Lemma leads_trail p h cs trail bytes stack r : at_offset p (h :: bytes) → header_at h stack p = Some (again_fixed_trail cs trail stack p) →
  zlen bytes = trail → leads (mk_template (_fixed_trail_again cs trail) (p + 1) stack) r → leads (at_header p stack) r.
Proof. intros Hat Hh Ht Hl. eapply leads_on; [|exact Hl]. unfold step. cbn. by rewrite (proj1 (at_cons _ _ _ Hat)). Qed.
Lemma trail_step cs p bytes stack r : at_offset p bytes → trail_at cs (zlen bytes) p stack (p + zlen bytes - 1) = Some r →
  leads (mk_template (_fixed_trail_again cs (zlen bytes)) p stack) r.
Proof.
  intros Hat Hr. apply leads_here. unfold step. cbn. destruct (at_bound _ _ Hat). by rewrite (proj2 (Z.ltb_ge _ _)) by lia.
Qed.

Lemma header_fixed h cs trail stack p : (h, cs, trail) ∈
    [(0xc4, 0x04, 1); (0xc5, 0x05, 2); (0xc6, 0x06, 4); (0xc7, 0x07, 1); (0xc8, 0x08, 2); (0xc9, 0x09, 4); (0xca, 0x0a, 4); (0xcb, 0x0b, 8);
     (0xcc, 0x0c, 1); (0xcd, 0x0d, 2); (0xce, 0x0e, 4); (0xcf, 0x0f, 8); (0xd0, 0x10, 1); (0xd1, 0x11, 2); (0xd2, 0x12, 4); (0xd3, 0x13, 8);
     (0xd9, 0x19, 1); (0xda, 0x1a, 2); (0xdb, 0x1b, 4); (0xdc, 0x1c, 2); (0xdd, 0x1d, 4); (0xde, 0x1e, 2); (0xdf, 0x1f, 4)] →
  header_at h stack p = Some (again_fixed_trail cs trail stack p).
Proof. intros Hin. repeat (apply elem_of_cons in Hin as [[= -> -> ->]|Hin]; [reflexivity|]). by apply elem_of_nil in Hin. Qed.

Lemma scalar_ok o bytes p stack : scalar o bytes → at_offset p bytes → leads (at_header p stack) (push data o stack (p + zlen bytes - 1)).
Proof.
  assert (Hone : ∀ h o, at_offset p [h] → header_at h stack p = Some (push data o stack p) → leads (at_header p stack) (push data o stack (p + zlen [h] - 1))).
  { intros h o' Hat Hh. change (zlen [h]) with 1. replace (p + 1 - 1) with p by lia. eapply leads_header; [by eapply at_cons|done]. }
  assert (Hnum : ∀ h cs l o, at_offset p (h :: l) → header_at h stack p = Some (again_fixed_trail cs (zlen l) stack p) →
    (∀ q, trail_bytes data q (zlen l) = Some l → trail_at cs (zlen l) q stack (q + zlen l - 1) = Some (push data o stack (q + zlen l - 1))) →
    leads (at_header p stack) (push data o stack (p + zlen (h :: l) - 1))).
  { intros h cs l o' Hat Hh Ht. eapply leads_trail; [exact Hat|exact Hh|done|]. apply at_cons in Hat as [_ Hat].
    rewrite zlen_cons. replace (p + (zlen l + 1) - 1) with (p + 1 + zlen l - 1) by lia. by apply trail_step, Ht, at_bytes. }
  intros [] Hat.
  - by apply Hone.
  - destruct b; by apply Hone.
  - apply Hone; [done|]. unfold header. by rewrite (proj2 (Z.leb_le _ _)), (proj2 (Z.leb_le _ _)) by lia.
  - apply Hone; [done|]. unfold header. rewrite (proj2 (Z.leb_gt (n + 256) _)), andb_false_r by lia.
    rewrite !(proj2 (Z.leb_le _ _)) by lia. cbn [andb]. unfold template_callback_int, i8. replace ((n + 256 + 2 ^ 7) mod 2 ^ 8 - 2 ^ 7) with n by (Z.div_mod_to_equations; lia).
    by rewrite (proj2 (Z.leb_gt _ _)) by lia.
  - repeat (apply elem_of_cons in H as [[= -> Hl]|H]; [eapply Hnum; [exact Hat|rewrite Hl; apply header_fixed; member|intros q Hq; unfold fixed_trail; by rewrite Hq]|]).
    by apply elem_of_nil in H.
  - eapply Hnum; [exact Hat|rewrite H; apply header_fixed; member|intros q Hq; unfold fixed_trail; by rewrite Hq].
  - eapply Hnum; [exact Hat|rewrite H; apply header_fixed; member|intros q Hq; unfold fixed_trail; by rewrite Hq].
  - eapply Hnum; [exact Hat|rewrite H; apply header_fixed; member|intros q Hq; unfold fixed_trail; by rewrite Hq].
  - eapply Hnum; [exact Hat|rewrite H; apply header_fixed; member|intros q Hq; unfold fixed_trail; by rewrite Hq].
  - eapply Hnum; [exact Hat|rewrite H; apply header_fixed; member|intros q Hq; unfold fixed_trail; rewrite H in Hq; by rewrite Hq].
  - eapply Hnum; [exact Hat|rewrite H; apply header_fixed; member|intros q Hq; unfold fixed_trail; rewrite H in Hq; by rewrite Hq].
Qed.

Lemma at_nil : at_offset 0 [].
Proof. by exists [], data. Qed.
Lemma variable_at acs n content o stack q : content_object acs content = Some o → at_offset n content →
  push_variable_value zone_malloc data acs n (zlen content) stack q = Some (push data o stack q).
Proof.
  intros Ho Hat. unfold push_variable_value, content_object in *. rewrite (at_bytes _ _ Hat). cbn [mbind option_bind]. rewrite Hzone.
  destruct (acs =? MSGPACK_ACS_EXT_VALUE); [by rewrite Ho|]. by injection Ho as <-.
Qed.
(** With the header read up to [q], the content follows, if there is any. *)
Lemma content_follows acs content o stack q : content_object acs content = Some o → at_offset (q + 1) content →
  acs = MSGPACK_ACS_STR_VALUE ∨ acs = MSGPACK_ACS_BIN_VALUE ∨ acs = MSGPACK_ACS_EXT_VALUE →
  ∃ r, again_fixed_trail_if_zero zone_malloc data acs (zlen content) stack q = Some r ∧
    ∀ ctx, step ctx = Some r → leads ctx (push data o stack (q + zlen content)).
Proof.
  intros Ho Hat Hacs. unfold again_fixed_trail_if_zero. destruct (Z.eqb_spec (zlen content) 0) as [Hz|Hz].
  - assert (content = []) as -> by (destruct content; [done|rewrite zlen_cons in Hz; pose proof (zlen_nonneg content); lia]).
    eexists. split; [exact (variable_at acs 0 [] o stack q Ho at_nil)|]. intros ctx Hc. change (zlen []) with 0. rewrite Z.add_0_r. by apply leads_here.
  - eexists. split; [reflexivity|]. intros ctx Hc. eapply leads_on; [exact Hc|]. replace (q + zlen content) with (q + 1 + zlen content - 1) by lia.
    apply trail_step; [done|]. unfold fixed_trail. destruct_or! Hacs; subst acs; by apply variable_at.
Qed.

Lemma content_ok acs hdr content o p stack : content_header acs (zlen content) hdr → content_object acs content = Some o →
  at_offset p (hdr ++ content) → leads (at_header p stack) (push data o stack (p + zlen (hdr ++ content) - 1)).
Proof.
  intros Hh Ho Hat. apply at_app in Hat as [Hat Hat']. rewrite zlen_app. pose proof (zlen_nonneg content) as Hlen.
  destruct Hh as [-> Hm|h -> Hin|h extra n bytes Hin Hn Hm Hlt].
  - apply at_cons in Hat as [Hd _]. change (zlen [_]) with 1 in *. replace (p + (1 + zlen content) - 1) with (p + zlen content) by lia.
    destruct (content_follows _ _ _ stack p Ho Hat' ltac:(tauto)) as (r & Hr & Hl). apply Hl. unfold step. cbn. rewrite Hd. cbn [mbind option_bind]. rewrite <- Hr.
    unfold header. rewrite (proj2 (Z.leb_gt (0xa0 + zlen content) 0x7f)), (proj2 (Z.leb_gt 0xe0 _)), (proj2 (Z.leb_gt 0xc0 _)), andb_false_r by lia.
    cbn [andb]. rewrite !(proj2 (Z.leb_le _ _)) by lia. cbn [andb]. f_equal.
    change 0x1f with (Z.ones 5). rewrite Z.land_ones by lia. Z.div_mod_to_equations. lia.
  - apply at_cons in Hat as [Hd _]. change (zlen [_]) with 1 in *. replace (p + (1 + zlen content) - 1) with (p + zlen content) by lia.
    destruct (content_follows _ _ _ stack p Ho Hat' ltac:(tauto)) as (r & Hr & Hl). apply Hl. unfold step. cbn. rewrite Hd. cbn [mbind option_bind]. rewrite <- Hr.
    repeat (apply elem_of_cons in Hin as [[= -> ->]|Hin]; [reflexivity|]). by apply elem_of_nil in Hin.
  - assert (Hlb : zlen (h :: bytes) = zlen bytes + 1) by apply zlen_cons. rewrite Hlb in *.
    assert (Hacs : acs = MSGPACK_ACS_STR_VALUE ∨ acs = MSGPACK_ACS_BIN_VALUE ∨ acs = MSGPACK_ACS_EXT_VALUE).
    { clear -Hin. repeat (apply elem_of_cons in Hin as [[= -> _ _ _]|Hin]; [tauto|]). by apply elem_of_nil in Hin. }
    replace (p + (zlen bytes + 1)) with (p + zlen bytes + 1) in Hat' by lia.
    destruct (content_follows _ _ _ stack (p + zlen bytes) Ho Hat' Hacs) as (r & Hr & Hl).
    replace (p + (zlen bytes + 1 + zlen content) - 1) with (p + zlen bytes + zlen content) by lia.
    pose proof (proj2 (at_cons _ _ _ Hat)) as Hb.
    assert (Hstep : ∀ cs, header_at h stack p = Some (again_fixed_trail cs (zlen bytes) stack p) →
      trail_at cs (zlen bytes) (p + 1) stack (p + 1 + zlen bytes - 1) = Some r → leads (at_header p stack) (push data o stack (p + zlen bytes + zlen content))).
    { intros cs Hh Ht. eapply leads_trail; [exact Hat|exact Hh|done|]. apply Hl. unfold step. cbn. destruct (at_bound _ _ Hb). by rewrite (proj2 (Z.ltb_ge _ _)) by lia. }
    assert (Hu : u32 (load bytes + extra) = zlen content) by (rewrite Hn, <- Hm; apply Z.mod_small; lia).
    assert (Hq : p + 1 + zlen bytes - 1 = p + zlen bytes) by lia.
    repeat (apply elem_of_cons in Hin as [[= -> -> -> ->]|Hin]; [eapply Hstep; [apply header_fixed; cbn; member|
      unfold fixed_trail; rewrite (at_bytes _ _ Hb); cbn [mbind option_bind]; rewrite Hu, Hq; exact Hr]|]).
    by apply elem_of_nil in Hin.
Qed.

Lemma container_at ct n hdr p stack : container_header ct n hdr → 0 <= n → at_offset p hdr →
  leads (at_header p stack) (start_container zone_malloc data ct n stack (p + zlen hdr - 1)).
Proof.
  intros Hh Hn Hat. destruct Hh as [-> Hm| -> Hm|h bytes Hin Hl].
  - apply at_cons in Hat as [Hd _]. change (zlen [_]) with 1. replace (p + 1 - 1) with p by lia. eapply leads_header; [exact Hd|].
    unfold header. rewrite (proj2 (Z.leb_gt (0x90 + n) 0x7f)), (proj2 (Z.leb_gt 0xe0 _)), (proj2 (Z.leb_gt 0xc0 _)), (proj2 (Z.leb_gt 0xa0 _)), andb_false_r by lia.
    cbn [andb]. rewrite !(proj2 (Z.leb_le _ _)) by lia. cbn [andb]. do 2 f_equal.
    change 0x0f with (Z.ones 4). rewrite Z.land_ones by lia. Z.div_mod_to_equations. lia.
  - apply at_cons in Hat as [Hd _]. change (zlen [_]) with 1. replace (p + 1 - 1) with p by lia. eapply leads_header; [exact Hd|].
    unfold header. rewrite (proj2 (Z.leb_gt (0x80 + n) 0x7f)), (proj2 (Z.leb_gt 0xe0 _)), (proj2 (Z.leb_gt 0xc0 _)), (proj2 (Z.leb_gt 0xa0 _)), (proj2 (Z.leb_gt 0x90 _)), andb_false_r by lia.
    cbn [andb]. rewrite !(proj2 (Z.leb_le _ _)) by lia. cbn [andb]. do 2 f_equal.
    change 0x0f with (Z.ones 4). rewrite Z.land_ones by lia. Z.div_mod_to_equations. lia.
  - rewrite zlen_cons. replace (p + (zlen bytes + 1) - 1) with (p + 1 + zlen bytes - 1) by lia. pose proof (proj2 (at_cons _ _ _ Hat)) as Hb.
    assert (Hstep : ∀ cs, header_at h stack p = Some (again_fixed_trail cs (zlen bytes) stack p) →
      trail_at cs (zlen bytes) (p + 1) stack (p + 1 + zlen bytes - 1) = Some (start_container zone_malloc data ct n stack (p + 1 + zlen bytes - 1)) →
      leads (at_header p stack) (start_container zone_malloc data ct n stack (p + 1 + zlen bytes - 1))).
    { intros cs Hh Ht. eapply leads_trail; [exact Hat|exact Hh|done|]. by apply trail_step. }
    repeat (apply elem_of_cons in Hin as [[= -> -> ->]|Hin]; [eapply Hstep; [apply header_fixed; cbn; member|
      unfold fixed_trail; rewrite (at_bytes _ _ Hb); cbn [mbind option_bind]; by rewrite Hl]|]).
    by apply elem_of_nil in Hin.
Qed.

Lemma format_nonempty d o bytes : format d o bytes → 0 < zlen bytes.
Proof.
  intros Hf. destruct Hf as [d o bytes Hs|d acs hdr content o Hh _|d l hdr bytes Hh _|d l hdr bytes Hh _]; [destruct Hs|destruct Hh..];
    rewrite ?zlen_app, ?zlen_cons; repeat match goal with |- context [zlen ?l] => lazymatch l with [] => change (zlen l) with 0 | _ => pose proof (zlen_nonneg l); generalize dependent (zlen l); intros end end; lia.
Qed.
Lemma again_at stack q rest x : at_offset (q + 1) (x :: rest) → header_again data stack q = inl (at_header (q + 1) stack).
Proof.
  intros Hat. unfold header_again. destruct (at_bound _ _ Hat) as [_ Hb]. rewrite zlen_cons in Hb. pose proof (zlen_nonneg rest).
  by rewrite (proj2 (Z.eqb_neq _ _)) by lia.
Qed.
Lemma again_format d o bytes rest stack q : format d o bytes → at_offset (q + 1) (bytes ++ rest) →
  header_again data stack q = inl (at_header (q + 1) stack).
Proof. intros Hf%format_nonempty Hat. destruct bytes; [change (zlen []) with 0 in Hf; lia|]. by eapply again_at. Qed.

Lemma again_formats d x l bytes stack q : formats d (x :: l) bytes → at_offset (q + 1) bytes → header_again data stack q = inl (at_header (q + 1) stack).
Proof. intros Hf. remember (x :: l) as xl eqn:Hxl. destruct Hf as [|d o l' bytes rest Ho _]; [done|]. by eapply again_format. Qed.
Lemma again_pairs d x l bytes stack q : format_pairs d (x :: l) bytes → at_offset (q + 1) bytes → header_again data stack q = inl (at_header (q + 1) stack).
Proof. intros Hf. remember (x :: l) as xl eqn:Hxl. destruct Hf as [|d k v l' kb vb rest Hk _ _]; [done|]. by eapply again_format. Qed.
Lemma formats_nil d bytes : formats d [] bytes → bytes = [].
Proof. intros Hf. remember [] as l eqn:Hl. by destruct Hf. Qed.
Lemma pairs_nil d bytes : format_pairs d [] bytes → bytes = [].
Proof. intros Hf. remember [] as l eqn:Hl. by destruct Hf. Qed.

Lemma format_read d o bytes : format d o bytes → ∀ p stack, at_offset p bytes → zlen stack + Z.of_nat d <= MSGPACK_EMBED_STACK_SIZE →
  leads (at_header p stack) (push data o stack (p + zlen bytes - 1)).
Proof.
  intros Hf. induction Hf as [d o bytes Hs|d acs hdr content o Hh Ho|d l hdr bytes Hh Hl IHl|d l hdr bytes Hh Hl IHl
      |d|d o l bytes rest Ho IHo Hl IHl|d|d k v l kb vb rest Hk IHk Hv IHv Hl IHl] using format_min with
    (P0 := λ d l bytes, l ≠ [] → ∀ p stack done key, at_offset p bytes → zlen stack + 1 + Z.of_nat d <= MSGPACK_EMBED_STACK_SIZE →
      leads (at_header p (mk_stack (MSGPACK_OBJECT_ARRAY done) (zlen l) MSGPACK_CT_ARRAY_ITEM key :: stack))
        (push data (MSGPACK_OBJECT_ARRAY (done ++ l)) stack (p + zlen bytes - 1)))
    (P1 := λ d l bytes, l ≠ [] → ∀ p stack done key, at_offset p bytes → zlen stack + 1 + Z.of_nat d <= MSGPACK_EMBED_STACK_SIZE →
      leads (at_header p (mk_stack (MSGPACK_OBJECT_MAP done) (zlen l) MSGPACK_CT_MAP_KEY key :: stack))
        (push data (MSGPACK_OBJECT_MAP (done ++ l)) stack (p + zlen bytes - 1))).
  - intros p stack Hat _. by apply scalar_ok.
  - intros p stack Hat _. by eapply content_ok.
  - intros p stack Hat Hd. apply at_app in Hat as [Hat Hat']. pose proof (container_at _ _ _ _ stack Hh (zlen_nonneg l) Hat) as Hc.
    unfold start_container, template_callback_array, template_callback_map in Hc. rewrite (proj2 (Z.leb_gt _ _)), Hzone in Hc by lia. rewrite zlen_app.
    destruct l as [|x l]; [apply formats_nil in Hl as ->; change (zlen []) with 0 in *; by rewrite Z.add_0_r|].
    rewrite (proj2 (Z.eqb_neq _ _)) in Hc by (rewrite zlen_cons; pose proof (zlen_nonneg l); lia).
    replace (p + zlen hdr) with (p + zlen hdr - 1 + 1) in Hat' by lia.
    rewrite (again_formats _ _ _ _ _ _ Hl Hat') in Hc. eapply leads_trans; [exact Hc|]. replace (p + (zlen hdr + _) - 1) with (p + zlen hdr - 1 + 1 + zlen bytes - 1) by lia.
    eapply (IHl ltac:(done) _ _ []); [done|lia].
  - intros p stack Hat Hd. apply at_app in Hat as [Hat Hat']. pose proof (container_at _ _ _ _ stack Hh (zlen_nonneg l) Hat) as Hc.
    unfold start_container, template_callback_array, template_callback_map in Hc. rewrite (proj2 (Z.leb_gt _ _)), Hzone in Hc by lia. rewrite zlen_app.
    destruct l as [|x l]; [apply pairs_nil in Hl as ->; change (zlen []) with 0 in *; by rewrite Z.add_0_r|].
    rewrite (proj2 (Z.eqb_neq _ _)) in Hc by (rewrite zlen_cons; pose proof (zlen_nonneg l); lia).
    replace (p + zlen hdr) with (p + zlen hdr - 1 + 1) in Hat' by lia.
    rewrite (again_pairs _ _ _ _ _ _ Hl Hat') in Hc. eapply leads_trans; [exact Hc|]. replace (p + (zlen hdr + _) - 1) with (p + zlen hdr - 1 + 1 + zlen bytes - 1) by lia.
    eapply (IHl ltac:(done) _ _ []); [done|lia].
  - done.
  - intros _ p stack done key Hat Hd. pose proof (at_app _ _ _ Hat) as [Hat1 Hat2].
    pose proof (IHo p (mk_stack (MSGPACK_OBJECT_ARRAY done) (zlen (o :: l)) MSGPACK_CT_ARRAY_ITEM key :: stack) Hat1 ltac:(rewrite zlen_cons; lia)) as Hlead.
    unfold push in Hlead. cbn [_push ts_ct ts_obj ts_count ts_map_key template_callback_array_item] in Hlead. rewrite zlen_cons in Hlead.
    replace (zlen l + 1 - 1) with (zlen l) in Hlead by lia. rewrite (zlen_cons o), zlen_app. destruct l as [|x l].
    + apply formats_nil in Hl as ->. change (zlen (@nil msgpack_object) =? 0) with true in Hlead. change (zlen (@nil Z)) with 0. rewrite Z.add_0_r. exact Hlead.
    + rewrite (proj2 (Z.eqb_neq _ _)) in Hlead by (rewrite zlen_cons; pose proof (zlen_nonneg l); lia).
      replace (p + zlen bytes) with (p + zlen bytes - 1 + 1) in Hat2 by lia. rewrite (again_formats _ _ _ _ _ _ Hl Hat2) in Hlead.
      eapply leads_trans; [exact Hlead|]. replace (p + (zlen bytes + _) - 1) with (p + zlen bytes - 1 + 1 + zlen rest - 1) by lia.
      change (o :: x :: l) with ([o] ++ x :: l). rewrite app_assoc. by eapply IHl.
  - done.
  - intros _ p stack done key Hat Hd. pose proof (at_app _ _ _ Hat) as [Hat1 Hat2]. pose proof (at_app _ _ _ Hat2) as [Hat2' Hat3].
    pose proof (IHk p (mk_stack (MSGPACK_OBJECT_MAP done) (zlen ((k, v) :: l)) MSGPACK_CT_MAP_KEY key :: stack) Hat1 ltac:(rewrite zlen_cons; lia)) as Hlead.
    unfold push in Hlead. cbn [_push ts_ct ts_obj ts_count ts_map_key] in Hlead. replace (p + zlen kb) with (p + zlen kb - 1 + 1) in Hat2, Hat2', Hat3 by lia.
    rewrite (again_format _ _ _ _ _ _ Hv Hat2) in Hlead. eapply leads_trans; [exact Hlead|]. clear Hlead.
    pose proof (IHv _ (mk_stack (MSGPACK_OBJECT_MAP done) (zlen ((k, v) :: l)) MSGPACK_CT_MAP_VALUE k :: stack) Hat2' ltac:(rewrite zlen_cons; lia)) as Hlead.
    unfold push in Hlead. cbn [_push ts_ct ts_obj ts_count ts_map_key template_callback_map_item] in Hlead. rewrite zlen_cons in Hlead.
    replace (zlen l + 1 - 1) with (zlen l) in Hlead by lia. rewrite (zlen_cons (k, v)), !zlen_app. destruct l as [|x l].
    + apply pairs_nil in Hl as ->. change (zlen (@nil (msgpack_object * msgpack_object)) =? 0) with true in Hlead. change (zlen (@nil Z)) with 0. rewrite Z.add_0_r.
      replace (p + (zlen kb + zlen vb) - 1) with (p + zlen kb - 1 + 1 + zlen vb - 1) by lia. exact Hlead.
    + rewrite (proj2 (Z.eqb_neq _ _)) in Hlead by (rewrite zlen_cons; pose proof (zlen_nonneg l); lia).
      replace (p + zlen kb - 1 + 1 + zlen vb) with (p + zlen kb - 1 + 1 + zlen vb - 1 + 1) in Hat3 by lia. rewrite (again_pairs _ _ _ _ _ _ Hl Hat3) in Hlead.
      eapply leads_trans; [exact Hlead|]. replace (p + (zlen kb + (zlen vb + _)) - 1) with (p + zlen kb - 1 + 1 + zlen vb - 1 + 1 + zlen rest - 1) by lia.
      change ((k, v) :: x :: l) with ([(k, v)] ++ x :: l). rewrite app_assoc. by eapply IHl.
Qed.
End data.

Lemma execute_exact pre bytes post d o : format d o bytes → (d <= 32)%nat →
  template_execute float_of double_of zone_malloc (pre ++ bytes ++ post) (zlen pre) = Some (1, zlen pre + zlen bytes, o).
Proof.
  intros Hf Hd. pose proof (format_nonempty d o bytes Hf) as Hlen. set (data := pre ++ bytes ++ post).
  assert (Hat : at_offset data (zlen pre) bytes) by (by exists pre, post). destruct (at_bound data _ _ Hat) as [Hp Hb].
  pose proof (format_read data d o bytes Hf (zlen pre) [] Hat ltac:(change (zlen []) with 0; unfold MSGPACK_EMBED_STACK_SIZE; lia)) as Hl.
  unfold push in Hl. cbn [_push] in Hl. unfold template_execute. rewrite (proj2 (Z.eqb_neq _ _)) by lia.
  rewrite (steps_leads data _ _ Hl); [|split; cbn; lia|cbn; lia]. do 3 f_equal. lia.
Qed.
Lemma next_executes data off ret noff o : off < zlen data → template_execute float_of double_of zone_malloc data off = Some (ret, noff, o) → 0 < ret →
  msgpack_unpack_next float_of double_of zone_malloc data off = (MSGPACK_UNPACK_SUCCESS o, noff).
Proof. intros Hoff He Hr. unfold msgpack_unpack_next. by rewrite (proj2 (Z.leb_gt _ _)), He, (proj2 (Z.ltb_ge _ _)), (proj2 (Z.eqb_neq _ _)) by lia. Qed.

(** C29. The unpacker reads MessagePack: any encoding of an object whose containers are nested at most 32 deep - numbers
    in any width, lengths announced in any way - is read as that object, wherever it is in the data, with the
    offset right after it, as long as the zone has memory. *)
Theorem unpack_exact pre bytes post d o : format d o bytes → (d <= 32)%nat →
  msgpack_unpack_next float_of double_of zone_malloc (pre ++ bytes ++ post) (zlen pre) = (MSGPACK_UNPACK_SUCCESS o, zlen pre + zlen bytes).
Proof.
  intros Hf Hd. pose proof (format_nonempty d o bytes Hf) as Hlen. eapply next_executes; [|by eapply execute_exact|done].
  rewrite !zlen_app. pose proof (zlen_nonneg post). lia.
Qed.
End format.

(** ** The unpacker as the log decoder needs it *)

Lemma unpack_ok float_of double_of zone_malloc : unpacker_ok (msgpack_unpack_next float_of double_of zone_malloc).
Proof.
  split.
  - intros b off Hoff. unfold msgpack_unpack_next. by rewrite (proj2 (Z.leb_le _ _)).
  - intros b off o off'. unfold msgpack_unpack_next. destruct (Z.leb_spec (zlen b) off) as [Hle|Hgt]; [done|].
    destruct (Z.leb_spec 0 off) as [H0|H0].
    + destruct (execute_defined float_of double_of zone_malloc b off ltac:(lia)) as (ret & noff & o' & -> & Hoff & Hp & Hret).
      destruct (Z.ltb_spec ret 0); [done|]. destruct (Z.eqb_spec ret 0); [done|]. intros [= <- <-]. specialize (Hp ltac:(lia)). lia.
    + unfold template_execute. rewrite (proj2 (Z.eqb_neq _ _)) by (pose proof (zlen_nonneg b); lia). cbn [steps]. unfold template_step. cbn.
      unfold zlookup. by rewrite (proj2 (Z.leb_gt _ _)) by lia.
Qed.

(** C30. On any bytes the unpacker is defined and ends: it never reads outside the data, whatever the zone answers, at
    the end of the data it asks for more, and an object takes at least one byte and none beyond the end; this is
    what [LogDecoder], [MpChunk] and the routing of chunks ask of it. *)
Theorem unpack_safe float_of double_of zone_malloc :
  unpacker_ok (msgpack_unpack_next float_of double_of zone_malloc) ∧
  ∀ data off, 0 <= off <= zlen data → ∃ ret noff o, template_execute float_of double_of zone_malloc data off = Some (ret, noff, o) ∧
    off <= noff <= zlen data.
Proof.
  split; [apply unpack_ok|]. intros data off Hoff.
  destruct (execute_defined float_of double_of zone_malloc data off Hoff) as (ret & noff & o & ? & ? & _). eauto.
Qed.

(** 33 arrays in each other are refused, whatever is in them, though they are packed like others. *)
Lemma nested_too_deep float_of double_of : msgpack_unpack_next float_of double_of (λ _ _, true) (replicate 33 0x91 ++ [0xc0]) 0 = (MSGPACK_UNPACK_ERROR, 32) ∧
  msgpack_unpack_next float_of double_of (λ _ _, true) (replicate 32 0x91 ++ [0xc0]) 0 =
    (MSGPACK_UNPACK_SUCCESS (Nat.iter 32 (λ o, MSGPACK_OBJECT_ARRAY [o]) MSGPACK_OBJECT_NIL), 33).
Proof. split; reflexivity. Qed.

(** ** What the packer writes is in the format *)

Section packers.
Variables float_bits double_bits : double → list Z.
Variables float_of double_of : list Z → double.
Abbreviation format := (format float_of double_of).
Abbreviation scalar := (scalar float_of double_of).

(** Objects as they come from memory: numbers and lengths within their C types *)
Definition representable (o : msgpack_object) : Prop :=
  match o with
  | MSGPACK_OBJECT_NIL | MSGPACK_OBJECT_BOOLEAN _ => True
  | MSGPACK_OBJECT_POSITIVE_INTEGER u => 0 <= u < 2 ^ 64
  | MSGPACK_OBJECT_NEGATIVE_INTEGER i => - 2 ^ 63 <= i < 0
  | MSGPACK_OBJECT_FLOAT32 x => zlen (float_bits x) = 4 ∧ float_of (float_bits x) = x
  | MSGPACK_OBJECT_FLOAT64 x => zlen (double_bits x) = 8 ∧ double_of (double_bits x) = x
  | MSGPACK_OBJECT_STR s | MSGPACK_OBJECT_BIN s => zlen s < 2 ^ 32
  | MSGPACK_OBJECT_EXT t s => - 2 ^ 7 <= t < 2 ^ 7 ∧ zlen s + 1 < 2 ^ 32
  | MSGPACK_OBJECT_ARRAY l => zlen l < 2 ^ 32
  | MSGPACK_OBJECT_MAP l => zlen l < 2 ^ 32
  end.
(** and containers nested at most [d] deep *)
Fixpoint packable (d : nat) (o : msgpack_object) : Prop :=
  representable o ∧
  match o, d with
  | MSGPACK_OBJECT_ARRAY l, S d' => Forall (packable d') l
  | MSGPACK_OBJECT_MAP l, S d' => Forall (λ kv, packable d' kv.1 ∧ packable d' kv.2) l
  | MSGPACK_OBJECT_ARRAY _, O | MSGPACK_OBJECT_MAP _, O => False
  | _, _ => True
  end.
Lemma packable_representable d o : packable d o → representable o.
Proof. destruct d; by intros []. Qed.

Lemma packable_mono d d' o : (d <= d')%nat → packable d o → packable d' o.
Proof.
  revert d' o. induction d as [|d IH]; intros d' o Hd [Hr Ho].
  - destruct d', o; by split.
  - destruct d' as [|d']; [lia|]. destruct o; split; try done; (eapply Forall_impl; [exact Ho|]).
    + intros o Hp. apply IH; [lia|done].
    + intros [k v] [Hk Hv]. split; (apply IH; [lia|done]).
Qed.

Lemma small_bits hi k n : 0 <= n < 2 ^ k → 0 <= k → hi mod 2 ^ k = 0 → Z.lor hi n = hi + n.
Proof.
  intros Hn Hk Hhi. assert (Hand : Z.land hi n = 0); [|rewrite Z.add_nocarry_lxor by done; symmetry; by apply Z.lxor_lor].
  rewrite <- (Z.mod_small n (2 ^ k)) by done. rewrite <- Z.land_ones, Z.land_assoc, (Z.land_comm hi), <- Z.land_assoc, Z.land_ones, Hhi by done. apply Z.land_0_r.
Qed.
Lemma integer_format n : - 2 ^ 63 <= n < 2 ^ 64 → scalar (template_callback_int n) (pack_integer n).
Proof.
  intros Hn. unfold pack_integer.
  destruct (Z.ltb_spec n (- 2 ^ 5)).
  - destruct (Z.ltb_spec n (- 2 ^ 15)); [destruct (Z.ltb_spec n (- 2 ^ 31))|destruct (Z.ltb_spec n (- 2 ^ 7))].
    + replace n with (i64 (load (store64 n))) at 1 by (rewrite load_store64; unfold i64, u64; Z.div_mod_to_equations; lia). by apply sc_int64.
    + replace n with (i32 (load (store32 n))) at 1 by (rewrite load_store32'; unfold i32, u32; Z.div_mod_to_equations; lia). by apply sc_int32.
    + replace n with (i16 (load (store16 n))) at 1; [by apply sc_int16|]. unfold load, store16, u8, i16. cbn [foldl].
      rewrite Z.shiftr_div_pow2 by lia. Z.div_mod_to_equations. lia.
    + replace n with (i8 (load [u8 n])) at 1; [by apply sc_int8|]. unfold load, u8, i8. cbn [foldl]. Z.div_mod_to_equations. lia.
  - assert (Hu : ∀ h bytes, (h, zlen bytes) ∈ [(0xcc, 1); (0xcd, 2); (0xce, 4); (0xcf, 8)] → 0 <= n → load bytes = n → scalar (template_callback_int n) (h :: bytes)).
    { intros h bytes Hin H0 Hl. unfold template_callback_int. rewrite (proj2 (Z.leb_le _ _)) by done. rewrite <- Hl. by apply sc_uint. }
    destruct (Z.ltb_spec n (2 ^ 7)).
    { unfold template_callback_int, u8. destruct (Z.leb_spec 0 n); [rewrite Z.mod_small by lia; by apply sc_fix|].
      replace (n mod 2 ^ 8) with (n + 256) by (Z.div_mod_to_equations; lia). apply sc_negative. lia. }
    destruct (Z.ltb_spec n (2 ^ 16)); [destruct (Z.ltb_spec n (2 ^ 8))|destruct (Z.ltb_spec n (2 ^ 32))].
    + apply Hu; [cbn; member|lia|]. unfold load, u8. cbn [foldl]. Z.div_mod_to_equations. lia.
    + apply Hu; [cbn; member|lia|]. apply load_store16. lia.
    + apply Hu; [cbn; member|lia|]. rewrite load_store32'. apply Z.mod_small. lia.
    + apply Hu; [cbn; member|lia|]. rewrite load_store64. apply Z.mod_small. lia.
Qed.

Lemma load_one n : 0 <= n < 2 ^ 8 → load [u8 n] = n.
Proof. intros Hn. unfold load, u8. cbn [foldl]. rewrite Z.mod_small by done. lia. Qed.
Lemma load_store32 n : 0 <= n < 2 ^ 32 → load (store32 n) = n.
Proof. intros Hn. rewrite load_store32'. by apply Z.mod_small. Qed.

Lemma string_format (s : list Z) : zlen s < 2 ^ 32 → content_header MSGPACK_ACS_STR_VALUE (zlen s) (msgpack_pack_str (zlen s)).
Proof.
  intros Hs. pose proof (zlen_nonneg s). unfold msgpack_pack_str. destruct (Z.ltb_spec (zlen s) 32).
  - rewrite (small_bits _ 5) by (done || lia). by apply fix_str.
  - destruct (Z.ltb_spec (zlen s) 256); [|destruct (Z.ltb_spec (zlen s) 65536)]; (eapply sized; [member| |by rewrite Z.add_0_r|done]).
    + apply load_one. lia.
    + apply load_store16. lia.
    + apply load_store32. lia.
Qed.
Lemma binary_format (s : list Z) : zlen s < 2 ^ 32 → content_header MSGPACK_ACS_BIN_VALUE (zlen s) (msgpack_pack_bin (zlen s)).
Proof.
  intros Hs. pose proof (zlen_nonneg s). unfold msgpack_pack_bin.
  destruct (Z.ltb_spec (zlen s) 256); [|destruct (Z.ltb_spec (zlen s) 65536)]; (eapply sized; [member| |by rewrite Z.add_0_r|done]).
  - apply load_one. lia.
  - apply load_store16. lia.
  - apply load_store32. lia.
Qed.
(** The type is written with the header, and is the first byte of the content. *)
Lemma extension_format t (s : list Z) d : - 2 ^ 7 <= t < 2 ^ 7 → zlen s + 1 < 2 ^ 32 → format d (MSGPACK_OBJECT_EXT t s) (msgpack_pack_ext (zlen s) t ++ s).
Proof.
  intros Ht Hs. pose proof (zlen_nonneg s).
  assert (Hob : content_object MSGPACK_ACS_EXT_VALUE (u8 t :: s) = Some (MSGPACK_OBJECT_EXT t s)).
  { unfold content_object. cbn. do 2 f_equal. unfold i8, u8. Z.div_mod_to_equations. lia. }
  assert (Hf : ∀ hdr, content_header MSGPACK_ACS_EXT_VALUE (zlen s + 1) hdr → format d (MSGPACK_OBJECT_EXT t s) (hdr ++ u8 t :: s)).
  { intros hdr Hh. eapply fm_content; [|exact Hob]. by rewrite zlen_cons. }
  assert (Hfix : ∀ h m, (h, m + 1) ∈ [(0xd4, 2); (0xd5, 3); (0xd6, 5); (0xd7, 9); (0xd8, 17)] → zlen s = m → format d (MSGPACK_OBJECT_EXT t s) ([h; u8 t] ++ s)).
  { intros h m Hin <-. apply (Hf [h]). by apply fix_ext. }
  unfold msgpack_pack_ext.
  destruct (Z.eqb_spec (zlen s) 1); [by apply (Hfix _ 1); [cbn; member|]|]. destruct (Z.eqb_spec (zlen s) 2); [by apply (Hfix _ 2); [cbn; member|]|].
  destruct (Z.eqb_spec (zlen s) 4); [by apply (Hfix _ 4); [cbn; member|]|]. destruct (Z.eqb_spec (zlen s) 8); [by apply (Hfix _ 8); [cbn; member|]|].
  destruct (Z.eqb_spec (zlen s) 16); [by apply (Hfix _ 16); [cbn; member|]|].
  destruct (Z.ltb_spec (zlen s) 256); [|destruct (Z.ltb_spec (zlen s) 65536)].
  - apply (Hf [0xc7; u8 (zlen s)]). eapply sized; [member| |done|done]. apply load_one. lia.
  - rewrite app_comm_cons, <- app_assoc. apply Hf. eapply sized; [member| |done|done]. apply load_store16. lia.
  - rewrite app_comm_cons, <- app_assoc. apply Hf. eapply sized; [member| |done|done]. apply load_store32. lia.
Qed.
Lemma array_format n : 0 <= n < 2 ^ 32 → container_header MSGPACK_CT_ARRAY_ITEM n (msgpack_pack_array n).
Proof.
  intros Hn. unfold msgpack_pack_array. destruct (Z.ltb_spec n 16); [rewrite (small_bits _ 4) by (done || lia); by apply fix_array|].
  destruct (Z.ltb_spec n 65536); (eapply counted; [member|]); [apply load_store16; lia|by apply load_store32].
Qed.
Lemma map_format n : 0 <= n < 2 ^ 32 → container_header MSGPACK_CT_MAP_KEY n (0xdf :: store32 n).
Proof. intros Hn. eapply counted; [member|]. by apply load_store32. Qed.

Abbreviation written ps := (ps ≫= λ p, concat (packed_bytes float_bits double_bits p)).

(** Whatever the packer writes is read back. *)
Lemma pack_format d : ∀ o, packable d o → format d o (written (pack_object o)).
Proof.
  induction d as [d IHd] using (well_founded_induction lt_wf). intros o Hp.
  assert (Hone : ∀ o, (∃ l, pack_object o = [l] ∧ scalar o (concat (packed_bytes float_bits double_bits l))) → format d o (written (pack_object o))).
  { intros o' (l & -> & Hs). cbn. rewrite app_nil_r. by apply fm_scalar. }
  destruct o as [|b|u|i|x|x|s|s|t s|l|l]; [..|destruct d as [|d]; [by destruct Hp|]|destruct d as [|d]; [by destruct Hp|]];
    [apply packable_representable in Hp; cbn [representable] in Hp..| |].
  - apply Hone. eexists. split; [done|apply sc_nil].
  - apply Hone. eexists. split; [done|]. cbn [packed_bytes concat]. rewrite app_nil_r. destruct b; [exact (sc_bool _ _ true)|exact (sc_bool _ _ false)].
  - apply Hone. eexists. split; [done|]. cbn. rewrite app_nil_r. pose proof (integer_format u ltac:(lia)) as Hf. unfold template_callback_int in Hf.
    by rewrite (proj2 (Z.leb_le _ _)) in Hf by lia.
  - apply Hone. eexists. split; [done|]. cbn. rewrite app_nil_r. pose proof (integer_format i ltac:(lia)) as Hf. unfold template_callback_int in Hf.
    by rewrite (proj2 (Z.leb_gt _ _)) in Hf by lia.
  - apply Hone. eexists. split; [done|]. cbn. rewrite app_nil_r. destruct Hp as [Hl Hx]. rewrite <- Hx at 1. by apply sc_float.
  - apply Hone. eexists. split; [done|]. cbn. rewrite app_nil_r. destruct Hp as [Hl Hx]. rewrite <- Hx at 1. by apply sc_double.
  - cbn. rewrite !app_nil_r. eapply fm_content; [by apply string_format|done].
  - cbn. rewrite !app_nil_r. eapply fm_content; [by apply binary_format|done].
  - cbn. rewrite !app_nil_r. apply extension_format; tauto.
  - destruct Hp as [Hl Hp]. cbn [representable] in Hl. cbn [pack_object]. rewrite bind_cons. cbn [packed_bytes concat]. rewrite app_nil_r.
    apply fm_array; [apply array_format; split; [apply zlen_nonneg|done]|]. clear Hl. induction Hp as [|o l Ho _ IH]; [apply fms_nil|].
    rewrite bind_cons, bind_app. apply fms_cons; [apply IHd; [lia|done]|done].
  - destruct Hp as [Hl Hp]. cbn [representable] in Hl. cbn [pack_object]. rewrite bind_cons. cbn [packed_bytes concat]. rewrite app_nil_r.
    apply fm_map; [apply map_format; split; [apply zlen_nonneg|done]|]. clear Hl. induction Hp as [|[k v] l [Hk Hv] _ IH]; [apply fmp_nil|].
    rewrite bind_cons, !bind_app, <- app_assoc. apply fmp_cons; [apply IHd; [lia|done]|apply IHd; [lia|done]|done].
Qed.
End packers.

(** ** Examples *)

(** 5 in two bytes and a string whose length is announced in one, between other objects *)
Lemma unpack_exact_witness :
  format (λ _, S754_nan) (λ _, S754_nan) 1 (MSGPACK_OBJECT_ARRAY [MSGPACK_OBJECT_POSITIVE_INTEGER 5; MSGPACK_OBJECT_STR [97]]) [0x92; 0xcd; 0; 5; 0xd9; 1; 97] ∧
  msgpack_unpack_next (λ _, S754_nan) (λ _, S754_nan) (λ _ _, true) ([1] ++ [0x92; 0xcd; 0; 5; 0xd9; 1; 97] ++ [2]) 1 =
    (MSGPACK_UNPACK_SUCCESS (MSGPACK_OBJECT_ARRAY [MSGPACK_OBJECT_POSITIVE_INTEGER 5; MSGPACK_OBJECT_STR [97]]), 8).
Proof.
  assert (Hf : format (λ _, S754_nan) (λ _, S754_nan) 1 (MSGPACK_OBJECT_ARRAY [MSGPACK_OBJECT_POSITIVE_INTEGER 5; MSGPACK_OBJECT_STR [97]])
    ([0x92] ++ [0xcd; 0; 5] ++ ([0xd9; 1] ++ [97]) ++ [])).
  { apply fm_array; [by apply fix_array|]. apply fms_cons; [apply fm_scalar, (sc_uint _ _ 0xcd [0; 5]); member|].
    apply fms_cons; [|apply fms_nil]. apply (fm_content _ _ _ MSGPACK_ACS_STR_VALUE); [|done]. apply (sized _ _ 0xd9 0 1 [1]); [member|done..]. }
  split; [exact Hf|]. exact (unpack_exact _ _ (λ _ _, true) (λ _ _, eq_refl) [1] _ [2] 1 _ Hf ltac:(lia)).
Defined.
