(* ===== verification/RecordEncoder.v ===== *)
(** * Encoders of log records: the interface

    What the code that reads and splits chunks of logs needs of [src/flb_log_event_encoder.c]: a record is
    begun, gets its timestamp, metadata and body as packed objects, and is committed to the output.  The
    laws are about calls while no allocation fails: when one does, an encoder may write outside its buffer.
    [LogEncoder] has the instance. *)
From S2P Require Import Prelude Env Heap MsgPack LogDecoder Packer.

Definition FLB_EVENT_ENCODER_SUCCESS : Z := 0.
Definition FLB_EVENT_ENCODER_ERROR_ALLOCATION_ERROR : Z := -2.
Definition FLB_EVENT_ENCODER_ERROR_INVALID_CONTEXT : Z := -3.
Definition FLB_EVENT_ENCODER_ERROR_INVALID_ARGUMENT : Z := -4.
Definition FLB_EVENT_ENCODER_ERROR_SERIALIZATION_FAILURE : Z := -5.
Definition FLB_EVENT_ENCODER_ERROR_INVALID_VALUE_TYPE : Z := -6.

(** A timestamp: an extension of type 0 with the seconds and the nanoseconds *)
Definition timestamp_bytes (t : flb_time) : list Z := [0xd7; 0] ++ store32 (tv_sec t) ++ store32 (tv_nsec t).
(** A record: the array of the array of timestamp and metadata, and the body *)
Definition record_bytes (t : flb_time) (md body : list Z) : list Z :=
  [0xdd; 0; 0; 0; 2] ++ [0xdd; 0; 0; 0; 2] ++ timestamp_bytes t ++ md ++ body.
Definition empty_map_bytes : list Z := [0xdf; 0; 0; 0; 0].

(** A record that is not committed *)
Record pending := mk_pending { pd_time : flb_time; pd_metadata : list Z; pd_body : list Z }.
Definition pending_bytes (p : pending) : list Z := record_bytes (pd_time p) (pd_metadata p) (pd_body p).
Definition set_pd_time (t : flb_time) (p : pending) : pending := mk_pending t (pd_metadata p) (pd_body p).
Definition set_pd_metadata (md : list Z) (p : pending) : pending := mk_pending (pd_time p) md (pd_body p).
Definition set_pd_body (body : list Z) (p : pending) : pending := mk_pending (pd_time p) (pd_metadata p) body.

(** A call succeeds, keeps the memory and leaves the encoder in a state. *)
Definition encoder_call {E} (blocks : E → list nat) (e : E) (call : M heap (Z * E)) (after : E → Prop) : Prop :=
  calm_run (blocks e) call (λ r, blocks r.2) (λ r, r.1 = FLB_EVENT_ENCODER_SUCCESS ∧ after r.2).

Class RecordEncoder (E : Type) := {
  encoder_create : M heap (option E);
  encoder_destroy : E → M heap unit;
  encoder_begin_record : E → M heap (Z * E);
  encoder_set_timestamp : flb_time → E → M heap (Z * E);
  encoder_set_metadata_from_raw_msgpack : option (list Z) → E → M heap (Z * E);
  encoder_set_body_from_raw_msgpack : option (list Z) → E → M heap (Z * E);
  encoder_commit_record : E → M heap (Z * E);
  encoder_claim_internal_buffer_ownership : E → E;
  (* where [output_buffer] is and its bytes, the blocks it owns, what it holds: committed bytes and a record *)
  encoder_output_buffer : E → option nat;
  encoder_output : E → option (list Z);
  encoder_blocks : E → list nat;
  encoder_at : list Z → pending → E → Prop;
  encoder_output_law out p e : encoder_at out p e → encoder_output e = Some out;
  encoder_create_law s : runs encoder_create s (λ o s', (calm (hp_env s) → calm (hp_env s')) ∧
    match o with
    | Some e => hp_live s' ≡ₚ encoder_blocks e ++ hp_live s ∧ ∃ p, encoder_at [] p e
    | None => hp_live s' = hp_live s ∧ ¬ calm (hp_env s)
    end);
  encoder_destroy_law out p e s X : encoder_at out p e → hp_live s ≡ₚ encoder_blocks e ++ X →
    runs (encoder_destroy e) s (λ _ s', hp_live s' ≡ₚ X ∧ hp_env s' = hp_env s);
  encoder_begin_law out p e : encoder_at out p e → encoder_call encoder_blocks e (encoder_begin_record e)
    (encoder_at out (mk_pending (mk_time 0 0) empty_map_bytes empty_map_bytes));
  encoder_timestamp_law t out p e : encoder_at out p e →
    encoder_call encoder_blocks e (encoder_set_timestamp t e) (encoder_at out (set_pd_time t p));
  encoder_metadata_law md out p e : encoder_at out p e → zlen md < 2 ^ 64 →
    encoder_call encoder_blocks e (encoder_set_metadata_from_raw_msgpack (Some md) e) (encoder_at out (set_pd_metadata md p));
  encoder_body_law body out p e : encoder_at out p e → zlen body < 2 ^ 64 →
    encoder_call encoder_blocks e (encoder_set_body_from_raw_msgpack (Some body) e) (encoder_at out (set_pd_body body p));
  encoder_commit_law out p e : encoder_at out p e → pd_metadata p ≠ [] → pd_body p ≠ [] →
    zlen (out ++ pending_bytes p) < 2 ^ 64 →
    encoder_call encoder_blocks e (encoder_commit_record e) (λ e', ∃ p', encoder_at (out ++ pending_bytes p) p' e');
  (* what is claimed belongs to the caller *)
  encoder_claim_law out p e : encoder_at out p e →
    encoder_blocks e ≡ₚ option_list (encoder_output_buffer e) ++ encoder_blocks (encoder_claim_internal_buffer_ownership e) ∧
    ∀ s X, hp_live s ≡ₚ encoder_blocks (encoder_claim_internal_buffer_ownership e) ++ X →
      runs (encoder_destroy (encoder_claim_internal_buffer_ownership e)) s (λ _ s', hp_live s' ≡ₚ X ∧ hp_env s' = hp_env s);
  (* the addresses of blocks are new *)
  encoder_create_bounded : bounded encoder_create;
  encoder_destroy_bounded e : bounded (encoder_destroy e);
  encoder_begin_bounded e : bounded (encoder_begin_record e);
  encoder_timestamp_bounded t e : bounded (encoder_set_timestamp t e);
  encoder_metadata_bounded md e : bounded (encoder_set_metadata_from_raw_msgpack md e);
  encoder_body_bounded body e : bounded (encoder_set_body_from_raw_msgpack body e);
  encoder_commit_bounded e : bounded (encoder_commit_record e)
}.
#[export] Hint Resolve encoder_create_bounded encoder_destroy_bounded encoder_begin_bounded encoder_timestamp_bounded
  encoder_metadata_bounded encoder_body_bounded encoder_commit_bounded : bounded.
