(* ===== verification/DynamicField.v ===== *)
(** * Fields of a record under construction ([src/flb_log_event_encoder_dynamic_field.c])

    A field is a buffer with a stack of open maps and arrays.  What is appended counts in the innermost one;
    its header is written when it is entered, with room for any number of entries, and gets the number when
    it is left.  The names have the prefix [flb_log_event_encoder_] in the code.

    The field implements a stack of lists of elements ([repr]), as long as no allocation fails. *)
From S2P Require Import Prelude CStd Env Heap MsgPack LogDecoder Packer RecordEncoder.

(** ** Data *)

(** The types of objects that matter here *)
Inductive object_type := TYPE_MAP | TYPE_ARRAY | TYPE_OTHER.

Record dynamic_field_scope := mk_scope {
  sc_block : nat; sc_offset : Z; sc_header : flb_mp_map_header; sc_type : object_type
}.
Definition set_sc_header (x : flb_mp_map_header) (sc : dynamic_field_scope) : dynamic_field_scope :=
  mk_scope (sc_block sc) (sc_offset sc) x (sc_type sc).

(** The innermost scope comes first.  [data] and [size] are what the last flush left. *)
Record dynamic_field := mk_field {
  df_initialized : bool; df_buffer : msgpack_sbuffer; df_scopes : list dynamic_field_scope;
  df_data : option nat; df_size : Z; df_type : object_type
}.
Definition set_df_buffer (x : msgpack_sbuffer) (f : dynamic_field) : dynamic_field :=
  mk_field (df_initialized f) x (df_scopes f) (df_data f) (df_size f) (df_type f).
Definition set_df_scopes (x : list dynamic_field_scope) (f : dynamic_field) : dynamic_field :=
  mk_field (df_initialized f) (df_buffer f) x (df_data f) (df_size f) (df_type f).
Definition set_df_value (d : option nat) (n : Z) (f : dynamic_field) : dynamic_field :=
  mk_field (df_initialized f) (df_buffer f) (df_scopes f) d n (df_type f).
Definition set_df_initialized (x : bool) (f : dynamic_field) : dynamic_field :=
  mk_field x (df_buffer f) (df_scopes f) (df_data f) (df_size f) (df_type f).

Definition field_blocks (f : dynamic_field) : list nat := sb_blocks (df_buffer f) ++ (sc_block <$> df_scopes f).

(** ** Scopes *)

Definition dynamic_field_scope_current (f : dynamic_field) : option dynamic_field_scope := head (df_scopes f).

(** One more entry for the current scope *)
Definition dynamic_field_append (f : dynamic_field) : Z * dynamic_field :=
  match df_scopes f with
  | [] => (FLB_EVENT_ENCODER_SUCCESS, f)
  | sc :: rest => (FLB_EVENT_ENCODER_SUCCESS, set_df_scopes (set_sc_header (flb_mp_map_header_append (sc_header sc)) sc :: rest) f)
  end.

(** The result of writing the header is not used. *)
Definition dynamic_field_scope_enter (type : object_type) (f : dynamic_field) : M heap (Z * dynamic_field) :=
  match type with
  | TYPE_OTHER => mret (FLB_EVENT_ENCODER_ERROR_INVALID_ARGUMENT, f)
  | _ =>
      let '(result, f) := dynamic_field_append f in
      if negb (result =? FLB_EVENT_ENCODER_SUCCESS) then mret (result, f)
      else
        scope ← alloc;
        match scope with
        | None => mret (FLB_EVENT_ENCODER_ERROR_ALLOCATION_ERROR, f)
        | Some a =>
            let offset := sb_size (df_buffer f) in
            '(_, b, header) ←
              match type with
              | TYPE_MAP => flb_mp_map_header_init (df_buffer f)
              | _ => flb_mp_array_header_init (df_buffer f)
              end;
            mret (FLB_EVENT_ENCODER_SUCCESS,
                  set_df_scopes (mk_scope a offset header type :: df_scopes f) (set_df_buffer b f))
        end
  end.

(** The entries of a map are its keys and values. *)
Definition dynamic_field_end_header (sc : dynamic_field_scope) (b : msgpack_sbuffer) : option msgpack_sbuffer :=
  match sc_type sc with
  | TYPE_MAP => flb_mp_map_header_end (mk_header (mh_offset (sc_header sc)) (mh_entries (sc_header sc) / 2)) b
  | _ => flb_mp_array_header_end (sc_header sc) b
  end.

(** [scope] is always the current one, NULL when there is none. *)
Definition dynamic_field_scope_leave (commit : bool) (f : dynamic_field) : M heap (Z * dynamic_field) :=
  match df_scopes f with
  | [] => mret (FLB_EVENT_ENCODER_ERROR_INVALID_ARGUMENT, f)
  | sc :: rest =>
      b ← deref (if commit then dynamic_field_end_header sc (df_buffer f)
                 else Some (set_sb_size (sc_offset sc) (df_buffer f)));
      free_block (sc_block sc) ≫= λ _,
      mret (FLB_EVENT_ENCODER_SUCCESS, set_df_scopes rest (set_df_buffer b f))
  end.

Definition dynamic_field_begin_map : dynamic_field → M heap (Z * dynamic_field) := dynamic_field_scope_enter TYPE_MAP.
Definition dynamic_field_begin_array : dynamic_field → M heap (Z * dynamic_field) := dynamic_field_scope_enter TYPE_ARRAY.
Definition dynamic_field_commit_map : dynamic_field → M heap (Z * dynamic_field) := dynamic_field_scope_leave true.
Definition dynamic_field_commit_array : dynamic_field → M heap (Z * dynamic_field) := dynamic_field_scope_leave true.
Definition dynamic_field_rollback_map : dynamic_field → M heap (Z * dynamic_field) := dynamic_field_scope_leave false.
(** It commits. *)
Definition dynamic_field_rollback_array : dynamic_field → M heap (Z * dynamic_field) := dynamic_field_scope_leave true.

(** The loop runs as long as there is a scope: once per scope. *)
Fixpoint flush_scopes (fuel : nat) (commit : bool) (f : dynamic_field) : M heap (Z * dynamic_field) :=
  match df_scopes f with
  | [] => mret (FLB_EVENT_ENCODER_SUCCESS, f)
  | _ =>
      '(result, f) ← dynamic_field_scope_leave commit f;
      if negb (result =? FLB_EVENT_ENCODER_SUCCESS) then mret (result, f)
      else match fuel with O => deref None | S fuel' => flush_scopes fuel' commit f end
  end.
Definition dynamic_field_flush_scopes (commit : bool) (f : dynamic_field) : M heap (Z * dynamic_field) :=
  flush_scopes (length (df_scopes f)) commit f.

Definition dynamic_field_flush (f : dynamic_field) : M heap (Z * dynamic_field) :=
  '(result, f) ← dynamic_field_flush_scopes true f;
  if result =? FLB_EVENT_ENCODER_SUCCESS
  then mret (result, set_df_value (sb_data (df_buffer f)) (sb_size (df_buffer f)) f)
  else mret (result, f).

(** The buffer is cleared first; then the scopes are left, each at its offset. *)
Definition dynamic_field_reset (f : dynamic_field) : M heap (Z * dynamic_field) :=
  '(_, f) ← dynamic_field_flush_scopes false (set_df_buffer (msgpack_sbuffer_clear (df_buffer f)) f);
  mret (FLB_EVENT_ENCODER_SUCCESS, set_df_value None 0 f).

Definition zero_field : dynamic_field := mk_field false msgpack_sbuffer_init [] None 0 TYPE_OTHER.
Definition dynamic_field_init (type : object_type) (f : dynamic_field) : M heap (Z * dynamic_field) :=
  '(_, f) ← dynamic_field_reset (mk_field true msgpack_sbuffer_init [] (df_data f) (df_size f) type);
  mret (FLB_EVENT_ENCODER_SUCCESS, f).

Definition dynamic_field_destroy (f : dynamic_field) : M heap dynamic_field :=
  '(_, f) ← dynamic_field_reset f;
  msgpack_sbuffer_destroy (df_buffer f) ≫= λ _,
  mret (set_df_initialized false f).

Lemma bounded_leave commit f : bounded (dynamic_field_scope_leave commit f).
Proof. unfold dynamic_field_scope_leave. solve_bounded. Qed.
Lemma bounded_enter type f : bounded (dynamic_field_scope_enter type f).
Proof. unfold dynamic_field_scope_enter, flb_mp_map_header_init, flb_mp_array_header_init. solve_bounded. Qed.
#[export] Hint Resolve bounded_leave bounded_enter : bounded.
Lemma bounded_flush_scopes fuel commit f : bounded (flush_scopes fuel commit f).
Proof. revert f. induction fuel as [|fuel IH]; intros f; cbn [flush_scopes]; solve_bounded. Qed.
#[export] Hint Resolve bounded_flush_scopes : bounded.
Lemma bounded_reset f : bounded (dynamic_field_reset f).
Proof. unfold dynamic_field_reset, dynamic_field_flush_scopes. solve_bounded. Qed.
Lemma bounded_flush f : bounded (dynamic_field_flush f).
Proof. unfold dynamic_field_flush, dynamic_field_flush_scopes. solve_bounded. Qed.
#[export] Hint Resolve bounded_reset bounded_flush : bounded.

(** ** What a field holds *)

(** An open map or array: how many entries, and their bytes *)
Record frame := mk_frame { fr_type : object_type; fr_count : Z; fr_bytes : list Z }.

Definition header32 (type : object_type) (n : Z) : list Z :=
  match type with TYPE_MAP => 0xdf :: store32 n | _ => 0xdd :: store32 n end.
(** The bytes of a map or an array that has been left *)
Definition finished (fr : frame) : list Z :=
  header32 (fr_type fr) (match fr_type fr with TYPE_MAP => fr_count fr / 2 | _ => fr_count fr end) ++ fr_bytes fr.

(** Bytes outside any scope, and the stack *)
Definition holding : Type := list Z * list frame.

Fixpoint render (base : list Z) (frames : list frame) : list Z :=
  match frames with
  | [] => base
  | fr :: outer => render base outer ++ header32 (fr_type fr) 65536 ++ fr_bytes fr
  end.

(** One more element, which counts [n] times *)
Definition add (n : Z) (bytes : list Z) (h : holding) : holding :=
  match h with
  | (base, []) => (base ++ bytes, [])
  | (base, fr :: outer) => (base, mk_frame (fr_type fr) (fr_count fr + n) (fr_bytes fr ++ bytes) :: outer)
  end.
Definition enter (type : object_type) (h : holding) : holding :=
  let '(base, frames) := add 1 [] h in (base, mk_frame type 0 [] :: frames).
Definition leave (h : holding) : holding :=
  match h with (base, fr :: outer) => add 0 (finished fr) (base, outer) | _ => h end.
(** What was begun is dropped, but it has been counted. *)
Definition drop_frame (h : holding) : holding := (h.1, tail h.2).
(** Everything left, the innermost first *)
Fixpoint close (frames : list frame) (inner base : list Z) : list Z :=
  match frames with
  | [] => base ++ inner
  | fr :: outer => close outer (finished (mk_frame (fr_type fr) (fr_count fr) (fr_bytes fr ++ inner))) base
  end.
Definition closed (h : holding) : list Z := close h.2 [] h.1.
(** The buffer keeps what was before the outermost scope. *)
Definition cleared (h : holding) : holding := (match h.2 with [] => [] | _ => h.1 end, []).

Fixpoint scopes_repr (base : list Z) (frames : list frame) (scopes : list dynamic_field_scope) : Prop :=
  match frames, scopes with
  | [], [] => True
  | fr :: outer, sc :: rest =>
      sc_offset sc = zlen (render base outer) ∧ sc_header sc = mk_header (zlen (render base outer)) (fr_count fr) ∧
      sc_type sc = fr_type fr ∧ fr_type fr ≠ TYPE_OTHER ∧ 0 <= fr_count fr < 2 ^ 64 ∧ scopes_repr base outer rest
  | _, _ => False
  end.

Record field_repr (h : holding) (f : dynamic_field) : Prop := {
  fp_sb : sb_ok (df_buffer f);
  fp_content : sb_content (df_buffer f) = render h.1 h.2;
  fp_scopes : scopes_repr h.1 h.2 (df_scopes f)
}.

Definition count_room (h : holding) : Prop := match h.2 with fr :: _ => fr_count fr + 1 < 2 ^ 64 | [] => True end.

(** ** The stack *)

Lemma render_add n bytes h : render (add n bytes h).1 (add n bytes h).2 = render h.1 h.2 ++ bytes.
Proof. destruct h as [base [|fr outer]]; cbn; [done|]. by rewrite <- !app_assoc. Qed.

Lemma add_add n m a b h : add n a (add m b h) = add (m + n) (b ++ a) h.
Proof. destruct h as [base [|fr outer]]; cbn; rewrite <- app_assoc; [done|]. by rewrite Z.add_assoc. Qed.

Lemma closed_leave h : h.2 ≠ [] → closed (leave h) = closed h.
Proof.
  destruct h as [base [|fr outer]]; [done|]. intros _. destruct fr as [t n bs]. destruct outer as [|fr' outer]; cbn.
  - by rewrite !app_nil_r.
  - unfold closed. cbn. by rewrite Z.add_0_r, !app_nil_r.
Qed.

Lemma leave_length base fr outer : (leave (base, fr :: outer)).2 = [] ∨ length (leave (base, fr :: outer)).2 = length outer.
Proof. destruct outer; cbn; auto. Qed.

Lemma scopes_repr_length base frames scopes : scopes_repr base frames scopes → length frames = length scopes.
Proof. revert scopes. induction frames as [|fr outer IH]; intros [|sc rest] H; try done. cbn. f_equal. apply IH, H. Qed.

Lemma field_blocks_buffer f : field_blocks f = sb_blocks (df_buffer f) ++ (sc_block <$> df_scopes f).
Proof. done. Qed.

(** ** The operations *)

Lemma scopes_add bytes h scopes : scopes_repr h.1 h.2 scopes → scopes_repr (add 0 bytes h).1 (add 0 bytes h).2 scopes.
Proof. destruct h as [base [|fr outer]]; [done|]. cbn. destruct scopes as [|sc rest]; [done|]. by rewrite Z.add_0_r. Qed.

(** Writing at the end of the content of a field *)
Lemma repr_write h f b bytes : field_repr h f → sb_ok b → sb_content b = sb_content (df_buffer f) ++ bytes →
  field_repr (add 0 bytes h) (set_df_buffer b f).
Proof. intros [Hok Hc Hs] Hb Hb'. constructor; cbn; [done|by rewrite render_add, Hb', Hc|by apply scopes_add]. Qed.

Lemma append_ok h f : field_repr h f → count_room h →
  ∃ f', dynamic_field_append f = (FLB_EVENT_ENCODER_SUCCESS, f') ∧ field_repr (add 1 [] h) f' ∧
        df_buffer f' = df_buffer f ∧ field_blocks f' = field_blocks f.
Proof.
  intros [Hok Hc Hs] Hroom. unfold dynamic_field_append. destruct h as [base [|fr outer]]; cbn in Hs, Hroom.
  - destruct (df_scopes f) eqn:Hsc; [|done]. exists f. split_and!; [done| |done|done]. constructor; cbn; rewrite ?app_nil_r; [done..|by rewrite Hsc].
  - destruct (df_scopes f) as [|sc rest] eqn:Hsc; [done|]. destruct Hs as (Ho & Hh & Ht & Hto & Hn & Hr).
    unfold flb_mp_map_header_append. rewrite Hh. cbn [mh_entries mh_offset].
    unfold u64. rewrite Z.mod_small by (cbn in Hroom; lia). eexists. split_and!; [reflexivity| |done|unfold field_blocks; cbn; by rewrite Hsc].
    constructor; cbn; [done|by rewrite app_nil_r, Hc|]. by split_and!; try lia.
Qed.

Definition header_init (type : object_type) (b : msgpack_sbuffer) : M heap (Z * msgpack_sbuffer * flb_mp_map_header) :=
  match type with TYPE_MAP => flb_mp_map_header_init b | _ => flb_mp_array_header_init b end.

Lemma header_init_ok type b : type ≠ TYPE_OTHER → sb_ok b → zlen (sb_content b) + 5 < 2 ^ 64 →
  calm_run (sb_blocks b) (header_init type b) (λ r, sb_blocks r.1.2)
    (λ r, r.2 = mk_header (sb_size b) 0 ∧ appended b (header32 type 65536) r.1).
Proof.
  intros Ht Hb Hlen.
  assert (Hw : calm_run (sb_blocks b) (msgpack_sbuffer_write (header32 type 65536) b) (λ r, sb_blocks r.2) (appended b (header32 type 65536))).
  { apply calm_write; [done|]. rewrite zlen_app. by destruct type. }
  destruct type; [..|done]; (eapply calm_bind; [exact Hw|]; intros [ret b'] Hr; by apply calm_ret).
Qed.

(** Entering the scope of a block that was allocated *)
Lemma repr_enter type h f b a : field_repr (add 1 [] h) f → sb_ok b → type ≠ TYPE_OTHER →
  sb_content b = sb_content (df_buffer f) ++ header32 type 65536 →
  field_repr (enter type h) (set_df_scopes (mk_scope a (sb_size (df_buffer f)) (mk_header (sb_size (df_buffer f)) 0) type :: df_scopes f)
                               (set_df_buffer b f)).
Proof.
  intros [Hok Hc Hs] Hb Ht Hb'. unfold enter. destruct (add 1 [] h) as [base frames] eqn:Hadd. cbn in Hc, Hs.
  assert (Hsize : sb_size (df_buffer f) = zlen (render base frames)) by (by rewrite <- Hc, zlen_content).
  constructor; cbn; [done|by rewrite Hb', Hc, app_nil_r|]. split_and!; [done|by rewrite Hsize|done|done|lia|lia|done].
Qed.

Lemma enter_ok type h f : type ≠ TYPE_OTHER → field_repr h f → count_room h → zlen (render h.1 h.2) + 5 < 2 ^ 64 →
  calm_run (field_blocks f) (dynamic_field_scope_enter type f) (λ r, field_blocks r.2)
    (λ r, r.1 = FLB_EVENT_ENCODER_SUCCESS ∧ field_repr (enter type h) r.2).
Proof.
  intros Ht Hf Hroom Hlen. destruct (append_ok h f Hf Hroom) as (f' & Happ & Hf' & Hbuf & Hbl).
  assert (Hscope : calm_run (field_blocks f') (scope ← alloc;
        match scope with
        | None => mret (FLB_EVENT_ENCODER_ERROR_ALLOCATION_ERROR, f')
        | Some a =>
            let offset := sb_size (df_buffer f') in
            '(_, b, header) ← header_init type (df_buffer f');
            mret (FLB_EVENT_ENCODER_SUCCESS, set_df_scopes (mk_scope a offset header type :: df_scopes f') (set_df_buffer b f'))
        end) (λ r, field_blocks r.2) (λ r, r.1 = FLB_EVENT_ENCODER_SUCCESS ∧ field_repr (enter type h) r.2)).
  { eapply calm_bind; [apply calm_alloc|]. intros ? [a ->]. eapply calm_perm; [apply Permutation_cons_append|].
    unfold field_blocks. rewrite <- app_assoc. eapply calm_bind.
    { apply calm_frame, header_init_ok; [done|apply Hf'|]. rewrite (fp_content _ _ Hf'), render_add, app_nil_r. done. }
    intros [[ret b] header] [Hh (Hr & Hb & Hct & _)]. cbn in Hh, Hr, Hb, Hct. subst header ret. apply calm_ret.
    - cbn. f_equiv. rewrite Permutation_app_comm. done.
    - split; [done|]. by apply repr_enter. }
  rewrite Hbl in Hscope. unfold dynamic_field_scope_enter. rewrite Happ. by destruct type.
Qed.

(** The header of the innermost scope gets its number of entries. *)
Lemma end_header_ok base fr outer f sc rest : field_repr (base, fr :: outer) f → df_scopes f = sc :: rest →
  ∃ b, dynamic_field_end_header sc (df_buffer f) = Some b ∧ sb_ok b ∧ sb_data b = sb_data (df_buffer f) ∧
       sb_content b = render base outer ++ finished fr.
Proof.
  intros [[Hsz Hal Hd] Hc Hs] Hsc. cbn in Hc, Hs. rewrite Hsc in Hs. destruct Hs as (Ho & Hh & Ht & Hto & Hn & Hr).
  set (n := match fr_type fr with TYPE_MAP => fr_count fr / 2 | _ => fr_count fr end).
  set (tail := drop (Z.to_nat (sb_size (df_buffer f))) (sb_mem (df_buffer f))).
  assert (Hmem : sb_mem (df_buffer f) = render base outer ++ header32 (fr_type fr) 65536 ++ fr_bytes fr ++ tail).
  { rewrite (content_prefix (df_buffer f)), Hc. subst tail. by rewrite <- !app_assoc. }
  assert (Hset : dynamic_field_end_header sc (df_buffer f) =
    Some (set_sb_mem (render base outer ++ header32 (fr_type fr) n ++ fr_bytes fr ++ tail) (df_buffer f))).
  { unfold dynamic_field_end_header. rewrite Ht, Hh. subst n. destruct (fr_type fr); [..|done];
      unfold flb_mp_map_header_end, flb_mp_array_header_end, flb_mp_set_map_header_size, flb_mp_set_array_header_size;
      cbn [mh_offset mh_entries]; rewrite Hmem; unfold header32; by rewrite set_header_size_32. }
  eexists. split; [exact Hset|]. assert (Hlen : ∀ m, zlen (header32 (fr_type fr) m) = 5) by (intros m; by destruct (fr_type fr)).
  split_and!; [|done|].
  - constructor; cbn; [|rewrite Hmem in Hal; rewrite !zlen_app, Hlen in *; lia|done]. rewrite Hmem in Hsz. rewrite !zlen_app, Hlen in *. lia.
  - unfold sb_content, finished. fold n. cbn [set_sb_mem sb_size sb_mem]. rewrite !app_assoc. apply take_app_length'.
    assert (Hz : zlen (sb_content (df_buffer f)) = sb_size (df_buffer f)) by (by apply zlen_content).
    rewrite Hc in Hz. rewrite !zlen_app, Hlen in Hz. rewrite <- (zlen_nat (_ ++ _)), !zlen_app, Hlen. f_equal. lia.
Qed.

Lemma leave_ok base fr outer f : field_repr (base, fr :: outer) f →
  calm_run (field_blocks f) (dynamic_field_scope_leave true f) (λ r, field_blocks r.2)
    (λ r, r.1 = FLB_EVENT_ENCODER_SUCCESS ∧ field_repr (leave (base, fr :: outer)) r.2 ∧
          length (df_scopes r.2) = pred (length (df_scopes f))).
Proof.
  intros Hf. pose proof (fp_scopes _ _ Hf) as Hs. cbn in Hs. unfold dynamic_field_scope_leave.
  destruct (df_scopes f) as [|sc rest] eqn:Hsc; [done|].
  destruct (end_header_ok _ _ _ _ _ _ Hf Hsc) as (b & Hend & Hb & Hdata & Hct). destruct Hs as (_ & _ & _ & _ & _ & Hr).
  eapply calm_bind.
  { eapply (calm_deref _ _ _ (λ _, field_blocks f) (λ x, x = b)); [exact Hend|done|done]. }
  intros ? ->. eapply (calm_perm _ (sc_block sc :: sb_blocks (df_buffer f) ++ (sc_block <$> rest))).
  { unfold field_blocks. rewrite Hsc. symmetry. apply Permutation_middle. }
  eapply calm_bind; [apply (calm_free (sc_block sc))|]. intros [] _. apply calm_ret.
  - unfold field_blocks, sb_blocks. cbn. by rewrite Hdata.
  - split_and!; [done| |done]. constructor; cbn [snd df_buffer df_scopes set_df_scopes set_df_buffer leave].
    + done.
    + by rewrite render_add.
    + by apply scopes_add.
Qed.

(** Everything is left. *)
Lemma flush_scopes_ok fuel h f : field_repr h f → (length (df_scopes f) <= fuel)%nat →
  calm_run (field_blocks f) (flush_scopes fuel true f) (λ r, field_blocks r.2)
    (λ r, r.1 = FLB_EVENT_ENCODER_SUCCESS ∧ field_repr (closed h, []) r.2).
Proof.
  revert h f. induction fuel as [|fuel IH]; intros [base frames] f Hf Hlen; cbn [flush_scopes];
    pose proof (fp_scopes _ _ Hf) as Hs; cbn in Hs; destruct (df_scopes f) as [|sc rest] eqn:Hsc; cbn in Hlen; try lia.
  1,2: destruct frames; [|done]; apply calm_ret; [done|]; split; [done|]; unfold closed; cbn; by rewrite app_nil_r.
  destruct frames as [|fr outer]; [done|]. eapply calm_bind; [by apply leave_ok|].
  intros [r g] (Hr & Hg & Hgl). cbn in Hr, Hg, Hgl. subst r. rewrite Hsc in Hgl. cbn in Hgl. cbn [negb].
  rewrite <- (closed_leave (base, fr :: outer)) by done. apply IH; [done|lia].
Qed.

Lemma flush_ok h f : field_repr h f →
  calm_run (field_blocks f) (dynamic_field_flush f) (λ r, field_blocks r.2)
    (λ r, r.1 = FLB_EVENT_ENCODER_SUCCESS ∧ field_repr (closed h, []) r.2 ∧
          df_data r.2 = sb_data (df_buffer r.2) ∧ df_size r.2 = sb_size (df_buffer r.2)).
Proof.
  intros Hf. eapply calm_bind; [by apply flush_scopes_ok|]. intros [r g] [Hr [Hok Hc Hs]]. cbn in Hr, Hok, Hc, Hs. subst r.
  apply calm_ret; [done|]. split_and!; [done|by constructor|done|done].
Qed.

(** Nothing is allocated to reset a field: it always succeeds. *)
Definition outermost_offset (f : dynamic_field) : Z := match last (df_scopes f) with Some sc => sc_offset sc | None => 0 end.

Lemma rollback_scopes_ok fuel f X s (Q : Z * dynamic_field → heap → Prop) :
  (length (df_scopes f) <= fuel)%nat → hp_live s ≡ₚ field_blocks f ++ X →
  (∀ s', hp_live s' ≡ₚ sb_blocks (df_buffer f) ++ X → hp_env s' = hp_env s →
     Q (FLB_EVENT_ENCODER_SUCCESS, set_df_scopes [] (set_df_buffer
          (set_sb_size (match last (df_scopes f) with Some sc => sc_offset sc | None => sb_size (df_buffer f) end) (df_buffer f)) f)) s') →
  runs (flush_scopes fuel false f) s Q.
Proof.
  revert f s. induction fuel as [|fuel IH]; intros f s Hlen Hl HQ; cbn [flush_scopes]; destruct (df_scopes f) as [|sc rest] eqn:Hsc; cbn in Hlen; try lia.
  1,2: apply runs_ret; cbn in HQ;
    assert (Heq : set_df_scopes [] (set_df_buffer (set_sb_size (sb_size (df_buffer f)) (df_buffer f)) f) = f)
      by (destruct f as [? [] ? ? ? ?]; cbn in *; by rewrite Hsc);
    rewrite Heq in HQ; apply HQ; [|done]; rewrite Hl; unfold field_blocks; rewrite Hsc; cbn; by rewrite app_nil_r.
  unfold dynamic_field_scope_leave. rewrite Hsc. apply runs_bind, runs_bind. eapply runs_deref; [reflexivity|].
  apply runs_bind. eapply (runs_free _ (sb_blocks (df_buffer f) ++ (sc_block <$> rest) ++ X)).
  { rewrite Hl. unfold field_blocks. rewrite Hsc, <- app_assoc. symmetry. apply Permutation_middle. }
  intros s1 Hl1 He1. apply runs_ret. cbn [negb]. change (negb (FLB_EVENT_ENCODER_SUCCESS =? FLB_EVENT_ENCODER_SUCCESS)) with false. cbn iota.
  apply IH; [cbn; lia| |].
  - unfold field_blocks. cbn. by rewrite Hl1, app_assoc.
  - cbn. intros s2 Hl2 He2. rewrite <- He1 in HQ. specialize (HQ s2 Hl2 He2). destruct rest as [|sc' rest]; cbn in *; [exact HQ|].
    destruct (last (sc' :: rest)) eqn:Hlast; [exact HQ|]. by apply last_None in Hlast.
Qed.

Lemma runs_reset f X s (Q : Z * dynamic_field → heap → Prop) : hp_live s ≡ₚ field_blocks f ++ X →
  (∀ s', hp_live s' ≡ₚ sb_blocks (df_buffer f) ++ X → hp_env s' = hp_env s →
     Q (FLB_EVENT_ENCODER_SUCCESS,
        mk_field (df_initialized f) (set_sb_size (outermost_offset f) (df_buffer f)) [] None 0 (df_type f)) s') →
  runs (dynamic_field_reset f) s Q.
Proof.
  intros Hl HQ. apply runs_bind, (rollback_scopes_ok _ _ X); [done|done|].
  intros s' Hl' He. apply runs_ret. by apply HQ.
Qed.

Lemma outermost_ok base frames scopes : scopes_repr base frames scopes →
  match last scopes with Some sc => sc_offset sc | None => 0 end = match frames with [] => 0 | _ => zlen base end.
Proof.
  revert scopes. induction frames as [|fr outer IH]; intros [|sc rest] H; try done. destruct H as (Ho & _ & _ & _ & _ & Hr).
  specialize (IH _ Hr). destruct outer as [|fr' outer]; destruct rest as [|sc' rest]; try done.
Qed.

Lemma render_prefix base frames : ∃ rest, render base frames = base ++ rest.
Proof.
  induction frames as [|fr outer [rest IH]]; cbn; [exists []; by rewrite app_nil_r|]. rewrite IH, <- app_assoc. by eexists.
Qed.

Lemma set_size_ok b n : sb_ok b → 0 <= n <= sb_size b →
  sb_ok (set_sb_size n b) ∧ sb_content (set_sb_size n b) = take (Z.to_nat n) (sb_content b).
Proof.
  intros [? ? ?] ?. split; [constructor; cbn; [lia|done|done]|]. unfold sb_content. cbn. rewrite take_take. f_equal. lia.
Qed.

Lemma reset_repr h f : field_repr h f →
  field_repr (cleared h) (mk_field (df_initialized f) (set_sb_size (outermost_offset f) (df_buffer f)) [] None 0 (df_type f)).
Proof.
  intros [Hok Hc Hs]. unfold outermost_offset. rewrite (outermost_ok _ _ _ Hs). destruct h as [base frames]. cbn in *.
  destruct (render_prefix base frames) as [rest Hrest]. pose proof (zlen_content _ Hok) as Hz. rewrite Hc, Hrest, zlen_app in Hz.
  pose proof (zlen_nonneg base). pose proof (zlen_nonneg rest).
  destruct (set_size_ok (df_buffer f) (match frames with [] => 0 | _ => zlen base end) Hok) as [Hok' Hc']; [destruct frames; lia|].
  constructor; cbn; [done| |done]. rewrite Hc', Hc, Hrest. destruct frames; cbn; [done|]. by rewrite zlen_nat, take_app_length.
Qed.

Lemma reset_ok h f : field_repr h f →
  calm_run (field_blocks f) (dynamic_field_reset f) (λ r, field_blocks r.2)
    (λ r, r.1 = FLB_EVENT_ENCODER_SUCCESS ∧ field_repr (cleared h) r.2 ∧ df_scopes r.2 = [] ∧ df_data r.2 = None ∧ df_size r.2 = 0).
Proof.
  intros Hf s X Hc Hl. apply (runs_reset _ X); [done|]. intros s' Hl' He. split_and!; [by rewrite He| |done|by apply reset_repr|done|done|done].
  rewrite Hl'. unfold field_blocks. cbn. by rewrite app_nil_r.
Qed.

(** A field is always destroyed, with its scopes. *)
Lemma runs_field_destroy f X s (Q : dynamic_field → heap → Prop) : hp_live s ≡ₚ field_blocks f ++ X →
  (∀ g s', hp_live s' ≡ₚ X → hp_env s' = hp_env s → df_initialized g = false → Q g s') → runs (dynamic_field_destroy f) s Q.
Proof.
  intros Hl HQ. apply runs_bind, (runs_reset _ X); [done|]. intros s1 Hl1 He1. apply runs_bind, (runs_free_opt _ X); [done|].
  intros s2 Hl2 He2. apply runs_ret, HQ; [done|by rewrite He2|done].
Qed.

Lemma runs_init type f s (Q : Z * dynamic_field → heap → Prop) :
  Q (FLB_EVENT_ENCODER_SUCCESS, mk_field true msgpack_sbuffer_init [] None 0 type) s → runs (dynamic_field_init type f) s Q.
Proof.
  intros HQ. unfold dynamic_field_init. apply runs_bind. unfold dynamic_field_reset, dynamic_field_flush_scopes. cbn.
  apply runs_bind, runs_ret, runs_ret, runs_ret, HQ.
Qed.

Lemma init_repr type i : field_repr ([], []) (mk_field i msgpack_sbuffer_init [] None 0 type).
Proof. constructor; cbn; [apply sb_init_ok|done|done]. Qed.

(** What was written since the innermost scope was entered is dropped. *)
Lemma rollback_ok h f : h.2 ≠ [] → field_repr h f →
  calm_run (field_blocks f) (dynamic_field_scope_leave false f) (λ r, field_blocks r.2)
    (λ r, r.1 = FLB_EVENT_ENCODER_SUCCESS ∧ field_repr (drop_frame h) r.2).
Proof.
  destruct h as [base [|fr outer]]; [done|]. intros _ [Hok Hc Hs]. cbn in Hc, Hs. unfold dynamic_field_scope_leave.
  destruct (df_scopes f) as [|sc rest] eqn:Hsc; [done|]. destruct Hs as (Ho & _ & _ & _ & _ & Hr).
  pose proof (zlen_content _ Hok) as Hz. rewrite Hc, zlen_app in Hz. pose proof (zlen_nonneg (render base outer)).
  pose proof (zlen_nonneg (header32 (fr_type fr) 65536 ++ fr_bytes fr)).
  destruct (set_size_ok (df_buffer f) (sc_offset sc) Hok) as [Hok' Hc']; [lia|].
  eapply calm_bind.
  { eapply (calm_deref _ _ _ (λ _, field_blocks f) (λ x, x = set_sb_size (sc_offset sc) (df_buffer f))); done. }
  intros ? ->. eapply (calm_perm _ (sc_block sc :: sb_blocks (df_buffer f) ++ (sc_block <$> rest))).
  { unfold field_blocks. rewrite Hsc. symmetry. apply Permutation_middle. }
  eapply calm_bind; [apply (calm_free (sc_block sc))|]. intros [] _. apply calm_ret; [done|].
  split; [done|]. constructor; cbn [snd fst df_buffer df_scopes set_df_scopes set_df_buffer drop_frame tail]; [done| |done].
  by rewrite Hc', Hc, Ho, zlen_nat, take_app_length.
Qed.
