(* ===== verification/LogEncoder.v ===== *)
(** * Encoding log records ([src/flb_log_event_encoder.c], [src/flb_log_event_encoder_primitives.c], and the headers)

    A record is put together in three fields ([DynamicField]): its metadata, its body, and its root, where the
    timestamp and the other two meet; a record that is committed goes to the output.  The names have the
    prefix [flb_log_event_] in the code.  The bits of floating-point numbers are parameters.

    The encoder implements [RecordEncoder]; what is appended to a field as nested maps and arrays is exactly
    their encoding. *)
From stdpp Require Import strings.
From S2P Require Import Prelude CStd Env Heap MsgPack LogDecoder Packer RecordEncoder DynamicField.

(** ** Data *)

Definition FLB_LOG_EVENT_ROOT : Z := 1.
Definition FLB_LOG_EVENT_METADATA : Z := 2.
Definition FLB_LOG_EVENT_BODY : Z := 3.
Definition FLB_LOG_EVENT_FORMAT_FORWARD_LEGACY : Z := 1.
Definition FLB_LOG_EVENT_FORMAT_FLUENT_BIT_V1 : Z := FLB_LOG_EVENT_FORMAT_FORWARD.
Definition FLB_LOG_EVENT_FORMAT_DEFAULT : Z := FLB_LOG_EVENT_FORMAT_FLUENT_BIT_V2.

Record log_event_encoder := mk_encoder {
  ec_block : option nat;                  (* [dynamically_allocated], and where *)
  ec_output_buffer : option nat; ec_output_length : Z; ec_initialized : bool;
  ec_timestamp : flb_time; ec_metadata : dynamic_field; ec_body : dynamic_field; ec_root : dynamic_field;
  ec_buffer : msgpack_sbuffer; ec_format : Z
}.
Definition set_ec_block (x : option nat) (e : log_event_encoder) : log_event_encoder :=
  mk_encoder x (ec_output_buffer e) (ec_output_length e) (ec_initialized e) (ec_timestamp e) (ec_metadata e) (ec_body e) (ec_root e) (ec_buffer e) (ec_format e).
Definition set_ec_output (p : option nat) (n : Z) (e : log_event_encoder) : log_event_encoder :=
  mk_encoder (ec_block e) p n (ec_initialized e) (ec_timestamp e) (ec_metadata e) (ec_body e) (ec_root e) (ec_buffer e) (ec_format e).
Definition set_ec_timestamp (x : flb_time) (e : log_event_encoder) : log_event_encoder :=
  mk_encoder (ec_block e) (ec_output_buffer e) (ec_output_length e) (ec_initialized e) x (ec_metadata e) (ec_body e) (ec_root e) (ec_buffer e) (ec_format e).
Definition set_ec_metadata (x : dynamic_field) (e : log_event_encoder) : log_event_encoder :=
  mk_encoder (ec_block e) (ec_output_buffer e) (ec_output_length e) (ec_initialized e) (ec_timestamp e) x (ec_body e) (ec_root e) (ec_buffer e) (ec_format e).
Definition set_ec_body (x : dynamic_field) (e : log_event_encoder) : log_event_encoder :=
  mk_encoder (ec_block e) (ec_output_buffer e) (ec_output_length e) (ec_initialized e) (ec_timestamp e) (ec_metadata e) x (ec_root e) (ec_buffer e) (ec_format e).
Definition set_ec_root (x : dynamic_field) (e : log_event_encoder) : log_event_encoder :=
  mk_encoder (ec_block e) (ec_output_buffer e) (ec_output_length e) (ec_initialized e) (ec_timestamp e) (ec_metadata e) (ec_body e) x (ec_buffer e) (ec_format e).
Definition set_ec_buffer (x : msgpack_sbuffer) (e : log_event_encoder) : log_event_encoder :=
  mk_encoder (ec_block e) (ec_output_buffer e) (ec_output_length e) (ec_initialized e) (ec_timestamp e) (ec_metadata e) (ec_body e) (ec_root e) x (ec_format e).

Definition encoder_owns (e : log_event_encoder) : list nat :=
  option_list (ec_block e) ++ field_blocks (ec_metadata e) ++ field_blocks (ec_body e) ++ field_blocks (ec_root e) ++ sb_blocks (ec_buffer e).

(** A call, and the next one when it succeeded *)
Definition on_success (m : log_event_encoder → M heap (Z * log_event_encoder)) (r : Z * log_event_encoder) : M heap (Z * log_event_encoder) :=
  if r.1 =? FLB_EVENT_ENCODER_SUCCESS then m r.2 else mret r.

(** ** Fields *)

Definition encoder_get_field (target_field : Z) (e : log_event_encoder) : option dynamic_field :=
  if target_field =? FLB_LOG_EVENT_METADATA then Some (ec_metadata e)
  else if target_field =? FLB_LOG_EVENT_BODY then Some (ec_body e)
  else if target_field =? FLB_LOG_EVENT_ROOT then Some (ec_root e)
  else None.
Definition put_field (target_field : Z) (f : dynamic_field) (e : log_event_encoder) : log_event_encoder :=
  if target_field =? FLB_LOG_EVENT_METADATA then set_ec_metadata f e
  else if target_field =? FLB_LOG_EVENT_BODY then set_ec_body f e
  else set_ec_root f e.

(** An operation on the field with a number *)
Definition on_field (target_field : Z) (op : dynamic_field → M heap (Z * dynamic_field)) (e : log_event_encoder)
    : M heap (Z * log_event_encoder) :=
  match encoder_get_field target_field e with
  | None => mret (FLB_EVENT_ENCODER_ERROR_INVALID_ARGUMENT, e)
  | Some f => '(result, f) ← op f; mret (result, put_field target_field f e)
  end.

Definition encoder_begin_map (target_field : Z) : log_event_encoder → M heap (Z * log_event_encoder) := on_field target_field dynamic_field_begin_map.
Definition encoder_commit_map (target_field : Z) : log_event_encoder → M heap (Z * log_event_encoder) := on_field target_field dynamic_field_commit_map.
Definition encoder_rollback_map (target_field : Z) : log_event_encoder → M heap (Z * log_event_encoder) := on_field target_field dynamic_field_rollback_map.
Definition encoder_begin_array (target_field : Z) : log_event_encoder → M heap (Z * log_event_encoder) := on_field target_field dynamic_field_begin_array.
Definition encoder_commit_array (target_field : Z) : log_event_encoder → M heap (Z * log_event_encoder) := on_field target_field dynamic_field_commit_array.
Definition encoder_rollback_array (target_field : Z) : log_event_encoder → M heap (Z * log_event_encoder) := on_field target_field dynamic_field_rollback_array.

(** ** Values *)

Definition FLB_LOG_EVENT_APPEND_TERMINATOR_VALUE_TYPE : Z := 0.
Definition FLB_LOG_EVENT_STRING_LENGTH_VALUE_TYPE : Z := 1.
Definition FLB_LOG_EVENT_STRING_BODY_VALUE_TYPE : Z := 2.
Definition FLB_LOG_EVENT_BINARY_LENGTH_VALUE_TYPE : Z := 3.
Definition FLB_LOG_EVENT_BINARY_BODY_VALUE_TYPE : Z := 4.
Definition FLB_LOG_EVENT_EXT_LENGTH_VALUE_TYPE : Z := 5.
Definition FLB_LOG_EVENT_EXT_BODY_VALUE_TYPE : Z := 6.
Definition FLB_LOG_EVENT_NULL_VALUE_TYPE : Z := 7.
Definition FLB_LOG_EVENT_CHAR_VALUE_TYPE : Z := 8.
Definition FLB_LOG_EVENT_INT8_VALUE_TYPE : Z := 9.
Definition FLB_LOG_EVENT_INT16_VALUE_TYPE : Z := 10.
Definition FLB_LOG_EVENT_INT32_VALUE_TYPE : Z := 11.
Definition FLB_LOG_EVENT_INT64_VALUE_TYPE : Z := 12.
Definition FLB_LOG_EVENT_UINT8_VALUE_TYPE : Z := 13.
Definition FLB_LOG_EVENT_UINT16_VALUE_TYPE : Z := 14.
Definition FLB_LOG_EVENT_UINT32_VALUE_TYPE : Z := 15.
Definition FLB_LOG_EVENT_UINT64_VALUE_TYPE : Z := 16.
Definition FLB_LOG_EVENT_DOUBLE_VALUE_TYPE : Z := 17.
Definition FLB_LOG_EVENT_BOOLEAN_VALUE_TYPE : Z := 18.
Definition FLB_LOG_EVENT_MSGPACK_OBJECT_VALUE_TYPE : Z := 19.
Definition FLB_LOG_EVENT_MSGPACK_RAW_VALUE_TYPE : Z := 20.
Definition FLB_LOG_EVENT_TIMESTAMP_VALUE_TYPE : Z := 21.
Definition FLB_LOG_EVENT_FLUENT_BIT_V2_TIMESTAMP_VALUE_TYPE : Z := 25.
Definition FLB_LOG_EVENT_STRING_MIN_VALUE_TYPE : Z := FLB_LOG_EVENT_STRING_LENGTH_VALUE_TYPE.
Definition FLB_LOG_EVENT_STRING_MAX_VALUE_TYPE : Z := FLB_LOG_EVENT_FLUENT_BIT_V2_TIMESTAMP_VALUE_TYPE.

(** What the [value_buffer] of a value points to *)
Inductive value_arg :=
| arg_bytes (s : list Z)
| arg_int (z : Z)
| arg_double (d : double)
| arg_object (o : msgpack_object).

Definition i16 (z : Z) : Z := (z + 2 ^ 15) mod 2 ^ 16 - 2 ^ 15.

Definition translate_msgpack_encoder_result (value : Z) : Z :=
  if negb (value =? 0) then FLB_EVENT_ENCODER_ERROR_SERIALIZATION_FAILURE else FLB_EVENT_ENCODER_SUCCESS.

Section values.
Variables float_bits double_bits : double → list Z.

(** What a value with a buffer writes.  [None]: the buffer is shorter, or of another type; [Some None]: no
    such type here. *)
Definition value_writes (value_type : Z) (v : value_arg) (value_length : Z) : option (option (list (list Z))) :=
  let body := match v with
              | arg_bytes s => if (0 <=? value_length) && (value_length <=? zlen s) then Some (Some [take (Z.to_nat value_length) s]) else None
              | _ => None
              end in
  let number wrap := match v with arg_int z => Some (Some [pack_integer (wrap z)]) | _ => None end in
  if value_type =? FLB_LOG_EVENT_STRING_BODY_VALUE_TYPE then body
  else if value_type =? FLB_LOG_EVENT_BINARY_BODY_VALUE_TYPE then body
  else if value_type =? FLB_LOG_EVENT_EXT_BODY_VALUE_TYPE then body
  else if value_type =? FLB_LOG_EVENT_CHAR_VALUE_TYPE then number i8
  else if value_type =? FLB_LOG_EVENT_INT8_VALUE_TYPE then number i8
  else if value_type =? FLB_LOG_EVENT_INT16_VALUE_TYPE then number i16
  else if value_type =? FLB_LOG_EVENT_INT32_VALUE_TYPE then number i32
  else if value_type =? FLB_LOG_EVENT_INT64_VALUE_TYPE then number i64
  else if value_type =? FLB_LOG_EVENT_UINT8_VALUE_TYPE then number u8
  else if value_type =? FLB_LOG_EVENT_UINT16_VALUE_TYPE then number u16
  else if value_type =? FLB_LOG_EVENT_UINT32_VALUE_TYPE then number u32
  else if value_type =? FLB_LOG_EVENT_UINT64_VALUE_TYPE then number u64
  else if value_type =? FLB_LOG_EVENT_DOUBLE_VALUE_TYPE then
    match v with arg_double d => Some (Some (packed_bytes float_bits double_bits (pack_double d))) | _ => None end
  else if value_type =? FLB_LOG_EVENT_BOOLEAN_VALUE_TYPE then
    match v with arg_int z => Some (Some [msgpack_pack_bool (negb (z =? 0))]) | _ => None end
  else if value_type =? FLB_LOG_EVENT_MSGPACK_OBJECT_VALUE_TYPE then
    match v with arg_object o => Some (Some (object_writes float_bits double_bits o)) | _ => None end
  else if value_type =? FLB_LOG_EVENT_MSGPACK_RAW_VALUE_TYPE then body
  else Some None.

(** Results of the packer are translated only for values with a buffer. *)
Definition encoder_append_value (target_field : Z) (increment_entry_count : bool) (value_type : Z)
    (value_buffer : option value_arg) (value_length : Z) (e : log_event_encoder) : M heap (Z * log_event_encoder) :=
  if (value_type <? FLB_LOG_EVENT_STRING_MIN_VALUE_TYPE) || (FLB_LOG_EVENT_STRING_MAX_VALUE_TYPE <? value_type)
  then mret (FLB_EVENT_ENCODER_ERROR_INVALID_ARGUMENT, e)
  else on_field target_field (λ f,
    let '(result, f) := if increment_entry_count then dynamic_field_append f else (FLB_EVENT_ENCODER_SUCCESS, f) in
    if negb (result =? FLB_EVENT_ENCODER_SUCCESS) then mret (result, f)
    else
      let pack ws translate := '(result, b) ← pack_writes ws (df_buffer f); mret ((translate : Z → Z) result, set_df_buffer b f) in
      if value_type =? FLB_LOG_EVENT_STRING_LENGTH_VALUE_TYPE then pack [msgpack_pack_str value_length] id
      else if value_type =? FLB_LOG_EVENT_BINARY_LENGTH_VALUE_TYPE then pack [msgpack_pack_bin value_length] id
      else if value_type =? FLB_LOG_EVENT_EXT_LENGTH_VALUE_TYPE then
        type ← deref (match value_buffer with Some (arg_int z) => Some (i8 z) | _ => None end);
        pack [msgpack_pack_ext value_length type] id
      else if value_type =? FLB_LOG_EVENT_NULL_VALUE_TYPE then pack [msgpack_pack_nil] id
      else
        match value_buffer with
        | None => mret (FLB_EVENT_ENCODER_ERROR_INVALID_ARGUMENT, f)
        | Some v =>
            writes ← deref (value_writes value_type v value_length);
            match writes with
            | None => mret (FLB_EVENT_ENCODER_ERROR_INVALID_CONTEXT, f)
            | Some ws => pack ws translate_msgpack_encoder_result
            end
        end) e.

Definition encoder_append_binary_length (target_field length : Z) : log_event_encoder → M heap (Z * log_event_encoder) :=
  encoder_append_value target_field true FLB_LOG_EVENT_BINARY_LENGTH_VALUE_TYPE None length.
Definition encoder_append_binary_body (target_field : Z) (value : option (list Z)) (length : Z) : log_event_encoder → M heap (Z * log_event_encoder) :=
  encoder_append_value target_field false FLB_LOG_EVENT_BINARY_BODY_VALUE_TYPE (arg_bytes <$> value) length.
Definition encoder_append_ext_length (target_field type length : Z) : log_event_encoder → M heap (Z * log_event_encoder) :=
  encoder_append_value target_field true FLB_LOG_EVENT_EXT_LENGTH_VALUE_TYPE (Some (arg_int (i8 type))) length.
Definition encoder_append_ext_body (target_field : Z) (value : option (list Z)) (length : Z) : log_event_encoder → M heap (Z * log_event_encoder) :=
  encoder_append_value target_field false FLB_LOG_EVENT_EXT_BODY_VALUE_TYPE (arg_bytes <$> value) length.
Definition encoder_append_string_length (target_field length : Z) : log_event_encoder → M heap (Z * log_event_encoder) :=
  encoder_append_value target_field true FLB_LOG_EVENT_STRING_LENGTH_VALUE_TYPE None length.
Definition encoder_append_string_body (target_field : Z) (value : option (list Z)) (length : Z) : log_event_encoder → M heap (Z * log_event_encoder) :=
  encoder_append_value target_field false FLB_LOG_EVENT_STRING_BODY_VALUE_TYPE (arg_bytes <$> value) length.

(** Numbers, converted to the type of the parameter *)
Definition append_number (value_type : Z) (wrap : Z → Z) (target_field value : Z) : log_event_encoder → M heap (Z * log_event_encoder) :=
  encoder_append_value target_field true value_type (Some (arg_int (wrap value))) 0.
Definition encoder_append_int8 : Z → Z → log_event_encoder → M heap (Z * log_event_encoder) := append_number FLB_LOG_EVENT_INT8_VALUE_TYPE i8.
Definition encoder_append_int16 : Z → Z → log_event_encoder → M heap (Z * log_event_encoder) := append_number FLB_LOG_EVENT_INT16_VALUE_TYPE i16.
Definition encoder_append_int32 : Z → Z → log_event_encoder → M heap (Z * log_event_encoder) := append_number FLB_LOG_EVENT_INT32_VALUE_TYPE i32.
Definition encoder_append_int64 : Z → Z → log_event_encoder → M heap (Z * log_event_encoder) := append_number FLB_LOG_EVENT_INT64_VALUE_TYPE i64.
Definition encoder_append_uint8 : Z → Z → log_event_encoder → M heap (Z * log_event_encoder) := append_number FLB_LOG_EVENT_UINT8_VALUE_TYPE u8.
Definition encoder_append_uint16 : Z → Z → log_event_encoder → M heap (Z * log_event_encoder) := append_number FLB_LOG_EVENT_UINT16_VALUE_TYPE u16.
Definition encoder_append_uint32 : Z → Z → log_event_encoder → M heap (Z * log_event_encoder) := append_number FLB_LOG_EVENT_UINT32_VALUE_TYPE u32.
Definition encoder_append_uint64 : Z → Z → log_event_encoder → M heap (Z * log_event_encoder) := append_number FLB_LOG_EVENT_UINT64_VALUE_TYPE u64.
Definition encoder_append_double (target_field : Z) (value : double) : log_event_encoder → M heap (Z * log_event_encoder) :=
  encoder_append_value target_field true FLB_LOG_EVENT_DOUBLE_VALUE_TYPE (Some (arg_double value)) 0.
Definition encoder_append_boolean : Z → Z → log_event_encoder → M heap (Z * log_event_encoder) := append_number FLB_LOG_EVENT_BOOLEAN_VALUE_TYPE i32.
Definition encoder_append_null (target_field : Z) : log_event_encoder → M heap (Z * log_event_encoder) :=
  encoder_append_value target_field true FLB_LOG_EVENT_NULL_VALUE_TYPE None 0.
Definition encoder_append_character : Z → Z → log_event_encoder → M heap (Z * log_event_encoder) := append_number FLB_LOG_EVENT_CHAR_VALUE_TYPE i8.

Definition encoder_append_binary (target_field : Z) (value : option (list Z)) (length : Z) (e : log_event_encoder) : M heap (Z * log_event_encoder) :=
  encoder_append_binary_length target_field length e ≫= on_success (encoder_append_binary_body target_field value length).
Definition encoder_append_string (target_field : Z) (value : option (list Z)) (length : Z) (e : log_event_encoder) : M heap (Z * log_event_encoder) :=
  encoder_append_string_length target_field length e ≫= on_success (encoder_append_string_body target_field value length).
Definition encoder_append_ext (target_field type : Z) (value : option (list Z)) (length : Z) (e : log_event_encoder) : M heap (Z * log_event_encoder) :=
  encoder_append_ext_length target_field type length e ≫= on_success (encoder_append_ext_body target_field value length).
Definition encoder_append_cstring (target_field : Z) (value : list Z) : log_event_encoder → M heap (Z * log_event_encoder) :=
  encoder_append_string target_field (Some value) (zlen (until_nul value)).
Definition encoder_append_msgpack_object (target_field : Z) (value : option msgpack_object) : log_event_encoder → M heap (Z * log_event_encoder) :=
  encoder_append_value target_field true FLB_LOG_EVENT_MSGPACK_OBJECT_VALUE_TYPE (arg_object <$> value) 0.
Definition encoder_append_raw_msgpack (target_field : Z) (value_buffer : option (list Z)) (value_size : Z) : log_event_encoder → M heap (Z * log_event_encoder) :=
  encoder_append_value target_field true FLB_LOG_EVENT_MSGPACK_RAW_VALUE_TYPE (arg_bytes <$> value_buffer) value_size.

(** ** Timestamps *)

Definition encoder_append_legacy_timestamp (target_field : Z) (value : flb_time) : log_event_encoder → M heap (Z * log_event_encoder) :=
  append_number FLB_LOG_EVENT_UINT64_VALUE_TYPE u64 target_field (tv_sec value).
Definition encoder_append_forward_v1_timestamp (target_field : Z) (timestamp : flb_time) : log_event_encoder → M heap (Z * log_event_encoder) :=
  encoder_append_ext target_field 0 (Some (store32 (u32 (tv_sec timestamp)) ++ store32 (u32 (tv_nsec timestamp)))) 8.
Definition encoder_append_fluent_bit_v1_timestamp : Z → flb_time → log_event_encoder → M heap (Z * log_event_encoder) := encoder_append_forward_v1_timestamp.
Definition encoder_append_fluent_bit_v2_timestamp : Z → flb_time → log_event_encoder → M heap (Z * log_event_encoder) := encoder_append_fluent_bit_v1_timestamp.

Definition encoder_append_timestamp (target_field : Z) (value : flb_time) (e : log_event_encoder) : M heap (Z * log_event_encoder) :=
  if ec_format e =? FLB_LOG_EVENT_FORMAT_FORWARD_LEGACY then encoder_append_legacy_timestamp target_field value e
  else if ec_format e =? FLB_LOG_EVENT_FORMAT_FORWARD then encoder_append_forward_v1_timestamp target_field value e
  else if ec_format e =? FLB_LOG_EVENT_FORMAT_FLUENT_BIT_V1 then encoder_append_fluent_bit_v1_timestamp target_field value e
  else if ec_format e =? FLB_LOG_EVENT_FORMAT_FLUENT_BIT_V2 then encoder_append_fluent_bit_v2_timestamp target_field value e
  else mret (FLB_EVENT_ENCODER_ERROR_INVALID_ARGUMENT, e).

(** ** Several values *)

(** The variable arguments of one value *)
Inductive vararg :=
| va_string_length (length : Z) | va_string_body (s : option (list Z)) (length : Z)
| va_binary_length (length : Z) | va_binary_body (s : option (list Z)) (length : Z)
| va_ext_length (type length : Z) | va_ext_body (s : option (list Z)) (length : Z)
| va_null | va_char (z : Z) | va_int8 (z : Z) | va_int16 (z : Z) | va_int32 (z : Z) | va_int64 (z : Z)
| va_uint8 (z : Z) | va_uint16 (z : Z) | va_uint32 (z : Z) | va_uint64 (z : Z) | va_double (d : double) | va_boolean (z : Z)
| va_msgpack_object (o : option msgpack_object) | va_msgpack_raw (s : option (list Z)) (length : Z)
| va_timestamp (t : flb_time) | va_legacy_timestamp (t : flb_time) | va_forward_v1_timestamp (t : flb_time)
| va_fluent_bit_v1_timestamp (t : flb_time) | va_fluent_bit_v2_timestamp (t : flb_time)
| va_other.

Definition append_vararg (target_field : Z) (a : vararg) : log_event_encoder → M heap (Z * log_event_encoder) :=
  match a with
  | va_string_length n => encoder_append_string_length target_field n
  | va_string_body s n => encoder_append_string_body target_field s n
  | va_binary_length n => encoder_append_binary_length target_field n
  | va_binary_body s n => encoder_append_binary_body target_field s n
  | va_ext_length t n => encoder_append_ext_length target_field t n
  | va_ext_body s n => encoder_append_ext_body target_field s n
  | va_null => encoder_append_null target_field
  | va_char z => encoder_append_character target_field z
  | va_int8 z => encoder_append_int8 target_field z
  | va_int16 z => encoder_append_int16 target_field z
  | va_int32 z => encoder_append_int32 target_field z
  | va_int64 z => encoder_append_int64 target_field z
  | va_uint8 z => encoder_append_uint8 target_field z
  | va_uint16 z => encoder_append_uint16 target_field z
  | va_uint32 z => encoder_append_uint32 target_field z
  | va_uint64 z => encoder_append_uint64 target_field z
  | va_double d => encoder_append_double target_field d
  | va_boolean z => encoder_append_boolean target_field z
  | va_msgpack_object o => encoder_append_msgpack_object target_field o
  | va_msgpack_raw s n => encoder_append_raw_msgpack target_field s n
  | va_timestamp t => encoder_append_timestamp target_field t
  | va_legacy_timestamp t => encoder_append_legacy_timestamp target_field t
  | va_forward_v1_timestamp t => encoder_append_forward_v1_timestamp target_field t
  | va_fluent_bit_v1_timestamp t => encoder_append_fluent_bit_v1_timestamp target_field t
  | va_fluent_bit_v2_timestamp t => encoder_append_fluent_bit_v2_timestamp target_field t
  | va_other => λ e, mret (FLB_EVENT_ENCODER_ERROR_INVALID_VALUE_TYPE, e)
  end.

Definition FLB_EVENT_ENCODER_VALUE_LIMIT : nat := 64.

(** The list ends at the terminator; after the limit the rest is not looked at. *)
Fixpoint append_varargs (limit : nat) (target_field : Z) (arguments : list vararg) (e : log_event_encoder) : M heap (Z * log_event_encoder) :=
  match limit, arguments with
  | S limit', a :: arguments' => append_vararg target_field a e ≫= on_success (append_varargs limit' target_field arguments')
  | _, _ => mret (FLB_EVENT_ENCODER_SUCCESS, e)
  end.
Definition encoder_append_values_unsafe : Z → list vararg → log_event_encoder → M heap (Z * log_event_encoder) :=
  append_varargs FLB_EVENT_ENCODER_VALUE_LIMIT.
Definition encoder_append_metadata_values_unsafe : list vararg → log_event_encoder → M heap (Z * log_event_encoder) := encoder_append_values_unsafe FLB_LOG_EVENT_METADATA.
Definition encoder_append_body_values_unsafe : list vararg → log_event_encoder → M heap (Z * log_event_encoder) := encoder_append_values_unsafe FLB_LOG_EVENT_BODY.
Definition encoder_append_root_values_unsafe : list vararg → log_event_encoder → M heap (Z * log_event_encoder) := encoder_append_values_unsafe FLB_LOG_EVENT_ROOT.

(** ** Setting a field *)

Definition encoder_reset_field (target_field : Z) : log_event_encoder → M heap (Z * log_event_encoder) := on_field target_field dynamic_field_reset.
Definition encoder_flush_field (target_field : Z) : log_event_encoder → M heap (Z * log_event_encoder) := on_field target_field dynamic_field_flush.

Definition encoder_set_from_msgpack_object (target_field : Z) (value : option msgpack_object) (e : log_event_encoder) : M heap (Z * log_event_encoder) :=
  r ← encoder_reset_field target_field e;
  r ← on_success (encoder_append_msgpack_object target_field value) r;
  on_success (encoder_flush_field target_field) r.
Definition encoder_set_from_raw_msgpack (target_field : Z) (value_buffer : option (list Z)) (value_size : Z) (e : log_event_encoder) : M heap (Z * log_event_encoder) :=
  r ← encoder_reset_field target_field e;
  r ← on_success (encoder_append_raw_msgpack target_field value_buffer value_size) r;
  on_success (encoder_flush_field target_field) r.

(** A record that is there already replaces the three fields. *)
Definition reset_fields (e : log_event_encoder) : M heap (Z * log_event_encoder) :=
  r ← encoder_reset_field FLB_LOG_EVENT_METADATA e;
  r ← on_success (encoder_reset_field FLB_LOG_EVENT_BODY) r;
  on_success (encoder_reset_field FLB_LOG_EVENT_ROOT) r.
Definition encoder_set_root_from_msgpack_object (value : option msgpack_object) (e : log_event_encoder) : M heap (Z * log_event_encoder) :=
  r ← reset_fields e;
  r ← on_success (encoder_append_msgpack_object FLB_LOG_EVENT_ROOT value) r;
  on_success (encoder_flush_field FLB_LOG_EVENT_ROOT) r.
Definition encoder_set_root_from_raw_msgpack (value_buffer : option (list Z)) (value_size : Z) (e : log_event_encoder) : M heap (Z * log_event_encoder) :=
  r ← reset_fields e;
  r ← on_success (encoder_append_raw_msgpack FLB_LOG_EVENT_ROOT value_buffer value_size) r;
  on_success (encoder_flush_field FLB_LOG_EVENT_ROOT) r.

(** ** Encoders *)

Definition encoder_update_internal_state (e : log_event_encoder) : log_event_encoder :=
  set_ec_output (sb_data (ec_buffer e)) (sb_size (ec_buffer e)) e.

Definition encoder_reset_record (e : log_event_encoder) : M heap (Z * log_event_encoder) :=
  '(_, e) ← encoder_reset_field FLB_LOG_EVENT_METADATA e;
  '(_, e) ← encoder_reset_field FLB_LOG_EVENT_BODY e;
  '(_, e) ← encoder_reset_field FLB_LOG_EVENT_ROOT e;
  mret (FLB_EVENT_ENCODER_SUCCESS, set_ec_timestamp (mk_time 0 0) e).
Definition encoder_rollback_record : log_event_encoder → M heap (Z * log_event_encoder) := encoder_reset_record.

(** The timestamp stays. *)
Definition encoder_reset (e : log_event_encoder) : M heap log_event_encoder :=
  '(_, e) ← encoder_reset_field FLB_LOG_EVENT_METADATA e;
  '(_, e) ← encoder_reset_field FLB_LOG_EVENT_BODY e;
  '(_, e) ← encoder_reset_field FLB_LOG_EVENT_ROOT e;
  mret (encoder_update_internal_state (set_ec_buffer (msgpack_sbuffer_clear (ec_buffer e)) e)).

(** The memory of an encoder, zeroed *)
Definition zero_encoder (block : option nat) : log_event_encoder :=
  mk_encoder block None 0 false (mk_time 0 0) zero_field zero_field zero_field msgpack_sbuffer_init 0.

(** A format between the two is accepted too. *)
Definition encoder_init (format : Z) (context : option log_event_encoder) : M heap (Z * option log_event_encoder) :=
  match context with
  | None => mret (FLB_EVENT_ENCODER_ERROR_INVALID_CONTEXT, None)
  | Some e =>
      if (format <? FLB_LOG_EVENT_FORMAT_FORWARD) || (FLB_LOG_EVENT_FORMAT_FLUENT_BIT_V2 <? format)
      then mret (FLB_EVENT_ENCODER_ERROR_INVALID_ARGUMENT, Some e)
      else
        '(_, md) ← dynamic_field_init TYPE_MAP zero_field;
        '(_, body) ← dynamic_field_init TYPE_MAP zero_field;
        '(_, root) ← dynamic_field_init TYPE_ARRAY zero_field;
        mret (FLB_EVENT_ENCODER_SUCCESS, Some (mk_encoder None None 0 true (mk_time 0 0) md body root msgpack_sbuffer_init format))
  end.

Definition log_encoder_destroy (context : option log_event_encoder) : M heap unit :=
  match context with
  | None => mret tt
  | Some e =>
      (if ec_initialized e then
         dynamic_field_destroy (ec_metadata e) ≫= λ _, dynamic_field_destroy (ec_body e) ≫= λ _,
         dynamic_field_destroy (ec_root e) ≫= λ _, msgpack_sbuffer_destroy (ec_buffer e)
       else mret tt) ≫= λ _,
      free_opt (ec_block e)
  end.

Definition log_encoder_create (format : Z) : M heap (option log_event_encoder) :=
  p ← alloc;
  '(result, context) ← encoder_init format ((λ a, zero_encoder None) <$> p);
  match p, context with
  | Some a, Some e =>
      let e := set_ec_block (Some a) e in
      if negb (result =? FLB_EVENT_ENCODER_SUCCESS) then log_encoder_destroy (Some e) ≫= λ _, mret None else mret (Some e)
  | _, _ => mret None
  end.

(** What the output buffer points to belongs to the caller. *)
Definition encoder_claim_internal_buffer_ownership (e : log_event_encoder) : log_event_encoder :=
  set_ec_buffer (msgpack_sbuffer_release (ec_buffer e)) e.

(** The bytes at [data] of a field: NULL, or what is in its buffer; they are undefined when the buffer has
    moved. *)
Definition field_value (f : dynamic_field) : option (option (list Z)) :=
  match df_data f with
  | None => Some None
  | Some a =>
      if bool_decide (sb_data (df_buffer f) = Some a) && (0 <=? df_size f) && (df_size f <=? zlen (sb_mem (df_buffer f)))
      then Some (Some (take (Z.to_nat (df_size f)) (sb_mem (df_buffer f)))) else None
  end.

Definition append_field (target_field : Z) (f : dynamic_field) (e : log_event_encoder) : M heap (Z * log_event_encoder) :=
  value ← deref (field_value f); encoder_append_raw_msgpack target_field value (df_size f) e.

(** Bytes at the end of the output; then the record is done. *)
Definition emit_bytes (bytes : list Z) (e : log_event_encoder) : M heap (Z * log_event_encoder) :=
  '(result, b) ← msgpack_sbuffer_write bytes (ec_buffer e);
  mret (translate_msgpack_encoder_result result, set_ec_buffer b e).
Definition end_record (r : Z * log_event_encoder) : M heap (Z * log_event_encoder) :=
  '(_, e) ← encoder_reset_record (encoder_update_internal_state r.2); mret (r.1, e).

Definition encoder_emit_raw_record (buffer : list Z) (length : Z) (e : log_event_encoder) : M heap (Z * log_event_encoder) :=
  bytes ← deref (if (0 <=? length) && (length <=? zlen buffer) then Some (take (Z.to_nat length) buffer) else None);
  emit_bytes bytes e ≫= end_record.

(** The root of a record, unless it was set *)
Definition build_root (e : log_event_encoder) : M heap (Z * log_event_encoder) :=
  let v2 := ec_format e =? FLB_LOG_EVENT_FORMAT_FLUENT_BIT_V2 in
  let if_v2 m r := if v2 then on_success m r else mret r in
  r ← encoder_begin_array FLB_LOG_EVENT_ROOT e;
  r ← if_v2 (encoder_begin_array FLB_LOG_EVENT_ROOT) r;
  r ← on_success (λ e, encoder_append_timestamp FLB_LOG_EVENT_ROOT (ec_timestamp e) e) r;
  r ← if_v2 (λ e, append_field FLB_LOG_EVENT_ROOT (ec_metadata e) e) r;
  r ← if_v2 (encoder_commit_array FLB_LOG_EVENT_ROOT) r;
  r ← on_success (λ e, append_field FLB_LOG_EVENT_ROOT (ec_body e) e) r;
  on_success (encoder_flush_field FLB_LOG_EVENT_ROOT) r.

Definition encoder_emit_record (e : log_event_encoder) : M heap (Z * log_event_encoder) :=
  r ← (if df_size (ec_root e) =? 0 then build_root e else mret (FLB_EVENT_ENCODER_SUCCESS, e));
  r ← on_success (λ e, value ← deref (field_value (ec_root e)); emit_bytes (default [] value) e) r;
  end_record r.

(** The results of entering the maps are not used. *)
Definition log_encoder_begin_record (e : log_event_encoder) : M heap (Z * log_event_encoder) :=
  '(_, e) ← encoder_reset_record e;
  '(_, e) ← encoder_begin_map FLB_LOG_EVENT_METADATA e;
  '(_, e) ← encoder_begin_map FLB_LOG_EVENT_BODY e;
  mret (FLB_EVENT_ENCODER_SUCCESS, e).

Definition log_encoder_commit_record (e : log_event_encoder) : M heap (Z * log_event_encoder) :=
  r ← encoder_flush_field FLB_LOG_EVENT_METADATA e;
  r ← on_success (encoder_flush_field FLB_LOG_EVENT_BODY) r;
  let '(result, e) := r in
  if result =? FLB_EVENT_ENCODER_SUCCESS then encoder_emit_record e
  else '(_, e) ← encoder_reset_record e; mret (result, e).

(** Without a timestamp, the current time *)
Definition log_encoder_set_timestamp (now : flb_time) (timestamp : option flb_time) (e : log_event_encoder) : Z * log_event_encoder :=
  (FLB_EVENT_ENCODER_SUCCESS, set_ec_timestamp (default now timestamp) e).
Definition encoder_set_current_timestamp (now : flb_time) : log_event_encoder → Z * log_event_encoder := log_encoder_set_timestamp now None.

(** ** Groups *)

Definition encoder_group_init (e : log_event_encoder) : M heap (Z * log_event_encoder) :=
  '(ret, e) ← log_encoder_begin_record e;
  if negb (ret =? FLB_EVENT_ENCODER_SUCCESS) then mret (-1, e)
  else
    let '(ret, e) := log_encoder_set_timestamp (mk_time 0 0) (Some (mk_time FLB_LOG_EVENT_GROUP_START 0)) e in
    if ret =? -1 then mret (-1, e) else mret (0, e).
(** Only a result of -1 is an error. *)
Definition encoder_group_header_end (e : log_event_encoder) : M heap (Z * log_event_encoder) :=
  '(ret, e) ← log_encoder_commit_record e;
  if ret =? -1 then mret (-1, e) else mret (0, e).
Definition encoder_group_end (e : log_event_encoder) : M heap (Z * log_event_encoder) :=
  '(ret, e) ← log_encoder_begin_record e;
  if negb (ret =? FLB_EVENT_ENCODER_SUCCESS) then mret (-1, e)
  else
    let '(ret, e) := log_encoder_set_timestamp (mk_time 0 0) (Some (mk_time FLB_LOG_EVENT_GROUP_END 0)) e in
    if ret =? -1 then mret (-1, e)
    else
      '(ret, e) ← log_encoder_commit_record e;
      if ret =? -1 then mret (-1, e) else mret (0, e).
End values.

(** The bytes at the output *)
Definition log_encoder_output (e : log_event_encoder) : option (list Z) :=
  match ec_output_buffer e with
  | None => if ec_output_length e =? 0 then Some [] else None
  | Some a =>
      if bool_decide (sb_data (ec_buffer e) = Some a) && (0 <=? ec_output_length e) && (ec_output_length e <=? zlen (sb_mem (ec_buffer e)))
      then Some (take (Z.to_nat (ec_output_length e)) (sb_mem (ec_buffer e))) else None
  end.

Definition FLB_EVENT_ENCODER_ERROR_UNSPECIFIED : Z := -1.
Definition encoder_get_error_description (error_code : Z) : string :=
  if error_code =? FLB_EVENT_ENCODER_SUCCESS then "Success"%string
  else if error_code =? FLB_EVENT_ENCODER_ERROR_UNSPECIFIED then "Unspecified"%string
  else if error_code =? FLB_EVENT_ENCODER_ERROR_ALLOCATION_ERROR then "Allocation error"%string
  else if error_code =? FLB_EVENT_ENCODER_ERROR_INVALID_CONTEXT then "Invalid context"%string
  else if error_code =? FLB_EVENT_ENCODER_ERROR_INVALID_ARGUMENT then "Invalid argument"%string
  else if error_code =? FLB_EVENT_ENCODER_ERROR_SERIALIZATION_FAILURE then "Serialization failure"%string
  else if error_code =? FLB_EVENT_ENCODER_ERROR_INVALID_VALUE_TYPE then "Invalid value type"%string
  else "Unknown error"%string.

(** ** Fields of an encoder *)

Definition is_field (target_field : Z) : Prop :=
  target_field = FLB_LOG_EVENT_ROOT ∨ target_field = FLB_LOG_EVENT_METADATA ∨ target_field = FLB_LOG_EVENT_BODY.

Lemma get_field_is t e f : encoder_get_field t e = Some f → is_field t.
Proof.
  unfold encoder_get_field, is_field. destruct (Z.eqb_spec t FLB_LOG_EVENT_METADATA); [auto|].
  destruct (Z.eqb_spec t FLB_LOG_EVENT_BODY); [auto|]. destruct (Z.eqb_spec t FLB_LOG_EVENT_ROOT); [auto|done].
Qed.
Lemma get_put_field t f e : is_field t → encoder_get_field t (put_field t f e) = Some f.
Proof. by intros [->|[->| ->]]. Qed.
Lemma put_put_field t f g e : is_field t → put_field t f (put_field t g e) = put_field t f e.
Proof. by intros [->|[->| ->]]. Qed.

Lemma encoder_field_blocks t e f : encoder_get_field t e = Some f →
  ∃ R, encoder_owns e ≡ₚ field_blocks f ++ R ∧ ∀ g, encoder_owns (put_field t g e) ≡ₚ field_blocks g ++ R.
Proof.
  intros Hf. destruct (get_field_is _ _ _ Hf) as [->|[->| ->]]; injection Hf as <-.
  - exists (option_list (ec_block e) ++ field_blocks (ec_metadata e) ++ field_blocks (ec_body e) ++ sb_blocks (ec_buffer e)).
    unfold encoder_owns. split; [|intros g; cbn]; solve_Permutation.
  - exists (option_list (ec_block e) ++ field_blocks (ec_body e) ++ field_blocks (ec_root e) ++ sb_blocks (ec_buffer e)).
    unfold encoder_owns. split; [|intros g; cbn]; solve_Permutation.
  - exists (option_list (ec_block e) ++ field_blocks (ec_metadata e) ++ field_blocks (ec_root e) ++ sb_blocks (ec_buffer e)).
    unfold encoder_owns. split; [|intros g; cbn]; solve_Permutation.
Qed.

(** An operation on a field, from what it does to the field *)
Lemma on_field_ok t op e f (post : Z → dynamic_field → Prop) : encoder_get_field t e = Some f →
  calm_run (field_blocks f) (op f) (λ r, field_blocks r.2) (λ r, post r.1 r.2) →
  calm_run (encoder_owns e) (on_field t op e) (λ r, encoder_owns r.2) (λ r, ∃ g, r.2 = put_field t g e ∧ post r.1 g).
Proof.
  intros Hf Hop. destruct (encoder_field_blocks _ _ _ Hf) as (R & He & Hput). unfold on_field. rewrite Hf.
  eapply calm_perm; [exact He|]. eapply calm_bind; [by apply calm_frame|]. intros [r g] Hp. apply calm_ret; [cbn; by rewrite Hput|].
  by exists g.
Qed.

(** ** Values *)

Section calls.
Variables float_bits double_bits : double → list Z.

(** What a value of a type writes, when it is one of those that can be appended *)
Definition written_by (value_type : Z) (value_buffer : option value_arg) (value_length : Z) : option (list (list Z)) :=
  if value_type =? FLB_LOG_EVENT_STRING_LENGTH_VALUE_TYPE then Some [msgpack_pack_str value_length]
  else if value_type =? FLB_LOG_EVENT_BINARY_LENGTH_VALUE_TYPE then Some [msgpack_pack_bin value_length]
  else if value_type =? FLB_LOG_EVENT_EXT_LENGTH_VALUE_TYPE then
    match value_buffer with Some (arg_int z) => Some [msgpack_pack_ext value_length (i8 z)] | _ => None end
  else if value_type =? FLB_LOG_EVENT_NULL_VALUE_TYPE then Some [msgpack_pack_nil]
  else
    v ← value_buffer;
    writes ← value_writes float_bits double_bits value_type v value_length;
    writes.

Definition has_type (value_type : Z) : bool :=
  (FLB_LOG_EVENT_STRING_MIN_VALUE_TYPE <=? value_type) && (value_type <=? FLB_LOG_EVENT_STRING_MAX_VALUE_TYPE).

Definition counted (increment : bool) : Z := if increment then 1 else 0.

Lemma append_value_ok t increment vt vb len ws e f h :
  encoder_get_field t e = Some f → field_repr h f → has_type vt = true → written_by vt vb len = Some ws →
  (increment = true → count_room h) → zlen (render h.1 h.2 ++ concat ws) < 2 ^ 64 →
  calm_run (encoder_owns e) (encoder_append_value float_bits double_bits t increment vt vb len e) (λ r, encoder_owns r.2)
    (λ r, ∃ g, r.2 = put_field t g e ∧ r.1 = FLB_EVENT_ENCODER_SUCCESS ∧ field_repr (add (counted increment) (concat ws) h) g).
Proof.
  intros Hget Hf Hvt Hws Hroom Hlen. unfold encoder_append_value.
  assert (Hty : (vt <? FLB_LOG_EVENT_STRING_MIN_VALUE_TYPE) || (FLB_LOG_EVENT_STRING_MAX_VALUE_TYPE <? vt) = false).
  { unfold has_type in Hvt. apply andb_true_iff in Hvt as [?%Z.leb_le ?%Z.leb_le]. apply orb_false_iff. rewrite !Z.ltb_ge. lia. }
  rewrite Hty. eapply (on_field_ok t _ e f (λ r g, r = FLB_EVENT_ENCODER_SUCCESS ∧ field_repr (add (counted increment) (concat ws) h) g)); [done|].
  assert (Happ : ∃ g, (if increment then dynamic_field_append f else (FLB_EVENT_ENCODER_SUCCESS, f)) = (FLB_EVENT_ENCODER_SUCCESS, g) ∧
                   field_repr (add (counted increment) [] h) g ∧ field_blocks g = field_blocks f).
  { destruct increment; cbn [counted].
    - destruct (append_ok h f Hf (Hroom eq_refl)) as (f' & Happ & Hf' & _ & Hbl). eauto.
    - exists f. split_and!; [done| |done]. destruct Hf as [? Hc ?].
      constructor; [done|by rewrite render_add, app_nil_r|by apply scopes_add]. }
  destruct Happ as (g & -> & Hg & Hbl). rewrite <- Hbl.
  change (negb (FLB_EVENT_ENCODER_SUCCESS =? FLB_EVENT_ENCODER_SUCCESS)) with false. cbn iota.
  assert (Hpack : ∀ ws translate, translate 0 = 0 → zlen (render h.1 h.2 ++ concat ws) < 2 ^ 64 →
    calm_run (field_blocks g) ('(result, b) ← pack_writes ws (df_buffer g); mret ((translate : Z → Z) result, set_df_buffer b g)) (λ r, field_blocks r.2)
      (λ r, r.1 = FLB_EVENT_ENCODER_SUCCESS ∧ field_repr (add (counted increment) (concat ws) h) r.2)).
  { clear -Hg. intros ws translate Htr Hlen. unfold field_blocks at 1. eapply calm_bind.
    - apply calm_frame, calm_pack_writes; [apply Hg|]. by rewrite (fp_content _ _ Hg), render_add, app_nil_r.
    - intros [r b] (Hr & Hb & Hc). cbn in Hr, Hb, Hc. subst r. apply calm_ret; [done|]. split; [done|].
      pose proof (repr_write _ _ _ _ Hg Hb Hc) as Hw. by rewrite add_add, Z.add_0_r in Hw. }
  unfold written_by in Hws.
  destruct (vt =? FLB_LOG_EVENT_STRING_LENGTH_VALUE_TYPE); [injection Hws as <-; by apply Hpack|].
  destruct (vt =? FLB_LOG_EVENT_BINARY_LENGTH_VALUE_TYPE); [injection Hws as <-; by apply Hpack|].
  destruct (vt =? FLB_LOG_EVENT_EXT_LENGTH_VALUE_TYPE).
  { destruct vb as [[]|]; try done. injection Hws as <-. eapply calm_bind; [by eapply (calm_deref _ _ _ (λ _, field_blocks g) (λ x, x = i8 z))|].
    intros ? ->. by apply Hpack. }
  destruct (vt =? FLB_LOG_EVENT_NULL_VALUE_TYPE); [injection Hws as <-; by apply Hpack|].
  destruct vb as [v|]; [|done]. cbn [mbind option_bind] in Hws. destruct (value_writes _ _ vt v len) as [[w|]|]; try done.
  injection Hws as ->. eapply calm_bind; [by eapply (calm_deref _ _ _ (λ _, field_blocks g) (λ x, x = Some ws))|].
  intros ? ->. by apply Hpack.
Qed.

(** ** Sequences of calls *)

(** The calls that build a field *)
Inductive call :=
| call_value (increment : bool) (value_type : Z) (value_buffer : option value_arg) (value_length : Z)
| call_begin_map | call_begin_array | call_commit_map | call_commit_array | call_rollback_map | call_rollback_array.

Definition run_call (t : Z) (c : call) : log_event_encoder → M heap (Z * log_event_encoder) :=
  match c with
  | call_value increment vt vb len => encoder_append_value float_bits double_bits t increment vt vb len
  | call_begin_map => encoder_begin_map t
  | call_begin_array => encoder_begin_array t
  | call_commit_map => encoder_commit_map t
  | call_commit_array => encoder_commit_array t
  | call_rollback_map => encoder_rollback_map t
  | call_rollback_array => encoder_rollback_array t
  end.
Fixpoint run_calls (t : Z) (calls : list call) (e : log_event_encoder) : M heap (Z * log_event_encoder) :=
  match calls with
  | [] => mret (FLB_EVENT_ENCODER_SUCCESS, e)
  | c :: calls' => run_call t c e ≫= on_success (run_calls t calls')
  end.

Instance count_room_dec h : Decision (count_room h).
Proof. unfold count_room. destruct h.2; apply _. Defined.

(** What they do to the stack; [None] when a value cannot be appended, a size or a count does not fit, or
    there is no scope.  An array that is rolled back is committed. *)
Definition stack_call (c : call) (h : holding) : option holding :=
  match c with
  | call_value increment vt vb len =>
      ws ← written_by vt vb len;
      if has_type vt && (negb increment || bool_decide (count_room h)) && (zlen (render h.1 h.2 ++ concat ws) <? 2 ^ 64)
      then Some (add (counted increment) (concat ws) h) else None
  | call_begin_map =>
      if bool_decide (count_room h) && (zlen (render h.1 h.2) + 5 <? 2 ^ 64) then Some (enter TYPE_MAP h) else None
  | call_begin_array =>
      if bool_decide (count_room h) && (zlen (render h.1 h.2) + 5 <? 2 ^ 64) then Some (enter TYPE_ARRAY h) else None
  | call_commit_map | call_commit_array | call_rollback_array => match h.2 with [] => None | _ => Some (leave h) end
  | call_rollback_map => match h.2 with [] => None | _ => Some (drop_frame h) end
  end.
Fixpoint stack_calls (calls : list call) (h : holding) : option holding :=
  match calls with [] => Some h | c :: calls' => stack_call c h ≫= stack_calls calls' end.

Lemma run_call_ok t c e f h h' : encoder_get_field t e = Some f → field_repr h f → stack_call c h = Some h' →
  calm_run (encoder_owns e) (run_call t c e) (λ r, encoder_owns r.2)
    (λ r, ∃ g, r.2 = put_field t g e ∧ r.1 = FLB_EVENT_ENCODER_SUCCESS ∧ field_repr h' g).
Proof.
  intros Hget Hf Hc.
  assert (Hop : ∀ op, calm_run (field_blocks f) (op f) (λ r, field_blocks r.2) (λ r, r.1 = FLB_EVENT_ENCODER_SUCCESS ∧ field_repr h' r.2) →
    calm_run (encoder_owns e) (on_field t op e) (λ r, encoder_owns r.2)
      (λ r, ∃ g, r.2 = put_field t g e ∧ r.1 = FLB_EVENT_ENCODER_SUCCESS ∧ field_repr h' g)).
  { intros op Hop. by apply (on_field_ok t op e f (λ r g, r = FLB_EVENT_ENCODER_SUCCESS ∧ field_repr h' g)). }
  assert (Hleave : ∀ h'', match h.2 with [] => None | _ => Some h'' end = Some h' → h.2 ≠ [] ∧ h'' = h').
  { intros h''. destruct h.2; [done|]. by intros [= ->]. }
  assert (Hl : h.2 ≠ [] → leave h = h' → calm_run (field_blocks f) (dynamic_field_scope_leave true f) (λ r, field_blocks r.2)
                 (λ r, r.1 = FLB_EVENT_ENCODER_SUCCESS ∧ field_repr h' r.2)).
  { intros Hne <-. destruct h as [base [|fr outer]]; [done|]. eapply calm_weaken; [by apply leave_ok|]. by intros r (? & ? & _). }
  destruct c as [increment vt vb len| | | | | |]; cbn [stack_call run_call] in *.
  - destruct (written_by vt vb len) as [ws|] eqn:Hws; [|done]. cbn in Hc. destruct (_ && _) eqn:Hb in Hc; [|done]. injection Hc as <-.
    apply andb_true_iff in Hb as [[Hvt Hroom]%andb_true_iff Hlen%Z.ltb_lt]. apply append_value_ok with (f := f); try done.
    intros ->. by apply bool_decide_eq_true in Hroom.
  - destruct (_ && _) eqn:Hb in Hc; [|done]. injection Hc as <-. apply andb_true_iff in Hb as [?%bool_decide_eq_true ?%Z.ltb_lt].
    by apply Hop, enter_ok.
  - destruct (_ && _) eqn:Hb in Hc; [|done]. injection Hc as <-. apply andb_true_iff in Hb as [?%bool_decide_eq_true ?%Z.ltb_lt].
    by apply Hop, enter_ok.
  - apply Hleave in Hc as [??]. by apply Hop, Hl.
  - apply Hleave in Hc as [??]. by apply Hop, Hl.
  - apply Hleave in Hc as [? <-]. by apply Hop, rollback_ok.
  - apply Hleave in Hc as [??]. by apply Hop, Hl.
Qed.

Lemma run_calls_ok t calls e f h h' : encoder_get_field t e = Some f → field_repr h f → stack_calls calls h = Some h' →
  calm_run (encoder_owns e) (run_calls t calls e) (λ r, encoder_owns r.2)
    (λ r, ∃ g, r.2 = put_field t g e ∧ r.1 = FLB_EVENT_ENCODER_SUCCESS ∧ field_repr h' g).
Proof.
  revert e f h. induction calls as [|c calls IH]; intros e f h Hget Hf Hc; cbn [stack_calls run_calls] in *.
  - injection Hc as <-. apply calm_ret; [done|]. exists f. split_and!; [|done|done].
    destruct (get_field_is _ _ _ Hget) as [->|[->| ->]]; injection Hget as <-; by destruct e.
  - destruct (stack_call c h) as [h1|] eqn:Hc1; [|done]. cbn in Hc. eapply calm_bind; [by eapply run_call_ok|].
    intros [r e1] (g & He1 & Hr & Hg). cbn in He1, Hr. subst r e1. unfold on_success. cbn [fst snd].
    rewrite (Z.eqb_refl FLB_EVENT_ENCODER_SUCCESS). pose proof (get_field_is _ _ _ Hget) as Ht.
    eapply calm_weaken; [by eapply IH; [apply get_put_field|..]|].
    intros [r e2] (g' & -> & -> & Hg'). split; [done|]. exists g'. by rewrite put_put_field.
Qed.
End calls.

(** ** The state of an encoder *)

Record encoder_repr (out : list Z) (hm hb hr : holding) (e : log_event_encoder) : Prop := {
  er_metadata : field_repr hm (ec_metadata e);
  er_body : field_repr hb (ec_body e);
  er_root : field_repr hr (ec_root e);
  er_root_size : df_size (ec_root e) = 0;
  er_buffer : sb_ok (ec_buffer e);
  er_content : sb_content (ec_buffer e) = out;
  er_output : ec_output_buffer e = sb_data (ec_buffer e) ∧ ec_output_length e = sb_size (ec_buffer e);
  er_live : ec_initialized e = true ∧ ec_format e = FLB_LOG_EVENT_FORMAT_DEFAULT
}.

(** Nothing is kept when a field is reset. *)
Definition clean (h : holding) : Prop := h.1 = [] ∨ h.2 = [].
Lemma cleared_clean h : clean h → cleared h = ([], []).
Proof. unfold clean, cleared. destruct h as [base [|fr outer]]; cbn; [done|]. by intros [->|?]. Qed.

Definition holds_record (out : list Z) (p : pending) (e : log_event_encoder) : Prop :=
  ∃ hm hb, encoder_repr out hm hb ([], []) e ∧ clean hm ∧ clean hb ∧ p = mk_pending (ec_timestamp e) (closed hm) (closed hb).

Lemma content_at b n : sb_ok b → n = sb_size b → sb_data b ≠ None →
  ∃ a, sb_data b = Some a ∧ bool_decide (sb_data b = Some a) && (0 <=? n) && (n <=? zlen (sb_mem b)) = true ∧
       take (Z.to_nat n) (sb_mem b) = sb_content b.
Proof.
  intros [Hsz ? ?] -> Hd. destruct (sb_data b) as [a|]; [|done]. exists a. split_and!; [done| |done].
  rewrite bool_decide_eq_true_2 by done. by rewrite (proj2 (Z.leb_le _ _)), (proj2 (Z.leb_le _ _)) by lia.
Qed.

Lemma output_holds out p e : holds_record out p e → log_encoder_output e = Some out.
Proof.
  intros (hm & hb & [_ _ _ _ Hb Hc [Ho Hl] _] & _). unfold log_encoder_output. rewrite Ho, Hl.
  destruct (sb_data (ec_buffer e)) as [a|] eqn:Hd.
  - destruct (content_at (ec_buffer e) (sb_size (ec_buffer e)) Hb eq_refl) as (a' & Ha & Hif & Ht); [by rewrite Hd|].
    rewrite Hd in Ha. injection Ha as <-. rewrite Hd in Hif. by rewrite Hif, Ht, Hc.
  - destruct (content_empty _ Hb Hd) as [He Hz]. rewrite Hz. cbn. by rewrite <- Hc, He.
Qed.

(** What a flushed field has *)
Lemma field_value_flushed v f : field_repr (v, []) f → df_data f = sb_data (df_buffer f) → df_size f = sb_size (df_buffer f) → v ≠ [] →
  field_value f = Some (Some v) ∧ df_size f = zlen v.
Proof.
  intros [Hok Hc _] Hd Hs Hv. cbn in Hc. unfold field_value. rewrite Hd, Hs.
  destruct (sb_data (df_buffer f)) as [a|] eqn:Ha; [|destruct (content_empty _ Hok Ha); congruence].
  destruct (content_at (df_buffer f) (sb_size (df_buffer f)) Hok eq_refl) as (a' & Ha' & Hif & Ht); [by rewrite Ha|].
  rewrite Ha in Ha'. injection Ha' as <-. rewrite Ha in Hif. rewrite Hif, Ht, Hc. split; [done|]. by rewrite <- zlen_content, Hc.
Qed.

(** ** Steps that succeed *)

Definition success (P : log_event_encoder → Prop) (r : Z * log_event_encoder) : Prop := r.1 = FLB_EVENT_ENCODER_SUCCESS ∧ P r.2.
Definition step_to (e : log_event_encoder) (m : M heap (Z * log_event_encoder)) (P : log_event_encoder → Prop) : Prop :=
  calm_run (encoder_owns e) m (λ r, encoder_owns r.2) (success P).

Lemma step_bind e m k P Q : step_to e m P → (∀ r, success P r → step_to r.2 (k r) Q) → step_to e (m ≫= k) Q.
Proof. apply calm_bind. Qed.

Lemma step_on r m P Q : success P r → (∀ e', P e' → step_to e' (m e') Q) → step_to r.2 (on_success m r) Q.
Proof. intros [Hr HP] Hm. unfold on_success. rewrite Hr, (Z.eqb_refl FLB_EVENT_ENCODER_SUCCESS). by apply Hm. Qed.

Lemma step_weaken e m (P Q : log_event_encoder → Prop) : step_to e m P → (∀ e', P e' → Q e') → step_to e m Q.
Proof. intros Hm HPQ. eapply calm_weaken; [exact Hm|]. intros r [Hr HP]. split; [done|]. split; [done|]. by apply HPQ. Qed.

(** [e'] is [e] but for a field *)
Definition field_now (t : Z) (e : log_event_encoder) (P : dynamic_field → Prop) (e' : log_event_encoder) : Prop :=
  ∃ g, e' = put_field t g e ∧ P g.

Lemma step_now t e e' m P Q : is_field t → field_now t e P e' →
  (∀ g, encoder_get_field t e' = Some g → P g → step_to e' m (field_now t e' Q)) → step_to e' m (field_now t e Q).
Proof.
  intros Ht (g & -> & HP) Hm. eapply step_weaken; [apply (Hm g); [by apply get_put_field|done]|].
  intros e2 (g' & -> & HQ). exists g'. by rewrite put_put_field.
Qed.

(** An operation on a field *)
Lemma step_field t op e f (post : dynamic_field → Prop) : encoder_get_field t e = Some f →
  calm_run (field_blocks f) (op f) (λ r, field_blocks r.2) (λ r, r.1 = FLB_EVENT_ENCODER_SUCCESS ∧ post r.2) →
  step_to e (on_field t op e) (field_now t e post).
Proof.
  intros Hf Hop. eapply calm_weaken; [by apply (on_field_ok t op e f (λ r g, r = FLB_EVENT_ENCODER_SUCCESS ∧ post g))|].
  intros r (g & He & Hr & Hg). split; [done|]. split; [done|]. by exists g.
Qed.

Lemma step_reset t e f h : encoder_get_field t e = Some f → field_repr h f →
  step_to e (encoder_reset_field t e) (field_now t e (λ g, field_repr (cleared h) g ∧ df_size g = 0)).
Proof.
  intros Hf Hh. apply (step_field t dynamic_field_reset e f (λ g, field_repr (cleared h) g ∧ df_size g = 0)); [done|].
  eapply calm_weaken; [by apply reset_ok|]. by intros r (? & ? & _ & _ & ?).
Qed.

Definition flushed (v : list Z) (g : dynamic_field) : Prop :=
  field_repr (v, []) g ∧ df_data g = sb_data (df_buffer g) ∧ df_size g = sb_size (df_buffer g).

Lemma step_flush t e f h : encoder_get_field t e = Some f → field_repr h f →
  step_to e (encoder_flush_field t e) (field_now t e (flushed (closed h))).
Proof.
  intros Hf Hh. apply (step_field t dynamic_field_flush e f (flushed (closed h))); [done|].
  eapply calm_weaken; [by apply flush_ok|]. by intros r (? & ? & ? & ?).
Qed.

Lemma step_call fb db t c e f h h' : encoder_get_field t e = Some f → field_repr h f → stack_call fb db c h = Some h' →
  step_to e (run_call fb db t c e) (field_now t e (field_repr h')).
Proof.
  intros Hget Hf Hc. eapply calm_weaken; [by eapply run_call_ok|]. intros r (g & ? & ? & ?). split; [done|]. split; [done|]. by exists g.
Qed.

(** ** Records *)

Lemma put_repr_metadata out hm hb hr hm' e g : encoder_repr out hm hb hr e → field_repr hm' g →
  encoder_repr out hm' hb hr (put_field FLB_LOG_EVENT_METADATA g e).
Proof. intros [] Hg. by constructor. Qed.
Lemma put_repr_body out hm hb hr hb' e g : encoder_repr out hm hb hr e → field_repr hb' g →
  encoder_repr out hm hb' hr (put_field FLB_LOG_EVENT_BODY g e).
Proof. intros [] Hg. by constructor. Qed.
Lemma put_repr_root out hm hb hr hr' e g : encoder_repr out hm hb hr e → field_repr hr' g → df_size g = 0 →
  encoder_repr out hm hb hr' (put_field FLB_LOG_EVENT_ROOT g e).
Proof. intros [] Hg ?. by constructor. Qed.

Section records.
Variables float_bits double_bits : double → list Z.

Lemma stack_value increment vt vb len ws h : written_by float_bits double_bits vt vb len = Some ws → has_type vt = true →
  (increment = true → count_room h) → zlen (render h.1 h.2 ++ concat ws) < 2 ^ 64 →
  stack_call float_bits double_bits (call_value increment vt vb len) h = Some (add (counted increment) (concat ws) h).
Proof.
  intros Hws Hvt Hroom Hlen. unfold stack_call. rewrite Hws. cbn [mbind option_bind]. rewrite Hvt, (proj2 (Z.ltb_lt _ _)) by done.
  destruct increment; [|done]. by rewrite bool_decide_eq_true_2 by auto.
Qed.

(** Bytes as they are *)
Lemma written_bytes vt v : vt ∈ [FLB_LOG_EVENT_STRING_BODY_VALUE_TYPE; FLB_LOG_EVENT_BINARY_BODY_VALUE_TYPE;
    FLB_LOG_EVENT_EXT_BODY_VALUE_TYPE; FLB_LOG_EVENT_MSGPACK_RAW_VALUE_TYPE] →
  written_by float_bits double_bits vt (Some (arg_bytes v)) (zlen v) = Some [v].
Proof.
  intros Hvt. unfold written_by, value_writes. cbn [mbind option_bind]. pose proof (zlen_nonneg v).
  rewrite (proj2 (Z.leb_le _ _)), (proj2 (Z.leb_le _ _)) by lia. rewrite zlen_nat, firstn_all.
  by repeat (apply elem_of_cons in Hvt as [->|Hvt]; [done|]); apply elem_of_nil in Hvt.
Qed.

Lemma stack_raw v h : zlen (render h.1 h.2 ++ v) < 2 ^ 64 → count_room h →
  stack_call float_bits double_bits (call_value true FLB_LOG_EVENT_MSGPACK_RAW_VALUE_TYPE (Some (arg_bytes v)) (zlen v)) h = Some (add 1 v h).
Proof.
  intros Hlen Hroom. rewrite (stack_value _ _ _ _ [v]); cbn [concat]; rewrite ?app_nil_r; [done|apply written_bytes; set_solver|done..].
Qed.

Lemma stack_object o h : zlen (render h.1 h.2 ++ concat (object_writes float_bits double_bits o)) < 2 ^ 64 → count_room h →
  stack_call float_bits double_bits (call_value true FLB_LOG_EVENT_MSGPACK_OBJECT_VALUE_TYPE (Some (arg_object o)) 0) h =
  Some (add 1 (concat (object_writes float_bits double_bits o)) h).
Proof. intros Hlen Hroom. by apply stack_value. Qed.

(** A field that is set to a value *)
Lemma step_set t c v e f h : encoder_get_field t e = Some f → field_repr h f → clean h →
  stack_call float_bits double_bits c ([], []) = Some (v, []) →
  step_to e (r ← encoder_reset_field t e; r ← on_success (run_call float_bits double_bits t c) r; on_success (encoder_flush_field t) r)
    (field_now t e (flushed v)).
Proof.
  intros Hf Hh Hc Hv. pose proof (get_field_is _ _ _ Hf) as Ht. pose proof (cleared_clean _ Hc) as Hcl.
  eapply step_bind; [by eapply step_reset|]. intros r Hr. rewrite Hcl in Hr.
  eapply step_bind; [eapply (step_on _ _ _ _ Hr)|].
  { intros e1 H1. apply (step_now _ _ _ _ _ (field_repr (v, [])) Ht H1). intros g Hg [Hr0 _]. by apply (step_call _ _ _ _ _ g ([], [])). }
  clear r Hr. intros r Hr. apply (step_on _ _ _ _ Hr). intros e1 H1. apply (step_now _ _ _ _ _ _ Ht H1). intros g Hg Hrepr.
  pose proof (step_flush t e1 g (v, []) Hg Hrepr) as Hfl. unfold closed in Hfl. cbn in Hfl. by rewrite app_nil_r in Hfl.
Qed.

Lemma step_set_raw t v e f h : encoder_get_field t e = Some f → field_repr h f → clean h → zlen v < 2 ^ 64 →
  step_to e (encoder_set_from_raw_msgpack float_bits double_bits t (Some v) (zlen v) e) (field_now t e (flushed v)).
Proof.
  intros Hf Hh Hc Hv. eapply (step_set t (call_value true FLB_LOG_EVENT_MSGPACK_RAW_VALUE_TYPE (Some (arg_bytes v)) (zlen v)) v e f h Hf Hh Hc).
  by apply stack_raw.
Qed.

Lemma step_set_object t o e f h : encoder_get_field t e = Some f → field_repr h f → clean h →
  zlen (concat (object_writes float_bits double_bits o)) < 2 ^ 64 →
  step_to e (encoder_set_from_msgpack_object float_bits double_bits t (Some o) e)
    (field_now t e (flushed (concat (object_writes float_bits double_bits o)))).
Proof.
  intros Hf Hh Hc Ho. eapply (step_set t (call_value true FLB_LOG_EVENT_MSGPACK_OBJECT_VALUE_TYPE (Some (arg_object o)) 0) _ e f h Hf Hh Hc).
  by apply stack_object.
Qed.

(** ** The root *)

Lemma step_root e c h h' r : success (field_now FLB_LOG_EVENT_ROOT e (field_repr h)) r → stack_call float_bits double_bits c h = Some h' →
  step_to r.2 (on_success (run_call float_bits double_bits FLB_LOG_EVENT_ROOT c) r) (field_now FLB_LOG_EVENT_ROOT e (field_repr h')).
Proof.
  intros Hr Hc. apply (step_on _ _ _ _ Hr). intros e1 H1. eapply step_now; [by left|exact H1|]. intros g Hg Hrepr. by eapply step_call.
Qed.


Definition arr (n : Z) (v : list Z) : frame := mk_frame TYPE_ARRAY n v.

Lemma step_timestamp t tm e g h : encoder_get_field t e = Some g → field_repr h g → ec_format e = FLB_LOG_EVENT_FORMAT_DEFAULT →
  count_room h → zlen (render h.1 h.2 ++ timestamp_bytes tm) < 2 ^ 64 →
  step_to e (encoder_append_timestamp float_bits double_bits t tm e) (field_now t e (field_repr (add 1 (timestamp_bytes tm) h))).
Proof.
  intros Hg Hh Hfmt Hroom Hlen. pose proof (get_field_is _ _ _ Hg) as Ht. unfold encoder_append_timestamp. rewrite Hfmt.
  unfold timestamp_bytes in Hlen. rewrite !zlen_app, !store32_length in Hlen.
  assert (Hext : stack_call float_bits double_bits (call_value true FLB_LOG_EVENT_EXT_LENGTH_VALUE_TYPE (Some (arg_int (i8 0))) 8) h = Some (add 1 [0xd7; 0] h)).
  { rewrite (stack_value _ _ _ _ [[0xd7; 0]]); [done|done|done|by intros _|]. rewrite zlen_app. cbn [concat]. change (zlen _) with 2 at 2. change (zlen [0xd7; 0]) with 2 in Hlen. lia. }
  eapply step_bind; [by apply (step_call float_bits double_bits t _ e g h _ Hg Hh Hext)|]. intros r Hr. apply (step_on _ _ _ _ Hr).
  intros e1 H1. apply (step_now _ _ _ _ _ _ Ht H1). intros g1 Hg1 Hr1.
  set (bytes := store32 (u32 (tv_sec tm)) ++ store32 (u32 (tv_nsec tm))).
  assert (Hbody : stack_call float_bits double_bits (call_value false FLB_LOG_EVENT_EXT_BODY_VALUE_TYPE (Some (arg_bytes bytes)) 8) (add 1 [0xd7; 0] h) =
                  Some (add 1 (timestamp_bytes tm) h)).
  { rewrite (stack_value _ _ _ _ [bytes]); [|apply (written_bytes _ bytes); set_solver|done|done|].
    - cbn [concat counted]. rewrite app_nil_r, add_add. subst bytes. by rewrite !store32_u32.
    - cbn [concat]. rewrite render_add, app_nil_r, !zlen_app. change (zlen bytes) with 8. change (zlen [0xd7; 0]) with 2 in *. lia. }
  by apply (step_call float_bits double_bits t _ e1 g1 _ _ Hg1 Hr1 Hbody).
Qed.

Lemma step_append_field sel f v e h r : (∀ g, sel (put_field FLB_LOG_EVENT_ROOT g e) = f) →
  success (field_now FLB_LOG_EVENT_ROOT e (field_repr h)) r → field_value f = Some (Some v) → df_size f = zlen v →
  count_room h → zlen (render h.1 h.2 ++ v) < 2 ^ 64 →
  step_to r.2 (on_success (λ e, append_field float_bits double_bits FLB_LOG_EVENT_ROOT (sel e) e) r) (field_now FLB_LOG_EVENT_ROOT e (field_repr (add 1 v h))).
Proof.
  intros Hsel Hr Hv Hs Hroom Hlen. apply (step_on _ _ _ _ Hr). intros e1 H1.
  assert (Hf : sel e1 = f) by (destruct H1 as (g & -> & _); apply Hsel). rewrite Hf.
  eapply step_now; [by left|exact H1|]. intros g Hg Hrepr.
  unfold append_field. eapply calm_bind; [by eapply (calm_deref _ _ _ (λ _, encoder_owns e1) (λ x, x = Some v))|]. intros ? ->. rewrite Hs.
  apply (step_call float_bits double_bits _ (call_value true FLB_LOG_EVENT_MSGPACK_RAW_VALUE_TYPE (Some (arg_bytes v)) (zlen v)) e1 g h _ Hg Hrepr).
  by apply stack_raw.
Qed.

(** The root of a record: its array, the array of the timestamp and the metadata, the body *)
Lemma build_root_ok e t md body : is_field FLB_LOG_EVENT_ROOT → ec_format e = FLB_LOG_EVENT_FORMAT_DEFAULT → ec_timestamp e = t →
  field_repr ([], []) (ec_root e) → flushed md (ec_metadata e) → flushed body (ec_body e) → md ≠ [] → body ≠ [] →
  zlen (record_bytes t md body) < 2 ^ 64 →
  step_to e (build_root float_bits double_bits e) (field_now FLB_LOG_EVENT_ROOT e (flushed (record_bytes t md body))).
Proof.
  intros Hroot Hfmt <- Hrr (Hmd & Hmdd & Hmds) (Hb & Hbd & Hbs) Hmdne Hbne Hlen. unfold build_root. rewrite Hfmt.
  change (FLB_LOG_EVENT_FORMAT_DEFAULT =? FLB_LOG_EVENT_FORMAT_FLUENT_BIT_V2) with true. cbn iota.
  destruct (field_value_flushed _ _ Hmd Hmdd Hmds Hmdne) as [Hmv Hml].
  destruct (field_value_flushed _ _ Hb Hbd Hbs Hbne) as [Hbv Hbl].
  assert (Hts : zlen (timestamp_bytes (ec_timestamp e)) = 10) by done. assert (Hh5 : zlen (header32 TYPE_ARRAY 65536) = 5) by done.
  assert (Hlen' : 20 + zlen md + zlen body < 2 ^ 64).
  { unfold record_bytes in Hlen. rewrite !zlen_app, Hts in Hlen. change (zlen [0xdd; 0; 0; 0; 2]) with 5 in Hlen. lia. }
  clear Hlen. pose proof (zlen_nonneg md). pose proof (zlen_nonneg body).
  eapply step_bind; [eapply (step_call float_bits double_bits _ call_begin_array e (ec_root e) ([], []) ([], [arr 0 []])); done|].
  intros r1 H1. eapply step_bind; [eapply (step_root e call_begin_array _ ([], [arr 0 []; arr 1 []])); done|]. clear r1 H1.
  intros r1 H1. eapply step_bind.
  { apply (step_on _ _ _ _ H1). intros e1 (g & -> & Hg). eapply step_now; [exact Hroot|by exists g|]. intros g' Hg' Hrepr.
    apply (step_timestamp _ (ec_timestamp e) _ g' _ Hg' Hrepr); [done|done|].
    cbn [render fst snd arr fr_type fr_bytes]. rewrite !zlen_app, Hts, Hh5. change (zlen (@nil Z)) with 0. lia. }
  clear r1 H1. intros r1 H1. set (ts := timestamp_bytes (ec_timestamp e)) in *. change (add 1 ts ([], [arr 0 []; arr 1 []])) with ([] : list Z, [arr 1 ts; arr 1 []]) in H1.
  eapply step_bind.
  { apply (step_append_field ec_metadata (ec_metadata e) md e _ r1 (λ g, eq_refl) H1 Hmv Hml); [done|].
    cbn [render fst snd arr fr_type fr_bytes]. rewrite !zlen_app, Hts, Hh5. change (zlen (@nil Z)) with 0. lia. }
  clear r1 H1. intros r1 H1. change (add 1 md ([], [arr 1 ts; arr 1 []])) with ([] : list Z, [arr 2 (ts ++ md); arr 1 []]) in H1.
  set (inner := finished (arr 2 (ts ++ md))).
  eapply step_bind; [eapply (step_root e call_commit_array _ ([], [arr 1 inner])); done|]. clear r1 H1. intros r1 H1.
  assert (Hin : zlen inner = 15 + zlen md).
  { subst inner. unfold finished. cbn [arr fr_type fr_count fr_bytes]. rewrite !zlen_app, Hts. change (zlen (header32 TYPE_ARRAY 2)) with 5. lia. }
  eapply step_bind.
  { apply (step_append_field ec_body (ec_body e) body e _ r1 (λ g, eq_refl) H1 Hbv Hbl); [done|].
    cbn [render fst snd arr fr_type fr_bytes]. rewrite !zlen_app, Hin, Hh5. change (zlen (@nil Z)) with 0. lia. }
  clear r1 H1. intros r1 H1. apply (step_on _ _ _ _ H1). intros e1 He1. eapply step_now; [exact Hroot|exact He1|]. intros g Hg Hrepr.
  eapply step_weaken; [by eapply step_flush|]. intros e2 (g2 & -> & Hfl). exists g2. split; [done|].
  assert (Hcl : closed (add 1 body ([], [arr 1 inner])) = record_bytes (ec_timestamp e) md body).
  { unfold closed. cbn [add arr fst snd close fr_type fr_count fr_bytes]. subst inner. unfold record_bytes, finished. cbn [arr fr_type fr_count fr_bytes].
    change (header32 TYPE_ARRAY 2) with [0xdd; 0; 0; 0; 2]. change (header32 TYPE_ARRAY (1 + 1)) with [0xdd; 0; 0; 0; 2].
    rewrite app_nil_l, app_nil_r, <- !app_assoc. by subst ts. }
  by rewrite <- Hcl.
Qed.

(** ** Whole records *)

Lemma reset_record_ok e hm hb hr : field_repr hm (ec_metadata e) → field_repr hb (ec_body e) → field_repr hr (ec_root e) →
  clean hm → clean hb → clean hr →
  step_to e (encoder_reset_record e) (λ e', ∃ gm gb gr,
    e' = set_ec_timestamp (mk_time 0 0) (set_ec_root gr (set_ec_body gb (set_ec_metadata gm e))) ∧
    field_repr ([], []) gm ∧ field_repr ([], []) gb ∧ field_repr ([], []) gr ∧ df_size gr = 0).
Proof.
  intros Hm Hb Hr Cm Cb Cr. unfold encoder_reset_record.
  eapply step_bind; [eapply (step_reset FLB_LOG_EVENT_METADATA e _ hm eq_refl Hm)|]. intros [r1 e1] [_ (gm & He1 & Hgm & _)]. cbn in He1. subst e1.
  eapply step_bind; [eapply (step_reset FLB_LOG_EVENT_BODY (put_field FLB_LOG_EVENT_METADATA gm e) _ hb eq_refl Hb)|].
  intros [r2 e2] [_ (gb & He2 & Hgb & _)]. cbn in He2. subst e2.
  eapply step_bind; [eapply (step_reset FLB_LOG_EVENT_ROOT (put_field FLB_LOG_EVENT_BODY gb (put_field FLB_LOG_EVENT_METADATA gm e)) _ hr eq_refl Hr)|].
  intros [r3 e3] [_ (gr & He3 & Hgr & Hsz)]. cbn in He3. subst e3.
  rewrite !cleared_clean in Hgm, Hgb, Hgr by done. apply calm_ret; [done|]. split; [done|]. exists gm, gb, gr. done.
Qed.

(** What is reset holds nothing but the output. *)
Lemma reset_holds out e e' gm gb gr : sb_ok (ec_buffer e) → sb_content (ec_buffer e) = out →
  ec_output_buffer e = sb_data (ec_buffer e) ∧ ec_output_length e = sb_size (ec_buffer e) →
  ec_initialized e = true ∧ ec_format e = FLB_LOG_EVENT_FORMAT_DEFAULT →
  e' = set_ec_timestamp (mk_time 0 0) (set_ec_root gr (set_ec_body gb (set_ec_metadata gm e))) →
  field_repr ([], []) gm → field_repr ([], []) gb → field_repr ([], []) gr → df_size gr = 0 →
  encoder_repr out ([], []) ([], []) ([], []) e'.
Proof. intros Hb Hc Ho Hl -> Hm Hbd Hr Hsz. by constructor. Qed.

(** An open map without entries *)
Definition open_map : holding := ([], [mk_frame TYPE_MAP 0 []]).

Lemma begin_record_repr out p e : holds_record out p e →
  step_to e (log_encoder_begin_record e) (λ e', encoder_repr out open_map open_map ([], []) e' ∧ ec_timestamp e' = mk_time 0 0).
Proof.
  intros (hm & hb & [Hm Hb Hr Hrs Hbuf Hc Ho Hl] & Cm & Cb & _). unfold log_encoder_begin_record.
  eapply step_bind; [eapply (reset_record_ok e hm hb ([], [])); try done; by left|].
  intros [r e1] [_ (gm & gb & gr & He1 & Hgm & Hgb & Hgr & Hsz)]. cbn in He1.
  eapply step_bind; [apply (step_call float_bits double_bits FLB_LOG_EVENT_METADATA call_begin_map e1 gm ([], []) open_map); [by rewrite He1|done|done]|].
  intros [r2 e2] [_ (gm' & He2 & Hgm')]. cbn in He2.
  eapply step_bind; [apply (step_call float_bits double_bits FLB_LOG_EVENT_BODY call_begin_map e2 gb ([], []) open_map); [by rewrite He2, He1|done|done]|].
  intros [r3 e3] [_ (gb' & He3 & Hgb')]. cbn in He3.
  apply calm_ret; [done|]. split; [done|]. subst e3 e2 e1. split; [by constructor|done].
Qed.

Lemma begin_record_ok out p e : holds_record out p e →
  step_to e (log_encoder_begin_record e) (holds_record out (mk_pending (mk_time 0 0) empty_map_bytes empty_map_bytes)).
Proof.
  intros He. eapply step_weaken; [by eapply begin_record_repr|]. intros e' [Hr Ht]. exists open_map, open_map.
  rewrite Ht. split_and!; [done|by left|by left|done].
Qed.

Lemma set_timestamp_ok now t out p e : holds_record out p e →
  step_to e (mret (log_encoder_set_timestamp now (Some t) e)) (holds_record out (set_pd_time t p)).
Proof.
  intros (hm & hb & [] & Cm & Cb & ->). apply calm_ret; [done|]. split; [done|]. exists hm, hb. split_and!; [by constructor|done..].
Qed.

Lemma set_metadata_ok v out p e : holds_record out p e → zlen v < 2 ^ 64 →
  step_to e (encoder_set_from_raw_msgpack float_bits double_bits FLB_LOG_EVENT_METADATA (Some v) (zlen v) e) (holds_record out (set_pd_metadata v p)).
Proof.
  intros (hm & hb & Hrep & Cm & Cb & ->) Hv. eapply step_weaken; [eapply step_set_raw; [done|by apply Hrep|done|done]|].
  intros e' (g & -> & Hg & _). exists (v, []), hb. split_and!; [by eapply put_repr_metadata|by right|done|].
  unfold closed at 1. cbn. by rewrite app_nil_r.
Qed.

Lemma set_body_ok v out p e : holds_record out p e → zlen v < 2 ^ 64 →
  step_to e (encoder_set_from_raw_msgpack float_bits double_bits FLB_LOG_EVENT_BODY (Some v) (zlen v) e) (holds_record out (set_pd_body v p)).
Proof.
  intros (hm & hb & Hrep & Cm & Cb & ->) Hv. eapply step_weaken; [eapply step_set_raw; [done|by apply Hrep|done|done]|].
  intros e' (g & -> & Hg & _). exists hm, (v, []). split_and!; [by eapply put_repr_body|done|by right|].
  unfold closed at 2. cbn. by rewrite app_nil_r.
Qed.

(** A record that is built goes to the output, and the fields are cleared. *)
Lemma emit_ok out bytes e r : zlen (out ++ bytes) < 2 ^ 64 → bytes ≠ [] →
  sb_ok (ec_buffer e) → sb_content (ec_buffer e) = out → ec_initialized e = true ∧ ec_format e = FLB_LOG_EVENT_FORMAT_DEFAULT →
  (∃ hm hb, field_repr hm (ec_metadata e) ∧ field_repr hb (ec_body e) ∧ clean hm ∧ clean hb) →
  success (field_now FLB_LOG_EVENT_ROOT e (flushed bytes)) r →
  step_to r.2 (r ← on_success (λ e, value ← deref (field_value (ec_root e)); emit_bytes (default [] value) e) r; end_record r)
    (holds_record (out ++ bytes) (mk_pending (mk_time 0 0) [] [])).
Proof.
  intros Hlen Hne Hbuf Hc Hlive (hm & hb & Hm & Hb & Cm & Cb) Hr.
  eapply step_bind with (P := λ e', ∃ g b, e' = set_ec_buffer b (set_ec_root g e) ∧ flushed bytes g ∧ sb_ok b ∧ sb_content b = out ++ bytes).
  - apply (step_on _ _ _ _ Hr). intros e1 (g & -> & Hg). destruct Hg as (Hg & Hd & Hs). cbn [put_field].
    destruct (field_value_flushed _ _ Hg Hd Hs Hne) as [Hv _].
    eapply calm_bind; [by eapply (calm_deref _ _ _ (λ _, encoder_owns (set_ec_root g e)) (λ x, x = Some bytes))|]. intros ? ->. cbn [default].
    unfold emit_bytes. cbn [ec_buffer set_ec_root].
    eapply (calm_perm _ (sb_blocks (ec_buffer e) ++ option_list (ec_block e) ++ field_blocks (ec_metadata e) ++ field_blocks (ec_body e) ++ field_blocks g)).
    { unfold encoder_owns. cbn. solve_Permutation. }
    eapply calm_bind; [apply calm_frame, (calm_write (ec_buffer e) bytes); [done|by rewrite Hc]|]. intros [ret b] (Hret & Hbok & Hbc & _). cbn in Hret, Hbok, Hbc. subst ret.
    apply calm_ret; [unfold encoder_owns; cbn; solve_Permutation|]. split; [done|]. exists g, b. split_and!; [done..|]. by rewrite Hbc, Hc.
  - clear r Hr. intros [r1 e1] [Hr1 (g & b & He1 & (Hg & _) & Hbok & Hbc)]. cbn in Hr1, He1. subst r1. unfold end_record. cbn [fst snd].
    eapply calm_bind; [apply (reset_record_ok (encoder_update_internal_state e1) hm hb (bytes, [])); subst e1; try done; by right|].
    intros [r2 e2] [_ (gm & gb & gr & He2 & Hgm & Hgb & Hgr & Hsz)]. cbn in He2. apply calm_ret; [done|]. split; [done|].
    exists ([], []), ([], []). split_and!; [|by left|by left|by subst e2].
    eapply reset_holds; [| | | |exact He2|done..]; by subst e1.
Qed.

Lemma closed_flushed_repr v g : flushed v g → field_repr (v, []) g. Proof. by intros [? _]. Qed.

Lemma commit_ok out p e : holds_record out p e → pd_metadata p ≠ [] → pd_body p ≠ [] → zlen (out ++ pending_bytes p) < 2 ^ 64 →
  step_to e (log_encoder_commit_record float_bits double_bits e) (holds_record (out ++ pending_bytes p) (mk_pending (mk_time 0 0) [] [])).
Proof.
  intros (hm & hb & [Hm Hb Hr Hrs Hbuf Hc Ho Hl] & Cm & Cb & ->) Hmne Hbne Hlen. cbn [pd_metadata pd_body] in Hmne, Hbne.
  set (record := pending_bytes _) in *. unfold log_encoder_commit_record.
  eapply step_bind; [eapply (step_flush FLB_LOG_EVENT_METADATA e _ hm eq_refl Hm)|]. intros r1 H1.
  eapply step_bind with (P := λ e', ∃ gm gb, e' = set_ec_body gb (set_ec_metadata gm e) ∧ flushed (closed hm) gm ∧ flushed (closed hb) gb).
  { apply (step_on _ _ _ _ H1). intros e1 (gm & -> & Hgm).
    eapply step_weaken; [eapply (step_flush FLB_LOG_EVENT_BODY (put_field FLB_LOG_EVENT_METADATA gm e) _ hb eq_refl Hb)|].
    intros e2 (gb & -> & Hgb). by exists gm, gb. }
  clear r1 H1. intros [r1 e1] [Hr1 (gm & gb & He1 & Hgm & Hgb)]. cbn in Hr1, He1. subst r1. cbn [fst snd].
  rewrite (Z.eqb_refl FLB_EVENT_ENCODER_SUCCESS). unfold encoder_emit_record.
  assert (Hsz : (df_size (ec_root e1) =? 0) = true) by (subst e1; by apply Z.eqb_eq). rewrite Hsz.
  assert (Hrec : zlen record < 2 ^ 64) by (rewrite zlen_app in Hlen; pose proof (zlen_nonneg out); lia).
  eapply step_bind.
  { apply (build_root_ok e1 (ec_timestamp e) (closed hm) (closed hb)); try done; subst e1; try done; by apply Hl || by left. }
  intros r2 H2. apply (emit_ok out record e1 r2); try done; try (by subst e1).
  exists (closed hm, []), (closed hb, []). subst e1. split_and!; [by apply closed_flushed_repr|by apply closed_flushed_repr|by right|by right].
Qed.
End records.

(** ** Creation and destruction *)

Lemma runs_init_encoder format e s (Q : Z * option log_event_encoder → heap → Prop) :
  FLB_LOG_EVENT_FORMAT_FORWARD <= format <= FLB_LOG_EVENT_FORMAT_FLUENT_BIT_V2 →
  Q (FLB_EVENT_ENCODER_SUCCESS, Some (mk_encoder None None 0 true (mk_time 0 0) (mk_field true msgpack_sbuffer_init [] None 0 TYPE_MAP)
      (mk_field true msgpack_sbuffer_init [] None 0 TYPE_MAP) (mk_field true msgpack_sbuffer_init [] None 0 TYPE_ARRAY) msgpack_sbuffer_init format)) s →
  runs (encoder_init format (Some e)) s Q.
Proof.
  intros Hf HQ. unfold encoder_init. rewrite (proj2 (Z.ltb_ge _ _)), (proj2 (Z.ltb_ge _ _)) by lia. cbn [orb].
  do 3 apply runs_bind, runs_init. by apply runs_ret.
Qed.

Lemma runs_destroy_encoder e X s (Q : unit → heap → Prop) : ec_initialized e = true → hp_live s ≡ₚ encoder_owns e ++ X →
  (∀ s', hp_live s' ≡ₚ X → hp_env s' = hp_env s → Q tt s') → runs (log_encoder_destroy (Some e)) s Q.
Proof.
  intros Hi Hl HQ. unfold log_encoder_destroy. rewrite Hi. unfold encoder_owns in Hl. rewrite <- !app_assoc in Hl.
  apply runs_bind. apply runs_bind, (runs_field_destroy _ (option_list (ec_block e) ++ field_blocks (ec_body e) ++ field_blocks (ec_root e) ++ sb_blocks (ec_buffer e) ++ X)).
  { rewrite Hl. solve_Permutation. }
  intros _ s1 Hl1 He1 _. apply runs_bind, (runs_field_destroy _ (option_list (ec_block e) ++ field_blocks (ec_root e) ++ sb_blocks (ec_buffer e) ++ X)).
  { rewrite Hl1. solve_Permutation. }
  intros _ s2 Hl2 He2 _. apply runs_bind, (runs_field_destroy _ (option_list (ec_block e) ++ sb_blocks (ec_buffer e) ++ X)).
  { rewrite Hl2. solve_Permutation. }
  intros _ s3 Hl3 He3 _. apply (runs_free_opt _ (option_list (ec_block e) ++ X)).
  { rewrite Hl3. unfold sb_blocks. solve_Permutation. }
  intros s4 Hl4 He4. apply (runs_free_opt _ X); [done|]. intros s5 Hl5 He5. apply HQ; [done|congruence].
Qed.

Lemma encoder_create_ok format s : FLB_LOG_EVENT_FORMAT_FORWARD <= format <= FLB_LOG_EVENT_FORMAT_FLUENT_BIT_V2 →
  runs (log_encoder_create format) s (λ o s', (calm (hp_env s) → calm (hp_env s')) ∧
    match o with
    | Some e => hp_live s' ≡ₚ encoder_owns e ++ hp_live s ∧ ec_initialized e = true ∧ ec_format e = format ∧
        (format = FLB_LOG_EVENT_FORMAT_DEFAULT → holds_record [] (mk_pending (mk_time 0 0) [] []) e)
    | None => hp_live s' = hp_live s ∧ ¬ calm (hp_env s)
    end).
Proof.
  intros Hf. unfold log_encoder_create. apply runs_bind, runs_alloc; [intros s1 Hl1 Hc1|intros a s1 Hl1 Hc1]; apply runs_bind.
  - apply runs_ret, runs_ret. by split; [tauto|].
  - apply runs_init_encoder; [done|]. cbn [fmap option_fmap option_map negb]. apply runs_ret. split; [done|]. split_and!.
    + unfold encoder_owns. cbn. by rewrite Hl1.
    + done.
    + done.
    + intros ->. exists ([], []), ([], []). split_and!; [|by left|by left|done].
      constructor; cbn; [apply init_repr|apply init_repr|apply init_repr|done|apply sb_init_ok|done|done|done].
Qed.

(** ** The interface *)

Section instance.
Context (float_bits double_bits : double → list Z).

Lemma bounded_on_success (m : log_event_encoder → M heap (Z * log_event_encoder)) r : (∀ e, bounded (m e)) → bounded (on_success m r).
Proof. intros Hm. unfold on_success. solve_bounded. Qed.
Lemma bounded_on_field target_field op e : (∀ f, bounded (op f)) → bounded (on_field target_field op e).
Proof. intros Hop. unfold on_field. solve_bounded. Qed.
Lemma bounded_reset_field target_field e : bounded (encoder_reset_field target_field e).
Proof. apply bounded_on_field, bounded_reset. Qed.
Lemma bounded_flush_field target_field e : bounded (encoder_flush_field target_field e).
Proof. apply bounded_on_field, bounded_flush. Qed.
Lemma bounded_begin_map target_field e : bounded (encoder_begin_map target_field e).
Proof. apply bounded_on_field, bounded_enter. Qed.
Lemma bounded_append_value target_field increment type value length e :
  bounded (encoder_append_value float_bits double_bits target_field increment type value length e).
Proof. unfold encoder_append_value, on_field. solve_bounded. Qed.
#[local] Hint Resolve bounded_on_success bounded_reset_field bounded_flush_field bounded_begin_map bounded_append_value : bounded.

Lemma bounded_set_from_raw target_field value size e :
  bounded (encoder_set_from_raw_msgpack float_bits double_bits target_field value size e).
Proof. unfold encoder_set_from_raw_msgpack, encoder_append_raw_msgpack. solve_bounded. Qed.
Lemma bounded_destroy_encoder e : bounded (log_encoder_destroy (Some e)).
Proof. unfold log_encoder_destroy, dynamic_field_destroy, msgpack_sbuffer_destroy. solve_bounded. Qed.
Lemma bounded_reset_record e : bounded (encoder_reset_record e).
Proof. unfold encoder_reset_record. solve_bounded. Qed.
Lemma bounded_append_timestamp target_field t e : bounded (encoder_append_timestamp float_bits double_bits target_field t e).
Proof.
  unfold encoder_append_timestamp, encoder_append_legacy_timestamp, append_number, encoder_append_fluent_bit_v2_timestamp,
    encoder_append_fluent_bit_v1_timestamp, encoder_append_forward_v1_timestamp, encoder_append_ext, encoder_append_ext_length,
    encoder_append_ext_body.
  solve_bounded.
Qed.
#[local] Hint Resolve bounded_destroy_encoder bounded_reset_record bounded_append_timestamp : bounded.
Lemma bounded_commit e : bounded (log_encoder_commit_record float_bits double_bits e).
Proof.
  unfold log_encoder_commit_record, encoder_emit_record, end_record, emit_bytes, build_root.
  unfold encoder_begin_array, encoder_commit_array, append_field, encoder_append_raw_msgpack, on_field.
  repeat first [progress solve_bounded | apply bounded_on_success].
Qed.

#[global] Instance log_event_encoder_RecordEncoder : RecordEncoder log_event_encoder.
Proof.
  refine {|
    encoder_create := log_encoder_create FLB_LOG_EVENT_FORMAT_DEFAULT;
    encoder_destroy e := log_encoder_destroy (Some e);
    encoder_begin_record := log_encoder_begin_record;
    encoder_set_timestamp t e := mret (log_encoder_set_timestamp (mk_time 0 0) (Some t) e);
    encoder_set_metadata_from_raw_msgpack md := encoder_set_from_raw_msgpack float_bits double_bits FLB_LOG_EVENT_METADATA md (from_option zlen 0 md);
    encoder_set_body_from_raw_msgpack body := encoder_set_from_raw_msgpack float_bits double_bits FLB_LOG_EVENT_BODY body (from_option zlen 0 body);
    encoder_commit_record := log_encoder_commit_record float_bits double_bits;
    RecordEncoder.encoder_claim_internal_buffer_ownership := encoder_claim_internal_buffer_ownership;
    encoder_output_buffer := ec_output_buffer;
    encoder_output := log_encoder_output;
    encoder_blocks := encoder_owns;
    encoder_at := holds_record
  |}.
  - exact output_holds.
  - intros s. eapply runs_weaken; [by apply (encoder_create_ok FLB_LOG_EVENT_FORMAT_DEFAULT)|]. intros [e|] s' [Hc H]; (split; [done|]); [|done].
    destruct H as (Hl & _ & _ & Hh). split; [done|]. eexists. by apply Hh.
  - intros out p e s X (hm & hb & Hrep & _) Hl. apply (runs_destroy_encoder e X); [apply Hrep|done|auto].
  - intros out p e He. by eapply (begin_record_ok float_bits double_bits).
  - intros t out p e He. by apply set_timestamp_ok.
  - intros md out p e He Hmd. by apply set_metadata_ok.
  - intros body out p e He Hb. by apply set_body_ok.
  - intros out p e He Hm Hb Hlen. eapply step_weaken; [by apply commit_ok|]. intros e' He'. by eexists.
  - intros out p e (hm & hb & [_ _ _ _ _ _ [Ho _] [Hi _]] & _). split.
    + unfold encoder_owns, encoder_claim_internal_buffer_ownership. cbn. rewrite Ho, app_nil_r. unfold sb_blocks.
      rewrite (Permutation_app_comm (option_list (sb_data (ec_buffer e)))). by rewrite <- !app_assoc.
    + intros s X Hl. by apply (runs_destroy_encoder _ X); auto.
  - unfold log_encoder_create, encoder_init, dynamic_field_init. solve_bounded.
  - intros e. apply bounded_destroy_encoder.
  - intros e. unfold log_encoder_begin_record, encoder_begin_map. solve_bounded.
  - intros t e. apply bounded_ret.
  - intros md e. apply bounded_set_from_raw.
  - intros body e. apply bounded_set_from_raw.
  - intros e. apply bounded_commit.
Defined.
End instance.

(** ** Objects, call by call *)

Section objects.
Variables float_bits double_bits : double → list Z.

(** The calls that append an object.  There is none for a number in single precision, but as an object. *)
Fixpoint object_calls (o : msgpack_object) : list call :=
  match o with
  | MSGPACK_OBJECT_NIL => [call_value true FLB_LOG_EVENT_NULL_VALUE_TYPE None 0]
  | MSGPACK_OBJECT_BOOLEAN b => [call_value true FLB_LOG_EVENT_BOOLEAN_VALUE_TYPE (Some (arg_int (Z.b2z b))) 0]
  | MSGPACK_OBJECT_POSITIVE_INTEGER u => [call_value true FLB_LOG_EVENT_UINT64_VALUE_TYPE (Some (arg_int u)) 0]
  | MSGPACK_OBJECT_NEGATIVE_INTEGER i => [call_value true FLB_LOG_EVENT_INT64_VALUE_TYPE (Some (arg_int i)) 0]
  | MSGPACK_OBJECT_FLOAT32 _ => [call_value true FLB_LOG_EVENT_MSGPACK_OBJECT_VALUE_TYPE (Some (arg_object o)) 0]
  | MSGPACK_OBJECT_FLOAT64 d => [call_value true FLB_LOG_EVENT_DOUBLE_VALUE_TYPE (Some (arg_double d)) 0]
  | MSGPACK_OBJECT_STR s =>
      [call_value true FLB_LOG_EVENT_STRING_LENGTH_VALUE_TYPE None (zlen s);
       call_value false FLB_LOG_EVENT_STRING_BODY_VALUE_TYPE (Some (arg_bytes s)) (zlen s)]
  | MSGPACK_OBJECT_BIN s =>
      [call_value true FLB_LOG_EVENT_BINARY_LENGTH_VALUE_TYPE None (zlen s);
       call_value false FLB_LOG_EVENT_BINARY_BODY_VALUE_TYPE (Some (arg_bytes s)) (zlen s)]
  | MSGPACK_OBJECT_EXT t s =>
      [call_value true FLB_LOG_EVENT_EXT_LENGTH_VALUE_TYPE (Some (arg_int t)) (zlen s);
       call_value false FLB_LOG_EVENT_EXT_BODY_VALUE_TYPE (Some (arg_bytes s)) (zlen s)]
  | MSGPACK_OBJECT_ARRAY l => call_begin_array :: (l ≫= object_calls) ++ [call_commit_array]
  | MSGPACK_OBJECT_MAP l => call_begin_map :: (l ≫= λ kv, object_calls kv.1 ++ object_calls kv.2) ++ [call_commit_map]
  end.

(** The encoding of an object whose maps and arrays have headers of 32 bits *)
Fixpoint object32 (o : msgpack_object) : list Z :=
  match o with
  | MSGPACK_OBJECT_ARRAY l => header32 TYPE_ARRAY (zlen l) ++ (l ≫= object32)
  | MSGPACK_OBJECT_MAP l => header32 TYPE_MAP (zlen l) ++ (l ≫= λ kv, object32 kv.1 ++ object32 kv.2)
  | _ => concat (object_writes float_bits double_bits o)
  end.

(** Numbers of their types, and as many entries as a header counts *)
Fixpoint sized_object (o : msgpack_object) : bool :=
  match o with
  | MSGPACK_OBJECT_POSITIVE_INTEGER u => (0 <=? u) && (u <? 2 ^ 64)
  | MSGPACK_OBJECT_NEGATIVE_INTEGER i => (- 2 ^ 63 <=? i) && (i <? 0)
  | MSGPACK_OBJECT_EXT t _ => (- 2 ^ 7 <=? t) && (t <? 2 ^ 7)
  | MSGPACK_OBJECT_ARRAY l => (zlen l <? 2 ^ 32) && forallb sized_object l
  | MSGPACK_OBJECT_MAP l => (zlen l <? 2 ^ 32) && forallb (λ kv, sized_object kv.1 && sized_object kv.2) l
  | _ => true
  end.

Abbreviation stack := (stack_calls float_bits double_bits).

Lemma stack_calls_app a b h : stack (a ++ b) h = stack a h ≫= stack b.
Proof.
  revert h. induction a as [|c a IH]; intros h; cbn [app stack_calls]; [done|].
  destruct (stack_call float_bits double_bits c h) as [h'|]; cbn; [apply IH|done].
Qed.

(** One value, or a length and a body *)
Lemma stack_one vt vb len ws h : written_by float_bits double_bits vt vb len = Some ws → has_type vt = true → count_room h →
  zlen (render h.1 h.2 ++ concat ws) < 2 ^ 64 → stack [call_value true vt vb len] h = Some (add 1 (concat ws) h).
Proof. intros. cbn [stack_calls]. rewrite (stack_value _ _ _ _ _ _ ws) by auto. done. Qed.

Lemma stack_two vt vt' vb len s head h : written_by float_bits double_bits vt vb len = Some [head] → has_type vt = true → has_type vt' = true →
  vt' ∈ [FLB_LOG_EVENT_STRING_BODY_VALUE_TYPE; FLB_LOG_EVENT_BINARY_BODY_VALUE_TYPE; FLB_LOG_EVENT_EXT_BODY_VALUE_TYPE; FLB_LOG_EVENT_MSGPACK_RAW_VALUE_TYPE] →
  count_room h → zlen (render h.1 h.2 ++ head ++ s) < 2 ^ 64 →
  stack [call_value true vt vb len; call_value false vt' (Some (arg_bytes s)) (zlen s)] h = Some (add 1 (head ++ s) h).
Proof.
  intros Hw Ht Ht' Hin Hroom Hlen. rewrite !zlen_app in Hlen. pose proof (zlen_nonneg s). cbn [stack_calls].
  rewrite (stack_value _ _ _ _ _ _ [head]); [|done..|cbn [concat]; rewrite app_nil_r, zlen_app; lia]. cbn [mbind option_bind].
  rewrite (stack_value _ _ _ _ _ _ [s]); [|by apply written_bytes|done|done|].
  - cbn [mbind option_bind concat counted]. by rewrite !app_nil_r, add_add.
  - cbn [concat]. rewrite render_add, !app_nil_r, !zlen_app. lia.
Qed.

Definition appends (calls : list call) (bytes : list Z) : Prop :=
  ∀ h, count_room h → zlen (render h.1 h.2 ++ bytes) < 2 ^ 64 → stack calls h = Some (add 1 bytes h).

Lemma leaf_appends o : is_container o = false → sized_object o = true → appends (object_calls o) (object32 o).
Proof.
  intros Hleaf Hsz h Hroom Hlen.
  destruct o as [|b|u|z|d|d|s|s|t s|l|l]; try discriminate Hleaf; cbn [object_calls object32 object_writes packed_bytes sized_object] in *;
    try (apply stack_one; [|done|done|done]); try (cbn [concat] in Hlen |- *; rewrite app_nil_r in Hlen |- *).
  - done.
  - by destruct b.
  - apply andb_true_iff in Hsz as [?%Z.leb_le ?%Z.ltb_lt]. cbn. do 3 f_equal. apply Z.mod_small. lia.
  - apply andb_true_iff in Hsz as [?%Z.leb_le ?%Z.ltb_lt]. cbn. do 3 f_equal. unfold i64. rewrite Z.mod_small; lia.
  - done.
  - done.
  - apply stack_two; try done; set_solver.
  - apply stack_two; try done; set_solver.
  - apply stack_two; try done; [|set_solver]. cbn. do 3 f_equal. apply andb_true_iff in Hsz as [?%Z.leb_le ?%Z.ltb_lt].
    unfold i8. rewrite Z.mod_small; lia.
Qed.

(** Elements one after the other, in the scope of a frame *)
Lemma elements_append {X} (calls : X → list call) (bytes : X → list Z) (l : list X) : Forall (λ x, appends (calls x) (bytes x)) l →
  ∀ base ty n v outer, n + zlen l < 2 ^ 64 → zlen (render base (mk_frame ty n v :: outer) ++ (l ≫= bytes)) < 2 ^ 64 →
  stack (l ≫= calls) (base, mk_frame ty n v :: outer) = Some (base, mk_frame ty (n + zlen l) (v ++ (l ≫= bytes)) :: outer).
Proof.
  induction 1 as [|x l Hx _ IH]; intros base ty n v outer Hn Hlen.
  { cbn. by rewrite Z.add_0_r, app_nil_r. }
  rewrite zlen_cons in Hn. pose proof (zlen_nonneg l). cbn [mbind list_bind] in Hlen |- *. rewrite stack_calls_app.
  rewrite app_assoc, zlen_app in Hlen. match type of Hlen with _ + zlen ?tl < _ => pose proof (zlen_nonneg tl) end.
  rewrite Hx; [|unfold count_room; cbn; lia|cbn [fst snd]; lia]. cbn [mbind option_bind add fr_type fr_count fr_bytes].
  rewrite IH; [|lia|].
  - rewrite zlen_cons, <- app_assoc. do 4 f_equal. lia.
  - rewrite zlen_app. cbn [render fr_type fr_bytes fst snd] in Hlen |- *. rewrite <- !app_assoc in Hlen. rewrite !app_assoc in Hlen |- *. exact Hlen.
Qed.

Lemma scope_appends c1 c2 ty n calls bytes l : ty ≠ TYPE_OTHER →
  (∀ h, count_room h → zlen (render h.1 h.2) + 5 < 2 ^ 64 → stack_call float_bits double_bits c1 h = Some (enter ty h)) →
  (∀ h, h.2 ≠ [] → stack_call float_bits double_bits c2 h = Some (leave h)) →
  (∀ base outer v, zlen (render base (mk_frame ty 0 v :: outer) ++ bytes) < 2 ^ 64 →
     stack calls (base, mk_frame ty 0 v :: outer) = Some (base, mk_frame ty n (v ++ bytes) :: outer)) →
  (match ty with TYPE_MAP => n / 2 | _ => n end) = l →
  appends (c1 :: calls ++ [c2]) (header32 ty l ++ bytes).
Proof.
  intros Hty H1 H2 Hc Hl h Hroom Hlen. rewrite !zlen_app in Hlen. assert (Hh : ∀ m, zlen (header32 ty m) = 5) by (intros m; by destruct ty).
  rewrite Hh in Hlen. pose proof (zlen_nonneg bytes). cbn [stack_calls]. rewrite H1 by (done || lia). cbn [mbind option_bind].
  rewrite stack_calls_app. unfold enter. destruct (add 1 [] h) as [base frames] eqn:Hadd.
  pose proof (render_add 1 [] h) as Hr. rewrite Hadd, app_nil_r in Hr. cbn [fst snd] in Hr.
  rewrite Hc; [|cbn [render fr_type fr_bytes]; rewrite !zlen_app, Hh, Hr; change (zlen (@nil Z)) with 0; lia].
  cbn [mbind option_bind stack_calls]. rewrite H2 by done. cbn [mbind option_bind leave]. f_equal.
  unfold finished. cbn [fr_type fr_count fr_bytes app]. rewrite Hl, <- Hadd, add_add, app_nil_l. done.
Qed.

Definition pair_calls (kv : msgpack_object * msgpack_object) : list call := object_calls kv.1 ++ object_calls kv.2.
Definition pair32 (kv : msgpack_object * msgpack_object) : list Z := object32 kv.1 ++ object32 kv.2.

Lemma pairs_append l : Forall (λ kv, appends (object_calls kv.1) (object32 kv.1) ∧ appends (object_calls kv.2) (object32 kv.2)) l →
  ∀ base ty n v outer, n + 2 * zlen l < 2 ^ 64 → zlen (render base (mk_frame ty n v :: outer) ++ (l ≫= pair32)) < 2 ^ 64 →
  stack (l ≫= pair_calls) (base, mk_frame ty n v :: outer) = Some (base, mk_frame ty (n + 2 * zlen l) (v ++ (l ≫= pair32)) :: outer).
Proof.
  intros Hl. set (flat := l ≫= λ kv, [kv.1; kv.2]).
  assert (Hcalls : l ≫= pair_calls = flat ≫= object_calls).
  { subst flat. clear. induction l as [|[k x] l IHl]; [done|]. cbn. unfold pair_calls at 1. rewrite <- app_assoc. do 2 f_equal. exact IHl. }
  assert (Hbytes : l ≫= pair32 = flat ≫= object32).
  { subst flat. clear. induction l as [|[k x] l IHl]; [done|]. cbn. unfold pair32 at 1. rewrite <- app_assoc. do 2 f_equal. exact IHl. }
  assert (Hflat : zlen flat = 2 * zlen l).
  { subst flat. clear. induction l as [|[k x] l IHl]; [done|]. rewrite bind_cons, zlen_app, IHl, !zlen_cons. change (zlen []) with 0. lia. }
  rewrite Hcalls, Hbytes, <- Hflat. apply elements_append. subst flat. apply Forall_forall.
  intros x Hx. apply list_elem_of_bind in Hx as ([k y] & Hx & Hin). rewrite Forall_forall in Hl. destruct (Hl _ Hin) as [Hk Hy].
  cbn in Hx. apply elem_of_cons in Hx as [->|Hx]; [done|]. by apply list_elem_of_singleton in Hx as ->.
Qed.

Lemma object_appends o : sized_object o = true → appends (object_calls o) (object32 o).
Proof.
  induction o as [o Hleaf|l IH|l IH] using msgpack_object_nested_ind; intros Hsz; [by apply leaf_appends| |];
    cbn [sized_object] in Hsz; apply andb_true_iff in Hsz as [Hlen%Z.ltb_lt Hall].
  - eapply (scope_appends _ _ TYPE_ARRAY (zlen l)); [done| |by intros [? []]| |done].
    + intros h Hroom Hr. cbn. rewrite bool_decide_eq_true_2 by done. by rewrite (proj2 (Z.ltb_lt _ _)) by done.
    + intros base outer v Hv. apply (elements_append object_calls object32); [|lia|done].
      rewrite Forall_forall in IH |- *. intros x Hx. apply IH; [done|]. by eapply forallb_forall, list_elem_of_In.
  - eapply (scope_appends _ _ TYPE_MAP (2 * zlen l)); [done| |by intros [? []]| |].
    + intros h Hroom Hr. cbn. rewrite bool_decide_eq_true_2 by done. by rewrite (proj2 (Z.ltb_lt _ _)) by done.
    + intros base outer v Hv. apply pairs_append; [|lia|done]. rewrite Forall_forall in IH |- *. intros kv Hkv. destruct (IH _ Hkv) as [Hk Hx].
      assert (Hs : sized_object kv.1 && sized_object kv.2 = true) by (by eapply (proj1 (forallb_forall _ _) Hall), list_elem_of_In).
      apply andb_true_iff in Hs as [??]. auto.
    + rewrite Z.mul_comm. by apply Z.div_mul.
Qed.

(** The entries of a map, in a map that was entered *)
Lemma map_entries l : sized_object (MSGPACK_OBJECT_MAP l) = true → zlen (object32 (MSGPACK_OBJECT_MAP l)) < 2 ^ 64 →
  ∃ h, stack (l ≫= pair_calls) ([], [mk_frame TYPE_MAP 0 []]) = Some h ∧ h.1 = [] ∧ closed h = object32 (MSGPACK_OBJECT_MAP l).
Proof.
  intros Hsz Hbytes. cbn [sized_object] in Hsz. apply andb_true_iff in Hsz as [Hlen%Z.ltb_lt Hall].
  eexists. split; [apply pairs_append; [|lia|exact Hbytes]|].
  - apply Forall_forall. intros kv Hkv.
    assert (Hs : sized_object kv.1 && sized_object kv.2 = true) by (by eapply (proj1 (forallb_forall _ _) Hall), list_elem_of_In).
    apply andb_true_iff in Hs as [??]. split; by apply object_appends.
  - split; [done|]. unfold closed. cbn [fst snd close fr_type fr_count fr_bytes]. unfold finished. cbn [fr_type fr_count fr_bytes].
    rewrite Z.add_0_l, Z.mul_comm, Z.div_mul by done.
    cbn [app]. by rewrite app_nil_r.
Qed.
End objects.

(** ** What clients write *)

Section clients.
Variables float_bits double_bits : double → list Z.

(** A client that appends to the maps of a new record, call by call *)
Definition write_record (t : flb_time) (metadata body : list call) (e : log_event_encoder) : M heap (Z * log_event_encoder) :=
  r ← log_encoder_begin_record e;
  r ← on_success (run_calls float_bits double_bits FLB_LOG_EVENT_METADATA metadata) r;
  r ← on_success (run_calls float_bits double_bits FLB_LOG_EVENT_BODY body) r;
  r ← on_success (λ e, mret (log_encoder_set_timestamp t (Some t) e)) r;
  on_success (log_encoder_commit_record float_bits double_bits) r.

Lemma write_record_ok t metadata body hm hb out p e : holds_record out p e →
  stack_calls float_bits double_bits metadata open_map = Some hm → stack_calls float_bits double_bits body open_map = Some hb →
  clean hm → clean hb → closed hm ≠ [] → closed hb ≠ [] → zlen (out ++ record_bytes t (closed hm) (closed hb)) < 2 ^ 64 →
  step_to e (write_record t metadata body e) (holds_record (out ++ record_bytes t (closed hm) (closed hb)) (mk_pending (mk_time 0 0) [] [])).
Proof.
  intros He Hmd Hb Cm Cb Hmne Hbne Hlen. eapply step_bind; [by eapply begin_record_repr|]. intros r1 H1.
  eapply step_bind with (P := λ e', encoder_repr out hm open_map ([], []) e').
  { apply (step_on _ _ _ _ H1). intros e1 [Hr1 _]. eapply calm_weaken; [by eapply (run_calls_ok _ _ _ _ e1 _ open_map hm); [|apply Hr1|]|].
    intros r (g & Hg & Hs & Hrep). split; [done|]. split; [done|]. rewrite Hg. by eapply put_repr_metadata. }
  clear r1 H1. intros r1 H1. eapply step_bind with (P := λ e', encoder_repr out hm hb ([], []) e').
  { apply (step_on _ _ _ _ H1). intros e1 Hr1. eapply calm_weaken; [by eapply (run_calls_ok _ _ _ _ e1 _ open_map hb); [|apply Hr1|]|].
    intros r (g & Hg & Hs & Hrep). split; [done|]. split; [done|]. rewrite Hg. by eapply put_repr_body. }
  clear r1 H1. intros r1 H1. eapply step_bind with (P := holds_record out (mk_pending t (closed hm) (closed hb))).
  { apply (step_on _ _ _ _ H1). intros e1 Hr1. eapply (set_timestamp_ok t t out (mk_pending (ec_timestamp e1) (closed hm) (closed hb))).
    by exists hm, hb. }
  clear r1 H1. intros r1 H1. apply (step_on _ _ _ _ H1). intros e1 He1. by apply (commit_ok float_bits double_bits out (mk_pending t (closed hm) (closed hb))).
Qed.

(** C26. An encoder is two stacks.  While no allocation fails, let a client make calls on the maps of a new record - values
    of any type in pieces, nested maps and arrays, scopes left open or rolled back - that the stacks of lists of elements
    they stand for allow: values have known types, sizes and counts fit, a scope that is left was entered, and in the end
    no element stands outside of the scopes that are still open.  Then every call succeeds, and committing appends to the
    output exactly one record: the timestamp and what the stacks hold once everything is closed.  All memory is accounted
    for, and the encoder is ready for the next record. *)
Theorem record_refines_stacks t metadata body hm hb out p e : holds_record out p e →
  stack_calls float_bits double_bits metadata open_map = Some hm → stack_calls float_bits double_bits body open_map = Some hb →
  clean hm → clean hb → closed hm ≠ [] → closed hb ≠ [] → zlen (out ++ record_bytes t (closed hm) (closed hb)) < 2 ^ 64 →
  calm_run (encoder_owns e) (write_record t metadata body e) (λ r, encoder_owns r.2) (λ r,
    r.1 = FLB_EVENT_ENCODER_SUCCESS ∧
    log_encoder_output r.2 = Some (out ++ record_bytes t (closed hm) (closed hb)) ∧
    holds_record (out ++ record_bytes t (closed hm) (closed hb)) (mk_pending (mk_time 0 0) [] []) r.2).
Proof.
  intros. eapply calm_weaken; [by eapply write_record_ok|]. intros r [Hr Hh]. split; [done|]. split_and!; [done| |done].
  by eapply output_holds.
Qed.

(** Maps that a client walks, appending every key and value with the call for its type, entering and
    leaving a scope for every map and array inside, come out as their MessagePack encoding, with headers of
    32 bits that have the right sizes: the record that is committed holds exactly the two objects. *)
Theorem walked_maps_encoded t metadata body out p e : holds_record out p e →
  let md := MSGPACK_OBJECT_MAP metadata in
  let bd := MSGPACK_OBJECT_MAP body in
  let record := record_bytes t (object32 float_bits double_bits md) (object32 float_bits double_bits bd) in
  sized_object md = true → sized_object bd = true → zlen (out ++ record) < 2 ^ 64 →
  calm_run (encoder_owns e) (write_record t (metadata ≫= pair_calls) (body ≫= pair_calls) e) (λ r, encoder_owns r.2) (λ r,
    r.1 = FLB_EVENT_ENCODER_SUCCESS ∧ log_encoder_output r.2 = Some (out ++ record)).
Proof.
  intros He md bd record Hmd Hbd Hlen.
  assert (Hl : zlen (object32 float_bits double_bits md) < 2 ^ 64 ∧ zlen (object32 float_bits double_bits bd) < 2 ^ 64).
  { subst record. unfold record_bytes in Hlen. rewrite !zlen_app in Hlen.
    repeat match type of Hlen with context [zlen ?l] => lazymatch goal with H : 0 <= zlen l |- _ => fail | _ => pose proof (zlen_nonneg l) end end. lia. }
  destruct (map_entries float_bits double_bits metadata Hmd (proj1 Hl)) as (hm & Hm & Hmb & Hmc).
  destruct (map_entries float_bits double_bits body Hbd (proj2 Hl)) as (hb & Hb & Hbb & Hbc).
  eapply calm_weaken; [eapply (write_record_ok t _ _ hm hb out p e He Hm Hb); [by left|by left|..]|].
  1-3: rewrite ?Hmc, ?Hbc; done.
  intros r [Hr Hh]. rewrite Hmc, Hbc in Hh. split; [done|]. split; [done|]. by eapply output_holds.
Qed.
End clients.

(** ** What the calls do not do *)

Section limits.
Variables float_bits double_bits : double → list Z.

(** A map that is rolled back has been counted, and an array that is rolled back stays. *)
Lemma rollbacks base frames : count_room (base, frames) → zlen (render base frames) + 5 < 2 ^ 64 →
  stack_calls float_bits double_bits [call_begin_map; call_rollback_map] (base, frames) = Some (add 1 [] (base, frames)) ∧
  stack_calls float_bits double_bits [call_begin_array; call_rollback_array] (base, frames) =
    stack_calls float_bits double_bits [call_begin_array; call_commit_array] (base, frames).
Proof.
  intros Hroom Hlen. cbn [stack_calls stack_call mbind option_bind]. cbn [fst snd].
  rewrite bool_decide_eq_true_2, (proj2 (Z.ltb_lt _ _)) by done. cbn [andb]. split; [|done]. unfold enter. by destruct frames.
Qed.

(** Values after the 64th are not appended, and nobody is told. *)
Lemma values_after_limit t arguments more e s : length arguments = FLB_EVENT_ENCODER_VALUE_LIMIT →
  encoder_append_values_unsafe float_bits double_bits t (arguments ++ more) e s = encoder_append_values_unsafe float_bits double_bits t arguments e s.
Proof.
  unfold encoder_append_values_unsafe. intros <-. revert e s. induction arguments as [|a l IH]; intros e s; cbn [length app append_varargs].
  { by destruct more. }
  unfold mbind, M_bind. destruct (append_vararg _ _ t a e s) as [[r s']|]; [|done]. unfold on_success.
  destruct (r.1 =? FLB_EVENT_ENCODER_SUCCESS); [apply IH|done].
Qed.
End limits.

(** ** A session *)

Definition ex_field (type : object_type) : dynamic_field := mk_field true msgpack_sbuffer_init [] None 0 type.
Definition ex_encoder : log_event_encoder :=
  mk_encoder None None 0 true (mk_time 0 0) (ex_field TYPE_MAP) (ex_field TYPE_MAP) (ex_field TYPE_ARRAY) msgpack_sbuffer_init FLB_LOG_EVENT_FORMAT_DEFAULT.
Definition no_bits (d : double) : list Z := [].

Lemma ex_encoder_holds : holds_record [] (mk_pending (mk_time 0 0) [] []) ex_encoder.
Proof. exists ([], []), ([], []). split_and!; [constructor; cbn; try apply init_repr; try apply sb_init_ok; done|by left|by left|done]. Qed.

(** No memory for the output: the record is lost, but the group ends without an error. *)
Lemma group_end_hides_failure :
  match encoder_group_end no_bits no_bits ex_encoder (mk_heap (mk_env [true; true; true; true; true; true; true; false] [] [] 0 1 []) []) with
  | Some ((ret, e), _) => ret = 0 ∧ log_encoder_output e = Some []
  | None => False
  end.
Proof. by vm_compute. Qed.

(** No memory for the header of a map: entering it succeeds all the same, and the commit writes through NULL. *)
Lemma lost_header_written :
  match log_encoder_begin_record ex_encoder (mk_heap (mk_env [true; false] [] [] 0 1 []) []) with
  | Some ((ret, e), s) => ret = FLB_EVENT_ENCODER_SUCCESS ∧ log_encoder_commit_record no_bits no_bits e s = None
  | None => False
  end.
Proof. by vm_compute. Qed.

Definition ex_time : flb_time := mk_time 7 9.
Definition ex_pairs : list (msgpack_object * msgpack_object) :=
  [(MSGPACK_OBJECT_STR [107], MSGPACK_OBJECT_ARRAY [MSGPACK_OBJECT_POSITIVE_INTEGER 300; MSGPACK_OBJECT_MAP [(MSGPACK_OBJECT_NIL, MSGPACK_OBJECT_BOOLEAN true)]])].
(** A key and an array that is not closed, after a map that is rolled back *)
Definition ex_body_calls : list call :=
  object_calls (MSGPACK_OBJECT_STR [107]) ++ [call_begin_array; call_begin_map; call_rollback_map; call_value true FLB_LOG_EVENT_NULL_VALUE_TYPE None 0].
Definition ex_body : holding := default open_map (stack_calls no_bits no_bits ex_body_calls open_map).

Lemma record_refines_stacks_witness :
  closed ex_body = [0xdf; 0; 0; 0; 1; 0xa1; 107; 0xdd; 0; 0; 0; 2; 0xc0] ∧
  calm_run (encoder_owns ex_encoder) (write_record no_bits no_bits ex_time [] ex_body_calls ex_encoder) (λ r, encoder_owns r.2) (λ r,
    r.1 = FLB_EVENT_ENCODER_SUCCESS ∧
    log_encoder_output r.2 = Some ([] ++ record_bytes ex_time (closed open_map) (closed ex_body)) ∧
    holds_record ([] ++ record_bytes ex_time (closed open_map) (closed ex_body)) (mk_pending (mk_time 0 0) [] []) r.2).
Proof.
  split; [by vm_compute|].
  apply (record_refines_stacks no_bits no_bits ex_time [] ex_body_calls open_map ex_body [] _ ex_encoder ex_encoder_holds);
    [by vm_compute|by vm_compute|by left|by left|by vm_compute|by vm_compute|by vm_compute].
Defined.

Lemma walked_maps_encoded_witness :
  calm_run (encoder_owns ex_encoder) (write_record no_bits no_bits ex_time ([] ≫= pair_calls) (ex_pairs ≫= pair_calls) ex_encoder) (λ r, encoder_owns r.2)
    (λ r, r.1 = FLB_EVENT_ENCODER_SUCCESS ∧ log_encoder_output r.2 = Some ([] ++ record_bytes ex_time
       (object32 no_bits no_bits (MSGPACK_OBJECT_MAP [])) (object32 no_bits no_bits (MSGPACK_OBJECT_MAP ex_pairs)))).
Proof. apply (walked_maps_encoded no_bits no_bits ex_time [] ex_pairs [] _ ex_encoder ex_encoder_holds); by vm_compute. Defined.
