(* ===== verification/RouteCondition.v ===== *)
(** * Conditions of routes ([src/flb_router_condition.c])

    The rules of a route come from the configuration as text.  They are compiled once, when the condition is
    first needed, and then looked at for every chunk, whose records are read into a context that routes of
    the chunk share, or record by record.  Encoders are those of the interface [RecordEncoder]. *)
From stdpp Require Import strings.
From S2P Require Import Prelude CStd Env Heap MsgPack CflAccessor LogDecoder Packer LogEncoder RecordEncoder Conditions MpChunk.

(** ** Data *)

Definition FLB_ROUTE_CONDITION_COMPILED_SUCCESS : Z := 1.
Definition FLB_ROUTE_CONDITION_COMPILED_FAILURE : Z := -1.
Definition FLB_EVENT_TYPE_LOGS : Z := 0.
Definition FLB_EVENT_TYPE_METRICS : Z := 1.
Definition FLB_EVENT_TYPE_TRACES : Z := 2.
Definition FLB_ROUTER_SIGNAL_LOGS : Z := 1.
Definition FLB_ROUTER_SIGNAL_METRICS : Z := 2.
Definition FLB_ROUTER_SIGNAL_TRACES : Z := 4.
Definition FLB_ROUTER_SIGNAL_ANY : Z := 7.

Record flb_route_condition_rule := mk_route_rule {
  rr_field : option (list Z); rr_op : option (list Z); rr_value : option (list Z);
  rr_values : option (list (option (list Z))); rr_values_count : Z; rr_context : record_context_type
}.

(** What is read of an event chunk *)
Record flb_event_chunk := mk_event_chunk { evk_type : Z; evk_data : option (list Z) }.

Section data.
Context {regex E : Type}.

Record flb_route_condition := mk_route_condition {
  rc_rules : list flb_route_condition_rule; rc_is_default : bool; rc_op : flb_condition_operator;
  rc_compiled : option (@flb_condition regex); rc_compiled_status : Z
}.
Definition set_rc_compiled (x : option (@flb_condition regex)) (status : Z) (c : flb_route_condition) : flb_route_condition :=
  mk_route_condition (rc_rules c) (rc_is_default c) (rc_op c) x status.

Record flb_route := mk_route {
  rt_name : list Z; rt_signals : Z; rt_condition : option flb_route_condition; rt_per_record_routing : bool
}.
Definition set_rt_condition (x : option flb_route_condition) (r : flb_route) : flb_route :=
  mk_route (rt_name r) (rt_signals r) x (rt_per_record_routing r).

(** The records of the chunk that is being routed, the encoder, and the decoder with its block *)
Record flb_router_chunk_context := mk_context {
  rx_chunk_cobj : option (@flb_mp_chunk_cobj regex); rx_log_encoder : option E;
  rx_log_decoder : option (nat * flb_log_event_decoder)
}.
End data.
Arguments flb_route_condition : clear implicits.
Arguments flb_route : clear implicits.
Arguments flb_router_chunk_context : clear implicits.

(** ** Parts of a record *)

Definition get_body_variant (record : flb_mp_chunk_record) : M log_state (option cfl_variant) :=
  match mr_cobj_record record with Some o => variant_of o | None => mret None end.

Definition kvlist_at (source : option cfl_variant) (key : list Z) : option cfl_variant :=
  match source with
  | Some (CFL_VARIANT_KVLIST l) =>
      match cfl_kvlist_fetch l key with
      | Some (CFL_VARIANT_KVLIST l') => Some (CFL_VARIANT_KVLIST l')
      | _ => None
      end
  | _ => None
  end.

Definition get_otel_container_variant (record : flb_mp_chunk_record) (key : list Z) (use_group_attributes : bool)
    : M log_state (option cfl_variant) :=
  group ← (if use_group_attributes then get_object_variant (mr_cobj_group_attributes record) else mret None);
  source ← match group with Some v => mret (Some v) | None => get_body_variant record end;
  mret (kvlist_at source key).

Definition get_otel_attributes_variant (record : flb_mp_chunk_record) (context_type : record_context_type)
    : M log_state (option cfl_variant) :=
  match (match context_type with
         | RECORD_CONTEXT_OTEL_RESOURCE_ATTRIBUTES => Some (text "resource")
         | RECORD_CONTEXT_OTEL_SCOPE_ATTRIBUTES => Some (text "scope")
         | _ => None
         end) with
  | None => mret None
  | Some container_key =>
      container ← get_otel_container_variant record container_key true;
      mret (kvlist_at container (text "attributes"))
  end.

Definition get_otel_scope_metadata_variant (record : flb_mp_chunk_record) : M log_state (option cfl_variant) :=
  get_otel_container_variant record (text "scope") true.

Definition route_logs_get_variant {regex} (record : flb_mp_chunk_record) (rule : @flb_condition_rule regex)
    : M log_state (option cfl_variant) :=
  match cr_context rule with
  | RECORD_CONTEXT_METADATA => get_object_variant (mr_cobj_metadata record)
  | RECORD_CONTEXT_BODY => get_body_variant record
  | RECORD_CONTEXT_GROUP_METADATA => get_object_variant (mr_cobj_group_metadata record)
  | RECORD_CONTEXT_GROUP_ATTRIBUTES => get_object_variant (mr_cobj_group_attributes record)
  | RECORD_CONTEXT_OTEL_RESOURCE_ATTRIBUTES => get_otel_attributes_variant record RECORD_CONTEXT_OTEL_RESOURCE_ATTRIBUTES
  | RECORD_CONTEXT_OTEL_SCOPE_ATTRIBUTES => get_otel_attributes_variant record RECORD_CONTEXT_OTEL_SCOPE_ATTRIBUTES
  | RECORD_CONTEXT_OTEL_SCOPE_METADATA => get_otel_scope_metadata_variant record
  end.

(** ** Compilation *)

Definition parse_rule_operator (op_str : list Z) : option flb_rule_operator :=
  if strcasecmp_eq op_str (text "eq") then Some FLB_RULE_OP_EQ
  else if strcasecmp_eq op_str (text "neq") then Some FLB_RULE_OP_NEQ
  else if strcasecmp_eq op_str (text "gt") then Some FLB_RULE_OP_GT
  else if strcasecmp_eq op_str (text "lt") then Some FLB_RULE_OP_LT
  else if strcasecmp_eq op_str (text "gte") then Some FLB_RULE_OP_GTE
  else if strcasecmp_eq op_str (text "lte") then Some FLB_RULE_OP_LTE
  else if strcasecmp_eq op_str (text "regex") then Some FLB_RULE_OP_REGEX
  else if strcasecmp_eq op_str (text "not_regex") then Some FLB_RULE_OP_NOT_REGEX
  else if strcasecmp_eq op_str (text "in") then Some FLB_RULE_OP_IN
  else if strcasecmp_eq op_str (text "not_in") then Some FLB_RULE_OP_NOT_IN
  else None.

(** All of the text is a number. *)
Definition parse_numeric_value (value : list Z) : option double :=
  let '(result, rest, erange) := strtod value in
  if erange || bool_decide (length rest = length value) || negb (bool_decide (until_nul rest = [])) then None
  else Some result.

(** The value of a rule, with its count *)
Definition rule_argument (rule : flb_route_condition_rule) (op : flb_rule_operator) : option (value_arg * Z) :=
  match op with
  | FLB_RULE_OP_EQ | FLB_RULE_OP_NEQ | FLB_RULE_OP_REGEX | FLB_RULE_OP_NOT_REGEX =>
      v ← rr_value rule; Some (ARG_STR v, 1)
  | FLB_RULE_OP_GT | FLB_RULE_OP_LT | FLB_RULE_OP_GTE | FLB_RULE_OP_LTE =>
      v ← rr_value rule; numeric_value ← parse_numeric_value v; Some (ARG_NUM numeric_value, 1)
  | FLB_RULE_OP_IN | FLB_RULE_OP_NOT_IN =>
      vs ← rr_values rule; if rr_values_count rule =? 0 then None else Some (ARG_STRS vs, i32 (rr_values_count rule))
  end.

Section conditions.
Context {regex : Type}.
Variable cfl_ra_create : list Z → option flb_cfl_record_accessor.
Variable regex_create : list Z → option regex.
Variable regex_match : regex → list Z → Z.
Variable msgpack_unpack_next : list Z → Z → unpacked * Z.
Context {E : Type} `{RecordEncoder E}.
Abbreviation condition := (@flb_condition regex).
Abbreviation route_condition := (flb_route_condition regex).
Abbreviation route := (flb_route regex).
Abbreviation chunk_context := (flb_router_chunk_context regex E).

Fixpoint compile_rules (rules : list flb_route_condition_rule) (compiled : condition) : M heap (option condition) :=
  match rules with
  | [] => mret (Some compiled)
  | rule :: rules' =>
      let fail c := flb_condition_destroy (Some c) ≫= λ _, mret None in
      match rr_field rule, rr_op rule with
      | Some field, Some op_str =>
          match parse_rule_operator op_str with
          | None => fail compiled
          | Some op =>
              match rule_argument rule op with
              | None => fail compiled
              | Some (value, count) =>
                  '(ret, compiled) ←
                    flb_condition_add_rule cfl_ra_create regex_create compiled (Some field) op (Some value) count (rr_context rule);
                  if (ret : bool) then compile_rules rules' compiled else fail compiled
              end
          end
      | _, _ => fail compiled
      end
  end.
Definition route_condition_compile (c : route_condition) : M heap (option condition) :=
  compiled ← flb_condition_create (rc_op c);
  match compiled with
  | None => mret None
  | Some compiled => compile_rules (rc_rules c) compiled
  end.

(** A failure is remembered as well as a result. *)
Definition route_condition_get_compiled (c : route_condition) : M heap (option condition * route_condition) :=
  if rc_compiled_status c =? FLB_ROUTE_CONDITION_COMPILED_FAILURE then mret (None, c)
  else
    let compile :=
      compiled ← route_condition_compile c;
      match compiled with
      | None => mret (None, set_rc_compiled None FLB_ROUTE_CONDITION_COMPILED_FAILURE c)
      | Some cd => mret (Some cd, set_rc_compiled (Some cd) FLB_ROUTE_CONDITION_COMPILED_SUCCESS c)
      end in
    if rc_compiled_status c =? FLB_ROUTE_CONDITION_COMPILED_SUCCESS then
      match rc_compiled c with Some cd => mret (Some cd, c) | None => compile end
    else compile.

(** ** The context of a chunk *)

Definition flb_router_chunk_context_init : chunk_context := mk_context None None None.

Definition flb_router_chunk_context_reset (context : chunk_context) : M log_state chunk_context :=
  match rx_chunk_cobj context with Some c => flb_mp_chunk_cobj_destroy (Some c) ≫= λ _, mret tt | None => mret tt end ≫= λ _,
  match rx_log_decoder context with Some d => on_heap (flb_log_event_decoder_destroy d.1) | None => mret tt end ≫= λ _,
  match rx_log_encoder context with Some e => on_heap (encoder_destroy e) | None => mret tt end ≫= λ _,
  mret flb_router_chunk_context_init.
Definition flb_router_chunk_context_destroy (context : chunk_context) : M log_state chunk_context :=
  flb_router_chunk_context_reset context.

(** The decoder is kept in the chunk that reads with it. *)
Definition flb_router_chunk_context_prepare_logs (context : chunk_context) (chunk : flb_event_chunk) : M log_state (Z * chunk_context) :=
  if negb (evk_type chunk =? FLB_EVENT_TYPE_LOGS) then mret (0, context)
  else
    match rx_chunk_cobj context, evk_data chunk with
    | Some _, _ => mret (0, context)
    | None, (None | Some []) => mret (-1, context)
    | None, Some data =>
        encoder ← match rx_log_encoder context with Some e => mret (Some e) | None => on_heap encoder_create end;
        match encoder with
        | None => mret (-1, context)
        | Some e =>
            let context := mk_context None (Some e) (rx_log_decoder context) in
            let fail context := context ← flb_router_chunk_context_reset context; mret (-1, context) in
            decoder ← match rx_log_decoder context with
                      | Some d => mret (Some d)
                      | None => d ← on_heap (flb_log_event_decoder_create []);
                                mret ((λ d : nat * flb_log_event_decoder, (d.1, (flb_log_event_decoder_read_groups d.2 1).2)) <$> d)
                      end;
            match decoder with
            | None => fail context
            | Some d =>
                let d := (d.1, flb_log_event_decoder_reset d.2 data) in
                let context := mk_context None (Some e) (Some d) in
                cobj ← flb_mp_chunk_cobj_create d.2;
                match cobj with
                | None => fail context
                | Some cobj =>
                    '(ret, cobj) ← read_all regex_match msgpack_unpack_next cobj;
                    if negb (ret =? FLB_MP_CHUNK_RECORD_EOF) then fail (mk_context (Some cobj) (Some e) (Some d))
                    else mret (0, mk_context (Some (set_cc_condition None (set_cc_record_pos None cobj))) (Some e) (Some d))
                end
            end
        end
    end.

(** ** Evaluation *)

Definition flb_router_signal_from_chunk (chunk : option flb_event_chunk) : Z :=
  match chunk with
  | None => 0
  | Some chunk =>
      if evk_type chunk =? FLB_EVENT_TYPE_LOGS then FLB_ROUTER_SIGNAL_LOGS
      else if evk_type chunk =? FLB_EVENT_TYPE_METRICS then FLB_ROUTER_SIGNAL_METRICS
      else if evk_type chunk =? FLB_EVENT_TYPE_TRACES then FLB_ROUTER_SIGNAL_TRACES
      else 0
  end.

Fixpoint any_record (compiled : condition) (records : list flb_mp_chunk_record) : M log_state bool :=
  match records with
  | [] => mret false
  | record :: records' =>
      b ← flb_condition_evaluate_ex regex_match (route_logs_get_variant record) (Some compiled);
      if (b : bool) then mret true else any_record compiled records'
  end.

(** The condition compiles in place. *)
Definition flb_condition_eval_logs (chunk : option flb_event_chunk) (context : option chunk_context) (r : route)
    : M log_state (bool * option chunk_context * route) :=
  match chunk, context, rt_condition r with
  | Some chunk, Some context, Some c =>
      '(compiled, c) ← on_heap (route_condition_get_compiled c);
      let r := set_rt_condition (Some c) r in
      match compiled with
      | None => mret (false, Some context, r)
      | Some compiled =>
          '(ret, context) ← flb_router_chunk_context_prepare_logs context chunk;
          if negb (ret =? 0) then mret (false, Some context, r)
          else
            match rx_chunk_cobj context with
            | None => mret (false, Some context, r)
            | Some cobj => result ← any_record compiled (cc_records cobj); mret (result, Some context, r)
            end
      end
  | _, _, _ => mret (false, context, r)
  end.

(** Conditions on metrics and traces are never met. *)
Definition flb_condition_eval_metrics (chunk : option flb_event_chunk) (context : option chunk_context) (r : route) : bool := false.
Definition flb_condition_eval_traces (chunk : option flb_event_chunk) (context : option chunk_context) (r : route) : bool := false.

Definition flb_route_condition_eval (chunk : option flb_event_chunk) (context : option chunk_context) (r : route)
    : M log_state (bool * option chunk_context * route) :=
  match rt_condition r with
  | None => mret (true, context, r)
  | Some c =>
      let signal := flb_router_signal_from_chunk chunk in
      if signal =? 0 then mret (false, context, r)
      else if negb (rt_signals r =? 0) && negb (rt_signals r =? FLB_ROUTER_SIGNAL_ANY) && (Z.land (rt_signals r) signal =? 0)
      then mret (false, context, r)
      else if rc_is_default c then mret (true, context, r)
      else if signal =? FLB_ROUTER_SIGNAL_LOGS then flb_condition_eval_logs chunk context r
      else if signal =? FLB_ROUTER_SIGNAL_METRICS then mret (flb_condition_eval_metrics chunk context r, context, r)
      else if signal =? FLB_ROUTER_SIGNAL_TRACES then mret (flb_condition_eval_traces chunk context r, context, r)
      else mret (false, context, r)
  end.

(** The route of a path; a path without one is always taken. *)
Definition flb_router_path_should_route (chunk : option flb_event_chunk) (context : option chunk_context) (path : option route)
    : M log_state (bool * option chunk_context * option route) :=
  match path with
  | None => mret (true, context, None)
  | Some r =>
      let eval context := '(b, context, r) ← flb_route_condition_eval chunk context r; mret (b, context, Some r) in
      match chunk with
      | Some ck =>
          if evk_type ck =? FLB_EVENT_TYPE_LOGS then
            match context with
            | None => mret (false, None, Some r)
            | Some cx =>
                '(ret, cx) ← flb_router_chunk_context_prepare_logs cx ck;
                if negb (ret =? 0) then mret (false, Some cx, Some r) else eval (Some cx)
            end
          else eval context
      | None => eval context
      end
  end.

Definition flb_router_route_get_condition (r : route) : M heap (option condition * route) :=
  match rt_condition r with
  | None => mret (None, r)
  | Some c => '(compiled, c) ← route_condition_get_compiled c; mret (compiled, set_rt_condition (Some c) r)
  end.

Definition flb_router_condition_evaluate_record (r : route) (record : flb_mp_chunk_record) : M log_state (bool * route) :=
  match rt_condition r with
  | None => mret (true, r)
  | Some c =>
      '(compiled, r) ← on_heap (flb_router_route_get_condition r);
      match compiled with
      | None => mret (rc_is_default c, r)
      | Some compiled =>
          b ← flb_condition_evaluate_ex regex_match (route_logs_get_variant record) (Some compiled); mret (b, r)
      end
  end.

(** ** Compilation is exact

    What the rules of the configuration mean, without blocks; [None] when one is refused. *)
Definition spec_route_rule (rule : flb_route_condition_rule) : option (@spec_rule regex) :=
  field ← rr_field rule; op_str ← rr_op rule; op ← parse_rule_operator op_str; a ← rule_argument rule op;
  spec_rule_of cfl_ra_create regex_create field op a.1 a.2 (rr_context rule).
Definition spec_route_rules (c : route_condition) : option (list (@spec_rule regex)) := mapM spec_route_rule (rc_rules c).

(** The count of a list of values is an int. *)
Definition rule_wf (rule : flb_route_condition_rule) : Prop :=
  match rr_values rule with Some l => rr_values_count rule = zlen l ∧ zlen l < 2 ^ 31 | None => True end.

Lemma argument_fits rule op v n : rule_wf rule → rule_argument rule op = Some (v, n) → arg_fits op v n = true.
Proof.
  unfold rule_wf, rule_argument. intros Hwf Ha.
  assert (Hl : ∀ l, rr_values rule = Some l → (if rr_values_count rule =? 0 then None else Some (ARG_STRS l, i32 (rr_values_count rule))) = Some (v, n) →
    v = ARG_STRS l ∧ n = zlen l).
  { intros l Hvs Hv. rewrite Hvs in Hwf. destruct Hwf as [Hc Hlt]. rewrite Hc in Hv. destruct (zlen l =? 0); [done|]. injection Hv as <- <-.
    split; [done|]. unfold i32. unfold zlen in *. rewrite Z.mod_small; lia. }
  destruct op; cbn in Ha; try (destruct (rr_value rule) as [s|]; [|done]; cbn in Ha);
    try (destruct (parse_numeric_value s); [|done]; cbn in Ha); try (by injection Ha as <- <-);
    destruct (rr_values rule) as [l|]; try done; destruct (Hl l eq_refl Ha) as [-> ->]; cbn; apply Z.leb_refl.
Qed.

(** The result of a compilation *)
Definition compiled_as (s : heap) (X : list nat) (cop : flb_condition_operator) (rules : option (list (@spec_rule regex)))
    (r : option condition) (s' : heap) : Prop :=
  (calm (hp_env s) → calm (hp_env s')) ∧
  match r with
  | Some cd => hp_live s' ≡ₚ condition_blocks cd ++ X ∧ ∃ rs, rules = Some rs ∧ condition_ok cd cop rs
  | None => hp_live s' ≡ₚ X ∧ (calm (hp_env s) → rules = None)
  end.

Lemma compile_rules_ok rules : Forall rule_wf rules → ∀ compiled cop before X s, condition_ok compiled cop before →
  hp_live s ≡ₚ condition_blocks compiled ++ X →
  runs (compile_rules rules compiled) s (compiled_as s X cop ((before ++.) <$> mapM spec_route_rule rules)).
Proof.
  induction 1 as [|rule rules Hwf _ IH]; intros compiled cop before X s Hok Hl; cbn [compile_rules].
  { apply runs_ret. split; [done|]. split; [done|]. exists before. split; [cbn; by rewrite app_nil_r|done]. }
  assert (Hfail : ∀ s1, hp_live s1 ≡ₚ condition_blocks compiled ++ X → (calm (hp_env s) → calm (hp_env s1) ∧ spec_route_rule rule = None) →
    runs (flb_condition_destroy (Some compiled) ≫= λ _, mret None) s1 (compiled_as s X cop ((before ++.) <$> mapM spec_route_rule (rule :: rules)))).
  { intros s1 Hl1 Hc1. apply runs_bind. eapply condition_destroy_ok; [apply Hok|exact Hl1|]. intros s2 Hl2 He2. apply runs_ret.
    split; [rewrite He2; tauto|]. split; [done|]. intros Hc. cbn. by rewrite (proj2 (Hc1 Hc)). }
  unfold spec_route_rule in Hfail at 1. destruct (rr_field rule) as [field|] eqn:Hf; [|by apply Hfail].
  destruct (rr_op rule) as [op_str|] eqn:Ho; [|by apply Hfail]. cbn [mbind option_bind] in Hfail.
  destruct (parse_rule_operator op_str) as [op|] eqn:Hop; [|by apply Hfail]. cbn [mbind option_bind] in Hfail.
  destruct (rule_argument rule op) as [[v n]|] eqn:Harg; [|by apply Hfail]. cbn [mbind option_bind fst snd] in Hfail.
  apply runs_bind. eapply (add_rule_ok cfl_ra_create regex_create regex_match); [exact (argument_fits _ _ _ _ Hwf Harg)|exact Hok|exact Hl| |].
  - intros s1 Hl1 Hc1. by apply Hfail.
  - intros c' r s1 Hl1 Hc1 Hr Hok'. eapply runs_weaken; [by apply (IH c' cop (before ++ [r]) X)|]. intros res s2 [Hc2 H2]. split; [auto|].
    assert (Hm : (before ++.) <$> mapM spec_route_rule (rule :: rules) = ((before ++ [r]) ++.) <$> mapM spec_route_rule rules).
    { assert (Hs : spec_route_rule rule = Some r).
      { unfold spec_route_rule. rewrite Hf, Ho. cbn. rewrite Hop. cbn. by rewrite Harg. }
      cbn. rewrite Hs. cbn. destruct (mapM spec_route_rule rules) as [rs|]; [|done]. cbn. by rewrite <- app_assoc. }
    rewrite Hm. destruct res; [done|]. destruct H2. auto.
Qed.
Lemma compile_ok c s : Forall rule_wf (rc_rules c) →
  runs (route_condition_compile c) s (compiled_as s (hp_live s) (rc_op c) (spec_route_rules c)).
Proof.
  intros Hwf. unfold route_condition_compile. apply runs_bind, condition_create_ok.
  - intros s' Hl Hc. apply runs_ret. split; [tauto|]. split; [by rewrite Hl|tauto].
  - intros cd s' Hl Hc Hok. eapply runs_weaken; [by eapply (compile_rules_ok _ Hwf)|]. unfold spec_route_rules.
    intros r s'' [Hc2 H2]. split; [auto|].
    assert (Hm : ([] ++.) <$> mapM spec_route_rule (rc_rules c) = mapM spec_route_rule (rc_rules c)) by (by destruct (mapM _ _)).
    rewrite Hm in H2. destruct r; [done|]. destruct H2. auto.
Qed.

(** A condition: what was compiled is what the rules say, and a failure was one of the rules. *)
Definition compiled_blocks (c : route_condition) : list nat := match rc_compiled c with Some cd => condition_blocks cd | None => [] end.
Record compiled_ok (c : route_condition) : Prop := {
  cc_wf : Forall rule_wf (rc_rules c);
  cc_result cd : rc_compiled c = Some cd → rc_compiled_status c = FLB_ROUTE_CONDITION_COMPILED_SUCCESS ∧
    ∃ rs, spec_route_rules c = Some rs ∧ condition_ok cd (rc_op c) rs
}.
Definition honest (c : route_condition) : Prop :=
  rc_compiled_status c = FLB_ROUTE_CONDITION_COMPILED_FAILURE → spec_route_rules c = None.
Definition same_condition (c c' : route_condition) : Prop :=
  rc_rules c' = rc_rules c ∧ rc_is_default c' = rc_is_default c ∧ rc_op c' = rc_op c.

Lemma runs_if_same {S A} (b : bool) (m : M S A) s Q : runs m s Q → runs (if b then m else m) s Q.
Proof. by destruct b. Qed.

Lemma get_compiled_ok c X s : compiled_ok c → hp_live s ≡ₚ compiled_blocks c ++ X →
  runs (route_condition_get_compiled c) s (λ '(r, c') s', (calm (hp_env s) → calm (hp_env s')) ∧
    hp_live s' ≡ₚ compiled_blocks c' ++ X ∧ compiled_ok c' ∧ same_condition c c' ∧ r = rc_compiled c' ∧
    rc_compiled_status c' = (match r with Some _ => FLB_ROUTE_CONDITION_COMPILED_SUCCESS | None => FLB_ROUTE_CONDITION_COMPILED_FAILURE end) ∧
    (calm (hp_env s) → honest c → honest c')).
Proof.
  intros [Hwf Hres] Hl. unfold route_condition_get_compiled.
  destruct (Z.eqb_spec (rc_compiled_status c) FLB_ROUTE_CONDITION_COMPILED_FAILURE) as [Hst|Hst].
  { apply runs_ret. destruct (rc_compiled c) as [cd|] eqn:Hcd; [destruct (Hres cd eq_refl) as [Hs _]; by rewrite Hs in Hst|].
    split_and!; try done. constructor; [done|]. by rewrite Hcd. }
  destruct (rc_compiled c) as [cd|] eqn:Hcd.
  { destruct (Hres cd eq_refl) as [Hs Hcd']. rewrite Hs, Z.eqb_refl. apply runs_ret. split_and!; try done.
    constructor; [done|]. by rewrite Hcd. }
  unfold compiled_blocks in Hl. rewrite Hcd in Hl. cbn [app] in Hl.
  apply (runs_if_same (rc_compiled_status c =? FLB_ROUTE_CONDITION_COMPILED_SUCCESS)), runs_bind. eapply runs_weaken; [by apply compile_ok|]. intros [cd|] s' [Hc Hr]; apply runs_ret.
  - destruct Hr as (Hl' & Hrs). split_and!; try done; [by rewrite Hl', Hl|]. constructor; [done|]. by intros cd' [= <-].
  - destruct Hr as (Hl' & Hno). split_and!; try done; [by rewrite Hl', Hl|intros Hca _ _; exact (Hno Hca)].
Qed.

Lemma bounded_condition_create op : bounded (@flb_condition_create regex op).
Proof. unfold flb_condition_create. solve_bounded. Qed.
Lemma bounded_rule_destroy (r : @flb_condition_rule regex) : bounded (rule_destroy r).
Proof. unfold rule_destroy. solve_bounded. Qed.
#[local] Hint Resolve bounded_condition_create bounded_rule_destroy : bounded.
Lemma bounded_condition_destroy (c : option condition) : bounded (flb_condition_destroy c).
Proof. unfold flb_condition_destroy. solve_bounded. Qed.
Lemma bounded_copy_values l copied : bounded (copy_values l copied).
Proof. revert copied. induction l as [|[v|] l IH]; intros copied; cbn [copy_values]; unfold flb_sds_create; solve_bounded. Qed.
#[local] Hint Resolve bounded_condition_destroy bounded_copy_values : bounded.
Lemma bounded_add_rule c field op value n context : bounded (flb_condition_add_rule cfl_ra_create regex_create c field op value n context).
Proof.
  unfold flb_condition_add_rule, rule_create, make_value, flb_cfl_ra_create, flb_regex_create, flb_sds_create. solve_bounded.
Qed.
#[local] Hint Resolve bounded_add_rule : bounded.
Lemma bounded_compile_rules rules c : bounded (compile_rules rules c).
Proof. revert c. induction rules as [|rule rules IH]; intros c; cbn [compile_rules]; solve_bounded. Qed.
#[local] Hint Resolve bounded_compile_rules : bounded.
Lemma bounded_get_compiled c : bounded (route_condition_get_compiled c).
Proof. unfold route_condition_get_compiled, route_condition_compile. solve_bounded. Qed.

(** ** Records as conditions see them *)

(** What a chunk says of a record, of the bytes alone *)
Record view := mk_view {
  vw_metadata : option cfl_variant; vw_body : option cfl_variant;
  vw_group_metadata : option cfl_variant; vw_group_attributes : option cfl_variant
}.

(** The events of a chunk, with the group they are in: a start of a group is in the group that it starts. *)
Fixpoint views_of (group : option cfl_variant * option cfl_variant) (es : list (Z * flb_log_event)) : list view :=
  match es with
  | [] => []
  | (t, e) :: es' =>
      let own := (ev_metadata e ≫= cfl_of, ev_body e ≫= cfl_of) in
      let g := if t =? FLB_LOG_EVENT_GROUP_START then own else group in
      mk_view own.1 own.2 g.1 g.2 ::
      views_of (if t =? FLB_LOG_EVENT_GROUP_START then own else if t =? FLB_LOG_EVENT_GROUP_END then (None, None) else group) es'
  end.

(** The part of a record that a rule is about; containers of OpenTelemetry are in the attributes of the group
    or else in the body. *)
Definition otel_container (v : view) (key : list Z) : option cfl_variant :=
  kvlist_at (match vw_group_attributes v with Some g => Some g | None => vw_body v end) key.
Definition route_part (v : view) (context : record_context_type) : option cfl_variant :=
  match context with
  | RECORD_CONTEXT_METADATA => vw_metadata v
  | RECORD_CONTEXT_BODY => vw_body v
  | RECORD_CONTEXT_GROUP_METADATA => vw_group_metadata v
  | RECORD_CONTEXT_GROUP_ATTRIBUTES => vw_group_attributes v
  | RECORD_CONTEXT_OTEL_RESOURCE_ATTRIBUTES => kvlist_at (otel_container v (text "resource")) (text "attributes")
  | RECORD_CONTEXT_OTEL_SCOPE_ATTRIBUTES => kvlist_at (otel_container v (text "scope")) (text "attributes")
  | RECORD_CONTEXT_OTEL_SCOPE_METADATA => otel_container v (text "scope")
  end.

Definition part_is (objects : gmap nat (option cfl_variant)) (obj : option nat) (v : option cfl_variant) : Prop :=
  live_object objects obj ∧ part_of objects obj = v.
Record record_view (objects : gmap nat (option cfl_variant)) (r : flb_mp_chunk_record) (v : view) : Prop := {
  rv_metadata : part_is objects (mr_cobj_metadata r) (vw_metadata v);
  rv_body : part_is objects (mr_cobj_record r) (vw_body v);
  rv_group_metadata : part_is objects (mr_cobj_group_metadata r) (vw_group_metadata v);
  rv_group_attributes : part_is objects (mr_cobj_group_attributes r) (vw_group_attributes v)
}.

Lemma part_at_is objects obj o : part_at objects obj o → part_is objects obj (o ≫= cfl_of).
Proof. intros (a & v & -> & Ha & Ho). split; cbn; rewrite Ha; [by eexists|by rewrite Ho]. Qed.

Lemma records_views objects es : ∀ active group rs, records_of objects active es rs →
  part_is objects active.1 group.1 → part_is objects active.2 group.2 → Forall2 (record_view objects) rs (views_of group es).
Proof.
  induction es as [|[t e] es IH]; intros active group [|r rs] Hr Hm Ha; cbn in Hr; try done.
  destruct Hr as (Hpm%part_at_is & Hpb%part_at_is & _ & Hg & Hr). cbn [views_of fst snd].
  assert (Hnil : part_is objects None None) by done.
  destruct (t =? FLB_LOG_EVENT_GROUP_START).
  - injection Hg as Hg1 Hg2. constructor; [constructor; cbn; [done|done|by rewrite Hg1|by rewrite Hg2]|]. by eapply IH.
  - destruct active as [a1 a2]. injection Hg as Hg1 Hg2. constructor; [constructor; cbn; [done|done|by rewrite Hg1|by rewrite Hg2]|].
    destruct (t =? FLB_LOG_EVENT_GROUP_END); by eapply IH.
Qed.

Lemma get_part_ok objects obj v s : part_is objects obj v → lg_objects s = objects → get_object_variant obj s = Some (v, s).
Proof. intros [Hl <-] <-. by apply get_object_variant_ok. Qed.

Lemma get_variant_ok objects r v (rule : @flb_condition_rule regex) s : record_view objects r v → lg_objects s = objects →
  route_logs_get_variant r rule s = Some (route_part v (cr_context rule), s).
Proof.
  intros [Hm Hb Hgm Hga] Ho.
  assert (Hbody : get_body_variant r s = Some (vw_body v, s)) by exact (get_part_ok _ _ _ _ Hb Ho).
  assert (Hotel : ∀ key, get_otel_container_variant r key true s = Some (otel_container v key, s)).
  { intros key. unfold get_otel_container_variant, otel_container, mbind, M_bind. rewrite (get_part_ok _ _ _ _ Hga Ho).
    destruct (vw_group_attributes v); [done|]. by rewrite Hbody. }
  unfold route_logs_get_variant, route_part, get_otel_scope_metadata_variant, get_otel_attributes_variant.
  destruct (cr_context rule); try done; try (by eapply get_part_ok); unfold mbind, M_bind; by rewrite Hotel.
Qed.

Lemma any_record_ok compiled cop rules s : condition_ok compiled cop rules → ∀ rs vs, Forall2 (record_view (lg_objects s)) rs vs →
  forallb (λ v, rules_readable rules (route_part v)) vs = true → ∀ s1, lg_objects s1 = lg_objects s → calm (hp_env (lg_heap s1)) →
  runs (any_record compiled rs) s1 (λ b s', heap_step s1 s' ∧
    b = existsb (λ v, spec_condition regex_match cop rules (route_part v)) vs).
Proof.
  intros Hok rs vs. induction 1 as [|r v rs vs Hr _ IH]; intros Hread s1 Ho Hc; cbn [any_record existsb forallb] in *.
  { apply runs_ret. split; [by constructor; unfold next_le|done]. }
  apply andb_true_iff in Hread as [Hv Hread]. apply runs_bind. eapply runs_weaken.
  - apply (evaluate_record_ok regex_match _ (route_part v) compiled cop rules); [|done|done].
    intros rule s' Hs'. eapply get_variant_ok; [exact Hr|by rewrite Hs'].
  - intros b s2 [Hst Hb]. rewrite <- Hb by auto. destruct b; [by apply runs_ret|]. destruct Hst as [Ho2 Hl2 Hn2 Hc2].
    eapply runs_weaken; [apply IH; [done|by rewrite Ho2|auto]|]. intros b s3 [[Ho3 Hl3 Hn3 Hc3] ->]. split; [|done].
    constructor; [by rewrite Ho3|by rewrite Hl3|unfold next_le in *; lia|auto].
Qed.

(** ** The context of a chunk *)

Definition context_blocks (cx : chunk_context) : list nat :=
  match rx_chunk_cobj cx with Some c => chunk_blocks c | None => [] end ++
  match rx_log_decoder cx with Some d => [d.1] | None => [] end ++
  match rx_log_encoder cx with Some e => encoder_blocks e | None => [] end.
Definition context_objects (cx : chunk_context) : list nat :=
  match rx_chunk_cobj cx with Some c => chunk_owned c | None => [] end.
Record context_ok (base : gmap nat (option cfl_variant)) (B O : list nat) (cx : chunk_context) (s : log_state) : Prop := {
  cx_holds : holds base (context_blocks cx ++ B) (context_objects cx ++ O) s;
  cx_encoder e : rx_log_encoder cx = Some e → ∃ out p, encoder_at out p e
}.

Lemma context_reset_ok base B O cx s (Q : chunk_context → log_state → Prop) : context_ok base B O cx s →
  (∀ s', holds base B O s' → Q flb_router_chunk_context_init s') → runs (flb_router_chunk_context_reset cx) s Q.
Proof.
  intros [Hh He] HQ. unfold flb_router_chunk_context_reset. unfold context_blocks, context_objects in Hh. destruct cx as [cobj e d]. cbn in *.
  assert (H1 : runs (match cobj with Some c => flb_mp_chunk_cobj_destroy (Some c) ≫= λ _, mret tt | None => mret tt end) s (λ _ s1,
    holds base (match d with Some d => [d.1] | None => [] end ++ (match e with Some e => encoder_blocks e | None => [] end ++ B)) O s1)).
  { destruct cobj as [c|]; [|apply runs_ret; cbn in Hh; by rewrite app_assoc].
    apply runs_bind. eapply cobj_destroy_ok; [rewrite <- !app_assoc in Hh; exact Hh|]. intros s1 Hh1. by apply runs_ret. }
  apply runs_bind. eapply runs_weaken; [exact H1|]. intros [] s1 Hh1.
  assert (H2 : runs (match d with Some d => on_heap (flb_log_event_decoder_destroy d.1) | None => mret tt end) s1 (λ _ s2,
    holds base (match e with Some e => encoder_blocks e | None => [] end ++ B) O s2)).
  { destruct d as [d|]; [|by apply runs_ret]. eapply free_ok; [exact Hh1|auto]. }
  apply runs_bind. eapply runs_weaken; [exact H2|]. intros [] s2 Hh2. apply runs_bind.
  destruct e as [e|]; [|apply runs_ret, runs_ret; auto]. destruct (He e eq_refl) as (out & p & Hat).
  eapply on_heap_ok; [exact Hh2|apply encoder_destroy_bounded|]. eapply runs_weaken; [eapply encoder_destroy_law; [exact Hat|apply Hh2]|].
  intros _ h [Hl _] s3 _ _ Hh3. apply runs_ret, HQ. by apply Hh3.
Qed.

Lemma bounded_decoder_create b : bounded (flb_log_event_decoder_create b).
Proof. unfold flb_log_event_decoder_create, flb_log_event_decoder_init, create_empty_map, flb_log_event_decoder_destroy. solve_bounded. Qed.
Lemma calm_decoder_create b : calm_run [] (flb_log_event_decoder_create b)
  (λ o, match o with Some d => [d.1] | None => [] end) is_Some.
Proof.
  unfold flb_log_event_decoder_create. eapply calm_bind; [apply (calm_alloc [])|]. intros p [a ->]. cbn [option_list app].
  unfold flb_log_event_decoder_init, create_empty_map.
  eapply calm_bind with (mid := λ _, [a]) (mid_post := λ r, r.1 = FLB_EVENT_DECODER_SUCCESS).
  - eapply calm_bind with (mid := λ _, [a]) (mid_post := λ r, r = FLB_EVENT_DECODER_SUCCESS).
    + eapply calm_bind; [apply calm_syscall|]. intros ok ->. eapply calm_bind; [apply calm_syscall|]. intros ok ->. by apply calm_ret.
    + intros r ->. by apply calm_ret.
  - intros [r c] Hr. cbn in Hr. subst r. change (FLB_EVENT_DECODER_SUCCESS =? FLB_EVENT_DECODER_SUCCESS) with true. cbv iota. apply calm_ret; [done|by eexists].
Qed.

Lemma runs_syscall_live s (Q : bool → heap → Prop) : (∀ ok s', hp_live s' = hp_live s → Q ok s') → runs syscall s Q.
Proof.
  intros HQ. unfold syscall, runs. cbn [env_of heap_HasEnv]. destruct (e_sys (hp_env s)) as [|b script]; eexists _, _; (split; [reflexivity|by apply HQ]).
Qed.
Lemma decoder_create_any b s (Q : option (nat * flb_log_event_decoder) → heap → Prop) :
  (∀ o s', hp_live s' ≡ₚ (match o with Some d => [d.1] | None => [] end) ++ hp_live s → Q o s') → runs (flb_log_event_decoder_create b) s Q.
Proof.
  intros HQ. unfold flb_log_event_decoder_create. apply runs_bind, runs_alloc; [intros s1 Hl1 _; apply runs_ret, HQ; by rewrite Hl1|].
  intros a s1 Hl1 _. apply runs_bind. unfold flb_log_event_decoder_init, create_empty_map. apply runs_bind, runs_bind, runs_syscall_live.
  assert (Hfail : ∀ s2, hp_live s2 = hp_live s1 → runs (flb_log_event_decoder_destroy a ≫= λ _, mret None) s2 Q).
  { intros s2 Hl2. apply runs_bind. eapply (runs_free a (hp_live s)); [by rewrite Hl2, Hl1|]. intros s3 Hl3 _. by apply runs_ret, HQ. }
  intros [] s2 Hl2; [apply runs_bind, runs_syscall_live; intros [] s3 Hl3|]; apply runs_ret, runs_ret; cbn.
  - apply runs_ret, HQ. by rewrite Hl3, Hl2, Hl1.
  - apply Hfail. congruence.
  - by apply Hfail.
Qed.

(** What preparing the records of a chunk comes to: success with a chunk, or a context that holds nothing *)
Definition all_or_nothing base B O (res : Z * chunk_context) (s : log_state) : Prop :=
  context_ok base B O res.2 s ∧
  (res.1 = 0 ∧ is_Some (rx_chunk_cobj res.2) ∨ res.1 = -1 ∧ res.2 = flb_router_chunk_context_init).

Lemma fail_ok base B O cx s : context_ok base B O cx s →
  runs (context ← flb_router_chunk_context_reset cx; mret (-1, context)) s (all_or_nothing base B O).
Proof.
  intros Hcx. apply runs_bind. eapply context_reset_ok; [exact Hcx|]. intros s1 Hh1. apply runs_ret. split; [|by right].
  constructor; [exact Hh1|done].
Qed.

Lemma prepare_any base B O data objs r s : unpacker_ok msgpack_unpack_next → zlen data < 2 ^ 64 →
  stream msgpack_unpack_next data 0 objs r → Forall (λ o, is_Some (event_of o)) objs → context_ok base B O flb_router_chunk_context_init s →
  runs (flb_router_chunk_context_prepare_logs flb_router_chunk_context_init (mk_event_chunk FLB_EVENT_TYPE_LOGS (Some data))) s (all_or_nothing base B O).
Proof.
  intros Hu H64 Hstr Hdef Hcx. pose proof Hcx as [Hh _]. unfold flb_router_chunk_context_prepare_logs. cbn [evk_type evk_data].
  change (negb (FLB_EVENT_TYPE_LOGS =? FLB_EVENT_TYPE_LOGS)) with false. cbv iota. cbn [rx_chunk_cobj rx_log_encoder flb_router_chunk_context_init].
  destruct data as [|x data']; [apply runs_ret; split; [done|by right]|]. remember (x :: data') as data. clear Heqdata.
  apply runs_bind. eapply on_heap_ok; [exact Hh|apply encoder_create_bounded|]. eapply runs_weaken; [apply encoder_create_law|].
  intros [e|] h [_ Hr] s1 Hs1 Ho1 Hh1; [|destruct Hr as [Hl _]; apply runs_ret; split; [|by right]; constructor; [apply Hh1; rewrite Hl; apply Hh|done]].
  destruct Hr as (Hl1 & p & Hat). specialize (Hh1 _ Hl1). cbn [rx_log_decoder].
  assert (Hh1' : holds base (encoder_blocks e ++ B) O s1) by (eapply holds_perm; [exact Hh1|by rewrite (ho_live _ _ _ _ Hh)|done]).
  apply runs_bind, runs_bind. eapply on_heap_ok; [exact Hh1'|apply bounded_decoder_create|]. apply decoder_create_any.
  intros o h2 Hl2 s2 Hs2 Ho2 Hh2. specialize (Hh2 _ Hl2). apply runs_ret. rewrite (ho_live _ _ _ _ Hh1') in Hl2.
  assert (Hctx : ∀ cobj d s', holds base (match cobj with Some c => chunk_blocks c | None => [] end ++
      match d with Some d => [d.1] | None => [] end ++ encoder_blocks e ++ B) (match cobj with Some c => chunk_owned c | None => [] end ++ O) s' →
    context_ok base B O (mk_context cobj (Some e) d) s').
  { intros cobj d s' Hh'. constructor; [|intros e' [= <-]; eauto]. unfold context_blocks, context_objects. cbn. by rewrite <- !app_assoc. }
  assert (Hh2' : holds base (match o with Some d => [d.1] | None => [] end ++ encoder_blocks e ++ B) O s2).
  { eapply holds_perm; [exact Hh2|by rewrite (ho_live _ _ _ _ Hh1')|done]. }
  destruct o as [[a d]|]; cbn [fmap option_fmap option_map fst snd].
  2: { apply fail_ok, Hctx. by cbn. }
  unfold flb_mp_chunk_cobj_create. apply runs_bind, runs_bind. cbn [app fst] in Hh2'.
  eapply alloc_ok; [exact Hh2'|..].
  { intros s3 Hh3 _ _. apply runs_ret. cbn [fmap option_fmap option_map]. apply fail_ok, Hctx. by cbn. }
  intros b s3 Hh3 Ho3 _ _. apply runs_ret. cbn [fmap option_fmap option_map]. apply runs_bind.
  eapply runs_weaken; [apply (read_records_ok regex_match msgpack_unpack_next (λ _, True) base (a :: encoder_blocks e ++ B) O)|].
  - done.
  - exact Hh3.
  - constructor; [by right|done|]. split; [done|]. exists objs, r. split; [done|]. apply Forall_forall. intros o _ ev _.
    split; by destruct (_ ev).
  - constructor; [done|apply NoDup_nil_2|done].
  - split; [done|]. exists objs, r. constructor; cbn; (done || (pose proof (zlen_nonneg data); lia)).
  - match goal with |- (left_over ?c < _)%nat => pose proof (left_over_bound msgpack_unpack_next c) as Hb end. cbn in Hb |- *.
    enough (Hr : readable msgpack_unpack_next (mk_cobj b (flb_log_event_decoder_reset (flb_log_event_decoder_read_groups d 1).2 data) None [] None None None)) by (specialize (Hb Hr); lia).
    split; [done|]. exists objs, r. constructor; cbn; (done || (pose proof (zlen_nonneg data); lia)).
  - intros [ret cobj] s4 (Hh4 & _ & _). destruct (ret =? FLB_MP_CHUNK_RECORD_EOF); cbn [negb].
    + apply runs_ret. split; [|left; by split; [|eexists]]. apply Hctx. exact Hh4.
    + apply fail_ok, Hctx. exact Hh4.
Qed.

Section one_chunk.
(** A chunk of events that can be converted, and a start where nothing fails *)
Variables (data : list Z) (objs : list msgpack_object) (es : list (Z * flb_log_event)).
Hypothesis Hunpack : unpacker_ok msgpack_unpack_next.
Hypothesis Hsize : 0 < zlen data < 2 ^ 64.
Hypothesis Hobjs : all_objects msgpack_unpack_next data 0 objs.
Hypothesis Hevents : Forall2 (λ o x, good_object o x.1 x.2) objs es.
Abbreviation chunk := (mk_event_chunk FLB_EVENT_TYPE_LOGS (Some data)).

(** The context is new, or it holds the records of the chunk. *)
Record chunk_state (base : gmap nat (option cfl_variant)) (B O : list nat) (cx : chunk_context) (s : log_state) : Prop := {
  ch_context : context_ok base B O cx s;
  ch_calm : calm (hp_env (lg_heap s));
  ch_records : cx = flb_router_chunk_context_init ∨
    ∃ cobj, rx_chunk_cobj cx = Some cobj ∧ Forall2 (record_view (lg_objects s)) (cc_records cobj) (views_of (None, None) es)
}.

Lemma prepare_init base B O s : context_ok base B O flb_router_chunk_context_init s → calm (hp_env (lg_heap s)) →
  runs (flb_router_chunk_context_prepare_logs flb_router_chunk_context_init chunk) s (λ '(ret, cx') s', ret = 0 ∧
    calm (hp_env (lg_heap s')) ∧ context_ok base B O cx' s' ∧
    ∃ cobj, rx_chunk_cobj cx' = Some cobj ∧ records_of (lg_objects s') (None, None) es (cc_records cobj)).
Proof.
  intros [Hh He] Hc. unfold flb_router_chunk_context_prepare_logs. cbn [evk_type evk_data].
  change (negb (FLB_EVENT_TYPE_LOGS =? FLB_EVENT_TYPE_LOGS)) with false. cbv iota. cbn [rx_chunk_cobj rx_log_encoder flb_router_chunk_context_init].
  assert (Hne : data ≠ []) by (intros Hnil; pose proof Hsize as Hs; rewrite Hnil in Hs; unfold zlen in Hs; cbn [length] in Hs; lia).
  destruct data as [|x data'] eqn:Hdata; [done|]. clear Hne.
  cbn [context_blocks context_objects flb_router_chunk_context_init rx_chunk_cobj rx_log_encoder rx_log_decoder app] in Hh.
  apply runs_bind. eapply on_heap_ok; [exact Hh|apply encoder_create_bounded|]. eapply runs_weaken; [apply encoder_create_law|].
  intros [e|] h [Hca Hr] s1 Hs1 Ho1 Hh1; [|tauto]. destruct Hr as (Hl1 & p & Hat). specialize (Hh1 _ Hl1).
  assert (Hc1 : calm (hp_env (lg_heap s1))) by (rewrite Hs1; auto). cbn [rx_log_decoder].
  assert (Hh1' : holds base (encoder_blocks e ++ B) O s1) by (eapply holds_perm; [exact Hh1|by rewrite (ho_live _ _ _ _ Hh)|done]).
  apply runs_bind, runs_bind. eapply (on_heap_calm _ []); [exact Hh1'|exact Hc1|apply bounded_decoder_create|apply calm_decoder_create|].
  intros o s2 Hh2 Hc2 Ho2 [[a d] ->]. apply runs_ret. cbn [fmap option_fmap option_map fst snd].
  unfold flb_mp_chunk_cobj_create. apply runs_bind, runs_bind. cbn [app fst] in Hh2.
  eapply alloc_ok; [exact Hh2|tauto|]. intros b s3 Hh3 Ho3 _ Hc3. apply runs_ret. cbn [fmap option_fmap option_map].
  apply runs_bind. pose proof (all_objects_length _ _ _ _ Hunpack Hobjs ltac:(lia)) as Hlen.
  eapply runs_weaken; [apply (read_exact regex_match msgpack_unpack_next base (a :: encoder_blocks e ++ B) O (x :: data') 0 objs); try done; try lia; auto; [apply NoDup_nil_2|unfold zlen in Hlen; cbn [length] in Hlen; cbn; lia]|].
  intros [ret cobj] s4 (-> & Hc4 & Hh4 & _ & _ & _ & _ & _ & rs & Hrs & Hrec). change (negb (FLB_MP_CHUNK_RECORD_EOF =? FLB_MP_CHUNK_RECORD_EOF)) with false. cbv iota.
  apply runs_ret. split_and!; [done|done| |].
  - constructor; [|intros e' [= <-]; eauto]. unfold context_blocks, context_objects. cbn [rx_chunk_cobj rx_log_decoder rx_log_encoder].
    rewrite <- !app_assoc. exact Hh4.
  - eexists. split; [reflexivity|]. cbn [cc_records set_cc_record_pos set_cc_condition]. cbn in Hrs. by rewrite Hrs.
Qed.
Lemma prepare_ok base B O cx s : chunk_state base B O cx s →
  runs (flb_router_chunk_context_prepare_logs cx chunk) s (λ '(ret, cx') s', ret = 0 ∧ chunk_state base B O cx' s' ∧
    is_Some (rx_chunk_cobj cx')).
Proof.
  intros [Hcx Hc [->|(cobj & Hcobj & Hv)]].
  - eapply runs_weaken; [by apply prepare_init|]. intros [ret cx'] s' (-> & ? & ? & cobj & Hcobj & Hrec).
    split_and!; [done| |by eexists]. constructor; [done|done|]. right. exists cobj. split; [done|]. by eapply records_views.
  - unfold flb_router_chunk_context_prepare_logs. cbn [evk_type evk_data].
    change (negb (FLB_EVENT_TYPE_LOGS =? FLB_EVENT_TYPE_LOGS)) with false. cbv iota. rewrite Hcobj. apply runs_ret.
    split_and!; [done| |by eexists]. constructor; [done|done|eauto].
Qed.
End one_chunk.

(** ** Decisions *)

Definition signals_allow (r : route) (signal : Z) : bool :=
  (rt_signals r =? 0) || (rt_signals r =? FLB_ROUTER_SIGNAL_ANY) || negb (Z.land (rt_signals r) signal =? 0).

(** What a route decides about a chunk of logs *)
Definition spec_route (views : list view) (path : option route) : bool :=
  match path with
  | None => true
  | Some r =>
      match rt_condition r with
      | None => true
      | Some c =>
          signals_allow r FLB_ROUTER_SIGNAL_LOGS &&
          (rc_is_default c ||
           match spec_route_rules c with
           | Some rules => existsb (λ v, spec_condition regex_match (rc_op c) rules (route_part v)) views
           | None => false
           end)
      end
  end.

Definition path_condition (path : option route) : option route_condition := path ≫= rt_condition.
(** The rules of a route can read the parts of all records. *)
Definition path_reads (views : list view) (path : option route) : bool :=
  match path_condition path with
  | Some c =>
      match spec_route_rules c with Some rules => forallb (λ v, rules_readable rules (route_part v)) views | None => true end
  | None => true
  end.
Definition path_blocks (path : option route) : list nat := from_option compiled_blocks [] (path_condition path).
Definition path_ok (path : option route) : Prop := from_option (λ c, compiled_ok c ∧ honest c) True (path_condition path).
Definition same_path (p p' : option route) : Prop :=
  match p, p' with
  | None, None => True
  | Some r, Some r' =>
      rt_name r' = rt_name r ∧ rt_signals r' = rt_signals r ∧ rt_per_record_routing r' = rt_per_record_routing r ∧
      match rt_condition r, rt_condition r' with
      | None, None => True
      | Some c, Some c' => same_condition c c'
      | _, _ => False
      end
  | _, _ => False
  end.

Lemma same_path_refl p : same_path p p.
Proof. destruct p as [r|]; [|done]. split_and!; try done. by destruct (rt_condition r). Qed.

Lemma signals_allowed r signal :
  negb (rt_signals r =? 0) && negb (rt_signals r =? FLB_ROUTER_SIGNAL_ANY) && (Z.land (rt_signals r) signal =? 0) = negb (signals_allow r signal).
Proof. unfold signals_allow. by destruct (rt_signals r =? 0), (rt_signals r =? FLB_ROUTER_SIGNAL_ANY), (Z.land (rt_signals r) signal =? 0). Qed.

(** A chunk that is being routed: what a decision gives back *)
Definition decided base X O es (path : option route) (b : bool) (res : bool * option chunk_context * option route) (s' : log_state) : Prop :=
  let '(b', cx', path') := res in
  b' = b ∧ path_ok path' ∧ same_path path path' ∧ ∃ cx, cx' = Some cx ∧ chunk_state es base (path_blocks path' ++ X) O cx s'.

Section decisions.
Variables (data : list Z) (objs : list msgpack_object) (es : list (Z * flb_log_event)).
Hypothesis Hunpack : unpacker_ok msgpack_unpack_next.
Hypothesis Hsize : 0 < zlen data < 2 ^ 64.
Hypothesis Hobjs : all_objects msgpack_unpack_next data 0 objs.
Hypothesis Hevents : Forall2 (λ o x, good_object o x.1 x.2) objs es.
Abbreviation chunk := (mk_event_chunk FLB_EVENT_TYPE_LOGS (Some data)).

Lemma chunk_state_perm base B B' O cx s : B ≡ₚ B' → chunk_state es base B O cx s → chunk_state es base B' O cx s.
Proof. intros HB [[Hh He] Hc Hr]. constructor; [|done|done]. constructor; [|done]. eapply holds_perm; [exact Hh|by rewrite HB|done]. Qed.
Lemma chunk_state_step base B O cx s s' : heap_step s s' → chunk_state es base B O cx s → chunk_state es base B O cx s'.
Proof.
  intros Hs [[Hh He] Hc Hr]. constructor; [constructor; [by eapply holds_heap_step|done]|by apply Hs|]. by rewrite (hs_objects _ _ Hs).
Qed.

Lemma compile_in_chunk base X O cx c s (Q : option condition * route_condition → log_state → Prop) :
  chunk_state es base (compiled_blocks c ++ X) O cx s → compiled_ok c → honest c →
  (∀ c' s', chunk_state es base (compiled_blocks c' ++ X) O cx s' → compiled_ok c' → honest c' → same_condition c c' →
     (rc_compiled c' = None → spec_route_rules c = None) → Q (rc_compiled c', c') s') →
  runs (on_heap (route_condition_get_compiled c)) s Q.
Proof.
  intros [[Hh He] Hc Hr] Hok Hhon HQ.
  assert (Hh' : holds base (compiled_blocks c ++ (context_blocks cx ++ X)) (context_objects cx ++ O) s).
  { eapply holds_perm; [exact Hh| |done]. rewrite !app_assoc. by rewrite (Permutation_app_comm (context_blocks cx)). }
  eapply on_heap_ok; [exact Hh'|apply bounded_get_compiled|].
  eapply runs_weaken; [by eapply get_compiled_ok; [|apply Hh']|].
  intros [r c'] h (Hca & Hl & Hok' & Hsame & -> & Hst & Hhon') s' Hs' Ho Hh2. specialize (Hh2 _ Hl). specialize (Hhon' Hc Hhon).
  apply HQ; try done.
  - constructor; [|rewrite Hs'; auto|by rewrite Ho]. constructor; [|done]. eapply holds_perm; [exact Hh2| |done].
    rewrite !app_assoc. by rewrite (Permutation_app_comm (compiled_blocks c')).
  - intros Hno. rewrite Hno in Hst. specialize (Hhon' Hst). destruct Hsame as [Hrules _]. unfold spec_route_rules in *. by rewrite <- Hrules.
Qed.

Lemma eval_logs_ok base X O cx r c s : rt_condition r = Some c → chunk_state es base (compiled_blocks c ++ X) O cx s → compiled_ok c → honest c →
  path_reads (views_of (None, None) es) (Some r) = true →
  runs (flb_condition_eval_logs (Some chunk) (Some cx) r) s (λ '(b, cx', r') s', decided base X O es (Some r)
    match spec_route_rules c with
    | Some rules => existsb (λ v, spec_condition regex_match (rc_op c) rules (route_part v)) (views_of (None, None) es)
    | None => false
    end (b, cx', Some r') s').
Proof.
  intros Hr Hch Hok Hhon Hread. unfold flb_condition_eval_logs. rewrite Hr. apply runs_bind. eapply compile_in_chunk; [done..|].
  intros c' s1 Hch1 Hok1 Hhon1 Hsame Hno.
  assert (Hend : ∀ b cx' s', chunk_state es base (compiled_blocks c' ++ X) O cx' s' → decided base X O es (Some r) b
    (b, Some cx', Some (set_rt_condition (Some c') r)) s').
  { intros b cx' s' Hs'. split_and!; [done|done| |eauto]. split_and!; [done..|]. by rewrite Hr. }
  destruct (rc_compiled c') as [cd|] eqn:Hcd; [|apply runs_ret; rewrite (Hno eq_refl); by apply Hend].
  destruct (cc_result c' Hok1 cd Hcd) as (_ & rules & Hrules & Hcok).
  assert (Hrules' : spec_route_rules c = Some rules) by (unfold spec_route_rules in *; by rewrite <- (proj1 Hsame)).
  unfold path_reads, path_condition in Hread. cbn [mbind option_bind] in Hread. rewrite Hr, Hrules' in Hread.
  rewrite Hrules'. apply runs_bind. eapply runs_weaken; [by eapply (prepare_ok data objs es)|].
  intros [ret cx2] s2 (-> & Hch2 & [cobj Hcobj]). cbn [Z.eqb negb]. rewrite Hcobj. apply runs_bind.
  assert (Hv : Forall2 (record_view (lg_objects s2)) (cc_records cobj) (views_of (None, None) es)).
  { destruct (ch_records _ _ _ _ _ _ Hch2) as [->|(cobj' & Hc' & Hv)]; [done|]. rewrite Hcobj in Hc'. by injection Hc' as <-. }
  eapply runs_weaken; [eapply any_record_ok; [exact Hcok|exact Hv| |done|apply Hch2]; by destruct Hsame as (_ & _ & ?)|].
  intros b s3 [Hs3 ->]. apply runs_ret. destruct Hsame as (_ & _ & ->). apply Hend. by eapply chunk_state_step.
Qed.

Lemma should_route_ok base X O cx path s : chunk_state es base (path_blocks path ++ X) O cx s → path_ok path →
  path_reads (views_of (None, None) es) path = true →
  runs (flb_router_path_should_route (Some chunk) (Some cx) path) s
    (decided base X O es path (spec_route (views_of (None, None) es) path)).
Proof.
  intros Hch Hok Hread. destruct path as [r|]; [|apply runs_ret; split_and!; eauto].
  unfold flb_router_path_should_route. cbn [evk_type]. change (FLB_EVENT_TYPE_LOGS =? FLB_EVENT_TYPE_LOGS) with true. cbv iota.
  apply runs_bind. eapply runs_weaken; [by eapply (prepare_ok data objs es)|]. intros [ret cx1] s1 (-> & Hch1 & _). cbn [Z.eqb negb].
  apply runs_bind. unfold flb_route_condition_eval, spec_route.
  assert (Hret : ∀ b, runs (mret (b, Some cx1, r)) s1 (λ a s', runs (let '(b', context, r') := a in mret (b', context, Some r')) s'
    (decided base X O es (Some r) b))).
  { intros b. apply runs_ret, runs_ret. split_and!; [done|done|apply same_path_refl|eauto]. }
  destruct (rt_condition r) as [c|] eqn:Hr; [|apply Hret].
  change (flb_router_signal_from_chunk (Some chunk)) with FLB_ROUTER_SIGNAL_LOGS. change (FLB_ROUTER_SIGNAL_LOGS =? 0) with false. cbv iota.
  rewrite signals_allowed. destruct (signals_allow r FLB_ROUTER_SIGNAL_LOGS); [|apply Hret]. cbn [negb andb].
  destruct (rc_is_default c); [apply Hret|]. cbn [orb]. change (FLB_ROUTER_SIGNAL_LOGS =? FLB_ROUTER_SIGNAL_LOGS) with true. cbv iota.
  unfold path_ok, path_blocks, path_condition in *. cbn in Hok, Hch1. rewrite Hr in Hok, Hch1. cbn in Hok, Hch1. destruct Hok as [Hok Hhon].
  eapply runs_weaken; [by eapply eval_logs_ok|]. intros [[b cx2] r'] s2 Hd. by apply runs_ret.
Qed.

End decisions.

(** The routes of a chunk one after the other, with one context *)
Fixpoint route_paths (chunk : flb_event_chunk) (context : option chunk_context) (paths : list (option route))
    : M log_state (list bool * option chunk_context * list (option route)) :=
  match paths with
  | [] => mret ([], context, [])
  | path :: paths' =>
      '(b, context, path) ← flb_router_path_should_route (Some chunk) context path;
      '(bs, context, paths') ← route_paths chunk context paths';
      mret (b :: bs, context, path :: paths')
  end.
Definition route_chunk (chunk : flb_event_chunk) (paths : list (option route)) : M log_state (list bool * list (option route)) :=
  '(bs, context, paths) ← route_paths chunk (Some flb_router_chunk_context_init) paths;
  match context with Some cx => flb_router_chunk_context_destroy cx ≫= λ _, mret tt | None => mret tt end ≫= λ _,
  mret (bs, paths).

Lemma route_paths_ok data objs es base O : unpacker_ok msgpack_unpack_next → 0 < zlen data < 2 ^ 64 →
  all_objects msgpack_unpack_next data 0 objs → Forall2 (λ o x, good_object o x.1 x.2) objs es →
  ∀ paths X cx s, chunk_state es base ((paths ≫= path_blocks) ++ X) O cx s → Forall path_ok paths →
  forallb (path_reads (views_of (None, None) es)) paths = true →
  runs (route_paths (mk_event_chunk FLB_EVENT_TYPE_LOGS (Some data)) (Some cx) paths) s (λ '(bs, cx', paths') s',
    bs = spec_route (views_of (None, None) es) <$> paths ∧ Forall path_ok paths' ∧ Forall2 same_path paths paths' ∧
    ∃ cx2, cx' = Some cx2 ∧ chunk_state es base ((paths' ≫= path_blocks) ++ X) O cx2 s').
Proof.
  intros Hu Hs Ho He. induction paths as [|path paths IH]; intros X cx s Hch Hok Hread; cbn [route_paths].
  { apply runs_ret. split_and!; [done|done|constructor|eauto]. }
  apply Forall_cons in Hok as [Hp Hok]. cbn [forallb] in Hread. apply andb_true_iff in Hread as [Hread1 Hread].
  cbn in Hch. rewrite <- app_assoc in Hch. apply runs_bind.
  eapply runs_weaken; [by eapply (should_route_ok data objs es)|]. intros [[b cx1] path'] s1 (-> & Hp' & Hsame & cx1' & -> & Hch1).
  apply runs_bind. eapply runs_weaken; [apply (IH (path_blocks path' ++ X)); [|done|done]|].
  { eapply chunk_state_perm; [|exact Hch1]. rewrite !app_assoc. by rewrite (Permutation_app_comm (path_blocks path')). }
  intros [[bs cx2] paths'] s2 (-> & Hok2 & Hsame2 & cx2' & -> & Hch2). apply runs_ret. split_and!; [done|by constructor|by constructor|].
  eexists. split; [done|]. eapply chunk_state_perm; [|exact Hch2]. cbn. rewrite !app_assoc. by rewrite (Permutation_app_comm (path_blocks path')).
Qed.

(** ** Theorems *)

(** The condition of a route is compiled once and exactly: at the first use it becomes what its rules say,
    in order, or nothing when one of them is refused - and then nothing of it stays in memory - and unless
    memory ran out it is nothing only for that reason; every later use gives the same without looking at the
    rules. *)
Theorem condition_compiled_once c s :
  Forall rule_wf (rc_rules c) → rc_compiled c = None → rc_compiled_status c = 0 →
  ∃ r c' s', route_condition_get_compiled c s = Some (r, c', s') ∧
    hp_live s' ≡ₚ from_option condition_blocks [] r ++ hp_live s ∧
    match r with
    | Some cd => ∃ rules, spec_route_rules c = Some rules ∧ condition_ok cd (rc_op c) rules
    | None => calm (hp_env s) → spec_route_rules c = None
    end ∧
    ∀ s2, route_condition_get_compiled c' s2 = Some (r, c', s2).
Proof.
  intros Hwf Hno Hst. assert (Hok : compiled_ok c) by (constructor; [done|by rewrite Hno]).
  assert (Hhon : honest c) by (intros Hf; rewrite Hst in Hf; discriminate Hf).
  destruct (get_compiled_ok c (hp_live s) s Hok) as ([r c'] & s' & Hr & _ & Hl & Hok' & (Hrules & _ & Hop) & -> & Hst' & Hh');
    [by unfold compiled_blocks; rewrite Hno|].
  exists (rc_compiled c'), c', s'. unfold compiled_blocks in Hl. assert (Hspec : spec_route_rules c' = spec_route_rules c).
  { unfold spec_route_rules. by rewrite Hrules. }
  unfold route_condition_get_compiled. destruct (rc_compiled c') as [cd|] eqn:Hcd; split_and!; try done.
  - destruct (cc_result _ Hok' _ Hcd) as (_ & rules & Hru & Hc). rewrite Hspec in Hru. rewrite Hop in Hc. eauto.
  - intros s2. by rewrite Hst'.
  - intros Hc. rewrite <- Hspec. by apply Hh'.
  - intros s2. by rewrite Hst'.
Qed.

(** C27. Routing a chunk of logs is exact: when the chunk is a sequence of events that can be converted, the rules can
    read the parts of its records - no rule leads to a map or a NaN - and nothing fails, every path is taken or not as
    its condition says of the records - with the group they are in, each part of the record where the rule looks for
    it, and the signals and the default of the route - also when several paths share the records; afterwards only
    the compiled conditions are left in memory. *)
Theorem routes_decided_exact data objs es paths X s :
  unpacker_ok msgpack_unpack_next → 0 < zlen data < 2 ^ 64 → all_objects msgpack_unpack_next data 0 objs →
  Forall2 (λ o x, good_object o x.1 x.2) objs es → state_ok s → calm (hp_env (lg_heap s)) →
  hp_live (lg_heap s) ≡ₚ (paths ≫= path_blocks) ++ X → Forall path_ok paths →
  forallb (path_reads (views_of (None, None) es)) paths = true →
  ∃ paths' s', route_chunk (mk_event_chunk FLB_EVENT_TYPE_LOGS (Some data)) paths s =
      Some (spec_route (views_of (None, None) es) <$> paths, paths', s') ∧
    Forall path_ok paths' ∧ Forall2 same_path paths paths' ∧
    lg_objects s' = lg_objects s ∧ hp_live (lg_heap s') ≡ₚ (paths' ≫= path_blocks) ++ X.
Proof.
  intros Hu Hs Ho He Hst Hc Hl Hok Hread.
  cut (runs (route_chunk (mk_event_chunk FLB_EVENT_TYPE_LOGS (Some data)) paths) s (λ '(bs, paths') s',
    bs = spec_route (views_of (None, None) es) <$> paths ∧ Forall path_ok paths' ∧ Forall2 same_path paths paths' ∧
    lg_objects s' = lg_objects s ∧ hp_live (lg_heap s') ≡ₚ (paths' ≫= path_blocks) ++ X)).
  { intros ([bs paths'] & s' & Hr & -> & ?). eauto. }
  unfold route_chunk. apply runs_bind. eapply runs_weaken; [apply (route_paths_ok data objs es (lg_objects s) [] Hu Hs Ho He paths X); [|done|done]|].
  { constructor; [|done|by left]. constructor; [|done]. eapply holds_perm; [by apply holds_start|exact Hl|done]. }
  intros [[bs cx] paths'] s1 (-> & Hok' & Hsame & cx' & -> & [Hcx _ _]). apply runs_bind, runs_bind.
  eapply context_reset_ok; [exact Hcx|]. intros s2 (Ho2 & Hl2 & _)%holds_end. by apply runs_ret, runs_ret.
Qed.

(** Data of other kinds has no signal: not even a default route is taken. *)
(** C28. Reading the chunk for the routes is all or nothing: for any bytes whose objects have timestamps that are defined -
    no float out of range - and whatever allocations fail - of the encoder, the decoder, the chunk, its records or their
    objects - preparing the context is defined, and it either succeeds with the records or gives -1 with a context that
    holds nothing, and then every block that was taken is freed; destroying the context frees the rest.  An object
    counts as one block: the ones that CFL keeps inside of it, of which a conversion that fails for want of memory
    loses one, are not modelled. *)
Theorem prepare_all_or_nothing data objs r s :
  unpacker_ok msgpack_unpack_next → zlen data < 2 ^ 64 → stream msgpack_unpack_next data 0 objs r →
  Forall (λ o, is_Some (event_of o)) objs → state_ok s →
  ∃ ret cx s', flb_router_chunk_context_prepare_logs flb_router_chunk_context_init (mk_event_chunk FLB_EVENT_TYPE_LOGS (Some data)) s =
      Some (ret, cx, s') ∧
    (ret = 0 ∧ is_Some (rx_chunk_cobj cx) ∨
     ret = -1 ∧ cx = flb_router_chunk_context_init ∧ lg_objects s' = lg_objects s ∧ hp_live (lg_heap s') ≡ₚ hp_live (lg_heap s)) ∧
    ∃ s'', flb_router_chunk_context_destroy cx s' = Some (flb_router_chunk_context_init, s'') ∧
      lg_objects s'' = lg_objects s ∧ hp_live (lg_heap s'') ≡ₚ hp_live (lg_heap s).
Proof.
  intros Hu H64 Hstr Hdef Hst.
  destruct (prepare_any (lg_objects s) (hp_live (lg_heap s)) [] data objs r s Hu H64 Hstr Hdef) as ([ret cx] & s' & Hrun & Hcx & Hres).
  { constructor; [by apply holds_start|done]. }
  exists ret, cx, s'. split; [exact Hrun|]. cbn in Hcx, Hres. split.
  - destruct Hres as [[-> Hc]|[-> ->]]; [by left|right]. destruct Hcx as [(Ho & Hl & _)%holds_end _]. by split_and!.
  - assert (Hd : runs (flb_router_chunk_context_destroy cx) s' (λ cx' s'', cx' = flb_router_chunk_context_init ∧
      lg_objects s'' = lg_objects s ∧ hp_live (lg_heap s'') ≡ₚ hp_live (lg_heap s))).
    { eapply context_reset_ok; [exact Hcx|]. by intros s2 (? & ? & _)%holds_end. }
    destruct Hd as (cx' & s'' & Hd & -> & ?). eauto.
Qed.

Lemma other_types_refused t data cx r c s : rt_condition r = Some c →
  t ≠ FLB_EVENT_TYPE_LOGS → t ≠ FLB_EVENT_TYPE_METRICS → t ≠ FLB_EVENT_TYPE_TRACES →
  flb_route_condition_eval (Some (mk_event_chunk t data)) cx r s = Some (false, cx, r, s).
Proof.
  intros Hr Hl Hm Ht. unfold flb_route_condition_eval, flb_router_signal_from_chunk. rewrite Hr. cbn [evk_type].
  by rewrite (proj2 (Z.eqb_neq _ _) Hl), (proj2 (Z.eqb_neq _ _) Hm), (proj2 (Z.eqb_neq _ _) Ht).
Qed.

(** A default route without rules that are joined by "or" takes the chunk, and none of its records. *)
Lemma default_or_disagree data cx r c record s : rt_condition r = Some c → rt_signals r = 0 →
  c = mk_route_condition [] true FLB_COND_OP_OR None 0 → calm (hp_env (lg_heap s)) →
  flb_route_condition_eval (Some (mk_event_chunk FLB_EVENT_TYPE_LOGS data)) cx r s = Some (true, cx, r, s) ∧
  ∃ r' s', flb_router_condition_evaluate_record r record s = Some (false, r', s').
Proof.
  intros Hr Hs -> Hc. split; [unfold flb_route_condition_eval; by rewrite Hr, Hs|].
  cut (runs (flb_router_condition_evaluate_record r record) s (λ x _, x.1 = false)).
  { intros ([b r'] & s' & Hrun & Hb). cbn in Hb. subst b. eauto. }
  unfold flb_router_condition_evaluate_record. rewrite Hr. unfold flb_router_route_get_condition. rewrite Hr.
  apply runs_bind, runs_on_heap, runs_bind. unfold route_condition_get_compiled. cbn [rc_compiled_status].
  change (0 =? FLB_ROUTE_CONDITION_COMPILED_FAILURE) with false. change (0 =? FLB_ROUTE_CONDITION_COMPILED_SUCCESS) with false. cbv iota.
  apply runs_bind. eapply runs_weaken; [by apply compile_ok; constructor|]. intros [cd|] h (_ & Hcd); [|by destruct Hcd as [_ Hno]; specialize (Hno Hc)].
  destruct Hcd as (_ & rules & Hru & [Hop _ Hm]). cbn in Hru. injection Hru as <-. apply runs_ret, runs_ret, runs_bind. unfold flb_condition_evaluate_ex.
  destruct (cd_rules cd); [|done]. rewrite Hop. by apply runs_ret, runs_ret.
Qed.
End conditions.

(** ** Concrete routes

    The chunk of [MpChunk]: a group whose metadata has "g" as "h", with two records that have "a" as "b".  Routes by
    a rule on the body, on the group, with an operator that is not known, a default route, and a path without one. *)
Definition ex_rule (field op value : string) (context : record_context_type) : flb_route_condition_rule :=
  mk_route_rule (Some (text field)) (Some (text op)) (Some (text value)) None 0 context.
Definition ex_route (is_default : bool) (rules : list flb_route_condition_rule) : flb_route (list Z) :=
  mk_route (text "r") FLB_ROUTER_SIGNAL_LOGS (Some (mk_route_condition rules is_default FLB_COND_OP_AND None 0)) false.
Definition ex_paths : list (option (flb_route (list Z))) := [
  Some (ex_route false [ex_rule "a" "EQ" "b" RECORD_CONTEXT_BODY; ex_rule "g" "regex" "h" RECORD_CONTEXT_GROUP_METADATA]);
  Some (ex_route false [ex_rule "a" "neq" "b" RECORD_CONTEXT_BODY; ex_rule "a" "eq" "c" RECORD_CONTEXT_BODY]);
  Some (ex_route false [ex_rule "a" "like" "b" RECORD_CONTEXT_BODY]);
  Some (ex_route true []); None ].

Lemma condition_compiled_once_witness : ∃ cd c' s',
  route_condition_get_compiled ex_ra ex_regex (mk_route_condition [ex_rule "a" "EQ" "b" RECORD_CONTEXT_BODY] false FLB_COND_OP_AND None 0) ex_heap
    = Some (Some cd, c', s') ∧
  condition_ok cd FLB_COND_OP_AND [mk_spec_rule (mk_accessor 128 [FLB_RA_PARSER_KEYMAP (Some (mk_ra_key (text "a") None))]) RECORD_CONTEXT_BODY FLB_RULE_OP_EQ (SPEC_STR (text "b"))].
Proof.
  destruct (condition_compiled_once ex_ra ex_regex ex_match
    (mk_route_condition [ex_rule "a" "EQ" "b" RECORD_CONTEXT_BODY] false FLB_COND_OP_AND None 0) ex_heap) as (r & c' & s' & Hr & _ & Hcd & _).
  - repeat constructor.
  - reflexivity.
  - reflexivity.
  - destruct r as [cd|]; [|specialize (Hcd (conj eq_refl eq_refl)); vm_compute in Hcd; discriminate].
    destruct Hcd as (rules & Hru & Hok). vm_compute in Hru. injection Hru as <-. exists cd, c', s'. split; [exact Hr|exact Hok].
Defined.

Lemma routes_decided_exact_witness (bits := λ _ : double, @nil Z) : ∃ paths' s',
  route_chunk ex_ra ex_regex ex_match ex_unpack (E := log_event_encoder) (H := log_event_encoder_RecordEncoder bits bits)
    (mk_event_chunk FLB_EVENT_TYPE_LOGS (Some ex_buffer)) ex_paths ex_log = Some ([true; false; false; true; true], paths', s') ∧
  lg_objects s' = ∅.
Proof.
  destruct (routes_decided_exact ex_ra ex_regex ex_match ex_unpack (E := log_event_encoder)
    (H := log_event_encoder_RecordEncoder bits bits) ex_buffer (ex_object <$> ex_buffer) ex_events ex_paths [] ex_log ex_unpack_ok)
    as (paths' & s' & Hr & _ & _ & Ho & _).
  - by vm_compute.
  - exact ex_all_objects.
  - repeat constructor.
  - exact ex_log_ok.
  - done.
  - done.
  - repeat constructor; discriminate.
  - vm_compute. reflexivity.
  - exists paths', s'. split; [|exact Ho].
    assert (Hs : spec_route ex_ra ex_regex ex_match (views_of (None, None) ex_events) <$> ex_paths = [true; false; false; true; true])
      by (vm_compute; reflexivity).
    rewrite <- Hs. exact Hr.
Defined.

(** The fourth allocation, of the chunk, fails; the others would not. *)
Definition ex_short : log_state := mk_log (mk_heap (mk_env [true; true; true; false] [] [] 0 1 []) []) ∅.
Lemma prepare_all_or_nothing_witness (bits := λ _ : double, @nil Z) : ∃ s',
  flb_router_chunk_context_prepare_logs (E := log_event_encoder) (H := log_event_encoder_RecordEncoder bits bits) (regex := list Z) ex_match ex_unpack
    flb_router_chunk_context_init (mk_event_chunk FLB_EVENT_TYPE_LOGS (Some ex_buffer)) ex_short = Some (-1, flb_router_chunk_context_init, s') ∧
  hp_live (lg_heap s') ≡ₚ [].
Proof.
  destruct (prepare_all_or_nothing ex_match ex_unpack (E := log_event_encoder)
    (H := log_event_encoder_RecordEncoder bits bits) ex_buffer (ex_object <$> ex_buffer) (-12) ex_short ex_unpack_ok)
    as (ret & cx & s' & Hr & [[-> _]|(-> & -> & _ & Hl)] & _).
  - by vm_compute.
  - exact (da_stream _ _ _ _ ex_decodable).
  - repeat constructor; by eexists.
  - split; [intros a Ha; by apply elem_of_nil in Ha|intros a [v Hv]; exact (match lookup_empty_Some _ _ Hv with end)].
  - exfalso. revert Hr. vm_compute. discriminate.
  - exists s'. split; [exact Hr|exact Hl].
Defined.
