(* ===== verification/ChunkEncode.v ===== *)
(** * Encoding the records of chunks ([src/flb_mp.c])

    The objects of a record are packed into a buffer, and the records of a chunk go through an encoder of
    the interface [RecordEncoder].  The packer's results are not looked at in the code: when memory runs out
    in between, bytes are missing. *)
From S2P Require Import Prelude CStd Env Heap MsgPack LogDecoder Packer LogEncoder RecordEncoder Conditions MpChunk.

(** Nested variants *)
Section variant_ind.
Variable P : cfl_variant → Prop.
Definition is_leaf (v : cfl_variant) : bool := match v with CFL_VARIANT_ARRAY _ | CFL_VARIANT_KVLIST _ => false | _ => true end.
Hypothesis Hleaf : ∀ v, is_leaf v = true → P v.
Hypothesis Harray : ∀ l, Forall P l → P (CFL_VARIANT_ARRAY l).
Hypothesis Hkvlist : ∀ l, Forall (λ kv, P kv.2) l → P (CFL_VARIANT_KVLIST l).

Lemma cfl_variant_nested_ind : ∀ v, P v.
Proof.
  fix IH 1. intros v. destruct v as [| | | | | | | |l|l]; try (apply Hleaf; reflexivity).
  - apply Harray. induction l as [|x l IHl]; constructor; [apply IH|apply IHl].
  - apply Hkvlist. induction l as [|[k x] l IHl]; constructor; [apply IH|apply IHl].
Qed.
End variant_ind.

Section encode.
Context (float_bits double_bits : double → list Z).

(** ** Objects *)

(** Calls to the packer whose results are not used *)
Fixpoint write_all (ws : list (list Z)) (b : msgpack_sbuffer) : M heap msgpack_sbuffer :=
  match ws with
  | [] => mret b
  | w :: ws' => '(_, b) ← msgpack_sbuffer_write w b; write_all ws' b
  end.
Definition pack (p : packed) : msgpack_sbuffer → M heap msgpack_sbuffer := write_all (packed_bytes float_bits double_bits p).

(** The code over a buffer; [MsgPack.mp_cfl_to_msgpack] is the calls it makes while no write fails. *)
Fixpoint mp_cfl_to_sbuffer (var : cfl_variant) (b : msgpack_sbuffer) : M heap msgpack_sbuffer :=
  match var with
  | CFL_VARIANT_BOOL x => pack (pack_bool x) b
  | CFL_VARIANT_INT i => pack (pack_int64 i) b
  | CFL_VARIANT_UINT u => pack (pack_uint64 u) b
  | CFL_VARIANT_DOUBLE d => pack (pack_double d) b
  | CFL_VARIANT_NULL => pack pack_nil b
  | CFL_VARIANT_REFERENCE => mret b
  | CFL_VARIANT_STRING s => pack (pack_str s) b
  | CFL_VARIANT_BYTES s => pack (pack_bin s) b
  | CFL_VARIANT_ARRAY l =>
      b ← pack (pack_array (zlen l)) b;
      (fix elements l b := match l with [] => mret b | v :: l' => b ← mp_cfl_to_sbuffer v b; elements l' b end) l b
  | CFL_VARIANT_KVLIST l =>
      '(_, b, mh) ← flb_mp_map_header_init b;
      '(b, mh) ← (fix pairs l b mh := match l with
                  | [] => mret (b, mh)
                  | (key, v) :: l' =>
                      b ← pack (pack_str key) b; b ← mp_cfl_to_sbuffer v b; pairs l' b (flb_mp_map_header_append mh)
                  end) l b mh;
      deref (flb_mp_map_header_end mh b)
  end.

(** What is at [out_buf], NULL or a block, with the bytes; the whole result is [None] for -1. *)
Definition flb_mp_cfl_to_msgpack (obj : option nat) : M log_state (option (option nat * list Z)) :=
  match obj with
  | None => mret None
  | Some o =>
      v ← variant_of o; v ← deref v;
      b ← on_heap (mp_cfl_to_sbuffer v msgpack_sbuffer_init);
      mret (Some (sb_data b, sb_content b))
  end.

Definition generate_empty_msgpack_map : M heap (option (option nat * list Z)) :=
  b ← write_all [msgpack_pack_map 0] msgpack_sbuffer_init; mret (Some (sb_data b, sb_content b)).

(** What a caller passes on: NULL, or bytes *)
Definition bytes_at (buf : option nat * list Z) : option (list Z) := (λ _, buf.2) <$> buf.1.

(** ** Chunks *)

(** The type of a record, of its seconds alone *)
Definition record_type_of (t : flb_time) : Z :=
  if 0 <=? tv_sec t then FLB_LOG_EVENT_NORMAL
  else if tv_sec t =? FLB_LOG_EVENT_GROUP_START then FLB_LOG_EVENT_GROUP_START
  else if tv_sec t =? FLB_LOG_EVENT_GROUP_END then FLB_LOG_EVENT_GROUP_END
  else FLB_LOG_EVENT_NORMAL.

Context {E : Type} `{RecordEncoder E} {regex : Type}.

(** The attributes of its group are the body of the start of a group. *)
Definition body_object (record_type : Z) (record : flb_mp_chunk_record) : option nat :=
  match mr_cobj_group_attributes record with
  | Some a => if record_type =? FLB_LOG_EVENT_GROUP_START then Some a else mr_cobj_record record
  | None => mr_cobj_record record
  end.
Definition part_or (empty : M log_state (option (option nat * list Z))) (obj : option nat) : M log_state (option (option nat * list Z)) :=
  match obj with Some o => flb_mp_cfl_to_msgpack (Some o) | None => empty end.

(** A part in a buffer, given to the encoder, and freed *)
Definition set_part (part : M log_state (option (option nat * list Z))) (set : option (list Z) → E → M heap (Z * E)) (e : E)
    : M log_state (Z * E) :=
  buf ← part;
  match buf with
  | None => mret (-1, e)
  | Some buf =>
      '(ret, e) ← on_heap (set (bytes_at buf) e);
      on_heap (free_opt buf.1) ≫= λ _,
      mret (if ret =? FLB_EVENT_ENCODER_SUCCESS then 0 else -1, e)
  end.

(** A record; which results count as failures, and what stands for a part that is missing, differs between the
    callers. *)
Definition encode_with (failed : Z → bool) (empty : M heap (option (option nat * list Z))) (record : flb_mp_chunk_record) (e : E)
    : M log_state (Z * E) :=
  '(ret, e) ← on_heap (encoder_begin_record e);
  if failed ret then mret (-1, e) else
  '(ret, e) ← on_heap (encoder_set_timestamp (ev_timestamp (mr_event record)) e);
  if failed ret then mret (-1, e) else
  let record_type := record_type_of (ev_timestamp (mr_event record)) in
  '(ret, e) ← set_part (part_or (on_heap empty) (mr_cobj_metadata record)) encoder_set_metadata_from_raw_msgpack e;
  if negb (ret =? 0) then mret (-1, e) else
  '(ret, e) ← set_part (part_or (on_heap empty) (body_object record_type record)) encoder_set_body_from_raw_msgpack e;
  if negb (ret =? 0) then mret (-1, e) else
  '(ret, e) ← on_heap (encoder_commit_record e);
  mret (if failed ret then -1 else 0, e).

(** Beginning and committing fail only with -1 here, which is none of their results. *)
Definition encode_record : flb_mp_chunk_record → E → M log_state (Z * E) := encode_with (λ ret, ret =? -1) generate_empty_msgpack_map.

Fixpoint encode_records (records : list flb_mp_chunk_record) (e : E) : M log_state (Z * E) :=
  match records with
  | [] => mret (0, e)
  | record :: records' =>
      '(ret, e) ← encode_record record e;
      if ret =? -1 then mret (-1, e) else encode_records records' e
  end.

(** The result, and on success the output buffer, which the caller owns, with its bytes *)
Definition flb_mp_chunk_cobj_encode (c : option (@flb_mp_chunk_cobj regex)) (e : E)
    : M log_state (Z * option (option nat * list Z) * E) :=
  match c with
  | None => mret (-1, None, e)
  | Some c =>
      '(ret, e) ← encode_records (cc_records c) e;
      if ret =? -1 then mret (-1, None, e)
      else
        out ← deref (encoder_output e);
        mret (0, Some (encoder_output_buffer e, out), encoder_claim_internal_buffer_ownership e)
  end.

(** ** What is written *)

(** The bytes of an object *)
Definition bytes_of (ps : list packed) : list Z := ps ≫= λ p, concat (packed_bytes float_bits double_bits p).
Definition variant_bytes (v : cfl_variant) : list Z := bytes_of (mp_cfl_to_msgpack v).
Lemma bytes_cons p ps : bytes_of (p :: ps) = concat (packed_bytes float_bits double_bits p) ++ bytes_of ps.
Proof. done. Qed.
Lemma bytes_app ps ps' : bytes_of (ps ++ ps') = bytes_of ps ++ bytes_of ps'.
Proof. unfold bytes_of. by rewrite bind_app. Qed.
Definition follows (b : msgpack_sbuffer) (bytes : list Z) (b' : msgpack_sbuffer) : Prop :=
  sb_ok b' ∧ sb_content b' = sb_content b ++ bytes.

Lemma calm_write_all ws b : sb_ok b → zlen (sb_content b ++ concat ws) < 2 ^ 64 →
  calm_run (sb_blocks b) (write_all ws b) sb_blocks (follows b (concat ws)).
Proof.
  revert b. induction ws as [|w ws IH]; intros b Hb Hlen; cbn [write_all concat].
  - apply calm_ret; [done|]. split; [done|]. by rewrite app_nil_r.
  - cbn [concat] in Hlen. pose proof (zlen_nonneg (concat ws)). eapply calm_bind.
    { apply calm_write; [done|]. rewrite !zlen_app in *. lia. }
    intros [ret b'] (_ & Hb' & Hct & _). cbn in Hb', Hct. eapply calm_weaken.
    + apply IH; [done|]. by rewrite Hct, <- app_assoc.
    + intros b'' [? Hct']. split; [done|]. split; [done|]. by rewrite Hct', Hct, <- app_assoc.
Qed.

Lemma calm_pack p b : sb_ok b → zlen (sb_content b ++ concat (packed_bytes float_bits double_bits p)) < 2 ^ 64 →
  calm_run (sb_blocks b) (pack p b) sb_blocks (follows b (concat (packed_bytes float_bits double_bits p))).
Proof. apply calm_write_all. Qed.

(** One step and the rest *)
Lemma calm_then {A} b (m : M heap msgpack_sbuffer) bytes rest (f : msgpack_sbuffer → M heap A) own (post : A → Prop) :
  zlen (sb_content b ++ bytes ++ rest) < 2 ^ 64 →
  (zlen (sb_content b ++ bytes) < 2 ^ 64 → calm_run (sb_blocks b) m sb_blocks (follows b bytes)) →
  (∀ b', sb_ok b' → sb_content b' = sb_content b ++ bytes → zlen (sb_content b' ++ rest) < 2 ^ 64 → calm_run (sb_blocks b') (f b') own post) →
  calm_run (sb_blocks b) (m ≫= f) own post.
Proof.
  intros Hlen Hm Hf. pose proof (zlen_nonneg rest). eapply calm_bind; [apply Hm; rewrite !zlen_app in *; lia|].
  intros b' [Hb' Hc]. apply Hf; [done|done|]. by rewrite Hc, <- app_assoc.
Qed.

Lemma calm_after b bytes b' bytes' m : sb_content b' = sb_content b ++ bytes →
  calm_run (sb_blocks b') m sb_blocks (follows b' bytes') → calm_run (sb_blocks b') m sb_blocks (follows b (bytes ++ bytes')).
Proof.
  intros Hc Hm. eapply calm_weaken; [exact Hm|]. intros b'' [? Hc']. split; [done|]. split; [done|]. by rewrite Hc', Hc, <- app_assoc.
Qed.
Lemma calm_same b : sb_ok b → calm_run (sb_blocks b) (mret b) sb_blocks (follows b []).
Proof. intros Hb. apply calm_ret; [done|]. split; [done|]. by rewrite app_nil_r. Qed.

Lemma cfl_to_sbuffer_ok v : ∀ b, sb_ok b → zlen (sb_content b ++ variant_bytes v) < 2 ^ 64 →
  calm_run (sb_blocks b) (mp_cfl_to_sbuffer v b) sb_blocks (follows b (variant_bytes v)).
Proof.
  assert (Hleaf : ∀ p b, sb_ok b → zlen (sb_content b ++ bytes_of [p]) < 2 ^ 64 →
    calm_run (sb_blocks b) (pack p b) sb_blocks (follows b (bytes_of [p]))).
  { intros p b Hb. rewrite bytes_cons. cbn. rewrite app_nil_r. by apply calm_pack. }
  induction v as [v Hv|l IH|l IH] using cfl_variant_nested_ind; intros b Hb Hlen.
  - destruct v; try discriminate Hv; cbn [mp_cfl_to_sbuffer]; try (by apply Hleaf).
    by apply calm_same.
  - cbn [mp_cfl_to_sbuffer]. match goal with |- context [?f l] => set (elements := f) end.
    assert (Hel : ∀ b1, sb_ok b1 → zlen (sb_content b1 ++ bytes_of (l ≫= mp_cfl_to_msgpack)) < 2 ^ 64 →
      calm_run (sb_blocks b1) (elements l b1) sb_blocks (follows b1 (bytes_of (l ≫= mp_cfl_to_msgpack)))).
    { clear b Hb Hlen. induction IH as [|v l Hv _ IHl]; intros b2 Hb2 Hlen2; cbn [elements].
      - by apply calm_same.
      - rewrite bind_cons, bytes_app in *. eapply calm_then; [exact Hlen2|by apply Hv|]. intros b3 Hb3 Hc3 Hlen3.
        eapply calm_after; [exact Hc3|by apply IHl]. }
    unfold variant_bytes in *. cbn [mp_cfl_to_msgpack] in *. rewrite bytes_cons in *.
    eapply calm_then; [exact Hlen|by apply calm_pack|]. intros b1 Hb1 Hc1 Hlen1. eapply calm_after; [exact Hc1|by apply Hel].
  - cbn [mp_cfl_to_sbuffer]. match goal with |- context [?f l] => set (pairs := f) end. set (entry := λ kv : list Z * cfl_variant, pack_str kv.1 :: mp_cfl_to_msgpack kv.2).
    assert (Hpairs : ∀ b1 mh, sb_ok b1 → zlen (sb_content b1 ++ bytes_of (l ≫= entry)) < 2 ^ 64 → 0 <= mh_entries mh < 2 ^ 64 →
      calm_run (sb_blocks b1) (pairs l b1 mh) (λ r, sb_blocks r.1)
        (λ r, follows b1 (bytes_of (l ≫= entry)) r.1 ∧ r.2 = mk_header (mh_offset mh) (u64 (mh_entries mh + zlen l)))).
    { clear b Hb Hlen. induction IH as [|[k v] l Hv _ IHl]; intros b2 mh Hb2 Hlen2 Hmh; cbn [pairs].
      - apply calm_ret; [done|]. split; [split; [done|by rewrite app_nil_r]|]. cbn. rewrite Z.add_0_r. unfold u64. rewrite Z.mod_small by done.
        by destruct mh.
      - rewrite bind_cons, bytes_app in Hlen2 |- *. change (entry (k, v)) with (pack_str k :: mp_cfl_to_msgpack v) in Hlen2 |- *.
        rewrite bytes_cons, <- app_assoc in Hlen2 |- *.
        eapply calm_then; [exact Hlen2|by apply calm_pack|]. intros b3 Hb3 Hc3 Hlen3.
        eapply calm_then; [exact Hlen3|by apply Hv|]. intros b4 Hb4 Hc4 Hlen4.
        eapply calm_weaken; [apply IHl; [done|done|apply Z.mod_pos_bound; lia]|].
        intros [b5 mh5] [[Hb5 Hc5] Hmh5]. cbn [fst snd] in *. split; [done|]. split; [split; [done|]|].
        + by rewrite Hc5, Hc4, Hc3, <- !app_assoc.
        + rewrite Hmh5. cbn. f_equal. unfold u64. rewrite Zplus_mod_idemp_l, zlen_cons. f_equal. lia. }
    unfold variant_bytes in *. cbn [mp_cfl_to_msgpack] in *. fold entry in Hlen |- *. rewrite bytes_cons in *.
    assert (Hh : ∀ n, concat (packed_bytes float_bits double_bits (pack_map32 n)) = 0xdf :: store32 n) by done. rewrite Hh in *.
    rewrite !zlen_app in Hlen. unfold flb_mp_map_header_init.
    eapply calm_bind with (mid := λ r, sb_blocks r.1.2) (mid_post := λ r, r.2 = mk_header (zlen (sb_content b)) 0 ∧ follows b (0xdf :: store32 65536) r.1.2).
    { eapply calm_bind; [apply (calm_write b (msgpack_pack_map 65536)); [done|]|].
      - rewrite zlen_app. pose proof (zlen_nonneg (bytes_of (l ≫= entry))). change (zlen (msgpack_pack_map 65536)) with 5.
        change (zlen (0xdf :: store32 (zlen l))) with 5 in Hlen. lia.
      - intros [r b1] (_ & Hb1 & Hc1 & _). apply calm_ret; [done|]. split; [|by split]. cbn. by rewrite zlen_content. }
    intros [[r b1] mh] [Hmh [Hb1 Hc1]]. cbn [fst snd] in *. subst mh.
    eapply calm_bind; [apply Hpairs; [done| |cbn; lia]|].
    { rewrite Hc1, !zlen_app. change (zlen (0xdf :: store32 65536)) with 5. change (zlen (0xdf :: store32 (zlen l))) with 5 in Hlen. lia. }
    intros [b2 mh] [[Hb2 Hc2] Hmh]. cbn [fst snd mh_offset mh_entries] in *. subst mh. rewrite Hc1, <- app_assoc in Hc2.
    destruct (map_header_end_ok b2 (sb_content b) (bytes_of (l ≫= entry)) (u64 (0 + zlen l)) Hb2 Hc2) as (b3 & Hend & Hb3 & Hd3 & Hc3).
    eapply calm_deref; [exact Hend|unfold sb_blocks; by rewrite Hd3|]. split; [done|]. by rewrite Hc3, store32_u64.
Qed.

Lemma bounded_write_all ws b : bounded (write_all ws b).
Proof. revert b. induction ws as [|w ws IH]; intros b; cbn [write_all]; solve_bounded. Qed.
Lemma bounded_pack p b : bounded (pack p b).
Proof. apply bounded_write_all. Qed.
#[local] Hint Resolve bounded_pack bounded_write_all : bounded.
Lemma bounded_cfl v : ∀ b, bounded (mp_cfl_to_sbuffer v b).
Proof.
  induction v as [v Hv|l IH|l IH] using cfl_variant_nested_ind; intros b.
  - destruct v; try discriminate Hv; cbn [mp_cfl_to_sbuffer]; solve_bounded.
  - cbn [mp_cfl_to_sbuffer]. apply bounded_bind; [solve_bounded|]. clear b. induction IH as [|v l Hv _ IHl]; intros b; solve_bounded.
  - cbn [mp_cfl_to_sbuffer]. unfold flb_mp_map_header_init. apply bounded_bind; [solve_bounded|]. intros [[r b1] mh].
    apply bounded_bind; [|solve_bounded]. clear b r. revert b1 mh. induction IH as [|[k v] l Hv _ IHl]; intros b mh; cbn [snd] in *; solve_bounded.
Qed.

(** ** Records *)

(** A record whose parts are in the store, and its bytes *)
Definition encodes_as (objects : gmap nat (option cfl_variant)) (r : flb_mp_chunk_record) (bytes : list Z) : Prop :=
  ∃ m mv b bv, let t := ev_timestamp (mr_event r) in
    mr_cobj_metadata r = Some m ∧ objects !! m = Some (Some mv) ∧ is_leaf mv = false ∧
    body_object (record_type_of t) r = Some b ∧ objects !! b = Some (Some bv) ∧ is_leaf bv = false ∧
    bytes = record_bytes t (variant_bytes mv) (variant_bytes bv).

Lemma container_bytes v : is_leaf v = false → variant_bytes v ≠ [].
Proof.
  destruct v as [| | | | | | | |l|l]; try done; intros _; unfold variant_bytes; cbn [mp_cfl_to_msgpack]; rewrite bytes_cons; intros He;
    apply app_eq_nil in He as [He _]; revert He; cbn; unfold msgpack_pack_array; repeat case_match; done.
Qed.

(** An encoder at work next to other blocks and objects *)
Record encoding (base : gmap nat (option cfl_variant)) (B O : list nat) (out : list Z) (p : pending) (e : E) (s : log_state) : Prop := {
  en_holds : holds base (encoder_blocks e ++ B) O s;
  en_calm : calm (hp_env (lg_heap s));
  en_at : encoder_at out p e
}.

Lemma encoder_call_ok base B O out p e call after s (Q : Z * E → log_state → Prop) : encoding base B O out p e s →
  bounded call → encoder_call encoder_blocks e call after →
  (∀ e' s', after e' → holds base (encoder_blocks e' ++ B) O s' → calm (hp_env (lg_heap s')) → lg_objects s' = lg_objects s →
     Q (FLB_EVENT_ENCODER_SUCCESS, e') s') →
  runs (on_heap call) s Q.
Proof.
  intros [Hh Hc _] Hb Hcall HQ. eapply on_heap_calm; [exact Hh|exact Hc|exact Hb|exact Hcall|].
  intros [ret e'] s' Hh' Hc' Ho [Hr He]. cbn in Hr, He, Hh'. subst ret. by apply HQ.
Qed.

Lemma set_part_ok base B O out p p' e o v empty set s (Q : Z * E → log_state → Prop) : encoding base B O out p e s →
  lg_objects s !! o = Some (Some v) → is_leaf v = false → zlen (variant_bytes v) < 2 ^ 64 →
  (∀ md e, bounded (set md e)) → encoder_call encoder_blocks e (set (Some (variant_bytes v)) e) (encoder_at out p') →
  (∀ e' s', encoding base B O out p' e' s' → lg_objects s' = lg_objects s → Q (0, e') s') →
  runs (set_part (part_or empty (Some o)) set e) s Q.
Proof.
  intros [Hh Hc He] Ho Hleaf Hlen Hb Hset HQ. unfold set_part, part_or, flb_mp_cfl_to_msgpack. apply runs_bind, runs_bind.
  exists (Some v), s. split; [unfold variant_of; by rewrite Ho|]. apply runs_bind. eapply runs_deref; [reflexivity|]. apply runs_bind.
  eapply (on_heap_calm _ []); [exact Hh|exact Hc|apply bounded_cfl| |].
  { apply (cfl_to_sbuffer_ok v msgpack_sbuffer_init); [apply sb_init_ok|exact Hlen]. }
  intros b s1 Hh1 Hc1 Ho1 [Hb1 Hct]. cbn in Hct. apply runs_ret.
  assert (Hd : is_Some (sb_data b)).
  { destruct (sb_data b) eqn:Hd; [by eexists|]. destruct (content_empty b Hb1 Hd) as [He0 _]. rewrite Hct in He0. by destruct (container_bytes v Hleaf). }
  destruct Hd as [a Hd]. rewrite Hd, Hct. unfold bytes_at. cbn [fst snd fmap option_fmap option_map]. unfold sb_blocks in Hh1. rewrite Hd in Hh1. cbn in Hh1.
  apply runs_bind. eapply (on_heap_calm _ (encoder_blocks e) (a :: B)); [|exact Hc1|apply Hb|exact Hset|].
  { eapply holds_perm; [exact Hh1|by rewrite Permutation_middle|done]. }
  intros [ret e'] s2 Hh2 Hc2 Ho2 [Hr He']. cbn [fst snd] in *. subst ret. apply runs_bind.
  eapply free_ok; [eapply holds_perm; [exact Hh2|by rewrite <- Permutation_middle|done]|].
  intros s3 Hh3 Ho3 He3. apply runs_ret. change (FLB_EVENT_ENCODER_SUCCESS =? FLB_EVENT_ENCODER_SUCCESS) with true. cbv iota. apply HQ.
  - constructor; [done|by rewrite He3|done].
  - by rewrite Ho3, Ho2, Ho1.
Qed.

(** The record is appended to the output. *)
Definition encoded base B O out (s : log_state) (res : Z * E) (s' : log_state) : Prop :=
  res.1 = 0 ∧ lg_objects s' = lg_objects s ∧ ∃ p, encoding base B O out p res.2 s'.

Lemma encode_with_ok failed empty base B O out p e r bytes s : failed FLB_EVENT_ENCODER_SUCCESS = false → encoding base B O out p e s → encodes_as (lg_objects s) r bytes →
  zlen (out ++ bytes) < 2 ^ 64 →
  runs (encode_with failed empty r e) s (encoded base B O (out ++ bytes) s).
Proof.
  intros Hok Hen (m & mv & b & bv & Hm & Hmv & Hml & Hb & Hbv & Hbl & ->) Hlen.
  assert (Hlens : zlen (variant_bytes mv) < 2 ^ 64 ∧ zlen (variant_bytes bv) < 2 ^ 64).
  { unfold record_bytes in Hlen. rewrite !zlen_app in Hlen. pose proof (zlen_nonneg out). pose proof (zlen_nonneg (variant_bytes mv)).
    pose proof (zlen_nonneg (variant_bytes bv)). pose proof (zlen_nonneg (timestamp_bytes (ev_timestamp (mr_event r)))).
    change (zlen [221; 0; 0; 0; 2]) with 5 in Hlen. lia. }
  destruct Hlens as [Hmlen Hblen]. unfold encode_with. rewrite Hm, Hb.
  apply runs_bind. eapply encoder_call_ok; [exact Hen|apply encoder_begin_bounded|eapply encoder_begin_law, Hen|].
  intros e1 s1 He1 Hh1 Hc1 Ho1. rewrite Hok. apply runs_bind.
  eapply encoder_call_ok; [by constructor|apply encoder_timestamp_bounded|by apply encoder_timestamp_law|].
  intros e2 s2 He2 Hh2 Hc2 Ho2. rewrite Hok. apply runs_bind.
  eapply set_part_ok; [by constructor|by rewrite Ho2, Ho1|done|done|apply encoder_metadata_bounded|by apply encoder_metadata_law|].
  intros e3 s3 Hen3 Ho3. cbn [Z.eqb negb]. apply runs_bind.
  eapply set_part_ok; [exact Hen3|by rewrite Ho3, Ho2, Ho1|done|done|apply encoder_body_bounded|apply encoder_body_law; [apply Hen3|done]|].
  intros e4 s4 Hen4 Ho4. cbn [Z.eqb negb]. apply runs_bind.
  eapply encoder_call_ok; [exact Hen4|apply encoder_commit_bounded|apply encoder_commit_law; [apply Hen4| | |]|].
  - by apply container_bytes.
  - by apply container_bytes.
  - exact Hlen.
  - intros e5 s5 [p5 He5] Hh5 Hc5 Ho5. rewrite Hok. apply runs_ret. split; [done|]. split; [by rewrite Ho5, Ho4, Ho3, Ho2, Ho1|].
    exists p5. by constructor.
Qed.

Lemma encode_records_ok base B O rs bytes : ∀ out p e s, encoding base B O out p e s → Forall2 (encodes_as (lg_objects s)) rs bytes →
  zlen (out ++ concat bytes) < 2 ^ 64 →
  runs (encode_records rs e) s (encoded base B O (out ++ concat bytes) s).
Proof.
  revert bytes. induction rs as [|r rs IH]; intros bytes out p e s Hen Hf Hlen.
  - apply Forall2_nil_inv_l in Hf as ->. cbn in *. rewrite app_nil_r in *. apply runs_ret. split; [done|]. split; [done|]. by exists p.
  - apply Forall2_cons_inv_l in Hf as (x & bytes' & Hr & Hf & ->). cbn [encode_records concat] in *. pose proof (zlen_nonneg (concat bytes')).
    apply runs_bind. eapply runs_weaken; [eapply encode_with_ok; [done|exact Hen|exact Hr|rewrite !zlen_app in *; lia]|].
    intros [ret e1] s1 (Hr1 & Ho1 & p1 & Hen1). cbn [fst snd] in *. subst ret. cbn [Z.eqb].
    eapply runs_weaken; [eapply IH; [exact Hen1|by rewrite Ho1|by rewrite <- app_assoc]|].
    intros res s2 (? & Ho2 & p2 & Hen2). rewrite <- app_assoc in Hen2. split; [done|]. split; [by rewrite Ho2|by exists p2].
Qed.

Lemma cobj_encode_ok base B O c rs_bytes out p e s : encoding base B O out p e s → Forall2 (encodes_as (lg_objects s)) (cc_records c) rs_bytes →
  zlen (out ++ concat rs_bytes) < 2 ^ 64 →
  runs (flb_mp_chunk_cobj_encode (Some c) e) s (λ '(ret, buf, e') s', ret = 0 ∧ lg_objects s' = lg_objects s ∧
    ∃ blk e0 p0, buf = Some (blk, out ++ concat rs_bytes) ∧ e' = encoder_claim_internal_buffer_ownership e0 ∧
      encoder_at (out ++ concat rs_bytes) p0 e0 ∧ calm (hp_env (lg_heap s')) ∧
      holds base (encoder_blocks e' ++ option_list blk ++ B) O s').
Proof.
  intros Hen Hf Hlen. unfold flb_mp_chunk_cobj_encode. apply runs_bind.
  eapply runs_weaken; [by eapply encode_records_ok|]. intros [ret e0] s1 (Hr & Ho & p0 & [Hh Hc He]). cbn [fst snd] in *. subst ret. cbn [Z.eqb].
  apply runs_bind. eapply runs_deref; [by apply (encoder_output_law _ p0)|]. apply runs_ret. split; [done|]. split; [done|].
  exists (encoder_output_buffer e0), e0, p0. split_and!; try done.
  eapply holds_perm; [exact Hh| |done]. destruct (encoder_claim_law _ _ _ He) as [-> _]. rewrite !app_assoc. f_equiv. apply Permutation_app_comm.
Qed.

(** ** Chunks that were read *)

(** The bytes of an event that is packed again: its objects, with numbers of double precision and 32 bits for the
    sizes of maps *)
Definition part_bytes (o : option msgpack_object) : list Z := match o with Some o => bytes_of (pack_object (widen o)) | None => [] end.
Definition event_bytes (e : flb_log_event) : list Z := record_bytes (ev_timestamp e) (part_bytes (ev_metadata e)) (part_bytes (ev_body e)).

Lemma part_at_bytes objects obj o : part_at objects obj o → convertible_part o = true →
  ∃ a v, obj = Some a ∧ objects !! a = Some (Some v) ∧ is_leaf v = false ∧ part_bytes o = variant_bytes v.
Proof.
  intros (a & v & -> & Ha & Ho) Hc. destruct o as [o|]; [|done]. cbn in Ho, Hc. apply andb_prop in Hc as [Hc _].
  exists a, v. pose proof (cfl_of_packs o) as Hp. rewrite Ho in Hp. destruct Hp as [_ Hp]. split_and!; [done|done| |by unfold part_bytes, variant_bytes; rewrite Hp].
  destruct o; try discriminate Hc; cbn [cfl_of] in Ho; by destruct ((fix f l := match l with [] => _ | _ => _ end) _); inversion Ho.
Qed.

Lemma record_type_start e : record_type_of (ev_timestamp e) = FLB_LOG_EVENT_GROUP_START →
  flb_log_event_decoder_get_record_type e = Some FLB_LOG_EVENT_GROUP_START.
Proof.
  unfold flb_log_event_decoder_get_record_type, record_type_of. destruct (0 <=? tv_sec (ev_timestamp e)); [done|].
  destruct (Z.eqb_spec (tv_sec (ev_timestamp e)) FLB_LOG_EVENT_GROUP_START) as [->|]; [done|]. by case_match.
Qed.

Lemma records_encode objects es : Forall (λ x : Z * flb_log_event, flb_log_event_decoder_get_record_type x.2 = Some x.1 ∧
    convertible_part (ev_metadata x.2) = true ∧ convertible_part (ev_body x.2) = true) es →
  ∀ active rs, records_of objects active es rs → Forall2 (encodes_as objects) rs (event_bytes <$> es.*2).
Proof.
  induction 1 as [|[t e] es (Ht & Hcm & Hcb) _ IH]; intros active [|r rs] Hr; cbn in Hr; try done.
  destruct Hr as (Hm & Hb & Htime & Hg & Hr). cbn [fmap list_fmap snd] in *. constructor; [|by eapply IH].
  destruct (part_at_bytes _ _ _ Hm Hcm) as (m & mv & Hm1 & Hm2 & Hm3 & Hm4). destruct (part_at_bytes _ _ _ Hb Hcb) as (b & bv & Hb1 & Hb2 & Hb3 & Hb4).
  exists m, mv, b, bv. rewrite Htime. split_and!; try done; [|by unfold event_bytes; rewrite Hm4, Hb4].
  unfold body_object. destruct (mr_cobj_group_attributes r) as [a|] eqn:Ha; [|done].
  destruct (Z.eqb_spec (record_type_of (ev_timestamp e)) FLB_LOG_EVENT_GROUP_START) as [Hs|]; [|done].
  rewrite (record_type_start _ Hs) in Ht. injection Ht as <-. rewrite Z.eqb_refl in Hg. injection Hg as _ Hg. congruence.
Qed.

(** ** A chunk read and written again *)

Section reencode.
Variable regex_match : regex → list Z → Z.
Variable msgpack_unpack_next : list Z → Z → unpacked * Z.

(** What a processor does with a chunk: the records are read, encoded, and everything but the new buffer is freed *)
Definition reencode (d : flb_log_event_decoder) : M log_state (option (Z * option (option nat * list Z))) :=
  c ← flb_mp_chunk_cobj_create (regex := regex) d;
  match c with
  | None => mret None
  | Some c =>
      '(ret, c) ← read_all regex_match msgpack_unpack_next c;
      e ← on_heap (encoder_create (E := E));
      match e with
      | None => flb_mp_chunk_cobj_destroy (Some c) ≫= λ _, mret None
      | Some e =>
          '(ret, out, e) ← flb_mp_chunk_cobj_encode (Some c) e;
          on_heap (encoder_destroy e) ≫= λ _,
          flb_mp_chunk_cobj_destroy (Some c) ≫= λ _,
          mret (Some (ret, out))
      end
  end.

Lemma reencode_runs d buffer objs es s :
  unpacker_ok msgpack_unpack_next → state_ok s → calm (hp_env (lg_heap s)) → zlen buffer < 2 ^ 64 → dc_read_groups d = true →
  all_objects msgpack_unpack_next buffer 0 objs → Forall2 (λ o x, good_object o x.1 x.2) objs es →
  zlen (concat (event_bytes <$> es.*2)) < 2 ^ 64 →
  runs (reencode (flb_log_event_decoder_reset d buffer)) s (λ r s', ∃ blk, r = Some (0, Some (blk, concat (event_bytes <$> es.*2))) ∧
    lg_objects s' = lg_objects s ∧ hp_live (lg_heap s') ≡ₚ option_list blk ++ hp_live (lg_heap s)).
Proof.
  intros Hup Hst Hcalm H64 Hrg Hall Hes Hlen.
  unfold reencode, flb_mp_chunk_cobj_create. apply runs_bind, runs_bind, (alloc_ok _ _ _ _ _ (holds_start s Hst)); [done|].
  intros a s1 Hh1 Ho1 _ Hc1. apply runs_ret. cbn [fmap option_fmap option_map]. apply runs_bind.
  pose proof (all_objects_length _ _ _ _ Hup Hall ltac:(lia)) as Hle. unfold zlen in Hle.
  eapply runs_weaken; [eapply (read_exact regex_match msgpack_unpack_next (lg_objects s) (hp_live (lg_heap s)) [] buffer 0 objs);
    try done; [auto|apply NoDup_nil_2|cbn; lia]|].
  intros [ret c] s2 (-> & Hc2 & Hh2 & _ & _ & _ & _ & _ & rs & Hrs & Hr). cbn in Hrs. apply runs_bind.
  eapply on_heap_ok; [exact Hh2|apply encoder_create_bounded|]. eapply runs_weaken; [apply encoder_create_law|].
  intros [e|] h [Hca Hcr] s3 Hs3 Ho3 Hh3; [|tauto]. destruct Hcr as (Hl3 & p & Hat). specialize (Hh3 _ Hl3).
  assert (Hen : encoding (lg_objects s) (hp_live (lg_heap s2)) (chunk_owned c ++ []) [] p e s3).
  { constructor; [exact Hh3|rewrite Hs3; auto|done]. }
  assert (Henc : Forall2 (encodes_as (lg_objects s3)) (cc_records c) (event_bytes <$> es.*2)).
  { rewrite Ho3, Hrs. eapply records_encode; [|exact Hr]. clear -Hes. induction Hes as [|o [t e] objs es [_ ? ? ?] _ IH]; by constructor. }
  apply runs_bind. eapply runs_weaken; [by eapply cobj_encode_ok|].
  intros [[ret2 buf] e2] s4 (-> & Ho4 & blk & e0 & p0 & -> & -> & Hat0 & Hc4 & Hh4). apply runs_bind.
  destruct (encoder_claim_law _ _ _ Hat0) as [_ Hdestroy].
  eapply on_heap_ok; [exact Hh4|apply encoder_destroy_bounded|]. eapply runs_weaken; [eapply Hdestroy, Hh4|].
  intros [] h5 [Hl5 _] s5 _ _ Hh5. specialize (Hh5 _ Hl5). apply runs_bind.
  eapply cobj_destroy_ok; [eapply holds_perm; [exact Hh5| |done]|].
  { rewrite (ho_live _ _ _ _ Hh2). rewrite (Permutation_app_comm (option_list blk)), <- app_assoc. done. }
  intros s6 (? & Hl6 & _)%holds_end. apply runs_ret. exists blk. split; [done|]. split; [done|]. by rewrite Hl6, Permutation_app_comm.
Qed.

(** Encoding a chunk that was read gives the events back: when a buffer is a sequence of events that can be
    converted and nothing fails, every event is written once, in order, with its time and its objects packed -
    metadata and body of groups too - and afterwards only the new buffer is in memory. *)
Theorem chunk_reencoded d buffer objs es s :
  unpacker_ok msgpack_unpack_next → state_ok s → calm (hp_env (lg_heap s)) → zlen buffer < 2 ^ 64 → dc_read_groups d = true →
  all_objects msgpack_unpack_next buffer 0 objs → Forall2 (λ o x, good_object o x.1 x.2) objs es →
  zlen (concat (event_bytes <$> es.*2)) < 2 ^ 64 →
  ∃ blk s', reencode (flb_log_event_decoder_reset d buffer) s = Some (Some (0, Some (blk, concat (event_bytes <$> es.*2))), s') ∧
    lg_objects s' = lg_objects s ∧ hp_live (lg_heap s') ≡ₚ option_list blk ++ hp_live (lg_heap s).
Proof.
  intros. destruct (reencode_runs d buffer objs es s) as (r & s' & Hr & blk & -> & ? & ?); [done..|eauto].
Qed.
End reencode.
End encode.

(** The chunk of [MpChunk]: a start of a group, two records, and the end *)
Lemma chunk_reencoded_witness (bits := λ _ : double, @nil Z) : ∃ blk s',
  reencode bits bits (E := log_event_encoder) (H := log_event_encoder_RecordEncoder bits bits) ex_match ex_unpack
    (flb_log_event_decoder_reset ex_group_decoder ex_buffer) ex_log = Some (Some (0, Some (blk, concat (event_bytes bits bits <$> ex_events.*2))), s') ∧
  lg_objects s' = ∅ ∧
  concat (event_bytes bits bits <$> ex_events.*2) =
    let start := [0xdd; 0; 0; 0; 2; 0xdd; 0; 0; 0; 2; 0xd7; 0; 255; 255; 255; 255; 0; 0; 0; 0] ++ [0xdf; 0; 0; 0; 1; 0xa1; 103; 0xa1; 104] ++ empty_map_bytes in
    let record := [0xdd; 0; 0; 0; 2; 0xdd; 0; 0; 0; 2; 0xd7; 0; 59; 154; 202; 0; 0; 0; 0; 0] ++ empty_map_bytes ++ [0xdf; 0; 0; 0; 1; 0xa1; 97; 0xa1; 98] in
    let group_end := [0xdd; 0; 0; 0; 2; 0xdd; 0; 0; 0; 2; 0xd7; 0; 255; 255; 255; 254; 0; 0; 0; 0] ++ empty_map_bytes ++ empty_map_bytes in
    start ++ record ++ record ++ group_end.
Proof.
  destruct (chunk_reencoded bits bits (E := log_event_encoder) (H := log_event_encoder_RecordEncoder bits bits) ex_match ex_unpack
    ex_group_decoder ex_buffer (ex_object <$> ex_buffer) ex_events ex_log ex_unpack_ok ex_log_ok) as (blk & s' & Hr & Ho & _).
  - done.
  - by vm_compute.
  - reflexivity.
  - exact ex_all_objects.
  - repeat constructor.
  - by vm_compute.
  - exists blk, s'. split; [exact Hr|]. split; [exact Ho|]. vm_compute. reflexivity.
Defined.
