(* ===== verification/LogSplit.v ===== *)
(** * Splitting logs by record ([src/flb_input_log.c])

    An input with routes that have conditions does not append its logs as they are: for every such route it
    builds a payload of the records that the route takes, with the groups they are in, and appends it under
    the name of the route.  What no other route takes goes to the default route. *)
From stdpp Require Import strings.
From S2P Require Import Prelude CStd Env Heap Router MsgPack CflAccessor LogDecoder Packer LogEncoder RecordEncoder Conditions MpChunk RouteCondition ChunkEncode.

(** ** Data *)

(** [data] with its size; [pl_route] is the place of the route among the routes of the input. *)
Record flb_route_payload := mk_payload {
  pl_block : nat; pl_route : nat; pl_is_default : bool; pl_tag : nat * list Z; pl_data : option (nat * list Z); pl_total_records : Z
}.
Definition set_pl_data (data : option (nat * list Z)) (total : Z) (p : flb_route_payload) : flb_route_payload :=
  mk_payload (pl_block p) (pl_route p) (pl_is_default p) (pl_tag p) data total.

Definition payload_blocks (p : flb_route_payload) : list nat :=
  pl_block p :: (pl_tag p).1 :: match pl_data p with Some d => [d.1] | None => [] end.

Definition route_payload_destroy (p : flb_route_payload) : M heap unit :=
  free_block (pl_tag p).1 ≫= λ _,
  match pl_data p with Some d => free_block d.1 | None => mret tt end ≫= λ _,
  free_block (pl_block p).
Definition route_payload_list_destroy (ps : list flb_route_payload) : M heap unit := foreach ps route_payload_destroy.

Definition route_payload_find (ps : list flb_route_payload) (route : nat) : option flb_route_payload :=
  List.find (λ p, Nat.eqb (pl_route p) route) ps.

Section split.
Context (float_bits double_bits : double → list Z).
Context {regex : Type}.
Variable cfl_ra_create : list Z → option flb_cfl_record_accessor.
Variable regex_create : list Z → option regex.
Variable regex_match : regex → list Z → Z.
Variable msgpack_unpack_next : list Z → Z → unpacked * Z.
Context {E : Type} `{RecordEncoder E}.
Abbreviation route := (flb_route regex).

(** ** One record *)

Definition encode_empty_map : M heap (option (option nat * list Z)) :=
  p ← alloc; mret ((λ a, (Some a, [0x80])) <$> p).
Definition encode_chunk_record : flb_mp_chunk_record → E → M log_state (Z * E) :=
  encode_with float_bits double_bits (λ ret, negb (ret =? FLB_EVENT_ENCODER_SUCCESS)) encode_empty_map.

(** ** The records that were selected *)

Definition record_type (record : flb_mp_chunk_record) : option Z := flb_log_event_decoder_get_record_type (mr_event record).
Definition is_type (t : Z) (record : flb_mp_chunk_record) : bool := bool_decide (record_type record = Some t).
Definition same_group_as (r start : flb_mp_chunk_record) : bool :=
  bool_decide (mr_cobj_group_metadata r = mr_cobj_group_metadata start).
(** The end of the group of [start] among the records that follow *)
Definition find_group_end (start : flb_mp_chunk_record) (records : list (flb_mp_chunk_record * bool)) : option flb_mp_chunk_record :=
  fst <$> List.find (λ x, is_type FLB_LOG_EVENT_GROUP_END x.1 && same_group_as x.1 start) records.

(** The result, the end of a group that is still to be written, and the encoder *)
Fixpoint encode_selected (records : list (flb_mp_chunk_record * bool)) (group_start group_end : option flb_mp_chunk_record) (e : E)
    : M log_state (Z * option flb_mp_chunk_record * E) :=
  match records with
  | [] => mret (0, group_end, e)
  | (r, selected) :: records' =>
      match record_type r with
      | None => encode_selected records' group_start group_end e
      | Some t =>
          if t =? FLB_LOG_EVENT_GROUP_START then encode_selected records' (Some r) None e
          else if t =? FLB_LOG_EVENT_GROUP_END then
            match group_end, group_start with
            | Some stop, Some start =>
                if same_group_as r start then
                  '(ret, e) ← encode_chunk_record stop e;
                  if negb (ret =? 0) then mret (-1, group_end, e) else encode_selected records' None None e
                else encode_selected records' None group_end e
            | _, _ => encode_selected records' None group_end e
            end
          else if selected then
            '(ret, group_end, e) ←
              match group_start, group_end with
              | Some start, None =>
                  if same_group_as r start then
                    '(ret, e) ← encode_chunk_record start e;
                    mret (ret, if ret =? 0 then find_group_end start records' else None, e)
                  else mret (0, None, e)
              | _, _ => mret (0, group_end, e)
              end;
            if negb (ret =? 0) then mret (-1, group_end, e) else
            '(ret, e) ← encode_chunk_record r e;
            if negb (ret =? 0) then mret (-1, group_end, e) else encode_selected records' group_start group_end e
          else encode_selected records' group_start group_end e
      end
  end.

(** All of it: a group end that is left is written last. *)
Definition encode_selection (records : list (flb_mp_chunk_record * bool)) (group_end : option flb_mp_chunk_record) (e : E) : M log_state (Z * E) :=
  '(ret, group_end, e) ← encode_selected records None group_end e;
  if negb (ret =? 0) then mret (-1, e) else
  match group_end with
  | Some stop => '(ret, e) ← encode_chunk_record stop e; mret (if ret =? 0 then 0 else -1, e)
  | None => mret (0, e)
  end.

(** ** Which records a route takes *)

(** The condition is compiled in place. *)
Definition evaluate_route (routes : list route) (i : nat) (record : flb_mp_chunk_record) : M log_state (bool * list route) :=
  r ← deref (routes !! i);
  '(b, r) ← flb_router_condition_evaluate_record cfl_ra_create regex_create regex_match r record;
  mret (b, <[i := r]> routes).

(** The flags of the records that meet the condition, unless they have been taken ([taken]); the end of a group
    that was seen last; records that are marks of groups are not looked at. *)
Fixpoint match_records (routes : list route) (i : nat) (records : list (flb_mp_chunk_record * bool)) (group_end : option flb_mp_chunk_record)
    : M log_state (list bool * option flb_mp_chunk_record * list route) :=
  match records with
  | [] => mret ([], group_end, routes)
  | (r, taken) :: records' =>
      '(b, group_end, routes) ←
        (if is_type FLB_LOG_EVENT_GROUP_START r then mret (false, group_end, routes)
         else if is_type FLB_LOG_EVENT_GROUP_END r then mret (false, Some r, routes)
         else if (taken : bool) then mret (false, group_end, routes)
         else '(b, routes) ← evaluate_route routes i r; mret (b, group_end, routes));
      '(bs, group_end, routes) ← match_records routes i records' group_end;
      mret (b :: bs, group_end, routes)
  end.

(** The second round of the default route looks at normal records only, and without a condition takes all. *)
Fixpoint mark_default (routes : list route) (i : nat) (records : list (flb_mp_chunk_record * bool)) : M log_state (list bool * list route) :=
  match records with
  | [] => mret ([], routes)
  | (r, taken) :: records' =>
      '(b, routes) ←
        (if is_type FLB_LOG_EVENT_NORMAL r && negb taken then
           route ← deref (routes !! i);
           match rt_condition route with
           | Some _ => evaluate_route routes i r
           | None => mret (true, routes)
           end
         else mret (false, routes));
      '(bs, routes) ← mark_default routes i records';
      mret (b :: bs, routes)
  end.

Definition either (l l' : list bool) : list bool := zip_with orb l l'.
Definition count_true (l : list bool) : Z := zlen (List.filter id l).

(** What was encoded becomes the data of the payload; the encoder is destroyed in any case. *)
Definition take_output (matched : Z) (payload : flb_route_payload) (e : E) : M log_state (Z * flb_route_payload) :=
  out ← deref (encoder_output e);
  match out with
  | [] => on_heap (encoder_destroy e) ≫= λ _, mret (0, payload)
  | _ =>
      p ← on_heap alloc;
      on_heap (encoder_destroy e) ≫= λ _,
      match p with
      | None => mret (-1, payload)
      | Some a => mret (0, set_pl_data (Some (a, out)) matched payload)
      end
  end.

(** The result, the payload, what non-default routes have taken, what any route has taken, and the routes *)
Definition build_payload_for_route (payload : flb_route_payload) (records : list flb_mp_chunk_record)
    (matched_non_default matched_any_route : list bool) (routes : list route)
    : M log_state (Z * flb_route_payload * list bool * list bool * list route) :=
  let done ret payload := (ret, payload, matched_non_default, matched_any_route) in
  match records with
  | [] => mret (done (-1) payload, routes)
  | _ =>
      r ← deref (routes !! pl_route payload);
      match rt_condition r with
      | None => mret (done 0 payload, routes)
      | Some _ =>
          encoder ← on_heap encoder_create;
          match encoder with
          | None => mret (done (-1) payload, routes)
          | Some e =>
              flags ← on_heap alloc;
              match flags with
              | None => on_heap (encoder_destroy e) ≫= λ _, mret (done (-1) payload, routes)
              | Some flags =>
                  '(matched_by_route, group_end, routes) ← match_records routes (pl_route payload) (zip records (replicate (length records) false)) None;
                  let done ret payload := (ret, payload, either matched_non_default matched_by_route, either matched_any_route matched_by_route, routes) in
                  if count_true matched_by_route =? 0 then
                    on_heap (free_block flags) ≫= λ _, on_heap (encoder_destroy e) ≫= λ _, mret (done 0 payload)
                  else
                    '(ret, e) ← encode_selection (zip records matched_by_route) group_end e;
                    on_heap (free_block flags) ≫= λ _,
                    if negb (ret =? 0) then on_heap (encoder_destroy e) ≫= λ _, mret (done (-1) payload)
                    else '(ret, payload) ← take_output (count_true matched_by_route) payload e; mret (done ret payload)
              end
          end
      end
  end.

Definition build_payload_for_default_route (payload : flb_route_payload) (records : list flb_mp_chunk_record)
    (matched_non_default matched_any_route : list bool) (routes : list route)
    : M log_state (Z * flb_route_payload * list bool * list route) :=
  encoder ← on_heap encoder_create;
  match encoder with
  | None => mret (-1, payload, matched_any_route, routes)
  | Some e =>
      '(matched, group_end, routes) ← match_records routes (pl_route payload) (zip records matched_non_default) None;
      if count_true matched =? 0 then on_heap (encoder_destroy e) ≫= λ _, mret (0, payload, matched_any_route, routes)
      else
        flags ← on_heap alloc;
        match flags with
        | None => on_heap (encoder_destroy e) ≫= λ _, mret (-1, payload, matched_any_route, routes)
        | Some flags =>
            '(matched_by_default, routes) ← mark_default routes (pl_route payload) (zip records matched_non_default);
            let any := either matched_any_route matched_by_default in
            '(ret, e) ← encode_selection (zip records matched_by_default) group_end e;
            on_heap (free_block flags) ≫= λ _,
            if negb (ret =? 0) then on_heap (encoder_destroy e) ≫= λ _, mret (-1, payload, any, routes)
            else '(ret, payload) ← take_output (count_true matched) payload e; mret (ret, payload, any, routes)
        end
  end.

(** The result, the records that no route takes, and their bytes *)
Definition calculate_unmatched_route_metrics (records : list flb_mp_chunk_record) (matched_any_route : list bool) : M log_state (Z * Z * Z) :=
  match records with
  | [] => mret (-1, 0, 0)
  | _ =>
      encoder ← on_heap (encoder_create (E := E));
      match encoder with
      | None => mret (-1, 0, 0)
      | Some e =>
          let unmatched := zip_with (λ r any, is_type FLB_LOG_EVENT_NORMAL r && negb any) records matched_any_route in
          '(ret, e) ← encode_selection (zip records unmatched) None e;
          if negb (ret =? 0) then on_heap (encoder_destroy e) ≫= λ _, mret (-1, count_true unmatched, 0)
          else
            out ← deref (encoder_output e);
            on_heap (encoder_destroy e) ≫= λ _, mret (0, count_true unmatched, zlen out)
      end
  end.

(** ** All routes *)

Definition is_conditional (r : route) : bool := bool_decide (is_Some (rt_condition r)) || rt_per_record_routing r.
(** The route of a path, when it has a condition or is by record *)
Definition conditional_route (routes : list route) (path : flb_router_path) : option nat :=
  i ← rp_route path; r ← routes !! i; if is_conditional r then Some i else None.
Definition input_has_conditional_routes (routes : list route) (paths : list flb_router_path) : bool :=
  existsb (λ path, bool_decide (is_Some (conditional_route routes path))) paths.

(** A payload for every conditional route of the paths, under the name of the route *)
Fixpoint create_payloads (routes : list route) (paths : list flb_router_path) (ps : list flb_route_payload) : M heap (option (list flb_route_payload)) :=
  match paths with
  | [] => mret (Some ps)
  | path :: paths' =>
      match conditional_route routes path with
      | None => create_payloads routes paths' ps
      | Some i =>
          match route_payload_find ps i with
          | Some _ => create_payloads routes paths' ps
          | None =>
              r ← deref (routes !! i);
              p ← alloc;
              match p with
              | None => route_payload_list_destroy ps ≫= λ _, mret None
              | Some a =>
                  tag ← flb_sds_create (rt_name r);
                  match tag with
                  | None => free_block a ≫= λ _, route_payload_list_destroy ps ≫= λ _, mret None
                  | Some tag =>
                      create_payloads routes paths'
                        (ps ++ [mk_payload a i (from_option rc_is_default false (rt_condition r)) tag None 0])
                  end
              end
          end
      end
  end.

(** The blocks of an event chunk: itself and its tag *)
Definition flb_event_chunk_create : M heap (option (nat * nat)) :=
  evc ← alloc;
  match evc with
  | None => mret None
  | Some evc =>
      tag ← alloc;
      match tag with
      | None => free_block evc ≫= λ _, mret None
      | Some tag => mret (Some (evc, tag))
      end
  end.
Definition flb_event_chunk_destroy (chunk : nat * nat) : M heap unit := free_block chunk.2 ≫= λ _, free_block chunk.1.

(** The payloads of one kind, one after the other; the payloads so far, and those that are left after a failure *)
Fixpoint build_payloads (default_route : bool) (ps : list flb_route_payload) (records : list flb_mp_chunk_record)
    (non_default any : list bool) (routes : list route)
    : M log_state (Z * list flb_route_payload * list bool * list bool * list route) :=
  match ps with
  | [] => mret (0, [], non_default, any, routes)
  | p :: ps' =>
      if negb (Bool.eqb (pl_is_default p) default_route) then
        '(ret, ps', non_default, any, routes) ← build_payloads default_route ps' records non_default any routes;
        mret (ret, p :: ps', non_default, any, routes)
      else
        '(ret, p, non_default, any, routes) ←
          (if default_route then
             '(ret, p, any, routes) ← build_payload_for_default_route p records non_default any routes;
             mret (ret, p, non_default, any, routes)
           else build_payload_for_route p records non_default any routes);
        if negb (ret =? 0) then mret (-1, p :: ps', non_default, any, routes)
        else
          '(ret, ps', non_default, any, routes) ← build_payloads default_route ps' records non_default any routes;
          mret (ret, p :: ps', non_default, any, routes)
  end.

(** Payloads without records are destroyed. *)
Fixpoint drop_empty (ps : list flb_route_payload) : M heap (list flb_route_payload) :=
  match ps with
  | [] => mret []
  | p :: ps' =>
      if (pl_total_records p <=? 0) || bool_decide (pl_data p = None)
      then route_payload_destroy p ≫= λ _, drop_empty ps'
      else ps' ← drop_empty ps'; mret (p :: ps')
  end.

(** Either the split is over, with its result, or payloads can be appended; their context and chunk live on. *)
Inductive split_result :=
| split_done (ret : Z)
| split_ready (payloads : list flb_route_payload) (context : flb_router_chunk_context regex E) (chunk : nat * nat)
    (dropped : Z * Z).

Definition split_clean (context : flb_router_chunk_context regex E) (ps : list flb_route_payload) (chunk : nat * nat) : M log_state unit :=
  flb_router_chunk_context_destroy context ≫= λ _,
  on_heap (route_payload_list_destroy ps) ≫= λ _,
  on_heap (flb_event_chunk_destroy chunk).

(** The part of the split that has the records: the arrays are [records_array], [matched_non_default] and
    [matched_any_route]. *)
Definition split_records (ps : list flb_route_payload) (context : flb_router_chunk_context regex E) (chunk : nat * nat)
    (records : list flb_mp_chunk_record) (routes : list route) : M log_state (split_result * list route) :=
  let clean ps := split_clean context ps chunk in
  a ← on_heap alloc;
  match a with
  | None => clean ps ≫= λ _, mret (split_done (-1), routes)
  | Some a =>
      b ← on_heap alloc;
      match b with
      | None => on_heap (free_block a) ≫= λ _, clean ps ≫= λ _, mret (split_done (-1), routes)
      | Some b =>
          c ← on_heap alloc;
          match c with
          | None => on_heap (free_block b) ≫= λ _, on_heap (free_block a) ≫= λ _, clean ps ≫= λ _, mret (split_done (-1), routes)
          | Some c =>
              let free := on_heap (free_block a) ≫= λ _, on_heap (free_block b) ≫= λ _, on_heap (free_block c) in
              let none := replicate (length records) false in
              '(ret, ps, non_default, any, routes) ← build_payloads false ps records none none routes;
              if negb (ret =? 0) then free ≫= λ _, clean ps ≫= λ _, mret (split_done (-1), routes)
              else
                '(ret, ps, non_default, any, routes) ← build_payloads true ps records non_default any routes;
                if negb (ret =? 0) then free ≫= λ _, clean ps ≫= λ _, mret (split_done (-1), routes)
                else
                  '(ret, dropped_records, dropped_bytes) ← calculate_unmatched_route_metrics records any;
                  free ≫= λ _,
                  ps ← on_heap (drop_empty ps);
                  mret (split_ready ps context chunk (if ret =? 0 then (dropped_records, dropped_bytes) else (0, 0)), routes)
          end
      end
  end.

(** [split_and_append_route_payloads] up to the first append *)
Definition split_route_payloads (threaded : bool) (paths : list flb_router_path) (routes : list route) (buf : list Z)
    : M log_state (split_result * list route) :=
  if bool_decide (buf = []) || bool_decide (paths = []) || negb (input_has_conditional_routes routes paths) || threaded
  then mret (split_done 0, routes)
  else
    payloads ← on_heap (create_payloads routes paths []);
    match payloads with
    | None => mret (split_done (-1), routes)
    | Some [] => mret (split_done 0, routes)
    | Some ps =>
        chunk ← on_heap flb_event_chunk_create;
        match chunk with
        | None => on_heap (route_payload_list_destroy ps) ≫= λ _, mret (split_done (-1), routes)
        | Some chunk =>
            '(ret, context) ← flb_router_chunk_context_prepare_logs regex_match msgpack_unpack_next
                flb_router_chunk_context_init (mk_event_chunk FLB_EVENT_TYPE_LOGS (Some buf));
            match rx_chunk_cobj context with
            | Some cobj =>
                if negb (ret =? 0) then split_clean context ps chunk ≫= λ _, mret (split_done (-1), routes)
                else
                  match cc_records cobj with
                  | [] => split_clean context ps chunk ≫= λ _, mret (split_done 1, routes)
                  | records => split_records ps context chunk records routes
                  end
            | None => split_clean context ps chunk ≫= λ _, mret (split_done (-1), routes)
            end
        end
    end.

(** ** Chunks in segments

    A chunk is well formed when its groups are closed and not nested. *)
Inductive segment := single (x : Z * flb_log_event) | group (start : Z * flb_log_event) (members : list (Z * flb_log_event)) (stop : Z * flb_log_event).
Definition items (sg : segment) : list (Z * flb_log_event) :=
  match sg with single x => [x] | group start ms stop => start :: ms ++ [stop] end.
Definition segment_ok (sg : segment) : Prop :=
  match sg with
  | single x => x.1 = FLB_LOG_EVENT_NORMAL
  | group start ms stop => start.1 = FLB_LOG_EVENT_GROUP_START ∧ Forall (λ x, x.1 = FLB_LOG_EVENT_NORMAL) ms ∧ stop.1 = FLB_LOG_EVENT_GROUP_END
  end.

Definition own_parts (x : Z * flb_log_event) : option cfl_variant * option cfl_variant := (ev_metadata x.2 ≫= cfl_of, ev_body x.2 ≫= cfl_of).
Definition view_in (g : option cfl_variant * option cfl_variant) (x : Z * flb_log_event) : view :=
  mk_view (own_parts x).1 (own_parts x).2 g.1 g.2.
Abbreviation bytes_of_event := (λ x : Z * flb_log_event, event_bytes float_bits double_bits x.2).

(** What a selection of the records of a segment is written as *)
Definition segment_bytes (takes : view → bool) (sg : segment) : list Z :=
  match sg with
  | single x => if takes (view_in (None, None) x) then bytes_of_event x else []
  | group start ms stop =>
      match List.filter (λ x, takes (view_in (own_parts start) x)) ms with
      | [] => []
      | selected => bytes_of_event start ++ concat (bytes_of_event <$> selected) ++ bytes_of_event stop
      end
  end.
Definition segment_flags (takes : view → bool) (sg : segment) : list bool :=
  match sg with
  | single x => [takes (view_in (None, None) x)]
  | group start ms stop => false :: ((λ x, takes (view_in (own_parts start) x)) <$> ms) ++ [false]
  end.

(** A record of an event: its type, its bytes, and how conditions see it *)
Record record_ok (objects : gmap nat (option cfl_variant)) (g : option cfl_variant * option cfl_variant)
    (r : flb_mp_chunk_record) (x : Z * flb_log_event) : Prop := {
  rk_type : record_type r = Some x.1;
  rk_bytes : encodes_as float_bits double_bits objects r (bytes_of_event x);
  rk_view : record_view objects r (view_in g x)
}.
Definition segment_records (objects : gmap nat (option cfl_variant)) (sg : segment) (rs : list flb_mp_chunk_record) : Prop :=
  match sg with
  | single x => ∃ r, rs = [r] ∧ record_ok objects (None, None) r x
  | group start ms stop => ∃ r rms r', rs = r :: rms ++ [r'] ∧ record_ok objects (own_parts start) r start ∧
      Forall2 (λ q x, record_ok objects (own_parts start) q x ∧ same_group_as q r = true) rms ms ∧
      record_ok objects (own_parts start) r' stop ∧ same_group_as r' r = true
  end.

Lemma encode_chunk_record_ok base B O out p e r bytes s (Q : Z * E → log_state → Prop) :
  encoding base B O out p e s → encodes_as float_bits double_bits (lg_objects s) r bytes → zlen (out ++ bytes) < 2 ^ 64 →
  (∀ e' p' s', encoding base B O (out ++ bytes) p' e' s' → lg_objects s' = lg_objects s → Q (0, e') s') →
  runs (encode_chunk_record r e) s Q.
Proof.
  intros Hen Hr Hlen HQ. eapply runs_weaken; [by eapply encode_with_ok|]. intros [ret e'] s' (Hret & Ho & p' & Hen'). cbn in *. subst ret. eauto.
Qed.

(** The members of a group that are selected, once its start is written *)
Definition members_bytes (takes : view → bool) g (ms : list (Z * flb_log_event)) : list Z :=
  concat (bytes_of_event <$> List.filter (λ x, takes (view_in g x)) ms).

Lemma members_after objects base B O takes g start stop rest ms rms Q : Forall (λ x, x.1 = FLB_LOG_EVENT_NORMAL) ms →
  Forall2 (λ q x, record_ok objects g q x ∧ same_group_as q start = true) rms ms →
  ∀ out p e s, encoding base B O out p e s → lg_objects s = objects → zlen (out ++ members_bytes takes g ms) < 2 ^ 64 →
  (∀ e' p' s', encoding base B O (out ++ members_bytes takes g ms) p' e' s' → lg_objects s' = objects →
     runs (encode_selected rest (Some start) (Some stop) e') s' Q) →
  runs (encode_selected (zip rms ((λ x, takes (view_in g x)) <$> ms) ++ rest) (Some start) (Some stop) e) s Q.
Proof.
  intros Hms. revert rms. unfold members_bytes. induction Hms as [|x ms Hx _ IH]; intros rms Hf out p e s Hen Ho Hlen HQ.
  - apply Forall2_nil_inv_r in Hf as ->. cbn in *. rewrite app_nil_r in HQ. by eapply HQ.
  - apply Forall2_cons_inv_r in Hf as (r & rms' & [[Ht Hb _] Hsame] & Hf & ->). cbn [zip_with fmap list_fmap app encode_selected List.filter] in *.
    rewrite Ht, Hx. change (FLB_LOG_EVENT_NORMAL =? FLB_LOG_EVENT_GROUP_START) with false. change (FLB_LOG_EVENT_NORMAL =? FLB_LOG_EVENT_GROUP_END) with false.
    cbv iota. destruct (takes (view_in g x)); [|by eapply IH].
    apply runs_bind, runs_ret. cbn [Z.eqb negb]. cbn [fmap list_fmap concat] in Hlen, HQ. rewrite app_assoc in Hlen, HQ.
    match type of Hlen with zlen (_ ++ ?rest) < _ => pose proof (zlen_nonneg rest) end.
    apply runs_bind. eapply encode_chunk_record_ok; [exact Hen|by rewrite Ho|rewrite zlen_app in Hlen; lia|].
    intros e1 p1 s1 Hen1 Ho1. cbn [Z.eqb negb]. eapply IH; [done|exact Hen1|by rewrite Ho1|done|done].
Qed.

Lemma find_end_after objects g start r' rest rms ms flags : Forall (λ x, x.1 = FLB_LOG_EVENT_NORMAL) ms →
  Forall2 (λ q x, record_ok objects g q x ∧ same_group_as q start = true) rms ms →
  record_type r' = Some FLB_LOG_EVENT_GROUP_END → same_group_as r' start = true →
  find_group_end start (zip rms flags ++ (r', false) :: rest) = Some r'.
Proof.
  intros Hms. unfold find_group_end. revert rms flags. induction Hms as [|x ms Hx _ IH]; intros rms flags Hf Ht Hs.
  - apply Forall2_nil_inv_r in Hf as ->. cbn. unfold is_type. by rewrite Ht, Hs.
  - apply Forall2_cons_inv_r in Hf as (r & rms' & [[Htr _ _] _] & Hf & ->). destruct flags as [|b flags]; [cbn; unfold is_type; by rewrite Ht, Hs|].
    cbn. unfold is_type at 1. rewrite Htr, Hx. by apply IH.
Qed.

Lemma members_before objects base B O takes start x0 stop r' rest rms ms Q : Forall (λ x, x.1 = FLB_LOG_EVENT_NORMAL) ms →
  Forall2 (λ q x, record_ok objects (own_parts x0) q x ∧ same_group_as q start = true) rms ms →
  record_ok objects (own_parts x0) start x0 → record_ok objects (own_parts x0) r' stop → same_group_as r' start = true →
  stop.1 = FLB_LOG_EVENT_GROUP_END →
  ∀ out p e s, encoding base B O out p e s → lg_objects s = objects → zlen (out ++ segment_bytes takes (group x0 ms stop)) < 2 ^ 64 →
  (∀ e' p' s', encoding base B O (out ++ segment_bytes takes (group x0 ms stop)) p' e' s' → lg_objects s' = objects →
     runs (encode_selected rest None None e') s' Q) →
  runs (encode_selected (zip rms ((λ x, takes (view_in (own_parts x0) x)) <$> ms) ++ (r', false) :: rest) (Some start) None e) s Q.
Proof.
  intros Hms Hf0 Hstart Hstop Hsame Hend. pose proof (rk_type _ _ _ _ Hstop) as Hty. rewrite Hend in Hty. revert rms Hf0.
  induction Hms as [|x ms Hx Hms IH]; intros rms Hf out p e s Hen Ho Hlen HQ.
  - apply Forall2_nil_inv_r in Hf as ->. cbn [zip_with fmap list_fmap app encode_selected]. rewrite Hty.
    change (FLB_LOG_EVENT_GROUP_END =? FLB_LOG_EVENT_GROUP_START) with false. rewrite Z.eqb_refl. cbv iota.
    cbn in HQ. rewrite app_nil_r in HQ. by eapply HQ.
  - apply Forall2_cons_inv_r in Hf as (r & rms' & [[Ht Hb _] Hs] & Hf & ->). cbn [zip_with fmap list_fmap app encode_selected].
    cbn [segment_bytes List.filter] in Hlen, HQ. rewrite Ht, Hx.
    change (FLB_LOG_EVENT_NORMAL =? FLB_LOG_EVENT_GROUP_START) with false. change (FLB_LOG_EVENT_NORMAL =? FLB_LOG_EVENT_GROUP_END) with false. cbv iota.
    destruct (takes (view_in (own_parts x0) x)); [|by eapply IH]. rewrite Hs.
    cbn [fmap list_fmap concat] in Hlen, HQ. rewrite <- !app_assoc, !zlen_app in Hlen.
    pose proof (zlen_nonneg (members_bytes takes (own_parts x0) ms)) as Hz1. unfold members_bytes in Hz1.
    pose proof (zlen_nonneg (bytes_of_event x)). pose proof (zlen_nonneg (bytes_of_event stop)).
    apply runs_bind, runs_bind. eapply encode_chunk_record_ok; [exact Hen|rewrite Ho; apply Hstart|rewrite zlen_app; lia|].
    intros e1 p1 s1 Hen1 Ho1. rewrite Ho in Ho1. cbn [Z.eqb]. apply runs_ret. cbn [Z.eqb negb].
    rewrite (find_end_after _ _ _ _ _ _ _ _ Hms Hf Hty Hsame).
    apply runs_bind. eapply encode_chunk_record_ok; [exact Hen1|by rewrite Ho1|rewrite !zlen_app; lia|].
    intros e2 p2 s2 Hen2 Ho2. rewrite Ho1 in Ho2. cbn [Z.eqb negb].
    eapply (members_after objects base B O takes (own_parts x0) start r'); [exact Hms|exact Hf|exact Hen2|exact Ho2| |].
    { unfold members_bytes. rewrite !zlen_app. lia. }
    intros e3 p3 s3 Hen3 Ho3. cbn [encode_selected]. rewrite Hty.
    change (FLB_LOG_EVENT_GROUP_END =? FLB_LOG_EVENT_GROUP_START) with false. rewrite Z.eqb_refl, Hsame. cbv iota.
    apply runs_bind. eapply encode_chunk_record_ok; [exact Hen3|rewrite Ho3; apply Hstop|unfold members_bytes; rewrite !zlen_app; lia|].
    intros e4 p4 s4 Hen4 Ho4. cbn [Z.eqb negb]. eapply HQ; [|by rewrite Ho4]. unfold members_bytes in Hen4. rewrite <- !app_assoc in *. exact Hen4.
Qed.

(** A chunk in segments and its records *)
Definition chunk_records (objects : gmap nat (option cfl_variant)) (sgs : list segment) (rs : list flb_mp_chunk_record) : Prop :=
  ∃ rss, rs = concat rss ∧ Forall2 (segment_records objects) sgs rss.
Definition flags_of (takes : view → bool) (sgs : list segment) : list bool := sgs ≫= segment_flags takes.
Definition selected_bytes (takes : view → bool) (sgs : list segment) : list Z := concat (segment_bytes takes <$> sgs).
Definition has_group (sg : segment) : bool := match sg with single _ => false | group _ _ _ => true end.

Lemma segment_flags_length takes sg objects rs : segment_records objects sg rs → length rs = length (segment_flags takes sg).
Proof.
  destruct sg as [x|start ms stop]; [by intros (r & -> & _)|]. intros (r & rms & r' & -> & _ & Hf & _). cbn.
  rewrite !length_app, length_fmap. f_equal. f_equal. by eapply Forall2_length.
Qed.

Lemma encode_segment objects base B O takes sg rs rest ge out p e s Q : segment_ok sg → segment_records objects sg rs →
  encoding base B O out p e s → lg_objects s = objects → zlen (out ++ segment_bytes takes sg) < 2 ^ 64 →
  (∀ e' p' s', encoding base B O (out ++ segment_bytes takes sg) p' e' s' → lg_objects s' = objects →
     runs (encode_selected rest None (if has_group sg then None else ge) e') s' Q) →
  runs (encode_selected (zip rs (segment_flags takes sg) ++ rest) None ge e) s Q.
Proof.
  destruct sg as [x|start ms stop]; intros Hok Hrs Hen Ho Hlen HQ.
  - destruct Hrs as (r & -> & [Ht Hb _]). cbn in Hok. cbn [segment_flags zip_with app encode_selected]. rewrite Ht, Hok.
    change (FLB_LOG_EVENT_NORMAL =? FLB_LOG_EVENT_GROUP_START) with false. change (FLB_LOG_EVENT_NORMAL =? FLB_LOG_EVENT_GROUP_END) with false. cbv iota.
    cbn [segment_bytes has_group] in *. destruct (takes (view_in (None, None) x)); [|rewrite app_nil_r in HQ; by eapply HQ].
    apply runs_bind, runs_ret. cbn [Z.eqb negb]. apply runs_bind. eapply encode_chunk_record_ok; [exact Hen|by rewrite Ho|exact Hlen|].
    intros e1 p1 s1 Hen1 Ho1. cbn [Z.eqb negb]. eapply HQ; [exact Hen1|by rewrite Ho1].
  - destruct Hrs as (r & rms & r' & -> & Hr & Hf & Hr' & Hs). destruct Hok as (H1 & H2 & H3).
    assert (Hlen2 : length rms = length ((λ x, takes (view_in (own_parts start) x)) <$> ms)) by (rewrite length_fmap; by eapply Forall2_length).
    cbn [segment_flags]. change (zip (r :: rms ++ [r']) (false :: ((λ x, takes (view_in (own_parts start) x)) <$> ms) ++ [false])) with
      ((r, false) :: zip (rms ++ [r']) (((λ x, takes (view_in (own_parts start) x)) <$> ms) ++ [false])).
    rewrite zip_with_app by done. cbn [zip_with app encode_selected]. rewrite (rk_type _ _ _ _ Hr), H1, Z.eqb_refl. rewrite <- app_assoc. cbn [app].
    by eapply (members_before objects base B O takes r start stop r').
Qed.

Lemma encode_segments objects base B O takes sgs : ∀ rss ge out p e s, Forall segment_ok sgs → Forall2 (segment_records objects) sgs rss →
  encoding base B O out p e s → lg_objects s = objects → zlen (out ++ selected_bytes takes sgs) < 2 ^ 64 →
  runs (encode_selected (zip (concat rss) (flags_of takes sgs)) None ge e) s (λ '(ret, ge', e') s', ret = 0 ∧
    ge' = (if existsb has_group sgs then None else ge) ∧ lg_objects s' = objects ∧ ∃ p', encoding base B O (out ++ selected_bytes takes sgs) p' e' s').
Proof.
  unfold flags_of, selected_bytes. induction sgs as [|sg sgs IH]; intros rss ge out p e s Hok Hf Hen Ho Hlen.
  - apply Forall2_nil_inv_l in Hf as ->. cbn in *. apply runs_ret. split_and!; [done..|]. exists p. by rewrite app_nil_r.
  - apply Forall2_cons_inv_l in Hf as (rs & rss' & Hr & Hf & ->). apply Forall_cons in Hok as [Hok Hoks]. cbn [concat fmap list_fmap] in Hlen |- *.
    rewrite bind_cons, zip_with_app by (by eapply segment_flags_length). rewrite app_assoc in Hlen.
    match type of Hlen with zlen (_ ++ ?rest) < _ => pose proof (zlen_nonneg rest) end.
    eapply encode_segment; [exact Hok|exact Hr|exact Hen|exact Ho|rewrite zlen_app in Hlen; lia|].
    intros e1 p1 s1 Hen1 Ho1. eapply runs_weaken; [eapply IH; [done|exact Hf|exact Hen1|exact Ho1|exact Hlen]|].
    intros [[ret ge'] e2] s2 (-> & -> & ? & p2 & Hen2). split_and!; [done| |done|].
    + cbn [existsb]. by destruct (has_group sg), (existsb has_group sgs).
    + exists p2. by rewrite <- app_assoc in Hen2.
Qed.

(** Everything: no group end is left over, when the one that is given is one of the chunk. *)
Lemma encode_selection_ok objects base B O takes sgs rs ge out p e s (Q : Z * E → log_state → Prop) :
  Forall segment_ok sgs → chunk_records objects sgs rs → (existsb has_group sgs = false → ge = None) →
  encoding base B O out p e s → lg_objects s = objects → zlen (out ++ selected_bytes takes sgs) < 2 ^ 64 →
  (∀ e' p' s', encoding base B O (out ++ selected_bytes takes sgs) p' e' s' → lg_objects s' = objects → Q (0, e') s') →
  runs (encode_selection (zip rs (flags_of takes sgs)) ge e) s Q.
Proof.
  intros Hok (rss & -> & Hf) Hge Hen Ho Hlen HQ. unfold encode_selection. apply runs_bind.
  eapply runs_weaken; [by eapply (encode_segments objects base B O takes sgs rss ge out p e s)|].
  intros [[ret ge'] e'] s' (-> & -> & Ho' & p' & Hen'). cbn [Z.eqb negb].
  assert (Hnone : (if existsb has_group sgs then None else ge) = None) by (destruct (existsb has_group sgs); auto). rewrite Hnone.
  apply runs_ret. by eapply HQ.
Qed.

(** The records of a chunk that was read are in segments. *)
Definition event_ok (x : Z * flb_log_event) : Prop :=
  flb_log_event_decoder_get_record_type x.2 = Some x.1 ∧ convertible_part (ev_metadata x.2) = true ∧ convertible_part (ev_body x.2) = true.

Lemma record_of_event objects active g x es r rs : event_ok x → records_of objects active (x :: es) (r :: rs) →
  part_is objects active.1 g.1 → part_is objects active.2 g.2 →
  record_ok objects (if x.1 =? FLB_LOG_EVENT_GROUP_START then own_parts x else g) r x ∧
  (if x.1 =? FLB_LOG_EVENT_GROUP_START
   then part_is objects (mr_cobj_group_metadata r) (own_parts x).1 ∧ part_is objects (mr_cobj_group_attributes r) (own_parts x).2
   else (mr_cobj_group_metadata r, mr_cobj_group_attributes r) = active).
Proof.
  destruct x as [t e]. intros Hev Hr Hg1 Hg2. pose proof (proj1 Hev) as Ht. cbn [fst snd] in Ht.
  assert (Hone : records_of objects active [(t, e)] [r]) by (destruct Hr as (? & ? & ? & ? & _); by split_and!).
  pose proof (records_encode float_bits double_bits objects [(t, e)] ltac:(by constructor) _ _ Hone) as Henc.
  apply Forall2_cons_1 in Henc as [Henc _].
  pose proof (records_views objects [(t, e)] active g [r] Hone Hg1 Hg2) as Hv. apply Forall2_cons_1 in Hv as [Hv _].
  destruct Hr as (_ & _ & Htime & Hgroup & _). cbn [fst snd]. split.
  - constructor; [unfold record_type, flb_log_event_decoder_get_record_type in *; by rewrite Htime|exact Henc|].
    by destruct (t =? FLB_LOG_EVENT_GROUP_START).
  - destruct (t =? FLB_LOG_EVENT_GROUP_START); [|exact Hgroup]. destruct Hv as [_ _ Hm Ha]. done.
Qed.

Lemma members_of_group objects active g ms l : Forall (λ x, x.1 = FLB_LOG_EVENT_NORMAL) ms → Forall event_ok ms →
  part_is objects active.1 g.1 → part_is objects active.2 g.2 → ∀ rs, records_of objects active (ms ++ l) rs →
  ∃ rms rs', rs = rms ++ rs' ∧ Forall2 (λ q x, record_ok objects g q x ∧ mr_cobj_group_metadata q = active.1) rms ms ∧ records_of objects active l rs'.
Proof.
  intros Hms Hok Hg1 Hg2. induction Hms as [|[t e] ms Hx _ IH]; intros rs Hr.
  - by exists [], rs.
  - apply Forall_cons in Hok as [Hxok Hok]. destruct rs as [|r rs]; [done|]. cbn in Hx. subst t. cbn [app] in Hr.
    destruct (record_of_event objects active g _ _ _ _ Hxok Hr Hg1 Hg2) as [H1 H2]. cbn [fst] in H1, H2.
    change (FLB_LOG_EVENT_NORMAL =? FLB_LOG_EVENT_GROUP_START) with false in H1, H2. cbv iota in H1, H2.
    destruct Hr as (_ & _ & _ & _ & Hr). destruct (IH Hok rs Hr) as (rms & rs' & -> & Hf & Hr'). exists (r :: rms), rs'.
    split_and!; [done| |done]. constructor; [split; [done|by rewrite <- H2]|done].
Qed.

Lemma records_segments objects sgs : Forall segment_ok sgs → Forall event_ok (sgs ≫= items) →
  ∀ rs, records_of objects (None, None) (sgs ≫= items) rs → chunk_records objects sgs rs.
Proof.
  intros Hsgs. assert (Hnil : part_is objects (@None nat, @None nat).1 (@None cfl_variant, @None cfl_variant).1) by done.
  induction Hsgs as [|sg sgs Hsg _ IH]; intros Hev rs Hr.
  { destruct rs; [|done]. by exists []. }
  rewrite bind_cons in Hev, Hr. apply Forall_app in Hev as [Hev1 Hev2]. destruct sg as [[t e]|[t e] ms [t' e']]; cbn [items app] in Hr, Hev1.
  - cbn in Hsg. subst t. apply Forall_cons in Hev1 as [Hx _]. destruct rs as [|r rs]; [done|].
    destruct (record_of_event objects (None, None) (None, None) _ _ _ _ Hx Hr Hnil Hnil) as [H1 _]. destruct Hr as (_ & _ & _ & _ & Hr).
    destruct (IH Hev2 rs Hr) as (rss & -> & Hf). exists ([r] :: rss). split; [done|]. constructor; [|done]. by exists r.
  - destruct Hsg as (H1 & H2 & H3). cbn in H1, H3. subst t t'. apply Forall_cons in Hev1 as [Hx Hev1]. apply Forall_app in Hev1 as [Hms Hy].
    apply Forall_cons in Hy as [Hy _]. destruct rs as [|r rs]; [done|].
    destruct (record_of_event objects (None, None) (None, None) _ _ _ _ Hx Hr Hnil Hnil) as [Hrok [Hp1 Hp2]].
    destruct Hr as (_ & _ & _ & Hg & Hr). cbn [fst] in Hrok. rewrite Z.eqb_refl in Hrok, Hg, Hr. injection Hg as Hgm Hga.
    rewrite Hgm in Hp1. rewrite Hga in Hp2. rewrite <- app_assoc in Hr.
    destruct (members_of_group objects (mr_cobj_metadata r, mr_cobj_record r) (own_parts (FLB_LOG_EVENT_GROUP_START, e)) ms _ H2 Hms Hp1 Hp2 _ Hr)
      as (rms & rs' & -> & Hf & Hr'). cbn [app] in Hr'. destruct rs' as [|r' rs']; [done|].
    destruct (record_of_event objects _ _ _ _ _ _ Hy Hr' Hp1 Hp2) as [Hr'ok Hg']. cbn [fst] in Hr'ok, Hg'.
    change (FLB_LOG_EVENT_GROUP_END =? FLB_LOG_EVENT_GROUP_START) with false in Hr'ok, Hg'. cbv iota in Hr'ok, Hg'. injection Hg' as Hg1 _.
    destruct Hr' as (_ & _ & _ & _ & Hr'). change (FLB_LOG_EVENT_GROUP_END =? FLB_LOG_EVENT_GROUP_START) with false in Hr'.
    rewrite Z.eqb_refl in Hr'. cbv iota in Hr'. destruct (IH Hev2 rs' Hr') as (rss & -> & Hf').
    exists ((r :: rms ++ [r']) :: rss). split; [cbn; by rewrite <- app_assoc|]. constructor; [|done]. exists r, rms, r'.
    unfold same_group_as. split_and!; [done|done| |done|apply bool_decide_eq_true; congruence].
    eapply Forall2_impl; [exact Hf|]. intros q x [? Hq]. split; [done|]. apply bool_decide_eq_true. cbn in Hq. congruence.
Qed.

(** ** Which records a route takes *)

Definition takes (r : route) (v : view) : bool :=
  match rt_condition r with
  | None => true
  | Some c =>
      match spec_route_rules cfl_ra_create regex_create c with
      | Some rules => spec_condition regex_match (rc_op c) rules (route_part v)
      | None => rc_is_default c
      end
  end.

Definition route_blocks (r : route) : list nat := path_blocks (Some r).
Definition same_routes : list route → list route → Prop := Forall2 (λ r r', same_path (Some r) (Some r')).

Lemma same_routes_refl l : same_routes l l.
Proof. apply Forall_Forall2_diag, Forall_true. intros r. apply same_path_refl. Qed.
Lemma same_path_trans (p1 p2 p3 : option route) : same_path p1 p2 → same_path p2 p3 → same_path p1 p3.
Proof.
  destruct p1 as [r1|], p2 as [r2|], p3 as [r3|]; try done. intros (H1 & H2 & H3 & H4) (H5 & H6 & H7 & H8). split_and!; [congruence..|].
  destruct (rt_condition r1), (rt_condition r2), (rt_condition r3); try done. destruct H4 as (? & ? & ?), H8 as (? & ? & ?). split_and!; congruence.
Qed.
Lemma same_routes_trans l1 l2 l3 : same_routes l1 l2 → same_routes l2 l3 → same_routes l1 l3.
Proof.
  intros H12. revert l3. induction H12 as [|r1 r2 l1 l2 Hr _ IH]; intros l3 H23.
  - apply Forall2_nil_inv_l in H23 as ->. constructor.
  - apply Forall2_cons_inv_l in H23 as (r3 & l3' & Hr' & H23 & ->). constructor; [by eapply same_path_trans|by apply IH].
Qed.
Lemma same_takes r r' v : same_path (Some r) (Some r') → takes r v = takes r' v.
Proof.
  intros (_ & _ & _ & Hc). unfold takes. destruct (rt_condition r) as [c|], (rt_condition r') as [c'|]; try done.
  destruct Hc as (Hr & Hd & Ho). unfold spec_route_rules. by rewrite Hr, Hd, Ho.
Qed.

(** Splitting a chunk with the records [VS] *)
Section views.
Variable VS : list view.
Definition route_reads (r : route) : bool := path_reads cfl_ra_create regex_create VS (Some r).
Lemma same_reads r r' : same_path (Some r) (Some r') → route_reads r = route_reads r'.
Proof.
  intros (_ & _ & _ & Hc). unfold route_reads, path_reads, path_condition. cbn [mbind option_bind].
  destruct (rt_condition r) as [c|], (rt_condition r') as [c'|]; try done. destruct Hc as (Hr & _). unfold spec_route_rules. by rewrite Hr.
Qed.

(** The routes of an input, whose compiled conditions are in memory next to other blocks *)
Record splitting (base : gmap nat (option cfl_variant)) (B O : list nat) (routes : list route) (s : log_state) : Prop := {
  sp_holds : holds base ((routes ≫= route_blocks) ++ B) O s;
  sp_calm : calm (hp_env (lg_heap s));
  sp_routes : Forall (λ r, path_ok cfl_ra_create regex_create (Some r)) routes;
  sp_readable : Forall (λ r, route_reads r = true) routes
}.

Lemma blocks_at (routes : list route) i r : routes !! i = Some r → routes ≫= route_blocks ≡ₚ route_blocks r ++ (delete i routes ≫= route_blocks).
Proof.
  intros Hi. change (route_blocks r ++ (delete i routes ≫= route_blocks)) with ((r :: delete i routes) ≫= route_blocks).
  apply bind_Permutation. by apply delete_Permutation.
Qed.

(** One route gives place to another, with its blocks. *)
Lemma splitting_insert base B O routes i r r' s : routes !! i = Some r → path_ok cfl_ra_create regex_create (Some r') →
  calm (hp_env (lg_heap s)) → Forall (λ r, path_ok cfl_ra_create regex_create (Some r)) routes →
  route_reads r' = true → Forall (λ r, route_reads r = true) routes →
  holds base (route_blocks r' ++ (delete i routes ≫= route_blocks) ++ B) O s → splitting base B O (<[i := r']> routes) s.
Proof.
  intros Hi Hr' Hc Hok Hrd Hrds Hh. constructor; [|done|by apply Forall_insert|by apply Forall_insert]. eapply holds_perm; [exact Hh| |done].
  assert (Hi' : <[i := r']> routes !! i = Some r') by (apply list_lookup_insert_eq; by eapply lookup_lt_Some).
  rewrite (blocks_at _ _ _ Hi'), <- app_assoc. do 2 f_equiv.
  assert (Hd : delete i (<[i := r']> routes) = delete i routes); [|by rewrite Hd].
  rewrite !delete_take_drop, take_insert_ge, drop_insert_lt by lia. done.
Qed.

Lemma evaluate_route_ok base B O routes i r record v s (Q : bool * list route → log_state → Prop) :
  splitting base B O routes s → routes !! i = Some r → record_view (lg_objects s) record v → v ∈ VS →
  (∀ routes' s', splitting base B O routes' s' → lg_objects s' = lg_objects s → same_routes routes routes' → Q (takes r v, routes') s') →
  runs (evaluate_route routes i record) s Q.
Proof.
  intros [Hh Hc Hok Hrds] Hi Hv HVS HQ. unfold evaluate_route. apply runs_bind. eapply runs_deref; [exact Hi|]. apply runs_bind.
  unfold flb_router_condition_evaluate_record, takes in *. destruct (rt_condition r) as [c|] eqn:Hrc.
  2: { apply runs_ret, runs_ret. rewrite list_insert_id by done. apply HQ; [done|done|apply same_routes_refl]. }
  assert (Hrok := Hok). rewrite Forall_forall in Hrok. specialize (Hrok r (list_elem_of_lookup_2 _ _ _ Hi)).
  unfold path_ok, path_condition in Hrok. cbn in Hrok. rewrite Hrc in Hrok. cbn in Hrok. destruct Hrok as [Hcok Hhon].
  assert (Hrd := Hrds). rewrite Forall_forall in Hrd. specialize (Hrd r (list_elem_of_lookup_2 _ _ _ Hi)).
  assert (Hh1 : holds base (compiled_blocks c ++ ((delete i routes ≫= route_blocks) ++ B)) O s).
  { eapply holds_perm; [exact Hh| |done]. rewrite (blocks_at _ _ _ Hi), <- app_assoc. unfold route_blocks at 1, path_blocks, path_condition. cbn. by rewrite Hrc. }
  unfold flb_router_route_get_condition. rewrite Hrc. apply runs_bind.
  eapply on_heap_ok; [exact Hh1|apply bounded_bind; [apply bounded_get_compiled|intros [? ?]; apply bounded_ret]|].
  apply runs_bind. eapply runs_weaken; [by apply (get_compiled_ok _ _ regex_match _ ((delete i routes ≫= route_blocks) ++ B)); [|apply Hh1]|].
  intros [res c'] h (Hca & Hl & Hok' & Hsame & -> & Hst & Hhon'). apply runs_ret. intros s1 Hs1 Ho1 Hh2. specialize (Hh2 _ Hl).
  assert (Hspec : spec_route_rules cfl_ra_create regex_create c' = spec_route_rules cfl_ra_create regex_create c).
  { unfold spec_route_rules. by rewrite (proj1 Hsame). }
  assert (Hend : ∀ s2, heap_step s1 s2 → splitting base B O (<[i := set_rt_condition (Some c') r]> routes) s2 ∧
    lg_objects s2 = lg_objects s ∧ same_routes routes (<[i := set_rt_condition (Some c') r]> routes)).
  { intros s2 Hs2. split_and!.
    - eapply splitting_insert; [exact Hi|by split; auto|apply Hs2; rewrite Hs1; auto|done| |done|].
      { rewrite <- Hrd. symmetry. apply same_reads. cbn. by rewrite Hrc. }
      eapply holds_heap_step; [exact Hs2|exact Hh2].
    - by rewrite (hs_objects _ _ Hs2).
    - rewrite <- (list_insert_id routes i r Hi) at 1. apply Forall2_insert; [apply same_routes_refl|]. cbn. by rewrite Hrc. }
  assert (Hrefl : heap_step s1 s1) by (constructor; [done|done|unfold next_le; lia|done]).
  destruct (rc_compiled c') as [cd|] eqn:Hcd.
  - destruct (cc_result _ _ _ Hok' _ Hcd) as (_ & rules & Hru & Hcond). rewrite Hspec in Hru. rewrite Hru in HQ. destruct Hsame as (_ & _ & Hop). rewrite Hop in Hcond.
    apply runs_bind. eapply runs_weaken.
    + apply (evaluate_record_ok regex_match _ (route_part v) cd (rc_op c) rules); [|done|].
      2: { unfold route_reads, path_reads, path_condition in Hrd. cbn [mbind option_bind] in Hrd. rewrite Hrc, Hru in Hrd.
        rewrite forallb_forall in Hrd. apply Hrd. by apply list_elem_of_In. }
      intros rule s' Hs'. eapply get_variant_ok; [exact Hv|by rewrite Hs'].
    + intros b s2 [Hst2 Hb]. rewrite <- Hb in HQ by (rewrite Hs1; auto). destruct (Hend s2 Hst2) as (? & ? & ?). by apply runs_ret, runs_ret, HQ.
  - specialize (Hhon' Hc Hhon Hst). rewrite Hspec in Hhon'. rewrite Hhon' in HQ. destruct Hsame as (_ & Hd & _). destruct (Hend s1 Hrefl) as (? & ? & ?).
    by apply runs_ret, runs_ret, HQ.
Qed.
(** ** Marks of groups, and records that conditions see *)

Definition segment_views (sg : segment) : list (option view) :=
  match sg with
  | single x => [Some (view_in (None, None) x)]
  | group start ms stop => None :: ((λ x, Some (view_in (own_parts start) x)) <$> ms) ++ [None]
  end.
Definition all_views (sgs : list segment) : list (option view) := sgs ≫= segment_views.
Definition seen (objects : gmap nat (option cfl_variant)) (q : flb_mp_chunk_record) (o : option view) : Prop :=
  match o with
  | Some v => record_type q = Some FLB_LOG_EVENT_NORMAL ∧ record_view objects q v
  | None => record_type q = Some FLB_LOG_EVENT_GROUP_START ∨ record_type q = Some FLB_LOG_EVENT_GROUP_END
  end.

Lemma flags_views f sgs : flags_of f sgs = from_option f false <$> all_views sgs.
Proof.
  unfold flags_of, all_views. induction sgs as [|sg sgs IH]; [done|]. rewrite !bind_cons, fmap_app, IH. f_equal.
  destruct sg as [x|start ms stop]; [done|]. cbn. f_equal. rewrite fmap_app, <- list_fmap_compose. done.
Qed.
Lemma flags_ext f g sgs : (∀ v, f v = g v) → flags_of f sgs = flags_of g sgs.
Proof. intros Hfg. rewrite !flags_views. apply list_fmap_ext. intros i [v|] _; [apply Hfg|done]. Qed.
Lemma either_flags f g sgs : either (flags_of f sgs) (flags_of g sgs) = flags_of (λ v, f v || g v) sgs.
Proof. rewrite !flags_views. unfold either. induction (all_views sgs) as [|[v|] l IH]; cbn; [done|by rewrite IH..]. Qed.
Lemma no_flags {A} (rs : list A) l : length rs = length l → replicate (length rs) false = from_option (λ _ : view, false) false <$> l.
Proof. revert l. induction rs as [|r rs IH]; intros [|[v|] l] Hl; cbn in *; try done; f_equal; apply IH; lia. Qed.

Lemma segment_seen objects sg rs : segment_ok sg → segment_records objects sg rs → Forall2 (seen objects) rs (segment_views sg).
Proof.
  destruct sg as [x|start ms stop].
  - intros Hx (r & -> & [Ht _ Hv]). cbn in *. constructor; [split; [by rewrite Ht, Hx|done]|constructor].
  - intros (H1 & H2 & H3) (r & rms & r' & -> & [Ht _ _] & Hf & [Ht' _ _] & _). cbn. constructor; [left; by rewrite Ht, H1|].
    apply Forall2_app; [|constructor; [right; by rewrite Ht', H3|done]]. clear -H2 Hf.
    induction Hf as [|q x rms ms [[Ht _ Hv] _] _ IH]; [constructor|]. apply Forall_cons in H2 as [Hx H2]. constructor; [|by apply IH].
    split; [by rewrite Ht, Hx|done].
Qed.
Lemma records_seen objects sgs rs : Forall segment_ok sgs → chunk_records objects sgs rs → Forall2 (seen objects) rs (all_views sgs).
Proof.
  intros Hok (rss & -> & Hf). unfold all_views. induction Hf as [|sg rs sgs rss Hr _ IH]; [constructor|]. apply Forall_cons in Hok as [Hsg Hok].
  rewrite bind_cons. cbn [concat]. apply Forall2_app; [by apply segment_seen|by apply IH].
Qed.
Lemma views_grouped sgs : existsb has_group sgs = false → Forall is_Some (all_views sgs).
Proof.
  unfold all_views. induction sgs as [|sg sgs IH]; [constructor|]. destruct sg; [|done]. intros Hg. rewrite bind_cons.
  apply Forall_app. split; [repeat constructor; by eexists|by apply IH].
Qed.

Definition at_route (routes : list route) (i : nat) (r : route) : Prop := ∃ r', routes !! i = Some r' ∧ same_path (Some r) (Some r').
Lemma at_same_route routes routes' i r : at_route routes i r → same_routes routes routes' → at_route routes' i r.
Proof.
  intros (r' & Hi & Hs) Hr. destruct (Forall2_lookup_l _ _ _ _ _ Hr Hi) as (r'' & Hi' & Hs'). exists r''. split; [done|by eapply same_path_trans].
Qed.
Lemma at_route_condition routes i r : at_route routes i r → ∃ r', routes !! i = Some r' ∧
  (is_Some (rt_condition r') ↔ is_Some (rt_condition r)) ∧ ∀ v, takes r' v = takes r v.
Proof.
  intros (r' & Hi & Hs). exists r'. split_and!; [done| |intros v; symmetry; by apply same_takes].
  destruct Hs as (_ & _ & _ & Hc). destruct (rt_condition r), (rt_condition r'); try done; by split; intros [? ?].
Qed.

Lemma match_records_ok base B O objects i r tk ovs : ∀ rs routes ge s (Q : _ → log_state → Prop),
  splitting base B O routes s → at_route routes i r → lg_objects s = objects → Forall2 (seen objects) rs ovs →
  (∀ v, Some v ∈ ovs → v ∈ VS) →
  (∀ routes' s' ge', splitting base B O routes' s' → lg_objects s' = objects → same_routes routes routes' → (Forall is_Some ovs → ge' = ge) →
     Q (from_option (λ v, takes r v && negb (tk v)) false <$> ovs, ge', routes') s') →
  runs (match_records routes i (zip rs (from_option tk false <$> ovs)) ge) s Q.
Proof.
  induction ovs as [|o ovs IH]; intros rs routes ge s Q Hsp Hat Ho Hf HVS HQ.
  - apply Forall2_nil_inv_r in Hf as ->. apply runs_ret. apply HQ; [done|done|apply same_routes_refl|done].
  - apply Forall2_cons_inv_r in Hf as (q & rs' & Hq & Hf & ->). cbn [fmap list_fmap zip_with match_records]. unfold is_type. apply runs_bind.
    assert (Hrest : ∀ ge1 routes1 s1 b, splitting base B O routes1 s1 → lg_objects s1 = objects → same_routes routes routes1 →
      b = from_option (λ v, takes r v && negb (tk v)) false o → (is_Some o → ge1 = ge) →
      runs ('(bs, ge', routes') ← match_records routes1 i (zip rs' (from_option tk false <$> ovs)) ge1; mret (b :: bs, ge', routes')) s1 Q).
    { intros ge1 routes1 s1 b Hsp1 Ho1 Hsr1 -> Hge. apply runs_bind. apply IH; [done|by eapply at_same_route|done|done|intros w Hw; apply HVS; by right|].
      intros routes2 s2 ge2 Hsp2 Ho2 Hsr2 Hge2. apply runs_ret. apply HQ; [done|done|by eapply same_routes_trans|].
      intros [Hov Hovs]%Forall_cons. rewrite Hge2 by done. by apply Hge. }
    destruct o as [v|]; cbn [seen from_option] in Hq |- *.
    + destruct Hq as [Ht Hv]. rewrite Ht. rewrite !bool_decide_eq_false_2 by (cbv; congruence).
      destruct (tk v) eqn:Htk; [apply runs_ret, Hrest; [done|done|apply same_routes_refl|cbn; by rewrite Htk, andb_false_r|done]|].
      apply runs_bind. destruct (at_route_condition _ _ _ Hat) as (r' & Hi & _ & Htakes). rewrite <- Ho in Hv.
      eapply evaluate_route_ok; [exact Hsp|exact Hi|exact Hv|apply HVS; by left|]. intros routes1 s1 Hsp1 Ho1 Hsr1. apply runs_ret.
      apply Hrest; [done|congruence|done|cbn; by rewrite Htakes, Htk, andb_true_r|done].
    + destruct Hq as [Ht|Ht]; rewrite Ht; [rewrite bool_decide_eq_true_2 by done|
        rewrite bool_decide_eq_false_2 by (cbv; congruence); rewrite bool_decide_eq_true_2 by done];
        apply runs_ret, Hrest; try done; try apply same_routes_refl; by intros [? ?].
Qed.

Lemma mark_default_ok base B O objects i r tk ovs : ∀ rs routes s (Q : _ → log_state → Prop),
  splitting base B O routes s → at_route routes i r → lg_objects s = objects → Forall2 (seen objects) rs ovs →
  (∀ v, Some v ∈ ovs → v ∈ VS) →
  (∀ routes' s', splitting base B O routes' s' → lg_objects s' = objects → same_routes routes routes' →
     Q (from_option (λ v, takes r v && negb (tk v)) false <$> ovs, routes') s') →
  runs (mark_default routes i (zip rs (from_option tk false <$> ovs))) s Q.
Proof.
  induction ovs as [|o ovs IH]; intros rs routes s Q Hsp Hat Ho Hf HVS HQ.
  - apply Forall2_nil_inv_r in Hf as ->. apply runs_ret. apply HQ; [done|done|apply same_routes_refl].
  - apply Forall2_cons_inv_r in Hf as (q & rs' & Hq & Hf & ->). cbn [fmap list_fmap zip_with mark_default]. unfold is_type. apply runs_bind.
    assert (Hrest : ∀ routes1 s1 b, splitting base B O routes1 s1 → lg_objects s1 = objects → same_routes routes routes1 →
      b = from_option (λ v, takes r v && negb (tk v)) false o →
      runs ('(bs, routes') ← mark_default routes1 i (zip rs' (from_option tk false <$> ovs)); mret (b :: bs, routes')) s1 Q).
    { intros routes1 s1 b Hsp1 Ho1 Hsr1 ->. apply runs_bind. apply IH; [done|by eapply at_same_route|done|done|intros w Hw; apply HVS; by right|].
      intros routes2 s2 Hsp2 Ho2 Hsr2. apply runs_ret. apply HQ; [done|done|by eapply same_routes_trans]. }
    destruct o as [v|]; cbn [seen from_option] in Hq |- *.
    + destruct Hq as [Ht Hv]. rewrite Ht. rewrite bool_decide_eq_true_2 by done. cbn [andb].
      destruct (tk v) eqn:Htk; [apply runs_ret, Hrest; [done|done|apply same_routes_refl|cbn; by rewrite Htk, andb_false_r]|].
      destruct (at_route_condition _ _ _ Hat) as (r' & Hi & _ & Htakes). rewrite <- Ho in Hv. cbn [negb].
      apply runs_bind. eapply runs_deref; [exact Hi|]. destruct (rt_condition r') as [c|] eqn:Hrc.
      * eapply evaluate_route_ok; [exact Hsp|exact Hi|exact Hv|apply HVS; by left|]. intros routes1 s1 Hsp1 Ho1 Hsr1.
        apply Hrest; [done|congruence|done|cbn; by rewrite Htakes, Htk, andb_true_r].
      * apply runs_ret, Hrest; [done|done|apply same_routes_refl|]. cbn. rewrite <- Htakes, Htk. unfold takes. by rewrite Hrc.
    + rewrite bool_decide_eq_false_2 by (destruct Hq as [-> | ->]; cbv; congruence). apply runs_ret, Hrest; try done; apply same_routes_refl.
Qed.
(** ** What is selected *)

Lemma count_app l l' : count_true (l ++ l') = count_true l + count_true l'.
Proof. unfold count_true. by rewrite List.filter_app, zlen_app. Qed.
Lemma count_fmap {A} (f : A → bool) l : count_true (f <$> l) = zlen (List.filter f l).
Proof. unfold count_true. induction l as [|x l IH]; [done|]. cbn. destruct (f x); cbn; [|done]. rewrite !zlen_cons. lia. Qed.

Lemma segment_count f sg : count_true (segment_flags f sg) =
  match sg with single x => if f (view_in (None, None) x) then 1 else 0
  | group start ms _ => zlen (List.filter (λ x, f (view_in (own_parts start) x)) ms) end.
Proof.
  destruct sg as [x|start ms stop]; [unfold count_true; cbn; by destruct (f _)|]. cbn [segment_flags].
  change (false :: ?l) with ([false] ++ l). rewrite !count_app, count_fmap. change (count_true [false]) with 0. lia.
Qed.
Lemma event_bytes_start (x : Z * flb_log_event) : ∃ l, bytes_of_event x = 0xdd :: l.
Proof. eexists. reflexivity. Qed.
Lemma segment_nonempty f sg : count_true (segment_flags f sg) = 0 ↔ segment_bytes f sg = [].
Proof.
  rewrite segment_count. destruct sg as [x|start ms stop]; cbn [segment_bytes].
  - destruct (event_bytes_start x) as [l Hl]. cbv beta in Hl. rewrite Hl. by destruct (f _).
  - destruct (List.filter _ ms) as [|y ys]; [done|]. rewrite zlen_cons. pose proof (zlen_nonneg ys).
    destruct (event_bytes_start start) as [l Hl]. cbv beta in Hl. rewrite Hl. split; [lia|done].
Qed.
Lemma count_nonneg l : 0 <= count_true l.
Proof. apply zlen_nonneg. Qed.
Lemma selected_nonempty f sgs : count_true (flags_of f sgs) = 0 ↔ selected_bytes f sgs = [].
Proof.
  unfold flags_of, selected_bytes. induction sgs as [|sg sgs IH]; [done|]. rewrite bind_cons, count_app. cbn [fmap list_fmap concat].
  pose proof (count_nonneg (segment_flags f sg)). pose proof (count_nonneg (sgs ≫= segment_flags f)).
  rewrite app_nil, <- IH, <- segment_nonempty. lia.
Qed.
Lemma filter_ext_bool {A} (f g : A → bool) l : (∀ x, f x = g x) → List.filter f l = List.filter g l.
Proof. intros Hfg. induction l as [|x l IH]; [done|]. cbn. by rewrite Hfg, IH. Qed.
Lemma selected_ext f g sgs : (∀ v, f v = g v) → selected_bytes f sgs = selected_bytes g sgs.
Proof.
  intros Hfg. unfold selected_bytes. f_equal. apply list_fmap_ext. intros _ sg _. destruct sg as [x|start ms stop]; cbn; [by rewrite Hfg|].
  by rewrite (filter_ext_bool _ (λ x, g (view_in (own_parts start) x))) by auto.
Qed.
Lemma members_le f g ms : zlen (members_bytes f g ms) <= zlen (concat (bytes_of_event <$> ms)).
Proof.
  unfold members_bytes. induction ms as [|x ms IH]; [done|]. cbn [List.filter fmap list_fmap concat]. rewrite zlen_app.
  destruct (f (view_in g x)); cbn [fmap list_fmap concat]; rewrite ?zlen_app; [lia|]. pose proof (zlen_nonneg (bytes_of_event x)). lia.
Qed.
(** No selection is longer than all events. *)
Lemma selected_le f sgs : zlen (selected_bytes f sgs) <= zlen (concat (bytes_of_event <$> (sgs ≫= items))).
Proof.
  unfold selected_bytes. induction sgs as [|sg sgs IH]; [done|]. rewrite bind_cons, fmap_app, concat_app. cbn [fmap list_fmap concat].
  rewrite !zlen_app. enough (zlen (segment_bytes f sg) <= zlen (concat (bytes_of_event <$> items sg))) by lia.
  destruct sg as [x|start ms stop]; cbn [segment_bytes items].
  - cbn [fmap list_fmap concat]. rewrite app_nil_r. destruct (f _); [lia|]. apply zlen_nonneg.
  - cbn [fmap list_fmap concat]. rewrite fmap_app, concat_app, !zlen_app. cbn [fmap list_fmap concat]. rewrite app_nil_r.
    pose proof (members_le f (own_parts start) ms) as Hm. unfold members_bytes in Hm.
    pose proof (zlen_nonneg (bytes_of_event start)). pose proof (zlen_nonneg (bytes_of_event stop)). pose proof (zlen_nonneg (concat (bytes_of_event <$> ms))).
    destruct (List.filter _ ms) as [|y ys]; [change (zlen []) with 0; lia|]. cbn [fmap list_fmap concat] in Hm |- *. rewrite !zlen_app in *. cbv beta in *. lia.
Qed.

(** ** A payload gets its records *)

Definition data_blocks (p : flb_route_payload) : list nat := match pl_data p with Some d => [d.1] | None => [] end.
(** It has the bytes and the number of the records that are taken, and no data when there are none. *)
Definition filled (f : view → bool) (sgs : list segment) (p p' : flb_route_payload) : Prop :=
  ∃ data, p' = set_pl_data data (count_true (flags_of f sgs)) p ∧
    snd <$> data = if count_true (flags_of f sgs) =? 0 then None else Some (selected_bytes f sgs).
Definition empty_payload (p : flb_route_payload) : Prop := pl_data p = None ∧ pl_total_records p = 0.

Lemma filled_none f sgs p : empty_payload p → count_true (flags_of f sgs) = 0 → filled f sgs p p.
Proof. intros [Hd Ht] Hc. exists None. rewrite Hc. split; [|done]. destruct p. cbn in *. by subst. Qed.

Section one_chunk.
Variables (base : gmap nat (option cfl_variant)) (O : list nat) (objects : gmap nat (option cfl_variant)).
Variables (sgs : list segment) (rs : list flb_mp_chunk_record).
Hypothesis Hsgs : Forall segment_ok sgs.
Hypothesis Hrs : chunk_records objects sgs rs.
Hypothesis Hsome : rs ≠ [].
Hypothesis Hsize : zlen (concat (bytes_of_event <$> (sgs ≫= items))) < 2 ^ 64.
Hypothesis Hviews : ∀ v, Some v ∈ all_views sgs → v ∈ VS.

Lemma seen_all : Forall2 (seen objects) rs (all_views sgs).
Proof. by apply records_seen. Qed.
Lemma group_end_none (ge : option flb_mp_chunk_record) : (Forall is_Some (all_views sgs) → ge = None) → existsb has_group sgs = false → ge = None.
Proof. intros Hge Hg. by apply Hge, views_grouped. Qed.

Lemma take_output_ok B out p0 e n p s (Q : Z * flb_route_payload → log_state → Prop) : encoding base B O out p0 e s → out ≠ [] →
  lg_objects s = objects →
  (∀ a s', holds base (a :: B) O s' → calm (hp_env (lg_heap s')) → lg_objects s' = objects → Q (0, set_pl_data (Some (a, out)) n p) s') →
  runs (take_output n p e) s Q.
Proof.
  intros [Hh Hc He] Hout Ho HQ. unfold take_output. apply runs_bind. eapply runs_deref; [by eapply encoder_output_law|].
  destruct out as [|b out]; [done|]. apply runs_bind. eapply alloc_ok; [exact Hh|tauto|]. intros a s1 Hh1 Ho1 _ Hc1.
  apply runs_bind. eapply on_heap_ok; [exact Hh1|apply encoder_destroy_bounded|]. eapply runs_weaken.
  { eapply (encoder_destroy_law _ _ _ _ (a :: B)); [exact He|]. rewrite (ho_live _ _ _ _ Hh1). by rewrite Permutation_middle. }
  intros _ h [Hl He'] s2 Hs2 Ho2 Hh2. apply runs_ret, HQ; [by apply Hh2|by rewrite Hs2, He'; auto|congruence].
Qed.

(** The selection is encoded, the array of flags released, and the output taken. *)
Lemma fill_ok {R} f B flags ge p0 e p s fail (k : Z → flb_route_payload → M log_state R) (Q : R → log_state → Prop) :
  encoding base (flags :: B) O [] p0 e s → lg_objects s = objects → count_true (flags_of f sgs) ≠ 0 →
  (existsb has_group sgs = false → ge = None) →
  (∀ a s', holds base (a :: B) O s' → calm (hp_env (lg_heap s')) → lg_objects s' = objects →
     runs (k 0 (set_pl_data (Some (a, selected_bytes f sgs)) (count_true (flags_of f sgs)) p)) s' Q) →
  runs ('(ret, e) ← encode_selection (zip rs (flags_of f sgs)) ge e;
        on_heap (free_block flags) ≫= λ _,
        if negb (ret =? 0) then fail e
        else '(ret, payload) ← take_output (count_true (flags_of f sgs)) p e; k ret payload) s Q.
Proof.
  intros Hen Ho Hn Hge HQ. pose proof (selected_le f sgs) as Hle. apply runs_bind.
  eapply (encode_selection_ok objects); [exact Hsgs|exact Hrs|exact Hge|exact Hen|exact Ho|cbn; lia|].
  intros e1 p1 s1 [Hh1 Hc1 He1] Ho1. apply runs_bind. eapply free_ok; [eapply holds_perm; [exact Hh1|by rewrite <- Permutation_middle|done]|].
  intros s2 Hh2 Ho2 Hc2. cbn [Z.eqb negb]. apply runs_bind. eapply (take_output_ok B); [|by rewrite <- selected_nonempty|congruence|exact HQ].
  constructor; [exact Hh2|by rewrite Hc2|exact He1].
Qed.
(** ** Payloads of routes *)

(** A route without a condition takes nothing here. *)
Definition takes_here (r : route) (v : view) : bool := bool_decide (is_Some (rt_condition r)) && takes r v.
Lemma takes_conditional r v : is_Some (rt_condition r) → takes_here r v = takes r v.
Proof. intros Hc. unfold takes_here. by rewrite bool_decide_eq_true_2. Qed.

Lemma splitting_calm B routes s : splitting base B O routes s → calm (hp_env (lg_heap s)).
Proof. by intros []. Qed.
(** Blocks next to those of the routes come and go. *)
Lemma splitting_holds B B' routes s s' : splitting base B O routes s → holds base (B' ++ (routes ≫= route_blocks)) O s' →
  calm (hp_env (lg_heap s')) → splitting base B' O routes s'.
Proof. intros [_ _ Hok Hrd] Hh Hc. constructor; [|done..]. eapply holds_perm; [exact Hh|apply Permutation_app_comm|done]. Qed.

Lemma alloc_splitting B routes s (Q : option nat → log_state → Prop) : splitting base B O routes s →
  (∀ a s', splitting base (a :: B) O routes s' → lg_objects s' = lg_objects s → Q (Some a) s') → runs (on_heap alloc) s Q.
Proof.
  intros [Hh Hc Hok Hrd] HQ. eapply alloc_ok; [exact Hh|tauto|]. intros a s1 Hh1 Ho1 _ Hc1. apply HQ; [|done].
  constructor; [|auto|done|done]. eapply holds_perm; [exact Hh1|apply Permutation_middle|done].
Qed.
Lemma free_splitting B routes a s (Q : unit → log_state → Prop) : splitting base (a :: B) O routes s →
  (∀ s', splitting base B O routes s' → lg_objects s' = lg_objects s → Q tt s') → runs (on_heap (free_block a)) s Q.
Proof.
  intros [Hh Hc Hok Hrd] HQ. eapply free_ok; [eapply holds_perm; [exact Hh|symmetry; apply Permutation_middle|done]|].
  intros s1 Hh1 Ho1 He1. apply HQ; [|done]. constructor; [done|by rewrite He1|done|done].
Qed.
Lemma create_splitting B routes s (Q : option E → log_state → Prop) : splitting base B O routes s →
  (∀ e p s', encoder_at [] p e → splitting base (encoder_blocks e ++ B) O routes s' → lg_objects s' = lg_objects s → Q (Some e) s') →
  runs (on_heap encoder_create) s Q.
Proof.
  intros [Hh Hc Hok Hrd] HQ. eapply on_heap_ok; [exact Hh|apply encoder_create_bounded|]. eapply runs_weaken; [apply encoder_create_law|].
  intros [e|] h [Hca Hr] s1 Hs1 Ho1 Hh1; [|tauto]. destruct Hr as (Hl & p & Hat). eapply HQ; [exact Hat| |done].
  constructor; [|rewrite Hs1; auto|done|done]. apply Hh1. by rewrite Hl, (ho_live _ _ _ _ Hh), Permutation_app_swap_app.
Qed.
Lemma destroy_splitting B routes out p e s (Q : unit → log_state → Prop) : encoder_at out p e →
  splitting base (encoder_blocks e ++ B) O routes s → (∀ s', splitting base B O routes s' → lg_objects s' = lg_objects s → Q tt s') →
  runs (on_heap (encoder_destroy e)) s Q.
Proof.
  intros He [Hh Hc Hok] HQ. eapply on_heap_ok; [exact Hh|apply encoder_destroy_bounded|]. eapply runs_weaken.
  { eapply (encoder_destroy_law _ _ _ _ ((routes ≫= route_blocks) ++ B)); [exact He|]. rewrite (ho_live _ _ _ _ Hh).
    apply Permutation_app_swap_app. }
  intros [] h [Hl He'] s1 Hs1 Ho1 Hh1. apply HQ; [|done]. constructor; [by apply Hh1|by rewrite Hs1, He'|done|done].
Qed.
Lemma splitting_perm B B' routes s : splitting base B O routes s → B ≡ₚ B' → splitting base B' O routes s.
Proof. intros [Hh Hc Hok Hrd] HB. constructor; [|done|done|done]. eapply holds_perm; [exact Hh|by rewrite HB|done]. Qed.
Lemma splitting_encoding B routes out p e s : encoder_at out p e → splitting base (encoder_blocks e ++ B) O routes s →
  encoding base (B ++ (routes ≫= route_blocks)) O out p e s.
Proof.
  intros He [Hh Hc _ _]. constructor; [|done|done]. eapply holds_perm; [exact Hh| |done]. by rewrite Permutation_app_comm, <- app_assoc.
Qed.

Lemma records_match {A} (x y : A) : match rs with [] => x | _ :: _ => y end = y.
Proof. by destruct rs. Qed.
Lemma build_payload_for_route_ok B nd any p r routes s
    (Q : Z * flb_route_payload * list bool * list bool * list route → log_state → Prop) :
  splitting base B O routes s → lg_objects s = objects → at_route routes (pl_route p) r → empty_payload p →
  (∀ p' routes' s', filled (takes_here r) sgs p p' → splitting base (data_blocks p' ++ B) O routes' s' → lg_objects s' = objects →
     same_routes routes routes' →
     Q (0, p', flags_of (λ v, nd v || takes_here r v) sgs, flags_of (λ v, any v || takes_here r v) sgs, routes') s') →
  runs (build_payload_for_route p rs (flags_of nd sgs) (flags_of any sgs) routes) s Q.
Proof.
  intros Hsp Ho Hat Hp HQ. unfold build_payload_for_route. rewrite records_match.
  destruct (at_route_condition _ _ _ Hat) as (r' & Hi & Hc & Htakes). apply runs_bind. eapply runs_deref; [exact Hi|].
  assert (Hdb : data_blocks p = []) by (unfold data_blocks; by rewrite (proj1 Hp)).
  destruct (rt_condition r') as [c|] eqn:Hrc.
  2: { assert (Hno : ∀ v, takes_here r v = false).
    { intros v. unfold takes_here. rewrite bool_decide_eq_false_2; [done|]. rewrite <- Hc. by intros [? ?]. }
    apply runs_ret. rewrite (flags_ext nd (λ v, nd v || takes_here r v)), (flags_ext any (λ v, any v || takes_here r v))
      by (intros v; by rewrite Hno, orb_false_r).
    apply HQ; [|by rewrite Hdb|done|apply same_routes_refl]. apply filled_none; [done|].
    rewrite (flags_ext _ (λ _, false)) by done. clear. unfold flags_of. induction sgs as [|sg l IH]; [done|].
    rewrite bind_cons, count_app, IH, segment_count. destruct sg; [done|]. by induction members. }
  assert (Hcond : is_Some (rt_condition r)) by (apply Hc; by eexists).
  apply runs_bind. eapply create_splitting; [exact Hsp|]. intros e p0 s1 He Hsp1 Ho1. apply runs_bind. eapply alloc_splitting; [exact Hsp1|].
  intros flags s2 Hsp2 Ho2. pose proof seen_all as Hseen. rewrite (no_flags rs (all_views sgs)) by (by eapply Forall2_length).
  apply runs_bind. eapply (match_records_ok base _ O objects _ r (λ _, false)); [exact Hsp2|exact Hat|congruence|exact Hseen|exact Hviews|].
  intros routes3 s3 ge Hsp3 Ho3 Hsr3 Hge.
  assert (Hfl : from_option (λ v, takes r v && negb false) false <$> all_views sgs = flags_of (takes_here r) sgs).
  { rewrite flags_views. apply list_fmap_ext. intros _ [v|] _; [|done]. cbn. by rewrite takes_conditional, andb_true_r. }
  rewrite Hfl, !either_flags. destruct (Z.eqb_spec (count_true (flags_of (takes_here r) sgs)) 0) as [Hn|Hn].
  - apply runs_bind. eapply free_splitting; [exact Hsp3|]. intros s4 Hsp4 Ho4. apply runs_bind.
    eapply destroy_splitting; [exact He|exact Hsp4|]. intros s5 Hsp5 Ho5. apply runs_ret.
    apply HQ; [by apply filled_none|by rewrite Hdb|congruence|done].
  - eapply (fill_ok _ (B ++ (routes3 ≫= route_blocks)) flags ge p0); [|exact Ho3|exact Hn|by apply group_end_none|].
    { apply (splitting_encoding (flags :: B)); [exact He|]. eapply splitting_perm; [exact Hsp3|apply Permutation_middle]. }
    intros a s4 Hh4 Hc4 Ho4. apply runs_ret. apply HQ; [| |done|done].
    + eexists. split; [reflexivity|]. by apply Z.eqb_neq in Hn as ->.
    + unfold data_blocks. cbn. by eapply splitting_holds; [exact Hsp3|..].
Qed.
Lemma either_none f g : count_true (flags_of f sgs) = 0 → flags_of (λ v, g v || f v) sgs = flags_of g sgs.
Proof.
  rewrite !flags_views. clear Hsgs Hrs Hsize Hviews. induction (all_views sgs) as [|o l IH]; [done|]. cbn [fmap list_fmap]. unfold count_true in *.
  cbn [List.filter]. destruct o as [v|]; cbn; [|by intros ->%IH]. destruct (f v); cbn; [|intros ->%IH; by rewrite orb_false_r].
  rewrite zlen_cons. pose proof (zlen_nonneg (List.filter id (from_option f false <$> l))). lia.
Qed.

Lemma build_payload_for_default_route_ok B nd any p r routes s
    (Q : Z * flb_route_payload * list bool * list route → log_state → Prop) :
  splitting base B O routes s → lg_objects s = objects → at_route routes (pl_route p) r → empty_payload p →
  (∀ p' routes' s', filled (λ v, takes r v && negb (nd v)) sgs p p' → splitting base (data_blocks p' ++ B) O routes' s' →
     lg_objects s' = objects → same_routes routes routes' →
     Q (0, p', flags_of (λ v, any v || (takes r v && negb (nd v))) sgs, routes') s') →
  runs (build_payload_for_default_route p rs (flags_of nd sgs) (flags_of any sgs) routes) s Q.
Proof.
  intros Hsp Ho Hat Hp HQ. unfold build_payload_for_default_route. pose proof seen_all as Hseen.
  assert (Hdb : data_blocks p = []) by (unfold data_blocks; by rewrite (proj1 Hp)).
  apply runs_bind. eapply create_splitting; [exact Hsp|]. intros e p0 s1 He Hsp1 Ho1. rewrite (flags_views nd).
  apply runs_bind. eapply (match_records_ok base _ O objects _ r nd); [exact Hsp1|exact Hat|congruence|exact Hseen|exact Hviews|].
  intros routes2 s2 ge Hsp2 Ho2 Hsr2 Hge. rewrite <- flags_views. destruct (Z.eqb_spec (count_true (flags_of (λ v, takes r v && negb (nd v)) sgs)) 0) as [Hn|Hn].
  - apply runs_bind. eapply destroy_splitting; [exact He|exact Hsp2|]. intros s3 Hsp3 Ho3. apply runs_ret.
    rewrite <- (either_none _ any Hn). apply HQ; [by apply filled_none|by rewrite Hdb|congruence|done].
  - apply runs_bind. eapply alloc_splitting; [exact Hsp2|]. intros flags s3 Hsp3 Ho3.
    apply runs_bind. eapply (mark_default_ok base _ O objects _ r nd); [exact Hsp3|by eapply at_same_route|congruence|exact Hseen|exact Hviews|].
    intros routes4 s4 Hsp4 Ho4 Hsr4. rewrite <- flags_views, either_flags.
    eapply (fill_ok _ (B ++ (routes4 ≫= route_blocks)) flags ge p0); [|exact Ho4|exact Hn|by apply group_end_none|].
    { apply (splitting_encoding (flags :: B)); [exact He|]. eapply splitting_perm; [exact Hsp4|apply Permutation_middle]. }
    intros a s5 Hh5 Hc5 Ho5. apply runs_ret. apply HQ; [| |done|by eapply same_routes_trans].
    + eexists. split; [reflexivity|]. by apply Z.eqb_neq in Hn as ->.
    + unfold data_blocks. cbn. by eapply splitting_holds; [exact Hsp4|..].
Qed.

Lemma unmatched_flags any : zip_with (λ r any, is_type FLB_LOG_EVENT_NORMAL r && negb any) rs (flags_of any sgs) = flags_of (λ v, negb (any v)) sgs.
Proof.
  rewrite !flags_views. pose proof seen_all as Hseen. clear Hsgs Hrs Hsome Hsize Hviews. induction Hseen as [|q o l l' Hq _ IH]; [done|]. cbn. rewrite IH. f_equal. unfold is_type.
  destruct o as [v|]; [destruct Hq as [-> _]; by rewrite bool_decide_eq_true_2|].
  rewrite bool_decide_eq_false_2; [done|]. destruct Hq as [-> | ->]; cbv; congruence.
Qed.
Lemma calculate_unmatched_ok B any routes s (Q : Z * Z * Z → log_state → Prop) :
  splitting base B O routes s → lg_objects s = objects →
  (∀ s', splitting base B O routes s' → lg_objects s' = objects →
     Q (0, count_true (flags_of (λ v, negb (any v)) sgs), zlen (selected_bytes (λ v, negb (any v)) sgs)) s') →
  runs (calculate_unmatched_route_metrics rs (flags_of any sgs)) s Q.
Proof.
  intros Hsp Ho HQ. unfold calculate_unmatched_route_metrics. rewrite records_match, unmatched_flags. set (f := λ v, negb (any v)).
  pose proof (selected_le f sgs) as Hle. apply runs_bind. eapply create_splitting; [exact Hsp|]. intros e p0 s1 He Hsp1 Ho1.
  apply runs_bind. eapply (encode_selection_ok objects); [exact Hsgs|exact Hrs|done|by eapply splitting_encoding|congruence|cbn; lia|].
  intros e1 p1 s2 [Hh2 Hc2 He2] Ho2. cbn [Z.eqb negb]. apply runs_bind. eapply runs_deref; [by eapply encoder_output_law|].
  apply runs_bind. eapply destroy_splitting; [exact He2| |].
  { eapply splitting_holds; [exact Hsp1| |exact Hc2]. eapply holds_perm; [exact Hh2|by rewrite app_assoc|done]. }
  intros s3 Hsp3 Ho3. apply runs_ret. apply HQ; [done|congruence].
Qed.
(** ** All payloads *)

Section all_routes.
(** The routes as they are at first *)
Variable routes0 : list route.

Definition own (p : flb_route_payload) (v : view) : bool := from_option (λ r, takes_here r v) false (routes0 !! pl_route p).
(** What the routes that are not default take, and the share of a payload in the end *)
Definition others (ps : list flb_route_payload) (v : view) : bool := existsb (λ p, negb (pl_is_default p) && own p v) ps.
Definition share (ps : list flb_route_payload) (p : flb_route_payload) (v : view) : bool := own p v && negb (pl_is_default p && others ps v).
Definition payload_ok (p : flb_route_payload) : Prop :=
  ∃ r, routes0 !! pl_route p = Some r ∧ pl_is_default p = from_option rc_is_default false (rt_condition r).

(** What a round over the payloads of one kind gives to one *)
Definition round_share (d : bool) (nd : view → bool) (p : flb_route_payload) (v : view) : bool := own p v && negb (d && nd v).
Definition round_fills (d : bool) (nd : view → bool) (p p' : flb_route_payload) : Prop :=
  if Bool.eqb (pl_is_default p) d then filled (round_share d nd p) sgs p p' else p' = p.

Lemma round_share_ext d (nd nd' : view → bool) x p v : (∀ v, nd' v = nd v || negb d && x v) → round_share d nd' p v = round_share d nd p v.
Proof. intros Hnd. unfold round_share. rewrite Hnd. by destruct d, (nd v). Qed.
Lemma existsb_ext {A} (f g : A → bool) l : (∀ x, f x = g x) → existsb f l = existsb g l.
Proof. intros Hfg. induction l as [|x l IH]; [done|]. cbn. by rewrite Hfg, IH. Qed.
Lemma filled_ext f g p p' : (∀ v, f v = g v) → filled f sgs p p' → filled g sgs p p'.
Proof. intros Hfg. unfold filled. by rewrite (flags_ext f g), (selected_ext f g). Qed.
Lemma filled_blocks f p p' : empty_payload p → filled f sgs p p' → payload_blocks p' ≡ₚ data_blocks p' ++ payload_blocks p.
Proof.
  intros [Hp _] (data & -> & _). unfold payload_blocks, data_blocks. cbn. rewrite Hp. destruct data as [[a l]|]; [|done]. cbn.
  by rewrite (perm_swap a), (perm_swap a).
Qed.
Lemma round_fills_same d nd p p' : round_fills d nd p p' → pl_route p' = pl_route p ∧ pl_is_default p' = pl_is_default p ∧ pl_tag p' = pl_tag p ∧ pl_block p' = pl_block p.
Proof. unfold round_fills. destruct (Bool.eqb _ _); [by intros (data & -> & _)|by intros ->]. Qed.

Lemma build_one_ok B d nd any p routes s (Q : Z * flb_route_payload * list bool * list bool * list route → log_state → Prop) :
  splitting base B O routes s → lg_objects s = objects → same_routes routes0 routes → payload_ok p → pl_is_default p = d → empty_payload p →
  (∀ p' nd' any' routes' s', filled (round_share d nd p) sgs p p' → splitting base (data_blocks p' ++ B) O routes' s' → lg_objects s' = objects →
     same_routes routes0 routes' → (∀ v, nd' v = nd v || (negb d && own p v)) → (∀ v, any' v = any v || round_share d nd p v) →
     Q (0, p', flags_of nd' sgs, flags_of any' sgs, routes') s') →
  runs (if d then
          '(ret, p, any, routes) ← build_payload_for_default_route p rs (flags_of nd sgs) (flags_of any sgs) routes;
          mret (ret, p, flags_of nd sgs, any, routes)
        else build_payload_for_route p rs (flags_of nd sgs) (flags_of any sgs) routes) s Q.
Proof.
  intros Hsp Ho Hsr (r & Hr & Hd) Hpd Hp HQ. assert (Hown : ∀ v, own p v = takes_here r v) by (intros v; unfold own; by rewrite Hr).
  assert (Hat : at_route routes (pl_route p) r) by (eapply at_same_route; [exists r; split; [done|apply same_path_refl]|exact Hsr]).
  destruct d.
  - assert (Htakes : ∀ v, takes r v = own p v).
    { intros v. rewrite Hown, takes_conditional; [done|]. rewrite Hd in Hpd. destruct (rt_condition r); [by eexists|done]. }
    apply runs_bind. eapply build_payload_for_default_route_ok; [exact Hsp|exact Ho|exact Hat|exact Hp|].
    intros p' routes' s' Hf Hsp' Ho' Hsr'. apply runs_ret. eapply HQ; [|done|done|by eapply same_routes_trans|by intros v; rewrite orb_false_r|].
    + eapply filled_ext; [|exact Hf]. intros v. unfold round_share. by rewrite Htakes.
    + intros v. unfold round_share. by rewrite Htakes.
  - eapply build_payload_for_route_ok; [exact Hsp|exact Ho|exact Hat|exact Hp|].
    intros p' routes' s' Hf Hsp' Ho' Hsr'. eapply HQ; [|done|done|by eapply same_routes_trans|by intros v; rewrite Hown|].
    + eapply filled_ext; [|exact Hf]. intros v. unfold round_share. by rewrite Hown, andb_true_r.
    + intros v. unfold round_share. by rewrite Hown, andb_true_r.
Qed.

Lemma round_ok d ps : ∀ B nd any routes s (Q : _ → log_state → Prop),
  splitting base ((ps ≫= payload_blocks) ++ B) O routes s → lg_objects s = objects → same_routes routes0 routes → Forall payload_ok ps →
  Forall (λ p, pl_is_default p = d → empty_payload p) ps →
  (∀ ps' nd' any' routes' s', Forall2 (round_fills d nd) ps ps' → splitting base ((ps' ≫= payload_blocks) ++ B) O routes' s' →
     lg_objects s' = objects → same_routes routes0 routes' →
     (∀ v, nd' v = nd v || (negb d && others ps v)) →
     (∀ v, any' v = any v || existsb (λ p, Bool.eqb (pl_is_default p) d && round_share d nd p v) ps) →
     Q (0, ps', flags_of nd' sgs, flags_of any' sgs, routes') s') →
  runs (build_payloads d ps rs (flags_of nd sgs) (flags_of any sgs) routes) s Q.
Proof.
  induction ps as [|p ps IH]; intros B nd any routes s Q Hsp Ho Hsr Hok Hem HQ; cbn [build_payloads].
  { apply runs_ret. eapply HQ; [constructor|done|done|done|..]; intros v; cbn; by rewrite ?andb_false_r, orb_false_r. }
  apply Forall_cons in Hok as [Hp Hok]. apply Forall_cons in Hem as [He Hem]. rewrite bind_cons, <- app_assoc in Hsp.
  destruct (Bool.eqb (pl_is_default p) d) eqn:Hd; cbn [negb].
  - apply Bool.eqb_prop in Hd as Hpd. apply runs_bind. eapply build_one_ok; [exact Hsp|done|done|done|done|auto|].
    intros p' nd1 any1 routes1 s1 Hf Hsp1 Ho1 Hsr1 Hnd1 Hany1. cbn [Z.eqb negb]. apply runs_bind.
    eapply (IH (payload_blocks p' ++ B)); [|done|done|done|done|].
    { eapply splitting_perm; [exact Hsp1|]. rewrite (filled_blocks _ _ _ (He Hpd) Hf). solve_Permutation. }
    intros ps2 nd2 any2 routes2 s2 Hf2 Hsp2 Ho2 Hsr2 Hnd2 Hany2. apply runs_ret. eapply HQ; [|..|exact Ho2|exact Hsr2| |].
    + constructor; [unfold round_fills; by rewrite Hd|]. eapply Forall2_impl; [exact Hf2|]. intros q q'. unfold round_fills. destruct (Bool.eqb (pl_is_default q) d); [|done].
      apply filled_ext. intros v. by eapply round_share_ext.
    + eapply splitting_perm; [exact Hsp2|]. rewrite bind_cons, <- app_assoc. apply Permutation_app_swap_app.
    + intros v. rewrite Hnd2, Hnd1. unfold others. cbn [existsb]. rewrite Hpd. by destruct d, (nd v), (own p v).
    + intros v. rewrite Hany2, Hany1. cbn [existsb]. rewrite Hd. cbn [andb]. rewrite <- orb_assoc. do 2 f_equal.
      apply existsb_ext. intros q. f_equal. by eapply round_share_ext.
  - apply runs_bind. eapply (IH (payload_blocks p ++ B)); [|done|done|done|done|].
    { eapply splitting_perm; [exact Hsp|]. apply Permutation_app_swap_app. }
    intros ps2 nd2 any2 routes2 s2 Hf2 Hsp2 Ho2 Hsr2 Hnd2 Hany2. apply runs_ret. eapply HQ; [|..|exact Ho2|exact Hsr2| |].
    + constructor; [unfold round_fills; by rewrite Hd|exact Hf2].
    + eapply splitting_perm; [exact Hsp2|]. rewrite bind_cons, <- app_assoc. apply Permutation_app_swap_app.
    + intros v. rewrite Hnd2. unfold others. cbn [existsb]. by destruct d, (pl_is_default p), (nd v).
    + intros v. rewrite Hany2. cbn [existsb]. by rewrite Hd.
Qed.

Lemma existsb_or {A} (f g : A → bool) l : existsb (λ x, f x || g x) l = existsb f l || existsb g l.
Proof. induction l as [|x l IH]; [done|]. cbn. rewrite IH. by destruct (f x), (g x), (existsb f l). Qed.
Lemma existsb_forall2 {A B} (R : A → B → Prop) (f : A → bool) (g : B → bool) l l' : Forall2 R l l' → (∀ x y, R x y → f x = g y) → existsb f l = existsb g l'.
Proof. intros Hl Hfg. induction Hl as [|x y l l' Hxy _ IH]; [done|]. cbn. by rewrite (Hfg x y Hxy), IH. Qed.
Lemma own_round d nd p p' v : round_fills d nd p p' → own p' v = own p v.
Proof. intros (Hr & _)%round_fills_same. unfold own. by rewrite Hr. Qed.
(** A first and a second round give every payload its share. *)
Lemma two_rounds ps nd p p1 p2 : (∀ v, nd v = others ps v) → round_fills false (λ _, false) p p1 → round_fills true nd p1 p2 → filled (share ps p) sgs p p2.
Proof.
  intros Hnd H1 H2. destruct (round_fills_same _ _ _ _ H1) as (Hr & Hd & _). unfold round_fills in H1, H2. rewrite Hd in H2.
  destruct (pl_is_default p) eqn:Hp; cbn [Bool.eqb] in H1, H2; subst.
  - eapply filled_ext; [|exact H2]. intros v. unfold round_share, share. by rewrite Hnd, Hp.
  - eapply filled_ext; [|exact H1]. intros v. unfold round_share, share. by rewrite Hp.
Qed.
Definition any_share (ps : list flb_route_payload) (v : view) : bool := existsb (λ p, share ps p v) ps.

Lemma rounds_ok B ps routes s (K : Z → list flb_route_payload → list bool → list bool → list route → M log_state (split_result * list route))
    (fail : list flb_route_payload → list route → M log_state (split_result * list route)) (Q : _ → log_state → Prop) :
  splitting base ((ps ≫= payload_blocks) ++ B) O routes s → lg_objects s = objects → same_routes routes0 routes →
  Forall payload_ok ps → Forall empty_payload ps →
  (∀ ps' nd' any' routes' s', Forall2 (λ p p', filled (share ps p) sgs p p') ps ps' → splitting base ((ps' ≫= payload_blocks) ++ B) O routes' s' →
     lg_objects s' = objects → same_routes routes0 routes' → (∀ v, any' v = any_share ps v) →
     runs (K 0 ps' nd' (flags_of any' sgs) routes') s' Q) →
  runs ('(ret, ps, non_default, any, routes) ← build_payloads false ps rs (replicate (length rs) false) (replicate (length rs) false) routes;
        if negb (ret =? 0) then fail ps routes
        else '(ret, ps, non_default, any, routes) ← build_payloads true ps rs non_default any routes; K ret ps non_default any routes) s Q.
Proof.
  intros Hsp Ho Hsr Hok Hem HQ. rewrite (no_flags rs (all_views sgs)) by (eapply Forall2_length, seen_all).
  rewrite <- (flags_views (λ _, false)). apply runs_bind. eapply (round_ok false); [exact Hsp|exact Ho|exact Hsr|exact Hok| |].
  { eapply Forall_impl; [exact Hem|]. auto. }
  intros ps1 nd1 any1 routes1 s1 Hf1 Hsp1 Ho1 Hsr1 Hnd1 Hany1. cbn [Z.eqb negb].
  apply runs_bind. eapply (round_ok true); [exact Hsp1|exact Ho1|exact Hsr1| | |].
  - clear -Hf1 Hok. induction Hf1 as [|p p1 ps ps1 Hp _ IH]; [done|]. apply Forall_cons in Hok as [Hpok Hok]. constructor; [|by apply IH].
    destruct (round_fills_same _ _ _ _ Hp) as (Hr & Hd & _). unfold payload_ok in *. by rewrite Hr, Hd.
  - clear -Hf1 Hem. induction Hf1 as [|p p1 ps ps1 Hp _ IH]; [done|]. apply Forall_cons in Hem as [He Hem]. constructor; [|by apply IH].
    destruct (round_fills_same _ _ _ _ Hp) as (_ & Hd & _). unfold round_fills in Hp. rewrite Hd. intros Ht. rewrite Ht in Hp. cbn in Hp. by subst.
  - intros ps2 nd2 any2 routes2 s2 Hf2 Hsp2 Ho2 Hsr2 _ Hany2. apply HQ; [|done|done|done|].
    + assert (Hnd : ∀ v, nd1 v = others ps v) by (intros v; by rewrite Hnd1). clear -Hf1 Hf2 Hnd. revert ps2 Hf2.
      assert (Hall : ∀ qs qs1, Forall2 (round_fills false (λ _, false)) qs qs1 → ∀ qs2, Forall2 (round_fills true nd1) qs1 qs2 →
        Forall2 (λ p p', filled (share ps p) sgs p p') qs qs2); [|intros ps2; by apply Hall].
      intros qs qs1 Hqs. induction Hqs as [|p p1 qs qs1 Hp _ IH]; intros qs2 Hf2.
      * apply Forall2_nil_inv_l in Hf2 as ->. constructor.
      * apply Forall2_cons_inv_l in Hf2 as (p2 & qs2' & Hp2 & Hf2 & ->). constructor; [by eapply two_rounds|by apply IH].
    + intros v. rewrite Hany2, Hany1. unfold any_share. cbn [orb].
      rewrite <- (existsb_forall2 (round_fills false (λ _, false)) (λ p, Bool.eqb (pl_is_default p) true && round_share true nd1 p v) _ ps ps1 Hf1).
      * rewrite <- existsb_or. apply existsb_ext. intros p. unfold round_share, share. rewrite Hnd1. cbn [negb andb orb].
        by destruct (pl_is_default p), (own p v).
      * intros p p1 Hp. destruct (round_fills_same _ _ _ _ Hp) as (Hr & Hd & _). unfold round_share. by rewrite Hd, (own_round _ _ _ _ _ Hp).
Qed.

(** ** Payloads without records *)

Definition nonempty (p : flb_route_payload) : bool := negb ((pl_total_records p <=? 0) || bool_decide (pl_data p = None)).

Lemma bounded_payload_destroy p : bounded (route_payload_destroy p).
Proof. unfold route_payload_destroy. solve_bounded. Qed.
Lemma bounded_drop_empty ps : bounded (drop_empty ps).
Proof. induction ps as [|p ps IH]; cbn [drop_empty]; [apply bounded_ret|]. pose proof bounded_payload_destroy. solve_bounded. Qed.
Lemma payload_destroy_ok p X s (Q : unit → heap → Prop) : hp_live s ≡ₚ payload_blocks p ++ X →
  (∀ s', hp_live s' ≡ₚ X → hp_env s' = hp_env s → Q tt s') → runs (route_payload_destroy p) s Q.
Proof.
  intros Hl HQ. unfold route_payload_destroy, payload_blocks in *. apply runs_bind.
  eapply (runs_free (pl_tag p).1 (pl_block p :: match pl_data p with Some d => [d.1] | None => [] end ++ X)); [rewrite Hl; apply perm_swap|].
  intros s1 Hl1 He1. apply runs_bind. destruct (pl_data p) as [d|].
  - eapply (runs_free d.1 (pl_block p :: X)); [rewrite Hl1; apply perm_swap|]. intros s2 Hl2 He2.
    eapply runs_free; [exact Hl2|]. intros s3 Hl3 He3. apply HQ; [done|congruence].
  - apply runs_ret. eapply runs_free; [exact Hl1|]. intros s3 Hl3 He3. apply HQ; [done|congruence].
Qed.
Lemma drop_empty_ok ps : ∀ X s (Q : list flb_route_payload → heap → Prop), hp_live s ≡ₚ (ps ≫= payload_blocks) ++ X →
  (∀ s', hp_live s' ≡ₚ (List.filter nonempty ps ≫= payload_blocks) ++ X → hp_env s' = hp_env s → Q (List.filter nonempty ps) s') →
  runs (drop_empty ps) s Q.
Proof.
  induction ps as [|p ps IH]; intros X s Q Hl HQ; cbn [drop_empty]; [by apply runs_ret, HQ|]. rewrite bind_cons, <- app_assoc in Hl.
  assert (Hne : (pl_total_records p <=? 0) || bool_decide (pl_data p = None) = negb (nonempty p)) by (unfold nonempty; by rewrite negb_involutive).
  rewrite Hne. cbn [List.filter] in HQ. destruct (nonempty p); cbn [negb].
  - apply runs_bind. apply (IH (payload_blocks p ++ X)); [by rewrite Hl, Permutation_app_swap_app|].
    intros s2 Hl2 He2. apply runs_ret, HQ; [|done]. by rewrite Hl2, bind_cons, <- app_assoc, Permutation_app_swap_app.
  - apply runs_bind. eapply payload_destroy_ok; [exact Hl|]. intros s1 Hl1 He1. apply (IH X); [done|]. intros s2 Hl2 He2. apply HQ; [done|congruence].
Qed.

(** What a payload delivers: its route, tag, bytes and number of records *)
Definition content (p : flb_route_payload) : nat * list Z * list Z * Z := (pl_route p, (pl_tag p).2, from_option snd [] (pl_data p), pl_total_records p).
Definition expected (f : view → bool) (p : flb_route_payload) : option (nat * list Z * list Z * Z) :=
  if count_true (flags_of f sgs) =? 0 then None else Some (pl_route p, (pl_tag p).2, selected_bytes f sgs, count_true (flags_of f sgs)).
Lemma filled_content (f : flb_route_payload → view → bool) ps ps' : Forall2 (λ p p', filled (f p) sgs p p') ps ps' →
  content <$> List.filter nonempty ps' = omap (λ p, expected (f p) p) ps.
Proof.
  induction 1 as [|p p' ps ps' (data & -> & Hd) _ IH]; [done|]. cbn [omap list_omap List.filter]. unfold expected at 1, nonempty at 1.
  pose proof (count_nonneg (flags_of (f p) sgs)). cbn [set_pl_data pl_data pl_total_records].
  destruct (Z.eqb_spec (count_true (flags_of (f p) sgs)) 0) as [Hz|Hz].
  - rewrite Hz in *. cbn. exact IH.
  - destruct data as [d|]; [|done]. injection Hd as Hd. rewrite bool_decide_eq_false_2 by done.
    replace (_ <=? 0) with false by lia. cbn. unfold content at 1. cbn. by rewrite Hd, IH.
Qed.

Lemma split_records_ok X ps cx chunk routes s (Q : split_result * list route → log_state → Prop) :
  splitting base ((ps ≫= payload_blocks) ++ X) O routes s → lg_objects s = objects → same_routes routes0 routes →
  Forall payload_ok ps → Forall empty_payload ps →
  (∀ ps' routes' s', content <$> ps' = omap (λ p, expected (share ps p) p) ps →
     splitting base ((ps' ≫= payload_blocks) ++ X) O routes' s' → lg_objects s' = objects → same_routes routes0 routes' →
     Q (split_ready ps' cx chunk (count_true (flags_of (λ v, negb (any_share ps v)) sgs), zlen (selected_bytes (λ v, negb (any_share ps v)) sgs)), routes') s') →
  runs (split_records ps cx chunk rs routes) s Q.
Proof.
  intros Hsp Ho Hsr Hok Hem HQ. unfold split_records. apply runs_bind. eapply alloc_splitting; [exact Hsp|]. intros a s1 Hsp1 Ho1.
  apply runs_bind. eapply alloc_splitting; [exact Hsp1|]. intros b s2 Hsp2 Ho2.
  apply runs_bind. eapply alloc_splitting; [exact Hsp2|]. intros c s3 Hsp3 Ho3. cbv zeta.
  eapply (rounds_ok (a :: b :: c :: X)); [|congruence|exact Hsr|exact Hok|exact Hem|].
  { eapply splitting_perm; [exact Hsp3|]. solve_Permutation. }
  intros ps4 nd4 any4 routes4 s4 Hf Hsp4 Ho4 Hsr4 Hany. cbn [Z.eqb negb].
  rewrite (flags_ext any4 (any_share ps)) by done.
  apply runs_bind. eapply calculate_unmatched_ok; [exact Hsp4|done|]. intros s5 Hsp5 Ho5. cbn [Z.eqb].
  apply runs_bind, runs_bind. eapply (free_splitting (b :: c :: (ps4 ≫= payload_blocks) ++ X)); [eapply splitting_perm; [exact Hsp5|]; solve_Permutation|].
  intros s6 Hsp6 Ho6. apply runs_bind. eapply free_splitting; [exact Hsp6|]. intros s7 Hsp7 Ho7.
  eapply free_splitting; [exact Hsp7|]. intros s8 Hsp8 Ho8. apply runs_bind.
  eapply on_heap_ok; [apply (sp_holds _ _ _ _ _ Hsp8)|apply bounded_drop_empty|].
  eapply (drop_empty_ok ps4 ((routes4 ≫= route_blocks) ++ X)).
  { rewrite (ho_live _ _ _ _ (sp_holds _ _ _ _ _ Hsp8)). apply Permutation_app_swap_app. }
  intros h Hl He s9 Hs9 Ho9 Hh9. apply runs_ret. apply HQ; [by apply filled_content|..|congruence|done].
  destruct Hsp8 as [_ Hc8 Hp8 Hr8]. constructor; [|rewrite Hs9; by rewrite He|done|done]. apply Hh9. rewrite Hl. apply Permutation_app_swap_app.
Qed.
End all_routes.
End one_chunk.
End views.

(** ** The routes that get payloads *)

(** Conditional routes of the paths, once each, after those in [before] *)
Fixpoint chosen (routes : list route) (before : list nat) (paths : list flb_router_path) : list nat :=
  match paths with
  | [] => []
  | path :: paths' =>
      match conditional_route routes path with
      | Some i => if bool_decide (i ∈ before) then chosen routes before paths' else i :: chosen routes (before ++ [i]) paths'
      | None => chosen routes before paths'
      end
  end.
Record fresh_payload (routes : list route) (i : nat) (p : flb_route_payload) : Prop := {
  fp_route : pl_route p = i;
  fp_empty : empty_payload p;
  fp_at : ∃ r, routes !! i = Some r ∧ (pl_tag p).2 = until_nul (rt_name r) ∧ pl_is_default p = from_option rc_is_default false (rt_condition r)
}.

Lemma payload_find ps i : is_Some (route_payload_find ps i) ↔ i ∈ (pl_route <$> ps).
Proof.
  unfold route_payload_find. induction ps as [|p ps IH]; cbn; [by split; [intros [? ?]|intros ?%elem_of_nil]|].
  rewrite elem_of_cons, <- IH. destruct (Nat.eqb_spec (pl_route p) i) as [Hi|Hi]; [by split; [left|eexists]|].
  split; [auto|]. by intros [?|?].
Qed.
Lemma bounded_list_destroy ps : bounded (route_payload_list_destroy ps).
Proof. apply bounded_foreach, bounded_payload_destroy. Qed.
Lemma bounded_create_payloads routes paths : ∀ ps, bounded (create_payloads routes paths ps).
Proof.
  pose proof bounded_list_destroy. induction paths as [|path paths IH]; intros ps; cbn [create_payloads]; [apply bounded_ret|].
  unfold flb_sds_create. solve_bounded.
Qed.
Lemma bounded_chunk_create : bounded flb_event_chunk_create.
Proof. unfold flb_event_chunk_create. solve_bounded. Qed.

Lemma create_payloads_ok routes paths : ∀ ps X s, calm (hp_env s) → hp_live s ≡ₚ (ps ≫= payload_blocks) ++ X →
  runs (create_payloads routes paths ps) s (λ o s', calm (hp_env s') ∧ ∃ ps', o = Some (ps ++ ps') ∧
    hp_live s' ≡ₚ ((ps ++ ps') ≫= payload_blocks) ++ X ∧ Forall2 (fresh_payload routes) (chosen routes (pl_route <$> ps) paths) ps').
Proof.
  induction paths as [|path paths IH]; intros ps X s Hc Hl; cbn [create_payloads chosen].
  { apply runs_ret. split; [done|]. exists []. rewrite app_nil_r. split_and!; [done|done|constructor]. }
  destruct (conditional_route routes path) as [i|] eqn:Hcr; [|by apply IH].
  pose proof (payload_find ps i) as Hfind. destruct (route_payload_find ps i) as [q|].
  - rewrite bool_decide_eq_true_2 by (apply Hfind; by eexists). by apply IH.
  - rewrite bool_decide_eq_false_2 by (rewrite <- Hfind; by intros [? ?]).
    unfold conditional_route in Hcr. destruct (rp_route path) as [j|]; [|done]. cbn in Hcr. destruct (routes !! j) as [r|] eqn:Hr; [|done].
    cbn in Hcr. destruct (is_conditional r); [|done]. injection Hcr as <-. apply runs_bind. eapply runs_deref; [exact Hr|].
    apply runs_bind, runs_alloc; [tauto|]. intros a s1 Hl1 Hc1. apply runs_bind, sds_create_ok; [intros ? ? Hn; destruct Hn; auto|].
    intros b s2 Hl2 Hc2. eapply runs_weaken; [apply (IH _ X); [auto|]|].
    + rewrite bind_app, Hl2, Hl1, Hl. cbn. solve_Permutation.
    + intros o s3 (Hc3 & ps' & -> & Hl3 & Hf). split; [done|]. rewrite fmap_app in Hf. exists (mk_payload a j (from_option rc_is_default false (rt_condition r)) (b, until_nul (rt_name r)) None 0 :: ps').
      rewrite <- app_assoc in *. split_and!; [done|done|]. constructor; [|done]. constructor; [done|done|]. by exists r.
Qed.

Lemma chosen_conditional routes paths before : chosen routes before paths ≠ [] → paths ≠ [] ∧ input_has_conditional_routes routes paths = true.
Proof.
  unfold input_has_conditional_routes. induction paths as [|path paths IH] in before |- *; [done|]. cbn [chosen existsb]. intros Hne. split; [done|].
  destruct (conditional_route routes path) as [i|]; [by rewrite bool_decide_eq_true_2 by (by eexists)|].
  rewrite bool_decide_eq_false_2 by (by intros [? ?]). by destruct (IH before Hne).
Qed.

(** ** What a split comes to *)

Definition route_takes (routes : list route) (i : nat) (v : view) : bool := from_option (λ r, takes_here r v) false (routes !! i).
Definition is_default_route (routes : list route) (i : nat) : bool :=
  from_option (λ r, from_option rc_is_default false (rt_condition r)) false (routes !! i).
(** A default route takes what no other route takes. *)
Definition route_share (routes : list route) (idx : list nat) (i : nat) (v : view) : bool :=
  route_takes routes i v && negb (is_default_route routes i && existsb (λ j, negb (is_default_route routes j) && route_takes routes j v) idx).
(** Route, tag, bytes and records of what is delivered, in the order of the routes *)
Definition split_spec (routes : list route) (idx : list nat) (sgs : list segment) : list (nat * list Z * list Z * Z) :=
  omap (λ i, let f := route_share routes idx i in
    if count_true (flags_of f sgs) =? 0 then None
    else Some (i, from_option (λ r, until_nul (rt_name r)) [] (routes !! i), selected_bytes f sgs, count_true (flags_of f sgs))) idx.
Definition dropped_spec (routes : list route) (idx : list nat) (sgs : list segment) : Z * Z :=
  let f v := negb (existsb (λ i, route_share routes idx i v) idx) in
  (count_true (flags_of f sgs), zlen (selected_bytes f sgs)).

Lemma fresh_share routes idx ps i p v : Forall2 (fresh_payload routes) idx ps → fresh_payload routes i p →
  share routes ps p v = route_share routes idx i v.
Proof.
  assert (Hone : ∀ i p, fresh_payload routes i p → own routes p v = route_takes routes i v ∧ pl_is_default p = is_default_route routes i).
  { intros i' p' [Hi _ (r & Hr & _ & Hd)]. unfold own, route_takes, is_default_route. by rewrite Hi, Hr. }
  intros Hf Hp. destruct (Hone _ _ Hp) as [Ho Hd]. unfold share, route_share, others. rewrite Ho, Hd. do 3 f_equal. symmetry.
  eapply existsb_forall2; [exact Hf|]. intros j q Hq. destruct (Hone _ _ Hq) as [Hoq Hdq]. by rewrite Hoq, Hdq.
Qed.
Lemma omap_forall2 {A B C} (R : A → B → Prop) (f : A → option C) (g : B → option C) l l' : Forall2 R l l' →
  (∀ x y, R x y → g y = f x) → omap g l' = omap f l.
Proof. intros Hl Hfg. induction Hl as [|x y l l' Hxy _ IH]; [done|]. change (omap ?h (?a :: ?k)) with (match h a with Some c => c :: omap h k | None => omap h k end). by rewrite (Hfg x y Hxy), IH. Qed.
Lemma fresh_contents routes idx ps sgs : Forall2 (fresh_payload routes) idx ps →
  omap (λ p, expected sgs (share routes ps p) p) ps = split_spec routes idx sgs ∧
  (count_true (flags_of (λ v, negb (any_share routes ps v)) sgs), zlen (selected_bytes (λ v, negb (any_share routes ps v)) sgs)) = dropped_spec routes idx sgs.
Proof.
  intros Hf. split.
  - unfold split_spec. eapply omap_forall2; [exact Hf|]. intros i p Hp. unfold expected. cbv zeta.
    rewrite (flags_ext _ (route_share routes idx i)), (selected_ext _ (route_share routes idx i)) by (intros v; by apply fresh_share).
    destruct Hp as [Hi _ (r & Hr & Htag & _)]. by rewrite Hi, Htag, Hr.
  - unfold dropped_spec. cbv zeta. assert (Hext : ∀ v, negb (any_share routes ps v) = negb (existsb (λ i, route_share routes idx i v) idx)).
    { intros v. f_equal. unfold any_share. symmetry. eapply existsb_forall2; [exact Hf|]. intros i p Hp. symmetry. by apply fresh_share. }
    by rewrite (flags_ext _ _ sgs Hext), (selected_ext _ _ sgs Hext).
Qed.

Lemma split_clean_ok base B O cx ps ck s (Q : unit → log_state → Prop) :
  context_ok base ((ps ≫= payload_blocks) ++ ck.2 :: ck.1 :: B) O cx s → (∀ s', holds base B O s' → Q tt s') → runs (split_clean cx ps ck) s Q.
Proof.
  intros Hcx HQ. unfold split_clean. apply runs_bind. eapply context_reset_ok; [exact Hcx|]. intros s1 Hh1.
  assert (Hlist : ∀ X h (K : unit → heap → Prop), hp_live h ≡ₚ (ps ≫= payload_blocks) ++ X → (∀ h', hp_live h' ≡ₚ X → K tt h') → runs (route_payload_list_destroy ps) h K).
  { intros X h K. clear. unfold route_payload_list_destroy. revert h. induction ps as [|p ps IH]; intros h Hl HK; cbn [foreach]; [by apply runs_ret, HK|].
    rewrite bind_cons, <- app_assoc in Hl. apply runs_bind. eapply payload_destroy_ok; [exact Hl|]. intros h1 Hl1 _. by apply IH. }
  apply runs_bind. eapply on_heap_ok; [exact Hh1|apply bounded_list_destroy|]. eapply Hlist; [apply Hh1|].
  intros h2 Hl2 s2 Hs2 Ho2 Hh2. specialize (Hh2 _ Hl2). eapply on_heap_ok; [exact Hh2|unfold flb_event_chunk_destroy; solve_bounded|].
  unfold flb_event_chunk_destroy. apply runs_bind. eapply runs_free; [by rewrite (ho_live _ _ _ _ Hh2)|]. intros h3 Hl3 _.
  eapply runs_free; [exact Hl3|]. intros h4 Hl4 _ s4 _ _ Hh4. by apply HQ, Hh4.
Qed.

(** A client that splits, looks at the payloads, and cleans up *)
Definition split_once (threaded : bool) (paths : list flb_router_path) (routes : list route) (buf : list Z)
    : M log_state (option (list (nat * list Z * list Z * Z) * (Z * Z)) * list route) :=
  '(r, routes) ← split_route_payloads threaded paths routes buf;
  match r with
  | split_done _ => mret (None, routes)
  | split_ready ps context chunk dropped => split_clean context ps chunk ≫= λ _, mret (Some (content <$> ps, dropped), routes)
  end.

Lemma prepare_split VS B buf objs es routes s base
    (Q : Z * flb_router_chunk_context regex E → log_state → Prop) :
  unpacker_ok msgpack_unpack_next → 0 < zlen buf < 2 ^ 64 → all_objects msgpack_unpack_next buf 0 objs →
  Forall2 (λ o x, good_object o x.1 x.2) objs es → splitting VS base B [] routes s →
  (∀ cx cobj s', rx_chunk_cobj cx = Some cobj → splitting VS base (context_blocks cx ++ B) (context_objects cx) routes s' →
     (∀ B' s'', holds base (context_blocks cx ++ B') (context_objects cx) s'' → context_ok base B' [] cx s'') →
     records_of (lg_objects s') (None, None) es (cc_records cobj) → Q (0, cx) s') →
  runs (flb_router_chunk_context_prepare_logs regex_match msgpack_unpack_next flb_router_chunk_context_init
    (mk_event_chunk FLB_EVENT_TYPE_LOGS (Some buf))) s Q.
Proof.
  intros Hu Hb Hall Hes [Hh Hc Hok Hrd] HQ. eapply runs_weaken.
  - eapply (prepare_init cfl_ra_create regex_create regex_match msgpack_unpack_next buf objs es Hu Hb Hall Hes base ((routes ≫= route_blocks) ++ B) []); [|done].
    constructor; [exact Hh|done].
  - intros [ret cx] s' (-> & Hc' & [Hh' He'] & cobj & Hcobj & Hrec). rewrite app_nil_r in Hh'. eapply HQ; [done|..|done].
    + constructor; [|done|done|done]. eapply holds_perm; [exact Hh'|apply Permutation_app_swap_app|done].
    + intros B' s'' Hh''. constructor; [by rewrite app_nil_r|done].
Qed.

Lemma nonempty_match {A B} (l : list A) (x y : B) : l ≠ [] → match l with [] => x | _ :: _ => y end = y.
Proof. by destruct l. Qed.
Lemma chunk_create_ok h (Q : option (nat * nat) → heap → Prop) : calm (hp_env h) →
  (∀ ck h', hp_live h' ≡ₚ ck.2 :: ck.1 :: hp_live h → calm (hp_env h') → Q (Some ck) h') → runs flb_event_chunk_create h Q.
Proof.
  intros Hc HQ. unfold flb_event_chunk_create. apply runs_bind, runs_alloc; [tauto|]. intros a h1 Hl1 Hc1.
  apply runs_bind, runs_alloc; [intros ? ? Hn; destruct Hn; auto|]. intros b h2 Hl2 Hc2. apply runs_ret, HQ; [by rewrite Hl2, Hl1|auto].
Qed.
Lemma events_ok objs es : Forall2 (λ o x, good_object o x.1 x.2) objs es → Forall event_ok es.
Proof. induction 1 as [|o [t e] objs es [_ ? ? ?] _ IH]; by constructor. Qed.

(** The rules of the routes can read the parts of the records. *)
Definition split_reads (routes : list route) (sgs : list segment) : bool := forallb (route_reads (omap id (all_views sgs))) routes.

Lemma split_once_runs paths routes X buf objs sgs s :
  unpacker_ok msgpack_unpack_next → 0 < zlen buf < 2 ^ 64 → all_objects msgpack_unpack_next buf 0 objs →
  Forall2 (λ o x, good_object o x.1 x.2) objs (sgs ≫= items) → Forall segment_ok sgs →
  zlen (concat (bytes_of_event <$> (sgs ≫= items))) < 2 ^ 64 →
  state_ok s → calm (hp_env (lg_heap s)) → hp_live (lg_heap s) ≡ₚ (routes ≫= route_blocks) ++ X →
  Forall (λ r, path_ok cfl_ra_create regex_create (Some r)) routes → split_reads routes sgs = true → chosen routes [] paths ≠ [] →
  runs (split_once false paths routes buf) s (λ '(r, routes') s',
    r = Some (split_spec routes (chosen routes [] paths) sgs, dropped_spec routes (chosen routes [] paths) sgs) ∧
    same_routes routes routes' ∧ lg_objects s' = lg_objects s ∧ hp_live (lg_heap s') ≡ₚ (routes' ≫= route_blocks) ++ X).
Proof.
  intros Hu Hb Hall Hes Hsg Hlen Hst Hc Hl Hok Hrd Hch. set (idx := chosen routes [] paths) in *.
  pose proof (chosen_conditional _ _ _ Hch) as [Hp Hcond]. unfold split_once, split_route_payloads.
  rewrite Hcond, !bool_decide_eq_false_2 by (done || (intros ->; unfold zlen in Hb; cbn in Hb; lia)). cbn [orb negb]. apply runs_bind, runs_bind.
  eapply on_heap_ok; [by apply holds_start|apply bounded_create_payloads|].
  eapply runs_weaken; [by apply (create_payloads_ok routes paths [] ((routes ≫= route_blocks) ++ X))|].
  intros o h1 (Hc1 & ps & -> & Hl1 & Hf) s1 Hs1 Ho1 Hh1. cbn [app fmap list_fmap] in Hf, Hl1 |- *. specialize (Hh1 _ Hl1). fold idx in Hf.
  destruct (decide (ps = [])) as [->|Hps]; [by apply Forall2_nil_inv_r in Hf|].
  rewrite (nonempty_match ps) by done. apply runs_bind. eapply on_heap_ok; [exact Hh1|apply bounded_chunk_create|].
  eapply chunk_create_ok; [by rewrite Hs1|]. intros ck h2 Hl2 Hc2 s2 Hs2 Ho2 Hh2. rewrite Hs1 in Hl2.
  assert (Hsp2 : splitting (omap id (all_views sgs)) (lg_objects s) ((ps ≫= payload_blocks) ++ ck.2 :: ck.1 :: X) [] routes s2).
  { constructor; [|by rewrite Hs2|done|].
    2: { apply Forall_forall. intros r Hr. unfold split_reads in Hrd. rewrite forallb_forall in Hrd. apply Hrd. by apply list_elem_of_In. } apply Hh2. rewrite Hl2, Hl1. solve_Permutation. }
  apply runs_bind. eapply prepare_split; [exact Hu|exact Hb|exact Hall|exact Hes|exact Hsp2|].
  intros cx cobj s3 Hcobj Hsp3 Hcx Hrec. rewrite Hcobj. cbn [Z.eqb negb].
  assert (Hne : cc_records cobj ≠ []).
  { intros Hnil. rewrite Hnil in Hrec. apply records_of_length in Hrec. destruct (sgs ≫= items); [|done].
    apply Forall2_nil_inv_r in Hes as ->. inversion Hall; subst. lia. }
  destruct (cc_records cobj) as [|q qs]; [done|].
  eapply (split_records_ok (omap id (all_views sgs)) (lg_objects s) (context_objects cx) (lg_objects s3) sgs) with (routes0 := routes) (X := context_blocks cx ++ ck.2 :: ck.1 :: X);
    [exact Hsg|apply records_segments; [done|by eapply events_ok|done]|exact Hne|exact Hlen|intros v Hv; apply list_elem_of_omap; by exists (Some v)|..|done|apply same_routes_refl| | |].
  { eapply splitting_perm; [exact Hsp3|]. solve_Permutation. }
  { clear -Hf. induction Hf as [|i p l ps [Hi _ (r & Hr & _ & Hd)] _ IH]; constructor; [exists r; by rewrite Hi|done]. }
  { clear -Hf. induction Hf as [|i p l ps [_ He _] _ IH]; by constructor. }
  intros ps' routes' s4 Hcont Hsp4 Ho4 Hsr. apply runs_bind. destruct (fresh_contents _ _ _ sgs Hf) as [Hc1' Hc2'].
  eapply (split_clean_ok _ ((routes' ≫= route_blocks) ++ X)); [apply Hcx; eapply holds_perm; [apply (sp_holds _ _ _ _ _ _ Hsp4)|solve_Permutation|done]|].
  intros s5 (Ho5 & Hl5 & _)%holds_end. apply runs_ret. split_and!; [by rewrite Hcont, Hc1', Hc2'|done|done|done].
Qed.

(** Splitting is exact: while nothing fails and the rules of the routes can read the records, the payload of a route is made of exactly the records that meet its
    condition, in order, each group of which something is taken with its start and its end around it, under the
    name of the route; a default route gets what no other route takes; routes without records get no payload;
    what no route takes is counted with its bytes; and no memory is left but compiled conditions. *)
Theorem split_exact paths routes X buf objs sgs s :
  unpacker_ok msgpack_unpack_next → 0 < zlen buf < 2 ^ 64 → all_objects msgpack_unpack_next buf 0 objs →
  Forall2 (λ o x, good_object o x.1 x.2) objs (sgs ≫= items) → Forall segment_ok sgs →
  zlen (concat (bytes_of_event <$> (sgs ≫= items))) < 2 ^ 64 →
  state_ok s → calm (hp_env (lg_heap s)) → hp_live (lg_heap s) ≡ₚ (routes ≫= route_blocks) ++ X →
  Forall (λ r, path_ok cfl_ra_create regex_create (Some r)) routes → split_reads routes sgs = true → chosen routes [] paths ≠ [] →
  ∃ routes' s', split_once false paths routes buf s =
      Some (Some (split_spec routes (chosen routes [] paths) sgs, dropped_spec routes (chosen routes [] paths) sgs), routes', s') ∧
    same_routes routes routes' ∧ lg_objects s' = lg_objects s ∧ hp_live (lg_heap s') ≡ₚ (routes' ≫= route_blocks) ++ X.
Proof.
  intros. destruct (split_once_runs paths routes X buf objs sgs s) as ([r routes'] & s' & Hr & -> & ?); [done..|eauto].
Qed.
End split.

(** ** A concrete split

    The chunk of [MpChunk], a group of two records that have "a" as "b", and four routes: the first takes what has
    another "a", the second is the default, the third is not on a path, the fourth takes the records too. *)
Definition ex_segments : list segment :=
  match ex_events with [start; x; y; stop] => [group start [x; y] stop] | _ => [] end.
Definition ex_named (name : string) (is_default : bool) (rules : list flb_route_condition_rule) : flb_route (list Z) :=
  mk_route (text name) FLB_ROUTER_SIGNAL_LOGS (Some (mk_route_condition rules is_default FLB_COND_OP_AND None 0)) false.
Definition ex_routes : list (flb_route (list Z)) := [
  ex_named "other" false [ex_rule "a" "neq" "b" RECORD_CONTEXT_BODY];
  ex_named "rest" true [];
  ex_named "idle" false [ex_rule "a" "eq" "b" RECORD_CONTEXT_BODY];
  ex_named "taken" false [ex_rule "a" "eq" "b" RECORD_CONTEXT_BODY; ex_rule "g" "regex" "h" RECORD_CONTEXT_GROUP_METADATA] ].

Lemma ex_good_objects : Forall2 (λ o x, good_object o x.1 x.2) (ex_object <$> ex_buffer) (ex_segments ≫= items).
Proof. repeat constructor. Qed.

(** Without the fourth route everything goes to the default route; with it everything goes there. *)
Lemma split_exact_witness (bits := λ _ : double, @nil Z) (all := concat (event_bytes bits bits <$> ex_events.*2)) :
  ∃ r1 s1 r2 s2,
  let split paths := split_once bits bits ex_ra ex_regex ex_match ex_unpack (E := log_event_encoder)
    (H := log_event_encoder_RecordEncoder bits bits) false paths ex_routes ex_buffer ex_log in
  split [mk_path 0 (Some 0%nat); mk_path 0 (Some 1%nat)] = Some (Some ([(1%nat, text "rest", all, 2)], (0, 0)), r1, s1) ∧
  split [mk_path 0 (Some 1%nat); mk_path 0 (Some 3%nat); mk_path 0 None; mk_path 1 (Some 3%nat)] =
    Some (Some ([(3%nat, text "taken", all, 2)], (0, 0)), r2, s2) ∧ lg_objects s2 = ∅.
Proof.
  assert (Hsplit : ∀ paths, chosen ex_routes [] paths ≠ [] → ∃ routes' s',
    split_once bits bits ex_ra ex_regex ex_match ex_unpack (E := log_event_encoder)
      (H := log_event_encoder_RecordEncoder bits bits) false paths ex_routes ex_buffer ex_log =
      Some (Some (split_spec bits bits ex_ra ex_regex ex_match ex_routes (chosen ex_routes [] paths) ex_segments,
        dropped_spec bits bits ex_ra ex_regex ex_match ex_routes (chosen ex_routes [] paths) ex_segments), routes', s') ∧ lg_objects s' = ∅).
  { intros paths Hp. destruct (split_exact bits bits ex_ra ex_regex ex_match ex_unpack (E := log_event_encoder)
      (H := log_event_encoder_RecordEncoder bits bits) paths ex_routes [] ex_buffer (ex_object <$> ex_buffer) ex_segments ex_log ex_unpack_ok)
      as (routes' & s' & Hr & _ & Ho & _).
    - by vm_compute.
    - exact ex_all_objects.
    - exact ex_good_objects.
    - repeat constructor.
    - by vm_compute.
    - exact ex_log_ok.
    - done.
    - done.
    - repeat constructor; discriminate.
    - by vm_compute.
    - exact Hp.
    - eauto. }
  destruct (Hsplit [mk_path 0 (Some 0%nat); mk_path 0 (Some 1%nat)] ltac:(by vm_compute)) as (r1 & s1 & H1 & _).
  destruct (Hsplit [mk_path 0 (Some 1%nat); mk_path 0 (Some 3%nat); mk_path 0 None; mk_path 1 (Some 3%nat)] ltac:(by vm_compute)) as (r2 & s2 & H2 & Ho2).
  exists r1, s1, r2, s2. cbv zeta. split_and!; [| |exact Ho2].
  - rewrite H1. reflexivity.
  - rewrite H2. reflexivity.
Defined.
