(* ===== verification/LogRoundtrip.v ===== *)
(** * Logs written and read again

    What the encoder writes, the unpacker and the decoder read: a chunk that a processor decodes, converts and
    encodes, and the payload of a route after a split, come back as the events they were made of.  Everything
    here is over the definitions of the other files; the unpacker is the one of [MsgUnpack]. *)
From Corelib Require Import SpecFloat.
From stdpp Require Import strings.
From S2P Require Import Prelude CStd Env Heap Router MsgPack CflAccessor LogDecoder Conditions MpChunk Packer MsgUnpack RecordEncoder LogEncoder RouteCondition ChunkEncode LogSplit.

Section roundtrip.
Variables float_bits double_bits : double → list Z.
Variables float_of double_of : list Z → double.
Variable zone_malloc : Z → Z → bool.
Hypothesis Hzone : ∀ p n, zone_malloc p n = true.
Abbreviation unpack := (msgpack_unpack_next float_of double_of zone_malloc).
Abbreviation event_bytes := (event_bytes float_bits double_bits).
Abbreviation packable := (packable float_bits double_bits float_of double_of).

(** ** Events as objects *)

Definition stamp (t : flb_time) : msgpack_object := MSGPACK_OBJECT_EXT 0 (store32 (tv_sec t) ++ store32 (tv_nsec t)).
Definition part (o : option msgpack_object) : msgpack_object := default empty_map (widen <$> o).
Definition event_object (e : flb_log_event) : msgpack_object :=
  MSGPACK_OBJECT_ARRAY [MSGPACK_OBJECT_ARRAY [stamp (ev_timestamp e); part (ev_metadata e)]; part (ev_body e)].

(** Parts that the decoder can read again: within the limits of the unpacker, which are those of its own input *)
Record loggable (e : flb_log_event) : Prop := {
  lo_metadata : ∃ md, ev_metadata e = Some md ∧ packable 30 (widen md);
  lo_body : ∃ body, ev_body e = Some body ∧ packable 31 (widen body)
}.

Lemma part_format d o : packable d (widen o) → format float_of double_of d (part (Some o)) (part_bytes float_bits double_bits (Some o)).
Proof. exact (pack_format float_bits double_bits float_of double_of d (widen o)). Qed.

Lemma stamp_format d t : format float_of double_of d (stamp t) (timestamp_bytes t).
Proof.
  assert (Hlen : zlen (0 :: store32 (tv_sec t) ++ store32 (tv_nsec t)) = 9) by done.
  apply (fm_content _ _ d MSGPACK_ACS_EXT_VALUE [0xd7] (0 :: store32 (tv_sec t) ++ store32 (tv_nsec t))); [|done].
  rewrite Hlen. apply fix_ext; [done|member].
Qed.

Lemma array2_format d a b la lb : format float_of double_of d a la → format float_of double_of d b lb →
  format float_of double_of (S d) (MSGPACK_OBJECT_ARRAY [a; b]) ([0xdd; 0; 0; 0; 2] ++ la ++ lb).
Proof.
  intros Ha Hb. apply fm_array; [apply (MsgUnpack.counted _ _ 0xdd (store32 2)); [member|done]|].
  apply fms_cons; [done|]. rewrite <- (app_nil_r lb). apply fms_cons; [done|apply fms_nil].
Qed.

Lemma event_format e : loggable e → format float_of double_of 32 (event_object e) (event_bytes e).
Proof.
  intros [(md & Hmd & Hpm) (body & Hbody & Hpb)]. unfold ChunkEncode.event_bytes, event_object, record_bytes. rewrite Hmd, Hbody.
  rewrite (app_assoc (timestamp_bytes _)), (app_assoc [0xdd; 0; 0; 0; 2] (timestamp_bytes _ ++ _)).
  apply array2_format; [|by apply part_format]. apply array2_format; [apply stamp_format|by apply part_format].
Qed.

Lemma event_read pre e post : loggable e →
  unpack (pre ++ event_bytes e ++ post) (zlen pre) = (MSGPACK_UNPACK_SUCCESS (event_object e), zlen pre + zlen (event_bytes e)).
Proof.
  intros He%event_format. eapply next_executes; [|by eapply execute_exact|done].
  pose proof (format_nonempty _ _ _ _ _ He). pose proof (zlen_nonneg post). rewrite !zlen_app. lia.
Qed.

(** Events in a row are read in a row. *)
Lemma events_read es : Forall loggable es → ∀ pre,
  all_objects unpack (pre ++ concat (event_bytes <$> es)) (zlen pre) (event_object <$> es).
Proof.
  induction 1 as [|e es He _ IH]; intros pre; cbn [fmap list_fmap concat]; [rewrite app_nil_r; apply all_objects_end|].
  eapply all_objects_cons; [by apply event_read|]. rewrite app_assoc, <- zlen_app. apply IH.
Qed.

(** ** What the decoder makes of them *)

(** An event that was written and read again: numbers of double precision, and times of 32 bits *)
Definition reread (e : flb_log_event) : flb_log_event :=
  mk_event (widen <$> ev_group_attributes e) (widen <$> ev_group_metadata e) (Some (stamp (ev_timestamp e)))
    (mk_time (i32 (tv_sec (ev_timestamp e))) (i32 (tv_nsec (ev_timestamp e)))) (Some (part (ev_metadata e)))
    FLB_LOG_EVENT_FORMAT_FLUENT_BIT_V2 (Some (part (ev_body e))) (Some (event_object e)).

Lemma be32_stored a b : be32 (store32 a ++ store32 b) 0 = Some (u32 a) ∧ be32 (store32 a ++ store32 b) 4 = Some (u32 b).
Proof.
  assert (Hsum : ∀ n, u8 (Z.shiftr n 24) * 2 ^ 24 + u8 (Z.shiftr n 16) * 2 ^ 16 + u8 (Z.shiftr n 8) * 2 ^ 8 + u8 n = u32 n).
  { intros n. unfold u8, u32. rewrite !Z.shiftr_div_pow2 by lia. Z.div_mod_to_equations. lia. }
  split; [exact (f_equal Some (Hsum a))|exact (f_equal Some (Hsum b))].
Qed.
Lemma i32_u32 n : i32 (u32 n) = i32 n.
Proof. unfold i32, u32. f_equal. Z.div_mod_to_equations. lia. Qed.
Lemma i32_i32 n : i32 (i32 n) = i32 n.
Proof. unfold i32. f_equal. Z.div_mod_to_equations. lia. Qed.

Lemma widen_map o : is_map (widen o) = is_map o.
Proof. by destruct o. Qed.
Lemma event_of_object e md body : ev_metadata e = Some md → ev_body e = Some body → is_map md = true → is_map body = true →
  ev_group_metadata e = None → ev_group_attributes e = None → event_of (event_object e) = Some (inr (reread e)).
Proof.
  intros Hmd Hbody Hm Hb Hgm Hga. unfold reread, event_object, event_of. cbn [decode_header]. rewrite Hmd, Hbody, Hgm, Hga.
  cbn [part fmap option_fmap option_map default from_option id]. rewrite !widen_map, Hm, Hb. unfold stamp. cbn [is_timestamp negb flb_log_event_decoder_decode_timestamp].
  destruct (be32_stored (tv_sec (ev_timestamp e)) (tv_nsec (ev_timestamp e))) as [-> ->].
  change (negb (0 =? 0) || negb (zlen (store32 (tv_sec (ev_timestamp e)) ++ store32 (tv_nsec (ev_timestamp e))) =? 8)) with false.
  cbn [mbind option_bind]. by rewrite Z.eqb_refl, !i32_u32.
Qed.
Lemma type_reread e : flb_log_event_decoder_get_record_type (reread e) = flb_log_event_decoder_get_record_type e.
Proof. unfold flb_log_event_decoder_get_record_type. cbn [reread ev_timestamp tv_sec]. by rewrite i32_i32. Qed.
Lemma convertible_widen o : convertible (widen o) = convertible o.
Proof.
  induction o as [o Ho|l IH|l IH] using msgpack_object_nested_ind; [by destruct o|..].
  - cbn [widen convertible]. induction IH as [|x l Hx _ IHl]; [done|]. cbn [fmap list_fmap forallb]. by rewrite Hx, IHl.
  - cbn [widen convertible]. induction IH as [|[k x] l [_ Hx] _ IHl]; [done|]. cbn [fmap list_fmap forallb fst snd] in *.
    rewrite IHl, Hx. by destruct k.
Qed.
Lemma convertible_part_widen o : convertible_part o = true → convertible_part (Some (part o)) = true.
Proof.
  destruct o as [o|]; [|done]. cbn. rewrite convertible_widen. by destruct o.
Qed.

Lemma reread_good o t e : good_object o t e → good_object (event_object e) t (reread e).
Proof.
  intros Hg. destruct (good_event_group _ _ _ Hg) as [Hgm Hga]. destruct Hg as [Hev Ht Hm Hb].
  destruct (event_parts _ _ Hev) as (md & body & Hmd & Hbody & ? & ?). constructor; [by eapply event_of_object|by rewrite type_reread|..]; by apply convertible_part_widen.
Qed.

(** ** Groups *)

(** The events with the group they are in, [g] at first *)
Fixpoint in_groups (g : option msgpack_object * option msgpack_object) (es : list (Z * flb_log_event)) : list flb_log_event :=
  match es with
  | [] => []
  | (t, e) :: es =>
      if t =? FLB_LOG_EVENT_NORMAL then set_ev_group g.1 g.2 e :: in_groups g es
      else e :: in_groups (if t =? FLB_LOG_EVENT_GROUP_START then (ev_metadata e, ev_body e) else (None, None)) es
  end.

Lemma spec_in_groups objs es r : Forall2 (λ o x, good_object o x.1 x.2) objs es → ∀ md attrs,
  spec_events true md attrs 0 objs r = Some (in_groups (md, attrs) es, r).
Proof.
  induction 1 as [|o [t e] objs es [Hev Ht _ _] _ IH]; intros md attrs; [done|]. cbn [spec_events in_groups fst snd] in *.
  rewrite Hev. cbn [mbind option_bind]. change (FLB_LOG_EVENT_DECODER_MAX_RECURSION_DEPTH <=? 0) with false. cbn iota. rewrite Ht.
  destruct (t =? FLB_LOG_EVENT_NORMAL); [by rewrite IH|]. destruct (t =? FLB_LOG_EVENT_GROUP_START); by rewrite IH.
Qed.

(** A buffer that is nothing but events is read to its end. *)
Lemma events_decoded up buffer d objs es : unpacker_ok up → all_objects up buffer 0 objs → Forall2 (λ o x, good_object o x.1 x.2) objs es →
  dc_read_groups d = true →
  decode_all up (S (length buffer)) (flb_log_event_decoder_reset d buffer) = Some (in_groups (None, None) es, FLB_EVENT_DECODER_ERROR_INSUFFICIENT_DATA).
Proof.
  intros Hup Hall Hes Hrg. assert (Hst : stream up buffer 0 objs FLB_EVENT_DECODER_ERROR_INSUFFICIENT_DATA).
  { clear Hes. induction Hall; [eapply stream_end, (up_end _ Hup); lia|by eapply stream_cons]. }
  pose proof (stream_length up buffer 0 objs _ Hup ltac:(lia) Hst) as Hlen. unfold zlen in Hlen.
  rewrite (decode_all_ok _ _ Hup (flb_log_event_decoder_reset d buffer) objs _ Hst ltac:(cbn; lia) eq_refl eq_refl); [|lia].
  unfold spec_from. cbn. rewrite Hrg. by apply spec_in_groups.
Qed.

Definition reread_item (x : Z * flb_log_event) : Z * flb_log_event := (x.1, reread x.2).

Lemma reread_items es : Forall (λ x, ∃ o, good_object o x.1 x.2) es →
  Forall2 (λ o x, good_object o x.1 x.2) (event_object <$> es.*2) (reread_item <$> es).
Proof. induction 1 as [|[t e] es (o & Hg) _ IH]; constructor; [by eapply reread_good|done]. Qed.
Lemma in_groups_reread es : Forall (λ x, ∃ o, good_object o x.1 x.2) es → ∀ g,
  in_groups (widen <$> g.1, widen <$> g.2) (reread_item <$> es) = reread <$> in_groups g es.
Proof.
  induction 1 as [|[t e] es (o & Hg) _ IH]; intros g; [done|]. cbn [fmap list_fmap reread_item in_groups fst snd] in *.
  destruct (t =? FLB_LOG_EVENT_NORMAL); cbn [fmap list_fmap].
  - f_equal. apply IH.
  - f_equal. destruct (event_parts _ _ (go_event _ _ _ Hg)) as (md & body & Hmd & Hbody & _).
    destruct (t =? FLB_LOG_EVENT_GROUP_START); [|apply (IH (None, None))].
    rewrite <- IH. cbn [fst snd reread ev_metadata ev_body]. by rewrite Hmd, Hbody.
Qed.

(** Written events are read as themselves. *)
Lemma logs_decoded d es : Forall (λ x, ∃ o, good_object o x.1 x.2) es → Forall (λ x, loggable x.2) es → dc_read_groups d = true →
  let bytes := concat (event_bytes <$> es.*2) in
  decode_all unpack (S (length bytes)) (flb_log_event_decoder_reset d bytes) =
    Some (reread <$> in_groups (None, None) es, FLB_EVENT_DECODER_ERROR_INSUFFICIENT_DATA).
Proof.
  intros Hg Hl Hrg bytes. rewrite <- (in_groups_reread es Hg (None, None)).
  apply events_decoded with (objs := event_object <$> es.*2); [apply unpack_ok|..|done].
  - apply (events_read es.*2) with (pre := []). by rewrite Forall_fmap.
  - by apply reread_items.
Qed.

(** Written once more they are the same bytes. *)
Lemma widen_widen o : widen (widen o) = widen o.
Proof.
  induction o as [o Ho|l IH|l IH] using msgpack_object_nested_ind; [by destruct o|..]; cbn [widen]; f_equal.
  - induction IH as [|x l Hx _ IHl]; [done|]. cbn [fmap list_fmap]. by rewrite Hx, IHl.
  - induction IH as [|[k x] l [Hk Hx] _ IHl]; [done|]. cbn [fmap list_fmap fst snd] in *. by rewrite Hk, Hx, IHl.
Qed.
Lemma reread_bytes e : is_Some (ev_metadata e) → is_Some (ev_body e) → event_bytes (reread e) = event_bytes e.
Proof.
  intros [md Hmd] [body Hbody]. unfold ChunkEncode.event_bytes, reread, record_bytes, timestamp_bytes. cbn [ev_timestamp ev_metadata ev_body tv_sec tv_nsec].
  rewrite Hmd, Hbody, !store32_i32. cbn. by rewrite !widen_widen.
Qed.
Lemma reread_all_bytes objs es : Forall2 (λ o x, good_object o x.1 x.2) objs es →
  event_bytes <$> (reread_item <$> es).*2 = event_bytes <$> es.*2.
Proof.
  induction 1 as [|o [t e] objs es [Hev _ _ _] _ IH]; [done|]. cbn [fmap list_fmap reread_item fst snd] in *.
  destruct (event_parts _ _ Hev) as (md & body & Hmd & Hbody & _). rewrite reread_bytes, IH; eauto.
Qed.

(** ** What is left of segments *)

(** What a selection of the records of a segment leaves of it, and how a condition sees an event with its group *)
Definition select (takes : view → bool) (sg : segment) : option segment :=
  match sg with
  | single x => if takes (view_in (None, None) x) then Some sg else None
  | group start ms stop =>
      match List.filter (λ x, takes (view_in (own_parts start) x)) ms with
      | [] => None
      | selected => Some (group start selected stop)
      end
  end.
Definition view_of (e : flb_log_event) : view :=
  mk_view (ev_metadata e ≫= cfl_of) (ev_body e ≫= cfl_of) (ev_group_metadata e ≫= cfl_of) (ev_group_attributes e ≫= cfl_of).
Definition normals (es : list flb_log_event) : list flb_log_event := List.filter is_normal es.
Definition taken (takes : view → bool) (es : list flb_log_event) : list flb_log_event := List.filter (λ e, is_normal e && takes (view_of e)) es.

Lemma forall_filter {A} (p : A → bool) P l : Forall P l → Forall P (List.filter p l).
Proof. rewrite !List.Forall_forall. intros Hl x [Hx _]%filter_In. auto. Qed.
Lemma normals_app l l' : normals (l ++ l') = normals l ++ normals l'.
Proof. apply List.filter_app. Qed.
Lemma taken_app takes l l' : taken takes (l ++ l') = taken takes l ++ taken takes l'.
Proof. apply List.filter_app. Qed.
Lemma selected_segment_bytes takes sg : segment_bytes float_bits double_bits takes sg = from_option (λ sg, concat (event_bytes <$> (items sg).*2)) [] (select takes sg).
Proof.
  destruct sg as [x|start ms stop]; cbn [segment_bytes select].
  - destruct (takes _); [|done]. cbn. by rewrite app_nil_r.
  - assert (Hg : ∀ ms, concat (event_bytes <$> (items (group start ms stop)).*2) =
      event_bytes start.2 ++ concat ((λ x : Z * flb_log_event, event_bytes x.2) <$> ms) ++ event_bytes stop.2).
    { intros l. cbn [items]. rewrite !fmap_cons, !fmap_app, <- list_fmap_compose. cbn [concat]. rewrite concat_app. cbn. by rewrite app_nil_r. }
    destruct (List.filter _ ms) as [|m l]; [done|]. cbn [from_option]. by rewrite Hg.
Qed.
Lemma selected_items takes sgs : selected_bytes float_bits double_bits takes sgs = concat (event_bytes <$> (omap (select takes) sgs ≫= items).*2).
Proof.
  unfold selected_bytes. induction sgs as [|sg sgs IH]; [done|]. rewrite fmap_cons, concat_cons, IH, selected_segment_bytes.
  cbn [omap list_omap]. destruct (select takes sg) as [sg'|]; [|done]. by rewrite bind_cons, !fmap_app, concat_app.
Qed.
Lemma selected_sub takes sgs P : Forall P (sgs ≫= items) → Forall P (omap (select takes) sgs ≫= items).
Proof.
  induction sgs as [|sg sgs IH]; [done|]. rewrite bind_cons, Forall_app. intros [Hsg Hsgs]. cbn [omap list_omap].
  destruct (select takes sg) as [sg'|] eqn:Hs; [|auto]. rewrite bind_cons, Forall_app. split; [|auto].
  destruct sg as [x|start ms stop]; cbn [select] in Hs.
  - destruct (takes _); [by injection Hs as <-|done].
  - destruct (List.filter _ ms) as [|m l] eqn:Hf; [done|]. injection Hs as <-. cbn [items] in *. rewrite Forall_cons, Forall_app in *.
    destruct Hsg as (? & Hms & ?). split_and!; [done| |done]. rewrite <- Hf. by apply forall_filter.
Qed.
Lemma selected_ok takes sgs : Forall segment_ok sgs → Forall segment_ok (omap (select takes) sgs).
Proof.
  induction 1 as [|sg sgs Hsg _ IH]; [done|]. cbn [omap list_omap]. destruct (select takes sg) as [sg'|] eqn:Hs; [|done]. constructor; [|done].
  destruct sg as [x|start ms stop]; cbn [select] in Hs.
  - destruct (takes _); [by injection Hs as <-|done].
  - destruct (List.filter _ ms) as [|m l] eqn:Hf; [done|]. injection Hs as <-. destruct Hsg as (? & Hms & ?). split_and!; [done| |done].
    rewrite <- Hf. by apply forall_filter.
Qed.

(** What a segment is handed out as *)
Definition handed (sg : segment) : list flb_log_event :=
  match sg with
  | single x => [set_ev_group None None x.2]
  | group start ms stop => start.2 :: ((λ x, set_ev_group (ev_metadata start.2) (ev_body start.2) x.2) <$> ms) ++ [stop.2]
  end.
Lemma in_groups_members g ms rest : Forall (λ x, x.1 = FLB_LOG_EVENT_NORMAL) ms →
  in_groups g (ms ++ rest) = ((λ x, set_ev_group g.1 g.2 x.2) <$> ms) ++ in_groups g rest.
Proof. induction 1 as [|[t e] ms Ht _ IH]; [done|]. cbn [fst] in Ht. subst t. cbn. by rewrite IH. Qed.
Lemma segments_handed sgs : Forall segment_ok sgs → in_groups (None, None) (sgs ≫= items) = sgs ≫= handed.
Proof.
  induction 1 as [|sg sgs Hsg _ IH]; [done|]. rewrite !bind_cons, <- IH. destruct sg as [[t e]|[t e] ms [t' e']]; cbn [segment_ok items fst snd app] in *.
  - by subst t.
  - destruct Hsg as (-> & Hms & ->). cbn [in_groups]. change (FLB_LOG_EVENT_GROUP_START =? FLB_LOG_EVENT_NORMAL) with false. cbn iota.
    rewrite <- app_assoc, in_groups_members by done. cbn. by rewrite <- app_assoc.
Qed.

Lemma filter_fmap {A B} (p : B → bool) (f : A → B) l : List.filter p (f <$> l) = f <$> List.filter (λ x, p (f x)) l.
Proof. induction l as [|x l IH]; [done|]. cbn. destruct (p (f x)); cbn; by rewrite <- IH. Qed.
Lemma filter_true {A} (p : A → bool) l : Forall (λ x, p x = true) l → List.filter p l = l.
Proof. induction 1 as [|x l Hx _ IH]; [done|]. cbn. by rewrite Hx, IH. Qed.
Lemma normal_item x : event_ok x → is_normal x.2 = (x.1 =? FLB_LOG_EVENT_NORMAL).
Proof. intros [Ht _]. unfold is_normal. by rewrite Ht. Qed.

Lemma group_normals start l stop : segment_ok (group start l stop) → Forall event_ok (items (group start l stop)) →
  normals (handed (group start l stop)) = (λ x, set_ev_group (ev_metadata start.2) (ev_body start.2) x.2) <$> l.
Proof.
  intros (Hs & Hms & Hst) [Hos [Homs [Host _]%Forall_cons]%Forall_app]%Forall_cons. apply normal_item in Hos, Host. rewrite Hs in Hos. rewrite Hst in Host.
  unfold normals. cbn [handed List.filter]. rewrite Hos. cbn iota. rewrite List.filter_app, filter_fmap. cbn [List.filter]. rewrite Host, app_nil_r.
  f_equal. apply filter_true. rewrite List.Forall_forall in *. intros x Hx. rewrite is_normal_group, (normal_item x) by auto. by rewrite (Hms x Hx).
Qed.
Lemma filter_and {A} (p q : A → bool) l : List.filter (λ x, p x && q x) l = List.filter q (List.filter p l).
Proof. induction l as [|x l IH]; [done|]. cbn. destruct (p x); cbn; by rewrite IH. Qed.

Lemma segment_taken takes sg : segment_ok sg → Forall event_ok (items sg) →
  normals (from_option handed [] (select takes sg)) = taken takes (handed sg).
Proof.
  intros Hsg Ho. unfold taken. rewrite filter_and. fold (normals (handed sg)). destruct sg as [x|start ms stop].
  - apply Forall_cons in Ho as [Ho%normal_item _]. rewrite Hsg in Ho. unfold normals. cbn [handed List.filter select].
    rewrite is_normal_group, Ho. cbn [Z.eqb List.filter]. change (FLB_LOG_EVENT_NORMAL =? FLB_LOG_EVENT_NORMAL) with true. cbn iota.
    cbn [List.filter]. change (view_of _) with (view_in (None, None) x). destruct (takes _); [|done]. cbn. by rewrite is_normal_group, Ho.
  - rewrite group_normals, filter_fmap by done. cbn [select]. change (λ x : Z * flb_log_event, takes (view_of _)) with (λ x, takes (view_in (own_parts start) x)).
    destruct (List.filter (λ x, takes (view_in (own_parts start) x)) ms) as [|m l] eqn:Hf; [done|]. cbn [from_option]. apply group_normals.
    + destruct Hsg as (? & Hms & ?). split_and!; [done| |done]. rewrite <- Hf. by apply forall_filter.
    + cbn [items] in *. rewrite Forall_cons, Forall_app in *. destruct Ho as (? & Hms & ?). split_and!; [done| |done]. rewrite <- Hf. by apply forall_filter.
Qed.

(** The normal events of a selection are those that the condition takes. *)
Lemma selection_taken takes sgs : Forall segment_ok sgs → Forall event_ok (sgs ≫= items) →
  normals (in_groups (None, None) (omap (select takes) sgs ≫= items)) = taken takes (in_groups (None, None) (sgs ≫= items)).
Proof.
  intros Hsg Ho. rewrite !segments_handed by (done || by apply selected_ok).
  induction Hsg as [|sg sgs Hsg _ IH]; [done|]. rewrite bind_cons in Ho. apply Forall_app in Ho as [Ho Hos].
  rewrite bind_cons, taken_app, <- IH, <- segment_taken by done. cbn [omap list_omap]. destruct (select takes sg) as [sg'|]; [|done].
  by rewrite bind_cons, normals_app.
Qed.
Lemma selection_count takes sgs : Forall segment_ok sgs → Forall event_ok (sgs ≫= items) →
  count_true (flags_of takes sgs) = zlen (taken takes (in_groups (None, None) (sgs ≫= items))).
Proof.
  intros Hsg Ho. rewrite segments_handed by done.
  induction Hsg as [|sg sgs Hsg _ IH]; [done|]. rewrite bind_cons in Ho. apply Forall_app in Ho as [Ho Hos].
  unfold flags_of in *. rewrite !bind_cons, count_app, taken_app, zlen_app, <- IH by done. f_equal.
  rewrite segment_count. unfold taken. rewrite filter_and. fold (normals (handed sg)). destruct sg as [x|start ms stop].
  - apply Forall_cons in Ho as [Ho%normal_item _]. rewrite Hsg in Ho. unfold normals. cbn [handed List.filter]. rewrite is_normal_group, Ho.
    change (FLB_LOG_EVENT_NORMAL =? FLB_LOG_EVENT_NORMAL) with true. cbn iota. cbn [List.filter]. change (view_of _) with (view_in (None, None) x). by destruct (takes _).
  - rewrite group_normals, filter_fmap by done. unfold zlen. by rewrite length_fmap.
Qed.

(** ** A processor writes what it read *)

Section reencoded.
Context {E : Type} `{RecordEncoder E} {regex : Type}.
Variable regex_match : regex → list Z → Z.

(** C31. Logs survive a processor: a buffer of events is decoded, converted, encoded and freed, and what the decoder
    reads in the new buffer - with the unpacker of the library - is what it reads in the old one, event by event
    with its group and in order, but for the precision of single-precision numbers and seconds beyond 32 bits;
    nothing but the new buffer is left in memory, and encoding it once more gives the same bytes. *)
Theorem logs_survive_reencoding d buffer objs es s :
  state_ok s → calm (hp_env (lg_heap s)) → zlen buffer < 2 ^ 64 → dc_read_groups d = true →
  all_objects unpack buffer 0 objs → Forall2 (λ o x, good_object o x.1 x.2) objs es → Forall (λ x, loggable x.2) es →
  zlen (concat (event_bytes <$> es.*2)) < 2 ^ 64 →
  ∃ blk out s' evs,
    reencode float_bits double_bits regex_match unpack (flb_log_event_decoder_reset d buffer) s = Some (Some (0, Some (blk, out)), s') ∧
    lg_objects s' = lg_objects s ∧ hp_live (lg_heap s') ≡ₚ option_list blk ++ hp_live (lg_heap s) ∧
    decode_all unpack (S (length buffer)) (flb_log_event_decoder_reset d buffer) = Some (evs, FLB_EVENT_DECODER_ERROR_INSUFFICIENT_DATA) ∧
    decode_all unpack (S (length out)) (flb_log_event_decoder_reset d out) = Some (reread <$> evs, FLB_EVENT_DECODER_ERROR_INSUFFICIENT_DATA) ∧
    ∀ s2, state_ok s2 → calm (hp_env (lg_heap s2)) → ∃ blk2 s2',
      reencode float_bits double_bits regex_match unpack (flb_log_event_decoder_reset d out) s2 = Some (Some (0, Some (blk2, out)), s2').
Proof.
  intros Hst Hc H64 Hrg Hall Hes Hl Hlen. pose proof (unpack_ok float_of double_of zone_malloc) as Hup.
  destruct (reencode_runs float_bits double_bits regex_match unpack d buffer objs es s Hup Hst Hc H64 Hrg Hall Hes Hlen)
    as (r & s' & Hr & blk & -> & Ho & Hlive). do 4 eexists. split; [exact Hr|]. split; [exact Ho|]. split; [exact Hlive|]. split; [by eapply events_decoded|].
  assert (Hg : Forall (λ x, ∃ o, good_object o x.1 x.2) es) by (clear -Hes; induction Hes; constructor; eauto).
  split; [by apply logs_decoded|]. intros s2 Hst2 Hc2.
  destruct (reencode_runs float_bits double_bits regex_match unpack d (concat (event_bytes <$> es.*2)) (event_object <$> es.*2)
    (reread_item <$> es) s2 Hup Hst2 Hc2 Hlen Hrg) as (r2 & s2' & Hr2 & blk2 & -> & _).
  - apply (events_read es.*2) with (pre := []). by rewrite Forall_fmap.
  - by apply reread_items.
  - by rewrite (reread_all_bytes objs).
  - rewrite (reread_all_bytes objs) in Hr2 by done. eauto.
Qed.
End reencoded.

(** ** An output reads its share *)

Section split_read.
Context {E : Type} `{RecordEncoder E} {regex : Type}.
Variable cfl_ra_create : list Z → option flb_cfl_record_accessor.
Variable regex_create : list Z → option regex.
Variable regex_match : regex → list Z → Z.
Abbreviation share := (route_share cfl_ra_create regex_create regex_match).

(** What the payload of a route holds *)
Definition delivers (d : flb_log_event_decoder) (takes : view → bool) (evs : list flb_log_event) (data : list Z) (records : Z) : Prop :=
  ∃ evs', decode_all unpack (S (length data)) (flb_log_event_decoder_reset d data) = Some (evs', FLB_EVENT_DECODER_ERROR_INSUFFICIENT_DATA) ∧
    normals evs' = reread <$> taken takes evs ∧ records = zlen (normals evs').

Lemma selection_delivered d takes objs sgs : Forall segment_ok sgs → Forall2 (λ o x, good_object o x.1 x.2) objs (sgs ≫= items) →
  Forall (λ x, loggable x.2) (sgs ≫= items) → dc_read_groups d = true →
  delivers d takes (in_groups (None, None) (sgs ≫= items)) (selected_bytes float_bits double_bits takes sgs) (count_true (flags_of takes sgs)).
Proof.
  intros Hsg Hes Hl Hrg. pose proof (events_ok _ _ Hes) as Ho. rewrite selected_items, (selection_count takes sgs) by done.
  assert (Hg : Forall (λ x, ∃ o, good_object o x.1 x.2) (sgs ≫= items)) by (clear -Hes; induction Hes; constructor; eauto).
  eexists. split; [apply logs_decoded; [by apply selected_sub|by apply selected_sub|done]|].
  assert (Hn : normals (reread <$> in_groups (None, None) (omap (select takes) sgs ≫= items)) = reread <$> taken takes (in_groups (None, None) (sgs ≫= items))).
  { rewrite <- selection_taken by done. unfold normals. rewrite filter_fmap. f_equal. apply List.filter_ext. intros e. unfold is_normal. by rewrite type_reread. }
  rewrite Hn. split; [done|]. unfold zlen. by rewrite length_fmap.
Qed.

(** C32. What a route gets is what it asked for.  Let nothing fail, let the chunk be a sequence of well-formed groups and of
    records that can be converted and written, and let the rules of the routes be able to read them.  After a split the
    decoder reads in the payload of every route exactly the records that it reads in the chunk and that the route takes, in
    their order and with the metadata and attributes of their groups, but for the precision of single-precision numbers
    and seconds beyond 32 bits; the payload announces their number, which is not zero; a route without a payload takes
    none. *)
Theorem split_payloads_read d paths routes X buf objs sgs s (idx := chosen routes [] paths) :
  0 < zlen buf < 2 ^ 64 → all_objects unpack buf 0 objs →
  Forall2 (λ o x, good_object o x.1 x.2) objs (sgs ≫= items) → Forall segment_ok sgs → Forall (λ x, loggable x.2) (sgs ≫= items) →
  zlen (concat (event_bytes <$> (sgs ≫= items).*2)) < 2 ^ 64 → dc_read_groups d = true →
  state_ok s → calm (hp_env (lg_heap s)) → hp_live (lg_heap s) ≡ₚ (routes ≫= route_blocks) ++ X →
  Forall (λ r, path_ok cfl_ra_create regex_create (Some r)) routes → split_reads cfl_ra_create regex_create routes sgs = true → idx ≠ [] →
  ∃ out dropped routes' s' evs,
    split_once float_bits double_bits cfl_ra_create regex_create regex_match unpack false paths routes buf s = Some (Some (out, dropped), routes', s') ∧
    decode_all unpack (S (length buf)) (flb_log_event_decoder_reset d buf) = Some (evs, FLB_EVENT_DECODER_ERROR_INSUFFICIENT_DATA) ∧
    Forall (λ '(i, _, data, records), i ∈ idx ∧ 0 < records ∧ delivers d (share routes idx i) evs data records) out ∧
    ∀ i, i ∈ idx → i ∉ ((λ x, x.1.1.1) <$> out) → taken (share routes idx i) evs = [].
Proof.
  intros Hb Hall Hes Hsg Hl Hlen Hrg Hst Hc Hlive Hok Hrd Hch. pose proof (unpack_ok float_of double_of zone_malloc) as Hup.
  rewrite <- list_fmap_compose in Hlen.
  destruct (split_once_runs float_bits double_bits cfl_ra_create regex_create regex_match unpack paths routes X buf objs sgs s
    Hup Hb Hall Hes Hsg Hlen Hst Hc Hlive Hok Hrd Hch) as ([r routes'] & s' & Hr & -> & _).
  do 5 eexists. split; [exact Hr|]. split; [by eapply events_decoded|]. fold idx. clear Hr. unfold split_spec. split.
  - rewrite List.Forall_forall. intros [[[i tag] data] n] Hin. apply list_elem_of_In, list_elem_of_omap in Hin as (j & Hj & Hx).
    destruct (Z.eqb_spec (count_true (flags_of (share routes idx j) sgs)) 0); [done|]. injection Hx as <- _ <- <-.
    pose proof (count_nonneg (flags_of (share routes idx j) sgs)). split_and!; [done|lia|]. by eapply selection_delivered.
  - intros i Hi Hno. apply length_zero_iff_nil. pose proof (selection_count (share routes idx i) sgs Hsg (events_ok _ _ Hes)) as Hn.
    destruct (Z.eqb_spec (count_true (flags_of (share routes idx i) sgs)) 0) as [Hz|Hz]; [unfold zlen in Hn; lia|]. exfalso. apply Hno.
    apply list_elem_of_fmap. eexists (i, _, _, _). split; [done|]. apply list_elem_of_omap. exists i. split; [done|].
    by rewrite (proj2 (Z.eqb_neq _ _) Hz).
Qed.
End split_read.
End roundtrip.

(** ** Concrete logs

    The start of a group, a record in the older format, one with a length in two bytes, and the end of the group *)
Definition ex_bytes : list Z :=
  [0x92; 0x92; 0xd7; 0; 255; 255; 255; 255; 0; 0; 0; 0; 0x81; 0xa1; 103; 0xa1; 104; 0x80] ++
  [0x92; 0xce; 59; 154; 202; 0; 0x81; 0xa1; 97; 0xd1; 0; 5] ++
  [0x92; 0x92; 0xd7; 0; 59; 154; 202; 1; 0; 0; 0; 7; 0x80; 0xde; 0; 1; 0xd9; 1; 97; 0xa1; 98] ++
  [0x92; 0x92; 0xd7; 0; 255; 255; 255; 254; 0; 0; 0; 0; 0x80; 0x80].
Abbreviation ex_zone := (λ _ _ : Z, true).
Abbreviation ex_bits := (λ _ : double, @nil Z).
Abbreviation ex_float := (λ _ : list Z, S754_nan).
Abbreviation ex_next := (msgpack_unpack_next ex_float ex_float ex_zone).
Fixpoint ex_read (n : nat) (off : Z) : list msgpack_object :=
  match n with
  | O => []
  | S n' => match ex_next ex_bytes off with (MSGPACK_UNPACK_SUCCESS o, off') => o :: ex_read n' off' | _ => [] end
  end.
Definition ex_objects : list msgpack_object := Eval vm_compute in ex_read 5 0.
Definition ex_items : list (Z * flb_log_event) := Eval vm_compute in
  omap (λ o, match event_of o with Some (inr e) => Some (default 1 (flb_log_event_decoder_get_record_type e), e) | _ => None end) ex_objects.

Lemma ex_bytes_objects : all_objects ex_next ex_bytes 0 ex_objects.
Proof. repeat (eapply all_objects_cons; [vm_compute; reflexivity|]). apply (all_objects_end ex_next ex_bytes). Qed.
Lemma ex_items_good : Forall2 (λ o x, good_object o x.1 x.2) ex_objects ex_items.
Proof. repeat (constructor; [constructor; vm_compute; reflexivity|]). constructor. Qed.
Lemma ex_items_loggable : Forall (λ x, loggable ex_bits ex_bits ex_float ex_float x.2) ex_items.
Proof.
  repeat (apply Forall_cons; split; [constructor; (eexists; split; [reflexivity|apply (packable_mono _ _ _ _ 1); [lia|]; cbn; repeat first [exact I|apply Forall_nil_2|apply Forall_cons_2|split|discriminate]])|]). apply Forall_nil_2.
Qed.

Definition ex_chunk_segments : list segment :=
  match ex_items with [start; x; y; stop] => [group start [x; y] stop] | _ => [] end.
Definition ex_number_route (name value : string) : flb_route (list Z) :=
  ex_named name false [ex_rule "a" "eq" value RECORD_CONTEXT_BODY].

(** What the new chunk is read as: the same groups and bodies *)
Lemma logs_survive_reencoding_witness : ∃ blk out s' evs,
  reencode ex_bits ex_bits (E := log_event_encoder) (H := log_event_encoder_RecordEncoder ex_bits ex_bits) ex_match ex_next
    (flb_log_event_decoder_reset ex_group_decoder ex_bytes) ex_log = Some (Some (0, Some (blk, out)), s') ∧
  decode_all ex_next (S (length out)) (flb_log_event_decoder_reset ex_group_decoder out) = Some (evs, FLB_EVENT_DECODER_ERROR_INSUFFICIENT_DATA) ∧
  ((λ e, (ev_timestamp e, ev_group_metadata e, ev_body e)) <$> normals evs) =
    let g := MSGPACK_OBJECT_MAP [(ex_str [103], ex_str [104])] in
    [(mk_time 1000000000 0, Some g, Some (MSGPACK_OBJECT_MAP [(ex_str [97], MSGPACK_OBJECT_POSITIVE_INTEGER 5)]));
     (mk_time 1000000001 7, Some g, Some (MSGPACK_OBJECT_MAP [(ex_str [97], ex_str [98])]))].
Proof.
  destruct (logs_survive_reencoding ex_bits ex_bits ex_float ex_float ex_zone (λ _ _, eq_refl) (E := log_event_encoder)
    (H := log_event_encoder_RecordEncoder ex_bits ex_bits) ex_match ex_group_decoder ex_bytes ex_objects ex_items ex_log ex_log_ok)
    as (blk & out & s' & evs & Hr & _ & _ & Hd & Hd' & _).
  - done.
  - by vm_compute.
  - reflexivity.
  - exact ex_bytes_objects.
  - exact ex_items_good.
  - exact ex_items_loggable.
  - by vm_compute.
  - exists blk, out, s', (reread <$> evs). split; [exact Hr|]. split; [exact Hd'|].
    assert (He : decode_all ex_next (S (length ex_bytes)) (flb_log_event_decoder_reset ex_group_decoder ex_bytes) =
      Some (in_groups (None, None) ex_items, FLB_EVENT_DECODER_ERROR_INSUFFICIENT_DATA)) by (vm_compute; reflexivity).
    rewrite He in Hd. injection Hd as <-. vm_compute. reflexivity.
Defined.

(** One route takes the records whose "a" is "b", the other those whose "a" is "c": only the former gets a payload. *)
Lemma split_payloads_read_witness : ∃ out dropped routes' s',
  split_once ex_bits ex_bits ex_ra ex_regex ex_match ex_next (E := log_event_encoder)
    (H := log_event_encoder_RecordEncoder ex_bits ex_bits) false [mk_path 0 (Some 1%nat); mk_path 0 (Some 0%nat)]
    [ex_number_route "text" "b"; ex_number_route "none" "c"] ex_bytes ex_log = Some (Some (out, dropped), routes', s') ∧
  0%nat ∈ ((λ x, x.1.1.1) <$> out) ∧
  Forall (λ '(i, _, data, records), i = 0%nat ∧ records = 1 ∧ ∃ evs, decode_all ex_next (S (length data)) (flb_log_event_decoder_reset ex_group_decoder data) =
    Some (evs, FLB_EVENT_DECODER_ERROR_INSUFFICIENT_DATA) ∧ (ev_body <$> normals evs) = [Some (MSGPACK_OBJECT_MAP [(ex_str [97], ex_str [98])])]) out.
Proof.
  destruct (split_payloads_read ex_bits ex_bits ex_float ex_float ex_zone (λ _ _, eq_refl) (E := log_event_encoder)
    (H := log_event_encoder_RecordEncoder ex_bits ex_bits) ex_ra ex_regex ex_match ex_group_decoder
    [mk_path 0 (Some 1%nat); mk_path 0 (Some 0%nat)] [ex_number_route "text" "b"; ex_number_route "none" "c"] [] ex_bytes ex_objects ex_chunk_segments ex_log)
    as (out & dropped & routes' & s' & evs & Hr & Hd & Hf & Hno).
  - by vm_compute.
  - exact ex_bytes_objects.
  - exact ex_items_good.
  - repeat constructor.
  - exact ex_items_loggable.
  - by vm_compute.
  - reflexivity.
  - exact ex_log_ok.
  - done.
  - done.
  - repeat constructor; discriminate.
  - by vm_compute.
  - by vm_compute.
  - assert (He : decode_all ex_next (S (length ex_bytes)) (flb_log_event_decoder_reset ex_group_decoder ex_bytes) =
      Some (in_groups (None, None) ex_items, FLB_EVENT_DECODER_ERROR_INSUFFICIENT_DATA)) by (vm_compute; reflexivity).
    rewrite He in Hd. injection Hd as <-. exists out, dropped, routes', s'. split; [exact Hr|].
    split; [apply dec_stable; intros Hn; specialize (Hno 0%nat ltac:(vm_compute; member) Hn); vm_compute in Hno; discriminate Hno|].
    eapply Forall_impl; [exact Hf|]. intros [[[i tag] data] n] (Hi & Hpos & evs' & Hdec & Hn & ->).
    change (i ∈ [1%nat; 0%nat]) in Hi. apply elem_of_cons in Hi as [-> |Hi]; [|apply list_elem_of_singleton in Hi as ->].
    + exfalso. apply (f_equal zlen) in Hn. rewrite Hn in Hpos. vm_compute in Hpos. discriminate Hpos.
    + split; [done|]. rewrite Hn. split; [vm_compute; reflexivity|]. exists evs'. split; [exact Hdec|]. rewrite Hn. vm_compute. reflexivity.
Defined.
