(* ===== verification/LogIngest.v ===== *)
(** * Logs with conditional routes, from the append to the chunks

    [input_log_append] joins [LogSplit], which works on records, and [LogAppend], which works on chunks.  The theorems are
    about any reachable state of the core: where the chunk of a route is routed to, and that the append does
    what the split says; examples show what goes wrong with charges, filters and tags. *)
From stdpp Require Import strings.
From S2P Require Import Prelude CStd Env Heap RetryQueue Router RoutesMask Sched Delivery Invariant Task Output Dispatch Engine Agent.
From S2P Require Import ChunkMeta DirectRoutes ChunkFrame ChunkSpace ChunkAccount ChunkRelease InputChunk LogAppend Ingest.
From S2P Require Import MsgPack CflAccessor LogDecoder Packer LogEncoder RecordEncoder Conditions MpChunk RouteCondition ChunkEncode LogSplit.

(** ** Operations *)

(** What is appended for a payload *)
Definition pending_of (x : nat * list Z * list Z * Z) : pending_payload :=
  let '(route, tag, data, records) := x in mk_pending_payload route tag (zlen data) records.

Section append.
Context {S : Type} `{RetryQueue S}.
Context (cfg : flb_config) (sc : storage_config) (onig_match : regex → list Z → Z).
Context (float_bits double_bits : double → list Z).
Context {reg : Type}.
Variable cfl_ra_create : list Z → option flb_cfl_record_accessor.
Variable regex_create : list Z → option reg.
Variable regex_match : reg → list Z → Z.
Variable msgpack_unpack_next : list Z → Z → unpacked * Z.
Context {E : Type} `{RecordEncoder E}.
#[local] Abbreviation route := (flb_route reg).

(** The records being split, and the core *)
Definition log_core : Type := log_state * core S.
Definition on_log {A} (m : M log_state A) : M log_core A := λ s, match m s.1 with Some (a, l) => Some (a, (l, s.2)) | None => None end.
Definition on_core {A} (m : M (core S) A) : M log_core A := λ s, match m s.2 with Some (a, c) => Some (a, (s.1, c)) | None => None end.

(** The answers to the appends of payloads, by their route *)
Definition answered (answers : nat → append_io * apply_io) (x : nat * list Z * list Z * Z) : pending_payload * append_io * apply_io :=
  (pending_of x, (answers x.1.1.1).1, (answers x.1.1.1).2).

(** [split_and_append_route_payloads], of an input without a thread *)
Definition split_and_append_route_payloads (i : nat) (paths : list flb_router_path) (routes : list route) (buf : list Z)
    (answers : nat → append_io * apply_io) : M log_core (Z * list route) :=
  '(r, routes) ← on_log (split_route_payloads float_bits double_bits cfl_ra_create regex_create regex_match
                           msgpack_unpack_next false paths routes buf);
  match r with
  | split_done ret => mret (ret, routes)
  | split_ready payloads context chunk _ =>
      ret ← on_core (split_and_append cfg sc onig_match i (answered answers ∘ content <$> payloads));
      on_log (split_clean context payloads chunk) ≫= λ _, mret (ret, routes)
  end.

(** Without a processor *)
Definition input_log_append (i : nat) (routes : list route) (n_records : Z) (tag : option (list Z)) (buf : list Z)
    (answers : nat → append_io * apply_io) (io : append_io) : M log_core (Z * list route) :=
  ins ← deref (cf_inputs cfg !! i);
  '(conditional_result, routes) ← split_and_append_route_payloads i (i_routes_direct ins) routes buf answers;
  ret ← on_core (append_all cfg sc onig_match i conditional_result (is_conditional <$> routes) n_records tag (zlen buf) io);
  mret (ret, routes).
End append.

(** ** The chunk of a route *)

Section routed.
Context {S : Type} `{RetryQueue S}.
Context (cfg : flb_config) (sc : storage_config) (r : flb_router) (onig_match : regex → list Z → Z).
Context (route_condition : Delivery.flb_event_chunk → nat → bool).

(** The outputs a task takes from the stored routes do not depend on the mask. *)
Lemma selected_stored evc ck ins os ks mask : labels_ok cfg → ks ≠ [] → Forall2 (λ k o, cf_outputs cfg !! k = Some o) ks os →
  ck_direct ck = Some (0, read_route <$> os) → selected_outputs cfg route_condition evc (set_ck_routes_mask mask ck) ins = ks.
Proof.
  intros Hl Hks Hos Hd. unfold selected_outputs. change (ck_direct (set_ck_routes_mask mask ck)) with (ck_direct ck). rewrite Hd.
  assert (Hall : forallb (λ x, negb (bool_decide (direct_matches (cf_outputs cfg) x = []))) (read_route <$> os) = true).
  { clear Hd Hks. induction Hos as [|k o ks os Ho _ IH]; [done|]. rewrite fmap_cons. cbn [forallb]. rewrite IH, andb_true_r.
    by rewrite (direct_matches_own cfg k o Hl Ho). }
  rewrite Hall, (direct_all_own cfg ks os Hl Hos). by destruct Hos.
Qed.

(** C37. What a conditional route takes goes to the outputs of the route and to no others.  In every reachable state, with
    the name of the route of a path of an input: when the table of open chunks leads from the name to a chunk, as it does
    once the payload of the route was appended, [route_payload_apply_outputs] succeeds; the mask of the chunk then has the
    bits of exactly the outputs of the route, whatever it was routed to before; and if the routes were stored with it, a
    task made of it ([Task.flb_task_create_selects]) has exactly these outputs.  Content, tag and task of the chunk and
    all other chunks stay as they are, and outputs are charged as [applied_charge] says.  When there is no such chunk the
    call fails and changes nothing. *)
Theorem payload_routed_exactly s clean m c i ins tag route ap :
  core_reaches cfg sc r onig_match route_condition s clean m c → payload_route_ok cfg i ins tag route ap → labels_ok cfg →
  let paths := i_routes_direct ins in
  match sp_table (c_sp c) !! (i, FLB_INPUT_LOGS, tag) with
  | None => route_payload_apply_outputs cfg sc i tag route ap c = Some (-1, c)
  | Some a => ∃ ck ck' ci ci' fs' c', d_chunks (c_d c) !! a = Some ck ∧ sp_info (c_sp c) !! a = Some ci ∧
      route_payload_apply_outputs cfg sc i tag route ap c = Some (0, c') ∧
      c' = mk_core (set_d_chunks (<[a := ck']> (d_chunks (c_d c))) (c_d c))
             (mk_space (<[a := ci']> (sp_info (c_sp c))) fs' (sp_table (c_sp c)) (sp_reads (c_sp c))) ∧
      applied cfg r route paths ap ck ck' ∧
      (ap_written ap = true → ap_status ap = 0 → ∀ evc, selected_outputs cfg route_condition evc ck' ins = targets route paths) ∧
      ∀ o, is_output cfg o → fs' !! o = applied_charge cfg sc route paths ck ci o <$> sp_fs (c_sp c) !! o
  end.
Proof.
  intros Hreach Hpr Hlab paths. destruct (core_reaches_ok cfg sc r onig_match route_condition s clean m c Hreach) as [L Hok].
  destruct Hreach as ((Hcfg & _) & Hst & _). destruct (sp_table (c_sp c) !! (i, FLB_INPUT_LOGS, tag)) as [a|] eqn:Htab.
  - destruct (so_table _ _ _ _ _ _ _ (co_space _ _ _ _ _ _ _ _ Hok) _ _ Htab) as (ck & Hc & _).
    destruct (core_info _ _ _ _ _ _ _ _ _ _ Hok Hc) as (ci & Hci & _).
    assert (Hrun : runs (route_payload_apply_outputs cfg sc i tag route ap) c (λ ret c', ∃ ck' ci' fs', ret = 0 ∧
      applied cfg r route paths ap ck ck' ∧
      c' = mk_core (set_d_chunks (<[a := ck']> (d_chunks (c_d c))) (c_d c)) (mk_space (<[a := ci']> (sp_info (c_sp c))) fs' (sp_table (c_sp c)) (sp_reads (c_sp c))) ∧
      ∀ o, is_output cfg o → fs' !! o = applied_charge cfg sc route paths ck ci o <$> sp_fs (c_sp c) !! o)).
    { eapply (runs_apply cfg sc r onig_match); [exact Hcfg|exact Hst|exact Hok|exact Hpr|exact Hlab|exact Htab|exact Hc|exact Hci|].
      intros ck' ci' fs' s' Hap _ -> Hfs. by exists ck', ci', fs'. }
    destruct Hrun as (ret & c' & Hrun & ck' & ci' & fs' & -> & Hap & Hc' & Hfs). exists ck, ck', ci, ci', fs', c'. split_and!; try done.
    intros Hw Hstat evc. pose proof (al_direct _ _ _ _ _ _ _ Hap) as Hd. rewrite Hw, Hstat in Hd. destruct Hd as (os & Hd & Hos).
    destruct (al_mask_ok _ _ _ _ _ _ _ Hap) as (mask & Hmask & _). transitivity (selected_outputs cfg route_condition evc (set_ck_routes_mask mask ck') ins).
    + f_equal. destruct ck'. cbn in Hmask. by rewrite Hmask.
    + eapply selected_stored; [done|apply Hpr|exact Hos|exact Hd].
  - unfold route_payload_apply_outputs. unfold mbind, M_bind. rewrite (pr_input _ _ _ _ _ _ Hpr). cbn [deref open_chunk]. unfold open_chunk. rewrite Htab. done.
Qed.
End routed.

(** ** The append and the split *)

Section refinement.
Context {S : Type} `{RetryQueue S}.
Context (cfg : flb_config) (sc : storage_config) (r : flb_router) (onig_match : regex → list Z → Z).
Context (route_condition : Delivery.flb_event_chunk → nat → bool).
Context (float_bits double_bits : double → list Z).
Context {reg : Type}.
Variable cfl_ra_create : list Z → option flb_cfl_record_accessor.
Variable regex_create : list Z → option reg.
Variable regex_match : reg → list Z → Z.
Variable msgpack_unpack_next : list Z → Z → unpacked * Z.
Context {E : Type} `{RecordEncoder E}.
#[local] Abbreviation route := (flb_route reg).

Lemma same_conditional (l l' : list route) : same_routes l l' → is_conditional <$> l' = is_conditional <$> l.
Proof.
  induction 1 as [|x y l l' Hxy _ IH]; [done|]. rewrite !fmap_cons, IH. f_equal. unfold is_conditional. destruct Hxy as (_ & _ & -> & Hc).
  f_equal. apply bool_decide_ext. by destruct (rt_condition x), (rt_condition y).
Qed.

(** What the split leaves, and its end *)
Lemma split_parts paths routes X buf objs sgs s :
  unpacker_ok msgpack_unpack_next → 0 < zlen buf < 2 ^ 64 → all_objects msgpack_unpack_next buf 0 objs →
  Forall2 (λ o x, good_object o x.1 x.2) objs (sgs ≫= items) → Forall segment_ok sgs →
  zlen (concat ((λ x, event_bytes float_bits double_bits x.2) <$> (sgs ≫= items))) < 2 ^ 64 →
  state_ok s → calm (hp_env (lg_heap s)) → hp_live (lg_heap s) ≡ₚ (routes ≫= route_blocks) ++ X →
  Forall (λ r, path_ok cfl_ra_create regex_create (Some r)) routes → split_reads cfl_ra_create regex_create routes sgs = true → chosen routes [] paths ≠ [] →
  ∃ ps context chunk dropped routes' s1 s2,
    split_route_payloads float_bits double_bits cfl_ra_create regex_create regex_match msgpack_unpack_next false paths routes buf s =
      Some ((split_ready ps context chunk dropped, routes'), s1) ∧
    content <$> ps = split_spec float_bits double_bits cfl_ra_create regex_create regex_match routes (chosen routes [] paths) sgs ∧
    split_clean context ps chunk s1 = Some (tt, s2) ∧ same_routes routes routes' ∧ lg_objects s2 = lg_objects s ∧
    hp_live (lg_heap s2) ≡ₚ (routes' ≫= route_blocks) ++ X.
Proof.
  intros Hu Hb Hall Hes Hsg Hlen Hs Hc Hl Hr Hrd Hch.
  destruct (split_once_runs float_bits double_bits cfl_ra_create regex_create regex_match msgpack_unpack_next
    paths routes X buf objs sgs s Hu Hb Hall Hes Hsg Hlen Hs Hc Hl Hr Hrd Hch) as ([res routes'] & s2 & Hrun & -> & Hsame & Ho & Hl2).
  unfold split_once in Hrun. unfold mbind at 1, M_bind at 1 in Hrun.
  destruct (split_route_payloads _ _ _ _ _ _ false paths routes buf s) as [[[[ret|ps context chunk dropped] routes1] s1]|]; [done| |done].
  unfold mbind, M_bind in Hrun. destruct (split_clean context ps chunk s1) as [[[] s3]|] eqn:Hclean; [|done]. injection Hrun as Hps _ -> ->.
  by exists ps, context, chunk, dropped, routes', s1, s2.
Qed.

(** C38. Appending logs is what the split says.  Let an input that has conditional routes append a chunk of well-formed groups
    and convertible records, which the rules of its routes can read - none leads to a map or a NaN - in any reachable state of
    the core, while nothing fails in the split; whatever the storage layer answers and the filters leave.  Then
    [input_log_append] has a result, and the core goes the step of the event [CoreLogs] whose payloads are the ones that
    [LogSplit.split_spec] assigns to the routes: for every conditional route the records that meet its condition, in groups,
    under the name of the route, with their bytes and number.  The state is a reachable one again, and all
    memory the split took is given back, but for compiled conditions. *)
Theorem input_log_append_refines s0 clean m c i ins routes n_records tag X buf objs sgs answers io s :
  let payloads := split_spec float_bits double_bits cfl_ra_create regex_create regex_match routes
                    (chosen routes [] (i_routes_direct ins)) sgs in
  let event := CoreLogs i (Some (answered answers <$> payloads)) (is_conditional <$> routes) n_records tag (zlen buf) io in
  core_reaches cfg sc r onig_match route_condition s0 clean m c → m + 1 < INT_MAX → core_enabled cfg sc event c → cf_inputs cfg !! i = Some ins →
  unpacker_ok msgpack_unpack_next → 0 < zlen buf < 2 ^ 64 → all_objects msgpack_unpack_next buf 0 objs →
  Forall2 (λ o x, good_object o x.1 x.2) objs (sgs ≫= items) → Forall segment_ok sgs →
  zlen (concat ((λ x, event_bytes float_bits double_bits x.2) <$> (sgs ≫= items))) < 2 ^ 64 →
  state_ok s → calm (hp_env (lg_heap s)) → hp_live (lg_heap s) ≡ₚ (routes ≫= route_blocks) ++ X →
  Forall (λ r, path_ok cfl_ra_create regex_create (Some r)) routes → split_reads cfl_ra_create regex_create routes sgs = true → chosen routes [] (i_routes_direct ins) ≠ [] →
  ∃ ret routes' s' c',
    input_log_append cfg sc onig_match float_bits double_bits cfl_ra_create regex_create regex_match msgpack_unpack_next
      i routes n_records tag buf answers io (s, c) = Some ((ret, routes'), (s', c')) ∧
    run_core cfg sc onig_match route_condition event c = Some (tt, c') ∧
    core_reaches cfg sc r onig_match route_condition s0 false (m + 1) c' ∧
    same_routes routes routes' ∧ lg_objects s' = lg_objects s ∧ hp_live (lg_heap s') ≡ₚ (routes' ≫= route_blocks) ++ X.
Proof.
  intros payloads event Hreach Hm He Hins Hu Hb Hall Hes Hsg Hlen Hs Hc Hl Hr Hrd Hch.
  destruct (split_parts (i_routes_direct ins) routes X buf objs sgs s Hu Hb Hall Hes Hsg Hlen Hs Hc Hl Hr Hrd Hch)
    as (ps & context & chunk & dropped & routes' & s1 & s2 & Hsplit & Hps & Hclean & Hsame & Ho & Hl2).
  destruct (core_reaches_ok cfg sc r onig_match route_condition s0 clean m c Hreach) as [L Hok].
  pose proof Hreach as (Hst & Hsto & Hcr & Hlt). pose proof (core_reachable_nonneg _ _ _ _ _ _ _ _ Hcr).
  destruct (core_step_spec cfg sc r onig_match route_condition (proj1 Hst) Hsto clean event L m c Hok He) as (c' & _ & Hrun & _); [lia|].
  assert (Hreach' : core_reaches cfg sc r onig_match route_condition s0 false (m + 1) c').
  { split_and!; [done|done| |done]. change false with (LogAppend.written event) at 1. replace (LogAppend.written event) with (clean && LogAppend.written event) by (by rewrite andb_false_r).
    by eapply core_step. }
  unfold event in Hrun. cbn [run_core] in Hrun. unfold append_after_split in Hrun. unfold mbind, M_bind in Hrun.
  unfold payloads in Hrun. rewrite <- Hps, <- list_fmap_compose in Hrun.
  destruct (split_and_append cfg sc onig_match i (answered answers ∘ content <$> ps) c) as [[ret c1]|] eqn:Happ; [|done].
  destruct (append_all cfg sc onig_match i ret (is_conditional <$> routes) n_records tag (zlen buf) io c1) as [[ret' c2]|] eqn:Hend; [|done].
  injection Hrun as ->. exists ret', routes', s2, c'. split_and!; [|by unfold event, payloads; rewrite <- Hps; cbn [run_core]; unfold append_after_split, mbind, M_bind; rewrite <- list_fmap_compose, Happ, Hend|done..].
  unfold input_log_append, split_and_append_route_payloads, on_log, on_core, mbind, M_bind. cbn [fst snd]. rewrite Hins. cbn [deref fst snd].
  rewrite Hsplit. cbn [fst snd]. rewrite Happ. cbn [fst snd]. rewrite Hclean. cbn [fst snd]. unfold mret, M_ret. cbn [fst snd]. by rewrite (same_conditional _ _ Hsame), Hend.
Qed.
End refinement.

(** ** An input with a conditional route

    The route "r" leads to the first output, which matches no tag; the second output matches every tag. *)

Definition lx_config : flb_config :=
  mk_config [mk_input 0 [105] true (Some [97]) 1 [] [mk_path 0 (Some 0%nat)]]
    [mk_output 0 [111; 46; 48] None None 0 1 false 1 None [111] false; mk_output 1 [111; 46; 49] (Some [42]) None 0 1 false 1 None [111] false]
    (Some (mk_router 1 64 (Some [0]))) Sched.ex_cfg false.
Definition lx_storage : storage_config :=
  mk_storage_config (Some 0%nat) true [FLB_STORAGE_FS] [true] [1000000; 1000000] [0; 0].
Definition lx_regex (_ : regex) (_ : list Z) : Z := 0.
Definition lx_apply (real : Z) : apply_io := mk_apply_io true 0 real 40.
(** A payload of the route of 300000 bytes, of which the filters leave some, and then all logs, of 400000 bytes *)
Definition lx_logs (tag : list Z) (filtered : Z) : core_event :=
  CoreLogs 0 (Some [(mk_pending_payload 0 [114] 300000 3, ix_io filtered 300000, lx_apply 300000)]) [true] 4 (Some tag) 400000 (ix_io 400000 400000).
Definition lx_run (es : list core_event) : option (core flb_sched) :=
  foldl (λ o e, c ← o; '(_, c') ← run_core lx_config lx_storage lx_regex ex_always e c; Some c')
    (Some (core_initial lx_config ex_sched)) es.

(** Outputs are charged for chunks of others.  The chunk that a payload of 300000 bytes makes is charged to the second
    output, whose pattern matches the name of the route, before [route_payload_apply_outputs] gives it to the first: the
    bytes stay charged to the second output, which is not on a path of the input, and are not charged to the first.  When
    the chunk is destroyed they are taken from what the first is charged, which becomes 2^64 - 300000. *)
Theorem conditional_charges_wrong :
  ∃ c a c', lx_run [lx_logs [116] 300000] = Some c ∧ sp_table (c_sp c) !! (0%nat, FLB_INPUT_LOGS, [114]) = Some a ∧
    routed_bytes lx_config lx_storage 0 c = 300000 ∧ routed_bytes lx_config lx_storage 1 c = 400000 ∧ sp_fs (c_sp c) = [0; 700000] ∧
    InputChunk.flb_input_chunk_destroy lx_config lx_storage a c = Some (tt, c') ∧ sp_fs (c_sp c') = [2 ^ 64 - 300000; 700000].
Proof. eexists _, _, _. split; [vm_compute; reflexivity|]. split; [vm_compute; reflexivity|]. split_and!; vm_compute; reflexivity. Qed.

(** Filters on a payload lose all logs.  When filters leave nothing of the payload of a route its chunk is destroyed, and
    [flb_input_chunk_append_raw] succeeds; [route_payload_apply_outputs] then finds no chunk, and [input_log_append] fails
    before the logs are appended for the other outputs. *)
Theorem filtered_payload_loses_logs :
  ∃ c, append_after_split lx_config lx_storage lx_regex 0 (Some [(mk_pending_payload 0 [114] 300000 3, ix_io 0 0, lx_apply 0)]) [true]
         4 (Some [116]) 400000 (ix_io 400000 400000) (core_initial lx_config ex_sched) = Some (-1, c) ∧ d_chunks (c_d c) = ∅.
Proof. eexists. split; [vm_compute; reflexivity|vm_compute; reflexivity]. Qed.

(** A route with the name of a tag takes all logs of the tag.  They are appended to the chunk of the payload, which then
    loses all bits of its mask; its stored routes still lead to the outputs of the route, and nothing is left for others. *)
Theorem route_named_as_tag :
  ∃ c a ck, lx_run [lx_logs [114] 300000] = Some c ∧ map_to_list (d_chunks (c_d c)) = [(a, ck)] ∧ ck_size ck = 700000 ∧ ck_routes_mask ck = Some [0] ∧
    ∀ evc ins, selected_outputs lx_config ex_always evc ck ins = [0%nat].
Proof. eexists _, _, _. split; [vm_compute; reflexivity|]. split; [vm_compute; reflexivity|]. split; [reflexivity|]. split; [reflexivity|]. done. Qed.

(** ** Witnesses *)

Lemma lx_labels : labels_ok lx_config.
Proof.
  split.
  - repeat constructor; try (vm_compute; (done || discriminate)); intros Hin; repeat (apply elem_of_cons in Hin as [Hin|Hin]; [discriminate|]); by apply elem_of_nil in Hin.
  - intros [|[|k]] [|[|k']] o o' [= <-] [= <-] _ [Hl|Hl]; cbn in *; done.
Qed.

Lemma lx_storage_ok : storage_ok lx_config lx_storage ix_router.
Proof.
  constructor; try done.
  - intros ins. cbn. rewrite !elem_of_cons, elem_of_nil. intros [->|[->|[]]]; split; cbn; lia.
  - intros [|[|o]] ins limit [= <-] [= <-] Hne; (split; [cbn; lia|]; exists 0%nat; split; [done|cbn; lia]).
Qed.

Lemma lx_starts : starts lx_config ex_sched.
Proof.
  split_and!; [|apply sched_empty_wf|reflexivity|by left]. constructor.
  - intros [|[|o]] ins [= <-]; cbn; lia.
  - intros [|[|o1]] [|[|o2]] ? ? [= <-] [= <-]; cbn; done.
  - split; [split|]; reflexivity || discriminate.
  - intros [|i] ins [= <-]. split; [apply NoDup_singleton|]. repeat constructor.
Qed.

Lemma no_zero l : forallb (λ b, negb (b =? 0)) l = true → 0 ∉ l.
Proof. intros Hl Hin. rewrite forallb_forall in Hl. by specialize (Hl 0 (proj1 (list_elem_of_In _ _) Hin)). Qed.

Lemma lx_payload_ok tag : zlen tag <= 1000 → 0 ∉ tag → payload_route_ok lx_config 0 (mk_input 0 [105] true (Some [97]) 1 [] [mk_path 0 (Some 0%nat)]) tag 0 (lx_apply 300000).
Proof.
  intros Hl Ht. constructor; [done|done|done| |by vm_compute]. intros os Hos. apply Forall2_cons_inv_l in Hos as (o & os' & [= <-] & Hos & ->).
  apply Forall2_nil_inv_l in Hos as ->. etrans; [exact Hl|]. by vm_compute.
Qed.

Definition lx_after : core flb_sched := default (core_initial lx_config ex_sched) (lx_run [lx_logs [116] 300000]).

Lemma lx_reaches : core_reaches lx_config lx_storage ix_router lx_regex ex_always ex_sched false 1 lx_after.
Proof.
  split_and!; [apply lx_starts|apply lx_storage_ok| |done].
  apply (core_step _ _ _ _ (core_initial lx_config ex_sched) true 0 (lx_logs [116] 300000) (core_initial lx_config ex_sched)); [constructor| |vm_compute; reflexivity].
  assert (Hio : ∀ a b, 0 <= a → 0 <= b → io_ok lx_storage (ix_io a b)) by (intros; split_and!; cbn; [done|done|intros ? ? [= <- <-]; lia|done]).
  split_and!; [done|by apply Hio|eexists; split; [reflexivity|by apply no_zero]|]. split; [apply lx_labels|].
  apply Forall_singleton. split_and!; [done|by apply Hio|]. eexists. apply lx_payload_ok; [done|by apply no_zero].
Qed.

Lemma payload_routed_exactly_witness : ∃ c',
  route_payload_apply_outputs lx_config lx_storage 0 [114] 0 (lx_apply 300000) lx_after = Some (0, c') ∧
  ∃ a ck, sp_table (c_sp lx_after) !! (0%nat, FLB_INPUT_LOGS, [114]) = Some a ∧ d_chunks (c_d c') !! a = Some ck ∧
    ∀ evc, selected_outputs lx_config ex_always evc ck (mk_input 0 [105] true (Some [97]) 1 [] [mk_path 0 (Some 0%nat)]) = [0%nat].
Proof.
  pose proof (payload_routed_exactly lx_config lx_storage ix_router lx_regex ex_always ex_sched false 1 lx_after 0 _ [114] 0 (lx_apply 300000)
    lx_reaches (lx_payload_ok [114] ltac:(done) ltac:(by apply no_zero)) lx_labels) as Hw. cbv zeta in Hw.
  assert (Htab : ∃ a, sp_table (c_sp lx_after) !! (0%nat, FLB_INPUT_LOGS, [114]) = Some a) by (eexists; vm_compute; reflexivity).
  destruct Htab as [a Htab]. rewrite Htab in Hw. destruct Hw as (ck & ck' & ci & ci' & fs' & c' & _ & _ & Hrun & -> & _ & Hsel & _).
  eexists. split; [exact Hrun|]. exists a, ck'. split; [done|]. split; [apply lookup_insert_eq|]. exact (Hsel eq_refl eq_refl).
Defined.

(** The routes of [LogSplit]: the default route leads to the first output, "taken" to the second and takes both records. *)
Definition wx_input : flb_input_instance := mk_input 0 [105] true (Some [97]) 1 [] [mk_path 0 (Some 1%nat); mk_path 1 (Some 3%nat)].
Definition wx_config : flb_config := mk_config [wx_input] (cf_outputs lx_config) (cf_router lx_config) Sched.ex_cfg false.
Definition wx_answers (_ : nat) : append_io * apply_io := (ix_io 100 100, lx_apply 100).
Definition wx_payloads (bits := λ _ : double, @nil Z) : list (nat * list Z * list Z * Z) :=
  split_spec bits bits ex_ra ex_regex ex_match ex_routes [1%nat; 3%nat] ex_segments.

Lemma wx_starts : starts wx_config ex_sched.
Proof.
  destruct lx_starts as (Hc & ? & ? & ?). split_and!; [|done..]. constructor; [apply Hc|apply Hc|apply Hc|].
  intros [|i] ins [= <-]. split; [apply NoDup_cons; split; [|apply NoDup_singleton]; by intros ?%list_elem_of_singleton|]. repeat constructor.
Qed.
Lemma wx_storage_ok : storage_ok wx_config lx_storage ix_router.
Proof. destruct lx_storage_ok. by constructor. Qed.

Lemma wx_payloads_eq : (λ x, (x.1.1, x.2)) <$> wx_payloads = [(3%nat, text "taken", 2)].
Proof. vm_compute. reflexivity. Qed.

Lemma wx_enabled : core_enabled wx_config lx_storage
  (CoreLogs 0 (Some (answered wx_answers <$> wx_payloads)) (is_conditional <$> ex_routes) 2 (Some [116]) (zlen ex_buffer) (ix_io 100 100))
  (core_initial wx_config ex_sched).
Proof.
  assert (Hio : ∀ a b, 0 <= a → 0 <= b → io_ok lx_storage (ix_io a b)) by (intros; split_and!; cbn; [done|done|intros ? ? [= <- <-]; lia|done]).
  split_and!; [by vm_compute|by apply Hio|eexists; split; [reflexivity|by apply no_zero]|]. split; [apply lx_labels|].
  assert (Hps : ∃ data, wx_payloads = [(3%nat, text "taken", data, 2)]) by (eexists; vm_compute; reflexivity).
  destruct Hps as [data ->]. apply Forall_singleton. split_and!; [apply zlen_nonneg|by apply Hio|]. exists wx_input.
  constructor; [done|done|by apply no_zero| |by vm_compute]. intros os Hos. apply Forall2_cons_inv_l in Hos as (o & os' & [= <-] & Hos & ->).
  apply Forall2_nil_inv_l in Hos as ->. by vm_compute.
Qed.

Lemma input_log_append_refines_witness (bits := λ _ : double, @nil Z) : ∃ ret routes' s' c',
  input_log_append wx_config lx_storage lx_regex bits bits ex_ra ex_regex ex_match ex_unpack (E := log_event_encoder)
    (H1 := log_event_encoder_RecordEncoder bits bits) 0 ex_routes 2 (Some [116]) ex_buffer wx_answers (ix_io 100 100)
    (ex_log, core_initial wx_config ex_sched) = Some ((ret, routes'), (s', c')) ∧
  core_reaches wx_config lx_storage ix_router lx_regex ex_always ex_sched false 1 c' ∧ lg_objects s' = ∅.
Proof.
  destruct (input_log_append_refines wx_config lx_storage ix_router lx_regex ex_always bits bits ex_ra ex_regex ex_match ex_unpack
      (E := log_event_encoder) (H1 := log_event_encoder_RecordEncoder bits bits) ex_sched true 0 (core_initial wx_config ex_sched) 0 wx_input ex_routes 2
      (Some [116]) [] ex_buffer (ex_object <$> ex_buffer) ex_segments wx_answers (ix_io 100 100) ex_log) as (ret & routes' & s' & c' & Hrun & _ & Hr & _ & Ho & _).
  - split_and!; [apply wx_starts|apply wx_storage_ok|constructor|done].
  - done.
  - exact wx_enabled.
  - done.
  - exact ex_unpack_ok.
  - by vm_compute.
  - exact ex_all_objects.
  - exact ex_good_objects.
  - repeat constructor.
  - by vm_compute.
  - exact ex_log_ok.
  - done.
  - done.
  - repeat constructor; discriminate.
  - by vm_compute.
  - by vm_compute.
  - exists ret, routes', s', c'. by split_and!.
Defined.
