(* ===== verification/HashTable.v ===== *)
(** * Hash table ([src/flb_hash_table.c], [include/fluent-bit/flb_hash_table.h])

    Chains of entries in an array, and one list of all entries in the order they were added, which
    the eviction uses.  Entries and value buffers are heap objects: reaching a freed one, freeing
    one twice and reading past a buffer are undefined behaviour.  Keys are the private copies of
    their entries.  The hash function belongs to the CFL library: [cfl_hash_64bits] is a parameter.
    The table implements an association list in the order of insertion ([spec_step]). *)
From S2P Require Import Prelude CStd Env.

Definition FLB_HASH_TABLE_EVICT_NONE : Z := 0.
Definition FLB_HASH_TABLE_EVICT_OLDER : Z := 1.
Definition FLB_HASH_TABLE_EVICT_LESS_USED : Z := 2.
Definition FLB_HASH_TABLE_EVICT_RANDOM : Z := 3.

(** ** Data *)

(** [he_key] is what [entry->key] points to, terminating NUL included; [None] is NULL.  [he_table] is
    the index of the chain. *)
Record flb_hash_table_entry := mk_entry {
  he_created : Z;
  he_hits : Z;
  he_hash : Z;
  he_key : option (list Z);
  he_key_len : Z;
  he_val : option nat;
  he_val_size : Z;
  he_table : Z
}.
Definition set_he_hits (x : Z) (e : flb_hash_table_entry) : flb_hash_table_entry :=
  mk_entry (he_created e) x (he_hash e) (he_key e) (he_key_len e) (he_val e) (he_val_size e) (he_table e).
Definition set_he_val (x : option nat) (e : flb_hash_table_entry) : flb_hash_table_entry :=
  mk_entry (he_created e) (he_hits e) (he_hash e) (he_key e) (he_key_len e) x (he_val_size e) (he_table e).
Definition set_he_value (now : Z) (val : option nat) (size : Z) (e : flb_hash_table_entry) : flb_hash_table_entry :=
  mk_entry now (he_hits e) (he_hash e) (he_key e) (he_key_len e) val size (he_table e).
Definition set_he_table (x : Z) (e : flb_hash_table_entry) : flb_hash_table_entry :=
  mk_entry (he_created e) (he_hits e) (he_hash e) (he_key e) (he_key_len e) (he_val e) (he_val_size e) x.

Record flb_hash_table_chain := mk_chain { hc_count : Z; hc_chains : list nat }.

Record flb_hash_table := mk_ht {
  ht_evict_mode : Z;
  ht_max_entries : Z;
  ht_total_count : Z;
  ht_cache_ttl : Z;
  ht_case_sensitivity : bool;
  ht_size : Z;
  ht_entries : list nat;
  ht_table : list flb_hash_table_chain
}.
Definition set_ht_lists (total : Z) (entries : list nat) (table : list flb_hash_table_chain)
    (h : flb_hash_table) : flb_hash_table :=
  mk_ht (ht_evict_mode h) (ht_max_entries h) total (ht_cache_ttl h) (ht_case_sensitivity h) (ht_size h)
    entries table.
Definition set_ht_cache_ttl (x : Z) (h : flb_hash_table) : flb_hash_table :=
  mk_ht (ht_evict_mode h) (ht_max_entries h) (ht_total_count h) x (ht_case_sensitivity h) (ht_size h)
    (ht_entries h) (ht_table h).
Definition set_ht_case_sensitivity (x : bool) (h : flb_hash_table) : flb_hash_table :=
  mk_ht (ht_evict_mode h) (ht_max_entries h) (ht_total_count h) (ht_cache_ttl h) x (ht_size h)
    (ht_entries h) (ht_table h).

(** The memory the functions work on: the buffers of values, the entries, and one table ([None]
    before it is created and after it is destroyed). *)
Record hstate := mk_hstate {
  h_env : env;
  h_mem : gmap nat (list Z);
  h_entries : gmap nat flb_hash_table_entry;
  h_ht : option flb_hash_table
}.
Definition set_h_env (x : env) (s : hstate) : hstate := mk_hstate x (h_mem s) (h_entries s) (h_ht s).
Definition set_h_mem (x : gmap nat (list Z)) (s : hstate) : hstate :=
  mk_hstate (h_env s) x (h_entries s) (h_ht s).
Definition set_h_entries (x : gmap nat flb_hash_table_entry) (s : hstate) : hstate :=
  mk_hstate (h_env s) (h_mem s) x (h_ht s).
Definition set_h_ht (x : option flb_hash_table) (s : hstate) : hstate :=
  mk_hstate (h_env s) (h_mem s) (h_entries s) x.

#[global] Instance hstate_HasEnv : HasEnv hstate.
Proof. refine {| env_of := h_env; set_env := set_h_env |}; [done|by intros []|done]. Defined.

Definition the_table : M hstate flb_hash_table := s ← get; deref (h_ht s).
Definition store_table (h : flb_hash_table) : M hstate unit := modify (set_h_ht (Some h)).
Definition entry_of (e : nat) : M hstate flb_hash_table_entry := s ← get; deref (h_entries s !! e).
Definition store_entry (e : nat) (en : flb_hash_table_entry) : M hstate unit :=
  modify (λ s, set_h_entries (<[e := en]> (h_entries s)) s).
Definition chain_of (id : Z) : M hstate flb_hash_table_chain := h ← the_table; deref (ht_table h !z id).

(** [free]: NULL is allowed, anything else has to be a live buffer. *)
Definition free (p : option nat) : M hstate unit :=
  match p with
  | None => mret tt
  | Some a => s ← get; _ ← deref (h_mem s !! a); modify (λ s, set_h_mem (delete a (h_mem s)) s)
  end.

(** [random()]: between 0 and RAND_MAX. *)
Definition random : M hstate Z := λ s,
  let e := h_env s in
  match e_rand e with
  | [] => Some (0, s)
  | r :: script => Some (r mod 2 ^ 31, set_h_env (set_e_rand script e) s)
  end.

(** ** Strings *)

(** The first [n] bytes of a buffer. *)
Definition read (buf : list Z) (n : Z) : option (list Z) :=
  if (0 <=? n) && (n <=? zlen buf) then Some (take (Z.to_nat n) buf) else None.

(** [strncmp(s1, s2, n) == 0], or with [tolower] [strncasecmp(s1, s2, n) == 0]. *)
Fixpoint strncmp_eq (fold : Z → Z) (n : nat) (s1 s2 : list Z) : option bool :=
  match n with
  | O => Some true
  | S n' =>
      match s1, s2 with
      | c1 :: s1', c2 :: s2' =>
          if fold c1 =? fold c2 then if c1 =? 0 then Some true else strncmp_eq fold n' s1' s2'
          else Some false
      | _, _ => None
      end
  end.

(** [strcmp(s1, s2) == 0] *)
Fixpoint strcmp_eq (s1 s2 : list Z) : option bool :=
  match s1, s2 with
  | c1 :: s1', c2 :: s2' =>
      if c1 =? c2 then if c1 =? 0 then Some true else strcmp_eq s1' s2' else Some false
  | _, _ => None
  end.

(** [strlen]: the bytes before the NUL. *)
Fixpoint strlen (s : list Z) : option Z :=
  match s with
  | [] => None
  | c :: s' => if c =? 0 then Some 0 else n ← strlen s'; Some (n + 1)
  end.

(** The comparison a table uses, and the form in which it hashes a key. *)
Definition folding (cs : bool) : Z → Z := if cs then id else tolower.

Section operations.
Variable cfl_hash_64bits : list Z → Z.

(** ** Operations *)

(** [flb_hash_table_compute_key_hash]: a caseless key is converted in a local buffer of 64 bytes, or,
    when that is too small, in a heap buffer that is freed again. *)
Definition flb_hash_table_compute_key_hash (key : list Z) (key_len : Z) (case_sensitivity : bool)
    : M hstate (option Z) :=
  k ← deref (read key key_len);
  if negb case_sensitivity then
    if 63 <=? key_len then
      p ← malloc;
      match p with
      | None => mret None
      | Some _ => mret (Some (cfl_hash_64bits (tolower <$> k)))
      end
    else mret (Some (cfl_hash_64bits (tolower <$> k)))
  else mret (Some (cfl_hash_64bits k)).

Definition flb_hash_table_entry_free (e : nat) : M hstate unit :=
  en ← entry_of e;
  chain ← chain_of (he_table en);
  h ← the_table;
  table ← deref (zinsert (he_table en) (mk_chain (hc_count chain - 1) (unlink e (hc_chains chain))) (ht_table h));
  store_table (set_ht_lists (ht_total_count h - 1) (unlink e (ht_entries h)) table h) ≫= λ _,
  when (bool_decide (is_Some (he_val en)) && (0 <? he_val_size en)) (free (he_val en)) ≫= λ _,
  modify (λ s, set_h_entries (delete e (h_entries s)) s).

(** The result is [false] for NULL.  A counter of the loop is an [int]. *)
Definition flb_hash_table_create (evict_mode size max_entries : Z) : M hstate bool :=
  if size <=? 0 then mret false
  else
    p ← malloc;
    match p with
    | None => mret false
    | Some _ =>
        t ← malloc;
        match t with
        | None => mret false
        | Some _ =>
            if INT_MAX <? size then ub
            else
              store_table (mk_ht evict_mode max_entries 0 0 true size []
                             (replicate (Z.to_nat size) (mk_chain 0 []))) ≫= λ _, mret true
        end
    end.

Definition flb_hash_table_create_with_ttl (cache_ttl evict_mode size max_entries : Z) : M hstate bool :=
  ok ← flb_hash_table_create evict_mode size max_entries;
  if (ok : bool) then h ← the_table; store_table (set_ht_cache_ttl cache_ttl h) ≫= λ _, mret true
  else mret false.

Definition flb_hash_table_set_case_sensitivity (status : Z) : M hstate unit :=
  h ← the_table; store_table (set_ht_case_sensitivity (status =? 1) h).

(** The first element of a list for which the test holds. *)
Fixpoint first_entry (test : flb_hash_table_entry → option bool) (l : list nat) : M hstate (option nat) :=
  match l with
  | [] => mret None
  | e :: l' =>
      en ← entry_of e;
      b ← deref (test en);
      if (b : bool) then mret (Some e) else first_entry test l'
  end.

Definition key_matches (cs : bool) (key : list Z) (key_len : Z) (en : flb_hash_table_entry) : option bool :=
  if he_key_len en =? key_len then
    match he_key en with
    | None => None
    | Some k => strncmp_eq (folding cs) (Z.to_nat key_len) k key
    end
  else Some false.

(** The head of a list that has one element, tested. *)
Definition single_entry (test : flb_hash_table_entry → option bool) (l : list nat) : M hstate (option nat) :=
  e ← deref (head l);
  en ← entry_of e;
  b ← deref (test en);
  mret (if (b : bool) then Some e else None).

Definition hash_get_entry (key : option (list Z)) (key_len : Z) : M hstate (option (nat * Z)) :=
  match key with
  | None => mret None
  | Some key =>
      if key_len <=? 0 then mret None
      else
        h ← the_table;
        hash ← flb_hash_table_compute_key_hash key key_len (ht_case_sensitivity h);
        match hash with
        | None => mret None
        | Some hash =>
            let id := i32 (hash mod ht_size h) in
            chain ← chain_of id;
            if hc_count chain =? 0 then mret None
            else
              let test := key_matches (ht_case_sensitivity h) key key_len in
              found ← (if hc_count chain =? 1 then single_entry test (hc_chains chain)
                       else first_entry test (hc_chains chain));
              mret ((λ e, (e, id)) <$> found)
        end
  end.

Definition flb_hash_table_evict_random : M hstate unit :=
  h ← the_table;
  r ← random;
  if ht_total_count h =? 0 then ub
  else
    match ht_entries h !z (Z.rem r (ht_total_count h)) with
    | None => mret tt
    | Some e => flb_hash_table_entry_free e
    end.

Fixpoint less_used (l : list nat) (best : nat) (hits : Z) : M hstate nat :=
  match l with
  | [] => mret best
  | e :: l' =>
      en ← entry_of e;
      if he_hits en <? hits then less_used l' e (he_hits en) else less_used l' best hits
  end.

Definition flb_hash_table_evict_less_used : M hstate unit :=
  h ← the_table;
  match ht_entries h with
  | [] => ub
  | e :: l => en ← entry_of e; best ← less_used l e (he_hits en); flb_hash_table_entry_free best
  end.

Definition flb_hash_table_evict_older : M hstate unit :=
  h ← the_table; e ← deref (head (ht_entries h)); flb_hash_table_entry_free e.

(** [entry_set_value]: [val_size] is a [size_t] here.  When the copy cannot be allocated the old value
    is gone already, and its size is kept. *)
Definition entry_set_value (e : nat) (val : option nat) (val_size : Z) : M hstate Z :=
  en ← entry_of e;
  when (0 <? he_val_size en) (free (he_val en)) ≫= λ _,
  now ← time_now;
  if 0 <? val_size then
    p ← malloc;
    match p with
    | None => store_entry e (set_he_val None en) ≫= λ _, mret (-1)
    | Some a =>
        s ← get;
        v ← deref val;
        buf ← deref (h_mem s !! v);
        bytes ← deref (read buf val_size);
        modify (λ s, set_h_mem (<[a := bytes ++ [0]]> (h_mem s)) s) ≫= λ _,
        store_entry e (set_he_value now (Some a) (i64 val_size) en) ≫= λ _, mret 0
    end
  else store_entry e (set_he_value now val (-1) en) ≫= λ _, mret 0.

(** The part of [flb_hash_table_add] that makes room. *)
Definition check_capacity : M hstate unit :=
  h ← the_table;
  if (0 <? ht_max_entries h) && (ht_max_entries h <=? ht_total_count h) then
    if ht_evict_mode h =? FLB_HASH_TABLE_EVICT_NONE then mret tt
    else if ht_evict_mode h =? FLB_HASH_TABLE_EVICT_OLDER then flb_hash_table_evict_older
    else if ht_evict_mode h =? FLB_HASH_TABLE_EVICT_LESS_USED then flb_hash_table_evict_less_used
    else if ht_evict_mode h =? FLB_HASH_TABLE_EVICT_RANDOM then flb_hash_table_evict_random
    else mret tt
  else mret tt.

(** A NUL-terminated copy of [n] bytes, or NULL. *)
Definition flb_strndup (str : list Z) (n : Z) : M hstate (option (list Z)) :=
  p ← malloc;
  match p with
  | None => mret None
  | Some _ => bytes ← deref (read str n); mret (Some (bytes ++ [0]))
  end.

(** The end of [flb_hash_table_add]: a new entry is linked in its chain and in the list of entries. *)
Definition link_entry (e : nat) (id : Z) : M hstate Z :=
  chain ← chain_of id;
  h ← the_table;
  en ← entry_of e;
  table ← deref (zinsert id (mk_chain (hc_count chain + 1) (hc_chains chain ++ [e])) (ht_table h));
  store_entry e (set_he_table id en) ≫= λ _,
  store_table (set_ht_lists (ht_total_count h + 1) (ht_entries h ++ [e]) table h) ≫= λ _,
  mret id.

(** The part of [flb_hash_table_add] that creates a new entry. *)
Definition add_entry (key : list Z) (key_len : Z) (val : option nat) (val_size : Z) : M hstate Z :=
  h ← the_table;
  hash ← flb_hash_table_compute_key_hash key key_len (ht_case_sensitivity h);
  match hash with
  | None => mret (-1)
  | Some hash =>
      p ← malloc;
      match p with
      | None => mret (-1)
      | Some e =>
          now ← time_now;
          copy ← flb_strndup key key_len;
          store_entry e (mk_entry now 0 hash copy key_len None 0 0) ≫= λ _,
          ret ← entry_set_value e val (u64 val_size);
          if ret =? -1 then modify (λ s, set_h_entries (delete e (h_entries s)) s) ≫= λ _, mret (-1)
          else link_entry e (i32 (hash mod ht_size h))
      end
  end.

Definition flb_hash_table_add (key : option (list Z)) (key_len : Z) (val : option nat) (val_size : Z)
    : M hstate Z :=
  match key with
  | None => mret (-1)
  | Some k =>
      if key_len <=? 0 then mret (-1)
      else
        check_capacity ≫= λ _,
        found ← hash_get_entry key key_len;
        match found with
        | Some (e, id) =>
            ret ← entry_set_value e val (u64 val_size);
            if ret =? -1 then mret (-1) else mret id
        | None => add_entry k key_len val val_size
        end
  end.

(** [Some (val, val_size)] is what the code stores through [out_buf] and [out_size]. *)
Definition flb_hash_table_get (key : option (list Z)) (key_len : Z)
    : M hstate (Z * option (option nat * Z)) :=
  found ← hash_get_entry key key_len;
  match found with
  | None => mret (-1, None)
  | Some (e, id) =>
      h ← the_table;
      en ← entry_of e;
      now ← time_now;
      if (0 <? ht_cache_ttl h) && (he_created en + ht_cache_ttl h <? now) then
        flb_hash_table_entry_free e ≫= λ _, mret (-1, None)
      else
        store_entry e (set_he_hits (u64 (he_hits en + 1)) en) ≫= λ _,
        mret (id, Some (he_val en, u64 (he_val_size en)))
  end.

Definition flb_hash_table_exists (hash : Z) : M hstate Z :=
  h ← the_table;
  chain ← chain_of (i32 (hash mod ht_size h));
  found ← first_entry (λ en, Some (he_hash en =? hash)) (hc_chains chain);
  mret (match found with Some _ => 1 | None => 0 end).

(** A negative [id] is a huge [size_t] in the comparison. *)
Definition flb_hash_table_get_by_id (id : Z) (key : list Z) : M hstate (Z * option (option nat * Z)) :=
  h ← the_table;
  if ht_size h <=? u64 id then mret (-1, None)
  else
    chain ← chain_of id;
    if hc_count chain =? 0 then mret (-1, None)
    else
      found ← (if hc_count chain =? 1 then e ← deref (head (hc_chains chain)); mret (Some e)
               else first_entry (λ en, k ← he_key en; strcmp_eq k key) (hc_chains chain));
      match found with
      | None => mret (-1, None)
      | Some e => en ← entry_of e; mret (0, Some (he_val en, u64 (he_val_size en)))
      end.

Definition flb_hash_table_get_ptr (key : option (list Z)) (key_len : Z) : M hstate (option nat) :=
  found ← hash_get_entry key key_len;
  match found with
  | None => mret None
  | Some (e, _) =>
      en ← entry_of e;
      store_entry e (set_he_hits (u64 (he_hits en + 1)) en) ≫= λ _, mret (he_val en)
  end.

Definition flb_hash_table_del (key : option (list Z)) : M hstate Z :=
  match key with
  | None => mret (-1)
  | Some key =>
      len ← deref (strlen key);
      let len := i32 len in
      if len =? 0 then mret (-1)
      else
        h ← the_table;
        hash ← flb_hash_table_compute_key_hash key (u64 len) (ht_case_sensitivity h);
        match hash with
        | None => mret (-1)
        | Some hash =>
            chain ← chain_of (i32 (hash mod ht_size h));
            let test := key_matches (ht_case_sensitivity h) key len in
            found ← (if hc_count chain =? 1 then single_entry test (hc_chains chain)
                     else first_entry test (hc_chains chain));
            match found with
            | None => mret (-1)
            | Some e => flb_hash_table_entry_free e ≫= λ _, mret 0
            end
        end
  end.

(** The length of the entry's key is not compared here, so that [key] may be a prefix of it. *)
Definition flb_hash_table_del_ptr (key : list Z) (key_len : Z) (ptr : option nat) : M hstate Z :=
  h ← the_table;
  hash ← flb_hash_table_compute_key_hash key (u64 key_len) (ht_case_sensitivity h);
  match hash with
  | None => mret (-1)
  | Some hash =>
      chain ← chain_of (i32 (hash mod ht_size h));
      let test := λ en, k ← he_key en;
        same ← strncmp_eq id (Z.to_nat (u64 key_len)) k key;
        Some (same && bool_decide (he_val en = ptr)) in
      found ← first_entry test (hc_chains chain);
      match found with
      | None => mret (-1)
      | Some e => flb_hash_table_entry_free e ≫= λ _, mret 0
      end
  end.

Definition flb_hash_table_destroy : M hstate unit :=
  h ← the_table;
  foreach (ht_table h) (λ chain, foreach (hc_chains chain) flb_hash_table_entry_free) ≫= λ _,
  modify (set_h_ht None).
End operations.

#[global] Arguments flb_hash_table_add : simpl never.
#[global] Arguments flb_hash_table_get : simpl never.
#[global] Arguments flb_hash_table_get_ptr : simpl never.
#[global] Arguments flb_hash_table_del : simpl never.

(** ** What a table promises: an association list in the order of insertion

    Keys are in the form the table compares them in: folded to lower case when it is caseless. *)

(** A copy of bytes, a pointer the caller looks after, or a value of the given size that could not be
    allocated. *)
Inductive hval := Copy (bytes : list Z) | Ref (p : option nat) | Gone (size : Z).

Record item := mk_item { it_key : list Z; it_val : hval; it_hits : Z; it_created : Z }.
Definition set_it_hits (x : Z) (i : item) : item := mk_item (it_key i) (it_val i) x (it_created i).
Definition set_it_value (now : Z) (v : hval) (i : item) : item := mk_item (it_key i) v (it_hits i) now.

Definition has_key (k : list Z) (i : item) : Prop := it_key i = k.
#[global] Instance has_key_dec k i : Decision (has_key k i).
Proof. unfold has_key. apply _. Defined.

Definition spec_find (k : list Z) (l : list item) : option item := head (filter (has_key k) l).
Definition spec_del (k : list Z) (l : list item) : list item := filter (λ i, ¬ has_key k i) l.
Definition spec_update (k : list Z) (f : item → item) (l : list item) : list item :=
  (λ i, if decide (has_key k i) then f i else i) <$> l.
Definition spec_put (now : Z) (k : list Z) (v : hval) (l : list item) : list item :=
  match spec_find k l with
  | Some _ => spec_update k (set_it_value now v) l
  | None => l ++ [mk_item k v 0 now]
  end.

(** The oldest of the items with the fewest hits. *)
Fixpoint least_used (l : list item) (best : item) : item :=
  match l with
  | [] => best
  | i :: l' => least_used l' (if it_hits i <? it_hits best then i else best)
  end.
Definition spec_victim (mode rnd : Z) (l : list item) : option item :=
  if mode =? FLB_HASH_TABLE_EVICT_OLDER then head l
  else if mode =? FLB_HASH_TABLE_EVICT_LESS_USED then
    match l with [] => None | i :: l' => Some (least_used l' i) end
  else if mode =? FLB_HASH_TABLE_EVICT_RANDOM then l !z (Z.rem rnd (zlen l))
  else None.
Definition spec_evict (mode max rnd : Z) (l : list item) : list item :=
  if (0 <? max) && (max <=? zlen l) then
    match spec_victim mode rnd l with None => l | Some i => spec_del (it_key i) l end
  else l.

Definition expired (ttl now : Z) (i : item) : bool := (0 <? ttl) && (it_created i + ttl <? now).
Definition spec_get (ttl now : Z) (k : list Z) (l : list item) : option hval * list item :=
  match spec_find k l with
  | None => (None, l)
  | Some i =>
      if expired ttl now i then (None, spec_del k l)
      else (Some (it_val i), spec_update k (λ i, set_it_hits (u64 (it_hits i + 1)) i) l)
  end.

(** How the memory represents the association list. *)
Definition entry_key (cs : bool) (en : flb_hash_table_entry) : list Z :=
  folding cs <$> take (Z.to_nat (he_key_len en)) (default [] (he_key en)).
Definition value_of (mem : gmap nat (list Z)) (p : option nat) (size : Z) : hval :=
  if 0 <? size then
    match p with
    | None => Gone size
    | Some a => Copy (take (Z.to_nat size) (default [] (mem !! a)))
    end
  else Ref p.
Definition item_of (cs : bool) (mem : gmap nat (list Z)) (en : flb_hash_table_entry) : item :=
  mk_item (entry_key cs en) (value_of mem (he_val en) (he_val_size en)) (he_hits en) (he_created en).
Definition items (s : hstate) (h : flb_hash_table) : list item :=
  omap (λ e, item_of (ht_case_sensitivity h) (h_mem s) <$> h_entries s !! e) (ht_entries h).

(** ** Well-formed tables

    [ext] is the memory of the callers: what the table owns is disjoint from it. *)
Definition owned (en : flb_hash_table_entry) : option nat :=
  if 0 <? he_val_size en then he_val en else None.

Section wf.
Variable cfl_hash_64bits : list Z → Z.

Definition bucket (h : flb_hash_table) (k : list Z) : Z := i32 (cfl_hash_64bits k mod ht_size h).

Record entry_ok (h : flb_hash_table) (en : flb_hash_table_entry) : Prop := {
  eo_key : ∃ k, he_key en = Some (k ++ [0]) ∧ he_key_len en = zlen k ∧ k ≠ [] ∧ 0 ∉ k;
  eo_hash : he_hash en = cfl_hash_64bits (entry_key (ht_case_sensitivity h) en);
  eo_table : he_table en = bucket h (entry_key (ht_case_sensitivity h) en);
  eo_size : he_val_size en = -1 ∨ 0 < he_val_size en < 2 ^ 63
}.

Record chain_ok (s : hstate) (id : Z) (c : flb_hash_table_chain) : Prop := {
  co_count : hc_count c = zlen (hc_chains c);
  co_nodup : NoDup (hc_chains c);
  co_elem : ∀ e, e ∈ hc_chains c ↔ ∃ en, h_entries s !! e = Some en ∧ he_table en = id
}.

Record ht_wf (ext : gmap nat (list Z)) (s : hstate) (h : flb_hash_table) : Prop := {
  w_ht : h_ht s = Some h;
  w_size : 0 < ht_size h <= INT_MAX;
  w_len : zlen (ht_table h) = ht_size h;
  w_nodup : NoDup (ht_entries h);
  w_entries : ∀ e, e ∈ ht_entries h ↔ is_Some (h_entries s !! e);
  w_total : ht_total_count h = zlen (ht_entries h);
  w_chain : ∀ id c, ht_table h !z id = Some c → chain_ok s id c;
  w_entry : ∀ e en, h_entries s !! e = Some en → entry_ok h en;
  w_keys : ∀ e1 e2 en1 en2, h_entries s !! e1 = Some en1 → h_entries s !! e2 = Some en2 →
    entry_key (ht_case_sensitivity h) en1 = entry_key (ht_case_sensitivity h) en2 → e1 = e2;
  w_ext : ext ⊆ h_mem s;
  w_owned : ∀ e en a, h_entries s !! e = Some en → owned en = Some a →
    ext !! a = None ∧ ∃ b, h_mem s !! a = Some (b ++ [0]) ∧ zlen b = he_val_size en;
  w_owned_inj : ∀ e1 e2 en1 en2 a, h_entries s !! e1 = Some en1 → h_entries s !! e2 = Some en2 →
    owned en1 = Some a → owned en2 = Some a → e1 = e2;
  w_noleak : ∀ a b, h_mem s !! a = Some b →
    ext !! a = Some b ∨ ∃ e en, h_entries s !! e = Some en ∧ owned en = Some a;
  w_fresh : ∀ a, (e_next (h_env s) <= a)%nat → h_mem s !! a = None ∧ h_entries s !! a = None
}.
End wf.

(** ** Strings *)

Lemma read_spec buf n k : read buf n = Some k → 0 <= n <= zlen buf ∧ k = take (Z.to_nat n) buf ∧ zlen k = n.
Proof.
  unfold read. destruct ((0 <=? n) && (n <=? zlen buf)) eqn:H; intros [= <-]. bool_prop.
  split_and!; try done. unfold zlen in *. rewrite length_take. lia.
Qed.

Lemma tolower_zero c : tolower c = 0 ↔ c = 0.
Proof. unfold tolower. destruct ((65 <=? c) && (c <=? 90)) eqn:H; bool_prop; lia. Qed.
Lemma folding_zero cs c : folding cs c = 0 ↔ c = 0.
Proof. destruct cs; [done|apply tolower_zero]. Qed.

(** Comparing a stored key of [n] bytes, none of them NUL, with [n] bytes of the caller. *)
Lemma strncmp_eq_spec cs n k k2 tail1 :
  length k = n → (n <= length k2)%nat → 0 ∉ k →
  strncmp_eq (folding cs) n (k ++ tail1) k2 = Some (bool_decide (folding cs <$> k = folding cs <$> take n k2)).
Proof.
  revert k k2. induction n as [|n IH]; intros [|c1 k] [|c2 k2] Hl Hl2 H0; try discriminate Hl; cbn in Hl2; try lia.
  { done. }
  { done. }
  cbn. apply not_elem_of_cons in H0 as [Hc H0].
  destruct (Z.eqb_spec (folding cs c1) (folding cs c2)) as [He|He].
  - destruct (Z.eqb_spec c1 0); [congruence|]. rewrite IH; [|by injection Hl|lia|done].
    f_equal. apply bool_decide_ext. split; [congruence|]. by intros [= _ ?].
  - rewrite bool_decide_eq_false_2; [done|]. by intros [= ? _].
Qed.

Lemma strlen_spec k rest : 0 ∉ k → strlen (k ++ 0 :: rest) = Some (zlen k).
Proof.
  induction k as [|c k IH]; [done|]. intros [Hc H0]%not_elem_of_cons. cbn.
  destruct (Z.eqb_spec c 0); [congruence|]. rewrite IH by done. cbn. by rewrite zlen_cons.
Qed.

Section theory.
Variable cfl_hash_64bits : list Z → Z.
Variable ext : gmap nat (list Z).
#[local] Abbreviation wf := (ht_wf cfl_hash_64bits ext).

Lemma bucket_range h k : 0 < ht_size h <= INT_MAX → 0 <= bucket cfl_hash_64bits h k < ht_size h.
Proof.
  intros Hs. unfold bucket, i32, INT_MAX in *. pose proof (Z.mod_pos_bound (cfl_hash_64bits k) (ht_size h)).
  rewrite Z.mod_small; lia.
Qed.

Lemma the_table_run s h : h_ht s = Some h → the_table s = Some (h, s).
Proof. intros Hh. unfold the_table, deref. mrun. by rewrite Hh. Qed.
Lemma entry_of_run s e en : h_entries s !! e = Some en → entry_of e s = Some (en, s).
Proof. intros He. unfold entry_of, deref. mrun. by rewrite He. Qed.
Lemma chain_of_run s h id c : h_ht s = Some h → ht_table h !z id = Some c → chain_of id s = Some (c, s).
Proof.
  intros Hh Hc. unfold chain_of, deref. mrun. rewrite (the_table_run s h Hh). by rewrite Hc.
Qed.

(** Only the environment has moved. *)
Definition moved (s s' : hstate) : Prop := ∃ e', s' = set_h_env e' s ∧ env_le (h_env s) e'.

Lemma moved_refl s : moved s s.
Proof. exists (h_env s). split; [by destruct s|done]. Qed.

Lemma wf_moved s s' h : wf s h → moved s s' → wf s' h.
Proof.
  intros [] (e' & -> & [Hn _ _ _ _]). constructor; cbn in *; try done.
  - intros id c Hc. by destruct (w_chain0 id c Hc).
  - intros a Ha. apply w_fresh0. lia.
Qed.
Lemma items_moved s s' h : moved s s' → items s' h = items s h.
Proof. by intros (e' & -> & _). Qed.
Lemma moved_now s s' : moved s s' → e_now (h_env s') = e_now (h_env s) ∧ (calm (h_env s) → calm (h_env s')).
Proof. intros (e' & -> & Hle). split; [by apply Hle|]. by apply calm_le. Qed.

Lemma entry_at_chain s h e en :
  wf s h → h_entries s !! e = Some en → ∃ c, ht_table h !z he_table en = Some c ∧ e ∈ hc_chains c.
Proof.
  intros W He. destruct (w_entry _ _ _ _ W e en He) as [_ _ Ht _].
  pose proof (bucket_range h (entry_key (ht_case_sensitivity h) en) (w_size _ _ _ _ W)) as Hb.
  rewrite <- Ht in Hb. rewrite <- (w_len _ _ _ _ W) in Hb.
  destruct (zlookup_is_Some (ht_table h) (he_table en) Hb) as [c Hc]. exists c. split; [done|].
  apply (co_elem _ _ _ (w_chain _ _ _ _ W _ _ Hc)). eauto.
Qed.

(** What is left when an entry is freed. *)
Definition without (e : nat) (en : flb_hash_table_entry) (c : flb_hash_table_chain) (s : hstate)
    (h : flb_hash_table) : hstate * flb_hash_table :=
  let h' := set_ht_lists (ht_total_count h - 1) (unlink e (ht_entries h))
    (<[Z.to_nat (he_table en) := mk_chain (hc_count c - 1) (unlink e (hc_chains c))]> (ht_table h)) h in
  (mk_hstate (h_env s) (match owned en with Some a => delete a (h_mem s) | None => h_mem s end)
     (delete e (h_entries s)) (Some h'), h').

Lemma entry_free_run s h e en c :
  wf s h → h_entries s !! e = Some en → ht_table h !z he_table en = Some c →
  flb_hash_table_entry_free e s = Some (tt, (without e en c s h).1).
Proof.
  intros W He Hc. pose proof (w_ht _ _ _ _ W) as Hh. apply zlookup_Some in Hc as Hr.
  unfold flb_hash_table_entry_free. unfold mbind at 1, M_bind at 1. rewrite (entry_of_run s e en He).
  unfold mbind at 1, M_bind at 1. rewrite (chain_of_run s h _ c Hh Hc).
  unfold mbind at 1, M_bind at 1. rewrite (the_table_run s h Hh).
  rewrite zinsert_Some by lia. unfold deref, store_table, free, owned, without. mrun.
  pose proof (w_owned _ _ _ _ W e en) as Ho. unfold owned in *.
  destruct (0 <? he_val_size en); [|rewrite andb_false_r; by destruct s].
  destruct (he_val en) as [a|]; cbn; [|by destruct s].
  destruct (Ho a He eq_refl) as (_ & b & Hb & _). cbn. by rewrite Hb.
Qed.

Lemma items_unlink (f f' : nat → option item) e k l :
  (∀ x, x ∈ l → x ≠ e → f' x = f x ∧ ∀ i, f x = Some i → ¬ has_key k i) →
  (∀ i, f e = Some i → has_key k i) →
  omap f' (unlink e l) = spec_del k (omap f l).
Proof.
  intros Hne He. unfold spec_del. induction l as [|x l IH]; [done|].
  assert (IH' : omap f' (unlink e l) = filter (λ i, ¬ has_key k i) (omap f l)).
  { apply IH. intros y Hy. apply Hne. by right. }
  unfold unlink in *. destruct (decide (x = e)) as [->|Hx].
  - rewrite filter_cons_False by naive_solver. cbn. destruct (f e) eqn:Hf; [|done].
    rewrite filter_cons_False; [done|]. intros Hn. by apply Hn, He.
  - rewrite filter_cons_True by done. cbn. destruct (Hne x) as [-> Hk]; [by left|done|].
    destruct (f x) as [i|]; [|done]. rewrite filter_cons_True by by apply Hk. by rewrite IH'.
Qed.

Lemma item_of_mem cs mem mem' en :
  (∀ a, owned en = Some a → mem' !! a = mem !! a) → item_of cs mem' en = item_of cs mem en.
Proof.
  intros Ha. unfold item_of, value_of. unfold owned in Ha. f_equal.
  destruct (0 <? he_val_size en); [|done]. destruct (he_val en) as [a|]; [|done]. by rewrite Ha.
Qed.

Lemma zlen_unlink e l : NoDup l → e ∈ l → zlen (unlink e l) = zlen l - 1.
Proof.
  intros Hn He. pose proof (Permutation_length (unlink_Permutation e l Hn He)) as Hp. cbn in Hp.
  unfold zlen. lia.
Qed.

Lemma chain_ok_without s id c e en s' :
  NoDup (hc_chains c) → chain_ok s id c → h_entries s !! e = Some en → h_entries s' = delete e (h_entries s) →
  chain_ok s' id (if decide (he_table en = id) then mk_chain (hc_count c - 1) (unlink e (hc_chains c)) else c).
Proof.
  intros Hn [Hc _ Hm] He Hs'.
  assert (Hm' : ∀ x, (∃ en', h_entries s' !! x = Some en' ∧ he_table en' = id) ↔ x ≠ e ∧ x ∈ hc_chains c).
  { intros x. rewrite Hs', Hm. split.
    - intros (en' & [? ?]%lookup_delete_Some & ?). split; eauto.
    - intros (? & en' & ? & ?). exists en'. by rewrite lookup_delete_ne. }
  destruct (decide (he_table en = id)) as [Hid|Hid]; constructor; cbn; try done.
  - rewrite zlen_unlink; [by rewrite Hc|done|]. apply Hm. eauto.
  - by apply NoDup_unlink.
  - intros x. by rewrite Hm', elem_of_unlink.
  - intros x. rewrite Hm'. split; [|by intros []]. intros Hx. split; [|done]. intros ->.
    apply Hm in Hx as (? & ? & ?). congruence.
Qed.

Lemma without_wf s h e en c :
  wf s h → h_entries s !! e = Some en → ht_table h !z he_table en = Some c →
  wf (without e en c s h).1 (without e en c s h).2.
Proof.
  intros W He Hc. apply zlookup_Some in Hc as Hr.
  assert (Hsub : ∀ x en', (delete e (h_entries s)) !! x = Some en' → x ≠ e ∧ h_entries s !! x = Some en').
  { intros x en' [? ?]%lookup_delete_Some. split; [congruence|done]. }
  assert (Hin : e ∈ ht_entries h) by (apply (w_entries _ _ _ _ W); eauto).
  pose proof (w_owned_inj _ _ _ _ W) as Hinj.
  destruct W; constructor; unfold without; cbn; try done.
  - by rewrite zlen_insert.
  - by apply NoDup_unlink.
  - intros x. rewrite elem_of_unlink, w_entries0. destruct (decide (x = e)) as [->|].
    + rewrite lookup_delete_eq, is_Some_alt. naive_solver.
    + rewrite lookup_delete_ne by done. naive_solver.
  - by rewrite zlen_unlink, w_total0.
  - intros id c' Hc'. destruct (decide (he_table en = id)) as [Hid|Hid].
    + subst id. rewrite zlookup_insert_eq in Hc' by lia. injection Hc' as <-.
      pose proof (chain_ok_without s _ c e en (without e en c s h).1 (co_nodup _ _ _ (w_chain0 _ _ Hc))
        (w_chain0 _ _ Hc) He eq_refl) as Hok.
      by rewrite decide_True in Hok.
    + rewrite zlookup_insert_ne in Hc' by lia.
      pose proof (chain_ok_without s _ c' e en (without e en c s h).1 (co_nodup _ _ _ (w_chain0 _ _ Hc'))
        (w_chain0 _ _ Hc') He eq_refl) as Hok.
      by rewrite decide_False in Hok.
  - intros x en' [? Hx]%Hsub. destruct (w_entry0 x en' Hx). by constructor.
  - intros x1 x2 en1 en2 [? H1]%Hsub [? H2]%Hsub. by apply w_keys0.
  - destruct (owned en) as [a|] eqn:Ha; [|done]. destruct (w_owned0 e en a He Ha) as [Hn _].
    apply map_subseteq_spec. intros x b Hx. rewrite lookup_delete_ne by congruence.
    by eapply lookup_weaken.
  - intros x en' a' [Hx Hen]%Hsub Ha'. destruct (w_owned0 x en' a' Hen Ha') as [Hn Hb]. split; [done|].
    destruct (owned en) as [a|] eqn:Ha; [|done]. rewrite lookup_delete_ne; [done|]. intros ->.
    apply Hx. by eapply Hinj.
  - intros x1 x2 en1 en2 a [? H1]%Hsub [? H2]%Hsub. by apply w_owned_inj0.
  - intros a b Hab. assert (Hold : h_mem s !! a = Some b ∧ owned en ≠ Some a).
    { destruct (owned en) as [a'|]; [|done]. apply lookup_delete_Some in Hab as [? ?]. split; [done|congruence]. }
    destruct Hold as [Hold Hne]. destruct (w_noleak0 a b Hold) as [?|(x & en' & Hx & Hox)]; [by left|right].
    exists x, en'. split; [|done]. rewrite lookup_delete_ne; [done|]. congruence.
  - intros a Ha. destruct (w_fresh0 a Ha) as [Hm Hent]. split.
    + destruct (owned en); [by apply lookup_delete_None; right|done].
    + apply lookup_delete_None. by right.
Qed.

Lemma items_without s h e en c :
  wf s h → h_entries s !! e = Some en →
  items (without e en c s h).1 (without e en c s h).2 =
    spec_del (entry_key (ht_case_sensitivity h) en) (items s h).
Proof.
  intros W He. unfold items, without. cbn. apply items_unlink.
  - intros x Hx Hne. rewrite lookup_delete_ne by done.
    apply (w_entries _ _ _ _ W) in Hx as [en' Hen]. rewrite Hen. cbn. split.
    + f_equal. apply item_of_mem. intros a Ha. destruct (owned en) as [a'|] eqn:Ha'; [|done].
      rewrite lookup_delete_ne; [done|]. intros ->. apply Hne. by eapply (w_owned_inj _ _ _ _ W).
    + intros i [= <-] Hk. apply Hne. eapply (w_keys _ _ _ _ W); [done|done|]. exact Hk.
  - rewrite He. by intros i [= <-].
Qed.

Definition same_limits (h h' : flb_hash_table) : Prop :=
  ht_evict_mode h' = ht_evict_mode h ∧ ht_max_entries h' = ht_max_entries h ∧ ht_cache_ttl h' = ht_cache_ttl h ∧
  ht_case_sensitivity h' = ht_case_sensitivity h ∧ ht_size h' = ht_size h.

(** Freeing an entry removes its item. *)
Lemma entry_free_spec s h e en :
  wf s h → h_entries s !! e = Some en →
  ∃ s' h', flb_hash_table_entry_free e s = Some (tt, s') ∧ wf s' h' ∧ h_env s' = h_env s ∧ same_limits h h' ∧
    items s' h' = spec_del (entry_key (ht_case_sensitivity h) en) (items s h).
Proof.
  intros W He. destruct (entry_at_chain s h e en W He) as (c & Hc & _).
  exists (without e en c s h).1, (without e en c s h).2. split_and!.
  - by apply entry_free_run.
  - by apply without_wf.
  - done.
  - done.
  - by apply items_without.
Qed.

(** ** Looking up *)

Lemma key_matches_spec h en key key_len k :
  entry_ok cfl_hash_64bits h en → read key key_len = Some k →
  key_matches (ht_case_sensitivity h) key key_len en =
    Some (bool_decide (entry_key (ht_case_sensitivity h) en = folding (ht_case_sensitivity h) <$> k)).
Proof.
  intros [(k' & Hk' & Hlen & Hne & H0) _ _ _] Hr. apply read_spec in Hr as (Hn & Hk & Hl).
  unfold key_matches, entry_key. rewrite Hk', Hlen. cbn.
  assert (Htake : take (Z.to_nat (zlen k')) (k' ++ [0]) = k').
  { unfold zlen. by rewrite Nat2Z.id, take_app_length. }
  rewrite Htake. destruct (Z.eqb_spec (zlen k') key_len) as [He|He].
  - rewrite strncmp_eq_spec; [by rewrite <- Hk| | |done]; unfold zlen in *; lia.
  - rewrite bool_decide_eq_false_2; [done|]. intros Heq. apply He. apply (f_equal length) in Heq.
    rewrite !length_fmap in Heq. unfold zlen in *. lia.
Qed.

Lemma first_entry_spec test (P : flb_hash_table_entry → Prop) `{∀ en, Decision (P en)} s l :
  (∀ e, e ∈ l → ∃ en, h_entries s !! e = Some en ∧ test en = Some (bool_decide (P en))) →
  ∃ found, first_entry test l s = Some (found, s) ∧
    match found with
    | Some e => e ∈ l ∧ ∃ en, h_entries s !! e = Some en ∧ P en
    | None => ∀ e en, e ∈ l → h_entries s !! e = Some en → ¬ P en
    end.
Proof.
  induction l as [|e l IH]; intros Hl.
  { exists None. split; [done|]. intros e en He. by apply not_elem_of_nil in He. }
  destruct (Hl e ltac:(by left)) as (en & He & Ht).
  cbn. mrun. rewrite (entry_of_run s e en He). unfold deref. rewrite Ht.
  case_bool_decide as HP.
  - exists (Some e). split; [done|]. split; [by left|eauto].
  - destruct IH as (found & -> & Hf); [intros x Hx; apply Hl; by right|]. exists found. split; [done|].
    destruct found as [x|]; [destruct Hf as [? ?]; split; [by right|done]|].
    intros x enx [->|Hx]%elem_of_cons Hex; [congruence|by apply (Hf x)].
Qed.

(** Searching a chain of one element and of several is the same. *)
Definition search (chain : flb_hash_table_chain) (test : flb_hash_table_entry → option bool)
    : M hstate (option nat) :=
  if hc_count chain =? 1 then single_entry test (hc_chains chain) else first_entry test (hc_chains chain).

Definition found_at (s : hstate) (h : flb_hash_table) (k : list Z) (found : option nat) : Prop :=
  match found with
  | Some e => ∃ en, h_entries s !! e = Some en ∧ entry_key (ht_case_sensitivity h) en = k
  | None => ∀ e en, h_entries s !! e = Some en → entry_key (ht_case_sensitivity h) en ≠ k
  end.

Lemma search_first chain test s found :
  hc_count chain = zlen (hc_chains chain) → first_entry test (hc_chains chain) s = Some (found, s) →
  search chain test s = Some (found, s).
Proof.
  intros Hc Hf. unfold search. destruct (Z.eqb_spec (hc_count chain) 1) as [H1|]; [|done].
  destruct (hc_chains chain) as [|e [|e' l]]; [by rewrite Hc in H1| |rewrite Hc, !zlen_cons in H1; pose proof (zlen_nonneg l); lia].
  cbn in *. revert Hf. unfold single_entry. mrun. cbn. destruct (entry_of e s) as [[en s1]|]; [|done].
  unfold deref. destruct (test en) as [[]|]; done.
Qed.

Lemma search_spec s h k key key_len c :
  wf s h → read key key_len = Some k →
  ht_table h !z bucket cfl_hash_64bits h (folding (ht_case_sensitivity h) <$> k) = Some c →
  ∃ found, search c (key_matches (ht_case_sensitivity h) key key_len) s = Some (found, s) ∧
    found_at s h (folding (ht_case_sensitivity h) <$> k) found.
Proof.
  intros W Hr Hc. destruct (w_chain _ _ _ _ W _ _ Hc) as [Hcount _ Hel].
  destruct (first_entry_spec (key_matches (ht_case_sensitivity h) key key_len)
    (λ en, entry_key (ht_case_sensitivity h) en = folding (ht_case_sensitivity h) <$> k) s (hc_chains c))
    as (found & Hrun & Hf).
  { intros e He. apply Hel in He as (en & He & _). exists en. split; [done|].
    apply key_matches_spec; [|done]. by eapply (w_entry _ _ _ _ W). }
  exists found. split; [by apply search_first|]. destruct found as [e|]; [by destruct Hf|].
  intros e en He Hk. apply (Hf e en); [|done|done]. apply Hel. exists en. split; [done|].
  rewrite <- Hk. by apply (w_entry _ _ _ _ W e en).
Qed.

Lemma compute_hash_spec s key key_len k cs :
  calm (h_env s) → read key key_len = Some k →
  ∃ s', flb_hash_table_compute_key_hash cfl_hash_64bits key key_len cs s =
    Some (Some (cfl_hash_64bits (folding cs <$> k)), s') ∧ moved s s'.
Proof.
  intros [Ha Hs] Hr. unfold flb_hash_table_compute_key_hash, deref. mrun. rewrite Hr. destruct cs; cbn.
  { exists s. split; [|apply moved_refl]. by rewrite list_fmap_id. }
  destruct (63 <=? key_len); [|exists s; split; [done|apply moved_refl]].
  unfold malloc. cbn. rewrite Ha. eexists. split; [done|]. eexists. split; [reflexivity|].
  constructor; cbn; try done; [lia|by rewrite Ha].
Qed.

Lemma hash_get_entry_spec s h key key_len k :
  wf s h → calm (h_env s) → read key key_len = Some k → 0 < key_len →
  ∃ found s', hash_get_entry cfl_hash_64bits (Some key) key_len s =
      Some ((λ e, (e, bucket cfl_hash_64bits h (folding (ht_case_sensitivity h) <$> k))) <$> found, s') ∧
    moved s s' ∧ found_at s h (folding (ht_case_sensitivity h) <$> k) found.
Proof.
  intros W Hc Hr Hpos. unfold hash_get_entry. destruct (Z.leb_spec key_len 0); [lia|].
  unfold mbind at 1, M_bind at 1. rewrite (the_table_run s h (w_ht _ _ _ _ W)).
  destruct (compute_hash_spec s key key_len k (ht_case_sensitivity h) Hc Hr) as (s1 & Hrun & Hm).
  unfold mbind at 1, M_bind at 1. rewrite Hrun.
  pose proof (wf_moved _ _ _ W Hm) as W1. set (k' := folding _ <$> k) in *.
  pose proof (bucket_range h k' (w_size _ _ _ _ W)) as Hb.
  rewrite <- (w_len _ _ _ _ W) in Hb. destruct (zlookup_is_Some _ _ Hb) as [c Hch].
  fold (bucket cfl_hash_64bits h k').
  unfold mbind at 1, M_bind at 1. rewrite (chain_of_run s1 h _ c (w_ht _ _ _ _ W1) Hch).
  destruct (search_spec s1 h k key key_len c W1 Hr Hch) as (found & Hse & Hf).
  assert (Hf' : found_at s h k' found).
  { destruct Hm as (e' & -> & _). exact Hf. }
  destruct (Z.eqb_spec (hc_count c) 0) as [H0|H0].
  - exists None, s1. split_and!; [done|done|]. destruct found as [e|]; [|done].
    destruct Hf as (en & He & Hk). destruct (w_chain _ _ _ _ W1 _ _ Hch) as [Hcount _ Hel].
    rewrite H0 in Hcount. symmetry in Hcount. apply Z.eq_le_incl, zlen_nil_inv in Hcount.
    exfalso. eapply not_elem_of_nil. rewrite <- Hcount. apply Hel. exists en. split; [done|].
    unfold k' in *. rewrite <- Hk. by apply (w_entry _ _ _ _ W1 e en).
  - exists found, s1. split_and!; [|done|done]. unfold mbind at 1, M_bind at 1. 
    fold (search c (key_matches (ht_case_sensitivity h) key key_len)).
    by rewrite Hse.
Qed.

(** ** Entries and items *)

Lemma filter_none {A} (P : A → Prop) `{∀ x, Decision (P x)} (l : list A) : (∀ x, x ∈ l → ¬ P x) → filter P l = [].
Proof.
  induction l as [|x l IH]; intros Hl; [done|]. rewrite filter_cons_False by (apply Hl; by left).
  apply IH. intros y Hy. apply Hl. by right.
Qed.

Lemma filter_all {A} (P : A → Prop) `{∀ x, Decision (P x)} (l : list A) : (∀ x, x ∈ l → P x) → filter P l = l.
Proof.
  induction l as [|x l IH]; intros Hl; [done|]. rewrite filter_cons_True by (apply Hl; by left).
  f_equal. apply IH. intros y Hy. apply Hl. by right.
Qed.

Lemma omap_one (f : nat → option item) e i l :
  NoDup l → e ∈ l → f e = Some i →
  (∀ x j, x ∈ l → x ≠ e → f x = Some j → ¬ has_key (it_key i) j) →
  filter (has_key (it_key i)) (omap f l) = [i].
Proof.
  induction l as [|x l IH]; [by intros _ ?%not_elem_of_nil|].
  intros [Hx Hnd]%NoDup_cons He Hf Hne.
  assert (Hrest : x = e → filter (has_key (it_key i)) (omap f l) = []).
  { intros ->. apply filter_none. intros j (y & Hy & Hj)%list_elem_of_omap.
    apply (Hne y); [by right|by intros ->|done]. }
  cbn. destruct (decide (x = e)) as [->|Hxe].
  - rewrite Hf. rewrite filter_cons_True by done. by rewrite Hrest.
  - apply elem_of_cons in He as [->|He]; [done|].
    assert (IH' : filter (has_key (it_key i)) (omap f l) = [i]).
    { apply IH; [done|done|done|]. intros z j Hz. apply Hne. by right. }
    destruct (f x) as [j|] eqn:Hj; [|done]. rewrite filter_cons_False; [done|].
    apply (Hne x); [by left|done|done].
Qed.

Lemma find_present s h e en :
  wf s h → h_entries s !! e = Some en →
  spec_find (entry_key (ht_case_sensitivity h) en) (items s h) =
    Some (item_of (ht_case_sensitivity h) (h_mem s) en).
Proof.
  intros W He. unfold spec_find, items.
  rewrite (omap_one _ e (item_of (ht_case_sensitivity h) (h_mem s) en)); [done| | | |].
  - apply (w_nodup _ _ _ _ W).
  - apply (w_entries _ _ _ _ W). eauto.
  - by rewrite He.
  - intros x j _ Hx Hj Hk. destruct (h_entries s !! x) as [enx|] eqn:Hex; [|done]. injection Hj as <-.
    apply Hx. by eapply (w_keys _ _ _ _ W).
Qed.

Lemma find_absent s h k : found_at s h k None → spec_find k (items s h) = None.
Proof.
  intros Hn. unfold spec_find. rewrite filter_none; [done|]. intros i (e & _ & Hi)%list_elem_of_omap Hk.
  destruct (h_entries s !! e) as [en|] eqn:He; [|done]. injection Hi as <-. by apply (Hn e en).
Qed.

Lemma zlen_items s h : wf s h → zlen (items s h) = ht_total_count h.
Proof.
  intros W. rewrite (w_total _ _ _ _ W). unfold items.
  assert (Hl : ∀ e, e ∈ ht_entries h → is_Some (h_entries s !! e)) by apply (w_entries _ _ _ _ W).
  induction (ht_entries h) as [|e l IH]; [done|]. cbn.
  destruct (Hl e ltac:(by left)) as [en ->]. cbn. rewrite !zlen_cons, IH; [done|].
  intros x Hx. apply Hl. by right.
Qed.

Lemma omap_update (f f' : nat → option item) e k g l :
  (∀ x, x ∈ l → x ≠ e → f' x = f x ∧ ∀ i, f x = Some i → ¬ has_key k i) →
  (∀ i, f e = Some i → has_key k i) → f' e = g <$> f e →
  omap f' l = spec_update k g (omap f l).
Proof.
  intros Hne He Hg. unfold spec_update. induction l as [|x l IH]; [done|].
  assert (IH' := IH ltac:(intros y Hy; apply Hne; by right)). cbn.
  destruct (decide (x = e)) as [->|Hx].
  - rewrite Hg. destruct (f e) as [i|]; [|done]. cbn. rewrite decide_True by by apply He. by rewrite IH'.
  - destruct (Hne x) as [-> Hk]; [by left|done|]. destruct (f x) as [i|]; [|done]. cbn.
    rewrite decide_False by by apply Hk. by rewrite IH'.
Qed.

(** ** Changing the value of an entry, adding an entry *)

(** The memory changes by what the entry owned before and what it owns now. *)
Record value_change (s : hstate) (en en' : flb_hash_table_entry) (mem' : gmap nat (list Z)) (env' : env) : Prop := {
  vc_size : he_val_size en' = -1 ∨ 0 < he_val_size en' < 2 ^ 63;
  vc_owned : ∀ a, owned en' = Some a →
    ext !! a = None ∧ (∃ b, mem' !! a = Some (b ++ [0]) ∧ zlen b = he_val_size en') ∧
    (a < e_next env')%nat ∧ (owned en = Some a ∨ h_mem s !! a = None);
  vc_frame : ∀ a, owned en ≠ Some a → owned en' ≠ Some a → mem' !! a = h_mem s !! a;
  vc_freed : ∀ a, owned en = Some a → owned en' ≠ Some a → mem' !! a = None;
  vc_next : (e_next (h_env s) <= e_next env')%nat
}.

Definition same_name (en en' : flb_hash_table_entry) : Prop :=
  he_key en' = he_key en ∧ he_key_len en' = he_key_len en ∧ he_hash en' = he_hash en ∧ he_table en' = he_table en.

Lemma same_name_key cs en en' : same_name en en' → entry_key cs en' = entry_key cs en.
Proof. intros (Hk & Hl & _). unfold entry_key. by rewrite Hk, Hl. Qed.

Lemma insert_entries_inv (m : gmap nat flb_hash_table_entry) e en' x enx :
  <[e := en']> m !! x = Some enx → (x = e ∧ enx = en') ∨ (x ≠ e ∧ m !! x = Some enx).
Proof. intros [[-> ->]|[? ?]]%lookup_insert_Some; [by left|right; split; congruence]. Qed.

Lemma other_owned s h en en' mem' env' e x enx a :
  wf s h → value_change s en en' mem' env' → h_entries s !! e = Some en → x ≠ e → h_entries s !! x = Some enx →
  owned enx = Some a → owned en ≠ Some a ∧ owned en' ≠ Some a.
Proof.
  intros W V He Hx Hex Ha. assert (Hne : owned en ≠ Some a).
  { intros Hen. apply Hx. by eapply (w_owned_inj _ _ _ _ W). }
  split; [done|]. intros Hen'. destruct (vc_owned _ _ _ _ _ V a Hen') as (_ & _ & _ & [?|Hm]); [done|].
  destruct (w_owned _ _ _ _ W x enx a Hex Ha) as (_ & b & Hb & _). congruence.
Qed.

Lemma update_wf s h e en en' mem' env' :
  wf s h → h_entries s !! e = Some en → same_name en en' → value_change s en en' mem' env' →
  wf (mk_hstate env' mem' (<[e := en']> (h_entries s)) (h_ht s)) h.
Proof.
  intros W He Hn V. pose proof (same_name_key (ht_case_sensitivity h) _ _ Hn) as Hkey.
  destruct Hn as (Hk & Hl & Hh & Ht). constructor; cbn; try apply W.
  - intros x. rewrite (w_entries _ _ _ _ W). destruct (decide (x = e)) as [->|].
    + rewrite lookup_insert_eq. by rewrite He.
    + by rewrite lookup_insert_ne.
  - intros id c Hc. destruct (w_chain _ _ _ _ W id c Hc) as [H1 H2 H3]. constructor; [done|done|].
    intros x. rewrite H3. cbn. destruct (decide (x = e)) as [->|].
    + rewrite lookup_insert_eq, He. split; intros (? & [= <-] & ?); [exists en'|exists en]; (split; [done|congruence]).
    + by rewrite lookup_insert_ne.
  - intros x enx [[-> ->]|[? Hx]]%insert_entries_inv; [|by apply (w_entry _ _ _ _ W x)].
    destruct (w_entry _ _ _ _ W e en He) as [H1 H2 H3 _].
    constructor; rewrite ?Hkey, ?Hh, ?Ht, ?Hk, ?Hl; try done. apply V.
  - intros x1 x2 en1 en2 [[-> ->]|[? H1]]%insert_entries_inv [[-> ->]|[? H2]]%insert_entries_inv;
      rewrite ?Hkey; intros Hk12; (done || by eapply (w_keys _ _ _ _ W)).
  - apply map_subseteq_spec. intros a b Ha. rewrite (vc_frame _ _ _ _ _ V).
    + eapply lookup_weaken; [exact Ha|apply W].
    + intros Ho. destruct (w_owned _ _ _ _ W e en a He Ho). congruence.
    + intros Ho. destruct (vc_owned _ _ _ _ _ V a Ho). congruence.
  - intros x enx a [[-> ->]|[Hx Hex]]%insert_entries_inv Ha.
    + destruct (vc_owned _ _ _ _ _ V a Ha) as (? & ? & _). done.
    + destruct (other_owned _ _ _ _ _ _ e x enx a W V He Hx Hex Ha).
      rewrite (vc_frame _ _ _ _ _ V); [|done|done]. by apply (w_owned _ _ _ _ W x enx).
  - intros x1 x2 en1 en2 a [[-> ->]|[Hx1 H1]]%insert_entries_inv [[-> ->]|[Hx2 H2]]%insert_entries_inv Ha1 Ha2;
      [done| | |by eapply (w_owned_inj _ _ _ _ W)].
    + destruct (other_owned _ _ _ _ _ _ e x2 en2 a W V He Hx2 H2 Ha2). done.
    + destruct (other_owned _ _ _ _ _ _ e x1 en1 a W V He Hx1 H1 Ha1). done.
  - intros a b Hab. destruct (decide (owned en' = Some a)) as [Ha'|Ha'].
    { right. exists e, en'. by rewrite lookup_insert_eq. }
    destruct (decide (owned en = Some a)) as [Ha|Ha].
    { by rewrite (vc_freed _ _ _ _ _ V a Ha Ha') in Hab. }
    rewrite (vc_frame _ _ _ _ _ V) in Hab by done.
    destruct (w_noleak _ _ _ _ W a b Hab) as [?|(x & enx & Hx & Ho)]; [by left|right].
    exists x, enx. split; [|done]. rewrite lookup_insert_ne; [done|]. intros ->. congruence.
  - intros a Ha. pose proof (vc_next _ _ _ _ _ V) as Hnx.
    destruct (w_fresh _ _ _ _ W a ltac:(lia)) as [Hm Hent]. split.
    + destruct (decide (owned en' = Some a)) as [Ha'|Ha'].
      { destruct (vc_owned _ _ _ _ _ V a Ha') as (_ & _ & ? & _). lia. }
      destruct (decide (owned en = Some a)); [by apply (vc_freed _ _ _ _ _ V)|].
      by rewrite (vc_frame _ _ _ _ _ V).
    + rewrite lookup_insert_ne; [done|]. intros ->. congruence.
Qed.

Lemma items_update s h e en en' mem' env' g :
  wf s h → h_entries s !! e = Some en → same_name en en' → value_change s en en' mem' env' →
  item_of (ht_case_sensitivity h) mem' en' = g (item_of (ht_case_sensitivity h) (h_mem s) en) →
  items (mk_hstate env' mem' (<[e := en']> (h_entries s)) (h_ht s)) h =
    spec_update (entry_key (ht_case_sensitivity h) en) g (items s h).
Proof.
  intros W He Hn V Hg. unfold items. cbn. apply (omap_update _ _ e).
  - intros x Hx Hne. rewrite lookup_insert_ne by done.
    apply (w_entries _ _ _ _ W) in Hx as [enx Hex]. rewrite Hex. cbn. split.
    + f_equal. apply item_of_mem. intros a Ha. apply (vc_frame _ _ _ _ _ V);
        by destruct (other_owned _ _ _ _ _ _ e x enx a W V He Hne Hex Ha).
    + intros i [= <-] Hk. apply Hne. by eapply (w_keys _ _ _ _ W).
  - rewrite He. by intros i [= <-].
  - by rewrite lookup_insert_eq, He; cbn; rewrite Hg.
Qed.

(** Linking a new entry at the end of its chain and of the list of entries. *)
Definition linked (e : nat) (en : flb_hash_table_entry) (c : flb_hash_table_chain) (h : flb_hash_table) :=
  set_ht_lists (ht_total_count h + 1) (ht_entries h ++ [e])
    (<[Z.to_nat (he_table en) := mk_chain (hc_count c + 1) (hc_chains c ++ [e])]> (ht_table h)) h.

Lemma chain_ok_linked s id c e en s' :
  chain_ok s id c → h_entries s !! e = None → h_entries s' = <[e := en]> (h_entries s) →
  chain_ok s' id (if decide (he_table en = id) then mk_chain (hc_count c + 1) (hc_chains c ++ [e]) else c).
Proof.
  intros [Hc Hn Hm] He Hs'.
  assert (He' : e ∉ hc_chains c) by (rewrite Hm; naive_solver).
  assert (Hm' : ∀ x, (∃ en', h_entries s' !! x = Some en' ∧ he_table en' = id) ↔
      x ∈ hc_chains c ∨ x = e ∧ he_table en = id).
  { intros x. rewrite Hs', Hm. destruct (decide (x = e)) as [->|].
    - rewrite lookup_insert_eq. naive_solver.
    - rewrite lookup_insert_ne by done. naive_solver. }
  destruct (decide (he_table en = id)) as [Hid|Hid]; constructor; cbn; try done.
  - unfold zlen in *. rewrite length_app. cbn. lia.
  - apply NoDup_app. split_and!; [done| |apply NoDup_singleton]. intros x Hx ->%list_elem_of_singleton. done.
  - intros x. rewrite Hm', elem_of_app, list_elem_of_singleton. naive_solver.
  - intros x. rewrite Hm'. naive_solver.
Qed.

Lemma link_wf s h e en c mem' env' :
  wf s h → h_entries s !! e = None → entry_ok cfl_hash_64bits h en → ht_table h !z he_table en = Some c →
  found_at s h (entry_key (ht_case_sensitivity h) en) None →
  value_change s (mk_entry 0 0 0 None 0 None 0 0) en mem' env' → (e < e_next env')%nat →
  wf (mk_hstate env' mem' (<[e := en]> (h_entries s)) (Some (linked e en c h))) (linked e en c h).
Proof.
  intros W He Hok Hc Hnew V Hlt. apply zlookup_Some in Hc as Hr.
  assert (Hfresh : ∀ a, owned en = Some a → h_mem s !! a = None).
  { intros a Ha. by destruct (vc_owned _ _ _ _ _ V a Ha) as (_ & _ & _ & [?|?]). }
  assert (Hother : ∀ x enx a, h_entries s !! x = Some enx → owned enx = Some a → owned en ≠ Some a).
  { intros x enx a Hx Ha Ha'. destruct (w_owned _ _ _ _ W x enx a Hx Ha) as (_ & b & Hb & _).
    rewrite (Hfresh a Ha') in Hb. done. }
  assert (Hframe : ∀ a, owned en ≠ Some a → mem' !! a = h_mem s !! a).
  { intros a Ha. by apply (vc_frame _ _ _ _ _ V). }
  constructor; unfold linked; cbn; try apply W; try done.
  - rewrite zlen_insert. apply W.
  - apply NoDup_app. split_and!; [apply W| |apply NoDup_singleton].
    intros x Hx ->%list_elem_of_singleton. apply (w_entries _ _ _ _ W) in Hx as [? ?]. congruence.
  - intros x. rewrite elem_of_app, list_elem_of_singleton, (w_entries _ _ _ _ W).
    destruct (decide (x = e)) as [->|].
    + rewrite lookup_insert_eq. naive_solver.
    + rewrite lookup_insert_ne by done. naive_solver.
  - rewrite (w_total _ _ _ _ W). unfold zlen. rewrite length_app. cbn. lia.
  - intros id c' Hc'. destruct (decide (he_table en = id)) as [Hid|Hid].
    + subst id. rewrite zlookup_insert_eq in Hc' by lia. injection Hc' as <-.
      pose proof (chain_ok_linked s _ c e en (mk_hstate env' mem' (<[e := en]> (h_entries s)) (Some (linked e en c h)))
        (w_chain _ _ _ _ W _ _ Hc) He eq_refl) as Hok'. by rewrite decide_True in Hok'.
    + rewrite zlookup_insert_ne in Hc' by lia.
      pose proof (chain_ok_linked s _ c' e en (mk_hstate env' mem' (<[e := en]> (h_entries s)) (Some (linked e en c h)))
        (w_chain _ _ _ _ W _ _ Hc') He eq_refl) as Hok'. by rewrite decide_False in Hok'.
  - intros x enx [[-> ->]|[? Hx]]%insert_entries_inv; [by destruct Hok|].
    destruct (w_entry _ _ _ _ W x enx Hx). by constructor.
  - intros x1 x2 en1 en2 [[-> ->]|[? H1]]%insert_entries_inv [[-> ->]|[? H2]]%insert_entries_inv Hk;
      [done| | |by eapply (w_keys _ _ _ _ W)]; exfalso; by eapply Hnew.
  - apply map_subseteq_spec. intros a b Ha. pose proof (lookup_weaken _ _ _ _ Ha (w_ext _ _ _ _ W)) as Hm.
    rewrite Hframe; [done|]. intros Ho. rewrite (Hfresh a Ho) in Hm. done.
  - intros x enx a [[-> ->]|[Hx Hex]]%insert_entries_inv Ha.
    + destruct (vc_owned _ _ _ _ _ V a Ha) as (? & ? & _). done.
    + rewrite Hframe by by eapply Hother. by apply (w_owned _ _ _ _ W x enx).
  - intros x1 x2 en1 en2 a [[-> ->]|[Hx1 H1]]%insert_entries_inv [[-> ->]|[Hx2 H2]]%insert_entries_inv Ha1 Ha2;
      [done| | |by eapply (w_owned_inj _ _ _ _ W)]; exfalso; by eapply Hother.
  - intros a b Hab. destruct (decide (owned en = Some a)) as [Ha|Ha].
    { right. exists e, en. by rewrite lookup_insert_eq. }
    rewrite Hframe in Hab by done.
    destruct (w_noleak _ _ _ _ W a b Hab) as [?|(x & enx & Hx & Ho)]; [by left|right].
    exists x, enx. split; [|done]. rewrite lookup_insert_ne; [done|]. intros ->. congruence.
  - intros a Ha. pose proof (vc_next _ _ _ _ _ V) as Hnx.
    destruct (w_fresh _ _ _ _ W a ltac:(lia)) as [Hm Hent]. split.
    + rewrite Hframe; [done|]. intros Ho. destruct (vc_owned _ _ _ _ _ V a Ho) as (_ & _ & ? & _). lia.
    + rewrite lookup_insert_ne; [done|lia].
Qed.

Lemma items_linked s h e en c mem' env' :
  wf s h → h_entries s !! e = None → value_change s (mk_entry 0 0 0 None 0 None 0 0) en mem' env' →
  items (mk_hstate env' mem' (<[e := en]> (h_entries s)) (Some (linked e en c h))) (linked e en c h) =
    items s h ++ [item_of (ht_case_sensitivity h) mem' en].
Proof.
  intros W He V. unfold items, linked. cbn. rewrite omap_app. cbn. rewrite lookup_insert_eq. cbn. f_equal.
  assert (Hl : ∀ x, x ∈ ht_entries h → is_Some (h_entries s !! x)) by apply (w_entries _ _ _ _ W).
  induction (ht_entries h) as [|x l IH]; [done|]. cbn. rewrite IH by (intros y Hy; apply Hl; by right).
  destruct (Hl x ltac:(by left)) as [enx Hx]. rewrite lookup_insert_ne by congruence. rewrite Hx. cbn. f_equal.
  apply item_of_mem. intros a Ha. apply (vc_frame _ _ _ _ _ V); [done|]. intros Ho.
  destruct (vc_owned _ _ _ _ _ V a Ho) as (_ & _ & _ & [?|Hm]); [done|].
  destruct (w_owned _ _ _ _ W x enx a Hx Ha) as (_ & b & Hb & _). congruence.
Qed.

(** ** Operations *)

(** The value a caller passes: a copy of bytes of its own memory, or a pointer to keep. *)
Definition caller_value (val : option nat) (size : Z) : option hval :=
  if 0 <? size then a ← val; buf ← ext !! a; bytes ← read buf size; Some (Copy bytes) else Some (Ref val).

(** What an operation leaves of the environment: the clock and the absence of failures. *)
Definition same_env (s s' : hstate) : Prop :=
  e_now (h_env s') = e_now (h_env s) ∧ (calm (h_env s) → calm (h_env s')) ∧
  (e_next (h_env s) <= e_next (h_env s'))%nat.

Lemma moved_same_env s s' : moved s s' → same_env s s'.
Proof.
  intros Hm. destruct (moved_now _ _ Hm) as [? ?]. split_and!; [done|done|].
  by destruct Hm as (e' & -> & [? _ _ _ _]).
Qed.
#[local] Instance same_env_preorder : PreOrder same_env.
Proof.
  split; [by intros s|]. intros s1 s2 s3 (? & ? & ?) (? & ? & ?). split_and!; [congruence|eauto|lia].
Qed.

Lemma malloc_calm s : calm (h_env s) →
  malloc s = Some (Some (e_next (h_env s)), set_h_env (set_e_next (S (e_next (h_env s))) (h_env s)) s).
Proof. intros [Ha _]. unfold malloc. cbn. rewrite Ha. cbn. by destruct s as [[] ? ? ?]; cbn in *; subst. Qed.

(** The state after the old value is freed. *)
Definition value_freed (en : flb_hash_table_entry) (s : hstate) : hstate :=
  set_h_mem (match owned en with Some a => delete a (h_mem s) | None => h_mem s end) s.

#[local] Arguments value_freed : simpl never.

Lemma free_owned s en :
  (∀ a, owned en = Some a → is_Some (h_mem s !! a)) →
  when (0 <? he_val_size en) (free (he_val en)) s = Some (tt, value_freed en s).
Proof.
  unfold value_freed, owned. intros Ho. destruct (0 <? he_val_size en); [|by destruct s].
  cbn. destruct (he_val en) as [a|]; [|by destruct s]. destruct (Ho a eq_refl) as [b Hb].
  unfold free, deref. mrun. by rewrite Hb.
Qed.

Lemma value_of_copy mem a bytes :
  mem !! a = Some (bytes ++ [0]) → 0 < zlen bytes → value_of mem (Some a) (zlen bytes) = Copy bytes.
Proof.
  intros Hm Hz. unfold value_of. destruct (Z.ltb_spec 0 (zlen bytes)); [|lia]. rewrite Hm. cbn.
  unfold zlen. by rewrite Nat2Z.id, take_app_length.
Qed.

Definition value_set (s : hstate) (e : nat) (en : flb_hash_table_entry) (v : hval) (s' : hstate) : Prop :=
  ∃ en' mem' env', s' = mk_hstate env' mem' (<[e := en']> (h_entries s)) (h_ht s) ∧
    same_name en en' ∧ value_change s en en' mem' env' ∧
    (he_hits en' = he_hits en ∧ he_created en' = e_now (h_env s)) ∧
    value_of mem' (he_val en') (he_val_size en') = v ∧ same_env s s'.

Lemma set_value_spec s e en val size v :
  h_entries s !! e = Some en → calm (h_env s) → 0 <= size < 2 ^ 63 → caller_value val size = Some v →
  ext ⊆ h_mem s → (∀ a, owned en = Some a → ext !! a = None ∧ is_Some (h_mem s !! a)) →
  (∀ a, (e_next (h_env s) <= a)%nat → h_mem s !! a = None) →
  ∃ s', entry_set_value e val (u64 size) s = Some (0, s') ∧ value_set s e en v s'.
Proof.
  intros He Hc Hsize Hv Hext Ho Hfresh. unfold entry_set_value, time_now.
  unfold mbind at 1, M_bind at 1. rewrite (entry_of_run s e en He).
  unfold mbind at 1, M_bind at 1. rewrite free_owned by (intros a Ha; by apply Ho).
  unfold mbind at 1, M_bind at 1. unfold gets at 1. rewrite u64_id by lia.
  set (s1 := value_freed en s). unfold caller_value in Hv.
  assert (Hframe1 : ∀ a, owned en ≠ Some a → h_mem s1 !! a = h_mem s !! a).
  { intros a Ha. unfold s1, value_freed. cbn. destruct (owned en); [|done].
    rewrite lookup_delete_ne; [done|congruence]. }
  assert (Hfreed1 : ∀ a, owned en = Some a → h_mem s1 !! a = None).
  { intros a Ha. unfold s1, value_freed. cbn. rewrite Ha. apply lookup_delete_eq. }
  destruct (Z.ltb_spec 0 size) as [Hpos|Hpos].
  - destruct val as [w|]; [|done]. cbn in Hv. destruct (ext !! w) as [buf|] eqn:Hw; [|done]. cbn in Hv.
    destruct (read buf size) as [bytes|] eqn:Hrd; [|done]. injection Hv as <-.
    unfold mbind at 1, M_bind at 1. rewrite (malloc_calm s1 Hc). set (a := e_next (h_env s1)).
    assert (Hae : a = e_next (h_env s)) by done. clearbody a.
    assert (Hw1 : h_mem s1 !! w = Some buf).
    { rewrite Hframe1; [by eapply lookup_weaken|]. intros Ha. destruct (Ho w Ha). congruence. }
    assert (Hi : i64 size = size) by (unfold i64; rewrite Z.mod_small; lia).
    unfold deref, store_entry. mrun. cbn. rewrite Hw1, Hrd, Hi. cbn.
    apply read_spec in Hrd as (_ & _ & Hl). subst size.
    assert (Hnew : ∀ now, owned (set_he_value now (Some a) (zlen bytes) en) = Some a).
    { intros now. unfold owned. cbn. by rewrite (proj2 (Z.ltb_lt _ _) Hpos). }
    eexists. split; [done|]. eexists _, _, _. split; [reflexivity|]. split_and!; try done.
    + constructor; [right; cbn -[Z.pow]; lia| | | |cbn; lia].
      * intros b Hb. rewrite Hnew in Hb. injection Hb as <-. split_and!; [|exists bytes; split; [apply lookup_insert_eq|done]|cbn; lia|right; apply Hfresh; lia].
        destruct (ext !! a) eqn:Hx; [|done]. pose proof (lookup_weaken _ _ _ _ Hx Hext) as Hx'.
        rewrite Hfresh in Hx'; [done|lia].
      * intros b Hb Hb'. rewrite Hnew in Hb'. cbn. rewrite lookup_insert_ne by congruence. by apply Hframe1.
      * intros b Hb Hb'. rewrite Hnew in Hb'. cbn. rewrite lookup_insert_ne by congruence. by apply Hfreed1.
    + apply value_of_copy; [apply lookup_insert_eq|done].
    + split_and!; [done|done|cbn; lia].
  - injection Hv as <-. unfold store_entry. mrun. eexists. split; [done|].
    assert (Hnew : owned (set_he_value (e_now (h_env s)) val (-1) en) = None) by done.
    eexists _, _, _. split; [reflexivity|]. split_and!; try done; cbn.
    constructor; rewrite ?Hnew; cbn; [by left|done| |by intros a Ha _; apply Hfreed1|done].
    intros a Ha _. by apply Hframe1.
Qed.

(** The state represents [l] now, with the limits the table had, and nothing else has happened. *)
Definition outcome (s : hstate) (h : flb_hash_table) (l : list item) (s' : hstate) : Prop :=
  ∃ h', wf s' h' ∧ same_limits h h' ∧ items s' h' = l ∧ same_env s s'.

Lemma outcome_refl s h : wf s h → outcome s h (items s h) s.
Proof. intros W. by exists h. Qed.
Lemma outcome_moved s s' h : wf s h → moved s s' → outcome s h (items s h) s'.
Proof.
  intros W Hm. exists h. split_and!; [by eapply wf_moved|done|by apply items_moved|by apply moved_same_env].
Qed.
Lemma same_limits_trans h1 h2 h3 : same_limits h1 h2 → same_limits h2 h3 → same_limits h1 h3.
Proof. unfold same_limits. intuition congruence. Qed.
Lemma outcome_trans s1 h1 s2 h2 l s3 :
  same_limits h1 h2 → same_env s1 s2 → outcome s2 h2 l s3 → outcome s1 h1 l s3.
Proof.
  intros Hl He (h3 & W & Hl' & Hi & He'). exists h3.
  split_and!; [done|by eapply same_limits_trans|done|by etrans].
Qed.

Lemma entry_free_outcome s h e en :
  wf s h → h_entries s !! e = Some en →
  ∃ s', flb_hash_table_entry_free e s = Some (tt, s') ∧
    outcome s h (spec_del (entry_key (ht_case_sensitivity h) en) (items s h)) s'.
Proof.
  intros W He. destruct (entry_free_spec s h e en W He) as (s' & h' & Hrun & W' & Henv & Hl & Hi).
  exists s'. split; [done|]. exists h'. split_and!; try done; unfold same_env; by rewrite Henv.
Qed.

(** *** Eviction *)

Definition random_value (e : env) : Z := match e_rand e with [] => 0 | r :: _ => r mod 2 ^ 31 end.

Lemma random_run s : ∃ s', random s = Some (random_value (h_env s), s') ∧ moved s s'.
Proof.
  unfold random, random_value. destruct (e_rand (h_env s)); eexists; (split; [done|]); [apply moved_refl|].
  eexists. split; [done|]. by constructor.
Qed.

Lemma item_at s h i e :
  wf s h → ht_entries h !z i = Some e →
  ∃ en, h_entries s !! e = Some en ∧ items s h !z i = Some (item_of (ht_case_sensitivity h) (h_mem s) en).
Proof.
  intros W He. assert (Hl : ∀ x, x ∈ ht_entries h → is_Some (h_entries s !! x)) by apply (w_entries _ _ _ _ W).
  unfold zlookup in *. destruct (0 <=? i); [|done]. unfold items. revert He. generalize (Z.to_nat i).
  induction (ht_entries h) as [|x l IH]; [done|]. destruct (Hl x ltac:(by left)) as [en Hx].
  intros [|n] He; cbn in *; rewrite Hx; cbn.
  - injection He as <-. eauto.
  - apply IH; [|done]. intros y Hy. apply Hl. by right.
Qed.

Lemma items_cons s h e l :
  wf s h → ht_entries h = e :: l →
  ∃ en, h_entries s !! e = Some en ∧
    items s h = item_of (ht_case_sensitivity h) (h_mem s) en ::
      omap (λ x, item_of (ht_case_sensitivity h) (h_mem s) <$> h_entries s !! x) l ∧
    ∀ x, x ∈ l → is_Some (h_entries s !! x).
Proof.
  intros W Hl. assert (Hin : ∀ x, x ∈ e :: l → is_Some (h_entries s !! x)).
  { intros x. rewrite <- Hl. apply (w_entries _ _ _ _ W). }
  destruct (Hin e ltac:(by left)) as [en He]. exists en. split_and!; [done| |].
  - unfold items. rewrite Hl. cbn. by rewrite He.
  - intros x Hx. apply Hin. by right.
Qed.

Lemma less_used_spec s cs l : ∀ best enb,
  h_entries s !! best = Some enb → (∀ x, x ∈ l → is_Some (h_entries s !! x)) →
  ∃ b en, less_used l best (he_hits enb) s = Some (b, s) ∧ h_entries s !! b = Some en ∧
    item_of cs (h_mem s) en =
      least_used (omap (λ x, item_of cs (h_mem s) <$> h_entries s !! x) l) (item_of cs (h_mem s) enb).
Proof.
  induction l as [|x l IH]; intros best enb Hb Hl; [by exists best, enb|].
  destruct (Hl x ltac:(by left)) as [en Hx]. cbn. mrun. rewrite (entry_of_run s x en Hx). rewrite Hx. cbn.
  destruct (he_hits en <? he_hits enb); apply IH; try done; intros y Hy; apply Hl; by right.
Qed.

Lemma check_capacity_spec s h :
  wf s h →
  ∃ s', check_capacity s = Some (tt, s') ∧
    outcome s h (spec_evict (ht_evict_mode h) (ht_max_entries h) (random_value (h_env s)) (items s h)) s'.
Proof.
  intros W. pose proof (w_ht _ _ _ _ W) as Hh. unfold check_capacity, spec_evict, spec_victim.
  unfold mbind at 1, M_bind at 1. rewrite (the_table_run s h Hh). rewrite (zlen_items s h W).
  destruct ((0 <? ht_max_entries h) && (ht_max_entries h <=? ht_total_count h)) eqn:Hfull;
    [|exists s; split; [done|by apply outcome_refl]]. bool_prop.
  assert (Hpos : 0 < ht_total_count h) by lia. rewrite (w_total _ _ _ _ W) in Hpos.
  destruct (ht_entries h) as [|e l] eqn:Hl; [done|].
  destruct (items_cons s h e l W Hl) as (en & He & Hi & Hall).
  destruct (Z.eqb_spec (ht_evict_mode h) FLB_HASH_TABLE_EVICT_NONE) as [->|_].
  { exists s. split; [done|by apply outcome_refl]. }
  destruct (ht_evict_mode h =? FLB_HASH_TABLE_EVICT_OLDER).
  { unfold flb_hash_table_evict_older, deref. mrun. rewrite (the_table_run s h Hh), Hl. cbn.
    assert (Hhead : head (items s h) = Some (item_of (ht_case_sensitivity h) (h_mem s) en)) by by rewrite Hi.
    rewrite Hhead. by apply entry_free_outcome. }
  destruct (ht_evict_mode h =? FLB_HASH_TABLE_EVICT_LESS_USED).
  { unfold flb_hash_table_evict_less_used. mrun. rewrite (the_table_run s h Hh), Hl.
    rewrite (entry_of_run s e en He).
    destruct (less_used_spec s (ht_case_sensitivity h) l e en He Hall) as (b & enb & Hrun & Hb & Hit).
    rewrite Hrun. assert (Hv : match items s h with [] => None | i :: l' => Some (least_used l' i) end =
      Some (item_of (ht_case_sensitivity h) (h_mem s) enb)) by (rewrite Hi; by rewrite Hit).
    rewrite Hv. by apply entry_free_outcome. }
  destruct (ht_evict_mode h =? FLB_HASH_TABLE_EVICT_RANDOM); [|exists s; split; [done|by apply outcome_refl]].
  unfold flb_hash_table_evict_random. mrun. rewrite (the_table_run s h Hh).
  destruct (random_run s) as (s1 & Hrun & Hm). rewrite Hrun.
  pose proof (wf_moved _ _ _ W Hm) as W1. rewrite <- (items_moved s s1 h Hm).
  destruct (Z.eqb_spec (ht_total_count h) 0); [lia|].
  assert (Hr : 0 <= random_value (h_env s)).
  { unfold random_value. destruct (e_rand _); [done|]. by apply Z.mod_pos_bound. }
  set (i := Z.rem (random_value (h_env s)) (ht_total_count h)).
  assert (Hrange : 0 <= i < zlen (ht_entries h)).
  { rewrite <- (w_total _ _ _ _ W). apply Z.rem_bound_pos; lia. }
  destruct (zlookup_is_Some _ _ Hrange) as [v Hv]. rewrite Hv.
  destruct (item_at s1 h i v W1 Hv) as (env & Hev & Hiv). rewrite Hiv.
  destruct (entry_free_outcome s1 h v env W1 Hev) as (s' & Hrun' & Ho). exists s'. split; [exact Hrun'|].
  eapply outcome_trans; [done|by apply moved_same_env|exact Ho].
Qed.

(** *** Adding, getting, deleting *)

Definition valid_key (key : list Z) (key_len : Z) (k : list Z) : Prop :=
  read key key_len = Some k ∧ k ≠ [] ∧ 0 ∉ k.

Lemma valid_key_pos key key_len k : valid_key key key_len k → 0 < key_len.
Proof.
  intros (Hr & Hne & _). apply read_spec in Hr as (? & -> & Hl). destruct (Z.eq_dec key_len 0) as [->|]; [done|lia].
Qed.

(** Only the environment moved, or an entry not linked yet appeared: allocations of [add_entry]. *)
Lemma moved_malloc s : calm (h_env s) → moved s (set_h_env (set_e_next (S (e_next (h_env s))) (h_env s)) s).
Proof. intros [Ha Hs]. eexists. split; [done|]. constructor; cbn; (done || lia). Qed.

Lemma moved_trans s1 s2 s3 : moved s1 s2 → moved s2 s3 → moved s1 s3.
Proof. intros (e1 & -> & H1) (e2 & -> & H2). exists e2. split; [done|]. cbn in *. by etrans. Qed.

Lemma entry_key_new cs now hits hash k val size id :
  entry_key cs (mk_entry now hits hash (Some (k ++ [0])) (zlen k) val size id) = folding cs <$> k.
Proof. unfold entry_key, zlen. cbn. by rewrite Nat2Z.id, take_app_length. Qed.

Lemma strndup_run s key key_len k :
  calm (h_env s) → read key key_len = Some k →
  ∃ s', flb_strndup key key_len s = Some (Some (k ++ [0]), s') ∧ moved s s'.
Proof.
  intros Hc Hr. unfold flb_strndup, deref. mrun. rewrite (malloc_calm s Hc), Hr.
  eexists. split; [done|by apply moved_malloc].
Qed.

Lemma link_entry_run env mem E h e en id c :
  ht_table h !z id = Some c →
  link_entry e id (mk_hstate env mem (<[e := en]> E) (Some h)) =
    Some (id, mk_hstate env mem (<[e := set_he_table id en]> E) (Some (linked e (set_he_table id en) c h))).
Proof.
  intros Hc. apply zlookup_Some in Hc as Hr. unfold link_entry. set (s1 := mk_hstate _ _ _ _).
  unfold mbind at 1, M_bind at 1. rewrite (chain_of_run s1 h _ c eq_refl Hc).
  unfold mbind at 1, M_bind at 1. rewrite (the_table_run s1 h eq_refl).
  unfold mbind at 1, M_bind at 1. rewrite (entry_of_run s1 e en) by apply lookup_insert_eq.
  rewrite zinsert_Some by lia. unfold deref, store_entry, store_table. mrun.
  unfold s1. cbn. by rewrite insert_insert_eq.
Qed.

(** A new entry for the key [k], not linked yet. *)
Definition new_entry (now : Z) (cs : bool) (k : list Z) : flb_hash_table_entry :=
  mk_entry now 0 (cfl_hash_64bits (folding cs <$> k)) (Some (k ++ [0])) (zlen k) None 0 0.

Lemma link_entry_spec s h e k v s5 :
  let k' := folding (ht_case_sensitivity h) <$> k in
  let en0 := new_entry (e_now (h_env s)) (ht_case_sensitivity h) k in
  wf s h → h_entries s !! e = None → (e < e_next (h_env s))%nat → k ≠ [] → 0 ∉ k → found_at s h k' None →
  value_set (set_h_entries (<[e := en0]> (h_entries s)) s) e en0 v s5 →
  ∃ s', link_entry e (bucket cfl_hash_64bits h k') s5 = Some (bucket cfl_hash_64bits h k', s') ∧
    outcome s h (items s h ++ [mk_item k' v 0 (e_now (h_env s))]) s'.
Proof.
  intros k' en0 W He Hlt Hne H0 Hnew (en1 & mem' & env' & -> & Hn & V & (Hh & Hcr) & Hval & He5).
  pose proof (bucket_range h k' (w_size _ _ _ _ W)) as Hb. rewrite <- (w_len _ _ _ _ W) in Hb.
  destruct (zlookup_is_Some _ _ Hb) as [c Hch]. cbn -[bucket]. rewrite insert_insert_eq, (w_ht _ _ _ _ W).
  rewrite (link_entry_run _ _ _ _ _ _ _ c Hch).
  set (en2 := set_he_table (bucket cfl_hash_64bits h k') en1). destruct Hn as (Hk1 & Hl1 & Hh1 & Ht1).
  assert (Hkey : entry_key (ht_case_sensitivity h) en2 = k').
  { unfold entry_key. cbn. rewrite Hk1, Hl1. cbn. unfold zlen. by rewrite Nat2Z.id, take_app_length. }
  assert (V' : value_change s (mk_entry 0 0 0 None 0 None 0 0) en2 mem' env').
  { destruct V as [V1 V2 V3 V4 V5]. by constructor. }
  assert (Hok : entry_ok cfl_hash_64bits h en2).
  { constructor; rewrite ?Hkey; [exists k; cbn; by rewrite Hk1, Hl1|cbn; by rewrite Hh1|done|apply V]. }
  eexists. split; [done|]. exists (linked e en2 c h). split_and!.
  - apply link_wf; try done; [by rewrite Hkey|]. pose proof (vc_next _ _ _ _ _ V). cbn in *. lia.
  - done.
  - rewrite (items_linked s h e en2 c mem' env') by done. do 2 f_equal.
    unfold item_of. rewrite Hkey. unfold en2. cbn. by rewrite Hh, Hcr, Hval.
  - exact He5.
Qed.

Lemma add_entry_spec s h key key_len k val size v :
  wf s h → calm (h_env s) → valid_key key key_len k → 0 <= size < 2 ^ 63 → caller_value val size = Some v →
  let k' := folding (ht_case_sensitivity h) <$> k in
  found_at s h k' None →
  ∃ s', add_entry cfl_hash_64bits key key_len val size s = Some (bucket cfl_hash_64bits h k', s') ∧
    outcome s h (items s h ++ [mk_item k' v 0 (e_now (h_env s))]) s'.
Proof.
  intros W Hc (Hr & Hne & H0) Hsize Hv k' Hnew. unfold add_entry, time_now.
  unfold mbind at 1, M_bind at 1. rewrite (the_table_run s h (w_ht _ _ _ _ W)).
  destruct (compute_hash_spec s key key_len k (ht_case_sensitivity h) Hc Hr) as (s1 & Hrun & Hm1).
  unfold mbind at 1, M_bind at 1. rewrite Hrun. fold k'. fold (bucket cfl_hash_64bits h k').
  destruct (moved_now _ _ Hm1) as [Hnow1 Hc1]. specialize (Hc1 Hc).
  unfold mbind at 1, M_bind at 1. rewrite (malloc_calm s1 Hc1). set (e := e_next (h_env s1)).
  pose proof (moved_malloc s1 Hc1) as Hm2. fold e in Hm2. set (s2 := set_h_env _ s1) in *.
  unfold mbind at 1, M_bind at 1. unfold gets at 1.
  destruct (strndup_run s2 key key_len k Hc1 Hr) as (s3 & Hdup & Hm3).
  unfold mbind at 1, M_bind at 1. rewrite Hdup.
  assert (Hm : moved s s3) by (eapply moved_trans; [exact Hm1|by eapply moved_trans]).
  pose proof (wf_moved _ _ _ W Hm) as W3. destruct (moved_now _ _ Hm) as [Hnow3 Hc3]. specialize (Hc3 Hc).
  assert (Hfresh : h_entries s3 !! e = None).
  { destruct (w_fresh _ _ _ _ (wf_moved _ _ _ W Hm1) e ltac:(done)) as [_ He].
    destruct Hm3 as (? & -> & _). exact He. }
  assert (Hlt : (e < e_next (h_env s3))%nat).
  { destruct Hm3 as (? & -> & [Hle _ _ _ _]). cbn in *. lia. }
  replace key_len with (zlen k) by by apply read_spec in Hr as (_ & _ & ?).
  replace (e_now (env_of s2)) with (e_now (h_env s3)) by by rewrite Hnow3.
  set (en0 := new_entry (e_now (h_env s3)) (ht_case_sensitivity h) k).
  change (mk_entry _ 0 (cfl_hash_64bits k') _ _ None 0 0) with en0.
  unfold mbind at 1, M_bind at 1. unfold store_entry at 1, modify at 1. cbv beta iota.
  destruct (set_value_spec (set_h_entries (<[e := en0]> (h_entries s3)) s3) e en0 val size v) as (s5 & Hset & Hs5);
    [apply lookup_insert_eq|done|done|done|apply W3|done|intros a Ha; by apply (w_fresh _ _ _ _ W3)|].
  unfold mbind at 1, M_bind at 1. rewrite Hset.
  destruct (link_entry_spec s3 h e k v s5) as (s' & Hlink & Ho); try done.
  { by destruct Hm as (? & -> & _). }
  exists s'. split; [exact Hlink|]. rewrite <- (items_moved s s3 h Hm), <- Hnow3.
  eapply outcome_trans; [done|by apply moved_same_env|exact Ho].
Qed.

Lemma replace_spec s h e en val size v :
  wf s h → calm (h_env s) → h_entries s !! e = Some en → 0 <= size < 2 ^ 63 → caller_value val size = Some v →
  ∃ s', entry_set_value e val (u64 size) s = Some (0, s') ∧
    outcome s h (spec_update (entry_key (ht_case_sensitivity h) en) (set_it_value (e_now (h_env s)) v) (items s h)) s'.
Proof.
  intros W Hc He Hsize Hv.
  destruct (set_value_spec s e en val size v) as (s' & Hrun & en' & mem' & env' & -> & Hn & V & (Hh & Hcr) & Hval & He');
    [done|done|done|done|apply W| |intros a Ha; by apply W|].
  { intros a Ha. destruct (w_owned _ _ _ _ W e en a He Ha) as (? & b & ? & _). split; [done|by eexists]. }
  eexists. split; [done|]. exists h. split_and!; [by eapply update_wf|done| |done].
  apply (items_update _ _ _ en); try done. unfold item_of, set_it_value. cbn.
  by rewrite (same_name_key _ _ _ Hn), Hval, Hh, Hcr.
Qed.

Lemma add_spec s h key key_len k val size v :
  wf s h → calm (h_env s) → valid_key key key_len k → 0 <= size < 2 ^ 63 → caller_value val size = Some v →
  let k' := folding (ht_case_sensitivity h) <$> k in
  ∃ s', flb_hash_table_add cfl_hash_64bits (Some key) key_len val size s = Some (bucket cfl_hash_64bits h k', s') ∧
    outcome s h (spec_put (e_now (h_env s)) k' v
      (spec_evict (ht_evict_mode h) (ht_max_entries h) (random_value (h_env s)) (items s h))) s'.
Proof.
  intros W Hc Hkey Hsize Hv k'. pose proof (valid_key_pos _ _ _ Hkey) as Hpos. unfold flb_hash_table_add.
  destruct (Z.leb_spec key_len 0); [lia|]. destruct (check_capacity_spec s h W) as (s1 & Hrun & h1 & W1 & Hl & Hi & He1).
  unfold mbind at 1, M_bind at 1. rewrite Hrun. rewrite <- Hi. destruct He1 as (Hnow & Hc1 & Hnx). specialize (Hc1 Hc).
  assert (Hcs : ht_case_sensitivity h1 = ht_case_sensitivity h) by apply Hl.
  assert (Hb : bucket cfl_hash_64bits h k' = bucket cfl_hash_64bits h1 k').
  { unfold bucket. destruct Hl as (_ & _ & _ & _ & ->). done. }
  destruct (hash_get_entry_spec s1 h1 key key_len k W1 Hc1) as (found & s2 & Hget & Hm & Hf); [apply Hkey|done|].
  rewrite Hcs in Hget, Hf. fold k' in Hget, Hf. rewrite Hb.
  unfold mbind at 1, M_bind at 1. rewrite Hget. pose proof (wf_moved _ _ _ W1 Hm) as W2.
  destruct (moved_now _ _ Hm) as [Hnow2 Hc2]. specialize (Hc2 Hc1).
  assert (Hse : same_env s s2) by (etrans; [split_and!; [exact Hnow|done|done]|by apply moved_same_env]).
  rewrite <- Hnow, <- Hnow2. rewrite <- (items_moved _ _ _ Hm). unfold spec_put.
  destruct found as [e|]; cbn.
  - destruct Hf as (en & He & Hk). assert (He2 : h_entries s2 !! e = Some en) by by destruct Hm as (? & -> & _).
    rewrite <- Hk, (find_present s2 h1 e en W2 He2).
    destruct (replace_spec s2 h1 e en val size v W2 Hc2 He2 Hsize Hv) as (s3 & Hset & Ho).
    mrun. rewrite Hset. exists s3. split; [done|]. by eapply outcome_trans.
  - assert (Hf2 : found_at s2 h1 k' None) by by destruct Hm as (? & -> & _).
    rewrite (find_absent s2 h1 k' Hf2).
    destruct (add_entry_spec s2 h1 key key_len k val size v W2 Hc2 Hkey Hsize Hv) as (s3 & Hadd & Ho);
      [by rewrite Hcs|]. rewrite Hcs in Hadd, Ho. fold k' in Hadd, Ho.
    rewrite Hadd. exists s3. split; [done|]. by eapply outcome_trans.
Qed.

Lemma bump_spec s h e en :
  wf s h → h_entries s !! e = Some en →
  outcome s h (spec_update (entry_key (ht_case_sensitivity h) en) (λ i, set_it_hits (u64 (it_hits i + 1)) i) (items s h))
    (mk_hstate (h_env s) (h_mem s) (<[e := set_he_hits (u64 (he_hits en + 1)) en]> (h_entries s)) (h_ht s)).
Proof.
  intros W He. set (en' := set_he_hits _ en).
  assert (V : value_change s en en' (h_mem s) (h_env s)).
  { constructor; [apply (w_entry _ _ _ _ W e en He)| |done| |done].
    - intros a Ha. destruct (w_owned _ _ _ _ W e en a He Ha) as (? & b & Hb & ?). split_and!; [done|by exists b| |by left].
      destruct (decide (a < e_next (h_env s))%nat); [done|].
      destruct (w_fresh _ _ _ _ W a ltac:(lia)) as [Hm _]. congruence.
    - intros a Ha Ha'. done. }
  exists h. split_and!; [by apply update_wf with en|done| |done].
  by apply (items_update _ _ _ en).
Qed.

(** What a caller of [flb_hash_table_get] reads through the pointer it gets. *)
Definition observe (s : hstate) (out : option nat * Z) : hval := value_of (h_mem s) out.1 (i64 out.2).

Lemma observe_size s h e en :
  wf s h → h_entries s !! e = Some en →
  observe s (he_val en, u64 (he_val_size en)) = value_of (h_mem s) (he_val en) (he_val_size en).
Proof.
  intros W He. unfold observe. cbn. f_equal. destruct (eo_size _ _ _ (w_entry _ _ _ _ W e en He)) as [->|?]; [done|].
  rewrite u64_id by lia. unfold i64. rewrite Z.mod_small; lia.
Qed.

Lemma get_spec s h key key_len k :
  wf s h → calm (h_env s) → valid_key key key_len k →
  let k' := folding (ht_case_sensitivity h) <$> k in
  let spec := spec_get (ht_cache_ttl h) (e_now (h_env s)) k' (items s h) in
  ∃ z out s', flb_hash_table_get cfl_hash_64bits (Some key) key_len s = Some ((z, out), s') ∧
    outcome s h spec.2 s' ∧ observe s' <$> out = spec.1 ∧
    z = match spec.1 with Some _ => bucket cfl_hash_64bits h k' | None => -1 end.
Proof.
  intros W Hc Hkey k' spec. pose proof (valid_key_pos _ _ _ Hkey) as Hpos. unfold flb_hash_table_get.
  destruct (hash_get_entry_spec s h key key_len k W Hc) as (found & s1 & Hget & Hm & Hf); [apply Hkey|done|].
  fold k' in Hget, Hf. unfold mbind at 1, M_bind at 1. rewrite Hget. pose proof (wf_moved _ _ _ W Hm) as W1.
  destruct (moved_now _ _ Hm) as [Hnow _]. unfold spec, spec_get. destruct found as [e|]; cbn.
  - destruct Hf as (en & He & Hk). rewrite <- Hk, (find_present s h e en W He).
    assert (He1 : h_entries s1 !! e = Some en) by by destruct Hm as (? & -> & _).
    mrun. rewrite (the_table_run s1 h (w_ht _ _ _ _ W1)), (entry_of_run s1 e en He1). unfold time_now. mrun.
    unfold env_of, hstate_HasEnv. rewrite Hnow. unfold expired. cbn. rewrite <- (items_moved s s1 h Hm).
    destruct ((0 <? ht_cache_ttl h) && (he_created en + ht_cache_ttl h <? e_now (h_env s))); cbn.
    + destruct (entry_free_outcome s1 h e en W1 He1) as (s' & Hrun & Ho). rewrite Hrun.
      exists (-1), None, s'. split_and!; try done.
      eapply outcome_trans; [done|by apply moved_same_env|exact Ho].
    + eexists _, _, _. split; [done|]. split_and!; [|cbn|done].
      * eapply outcome_trans; [done|by apply moved_same_env|]. by apply bump_spec.
      * f_equal. rewrite <- (observe_size s h e en W He). by destruct Hm as (? & -> & _).
  - rewrite (find_absent s h k' Hf). exists (-1), None, s1. split_and!; [done| |done|done].
    by apply outcome_moved.
Qed.

(** The pointer [flb_hash_table_get_ptr] returns: NULL, the pointer that was stored, or a
    NUL-terminated copy of the bytes that were. *)
Definition points_to (s : hstate) (p : option nat) (v : option hval) : Prop :=
  match v with
  | None => p = None
  | Some (Ref q) => p = q
  | Some (Copy b) => ∃ a, p = Some a ∧ h_mem s !! a = Some (b ++ [0])
  | Some (Gone _) => p = None
  end.

Lemma points_to_value s h e en :
  wf s h → h_entries s !! e = Some en →
  points_to s (he_val en) (Some (value_of (h_mem s) (he_val en) (he_val_size en))).
Proof.
  intros W He. pose proof (w_owned _ _ _ _ W e en) as Ho. unfold value_of, points_to, owned in *.
  destruct (0 <? he_val_size en); [|done]. destruct (he_val en) as [a|]; [|done].
  destruct (Ho a He eq_refl) as (_ & b & Hb & Hl). exists a. split; [done|]. rewrite Hb. cbn.
  rewrite <- Hl. unfold zlen. by rewrite Nat2Z.id, take_app_length.
Qed.

Lemma get_ptr_spec s h key key_len k :
  wf s h → calm (h_env s) → valid_key key key_len k →
  let k' := folding (ht_case_sensitivity h) <$> k in
  let spec := spec_get 0 (e_now (h_env s)) k' (items s h) in
  ∃ p s', flb_hash_table_get_ptr cfl_hash_64bits (Some key) key_len s = Some (p, s') ∧
    outcome s h spec.2 s' ∧ points_to s' p spec.1.
Proof.
  intros W Hc Hkey k' spec. pose proof (valid_key_pos _ _ _ Hkey) as Hpos. unfold flb_hash_table_get_ptr.
  destruct (hash_get_entry_spec s h key key_len k W Hc) as (found & s1 & Hget & Hm & Hf); [apply Hkey|done|].
  fold k' in Hget, Hf. unfold mbind at 1, M_bind at 1. rewrite Hget. pose proof (wf_moved _ _ _ W Hm) as W1.
  unfold spec, spec_get, expired. destruct found as [e|]; cbn.
  - destruct Hf as (en & He & Hk). rewrite <- Hk, (find_present s h e en W He).
    assert (He1 : h_entries s1 !! e = Some en) by by destruct Hm as (? & -> & _).
    mrun. rewrite (entry_of_run s1 e en He1). rewrite <- (items_moved s s1 h Hm).
    eexists _, _. split; [done|]. split.
    + eapply outcome_trans; [done|by apply moved_same_env|]. by apply bump_spec.
    + pose proof (points_to_value s h e en W He) as Hp. by destruct Hm as (? & -> & _).
  - rewrite (find_absent s h k' Hf). exists None, s1. split_and!; [done| |done]. by apply outcome_moved.
Qed.

Lemma del_spec s h k rest :
  wf s h → calm (h_env s) → k ≠ [] → 0 ∉ k → zlen k <= INT_MAX →
  let k' := folding (ht_case_sensitivity h) <$> k in
  ∃ s', flb_hash_table_del cfl_hash_64bits (Some (k ++ 0 :: rest)) s =
      Some (match spec_find k' (items s h) with Some _ => 0 | None => -1 end, s') ∧
    outcome s h (spec_del k' (items s h)) s'.
Proof.
  intros W Hc Hne H0 Hmax k'. set (key := k ++ 0 :: rest). unfold flb_hash_table_del.
  assert (Hstr : strlen key = Some (zlen k)) by by apply strlen_spec.
  unfold mbind at 1, M_bind at 1. unfold deref at 1. rewrite Hstr.
  pose proof (zlen_nonneg k) as Hnn. unfold INT_MAX in Hmax.
  assert (Hi : i32 (zlen k) = zlen k) by (unfold i32; rewrite Z.mod_small; lia). cbv zeta. rewrite Hi.
  destruct (Z.eqb_spec (zlen k) 0) as [Hz|_]; [by rewrite (zlen_nil_inv k) in Hne by lia|].
  rewrite u64_id by lia.
  assert (Hr : read key (zlen k) = Some k).
  { unfold read, key, zlen. rewrite length_app. cbn. rewrite Nat2Z.id, take_app_length.
    rewrite (proj2 (Z.leb_le _ _)), (proj2 (Z.leb_le _ _)) by lia. done. }
  unfold mbind at 1, M_bind at 1. rewrite (the_table_run s h (w_ht _ _ _ _ W)).
  destruct (compute_hash_spec s key (zlen k) k (ht_case_sensitivity h) Hc Hr) as (s1 & Hrun & Hm).
  unfold mbind at 1, M_bind at 1. rewrite Hrun. fold k'. fold (bucket cfl_hash_64bits h k').
  pose proof (wf_moved _ _ _ W Hm) as W1. rewrite <- (items_moved s s1 h Hm).
  pose proof (bucket_range h k' (w_size _ _ _ _ W)) as Hb. rewrite <- (w_len _ _ _ _ W) in Hb.
  destruct (zlookup_is_Some _ _ Hb) as [c Hch].
  unfold mbind at 1, M_bind at 1. rewrite (chain_of_run s1 h _ c (w_ht _ _ _ _ W1) Hch).
  destruct (search_spec s1 h k key (zlen k) c W1 Hr Hch) as (found & Hse & Hf). fold k' in Hf.
  fold (search c (key_matches (ht_case_sensitivity h) key (zlen k))).
  unfold mbind at 1, M_bind at 1. rewrite Hse. destruct found as [e|].
  - destruct Hf as (en & He & Hk). rewrite <- Hk, (find_present s1 h e en W1 He).
    destruct (entry_free_outcome s1 h e en W1 He) as (s' & Hfree & Ho).
    unfold mbind, M_bind. rewrite Hfree. exists s'. split; [done|].
    eapply outcome_trans; [done|by apply moved_same_env|exact Ho].
  - rewrite (find_absent s1 h k' Hf). exists s1. split; [done|].
    assert (Hdel : spec_del k' (items s1 h) = items s1 h).
    { unfold spec_del. apply filter_all. intros i Hi' Hk. pose proof (find_absent s1 h k' Hf) as Hnone.
      unfold spec_find in Hnone. assert (Hin : i ∈ filter (has_key k') (items s1 h)) by by apply list_elem_of_filter.
      destruct (filter (has_key k') (items s1 h)); [by apply not_elem_of_nil in Hin|done]. }
    rewrite Hdel. rewrite (items_moved s s1 h Hm). by apply outcome_moved.
Qed.

Lemma exists_spec s h hash :
  wf s h →
  flb_hash_table_exists hash s =
    Some (if existsb (λ i, cfl_hash_64bits (it_key i) =? hash) (items s h) then 1 else 0, s).
Proof.
  intros W. unfold flb_hash_table_exists. unfold mbind at 1, M_bind at 1. rewrite (the_table_run s h (w_ht _ _ _ _ W)).
  assert (Hb : 0 <= i32 (hash mod ht_size h) < zlen (ht_table h)).
  { rewrite (w_len _ _ _ _ W). pose proof (w_size _ _ _ _ W) as Hs. unfold i32, INT_MAX in *.
    pose proof (Z.mod_pos_bound hash (ht_size h)). rewrite Z.mod_small; lia. }
  destruct (zlookup_is_Some _ _ Hb) as [c Hch]. destruct (w_chain _ _ _ _ W _ _ Hch) as [_ _ Hel].
  unfold mbind at 1, M_bind at 1. rewrite (chain_of_run s h _ c (w_ht _ _ _ _ W) Hch).
  destruct (first_entry_spec (λ en, Some (he_hash en =? hash)) (λ en, he_hash en = hash) s (hc_chains c))
    as (found & Hrun & Hf).
  { intros e He. apply Hel in He as (en & He & _). exists en. split; [done|]. f_equal.
    destruct (Z.eqb_spec (he_hash en) hash); [by rewrite bool_decide_eq_true_2|by rewrite bool_decide_eq_false_2]. }
  unfold mbind, M_bind. rewrite Hrun. destruct found as [e|].
  - destruct Hf as (_ & en & He & Hh). destruct (existsb _ (items s h)) eqn:Hex; [done|].
    assert (Hin : item_of (ht_case_sensitivity h) (h_mem s) en ∈ items s h).
    { apply list_elem_of_omap. exists e. rewrite He. split; [|done]. apply (w_entries _ _ _ _ W). eauto. }
    exfalso. apply not_true_iff_false in Hex. apply Hex. apply existsb_exists.
    eexists. split; [by apply list_elem_of_In|]. apply Z.eqb_eq. cbn. rewrite <- Hh. symmetry.
    by apply (w_entry _ _ _ _ W e en).
  - destruct (existsb _ (items s h)) eqn:Hex; [|done]. exfalso.
    apply existsb_exists in Hex as (i & Hi & Hh%Z.eqb_eq). apply list_elem_of_In in Hi.
    apply list_elem_of_omap in Hi as (e & _ & Hi). destruct (h_entries s !! e) as [en|] eqn:He; [|done].
    injection Hi as <-. cbn in Hh. destruct (w_entry _ _ _ _ W e en He) as [_ Heh Het _].
    apply (Hf e en); [|done|congruence]. apply Hel. exists en. split; [done|]. rewrite Het.
    unfold bucket. by rewrite Hh.
Qed.

(** *** Creating and destroying *)

(** The callers' memory, and nothing else. *)
Record blank (s : hstate) : Prop := {
  b_mem : h_mem s = ext;
  b_entries : h_entries s = ∅;
  b_ht : h_ht s = None;
  b_fresh : ∀ a, (e_next (h_env s) <= a)%nat → ext !! a = None
}.

Definition new_table (ttl mode size max : Z) : flb_hash_table :=
  mk_ht mode max 0 ttl true size [] (replicate (Z.to_nat size) (mk_chain 0 [])).

Lemma new_table_wf s ttl mode size max :
  h_mem s = ext → h_entries s = ∅ → (∀ a, (e_next (h_env s) <= a)%nat → ext !! a = None) →
  h_ht s = Some (new_table ttl mode size max) → 0 < size <= INT_MAX → wf s (new_table ttl mode size max).
Proof.
  intros Hm He Hf Hh Hs. constructor; cbn; rewrite ?Hm, ?He; try done.
  - unfold zlen. rewrite length_replicate. lia.
  - apply NoDup_nil_2.
  - intros e. rewrite lookup_empty. split; [by intros ?%not_elem_of_nil|by intros [? ?]].
  - intros id c Hc. apply zlookup_Some in Hc as [_ Hc]. apply lookup_replicate in Hc as [-> _].
    constructor; [done|apply NoDup_nil_2|]. intros e. rewrite He. cbn. split; [by intros ?%not_elem_of_nil|].
    intros (? & ? & _). by rewrite lookup_empty in *.
  - intros a b Ha. by left.
  - intros a Ha. split; [by apply Hf|apply lookup_empty].
Qed.

Lemma create_spec s ttl mode size max :
  blank s → calm (h_env s) → 0 < size <= INT_MAX →
  ∃ s', flb_hash_table_create_with_ttl ttl mode size max s = Some (true, s') ∧
    wf s' (new_table ttl mode size max) ∧ items s' (new_table ttl mode size max) = [] ∧ same_env s s'.
Proof.
  intros [Hm He Hh Hf] Hc Hs. unfold flb_hash_table_create_with_ttl, flb_hash_table_create.
  destruct (Z.leb_spec size 0); [lia|]. mrun. rewrite (malloc_calm s Hc). cbn beta iota.
  set (s1 := set_h_env _ s). assert (Hc1 : calm (h_env s1)) by done.
  rewrite (malloc_calm s1 Hc1). destruct (Z.ltb_spec INT_MAX size); [lia|].
  unfold store_table, the_table, deref. mrun. eexists. split; [done|]. split_and!.
  - apply new_table_wf; try done. cbn. intros a Ha. apply Hf. lia.
  - done.
  - split_and!; [done|done|cbn; lia].
Qed.

Lemma foreach_concat {S A} (f : A → M S unit) ll (s : S) :
  foreach ll (λ l, foreach l f) s = foreach (concat ll) f s.
Proof.
  assert (Happ : ∀ l1 l2 s, foreach (l1 ++ l2) f s = (foreach l1 f ≫= λ _, foreach l2 f) s).
  { induction l1 as [|x l1 IH]; intros l2 s1; [done|]. cbn. unfold mbind, M_bind in *.
    destruct (f x s1) as [[[] s2]|]; [|done]. apply IH. }
  revert s. induction ll as [|l ll IH]; intros s; [done|]. cbn. rewrite Happ. unfold mbind, M_bind.
  destruct (foreach l f s) as [[[] s1]|]; [|done]. apply IH.
Qed.

Lemma free_all L : ∀ s h,
  wf s h → NoDup L → (∀ e, e ∈ L ↔ is_Some (h_entries s !! e)) →
  ∃ s', foreach L flb_hash_table_entry_free s = Some (tt, s') ∧ (∃ h', wf s' h') ∧ h_entries s' = ∅.
Proof.
  induction L as [|e L IH]; intros s h W Hnd Hin.
  { exists s. split; [done|]. split; [by exists h|]. apply map_eq. intros e. rewrite lookup_empty.
    apply eq_None_not_Some. intros He%Hin. by apply not_elem_of_nil in He. }
  apply NoDup_cons in Hnd as [Hx Hnd]. destruct (proj1 (Hin e) ltac:(by left)) as [en He].
  destruct (entry_at_chain s h e en W He) as (c & Hc & _). cbn. mrun.
  rewrite (entry_free_run s h e en c W He Hc).
  apply (IH _ (without e en c s h).2); [by apply without_wf|done|]. intros x. cbn.
  destruct (decide (x = e)) as [->|]; [rewrite lookup_delete_eq; split; [done|by intros []]|].
  rewrite lookup_delete_ne by done. rewrite <- Hin, elem_of_cons. naive_solver.
Qed.

Lemma elem_of_concat {A} (x : A) ll : x ∈ concat ll ↔ ∃ l, x ∈ l ∧ l ∈ ll.
Proof.
  rewrite list_elem_of_In, in_concat. setoid_rewrite list_elem_of_In. naive_solver.
Qed.

Lemma NoDup_concat {A} (ll : list (list A)) :
  (∀ i l, ll !! i = Some l → NoDup l) →
  (∀ i j l1 l2 x, ll !! i = Some l1 → ll !! j = Some l2 → x ∈ l1 → x ∈ l2 → i = j) →
  NoDup (concat ll).
Proof.
  induction ll as [|l ll IH]; intros Hnd Hne; [apply NoDup_nil_2|]. cbn. apply NoDup_app. split_and!.
  - by apply (Hnd 0%nat).
  - intros x Hx (l2 & Hx2 & [j Hj]%list_elem_of_lookup)%elem_of_concat.
    discriminate (Hne 0%nat (S j) l l2 x eq_refl Hj Hx Hx2).
  - apply IH; [intros i; apply (Hnd (S i))|]. intros i j l1 l2 x H1 H2 Hx1 Hx2.
    by injection (Hne (S i) (S j) l1 l2 x H1 H2 Hx1 Hx2).
Qed.

Lemma chains_entries s h :
  wf s h → let L := concat (hc_chains <$> ht_table h) in
  NoDup L ∧ ∀ e, e ∈ L ↔ is_Some (h_entries s !! e).
Proof.
  intros W L. assert (Hlk : ∀ i l, (hc_chains <$> ht_table h) !! i = Some l →
    ∃ c, ht_table h !z Z.of_nat i = Some c ∧ hc_chains c = l).
  { intros i l Hl. apply list_lookup_fmap_Some in Hl as (c & -> & Hc). exists c. split; [|done]. unfold zlookup.
    rewrite (proj2 (Z.leb_le _ _)) by lia. by rewrite Nat2Z.id. }
  split.
  - unfold L. apply NoDup_concat.
    + intros i l Hl. apply Hlk in Hl as (c & Hc & <-). by apply (w_chain _ _ _ _ W _ _ Hc).
    + intros i j l1 l2 e Hl1 Hl2 He1 He2.
      apply Hlk in Hl1 as (c1 & H1 & <-). apply Hlk in Hl2 as (c2 & H2 & <-).
      destruct (proj1 (co_elem _ _ _ (w_chain _ _ _ _ W _ _ H1) e) He1) as (en1 & Hen1 & Hi1).
      destruct (proj1 (co_elem _ _ _ (w_chain _ _ _ _ W _ _ H2) e) He2) as (en2 & Hen2 & Hi2). simplify_eq. lia.
  - intros e. unfold L. rewrite elem_of_concat. split.
    + intros (l & He & Hl). apply list_elem_of_lookup in Hl as [i Hl]. apply Hlk in Hl as (c & Hc & <-).
      destruct (proj1 (co_elem _ _ _ (w_chain _ _ _ _ W _ _ Hc) e) He) as (en & Hen & _). eauto.
    + intros [en He]. destruct (entry_at_chain s h e en W He) as (c & Hc & Hin). exists (hc_chains c).
      split; [done|]. apply list_elem_of_fmap. exists c. split; [done|]. apply zlookup_Some in Hc as [_ Hc].
      by eapply list_elem_of_lookup_2.
Qed.

(** ** Calls of clients *)

(** A call, or the clock moving on to a given time. *)
Inductive ht_op :=
| Add (key : list Z) (key_len : Z) (val : option nat) (val_size : Z)
| Get (key : list Z) (key_len : Z)
| GetPtr (key : list Z) (key_len : Z)
| Exists (hash : Z)
| Del (key : list Z)
| Tick (now : Z).

Inductive ht_result :=
| RInt (z : Z)
| RVal (z : Z) (out : option (option nat * Z))
| RPtr (p : option nat)
| RNone.

Definition run_op (op : ht_op) : M hstate ht_result :=
  match op with
  | Add key key_len val size => RInt <$> flb_hash_table_add cfl_hash_64bits (Some key) key_len val size
  | Get key key_len => r ← flb_hash_table_get cfl_hash_64bits (Some key) key_len; mret (RVal r.1 r.2)
  | GetPtr key key_len => RPtr <$> flb_hash_table_get_ptr cfl_hash_64bits (Some key) key_len
  | Exists hash => RInt <$> flb_hash_table_exists hash
  | Del key => RInt <$> flb_hash_table_del cfl_hash_64bits (Some key)
  | Tick now => modify (λ s, set_h_env (set_e_now now (h_env s)) s) ≫= λ _, mret RNone
  end.

(** Keys are not empty and hold no NUL; values are NULL, any pointer (size 0), or the caller's memory. *)
Inductive op_ok : ht_op → list Z → option hval → Prop :=
| ok_add key key_len val size k v :
    valid_key key key_len k → 0 <= size < 2 ^ 63 → caller_value val size = Some v →
    op_ok (Add key key_len val size) k (Some v)
| ok_get key key_len k : valid_key key key_len k → op_ok (Get key key_len) k None
| ok_get_ptr key key_len k : valid_key key key_len k → op_ok (GetPtr key key_len) k None
| ok_exists hash : op_ok (Exists hash) [] None
| ok_del k rest : k ≠ [] → 0 ∉ k → zlen k <= INT_MAX → op_ok (Del (k ++ 0 :: rest)) k None
| ok_tick now : op_ok (Tick now) [] None.

(** The association list after a call with the key [k], and the value the call finds or stores. *)
Definition spec_step (h : flb_hash_table) (e : env) (op : ht_op) (k : list Z) (v : option hval) (l : list item)
    : option hval * list item :=
  let k' := folding (ht_case_sensitivity h) <$> k in
  match op, v with
  | Add _ _ _ _, Some v =>
      (Some v, spec_put (e_now e) k' v (spec_evict (ht_evict_mode h) (ht_max_entries h) (random_value e) l))
  | Get _ _, _ => spec_get (ht_cache_ttl h) (e_now e) k' l
  | GetPtr _ _, _ => spec_get 0 (e_now e) k' l
  | Del _, _ => (it_val <$> spec_find k' l, spec_del k' l)
  | _, _ => (None, l)
  end.

Definition result_ok (h : flb_hash_table) (s' : hstate) (l : list item) (op : ht_op) (k : list Z)
    (v : option hval) (r : ht_result) : Prop :=
  let id := bucket cfl_hash_64bits h (folding (ht_case_sensitivity h) <$> k) in
  match op, r with
  | Add _ _ _ _, RInt z => z = id
  | Get _ _, RVal z out => observe s' <$> out = v ∧ z = match v with Some _ => id | None => -1 end
  | GetPtr _ _, RPtr p => points_to s' p v
  | Exists hash, RInt z => z = if existsb (λ i, cfl_hash_64bits (it_key i) =? hash) l then 1 else 0
  | Del _, RInt z => z = match v with Some _ => 0 | None => -1 end
  | Tick _, RNone => True
  | _, _ => False
  end.

Definition step_outcome (s : hstate) (h : flb_hash_table) (op : ht_op) (k : list Z) (arg : option hval) : Prop :=
  let spec := spec_step h (h_env s) op k arg (items s h) in
  ∃ r s' h', run_op op s = Some (r, s') ∧ wf s' h' ∧ same_limits h h' ∧ calm (h_env s') ∧
    items s' h' = spec.2 ∧ result_ok h s' (items s h) op k spec.1 r.

Lemma call_spec s h op k arg :
  wf s h → calm (h_env s) → op_ok op k arg → step_outcome s h op k arg.
Proof.
  intros W Hc Hop. unfold step_outcome.
  destruct Hop as [key n val size k v Hk Hs Hv|key n k Hk|key n k Hk|hash|k rest Hne H0 Hmax|now]; cbn.
  - destruct (add_spec s h key n k val size v W Hc Hk Hs Hv) as (s' & Hrun & h' & W' & Hl & Hi & _ & Hc' & _).
    exists (RInt (bucket cfl_hash_64bits h (folding (ht_case_sensitivity h) <$> k))), s', h'.
    mrun. rewrite Hrun. split_and!; try done. by apply Hc'.
  - destruct (get_spec s h key n k W Hc Hk) as (z & out & s' & Hrun & (h' & W' & Hl & Hi & _ & Hc' & _) & Ho & Hz).
    exists (RVal z out), s', h'. mrun. rewrite Hrun. split_and!; try done. by apply Hc'.
  - destruct (get_ptr_spec s h key n k W Hc Hk) as (p & s' & Hrun & (h' & W' & Hl & Hi & _ & Hc' & _) & Hp).
    exists (RPtr p), s', h'. mrun. rewrite Hrun. split_and!; try done. by apply Hc'.
  - exists (RInt (if existsb (λ i, cfl_hash_64bits (it_key i) =? hash) (items s h) then 1 else 0)), s, h.
    mrun. by rewrite (exists_spec s h hash W).
  - destruct (del_spec s h k rest W Hc Hne H0 Hmax) as (s' & Hrun & h' & W' & Hl & Hi & _ & Hc' & _).
    eexists (RInt _), s', h'. mrun. rewrite Hrun. split_and!; try done; [by apply Hc'|].
    by destruct (spec_find _ (items s h)).
  - eexists RNone, _, h. split; [done|]. split_and!; try done. destruct W. constructor; cbn; try done.
    intros id c Hid. by destruct (w_chain0 id c Hid).
Qed.

(** Tables after any sequence of calls. *)
Inductive table_run (ttl mode size max : Z) : hstate → Prop :=
| run_create s0 s :
    blank s0 → calm (h_env s0) →
    flb_hash_table_create_with_ttl ttl mode size max s0 = Some (true, s) → table_run ttl mode size max s
| run_call s op k arg r s' :
    table_run ttl mode size max s → op_ok op k arg → run_op op s = Some (r, s') →
    table_run ttl mode size max s'.

Lemma table_run_wf ttl mode size max s :
  0 < size <= INT_MAX → table_run ttl mode size max s →
  ∃ h, wf s h ∧ same_limits (new_table ttl mode size max) h ∧ calm (h_env s).
Proof.
  intros Hsize. induction 1 as [s0 s Hb Hc Hrun|s op k arg r s' _ (h & W & Hl & Hc) Hop Hrun].
  - destruct (create_spec s0 ttl mode size max Hb Hc Hsize) as (s' & Hrun' & W & _ & _ & Hc' & _).
    rewrite Hrun in Hrun'. injection Hrun' as <-. exists (new_table ttl mode size max). split_and!; try done. by apply Hc'.
  - destruct (call_spec s h op k arg W Hc Hop) as (r' & s1 & h' & Hrun' & W' & Hl' & Hc' & _).
    rewrite Hrun in Hrun'. injection Hrun' as <- <-. exists h'. split_and!; [done|by eapply same_limits_trans|done].
Qed.

Lemma spec_del_shorter k l i : i ∈ l → has_key k i → zlen (spec_del k l) < zlen l.
Proof.
  intros [l1 [l2 ->]]%list_elem_of_split Hk. unfold spec_del, zlen.
  rewrite filter_app, filter_cons_False by naive_solver. rewrite !length_app. cbn.
  pose proof (length_filter (λ j, ¬ has_key k j) l1). pose proof (length_filter (λ j, ¬ has_key k j) l2). lia.
Qed.
Lemma spec_del_length k l : zlen (spec_del k l) <= zlen l.
Proof. unfold spec_del, zlen. pose proof (length_filter (λ j, ¬ has_key k j) l). lia. Qed.
Lemma spec_update_length k f l : zlen (spec_update k f l) = zlen l.
Proof. unfold spec_update, zlen. by rewrite length_fmap. Qed.
Lemma spec_put_length now k v l : zlen (spec_put now k v l) <= zlen l + 1.
Proof.
  unfold spec_put. destruct (spec_find k l); [rewrite spec_update_length; lia|].
  unfold zlen. rewrite length_app. cbn. lia.
Qed.
Lemma spec_get_length ttl now k l : zlen (spec_get ttl now k l).2 <= zlen l.
Proof.
  unfold spec_get. destruct (spec_find k l); [|done]. destruct (expired _ _ _); cbn.
  - apply spec_del_length.
  - by rewrite spec_update_length.
Qed.

Lemma least_used_elem l : ∀ best, least_used l best ∈ best :: l.
Proof.
  induction l as [|i l IH]; intros best; cbn; [by left|].
  destruct (elem_of_cons l (least_used l (if it_hits i <? it_hits best then i else best))
    (if it_hits i <? it_hits best then i else best)) as [Hor _].
  destruct (Hor (IH _)) as [->|Hin]; [destruct (it_hits i <? it_hits best); [right; by left|by left]|].
  right. by right.
Qed.

Lemma spec_evict_length mode max rnd l :
  1 <= mode <= 3 → 0 < max → zlen l <= max → 0 <= rnd → zlen (spec_evict mode max rnd l) + 1 <= max.
Proof.
  intros Hmode Hmax Hl Hr. unfold spec_evict. rewrite (proj2 (Z.ltb_lt _ _)) by done. cbn.
  destruct (Z.leb_spec max (zlen l)) as [Hfull|]; [|lia].
  assert (Hv : ∃ i, spec_victim mode rnd l = Some i ∧ i ∈ l).
  { unfold spec_victim, FLB_HASH_TABLE_EVICT_OLDER, FLB_HASH_TABLE_EVICT_LESS_USED, FLB_HASH_TABLE_EVICT_RANDOM.
    destruct l as [|i l]; [unfold zlen in *; cbn in *; lia|]. destruct (Z.eqb_spec mode 1); [exists i; split; [done|by left]|].
    destruct (Z.eqb_spec mode 2); [eexists; split; [done|apply least_used_elem]|].
    destruct (Z.eqb_spec mode 3); [|lia].
    destruct (zlookup_is_Some (i :: l) (Z.rem rnd (zlen (i :: l)))) as [j Hj]; [apply Z.rem_bound_pos; lia|].
    exists j. split; [done|]. apply zlookup_Some in Hj as [_ Hj]. by eapply list_elem_of_lookup_2. }
  destruct Hv as (i & -> & Hi). pose proof (spec_del_shorter (it_key i) l i Hi eq_refl). lia.
Qed.

(** ** Properties *)

(** C10. The table is an association list.  After any calls that add, get (the value or a pointer to it), look for a hash,
    or delete by key, on a table made by [flb_hash_table_create_with_ttl], while no allocation fails, with keys that are
    not empty and have no NUL and values that are not the table's own, every further such call has a defined result
    and does to the items - in the order they were added - what [spec_step] says: adding makes room
    when the table is full and replaces or appends; getting finds the value last stored under the key,
    counts a hit, and drops the item when it is older than the TTL; deleting removes exactly the key;
    keys of a caseless table are compared without case.  Values come back as they were stored: copies
    byte for byte, pointers as they are.  (What own values and prefixes of keys do, and [flb_hash_table_get_by_id] and
    [flb_hash_table_del_ptr], is in [hash_table_own_value_crashes] and the examples.) *)
Theorem hash_table_refines ttl mode size max s :
  0 < size <= INT_MAX → table_run ttl mode size max s →
  ∃ h, ht_wf cfl_hash_64bits ext s h ∧ same_limits (new_table ttl mode size max) h ∧
    ∀ op k arg, op_ok op k arg → step_outcome s h op k arg.
Proof.
  intros Hs Hrun. destruct (table_run_wf ttl mode size max s Hs Hrun) as (h & W & Hl & Hc).
  exists h. split_and!; [done|done|]. intros op k arg. by apply call_spec.
Qed.

(** Capacity.  With one of the three eviction modes and a limit, a table never holds more entries
    than the limit, and [total_count] is the number of items it represents. *)
Theorem hash_table_capacity ttl mode size max s :
  0 < size <= INT_MAX → 1 <= mode <= 3 → 0 < max → table_run ttl mode size max s →
  ∃ h, h_ht s = Some h ∧ ht_total_count h = zlen (items s h) ∧ zlen (items s h) <= max.
Proof.
  intros Hs Hmode Hmax Hrun. cut (∃ h, wf s h ∧ same_limits (new_table ttl mode size max) h ∧ zlen (items s h) <= max).
  { intros (h & W & _ & Hle). exists h. split_and!; [apply W|symmetry; by apply zlen_items|done]. }
  induction Hrun as [s0 s Hb Hc Hrun|s op k arg r s' Hrun (h & W & Hl & Hle) Hop Hstep].
  - destruct (create_spec s0 ttl mode size max Hb Hc Hs) as (s' & Hrun' & W & Hi & _).
    rewrite Hrun in Hrun'. injection Hrun' as <-. exists (new_table ttl mode size max). split_and!; [done|done|].
    rewrite Hi. unfold zlen. cbn. lia.
  - destruct (table_run_wf ttl mode size max s Hs Hrun) as (h0 & W0 & _ & Hc).
    destruct (call_spec s h op k arg W Hc Hop) as (r' & s1 & h' & Hrun' & W' & Hl' & _ & Hi & _).
    rewrite Hstep in Hrun'. injection Hrun' as <- <-. exists h'.
    split_and!; [done|by eapply same_limits_trans|]. rewrite Hi. destruct Hl as (Hm1 & Hm2 & _). cbn in Hm1, Hm2.
    destruct Hop; cbn; try done; [| | |].
    + rewrite Hm1, Hm2. etrans; [apply spec_put_length|]. apply spec_evict_length; try done.
      unfold random_value. destruct (e_rand _); [done|]. by apply Z.mod_pos_bound.
    + etrans; [apply spec_get_length|done].
    + etrans; [apply spec_get_length|done].
    + etrans; [apply spec_del_length|done].
Qed.

(** No leaks.  Whatever calls were made, [flb_hash_table_destroy] frees every entry and every copy
    of a value exactly once: afterwards the memory is that of the callers, untouched. *)
Theorem hash_table_destroy_frees ttl mode size max s :
  0 < size <= INT_MAX → table_run ttl mode size max s →
  ∃ s', flb_hash_table_destroy s = Some (tt, s') ∧ h_mem s' = ext ∧ h_entries s' = ∅ ∧ h_ht s' = None.
Proof.
  intros Hs Hrun. destruct (table_run_wf ttl mode size max s Hs Hrun) as (h & W & _ & _).
  destruct (chains_entries s h W) as [Hnd Hin].
  destruct (free_all _ s h W Hnd Hin) as (s' & Hfree & (h' & W') & He).
  unfold flb_hash_table_destroy. unfold mbind at 1, M_bind at 1. rewrite (the_table_run s h (w_ht _ _ _ _ W)).
  assert (Hmap : ∀ cs s, foreach cs (λ chain, foreach (hc_chains chain) flb_hash_table_entry_free) s =
    foreach (hc_chains <$> cs) (λ l, foreach l flb_hash_table_entry_free) s).
  { induction cs as [|c cs IH]; intros s1; [done|]. cbn. mrun.
    destruct (foreach (hc_chains c) _ s1) as [[[] s2]|]; [|done]. apply IH. }
  mrun. rewrite Hmap, foreach_concat, Hfree. eexists. split; [done|]. split_and!; [cbn|done|done].
  apply map_eq. intros a. destruct (h_mem s' !! a) as [b|] eqn:Hb.
  - destruct (w_noleak _ _ _ _ W' a b Hb) as [?|(e & en & Hen & _)]; [done|]. by rewrite He, lookup_empty in Hen.
  - symmetry. by eapply lookup_weaken_None, (w_ext _ _ _ _ W').
Qed.

(** Use after free.  [flb_hash_table_add] frees the value of an existing key before it copies the
    new one: passing back the pointer the table itself returned for that key - the case its comment
    says it checks - reads freed memory. *)
Theorem hash_table_own_value_crashes s h e en a key key_len k size :
  ht_wf cfl_hash_64bits ext s h → calm (h_env s) → valid_key key key_len k →
  h_entries s !! e = Some en → entry_key (ht_case_sensitivity h) en = folding (ht_case_sensitivity h) <$> k →
  owned en = Some a → (ht_max_entries h <= 0 ∨ ht_total_count h < ht_max_entries h) → 0 < size < 2 ^ 63 →
  flb_hash_table_add cfl_hash_64bits (Some key) key_len (Some a) size s = None.
Proof.
  intros W Hc Hkey He Hk Ho Hroom Hsize. pose proof (valid_key_pos _ _ _ Hkey) as Hpos.
  unfold flb_hash_table_add. destruct (Z.leb_spec key_len 0); [lia|].
  assert (Hcap : check_capacity s = Some (tt, s)).
  { unfold check_capacity. mrun. rewrite (the_table_run s h (w_ht _ _ _ _ W)).
    destruct ((0 <? ht_max_entries h) && (ht_max_entries h <=? ht_total_count h)) eqn:Hf; [bool_prop; lia|done]. }
  unfold mbind at 1, M_bind at 1. rewrite Hcap.
  destruct (hash_get_entry_spec s h key key_len k W Hc) as (found & s1 & Hget & Hm & Hf); [apply Hkey|done|].
  unfold mbind at 1, M_bind at 1. rewrite Hget. destruct found as [e'|]; [|exfalso; by apply (Hf e en)].
  destruct Hf as (en' & He' & Hk'). assert (e' = e) as -> by (eapply (w_keys _ _ _ _ W); [done|done|congruence]).
  cbn [fmap option_fmap option_map]. pose proof (wf_moved _ _ _ W Hm) as W1.
  assert (He1 : h_entries s1 !! e = Some en) by by destruct Hm as (? & -> & _).
  assert (Hc1 : calm (h_env s1)) by by apply (moved_now _ _ Hm).
  unfold mbind at 1, M_bind at 1. cut (entry_set_value e (Some a) (u64 size) s1 = None); [by intros ->|].
  unfold entry_set_value, time_now. unfold mbind at 1, M_bind at 1. rewrite (entry_of_run s1 e en He1).
  unfold mbind at 1, M_bind at 1. rewrite free_owned.
  2: { intros b Hb. destruct (w_owned _ _ _ _ W1 e en b He1 Hb) as (_ & x & ? & _). by eexists. }
  unfold mbind at 1, M_bind at 1. unfold gets at 1. rewrite u64_id by lia.
  rewrite (proj2 (Z.ltb_lt 0 size)) by lia.
  unfold mbind at 1, M_bind at 1. rewrite (malloc_calm (value_freed en s1) Hc1). unfold deref. mrun.
  assert (Hgone : h_mem (value_freed en s1) !! a = None).
  { unfold value_freed. rewrite Ho. apply lookup_delete_eq. }
  cbn. by rewrite Hgone.
Qed.
End theory.

(** ** Examples *)

Definition ex_hash (k : list Z) : Z := foldr Z.add 0 k.
Definition ex_ext : gmap nat (list Z) := {[ 0%nat := [118; 49; 0] ]}.
Definition ex_blank : hstate := mk_hstate (mk_env [] [] [] 100 1 []) ex_ext ∅ None.
Definition ex_state {A} (m : M hstate A) (s : hstate) : hstate := default s (snd <$> m s).
Definition ex_table : hstate := ex_state (flb_hash_table_create_with_ttl 10 FLB_HASH_TABLE_EVICT_OLDER 4 2) ex_blank.
Definition ex_add (k : list Z) : ht_op := Add k (zlen k) (Some 0%nat) 2.
Definition ex_one : hstate := ex_state (run_op ex_hash (ex_add [97])) ex_table.

Lemma ex_blank_ok : blank ex_ext ex_blank.
Proof.
  constructor; try done. intros a Ha. unfold ex_ext. rewrite lookup_singleton_ne; [done|]. cbn in Ha. lia.
Qed.

Lemma ex_table_run : table_run ex_hash ex_ext 10 FLB_HASH_TABLE_EVICT_OLDER 4 2 ex_table.
Proof. apply (run_create _ _ _ _ _ _ ex_blank); [apply ex_blank_ok|done|vm_compute; reflexivity]. Qed.

Lemma ex_add_ok k : k ≠ [] → 0 ∉ k → op_ok ex_ext (ex_add k) k (Some (Copy [118; 49])).
Proof.
  intros Hne H0. apply ok_add; [|lia|done]. split_and!; [|done|done]. unfold read, zlen. pose proof (zlen_nonneg k).
  rewrite (proj2 (Z.leb_le _ _)), (proj2 (Z.leb_le _ _)) by lia. cbn. by rewrite Nat2Z.id, take_ge.
Qed.

Lemma ex_one_run : table_run ex_hash ex_ext 10 FLB_HASH_TABLE_EVICT_OLDER 4 2 ex_one.
Proof.
  apply (run_call _ _ _ _ _ _ ex_table (ex_add [97]) [97] (Some (Copy [118; 49])) (RInt 1)); [apply ex_table_run| |].
  - apply ex_add_ok; [done|]. intros [?|?%not_elem_of_nil]%elem_of_cons; [lia|done].
  - vm_compute. reflexivity.
Qed.

Lemma hash_table_refines_witness :
  ∃ h, ht_wf ex_hash ex_ext ex_one h ∧ same_limits (new_table 10 FLB_HASH_TABLE_EVICT_OLDER 4 2) h ∧
    ∀ op k arg, op_ok ex_ext op k arg → step_outcome ex_hash ex_ext ex_one h op k arg.
Proof. apply hash_table_refines; [by unfold INT_MAX|apply ex_one_run]. Defined.

Lemma hash_table_capacity_witness :
  ∃ h, h_ht ex_one = Some h ∧ ht_total_count h = zlen (items ex_one h) ∧ zlen (items ex_one h) <= 2.
Proof.
  apply (hash_table_capacity ex_hash ex_ext 10 FLB_HASH_TABLE_EVICT_OLDER 4);
    [by unfold INT_MAX|by unfold FLB_HASH_TABLE_EVICT_OLDER|lia|apply ex_one_run].
Defined.

Lemma hash_table_destroy_frees_witness :
  ∃ s', flb_hash_table_destroy ex_one = Some (tt, s') ∧ h_mem s' = ex_ext ∧ h_entries s' = ∅ ∧ h_ht s' = None.
Proof.
  apply (hash_table_destroy_frees ex_hash ex_ext 10 FLB_HASH_TABLE_EVICT_OLDER 4 2);
    [by unfold INT_MAX|apply ex_one_run].
Defined.

(** The second entry of a full table evicts the oldest, which is then not found. *)
Example ex_evicts :
  (λ r, r.1) <$> (run_op ex_hash (ex_add [98]) ≫= λ _, run_op ex_hash (ex_add [99]) ≫= λ _,
    run_op ex_hash (Get [97] 1)) ex_one = Some (RVal (-1) None).
Proof. vm_compute. reflexivity. Qed.

(** When the new value of a key cannot be allocated the old one is lost: the next
    [flb_hash_table_get] succeeds with a NULL value of the old size. *)
Example ex_replace_failure :
  (λ r, r.1) <$> (run_op ex_hash (Get [97] 1)) (ex_state (run_op ex_hash (ex_add [97]))
      (set_h_env (set_e_alloc [false] (h_env ex_one)) ex_one)) = Some (RVal 1 (Some (None, 2))).
Proof. vm_compute. reflexivity. Qed.

(** [flb_hash_table_del_ptr] deletes the key "ab" when it is asked for its prefix "a", as both hash to
    the same chain; [flb_hash_table_get_by_id] finds the only entry of a chain under any key. *)
Example ex_del_ptr_prefix :
  let s := ex_state (flb_hash_table_add (λ _, 7) (Some [97; 98]) 2 (Some 0%nat) 0) ex_table in
  ((λ r, r.1) <$> flb_hash_table_del_ptr (λ _, 7) [97; 0] 1 (Some 0%nat) s,
   (λ r, r.1) <$> flb_hash_table_get_by_id 3 [120; 0] s) =
  (Some 0, Some (0, Some (Some 0%nat, 2 ^ 64 - 1))).
Proof. vm_compute. reflexivity. Qed.

Lemma hash_table_own_value_crashes_witness :
  ∃ e en a, h_entries ex_one !! e = Some en ∧ owned en = Some a ∧
    flb_hash_table_add ex_hash (Some [97]) 1 (Some a) 2 ex_one = None.
Proof.
  destruct (table_run_wf ex_hash ex_ext 10 FLB_HASH_TABLE_EVICT_OLDER 4 2 ex_one) as (h & W & _ & Hc);
    [by unfold INT_MAX|apply ex_one_run|].
  pose proof (w_ht _ _ _ _ W) as Hh. vm_compute in Hh. injection Hh as <-.
  eexists 3%nat, _, _. split; [vm_compute; reflexivity|]. split; [vm_compute; reflexivity|].
  eapply (hash_table_own_value_crashes ex_hash ex_ext ex_one _ 3%nat _ _ [97] 1 [97]); [exact W|done| | | | | |].
  - split_and!; [done|done|]. intros [?|?%not_elem_of_nil]%elem_of_cons; [lia|done].
  - vm_compute. reflexivity.
  - vm_compute. reflexivity.
  - vm_compute. reflexivity.
  - right. by vm_compute.
  - lia.
Defined.
