(* ===== verification/Utf8.v ===== *)
(** * UTF-8 ([src/flb_utf8.c]; the encoder of [src/flb_unescape.c], the validator of [src/flb_utils.c])

    Bytes are [Z] from 0 to 255; code points are [uint32_t] values. *)
From S2P Require Import Prelude.

Definition FLB_UTF8_ACCEPT : Z := 0.
Definition FLB_UTF8_REJECT : Z := 1.
Definition FLB_UTF8_CONTINUE : Z := 2.

Definition trailing_bytes_for_utf8 : list Z :=
  replicate 192 0 ++ replicate 32 1 ++ replicate 16 2 ++ replicate 8 3 ++ replicate 4 4 ++ replicate 4 5.

(** The length of the sequence that starts with a byte; [None] is reading past the string. *)
Definition flb_utf8_len (s : list Z) : option Z :=
  b ← head s; n ← trailing_bytes_for_utf8 !z b; Some (n + 1).

(** One step of the decoder: the result, the new [*state] and the new [*codep].  FLB_UTF8_REJECT is
    also the state that expects one more byte. *)
Definition flb_utf8_decode (state codep byte : Z) : Z * Z * Z :=
  let finish state codep :=
    if state =? 0 then
      if (0xD800 <=? codep) && (codep <=? 0xDFFF) then (FLB_UTF8_REJECT, FLB_UTF8_REJECT, codep)
      else if 0x10FFFF <? codep then (FLB_UTF8_REJECT, FLB_UTF8_REJECT, codep)
      else (FLB_UTF8_ACCEPT, state, codep)
    else (FLB_UTF8_CONTINUE, state, codep) in
  if state =? 0 then
    if byte <=? 0x7F then (FLB_UTF8_ACCEPT, state, byte)
    else if Z.land byte 0xE0 =? 0xC0 then finish 1 (Z.land byte 0x1F)
    else if Z.land byte 0xF0 =? 0xE0 then finish 2 (Z.land byte 0x0F)
    else if Z.land byte 0xF8 =? 0xF0 then finish 3 (Z.land byte 0x07)
    else (FLB_UTF8_REJECT, FLB_UTF8_REJECT, codep)
  else if Z.land byte 0xC0 =? 0x80 then
    finish (state - 1) (Z.lor (u32 (Z.shiftl codep 6)) (Z.land byte 0x3F))
  else (FLB_UTF8_REJECT, FLB_UTF8_REJECT, codep).

(** The bytes the encoder writes; none for what is no code point. *)
Definition u8_wc_toutf8 (ch : Z) : list Z :=
  if ch <? 0x80 then [ch]
  else if ch <? 0x800 then [u8 (Z.lor (Z.shiftr ch 6) 0xC0); u8 (Z.lor (Z.land ch 0x3F) 0x80)]
  else if ch <? 0x10000 then
    [u8 (Z.lor (Z.shiftr ch 12) 0xE0); u8 (Z.lor (Z.land (Z.shiftr ch 6) 0x3F) 0x80);
     u8 (Z.lor (Z.land ch 0x3F) 0x80)]
  else if ch <? 0x110000 then
    [u8 (Z.lor (Z.shiftr ch 18) 0xF0); u8 (Z.lor (Z.land (Z.shiftr ch 12) 0x3F) 0x80);
     u8 (Z.lor (Z.land (Z.shiftr ch 6) 0x3F) 0x80); u8 (Z.lor (Z.land ch 0x3F) 0x80)]
  else [].

(** The loop of [flb_utf8_validate_char] over [n] continuation bytes. *)
Fixpoint cont_loop (len : Z) (n : nat) (rest : list Z) : option Z :=
  match n with
  | O => Some len
  | S n' =>
      match rest with
      | [] => None
      | b :: rest' => if Z.land b 0xC0 =? 0x80 then cont_loop len n' rest' else Some 0
      end
  end.

(** Its end: the sequence must not be truncated and go on with [len - 1] continuation bytes. *)
Definition expect (str : list Z) (max_len len : Z) : option Z :=
  if max_len <? len then Some 0 else cont_loop len (Z.to_nat (len - 1)) (tail str).

(** A test of the second byte, when there is one. *)
Definition second (str : list Z) (max_len : Z) (test : Z → bool) : option bool :=
  if 1 <? max_len then b ← head (tail str); Some (test b) else Some false.

(** [flb_utf8_validate_char]: the length of the well-formed sequence at the head of a string of
    [max_len] bytes, or 0.  [str] is the memory from the string on. *)
Definition flb_utf8_validate_char (str : list Z) (max_len : Z) : option Z :=
  c ← head str;
  if max_len <? 1 then Some 0
  else if c <=? 0x7F then Some 1
  else if Z.land c 0xE0 =? 0xC0 then if c <? 0xC2 then Some 0 else expect str max_len 2
  else if Z.land c 0xF0 =? 0xE0 then
    overlong ← (if c =? 0xE0 then second str max_len (λ b, b <? 0xA0) else Some false);
    surrogate ← (if c =? 0xED then second str max_len (λ b, 0xA0 <=? b) else Some false);
    if (overlong || surrogate : bool) then Some 0 else expect str max_len 3
  else if Z.land c 0xF8 =? 0xF0 then
    overlong ← (if c =? 0xF0 then second str max_len (λ b, b <? 0x90) else Some false);
    if (overlong : bool) then Some 0
    else if 0xF4 <? c then Some 0
    else
      beyond ← (if c =? 0xF4 then second str max_len (λ b, 0x8F <? b) else Some false);
      if (beyond : bool) then Some 0 else expect str max_len 4
  else Some 0.

(** ** Code points and their bytes *)

(** The code points UTF-8 encodes: no surrogates. *)
Definition scalar (ch : Z) : Prop := 0 <= ch < 0xD800 ∨ 0xE000 <= ch < 0x110000.

(** Feed bytes to the decoder until one is not FLB_UTF8_CONTINUE. *)
Fixpoint decode_loop (state codep : Z) (s : list Z) : Z * Z * Z :=
  match s with
  | [] => (FLB_UTF8_CONTINUE, state, codep)
  | b :: s' =>
      let '(ret, state', codep') := flb_utf8_decode state codep b in
      if ret =? FLB_UTF8_CONTINUE then decode_loop state' codep' s' else (ret, state', codep')
  end.

(** A boolean test of all bytes decides a property of bytes. *)
Lemma forall_byte (P : Z → bool) n b :
  forallb P (seqZ 0 n) = true → 0 <= b < n → P b = true.
Proof.
  intros H Hb. rewrite forallb_forall in H. apply H. apply list_elem_of_In, elem_of_seqZ. lia.
Qed.

Lemma forall_byte_dec (P : Z → Prop) `{∀ b, Decision (P b)} n b :
  forallb (λ b, bool_decide (P b)) (seqZ 0 n) = true → 0 <= b < n → P b.
Proof. intros Hall Hb. pose proof (forall_byte (λ b, bool_decide (P b)) n b Hall Hb) as HP. by apply bool_decide_eq_true in HP. Qed.

Lemma cont_byte_arith l : 0 <= l < 64 → Z.lor l 0x80 = 128 + l.
Proof. intros H. apply Z.eqb_eq. by apply (forall_byte (λ l, Z.lor l 0x80 =? 128 + l) 64). Qed.
Lemma lead2_arith h : 0 <= h < 32 → Z.lor h 0xC0 = 192 + h.
Proof. intros H. apply Z.eqb_eq. by apply (forall_byte (λ l, Z.lor l 0xC0 =? 192 + l) 32). Qed.
Lemma lead3_arith h : 0 <= h < 16 → Z.lor h 0xE0 = 224 + h.
Proof. intros H. apply Z.eqb_eq. by apply (forall_byte (λ l, Z.lor l 0xE0 =? 224 + l) 16). Qed.
Lemma lead4_arith h : 0 <= h < 8 → Z.lor h 0xF0 = 240 + h.
Proof. intros H. apply Z.eqb_eq. by apply (forall_byte (λ l, Z.lor l 0xF0 =? 240 + l) 8). Qed.

Lemma land_63 x : Z.land x 0x3F = x mod 64.
Proof. apply (Z.land_ones x 6). lia. Qed.
Lemma shiftr_6 x : Z.shiftr x 6 = x / 64.
Proof. by rewrite Z.shiftr_div_pow2. Qed.
Lemma shiftr_12 x : Z.shiftr x 12 = x / 64 / 64.
Proof. rewrite Z.shiftr_div_pow2 by lia. by rewrite Z.div_div. Qed.
Lemma shiftr_18 x : Z.shiftr x 18 = x / 64 / 64 / 64.
Proof. rewrite Z.shiftr_div_pow2 by lia. by rewrite !Z.div_div. Qed.

(** A continuation byte, and the bytes that lead sequences of two, three and four. *)
Definition cont (x : Z) : Z := 128 + x mod 64.

Lemma cont_eq x : u8 (Z.lor (Z.land x 0x3F) 0x80) = cont x.
Proof.
  pose proof (Z.mod_pos_bound x 64 ltac:(lia)). rewrite land_63, cont_byte_arith by done.
  unfold u8, cont. rewrite Z.mod_small; lia.
Qed.

(** The encoder in arithmetic. *)
Lemma toutf8_arith ch :
  0 <= ch < 0x110000 →
  u8_wc_toutf8 ch =
    if ch <? 0x80 then [ch]
    else if ch <? 0x800 then [192 + ch / 64; cont ch]
    else if ch <? 0x10000 then [224 + ch / 64 / 64; cont (ch / 64); cont ch]
    else [240 + ch / 64 / 64 / 64; cont (ch / 64 / 64); cont (ch / 64); cont ch].
Proof.
  intros H. unfold u8_wc_toutf8. rewrite !cont_eq, shiftr_6, shiftr_12, shiftr_18.
  destruct (Z.ltb_spec ch 0x80); [done|].
  destruct (Z.ltb_spec ch 0x800).
  { assert (0 <= ch / 64 < 32) by (Z.div_mod_to_equations; lia).
    rewrite lead2_arith by done. unfold u8. rewrite Z.mod_small by lia. done. }
  destruct (Z.ltb_spec ch 0x10000).
  { assert (0 <= ch / 64 / 64 < 16) by (Z.div_mod_to_equations; lia).
    rewrite lead3_arith by done. unfold u8. rewrite Z.mod_small by lia. done. }
  destruct (Z.ltb_spec ch 0x110000); [|lia].
  assert (0 <= ch / 64 / 64 / 64 < 8) by (Z.div_mod_to_equations; lia).
  rewrite lead4_arith by done. unfold u8. rewrite Z.mod_small by lia. done.
Qed.

Lemma toutf8_none ch : 0x110000 <= ch → u8_wc_toutf8 ch = [].
Proof. intros H. unfold u8_wc_toutf8. by rewrite !(proj2 (Z.ltb_ge ch _)) by lia. Qed.

Lemma cont_range x : 128 <= cont x < 192.
Proof. unfold cont. pose proof (Z.mod_pos_bound x 64 ltac:(lia)). lia. Qed.

Lemma toutf8_bytes ch : 0 <= ch → bytes_ok (u8_wc_toutf8 ch).
Proof.
  intros H. destruct (Z.lt_ge_cases ch 0x110000) as [Hc|Hc]; [|rewrite toutf8_none by done; by constructor].
  rewrite toutf8_arith by lia. pose proof (cont_range ch). pose proof (cont_range (ch / 64)).
  pose proof (cont_range (ch / 64 / 64)). unfold bytes_ok, is_byte.
  destruct (Z.ltb_spec ch 0x80); [repeat constructor; lia|].
  destruct (Z.ltb_spec ch 0x800); [repeat constructor; Z.div_mod_to_equations; lia|].
  destruct (Z.ltb_spec ch 0x10000); repeat constructor; Z.div_mod_to_equations; lia.
Qed.

(** ** The decoder in arithmetic *)

Lemma decode_ascii c b : 0 <= b < 0x80 → flb_utf8_decode 0 c b = (FLB_UTF8_ACCEPT, 0, b).
Proof. intros H. unfold flb_utf8_decode. cbn -[Z.land]. by destruct (Z.leb_spec b 0x7F); [|lia]. Qed.

Definition lead_ok (b : Z) : bool :=
  let r := flb_utf8_decode 0 0 b in
  let e := if b <? 192 then (FLB_UTF8_REJECT, FLB_UTF8_REJECT, 0)
           else if b <? 224 then (FLB_UTF8_CONTINUE, 1, b - 192)
           else if b <? 240 then (FLB_UTF8_CONTINUE, 2, b - 224)
           else if b <? 248 then (FLB_UTF8_CONTINUE, 3, b - 240)
           else (FLB_UTF8_REJECT, FLB_UTF8_REJECT, 0) in
  (b <? 128) || bool_decide (r = e).

(** The first byte of a longer sequence. *)
Lemma decode_lead c b :
  192 <= b < 248 →
  flb_utf8_decode 0 c b =
    if b <? 224 then (FLB_UTF8_CONTINUE, 1, b - 192)
    else if b <? 240 then (FLB_UTF8_CONTINUE, 2, b - 224)
    else (FLB_UTF8_CONTINUE, 3, b - 240).
Proof.
  intros H. pose proof (forall_byte lead_ok 256 b ltac:(vm_compute; reflexivity) ltac:(lia)) as Hb.
  unfold lead_ok in Hb. destruct (Z.ltb_spec b 128); [lia|]. cbn [orb] in Hb. apply bool_decide_eq_true in Hb.
  destruct (Z.ltb_spec b 192); [lia|]. revert Hb. unfold flb_utf8_decode. cbn -[Z.land].
  destruct (Z.leb_spec b 0x7F); [lia|].
  destruct (Z.ltb_spec b 224); [by destruct (Z.land b 0xE0 =? 0xC0), (Z.land b 0xF0 =? 0xE0), (Z.land b 0xF8 =? 0xF0)|].
  destruct (Z.ltb_spec b 240); [by destruct (Z.land b 0xE0 =? 0xC0), (Z.land b 0xF0 =? 0xE0), (Z.land b 0xF8 =? 0xF0)|].
  destruct (Z.ltb_spec b 248); [|lia].
  by destruct (Z.land b 0xE0 =? 0xC0), (Z.land b 0xF0 =? 0xE0), (Z.land b 0xF8 =? 0xF0).
Qed.

Definition bad_scalar (c : Z) : bool := ((0xD800 <=? c) && (c <=? 0xDFFF)) || (0x10FFFF <? c).

Lemma bad_scalar_false c : 0 <= c → bad_scalar c = false ↔ scalar c.
Proof.
  intros Hc. unfold bad_scalar, scalar.
  destruct (Z.leb_spec 0xD800 c), (Z.leb_spec c 0xDFFF), (Z.ltb_spec 0x10FFFF c); cbn; (split; [intros; (done || lia)|intros; (done || lia)]).
Qed.

(** A continuation byte, with more to come or as the last one. *)
Lemma decode_cont n c x :
  0 < n → 0 <= c < 2 ^ 26 →
  flb_utf8_decode n c (cont x) =
    let c' := c * 64 + x mod 64 in
    if n =? 1 then
      if bad_scalar c' then (FLB_UTF8_REJECT, FLB_UTF8_REJECT, c') else (FLB_UTF8_ACCEPT, 0, c')
    else (FLB_UTF8_CONTINUE, n - 1, c').
Proof.
  intros Hn Hc. unfold flb_utf8_decode. destruct (Z.eqb_spec n 0); [lia|].
  pose proof (Z.mod_pos_bound x 64 ltac:(lia)) as Hx. unfold cont. set (l := x mod 64) in *.
  assert (Hb : (Z.land (128 + l) 0xC0 =? 0x80) = true).
  { apply (forall_byte (λ l, Z.land (128 + l) 0xC0 =? 0x80) 64 l); [by vm_compute|done]. }
  assert (Hl : Z.land (128 + l) 0x3F = l).
  { rewrite land_63. Z.div_mod_to_equations. lia. }
  rewrite Hb, Hl. rewrite Z.shiftl_mul_pow2 by lia. change (2 ^ 6) with 64.
  rewrite u32_id by lia. assert (Hlor : Z.lor (c * 64) l = c * 64 + l).
  { rewrite Z.add_nocarry_lxor, Z.lxor_lor; [done| |]; apply Z.bits_inj'; intros k Hk;
      rewrite Z.land_spec, Z.bits_0; change 64 with (2 ^ 6); rewrite Z.mul_pow2_bits by lia;
      (destruct (Z.lt_ge_cases k 6); [by rewrite (Z.testbit_neg_r c) by lia|]);
      apply andb_false_iff; right; apply Z.testbit_false; [done| |done|];
      rewrite Z.div_small; [done| |done|]; (split; [lia|]);
      (eapply Z.lt_le_trans; [apply Hx|]; change 64 with (2 ^ 6); apply Z.pow_le_mono_r; lia). }
  rewrite Hlor. cbv zeta. destruct (Z.eqb_spec n 1) as [->|]; [cbn [Z.sub]; cbn -[Z.leb Z.ltb]|].
  - unfold bad_scalar. destruct ((0xD800 <=? c * 64 + l) && (c * 64 + l <=? 0xDFFF)); [done|].
    by destruct (0x10FFFF <? c * 64 + l).
  - destruct (Z.eqb_spec (n - 1) 0); [lia|done].
Qed.


(** The decoder reads all of [s] and then accepts [ch]. *)
Fixpoint decodes (state codep : Z) (s : list Z) (ch : Z) : Prop :=
  match s with
  | [] => False
  | b :: s' =>
      match s' with
      | [] => flb_utf8_decode state codep b = (FLB_UTF8_ACCEPT, 0, ch)
      | _ => ∃ state' codep', flb_utf8_decode state codep b = (FLB_UTF8_CONTINUE, state', codep') ∧
               decodes state' codep' s' ch
      end
  end.

Lemma decodes_loop s : ∀ state codep ch,
  decodes state codep s ch → decode_loop state codep s = (FLB_UTF8_ACCEPT, 0, ch).
Proof.
  induction s as [|b s IH]; intros state codep ch Hd; [done|]. cbn [decode_loop]. destruct s as [|b' s]; cbn [decodes] in Hd.
  - by rewrite Hd.
  - destruct Hd as (state' & codep' & -> & Hd). by apply IH.
Qed.

Lemma decodes_cons state c state' c' b s ch :
  flb_utf8_decode state c b = (FLB_UTF8_CONTINUE, state', c') → s ≠ [] → decodes state' c' s ch →
  decodes state c (b :: s) ch.
Proof. intros Hb Hs Hd. destruct s; [done|]. cbn [decodes]. eauto. Qed.

Lemma decode_more n c x s ch :
  1 < n → 0 <= c < 2 ^ 26 → s ≠ [] → decodes (n - 1) (c * 64 + x mod 64) s ch → decodes n c (cont x :: s) ch.
Proof.
  intros Hn Hc Hs. apply decodes_cons; [|done]. rewrite decode_cont by lia. by destruct (Z.eqb_spec n 1); [lia|].
Qed.
Lemma decode_last c x ch :
  0 <= c < 2 ^ 26 → scalar ch → c * 64 + x mod 64 = ch → decodes 1 c [cont x] ch.
Proof.
  intros Hc Hs <-. cbn [decodes]. rewrite decode_cont by lia. cbn [Z.eqb]. cbv zeta.
  by rewrite (proj2 (bad_scalar_false (c * 64 + x mod 64) ltac:(destruct Hs; lia)) Hs).
Qed.

Definition sequence_length (b : Z) : Z :=
  if b <? 192 then 1 else if b <? 224 then 2 else if b <? 240 then 3 else if b <? 248 then 4
  else if b <? 252 then 5 else 6.

Lemma utf8_len_spec b s : 0 <= b < 256 → flb_utf8_len (b :: s) = Some (sequence_length b).
Proof.
  intros Hb. change (flb_utf8_len [b] = Some (sequence_length b)).
  by apply (forall_byte_dec (λ b, flb_utf8_len [b] = Some (sequence_length b)) 256).
Qed.

(** The quotients and remainders a code point is cut into. *)
Ltac div64 := Z.div_mod_to_equations; lia.

(** The encoding of a code point decodes to it, and its first byte tells its length. *)
Lemma encoded_decodes ch codep rest :
  scalar ch →
  decodes 0 codep (u8_wc_toutf8 ch) ch ∧ flb_utf8_len (u8_wc_toutf8 ch ++ rest) = Some (zlen (u8_wc_toutf8 ch)).
Proof.
  intros Hch. assert (Hr : 0 <= ch < 0x110000) by (destruct Hch; lia). rewrite toutf8_arith by done.
  destruct (Z.ltb_spec ch 0x80).
  { split; [cbn [decodes]; by rewrite decode_ascii by lia|].
    cbn [app]. rewrite utf8_len_spec by lia. unfold sequence_length. by rewrite (proj2 (Z.ltb_lt ch 192)) by lia. }
  destruct (Z.ltb_spec ch 0x800).
  { assert (0 <= ch / 64 < 32) by div64. set (b := 192 + ch / 64).
    assert (Hb : (b <? 192) = false ∧ (b <? 224) = true) by (rewrite Z.ltb_ge, Z.ltb_lt; lia). destruct Hb as [Hb1 Hb2].
    split; [|cbn [app]; rewrite utf8_len_spec by lia; unfold sequence_length; by rewrite Hb1, Hb2].
    eapply decodes_cons; [rewrite decode_lead, Hb2 by lia; done|done|]. apply decode_last; [lia|done|div64]. }
  destruct (Z.ltb_spec ch 0x10000).
  { assert (0 <= ch / 64 / 64 < 16) by div64. set (b := 224 + ch / 64 / 64).
    assert (Hb : (b <? 192) = false ∧ (b <? 224) = false ∧ (b <? 240) = true) by (rewrite !Z.ltb_ge, Z.ltb_lt; lia).
    destruct Hb as (Hb1 & Hb2 & Hb3).
    split; [|cbn [app]; rewrite utf8_len_spec by lia; unfold sequence_length; by rewrite Hb1, Hb2, Hb3].
    eapply decodes_cons; [rewrite decode_lead, Hb2, Hb3 by lia; done|done|]. apply decode_more; [lia|lia|done|].
    replace ((b - 224) * 64 + (ch / 64) mod 64) with (ch / 64) by div64.
    apply decode_last; [div64|done|div64]. }
  assert (0 <= ch / 64 / 64 / 64 < 8) by div64. set (b := 240 + ch / 64 / 64 / 64).
  assert (Hb : (b <? 192) = false ∧ (b <? 224) = false ∧ (b <? 240) = false ∧ (b <? 248) = true)
    by (rewrite !Z.ltb_ge, Z.ltb_lt; lia). destruct Hb as (Hb1 & Hb2 & Hb3 & Hb4).
  split; [|cbn [app]; rewrite utf8_len_spec by lia; unfold sequence_length; by rewrite Hb1, Hb2, Hb3, Hb4].
  eapply decodes_cons; [rewrite decode_lead, Hb2, Hb3 by lia; done|done|]. apply decode_more; [lia|lia|done|].
  replace ((b - 240) * 64 + (ch / 64 / 64) mod 64) with (ch / 64 / 64) by div64.
  apply decode_more; [lia|div64|done|]. replace (ch / 64 / 64 * 64 + (ch / 64) mod 64) with (ch / 64) by div64.
  apply decode_last; [div64|done|div64].
Qed.

(** UTF-8 round trip.  For every code point that is not a surrogate, the decoder, started in
    its initial state, reads the bytes the encoder writes: it asks for more until the last byte,
    accepts that one and gives the code point back; and the length of the sequence is the one
    [flb_utf8_len] reads off its first byte. *)
Theorem utf8_roundtrip ch codep rest :
  scalar ch →
  decodes 0 codep (u8_wc_toutf8 ch) ch ∧
  decode_loop 0 codep (u8_wc_toutf8 ch) = (FLB_UTF8_ACCEPT, 0, ch) ∧
  flb_utf8_len (u8_wc_toutf8 ch ++ rest) = Some (zlen (u8_wc_toutf8 ch)).
Proof.
  intros Hch. destruct (encoded_decodes ch codep rest Hch) as [Hd Hl]. split_and!; [done|by apply decodes_loop|done].
Qed.

Lemma utf8_roundtrip_witness :
  scalar 0x20AC ∧ decodes 0 7 [0xE2; 0x82; 0xAC] 0x20AC ∧
  decode_loop 0 7 [0xE2; 0x82; 0xAC] = (FLB_UTF8_ACCEPT, 0, 0x20AC) ∧
  flb_utf8_len [0xE2; 0x82; 0xAC; 65] = Some 3.
Proof. split; [left; lia|]. exact (utf8_roundtrip 0x20AC 7 [65] ltac:(left; lia)). Defined.

(** FLB_UTF8_REJECT is a state from which a continuation byte is accepted: a caller that does not
    reset the state takes the rest of a rejected sequence for a character. *)
Example reject_is_not_sticky :
  flb_utf8_decode 0 0 0xFF = (FLB_UTF8_REJECT, FLB_UTF8_REJECT, 0) ∧
  flb_utf8_decode FLB_UTF8_REJECT 0 0xA9 = (FLB_UTF8_ACCEPT, 0, 0x29).
Proof. done. Qed.

(** Overlong sequences are accepted: 0xC0 0x80 decodes to the NUL character. *)
Example overlong_accepted : decode_loop 0 0 [0xC0; 0x80] = (FLB_UTF8_ACCEPT, 0, 0).
Proof. done. Qed.

(** ** The validator *)

Definition is_cont (b : Z) : bool := (128 <=? b) && (b <? 192).

Lemma land_cont b : is_byte b → (Z.land b 0xC0 =? 0x80) = is_cont b.
Proof. apply (forall_byte_dec (λ b, (Z.land b 0xC0 =? 0x80) = is_cont b) 256). by vm_compute. Qed.

Lemma land_leads c :
  is_byte c → (Z.land c 0xE0 =? 0xC0) = (192 <=? c) && (c <? 224) ∧
    (Z.land c 0xF0 =? 0xE0) = (224 <=? c) && (c <? 240) ∧ (Z.land c 0xF8 =? 0xF0) = (240 <=? c) && (c <? 248).
Proof.
  intros Hc. split_and!.
  - by apply (forall_byte_dec (λ c, (Z.land c 0xE0 =? 0xC0) = (192 <=? c) && (c <? 224)) 256).
  - by apply (forall_byte_dec (λ c, (Z.land c 0xF0 =? 0xE0) = (224 <=? c) && (c <? 240)) 256).
  - by apply (forall_byte_dec (λ c, (Z.land c 0xF8 =? 0xF0) = (240 <=? c) && (c <? 248)) 256).
Qed.

(** What the validator asks of the second byte after a given first one, and the length it expects. *)
Definition second_ok (c b : Z) : bool :=
  negb ((c =? 0xE0) && (b <? 0xA0)) && negb ((c =? 0xED) && (0xA0 <=? b)) &&
  negb ((c =? 0xF0) && (b <? 0x90)) && negb ((c =? 0xF4) && (0x8F <? b)).
Definition expected (c : Z) : nat :=
  if c <? 0x80 then 1 else if c <? 0xC2 then 0 else if c <? 0xE0 then 2 else if c <? 0xF0 then 3
  else if c <=? 0xF4 then 4 else 0.

(** The length of the well-formed sequence at the head of a string: the expected number of bytes, all
    but the first of them continuation bytes, no overlong form, no surrogate, nothing out of range. *)
Definition sequence (s : list Z) : nat :=
  match s with
  | [] => 0
  | c :: t =>
      let n := expected c in
      if Nat.leb n (length s) && forallb is_cont (take (n - 1) t) &&
         match t with b :: _ => Nat.leb n 1 || second_ok c b | [] => true end
      then n else 0
  end.

Lemma cont_loop_spec len n : ∀ rest,
  bytes_ok rest → (n <= length rest)%nat →
  cont_loop len n rest = Some (if forallb is_cont (take n rest) then len else 0).
Proof.
  induction n as [|n IH]; intros [|b rest] Hb Hl; cbn in Hl; try lia; try done.
  apply Forall_cons in Hb as [Hb Hr]. cbn. rewrite land_cont by done.
  destruct (is_cont b); [|done]. cbn. apply IH; [done|lia].
Qed.

Lemma expected_cases c :
  0 <= c → c < 128 ∧ expected c = 1%nat ∨ 128 <= c < 194 ∧ expected c = 0%nat ∨ 194 <= c < 224 ∧ expected c = 2%nat ∨
    224 <= c < 240 ∧ expected c = 3%nat ∨ 240 <= c < 245 ∧ expected c = 4%nat ∨ 245 <= c ∧ expected c = 0%nat.
Proof.
  intros Hc. unfold expected. destruct (Z.ltb_spec c 0x80); [lia|]. destruct (Z.ltb_spec c 0xC2); [lia|].
  destruct (Z.ltb_spec c 0xE0); [lia|]. destruct (Z.ltb_spec c 0xF0); [lia|]. destruct (Z.leb_spec c 0xF4); lia.
Qed.

(** The string cut at [max_len]: [max_len] bytes of it are readable. *)
Section validate.
Variables (c : Z) (t : list Z) (m : nat).
Hypothesis (Hc : is_byte c) (Ht : bytes_ok t) (Hm : (1 <= m <= S (length t))%nat).
#[local] Abbreviation str := (c :: t).
#[local] Abbreviation result := (Some (Z.of_nat (sequence (take m str)))).

Lemma sequence_cut n :
  expected c = n → (2 <= n)%nat →
  sequence (take m str) =
    if Nat.leb n m && forallb is_cont (take (n - 1) t) && match t with b :: _ => second_ok c b | [] => true end
    then n else 0%nat.
Proof.
  intros He Hn. destruct m as [|m']; [lia|]. cbn [take sequence]. rewrite He. cbn [length]. rewrite length_take.
  replace (S (m' `min` length t)) with (S m') by lia.
  destruct (Nat.leb_spec n (S m')); [|done]. rewrite take_take. replace ((n - 1) `min` m')%nat with (n - 1)%nat by lia.
  destruct t as [|b t']; [by rewrite !take_nil|]. destruct m' as [|m']; [lia|]. cbn [take].
  by destruct (Nat.leb_spec n 1); [lia|].
Qed.

(** [expect] when the test of the second byte has passed, and what the result is when it failed. *)
Lemma expect_spec n :
  expected c = n → (2 <= n)%nat → (∀ b t', t = b :: t' → (1 < m)%nat → second_ok c b = true) →
  expect str (Z.of_nat m) (Z.of_nat n) = result.
Proof.
  intros He Hn Hs. rewrite (sequence_cut n He Hn). unfold expect. cbn [tail].
  destruct (Z.ltb_spec (Z.of_nat m) (Z.of_nat n)); [by destruct (Nat.leb_spec n m); [lia|]|].
  destruct (Nat.leb_spec n m); [|lia]. replace (Z.to_nat (Z.of_nat n - 1)) with (n - 1)%nat by lia.
  rewrite cont_loop_spec by (done || lia). cbn [andb]. destruct t as [|b t'] eqn:Hb; [by destruct (forallb _ _)|].
  rewrite (Hs b t') by (done || lia). rewrite andb_true_r. by destruct (forallb _ _).
Qed.
Lemma expect_bad n b t' :
  expected c = n → (2 <= n)%nat → t = b :: t' → second_ok c b = false → Some 0 = result.
Proof. intros He Hn Hb Hs. rewrite (sequence_cut n He Hn), Hb, Hs. by rewrite andb_false_r. Qed.

Lemma sequence_none : expected c = 0%nat → Some 0 = result.
Proof. intros He. destruct m as [|m']; [lia|]. cbn [take sequence]. rewrite He. by destruct (_ && _). Qed.

Lemma second_spec test :
  second str (Z.of_nat m) test = Some match t with b :: _ => Nat.ltb 1 m && test b | [] => false end.
Proof.
  unfold second. cbn [tail]. destruct t as [|b t'].
  - cbn in Hm. by destruct (Z.ltb_spec 1 (Z.of_nat m)); [lia|].
  - destruct (Z.ltb_spec 1 (Z.of_nat m)), (Nat.ltb_spec 1 m); try lia; done.
Qed.

(** The test [bad] of the second byte decides the sequences of three and of four bytes. *)
Lemma expect_second n bad :
  expected c = n → (2 <= n)%nat → (∀ b, second_ok c b = negb (bad b)) →
  (if match t with b :: _ => Nat.ltb 1 m && bad b | [] => false end then Some 0
   else expect str (Z.of_nat m) (Z.of_nat n)) = result.
Proof.
  intros He Hn Hs. set (test := match t with b :: _ => Nat.ltb 1 m && bad b | [] => false end).
  assert (Hcase : (∀ b t', t = b :: t' → test = Nat.ltb 1 m && bad b) ∧ (t = [] → test = false)).
  { split; [by intros b t' Hb; unfold test; rewrite Hb|by intros Hb; unfold test; rewrite Hb]. }
  clearbody test. destruct Hcase as [Hcons Hnil]. destruct test.
  - assert (Hex : ∃ b t', t = b :: t') by (destruct t; [by discriminate Hnil|eauto]). destruct Hex as (b & t' & Hb).
    specialize (Hcons b t' Hb). symmetry in Hcons. apply andb_true_iff in Hcons as [_ Hbad].
    apply (expect_bad n b t'); try done. by rewrite Hs, Hbad.
  - apply expect_spec; [done|done|]. intros b t' Hb Hlt. specialize (Hcons b t' Hb). rewrite Hs.
    destruct (Nat.ltb_spec 1 m); [cbn in Hcons|lia]. by rewrite <- Hcons.
Qed.

(** The validator finds the well-formed sequence at the head of the string. *)
Lemma validate_spec : flb_utf8_validate_char str (Z.of_nat m) = result.
Proof.
  unfold flb_utf8_validate_char. cbn [head mbind option_bind]. destruct (Z.ltb_spec (Z.of_nat m) 1); [lia|].
  destruct (land_leads c Hc) as (-> & -> & ->). destruct (expected_cases c ltac:(apply Hc)) as [[Hr He]|[[Hr He]|[[Hr He]|[[Hr He]|[[Hr He]|[Hr He]]]]]].
  - rewrite (proj2 (Z.leb_le c 0x7F)) by lia. destruct m as [|m']; [lia|]. cbn [take sequence]. rewrite He. cbn.
    by destruct (take m' t).
  - rewrite (proj2 (Z.leb_gt c 0x7F)) by lia. rewrite (proj2 (Z.leb_gt 224 c)), (proj2 (Z.leb_gt 240 c)) by lia.
    cbn [andb]. rewrite (proj2 (Z.ltb_lt c 0xC2)) by lia. destruct (_ && _); by apply sequence_none.
  - rewrite (proj2 (Z.leb_gt c 0x7F)), (proj2 (Z.leb_le 192 c)), (proj2 (Z.ltb_lt c 224)), (proj2 (Z.ltb_ge c 0xC2)) by lia.
    apply (expect_spec 2); [done|lia|]. intros b t' _ _. unfold second_ok. by rewrite !(proj2 (Z.eqb_neq c _)) by lia.
  - rewrite (proj2 (Z.leb_gt c 0x7F)), (proj2 (Z.ltb_ge c 224)), (proj2 (Z.leb_le 224 c)), (proj2 (Z.ltb_lt c 240)) by lia.
    rewrite andb_false_r. cbn [andb]. rewrite !second_spec.
    rewrite <- (expect_second 3 (λ b, (c =? 224) && (b <? 160) || (c =? 237) && (160 <=? b)) He ltac:(lia)).
    + generalize (Nat.ltb 1 m). intros []; destruct (c =? 224), (c =? 237), t as [|b t'];
        cbn [andb orb mbind option_bind]; try done; by destruct (b <? 160), (160 <=? b).
    + intros b. unfold second_ok. rewrite (proj2 (Z.eqb_neq c 0xF0)), (proj2 (Z.eqb_neq c 0xF4)) by lia.
      cbn [andb negb]. by rewrite !andb_true_r, negb_orb.
  - rewrite (proj2 (Z.leb_gt c 0x7F)), (proj2 (Z.ltb_ge c 224)), (proj2 (Z.ltb_ge c 240)), (proj2 (Z.leb_le 240 c)),
      (proj2 (Z.ltb_lt c 248)) by lia. rewrite !andb_false_r. cbn [andb]. rewrite !second_spec.
    rewrite (proj2 (Z.ltb_ge 0xF4 c)) by lia.
    rewrite <- (expect_second 4 (λ b, (c =? 240) && (b <? 144) || (c =? 244) && (143 <? b)) He ltac:(lia)).
    + generalize (Nat.ltb 1 m). intros []; destruct (c =? 240), (c =? 244), t as [|b t'];
        cbn [andb orb mbind option_bind]; try done; by destruct (b <? 144), (143 <? b).
    + intros b. unfold second_ok. rewrite (proj2 (Z.eqb_neq c 0xE0)), (proj2 (Z.eqb_neq c 0xED)) by lia.
      cbn [andb negb]. by rewrite negb_orb.
  - rewrite (proj2 (Z.leb_gt c 0x7F)), (proj2 (Z.ltb_ge c 224)), (proj2 (Z.ltb_ge c 240)), (proj2 (Z.ltb_lt 0xF4 c)) by lia.
    rewrite !andb_false_r. rewrite !second_spec. rewrite <- (sequence_none He).
    destruct (_ && _); [|done]. by destruct (if c =? 240 then _ else _) as [[]|] eqn:Hx; [| |destruct (c =? 240)].
Qed.
End validate.

Lemma is_cont_cont x : is_cont (cont x) = true.
Proof. unfold is_cont. pose proof (cont_range x). by rewrite (proj2 (Z.leb_le _ _)), (proj2 (Z.ltb_lt _ _)) by lia. Qed.
Lemma is_cont_inv b : is_cont b = true → ∃ x, 0 <= x < 64 ∧ b = 128 + x.
Proof. unfold is_cont. intros H. bool_prop. exists (b - 128). lia. Qed.

(** The encoding of a code point is a well-formed sequence... *)
Lemma sequence_encoded ch rest :
  scalar ch → sequence (u8_wc_toutf8 ch ++ rest) = length (u8_wc_toutf8 ch).
Proof.
  intros Hch. assert (Hr : 0 <= ch < 0x110000) by (destruct Hch; lia). rewrite toutf8_arith by done.
  unfold sequence. destruct (Z.ltb_spec ch 0x80).
  { cbn [app]. destruct (expected_cases ch) as [[? ->]|?]; [lia| |lia]. cbn. by destruct rest. }
  pose proof (is_cont_cont ch) as H0. pose proof (is_cont_cont (ch / 64)) as H1. pose proof (is_cont_cont (ch / 64 / 64)) as H2.
  destruct (Z.ltb_spec ch 0x800).
  { assert (194 <= 192 + ch / 64 < 224) by div64. cbn [app]. set (c := 192 + ch / 64) in *.
    destruct (expected_cases c) as [[? ?]|[[? ?]|[[? ->]|?]]]; try lia. cbn. rewrite H0. unfold second_ok.
    by rewrite !(proj2 (Z.eqb_neq c _)) by lia. }
  destruct (Z.ltb_spec ch 0x10000).
  { assert (224 <= 224 + ch / 64 / 64 < 240) by div64. cbn [app]. set (c := 224 + ch / 64 / 64) in *.
    destruct (expected_cases c) as [[? ?]|[[? ?]|[[? ?]|[[? ->]|?]]]]; try lia. cbn. rewrite H0, H1.
    replace (second_ok c (cont (ch / 64))) with true; [done|]. symmetry. unfold second_ok.
    rewrite (proj2 (Z.eqb_neq c 0xF0)), (proj2 (Z.eqb_neq c 0xF4)) by lia. cbn [andb negb]. rewrite !andb_true_r.
    apply andb_true_iff. rewrite !negb_true_iff, !andb_false_iff. unfold c, cont, scalar in *.
    rewrite !Z.eqb_neq, Z.ltb_ge, Z.leb_gt. split; div64. }
  assert (240 <= 240 + ch / 64 / 64 / 64 < 245) by div64. cbn [app]. set (c := 240 + ch / 64 / 64 / 64) in *.
  destruct (expected_cases c) as [[? ?]|[[? ?]|[[? ?]|[[? ?]|[[? ->]|?]]]]]; try lia. cbn. rewrite H0, H1, H2.
  replace (second_ok c (cont (ch / 64 / 64))) with true; [done|]. symmetry. unfold second_ok.
  rewrite (proj2 (Z.eqb_neq c 0xE0)), (proj2 (Z.eqb_neq c 0xED)) by lia. cbn [andb negb].
  apply andb_true_iff. rewrite !negb_true_iff, !andb_false_iff. unfold c, cont in *.
  rewrite !Z.eqb_neq, !Z.ltb_ge. split; div64.
Qed.

(** ... and every well-formed sequence is the encoding of a code point. *)
Lemma sequence_decoded s :
  bytes_ok s → sequence s ≠ 0%nat → ∃ ch, scalar ch ∧ take (sequence s) s = u8_wc_toutf8 ch.
Proof.
  destruct s as [|c t]; [done|]. intros [Hc Ht]%Forall_cons. unfold sequence.
  destruct (_ && _) eqn:Hok; [|done]. intros Hne. apply andb_true_iff in Hok as [[Hl%Nat.leb_le Hcont]%andb_true_iff Hs].
  destruct (expected_cases c) as [[? He]|[[? He]|[[? He]|[[? He]|[[? He]|[? He]]]]]]; [apply Hc|..]; rewrite He in *; try done.
  - exists c. split; [left; unfold is_byte in *; lia|]. unfold u8_wc_toutf8. cbn.
    by rewrite (proj2 (Z.ltb_lt c 128)) by lia.
  - destruct t as [|b1 t]; [cbn in Hl; lia|]. cbn in Hcont. rewrite andb_true_r in Hcont.
    apply is_cont_inv in Hcont as (x & Hx & ->). exists ((c - 192) * 64 + x).
    split; [left; lia|]. rewrite toutf8_arith by lia. rewrite (proj2 (Z.ltb_ge _ 0x80)), (proj2 (Z.ltb_lt _ 0x800)) by lia.
    cbn [take]. rewrite take_0. unfold cont. repeat f_equal; div64.
  - destruct t as [|b1 [|b2 t]]; [cbn in Hl; lia|cbn in Hl; lia|]. cbn in Hcont, Hs. rewrite andb_true_r in Hcont.
    apply andb_true_iff in Hcont as [(x & Hx & ->)%is_cont_inv (y & Hy & ->)%is_cont_inv].
    unfold second_ok in Hs. rewrite (proj2 (Z.eqb_neq c 0xF0)), (proj2 (Z.eqb_neq c 0xF4)) in Hs by lia. cbn [andb negb] in Hs.
    rewrite !andb_true_r, andb_true_iff, !negb_true_iff, !andb_false_iff, !Z.eqb_neq, Z.ltb_ge, Z.leb_gt in Hs.
    exists (((c - 224) * 64 + x) * 64 + y). split; [unfold scalar; lia|]. rewrite toutf8_arith by lia.
    rewrite (proj2 (Z.ltb_ge _ 0x80)), (proj2 (Z.ltb_ge _ 0x800)), (proj2 (Z.ltb_lt _ 0x10000)) by lia.
    cbn [take]. rewrite take_0. unfold cont. repeat f_equal; div64.
  - destruct t as [|b1 [|b2 [|b3 t]]]; try (cbn in Hl; lia). cbn in Hcont, Hs. rewrite andb_true_r in Hcont.
    apply andb_true_iff in Hcont as [(x & Hx & ->)%is_cont_inv [(y & Hy & ->)%is_cont_inv (z & Hz & ->)%is_cont_inv]%andb_true_iff].
    unfold second_ok in Hs. rewrite (proj2 (Z.eqb_neq c 0xE0)), (proj2 (Z.eqb_neq c 0xED)) in Hs by lia. cbn [andb negb] in Hs.
    rewrite andb_true_iff, !negb_true_iff, !andb_false_iff, !Z.eqb_neq, !Z.ltb_ge in Hs.
    exists ((((c - 240) * 64 + x) * 64 + y) * 64 + z). split; [right; lia|]. rewrite toutf8_arith by lia.
    rewrite (proj2 (Z.ltb_ge _ 0x80)), (proj2 (Z.ltb_ge _ 0x800)), (proj2 (Z.ltb_ge _ 0x10000)) by lia.
    cbn [take]. rewrite take_0. unfold cont. repeat f_equal; div64.
Qed.

(** What the validator says of any string, and of one that starts with an encoding. *)
Lemma validate_total s m :
  bytes_ok s → (1 <= m <= length s)%nat →
  flb_utf8_validate_char s (Z.of_nat m) = Some (Z.of_nat (sequence (take m s))).
Proof. destruct s as [|c t]; [cbn; lia|]. intros [Hc Ht]%Forall_cons Hm. by apply validate_spec. Qed.

Lemma sequence_le s : (sequence s <= length s)%nat.
Proof.
  destruct s as [|c t]; [done|]. unfold sequence. destruct (_ && _) eqn:Hok; [|lia].
  by apply andb_true_iff in Hok as [[Hle%Nat.leb_le _]%andb_true_iff _].
Qed.

Lemma validate_encoded ch s m :
  scalar ch → bytes_ok s → (length (u8_wc_toutf8 ch) <= m <= length (u8_wc_toutf8 ch ++ s))%nat →
  flb_utf8_validate_char (u8_wc_toutf8 ch ++ s) (Z.of_nat m) = Some (zlen (u8_wc_toutf8 ch)).
Proof.
  intros Hch Hs Hm. assert (0 <= ch < 0x110000) by (destruct Hch; lia).
  assert (Hne : u8_wc_toutf8 ch ≠ []).
  { rewrite toutf8_arith by done. by destruct (ch <? 0x80), (ch <? 0x800), (ch <? 0x10000). }
  assert (1 <= length (u8_wc_toutf8 ch))%nat by (destruct (u8_wc_toutf8 ch); [done|cbn; lia]).
  rewrite validate_total; [|by apply Forall_app; split; [apply toutf8_bytes; lia|]|lia].
  by rewrite take_app_ge, sequence_encoded by (done || lia).
Qed.

(** The validator is exact.  Given [max_len] readable bytes, [flb_utf8_validate_char] never reads
    beyond them and returns the length of the encoding of a code point when the string starts with
    one, and 0 otherwise: overlong forms, surrogates, values beyond U+10FFFF, stray continuation
    bytes and truncated sequences are all refused. *)
Theorem utf8_validate_exact s max_len :
  bytes_ok s → 1 <= max_len <= zlen s →
  ∃ n, flb_utf8_validate_char s max_len = Some n ∧ 0 <= n <= max_len ∧
    (n ≠ 0 → ∃ ch, scalar ch ∧ take (Z.to_nat n) s = u8_wc_toutf8 ch) ∧
    ∀ ch rest, scalar ch → take (Z.to_nat max_len) s = u8_wc_toutf8 ch ++ rest → n = zlen (u8_wc_toutf8 ch).
Proof.
  intros Hb Hm. set (m := Z.to_nat max_len). assert (Hm' : (1 <= m <= length s)%nat) by (unfold m, zlen in *; lia).
  assert (Hv := validate_total s m Hb Hm'). replace (Z.of_nat m) with max_len in Hv by (unfold m; lia).
  pose proof (sequence_le (take m s)) as Hn. rewrite length_take in Hn. set (n := sequence (take m s)) in *.
  exists (Z.of_nat n). split_and!; [done|lia|lia| |].
  - intros Hne. destruct (sequence_decoded (take m s)) as (ch & Hch & Ht'); [by apply Forall_take|fold n; lia|].
    exists ch. split; [done|]. rewrite <- Ht'. fold n. rewrite take_take, Nat2Z.id. by rewrite Nat.min_l by lia.
  - intros ch rest Hch Hs. unfold n. rewrite Hs. by rewrite sequence_encoded.
Qed.

Lemma utf8_validate_exact_witness :
  ∃ n, flb_utf8_validate_char [0xE2; 0x82; 0xAC; 65] 4 = Some n ∧ 0 <= n <= 4 ∧
    (n ≠ 0 → ∃ ch, scalar ch ∧ take (Z.to_nat n) [0xE2; 0x82; 0xAC; 65] = u8_wc_toutf8 ch) ∧
    ∀ ch rest, scalar ch → take (Z.to_nat 4) [0xE2; 0x82; 0xAC; 65] = u8_wc_toutf8 ch ++ rest → n = zlen (u8_wc_toutf8 ch).
Proof.
  apply (utf8_validate_exact [0xE2; 0x82; 0xAC; 65] 4); [|by vm_compute]. unfold bytes_ok, is_byte. repeat (apply Forall_cons; split; [lia|]). by constructor.
Defined.
