(* ===== verification/Unescape.v ===== *)
(** * Unescaping of strings ([src/flb_unescape.c])

    The input is the list of its [sz] bytes, the output the bytes written to a buffer of a given
    capacity: writing beyond it is undefined behaviour.  Plain [char] is signed, as the build sets it
    where it is not. *)
From S2P Require Import Prelude Utf8.

(** ** Characters *)

Definition BACKSLASH : Z := 92.
Definition QUOTE : Z := 34.

Definition octal_digit (c : Z) : bool := (48 <=? c) && (c <=? 55).
Definition hex_digit (c : Z) : bool :=
  ((48 <=? c) && (c <=? 57)) || ((65 <=? c) && (c <=? 70)) || ((97 <=? c) && (c <=? 102)).

Definition digit_value (c : Z) : Z := if c <=? 57 then c - 48 else if c <=? 70 then c - 55 else c - 87.

(** [strtol] of a string of digits only; 0 when there are none. *)
Definition strtol (base : Z) (digs : list Z) : Z := foldl (λ v c, v * base + digit_value c) 0 digs.

(** At most [max] digits at the head of a string. *)
Fixpoint digits (test : Z → bool) (max : nat) (s : list Z) : list Z :=
  match max, s with
  | S max', c :: s' => if test c then c :: digits test max' s' else []
  | _, _ => []
  end.

Definition u8_high_surrogate (ch : Z) : bool := (0xD800 <=? ch) && (ch <=? 0xDBFF).
Definition u8_low_surrogate (ch : Z) : bool := (0xDC00 <=? ch) && (ch <=? 0xDFFF).
Definition u8_combine_surrogates (high low : Z) : Z :=
  u32 (0x10000 + Z.lor (u32 (Z.shiftl (u32 (high - 0xD800)) 10)) (u32 (low - 0xDC00))).

(** The second half of a surrogate pair, at [str + i]: the index after it and the code point. *)
Definition read_low_surrogate (str : list Z) (i : nat) (high : Z) : nat * Z :=
  match drop i str with
  | b :: u :: rest =>
      if (Z.of_nat i + 2 <? zlen str) && (b =? BACKSLASH) && (u =? 117) then
        let ldigs := digits hex_digit 4 rest in
        let i := (i + 2 + length ldigs)%nat in
        if negb (Nat.eqb (length ldigs) 4) && Nat.ltb 0 (length ldigs) then (i, 0xFFFD)
        else
          let low := strtol 16 ldigs in
          if u8_low_surrogate low then (i, u8_combine_surrogates high low) else (i, 0xFFFD)
      else (i, 0xFFFD)
  | _ => (i, 0xFFFD)
  end.

(** The number of characters read after the backslash, and the code point. *)
Definition u8_read_escape_sequence (str : list Z) : option (nat * Z) :=
  match str with
  | [] => None
  | c :: rest => Some (
      if c =? 110 then (1%nat, 10)                                        (* n *)
      else if c =? 116 then (1%nat, 9)                                    (* t *)
      else if c =? 114 then (1%nat, 13)                                   (* r *)
      else if c =? 98 then (1%nat, 8)                                     (* b *)
      else if c =? 102 then (1%nat, 12)                                   (* f *)
      else if c =? 118 then (1%nat, 11)                                   (* v *)
      else if c =? 97 then (1%nat, 7)                                     (* a *)
      else if octal_digit c then
        let digs := digits octal_digit 3 str in (length digs, strtol 8 digs)
      else if c =? 120 then                                               (* x *)
        let digs := digits hex_digit 2 rest in
        (S (length digs), if Nat.ltb 0 (length digs) then strtol 16 digs else c)
      else if c =? 117 then                                               (* u *)
        let digs := digits hex_digit 4 rest in
        let i := S (length digs) in
        if negb (Nat.eqb (length digs) 4) && Nat.ltb 0 (length digs) then (i, 0xFFFD)
        else
          let ch := strtol 16 digs in
          if u8_low_surrogate ch then (i, 0xFFFD)
          else if u8_high_surrogate ch then read_low_surrogate str i ch
          else (i, ch)
      else if c =? 85 then                                                (* U *)
        let digs := digits hex_digit 8 rest in
        (S (length digs), if Nat.ltb 0 (length digs) then u32 (strtol 16 digs) else c)
      else (1%nat, u32 (i8 c)))
  end.

(** ** [flb_unescape_string_utf8] *)

Definition put (cap : Z) (bytes out : list Z) : option (list Z) :=
  if zlen out + zlen bytes <=? cap then Some (out ++ bytes) else None.

(** The character at the head of the input: how many bytes it takes, and its code point. *)
Definition next_char (input : list Z) : option (nat * Z) :=
  match input with
  | [] => None
  | b :: next =>
      match next with
      | e :: _ =>
          if b =? BACKSLASH then
            if (e =? QUOTE) || (e =? 39) || (e =? BACKSLASH) || (e =? 47) then Some (2%nat, e)
            else if e =? 110 then Some (2%nat, 10)
            else if e =? 98 then Some (2%nat, 8)
            else if e =? 116 then Some (2%nat, 9)
            else if e =? 102 then Some (2%nat, 12)
            else if e =? 114 then Some (2%nat, 13)
            else '(i, ch) ← u8_read_escape_sequence next; Some (S i, ch)
          else Some (1%nat, u32 (i8 b))
      | [] => Some (1%nat, u32 (i8 b))
      end
  end.

(** The bytes written for a code point; what is none is written as one byte. *)
Definition char_bytes (ch : Z) : list Z :=
  match u8_wc_toutf8 ch with [] => [u8 ch] | bytes => bytes end.

(** [input] is what is left of the input, [fuel] bounds the number of characters. *)
Fixpoint unescape_loop (fuel : nat) (cap sz : Z) (input : list Z) (count_in : Z) (out : list Z)
    : option (list Z) :=
  match fuel with
  | O => None
  | S fuel' =>
      match input with
      | [] => Some out
      | b :: _ =>
          if (b =? 0) || (sz <=? count_in) then Some out
          else
            '(esc_in, ch) ← next_char input;
            if sz - zlen out <? zlen (u8_wc_toutf8 ch) then Some out          (* crossing over string boundary *)
            else
              out' ← put cap (char_bytes ch) out;
              unescape_loop fuel' cap sz (drop esc_in input) (count_in + Z.of_nat esc_in) out'
      end
  end.

(** The result, and the buffer up to the terminating NUL. *)
Definition flb_unescape_string_utf8 (in_buf : list Z) (cap : Z) : option (Z * list Z) :=
  out ← unescape_loop (S (length in_buf)) cap (zlen in_buf) in_buf 0 [];
  buf ← put cap [0] out;
  Some (zlen out, buf).

(** ** [flb_unescape_string] and [flb_mysql_unquote_string]

    [buf] is the memory from the string on: a read past [buf_len] may still hit it. *)
Definition simple_escape (n : Z) : option Z :=
  if n =? 110 then Some 10 else if n =? 97 then Some 7 else if n =? 98 then Some 8
  else if n =? 116 then Some 9 else if n =? 118 then Some 11 else if n =? 102 then Some 12
  else if n =? 114 then Some 13 else if n =? BACKSLASH then Some BACKSLASH else None.

Fixpoint unescape_simple (fuel : nat) (cap : Z) (buf : list Z) (buf_len i : Z) (p : list Z) : option (list Z) :=
  match fuel with
  | O => None
  | S fuel' =>
      if buf_len <=? i then Some p
      else
        c ← buf !z i;
        if c =? BACKSLASH then
          if i + 1 <? buf_len then
            n ← buf !z (i + 1);
            match simple_escape n with
            | Some x => p' ← put cap [x] p; unescape_simple fuel' cap buf buf_len (i + 2) p'
            | None => unescape_simple fuel' cap buf buf_len (i + 1) p
            end
          else
            c ← buf !z (i + 1); p' ← put cap [c] p; unescape_simple fuel' cap buf buf_len (i + 2) p'
        else p' ← put cap [c] p; unescape_simple fuel' cap buf buf_len (i + 1) p'
  end.

Definition flb_unescape_string (buf : list Z) (buf_len cap : Z) : option (Z * list Z) :=
  p ← unescape_simple (S (Z.to_nat buf_len)) cap buf buf_len 0 [];
  p' ← put cap [0] p;
  Some (zlen p, p').

Definition mysql_escape (n : Z) : list Z :=
  if n =? 110 then [10] else if n =? 114 then [13] else if n =? 116 then [9]
  else if n =? BACKSLASH then [BACKSLASH] else if n =? 39 then [39] else if n =? QUOTE then [QUOTE]
  else if n =? 48 then [0] else if n =? 90 then [0x1a] else [BACKSLASH; n].

Fixpoint unquote_loop (cap : Z) (buf : list Z) (p : list Z) : option (list Z) :=
  match buf with
  | [] => Some p
  | n :: rest =>
      if negb (n =? BACKSLASH) then p' ← put cap [n] p; unquote_loop cap rest p'
      else
        match rest with
        | [] => put cap [n] p
        | n' :: rest' => p' ← put cap (mysql_escape n') p; unquote_loop cap rest' p'
        end
  end.

Definition flb_mysql_unquote_string (buf : list Z) (cap : Z) : option (Z * list Z) :=
  p ← unquote_loop cap buf [];
  p' ← put cap [0] p;
  Some (zlen p, p').

(** ** The reference *)

(** The characters of a string, without bounds: what the buffer should hold. *)
Fixpoint unescaped (fuel : nat) (input : list Z) : list Z :=
  match fuel with
  | O => []
  | S fuel' =>
      match input with
      | [] => []
      | b :: _ =>
          if b =? 0 then []
          else
            match next_char input with
            | Some (n, ch) => char_bytes ch ++ unescaped fuel' (drop n input)
            | None => []
            end
      end
  end.
Definition unescape (input : list Z) : list Z := unescaped (length input) input.

(** ** Lemmas *)

Lemma digits_length test max s : (length (digits test max s) <= max)%nat ∧ (length (digits test max s) <= length s)%nat.
Proof.
  revert s. induction max as [|max IH]; intros [|c s]; cbn; try lia.
  destruct (test c); cbn; [|lia]. specialize (IH s). lia.
Qed.

Lemma digits_test test max s : Forall (λ c, test c = true) (digits test max s).
Proof.
  revert s. induction max as [|max IH]; intros [|c s]; cbn; try constructor.
  destruct (test c) eqn:Ht; constructor; [done|apply IH].
Qed.

Lemma strtol_bound base digs :
  0 < base → Forall (λ c, 0 <= digit_value c < base) digs → 0 <= strtol base digs < base ^ zlen digs.
Proof.
  intros Hb. unfold strtol. induction digs as [|c digs IH] using rev_ind; intros Hd; [by unfold zlen|].
  apply Forall_app in Hd as [Hd Hc]. apply Forall_cons in Hc as [Hc _]. specialize (IH Hd). rewrite foldl_app. cbn.
  unfold zlen in *. rewrite length_app. cbn. replace (Z.of_nat (length digs + 1)) with (Z.succ (Z.of_nat (length digs))) by lia.
  rewrite Z.pow_succ_r by lia. set (v := foldl _ 0 digs) in *. set (w := base ^ Z.of_nat (length digs)) in *.
  assert (Hv : (v + 1) * base <= w * base) by (apply Z.mul_le_mono_nonneg_r; lia).
  assert (0 <= v * base) by (apply Z.mul_nonneg_nonneg; lia). rewrite Z.mul_add_distr_r in Hv. lia.
Qed.

Lemma hex_value c : hex_digit c = true → 0 <= digit_value c < 16.
Proof.
  unfold hex_digit, digit_value. rewrite !orb_true_iff, !andb_true_iff, !Z.leb_le. intros H.
  destruct (Z.leb_spec c 57), (Z.leb_spec c 70); lia.
Qed.
Lemma octal_value c : octal_digit c = true → 0 <= digit_value c < 8.
Proof. unfold octal_digit, digit_value. intros H. bool_prop. destruct (Z.leb_spec c 57); lia. Qed.

Lemma strtol_hex max s : let d := digits hex_digit max s in 0 <= strtol 16 d < 16 ^ zlen d.
Proof. intros d. apply strtol_bound; [done|]. eapply Forall_impl; [apply digits_test|]. apply hex_value. Qed.
Lemma strtol_oct max s : let d := digits octal_digit max s in 0 <= strtol 8 d < 8 ^ zlen d.
Proof. intros d. apply strtol_bound; [done|]. eapply Forall_impl; [apply digits_test|]. apply octal_value. Qed.

(** *** A character takes at least as many bytes as it is written as *)

Definition fits (n : nat) (ch : Z) : Prop := zlen (char_bytes ch) <= Z.of_nat n.

Lemma char_bytes_length ch :
  0 <= ch → zlen (char_bytes ch) =
    if ch <? 0x80 then 1 else if ch <? 0x800 then 2 else if ch <? 0x10000 then 3 else if ch <? 0x110000 then 4 else 1.
Proof.
  intros H. unfold char_bytes, u8_wc_toutf8. destruct (ch <? 0x80); [done|]. destruct (ch <? 0x800); [done|].
  destruct (ch <? 0x10000); [done|]. by destruct (ch <? 0x110000).
Qed.
Lemma char_bytes_enc ch : zlen (u8_wc_toutf8 ch) <= zlen (char_bytes ch).
Proof. unfold char_bytes. destruct (u8_wc_toutf8 ch); [done|lia]. Qed.

Lemma fits_bound n ch : 0 <= ch → (ch < 0x80 ∧ (1 <= n)%nat ∨ ch < 0x800 ∧ (2 <= n)%nat ∨ ch < 0x10000 ∧ (3 <= n)%nat ∨ (4 <= n)%nat) → fits n ch.
Proof.
  intros Hc Hn. unfold fits. rewrite char_bytes_length by done.
  destruct (Z.ltb_spec ch 0x80); [lia|]. destruct (Z.ltb_spec ch 0x800); [lia|].
  destruct (Z.ltb_spec ch 0x10000); [lia|]. destruct (Z.ltb_spec ch 0x110000); lia.
Qed.

(** A byte taken literally is written as one byte. *)
Lemma fits_literal n b : is_byte b → (1 <= n)%nat → fits n (u32 (i8 b)).
Proof.
  intros Hb Hn. unfold fits. assert (zlen (char_bytes (u32 (i8 b))) = 1); [|lia].
  by apply (forall_byte_dec (λ b, zlen (char_bytes (u32 (i8 b))) = 1) 256).
Qed.

Lemma combine_surrogates_range high low :
  u8_high_surrogate high = true → u8_low_surrogate low = true →
  u8_combine_surrogates high low = 0x10000 + (high - 0xD800) * 1024 + (low - 0xDC00).
Proof.
  unfold u8_high_surrogate, u8_low_surrogate, u8_combine_surrogates. intros H1 H2. bool_prop.
  rewrite (u32_id (high - _)), (u32_id (low - _)) by lia. rewrite Z.shiftl_mul_pow2 by lia. change (2 ^ 10) with 1024.
  rewrite (u32_id (_ * 1024)) by lia. set (a := high - 0xD800). set (b := low - 0xDC00).
  assert (Hlor : Z.lor (a * 1024) b = a * 1024 + b).
  { assert (Hb : b = b mod 2 ^ 10) by (rewrite Z.mod_small; lia). rewrite Hb. apply Z.bits_inj'. intros k Hk.
    rewrite Z.lor_spec. change 1024 with (2 ^ 10). destruct (Z.lt_ge_cases k 10).
    - rewrite Z.mul_pow2_bits, (Z.testbit_neg_r a) by lia. cbn [orb].
      rewrite <- (Z.mod_pow2_bits_low (a * 2 ^ 10 + b mod 2 ^ 10) 10 k) by lia.
      rewrite Z.add_comm, Z.mod_add, Z.mod_mod by lia. by rewrite Z.mod_pow2_bits_low.
    - rewrite Z.mod_pow2_bits_high, orb_false_r, Z.mul_pow2_bits by lia.
      replace k with (k - 10 + 10) at 2 by lia. rewrite <- Z.div_pow2_bits by lia.
      rewrite Z.div_add_l, Z.div_small, Z.add_0_r by (apply Z.mod_pos_bound || idtac; lia). done. }
  rewrite Hlor. unfold a, b in *. rewrite u32_id by lia. lia.
Qed.

Definition consumed (n : nat) (ch : Z) (str : list Z) : Prop :=
  (1 <= n <= length str)%nat ∧ 0 <= ch ∧ fits (S n) ch.

Lemma consumed_ascii str ch : str ≠ [] → 0 <= ch < 0x80 → consumed 1 ch str.
Proof.
  intros Hs Hc. unfold consumed. split_and!; [lia|destruct str; cbn; [done|lia]|lia|]. apply fits_bound; lia.
Qed.

Lemma read_low_consumed str i high :
  (i <= length str)%nat → (3 <= i)%nat → u8_high_surrogate high = true →
  let r := read_low_surrogate str i high in consumed r.1 r.2 str.
Proof.
  intros Hi H3 Hh r. assert (Hbad : ∀ j, (i <= j <= length str)%nat → consumed j 0xFFFD str).
  { intros j Hj. unfold consumed. split_and!; try lia. apply fits_bound; lia. }
  unfold r, read_low_surrogate. destruct (drop i str) as [|b [|u rest]] eqn:Hd; [by apply Hbad|by apply Hbad|].
  assert (Hl : (length str = i + 2 + length rest)%nat).
  { apply (f_equal length) in Hd. rewrite length_drop in Hd. cbn in Hd. lia. }
  destruct (_ && _); [|by apply Hbad]. set (l := digits hex_digit 4 rest).
  destruct (digits_length hex_digit 4 rest) as [H4 Hr]. fold l in H4, Hr.
  destruct (_ && _); cbn [fst snd]; [apply Hbad; lia|].
  destruct (u8_low_surrogate (strtol 16 l)) eqn:Hlow; cbn [fst snd]; [|apply Hbad; lia].
  cbn [fst snd]. rewrite combine_surrogates_range by done. unfold u8_high_surrogate, u8_low_surrogate in *. bool_prop.
  unfold consumed. split_and!; try lia. apply fits_bound; lia.
Qed.

(** What [n] hexadecimal digits can be worth. *)
Lemma hex_fits max s k :
  let d := digits hex_digit max s in
  (1 <= length d <= 8)%nat → (length d < k)%nat → fits k (strtol 16 d).
Proof.
  intros d Hd Hk. pose proof (strtol_hex max s) as Hb. fold d in Hb. unfold zlen in Hb.
  apply fits_bound; [lia|]. destruct (length d) as [|[|[|[|n]]]] eqn:Hl; try lia; cbn in Hb; lia.
Qed.

Lemma read_escape_consumed str :
  bytes_ok str → str ≠ [] → ∃ n ch, u8_read_escape_sequence str = Some (n, ch) ∧ consumed n ch str.
Proof.
  destruct str as [|c rest]; [done|]. intros [Hc Hr]%Forall_cons Hne. unfold u8_read_escape_sequence.
  set (str := c :: rest) in *. unfold is_byte in Hc.
  assert (Hex : ∀ p : nat * Z, consumed p.1 p.2 str → ∃ n ch, Some p = Some (n, ch) ∧ consumed n ch str).
  { intros [n ch] Hp. by exists n, ch. }
  destruct (c =? 110); [by apply Hex, consumed_ascii|].
  destruct (c =? 116); [by apply Hex, consumed_ascii|].
  destruct (c =? 114); [by apply Hex, consumed_ascii|].
  destruct (c =? 98); [by apply Hex, consumed_ascii|].
  destruct (c =? 102); [by apply Hex, consumed_ascii|].
  destruct (c =? 118); [by apply Hex, consumed_ascii|].
  destruct (c =? 97); [by apply Hex, consumed_ascii|].
  destruct (octal_digit c) eqn:Ho.
  { eexists _, _. split; [done|]. set (d := digits octal_digit 3 str).
    destruct (digits_length octal_digit 3 str) as [H3 Hl]. fold d in H3, Hl.
    assert (H1 : (1 <= length d)%nat) by (unfold d, str; cbn; rewrite Ho; cbn; lia).
    pose proof (strtol_oct 3 str) as Hb. fold d in Hb. unfold zlen in Hb.
    unfold consumed. split_and!; try lia. apply fits_bound; [lia|].
    destruct (length d) as [|[|[|[|n]]]]; try lia; cbn in Hb; lia. }
  destruct (Z.eqb_spec c 120) as [->|_].
  { eexists _, _. split; [done|]. destruct (digits_length hex_digit 2 rest) as [H2 Hl]. set (d := digits hex_digit 2 rest) in *.
    destruct (Nat.ltb_spec 0 (length d)).
    - destruct (strtol_hex 2 rest) as [Hb0 Hb1]. fold d in Hb0, Hb1. unfold consumed, str. cbn [length]. split_and!; try lia. apply hex_fits; fold d; lia.
    - unfold consumed, str. cbn [length]. split_and!; try lia. apply fits_bound; lia. }
  destruct (Z.eqb_spec c 117) as [->|_].
  { destruct (digits_length hex_digit 4 rest) as [H4 Hl]. set (d := digits hex_digit 4 rest) in *.
    pose proof (strtol_hex 4 rest) as Hb. fold d in Hb. unfold zlen in Hb. apply Hex.
    destruct (Nat.eqb_spec (length d) 4) as [E|E], (Nat.ltb_spec 0 (length d)); cbn [negb andb]; try lia.
    2: { cbn [fst snd]. unfold consumed, str. cbn [length]. split_and!; try lia. apply fits_bound; lia. }
    2: { assert (Hd : d = []) by (apply length_zero_iff_nil; lia). rewrite Hd. by apply consumed_ascii. }
    destruct (u8_low_surrogate (strtol 16 d)).
    { cbn [fst snd]. unfold consumed, str. cbn [length]. split_and!; try lia. apply fits_bound; lia. }
    destruct (u8_high_surrogate (strtol 16 d)) eqn:Hh.
    - apply read_low_consumed; unfold str; cbn [length]; (done || lia).
    - cbn [fst snd]. unfold consumed, str. cbn [length]. split_and!; try lia. apply hex_fits; fold d; lia. }
  destruct (Z.eqb_spec c 85) as [->|_].
  { apply Hex. destruct (digits_length hex_digit 8 rest) as [H8 Hl]. set (d := digits hex_digit 8 rest) in *.
    destruct (strtol_hex 8 rest) as [Hb0 Hb1]. fold d in Hb0, Hb1. unfold zlen in Hb1. cbn [fst snd].
    assert (Hu : u32 (strtol 16 d) = strtol 16 d).
    { apply u32_id. split; [done|]. eapply Z.lt_le_trans; [exact Hb1|]. change (2 ^ 32) with (16 ^ 8).
      apply Z.pow_le_mono_r; lia. }
    rewrite Hu. unfold consumed, str. cbn [length]. destruct (Nat.ltb_spec 0 (length d)).
    - split_and!; try lia. apply hex_fits; fold d; lia.
    - split_and!; try lia. apply fits_bound; lia. }
  apply Hex. cbn [fst snd]. unfold consumed, str. cbn [length]. split_and!; [lia|lia| |].
  - unfold u32. apply Z.mod_pos_bound. lia.
  - by apply fits_literal; [|lia].
Qed.

Lemma next_char_consumed input :
  bytes_ok input → input ≠ [] →
  ∃ n ch, next_char input = Some (n, ch) ∧ (1 <= n <= length input)%nat ∧ 0 <= ch ∧ fits n ch.
Proof.
  destruct input as [|b next]; [done|]. intros [Hb Hn]%Forall_cons _.
  assert (Hlit : ∃ n ch, Some (1%nat, u32 (i8 b)) = Some (n, ch) ∧ (1 <= n <= length (b :: next))%nat ∧ 0 <= ch ∧ fits n ch).
  { eexists _, _. split; [done|]. cbn. split_and!; [lia|lia| |by apply fits_literal; [|lia]].
    unfold u32. apply Z.mod_pos_bound. lia. }
  unfold next_char. destruct next as [|e next]; [done|]. destruct (b =? BACKSLASH); [|done].
  assert (Hesc : ∀ ch, 0 <= ch < 0x80 → ∃ n ch', Some (2%nat, ch) = Some (n, ch') ∧
    (1 <= n <= length (b :: e :: next))%nat ∧ 0 <= ch' ∧ fits n ch').
  { intros ch Hch. eexists _, _. split; [done|]. cbn. split_and!; try lia. apply fits_bound; lia. }
  destruct ((e =? QUOTE) || (e =? 39) || (e =? BACKSLASH) || (e =? 47)) eqn:He.
  { apply Hesc. rewrite !orb_true_iff, !Z.eqb_eq in He. unfold QUOTE, BACKSLASH in He. lia. }
  repeat (match goal with |- context [if ?c then Some (2%nat, _) else _] => destruct c; [by apply Hesc|] end).
  destruct (read_escape_consumed (e :: next)) as (n & ch & -> & Hc); [done|done|].
  unfold consumed in Hc. cbn [mbind option_bind]. eexists _, _. split; [done|]. cbn [length] in *. split_and!; lia || apply Hc.
Qed.

(** More fuel than characters makes no difference. *)
Lemma unescaped_fuel fuel : ∀ input fuel',
  bytes_ok input → (length input <= fuel)%nat → (length input <= fuel')%nat →
  unescaped fuel input = unescaped fuel' input.
Proof.
  induction fuel as [|fuel IH]; intros [|b input] [|fuel'] Hb Hl Hl'; try done; cbn in Hl, Hl'; try lia.
  cbn [unescaped]. destruct (b =? 0); [done|].
  destruct (next_char_consumed (b :: input)) as (n & ch & -> & Hn & _); [done|done|]. f_equal.
  cbn in Hn. apply IH; [by apply Forall_drop|rewrite length_drop; cbn; lia|rewrite length_drop; cbn; lia].
Qed.

Lemma unescaped_length fuel : ∀ input, bytes_ok input → (length input <= fuel)%nat →
  zlen (unescaped fuel input) <= zlen input.
Proof.
  induction fuel as [|fuel IH]; intros [|b input] Hb Hl; try done.
  cbn [unescaped]. destruct (b =? 0); [apply zlen_nonneg|].
  destruct (next_char_consumed (b :: input)) as (n & ch & -> & Hn & _ & Hf); [done|done|].
  specialize (IH (drop n (b :: input))). rewrite length_drop in IH. cbn in Hl, Hn.
  assert (Hle := IH ltac:(by apply Forall_drop) ltac:(cbn; lia)). unfold fits in Hf.
  unfold zlen in *. rewrite length_app. rewrite length_drop in Hle. cbn [length] in *. lia.
Qed.

Lemma unescape_cons b input n ch :
  bytes_ok (b :: input) → b ≠ 0 → next_char (b :: input) = Some (n, ch) →
  unescape (b :: input) = char_bytes ch ++ unescape (drop n (b :: input)).
Proof.
  intros Hb H0 Hn. destruct (next_char_consumed (b :: input)) as (n' & ch' & Hn' & Hr & _); [done|done|].
  rewrite Hn in Hn'. injection Hn' as <- <-. unfold unescape. cbn [length unescaped].
  destruct (Z.eqb_spec b 0); [done|]. rewrite Hn. f_equal. cbn in Hr.
  apply unescaped_fuel; [by apply Forall_drop|rewrite length_drop; cbn; lia|lia].
Qed.

Lemma put_ok cap bytes out : zlen out + zlen bytes <= cap → put cap bytes out = Some (out ++ bytes).
Proof. intros H. unfold put. by rewrite (proj2 (Z.leb_le _ _)). Qed.

Lemma unescape_loop_spec cap sz fuel : ∀ input count_in out,
  bytes_ok input → (length input < fuel)%nat → count_in + zlen input = sz → zlen out <= count_in → sz <= cap →
  unescape_loop fuel cap sz input count_in out = Some (out ++ unescape input).
Proof.
  induction fuel as [|fuel IH]; intros [|b input] count_in out Hb Hl Hsz Hout Hcap; [cbn in Hl; lia|cbn in Hl; lia| |].
  { by rewrite app_nil_r. }
  cbn [unescape_loop]. pose proof (zlen_nonneg input) as Hnn. rewrite zlen_cons in Hsz.
  destruct (Z.eqb_spec b 0) as [->|H0]; [cbn; by rewrite app_nil_r|].
  destruct (Z.leb_spec sz count_in); [lia|]. cbn [orb].
  destruct (next_char_consumed (b :: input)) as (n & ch & Hn & Hr & Hch & Hf); [done|done|].
  rewrite Hn. cbn [mbind option_bind]. unfold fits in Hf. pose proof (char_bytes_enc ch) as Henc.
  assert (Hn' : Z.of_nat n <= zlen (b :: input)) by (unfold zlen; lia). rewrite zlen_cons in Hn'.
  destruct (Z.ltb_spec (sz - zlen out) (zlen (u8_wc_toutf8 ch))); [lia|].
  rewrite put_ok by lia. cbn [mbind option_bind].
  rewrite (unescape_cons b input n ch Hb H0 Hn). rewrite IH; [by rewrite <- app_assoc|by apply Forall_drop| | | |done].
  - rewrite length_drop. cbn in *. lia.
  - unfold zlen in *. rewrite length_drop. cbn [length] in *. lia.
  - unfold zlen in *. rewrite length_app. lia.
Qed.

Lemma unescape_string_spec in_buf cap :
  bytes_ok in_buf → zlen in_buf + 1 <= cap →
  flb_unescape_string_utf8 in_buf cap = Some (zlen (unescape in_buf), unescape in_buf ++ [0]).
Proof.
  intros Hb Hcap. assert (Hlen : zlen (unescape in_buf) <= zlen in_buf) by (apply unescaped_length; [done|lia]).
  unfold flb_unescape_string_utf8.
  rewrite (unescape_loop_spec cap (zlen in_buf)); [|done|lia|lia|by unfold zlen|lia].
  cbn [mbind option_bind app]. by rewrite put_ok by (unfold zlen in *; cbn [length]; lia).
Qed.

(** Unescaping stays in its buffer.  For every input of [sz] bytes, whatever its escapes and however
    broken they are, [flb_unescape_string_utf8] ends, reads nothing beyond the input, writes at most
    [sz] bytes and the NUL into a buffer of [sz] + 1, and writes what the characters of the input stand
    for, all of them up to a NUL: its check for crossing the string boundary never fires. *)
Theorem unescape_fits in_buf cap :
  bytes_ok in_buf → zlen in_buf + 1 <= cap →
  flb_unescape_string_utf8 in_buf cap = Some (zlen (unescape in_buf), unescape in_buf ++ [0]) ∧
  zlen (unescape in_buf) <= zlen in_buf.
Proof.
  intros Hb Hcap. split; [by apply unescape_string_spec|]. apply unescaped_length; [done|lia].
Qed.

(** "a\u00e9\n\q" *)
Definition ex_escaped : list Z := [97; 92; 117; 48; 48; 101; 57; 92; 110; 92; 113].

Lemma unescape_fits_witness :
  flb_unescape_string_utf8 ex_escaped 12 = Some (zlen (unescape ex_escaped), unescape ex_escaped ++ [0]) ∧
  zlen (unescape ex_escaped) <= zlen ex_escaped.
Proof.
  apply (unescape_fits ex_escaped 12); [|by vm_compute]. unfold ex_escaped, bytes_ok, is_byte.
  repeat (apply Forall_cons; split; [lia|]). by constructor.
Defined.

Example ex_unescape : unescape ex_escaped = [97; 0xC3; 0xA9; 10; 113].
Proof. vm_compute. reflexivity. Qed.

(** A backslash at the end makes [flb_unescape_string] read one byte past the string: here the NUL that
    follows it, which is copied and counted instead of the backslash. *)
Example unescape_string_trailing_backslash :
  flb_unescape_string [97; 92; 0] 2 3 = Some (2, [97; 0; 0]) ∧ flb_unescape_string [97; 92] 2 3 = None.
Proof. vm_compute. done. Qed.

(** [flb_mysql_unquote_string] keeps to a buffer of [buf_len] + 1. *)
Lemma unquote_loop_ok cap : ∀ n buf p,
  (length buf <= n)%nat → zlen p + zlen buf <= cap →
  ∃ p', unquote_loop cap buf p = Some p' ∧ zlen p' <= zlen p + zlen buf.
Proof.
  induction n as [|n IH]; intros [|c rest] p Hn Hcap; cbn in Hn; try lia; [by exists p; split; [done|unfold zlen; cbn; lia]..|].
  rewrite zlen_cons in Hcap. pose proof (zlen_nonneg rest). cbn [unquote_loop]. destruct (negb (c =? BACKSLASH)).
  - rewrite put_ok by (unfold zlen in *; cbn; lia). cbn [mbind option_bind].
    destruct (IH rest (p ++ [c])) as (p' & -> & Hp'); [lia|unfold zlen in *; rewrite length_app; cbn; lia|].
    exists p'. split; [done|]. unfold zlen in *. rewrite length_app in Hp'. cbn [length] in *. lia.
  - destruct rest as [|c' rest]; [rewrite put_ok by (unfold zlen in *; cbn in *; lia); eexists; split; [done|];
      unfold zlen; rewrite length_app; cbn; lia|].
    assert (Hm : zlen (mysql_escape c') <= 2) by (unfold mysql_escape, zlen; repeat case_match; cbn; lia).
    rewrite zlen_cons in *. pose proof (zlen_nonneg rest). rewrite put_ok by lia. cbn [mbind option_bind]. cbn in Hn.
    destruct (IH rest (p ++ mysql_escape c')) as (p' & -> & Hp'); [lia|unfold zlen in *; rewrite length_app; lia|].
    exists p'. split; [done|]. unfold zlen in *. rewrite length_app in Hp'. cbn [length] in *. lia.
Qed.

Lemma mysql_unquote_fits buf cap :
  zlen buf + 1 <= cap → ∃ p, flb_mysql_unquote_string buf cap = Some (zlen p, p ++ [0]) ∧ zlen p <= zlen buf.
Proof.
  intros Hcap. destruct (unquote_loop_ok cap (length buf) buf []) as (p & Hp & Hl); [lia|unfold zlen in *; cbn; lia|].
  exists p. unfold flb_mysql_unquote_string. rewrite Hp. cbn [mbind option_bind].
  unfold zlen in Hl. cbn in Hl. rewrite put_ok by (unfold zlen in *; cbn [length]; lia). split; [done|]. unfold zlen in *. lia.
Qed.
