(* ===== verification/Base64.v ===== *)
(** * Base64 ([src/flb_base64.c])

    Encoding and decoding between buffers.  A buffer to write to is [None] for NULL, or its capacity;
    writing beyond it is undefined behaviour, as is reading outside the source or a table.  The result
    is the returned code, what [olen] is left at ([None]: as it was) and the bytes written. *)
From S2P Require Import Prelude.

(** ** Tables and codes *)

Definition FLB_BASE64_ERR_BUFFER_TOO_SMALL : Z := - 0x2A.
Definition FLB_BASE64_ERR_INVALID_CHARACTER : Z := - 0x2C.
Definition BASE64_SIZE_T_MAX : Z := SIZE_MAX.

Definition base64_enc_map : list Z := [
   65;  66;  67;  68;  69;  70;  71;  72;  73;  74;
   75;  76;  77;  78;  79;  80;  81;  82;  83;  84;
   85;  86;  87;  88;  89;  90;  97;  98;  99; 100;
  101; 102; 103; 104; 105; 106; 107; 108; 109; 110;
  111; 112; 113; 114; 115; 116; 117; 118; 119; 120;
  121; 122;  48;  49;  50;  51;  52;  53;  54;  55;
   56;  57;  43;  47].

Definition base64_dec_map : list Z := [
  127; 127; 127; 127; 127; 127; 127; 127; 127; 127;
  127; 127; 127; 127; 127; 127; 127; 127; 127; 127;
  127; 127; 127; 127; 127; 127; 127; 127; 127; 127;
  127; 127; 127; 127; 127; 127; 127; 127; 127; 127;
  127; 127; 127;  62; 127; 127; 127;  63;  52;  53;
   54;  55;  56;  57;  58;  59;  60;  61; 127; 127;
  127;  64; 127; 127; 127;   0;   1;   2;   3;   4;
    5;   6;   7;   8;   9;  10;  11;  12;  13;  14;
   15;  16;  17;  18;  19;  20;  21;  22;  23;  24;
   25; 127; 127; 127; 127; 127; 127;  26;  27;  28;
   29;  30;  31;  32;  33;  34;  35;  36;  37;  38;
   39;  40;  41;  42;  43;  44;  45;  46;  47;  48;
   49;  50;  51; 127; 127; 127; 127; 127].

Definition SPACE : Z := 32.
Definition CR : Z := 13.
Definition LF : Z := 10.
Definition PAD : Z := 61.

(** ** Encoding *)

(** [*p++ = b] *)
Definition put (cap b : Z) (out : list Z) : option (list Z) :=
  if zlen out <? cap then Some (out ++ [b]) else None.
(** [*p++ = base64_enc_map[v]] *)
Definition put_digit (cap v : Z) (out : list Z) : option (list Z) :=
  d ← base64_enc_map !z v; put cap d out.

(** The loop over groups of three bytes; result: [i] and the output *)
Fixpoint encode_loop (fuel : nat) (cap : Z) (src : list Z) (i n : Z) (out : list Z) : option (Z * list Z) :=
  if i <? n then
    match fuel with
    | O => None
    | S fuel' =>
        C1 ← src !z i; C2 ← src !z (i + 1); C3 ← src !z (i + 2);
        out ← put_digit cap (Z.land (Z.shiftr C1 2) 0x3F) out;
        out ← put_digit cap (Z.land (Z.shiftl (Z.land C1 3) 4 + Z.shiftr C2 4) 0x3F) out;
        out ← put_digit cap (Z.land (Z.shiftl (Z.land C2 15) 2 + Z.shiftr C3 6) 0x3F) out;
        out ← put_digit cap (Z.land C3 0x3F) out;
        encode_loop fuel' cap src (i + 3) n out
    end
  else Some (i, out).

(** The last one or two bytes *)
Definition encode_rest (cap : Z) (src : list Z) (slen i : Z) (out : list Z) : option (list Z) :=
  if i <? slen then
    C1 ← src !z i;
    C2 ← (if i + 1 <? slen then src !z (i + 1) else Some 0);
    out ← put_digit cap (Z.land (Z.shiftr C1 2) 0x3F) out;
    out ← put_digit cap (Z.land (Z.shiftl (Z.land C1 3) 4 + Z.shiftr C2 4) 0x3F) out;
    out ← (if i + 1 <? slen then put_digit cap (Z.land (Z.shiftl (Z.land C2 15) 2) 0x3F) out
           else put cap PAD out);
    put cap PAD out
  else Some out.

Definition flb_base64_encode (dst : option Z) (dlen : Z) (src : list Z) (slen : Z) : option (Z * Z * list Z) :=
  if slen =? 0 then Some (0, 0, [])
  else
    let n := slen / 3 + (if slen mod 3 =? 0 then 0 else 1) in
    if (BASE64_SIZE_T_MAX - 1) / 4 <? n then Some (FLB_BASE64_ERR_BUFFER_TOO_SMALL, BASE64_SIZE_T_MAX, [])
    else
      let n := u64 (n * 4) in
      let too_small := Some (FLB_BASE64_ERR_BUFFER_TOO_SMALL, u64 (n + 1), []) in
      if dlen <? u64 (n + 1) then too_small
      else
        match dst with
        | None => too_small
        | Some cap =>
            '(i, out) ← encode_loop (Z.to_nat slen) cap src 0 (slen / 3 * 3) [];
            out ← encode_rest cap src slen i out;
            all ← put cap 0 out;
            Some (0, zlen out, all)
        end.

(** ** Decoding *)

(** [while (i < slen && src[i] == ' ') { ++i; ++x; }] *)
Fixpoint skip_spaces (fuel : nat) (src : list Z) (slen i x : Z) : option (Z * Z) :=
  if i <? slen then
    c ← src !z i;
    if c =? SPACE then
      match fuel with O => None | S fuel' => skip_spaces fuel' src slen (i + 1) (u32 (x + 1)) end
    else Some (i, x)
  else Some (i, x).

(** The first pass: an error, or [i], [n] and [j] at its end. *)
Fixpoint check_loop (fuel : nat) (src : list Z) (slen i n j : Z) : option (Z + Z * Z * Z) :=
  if i <? slen then
    match fuel with
    | O => None
    | S fuel' =>
        '(i, x) ← skip_spaces fuel src slen i 0;
        if i =? slen then Some (inr (i, n, j))
        else
          c ← src !z i;
          crlf ← (if (2 <=? slen - i) && (c =? CR) then d ← src !z (i + 1); Some (d =? LF) else Some false);
          if (crlf : bool) || (c =? LF) then check_loop fuel' src slen (i + 1) n j
          else if negb (x =? 0) then Some (inl FLB_BASE64_ERR_INVALID_CHARACTER)
          else
            let j := if c =? PAD then u32 (j + 1) else j in
            if (c =? PAD) && (2 <? j) then Some (inl FLB_BASE64_ERR_INVALID_CHARACTER)
            else if 127 <? c then Some (inl FLB_BASE64_ERR_INVALID_CHARACTER)
            else
              v ← base64_dec_map !z c;
              if v =? 127 then Some (inl FLB_BASE64_ERR_INVALID_CHARACTER)
              else if (v <? 64) && negb (j =? 0) then Some (inl FLB_BASE64_ERR_INVALID_CHARACTER)
              else check_loop fuel' src slen (i + 1) (n + 1) j
    end
  else Some (inr (i, n, j)).

(** [if (k < j) *p++ = (unsigned char) (x >> s)] *)
Definition put_byte (cap k j x s : Z) (out : list Z) : option (list Z) :=
  if k <? j then put cap (u8 (Z.shiftr x s)) out else Some out.

(** The second pass: [i] characters from [src[pos]] on. *)
Fixpoint decode_loop (i : nat) (cap : Z) (src : list Z) (pos j n x : Z) (out : list Z) : option (list Z) :=
  match i with
  | O => Some out
  | S i' =>
      c ← src !z pos;
      if (c =? CR) || (c =? LF) || (c =? SPACE) then decode_loop i' cap src (pos + 1) j n x out
      else
        v ← base64_dec_map !z c;
        let j := if v =? 64 then u32 (j - 1) else j in
        let x := u32 (Z.lor (u32 (Z.shiftl x 6)) (Z.land v 0x3F)) in
        if n + 1 =? 4 then
          out ← put_byte cap 0 j x 16 out;
          out ← put_byte cap 1 j x 8 out;
          out ← put_byte cap 2 j x 0 out;
          decode_loop i' cap src (pos + 1) j 0 x out
        else decode_loop i' cap src (pos + 1) j (n + 1) x out
  end.

Definition flb_base64_decode (dst : option Z) (dlen : Z) (src : list Z) (slen : Z) : option (Z * option Z * list Z) :=
  checked ← check_loop (Z.to_nat slen) src slen 0 0 0;
  match checked with
  | inl err => Some (err, None, [])
  | inr (i, n, j) =>
      if n =? 0 then Some (0, Some 0, [])
      else
        let n := u64 (6 * Z.shiftr n 3 + Z.shiftr (6 * Z.land n 7 + 7) 3 - j) in
        let too_small := Some (FLB_BASE64_ERR_BUFFER_TOO_SMALL, Some n, []) in
        match dst with
        | None => too_small
        | Some cap =>
            if dlen <? n then too_small
            else
              out ← decode_loop (Z.to_nat i) cap src 0 3 0 0 [];
              Some (0, Some (zlen out), out)
        end
  end.

(** ** The format

    Of RFC 4648: the bits of the bytes, six by six, as characters of an alphabet. *)

Definition bits (w : nat) (v : Z) : list bool := (λ k, Z.testbit v (Z.of_nat k)) <$> rev (seq 0 w).
Definition of_bits (l : list bool) : Z := foldl (λ a b, 2 * a + Z.b2z b) 0 l.

(** Six by six, the last ones filled with zeros; eight by eight, without what is left *)
Fixpoint sextets (l : list bool) : list Z :=
  match l with
  | [] => []
  | a :: b :: c :: d :: e :: f :: l' => of_bits [a; b; c; d; e; f] :: sextets l'
  | _ => [of_bits (take 6 (l ++ replicate 6 false))]
  end.
Fixpoint octets (l : list bool) : list Z :=
  match l with
  | a :: b :: c :: d :: e :: f :: g :: h :: l' => of_bits [a; b; c; d; e; f; g; h] :: octets l'
  | _ => []
  end.

Definition digit_char (v : Z) : Z := nth (Z.to_nat v) base64_enc_map 0.
Definition is_digit (v : Z) : Prop := 0 <= v < 64.

(** The text of some bytes, with the padding that makes its length a multiple of four *)
Definition base64_text (bytes : list Z) : list Z :=
  (digit_char <$> sextets (bytes ≫= bits 8)) ++ replicate ((3 - length bytes mod 3) mod 3) PAD.

(** The characters of a text with line breaks LF or CR LF; spaces are allowed before a line break and at the end
    only.  [spaces]: the last character was a space. *)
Fixpoint unbroken (spaces : bool) (s : list Z) : option (list Z) :=
  match s with
  | [] => Some []
  | c :: s' =>
      if c =? SPACE then unbroken true s'
      else if c =? LF then unbroken false s'
      else if c =? CR then
        match s' with d :: s'' => if d =? LF then unbroken false s'' else None | [] => None end
      else if spaces then None
      else (c ::.) <$> unbroken false s'
  end.

(** A source with these digits and so many padding characters after them *)
Definition is_base64 (src ds : list Z) (p : nat) : Prop :=
  unbroken false src = Some ((digit_char <$> ds) ++ replicate p PAD) ∧ Forall is_digit ds ∧ (p <= 2)%nat.

(** What is read: the bytes made by the digits of complete groups of four characters *)
Definition decoded (ds : list Z) (p : nat) : list Z :=
  octets (take (4 * ((length ds + p) / 4)) ds ≫= bits 6).
(** The room that is asked for *)
Definition decoded_room (ds : list Z) (p : nat) : Z := (6 * (zlen ds + Z.of_nat p) + 7) / 8 - Z.of_nat p.

(** The room that encoding asks for, with the NUL at the end *)
Definition encoded_room (bytes : list Z) : Z := 4 * ((zlen bytes + 2) / 3) + 1.

(** Whether a buffer has the room; a caller passes at most its capacity. *)
Definition fits (dst : option Z) (dlen need : Z) : bool :=
  match dst with Some _ => need <=? dlen | None => false end.
Definition dst_ok (dst : option Z) (dlen : Z) : Prop := 0 <= dlen < 2 ^ 64 ∧ ∀ cap, dst = Some cap → dlen <= cap.

(** ** Lemmas *)

Lemma byte_all (f : Z → bool) b : forallb f (seqZ 0 256) = true → is_byte b → f b = true.
Proof. intros Hf Hb. rewrite forallb_forall in Hf. apply Hf, list_elem_of_In, elem_of_seqZ. unfold is_byte in Hb. lia. Qed.
Lemma bytes_all (f : Z → Z → bool) a b :
  forallb (λ a, forallb (f a) (seqZ 0 256)) (seqZ 0 256) = true → is_byte a → is_byte b → f a b = true.
Proof. intros Hf Ha Hb. apply (byte_all (f a)); [|done]. by apply (byte_all (λ a, forallb (f a) (seqZ 0 256))). Qed.

(** An equation between functions of one or two bytes, tried on all of them *)
Ltac by_bytes :=
  apply Z.eqb_eq;
  lazymatch goal with
  | Ha : is_byte ?a, Hb : is_byte ?b |- ?t = true =>
      refine (bytes_all (λ a b, Z.eqb _ _) a b _ Ha Hb); by vm_compute
  | Ha : is_byte ?a |- ?t = true => refine (byte_all (λ a, Z.eqb _ _) a _ Ha); by vm_compute
  end.

Lemma digit_first a : is_byte a →
  of_bits [Z.testbit a 7; Z.testbit a 6; Z.testbit a 5; Z.testbit a 4; Z.testbit a 3; Z.testbit a 2] =
  Z.land (Z.shiftr a 2) 0x3F.
Proof. intros Ha. by_bytes. Qed.
Lemma digit_second a b : is_byte a → is_byte b →
  of_bits [Z.testbit a 1; Z.testbit a 0; Z.testbit b 7; Z.testbit b 6; Z.testbit b 5; Z.testbit b 4] =
  Z.land (Z.shiftl (Z.land a 3) 4 + Z.shiftr b 4) 0x3F.
Proof. intros Ha Hb. by_bytes. Qed.
Lemma digit_third b c : is_byte b → is_byte c →
  of_bits [Z.testbit b 3; Z.testbit b 2; Z.testbit b 1; Z.testbit b 0; Z.testbit c 7; Z.testbit c 6] =
  Z.land (Z.shiftl (Z.land b 15) 2 + Z.shiftr c 6) 0x3F.
Proof. intros Hb Hc. by_bytes. Qed.
Lemma digit_fourth c : is_byte c →
  of_bits [Z.testbit c 5; Z.testbit c 4; Z.testbit c 3; Z.testbit c 2; Z.testbit c 1; Z.testbit c 0] = Z.land c 0x3F.
Proof. intros Hc. by_bytes. Qed.

Lemma low_sextet v : 0 <= Z.land v 0x3F < 64.
Proof. change 0x3F with (Z.ones 6). rewrite Z.land_ones by lia. change 64 with (2 ^ 6). by apply Z.mod_pos_bound. Qed.

Lemma digit_lookup v : is_digit v → base64_enc_map !z v = Some (digit_char v).
Proof.
  intros Hv. unfold is_digit in Hv. unfold zlookup, digit_char. destruct (Z.leb_spec 0 v); [|lia].
  rewrite nth_lookup. destruct (lookup_lt_is_Some_2 base64_enc_map (Z.to_nat v)) as [d ->]; [|done].
  change (length base64_enc_map) with 64%nat. lia.
Qed.

Lemma base64_put_ok cap b out : zlen out + 1 <= cap → put cap b out = Some (out ++ [b]).
Proof. intros H. unfold put. destruct (Z.ltb_spec (zlen out) cap); [done|lia]. Qed.

Lemma put_digit_ok cap v out : is_digit v → zlen out + 1 <= cap → put_digit cap v out = Some (out ++ [digit_char v]).
Proof. intros Hv H. unfold put_digit. rewrite (digit_lookup v Hv). by apply base64_put_ok. Qed.

Lemma three_ind (P : list Z → Prop) :
  P [] → (∀ a, P [a]) → (∀ a b, P [a; b]) → (∀ a b c l, P l → P (a :: b :: c :: l)) → ∀ l, P l.
Proof.
  intros H0 H1 H2 H3. fix IH 1. intros [|a [|b [|c l]]]; [done..|]. apply H3, IH.
Qed.

(** The text of the next group *)
Lemma text_group a b c l : is_byte a → is_byte b → is_byte c →
  base64_text (a :: b :: c :: l) =
  digit_char (Z.land (Z.shiftr a 2) 0x3F) ::
  digit_char (Z.land (Z.shiftl (Z.land a 3) 4 + Z.shiftr b 4) 0x3F) ::
  digit_char (Z.land (Z.shiftl (Z.land b 15) 2 + Z.shiftr c 6) 0x3F) ::
  digit_char (Z.land c 0x3F) :: base64_text l.
Proof.
  intros Ha Hb Hc. rewrite <-(digit_first a), <-(digit_second a b), <-(digit_third b c), <-(digit_fourth c) by done.
  unfold base64_text. cbn [length]. replace (S (S (S (length l)))) with (length l + 1 * 3)%nat by lia.
  by rewrite Nat.Div0.mod_add.
Qed.
Lemma text_one a : is_byte a →
  base64_text [a] = [digit_char (Z.land (Z.shiftr a 2) 0x3F);
    digit_char (Z.land (Z.shiftl (Z.land a 3) 4 + Z.shiftr 0 4) 0x3F); PAD; PAD].
Proof. intros Ha. by rewrite <-(digit_first a), <-(digit_second a 0) by done. Qed.
Lemma text_two a b : is_byte a → is_byte b →
  base64_text [a; b] = [digit_char (Z.land (Z.shiftr a 2) 0x3F);
    digit_char (Z.land (Z.shiftl (Z.land a 3) 4 + Z.shiftr b 4) 0x3F);
    digit_char (Z.land (Z.shiftl (Z.land b 15) 2) 0x3F); PAD].
Proof.
  intros Ha Hb. rewrite <-(digit_first a), <-(digit_second a b) by done.
  pose proof (digit_third b 0) as H3. change (Z.shiftr 0 6) with 0 in H3. rewrite Z.add_0_r in H3. by rewrite <-H3 by done.
Qed.

(** Writing the next character: there is room. *)
Ltac room := unfold zlen in *; rewrite ?length_app in *; cbn [length] in *; lia.
Ltac write_next :=
  first [rewrite put_digit_ok; [|apply low_sextet|room] | rewrite base64_put_ok; [|room]]; cbn [mbind option_bind].
Ltac if_is v :=
  match goal with |- context [if ?c then _ else _] => replace c with v by (symmetry; rewrite ?Z.ltb_lt, ?Z.ltb_ge; room) end.

(** The two loops together write the text of what is left. *)
Lemma encode_run cap : ∀ l pre out fuel, bytes_ok l → (length l <= fuel)%nat →
  zlen out + zlen (base64_text l) <= cap →
  ('(i, out) ← encode_loop fuel cap (pre ++ l) (zlen pre) (zlen pre + zlen l / 3 * 3) out;
   encode_rest cap (pre ++ l) (zlen pre + zlen l) i out) = Some (out ++ base64_text l).
Proof.
  assert (Hend : ∀ fuel l pre out, zlen l / 3 = 0 →
    encode_loop fuel cap (pre ++ l) (zlen pre) (zlen pre + zlen l / 3 * 3) out = Some (zlen pre, out)).
  { intros fuel l pre out ->. destruct fuel; cbn; by rewrite Z.add_0_r, Z.ltb_irrefl. }
  intros l. induction l as [|a|a b|a b c l IH] using three_ind; intros pre out fuel Hl Hfuel Hcap.
  - rewrite Hend by done. cbn. unfold encode_rest. if_is false. by rewrite app_nil_r.
  - inv Hl. rewrite Hend, text_one in * by done. cbn. unfold encode_rest. if_is true.
    rewrite zlookup_at. if_is false. cbn. do 4 write_next. by rewrite <-!app_assoc.
  - inv Hl. inv H2. rewrite Hend, text_two in * by done. cbn. unfold encode_rest. if_is true.
    rewrite zlookup_at. if_is true. rewrite zlookup_next. cbn. do 4 write_next.
    by rewrite <-!app_assoc.
  - inv Hl. inv H2. inv H4. rewrite text_group in * by done. destruct fuel as [|fuel]; [cbn in Hfuel; lia|].
    cbn [encode_loop]. rewrite !zlen_cons.
    replace ((zlen l + 1 + 1 + 1) / 3) with (zlen l / 3 + 1)
      by (rewrite <-!Z.add_assoc; change (1 + (1 + 1)) with (1 * 3); by rewrite Z.div_add).
    rewrite zlookup_at, zlookup_next, zlookup_skip by done.
    change ((a :: b :: c :: l) !z 2) with (Some c). cbn [mbind option_bind].
    assert (0 <= zlen l / 3) by (apply Z.div_pos; [apply zlen_nonneg|lia]). if_is true.
    do 4 write_next.
    assert (Hpre : zlen (pre ++ [a; b; c]) = zlen pre + 3) by (rewrite zlen_app; done).
    specialize (IH (pre ++ [a; b; c])). rewrite Hpre, <-app_assoc in IH. cbn [app] in IH.
    replace (zlen pre + (zlen l / 3 + 1) * 3) with (zlen pre + 3 + zlen l / 3 * 3) by lia.
    replace (zlen pre + (zlen l + 1 + 1 + 1)) with (zlen pre + 3 + zlen l) by lia.
    rewrite IH by (try done; room). by rewrite <-!app_assoc.
Qed.

Lemma text_length l : bytes_ok l → zlen (base64_text l) = encoded_room l - 1.
Proof.
  unfold encoded_room. induction l as [|a|a b|a b c l IH] using three_ind; intros Hl.
  - done.
  - inv Hl. by rewrite text_one.
  - inv Hl. inv H2. by rewrite text_two.
  - inv Hl. inv H2. inv H4. rewrite text_group by done. rewrite !zlen_cons, IH by done.
    replace (zlen l + 1 + 1 + 1 + 2) with (zlen l + 2 + 1 * 3) by lia. rewrite Z.div_add by lia. lia.
Qed.

Lemma groups_of n : 0 <= n → n / 3 + (if n mod 3 =? 0 then 0 else 1) = (n + 2) / 3.
Proof.
  intros Hn. pose proof (Z.div_mod n 3). pose proof (Z.mod_pos_bound n 3).
  destruct (Z.eqb_spec (n mod 3) 0); [apply (Z.div_unique _ _ _ 2)|apply (Z.div_unique _ _ _ (n mod 3 - 1))]; lia.
Qed.

(** What encoding does *)
Definition encoded (dst : option Z) (dlen : Z) (bytes : list Z) : Z * Z * list Z :=
  if zlen bytes =? 0 then (0, 0, [])
  else if fits dst dlen (encoded_room bytes) then (0, zlen (base64_text bytes), base64_text bytes ++ [0])
  else (FLB_BASE64_ERR_BUFFER_TOO_SMALL, Z.min (encoded_room bytes) SIZE_MAX, []).

Lemma encode_spec dst dlen bytes : bytes_ok bytes → zlen bytes < 2 ^ 64 → dst_ok dst dlen →
  flb_base64_encode dst dlen bytes (zlen bytes) = Some (encoded dst dlen bytes).
Proof.
  intros Hb Hlen [Hd Hcap]. pose proof (zlen_nonneg bytes). unfold flb_base64_encode, encoded.
  destruct (Z.eqb_spec (zlen bytes) 0) as [|Hne]; [done|]. rewrite groups_of by done.
  set (n := (zlen bytes + 2) / 3). assert (Hroom : encoded_room bytes = 4 * n + 1) by done.
  change ((BASE64_SIZE_T_MAX - 1) / 4) with (2 ^ 62 - 1).
  assert (0 <= n) by (apply Z.div_pos; lia).
  unfold SIZE_MAX, BASE64_SIZE_T_MAX in *. destruct (Z.ltb_spec (2 ^ 62 - 1) n).
  { rewrite Z.min_r by lia. unfold fits. destruct dst; [|done]. destruct (Z.leb_spec (encoded_room bytes) dlen); [lia|done]. }
  rewrite (u64_id (n * 4)), u64_id, Z.min_l by lia. replace (n * 4 + 1) with (encoded_room bytes) by lia.
  destruct dst as [cap|]; cbn; [|by case_match].
  rewrite Z.leb_antisym. destruct (Z.ltb_spec dlen (encoded_room bytes)); [done|]. cbn.
  pose proof (text_length bytes Hb). specialize (Hcap cap eq_refl).
  pose proof (encode_run cap bytes [] [] (Z.to_nat (zlen bytes)) Hb) as Hrun.
  cbn -[encode_loop encode_rest] in Hrun. change (zlen []) with 0 in Hrun. rewrite !Z.add_0_l in Hrun.
  specialize (Hrun ltac:(unfold zlen; lia) ltac:(lia)).
  destruct (encode_loop _ _ _ _ _ _) as [[i out]|]; cbn in Hrun |- *; [|done].
  rewrite Hrun. cbn. by rewrite base64_put_ok by lia.
Qed.

(** *** The first pass *)

Lemma table_inverse c v : 0 <= c <= 127 → base64_dec_map !z c = Some v → v ≠ 127 →
  v = 64 ∧ c = PAD ∨ is_digit v ∧ c = digit_char v.
Proof.
  intros Hc Hv Hne.
  assert (forallb (λ c, match base64_dec_map !z c with
    | Some v => (v =? 127) || ((v =? 64) && (c =? PAD)) || ((0 <=? v) && (v <? 64) && (c =? digit_char v))
    | None => false end) (seqZ 0 128) = true) as Hall by by vm_compute.
  rewrite forallb_forall in Hall. specialize (Hall c). rewrite Hv in Hall.
  assert (Hin : In c (seqZ 0 128)) by (apply list_elem_of_In, elem_of_seqZ; lia). specialize (Hall Hin).
  unfold is_digit. bool_prop. destruct Hall as [Hall|Hall]; bool_prop; [destruct Hall; bool_prop; [done|left; lia]|].
  right. done.
Qed.

Lemma digit_value v : is_digit v →
  base64_dec_map !z digit_char v = Some v ∧ 32 < digit_char v <= 127 ∧ digit_char v ≠ PAD.
Proof.
  intros Hv.
  assert (forallb (λ v, bool_decide (base64_dec_map !z digit_char v = Some v) && (32 <? digit_char v) &&
    (digit_char v <=? 127) && negb (digit_char v =? PAD)) (seqZ 0 64) = true) as Hall by by vm_compute.
  rewrite forallb_forall in Hall. specialize (Hall v). unfold is_digit in Hv.
  assert (Hin : In v (seqZ 0 64)) by (apply list_elem_of_In, elem_of_seqZ; lia). specialize (Hall Hin).
  bool_prop. by rewrite bool_decide_eq_true in *.
Qed.

(** The first pass over the characters of the text *)
Fixpoint check_text (t : list Z) (n j : Z) : option (Z * Z) :=
  match t with
  | [] => Some (n, j)
  | c :: t' =>
      let j := if c =? PAD then u32 (j + 1) else j in
      if (c =? PAD) && (2 <? j) then None
      else if 127 <? c then None
      else
        v ← base64_dec_map !z c;
        if v =? 127 then None
        else if (v <? 64) && negb (j =? 0) then None
        else check_text t' (n + 1) j
  end.

Definition starts_with (c : Z) (s : list Z) : bool := match s with d :: _ => d =? c | [] => false end.

Lemma skip_spaces_run s k : starts_with SPACE s = false → ∀ fuel pre x, (k <= fuel)%nat → 0 <= x → x + Z.of_nat k < 2 ^ 32 →
  let src := pre ++ replicate k SPACE ++ s in
  skip_spaces fuel src (zlen src) (zlen pre) x = Some (zlen pre + Z.of_nat k, x + Z.of_nat k).
Proof.
  intros Hs. induction k as [|k IH]; intros fuel pre x Hfuel H0 Hx src.
  - rewrite !Z.add_0_r. subst src. cbn. destruct fuel, s as [|c s]; cbn; try by rewrite at_end.
    all: rewrite not_at_end, zlookup_at; cbn; cbn in Hs; by rewrite Hs.
  - destruct fuel as [|fuel]; [lia|]. subst src. cbn [skip_spaces replicate app]. rewrite not_at_end, zlookup_at. cbn -[skip_spaces].
    rewrite snoc_cons, <-(zlen_snoc _ SPACE), u32_id by lia. rewrite IH by lia. rewrite zlen_snoc. f_equal. f_equal; lia.
Qed.

Lemma spaces_split s : ∃ k s', s = replicate k SPACE ++ s' ∧ starts_with SPACE s' = false.
Proof.
  induction s as [|c s (k & s' & -> & Hs')]; [by exists 0%nat, []|].
  destruct (Z.eqb_spec c SPACE) as [->|Hc]; [by exists (S k), s'|].
  exists 0%nat, (c :: replicate k SPACE ++ s'). split; [done|]. cbn. by apply Z.eqb_neq.
Qed.

Lemma unbroken_spaces k s b : unbroken b (replicate k SPACE ++ s) = unbroken (b || Nat.ltb 0 k) s.
Proof. revert b. induction k as [|k IH]; intros b; cbn; [by rewrite orb_false_r|]. rewrite IH. by rewrite orb_true_r. Qed.

(** What the first pass gives *)
Definition checked_at (slen : Z) (r : option (Z * Z)) : Z + Z * Z * Z :=
  match r with Some (n, j) => inr (slen, n, j) | None => inl FLB_BASE64_ERR_INVALID_CHARACTER end.

(** One character of the text *)
Lemma check_char slen c (u : option (list Z)) n j next : is_byte c →
  (∀ n j, next n j = Some (checked_at slen (t ← u; check_text t n j))) →
  (let j := if c =? PAD then u32 (j + 1) else j in
   if (c =? PAD) && (2 <? j) then Some (inl FLB_BASE64_ERR_INVALID_CHARACTER)
   else if 127 <? c then Some (inl FLB_BASE64_ERR_INVALID_CHARACTER)
   else
     v ← base64_dec_map !z c;
     if v =? 127 then Some (inl FLB_BASE64_ERR_INVALID_CHARACTER)
     else if (v <? 64) && negb (j =? 0) then Some (inl FLB_BASE64_ERR_INVALID_CHARACTER)
     else next (n + 1) j) = Some (checked_at slen (t ← ((c ::.) <$> u); check_text t n j)).
Proof.
  intros Hc Hnext. cbn zeta.
  replace (t ← ((c ::.) <$> u); check_text t n j) with (t ← u; check_text (c :: t) n j) by by destruct u.
  cbn [check_text]. set (j' := if c =? PAD then _ else _). clearbody j'.
  destruct ((c =? PAD) && (2 <? j')); [by destruct u|]. destruct (Z.ltb_spec 127 c); [by destruct u|].
  destruct (zlookup_is_Some base64_dec_map c) as [v ->]; [unfold is_byte in *; change (zlen base64_dec_map) with 128; lia|].
  cbn [mbind option_bind]. destruct (v =? 127); [by destruct u|].
  destruct ((v <? 64) && negb (j' =? 0)); [by destruct u|]. apply Hnext.
Qed.

Lemma check_loop_run fuel : ∀ pre s n j, (length s <= fuel)%nat → bytes_ok s → zlen s < 2 ^ 32 →
  check_loop fuel (pre ++ s) (zlen (pre ++ s)) (zlen pre) n j =
  Some (checked_at (zlen (pre ++ s)) (t ← unbroken false s; check_text t n j)).
Proof.
  induction fuel as [|fuel IH]; intros pre s n j Hfuel Hs Hlen.
  { destruct s; [|cbn in Hfuel; lia]. cbn. rewrite at_end. by rewrite app_nil_r. }
  cbn [check_loop]. destruct (decide (s = [])) as [->|Hne].
  { rewrite at_end. by rewrite app_nil_r. }
  assert (Hpre : (zlen pre <? zlen (pre ++ s)) = true) by (destruct s; [done|apply not_at_end]). rewrite Hpre. clear Hpre Hne.
  destruct (spaces_split s) as (k & s' & -> & Hs').
  pose proof (skip_spaces_run s' k Hs' (S fuel) pre 0) as Hskip. cbn zeta in Hskip.
  rewrite zlen_app in Hlen. unfold zlen at 1 in Hlen. rewrite length_replicate in Hlen. pose proof (zlen_nonneg s').
  rewrite length_app, length_replicate in Hfuel.
  rewrite Hskip by lia. clear Hskip. rewrite unbroken_spaces, app_assoc. cbn [orb mbind option_bind].
  set (pre' := pre ++ replicate k SPACE).
  assert (Hpre : zlen pre + Z.of_nat k = zlen pre').
  { subst pre'. rewrite zlen_app. unfold zlen at 3. by rewrite length_replicate. }
  clearbody pre'. rewrite Hpre, Z.add_0_l. apply Forall_app in Hs as [_ Hs]. destruct s' as [|c s'].
  { rewrite app_nil_r, Z.eqb_refl. by destruct (Nat.ltb 0 k). }
  pose proof (not_at_end pre' c s') as Hlt. apply Z.ltb_lt in Hlt.
  destruct (Z.eqb_spec (zlen pre') (zlen (pre' ++ c :: s'))); [lia|]. rewrite zlookup_at. cbn [mbind option_bind].
  inv Hs. cbn [starts_with] in Hs'. cbn [unbroken]. rewrite Hs'. rewrite zlen_cons in *.
  assert (Hnext : ∀ n j, check_loop fuel (pre' ++ c :: s') (zlen (pre' ++ c :: s')) (zlen pre' + 1) n j =
    Some (checked_at (zlen (pre' ++ c :: s')) (t ← unbroken false s'; check_text t n j))).
  { intros n' j'. rewrite snoc_cons, <-(zlen_snoc _ c). apply IH; [cbn in Hfuel; lia|done|lia]. }
  destruct (Z.eqb_spec c LF) as [->|Hlf].
  { cbn. rewrite andb_false_r. cbn. apply Hnext. }
  destruct (Z.eqb_spec c CR) as [->|Hcr].
  - rewrite andb_true_r. destruct s' as [|d s'].
    + replace (2 <=? _) with false by (symmetry; apply Z.leb_gt; rewrite zlen_app; change (zlen [CR]) with 1; lia). cbn.
      by destruct (Z.of_nat k =? 0).
    + replace (2 <=? _) with true by (symmetry; apply Z.leb_le; rewrite zlen_app, !zlen_cons; pose proof (zlen_nonneg s'); lia).
      rewrite zlookup_next. cbn [mbind option_bind]. destruct (Z.eqb_spec d LF) as [->|Hd]; [apply Hnext|].
      cbn. by destruct (Z.of_nat k =? 0).
  - rewrite andb_false_r. cbn [mbind option_bind orb]. destruct (Z.eqb_spec (Z.of_nat k) 0) as [Hk|Hk].
    + destruct k; [|lia]. by apply (check_char _ c (unbroken false s')).
    + by destruct k; [lia|].
Qed.

Lemma check_pads p : ∀ n j, 0 <= j → j + Z.of_nat p <= 2 →
  check_text (replicate p PAD) n j = Some (n + Z.of_nat p, j + Z.of_nat p).
Proof.
  induction p as [|p IH]; intros n j Hj Hp; [by rewrite !Z.add_0_r|].
  cbn [replicate check_text]. rewrite Z.eqb_refl, u32_id by lia. cbn [andb]. destruct (Z.ltb_spec 2 (j + 1)); [lia|].
  change (127 <? PAD) with false. change (base64_dec_map !z PAD) with (Some 64). cbn [mbind option_bind].
  change (64 =? 127) with false. change (64 <? 64) with false. cbn [andb]. rewrite IH by lia. apply f_equal, f_equal2; lia.
Qed.

Lemma check_text_complete ds p : Forall is_digit ds → (p <= 2)%nat → ∀ n,
  check_text ((digit_char <$> ds) ++ replicate p PAD) n 0 = Some (n + zlen ds + Z.of_nat p, Z.of_nat p).
Proof.
  intros Hds Hp. induction Hds as [|v ds Hv Hds IH]; intros n; cbn [fmap list_fmap app].
  - rewrite check_pads by lia. by rewrite Z.add_0_r.
  - destruct (digit_value v Hv) as (Hd & Hr & Hpad). cbn [check_text]. apply Z.eqb_neq in Hpad. rewrite Hpad. cbn [andb].
    destruct (Z.ltb_spec 127 (digit_char v)); [lia|]. rewrite Hd. cbn [mbind option_bind]. unfold is_digit in Hv.
    destruct (Z.eqb_spec v 127); [lia|]. rewrite andb_false_r, IH, zlen_cons. apply f_equal, f_equal2; lia.
Qed.

Lemma check_text_sound t : ∀ n j r, 0 <= j <= 2 → check_text t n j = Some r → ∃ ds p,
  t = (digit_char <$> ds) ++ replicate p PAD ∧ Forall is_digit ds ∧ (j ≠ 0 → ds = []) ∧ j + Z.of_nat p <= 2.
Proof.
  induction t as [|c t IH]; intros n j r Hj Hr.
  { exists [], 0%nat. split_and!; [done..|lia]. }
  cbn [check_text] in Hr. destruct (Z.eqb_spec c PAD) as [->|Hc]; cbn [andb] in Hr.
  - rewrite u32_id in Hr by lia. destruct (Z.ltb_spec 2 (j + 1)); [done|].
    apply IH in Hr as (ds & p & -> & _ & Hds & Hp); [|lia]. rewrite Hds by lia. exists [], (S p). split_and!; [done..|lia].
  - destruct (Z.ltb_spec 127 c); [done|]. destruct (base64_dec_map !z c) as [v|] eqn:Hv; [|done]. cbn in Hr.
    apply zlookup_Some in Hv as Hc'. destruct (Z.eqb_spec v 127) as [|H127]; [done|].
    apply table_inverse in Hv as [[-> ->]|[Hd ->]]; [done| |lia|done].
    unfold is_digit in Hd. destruct (Z.ltb_spec v 64); [|lia]. destruct (Z.eqb_spec j 0) as [->|]; [|done]. cbn in Hr.
    apply IH in Hr as (ds & p & -> & Hds & _ & Hp); [|lia]. exists (v :: ds), p. by split_and!; [|constructor| |].
Qed.

(** *** The second pass *)

(** The second pass over the characters of the text *)
Fixpoint decode_text (cap : Z) (t : list Z) (j n x : Z) (out : list Z) : option (list Z) :=
  match t with
  | [] => Some out
  | c :: t' =>
      v ← base64_dec_map !z c;
      let j := if v =? 64 then u32 (j - 1) else j in
      let x := u32 (Z.lor (u32 (Z.shiftl x 6)) (Z.land v 0x3F)) in
      if n + 1 =? 4 then
        out ← put_byte cap 0 j x 16 out;
        out ← put_byte cap 1 j x 8 out;
        out ← put_byte cap 2 j x 0 out;
        decode_text cap t' j 0 x out
      else decode_text cap t' j (n + 1) x out
  end.

Lemma decode_loop_text cap s : ∀ b t pre j n x out, unbroken b s = Some t →
  decode_loop (length s) cap (pre ++ s) (zlen pre) j n x out = decode_text cap t j n x out.
Proof.
  induction s as [|c s IH]; intros b t pre j n x out Ht; cbn [unbroken] in Ht; [by inv Ht|].
  cbn [length decode_loop]. rewrite zlookup_at. cbn [mbind option_bind].
  assert (Hnext : ∀ b t j n x out, unbroken b s = Some t →
    decode_loop (length s) cap (pre ++ c :: s) (zlen pre + 1) j n x out = decode_text cap t j n x out).
  { intros. rewrite snoc_cons, <-(zlen_snoc _ c). by apply IH with b0. }
  destruct (Z.eqb_spec c SPACE) as [->|Hs]; [by apply Hnext with true|].
  destruct (Z.eqb_spec c LF) as [->|Hlf]; [by apply Hnext with false|].
  destruct (Z.eqb_spec c CR) as [->|Hcr].
  - apply Hnext with false. destruct s as [|d s]; [done|]. destruct (Z.eqb_spec d LF) as [->|]; [|done]. done.
  - destruct b; [done|]. destruct (unbroken false s) as [t'|] eqn:Hu; [|done]. inv Ht. cbn [decode_text orb].
    destruct (base64_dec_map !z c) as [v|]; [|done]. cbn -[decode_loop decode_text].
    destruct (n + 1 =? 4); [|by apply Hnext with false].
    destruct (put_byte _ 0 _ _ _ _); [cbn -[decode_loop decode_text]|done].
    destruct (put_byte _ 1 _ _ _ _); [cbn -[decode_loop decode_text]|done].
    destruct (put_byte _ 2 _ _ _ _); [cbn -[decode_loop decode_text]|done]. by apply Hnext with false.
Qed.

Lemma of_bits_u8 z : of_bits [Z.testbit z 7; Z.testbit z 6; Z.testbit z 5; Z.testbit z 4; Z.testbit z 3; Z.testbit z 2;
  Z.testbit z 1; Z.testbit z 0] = u8 z.
Proof.
  unfold u8. rewrite <-!(Z.mod_pow2_bits_low z 8) by lia.
  assert (Hb : is_byte (z mod 2 ^ 8)) by (by apply Z.mod_pos_bound). revert Hb. generalize (z mod 2 ^ 8). intros b Hb. by_bytes.
Qed.

Lemma byte_bits x s : 0 <= s → u8 (Z.shiftr x s) = of_bits [Z.testbit x (7 + s); Z.testbit x (6 + s); Z.testbit x (5 + s);
  Z.testbit x (4 + s); Z.testbit x (3 + s); Z.testbit x (2 + s); Z.testbit x (1 + s); Z.testbit x (0 + s)].
Proof. intros Hs. rewrite <-of_bits_u8. by rewrite !Z.shiftr_spec by lia. Qed.

Definition push (x v : Z) : Z := u32 (Z.lor (u32 (Z.shiftl x 6)) (Z.land v 0x3F)).

Lemma push_bits x v k : 0 <= k < 32 → Z.testbit (push x v) k = if k <? 6 then Z.testbit v k else Z.testbit x (k - 6).
Proof.
  intros Hk. unfold push, u32. rewrite Z.mod_pow2_bits_low, Z.lor_spec, Z.mod_pow2_bits_low, Z.shiftl_spec, Z.land_spec by lia.
  change 0x3F with (Z.ones 6). rewrite Z.testbit_ones_nonneg by lia. destruct (Z.ltb_spec k 6).
  - rewrite Z.testbit_neg_r by lia. by rewrite andb_true_r.
  - by rewrite andb_false_r, orb_false_r.
Qed.

Lemma group_bits x a b c d k : 0 <= k < 24 → Z.testbit (push (push (push (push x a) b) c) d) k =
  if k <? 6 then Z.testbit d k else if k <? 12 then Z.testbit c (k - 6)
  else if k <? 18 then Z.testbit b (k - 12) else Z.testbit a (k - 18).
Proof.
  intros Hk. rewrite push_bits by lia. destruct (Z.ltb_spec k 6); [done|]. rewrite push_bits by lia.
  destruct (Z.ltb_spec (k - 6) 6), (Z.ltb_spec k 12); try lia; [done|]. rewrite push_bits by lia.
  destruct (Z.ltb_spec (k - 6 - 6) 6), (Z.ltb_spec k 18); try lia; [f_equal; lia|]. rewrite push_bits by lia.
  destruct (Z.ltb_spec (k - 6 - 6 - 6) 6); [f_equal; lia|lia].
Qed.

(** The three bytes of a group *)
Lemma group_bytes x a b c d l : let y := push (push (push (push x a) b) c) d in
  octets (bits 6 a ++ bits 6 b ++ bits 6 c ++ bits 6 d ++ l) =
    u8 (Z.shiftr y 16) :: u8 (Z.shiftr y 8) :: u8 (Z.shiftr y 0) :: octets l ∧
  octets (bits 6 a ++ bits 6 b ++ bits 6 c) = [u8 (Z.shiftr y 16); u8 (Z.shiftr y 8)] ∧
  octets (bits 6 a ++ bits 6 b) = [u8 (Z.shiftr y 16)].
Proof. intros y. subst y. rewrite !byte_bits by lia. rewrite !group_bits by lia. by split_and!. Qed.

Lemma four_ind (P : list Z → Prop) :
  P [] → (∀ a, P [a]) → (∀ a b, P [a; b]) → (∀ a b c, P [a; b; c]) → (∀ a b c d l, P l → P (a :: b :: c :: d :: l)) → ∀ l, P l.
Proof.
  intros H0 H1 H2 H3 H4. fix IH 1. intros [|a [|b [|c [|d l]]]]; [done..|]. apply H4, IH.
Qed.

Lemma decoded_group a b c d ds p : decoded (a :: b :: c :: d :: ds) p =
  octets (bits 6 a ++ bits 6 b ++ bits 6 c ++ bits 6 d ++ (take (4 * ((length ds + p) / 4)) ds ≫= bits 6)).
Proof.
  unfold decoded. cbn [length]. replace (S (S (S (S (length ds)))) + p)%nat with (length ds + p + 1 * 4)%nat by lia.
  rewrite Nat.div_add by lia. replace (4 * ((length ds + p) / 4 + 1))%nat with (S (S (S (S (4 * ((length ds + p) / 4)))))) by lia.
  by rewrite !firstn_cons.
Qed.

Lemma decode_digit cap v t j n x out : is_digit v → decode_text cap (digit_char v :: t) j n x out =
  if n + 1 =? 4 then
    out ← put_byte cap 0 j (push x v) 16 out;
    out ← put_byte cap 1 j (push x v) 8 out;
    out ← put_byte cap 2 j (push x v) 0 out;
    decode_text cap t j 0 (push x v) out
  else decode_text cap t j (n + 1) (push x v) out.
Proof.
  intros Hv. destruct (digit_value v Hv) as (Hd & _). cbn [decode_text]. rewrite Hd. cbn [mbind option_bind].
  unfold is_digit in Hv. by destruct (Z.eqb_spec v 64); [lia|].
Qed.
Lemma decode_pad cap t j n x out : decode_text cap (PAD :: t) j n x out =
  if n + 1 =? 4 then
    out ← put_byte cap 0 (u32 (j - 1)) (push x 64) 16 out;
    out ← put_byte cap 1 (u32 (j - 1)) (push x 64) 8 out;
    out ← put_byte cap 2 (u32 (j - 1)) (push x 64) 0 out;
    decode_text cap t (u32 (j - 1)) 0 (push x 64) out
  else decode_text cap t (u32 (j - 1)) (n + 1) (push x 64) out.
Proof. done. Qed.
Lemma put_byte_ok cap k j x s out : k < j → zlen out + 1 <= cap → put_byte cap k j x s out = Some (out ++ [u8 (Z.shiftr x s)]).
Proof. intros Hk H. unfold put_byte. destruct (Z.ltb_spec k j); [|lia]. by apply base64_put_ok. Qed.
Lemma put_byte_not cap k j x s out : j <= k → put_byte cap k j x s out = Some out.
Proof. intros Hk. unfold put_byte. by destruct (Z.ltb_spec k j); [lia|]. Qed.

(** Which of four characters comes next *)
Ltac simpl_n := repeat match goal with |- context [if ?n =? 4 then _ else _] =>
  let b := eval vm_compute in (n =? 4) in change (n =? 4) with b; cbv iota end.

Ltac inv_all := repeat match goal with Ht : Forall _ (_ :: _) |- _ => inv Ht end.
Ltac read_all := repeat first [rewrite decode_digit by done|rewrite decode_pad]; simpl_n.

Lemma decode_digits cap p : (p <= 2)%nat → ∀ ds x out, Forall is_digit ds → zlen out + zlen (decoded ds p) <= cap →
  decode_text cap ((digit_char <$> ds) ++ replicate p PAD) 3 0 x out = Some (out ++ decoded ds p).
Proof.
  intros Hp ds. induction ds as [|a|a b|a b c|a b c d ds IH] using four_ind; intros x out Hds Hcap.
  1-4: inv_all; destruct p as [|[|[|]]]; [..|lia]; cbn [fmap list_fmap app replicate]; read_all.
  all: try (cbn [decode_text]; by rewrite app_nil_r).
  { pose proof (group_bytes x a b 64 64 []) as (_ & _ & Hg). change (decoded [a; b] 2) with (octets (bits 6 a ++ bits 6 b)) in *.
    rewrite Hg in *. change (u32 (u32 (3 - 1) - 1)) with 1. set (y := push (push (push (push x a) b) 64) 64) in *. clearbody y.
    rewrite put_byte_ok; [|lia|room]. cbn [mbind option_bind]. by rewrite !put_byte_not. }
  1-2: pose proof (group_bytes x a b c 64 []) as (_ & Hg & _).
  1-2: change (decoded [a; b; c] _) with (octets (bits 6 a ++ bits 6 b ++ bits 6 c)) in *; rewrite Hg in *.
  1-2: change (u32 (3 - 1)) with 2; set (y := push (push (push (push x a) b) c) 64) in *; clearbody y.
  1-2: do 2 (rewrite put_byte_ok; [|lia|room]; cbn [mbind option_bind]); rewrite put_byte_not by lia; cbn [mbind option_bind].
  1-2: rewrite ?decode_pad; simpl_n; by rewrite <-app_assoc.
  pose proof (group_bytes x a b c d (take (4 * ((length ds + p) / 4)) ds ≫= bits 6)) as [Hg _].
  rewrite decoded_group, Hg in *. fold (decoded ds p) in *. inv_all. cbn [fmap list_fmap app].
  read_all. set (y := push (push (push (push x a) b) c) d) in *. clearbody y.
  repeat (rewrite put_byte_ok; [|lia|room]; cbn [mbind option_bind]).
  rewrite IH; [by rewrite <-!app_assoc|done|room].
Qed.

Lemma decoded_fits ds p : (p <= 2)%nat → zlen (decoded ds p) <= decoded_room ds p.
Proof.
  intros Hp. unfold decoded_room. induction ds as [|a|a b|a b c|a b c d ds IH] using four_ind.
  1-4: destruct p as [|[|[|]]]; [..|lia]; by vm_compute.
  pose proof (group_bytes 0 a b c d (take (4 * ((length ds + p) / 4)) ds ≫= bits 6)) as [Hg _].
  rewrite decoded_group, Hg. fold (decoded ds p). rewrite !zlen_cons.
  replace (6 * (zlen ds + 1 + 1 + 1 + 1 + Z.of_nat p) + 7) with (6 * (zlen ds + Z.of_nat p) + 7 + 3 * 8) by lia.
  rewrite Z.div_add by lia. lia.
Qed.

(** Complete groups are written in full. *)
Lemma decoded_full ds p : (p <= 2)%nat → ((length ds + p) mod 4 = 0)%nat → zlen (decoded ds p) = decoded_room ds p.
Proof.
  intros Hp. unfold decoded_room. induction ds as [|a|a b|a b c|a b c d ds IH] using four_ind; intros Hm.
  1-4: destruct p as [|[|[|]]]; [..|lia]; first [by vm_compute|by vm_compute in Hm].
  pose proof (group_bytes 0 a b c d (take (4 * ((length ds + p) / 4)) ds ≫= bits 6)) as [Hg _].
  rewrite decoded_group, Hg. fold (decoded ds p). rewrite !zlen_cons, IH.
  - replace (6 * (zlen ds + 1 + 1 + 1 + 1 + Z.of_nat p) + 7) with (6 * (zlen ds + Z.of_nat p) + 7 + 3 * 8) by lia.
    rewrite Z.div_add by lia. lia.
  - cbn [length] in Hm. replace (S (S (S (S (length ds)))) + p)%nat with (length ds + p + 1 * 4)%nat in Hm by lia.
    by rewrite Nat.Div0.mod_add in Hm.
Qed.

(** The code asks for the room without a product that may overflow. *)
Lemma room_of n j : 0 <= n < 2 ^ 63 → 0 <= j <= 2 → j <= n →
  u64 (6 * Z.shiftr n 3 + Z.shiftr (6 * Z.land n 7 + 7) 3 - j) = (6 * n + 7) / 8 - j.
Proof.
  intros Hn Hj Hjn. rewrite !Z.shiftr_div_pow2 by lia. change 7 with (Z.ones 3) at 1. rewrite Z.land_ones by lia.
  change (2 ^ 3) with 8. pose proof (Z.div_mod n 8 ltac:(lia)) as Hd. pose proof (Z.mod_pos_bound n 8 ltac:(lia)).
  assert (Heq : 6 * (n / 8) + (6 * (n mod 8) + 7) / 8 = (6 * n + 7) / 8).
  { replace (6 * n + 7) with (6 * (n mod 8) + 7 + 6 * (n / 8) * 8) by lia. rewrite Z.div_add by lia. lia. }
  rewrite Heq. apply u64_id. pose proof (Z.div_mod (6 * n + 7) 8 ltac:(lia)). pose proof (Z.mod_pos_bound (6 * n + 7) 8 ltac:(lia)).
  lia.
Qed.

(** What decoding does with a source that is Base64 *)
Definition decode_result (dst : option Z) (dlen : Z) (ds : list Z) (p : nat) : Z * option Z * list Z :=
  if Nat.eqb (length ds + p) 0 then (0, Some 0, [])
  else if fits dst dlen (decoded_room ds p) then (0, Some (zlen (decoded ds p)), decoded ds p)
  else (FLB_BASE64_ERR_BUFFER_TOO_SMALL, Some (decoded_room ds p), []).

Lemma unbroken_length s : ∀ b t, unbroken b s = Some t → zlen t <= zlen s.
Proof.
  induction s as [|c s IH]; intros b t Ht; cbn [unbroken] in Ht; [by inv Ht|]. rewrite zlen_cons.
  destruct (c =? SPACE); [apply IH in Ht; lia|]. destruct (c =? LF); [apply IH in Ht; lia|].
  destruct (c =? CR).
  - destruct s as [|d s]; [done|]. destruct (Z.eqb_spec d LF) as [->|]; [|done].
    assert (Ht' : unbroken false (LF :: s) = Some t) by done. apply IH in Ht'. lia.
  - destruct b; [done|]. destruct (unbroken false s) eqn:Hu; [|done]. inv Ht. apply IH in Hu. rewrite zlen_cons. lia.
Qed.

Section decode.
Context (dst : option Z) (dlen : Z) (src : list Z) (Hsrc : bytes_ok src) (Hlen : zlen src < 2 ^ 32) (Hdst : dst_ok dst dlen).

Lemma decode_good ds p : is_base64 src ds p →
  flb_base64_decode dst dlen src (zlen src) = Some (decode_result dst dlen ds p).
Proof using Hsrc Hlen Hdst.
  intros (Hu & Hds & Hp). unfold flb_base64_decode.
  pose proof (check_loop_run (Z.to_nat (zlen src)) [] src 0 0) as Hcheck. cbn [app] in Hcheck. change (zlen []) with 0 in Hcheck.
  rewrite Hcheck; [|unfold zlen; lia|done..]. rewrite Hu. cbn [mbind option_bind].
  rewrite check_text_complete by done. cbn [checked_at]. rewrite Z.add_0_l.
  unfold decode_result. pose proof (unbroken_length _ _ _ Hu) as Hle.
  unfold zlen at 1 in Hle. rewrite length_app, length_fmap, length_replicate in Hle.
  assert (Hn : zlen ds + Z.of_nat p = Z.of_nat (length ds + p)) by (unfold zlen; lia). rewrite Hn.
  destruct (Nat.eqb_spec (length ds + p) 0) as [->|Hne]; [done|].
  destruct (Z.eqb_spec (Z.of_nat (length ds + p)) 0); [lia|]. rewrite room_of by lia. rewrite <-Hn.
  fold (decoded_room ds p). destruct dst as [cap|]; cbn [fits]; [|done].
  rewrite Z.leb_antisym. destruct (dlen <? decoded_room ds p) eqn:Hfit; [done|]. apply Z.ltb_ge in Hfit. cbn [negb].
  destruct Hdst as [_ Hcap]. specialize (Hcap cap eq_refl). pose proof (decoded_fits ds p Hp).
  rewrite zlen_nat. pose proof (decode_loop_text cap src false _ [] 3 0 0 [] Hu) as Hloop. cbn [app] in Hloop.
  change (zlen []) with 0 in Hloop. rewrite Hloop, decode_digits; [done..|].
  change (zlen []) with 0. lia.
Qed.

Lemma decode_bad : ¬ (∃ ds p, is_base64 src ds p) →
  flb_base64_decode dst dlen src (zlen src) = Some (FLB_BASE64_ERR_INVALID_CHARACTER, None, []).
Proof using Hsrc Hlen.
  intros Hno. unfold flb_base64_decode.
  pose proof (check_loop_run (Z.to_nat (zlen src)) [] src 0 0) as Hcheck. cbn [app] in Hcheck. change (zlen []) with 0 in Hcheck.
  rewrite Hcheck; [|unfold zlen; lia|done..]. destruct (unbroken false src) as [t|] eqn:Hu; [|done].
  cbn [mbind option_bind]. destruct (check_text t 0 0) as [[n j]|] eqn:Hc; [|done]. exfalso. apply Hno.
  apply check_text_sound in Hc as (ds & p & -> & Hds & _ & Hp); [|lia]. exists ds, p. split_and!; [done..|lia].
Qed.
End decode.

(** *** Reading what was written *)

Lemma bits_of_bits a b c d e f : bits 6 (of_bits [a; b; c; d; e; f]) = [a; b; c; d; e; f].
Proof. by destruct a, b, c, d, e, f. Qed.
Lemma of_bits_digit a b c d e f : is_digit (of_bits [a; b; c; d; e; f]).
Proof. unfold is_digit. by destruct a, b, c, d, e, f. Qed.
Lemma octets_byte a l : is_byte a → octets (bits 8 a ++ l) = a :: octets l.
Proof. intros Ha. change (octets (bits 8 a ++ l)) with (of_bits (bits 8 a) :: octets l). f_equal. etrans; [apply of_bits_u8|]. by apply Z.mod_small. Qed.

Definition pads (bytes : list Z) : nat := (3 - length bytes mod 3) mod 3.

Lemma sextets_bits : ∀ l, ∃ z, (z < 6)%nat ∧ sextets l ≫= bits 6 = l ++ replicate z false.
Proof.
  fix IH 1. intros [|a [|b [|c [|d [|e [|f l]]]]]].
  - exists 0%nat. split; [lia|done].
  - exists 5%nat. split; [lia|]. apply bits_of_bits.
  - exists 4%nat. split; [lia|]. apply bits_of_bits.
  - exists 3%nat. split; [lia|]. apply bits_of_bits.
  - exists 2%nat. split; [lia|]. apply bits_of_bits.
  - exists 1%nat. split; [lia|]. apply bits_of_bits.
  - destruct (IH l) as (z & Hz & Hl). exists z. split; [done|]. cbn [sextets mbind list_bind]. by rewrite bits_of_bits, Hl.
Qed.
Lemma octets_bits l z : bytes_ok l → (z < 8)%nat → octets ((l ≫= bits 8) ++ replicate z false) = l.
Proof.
  intros Hl Hz. induction Hl as [|a l Ha Hl IH].
  - by do 8 (destruct z as [|z]; [done|]); lia.
  - cbn [mbind list_bind]. by rewrite <-app_assoc, octets_byte, IH.
Qed.
Lemma sextets_digits : ∀ l, Forall is_digit (sextets l).
Proof.
  fix IH 1. intros [|a [|b [|c [|d [|e [|f l]]]]]]; [constructor|repeat constructor; apply of_bits_digit..|].
  constructor; [apply of_bits_digit|apply IH].
Qed.

(** The digits of some bytes and the padding make complete groups, for which as much room is asked as there are bytes. *)
Lemma text_groups l : let ds := sextets (l ≫= bits 8) in
  (4 * ((length ds + pads l) / 4) = length ds + pads l)%nat ∧ decoded_room ds (pads l) = zlen l.
Proof.
  induction l as [|a|a b|a b c l IH] using three_ind; [done..|]. destruct IH as [IHg IHr]. intros ds.
  assert (Hp : pads (a :: b :: c :: l) = pads l).
  { unfold pads. cbn [length]. replace (S (S (S (length l)))) with (length l + 1 * 3)%nat by lia. by rewrite Nat.Div0.mod_add. }
  set (ds' := sextets (l ≫= bits 8)) in *.
  assert (Hd : length ds = (length ds' + 4)%nat) by (rewrite Nat.add_comm; done).
  rewrite Hp. split.
  - rewrite Hd. replace (length ds' + 4 + pads l)%nat with (length ds' + pads l + 1 * 4)%nat by lia. rewrite Nat.div_add by lia. lia.
  - unfold decoded_room in *. unfold zlen at 1. rewrite Hd, !zlen_cons, <-IHr.
    replace (6 * (Z.of_nat (length ds' + 4) + Z.of_nat (pads l)) + 7) with (6 * (zlen ds' + Z.of_nat (pads l)) + 7 + 3 * 8)
      by (unfold zlen; lia). rewrite Z.div_add by lia. lia.
Qed.

Lemma text_decoded l : bytes_ok l → decoded (sextets (l ≫= bits 8)) (pads l) = l.
Proof.
  intros Hl. destruct (text_groups l) as [Hg _]. unfold decoded. rewrite Hg, firstn_all2 by lia.
  destruct (sextets_bits (l ≫= bits 8)) as (z & Hz & ->). apply octets_bits; [done|lia].
Qed.

Lemma text_empty l : Nat.eqb (length (sextets (l ≫= bits 8)) + pads l) 0 = (zlen l =? 0).
Proof.
  induction l as [|a|a b|a b c l _] using three_ind; [done..|]. symmetry. apply Z.eqb_neq. rewrite zlen_cons.
  pose proof (zlen_nonneg (b :: c :: l)). lia.
Qed.

Lemma text_unbroken ds p : Forall is_digit ds →
  unbroken false ((digit_char <$> ds) ++ replicate p PAD) = Some ((digit_char <$> ds) ++ replicate p PAD).
Proof.
  assert (Hchar : ∀ c s, 32 < c → unbroken false (c :: s) = (c ::.) <$> unbroken false s).
  { intros c s Hc. cbn [unbroken]. unfold SPACE, LF, CR.
    destruct (Z.eqb_spec c 32), (Z.eqb_spec c 10), (Z.eqb_spec c 13); try lia. done. }
  intros Hds. induction Hds as [|v ds Hv Hds IH]; cbn [fmap list_fmap app].
  - induction p as [|p IH]; [done|]. cbn [replicate]. rewrite Hchar by done. by rewrite IH.
  - destruct (digit_value v Hv) as (_ & Hr & _). rewrite Hchar by lia. by rewrite IH.
Qed.

Lemma pads_le l : (pads l <= 2)%nat.
Proof. unfold pads. pose proof (Nat.mod_upper_bound (3 - length l mod 3) 3 ltac:(lia)). lia. Qed.

Lemma text_is_base64 l : is_base64 (base64_text l) (sextets (l ≫= bits 8)) (pads l).
Proof. split_and!; [apply text_unbroken, sextets_digits|apply sextets_digits|apply pads_le]. Qed.

Lemma text_bytes l : bytes_ok (base64_text l).
Proof.
  apply Forall_app. split; [|by apply Forall_replicate].
  apply Forall_fmap. eapply Forall_impl; [apply sextets_digits|]. intros v Hv. change (is_byte (digit_char v)).
  destruct (digit_value v Hv) as (_ & Hr & _). unfold is_byte. lia.
Qed.

(** ** Properties *)

(** C39. Decoding is exact.  Digits with at most two padding characters after them - whether or not they make groups of
    four, so more than RFC 4648 has - with spaces before line breaks and at the end only are decoded: the room that they
    take is asked for when the buffer is missing or too small, and otherwise the bytes that the bits of the complete
    groups make are written and counted in [olen].  Any other source is refused as an invalid character, with [olen] and
    the buffer left alone.  What is written is never more than the room asked for, and is as much for padded texts.
    (Sources of 4 GB and more are left out: the counter of spaces wraps.) *)
Theorem base64_decode_exact dst dlen src : bytes_ok src → zlen src < 2 ^ 32 → dst_ok dst dlen →
  (∀ ds p, is_base64 src ds p →
     flb_base64_decode dst dlen src (zlen src) = Some (decode_result dst dlen ds p) ∧
     zlen (decoded ds p) <= decoded_room ds p ∧
     ((length ds + p) mod 4 = 0 → zlen (decoded ds p) = decoded_room ds p)%nat) ∧
  (¬ (∃ ds p, is_base64 src ds p) →
     flb_base64_decode dst dlen src (zlen src) = Some (FLB_BASE64_ERR_INVALID_CHARACTER, None, [])).
Proof.
  intros Hsrc Hlen Hdst. split; [|by apply decode_bad]. intros ds p Hd. pose proof Hd as (_ & _ & Hp).
  split_and!; [by apply decode_good|by apply decoded_fits|by apply decoded_full].
Qed.

Lemma base64_decode_exact_witness :
  let src := [84; 87; 32; 10; 70; 117; 13; 10; 89; 81; 61; 61; 32] in
  flb_base64_decode (Some 4) 4 src (zlen src) = Some (0, Some 4, [77; 97; 110; 97]).
Proof.
  intros src. refine (eq_trans (proj1 (proj1 (base64_decode_exact (Some 4) 4 src _ _ _) [19; 22; 5; 46; 24; 16] 2%nat _)) _).
  - by apply (bool_decide_unpack _).
  - done.
  - split; [done|]. intros cap [= <-]. done.
  - split_and!; [by vm_compute| |lia]. repeat constructor; done.
  - by vm_compute.
Defined.

(** Base64 survives a round trip: for any bytes [flb_base64_encode] is defined and, when the buffer has the room that it
    otherwise asks for, writes the text of RFC 4648 with its padding and a NUL; [flb_base64_decode] reads in that text exactly
    the same bytes with a buffer for them, and asks for that much room with a smaller one. *)
Theorem base64_roundtrip dst dlen dst' dlen' bytes : bytes_ok bytes → zlen bytes < 2 ^ 31 → dst_ok dst dlen → dst_ok dst' dlen' →
  flb_base64_encode dst dlen bytes (zlen bytes) = Some (encoded dst dlen bytes) ∧
  flb_base64_decode dst' dlen' (base64_text bytes) (zlen (base64_text bytes)) =
    Some (if zlen bytes =? 0 then (0, Some 0, [])
          else if fits dst' dlen' (zlen bytes) then (0, Some (zlen bytes), bytes)
          else (FLB_BASE64_ERR_BUFFER_TOO_SMALL, Some (zlen bytes), [])).
Proof.
  intros Hb Hlen Hd Hd'. split; [apply encode_spec; [done|lia|done]|].
  pose proof (text_length bytes Hb) as Htl. unfold encoded_room in Htl.
  assert (zlen (base64_text bytes) < 2 ^ 32).
  { pose proof (Z.div_mod (zlen bytes + 2) 3 ltac:(lia)). pose proof (Z.mod_pos_bound (zlen bytes + 2) 3 ltac:(lia)). lia. }
  rewrite (decode_good dst' dlen' _ (text_bytes _) ltac:(done) Hd' _ _ (text_is_base64 bytes)).
  unfold decode_result. destruct (text_groups bytes) as [_ Hr]. rewrite Hr, (text_decoded bytes Hb).
  by rewrite text_empty.
Qed.

Lemma base64_roundtrip_witness :
  flb_base64_encode (Some 9) 9 [77; 97; 110; 97] 4 = Some (0, 8, [84; 87; 70; 117; 89; 81; 61; 61; 0]) ∧
  flb_base64_decode (Some 4) 4 [84; 87; 70; 117; 89; 81; 61; 61] 8 = Some (0, Some 4, [77; 97; 110; 97]).
Proof.
  refine (base64_roundtrip (Some 9) 9 (Some 4) 4 [77; 97; 110; 97] _ _ _ _).
  - by apply (bool_decide_unpack _).
  - done.
  - split; [done|]. intros cap [= <-]. done.
  - split; [done|]. intros cap [= <-]. done.
Defined.

(** Digits without padding are taken, but what they hold of a last group is not written: room for two bytes is asked for
    the two digits of one byte, and nothing is written. *)
Example unpadded_lost :
  flb_base64_decode None 0 [65; 66] 2 = Some (FLB_BASE64_ERR_BUFFER_TOO_SMALL, Some 2, []) ∧
  flb_base64_decode (Some 2) 2 [65; 66] 2 = Some (0, Some 0, []).
Proof. split; reflexivity. Qed.
