(* ===== verification/JsonString.v ===== *)
(** * Writing JSON strings ([src/flb_utils.c]: [flb_utils_write_str] and its two versions)

    Both versions scan the string in chunks of [inst_len] bytes with vector instructions, copy the
    chunks without special characters and go on byte by byte after the first one that has some.
    [vector] is false where the build has no vector instructions: a chunk is loaded as zeros then, so
    that none is copied.  Positions are [nat]; the code has [int], for strings below 2^31 bytes.  [mem] is the memory from the string on, of at least [str_len] bytes: loading a
    chunk past its end is undefined behaviour. *)
From S2P Require Import Prelude Env Utf8 Unescape.

(** ** Escape sequences *)

Definition hex_char (d : Z) : Z := if d <? 10 then 48 + d else 87 + d.
(** ["\\u%.4x"] of a value below 2^16 *)
Definition unicode_escape (v : Z) : list Z :=
  [BACKSLASH; 117; hex_char (v / 4096 mod 16); hex_char (v / 256 mod 16); hex_char (v / 16 mod 16); hex_char (v mod 16)].

Definition json_escape_table (c : Z) : option (list Z) :=
  if c =? QUOTE then Some [BACKSLASH; QUOTE]
  else if c =? BACKSLASH then Some [BACKSLASH; BACKSLASH]
  else if c =? 10 then Some [BACKSLASH; 110]
  else if c =? 13 then Some [BACKSLASH; 114]
  else if c =? 9 then Some [BACKSLASH; 116]
  else if c =? 8 then Some [BACKSLASH; 98]
  else if c =? 12 then Some [BACKSLASH; 102]
  else if (c <? 32) || (c =? 127) then Some (unicode_escape c)
  else None.

Definition FLB_UTILS_FRAGMENT_PRIVATE_BLOCK_DESCRIPTOR : Z := 0xE0.

(** A byte of an invalid sequence as a character of the private use area. *)
Definition private_char (b : Z) : list Z :=
  [Z.lor 0xE0 (Z.shiftr FLB_UTILS_FRAGMENT_PRIVATE_BLOCK_DESCRIPTOR 4);
   Z.lor (Z.lor 0x80 (Z.land (Z.shiftl FLB_UTILS_FRAGMENT_PRIVATE_BLOCK_DESCRIPTOR 2) 0x3f)) (Z.land (Z.shiftr b 6) 0x03);
   Z.lor 0x80 (Z.land b 0x3f)].

(** ** One character

    What is done with the character at [i]: the space it needs, the bytes written, the bytes of the
    string used up, whether the loop over the current chunk ends, and the value a loop of its own has
    left in the counter [b] of that loop. *)
Record char_step := mk_step
  { cs_need : Z; cs_bytes : list Z; cs_used : nat; cs_stop : bool; cs_counter : option nat }.
Definition plain_step (bytes : list Z) (used : nat) : char_step := mk_step (zlen bytes) bytes used false None.

(** In [flb_utils_write_str_raw] *)
Definition raw_char (mem : list Z) (str_len i : nat) : option char_step :=
  c ← mem !! i;
  match (if c <? 128 then json_escape_table c else None) with
  | Some seq => Some (plain_step seq 1)
  | None =>
      if c <? 0x80 then Some (plain_step [c] 1)
      else
        utf_len ← flb_utf8_validate_char (drop i mem) (Z.of_nat (str_len - i));
        if (utf_len =? 0) || (Z.of_nat str_len <? Z.of_nat i + utf_len) then
          Some (plain_step [0xEF; 0xBF; 0xBD] 1)
        else Some (plain_step (take (Z.to_nat utf_len) (drop i mem)) (Z.to_nat utf_len))
  end.

(** The loop that decodes a sequence of [n] more bytes: the code point, or the bytes to be mapped to the
    private use area. *)
Fixpoint decode_sequence (n : nat) (state codepoint : Z) (tmp s : list Z) : option (Z + list Z) :=
  match n with
  | O => Some (inl codepoint)
  | S n' =>
      b ← head s;
      let '(ret, state', codepoint') := flb_utf8_decode state codepoint b in
      if ret =? FLB_UTF8_REJECT then Some (inr (match tmp with [] => [b] | _ => tmp end))
      else decode_sequence n' state' codepoint' (tmp ++ [b]) (tail s)
  end.

(** In [flb_utils_write_str_escaped].  [char] is signed, so that a byte above 127 is beyond 0xFFFF as a
    [uint32_t]: the branch for the characters from 0x80 to 0xFFFF is never taken. *)
Definition escaped_char (mem : list Z) (str_len i : nat) : option char_step :=
  c ← mem !! i;
  match (if c <? 128 then json_escape_table c else None) with
  | Some seq => Some (plain_step seq 1)
  | None =>
      if c <? 0x80 then Some (plain_step [c] 1)
      else
        len ← flb_utf8_len (drop i mem);
        if Z.of_nat str_len <? Z.of_nat i + len then Some (mk_step 0 [] 1 true None)
        else
          r ← decode_sequence (Z.to_nat len) FLB_UTF8_ACCEPT 0 [] (drop i mem);
          match r with
          | inl cp =>
              let bytes :=
                if 0xFFFF <? cp then
                  unicode_escape (u16 (0xD800 + Z.shiftr (cp - 0x10000) 10)) ++
                  unicode_escape (u16 (0xDC00 + Z.land (cp - 0x10000) 0x3FF))
                else unicode_escape cp in
              Some (mk_step (Z.max len (zlen bytes)) bytes (Z.to_nat len) false None)
          | inr tmp =>
              let bytes := tmp ≫= private_char in
              Some (mk_step (zlen bytes) bytes (length tmp) false (Some (length tmp)))
          end
  end.

(** ** The loops *)

Section writer.
Variables (vector : bool) (inst_len : nat).

Definition special (c : Z) : bool := (c <=? 0x1F) || (c =? QUOTE) || (c =? BACKSLASH) || (128 <=? c).

(** Whether the loop over chunks stops at [i]. *)
Definition chunk_special (mem : list Z) (i : nat) : option bool :=
  if vector then
    if Nat.leb (i + inst_len) (length mem) then Some (existsb special (take inst_len (drop i mem))) else None
  else Some true.

Fixpoint scan (fuel : nat) (mem : list Z) (vlen i : nat) : option nat :=
  match fuel with
  | O => None
  | S fuel' =>
      if Nat.ltb i vlen then
        stop ← chunk_special mem i;
        if (stop : bool) then Some i else scan fuel' mem vlen (i + inst_len)
      else Some i
  end.

(** The result is [None] when there is no space; else whether the string has ended, the position, the
    space left and the bytes written. *)
Fixpoint chars (fuel : nat) (step : nat → option char_step) (b str_len i : nat) (available : Z) (out : list Z)
    : option (option (bool * nat * Z * list Z)) :=
  match fuel with
  | O => None
  | S fuel' =>
      if Nat.leb inst_len b then Some (Some (false, i, available, out))
      else if Nat.leb str_len i then Some (Some (true, i, available, out))
      else
        st ← step i;
        if available <? cs_need st then Some None
        else
          let i' := (i + cs_used st)%nat in
          let available' := available - zlen (cs_bytes st) in
          let out' := out ++ cs_bytes st in
          if cs_stop st then Some (Some (false, i', available', out'))
          else chars fuel' step (S (default b (cs_counter st))) str_len i' available' out'
  end.

(** The outer loop; [i] is also [copypos]. *)
Fixpoint rounds (fuel : nat) (step : nat → option char_step) (mem : list Z) (str_len vlen i : nat)
    (available : Z) (out : list Z) : option (option (list Z)) :=
  match fuel with
  | O => None
  | S fuel' =>
      i' ← scan (S vlen) mem vlen i;
      let chunk := take (i' - i) (drop i mem) in
      if Nat.ltb i i' && (available <? Z.of_nat (i' - i)) then Some None
      else
        r ← chars (S str_len) step 0 str_len i' (available - zlen chunk) (out ++ chunk);
        match r with
        | None => Some None
        | Some (true, _, _, out') => Some (Some out')
        | Some (false, i', available', out') => rounds fuel' step mem str_len vlen i' available' out'
        end
  end.

(** The largest multiple of the chunk size, a power of two. *)
Definition vlen_of (str_len : nat) : nat :=
  Z.to_nat (Z.land (Z.of_nat str_len) (Z.lnot (Z.of_nat inst_len - 1))).

(** The bytes written from [off] on, [None] for FLB_FALSE. *)
Definition flb_utils_write_str_raw (off size : Z) (mem : list Z) (str_len : nat) : option (option (list Z)) :=
  let available := u64 (size - off) in
  rounds (S str_len) (raw_char mem str_len) mem str_len (vlen_of str_len) 0 available [].

Definition flb_utils_write_str_escaped (off size : Z) (mem : list Z) (str_len : nat) : option (option (list Z)) :=
  let available := u64 (size - off) in
  if available <? Z.of_nat str_len then Some None
  else rounds (S str_len) (escaped_char mem str_len) mem str_len (vlen_of str_len) 0 available [].

Definition flb_utils_write_str (off size : Z) (mem : list Z) (str_len : nat) (escape_unicode : bool)
    : option (option (list Z)) :=
  if escape_unicode then flb_utils_write_str_escaped off size mem str_len
  else flb_utils_write_str_raw off size mem str_len.

(** [flb_utils_write_str_buf]: the buffer grows by 256 bytes until the string fits.  The result is the
    size of the buffer in the end and the bytes written; [None] is -1. *)
Fixpoint write_str_buf_loop (fuel : nat) (s : Z) (mem : list Z) (str_len : nat) (escape_unicode : bool)
    : M env (option (Z * list Z)) :=
  match fuel with
  | O => ub
  | S fuel' =>
      r ← deref (flb_utils_write_str 0 s mem str_len escape_unicode);
      match r with
      | Some out => mret (Some (s, out))
      | None =>
          let s := u64 (s + 256) in
          tmp ← malloc;                                    (* flb_realloc *)
          match tmp with
          | None => mret None
          | Some _ => write_str_buf_loop fuel' s mem str_len escape_unicode
          end
      end
  end.

Definition flb_utils_write_str_buf (fuel : nat) (mem : list Z) (str_len : nat) (escape_unicode : bool)
    : M env (option (Z * list Z)) :=
  let s := Z.of_nat str_len + 1 in
  buf ← malloc;
  match buf with
  | None => mret None
  | Some _ => write_str_buf_loop fuel s mem str_len escape_unicode
  end.
End writer.

(** ** The loops, for any treatment of single characters *)

Section loops.
Variables (vector : bool) (inst_len : nat) (step : nat → option char_step) (mem : list Z) (str_len : nat).

(** What holds of the bytes written when the first [i] bytes of the string are done. *)
Variable Inv : nat → list Z → Prop.

Definition step_bounds (i : nat) (st : char_step) : Prop :=
  (1 <= cs_used st)%nat ∧ (i + cs_used st <= str_len)%nat ∧
  zlen (cs_bytes st) <= cs_need st <= 6 * Z.of_nat (cs_used st) ∧
  (vector = true → cs_used st = 1%nat ∧ cs_stop st = false ∧ cs_counter st = None).

Definition ordinary (i i' : nat) : Prop := Forall (λ c, special c = false) (take (i' - i) (drop i mem)).
Definition aligned (i : nat) : Prop := vector = true → (i = str_len ∨ Nat.divide inst_len i).

Hypothesis Hinst : (1 <= inst_len)%nat.
Hypothesis Hmem : (str_len <= length mem)%nat.
Hypothesis Hvlen : vector = true → (vlen_of inst_len str_len <= str_len)%nat ∧ Nat.divide inst_len (vlen_of inst_len str_len).
Hypothesis Hstep : ∀ i out, (i < str_len)%nat → Inv i out →
  ∃ st, step i = Some st ∧ step_bounds i st ∧ Inv (i + cs_used st) (out ++ cs_bytes st).
Hypothesis Hchunk : ∀ i i' out, Inv i out → (i <= i' <= str_len)%nat → ordinary i i' →
  Inv i' (out ++ take (i' - i) (drop i mem)).

Lemma chars_spec fuel : ∀ b i available out,
  Inv i out → (i <= str_len)%nat → 0 <= available → (str_len - i < fuel)%nat →
  ∃ r, chars inst_len fuel step b str_len i available out = Some r ∧
    match r with
    | None => available < 6 * Z.of_nat (str_len - i)
    | Some (fin, i', available', out') =>
        (i <= i' <= str_len)%nat ∧ Inv i' out' ∧ available' = available - (zlen out' - zlen out) ∧
        0 <= available' ∧ zlen out' - zlen out <= 6 * Z.of_nat (i' - i) ∧
        (fin = true → i' = str_len) ∧ (fin = false → (b < inst_len)%nat → (i < i')%nat) ∧
        (fin = false → vector = true → (b <= inst_len)%nat → i' = (i + (inst_len - b))%nat)
    end.
Proof.
  induction fuel as [|fuel IH]; intros b i available out HI Hi Ha Hf; [lia|]. cbn [chars].
  destruct (Nat.leb_spec inst_len b).
  { eexists. split; [done|]. cbn. split_and!; (done || lia). }
  destruct (Nat.leb_spec str_len i).
  { eexists. split; [done|]. cbn. split_and!; (done || lia). }
  destruct (Hstep i out) as (st & Hst & (Hu & Hiu & Hn & Hv) & HI'); [done|done|]. rewrite Hst. cbn [mbind option_bind].
  pose proof (zlen_nonneg (cs_bytes st)) as Hnn.
  assert (Hlen : zlen (out ++ cs_bytes st) = zlen out + zlen (cs_bytes st)) by (unfold zlen; rewrite length_app; lia).
  destruct (Z.ltb_spec available (cs_need st)); [eexists; split; [done|]; cbn; lia|].
  destruct (cs_stop st) eqn:Hstop.
  { eexists. split; [done|]. cbn. split_and!; try (done || lia). intros _ Hvec. by destruct (Hv Hvec) as (_ & ? & _). }
  destruct (IH (S (default b (cs_counter st))) (i + cs_used st)%nat (available - zlen (cs_bytes st)) (out ++ cs_bytes st))
    as (r & Hr & Hres); [done|lia|lia|lia|].
  exists r. split; [exact Hr|]. destruct r as [[[[fin i'] available'] out']|]; [|lia].
  destruct Hres as (K1 & K2 & K3 & K4 & K5 & K6 & K7 & K8). rewrite Hlen in *.
  split_and!; try (done || lia).
  intros Hfin Hvec _. destruct (Hv Hvec) as (Hu1 & _ & Hc). rewrite Hc in K8. cbn [default] in K8.
  rewrite (K8 Hfin Hvec); lia.
Qed.

Lemma ordinary_nil i : ordinary i i.
Proof. unfold ordinary. rewrite Nat.sub_diag. constructor. Qed.
Lemma ordinary_app i i' i'' : (i <= i' <= i'')%nat → ordinary i i' → ordinary i' i'' → ordinary i i''.
Proof.
  intros Hi H1 H2. unfold ordinary in *. replace (i'' - i)%nat with ((i' - i) + (i'' - i'))%nat by lia.
  rewrite <- (take_take_drop _ (i' - i)), drop_drop. apply Forall_app. split; [done|].
  by replace (i + (i' - i))%nat with i' by lia.
Qed.

Lemma scan_spec fuel : ∀ i,
  aligned i → (i <= str_len)%nat → (vlen_of inst_len str_len - i < fuel)%nat →
  ∃ i', scan vector inst_len fuel mem (vlen_of inst_len str_len) i = Some i' ∧ (i <= i' <= str_len)%nat ∧
    aligned i' ∧ ordinary i i'.
Proof.
  set (vlen := vlen_of inst_len str_len) in *. induction fuel as [|fuel IH]; intros i Hal Hi Hf; [lia|]. cbn [scan].
  assert (Hstop : ∃ i', Some i = Some i' ∧ (i <= i' <= str_len)%nat ∧ aligned i' ∧ ordinary i i').
  { exists i. split_and!; try (done || lia). apply ordinary_nil. }
  destruct (Nat.ltb_spec i vlen); [|done]. destruct (decide (vector = true)) as [Hv|Hv%not_true_is_false].
  2: { assert (Hcs : chunk_special vector inst_len mem i = Some true) by (unfold chunk_special; by rewrite Hv). by rewrite Hcs. }
  destruct (Hvlen Hv) as [Hle [q Hq]]. destruct (Hal Hv) as [->|[k Hk]]; [lia|].
  assert (Hnext : (i + inst_len <= vlen)%nat) by (subst i; rewrite Hq in *; clear -H; assert (k < q)%nat by nia; nia).
  assert (Hcs : chunk_special vector inst_len mem i = Some (existsb special (take inst_len (drop i mem)))).
  { unfold chunk_special. rewrite Hv. destruct (Nat.leb_spec (i + inst_len) (length mem)); [done|lia]. }
  rewrite Hcs. cbn [mbind option_bind]. destruct (existsb special (take inst_len (drop i mem))) eqn:Hex; [done|].
  destruct (IH (i + inst_len)%nat) as (i' & Hrun & Hi' & Hal' & Hord); [|lia|lia|].
  { intros _. right. exists (S k). lia. }
  exists i'. split_and!; try (done || lia). apply (ordinary_app i (i + inst_len)); [lia| |done].
  unfold ordinary. replace (i + inst_len - i)%nat with inst_len by lia. apply Forall_forall. intros c Hc.
  apply not_true_iff_false. intros Hsp. apply not_true_iff_false in Hex. apply Hex. apply existsb_exists.
  exists c. split; [by apply list_elem_of_In|done].
Qed.

Lemma rounds_spec fuel : ∀ i available out,
  Inv i out → aligned i → (i <= str_len)%nat → (str_len - i < fuel)%nat → 0 <= available →
  ∃ r, rounds vector inst_len fuel step mem str_len (vlen_of inst_len str_len) i available out = Some r ∧
    match r with
    | None => available < 6 * Z.of_nat (str_len - i)
    | Some out' => Inv str_len out' ∧ zlen out' <= zlen out + available ∧
        zlen out' <= zlen out + 6 * Z.of_nat (str_len - i)
    end.
Proof.
  induction fuel as [|fuel IH]; intros i available out HI Hal Hi Hf Ha; [lia|]. cbn [rounds].
  destruct (scan_spec (S (vlen_of inst_len str_len)) i Hal Hi) as (i' & Hscan & Hi' & Hal' & Hord); [lia|].
  rewrite Hscan. cbn [mbind option_bind]. set (chunk := take (i' - i) (drop i mem)).
  assert (Hlen : zlen chunk = Z.of_nat (i' - i)) by (unfold chunk, zlen; rewrite length_take, length_drop; lia).
  destruct (Nat.ltb i i' && (available <? Z.of_nat (i' - i))) eqn:Hspace.
  { eexists. split; [done|]. cbn. bool_prop. lia. }
  assert (Hroom : Z.of_nat (i' - i) <= available).
  { apply andb_false_iff in Hspace as [Hx|Hx]; [apply Nat.ltb_ge in Hx; lia|by apply Z.ltb_ge in Hx]. }
  assert (Hlen' : zlen (out ++ chunk) = zlen out + zlen chunk) by (unfold zlen; rewrite length_app; lia).
  destruct (chars_spec (S str_len) 0 i' (available - zlen chunk) (out ++ chunk)) as (r & Hrun & Hr); [by apply Hchunk|lia|lia|lia|].
  rewrite Hrun. cbn [mbind option_bind]. destruct r as [[[[[] i''] available'] out']|].
  - destruct Hr as (H1 & H2 & H3 & H4 & H5 & H6 & _). specialize (H6 eq_refl) as ->.
    eexists. split; [done|]. cbn. split_and!; [done|lia|lia].
  - destruct Hr as (H1 & H2 & H3 & H4 & H5 & _ & H7 & H8). specialize (H7 eq_refl Hinst).
    assert (Hal'' : aligned i'').
    { intros Hv. rewrite (H8 eq_refl Hv) by lia. rewrite Nat.sub_0_r. destruct (Hal' Hv) as [->|[k Hk]]; [lia|]. right. exists (S k). lia. }
    destruct (IH i'' available' out') as (r & Hrun' & Hr); [done|done|lia|lia|lia|]. exists r. split; [exact Hrun'|].
    destruct r as [out''|]; [|lia]. destruct Hr as (? & ? & ?). split_and!; [done|lia|lia].
  - eexists. split; [done|]. cbn. lia.
Qed.
End loops.

(** ** What is written stands for what was read *)

(** Unescaping [o], in front of anything, gives [s]. *)
Definition renders (o s : list Z) : Prop :=
  bytes_ok o ∧ ∀ t, bytes_ok t → unescape (o ++ t) = s ++ unescape t.

Lemma renders_nil : renders [] [].
Proof. split; [constructor|done]. Qed.

Lemma renders_app o1 s1 o2 s2 : renders o1 s1 → renders o2 s2 → renders (o1 ++ o2) (s1 ++ s2).
Proof.
  intros [Hb1 H1] [Hb2 H2]. split; [by apply Forall_app|]. intros t Ht. rewrite <- !app_assoc.
  rewrite H1 by by apply Forall_app. by rewrite H2.
Qed.

Lemma renders_char o ch :
  bytes_ok o → o ≠ [] → head o ≠ Some 0 →
  (∀ t, bytes_ok t → next_char (o ++ t) = Some (length o, ch)) → renders o (char_bytes ch).
Proof.
  intros Hb Hne H0 Hn. split; [done|]. intros t Ht. destruct o as [|b o]; [done|]. cbn [app].
  rewrite (unescape_cons b (o ++ t) (length (b :: o)) ch).
  - f_equal. change (b :: o ++ t) with ((b :: o) ++ t). by rewrite drop_app_length.
  - change (b :: o ++ t) with ((b :: o) ++ t). by apply Forall_app.
  - intros ->. by apply H0.
  - apply (Hn t Ht).
Qed.

Lemma renders_literal c : is_byte c → c ≠ 0 → c ≠ BACKSLASH → renders [c] [c].
Proof.
  intros Hc H0 Hb. replace [c] with (char_bytes (u32 (i8 c))) at 2.
  - apply renders_char; [by apply Forall_singleton|done|by intros [=]|]. intros t _. cbn.
    destruct (Z.eqb_spec c BACKSLASH); [done|]. by destruct t.
  - by apply (forall_byte_dec (λ c, char_bytes (u32 (i8 c)) = [c]) 256).
Qed.

Lemma renders_literals l : bytes_ok l → Forall (λ c, c ≠ 0 ∧ c ≠ BACKSLASH) l → renders l l.
Proof.
  induction l as [|c l IH]; intros Hb Hl; [apply renders_nil|].
  apply Forall_cons in Hb as [Hc Hb]. apply Forall_cons in Hl as [[? ?] Hl].
  apply (renders_app [c] [c]); [by apply renders_literal|by apply IH].
Qed.

Lemma hex_char_spec d : 0 <= d < 16 → hex_digit (hex_char d) = true ∧ digit_value (hex_char d) = d ∧ is_byte (hex_char d).
Proof.
  apply (forall_byte_dec (λ d, hex_digit (hex_char d) = true ∧ digit_value (hex_char d) = d ∧ 0 <= hex_char d < 256) 16).
  by vm_compute.
Qed.

Definition hex4 (v : Z) : list Z :=
  [hex_char (v / 4096 mod 16); hex_char (v / 256 mod 16); hex_char (v / 16 mod 16); hex_char (v mod 16)].

Lemma hex4_spec v t : 0 <= v < 0x10000 → digits hex_digit 4 (hex4 v ++ t) = hex4 v ∧ strtol 16 (hex4 v) = v.
Proof.
  intros Hv. assert (Hd : ∀ x, 0 <= x mod 16 < 16) by (intros x; by apply Z.mod_pos_bound).
  destruct (hex_char_spec _ (Hd (v / 4096))) as (H3 & V3 & _), (hex_char_spec _ (Hd (v / 256))) as (H2 & V2 & _),
    (hex_char_spec _ (Hd (v / 16))) as (H1 & V1 & _), (hex_char_spec _ (Hd v)) as (H0 & V0 & _).
  unfold hex4. split.
  - cbn [digits app]. rewrite H3, H2, H1, H0. by destruct t.
  - unfold strtol. cbn [foldl]. rewrite V3, V2, V1, V0. clear -Hv. Z.div_mod_to_equations. lia.
Qed.

Lemma hex4_bytes v : bytes_ok (hex4 v).
Proof.
  assert (Hd : ∀ x, 0 <= x mod 16 < 16) by (intros x; by apply Z.mod_pos_bound).
  unfold hex4, bytes_ok. repeat (apply Forall_cons; split; [by apply hex_char_spec|]). constructor.
Qed.
Lemma unicode_escape_bytes v : bytes_ok (unicode_escape v).
Proof.
  change (bytes_ok ([BACKSLASH; 117] ++ hex4 v)). apply Forall_app. split; [|apply hex4_bytes].
  repeat (apply Forall_cons; split; [unfold is_byte, BACKSLASH; lia|]). constructor.
Qed.

Lemma char_bytes_scalar ch : scalar ch → char_bytes ch = u8_wc_toutf8 ch.
Proof.
  intros Hch. assert (0 <= ch < 0x110000) by (destruct Hch; lia). unfold char_bytes. rewrite toutf8_arith by done.
  by destruct (ch <? 0x80), (ch <? 0x800), (ch <? 0x10000).
Qed.

Lemma renders_unicode v : scalar v → v < 0x10000 → renders (unicode_escape v) (u8_wc_toutf8 v).
Proof.
  intros Hs Hv. assert (Hr : 0 <= v < 0x10000) by (destruct Hs; lia). rewrite <- char_bytes_scalar by done.
  apply renders_char; [apply unicode_escape_bytes|done|done|]. intros t _.
  destruct (hex4_spec v t Hr) as [Hd Hv']. change (unicode_escape v ++ t) with (BACKSLASH :: 117 :: hex4 v ++ t).
  cbn -[hex4 digits strtol]. rewrite Hd. change (length (hex4 v)) with 4%nat. cbn -[hex4 strtol]. rewrite Hv'.
  assert (Hl : u8_low_surrogate v = false ∧ u8_high_surrogate v = false).
  { unfold u8_low_surrogate, u8_high_surrogate. rewrite !andb_false_iff, !Z.leb_gt. destruct Hs; lia. }
  destruct Hl as [-> ->]. done.
Qed.

Lemma renders_pair cp :
  0x10000 <= cp < 0x110000 →
  renders (unicode_escape (0xD800 + (cp - 0x10000) / 1024) ++ unicode_escape (0xDC00 + (cp - 0x10000) mod 1024))
    (u8_wc_toutf8 cp).
Proof.
  intros Hcp. rewrite <- char_bytes_scalar by (right; lia).
  set (hi := 0xD800 + (cp - 0x10000) / 1024). set (lo := 0xDC00 + (cp - 0x10000) mod 1024).
  assert (Hhi : 0xD800 <= hi <= 0xDBFF) by (unfold hi; Z.div_mod_to_equations; lia).
  assert (Hlo : 0xDC00 <= lo <= 0xDFFF) by (unfold lo; Z.div_mod_to_equations; lia).
  apply renders_char; [apply Forall_app; split; apply unicode_escape_bytes|done|done|]. intros t _.
  destruct (hex4_spec hi ([BACKSLASH; 117] ++ hex4 lo ++ t)) as [Hd1 Hv1]; [lia|].
  destruct (hex4_spec lo t) as [Hd2 Hv2]; [lia|].
  replace ((unicode_escape hi ++ unicode_escape lo) ++ t) with (BACKSLASH :: 117 :: hex4 hi ++ [BACKSLASH; 117] ++ hex4 lo ++ t)
    by by rewrite <- app_assoc.
  assert (Hread : u8_read_escape_sequence (117 :: hex4 hi ++ [BACKSLASH; 117] ++ hex4 lo ++ t) = Some (11%nat, cp)).
  { unfold u8_read_escape_sequence. cbn [Z.eqb Pos.eqb octal_digit Z.leb Z.compare Pos.compare Pos.compare_cont andb].
    rewrite Hd1. change (length (hex4 hi)) with 4%nat. cbn [negb Nat.eqb Nat.ltb Nat.leb andb]. cbv zeta. rewrite Hv1.
    assert (Hl : u8_low_surrogate hi = false ∧ u8_high_surrogate hi = true).
    { unfold u8_low_surrogate, u8_high_surrogate. rewrite andb_false_iff, andb_true_iff, !Z.leb_gt, !Z.leb_le. lia. }
    destruct Hl as [-> Hh]. rewrite Hh. unfold read_low_surrogate.
    change (drop 5 (117 :: hex4 hi ++ [BACKSLASH; 117] ++ hex4 lo ++ t)) with (BACKSLASH :: 117 :: hex4 lo ++ t).
    cbv beta iota. rewrite Hd2, Hv2. change (length (hex4 lo)) with 4%nat.
    assert (Hlow : u8_low_surrogate lo = true) by (unfold u8_low_surrogate; rewrite andb_true_iff, !Z.leb_le; lia).
    rewrite Hlow. rewrite combine_surrogates_range by done. cbn [negb Nat.eqb Nat.ltb Nat.leb andb].
    rewrite (proj2 (Z.ltb_lt _ _)).
    - cbn [andb Z.eqb BACKSLASH Pos.eqb]. do 2 f_equal. unfold hi, lo. Z.div_mod_to_equations. lia.
    - unfold zlen. cbn [length app hex4]. lia. }
  unfold next_char. rewrite Hread. done.
Qed.

(** ** The two treatments of a character, on any bytes *)

Lemma table_cases c :
  0 <= c < 128 →
  match json_escape_table c with
  | Some seq => renders seq [c] ∧ 1 <= zlen seq <= 6
  | None => 32 <= c ∧ c ≠ BACKSLASH ∧ c ≠ QUOTE
  end.
Proof.
  intros Hc. assert (Hesc : ∀ e, is_byte e → (∀ t, next_char (BACKSLASH :: e :: t) = Some (2%nat, c)) →
    renders [BACKSLASH; e] [c] ∧ 1 <= zlen [BACKSLASH; e] <= 6).
  { intros e He Hn. split; [|by vm_compute]. replace [c] with (char_bytes c).
    - apply renders_char; [|done|done|intros t _; apply Hn]. apply Forall_cons. split; [by unfold is_byte, BACKSLASH|by apply Forall_singleton].
    - rewrite char_bytes_scalar by (left; lia). rewrite toutf8_arith by lia. by rewrite (proj2 (Z.ltb_lt _ _)) by lia. }
  unfold json_escape_table.
  repeat match goal with
  | |- context [c =? ?x] => destruct (Z.eqb_spec c x) as [->|?]; [apply Hesc; [unfold is_byte; by vm_compute|done]|]
  end.
  destruct ((c <? 32) || (c =? 127)) eqn:Hctl.
  - split; [|done]. replace [c] with (u8_wc_toutf8 c); [apply renders_unicode; [left; lia|lia]|].
    unfold u8_wc_toutf8. by rewrite (proj2 (Z.ltb_lt _ _)) by lia.
  - bool_prop. done.
Qed.

(** Well-formed UTF-8 *)
Definition text (s : list Z) : Prop := ∃ cps, Forall scalar cps ∧ s = cps ≫= u8_wc_toutf8.

Lemma toutf8_cons ch :
  scalar ch → ∃ b l, u8_wc_toutf8 ch = b :: l ∧ 0 <= b < 256 ∧ (b < 128 → ch = b ∧ l = []) ∧
    (128 <= b → Forall (λ c, 128 <= c) (b :: l)).
Proof.
  intros Hch. assert (0 <= ch < 0x110000) by (destruct Hch; lia). rewrite toutf8_arith by done.
  pose proof (cont_range ch). pose proof (cont_range (ch / 64)). pose proof (cont_range (ch / 64 / 64)).
  destruct (Z.ltb_spec ch 0x80); [eexists _, _; split_and!; (done || lia)|].
  destruct (Z.ltb_spec ch 0x800); [|destruct (Z.ltb_spec ch 0x10000)]; (eexists _, _; split; [done|]);
    (split_and!; [div64|div64|intros; div64|intros; repeat (apply Forall_cons; split; [div64|]); constructor]).
Qed.

Lemma text_cons ch s : scalar ch → text s → text (u8_wc_toutf8 ch ++ s).
Proof. intros Hch (cps & Hc & ->). exists (ch :: cps). split; [by constructor|done]. Qed.
Lemma text_inv s : text s → s = [] ∨ ∃ ch s', scalar ch ∧ s = u8_wc_toutf8 ch ++ s' ∧ text s'.
Proof.
  intros ([|ch cps] & Hc & ->); [by left|right]. apply Forall_cons in Hc as [Hch Hc].
  exists ch, (cps ≫= u8_wc_toutf8). split_and!; [done|done|by exists cps].
Qed.

Lemma text_app s1 s2 : text s1 → text s2 → text (s1 ++ s2).
Proof. intros (l1 & H1 & ->) (l2 & H2 & ->). exists (l1 ++ l2). split; [by apply Forall_app|by rewrite bind_app]. Qed.
Lemma text_char ch : scalar ch → text (u8_wc_toutf8 ch).
Proof. intros Hch. exists [ch]. split; [by apply Forall_singleton|]. cbn. by rewrite app_nil_r. Qed.
Lemma text_ascii s : Forall (λ c, 0 <= c < 128) s → text s.
Proof.
  intros Hs. exists s. split; [eapply Forall_impl; [exact Hs|]; intros c Hc; left; cbn in Hc; lia|].
  induction Hs as [|c s Hc Hs IH]; [done|]. cbn. unfold u8_wc_toutf8 at 1. rewrite (proj2 (Z.ltb_lt c 0x80)) by lia.
  cbn. by f_equal.
Qed.

(** What JSON allows between the quotes of a string. *)
Inductive json_string : list Z → Prop :=
  | json_nil : json_string []
  | json_char c s : 32 <= c → c ≠ QUOTE → c ≠ BACKSLASH → json_string s → json_string (c :: s)
  | json_escape e s : e ∈ [QUOTE; BACKSLASH; 47; 98; 102; 110; 114; 116] → json_string s → json_string (BACKSLASH :: e :: s)
  | json_unicode h s : length h = 4%nat → Forall (λ c, hex_digit c = true) h → json_string s →
      json_string (BACKSLASH :: 117 :: h ++ s).

Lemma json_app s1 s2 : json_string s1 → json_string s2 → json_string (s1 ++ s2).
Proof. intros H1 H2. induction H1; [done|by constructor..|]. cbn. rewrite <- app_assoc. by constructor. Qed.
Lemma json_plain s : Forall (λ c, 32 <= c ∧ c ≠ QUOTE ∧ c ≠ BACKSLASH) s → json_string s.
Proof. induction 1 as [|c s (?&?&?) Hs IH]; by constructor. Qed.

(** The body of a JSON text: also well-formed UTF-8 *)
Definition json_text (s : list Z) : Prop := json_string s ∧ text s.

Lemma json_text_nil : json_text [].
Proof. split; [constructor|by exists []]. Qed.
Lemma json_text_app s1 s2 : json_text s1 → json_text s2 → json_text (s1 ++ s2).
Proof. intros [? ?] [? ?]. split; [by apply json_app|by apply text_app]. Qed.

Lemma json_text_plain s : Forall (λ c, 32 <= c < 128 ∧ c ≠ QUOTE ∧ c ≠ BACKSLASH) s → json_text s.
Proof.
  intros Hs. split; [apply json_plain|apply text_ascii]; (eapply Forall_impl; [exact Hs|]); cbn; intros c Hc; lia.
Qed.
Lemma json_text_char ch : scalar ch → 128 <= ch → json_text (u8_wc_toutf8 ch).
Proof.
  intros Hch Hc. split; [|by apply text_char]. destruct (toutf8_cons ch Hch) as (b & l & -> & Hb & Hlow & Hhigh).
  apply json_plain. destruct (Z.lt_ge_cases b 128) as [Hlt|Hge]; [destruct (Hlow Hlt); lia|].
  eapply Forall_impl; [by apply Hhigh|]. cbn. unfold QUOTE, BACKSLASH. intros c ?. lia.
Qed.

Lemma json_text_unicode v : json_text (unicode_escape v).
Proof.
  assert (Hd : ∀ x, 0 <= x mod 16 < 16) by (intros x; by apply Z.mod_pos_bound).
  assert (Hh : Forall (λ c, hex_digit c = true) (hex4 v)).
  { unfold hex4. repeat (apply Forall_cons; split; [by apply hex_char_spec|]). constructor. }
  change (unicode_escape v) with (BACKSLASH :: 117 :: hex4 v). split.
  - rewrite <- (app_nil_r (hex4 v)). apply json_unicode; [done|done|constructor].
  - apply text_ascii. repeat (apply Forall_cons; split; [unfold BACKSLASH; lia|]). eapply Forall_impl; [exact Hh|].
    cbn. intros c Hc. unfold hex_digit in Hc. rewrite !orb_true_iff, !andb_true_iff, !Z.leb_le in Hc. lia.
Qed.

Lemma json_text_table c : 0 <= c < 128 → json_text (default [c] (json_escape_table c)).
Proof.
  intros Hc. assert (Hesc : ∀ e, e ∈ [QUOTE; BACKSLASH; 98; 102; 110; 114; 116] → json_text [BACKSLASH; e]).
  { intros e He. rewrite !elem_of_cons, elem_of_nil in He. split.
    - apply json_escape; [|constructor]. rewrite !elem_of_cons. tauto.
    - apply text_ascii. unfold QUOTE, BACKSLASH in *. apply Forall_cons. split; [lia|]. apply Forall_singleton. lia. }
  pose proof (table_cases c Hc) as Ht. unfold json_escape_table in *.
  repeat match goal with
  | |- context [c =? ?x] => destruct (c =? x); [apply Hesc; rewrite !elem_of_cons; tauto|]
  end.
  destruct (_ || _); [apply json_text_unicode|]. apply json_text_plain. apply Forall_singleton. cbn. lia.
Qed.

(** U+FFFD, and the private characters of invalid bytes *)
Lemma json_text_private tmp : bytes_ok tmp → json_text (tmp ≫= private_char).
Proof.
  induction 1 as [|b tmp Hb Hl IH]; [apply json_text_nil|]. apply json_text_app; [|done].
  replace (private_char b) with (u8_wc_toutf8 (0xE000 + b)).
  - apply json_text_char; unfold is_byte, scalar in *; lia.
  - by apply (forall_byte_dec (λ b, u8_wc_toutf8 (0xE000 + b) = private_char b) 256).
Qed.

Section steps.
Variables (vector : bool) (mem : list Z) (str_len : nat).
Hypothesis Hbytes : bytes_ok mem.
Hypothesis Hmem : (str_len <= length mem)%nat.
Hypothesis Hascii : vector = true → Forall (λ c, c < 128) (take str_len mem).

Lemma mem_byte i : (i < str_len)%nat → ∃ c, mem !! i = Some c ∧ is_byte c ∧ drop i mem = c :: drop (S i) mem.
Proof.
  intros Hi. destruct (lookup_lt_is_Some_2 mem i) as [c Hc]; [lia|]. exists c. split; [done|]. split.
  - by eapply Forall_lookup_1 in Hc.
  - by apply drop_S.
Qed.

(** A byte below 128, in either function. *)
Lemma ascii_bounds c i :
  (i < str_len)%nat → 0 <= c < 128 →
  let st := match json_escape_table c with Some seq => plain_step seq 1 | None => plain_step [c] 1 end in
  step_bounds vector str_len i st ∧ json_text (cs_bytes st).
Proof.
  intros Hi Hc. pose proof (table_cases c Hc) as Ht. pose proof (json_text_table c Hc) as Hj. split; [|by destruct (json_escape_table c)].
  destruct (json_escape_table c); unfold step_bounds, plain_step, zlen in *;
    cbn; split_and!; (done || lia).
Qed.

Lemma not_ascii i c : (i < str_len)%nat → mem !! i = Some c → 128 <= c → vector = false.
Proof.
  intros Hi Hc Hge. destruct vector; [|done]. specialize (Hascii eq_refl). rewrite Forall_lookup in Hascii.
  specialize (Hascii i c). rewrite lookup_take_lt in Hascii by done. specialize (Hascii Hc). cbn in Hascii. lia.
Qed.

Lemma raw_bounds i : (i < str_len)%nat → ∃ st, raw_char mem str_len i = Some st ∧ step_bounds vector str_len i st ∧ json_text (cs_bytes st).
Proof.
  intros Hi. destruct (mem_byte i Hi) as (c & Hc & Hb & Hd). unfold raw_char. rewrite Hc. cbn [mbind option_bind].
  unfold is_byte in Hb. destruct (Z.ltb_spec c 128).
  { pose proof (ascii_bounds c i Hi ltac:(lia)) as Ha.
    destruct (json_escape_table c); eauto. }
  pose proof (not_ascii i c Hi Hc H) as Hv.
  rewrite (validate_total (drop i mem) (str_len - i)); [|by apply Forall_drop|rewrite length_drop; lia].
  cbn [mbind option_bind]. set (n := sequence _).
  destruct ((Z.of_nat n =? 0) || (Z.of_nat str_len <? Z.of_nat i + Z.of_nat n)) eqn:Hn; (eexists; split; [done|]);
    unfold step_bounds, plain_step; cbn [cs_used cs_bytes cs_need cs_stop cs_counter]; rewrite Hv.
  - split; [unfold zlen; cbn; split_and!; (done || lia)|]. apply (json_text_char 0xFFFD); [right; lia|lia].
  - bool_prop. split; [rewrite Nat2Z.id; unfold zlen; rewrite length_take, length_drop; split_and!; (done || lia)|].
    rewrite Nat2Z.id. destruct (sequence_decoded (take (str_len - i) (drop i mem))) as (ch & Hch & Hs);
      [by apply Forall_take, Forall_drop|fold n; lia|].
    fold n in Hs. rewrite take_take, Nat.min_l in Hs by lia. rewrite Hs. apply json_text_char; [done|].
    destruct (toutf8_cons ch Hch) as (b & l & He & Hr & Hlow & _). rewrite Hd, He in Hs. destruct n as [|n]; [done|].
    injection Hs as <- _. destruct (Z.lt_ge_cases ch 128) as [Hl|]; [|done]. revert He. unfold u8_wc_toutf8.
    rewrite (proj2 (Z.ltb_lt ch 0x80)) by lia. intros [= -> _]. lia.
Qed.

(** The bytes mapped to the private use area were all read. *)
Lemma decode_sequence_bounds n : ∀ state cp tmp s,
  (n <= length s)%nat →
  ∃ r, decode_sequence n state cp tmp s = Some r ∧
    match r with inl _ => True | inr tmp' => (1 <= length tmp' <= length tmp `max` 1 + (n - 1))%nat ∧ (1 <= n)%nat ∧ (bytes_ok tmp → bytes_ok s → bytes_ok tmp') end.
Proof.
  induction n as [|n IH]; intros state cp tmp s Hn; [by eexists|]. destruct s as [|b s]; [cbn in Hn; lia|].
  cbn [decode_sequence head mbind option_bind tail]. destruct (flb_utf8_decode state cp b) as [[ret state'] cp'].
  destruct (ret =? FLB_UTF8_REJECT).
  - eexists. split; [done|]. split_and!; [destruct tmp; cbn; lia|destruct tmp; cbn; lia|lia|].
    intros Ht [Hb _]%Forall_cons. destruct tmp; [by apply Forall_singleton|done].
  - cbn in Hn. destruct (IH state' cp' (tmp ++ [b]) s) as (r & -> & Hr); [lia|]. exists r. split; [done|].
    destruct r; [done|]. rewrite length_app in Hr. destruct Hr as (Hr & Hn1 & Hok). cbn in Hr. split_and!; [lia|lia|lia|].
    intros Ht [Hb Hs]%Forall_cons. apply Hok; [|done]. apply Forall_app. split; [done|by apply Forall_singleton].
Qed.

(** A single byte that is no ASCII character is rejected. *)
Lemma decode_single c s : 128 <= c < 256 → sequence_length c = 1 → decode_sequence 1 FLB_UTF8_ACCEPT 0 [] (c :: s) = Some (inr [c]).
Proof.
  intros Hc. change (decode_sequence 1 FLB_UTF8_ACCEPT 0 [] (c :: s)) with (decode_sequence 1 FLB_UTF8_ACCEPT 0 [] [c]).
  assert (Hall : ∀ c, 0 <= c < 256 → 128 <= c → sequence_length c = 1 → decode_sequence 1 FLB_UTF8_ACCEPT 0 [] [c] = Some (inr [c])).
  { intros x Hx. apply (forall_byte_dec (λ c, 128 <= c → sequence_length c = 1 →
      decode_sequence 1 FLB_UTF8_ACCEPT 0 [] [c] = Some (inr [c])) 256 x); [by vm_compute|done]. }
  apply Hall; lia.
Qed.

Lemma private_length tmp : zlen (tmp ≫= private_char) = 3 * zlen tmp.
Proof. unfold zlen. induction tmp as [|b tmp IH]; [done|]. cbn [mbind list_bind] in *. rewrite length_app. cbn [length private_char] in *. lia. Qed.

Lemma unicode_escape_length v : zlen (unicode_escape v) = 6.
Proof. done. Qed.

Lemma escaped_bounds i : (i < str_len)%nat → ∃ st, escaped_char mem str_len i = Some st ∧ step_bounds vector str_len i st ∧ json_text (cs_bytes st).
Proof.
  intros Hi. destruct (mem_byte i Hi) as (c & Hc & Hb & Hd). unfold escaped_char. rewrite Hc. cbn [mbind option_bind].
  unfold is_byte in Hb. destruct (Z.ltb_spec c 128).
  { pose proof (ascii_bounds c i Hi ltac:(lia)) as Ha.
    destruct (json_escape_table c); eauto. }
  pose proof (not_ascii i c Hi Hc H) as Hv.
  rewrite Hd, utf8_len_spec by done. cbn [mbind option_bind]. rewrite <- Hd. set (len := sequence_length c).
  assert (Hlen : 1 <= len <= 6) by (unfold len, sequence_length; repeat case_match; lia).
  destruct (Z.ltb_spec (Z.of_nat str_len) (Z.of_nat i + len)).
  { eexists. split; [done|]. split; [|apply json_text_nil]. unfold step_bounds. cbn. rewrite Hv. split_and!; (done || lia). }
  destruct (decode_sequence_bounds (Z.to_nat len) FLB_UTF8_ACCEPT 0 [] (drop i mem)) as (r & Hr & Hbound); [rewrite length_drop; lia|].
  rewrite Hr. cbn [mbind option_bind]. destruct r as [cp|tmp]; (eexists; split; [done|]); unfold step_bounds;
    cbn [cs_used cs_bytes cs_need cs_stop cs_counter]; rewrite Hv.
  - assert (2 <= len).
    { destruct (decide (len = 1)) as [H1|]; [|lia]. exfalso. rewrite H1, Hd in Hr.
      change (Z.to_nat 1) with 1%nat in Hr. rewrite decode_single in Hr by (done || lia). done. }
    assert (6 <= zlen (if 0xFFFF <? cp then unicode_escape (u16 (0xD800 + Z.shiftr (cp - 0x10000) 10)) ++
       unicode_escape (u16 (0xDC00 + Z.land (cp - 0x10000) 0x3FF)) else unicode_escape cp) <= 12)
      by (unfold zlen; destruct (0xFFFF <? cp); [rewrite length_app|]; unfold unicode_escape; cbn [length]; lia).
    split; [split_and!; (done || lia)|]. destruct (0xFFFF <? cp); [|apply json_text_unicode].
    apply json_text_app; apply json_text_unicode.
  - cbn [length] in Hbound. destruct Hbound as (Hbound & _ & Hok). split; [|apply json_text_private, Hok; [constructor|by apply Forall_drop]].
    rewrite private_length. unfold zlen. split_and!; (done || lia).
Qed.
End steps.

(** ** ... and on text *)

(** A text without its first ASCII characters is a text. *)
Lemma text_drop n : ∀ s, text s → Forall (λ c, c < 128) (take n s) → text (drop n s).
Proof.
  induction n as [|n IH]; intros s Hs Ha; [done|]. destruct (text_inv s Hs) as [->|(ch & s' & Hch & -> & Hs')]; [by rewrite drop_nil|].
  destruct (toutf8_cons ch Hch) as (b & l & He & _ & Hlow & _). rewrite He in *. cbn [app take drop] in *.
  apply Forall_cons in Ha as [Hb Ha]. destruct (Hlow Hb) as [_ ->]. by apply IH.
Qed.

Section roundtrip.
Variables (vector : bool) (mem : list Z) (str_len : nat).
Hypothesis Hbytes : bytes_ok mem.
Hypothesis Hmem : (str_len <= length mem)%nat.
#[local] Abbreviation str := (take str_len mem).

(** What is written for the first [i] bytes unescapes to them, and [i] is at a character. *)
Definition rendered (i : nat) (out : list Z) : Prop := renders out (take i mem) ∧ text (drop i str).

Lemma take_cut n i : (i + n <= str_len)%nat → take n (drop i str) = take n (drop i mem).
Proof. intros Hn. rewrite !take_drop_commute, take_take. do 2 f_equal. lia. Qed.

Lemma rendered_chunk i i' out :
  rendered i out → (i <= i' <= str_len)%nat → ordinary mem i i' → rendered i' (out ++ take (i' - i) (drop i mem)).
Proof.
  intros [Hr Ht] Hi Hord. unfold ordinary in Hord. set (chunk := take (i' - i) (drop i mem)) in *.
  assert (Hlow : Forall (λ c, 32 <= c < 128 ∧ c ≠ BACKSLASH) chunk).
  { eapply Forall_impl; [exact Hord|]. intros c Hc. unfold special in Hc. cbn in Hc. bool_prop. lia. }
  split.
  - replace (take i' mem) with (take i mem ++ chunk).
    + apply renders_app; [done|]. apply renders_literals; [by apply Forall_take, Forall_drop|].
      eapply Forall_impl; [exact Hlow|]. cbn. intros c Hc. lia.
    + unfold chunk. rewrite take_take_drop. by replace (i + (i' - i))%nat with i' by lia.
  - replace i' with (i + (i' - i))%nat by lia. rewrite <- drop_drop. apply text_drop; [done|].
    replace (take (i' - i) (drop i str)) with chunk; [eapply Forall_impl; [exact Hlow|]; cbn; intros c Hc; lia|].
    unfold chunk. rewrite take_cut by lia. done.
Qed.

(** The character at [i] and what follows it in memory. *)
Lemma rendered_char i out :
  (i < str_len)%nat → rendered i out →
  ∃ ch s b l, scalar ch ∧ u8_wc_toutf8 ch = b :: l ∧ mem !! i = Some b ∧ drop i mem = u8_wc_toutf8 ch ++ s ∧ bytes_ok s ∧
    (i + length (u8_wc_toutf8 ch) <= str_len)%nat ∧
    ∀ bytes, renders bytes (u8_wc_toutf8 ch) → rendered (i + length (u8_wc_toutf8 ch)) (out ++ bytes).
Proof.
  intros Hi [Hr Ht]. assert (Hl : length (drop i str) = (str_len - i)%nat) by (rewrite length_drop, length_take; lia).
  destruct (text_inv _ Ht) as [H0|(ch & s' & Hch & Hs & Hs')]; [rewrite H0 in Hl; cbn in Hl; lia|].
  destruct (toutf8_cons ch Hch) as (b & l & He & _). set (enc := u8_wc_toutf8 ch) in *.
  assert (Hn : (length enc <= str_len - i)%nat) by (rewrite Hs, length_app in Hl; lia).
  assert (Hd : drop i mem = enc ++ drop (length enc) (drop i mem)).
  { rewrite <- (take_drop (length enc) (drop i mem)) at 1. f_equal.
    rewrite <- (take_cut (length enc) i) by lia. by rewrite Hs, take_app_length. }
  exists ch, (drop (length enc) (drop i mem)), b, l. fold enc. split_and!; [done|done| |done|by do 2 apply Forall_drop|lia|].
  - replace i with (i + 0)%nat by lia. rewrite <- lookup_drop, Hd, He. done.
  - intros bytes Hb. split.
    + replace (take (i + length enc) mem) with (take i mem ++ enc); [by apply renders_app|].
      rewrite <- take_take_drop. f_equal. rewrite Hd. by rewrite take_app_length.
    + rewrite <- drop_drop, Hs, drop_app_length. done.
Qed.

Lemma rendered_ascii i out c seq :
  (i < str_len)%nat → rendered i out → mem !! i = Some c → 0 <= c < 128 → renders seq [c] → rendered (i + 1) (out ++ seq).
Proof.
  intros Hi Hr Hc Hb Hseq. destruct (rendered_char i out Hi Hr) as (ch & s & b & l & Hch & He & Hb' & _ & _ & _ & Hnext).
  rewrite Hc in Hb'. injection Hb' as <-. destruct (toutf8_cons ch Hch) as (b' & l' & He' & _ & Hlow & _).
  rewrite He in He'. injection He' as <- <-. destruct (Hlow ltac:(lia)) as [-> ->]. rewrite He in Hnext. by apply Hnext.
Qed.

Lemma rendered_table i out c :
  (i < str_len)%nat → rendered i out → mem !! i = Some c → 0 <= c < 128 →
  let st := match json_escape_table c with Some seq => plain_step seq 1 | None => plain_step [c] 1 end in
  rendered (i + cs_used st) (out ++ cs_bytes st).
Proof.
  intros Hi Hr Hc Hb. pose proof (table_cases c Hb) as Ht. destruct (json_escape_table c) as [seq|]; cbn;
    apply (rendered_ascii i out c); try done; [apply Ht|]. apply renders_literal; unfold is_byte, BACKSLASH in *; lia.
Qed.

Lemma raw_rendered i out :
  (i < str_len)%nat → rendered i out →
  ∃ st, raw_char mem str_len i = Some st ∧ rendered (i + cs_used st) (out ++ cs_bytes st).
Proof.
  intros Hi Hr. destruct (rendered_char i out Hi Hr) as (ch & s & b & l & Hch & He & Hb & Hd & Hs & Hfit & Hnext).
  destruct (toutf8_cons ch Hch) as (b' & l' & He' & Hrange & Hlow & Hhigh). rewrite He in He'. injection He' as <- <-.
  unfold raw_char. rewrite Hb. cbn [mbind option_bind]. destruct (Z.ltb_spec b 128).
  { pose proof (rendered_table i out b Hi Hr Hb ltac:(lia)) as Ht. destruct (json_escape_table b); eauto. }
  rewrite Hd, validate_encoded by (done || rewrite length_app in *; pose proof (f_equal length Hd) as Hlen;
    rewrite length_drop, length_app in Hlen; lia).
  cbn [mbind option_bind]. set (enc := u8_wc_toutf8 ch) in *. assert (1 <= length enc)%nat by (rewrite He; cbn; lia).
  unfold zlen. rewrite (proj2 (Z.eqb_neq _ 0)), (proj2 (Z.ltb_ge _ _)) by lia. cbn [orb]. eexists. split; [done|]. cbn.
  rewrite Nat2Z.id, take_app_length. apply Hnext. rewrite He. apply renders_literals; [by rewrite <- He; apply toutf8_bytes; destruct Hch; lia|].
  eapply Forall_impl; [by apply Hhigh|]. cbn. unfold BACKSLASH. intros c Hc. lia.
Qed.

Lemma decode_sequence_decodes s : ∀ state cp tmp rest ch,
  decodes state cp s ch → decode_sequence (length s) state cp tmp (s ++ rest) = Some (inl ch).
Proof.
  induction s as [|b s IH]; intros state cp tmp rest ch Hd; [done|]. cbn [length decode_sequence app head mbind option_bind tail].
  destruct s as [|b' s].
  - cbn [decodes] in Hd. by rewrite Hd.
  - cbn [decodes] in Hd. destruct Hd as (state' & cp' & -> & Hd). cbn [FLB_UTF8_CONTINUE FLB_UTF8_REJECT Z.eqb Pos.eqb]. by apply IH.
Qed.

Lemma escape_pair cp :
  0x10000 <= cp < 0x110000 →
  u16 (0xD800 + Z.shiftr (cp - 0x10000) 10) = 0xD800 + (cp - 0x10000) / 1024 ∧
  u16 (0xDC00 + Z.land (cp - 0x10000) 0x3FF) = 0xDC00 + (cp - 0x10000) mod 1024.
Proof.
  intros Hcp. rewrite Z.shiftr_div_pow2 by lia. change (2 ^ 10) with 1024.
  replace (Z.land (cp - 0x10000) 0x3FF) with ((cp - 0x10000) mod 1024) by (symmetry; apply (Z.land_ones _ 10); lia).
  unfold u16. rewrite (Z.mod_small (0xD800 + _)), (Z.mod_small (0xDC00 + _)); [done| |]; Z.div_mod_to_equations; lia.
Qed.

Lemma escaped_rendered i out :
  (i < str_len)%nat → rendered i out →
  ∃ st, escaped_char mem str_len i = Some st ∧ rendered (i + cs_used st) (out ++ cs_bytes st).
Proof.
  intros Hi Hr. destruct (rendered_char i out Hi Hr) as (ch & s & b & l & Hch & He & Hb & Hd & Hs & Hfit & Hnext).
  destruct (toutf8_cons ch Hch) as (b' & l' & He' & Hrange & Hlow & Hhigh). rewrite He in He'. injection He' as <- <-.
  unfold escaped_char. rewrite Hb. cbn [mbind option_bind]. destruct (Z.ltb_spec b 128).
  { pose proof (rendered_table i out b Hi Hr Hb ltac:(lia)) as Ht. destruct (json_escape_table b); eauto. }
  destruct (encoded_decodes ch 0 s Hch) as [Hdec Hlen]. rewrite Hd, Hlen. cbn [mbind option_bind].
  set (enc := u8_wc_toutf8 ch) in *. unfold zlen. rewrite (proj2 (Z.ltb_ge _ _)) by lia. rewrite Nat2Z.id.
  rewrite (decode_sequence_decodes enc _ _ _ _ ch) by done. cbn [mbind option_bind]. eexists. split; [done|].
  cbn [cs_used cs_bytes]. apply Hnext. assert (0 <= ch < 0x110000) by (destruct Hch; lia).
  destruct (Z.ltb_spec 0xFFFF ch).
  - destruct (escape_pair ch) as [-> ->]; [lia|]. apply renders_pair. lia.
  - apply renders_unicode; [done|lia].
Qed.
End roundtrip.

(** ** The whole string *)

Lemma vlen_spec k n : vlen_of (2 ^ k) n = (n / 2 ^ k * 2 ^ k)%nat.
Proof.
  unfold vlen_of. rewrite Nat2Z.inj_pow. change (Z.of_nat 2) with 2.
  rewrite <- Z.ldiff_land, Z.sub_1_r, <- Z.ones_equiv, Z.ldiff_ones_r by lia.
  rewrite Z.shiftl_mul_pow2, Z.shiftr_div_pow2 by lia. change 2 with (Z.of_nat 2). rewrite <- Nat2Z.inj_pow.
  rewrite <- Nat2Z.inj_div, <- Nat2Z.inj_mul. by rewrite Nat2Z.id.
Qed.

(** What both functions need of their caller: the string is in memory, and when the build has vector
    instructions of [inst_len] bytes, it is ASCII. *)
Record writable (vector : bool) (inst_len : nat) (mem : list Z) (str_len : nat) : Prop := {
  wr_inst : ∃ k, inst_len = (2 ^ k)%nat;
  wr_bytes : bytes_ok mem;
  wr_len : (str_len <= length mem)%nat;
  wr_ascii : vector = true → Forall (λ c, c < 128) (take str_len mem)
}.

Section whole.
Variables (vector : bool) (inst_len : nat) (mem : list Z) (str_len : nat).
Hypothesis Hw : writable vector inst_len mem str_len.

(** The character step of the two functions *)
Definition char_of (escape_unicode : bool) : nat → option char_step :=
  if escape_unicode then escaped_char mem str_len else raw_char mem str_len.

(** An invariant of the steps holds of the result, and the string is refused for lack of space only. *)
Lemma write_str_spec (Inv : nat → list Z → Prop) off size escape_unicode :
  Inv 0%nat [] →
  (∀ i out, (i < str_len)%nat → Inv i out →
     ∃ st, char_of escape_unicode i = Some st ∧ step_bounds vector str_len i st ∧ Inv (i + cs_used st)%nat (out ++ cs_bytes st)) →
  (∀ i i' out, Inv i out → (i <= i' <= str_len)%nat → ordinary mem i i' → Inv i' (out ++ take (i' - i) (drop i mem))) →
  ∃ r, flb_utils_write_str vector inst_len off size mem str_len escape_unicode = Some r ∧
    match r with
    | None => u64 (size - off) < 6 * Z.of_nat str_len
    | Some out => Inv str_len out ∧ zlen out <= u64 (size - off) ∧ zlen out <= 6 * Z.of_nat str_len
    end.
Proof.
  intros H0 Hstep Hchunk. destruct (wr_inst _ _ _ _ Hw) as [k Hk].
  assert (Ha : 0 <= u64 (size - off)) by (apply Z.mod_pos_bound; lia).
  destruct (rounds_spec vector inst_len (char_of escape_unicode) mem str_len Inv) with (fuel := S str_len) (i := 0%nat)
    (available := u64 (size - off)) (out := @nil Z) as (r & Hr & Hres); try (done || lia).
  - rewrite Hk. pose proof (Nat.pow_nonzero 2 k). lia.
  - apply Hw.
  - intros _. rewrite Hk, vlen_spec. split; [rewrite Nat.mul_comm; apply Nat.Div0.mul_div_le|]. by exists (str_len / 2 ^ k)%nat.
  - intros _. right. by exists 0%nat.
  - rewrite Nat.sub_0_r in Hres. unfold flb_utils_write_str, flb_utils_write_str_escaped, flb_utils_write_str_raw.
    assert (Hcase : match r with None => u64 (size - off) < 6 * Z.of_nat str_len
      | Some out => Inv str_len out ∧ zlen out <= u64 (size - off) ∧ zlen out <= 6 * Z.of_nat str_len end).
    { destruct r; [|done]. change (zlen (@nil Z)) with 0 in Hres. by rewrite !Z.add_0_l in Hres. }
    destruct escape_unicode; [|eauto]. destruct (Z.ltb_spec (u64 (size - off)) (Z.of_nat str_len)); [|eauto].
    exists None. split; [done|]. lia.
Qed.

Lemma char_of_bounds escape_unicode i :
  (i < str_len)%nat → ∃ st, char_of escape_unicode i = Some st ∧ step_bounds vector str_len i st ∧ json_text (cs_bytes st).
Proof. destruct Hw. destruct escape_unicode; [by apply escaped_bounds|by apply raw_bounds]. Qed.

Lemma write_str_json off size escape_unicode :
  ∃ r, flb_utils_write_str vector inst_len off size mem str_len escape_unicode = Some r ∧
    match r with
    | None => u64 (size - off) < 6 * Z.of_nat str_len
    | Some out => json_text out ∧ zlen out <= u64 (size - off) ∧ zlen out <= 6 * Z.of_nat str_len
    end.
Proof.
  apply (write_str_spec (λ _, json_text)); [apply json_text_nil| |].
  - intros i out Hi Hout. destruct (char_of_bounds escape_unicode i Hi) as (st & Hst & Hb & Hj). exists st.
    split_and!; [done|apply Hb..|]. by apply json_text_app.
  - intros i i' out Hout _ Hord. apply json_text_app; [done|]. apply json_text_plain.
    eapply Forall_impl; [exact Hord|]. intros c Hc. unfold special in Hc. cbn in Hc. bool_prop. lia.
Qed.

Lemma write_str_rendered off size escape_unicode :
  text (take str_len mem) →
  ∃ r, flb_utils_write_str vector inst_len off size mem str_len escape_unicode = Some r ∧
    match r with
    | None => u64 (size - off) < 6 * Z.of_nat str_len
    | Some out => rendered mem str_len str_len out ∧ zlen out <= u64 (size - off) ∧ zlen out <= 6 * Z.of_nat str_len
    end.
Proof.
  intros Ht. destruct Hw as [Hinst Hb Hl Ha]. apply (write_str_spec (rendered mem str_len)).
  - split; [apply renders_nil|done].
  - intros i out Hi Hout. destruct (char_of_bounds escape_unicode i Hi) as (st & Hst & Hbounds & _).
    exists st. split_and!; [done|apply Hbounds..|].
    destruct (if escape_unicode as e return ∃ st, char_of e i = Some st ∧ rendered mem str_len (i + cs_used st) (out ++ cs_bytes st)
      then escaped_rendered mem str_len Hb Hl i out Hi Hout else raw_rendered mem str_len Hb Hl i out Hi Hout) as (st' & Hst' & Hr).
    rewrite Hst in Hst'. by injection Hst' as <-.
  - intros i i' out. by apply rendered_chunk.
Qed.

(** [flb_utils_write_str_buf] stops growing the buffer once it has six bytes per character. *)
Lemma write_str_buf_loop_ends escape_unicode fuel : ∀ s e,
  (1 <= fuel)%nat → 0 <= s → s + 256 * Z.of_nat fuel < 2 ^ 64 →
  6 * Z.of_nat str_len <= s + 256 * (Z.of_nat fuel - 1) →
  ∃ r e', write_str_buf_loop vector inst_len fuel s mem str_len escape_unicode e = Some (r, e') ∧
    (calm e → is_Some r) ∧
    ∀ s' out, r = Some (s', out) → json_text out ∧ zlen out <= s' ∧ zlen out <= 6 * Z.of_nat str_len ∧
      s <= s' ∧ (s < s' → s' < 6 * Z.of_nat str_len + 256).
Proof.
  induction fuel as [|fuel IH]; intros s e H1 Hs Hov Hf; [lia|]. cbn [write_str_buf_loop].
  destruct (write_str_json 0 s escape_unicode) as (r & Hr & Hres). rewrite Z.sub_0_r, u64_id in Hres by lia.
  rewrite Hr. unfold mbind at 1, M_bind at 1. cbn [deref]. destruct r as [out|].
  { eexists _, _. split; [done|]. split; [by eexists|]. intros s' out' [= <- <-]. destruct Hres as (? & ? & ?). split_and!; done || lia. }
  assert (Hfuel : (1 <= fuel)%nat) by lia. rewrite u64_id by lia. unfold mbind at 1, M_bind at 1.
  destruct (malloc_cases e) as [[(script & ->) Hc]|(script & -> & Hc)].
  { eexists _, _. split; [done|]. split; [done|]. by intros s' out. }
  destruct (IH (s + 256) (set_e_next (S (e_next (env_of e))) (set_e_alloc script (env_of e)))) as (r & e' & Hrun & Hcalm & Hout); [done|lia|lia|lia|].
  exists r, e'. split; [exact Hrun|]. split.
  - intros He. apply Hcalm. destruct He as [? ?]. specialize (Hc (conj H H0)) as ->. by split.
  - intros s' out Hr'. destruct (Hout s' out Hr') as (? & ? & ? & ? & Hgrow). split_and!; try (done || lia).
Qed.
End whole.

(** Writing a JSON string is safe.  For every string of bytes, with enough space or without, both
    versions of [flb_utils_write_str] end and read nothing outside the memory of the string.  They say
    there is no space only when there are fewer than six bytes per byte of the string; otherwise they
    write within the space given, and what they write is well-formed UTF-8 that can stand between the
    quotes of a JSON string: no byte of the input ends the string or escapes from it.  With vector
    instructions this holds of ASCII strings. *)
Theorem write_str_safe vector inst_len off size mem str_len escape_unicode :
  writable vector inst_len mem str_len → 0 <= off <= size → size < 2 ^ 64 →
  ∃ r, flb_utils_write_str vector inst_len off size mem str_len escape_unicode = Some r ∧
    (r = None → size - off < 6 * Z.of_nat str_len) ∧
    ∀ out, r = Some out → json_string out ∧ text out ∧ zlen out <= size - off ∧ zlen out <= 6 * Z.of_nat str_len.
Proof.
  intros Hw Ho Hs. destruct (write_str_json vector inst_len mem str_len Hw off size escape_unicode) as (r & Hr & Hres).
  rewrite u64_id in Hres by lia. exists r. split; [done|]. split; [by intros ->|]. intros out ->.
  destruct Hres as ([? ?] & ? & ?). done.
Qed.

(** C11. JSON strings round trip.  For every well-formed UTF-8 string where the build has no vector instructions, and for
    every ASCII string where it has - beyond ASCII the vector loop reads past the string ([write_str_overreads]) -
    what [flb_utils_write_str] writes in enough room, with or without escaping the characters beyond ASCII, is turned by
    [flb_unescape_string_utf8] into the same string, byte for byte. *)
Theorem json_string_roundtrip vector inst_len off size mem str_len escape_unicode cap :
  writable vector inst_len mem str_len → text (take str_len mem) → 0 <= off <= size → size < 2 ^ 64 →
  6 * Z.of_nat str_len <= size - off → 6 * Z.of_nat str_len + 1 <= cap →
  ∃ out, flb_utils_write_str vector inst_len off size mem str_len escape_unicode = Some (Some out) ∧
    flb_unescape_string_utf8 out cap = Some (Z.of_nat str_len, take str_len mem ++ [0]).
Proof.
  intros Hw Ht Ho Hs Hroom Hcap.
  destruct (write_str_rendered vector inst_len mem str_len Hw off size escape_unicode Ht) as (r & Hr & Hres).
  rewrite u64_id in Hres by lia. destruct r as [out|]; [|lia]. exists out. split; [done|].
  destruct Hres as ([[Hb Hun] _] & _ & Hlen). specialize (Hun [] ltac:(constructor)).
  rewrite app_nil_r in Hun. rewrite unescape_string_spec by (done || lia). rewrite Hun. unfold unescape at 1 2. cbn [length unescaped].
  rewrite app_nil_r. unfold zlen. rewrite length_take, Nat.min_l by apply Hw. done.
Qed.

(** C12. [flb_utils_write_str_buf] ends, for any bytes where the build has no vector instructions and for ASCII where it
    has.  The buffer grows by 256 bytes until the string fits, which it
    does before it has six bytes per byte of the string and 256 more: with fuel for that many rounds,
    one for every byte of the string and two, the loop ends, with a failure only when an allocation
    fails, and otherwise with a JSON string that fits in the buffer. *)
Theorem write_str_buf_ends vector inst_len mem str_len escape_unicode fuel e :
  writable vector inst_len mem str_len → Z.of_nat str_len <= INT_MAX → fuel = (str_len + 2)%nat →
  ∃ r e', flb_utils_write_str_buf vector inst_len fuel mem str_len escape_unicode e = Some (r, e') ∧
    (calm e → is_Some r) ∧
    ∀ s out, r = Some (s, out) → json_string out ∧ text out ∧ zlen out <= s ∧ s < 6 * Z.of_nat str_len + 257.
Proof.
  intros Hw Hmax ->. unfold INT_MAX in Hmax. unfold flb_utils_write_str_buf. unfold mbind at 1, M_bind at 1.
  destruct (malloc_cases e) as [[(script & ->) Hc]|(script & -> & Hc)].
  { eexists _, _. split; [done|]. split; [done|]. by intros s out. }
  destruct (write_str_buf_loop_ends vector inst_len mem str_len Hw escape_unicode (str_len + 2) (Z.of_nat str_len + 1)
    (set_e_next (S (e_next (env_of e))) (set_e_alloc script (env_of e)))) as (r & e' & Hrun & Hcalm & Hout); [lia|lia|lia|lia|].
  exists r, e'. split; [exact Hrun|]. split.
  - intros He. apply Hcalm. pose proof (Hc He) as ->. destruct He. by split.
  - intros s out Hr. destruct (Hout s out Hr) as ([? ?] & ? & ? & ? & ?). split_and!; try done. lia.
Qed.

Lemma rounds_step vector inst_len fuel step mem str_len vlen i i' available out r :
  scan vector inst_len (S vlen) mem vlen i = Some i' →
  Nat.ltb i i' && (available <? Z.of_nat (i' - i)) = false →
  (let chunk := take (i' - i) (drop i mem) in
   chars inst_len (S str_len) step 0 str_len i' (available - zlen chunk) (out ++ chunk) = Some (Some r)) →
  rounds vector inst_len (S fuel) step mem str_len vlen i available out =
    if r.1.1.1 : bool then Some (Some r.2)
    else rounds vector inst_len fuel step mem str_len vlen r.1.1.2 r.1.2 r.2.
Proof.
  intros Hscan Hroom Hchars. cbn [rounds]. rewrite Hscan. cbn [mbind option_bind]. rewrite Hroom, Hchars.
  by destruct r as [[[[] i''] available'] out'].
Qed.

(** The Euro sign and 29 letters, 32 bytes *)
Definition ex_overread : list Z := [0xE2; 0x82; 0xAC] ++ replicate 29 97.

(** With vector instructions the string is read past its end.  After the slow path has used up a
    character of several bytes, the chunks are no longer aligned, and the last one ends past the
    string: of this string of 32 bytes, with chunks of 16, [flb_utils_write_str_raw] loads the two
    bytes that follow it; when they are ordinary characters it writes them too, as part of the
    string; and when the memory ends with the string the load is out of bounds. *)
Theorem write_str_overreads x y :
  special x = false → special y = false →
  flb_utils_write_str true 16 0 64 (ex_overread ++ [x; y]) 32 false = Some (Some (ex_overread ++ [x; y])) ∧
  flb_utils_write_str true 16 0 64 ex_overread 32 false = None.
Proof.
  intros Hx Hy. split; [|by vm_compute]. set (mem := ex_overread ++ [x; y]).
  unfold flb_utils_write_str, flb_utils_write_str_raw. change (vlen_of 16 32) with 32%nat. change (u64 (64 - 0)) with 64. cbv zeta.
  assert (Hscan : scan true 16 33 mem 32 18 = Some 34%nat).
  { unfold scan at 1. change (Nat.ltb 18 32) with true. cbv iota.
    assert (Hc : chunk_special true 16 mem 18 = Some (existsb special (replicate 14 97 ++ [x; y]))) by (vm_compute; reflexivity).
    rewrite Hc, existsb_app. cbn [existsb]. rewrite Hx, Hy. done. }
  rewrite (rounds_step true 16 32 (raw_char mem 32) mem 32 32 0 0 64 [] (false, 18%nat, 46, take 18 ex_overread))
    by (vm_compute; reflexivity).
  cbn [fst snd].
  rewrite (rounds_step true 16 31 (raw_char mem 32) mem 32 32 18 34 46 (take 18 ex_overread)
    (true, 34%nat, 30, ex_overread ++ [x; y]));
    [reflexivity|exact Hscan|reflexivity|vm_compute; reflexivity].
Qed.

Lemma write_str_overreads_witness :
  flb_utils_write_str true 16 0 64 (ex_overread ++ [83; 33]) 32 false = Some (Some (ex_overread ++ [83; 33])) ∧
  flb_utils_write_str true 16 0 64 ex_overread 32 false = None.
Proof. apply (write_str_overreads 83 33); reflexivity. Defined.

(** The string "a", a quotation mark, a NUL and the Euro sign, and two bytes after it *)
Definition ex_mem : list Z := [97; QUOTE; 0; 0xE2; 0x82; 0xAC; 1; 2].

Lemma ex_writable : writable false 16 ex_mem 6.
Proof.
  split; [by exists 4%nat| |by vm_compute; lia|done]. unfold ex_mem, bytes_ok, is_byte, QUOTE.
  repeat (apply Forall_cons; split; [lia|]). constructor.
Qed.

Example ex_write :
  flb_utils_write_str false 16 0 64 ex_mem 6 true =
    Some (Some [97; 92; 34; 92; 117; 48; 48; 48; 48; 92; 117; 50; 48; 97; 99]) ∧
  flb_utils_write_str false 16 0 4 ex_mem 6 false = Some None.
Proof. vm_compute. done. Qed.

Lemma write_str_safe_witness :
  ∃ r, flb_utils_write_str false 16 0 64 ex_mem 6 true = Some r ∧
    (r = None → 64 - 0 < 6 * Z.of_nat 6) ∧
    ∀ out, r = Some out → json_string out ∧ text out ∧ zlen out <= 64 - 0 ∧ zlen out <= 6 * Z.of_nat 6.
Proof. apply (write_str_safe false 16 0 64 ex_mem 6 true ex_writable); lia. Defined.

Lemma json_string_roundtrip_witness :
  ∃ out, flb_utils_write_str false 16 0 64 ex_mem 6 true = Some (Some out) ∧
    flb_unescape_string_utf8 out 37 = Some (Z.of_nat 6, take 6 ex_mem ++ [0]).
Proof.
  apply (json_string_roundtrip false 16 0 64 ex_mem 6 true 37 ex_writable); [|lia..].
  exists [97; QUOTE; 0; 0x20AC]. split; [|reflexivity].
  repeat (apply Forall_cons; split; [left; unfold QUOTE; lia|]). constructor.
Defined.

Definition ex_env : env := mk_env [] [] [] 0 0 [].

Lemma write_str_buf_ends_witness :
  ∃ r e', flb_utils_write_str_buf false 16 8 ex_mem 6 false ex_env = Some (r, e') ∧
    (calm ex_env → is_Some r) ∧
    ∀ s out, r = Some (s, out) → json_string out ∧ text out ∧ zlen out <= s ∧ s < 6 * Z.of_nat 6 + 257.
Proof. apply (write_str_buf_ends false 16 ex_mem 6 false 8 ex_env ex_writable); [vm_compute; congruence|reflexivity]. Defined.
